(* ===== verification/_CoqProject ===== *)
-Q . S2P
Prelude.v
FdFile.v
ArtObjects.v
Listener.v
Instrumentation.v
InstrumentationStack.v
InstrumentationControl.v
MiniTraceCodec.v
MiniTraceLog.v
MiniTraceConc.v
MiniTraceText.v
MiniTraceClasses.v
MiniTraceControl.v
Leb128.v
Utf.v
ClassData.v
ClassLoading.v
FieldLayout.v
FieldLinking.v
ReferenceWalk.v
ClassLinking.v
HashSet.v
DexLookup.v
InternTable.v
Transaction.v
IndirectReferences.v
LockWord.v
Monitor.v
MonitorInvariant.v
MonitorWaiting.v
MonitorProofs.v
Mutex.v
MutexInvariant.v
MutexSteps.v
MutexProofs.v
RwMutex.v
RwInvariant.v
RwProofs.v
