(* ===== verification/Prelude.v ===== *)
(** * AATT's modified Android runtime: a verification development

    AATT traces Android applications with a modified Android runtime,
    [src/mini-tracing-art6].  The modification is a tracer, [MiniTrace]
    ([runtime/mini_trace.{h,cc}]).  It listens to the runtime's
    instrumentation, writes a fixed-size record per event into a buffer that
    is flushed to a file, marks the classes to trace with an access flag, and
    keeps one coverage byte per code unit of the dex files.  The development
    models the tracer and the parts of the runtime it stands on, and states
    what they do, on every branch, error paths included.

    ** The parts and where they are modelled

    - [Prelude] (this file): outcomes (a result or a fault: a failed [CHECK],
      a null dereference, an access outside an array, an uncaught exception),
      the state monad with faults that all stateful code is written in,
      machine integers, byte arrays and flags.
    - [FdFile]: [base/unix_file/fd_file.{h,cc}], [os_linux.cc].  A file is a
      record with its descriptor and its guard state.  The kernel is the class
      [PosixOps] with the laws [PosixLaws]; [ScriptOS] and [SteadyOS] are
      instances.  [WriteFully] returns and is exact
      ([WriteFully_all_or_prefix]); after [FlushCloseOrErase] a file can be
      destroyed ([FlushCloseOrErase_destroyable]).
    - [ArtObjects]: methods, fields, classes, dex files and their coverage
      bytes ([art_method.h], [art_field.h], [mirror/class.h], [dex_file.cc],
      [modifiers.h]) as records in a heap indexed by address, and the walk
      over the class table.
    - [Listener]: the call-backs of [InstrumentationListener] as the class
      [ListenerOps] with the laws [ListenerLaws].  The instrumentation is
      proved against it, and the tracer is an instance ([MiniTraceControl]).
    - [Instrumentation], [InstrumentationStack], [InstrumentationControl]:
      [instrumentation.{h,cc}] and the walk of [stack.cc].  The registry of
      listeners and the delivery of events ([registry_refines],
      [events_delivered]), the stubs of methods ([class_walk_installs_stubs],
      [stub_roundtrip]), the exit stubs of stacks with their side stack
      ([install_stack_ok], [install_restore_roundtrip], [call_roundtrip]), and
      the operations clients call: levels, tracing, deoptimization and
      allocation entry points ([configure_highest_level],
      [tracing_roundtrip], [DisableDeoptimization_returns],
      [alloc_entrypoints_counted]).  [reinstall_aborts],
      [interpreted_stack_not_reported] and [undeoptimize_breaks_tracing] are
      runs in which the code does not do what it means to.
    - [MiniTraceCodec]: the fourteen-byte records ([record_roundtrip]), and
      the address a method record loses ([method_record_address]).
    - [MiniTraceLog]: the buffer as one thread sees it: reservation, overflow
      and flush ([log_event_total], [log_lossless], [flush_visits]), with an
      abstract tracer it refines ([log_refines]).
    - [MiniTraceConc]: the same code in atomic steps of several threads.
      [concurrent_log_linear] is an invariant of all interleavings while the
      buffer has room; [stale_exchange_overruns] and [flush_loses_event] are
      runs that break it when the buffer overflows.
    - [MiniTraceText]: the lists of the info file and the configuration file
      ([config_meaning]).
    - [MiniTraceClasses]: [PostClassPrepare] and the coverage dump
      ([prepare_marks_selected], [coverage_roundtrip]).
    - [MiniTraceControl]: [Start], [Stop], [Shutdown] and the signals of
      [signal_catcher.cc], on the whole runtime ([start_traces],
      [finish_writes], [stop_total], [coverage_dump_total], and the failures
      [stop_after_method_entry_faults] and [failed_start_aborts]).
    - [Leb128], [Utf]: the numbers and strings of dex files ([leb128.h],
      [utf.cc], [utf-inl.h]; [leb128_roundtrip], [utf_roundtrip]).
    - [ClassData], [ClassLoading]: the class data iterator of [dex_file.h]
      ([class_data_roundtrip]), and how [class_linker.cc] loads and links the
      members of a class and replaces the trampolines of static methods
      ([load_class_links]).  [loaded_class_interpreted] follows a class from
      loading to initialization while a trace is on.
    - [FieldLayout], [FieldLinking], [ReferenceWalk], [ClassLinking]: where
      [class_linker.cc] puts the fields of a class, with the sizes of
      [primitive.h], [mirror/class-inl.h] and the walk of
      [mirror/object-inl.h].  [FieldLayout] models all of it and proves the
      invariant of the loops, in which fields and gaps are a partition of the
      bytes of the layout; [FieldLinking] proves [LinkFields] and the size of
      class objects, [ReferenceWalk] the bitmap of references, and
      [ClassLinking] the theorems: no overlap and no failed check
      ([field_layout_safe]), the size that is counted from the class data is
      the size that is laid out, the embedded tables of instantiable classes apart
      ([class_size_agrees]), the collector visits
      exactly the references ([collector_visits_references]).
      [gap_left_unused] is a class that is larger than it needs to be.
    - [HashSet]: the open-addressing set of [base/hash_set.h], generic in the
      functors of the template, which are the classes [SlotOps], [KeyOps] and
      [SlotBytes] with their laws.  It behaves as a multiset
      ([hash_set_refines]), [Verify] decides the probing invariant
      ([verify_decides_probing]), and it survives being written to memory
      ([hash_set_memory_roundtrip]); [shrink_then_find_diverges] is a set whose
      lookups do not end.
    - [DexLookup]: the searches of [dex_file.cc] in sorted tables, equal to
      scans ([id_lookups_scan], [find_try_item_scan]); [FindClassDef] with the
      index it builds in a [HashSet] ([class_lookup_stable]); signatures
      ([signature_roundtrip]).  [find_string_utf16_only_middle] is the search
      that goes the wrong way.
    - [InternTable]: [intern_table.{h,cc}] on [HashSet] and [DexLookup].
      Interning is canonical ([intern_canonical]), a collection keeps what is
      marked ([sweep_keeps_marked]), and the table goes through an image
      ([image_interns_roundtrip]).
    - [Transaction]: [transaction.{h,cc}], the recorded writes of
      [mirror/object-inl.h] and [mirror/array-inl.h], and the class
      initializers that [compiler_driver.cc] runs in a transaction, on a heap
      of bytes and the [InternTable].  A failed initializer is undone
      ([failed_initializer_undone]), a successful one commits
      ([successful_initializer_commits]); [log_references_not_moved],
      [failed_cas_rolls_back_wrong] and [float_element_lost] are what the logs
      get wrong.
    - [IndirectReferences]: [indirect_reference_table.{h,cc}] and the frames of
      local references of [jni_env_ext.cc], [jni_internal.cc] and
      [quick_jni_entrypoints.cc].  They implement a stack of maps
      ([local_references_refine]) and detect stale references
      ([stale_references_detected]).
    - [LockWord]: [lock_word.h] and [lock_word-inl.h], bit by bit
      ([lock_word_roundtrip]).
    - [Monitor]: the lock of one object and the threads that use it, in atomic
      steps: [monitor.cc], [Object::IdentityHashCode], and of [thread.cc] and
      [thread_list.cc] what suspends, resumes, interrupts and notifies a thread.
      [MonitorInvariant] and [MonitorWaiting] prove the invariant of the steps
      on the lock word and of those under the monitor's mutex, [MonitorProofs]
      the theorems: no step faults ([monitor_type_safe]), [mutual_exclusion],
      absence of deadlock and of lost wake-ups ([monitor_progress]), hash codes
      that do not change ([identity_hash_stable]), the order of notifications
      ([notify_in_order]) and the range of the counters
      ([monitor_counters_bounded]).  [notification_lost] is a run in which an
      interrupted thread uses up a notification.
    - [Mutex], [MutexInvariant], [MutexSteps], [MutexProofs]: a [Mutex] of
      [base/mutex.{h,cc}], [base/mutex-inl.h], its condition variables and the
      threads that use them, in atomic steps between futex calls; the kernel is
      the class [FutexKernel] with the laws [FutexKernelLaws].  [MutexInvariant]
      and [MutexSteps] prove the invariant, [MutexProofs] the theorems: one owner
      and no failed check ([mutex_exclusion]), no lost wake-up and no endless
      spinning ([mutex_progress]), signals and broadcasts that reach the threads
      that wait ([notify_reaches_waiters]), and the checks that wrong calls fail
      ([misuse_aborts]).
    - [RwMutex], [RwInvariant], [RwProofs]: the [ReaderWriterMutex] of the same
      files ([rw_exclusion], [rw_progress]).  A reader whose wait is interrupted
      aborts the runtime, which [rw_exclusion] states.

    ** How code is translated

    Functions keep the names of the source; a name that two classes use is
    prefixed with its class ([Table_Insert], [IRT_Add]).  A pointer is an
    address ([Z]), 0 the null pointer; reading through one that names nothing
    is a fault.  An integer has the width of the source where it can matter,
    with the wrap-around written out ([u16], [u32], [s32]).  [CHECK] is a fault
    when it fails; [DCHECK], which is compiled out of the library that is
    shipped, and [LOG] lines are left out; the block of [LinkFields] for debug
    builds is there, under a flag, and the mutexes have the checks of a debug
    build.  Code that runs with all other
    threads suspended, or under the lock of its table, is atomic;
    [MiniTraceConc], [Monitor], [Mutex] and [RwMutex] interleave threads, because
    logging and locking run without a lock.  A call that waits for a condition
    returns [Waits] ([InternTable]) or leaves its thread asleep ([Monitor],
    [Mutex], [RwMutex]).

    What is outside of the sources is a parameter: the kernel's calls, the
    addresses the linear allocator returns, the contents of oat files, of
    configuration files and of the memory of dex files, what the collector
    answers for an object, and the contents of strings.

    ** Loops and fuel

    Loops over lists are structural.  The others carry fuel, and a theorem
    shows that it is enough, so that running out of it is never the reason why
    a result holds: retried system calls use the kernel's [patience], which
    [PosixLaws] lets decrease with every interruption; the reservation loop
    needs two rounds when no other thread interferes; the scan of the buffer
    and the loops over strings use the length of the data; a 32-bit LEB128
    number has at most five bytes; [DisableDeoptimization] uses the number of
    deoptimized methods; the loops over class data use the number of members;
    the loops of a hash set use the number of its slots, twice that for a
    sweep, which can visit an element again; bisections use the length of the
    table; the loops over holes use the index of the topmost entry; the loops
    over a wait set use the number of threads, and a hash code is found at the
    second try; a gap is filled in as many rounds as it has bytes, a bitmap is
    read in 32, and the walk over super classes uses the depth of the class.
    Sizes of tables are bounded by 2^46 to 2^49, so that the doubles of the load
    factors are exact; layouts end before 2^32.  The mutexes are used by fewer
    than 2^30 threads, those of readers and writers by fewer than 2^31 - 1, so
    that their counters do not overflow; a free mutex is taken after at most nine
    steps per thread, one of readers and writers after at most six.

    ** What the theorems leave to the code

    A theorem about code that can fail says when it does.  Marking a class that
    has a native or abstract method dereferences null: [prepare_marks_selected],
    [start_traces] and [loaded_class_interpreted] have both cases.  Listing the
    visited methods fails when a method entry was recorded, whose address the
    record loses: [finish_writes] and [stop_total] have both cases.  Exit stubs
    can be installed again only if no compiled frame without one lies below a
    frame with one: [install_stack_ok] has both cases.

    ** What is not modelled

    The compilers, the garbage collector, the verifier, the interpreter's
    execution of code, the debugger, the other functions of JNI, and the rest
    of class linking (super classes, method tables, resolution).
    Of the interpreter and of compiled code the development has the events they
    report and the entry points they are reached by; of the collector it has
    the visits to roots and the questions it answers.  Of the mutexes the
    recording of contention, the table of the runtime's locks ([Locks::Init]), the
    variants on pthreads and threads that are not attached are not modelled; the
    other files use a mutex as a region that one thread is in.  Memory is
    sequentially consistent; time, and with it the length of a timed wait,
    is not modelled, so that a waiting thread may wake at any moment.  The Java
    programs that drive the traced application from outside are not modelled. *)

From stdpp Require Export base gmap list strings numbers relations sorting.
From Stdlib Require Export ZArith Lia Ascii.

#[global] Open Scope Z_scope.

(** [lia] with the defining equations of the divisions in the goal. *)
Ltac mlia := Z.div_mod_to_equations; lia.

(** ** Faults and outcomes *)

(** What ends an execution abnormally: a failed [CHECK], a null dereference,
    an access outside an array, an uncaught C++ exception, a [LOG(FATAL)], a
    division by zero, a conversion whose behaviour C++ leaves undefined, or a
    model that was not given enough steps. *)
Inductive fault :=
| CheckFailed
| NullDereference
| OutOfBounds
| UncaughtException
| FatalLog
| DivisionByZero
| UndefinedConversion
| OutOfFuel.

Inductive outcome (A : Type) :=
| Ok (a : A)
| Fault (f : fault).
Arguments Ok {A} a.
Arguments Fault {A} f.

#[global] Instance fault_eq_dec : EqDecision fault.
Proof. solve_decision. Defined.

#[global] Instance outcome_ret : MRet outcome := fun A a => Ok a.

#[global] Instance outcome_bind : MBind outcome := fun A B k m =>
  match m with Ok a => k a | Fault f => Fault f end.

(** [CHECK(b)]. *)
Definition check (b : bool) : outcome unit :=
  if b then Ok tt else Fault CheckFailed.

Definition is_ok {A} (m : outcome A) : bool :=
  match m with Ok _ => true | Fault _ => false end.

(** ** A state monad with faults *)

Definition M (S A : Type) : Type := S -> outcome (A * S).

#[global] Instance M_ret {S} : MRet (M S) := fun A a s => Ok (a, s).

#[global] Instance M_bind {S} : MBind (M S) := fun A B k m s =>
  match m s with Ok (a, s') => k a s' | Fault f => Fault f end.

Definition gets {S A} (f : S -> A) : M S A := fun s => Ok (f s, s).

Definition modify {S} (f : S -> S) : M S unit := fun s => Ok (tt, f s).

Definition lift {S A} (m : outcome A) : M S A := fun s =>
  match m with Ok a => Ok (a, s) | Fault f => Fault f end.

Definition checkM {S} (b : bool) : M S unit := lift (check b).

Definition whenM {S} (b : bool) (m : M S unit) : M S unit :=
  if b then m else mret tt.

(** A C++ range-for whose body may fault. *)
Fixpoint forM {S A} (l : list A) (body : A -> M S unit) : M S unit :=
  match l with
  | [] => mret tt
  | x :: l => body x ;; forM l body
  end.

Lemma bind_ok {S A B} (m : M S A) (k : A -> M S B) s a s' :
  m s = Ok (a, s') -> (m ≫= k) s = k a s'.
Proof. unfold mbind, M_bind. by intros ->. Qed.

Lemma bind_inv {S A B} (m : M S A) (k : A -> M S B) s b s'' :
  (m ≫= k) s = Ok (b, s'') -> exists a s', m s = Ok (a, s') /\ k a s' = Ok (b, s'').
Proof.
  unfold mbind, M_bind. destruct (m s) as [[a s']|f]; [eauto | discriminate].
Qed.

(** Running the first step of a sequence. *)
Lemma bind_gets {S A B} (f : S -> A) (k : A -> M S B) s : (gets f ≫= k) s = k (f s) s.
Proof. done. Qed.

Lemma bind_modify {S B} (f : S -> S) (k : unit -> M S B) s : (modify f ≫= k) s = k tt (f s).
Proof. done. Qed.

Lemma bind_ret {S A B} (a : A) (k : A -> M S B) s : (mret a ≫= k) s = k a s.
Proof. done. Qed.

Lemma bind_fault {S A B} (m : M S A) (k : A -> M S B) (s : S) f : m s = Fault f -> (m ≫= k) s = Fault f.
Proof. intros H. unfold mbind, M_bind. by rewrite H. Qed.

Lemma bind_lift {S A B} (m : outcome A) (k : A -> M S B) s :
  (lift m ≫= k) s = match m with Ok a => k a s | Fault f => Fault f end.
Proof. unfold lift, mbind, M_bind. by destruct m. Qed.

Lemma bind_assoc {S A B C} (m : M S A) (k : A -> M S B) (k' : B -> M S C) s :
  ((m ≫= k) ≫= k') s = (m ≫= (fun a => k a ≫= k')) s.
Proof. unfold mbind, M_bind. by destruct (m s) as [[]|]. Qed.

Create Rewrite HintDb art_run.
#[export] Hint Rewrite @bind_gets @bind_modify @bind_ret @bind_lift @bind_assoc : art_run.

(** A property of states that every step of a loop keeps is kept by the loop. *)
Lemma forM_preserves {S A} (P : S -> Prop) (body : A -> M S unit) :
  (forall x s r s', P s -> body x s = Ok (r, s') -> P s') ->
  forall l s r s', P s -> forM l body s = Ok (r, s') -> P s'.
Proof.
  intros Hstep l. induction l as [|x l IH]; cbn; intros s r s' HP Heq.
  - by injection Heq as <- <-.
  - apply bind_inv in Heq as (a & s1 & H1 & H2). eauto.
Qed.

(** A loop whose body cannot fault on good states does not fault. *)
Lemma forM_total {S A} (P : S -> Prop) (body : A -> M S unit) :
  (forall x s, P s -> exists s', body x s = Ok (tt, s') /\ P s') ->
  forall l s, P s -> exists s', forM l body s = Ok (tt, s') /\ P s'.
Proof.
  intros Hstep l. induction l as [|x l IH]; cbn; intros s HP.
  - by exists s.
  - destruct (Hstep x s HP) as (s1 & H1 & HP1).
    destruct (IH s1 HP1) as (s2 & H2 & HP2).
    exists s2. by rewrite (bind_ok _ _ _ _ _ H1).
Qed.

(** A run does not change what [obs] sees of the state. *)
Definition invisible {S A X} (obs : S -> X) (m : M S A) : Prop := forall s a s', m s = Ok (a, s') -> obs s' = obs s.

Lemma invisible_bind {S A B X} (obs : S -> X) (m : M S A) (k : A -> M S B) :
  invisible obs m -> (forall a, invisible obs (k a)) -> invisible obs (m ≫= k).
Proof. intros Hm Hk c b c'' (a & c' & H1 & H2)%bind_inv. rewrite (Hk a c' b c'' H2). by apply (Hm c a). Qed.

Lemma invisible_gets {S A X} (obs : S -> X) (f : S -> A) : invisible obs (gets f).
Proof. intros c a c' [= _ <-]. done. Qed.

Lemma invisible_ret {S A X} (obs : S -> X) (a : A) : invisible obs (mret a).
Proof. intros c b c' [= _ <-]. done. Qed.

Lemma invisible_lift {S A X} (obs : S -> X) (o : outcome A) : invisible obs (lift o).
Proof. intros c a c'. unfold lift. destruct o; [by intros [= _ <-]|done]. Qed.

Lemma invisible_when {S X} (obs : S -> X) (b : bool) (m : M S unit) : invisible obs m -> invisible obs (whenM b m).
Proof. destruct b; [done|]. intros _. apply invisible_ret. Qed.

Create HintDb invisible.
#[export] Hint Resolve invisible_gets invisible_ret invisible_lift : invisible.

(** Apart from the operations in [invisible], a run is made of binds and cases. *)
Ltac invisible :=
  repeat first [ done | solve [auto with invisible] | apply invisible_bind; intros | apply invisible_when | case_match ].

(** ** Machine integers *)

Definition u8 (x : Z) : Z := x mod 2 ^ 8.
Definition u16 (x : Z) : Z := x mod 2 ^ 16.
Definition u32 (x : Z) : Z := x mod 2 ^ 32.
Definition u64 (x : Z) : Z := x mod 2 ^ 64.
Definition s8 (x : Z) : Z := (x + 2 ^ 7) mod 2 ^ 8 - 2 ^ 7.
Definition s16 (x : Z) : Z := (x + 2 ^ 15) mod 2 ^ 16 - 2 ^ 15.
Definition s32 (x : Z) : Z := (x + 2 ^ 31) mod 2 ^ 32 - 2 ^ 31.
Definition s64 (x : Z) : Z := (x + 2 ^ 63) mod 2 ^ 64 - 2 ^ 63.

Lemma u8_range x : 0 <= u8 x < 256.
Proof. apply Z.mod_pos_bound. lia. Qed.

Lemma u16_range x : 0 <= u16 x < 2 ^ 16.
Proof. apply Z.mod_pos_bound. lia. Qed.

Lemma u32_range x : 0 <= u32 x < 2 ^ 32.
Proof. apply Z.mod_pos_bound. lia. Qed.

Lemma u64_range x : 0 <= u64 x < 2 ^ 64.
Proof. apply Z.mod_pos_bound. lia. Qed.

Lemma u16_small x : 0 <= x < 2 ^ 16 -> u16 x = x.
Proof. apply Z.mod_small. Qed.

Lemma u32_small x : 0 <= x < 2 ^ 32 -> u32 x = x.
Proof. apply Z.mod_small. Qed.

Lemma u64_small x : 0 <= x < 2 ^ 64 -> u64 x = x.
Proof. apply Z.mod_small. Qed.

Lemma s32_small x : - 2 ^ 31 <= x < 2 ^ 31 -> s32 x = x.
Proof. intros. unfold s32. rewrite Z.mod_small; lia. Qed.

Lemma s64_small x : - 2 ^ 63 <= x < 2 ^ 63 -> s64 x = x.
Proof. intros. unfold s64. rewrite Z.mod_small; lia. Qed.

Lemma s32_range x : - 2 ^ 31 <= s32 x < 2 ^ 31.
Proof. unfold s32. pose proof (Z.mod_pos_bound (x + 2 ^ 31) (2 ^ 32)). lia. Qed.

(** [HasFlag flags bit]: the C++ test [(flags & bit) != 0]. *)
Definition HasFlag (flags bit : Z) : bool := negb (Z.land flags bit =? 0).

(** A flag test with a one-bit mask is a bit test. *)
Lemma HasFlag_pow2 flags n :
  0 <= n -> HasFlag flags (2 ^ n) = Z.testbit flags n.
Proof.
  intros Hn. unfold HasFlag.
  destruct (Z.testbit flags n) eqn:E.
  - apply negb_true_iff, Z.eqb_neq. intros H0.
    assert (Z.testbit (Z.land flags (2 ^ n)) n = true) as Ht
      by (rewrite Z.land_spec, E, Z.pow2_bits_true by done; done).
    by rewrite H0, Z.bits_0 in Ht.
  - apply negb_false_iff, Z.eqb_eq, Z.bits_inj'. intros i Hi.
    rewrite Z.bits_0, Z.land_spec, Z.pow2_bits_eqb by done.
    destruct (Z.eqb_spec n i) as [->|]; [by rewrite E | by rewrite andb_false_r].
Qed.

Lemma land_ones_mod x n : 0 <= n -> Z.land x (2 ^ n - 1) = x mod 2 ^ n.
Proof. intros Hn. rewrite <- Z.land_ones by done. f_equal. rewrite Z.ones_equiv. lia. Qed.

(** Bits that do not overlap add up. *)
Lemma lor_shiftl_add a b n :
  0 <= n -> 0 <= a < 2 ^ n -> Z.lor a (Z.shiftl b n) = a + b * 2 ^ n.
Proof.
  intros Hn Ha. rewrite <- Z.shiftl_mul_pow2 by done.
  assert (Z.land a (Z.shiftl b n) = 0) as Hz.
  { apply Z.bits_inj'. intros i Hi. rewrite Z.land_spec, Z.bits_0.
    destruct (Z.lt_ge_cases i n).
    - rewrite Z.shiftl_spec_low by done. by rewrite andb_false_r.
    - rewrite <- (Z.mod_small a (2 ^ n)) by done.
      by rewrite Z.mod_pow2_bits_high by lia. }
  by rewrite Z.add_nocarry_lxor, Z.lxor_lor.
Qed.

(** ** Little-endian byte lists *)

Fixpoint le_bytes (n : nat) (v : Z) : list Z :=
  match n with
  | O => []
  | S n => v mod 256 :: le_bytes n (v / 256)
  end.

Fixpoint le_value (bs : list Z) : Z :=
  match bs with
  | [] => 0
  | b :: bs => b + 256 * le_value bs
  end.

Lemma length_le_bytes n v : length (le_bytes n v) = n.
Proof. revert v. induction n; cbn; auto. Qed.

Lemma le_bytes_byte n v : Forall (fun b => 0 <= b < 256) (le_bytes n v).
Proof.
  revert v. induction n as [|n IH]; intros v; cbn; constructor; [|done].
  apply Z.mod_pos_bound. lia.
Qed.

Lemma le_value_bytes n v : le_value (le_bytes n v) = v mod 2 ^ (8 * Z.of_nat n).
Proof.
  revert v. induction n as [|n IH]; intros v; cbn [le_bytes le_value].
  - by rewrite Z.mul_0_r, Z.pow_0_r, Z.mod_1_r.
  - rewrite IH. rewrite Nat2Z.inj_succ.
    replace (8 * Z.succ (Z.of_nat n)) with (8 + 8 * Z.of_nat n) by lia.
    rewrite Z.pow_add_r by lia. change (2 ^ 8) with 256.
    rewrite Z.rem_mul_r; [done | lia |]. apply Z.pow_pos_nonneg; lia.
Qed.

Lemma le_bytes_mod n v w : v mod 2 ^ (8 * Z.of_nat n) = w mod 2 ^ (8 * Z.of_nat n) ->
  le_bytes n v = le_bytes n w.
Proof.
  revert v w. induction n as [|n IH]; intros v w H; [done|]. cbn [le_bytes].
  rewrite Nat2Z.inj_succ in H.
  replace (8 * Z.succ (Z.of_nat n)) with (8 + 8 * Z.of_nat n) in H by lia.
  rewrite Z.pow_add_r in H by lia. change (2 ^ 8) with 256 in H.
  assert (0 < 2 ^ (8 * Z.of_nat n)) by (apply Z.pow_pos_nonneg; lia).
  rewrite !Z.rem_mul_r in H by lia.
  pose proof (Z.mod_pos_bound v 256). pose proof (Z.mod_pos_bound w 256).
  f_equal; [lia|]. apply IH. lia.
Qed.

Lemma le_value_app bs1 bs2 :
  le_value (bs1 ++ bs2) = le_value bs1 + 2 ^ (8 * Z.of_nat (length bs1)) * le_value bs2.
Proof.
  induction bs1 as [|b bs1 IH]; cbn [le_value length app].
  - change (8 * Z.of_nat 0) with 0. lia.
  - rewrite IH, Nat2Z.inj_succ.
    replace (8 * Z.succ (Z.of_nat (length bs1))) with (8 + 8 * Z.of_nat (length bs1)) by lia.
    rewrite Z.pow_add_r by lia. change (2 ^ 8) with 256. ring.
Qed.

Lemma le_value_range bs :
  Forall (fun b => 0 <= b < 256) bs -> 0 <= le_value bs < 2 ^ (8 * Z.of_nat (length bs)).
Proof.
  induction 1 as [|b bs Hb Hbs IH]; cbn [le_value length]; [lia|].
  rewrite Nat2Z.inj_succ.
  replace (8 * Z.succ (Z.of_nat (length bs))) with (8 + 8 * Z.of_nat (length bs)) by lia.
  rewrite Z.pow_add_r by lia. change (2 ^ 8) with 256. lia.
Qed.

(** ** Arrays of bytes *)

(** [*(buf + i) = b]: a store through a raw pointer. *)
Definition poke (buf : list Z) (i b : Z) : outcome (list Z) :=
  if (0 <=? i) && (i <? Z.of_nat (length buf))
  then Ok (<[Z.to_nat i := b]> buf)
  else Fault OutOfBounds.

(** [*(buf + i)]. *)
Definition peek (buf : list Z) (i : Z) : outcome Z :=
  if 0 <=? i then
    match buf !! Z.to_nat i with Some b => Ok b | None => Fault OutOfBounds end
  else Fault OutOfBounds.

(** A run of [*buf++ = b] stores. *)
Fixpoint poke_all (buf : list Z) (i : Z) (bs : list Z) : outcome (list Z) :=
  match bs with
  | [] => Ok buf
  | b :: bs => buf ← poke buf i b; poke_all buf (i + 1) bs
  end.

Definition splice (buf : list Z) (i : nat) (bs : list Z) : list Z :=
  take i buf ++ bs ++ drop (i + length bs) buf.

Lemma length_splice buf i bs :
  (i + length bs <= length buf)%nat -> length (splice buf i bs) = length buf.
Proof. intros. unfold splice. rewrite !length_app, length_take, length_drop. lia. Qed.

Lemma poke_ok buf i b :
  0 <= i < Z.of_nat (length buf) -> poke buf i b = Ok (<[Z.to_nat i := b]> buf).
Proof.
  intros [? ?]. unfold poke.
  by rewrite (proj2 (Z.leb_le _ _)), (proj2 (Z.ltb_lt _ _)).
Qed.

Lemma splice_cons buf i b bs :
  (i + S (length bs) <= length buf)%nat ->
  splice (<[i := b]> buf) (S i) bs = splice buf i (b :: bs).
Proof.
  intros Hlen. unfold splice. cbn [length].
  rewrite (take_S_r _ i b) by (apply list_lookup_insert_eq; lia).
  rewrite take_insert_ge, drop_insert_lt by lia.
  rewrite <- app_assoc. cbn. repeat f_equal. lia.
Qed.

(** Two adjacent stores are one. *)
Lemma splice_splice buf i bs1 bs2 :
  (i + length bs1 + length bs2 <= length buf)%nat ->
  splice (splice buf i bs1) (i + length bs1) bs2 = splice buf i (bs1 ++ bs2).
Proof.
  intros Hlen. unfold splice. rewrite length_app.
  rewrite (app_assoc (take i buf) bs1).
  rewrite take_app_length' by (rewrite length_app, length_take; lia).
  rewrite <- !app_assoc. do 3 f_equal.
  rewrite !drop_app, ?length_app, !length_take. rewrite drop_ge by (rewrite length_take; lia).
  rewrite (drop_ge bs1) by lia. cbn. rewrite drop_drop. f_equal. lia.
Qed.

Lemma poke_all_ok buf i bs :
  0 <= i -> i + Z.of_nat (length bs) <= Z.of_nat (length buf) ->
  poke_all buf i bs = Ok (splice buf (Z.to_nat i) bs).
Proof.
  revert buf i. induction bs as [|b bs IH]; intros buf i Hi Hlen; cbn [poke_all length] in *.
  - unfold splice. cbn. by rewrite Nat.add_0_r, take_drop.
  - rewrite poke_ok by lia. cbn [mbind outcome_bind].
    rewrite IH by (rewrite ?length_insert; lia). f_equal.
    replace (Z.to_nat (i + 1)) with (S (Z.to_nat i)) by lia.
    apply splice_cons. lia.
Qed.

Lemma poke_all_fault buf i bs :
  bs <> [] -> Z.of_nat (length buf) < i + Z.of_nat (length bs) ->
  poke_all buf i bs = Fault OutOfBounds.
Proof.
  revert buf i. induction bs as [|b bs IH]; intros buf i Hne Hlen; [done|].
  cbn [poke_all length] in *. unfold poke.
  destruct (0 <=? i) eqn:E1, (i <? Z.of_nat (length buf)) eqn:E2; try done.
  cbn [andb mbind outcome_bind].
  apply IH; [|rewrite length_insert; lia].
  destruct bs; [cbn in *; lia | done].
Qed.

Lemma peek_ok buf i b :
  0 <= i -> buf !! Z.to_nat i = Some b -> peek buf i = Ok b.
Proof. intros ? Hb. unfold peek. by rewrite (proj2 (Z.leb_le _ _)), Hb. Qed.

(** Reading from a run of bytes that starts at [ptr]. *)
Lemma peek_at data ptr (bs rest : list Z) k b :
  0 <= ptr -> drop (Z.to_nat ptr) data = bs ++ rest -> 0 <= k -> bs !! Z.to_nat k = Some b -> peek data (ptr + k) = Ok b.
Proof.
  intros Hp Hd Hk Hb. apply peek_ok; [lia|]. replace (Z.to_nat (ptr + k)) with (Z.to_nat ptr + Z.to_nat k)%nat by lia.
  rewrite <- lookup_drop, Hd. by apply lookup_app_l_Some.
Qed.

Lemma drop_next data ptr (bs rest : list Z) :
  0 <= ptr -> drop (Z.to_nat ptr) data = bs ++ rest -> drop (Z.to_nat (ptr + Z.of_nat (length bs))) data = rest.
Proof.
  intros Hp Hd. replace (Z.to_nat (ptr + Z.of_nat (length bs))) with (Z.to_nat ptr + length bs)%nat by lia.
  rewrite <- drop_drop, Hd. apply drop_app_length.
Qed.

(** ** Sums over a map *)

Definition total {A} (w : A -> Z) (ts : gmap Z A) : Z := map_fold (fun _ th acc => w th + acc) 0 ts.

Lemma total_empty {A} (w : A -> Z) : total w ∅ = 0.
Proof. apply map_fold_empty. Qed.

Lemma total_insert_new {A} (w : A -> Z) t th (ts : gmap Z A) : ts !! t = None -> total w (<[t := th]> ts) = w th + total w ts.
Proof. intros Hn. unfold total. rewrite map_fold_insert_L; [done|intros; lia|done]. Qed.

Lemma total_delete {A} (w : A -> Z) t th (ts : gmap Z A) : ts !! t = Some th -> total w ts = w th + total w (delete t ts).
Proof. intros Hth. rewrite <- (insert_delete_id ts t th Hth) at 1. apply total_insert_new, lookup_delete_eq. Qed.

Lemma total_insert {A} (w : A -> Z) t th th' (ts : gmap Z A) : ts !! t = Some th -> total w (<[t := th']> ts) = total w ts - w th + w th'.
Proof.
  intros Hth. rewrite (total_delete w t th ts Hth), (total_delete w t th' (<[t := th']> ts)) by apply lookup_insert_eq.
  rewrite delete_insert_eq. lia.
Qed.

Lemma total_nonneg {A} (w : A -> Z) (ts : gmap Z A) : (forall t th, ts !! t = Some th -> 0 <= w th) -> 0 <= total w ts.
Proof.
  induction ts as [|t th ts Hn IH] using map_ind; intros Hw; [by rewrite total_empty|]. rewrite total_insert_new by done.
  pose proof (Hw t th (lookup_insert_eq _ _ _)). enough (0 <= total w ts) by lia. apply IH. intros u thu Hu.
  apply (Hw u). rewrite lookup_insert_ne; [done|congruence].
Qed.

Lemma total_ge {A} (w : A -> Z) t th (ts : gmap Z A) : (forall t th, ts !! t = Some th -> 0 <= w th) -> ts !! t = Some th -> w th <= total w ts.
Proof.
  intros Hw Hth. rewrite (total_delete w t th ts Hth). enough (0 <= total w (delete t ts)) by lia.
  apply total_nonneg. intros u thu [_ Hu]%lookup_delete_Some. by apply (Hw u).
Qed.

Lemma total_le {A} (w : A -> Z) k (ts : gmap Z A) : (forall t th, ts !! t = Some th -> w th <= k) -> total w ts <= k * Z.of_nat (size ts).
Proof.
  induction ts as [|t th ts Hn IH] using map_ind; intros Hw; [rewrite total_empty, map_size_empty; lia|].
  rewrite total_insert_new, map_size_insert_None by done. pose proof (Hw t th (lookup_insert_eq _ _ _)).
  enough (total w ts <= k * Z.of_nat (size ts)) by lia. apply IH. intros u thu Hu.
  apply (Hw u). rewrite lookup_insert_ne; [done|congruence].
Qed.

Lemma total_mono {A} (w w' : A -> Z) (ts : gmap Z A) : (forall t th, ts !! t = Some th -> w th <= w' th) -> total w ts <= total w' ts.
Proof.
  induction ts as [|t th ts Hn IH] using map_ind; intros Hw; [done|]. rewrite !total_insert_new by done.
  pose proof (Hw t th (lookup_insert_eq _ _ _)). enough (total w ts <= total w' ts) by lia. apply IH. intros u thu Hu.
  apply (Hw u). rewrite lookup_insert_ne; [done|congruence].
Qed.

Lemma total_fmap {A} (w : A -> Z) (f : A -> A) (ts : gmap Z A) : total w (f <$> ts) = total (fun th => w (f th)) ts.
Proof.
  induction ts as [|t th ts Hn IH] using map_ind; [by rewrite fmap_empty|].
  rewrite fmap_insert, !total_insert_new; [by rewrite IH|done|]. by rewrite lookup_fmap, Hn.
Qed.

Lemma total_pos {A} (w : A -> Z) (ts : gmap Z A) : total w ts <> 0 -> exists t th, ts !! t = Some th /\ w th <> 0.
Proof.
  induction ts as [|t th ts Hn IH] using map_ind; intros Ht; [by rewrite total_empty in Ht|].
  rewrite total_insert_new in Ht by done. destruct (decide (w th = 0)) as [H0|H0].
  - destruct IH as (u & thu & Hu & Hw); [lia|]. exists u, thu. split; [|done]. rewrite lookup_insert_ne; [done|congruence].
  - exists t, th. split; [apply lookup_insert_eq|done].
Qed.

Lemma total_ext {A} (w : A -> Z) (ts : gmap Z A) w' : (forall t th, ts !! t = Some th -> w th = w' th) -> total w ts = total w' ts.
Proof.
  induction ts as [|t th ts Hn IH] using map_ind; intros Hw; [done|]. rewrite !total_insert_new by done.
  rewrite (Hw t th (lookup_insert_eq _ _ _)), IH; [done|]. intros u thu Hu. apply (Hw u). rewrite lookup_insert_ne; [done|congruence].
Qed.

(** ** Automation *)

Create HintDb art.

#[export] Hint Resolve u8_range u16_range u32_range u64_range s32_range : art.
#[export] Hint Resolve length_le_bytes le_bytes_byte : art.
Create Rewrite HintDb art_len.
#[export] Hint Rewrite @length_app @length_take @length_drop @length_insert length_le_bytes : art_len.

(** Take a monadic run apart: every [m ≫= k] that returned gives its two halves. *)
Ltac unbind :=
  repeat match goal with
  | H : (_ ≫= _) _ = Ok _ |- _ => apply bind_inv in H as (? & ? & ? & H)
  | H : gets _ _ = Ok _ |- _ => unfold gets in H; injection H as <- <-
  | H : modify _ _ = Ok _ |- _ => unfold modify in H; injection H as <- <-
  | H : mret _ _ = Ok _ |- _ => unfold mret, M_ret in H; injection H as <- <-
  end.
