(* ===== verification/FdFile.v ===== *)
(** * Files: [base/unix_file/fd_file.{h,cc}] and [os_linux.cc]

    [FdFile] wraps a file descriptor and guards its use: a writable file has
    to be flushed and closed before it is destroyed, or the runtime aborts.
    The kernel's calls are the interface [PosixOps], what the runtime relies
    on of them is [PosixLaws], and [ScriptOS] is a concrete kernel that
    satisfies the laws and replays a script of failures. *)

From S2P Require Import Prelude.

(** ** The system-call interface *)

(** What a call returns: a non-negative value, or [-1] with [errno]. *)
Inductive sysres :=
| SysOk (n : Z)
| SysErr (errno : Z).

Definition EINTR : Z := 4.

(** Open flags of Linux. *)
Definition O_RDONLY : Z := 0.
Definition O_WRONLY : Z := 1.
Definition O_RDWR : Z := 2.
Definition O_CREAT : Z := 64.
Definition O_TRUNC : Z := 512.
Definition O_APPEND : Z := 1024.

(** The calls the runtime makes, on a kernel state [W].  [patience] bounds how
    often the kernel still answers with [EINTR] or a short count. *)
Class PosixOps (W : Type) := {
  sys_open : string -> Z -> W -> sysres * W;
  sys_close : Z -> W -> sysres * W;
  sys_write : Z -> list Z -> W -> sysres * W;
  sys_pwrite : Z -> list Z -> Z -> W -> sysres * W;
  sys_read : Z -> Z -> W -> (sysres * list Z) * W;
  sys_pread : Z -> Z -> Z -> W -> (sysres * list Z) * W;
  sys_fdatasync : Z -> W -> sysres * W;
  sys_ftruncate : Z -> Z -> W -> sysres * W;
  sys_fstat_size : Z -> W -> sysres * W;
  sys_is_regular : string -> W -> bool;
  sys_file_text : string -> W -> option string;
  patience : W -> nat;
}.

(** An answer after which the caller has to call again. *)
Definition unfinished (r : sysres) (count : Z) : bool :=
  match r with
  | SysOk n => n <? count
  | SysErr e => e =? EINTR
  end.

(** What POSIX promises of the calls.  [written w fd] are the
    bytes that went through the descriptor [fd] since it was opened, in order. *)
Class PosixLaws (W : Type) `{PosixOps W} := {
  written : W -> Z -> list Z;
  write_count fd bs w n w' :
    sys_write fd bs w = (SysOk n, w') -> 0 <= n <= Z.of_nat (length bs);
  write_data fd bs w n w' :
    sys_write fd bs w = (SysOk n, w') ->
    written w' fd = written w fd ++ take (Z.to_nat n) bs;
  write_error fd bs w e w' :
    sys_write fd bs w = (SysErr e, w') -> written w' fd = written w fd;
  write_other fd fd' bs w r w' :
    sys_write fd bs w = (r, w') -> fd <> fd' -> written w' fd' = written w fd';
  write_patience fd bs w r w' :
    sys_write fd bs w = (r, w') ->
    (patience w' <= patience w)%nat /\
    (unfinished r (Z.of_nat (length bs)) = true -> (patience w' < patience w)%nat);
  sync_patience fd w r w' :
    sys_fdatasync fd w = (r, w') -> r = SysErr EINTR -> (patience w' < patience w)%nat;
  sync_result fd w n w' : sys_fdatasync fd w = (SysOk n, w') -> n = 0;
  truncate_patience fd n w r w' :
    sys_ftruncate fd n w = (r, w') -> r = SysErr EINTR -> (patience w' < patience w)%nat;
  open_patience path flags w r w' :
    sys_open path flags w = (r, w') -> r = SysErr EINTR -> (patience w' < patience w)%nat;
  open_fresh path flags w fd w' :
    sys_open path flags w = (SysOk fd, w') -> 0 <= fd /\ written w' fd = [];
}.

(** ** The class [FdFile] *)

Inductive GuardState := kBase | kFlushed | kClosed | kNoCheck.

#[global] Instance GuardState_eq_dec : EqDecision GuardState.
Proof. solve_decision. Defined.

Definition guard_index (g : GuardState) : Z :=
  match g with kBase => 0 | kFlushed => 1 | kClosed => 2 | kNoCheck => 3 end.

(** [operator<] and [operator>=] of the scoped enumeration. *)
Definition guard_lt (a b : GuardState) : bool := guard_index a <? guard_index b.
Definition guard_ge (a b : GuardState) : bool := guard_index b <=? guard_index a.

Record FdFile := mkFdFile {
  guard_state_ : GuardState;
  fd_ : Z;
  file_path_ : string;
  auto_close_ : bool;
}.

Definition kCheckSafeUsage : bool := true.

Definition set_guard (g : GuardState) (f : FdFile) : FdFile :=
  mkFdFile g (fd_ f) (file_path_ f) (auto_close_ f).

Definition FdFile_new : FdFile := mkFdFile kClosed (-1) EmptyString true.

Definition FdFile_fd (fd : Z) (check_usage : bool) : FdFile :=
  mkFdFile (if check_usage then kBase else kNoCheck) fd EmptyString true.

Definition FdFile_fd_path (fd : Z) (path : string) (check_usage : bool) : outcome FdFile :=
  check (negb (String.length path =? 0)%nat) ;;
  mret (mkFdFile (if check_usage then kBase else kNoCheck) fd path true).

Definition moveTo (target : GuardState) (f : FdFile) : FdFile :=
  if kCheckSafeUsage then
    if guard_lt (guard_state_ f) kNoCheck then set_guard target f else f
  else f.

Definition moveUp (target : GuardState) (f : FdFile) : FdFile :=
  if kCheckSafeUsage then
    if guard_lt (guard_state_ f) kNoCheck then
      if guard_lt (guard_state_ f) target then set_guard target f else f
    else f
  else f.

Definition DisableAutoClose (f : FdFile) : FdFile :=
  mkFdFile (guard_state_ f) (fd_ f) (file_path_ f) false.

Definition Fd (f : FdFile) : Z := fd_ f.

Definition IsOpened (f : FdFile) : bool := 0 <=? fd_ f.

Definition MarkUnchecked (f : FdFile) : FdFile := set_guard kNoCheck f.

Section Operations.
Context {W : Type} `{!PosixOps W}.

Definition syscall {A} (call : W -> A * W) : M W A := fun w => Ok (call w).

(** [TEMP_FAILURE_RETRY(exp)]: call again while the call was interrupted. *)
Fixpoint retry (fuel : nat) (call : M W sysres) : M W sysres :=
  match fuel with
  | O => lift (Fault OutOfFuel)
  | S fuel =>
      rc ← call;
      match rc with
      | SysErr e => if e =? EINTR then retry fuel call else mret rc
      | SysOk _ => mret rc
      end
  end.

Definition TEMP_FAILURE_RETRY (call : W -> sysres * W) : M W sysres := fun w =>
  retry (S (patience w)) (syscall call) w.

(** [(rc == -1) ? -errno : rc]. *)
Definition rc_or_errno (rc : sysres) : Z :=
  match rc with SysOk n => n | SysErr e => - e end.

Definition Open (path : string) (flags : Z) (f : FdFile) : M W (bool * FdFile) :=
  checkM (fd_ f =? -1) ;;
  rc ← TEMP_FAILURE_RETRY (sys_open path flags);
  match rc with
  | SysErr _ => mret (false, mkFdFile (guard_state_ f) (-1) (file_path_ f) (auto_close_ f))
  | SysOk fd =>
      let g := if kCheckSafeUsage && HasFlag flags (Z.lor (Z.lor O_RDWR O_CREAT) O_WRONLY)
               then kBase else kNoCheck in
      mret (true, mkFdFile g fd path (auto_close_ f))
  end.

Definition Close (f : FdFile) : M W (Z * FdFile) :=
  result ← syscall (sys_close (fd_ f));
  (if kCheckSafeUsage then checkM (guard_ge (guard_state_ f) kFlushed) else mret tt) ;;
  let f := if kCheckSafeUsage then moveUp kClosed f else f in
  match result with
  | SysErr e => mret (- e, f)
  | SysOk _ => mret (0, mkFdFile (guard_state_ f) (-1) EmptyString (auto_close_ f))
  end.

Definition Flush (f : FdFile) : M W (Z * FdFile) :=
  rc ← TEMP_FAILURE_RETRY (sys_fdatasync (fd_ f));
  mret (rc_or_errno rc, moveUp kFlushed f).

Definition SetLength (new_length : Z) (f : FdFile) : M W (Z * FdFile) :=
  rc ← TEMP_FAILURE_RETRY (sys_ftruncate (fd_ f) new_length);
  mret (rc_or_errno rc, moveTo kBase f).

Definition GetLength (f : FdFile) : M W Z :=
  rc ← TEMP_FAILURE_RETRY (sys_fstat_size (fd_ f));
  mret (rc_or_errno rc).

Definition Pwrite (buf : list Z) (offset : Z) (f : FdFile) : M W (Z * FdFile) :=
  rc ← TEMP_FAILURE_RETRY (sys_pwrite (fd_ f) buf offset);
  mret (rc_or_errno rc, moveTo kBase f).

(** The loop of [WriteFully]; the bytes still to be written are [bs]. *)
Fixpoint write_loop (fuel : nat) (fd : Z) (bs : list Z) : M W bool :=
  match bs with
  | [] => mret true
  | _ :: _ =>
      match fuel with
      | O => lift (Fault OutOfFuel)
      | S fuel =>
          rc ← TEMP_FAILURE_RETRY (sys_write fd bs);
          match rc with
          | SysErr _ => mret false
          | SysOk n => write_loop fuel fd (drop (Z.to_nat n) bs)
          end
      end
  end.

Definition WriteFully (bs : list Z) (f : FdFile) : M W (bool * FdFile) := fun w =>
  let f := moveTo kBase f in
  (ok ← write_loop (S (patience w)) (fd_ f) bs; mret (ok, f)) w.

(** The same macro around a call that also fills a buffer. *)
Fixpoint retry_read (fuel : nat) (call : M W (sysres * list Z)) : M W (sysres * list Z) :=
  match fuel with
  | O => lift (Fault OutOfFuel)
  | S fuel =>
      '(rc, data) ← call;
      match rc with
      | SysErr e => if e =? EINTR then retry_read fuel call else mret (rc, data)
      | SysOk _ => mret (rc, data)
      end
  end.

Definition Pread (byte_count offset : Z) (f : FdFile) : M W (Z * list Z) := fun w =>
  ('(rc, data) ← retry_read (S (patience w)) (syscall (sys_pread (fd_ f) byte_count offset));
   mret (rc_or_errno rc, data)) w.

(** [ReadFullyGeneric]: [read_func count offset] is [read] (which ignores the
    offset) or [pread]; [data] is what is in the buffer so far. *)
Fixpoint ReadFullyGeneric (fuel : nat) (read_func : Z -> Z -> W -> (sysres * list Z) * W)
    (byte_count offset : Z) (data : list Z) : M W (bool * list Z) :=
  if byte_count <=? 0 then mret (true, data) else
  match fuel with
  | O => lift (Fault OutOfFuel)
  | S fuel =>
      w ← gets id;
      '(rc, chunk) ← retry_read (S (patience w)) (syscall (read_func byte_count offset));
      match rc with
      | SysErr _ => mret (false, data)
      | SysOk n =>
          if n <=? 0 then mret (false, data)
          else ReadFullyGeneric fuel read_func (byte_count - n) (offset + n) (data ++ chunk)
      end
  end.

Definition ReadFully (byte_count : Z) (f : FdFile) : M W (bool * list Z) :=
  ReadFullyGeneric (Z.to_nat byte_count) (fun count _ => sys_read (fd_ f) count) byte_count 0 [].

Definition PreadFully (byte_count offset : Z) (f : FdFile) : M W (bool * list Z) :=
  ReadFullyGeneric (Z.to_nat byte_count) (sys_pread (fd_ f)) byte_count offset [].

(** The wrapped calls return [-errno], which is [-1] only for [EPERM]; then
    [errno] is not [EINTR], so the retry macro runs each of them once. *)
Definition Erase (f : FdFile) : M W FdFile :=
  '(_, f) ← SetLength 0 f;
  '(_, f) ← Flush f;
  '(_, f) ← Close f;
  mret f.

Definition FlushCloseOrErase (f : FdFile) : M W (Z * FdFile) :=
  '(flush_result, f) ← Flush f;
  if negb (flush_result =? 0) then
    f ← Erase f; mret (flush_result, f)
  else
    '(close_result, f) ← Close f;
    if negb (close_result =? 0) then
      f ← Erase f; mret (close_result, f)
    else mret (0, f).

Definition FlushClose (f : FdFile) : M W (Z * FdFile) :=
  '(flush_result, f) ← Flush f;
  '(close_result, f) ← Close f;
  mret (if negb (flush_result =? 0) then flush_result else close_result, f).

(** The destructor. *)
Definition destroy (f : FdFile) : M W unit :=
  whenM (kCheckSafeUsage && guard_lt (guard_state_ f) kNoCheck)
        (checkM (guard_ge (guard_state_ f) kClosed)) ;;
  whenM (auto_close_ f && negb (fd_ f =? -1)) ('(_, _) ← Close f; mret tt).

(** ** [OS::] *)

Definition OpenFileWithFlags (name : string) (flags : Z) : M W (option FdFile) :=
  '(opened, f) ← Open name flags FdFile_new;
  if negb opened then destroy f ;; mret None else mret (Some f).

Definition CreateEmptyFile (name : string) : M W (option FdFile) :=
  OpenFileWithFlags name (Z.lor (Z.lor O_RDWR O_CREAT) O_TRUNC).

Definition FileExists (name : string) : M W bool := gets (sys_is_regular name).

End Operations.

(** ** The writes of [FdFile] *)

Section Writes.
Context {W : Type} `{!PosixOps W, !PosixLaws W}.

(** A retried call ends, with an answer that is not [EINTR]. *)
Lemma retry_returns (call : W -> sysres * W) :
  (forall w r w', call w = (r, w') -> r = SysErr EINTR -> (patience w' < patience w)%nat) ->
  forall fuel w, (patience w < fuel)%nat ->
  exists rc w', retry fuel (syscall call) w = Ok (rc, w') /\ rc <> SysErr EINTR /\
    exists w0, call w0 = (rc, w').
Proof.
  intros Hdec fuel. induction fuel as [|fuel IH]; intros w Hf; [lia|].
  cbn [retry]. unfold mbind, M_bind, syscall at 1.
  destruct (call w) as [[n|e] w'] eqn:E.
  - exists (SysOk n), w'. split; [done|]. split; [done|]. by exists w.
  - destruct (Z.eqb_spec e EINTR) as [->|Hne].
    + apply IH. pose proof (Hdec _ _ _ E eq_refl). lia.
    + exists (SysErr e), w'. split; [done|]. split; [congruence|]. by exists w.
Qed.

Lemma retry_write fd bs : forall fuel w, (patience w < fuel)%nat ->
  exists rc w', retry fuel (syscall (sys_write fd bs)) w = Ok (rc, w') /\
    (patience w' <= patience w)%nat /\
    (forall fd', fd' <> fd -> written w' fd' = written w fd') /\
    match rc with
    | SysOk n => 0 <= n <= Z.of_nat (length bs) /\
        written w' fd = written w fd ++ take (Z.to_nat n) bs /\
        (n < Z.of_nat (length bs) -> (patience w' < patience w)%nat)
    | SysErr _ => written w' fd = written w fd
    end.
Proof.
  intros fuel. induction fuel as [|fuel IH]; intros w Hf; [lia|].
  cbn [retry]. unfold mbind, M_bind, syscall at 1.
  destruct (sys_write fd bs w) as [r w'] eqn:E.
  destruct (write_patience _ _ _ _ _ E) as [Hle Hlt].
  assert (forall fd', fd' <> fd -> written w' fd' = written w fd') as Hoth
    by (intros; eapply write_other; eauto).
  destruct r as [n|e]; cbn [unfinished] in Hlt.
  - exists (SysOk n), w'. repeat split; try done.
    + eapply write_count in E. lia.
    + eapply write_count in E. lia.
    + by eapply write_data in E.
    + intros. apply Hlt. lia.
  - destruct (Z.eqb_spec e EINTR) as [->|Hne].
    + specialize (Hlt eq_refl).
      destruct (IH w') as (rc & w2 & Hr & Hp & Ho & Hm); [lia|].
      pose proof (write_error _ _ _ _ _ E) as He.
      exists rc, w2. split; [done|]. split; [lia|]. split.
      { intros. rewrite Ho by done. auto. }
      destruct rc; rewrite He in Hm; [|done].
      destruct Hm as (? & ? & ?). repeat split; first [lia | done].
    + exists (SysErr e), w'. repeat split; try done. by eapply write_error.
Qed.

Lemma write_loop_spec fd : forall fuel bs w, (patience w < fuel)%nat ->
  exists ok w' n, write_loop fuel fd bs w = Ok (ok, w') /\
    written w' fd = written w fd ++ take n bs /\
    (ok = true -> (length bs <= n)%nat) /\ (ok = false -> (n < length bs)%nat) /\
    (forall fd', fd' <> fd -> written w' fd' = written w fd').
Proof.
  intros fuel. induction fuel as [|fuel IH]; intros bs w Hf; [lia|].
  destruct bs as [|b bs]; cbn [write_loop].
  { exists true, w, 0%nat. cbn. rewrite app_nil_r. repeat split; try done; lia. }
  set (bs0 := b :: bs).
  destruct (retry_write fd bs0 (S (patience w)) w) as (rc & w1 & Hr & Hp & Ho & Hm); [lia|].
  unfold TEMP_FAILURE_RETRY, mbind, M_bind. rewrite Hr.
  destruct rc as [n|e].
  - destruct Hm as (Hn & Hw & Hlt).
    destruct (Z.eq_dec n (Z.of_nat (length bs0))) as [->|Hne].
    + rewrite Nat2Z.id, drop_ge by lia. exists true, w1, (length bs0).
      rewrite Hw, Nat2Z.id. repeat split; try done; try lia. by destruct fuel.
    + destruct (IH (drop (Z.to_nat n) bs0) w1) as (ok & w2 & m & Hl & Hw2 & Ht & Hfl & Ho2); [lia|].
      exists ok, w2, (Z.to_nat n + m)%nat. rewrite Hl.
      rewrite length_drop in *.
      split; [done|]. split.
      { rewrite Hw2, Hw, <- app_assoc, take_take_drop. done. }
      split; [intros; specialize (Ht H); lia|].
      split; [intros; specialize (Hfl H); lia|].
      intros. rewrite Ho2, Ho; done.
  - exists false, w1, 0%nat. rewrite Hm. cbn. rewrite app_nil_r.
    repeat split; try done; lia.
Qed.

(** [WriteFully] returns; [true] means that every byte reached the
    descriptor, [false] that a proper prefix did; no other descriptor sees a
    byte, and the file is back in its base guard state. *)
Lemma WriteFully_spec bs f w :
  exists ok w' n, WriteFully bs f w = Ok ((ok, moveTo kBase f), w') /\
    written w' (fd_ f) = written w (fd_ f) ++ take n bs /\
    (ok = true -> (length bs <= n)%nat) /\ (ok = false -> (n < length bs)%nat) /\
    (forall fd', fd' <> fd_ f -> written w' fd' = written w fd').
Proof.
  destruct (write_loop_spec (fd_ f) (S (patience w)) bs w) as (ok & w' & n & Hl & Hrest); [lia|].
  exists ok, w', n. split; [|done]. unfold WriteFully, mbind, M_bind.
  assert (fd_ (moveTo kBase f) = fd_ f) as -> by (unfold moveTo; by repeat case_match).
  by rewrite Hl.
Qed.

Lemma WriteFully_true bs f w f' w' :
  WriteFully bs f w = Ok ((true, f'), w') ->
  f' = moveTo kBase f /\ written w' (fd_ f) = written w (fd_ f) ++ bs.
Proof.
  destruct (WriteFully_spec bs f w) as (ok & w1 & n & Heq & Hw & Ht & _ & _).
  rewrite Heq. intros H. injection H as -> <- <-. split; [done|].
  by rewrite Hw, take_ge by auto.
Qed.

(** A kernel whose writes are at most interrupted or short, never refused. *)
Definition reliable_writes : Prop :=
  forall fd bs w e w', sys_write fd bs w = (SysErr e, w') -> e = EINTR.

Lemma write_loop_reliable fd : reliable_writes -> forall fuel bs w w',
  write_loop fuel fd bs w <> Ok (false, w').
Proof.
  intros Hrel fuel. induction fuel as [|fuel IH]; intros bs w w'; destruct bs; cbn [write_loop]; try done.
  unfold TEMP_FAILURE_RETRY, mbind, M_bind.
  destruct (retry_returns (sys_write fd (z :: bs))) with (fuel := S (patience w)) (w := w)
    as (rc & w1 & Hr & Hne & w0 & Hw0).
  { intros w2 r w3 E ->. destruct (write_patience _ _ _ _ _ E) as [_ H]. by apply H. }
  { lia. }
  rewrite Hr. destruct rc as [n|e]; [apply IH|].
  apply Hrel in Hw0 as ->. done.
Qed.

Lemma WriteFully_reliable bs f w f' w' :
  reliable_writes -> WriteFully bs f w <> Ok ((false, f'), w').
Proof.
  intros Hrel H. unfold WriteFully in H. apply bind_inv in H as (ok & w1 & Hl & H).
  injection H as -> <- <-. by eapply write_loop_reliable.
Qed.

End Writes.

(** ** The guard protocol *)

Section Guards.
Context {W : Type} `{!PosixOps W, !PosixLaws W}.

(** Neither opened for writing and left alone, nor flushed and left open. *)
Definition destroyable (f : FdFile) : bool := guard_ge (guard_state_ f) kClosed.

Lemma Close_spec f w :
  guard_ge (guard_state_ f) kFlushed = true ->
  exists rc f' w', Close f w = Ok ((rc, f'), w') /\ destroyable f' = true /\
    auto_close_ f' = auto_close_ f.
Proof.
  intros Hg. unfold Close, syscall, mbind, M_bind, destroyable.
  destruct (sys_close (fd_ f) w) as [[n|e] w'] eqn:E;
    unfold checkM, lift, check; rewrite Hg; eexists _, _, w';
    (split; [reflexivity|]); destruct f as [[] ? ? ?]; done.
Qed.

(** The destructor aborts on a file that was opened for writing and not
    closed, and on no other. *)
Lemma destroy_spec f w :
  if destroyable f then exists w', destroy f w = Ok (tt, w')
  else destroy f w = Fault CheckFailed.
Proof.
  destruct (destroyable f) eqn:Hd; unfold destroyable in Hd.
  - unfold destroy, whenM, mbind, M_bind, checkM, lift, check. rewrite Hd.
    assert (exists w', (if auto_close_ f && negb (fd_ f =? -1)
                        then '(_, _) ← Close f; mret tt else mret tt) w = Ok (tt, w')) as [w' Hw].
    { destruct (_ && _); [|by exists w].
      destruct (Close_spec f w) as (rc & f' & w' & Hc & _).
      { destruct f as [[] ? ? ?]; done. }
      exists w'. unfold mbind, M_bind. by rewrite Hc. }
    exists w'. destruct (kCheckSafeUsage && _); cbn; exact Hw.
  - destruct f as [[] ? ? ?]; done.
Qed.

Lemma Flush_spec f w :
  exists rc w', Flush f w = Ok ((rc, moveUp kFlushed f), w').
Proof.
  destruct (retry_returns (sys_fdatasync (fd_ f))) with (fuel := S (patience w)) (w := w)
    as (rc & w' & Hr & _ & _).
  { intros. by eapply sync_patience. }
  { lia. }
  exists (rc_or_errno rc), w'. unfold Flush, TEMP_FAILURE_RETRY, mbind, M_bind. by rewrite Hr.
Qed.

Lemma SetLength_spec n f w :
  exists rc w', SetLength n f w = Ok ((rc, moveTo kBase f), w').
Proof.
  destruct (retry_returns (sys_ftruncate (fd_ f) n)) with (fuel := S (patience w)) (w := w)
    as (rc & w' & Hr & _ & _).
  { intros. by eapply truncate_patience. }
  { lia. }
  exists (rc_or_errno rc), w'. unfold SetLength, TEMP_FAILURE_RETRY, mbind, M_bind. by rewrite Hr.
Qed.

Lemma moveUp_flushed f : guard_ge (guard_state_ (moveUp kFlushed f)) kFlushed = true.
Proof. by destruct f as [[] ? ? ?]. Qed.

Lemma Erase_spec f w :
  exists f' w', Erase f w = Ok (f', w') /\ destroyable f' = true.
Proof.
  destruct (SetLength_spec 0 f w) as (rc1 & w1 & H1).
  destruct (Flush_spec (moveTo kBase f) w1) as (rc2 & w2 & H2).
  destruct (Close_spec (moveUp kFlushed (moveTo kBase f)) w2) as (rc3 & f3 & w3 & H3 & Hd & _);
    [apply moveUp_flushed|].
  exists f3, w3. split; [|done].
  unfold Erase, mbind, M_bind. by rewrite H1, H2, H3.
Qed.

(** Whatever the kernel answers, after [FlushCloseOrErase] the file can be
    destroyed. *)
Lemma FlushCloseOrErase_spec f w :
  exists rc f' w', FlushCloseOrErase f w = Ok ((rc, f'), w') /\ destroyable f' = true.
Proof.
  destruct (Flush_spec f w) as (rc1 & w1 & H1).
  unfold FlushCloseOrErase. rewrite (bind_ok _ _ _ _ _ H1). cbn beta iota.
  destruct (negb (rc1 =? 0)).
  - destruct (Erase_spec (moveUp kFlushed f) w1) as (f2 & w2 & H2 & Hd).
    rewrite (bind_ok _ _ _ _ _ H2). by eexists _, _, _.
  - destruct (Close_spec (moveUp kFlushed f) w1) as (rc2 & f2 & w2 & H2 & Hd & _);
      [apply moveUp_flushed|].
    rewrite (bind_ok _ _ _ _ _ H2). cbn beta iota.
    destruct (negb (rc2 =? 0)); [|by eexists _, _, _].
    destruct (Erase_spec f2 w2) as (f3 & w3 & H3 & Hd3).
    rewrite (bind_ok _ _ _ _ _ H3). by eexists _, _, _.
Qed.

(** Opening a file for writing gives a fresh descriptor that has to be
    flushed and closed; failing to open it gives nothing. *)
Lemma OpenFileWithFlags_spec name flags w :
  HasFlag flags (Z.lor (Z.lor O_RDWR O_CREAT) O_WRONLY) = true ->
  exists o w', OpenFileWithFlags name flags w = Ok (o, w') /\
    match o with
    | Some f => guard_state_ f = kBase /\ 0 <= fd_ f /\ written w' (fd_ f) = []
    | None => True
    end.
Proof.
  intros Hflags.
  destruct (retry_returns (sys_open name flags)) with (fuel := S (patience w)) (w := w)
    as (rc & w1 & Hr & _ & w0 & Hw0).
  { intros. by eapply open_patience. }
  { lia. }
  unfold OpenFileWithFlags, Open.
  unfold mbind, M_bind, checkM, lift, check, TEMP_FAILURE_RETRY.
  change (fd_ FdFile_new =? -1) with true. cbv beta iota. rewrite Hr. destruct rc as [fd|e].
  - rewrite Hflags. cbn. eexists _, w1. split; [done|]. cbn. split; [done|]. by eapply open_fresh.
  - cbn. by exists None, w1.
Qed.

End Guards.

(** ** A concrete kernel *)

(** The kernel answers from a script; when the script is empty every call
    succeeds in full. *)
Record ScriptOS := mkScriptOS {
  os_script : list sysres;
  os_files : gmap string string;
  os_written : gmap Z (list Z);
  os_next_fd : Z;
}.

Definition os_fd_bytes (w : ScriptOS) (fd : Z) : list Z := default [] (os_written w !! fd).

Definition os_pop (dflt : Z) (w : ScriptOS) : sysres * ScriptOS :=
  match os_script w with
  | [] => (SysOk dflt, w)
  | r :: script => (r, mkScriptOS script (os_files w) (os_written w) (os_next_fd w))
  end.

Definition os_open (path : string) (flags : Z) (w : ScriptOS) : sysres * ScriptOS :=
  match os_pop 0 w with
  | (SysErr e, w) => (SysErr e, w)
  | (SysOk _, w) =>
      (SysOk (os_next_fd w),
       mkScriptOS (os_script w) (<[path := EmptyString]> (os_files w))
         (<[os_next_fd w := []]> (os_written w)) (Z.max 0 (os_next_fd w) + 1))
  end.

Definition os_write (fd : Z) (bs : list Z) (w : ScriptOS) : sysres * ScriptOS :=
  match os_pop (Z.of_nat (length bs)) w with
  | (SysErr e, w) => (SysErr e, w)
  | (SysOk n, w) =>
      let n := Z.max 0 (Z.min n (Z.of_nat (length bs))) in
      (SysOk n, mkScriptOS (os_script w) (os_files w)
         (<[fd := os_fd_bytes w fd ++ take (Z.to_nat n) bs]> (os_written w)) (os_next_fd w))
  end.

(** A call that only reports success or failure. *)
Definition os_simple (w : ScriptOS) : sysres * ScriptOS :=
  match os_pop 0 w with
  | (SysErr e, w) => (SysErr e, w)
  | (SysOk _, w) => (SysOk 0, w)
  end.

#[global] Instance ScriptOS_ops : PosixOps ScriptOS := {|
  sys_open path flags w :=
    let w := mkScriptOS (os_script w) (os_files w) (os_written w) (Z.max 0 (os_next_fd w)) in
    os_open path flags w;
  sys_close _ w := os_simple w;
  sys_write := os_write;
  sys_pwrite fd bs _ w := os_write fd bs w;
  sys_read _ _ w := ((SysOk 0, []), w);
  sys_pread _ _ _ w := ((SysOk 0, []), w);
  sys_fdatasync _ w := os_simple w;
  sys_ftruncate _ _ w := os_simple w;
  sys_fstat_size fd w := (SysOk (Z.of_nat (length (os_fd_bytes w fd))), w);
  sys_is_regular path w := bool_decide (is_Some (os_files w !! path));
  sys_file_text path w := os_files w !! path;
  patience w := length (os_script w);
|}.

Lemma os_pop_spec dflt w r w' :
  os_pop dflt w = (r, w') ->
  os_written w' = os_written w /\ (length (os_script w') <= length (os_script w))%nat /\
  (r <> SysOk dflt -> (length (os_script w') < length (os_script w))%nat).
Proof.
  unfold os_pop. destruct (os_script w) as [|r0 script] eqn:E; intros H; injection H as <- <-.
  - rewrite E. cbn. repeat split; [lia|]. done.
  - cbn. repeat split; lia.
Qed.

Lemma os_simple_patience w r w' :
  os_simple w = (r, w') -> r = SysErr EINTR ->
  (length (os_script w') < length (os_script w))%nat.
Proof.
  unfold os_simple. destruct (os_pop 0 w) as [[n|e] w1] eqn:E; intros H ->; [done|].
  injection H as -> <-. apply os_pop_spec in E as (_ & _ & Hlt). by apply Hlt.
Qed.

Lemma os_write_spec fd bs w r w' :
  os_write fd bs w = (r, w') ->
  (length (os_script w') <= length (os_script w))%nat /\
  (unfinished r (Z.of_nat (length bs)) = true ->
   (length (os_script w') < length (os_script w))%nat) /\
  match r with
  | SysOk n => 0 <= n <= Z.of_nat (length bs) /\
      os_written w' = <[fd := os_fd_bytes w fd ++ take (Z.to_nat n) bs]> (os_written w)
  | SysErr _ => os_written w' = os_written w
  end.
Proof.
  unfold os_write. destruct (os_pop _ w) as [[n|e] w1] eqn:E; intros H; injection H as <- <-;
    apply os_pop_spec in E as (Hw & Hle & Hlt); cbn.
  - split; [done|]. split.
    + intros Hn. apply Hlt. intros [= ->]. lia.
    + split; [lia|]. unfold os_fd_bytes. by rewrite Hw.
  - split; [done|]. split; [|done]. intros Hn. by apply Hlt.
Qed.

#[global] Instance ScriptOS_laws : PosixLaws ScriptOS.
Proof.
  refine {| written := os_fd_bytes |}; cbn.
  - intros * H. apply os_write_spec in H as (_ & _ & Hn & _). exact Hn.
  - intros * H. apply os_write_spec in H as (_ & _ & _ & Hw).
    unfold os_fd_bytes at 1. by rewrite Hw, lookup_insert_eq.
  - intros * H. apply os_write_spec in H as (_ & _ & Hw). unfold os_fd_bytes. by rewrite Hw.
  - intros * H Hne. apply os_write_spec in H as (_ & _ & Hw). unfold os_fd_bytes.
    destruct r; [destruct Hw as [_ Hw]|]; rewrite Hw; by rewrite ?lookup_insert_ne.
  - intros * H. apply os_write_spec in H as (Hle & Hlt & _). by split.
  - intros. by eapply os_simple_patience.
  - intros fd w n w'. unfold os_simple. destruct (os_pop 0 w) as [[]]; naive_solver.
  - intros. by eapply os_simple_patience.
  - intros path flags w r w'. unfold os_open. destruct (os_pop _ _) as [[n|e] w1] eqn:E;
      intros H Hr; injection H as <- <-; [done|]. injection Hr as ->.
    apply os_pop_spec in E as (_ & _ & Hlt). by apply Hlt.
  - intros path flags w fd w'. unfold os_open. destruct (os_pop _ _) as [[n|e] w1] eqn:E;
      intros H; [|done]. injection H as <- <-. cbn. unfold os_pop in E. cbn in E.
    split.
    + destruct (os_script w); injection E as _ <-; cbn; lia.
    + unfold os_fd_bytes. cbn. by rewrite lookup_insert_eq.
Defined.

(** A kernel that only ever interrupts or shortens a write: each write takes
    the next of [st_cuts], an interruption when it is negative, the most it
    accepts otherwise. *)
Record SteadyOS := mkSteadyOS { st_cuts : list Z; st_written : gmap Z (list Z); st_next_fd : nat }.

Definition st_fd_bytes (w : SteadyOS) (fd : Z) : list Z := default [] (st_written w !! fd).

Definition st_write (fd : Z) (bs : list Z) (w : SteadyOS) : sysres * SteadyOS :=
  let put n cuts := (SysOk n, mkSteadyOS cuts (<[fd := st_fd_bytes w fd ++ take (Z.to_nat n) bs]> (st_written w))
                                (st_next_fd w)) in
  match st_cuts w with
  | [] => put (Z.of_nat (length bs)) []
  | n :: cuts =>
      if n <? 0 then (SysErr EINTR, mkSteadyOS cuts (st_written w) (st_next_fd w))
      else put (Z.min n (Z.of_nat (length bs))) cuts
  end.

#[global] Instance SteadyOS_ops : PosixOps SteadyOS := {|
  sys_open _ _ w :=
    let fd := Z.of_nat (st_next_fd w) in
    (SysOk fd, mkSteadyOS (st_cuts w) (<[fd := []]> (st_written w)) (S (st_next_fd w)));
  sys_close _ w := (SysOk 0, w);
  sys_write := st_write;
  sys_pwrite fd bs _ w := st_write fd bs w;
  sys_read _ _ w := ((SysOk 0, []), w);
  sys_pread _ _ _ w := ((SysOk 0, []), w);
  sys_fdatasync _ w := (SysOk 0, w);
  sys_ftruncate _ _ w := (SysOk 0, w);
  sys_fstat_size fd w := (SysOk (Z.of_nat (length (st_fd_bytes w fd))), w);
  sys_is_regular _ _ := false;
  sys_file_text _ _ := None;
  patience w := length (st_cuts w);
|}.

Lemma st_write_spec fd bs w r w' :
  st_write fd bs w = (r, w') ->
  ((length (st_cuts w') <= length (st_cuts w))%nat /\
   (unfinished r (Z.of_nat (length bs)) = true ->
    (length (st_cuts w') < length (st_cuts w))%nat)) /\
  match r with
  | SysOk n => 0 <= n <= Z.of_nat (length bs) /\
      st_written w' = <[fd := st_fd_bytes w fd ++ take (Z.to_nat n) bs]> (st_written w)
  | SysErr e => e = EINTR /\ st_written w' = st_written w
  end.
Proof.
  unfold st_write. destruct (st_cuts w) as [|n cuts].
  - intros [= <- <-]. cbn. repeat split; lia.
  - destruct (Z.ltb_spec n 0); intros [= <- <-]; cbn; repeat split; lia.
Qed.

#[global] Instance SteadyOS_laws : PosixLaws SteadyOS.
Proof.
  refine {| written := st_fd_bytes |}; cbn; try naive_solver.
  - intros * H. by apply st_write_spec in H as (_ & Hn & _).
  - intros * H. apply st_write_spec in H as (_ & _ & Hw). unfold st_fd_bytes at 1.
    by rewrite Hw, lookup_insert_eq.
  - intros * H. apply st_write_spec in H as (_ & _ & Hw). unfold st_fd_bytes. by rewrite Hw.
  - intros * H Hne. apply st_write_spec in H as (_ & Hr). unfold st_fd_bytes.
    destruct r; destruct Hr as [_ Hw]; rewrite Hw; by rewrite ?lookup_insert_ne.
  - intros * H. by apply st_write_spec in H as (Hp & _).
  - intros path flags w fd w' [= <- <-]. split; [lia|]. unfold st_fd_bytes. cbn. by rewrite lookup_insert_eq.
Defined.

Lemma SteadyOS_reliable : reliable_writes (W := SteadyOS).
Proof. intros fd bs w e w' H. by apply st_write_spec in H as (_ & -> & _). Qed.

(** ** Results *)

Section Results.
Context {W : Type} `{!PosixOps W, !PosixLaws W}.

(** C15. [WriteFully] returns on every kernel that does not interrupt it
    forever: [true] means that all bytes went to the file's descriptor in
    order, [false] that a proper prefix of them did; no other descriptor sees a
    byte, and the file's guard is back in its base state. *)
Theorem WriteFully_all_or_prefix bs f (w : W) :
  exists ok w' n, WriteFully bs f w = Ok ((ok, moveTo kBase f), w') /\
    written w' (fd_ f) = written w (fd_ f) ++ take n bs /\
    (if ok : bool then take n bs = bs else (n < length bs)%nat) /\
    (forall fd', fd' <> fd_ f -> written w' fd' = written w fd').
Proof.
  destruct (WriteFully_spec bs f w) as (ok & w' & n & HW & Hw & Ht & Hf & Ho).
  exists ok, w', n. split_and!; try done. destruct ok; [|auto]. by apply take_ge, Ht.
Qed.

(** C16. Whatever the kernel answers, [FlushCloseOrErase] leaves a file that
    its destructor accepts; without it the destructor of a file that was
    written to aborts. *)
Theorem FlushCloseOrErase_destroyable f (w : W) :
  (exists rc f' w', FlushCloseOrErase f w = Ok ((rc, f'), w') /\
     exists w'', destroy f' w' = Ok (tt, w'')) /\
  (guard_lt (guard_state_ f) kClosed = true -> destroy f w = Fault CheckFailed).
Proof.
  split.
  - destruct (FlushCloseOrErase_spec f w) as (rc & f' & w' & HF & Hd).
    exists rc, f', w'. split; [done|]. pose proof (destroy_spec f' w') as HD. by rewrite Hd in HD.
  - intros Hg. pose proof (destroy_spec f w) as HD. by destruct f as [[] ? ? ?].
Qed.

End Results.

Lemma WriteFully_all_or_prefix_witness :
  exists ok (w' : ScriptOS) n,
    WriteFully [1; 2; 3; 4] (FdFile_fd 5 true) (mkScriptOS [SysErr EINTR; SysOk 1; SysErr 28] ∅ ∅ 6)
      = Ok ((ok, moveTo kBase (FdFile_fd 5 true)), w') /\
    written w' 5 = written (mkScriptOS [SysErr EINTR; SysOk 1; SysErr 28] ∅ ∅ 6) 5 ++ take n [1; 2; 3; 4] /\
    (if ok : bool then take n [1; 2; 3; 4] = [1; 2; 3; 4] else (n < 4)%nat) /\
    (forall fd', fd' <> 5 ->
       written w' fd' = written (mkScriptOS [SysErr EINTR; SysOk 1; SysErr 28] ∅ ∅ 6) fd').
Proof.
  exact (WriteFully_all_or_prefix [1; 2; 3; 4] (FdFile_fd 5 true)
           (mkScriptOS [SysErr EINTR; SysOk 1; SysErr 28] ∅ ∅ 6)).
Defined.

Lemma FlushCloseOrErase_destroyable_witness :
  destroy (set_guard kBase (FdFile_fd 5 true)) (mkScriptOS [] ∅ ∅ 6) = Fault CheckFailed.
Proof.
  apply (proj2 (FlushCloseOrErase_destroyable (set_guard kBase (FdFile_fd 5 true)) (mkScriptOS [] ∅ ∅ 6))).
  reflexivity.
Defined.
