(* ===== verification/ArtObjects.v ===== *)
(** * Runtime objects the tracer works on

    Access flags ([modifiers.h]), the parts of [ArtMethod], [ArtField],
    [mirror::Class] and [DexFile] that tracing and instrumentation read and
    write, the coverage bytes of a dex file, and the class-table walk of the
    class linker.  Pointers are addresses ([Z], [0] the null pointer); the
    objects they point to live in a [Heap].  Debug assertions ([DCHECK]) are
    compiled out of the library that is shipped and are not modelled. *)

From S2P Require Import Prelude.

(** ** [modifiers.h] *)

Definition kAccPublic : Z := 0x0001.
Definition kAccPrivate : Z := 0x0002.
Definition kAccProtected : Z := 0x0004.
Definition kAccStatic : Z := 0x0008.
Definition kAccFinal : Z := 0x0010.
Definition kAccSynchronized : Z := 0x0020.
Definition kAccVolatile : Z := 0x0040.
Definition kAccBridge : Z := 0x0040.
Definition kAccTransient : Z := 0x0080.
Definition kAccVarargs : Z := 0x0080.
Definition kAccNative : Z := 0x0100.
Definition kAccInterface : Z := 0x0200.
Definition kAccAbstract : Z := 0x0400.
Definition kAccStrict : Z := 0x0800.
Definition kAccSynthetic : Z := 0x1000.
Definition kAccEnum : Z := 0x4000.
Definition kAccJavaFlagsMask : Z := 0xffff.
Definition kAccConstructor : Z := 0x00010000.
Definition kAccDeclaredSynchronized : Z := 0x00020000.
Definition kAccClassIsProxy : Z := 0x00040000.
Definition kAccFastNative : Z := 0x00080000.
Definition kAccMiranda : Z := 0x00200000.
Definition kAccIsMiniTraceable : Z := 0x40000000.
Definition kAccClassIsFinalizable : Z := 0x80000000.

Definition kAccValidFieldFlags : Z :=
  fold_left Z.lor [kAccPrivate; kAccProtected; kAccStatic; kAccFinal; kAccVolatile; kAccTransient;
                   kAccSynthetic; kAccEnum] kAccPublic.
Definition kAccValidMethodFlags : Z :=
  fold_left Z.lor [kAccPrivate; kAccProtected; kAccStatic; kAccFinal; kAccSynchronized; kAccBridge;
                   kAccVarargs; kAccNative; kAccAbstract; kAccStrict; kAccSynthetic; kAccMiranda;
                   kAccConstructor; kAccDeclaredSynchronized] kAccPublic.

(** ** Code pointers *)

(** The addresses a method's compiled-code entry point can hold: the stubs of
    [runtime_asm_entrypoints.h], the two trampolines of the boot image that
    stand for the same stubs, code of an oat file or the JIT, or the null
    pointer of a method that is not linked yet. *)
Inductive QuickCode :=
| NullCode
| QuickToInterpreterBridge
| QuickToInterpreterBridgeTrampoline
| QuickResolutionStub
| QuickResolutionTrampoline
| QuickInstrumentationEntryPoint
| QuickProxyInvokeHandler
| QuickGenericJniStub
| CompiledCode (addr : Z).

#[global] Instance QuickCode_eq_dec : EqDecision QuickCode.
Proof. solve_decision. Defined.

Inductive InterpreterEntry :=
| NullEntry
| artInterpreterToInterpreterBridge
| artInterpreterToCompiledCodeBridge.

(** ** Objects *)

Record ArtMethod := mkArtMethod {
  am_declaring_class : Z;
  am_access_flags : Z;
  am_dex_code_item_offset : Z;
  am_dex_method_index : Z;
  am_name : string;
  am_signature : string;
  am_shorty : string;
  am_source_file : string;
  am_entry_interpreter : InterpreterEntry;
  am_entry_quick : QuickCode;
}.

Record ArtField := mkArtField {
  af_declaring_class : Z;
  af_access_flags : Z;
  af_name : string;
  af_type_descriptor : string;
  af_dex_field_index : Z;
  af_offset : Z;
}.

(** [mirror::Class::Status]. *)
Definition kStatusError : Z := -1.
Definition kStatusResolved : Z := 4.
Definition kStatusInitialized : Z := 10.

Definition kPrimNot : Z := 0.

Record Class_ := mkClass {
  mc_status : Z;
  mc_access_flags : Z;
  mc_component_type : Z;
  mc_primitive_type : Z;
  mc_descriptor : string;
  mc_dex_file : Z;
  mc_direct_methods : list Z;
  mc_virtual_methods : list Z;
  mc_ifields : list Z;
  mc_sfields : list Z;
}.

Record CodeItem := mkCodeItem {
  registers_size_ : Z;
  ins_size_ : Z;
  outs_size_ : Z;
  tries_size_ : Z;
  debug_info_off_ : Z;
  insns_size_in_code_units_ : Z;
}.

Record DexFile := mkDexFile {
  df_magic : list Z;
  df_size : Z;
  df_location : string;
  df_code_items : gmap Z CodeItem;
  df_coverage_data : option (list Z);
}.

Record Heap := mkHeap {
  h_methods : gmap Z ArtMethod;
  h_fields : gmap Z ArtField;
  h_classes : gmap Z Class_;
  h_dex_files : gmap Z DexFile;
  h_class_table : list Z;
  h_pre_zygote_class_table : list Z;
}.

(** Reading through a pointer. *)
Definition deref {A} (m : gmap Z A) (p : Z) : outcome A :=
  match m !! p with Some a => Ok a | None => Fault NullDereference end.

Definition set_methods (ms : gmap Z ArtMethod) (h : Heap) : Heap :=
  mkHeap ms (h_fields h) (h_classes h) (h_dex_files h) (h_class_table h)
    (h_pre_zygote_class_table h).

Definition set_fields (fs : gmap Z ArtField) (h : Heap) : Heap :=
  mkHeap (h_methods h) fs (h_classes h) (h_dex_files h) (h_class_table h)
    (h_pre_zygote_class_table h).

Definition set_classes (cs : gmap Z Class_) (h : Heap) : Heap :=
  mkHeap (h_methods h) (h_fields h) cs (h_dex_files h) (h_class_table h)
    (h_pre_zygote_class_table h).

Definition set_dex_files (ds : gmap Z DexFile) (h : Heap) : Heap :=
  mkHeap (h_methods h) (h_fields h) (h_classes h) ds (h_class_table h)
    (h_pre_zygote_class_table h).

(** ** Flags of methods, fields and classes *)

Definition IsStatic (m : ArtMethod) : bool := HasFlag (am_access_flags m) kAccStatic.
Definition IsConstructor (m : ArtMethod) : bool := HasFlag (am_access_flags m) kAccConstructor.
Definition IsNative (m : ArtMethod) : bool := HasFlag (am_access_flags m) kAccNative.
Definition IsAbstract (m : ArtMethod) : bool := HasFlag (am_access_flags m) kAccAbstract.
Definition IsSynchronized (m : ArtMethod) : bool :=
  HasFlag (am_access_flags m) (Z.lor kAccSynchronized kAccDeclaredSynchronized).

Definition method_IsMiniTraceable (m : ArtMethod) : bool :=
  HasFlag (am_access_flags m) kAccIsMiniTraceable.

Definition method_set_flags (flags : Z) (m : ArtMethod) : ArtMethod :=
  mkArtMethod (am_declaring_class m) flags (am_dex_code_item_offset m) (am_dex_method_index m)
    (am_name m) (am_signature m) (am_shorty m) (am_source_file m)
    (am_entry_interpreter m) (am_entry_quick m).

Definition method_SetIsMiniTraceable (m : ArtMethod) : ArtMethod :=
  method_set_flags (Z.lor (am_access_flags m) kAccIsMiniTraceable) m.

Definition method_ClearIsMiniTraceable (m : ArtMethod) : ArtMethod :=
  method_set_flags (Z.ldiff (am_access_flags m) kAccIsMiniTraceable) m.

Definition field_IsMiniTraceable (f : ArtField) : bool :=
  HasFlag (af_access_flags f) kAccIsMiniTraceable.

Definition field_set_flags (flags : Z) (f : ArtField) : ArtField :=
  mkArtField (af_declaring_class f) flags (af_name f) (af_type_descriptor f) (af_dex_field_index f) (af_offset f).

Definition field_SetIsMiniTraceable (f : ArtField) : ArtField :=
  field_set_flags (Z.lor (af_access_flags f) kAccIsMiniTraceable) f.

Definition field_ClearIsMiniTraceable (f : ArtField) : ArtField :=
  field_set_flags (Z.ldiff (af_access_flags f) kAccIsMiniTraceable) f.

Definition class_IsMiniTraceable (c : Class_) : bool :=
  HasFlag (mc_access_flags c) kAccIsMiniTraceable.

Definition class_set_flags (flags : Z) (c : Class_) : Class_ :=
  mkClass (mc_status c) flags (mc_component_type c) (mc_primitive_type c) (mc_descriptor c)
    (mc_dex_file c) (mc_direct_methods c) (mc_virtual_methods c) (mc_ifields c) (mc_sfields c).

Definition class_SetIsMiniTraceable (c : Class_) : Class_ :=
  class_set_flags (Z.lor (mc_access_flags c) kAccIsMiniTraceable) c.

Definition class_ClearIsMiniTraceable (c : Class_) : Class_ :=
  class_set_flags (Z.ldiff (mc_access_flags c) kAccIsMiniTraceable) c.

Definition IsErroneous (c : Class_) : bool := mc_status c =? kStatusError.
Definition IsResolved (c : Class_) : bool := kStatusResolved <=? mc_status c.
Definition IsInitialized (c : Class_) : bool := mc_status c =? kStatusInitialized.
Definition IsInterface (c : Class_) : bool := HasFlag (mc_access_flags c) kAccInterface.
Definition IsProxyClass (c : Class_) : bool := HasFlag (mc_access_flags c) kAccClassIsProxy.
Definition IsPrimitive (c : Class_) : bool := negb (mc_primitive_type c =? kPrimNot).
Definition IsArrayClass (c : Class_) : bool := negb (mc_component_type c =? 0).

Definition kDexNoIndex : Z := 0xFFFFFFFF.
Definition IsRuntimeMethod (m : ArtMethod) : bool := am_dex_method_index m =? kDexNoIndex.

Definition GetDeclaringClass (h : Heap) (m : ArtMethod) : outcome Class_ :=
  deref (h_classes h) (am_declaring_class m).

Definition IsProxyMethod (h : Heap) (m : ArtMethod) : outcome bool :=
  c ← GetDeclaringClass h m; mret (IsProxyClass c).

Definition IsQuickResolutionStub (code : QuickCode) : bool :=
  bool_decide (code = QuickResolutionStub) || bool_decide (code = QuickResolutionTrampoline).

Definition IsQuickToInterpreterBridge (code : QuickCode) : bool :=
  bool_decide (code = QuickToInterpreterBridge) ||
  bool_decide (code = QuickToInterpreterBridgeTrampoline).

(** ** Walking the class table *)

(** [ClassLinker::VisitClasses]: the visitor runs on every class of the two
    tables until it returns [false].  The classes of the boot image are taken
    to be in the tables already. *)
Fixpoint visit_table {S} (table : list Z) (visitor : Z -> M S bool) : M S bool :=
  match table with
  | [] => mret true
  | klass :: table =>
      go ← visitor klass;
      if negb go then mret false else visit_table table visitor
  end.

Definition VisitClasses {S} (table pre_zygote_table : list Z) (visitor : Z -> M S bool) : M S unit :=
  go ← visit_table table visitor;
  if negb go then mret tt
  else (_ ← visit_table pre_zygote_table visitor; mret tt).

(** ** Coverage bytes of a dex file *)

Definition kDexMagic : list Z := [100; 101; 120; 10].
Definition kDexMagicVersion : list Z := [48; 51; 53; 0].

Definition IsMagicValid (magic : list Z) : bool := bool_decide (take 4 magic = kDexMagic).

Definition IsVersionValid (magic : list Z) : bool :=
  bool_decide (take 4 (drop 4 magic) = kDexMagicVersion).

Definition CheckMagicAndVersion (d : DexFile) : bool :=
  if negb (IsMagicValid (df_magic d)) then false
  else if negb (IsVersionValid (df_magic d)) then false
  else true.

Definition set_coverage (data : option (list Z)) (d : DexFile) : DexFile :=
  mkDexFile (df_magic d) (df_size d) (df_location d) (df_code_items d) data.

(** [DexFile::Init].  [new uint8_t[size_]] leaves the array as the allocator
    hands it out: [memory] is that content. *)
Definition Init (memory : list Z) (d : DexFile) : bool * DexFile :=
  if negb (CheckMagicAndVersion d) then (false, d)
  else (true, if 0 <? df_size d then set_coverage (Some memory) d else d).

Definition dex_IsMiniTraceable (d : DexFile) : bool := bool_decide (is_Some (df_coverage_data d)).

(** [DexFile::GetCodeItem]: no item for a native or abstract method.  The
    pointer made from another offset is only good where there is an item. *)
Definition GetCodeItem (d : DexFile) (code_off : Z) : outcome (option CodeItem) :=
  if code_off =? 0 then mret None
  else match df_code_items d !! code_off with
       | Some item => mret (Some item)
       | None => Fault OutOfBounds
       end.

(** [DexFile::VisitPc]: one byte per code unit, at the code item's offset. *)
Definition dex_VisitPc (code_off dex_pc : Z) (d : DexFile) : outcome DexFile :=
  if code_off =? 0 then mret d
  else
    match df_coverage_data d with
    | None => Fault NullDereference
    | Some data => data ← poke data (code_off + dex_pc) 1; mret (set_coverage (Some data) d)
    end.

(** [DexFile::GetCoverageData]: the offset of a method's bytes, if any. *)
Definition dex_GetCoverageData (code_off : Z) (d : DexFile) : option Z :=
  if code_off =? 0 then None else Some code_off.

Definition method_dex_file (h : Heap) (m : ArtMethod) : outcome Z :=
  c ← GetDeclaringClass h m; mret (mc_dex_file c).

Definition method_GetCodeItem (h : Heap) (m : ArtMethod) : outcome (option CodeItem) :=
  p ← method_dex_file h m;
  d ← deref (h_dex_files h) p;
  GetCodeItem d (am_dex_code_item_offset m).

Definition method_VisitPc (h : Heap) (m : ArtMethod) (dex_pc : Z) : outcome Heap :=
  p ← method_dex_file h m;
  d ← deref (h_dex_files h) p;
  d ← dex_VisitPc (am_dex_code_item_offset m) dex_pc d;
  mret (set_dex_files (<[p := d]> (h_dex_files h)) h).

(** ** [PrettyDescriptor] of [utils.cc] *)

Fixpoint count_brackets (c : string) : nat * string :=
  match c with
  | String "["%char c => let '(dim, c) := count_brackets c in (S dim, c)
  | _ => (O, c)
  end.

(** The switch on a primitive's letter; [None] is its default case. *)
Definition primitive_name (c : string) : option string :=
  match c with
  | String "B"%char _ => Some "byte;"
  | String "C"%char _ => Some "char;"
  | String "D"%char _ => Some "double;"
  | String "F"%char _ => Some "float;"
  | String "I"%char _ => Some "int;"
  | String "J"%char _ => Some "long;"
  | String "S"%char _ => Some "short;"
  | String "Z"%char _ => Some "boolean;"
  | String "V"%char _ => Some "void;"
  | _ => None
  end%string.

(** Copy up to the semicolon with ['.'] for ['/']; running past the end of
    the string is a read outside of it. *)
Fixpoint dotted (p : string) : outcome string :=
  match p with
  | EmptyString => Fault OutOfBounds
  | String ";"%char _ => Ok EmptyString
  | String ch p =>
      rest ← dotted p;
      mret (String (if bool_decide (ch = "/"%char) then "."%char else ch) rest)
  end.

Fixpoint brackets (dim : nat) : string :=
  match dim with O => EmptyString | S dim => String.append "[]" (brackets dim) end.

Definition PrettyDescriptor (descriptor : string) : outcome string :=
  let '(dim, c) := count_brackets descriptor in
  let start :=
    match c with
    | String "L"%char c => Some c
    | _ => primitive_name c
    end in
  match start with
  | None => mret descriptor
  | Some c => result ← dotted c; mret (String.append result (brackets dim))
  end.

(** ** Properties *)

Lemma HasFlag_lor flags n :
  0 <= n -> HasFlag (Z.lor flags (2 ^ n)) (2 ^ n) = true.
Proof.
  intros. rewrite HasFlag_pow2 by done. by rewrite Z.lor_spec, Z.pow2_bits_true, orb_true_r.
Qed.

Lemma HasFlag_lor_other flags n m :
  0 <= n -> 0 <= m -> n <> m -> HasFlag (Z.lor flags (2 ^ n)) (2 ^ m) = HasFlag flags (2 ^ m).
Proof.
  intros. rewrite !HasFlag_pow2 by done.
  by rewrite Z.lor_spec, Z.pow2_bits_false, orb_false_r.
Qed.

(** Marking a method makes it traceable and leaves each other flag alone. *)
Lemma method_mark m : method_IsMiniTraceable (method_SetIsMiniTraceable m) = true.
Proof. apply (HasFlag_lor _ 30). lia. Qed.

Lemma field_mark f : field_IsMiniTraceable (field_SetIsMiniTraceable f) = true.
Proof. apply (HasFlag_lor _ 30). lia. Qed.

Lemma class_mark c : class_IsMiniTraceable (class_SetIsMiniTraceable c) = true.
Proof. apply (HasFlag_lor _ 30). lia. Qed.

(** A code item is a 16-byte header and its code units of two bytes each. *)
Definition code_item_end (code_off : Z) (item : CodeItem) : Z :=
  code_off + 16 + 2 * insns_size_in_code_units_ item.

(** The code items of a dex file lie after its header, inside the file, and
    do not overlap. *)
Definition code_items_wf (d : DexFile) : Prop :=
  (forall off item, df_code_items d !! off = Some item ->
     0 < off /\ 0 <= insns_size_in_code_units_ item /\ code_item_end off item <= df_size d) /\
  (forall off1 item1 off2 item2,
     df_code_items d !! off1 = Some item1 -> df_code_items d !! off2 = Some item2 ->
     off1 < off2 -> code_item_end off1 item1 <= off2).

Definition coverage_bytes (d : DexFile) (off : Z) (item : CodeItem) : list Z :=
  take (Z.to_nat (insns_size_in_code_units_ item))
    (drop (Z.to_nat off) (default [] (df_coverage_data d))).

(** Recording a pc of a method stays inside the coverage array, sets the
    byte of that pc, and changes no coverage byte of another method. *)
Lemma VisitPc_spec d data off item dex_pc :
  code_items_wf d -> df_coverage_data d = Some data -> Z.of_nat (length data) = df_size d ->
  df_code_items d !! off = Some item -> 0 <= dex_pc < insns_size_in_code_units_ item ->
  exists d', dex_VisitPc off dex_pc d = Ok d' /\
    coverage_bytes d' off item = <[Z.to_nat dex_pc := 1]> (coverage_bytes d off item) /\
    (forall off' item', df_code_items d !! off' = Some item' -> off' <> off ->
       coverage_bytes d' off' item' = coverage_bytes d off' item').
Proof.
  intros [Hin Hdis] Hdata Hlen Hoff Hpc.
  destruct (Hin _ _ Hoff) as (Hpos & Hn & Hend). unfold code_item_end in *.
  unfold dex_VisitPc. destruct (Z.eqb_spec off 0); [lia|]. rewrite Hdata.
  rewrite poke_ok by lia. cbn [mbind outcome_bind mret outcome_ret].
  eexists. split; [done|]. unfold coverage_bytes. rewrite Hdata. cbn [set_coverage df_coverage_data from_option id].
  split.
  - replace (Z.to_nat (off + dex_pc)) with (Z.to_nat off + Z.to_nat dex_pc)%nat by lia.
    rewrite drop_insert_ge by lia.
    replace (Z.to_nat off + Z.to_nat dex_pc - Z.to_nat off)%nat with (Z.to_nat dex_pc) by lia.
    by rewrite take_insert_lt by lia.
  - intros off' item' Hoff' Hne. destruct (Hin _ _ Hoff') as (? & ? & ?).
    destruct (Z.lt_ge_cases off off') as [Hlt|Hge].
    + pose proof (Hdis _ _ _ _ Hoff Hoff' Hlt). rewrite drop_insert_lt by lia. done.
    + assert (off' < off) as Hlt by lia. pose proof (Hdis _ _ _ _ Hoff' Hoff Hlt).
      rewrite drop_insert_ge by lia. rewrite take_insert_ge by lia. done.
Qed.
