(* ===== verification/Listener.v ===== *)
(** * The listener interface: [instrumentation.h]

    What the instrumentation reports and to whom: the event mask, the
    call-backs of [InstrumentationListener], and the interface the
    instrumentation is proved against.  A thread is named by its thread id, a
    listener, a method, a field and an object by their addresses. *)

From S2P Require Import Prelude ArtObjects.

(** [Instrumentation::InstrumentationEvent]. *)
Inductive InstrumentationEvent :=
| kMethodEntered
| kMethodExited
| kMethodUnwind
| kDexPcMoved
| kFieldRead
| kFieldWritten
| kExceptionCaught
| kBackwardBranch.

#[global] Instance InstrumentationEvent_eq_dec : EqDecision InstrumentationEvent.
Proof. solve_decision. Defined.

Definition event_bit (e : InstrumentationEvent) : Z :=
  match e with
  | kMethodEntered => 0x1
  | kMethodExited => 0x2
  | kMethodUnwind => 0x4
  | kDexPcMoved => 0x8
  | kFieldRead => 0x10
  | kFieldWritten => 0x20
  | kExceptionCaught => 0x40
  | kBackwardBranch => 0x80
  end.

(** The virtual functions of [InstrumentationListener] with their arguments. *)
Inductive ListenerCall :=
| MethodEntered (thread this_object method dex_pc : Z)
| MethodExited (thread this_object method dex_pc return_value : Z)
| MethodUnwind (thread this_object method dex_pc : Z)
| DexPcMoved (thread this_object method new_dex_pc : Z)
| FieldRead (thread this_object method dex_pc field : Z)
| FieldWritten (thread this_object method dex_pc field field_value : Z)
| ExceptionCaught (thread exception_object : Z)
| BackwardBranch (thread method dex_pc_offset : Z).

#[global] Instance ListenerCall_eq_dec : EqDecision ListenerCall.
Proof. solve_decision. Defined.

(** The event a call-back reports. *)
Definition call_event (c : ListenerCall) : InstrumentationEvent :=
  match c with
  | MethodEntered _ _ _ _ => kMethodEntered
  | MethodExited _ _ _ _ _ => kMethodExited
  | MethodUnwind _ _ _ _ => kMethodUnwind
  | DexPcMoved _ _ _ _ => kDexPcMoved
  | FieldRead _ _ _ _ _ => kFieldRead
  | FieldWritten _ _ _ _ _ _ => kFieldWritten
  | ExceptionCaught _ _ => kExceptionCaught
  | BackwardBranch _ _ _ => kBackwardBranch
  end.

(** What the instrumentation needs of the listeners: to run a call-back of
    the listener at an address, on the listeners' own state. *)
Class ListenerOps (S : Type) := {
  call_listener : Z -> ListenerCall -> Heap -> S -> outcome S;
}.

(** A listener that only writes down what it is told. *)
Definition CallLog : Type := list (Z * ListenerCall).

#[global] Instance CallLog_ops : ListenerOps CallLog := {|
  call_listener l c _ s := Ok (s ++ [(l, c)]);
|}.

(** What a listener promises the instrumentation: the reports of method
    entries and exits that a change of stubs makes do not fault, for the
    methods the listener can be told of.  [listener_ok] is the listener's own
    invariant. *)
Class ListenerLaws (S : Type) `{!ListenerOps S} := {
  listener_ok : S -> Prop;
  reportable : Z -> Prop;
  entered_total a thread this_object m dex_pc h s :
    reportable m -> is_Some (h_methods h !! m) -> listener_ok s ->
    exists s', call_listener a (MethodEntered thread this_object m dex_pc) h s = Ok s' /\ listener_ok s';
  exited_total a thread this_object m dex_pc return_value h s :
    reportable m -> is_Some (h_methods h !! m) -> listener_ok s ->
    exists s', call_listener a (MethodExited thread this_object m dex_pc return_value) h s = Ok s' /\
      listener_ok s';
}.

#[global] Instance CallLog_laws : ListenerLaws CallLog.
Proof.
  refine {| listener_ok := fun _ => True; reportable := fun _ => True |}; intros; by eexists.
Defined.
