(* ===== verification/Instrumentation.v ===== *)
(** * Instrumentation: listeners, events and method stubs

    The class [Instrumentation] of [instrumentation.h] and
    [instrumentation.cc]: its state, the registration of listeners, the
    delivery of events, and the code a method's entry point is given.  The
    stack side is in [InstrumentationStack], the operations that drive both
    are in [InstrumentationControl].  Locks and their assertions are not
    modelled: the callers hold the mutator lock exclusively. *)

From S2P Require Import Prelude ArtObjects Listener.

(** ** State *)

Inductive InstrumentationLevel :=
| kInstrumentNothing
| kInstrumentWithInstrumentationStubs
| kInstrumentWithInterpreter.

#[global] Instance InstrumentationLevel_eq_dec : EqDecision InstrumentationLevel.
Proof. solve_decision. Defined.

Definition level_index (l : InstrumentationLevel) : Z :=
  match l with
  | kInstrumentNothing => 0
  | kInstrumentWithInstrumentationStubs => 1
  | kInstrumentWithInterpreter => 2
  end.

(** [std::max] on the scoped enumeration. *)
Definition level_max (a b : InstrumentationLevel) : InstrumentationLevel :=
  if level_index a <? level_index b then b else a.

Inductive InterpreterHandlerTable := kMainHandlerTable | kAlternativeHandlerTable.

#[global] Instance InterpreterHandlerTable_eq_dec : EqDecision InterpreterHandlerTable.
Proof. solve_decision. Defined.

(** [have_X_listeners_] and [X_listeners_], for the events whose listeners
    are kept in a [std::list] and for those in a [shared_ptr] to one. *)
Record PlainSlot := mkPlainSlot { pl_have : bool; pl_listeners : list Z }.
Record SharedSlot := mkSharedSlot { sl_have : bool; sl_listeners : option (list Z) }.

(** Keys of clients are the addresses of their string constants. *)
Record Instrumentation := mkInstrumentation {
  instrumentation_stubs_installed_ : bool;
  entry_exit_stubs_installed_ : bool;
  interpreter_stubs_installed_ : bool;
  interpret_only_ : bool;
  forced_interpret_only_ : bool;
  requested_instrumentation_levels_ : gmap Z InstrumentationLevel;
  method_entry_ : PlainSlot;
  method_exit_ : PlainSlot;
  method_unwind_ : PlainSlot;
  backward_branch_ : PlainSlot;
  dex_pc_ : SharedSlot;
  field_read_ : SharedSlot;
  field_write_ : SharedSlot;
  exception_caught_ : SharedSlot;
  deoptimized_methods_ : gset Z;
  deoptimization_enabled_ : bool;
  interpreter_handler_table_ : InterpreterHandlerTable;
  alloc_counter_ : Z;
}.

Definition set_instrumentation_stubs_installed (v : bool) (r : Instrumentation) : Instrumentation :=
  mkInstrumentation v (entry_exit_stubs_installed_ r) (interpreter_stubs_installed_ r)
    (interpret_only_ r) (forced_interpret_only_ r) (requested_instrumentation_levels_ r)
    (method_entry_ r) (method_exit_ r) (method_unwind_ r) (backward_branch_ r) (dex_pc_ r)
    (field_read_ r) (field_write_ r) (exception_caught_ r) (deoptimized_methods_ r)
    (deoptimization_enabled_ r) (interpreter_handler_table_ r) (alloc_counter_ r).
Definition set_entry_exit_stubs_installed (v : bool) (r : Instrumentation) : Instrumentation :=
  mkInstrumentation (instrumentation_stubs_installed_ r) v (interpreter_stubs_installed_ r)
    (interpret_only_ r) (forced_interpret_only_ r) (requested_instrumentation_levels_ r)
    (method_entry_ r) (method_exit_ r) (method_unwind_ r) (backward_branch_ r) (dex_pc_ r)
    (field_read_ r) (field_write_ r) (exception_caught_ r) (deoptimized_methods_ r)
    (deoptimization_enabled_ r) (interpreter_handler_table_ r) (alloc_counter_ r).
Definition set_interpreter_stubs_installed (v : bool) (r : Instrumentation) : Instrumentation :=
  mkInstrumentation (instrumentation_stubs_installed_ r) (entry_exit_stubs_installed_ r) v
    (interpret_only_ r) (forced_interpret_only_ r) (requested_instrumentation_levels_ r)
    (method_entry_ r) (method_exit_ r) (method_unwind_ r) (backward_branch_ r) (dex_pc_ r)
    (field_read_ r) (field_write_ r) (exception_caught_ r) (deoptimized_methods_ r)
    (deoptimization_enabled_ r) (interpreter_handler_table_ r) (alloc_counter_ r).
Definition set_interpret_only (v : bool) (r : Instrumentation) : Instrumentation :=
  mkInstrumentation (instrumentation_stubs_installed_ r) (entry_exit_stubs_installed_ r)
    (interpreter_stubs_installed_ r) v (forced_interpret_only_ r)
    (requested_instrumentation_levels_ r) (method_entry_ r) (method_exit_ r) (method_unwind_ r)
    (backward_branch_ r) (dex_pc_ r) (field_read_ r) (field_write_ r) (exception_caught_ r)
    (deoptimized_methods_ r) (deoptimization_enabled_ r) (interpreter_handler_table_ r)
    (alloc_counter_ r).
Definition set_forced_interpret_only (v : bool) (r : Instrumentation) : Instrumentation :=
  mkInstrumentation (instrumentation_stubs_installed_ r) (entry_exit_stubs_installed_ r)
    (interpreter_stubs_installed_ r) (interpret_only_ r) v (requested_instrumentation_levels_ r)
    (method_entry_ r) (method_exit_ r) (method_unwind_ r) (backward_branch_ r) (dex_pc_ r)
    (field_read_ r) (field_write_ r) (exception_caught_ r) (deoptimized_methods_ r)
    (deoptimization_enabled_ r) (interpreter_handler_table_ r) (alloc_counter_ r).
Definition set_requested_instrumentation_levels (v : gmap Z InstrumentationLevel) (r : Instrumentation) : Instrumentation :=
  mkInstrumentation (instrumentation_stubs_installed_ r) (entry_exit_stubs_installed_ r)
    (interpreter_stubs_installed_ r) (interpret_only_ r) (forced_interpret_only_ r) v
    (method_entry_ r) (method_exit_ r) (method_unwind_ r) (backward_branch_ r) (dex_pc_ r)
    (field_read_ r) (field_write_ r) (exception_caught_ r) (deoptimized_methods_ r)
    (deoptimization_enabled_ r) (interpreter_handler_table_ r) (alloc_counter_ r).
Definition set_method_entry (v : PlainSlot) (r : Instrumentation) : Instrumentation :=
  mkInstrumentation (instrumentation_stubs_installed_ r) (entry_exit_stubs_installed_ r)
    (interpreter_stubs_installed_ r) (interpret_only_ r) (forced_interpret_only_ r)
    (requested_instrumentation_levels_ r) v (method_exit_ r) (method_unwind_ r)
    (backward_branch_ r) (dex_pc_ r) (field_read_ r) (field_write_ r) (exception_caught_ r)
    (deoptimized_methods_ r) (deoptimization_enabled_ r) (interpreter_handler_table_ r)
    (alloc_counter_ r).
Definition set_method_exit (v : PlainSlot) (r : Instrumentation) : Instrumentation :=
  mkInstrumentation (instrumentation_stubs_installed_ r) (entry_exit_stubs_installed_ r)
    (interpreter_stubs_installed_ r) (interpret_only_ r) (forced_interpret_only_ r)
    (requested_instrumentation_levels_ r) (method_entry_ r) v (method_unwind_ r)
    (backward_branch_ r) (dex_pc_ r) (field_read_ r) (field_write_ r) (exception_caught_ r)
    (deoptimized_methods_ r) (deoptimization_enabled_ r) (interpreter_handler_table_ r)
    (alloc_counter_ r).
Definition set_method_unwind (v : PlainSlot) (r : Instrumentation) : Instrumentation :=
  mkInstrumentation (instrumentation_stubs_installed_ r) (entry_exit_stubs_installed_ r)
    (interpreter_stubs_installed_ r) (interpret_only_ r) (forced_interpret_only_ r)
    (requested_instrumentation_levels_ r) (method_entry_ r) (method_exit_ r) v
    (backward_branch_ r) (dex_pc_ r) (field_read_ r) (field_write_ r) (exception_caught_ r)
    (deoptimized_methods_ r) (deoptimization_enabled_ r) (interpreter_handler_table_ r)
    (alloc_counter_ r).
Definition set_backward_branch (v : PlainSlot) (r : Instrumentation) : Instrumentation :=
  mkInstrumentation (instrumentation_stubs_installed_ r) (entry_exit_stubs_installed_ r)
    (interpreter_stubs_installed_ r) (interpret_only_ r) (forced_interpret_only_ r)
    (requested_instrumentation_levels_ r) (method_entry_ r) (method_exit_ r) (method_unwind_ r) v
    (dex_pc_ r) (field_read_ r) (field_write_ r) (exception_caught_ r) (deoptimized_methods_ r)
    (deoptimization_enabled_ r) (interpreter_handler_table_ r) (alloc_counter_ r).
Definition set_dex_pc (v : SharedSlot) (r : Instrumentation) : Instrumentation :=
  mkInstrumentation (instrumentation_stubs_installed_ r) (entry_exit_stubs_installed_ r)
    (interpreter_stubs_installed_ r) (interpret_only_ r) (forced_interpret_only_ r)
    (requested_instrumentation_levels_ r) (method_entry_ r) (method_exit_ r) (method_unwind_ r)
    (backward_branch_ r) v (field_read_ r) (field_write_ r) (exception_caught_ r)
    (deoptimized_methods_ r) (deoptimization_enabled_ r) (interpreter_handler_table_ r)
    (alloc_counter_ r).
Definition set_field_read (v : SharedSlot) (r : Instrumentation) : Instrumentation :=
  mkInstrumentation (instrumentation_stubs_installed_ r) (entry_exit_stubs_installed_ r)
    (interpreter_stubs_installed_ r) (interpret_only_ r) (forced_interpret_only_ r)
    (requested_instrumentation_levels_ r) (method_entry_ r) (method_exit_ r) (method_unwind_ r)
    (backward_branch_ r) (dex_pc_ r) v (field_write_ r) (exception_caught_ r)
    (deoptimized_methods_ r) (deoptimization_enabled_ r) (interpreter_handler_table_ r)
    (alloc_counter_ r).
Definition set_field_write (v : SharedSlot) (r : Instrumentation) : Instrumentation :=
  mkInstrumentation (instrumentation_stubs_installed_ r) (entry_exit_stubs_installed_ r)
    (interpreter_stubs_installed_ r) (interpret_only_ r) (forced_interpret_only_ r)
    (requested_instrumentation_levels_ r) (method_entry_ r) (method_exit_ r) (method_unwind_ r)
    (backward_branch_ r) (dex_pc_ r) (field_read_ r) v (exception_caught_ r)
    (deoptimized_methods_ r) (deoptimization_enabled_ r) (interpreter_handler_table_ r)
    (alloc_counter_ r).
Definition set_exception_caught (v : SharedSlot) (r : Instrumentation) : Instrumentation :=
  mkInstrumentation (instrumentation_stubs_installed_ r) (entry_exit_stubs_installed_ r)
    (interpreter_stubs_installed_ r) (interpret_only_ r) (forced_interpret_only_ r)
    (requested_instrumentation_levels_ r) (method_entry_ r) (method_exit_ r) (method_unwind_ r)
    (backward_branch_ r) (dex_pc_ r) (field_read_ r) (field_write_ r) v (deoptimized_methods_ r)
    (deoptimization_enabled_ r) (interpreter_handler_table_ r) (alloc_counter_ r).
Definition set_deoptimized_methods (v : gset Z) (r : Instrumentation) : Instrumentation :=
  mkInstrumentation (instrumentation_stubs_installed_ r) (entry_exit_stubs_installed_ r)
    (interpreter_stubs_installed_ r) (interpret_only_ r) (forced_interpret_only_ r)
    (requested_instrumentation_levels_ r) (method_entry_ r) (method_exit_ r) (method_unwind_ r)
    (backward_branch_ r) (dex_pc_ r) (field_read_ r) (field_write_ r) (exception_caught_ r) v
    (deoptimization_enabled_ r) (interpreter_handler_table_ r) (alloc_counter_ r).
Definition set_deoptimization_enabled (v : bool) (r : Instrumentation) : Instrumentation :=
  mkInstrumentation (instrumentation_stubs_installed_ r) (entry_exit_stubs_installed_ r)
    (interpreter_stubs_installed_ r) (interpret_only_ r) (forced_interpret_only_ r)
    (requested_instrumentation_levels_ r) (method_entry_ r) (method_exit_ r) (method_unwind_ r)
    (backward_branch_ r) (dex_pc_ r) (field_read_ r) (field_write_ r) (exception_caught_ r)
    (deoptimized_methods_ r) v (interpreter_handler_table_ r) (alloc_counter_ r).
Definition set_interpreter_handler_table (v : InterpreterHandlerTable) (r : Instrumentation) : Instrumentation :=
  mkInstrumentation (instrumentation_stubs_installed_ r) (entry_exit_stubs_installed_ r)
    (interpreter_stubs_installed_ r) (interpret_only_ r) (forced_interpret_only_ r)
    (requested_instrumentation_levels_ r) (method_entry_ r) (method_exit_ r) (method_unwind_ r)
    (backward_branch_ r) (dex_pc_ r) (field_read_ r) (field_write_ r) (exception_caught_ r)
    (deoptimized_methods_ r) (deoptimization_enabled_ r) v (alloc_counter_ r).
Definition set_alloc_counter (v : Z) (r : Instrumentation) : Instrumentation :=
  mkInstrumentation (instrumentation_stubs_installed_ r) (entry_exit_stubs_installed_ r)
    (interpreter_stubs_installed_ r) (interpret_only_ r) (forced_interpret_only_ r)
    (requested_instrumentation_levels_ r) (method_entry_ r) (method_exit_ r) (method_unwind_ r)
    (backward_branch_ r) (dex_pc_ r) (field_read_ r) (field_write_ r) (exception_caught_ r)
    (deoptimized_methods_ r) (deoptimization_enabled_ r) (interpreter_handler_table_ r) v.

(** The constructor. *)
Definition Instrumentation_new : Instrumentation :=
  mkInstrumentation false false false false false ∅
    (mkPlainSlot false []) (mkPlainSlot false []) (mkPlainSlot false []) (mkPlainSlot false [])
    (mkSharedSlot false None) (mkSharedSlot false None) (mkSharedSlot false None) (mkSharedSlot false None)
    ∅ false kMainHandlerTable 0.

Definition AreAllMethodsDeoptimized (i : Instrumentation) : bool := interpreter_stubs_installed_ i.
Definition AreExitStubsInstalled (i : Instrumentation) : bool := instrumentation_stubs_installed_ i.
Definition InterpretOnly (i : Instrumentation) : bool := interpret_only_ i.
Definition IsForcedInterpretOnly (i : Instrumentation) : bool := forced_interpret_only_ i.
Definition ForceInterpretOnly (i : Instrumentation) : Instrumentation :=
  set_forced_interpret_only true (set_interpret_only true i).

Definition HasMethodEntryListeners (i : Instrumentation) : bool := pl_have (method_entry_ i).
Definition HasMethodExitListeners (i : Instrumentation) : bool := pl_have (method_exit_ i).
Definition HasMethodUnwindListeners (i : Instrumentation) : bool := pl_have (method_unwind_ i).
Definition HasBackwardBranchListeners (i : Instrumentation) : bool := pl_have (backward_branch_ i).
Definition HasDexPcListeners (i : Instrumentation) : bool := sl_have (dex_pc_ i).
Definition HasFieldReadListeners (i : Instrumentation) : bool := sl_have (field_read_ i).
Definition HasFieldWriteListeners (i : Instrumentation) : bool := sl_have (field_write_ i).
Definition HasExceptionCaughtListeners (i : Instrumentation) : bool := sl_have (exception_caught_ i).

Definition IsActive (i : Instrumentation) : bool :=
  HasDexPcListeners i || HasMethodEntryListeners i || HasMethodExitListeners i ||
  HasFieldReadListeners i || HasFieldWriteListeners i ||
  HasExceptionCaughtListeners i || HasMethodUnwindListeners i.

Definition UpdateInterpreterHandlerTable (i : Instrumentation) : Instrumentation :=
  set_interpreter_handler_table (if IsActive i then kAlternativeHandlerTable else kMainHandlerTable) i.

(** ** Listeners *)

Definition HasEvent (expected : InstrumentationEvent) (events : Z) : bool :=
  negb (Z.land events (event_bit expected) =? 0).

Definition plain_push (listener : Z) (s : PlainSlot) : PlainSlot :=
  mkPlainSlot true (pl_listeners s ++ [listener]).

(** A copy of the shared list, or a new one, with the listener at its end. *)
Definition shared_push (listener : Z) (s : SharedSlot) : outcome SharedSlot :=
  modified ← (if sl_have s then
                match sl_listeners s with Some l => mret l | None => Fault NullDereference end
              else mret []);
  mret (mkSharedSlot true (Some (modified ++ [listener]))).

(** [std::list::remove]. *)
Definition list_remove (listener : Z) (l : list Z) : list Z := filter (fun x => x <> listener) l.

Definition plain_remove (listener : Z) (s : PlainSlot) : PlainSlot :=
  let l := list_remove listener (pl_listeners s) in
  mkPlainSlot (negb (bool_decide (l = []))) l.

Definition shared_remove (listener : Z) (s : SharedSlot) : outcome SharedSlot :=
  match sl_listeners s with
  | None => Fault NullDereference
  | Some l =>
      let modified := list_remove listener l in
      mret (if bool_decide (modified = []) then mkSharedSlot false None else mkSharedSlot true (Some modified))
  end.

Definition AddListener (listener events : Z) (i : Instrumentation) : outcome Instrumentation :=
  let i := if HasEvent kMethodEntered events
           then set_method_entry (plain_push listener (method_entry_ i)) i else i in
  let i := if HasEvent kMethodExited events
           then set_method_exit (plain_push listener (method_exit_ i)) i else i in
  let i := if HasEvent kMethodUnwind events
           then set_method_unwind (plain_push listener (method_unwind_ i)) i else i in
  let i := if HasEvent kBackwardBranch events
           then set_backward_branch (plain_push listener (backward_branch_ i)) i else i in
  i ← (if HasEvent kDexPcMoved events
       then s ← shared_push listener (dex_pc_ i); mret (set_dex_pc s i) else mret i);
  i ← (if HasEvent kFieldRead events
       then s ← shared_push listener (field_read_ i); mret (set_field_read s i) else mret i);
  i ← (if HasEvent kFieldWritten events
       then s ← shared_push listener (field_write_ i); mret (set_field_write s i) else mret i);
  i ← (if HasEvent kExceptionCaught events
       then s ← shared_push listener (exception_caught_ i); mret (set_exception_caught s i) else mret i);
  mret (UpdateInterpreterHandlerTable i).

Definition RemoveListener (listener events : Z) (i : Instrumentation) : outcome Instrumentation :=
  let i := if HasEvent kMethodEntered events && HasMethodEntryListeners i
           then set_method_entry (plain_remove listener (method_entry_ i)) i else i in
  let i := if HasEvent kMethodExited events && HasMethodExitListeners i
           then set_method_exit (plain_remove listener (method_exit_ i)) i else i in
  let i := if HasEvent kMethodUnwind events && HasMethodUnwindListeners i
           then set_method_unwind (plain_remove listener (method_unwind_ i)) i else i in
  let i := if HasEvent kBackwardBranch events && HasBackwardBranchListeners i
           then set_backward_branch (plain_remove listener (backward_branch_ i)) i else i in
  i ← (if HasEvent kDexPcMoved events && HasDexPcListeners i
       then s ← shared_remove listener (dex_pc_ i); mret (set_dex_pc s i) else mret i);
  i ← (if HasEvent kFieldRead events && HasFieldReadListeners i
       then s ← shared_remove listener (field_read_ i); mret (set_field_read s i) else mret i);
  i ← (if HasEvent kFieldWritten events && HasFieldWriteListeners i
       then s ← shared_remove listener (field_write_ i); mret (set_field_write s i) else mret i);
  i ← (if HasEvent kExceptionCaught events && HasExceptionCaughtListeners i
       then s ← shared_remove listener (exception_caught_ i); mret (set_exception_caught s i) else mret i);
  mret (UpdateInterpreterHandlerTable i).

(** ** Threads *)

(** [InstrumentationStackFrame]. *)
Record InstrumentationStackFrame := mkISF {
  this_object_ : Z;
  isf_method_ : Z;
  return_pc_ : Z;
  frame_id_ : Z;
  interpreter_entry_ : bool;
}.

(** What a stack walk with transitions shows, from the top: the frames of
    compiled code with their return addresses, the frames of the interpreter,
    and one upcall at the end of each fragment of the managed stack. *)
Inductive Frame :=
| QuickFrame (method return_pc this_object : Z)
| ShadowFrame (method dex_pc this_object : Z)
| Upcall.

Record Thread_ := mkThread {
  th_tid : Z;
  th_frames : list Frame;
  th_istack : list InstrumentationStackFrame;
  th_exception : Z;
  th_alloc_instrumented : bool;
  th_deopt_value : option (Z * bool);
}.

Definition set_frames (fs : list Frame) (t : Thread_) : Thread_ :=
  mkThread (th_tid t) fs (th_istack t) (th_exception t) (th_alloc_instrumented t) (th_deopt_value t).
Definition set_istack (s : list InstrumentationStackFrame) (t : Thread_) : Thread_ :=
  mkThread (th_tid t) (th_frames t) s (th_exception t) (th_alloc_instrumented t) (th_deopt_value t).
Definition set_exception (e : Z) (t : Thread_) : Thread_ :=
  mkThread (th_tid t) (th_frames t) (th_istack t) e (th_alloc_instrumented t) (th_deopt_value t).
Definition set_alloc_instrumented (b : bool) (t : Thread_) : Thread_ :=
  mkThread (th_tid t) (th_frames t) (th_istack t) (th_exception t) b (th_deopt_value t).
Definition set_deopt_value (v : option (Z * bool)) (t : Thread_) : Thread_ :=
  mkThread (th_tid t) (th_frames t) (th_istack t) (th_exception t) (th_alloc_instrumented t) v.

(** ** Events *)

Section Events.
Context {L : Type} `{!ListenerOps L}.

(** The call-back on each listener of a list, in order. *)
Fixpoint notify (listeners : list Z) (c : ListenerCall) (h : Heap) (l : L) : outcome L :=
  match listeners with
  | [] => mret l
  | listener :: listeners => l ← call_listener listener c h l; notify listeners c h l
  end.

Definition notify_shared (listeners : option (list Z)) (c : ListenerCall) (h : Heap) (l : L) : outcome L :=
  match listeners with
  | None => Fault NullDereference
  | Some original => notify original c h l
  end.

Definition MethodEnterEvent (i : Instrumentation) (h : Heap) (thread this_object method dex_pc : Z) (l : L)
  : outcome L :=
  if HasMethodEntryListeners i then
    notify (pl_listeners (method_entry_ i)) (MethodEntered thread this_object method dex_pc) h l
  else mret l.

Definition MethodExitEvent (i : Instrumentation) (h : Heap)
    (thread this_object method dex_pc return_value : Z) (l : L) : outcome L :=
  if HasMethodExitListeners i then
    notify (pl_listeners (method_exit_ i))
      (MethodExited thread this_object method dex_pc return_value) h l
  else mret l.

Definition MethodUnwindEvent (i : Instrumentation) (h : Heap) (thread this_object method dex_pc : Z) (l : L)
  : outcome L :=
  if HasMethodUnwindListeners i then
    notify (pl_listeners (method_unwind_ i)) (MethodUnwind thread this_object method dex_pc) h l
  else mret l.

Definition DexPcMovedEvent (i : Instrumentation) (h : Heap) (thread this_object method dex_pc : Z) (l : L)
  : outcome L :=
  if HasDexPcListeners i then
    notify_shared (sl_listeners (dex_pc_ i)) (DexPcMoved thread this_object method dex_pc) h l
  else mret l.

Definition BackwardBranchEvent (i : Instrumentation) (h : Heap) (thread method offset : Z) (l : L)
  : outcome L :=
  if HasBackwardBranchListeners i then
    notify (pl_listeners (backward_branch_ i)) (BackwardBranch thread method offset) h l
  else mret l.

Definition FieldReadEvent (i : Instrumentation) (h : Heap)
    (thread this_object method dex_pc field : Z) (l : L) : outcome L :=
  if HasFieldReadListeners i then
    notify_shared (sl_listeners (field_read_ i)) (FieldRead thread this_object method dex_pc field) h l
  else mret l.

Definition FieldWriteEvent (i : Instrumentation) (h : Heap)
    (thread this_object method dex_pc field field_value : Z) (l : L) : outcome L :=
  if HasFieldWriteListeners i then
    notify_shared (sl_listeners (field_write_ i))
      (FieldWritten thread this_object method dex_pc field field_value) h l
  else mret l.

(** The pending exception is taken off the thread while the listeners run. *)
Definition ExceptionCaughtEvent (i : Instrumentation) (h : Heap) (exception_object : Z)
    (t : Thread_) (l : L) : outcome (Thread_ * L) :=
  if HasExceptionCaughtListeners i then
    let t := set_exception 0 t in
    l ← notify_shared (sl_listeners (exception_caught_ i))
          (ExceptionCaught (th_tid t) exception_object) h l;
    check (negb (exception_object =? 0));;
    mret (set_exception exception_object t, l)
  else mret (t, l).

End Events.

(** ** The code of a method *)

(** What the runtime fixes when it starts: its special methods, the addresses
    of the exit stub and of the deoptimization stub, what the oat files hold
    for a method, the pc tables of compiled code, and what the debugger asks
    for. *)
Record RuntimeEnv := mkRuntimeEnv {
  env_resolution_method : Z;
  env_save_all_method : Z;
  env_refs_and_args_method : Z;
  env_exit_pc : Z;
  env_deoptimization_entry : Z;
  env_oat_code : Z -> option Z;
  env_to_dex_pc : Z -> Z -> Z;
  env_is_started : bool;
  env_forced_interpreter_for_upcall : Z -> bool;
}.

(** [JitCodeCache]: the range of its code and the code it saved. *)
Record JitCodeCache := mkJitCodeCache {
  code_cache_begin_ : Z;
  code_cache_end_ : Z;
  method_code_map_ : gmap Z QuickCode;
}.

(** Stubs and trampolines lie outside of the code cache. *)
Definition ContainsCodePtr (c : JitCodeCache) (code : QuickCode) : bool :=
  match code with
  | CompiledCode ptr => (code_cache_begin_ c <=? ptr) && (ptr <? code_cache_end_ c)
  | _ => false
  end.

Definition jit_GetCodeFor (c : JitCodeCache) (p : Z) (m : ArtMethod) : option QuickCode :=
  if ContainsCodePtr c (am_entry_quick m) then Some (am_entry_quick m) else method_code_map_ c !! p.

Definition SaveCompiledCode (p : Z) (old_code_ptr : QuickCode) (c : JitCodeCache) : JitCodeCache :=
  match method_code_map_ c !! p with
  | Some _ => c
  | None => mkJitCodeCache (code_cache_begin_ c) (code_cache_end_ c)
              (<[p := old_code_ptr]> (method_code_map_ c))
  end.

(** The methods and the JIT, when there is one. *)
Record CodeState := mkCodeState { cs_heap : Heap; cs_jit : option JitCodeCache }.

Definition get_method (p : Z) : M CodeState ArtMethod := fun s =>
  m ← deref (h_methods (cs_heap s)) p; mret (m, s).

Definition put_method (p : Z) (m : ArtMethod) : M CodeState unit :=
  modify (fun s => mkCodeState (set_methods (<[p := m]> (h_methods (cs_heap s))) (cs_heap s)) (cs_jit s)).

Definition method_set_quick (c : QuickCode) (m : ArtMethod) : ArtMethod :=
  mkArtMethod (am_declaring_class m) (am_access_flags m) (am_dex_code_item_offset m)
    (am_dex_method_index m) (am_name m) (am_signature m) (am_shorty m) (am_source_file m)
    (am_entry_interpreter m) c.
Definition method_set_interpreter (e : InterpreterEntry) (m : ArtMethod) : ArtMethod :=
  mkArtMethod (am_declaring_class m) (am_access_flags m) (am_dex_code_item_offset m)
    (am_dex_method_index m) (am_name m) (am_signature m) (am_shorty m) (am_source_file m)
    e (am_entry_quick m).

(** [ClassLinker::GetQuickOatCodeFor]. *)
Definition GetQuickOatCodeFor (env : RuntimeEnv) (p : Z) : M CodeState QuickCode :=
  m ← get_method p;
  checkM (negb (IsAbstract m)) ;;
  h ← gets cs_heap;
  proxy ← lift (IsProxyMethod h m);
  if (proxy : bool) then mret QuickProxyInvokeHandler
  else
    match env_oat_code env p with
    | Some code => mret (CompiledCode code)
    | None =>
        jit ← gets cs_jit;
        match jit ≫= (fun c => jit_GetCodeFor c p m) with
        | Some code => mret code
        | None => mret (if IsNative m then QuickGenericJniStub else QuickToInterpreterBridge)
        end
    end.

(** [UpdateEntrypoints]; [forced] is [IsForcedInterpretOnly()]. *)
Definition UpdateEntrypoints (env : RuntimeEnv) (forced : bool) (p : Z) (quick_code : QuickCode)
  : M CodeState unit :=
  m ← get_method p;
  modify (fun s =>
    match cs_jit s with
    | Some c =>
        if ContainsCodePtr c (am_entry_quick m)
        then mkCodeState (cs_heap s) (Some (SaveCompiledCode p (am_entry_quick m) c)) else s
    | None => s
    end) ;;
  put_method p (method_set_quick quick_code m) ;;
  if p =? env_resolution_method env then mret tt
  else
    m ← get_method p;
    h ← gets cs_heap;
    to_interpreter ←
      (if IsQuickToInterpreterBridge quick_code then mret true
       else if IsQuickResolutionStub quick_code && forced && negb (IsNative m)
       then (proxy ← lift (IsProxyMethod h m); mret (negb proxy)) else mret false);
    put_method p (method_set_interpreter
      (if to_interpreter : bool then artInterpreterToInterpreterBridge
       else artInterpreterToCompiledCodeBridge) m).

Definition IsDeoptimizedMethod (i : Instrumentation) (p : Z) : bool := bool_decide (p ∈ deoptimized_methods_ i).
Definition IsDeoptimized (i : Instrumentation) (p : Z) : bool := IsDeoptimizedMethod i p.

Definition proxy_descriptor : string := "Ljava/lang/reflect/Proxy;".

(** [InstallStubsForMethod]. *)
Definition InstallStubsForMethod (env : RuntimeEnv) (i : Instrumentation) (p : Z) : M CodeState unit :=
  m ← get_method p;
  h ← gets cs_heap;
  skip ← (if IsAbstract m then mret true else lift (IsProxyMethod h m));
  if (skip : bool) then mret tt
  else
    k ← lift (GetDeclaringClass h m);
    if IsConstructor m && bool_decide (mc_descriptor k = proxy_descriptor) then mret tt
    else
      let uninstall := negb (entry_exit_stubs_installed_ i) && negb (interpreter_stubs_installed_ i) in
      let is_class_initialized := IsInitialized k in
      new_quick_code ←
        (if uninstall then
           if (forced_interpret_only_ i || IsDeoptimized i p) && negb (IsNative m)
           then mret QuickToInterpreterBridge
           else if is_class_initialized || negb (IsStatic m) || IsConstructor m
           then GetQuickOatCodeFor env p
           else mret QuickResolutionStub
         else
           if (interpreter_stubs_installed_ i || forced_interpret_only_ i || IsDeoptimized i p)
              && negb (IsNative m)
           then mret QuickToInterpreterBridge
           else if is_class_initialized || negb (IsStatic m) || IsConstructor m
           then if entry_exit_stubs_installed_ i then mret QuickInstrumentationEntryPoint
                else GetQuickOatCodeFor env p
           else mret QuickResolutionStub);
      UpdateEntrypoints env (IsForcedInterpretOnly i) p new_quick_code.

(** [InstallStubsForClass], as changed for tracing: only classes marked
    traceable get stubs. *)
Definition InstallStubsForClass (env : RuntimeEnv) (i : Instrumentation) (klass : Z) : M CodeState unit :=
  h ← gets cs_heap;
  k ← lift (deref (h_classes h) klass);
  if IsErroneous k then mret tt
  else if negb (IsResolved k) then mret tt
  else if negb (class_IsMiniTraceable k) then mret tt
  else
    forM (mc_direct_methods k) (InstallStubsForMethod env i) ;;
    forM (mc_virtual_methods k) (InstallStubsForMethod env i).

Definition InstallStubsClassVisitor (env : RuntimeEnv) (i : Instrumentation) (klass : Z) : M CodeState bool :=
  InstallStubsForClass env i klass ;; mret true.

(** [UpdateMethodsCode]. *)
Definition UpdateMethodsCode (env : RuntimeEnv) (i : Instrumentation) (p : Z) (quick_code : QuickCode)
  : M CodeState unit :=
  m ← get_method p;
  let new_quick_code :=
    if negb (instrumentation_stubs_installed_ i) then quick_code
    else if (interpreter_stubs_installed_ i || IsDeoptimized i p) && negb (IsNative m)
    then QuickToInterpreterBridge
    else if IsQuickResolutionStub quick_code || IsQuickToInterpreterBridge quick_code then quick_code
    else if entry_exit_stubs_installed_ i then QuickInstrumentationEntryPoint
    else quick_code in
  UpdateEntrypoints env (IsForcedInterpretOnly i) p new_quick_code.

(** [GetQuickCodeFor]. *)
Definition GetQuickCodeFor (env : RuntimeEnv) (i : Instrumentation) (p : Z) : M CodeState QuickCode :=
  m ← get_method p;
  let code := am_entry_quick m in
  if negb (instrumentation_stubs_installed_ i) && negb (IsQuickResolutionStub code) &&
     negb (IsQuickToInterpreterBridge code)
  then mret code
  else GetQuickOatCodeFor env p.

(** ** Listeners: the registry a client sees *)

Definition plain_ok (s : PlainSlot) : Prop := pl_have s = negb (bool_decide (pl_listeners s = [])).
Definition shared_ok (s : SharedSlot) : Prop :=
  sl_listeners s <> Some [] /\ sl_have s = bool_decide (is_Some (sl_listeners s)).

(** The short-cut flags tell whether there is a listener, the shared lists
    are never empty, and the interpreter uses the handler table for it. *)
Record listeners_wf (i : Instrumentation) : Prop := {
  lw_entry : plain_ok (method_entry_ i);
  lw_exit : plain_ok (method_exit_ i);
  lw_unwind : plain_ok (method_unwind_ i);
  lw_branch : plain_ok (backward_branch_ i);
  lw_pc : shared_ok (dex_pc_ i);
  lw_read : shared_ok (field_read_ i);
  lw_write : shared_ok (field_write_ i);
  lw_exception : shared_ok (exception_caught_ i);
  lw_table : interpreter_handler_table_ i =
    if IsActive i then kAlternativeHandlerTable else kMainHandlerTable;
}.

(** The registry: the listeners of each event, in the order of delivery. *)
Definition listeners_of (i : Instrumentation) (e : InstrumentationEvent) : list Z :=
  match e with
  | kMethodEntered => pl_listeners (method_entry_ i)
  | kMethodExited => pl_listeners (method_exit_ i)
  | kMethodUnwind => pl_listeners (method_unwind_ i)
  | kBackwardBranch => pl_listeners (backward_branch_ i)
  | kDexPcMoved => default [] (sl_listeners (dex_pc_ i))
  | kFieldRead => default [] (sl_listeners (field_read_ i))
  | kFieldWritten => default [] (sl_listeners (field_write_ i))
  | kExceptionCaught => default [] (sl_listeners (exception_caught_ i))
  end.

(** A change of one slot, present or not. *)
Definition shared_pushed (listener : Z) (s : SharedSlot) : SharedSlot :=
  mkSharedSlot true (Some (default [] (sl_listeners s) ++ [listener])).
Definition shared_removed (listener : Z) (s : SharedSlot) : SharedSlot :=
  let l := list_remove listener (default [] (sl_listeners s)) in
  if bool_decide (l = []) then mkSharedSlot false None else mkSharedSlot true (Some l).

Lemma shared_push_ok l s : shared_ok s -> shared_push l s = Ok (shared_pushed l s).
Proof. intros [_ Hh]. destruct s as [[] [ls|]]; cbn in *; done. Qed.

Lemma shared_remove_ok l s :
  shared_ok s -> sl_have s = true -> shared_remove l s = Ok (shared_removed l s).
Proof. intros [_ Hh] Ht. destruct s as [h [ls|]]; cbn in *; [done|congruence]. Qed.

(** One conditional change of a registration, as an unconditional one. *)
Lemma change_slot {I T} (b : bool) (set : T -> I -> I) (get : I -> T) (f : T -> T) (i : I) :
  set (get i) i = i -> (if b then set (f (get i)) i else i) = set (if b then f (get i) else get i) i.
Proof. destruct b; congruence. Qed.

Lemma change_shared {I T R} (b : bool) (set : T -> I -> I) (get : I -> T) (g : outcome T) (f : T -> T)
    (i : I) (k : I -> outcome R) :
  set (get i) i = i -> (b = true -> g = Ok (f (get i))) ->
  ((if b then s ← g; mret (set s i) else mret i) ≫= k) = k (set (if b then f (get i) else get i) i).
Proof. intros Hs Hg. destruct b; [by rewrite Hg|]. by rewrite Hs. Qed.

Definition pushed (listener events : Z) (i : Instrumentation) : Instrumentation :=
  let plain e s := if HasEvent e events then plain_push listener s else s in
  let shared e s := if HasEvent e events then shared_pushed listener s else s in
  UpdateInterpreterHandlerTable
   (set_exception_caught (shared kExceptionCaught (exception_caught_ i))
   (set_field_write (shared kFieldWritten (field_write_ i))
   (set_field_read (shared kFieldRead (field_read_ i))
   (set_dex_pc (shared kDexPcMoved (dex_pc_ i))
   (set_backward_branch (plain kBackwardBranch (backward_branch_ i))
   (set_method_unwind (plain kMethodUnwind (method_unwind_ i))
   (set_method_exit (plain kMethodExited (method_exit_ i))
   (set_method_entry (plain kMethodEntered (method_entry_ i)) i)))))))).

Definition removed (listener events : Z) (i : Instrumentation) : Instrumentation :=
  let plain e s := if HasEvent e events && pl_have s then plain_remove listener s else s in
  let shared e s := if HasEvent e events && sl_have s then shared_removed listener s else s in
  UpdateInterpreterHandlerTable
   (set_exception_caught (shared kExceptionCaught (exception_caught_ i))
   (set_field_write (shared kFieldWritten (field_write_ i))
   (set_field_read (shared kFieldRead (field_read_ i))
   (set_dex_pc (shared kDexPcMoved (dex_pc_ i))
   (set_backward_branch (plain kBackwardBranch (backward_branch_ i))
   (set_method_unwind (plain kMethodUnwind (method_unwind_ i))
   (set_method_exit (plain kMethodExited (method_exit_ i))
   (set_method_entry (plain kMethodEntered (method_entry_ i)) i)))))))).

Lemma AddListener_ok l ev i : listeners_wf i -> AddListener l ev i = Ok (pushed l ev i).
Proof.
  intros H. unfold AddListener.
  rewrite (change_slot _ set_method_entry method_entry_ (plain_push l)) by (by destruct i).
  rewrite (change_slot _ set_method_exit method_exit_ (plain_push l)) by (by destruct i).
  rewrite (change_slot _ set_method_unwind method_unwind_ (plain_push l)) by (by destruct i).
  rewrite (change_slot _ set_backward_branch backward_branch_ (plain_push l)) by (by destruct i).
  rewrite (change_shared _ set_dex_pc dex_pc_ _ (shared_pushed l)); [|by destruct i|intros _; apply shared_push_ok, H].
  rewrite (change_shared _ set_field_read field_read_ _ (shared_pushed l)); [|by destruct i|intros _; apply shared_push_ok, H].
  rewrite (change_shared _ set_field_write field_write_ _ (shared_pushed l)); [|by destruct i|intros _; apply shared_push_ok, H].
  rewrite (change_shared _ set_exception_caught exception_caught_ _ (shared_pushed l)); [|by destruct i|intros _; apply shared_push_ok, H].
  reflexivity.
Qed.

Lemma RemoveListener_ok l ev i : listeners_wf i -> RemoveListener l ev i = Ok (removed l ev i).
Proof.
  intros H. unfold RemoveListener.
  rewrite (change_slot _ set_method_entry method_entry_ (plain_remove l)) by (by destruct i).
  rewrite (change_slot _ set_method_exit method_exit_ (plain_remove l)) by (by destruct i).
  rewrite (change_slot _ set_method_unwind method_unwind_ (plain_remove l)) by (by destruct i).
  rewrite (change_slot _ set_backward_branch backward_branch_ (plain_remove l)) by (by destruct i).
  rewrite (change_shared _ set_dex_pc dex_pc_ _ (shared_removed l)); [|by destruct i|intros [_ Hb]%andb_prop; apply shared_remove_ok; [apply H|exact Hb]].
  rewrite (change_shared _ set_field_read field_read_ _ (shared_removed l)); [|by destruct i|intros [_ Hb]%andb_prop; apply shared_remove_ok; [apply H|exact Hb]].
  rewrite (change_shared _ set_field_write field_write_ _ (shared_removed l)); [|by destruct i|intros [_ Hb]%andb_prop; apply shared_remove_ok; [apply H|exact Hb]].
  rewrite (change_shared _ set_exception_caught exception_caught_ _ (shared_removed l)); [|by destruct i|intros [_ Hb]%andb_prop; apply shared_remove_ok; [apply H|exact Hb]].
  reflexivity.
Qed.

Lemma plain_push_ok l s : plain_ok (plain_push l s).
Proof. unfold plain_ok. cbn. by destruct (pl_listeners s). Qed.

Lemma plain_remove_ok l s : plain_ok (plain_remove l s).
Proof. done. Qed.

Lemma shared_pushed_ok l s : shared_ok (shared_pushed l s).
Proof. split; [|done]. cbn. by destruct (default [] (sl_listeners s)). Qed.

Lemma shared_removed_ok l s : shared_ok (shared_removed l s).
Proof. unfold shared_removed. case_bool_decide; split; cbn; congruence. Qed.

#[export] Hint Resolve plain_push_ok plain_remove_ok shared_pushed_ok shared_removed_ok : art.

Lemma pushed_wf l ev i : listeners_wf i -> listeners_wf (pushed l ev i).
Proof. intros H. split; try done; cbn; destruct (HasEvent _ ev); auto with art; apply H. Qed.

Lemma removed_wf l ev i : listeners_wf i -> listeners_wf (removed l ev i).
Proof. intros H. split; try done; cbn; destruct (HasEvent _ ev && _); auto with art; apply H. Qed.

Lemma Instrumentation_new_wf : listeners_wf Instrumentation_new.
Proof. by split. Qed.

Lemma listeners_of_pushed l ev i e :
  listeners_of (pushed l ev i) e = listeners_of i e ++ (if HasEvent e ev then [l] else []).
Proof. destruct e; cbn; destruct (HasEvent _ ev); by rewrite ?app_nil_r. Qed.

Lemma shared_removed_list l s :
  default [] (sl_listeners (shared_removed l s)) = list_remove l (default [] (sl_listeners s)).
Proof. unfold shared_removed. by case_bool_decide. Qed.

Lemma plain_empty s : plain_ok s -> pl_have s = false -> pl_listeners s = [].
Proof. unfold plain_ok. intros ->. by case_bool_decide. Qed.

Lemma shared_empty s : shared_ok s -> sl_have s = false -> default [] (sl_listeners s) = [].
Proof. intros [_ ->]. case_bool_decide as H; [done|]. destruct (sl_listeners s); [by destruct H|done]. Qed.

(** Removing from a slot, whether or not its flag is set. *)
Lemma plain_removed_list (b : bool) l s : plain_ok s ->
  pl_listeners (if b && pl_have s then plain_remove l s else s) =
  if b then list_remove l (pl_listeners s) else pl_listeners s.
Proof.
  intros Hok. destruct b; [|done]. destruct (pl_have s) eqn:E; [done|]. cbn.
  by rewrite (plain_empty s Hok E).
Qed.

Lemma shared_removed_cond (b : bool) l s : shared_ok s ->
  default [] (sl_listeners (if b && sl_have s then shared_removed l s else s)) =
  if b then list_remove l (default [] (sl_listeners s)) else default [] (sl_listeners s).
Proof.
  intros Hok. destruct b; [|done]. destruct (sl_have s) eqn:E; cbn [andb].
  - apply shared_removed_list.
  - by rewrite (shared_empty s Hok E).
Qed.

Lemma listeners_of_removed l ev i e : listeners_wf i ->
  listeners_of (removed l ev i) e =
  if HasEvent e ev then list_remove l (listeners_of i e) else listeners_of i e.
Proof.
  intros H. destruct e.
  all: first [apply plain_removed_list, H | apply shared_removed_cond, H].
Qed.

Lemma list_remove_app l l1 l2 : list_remove l (l1 ++ l2) = list_remove l l1 ++ list_remove l l2.
Proof. apply filter_app. Qed.

Lemma list_remove_notin l ls : l ∉ ls -> list_remove l ls = ls.
Proof.
  intros Hn. unfold list_remove. induction ls as [|x ls IH]; [done|].
  rewrite not_elem_of_cons in Hn. destruct Hn. rewrite filter_cons_True by done. by rewrite IH.
Qed.

Lemma list_remove_self l : list_remove l [l] = [].
Proof. unfold list_remove. rewrite filter_cons_False; [done|]. by intros H. Qed.

(** ** Delivery *)

Section Delivery.
Context {L : Type} `{!ListenerOps L}.

(** Reporting an event, by the call-back it makes. *)
Definition report (i : Instrumentation) (h : Heap) (c : ListenerCall) (t : Thread_) (l : L)
  : outcome (Thread_ * L) :=
  match c with
  | MethodEntered thread o m pc => l ← MethodEnterEvent i h thread o m pc l; mret (t, l)
  | MethodExited thread o m pc rv => l ← MethodExitEvent i h thread o m pc rv l; mret (t, l)
  | MethodUnwind thread o m pc => l ← MethodUnwindEvent i h thread o m pc l; mret (t, l)
  | DexPcMoved thread o m pc => l ← DexPcMovedEvent i h thread o m pc l; mret (t, l)
  | FieldRead thread o m pc f => l ← FieldReadEvent i h thread o m pc f l; mret (t, l)
  | FieldWritten thread o m pc f v => l ← FieldWriteEvent i h thread o m pc f v l; mret (t, l)
  | BackwardBranch thread m off => l ← BackwardBranchEvent i h thread m off l; mret (t, l)
  | ExceptionCaught _ e => ExceptionCaughtEvent i h e t l
  end.

Lemma notify_plain s c h (l : L) : plain_ok s ->
  (if pl_have s then notify (pl_listeners s) c h l else mret l) = notify (pl_listeners s) c h l.
Proof. intros Hok. destruct (pl_have s) eqn:E; [done|]. by rewrite (plain_empty s Hok E). Qed.

Lemma notify_shared_slot s c h (l : L) : shared_ok s ->
  (if sl_have s then notify_shared (sl_listeners s) c h l else mret l) =
  notify (default [] (sl_listeners s)) c h l.
Proof.
  intros Hok. destruct (sl_have s) eqn:E.
  - destruct Hok as [_ Hh]. rewrite E in Hh. destruct (sl_listeners s); [done|]. by cbn in Hh.
  - by rewrite (shared_empty s Hok E).
Qed.

(** An event goes to the listeners registered for it and to no other; the
    thread is left as it was when its pending exception is the one reported. *)
Lemma report_notifies i h c t (l : L) :
  listeners_wf i ->
  (forall thread e, c = ExceptionCaught thread e -> thread = th_tid t /\ th_exception t = e /\ e <> 0) ->
  report i h c t l = (l' ← notify (listeners_of i (call_event c)) c h l; mret (t, l')).
Proof.
  intros H He. assert (forall (m m' : outcome L), m = m' ->
    (l' ← m; mret (t, l')) = (l' ← m'; mret (t, l'))) as Hbind by (by intros ? ? ->).
  destruct c; cbn [report call_event listeners_of].
  8: apply Hbind, notify_plain, H.
  7:{ destruct (He _ _ eq_refl) as (-> & Hex & Hne). unfold ExceptionCaughtEvent, HasExceptionCaughtListeners.
      cbn [set_exception th_tid].
      pose proof (notify_shared_slot (exception_caught_ i) (ExceptionCaught (th_tid t) exception_object) h l
                    (lw_exception _ H)) as Hs.
      destruct (sl_have (exception_caught_ i)).
      - rewrite Hs. destruct (notify _ _ _ _) as [l'|]; [|done]. cbn.
        rewrite (proj2 (Z.eqb_neq _ _) Hne). cbn. destruct t; cbn in *. by subst.
      - rewrite <- Hs. done. }
  1-3: apply Hbind, notify_plain, H.
  all: apply Hbind, notify_shared_slot, H.
Qed.

End Delivery.

Lemma notify_log ls c h : forall (log : CallLog),
  notify ls c h log = Ok (log ++ ((fun l => (l, c)) <$> ls)).
Proof.
  induction ls as [|l ls IH]; intros log; cbn; [by rewrite app_nil_r|].
  rewrite IH. by rewrite <- app_assoc.
Qed.

(** ** Stubs *)

Section Stubs.
Context (env : RuntimeEnv).

(** The entry points [UpdateEntrypoints] leaves in a method that is no proxy. *)
Definition with_code (forced : bool) (p : Z) (code : QuickCode) (m : ArtMethod) : ArtMethod :=
  let m := method_set_quick code m in
  if p =? env_resolution_method env then m
  else method_set_interpreter
         (if IsQuickToInterpreterBridge code || (IsQuickResolutionStub code && forced && negb (IsNative m))
          then artInterpreterToInterpreterBridge else artInterpreterToCompiledCodeBridge) m.

(** The code cache after it was asked to keep a method's code. *)
Definition jit_saved (p : Z) (m : ArtMethod) (jit : option JitCodeCache) : option JitCodeCache :=
  match jit with
  | Some c => Some (if ContainsCodePtr c (am_entry_quick m) then SaveCompiledCode p (am_entry_quick m) c else c)
  | None => None
  end.

Lemma get_method_bind {B} (k : ArtMethod -> M CodeState B) h jit p m :
  h_methods h !! p = Some m -> (get_method p ≫= k) (mkCodeState h jit) = k m (mkCodeState h jit).
Proof. intros H. unfold get_method, deref, mbind, M_bind. cbn. by rewrite H. Qed.

Lemma bind_put_method {B} p m (k : unit -> M CodeState B) h jit :
  (put_method p m ≫= k) (mkCodeState h jit) =
  k tt (mkCodeState (set_methods (<[p := m]> (h_methods h)) h) jit).
Proof. done. Qed.

Lemma put_method_twice p m1 m2 h jit :
  put_method p m2 (mkCodeState (set_methods (<[p := m1]> (h_methods h)) h) jit) =
  Ok (tt, mkCodeState (set_methods (<[p := m2]> (h_methods h)) h) jit).
Proof.
  unfold put_method, modify. cbn [cs_heap cs_jit set_methods h_methods]. rewrite insert_insert_eq. done.
Qed.

Lemma UpdateEntrypoints_ok forced p code h jit m k :
  h_methods h !! p = Some m -> h_classes h !! am_declaring_class m = Some k -> IsProxyClass k = false ->
  UpdateEntrypoints env forced p code (mkCodeState h jit) =
  Ok (tt, mkCodeState (set_methods (<[p := with_code forced p code m]> (h_methods h)) h) (jit_saved p m jit)).
Proof.
  intros Hm Hk Hp. unfold UpdateEntrypoints. rewrite (get_method_bind _ _ _ _ _ Hm), bind_modify.
  replace (match cs_jit (mkCodeState h jit) with Some _ => _ | None => _ end)
    with (mkCodeState h (jit_saved p m jit)).
  2:{ cbn. destruct jit as [c|]; cbn; [|done]. by destruct (ContainsCodePtr c _). }
  rewrite bind_put_method. unfold with_code. destruct (p =? env_resolution_method env); [done|].
  rewrite (get_method_bind _ _ _ _ (method_set_quick code m)) by (cbn; by rewrite lookup_insert_eq).
  rewrite bind_gets. cbn [cs_heap].
  set (h1 := set_methods _ h).
  assert (IsProxyMethod h1 (method_set_quick code m) = Ok false) as Hpr.
  { unfold IsProxyMethod, GetDeclaringClass, deref. cbn. rewrite Hk. cbn. by rewrite Hp. }
  destruct (IsQuickToInterpreterBridge code); cbn [orb]; [rewrite bind_ret; apply put_method_twice|].
  destruct (IsQuickResolutionStub code && forced && negb (IsNative _)).
  - rewrite bind_assoc, bind_lift, Hpr, bind_ret. apply put_method_twice.
  - rewrite bind_ret. apply put_method_twice.
Qed.

(** Methods whose entry points may be replaced. *)
Definition stubbable (k : Class_) (m : ArtMethod) : bool :=
  negb (IsAbstract m) && negb (IsProxyClass k) &&
  negb (IsConstructor m && bool_decide (mc_descriptor k = proxy_descriptor)).

(** The stub a method is given while stubs are installed. *)
Definition stub_code (i : Instrumentation) (p : Z) (k : Class_) (m : ArtMethod) : QuickCode :=
  if (interpreter_stubs_installed_ i || forced_interpret_only_ i || IsDeoptimized i p) && negb (IsNative m)
  then QuickToInterpreterBridge
  else if IsInitialized k || negb (IsStatic m) || IsConstructor m then QuickInstrumentationEntryPoint
  else QuickResolutionStub.

(** A method with its stub, and without change when it gets none. *)
Definition stubbed (i : Instrumentation) (classes : gmap Z Class_) (p : Z) (m : ArtMethod) : ArtMethod :=
  match classes !! am_declaring_class m with
  | Some k => if stubbable k m then with_code (forced_interpret_only_ i) p (stub_code i p k m) m else m
  | None => m
  end.

Lemma InstallStubsForMethod_run i p h jit m k :
  entry_exit_stubs_installed_ i = true ->
  h_methods h !! p = Some m -> h_classes h !! am_declaring_class m = Some k ->
  InstallStubsForMethod env i p (mkCodeState h jit) =
    Ok (tt, mkCodeState (set_methods (<[p := stubbed i (h_classes h) p m]> (h_methods h)) h)
              (if stubbable k m then jit_saved p m jit else jit)).
Proof.
  intros Hi Hm Hk. unfold InstallStubsForMethod, stubbed, stubbable. rewrite Hk, Hi.
  rewrite (get_method_bind _ _ _ _ _ Hm), bind_gets. cbn [cs_heap].
  assert (mkCodeState (set_methods (<[p := m]> (h_methods h)) h) jit = mkCodeState h jit) as Hid.
  { rewrite insert_id by done. by destruct h. }
  destruct (IsAbstract m); cbn [negb andb]; [by rewrite Hid|].
  rewrite bind_lift. unfold IsProxyMethod, GetDeclaringClass, deref. rewrite Hk. cbn [mbind outcome_bind mret outcome_ret].
  destruct (IsProxyClass k) eqn:Hp; cbn [negb andb]; [by rewrite Hid|].
  rewrite bind_lift. destruct (IsConstructor m && bool_decide _) eqn:Hc; cbn [negb andb];
    [by rewrite Hid|].
  unfold stub_code.
  destruct ((interpreter_stubs_installed_ i || forced_interpret_only_ i || IsDeoptimized i p) && _);
    [|destruct (IsInitialized k || _ || _)]; rewrite bind_ret; by eapply UpdateEntrypoints_ok.
Qed.

Lemma InstallStubsForMethod_ok i p h jit m k :
  entry_exit_stubs_installed_ i = true ->
  h_methods h !! p = Some m -> h_classes h !! am_declaring_class m = Some k ->
  exists jit', InstallStubsForMethod env i p (mkCodeState h jit) =
    Ok (tt, mkCodeState (set_methods (<[p := stubbed i (h_classes h) p m]> (h_methods h)) h) jit').
Proof. intros Hi Hm Hk. rewrite (InstallStubsForMethod_run i p h jit m k Hi Hm Hk). by eexists. Qed.

Lemma stubbed_idemp i cs p m : stubbed i cs p (stubbed i cs p m) = stubbed i cs p m.
Proof.
  unfold stubbed at 2 3. destruct (cs !! am_declaring_class m) as [k|] eqn:Hk;
    [destruct (stubbable k m) eqn:Hs|]; unfold stubbed.
  - assert (forall f c, cs !! am_declaring_class (with_code f p c m) = Some k) as ->
      by (intros; unfold with_code; by destruct (_ =? _)).
    assert (forall f c, stubbable k (with_code f p c m) = stubbable k m) as ->
      by (intros; unfold with_code; by destruct (_ =? _)).
    rewrite Hs.
    assert (forall f c, stub_code i p k (with_code f p c m) = stub_code i p k m) as ->
      by (intros; unfold with_code; by destruct (_ =? _)).
    unfold with_code. by destruct (_ =? _).
  - by rewrite Hk, Hs.
  - by rewrite Hk.
Qed.

Lemma stubbed_class i cs p m : am_declaring_class (stubbed i cs p m) = am_declaring_class m.
Proof.
  unfold stubbed, with_code. destruct (cs !! _) as [k|]; [|done]. destruct (stubbable k m); [|done].
  by destruct (_ =? _).
Qed.

(** What is at the addresses of a list of methods. *)
Definition methods_present (h : Heap) (ps : list Z) : Prop :=
  forall p, p ∈ ps -> exists m k,
    h_methods h !! p = Some m /\ h_classes h !! am_declaring_class m = Some k.

(** Only the methods of a heap have changed, those of [ps] to their stubs. *)
Definition stubs_installed (i : Instrumentation) (h : Heap) (ps : list Z) (h' : Heap) : Prop :=
  (exists ms, h' = set_methods ms h) /\
  forall q, h_methods h' !! q =
    if decide (q ∈ ps) then stubbed i (h_classes h) q <$> h_methods h !! q else h_methods h !! q.

Lemma stubs_installed_present i h ps h' qs :
  stubs_installed i h ps h' -> methods_present h qs -> methods_present h' qs.
Proof.
  intros [[ms ->] Hq] Hp q Hin. destruct (Hp q Hin) as (m & k & Hm & Hk).
  specialize (Hq q). cbn in *. rewrite Hm in Hq. destruct (decide (q ∈ ps)); [|by exists m, k].
  cbn in Hq. exists (stubbed i (h_classes h) q m), k. by rewrite stubbed_class.
Qed.

Lemma stubs_installed_nil i h : stubs_installed i h [] h.
Proof. split; [exists (h_methods h); by destruct h|]. intros q. by rewrite decide_False by set_solver. Qed.

Lemma stubs_installed_app i h ps h1 qs h2 :
  stubs_installed i h ps h1 -> stubs_installed i h1 qs h2 -> stubs_installed i h (ps ++ qs) h2.
Proof.
  intros [[ms1 ->] H1] [[ms2 ->] H2]. split; [by exists ms2|]. intros q.
  rewrite H2. cbn [set_methods h_classes]. specialize (H1 q). rewrite H1.
  destruct (decide (q ∈ ps)), (decide (q ∈ qs)), (decide (q ∈ ps ++ qs)) as [Hpq|Hpq];
    rewrite elem_of_app in Hpq; try tauto.
  destruct (h_methods h !! q); cbn; [|done]. by rewrite stubbed_idemp.
Qed.

Lemma install_methods_ok i ps : forall h jit,
  entry_exit_stubs_installed_ i = true -> methods_present h ps ->
  exists h' jit', forM ps (InstallStubsForMethod env i) (mkCodeState h jit) = Ok (tt, mkCodeState h' jit') /\
    stubs_installed i h ps h'.
Proof.
  induction ps as [|p ps IH]; intros h jit Hi Hp; cbn [forM].
  { exists h, jit. split; [done|apply stubs_installed_nil]. }
  destruct (Hp p) as (m & k & Hm & Hk); [set_solver|].
  destruct (InstallStubsForMethod_ok i p h jit m k Hi Hm Hk) as (jit1 & H1).
  set (h1 := set_methods _ h) in H1.
  assert (stubs_installed i h [p] h1) as Hs.
  { split; [by eexists|]. intros q. unfold h1. cbn. destruct (decide (q ∈ [p])) as [Hq|Hq].
    - apply list_elem_of_singleton in Hq as ->. by rewrite lookup_insert_eq, Hm.
    - rewrite lookup_insert_ne; [done|]. set_solver. }
  destruct (IH h1 jit1 Hi) as (h2 & jit2 & H2 & Hs2).
  { eapply stubs_installed_present; [done|]. intros q Hq. apply Hp. set_solver. }
  exists h2, jit2. rewrite (bind_ok _ _ _ _ _ H1). split; [done|].
  by apply (stubs_installed_app i h [p] h1 ps h2).
Qed.

(** The methods of a class that the walk gives stubs. *)
Definition traced_methods_of (h : Heap) (klass : Z) : list Z :=
  match h_classes h !! klass with
  | Some k =>
      if negb (IsErroneous k) && IsResolved k && class_IsMiniTraceable k
      then mc_direct_methods k ++ mc_virtual_methods k else []
  | None => []
  end.

Definition traced_methods (h : Heap) : list Z :=
  concat (traced_methods_of h <$> h_class_table h ++ h_pre_zygote_class_table h).

(** A class table of which the walk can follow every pointer. *)
Definition class_table_wf (h : Heap) : Prop :=
  forall klass, klass ∈ h_class_table h ++ h_pre_zygote_class_table h ->
    is_Some (h_classes h !! klass) /\ methods_present h (traced_methods_of h klass).

Lemma InstallStubsForClass_ok i klass h jit :
  entry_exit_stubs_installed_ i = true -> is_Some (h_classes h !! klass) ->
  methods_present h (traced_methods_of h klass) ->
  exists h' jit', InstallStubsForClass env i klass (mkCodeState h jit) = Ok (tt, mkCodeState h' jit') /\
    stubs_installed i h (traced_methods_of h klass) h'.
Proof.
  intros Hi [k Hk] Hp. unfold InstallStubsForClass, traced_methods_of in *. rewrite bind_gets, bind_lift.
  unfold deref. cbn [cs_heap]. rewrite Hk in *.
  destruct (IsErroneous k); cbn [negb andb] in *; [exists h, jit; split; [done|apply stubs_installed_nil]|].
  destruct (IsResolved k); cbn [negb andb] in *; [|exists h, jit; split; [done|apply stubs_installed_nil]].
  destruct (class_IsMiniTraceable k); cbn [negb andb] in *;
    [|exists h, jit; split; [done|apply stubs_installed_nil]].
  destruct (install_methods_ok i (mc_direct_methods k) h jit Hi) as (h1 & jit1 & H1 & Hs1).
  { intros q Hq. apply Hp. set_solver. }
  destruct (install_methods_ok i (mc_virtual_methods k) h1 jit1 Hi) as (h2 & jit2 & H2 & Hs2).
  { eapply stubs_installed_present; [done|]. intros q Hq. apply Hp. set_solver. }
  exists h2, jit2. rewrite (bind_ok _ _ _ _ _ H1). split; [done|]. by eapply stubs_installed_app.
Qed.

(** The methods of a heap are all the walk changes. *)
Lemma stubs_installed_traced i h ps h' klass :
  stubs_installed i h ps h' -> traced_methods_of h' klass = traced_methods_of h klass.
Proof. by intros [[ms ->] _]. Qed.

Lemma visit_table_ok i table : forall h jit,
  entry_exit_stubs_installed_ i = true ->
  (forall klass, klass ∈ table -> is_Some (h_classes h !! klass) /\ methods_present h (traced_methods_of h klass)) ->
  exists h' jit', visit_table table (InstallStubsClassVisitor env i) (mkCodeState h jit)
      = Ok (true, mkCodeState h' jit') /\
    stubs_installed i h (concat (traced_methods_of h <$> table)) h'.
Proof.
  induction table as [|klass table IH]; intros h jit Hi Hwf; cbn [visit_table].
  { exists h, jit. split; [done|apply stubs_installed_nil]. }
  destruct (Hwf klass) as [Hk Hp]; [set_solver|].
  destruct (InstallStubsForClass_ok i klass h jit Hi Hk Hp) as (h1 & jit1 & H1 & Hs1).
  destruct (IH h1 jit1 Hi) as (h2 & jit2 & H2 & Hs2).
  { intros k2 Hk2. destruct (Hwf k2) as [Hk2' Hp2]; [set_solver|].
    rewrite (stubs_installed_traced _ _ _ _ _ Hs1). split.
    - destruct Hs1 as [[ms ->] _]. done.
    - by eapply stubs_installed_present. }
  assert (InstallStubsClassVisitor env i klass (mkCodeState h jit) = Ok (true, mkCodeState h1 jit1)) as H1'
    by (unfold InstallStubsClassVisitor; by rewrite (bind_ok _ _ _ _ _ H1)).
  exists h2, jit2. rewrite (bind_ok _ _ _ _ _ H1').
  cbn [negb]. split; [done|]. cbn [fmap list_fmap concat].
  replace (traced_methods_of h <$> table) with (traced_methods_of h1 <$> table);
    [by eapply stubs_installed_app|].
  apply list_fmap_ext. intros ? k2 _. by eapply stubs_installed_traced.
Qed.

Lemma VisitClasses_install_ok i h jit :
  entry_exit_stubs_installed_ i = true -> class_table_wf h ->
  exists h' jit', VisitClasses (h_class_table h) (h_pre_zygote_class_table h) (InstallStubsClassVisitor env i)
      (mkCodeState h jit) = Ok (tt, mkCodeState h' jit') /\
    stubs_installed i h (traced_methods h) h'.
Proof.
  intros Hi Hwf. unfold VisitClasses, traced_methods.
  destruct (visit_table_ok i (h_class_table h) h jit Hi) as (h1 & jit1 & H1 & Hs1).
  { intros k Hk. apply Hwf. set_solver. }
  destruct (visit_table_ok i (h_pre_zygote_class_table h) h1 jit1 Hi) as (h2 & jit2 & H2 & Hs2).
  { intros k Hk. destruct (Hwf k) as [Hk1 Hp1]; [set_solver|].
    rewrite (stubs_installed_traced _ _ _ _ _ Hs1). split.
    - destruct Hs1 as [[ms ->] _]. done.
    - by eapply stubs_installed_present. }
  exists h2, jit2. rewrite (bind_ok _ _ _ _ _ H1). cbn [negb]. rewrite (bind_ok _ _ _ _ _ H2).
  split; [done|]. rewrite fmap_app, concat_app.
  replace (traced_methods_of h <$> h_pre_zygote_class_table h)
    with (traced_methods_of h1 <$> h_pre_zygote_class_table h); [by eapply stubs_installed_app|].
  apply list_fmap_ext. intros ? k2 _. by eapply stubs_installed_traced.
Qed.

(** Installing the stubs of a method and taking them away again. *)

(** A method runs the code the class linker has for it. *)
Definition code_settled (h : Heap) (jit : option JitCodeCache) (p : Z) (m : ArtMethod) : Prop :=
  GetQuickOatCodeFor env p (mkCodeState h jit) = Ok (am_entry_quick m, mkCodeState h jit).

Lemma GetQuickOatCodeFor_ok p h jit m k :
  h_methods h !! p = Some m -> h_classes h !! am_declaring_class m = Some k ->
  IsAbstract m = false -> IsProxyClass k = false ->
  GetQuickOatCodeFor env p (mkCodeState h jit) =
  Ok (match env_oat_code env p with
      | Some code => CompiledCode code
      | None =>
          match jit ≫= (fun c => jit_GetCodeFor c p m) with
          | Some code => code
          | None => if IsNative m then QuickGenericJniStub else QuickToInterpreterBridge
          end
      end, mkCodeState h jit).
Proof.
  intros Hm Hk Ha Hp. unfold GetQuickOatCodeFor. rewrite (get_method_bind _ _ _ _ _ Hm), Ha.
  unfold checkM. rewrite bind_lift. cbn [check negb]. rewrite bind_gets, bind_lift.
  unfold IsProxyMethod, GetDeclaringClass, deref. cbn [cs_heap]. rewrite Hk. cbn [mbind outcome_bind mret outcome_ret].
  rewrite Hp. destruct (env_oat_code env p); [done|]. rewrite bind_gets. cbn [cs_jit].
  by destruct (jit ≫= _).
Qed.

(** The stub of a method whose code came from the JIT hides it; the code
    cache keeps it. *)
Lemma jit_code_kept p m code jit :
  (forall a, code <> CompiledCode a) ->
  (forall c, jit = Some c -> method_code_map_ c !! p = None \/ method_code_map_ c !! p = Some (am_entry_quick m)) ->
  (jit_saved p m jit ≫= fun c => jit_GetCodeFor c p (method_set_quick code m)) =
  (jit ≫= fun c => jit_GetCodeFor c p m).
Proof.
  intros Hcode Hmap. destruct jit as [c|]; [|done]. cbn [jit_saved mbind option_bind].
  specialize (Hmap c eq_refl). unfold jit_GetCodeFor at 2.
  destruct (ContainsCodePtr c (am_entry_quick m)) eqn:E.
  - unfold jit_GetCodeFor, SaveCompiledCode. cbn [method_set_quick am_entry_quick].
    assert (forall c', ContainsCodePtr c' code = false) as Hno
      by (intros; destruct code; try done; by destruct (Hcode addr)).
    rewrite Hno. destruct (method_code_map_ c !! p) eqn:Ep; [destruct Hmap; congruence|].
    cbn. by rewrite lookup_insert_eq.
  - unfold jit_GetCodeFor. cbn [method_set_quick am_entry_quick].
    assert (ContainsCodePtr c code = false) as -> by (destruct code; try done; by destruct (Hcode addr)).
    done.
Qed.

(** With no stubs installed a method is given the class linker's code. *)
Lemma uninstall_method i p h jit m k code :
  entry_exit_stubs_installed_ i = false -> interpreter_stubs_installed_ i = false ->
  forced_interpret_only_ i = false -> p ∉ deoptimized_methods_ i ->
  h_methods h !! p = Some m -> h_classes h !! am_declaring_class m = Some k ->
  stubbable k m = true -> (IsInitialized k || negb (IsStatic m) || IsConstructor m) = true ->
  GetQuickOatCodeFor env p (mkCodeState h jit) = Ok (code, mkCodeState h jit) ->
  InstallStubsForMethod env i p (mkCodeState h jit) =
  Ok (tt, mkCodeState (set_methods (<[p := with_code false p code m]> (h_methods h)) h) (jit_saved p m jit)).
Proof.
  intros He Hi Hf Hd Hm Hk Hs Hinit Hcode. unfold InstallStubsForMethod.
  rewrite (get_method_bind _ _ _ _ _ Hm), bind_gets. cbn [cs_heap].
  unfold stubbable in Hs. apply andb_prop in Hs as [[Ha Hp]%andb_prop Hc].
  apply negb_true_iff in Ha, Hp, Hc. rewrite Ha, bind_lift.
  unfold IsProxyMethod, GetDeclaringClass, deref. rewrite Hk. cbn [mbind outcome_bind mret outcome_ret].
  rewrite Hp, bind_lift, Hc, He, Hi. unfold IsForcedInterpretOnly. rewrite Hf. cbn [negb andb orb].
  unfold IsDeoptimized, IsDeoptimizedMethod. rewrite bool_decide_eq_false_2 by done. cbn [andb].
  rewrite Hinit, (bind_ok _ _ _ _ _ Hcode). by eapply UpdateEntrypoints_ok.
Qed.

Lemma stub_code_not_compiled i p k m a : stub_code i p k m <> CompiledCode a.
Proof. unfold stub_code. repeat case_match; discriminate. Qed.

End Stubs.

(** ** Results *)

(** C18. Registering and removing listeners keep the short-cut flags, the
    shared lists and the interpreter's handler table right, never follow a
    null list, and change the registry as specified: a listener is appended to
    the lists of exactly the events of its mask, and removed from them. *)
Theorem registry_refines listener events i :
  listeners_wf i ->
  (exists i', AddListener listener events i = Ok i' /\ listeners_wf i' /\
     forall e, listeners_of i' e = listeners_of i e ++ (if HasEvent e events then [listener] else [])) /\
  (exists i', RemoveListener listener events i = Ok i' /\ listeners_wf i' /\
     forall e, listeners_of i' e =
       if HasEvent e events then list_remove listener (listeners_of i e) else listeners_of i e).
Proof.
  intros H. split.
  - exists (pushed listener events i). split; [by apply AddListener_ok|]. split; [by apply pushed_wf|].
    apply listeners_of_pushed.
  - exists (removed listener events i). split; [by apply RemoveListener_ok|]. split; [by apply removed_wf|].
    intros e. by apply listeners_of_removed.
Qed.

(** C19. Every event is delivered to the listeners registered for it, once
    each, in the order of their registration, and to nobody else; the thread is
    as before, its pending exception included. *)
Theorem events_delivered i h c t (log : CallLog) :
  listeners_wf i ->
  (forall thread e, c = ExceptionCaught thread e -> thread = th_tid t /\ th_exception t = e /\ e <> 0) ->
  report i h c t log = Ok (t, log ++ ((fun l => (l, c)) <$> listeners_of i (call_event c))).
Proof. intros H He. rewrite report_notifies by done. by rewrite notify_log. Qed.

(** C24. Walking the class table with stubs switched on gives every concrete,
    non-proxy method of the resolved classes marked traceable (the constructors of
    [java.lang.reflect.Proxy] excepted) its stub (the
    interpreter bridge where the interpreter is required, the resolution stub
    for a static method of a class not yet initialised, the instrumentation
    entry point otherwise), changes no other method and nothing else of the
    heap, and does not fault. *)
Theorem class_walk_installs_stubs env i h jit :
  entry_exit_stubs_installed_ i = true -> class_table_wf h ->
  exists h' jit', VisitClasses (h_class_table h) (h_pre_zygote_class_table h) (InstallStubsClassVisitor env i)
      (mkCodeState h jit) = Ok (tt, mkCodeState h' jit') /\
    (exists ms, h' = set_methods ms h) /\
    forall q, h_methods h' !! q =
      if decide (q ∈ traced_methods h) then stubbed env i (h_classes h) q <$> h_methods h !! q
      else h_methods h !! q.
Proof.
  intros Hi Hwf. destruct (VisitClasses_install_ok env i h jit Hi Hwf) as (h' & jit' & HV & Hm & Hq).
  by exists h', jit'.
Qed.

(** Taking the stubs away restores the code: a method that ran the class
    linker's code (oat, JIT, generic JNI or interpreter bridge), was given a
    stub and then had its stub removed runs the same code again; code the JIT
    had compiled is not lost. *)
Theorem stub_roundtrip env i1 i0 p h jit m k :
  entry_exit_stubs_installed_ i1 = true ->
  entry_exit_stubs_installed_ i0 = false -> interpreter_stubs_installed_ i0 = false ->
  forced_interpret_only_ i0 = false -> p ∉ deoptimized_methods_ i0 ->
  h_methods h !! p = Some m -> h_classes h !! am_declaring_class m = Some k -> stubbable k m = true ->
  (IsInitialized k || negb (IsStatic m) || IsConstructor m) = true ->
  code_settled env h jit p m ->
  (forall c, jit = Some c -> method_code_map_ c !! p = None \/ method_code_map_ c !! p = Some (am_entry_quick m)) ->
  exists s1 s2 m1 m2,
    InstallStubsForMethod env i1 p (mkCodeState h jit) = Ok (tt, s1) /\
    h_methods (cs_heap s1) !! p = Some m1 /\ am_entry_quick m1 = stub_code i1 p k m /\
    InstallStubsForMethod env i0 p s1 = Ok (tt, s2) /\
    h_methods (cs_heap s2) !! p = Some m2 /\ am_entry_quick m2 = am_entry_quick m.
Proof.
  intros H1 He Hi Hf Hd Hm Hk Hs Hinit Hset Hjit.
  pose proof (InstallStubsForMethod_run env i1 p h jit m k H1 Hm Hk) as HI1. rewrite Hs in HI1.
  set (m1 := stubbed env i1 (h_classes h) p m) in *.
  set (h1 := set_methods (<[p := m1]> (h_methods h)) h) in *.
  assert (m1 = with_code env (forced_interpret_only_ i1) p (stub_code i1 p k m) m) as Em1
    by (unfold m1, stubbed; by rewrite Hk, Hs).
  assert (h_methods h1 !! p = Some m1) as Hm1 by (unfold h1; cbn; by rewrite lookup_insert_eq).
  assert (am_declaring_class m1 = am_declaring_class m) as Hd1 by (by apply stubbed_class).
  assert (am_entry_quick m1 = stub_code i1 p k m /\ am_access_flags m1 = am_access_flags m) as [Hq1 Hfl1]
    by (rewrite Em1; unfold with_code; by destruct (_ =? _)).
  assert (stubbable k m1 = stubbable k m /\ IsStatic m1 = IsStatic m /\ IsConstructor m1 = IsConstructor m /\
          IsAbstract m1 = IsAbstract m /\ IsNative m1 = IsNative m) as (Hs1 & Hst & Hct & Hab & Hna)
    by (unfold stubbable, IsStatic, IsConstructor, IsAbstract, IsNative; by rewrite !Hfl1).
  assert (IsAbstract m = false /\ IsProxyClass k = false) as [Ha Hp].
  { unfold stubbable in Hs. apply andb_prop in Hs as [[? ?]%andb_prop _]. by rewrite <- !negb_true_iff. }
  assert (GetQuickOatCodeFor env p (mkCodeState h1 (jit_saved p m jit)) =
          Ok (am_entry_quick m, mkCodeState h1 (jit_saved p m jit))) as Hcode.
  { unfold code_settled in Hset. rewrite (GetQuickOatCodeFor_ok env p h jit m k Hm Hk Ha Hp) in Hset.
    rewrite (GetQuickOatCodeFor_ok env p h1 _ m1 k Hm1); [| by rewrite Hd1 | congruence | done].
    injection Hset as Hset. rewrite <- Hset at 1. do 2 f_equal. destruct (env_oat_code env p); [done|].
    pose proof (jit_code_kept p m (stub_code i1 p k m) jit (stub_code_not_compiled i1 p k m) Hjit) as Hk'.
    unfold jit_GetCodeFor in *. rewrite Hq1. cbn [method_set_quick am_entry_quick] in Hk'.
    rewrite Hk', Hna. done. }
  eexists _, _, m1, _. split; [exact HI1|]. split; [exact Hm1|]. split; [done|].
  split; [eapply (uninstall_method env i0 p h1 _ m1 k); rewrite ?Hd1, ?Hs1, ?Hst, ?Hct; done|].
  cbn [cs_heap set_methods h_methods]. split; [by rewrite lookup_insert_eq|].
  unfold with_code. by destruct (_ =? _).
Qed.

(** *** A heap with one traced and one plain class *)

Definition sample_method (klass flags : Z) (code : QuickCode) : ArtMethod :=
  mkArtMethod klass flags 0 0 "m" "()V" "V" "A.java" artInterpreterToCompiledCodeBridge code.

Definition sample_class (flags : Z) (direct virtual : list Z) : Class_ :=
  mkClass kStatusInitialized flags 0 kPrimNot "LA;" 900 direct virtual [] [].

Definition sample_heap : Heap :=
  mkHeap {[ 200 := sample_method 100 kAccStatic (CompiledCode 5000);
            208 := sample_method 100 kAccPublic (CompiledCode 7000);
            216 := sample_method 108 kAccPublic (CompiledCode 5200) ]} ∅
    {[ 100 := sample_class (Z.lor kAccPublic kAccIsMiniTraceable) [200] [208];
       108 := sample_class kAccPublic [] [216] ]} ∅ [100] [108].

(** Method 208 was compiled by the JIT, the others are in an oat file. *)
Definition sample_env : RuntimeEnv :=
  mkRuntimeEnv 8 16 24 9999 9998 (fun p => if p =? 208 then None else Some (if p =? 200 then 5000 else 5200))
    (fun _ pc => pc) true (fun _ => false).
Definition sample_jit : option JitCodeCache := Some (mkJitCodeCache 6000 8000 ∅).
Definition sample_stubs_on : Instrumentation :=
  set_instrumentation_stubs_installed true (set_entry_exit_stubs_installed true Instrumentation_new).

Lemma registry_refines_witness :
  exists i', AddListener 40 (Z.lor (event_bit kMethodEntered) (event_bit kFieldRead)) Instrumentation_new = Ok i' /\
    listeners_wf i' /\
    forall e, listeners_of i' e =
      listeners_of Instrumentation_new e ++
      (if HasEvent e (Z.lor (event_bit kMethodEntered) (event_bit kFieldRead)) then [40] else []).
Proof. apply (registry_refines 40 (Z.lor (event_bit kMethodEntered) (event_bit kFieldRead)) _ Instrumentation_new_wf). Defined.

(** Two listeners for caught exceptions. *)
Definition two_listeners : Instrumentation :=
  pushed 48 (event_bit kExceptionCaught) (pushed 40 (event_bit kExceptionCaught) Instrumentation_new).

Lemma events_delivered_witness :
  report two_listeners sample_heap (ExceptionCaught 7 4096) (mkThread 7 [] [] 4096 false None) []
  = Ok (mkThread 7 [] [] 4096 false None, [(40, ExceptionCaught 7 4096); (48, ExceptionCaught 7 4096)]).
Proof.
  apply (events_delivered two_listeners sample_heap (ExceptionCaught 7 4096) (mkThread 7 [] [] 4096 false None) []).
  - apply pushed_wf, pushed_wf, Instrumentation_new_wf.
  - intros thread e [= <- <-]. split; [reflexivity|]. split; [reflexivity|discriminate].
Defined.

Lemma sample_table_wf : class_table_wf sample_heap.
Proof.
  intros klass Hk. cbn in Hk.
  apply elem_of_cons in Hk as [->|[->|[]%elem_of_nil]%elem_of_cons]; (split; [by eexists|]).
  - intros p Hp. cbn in Hp.
    apply elem_of_cons in Hp as [->|[->|[]%elem_of_nil]%elem_of_cons]; by eexists _, _.
  - intros p Hp. cbn in Hp. by apply elem_of_nil in Hp.
Qed.

Lemma class_walk_installs_stubs_witness :
  exists h' jit', VisitClasses [100] [108] (InstallStubsClassVisitor sample_env sample_stubs_on)
      (mkCodeState sample_heap sample_jit) = Ok (tt, mkCodeState h' jit') /\
    (exists ms, h' = set_methods ms sample_heap) /\
    forall q, h_methods h' !! q =
      if decide (q ∈ traced_methods sample_heap)
      then stubbed sample_env sample_stubs_on (h_classes sample_heap) q <$> h_methods sample_heap !! q
      else h_methods sample_heap !! q.
Proof.
  apply (class_walk_installs_stubs sample_env sample_stubs_on sample_heap sample_jit).
  - reflexivity.
  - apply sample_table_wf.
Defined.

Lemma stub_roundtrip_witness :
  exists s1 s2 m1 m2,
    InstallStubsForMethod sample_env sample_stubs_on 208 (mkCodeState sample_heap sample_jit) = Ok (tt, s1) /\
    h_methods (cs_heap s1) !! 208 = Some m1 /\ am_entry_quick m1 = QuickInstrumentationEntryPoint /\
    InstallStubsForMethod sample_env Instrumentation_new 208 s1 = Ok (tt, s2) /\
    h_methods (cs_heap s2) !! 208 = Some m2 /\ am_entry_quick m2 = CompiledCode 7000.
Proof.
  apply (stub_roundtrip sample_env sample_stubs_on Instrumentation_new 208 sample_heap sample_jit
           (sample_method 100 kAccPublic (CompiledCode 7000))
           (sample_class (Z.lor kAccPublic kAccIsMiniTraceable) [200] [208])); try reflexivity.
  - apply not_elem_of_empty.
  - intros c [= <-]. left. reflexivity.
Defined.
