(* ===== verification/InstrumentationStack.v ===== *)
(** * Instrumentation: stacks

    Stack walks ([StackVisitor::WalkStack] of [stack.cc]), the exit stubs that
    [instrumentation.cc] puts into the frames of a thread and takes out again,
    and the side stack that remembers the return addresses.

    A thread's stack is what a walk with transitions visits, from the top (see
    [Frame]); a walk hands each frame to the visitor, which may replace its
    return address.  The verbose messages and [VerifyStack], which is compiled
    out of the library that is shipped, are not modelled. *)

From S2P Require Import Prelude ArtObjects Listener Instrumentation.

(** ** Walking a stack *)

Section Walk.
Context (env : RuntimeEnv) (stubs : bool).

(** After the visit of a frame: the pc of the next frame, and how many entries
    of the side stack the walk has passed.  [stubs] is
    [AreExitStubsInstalled()]; [fid] is the frame's id once the number of
    frames is known. *)
Definition leave_frame (fid : option Z) (f : Frame) (depth : nat)
    (stack : list InstrumentationStackFrame) : outcome (Z * nat) :=
  match f with
  | QuickFrame m pc _ =>
      if stubs && (env_exit_pc env =? pc) then
        match stack !! depth with
        | None => Fault CheckFailed
        | Some fr =>
            (if m =? env_save_all_method env then mret tt
             else if interpreter_entry_ fr then check (m =? env_refs_and_args_method env)
             else if negb (isf_method_ fr =? m) then Fault FatalLog else mret tt) ;;
            match fid with Some id => check (frame_id_ fr =? id) | None => mret tt end ;;
            mret (return_pc_ fr, S depth)
        end
      else mret (pc, depth)
  | ShadowFrame _ _ _ | Upcall => mret (0, depth)
  end.

(** [StackVisitor::ComputeNumFrames]. *)
Fixpoint count_frames (fs : list Frame) (depth : nat) (stack : list InstrumentationStackFrame) : outcome Z :=
  match fs with
  | [] => mret 0
  | f :: fs =>
      '(_, depth) ← leave_frame None f depth stack;
      n ← count_frames fs depth stack;
      mret (n + 1)
  end.

Definition ComputeNumFrames (t : Thread_) : outcome Z := count_frames (th_frames t) 0 (th_istack t).

(** A visitor's state during a walk: the thread's side stack, [num_frames_],
    and the visitor's own fields. *)
Record Walk (V : Type) := mkWalk {
  wk_stack : list InstrumentationStackFrame;
  wk_num_frames : Z;
  wk_data : V;
}.
Arguments mkWalk {V} _ _ _.
Arguments wk_stack {V} _.
Arguments wk_num_frames {V} _.
Arguments wk_data {V} _.

Definition with_stack {V} (st : list InstrumentationStackFrame) (w : Walk V) : Walk V :=
  mkWalk st (wk_num_frames w) (wk_data w).
Definition with_data {V} (v : V) (w : Walk V) : Walk V := mkWalk (wk_stack w) (wk_num_frames w) v.

(** [GetFrameId] of the frame at a depth; the first call counts the frames. *)
Definition GetFrameId {V} (all : list Frame) (depth : nat) : M (Walk V) Z :=
  num ← gets wk_num_frames;
  num ← (if num =? 0 then
           st ← gets wk_stack;
           n ← lift (count_frames all 0 st);
           modify (fun w => mkWalk (wk_stack w) n (wk_data w)) ;; mret n
         else mret num);
  mret (num - Z.of_nat depth).

(** [VisitFrame]: given all frames, the depth, [cur_quick_frame_pc_] and the
    current frame, it says whether to go on and returns the frame. *)
Definition Visitor (V : Type) : Type := list Frame -> nat -> Z -> Frame -> M (Walk V) (bool * Frame).

(** [WalkStack(true)]: [done] are the frames visited so far. *)
Fixpoint walk_frames {V} (visit : Visitor V) (done rest : list Frame) (pc : Z) (idepth : nat)
  : M (Walk V) (list Frame) :=
  match rest with
  | [] =>
      num ← gets wk_num_frames;
      whenM (negb (num =? 0)) (checkM (Z.of_nat (length done) =? num)) ;;
      mret done
  | f :: rest =>
      '(go, f) ← visit (done ++ f :: rest) (length done) pc f;
      if negb go then mret (done ++ f :: rest)
      else
        w ← gets id;
        let fid := if wk_num_frames w =? 0 then None
                   else Some (wk_num_frames w - Z.of_nat (length done)) in
        '(pc, idepth) ← lift (leave_frame fid f idepth (wk_stack w));
        walk_frames visit (done ++ [f]) rest pc idepth
  end.

Definition WalkStack {V} (visit : Visitor V) (v : V) (t : Thread_) : outcome (Thread_ * V) :=
  '(fs, w) ← walk_frames visit [] (th_frames t) 0 0 (mkWalk (th_istack t) 0 v);
  mret (set_istack (wk_stack w) (set_frames fs t), wk_data w).

End Walk.

Arguments mkWalk {V} _ _ _.
Arguments wk_stack {V} _.
Arguments wk_num_frames {V} _.
Arguments wk_data {V} _.

Definition frame_is_runtime (h : Heap) (m : Z) : outcome bool :=
  am ← deref (h_methods h) m; mret (IsRuntimeMethod am).

(** ** Installing exit stubs *)

(** The fields of [InstallStackVisitor]. *)
Record InstallData := mkInstallData {
  shadow_stack_ : list InstrumentationStackFrame;
  dex_pcs_ : list Z;
  reached_existing_instrumentation_frames_ : bool;
  instrumentation_stack_depth_ : nat;
  last_return_pc_ : Z;
}.

(** The side stack with a frame inserted before the first one whose id is not
    greater: it stays in descending order of frame ids. *)
Fixpoint insert_frame (fr : InstrumentationStackFrame) (stack : list InstrumentationStackFrame)
  : list InstrumentationStackFrame :=
  match stack with
  | [] => [fr]
  | current :: stack =>
      if frame_id_ current <=? frame_id_ fr then fr :: current :: stack
      else current :: insert_frame fr stack
  end.

Section Install.
Context (env : RuntimeEnv) (stubs : bool) (h : Heap).

(** [InstallStackVisitor::VisitFrame]. *)
Definition InstallVisitFrame : Visitor InstallData := fun all depth _ f =>
  d ← gets wk_data;
  let '(mkInstallData shadow pcs reached idepth last) := d in
  match f with
  | Upcall =>
      modify (with_data (mkInstallData shadow pcs reached idepth 0)) ;; mret (true, f)
  | ShadowFrame m _ this_object =>
      fid ← GetFrameId env stubs all depth;
      modify (with_data (mkInstallData (shadow ++ [mkISF this_object m 0 fid true]) pcs reached idepth last)) ;;
      mret (true, f)
  | QuickFrame m return_pc this_object =>
      is_runtime ← lift (frame_is_runtime h m);
      if (is_runtime : bool) then
        if return_pc =? env_exit_pc env then
          st ← gets wk_stack;
          match st !! idepth with
          | None => lift (Fault CheckFailed)
          | Some frame =>
              checkM (interpreter_entry_ frame) ;;
              modify (with_data (mkInstallData shadow (pcs ++ [0]) reached (S idepth) (return_pc_ frame))) ;;
              mret (true, f)
          end
        else
          modify (with_data (mkInstallData shadow pcs reached idepth return_pc)) ;; mret (true, f)
      else if return_pc =? env_exit_pc env then
        st ← gets wk_stack;
        match st !! idepth with
        | None => lift (Fault CheckFailed)
        | Some frame =>
            checkM (m =? isf_method_ frame) ;;
            modify (with_data (mkInstallData shadow (pcs ++ [env_to_dex_pc env m last]) true (S idepth)
                                 (return_pc_ frame))) ;;
            mret (true, f)
        end
      else
        checkM (negb (return_pc =? 0)) ;;
        checkM (negb reached) ;;
        fid ← GetFrameId env stubs all depth;
        modify (fun w => with_stack (insert_frame (mkISF this_object m return_pc fid false) (wk_stack w)) w) ;;
        modify (with_data (mkInstallData shadow (pcs ++ [env_to_dex_pc env m last]) reached (S idepth) return_pc)) ;;
        mret (true, QuickFrame m (env_exit_pc env) this_object)
  end.

End Install.

Section InstallEvents.
Context {L : Type} `{!ListenerOps L}.

(** [ShouldNotifyMethodEnterExitEvents]. *)
Definition ShouldNotifyMethodEnterExitEvents (i : Instrumentation) : bool :=
  if negb (HasMethodEntryListeners i) && negb (HasMethodExitListeners i) then false
  else negb (deoptimization_enabled_ i) && negb (interpreter_stubs_installed_ i).

(** The inner loop: the interpreter's frames below a frame of the side stack. *)
Fixpoint enter_shadow (i : Instrumentation) (h : Heap) (tid : Z) (ssi : list InstrumentationStackFrame)
    (fid : Z) (l : L) : outcome (list InstrumentationStackFrame * L) :=
  match ssi with
  | [] => mret ([], l)
  | s :: rest =>
      if frame_id_ s <? fid then
        l ← MethodEnterEvent i h tid (this_object_ s) (isf_method_ s) 0 l;
        enter_shadow i h tid rest fid l
      else mret (ssi, l)
  end.

(** The outer loop, over the side stack from its end, with [dex_pcs_] from
    its end beside it. *)
Fixpoint enter_stack (i : Instrumentation) (h : Heap) (tid : Z) (isi : list InstrumentationStackFrame)
    (dex_pcs : list Z) (ssi : list InstrumentationStackFrame) (l : L) : outcome L :=
  match isi with
  | [] => mret l
  | fr :: isi =>
      '(ssi, l) ← enter_shadow i h tid ssi (frame_id_ fr) l;
      match dex_pcs with
      | [] => Fault OutOfBounds
      | dex_pc :: dex_pcs =>
          l ← (if interpreter_entry_ fr then mret l
               else MethodEnterEvent i h tid (this_object_ fr) (isf_method_ fr) dex_pc l);
          enter_stack i h tid isi dex_pcs ssi l
      end
  end.

(** [InstrumentationInstallStack]. *)
Definition InstrumentationInstallStack (env : RuntimeEnv) (i : Instrumentation) (h : Heap)
    (t : Thread_) (l : L) : outcome (Thread_ * L) :=
  '(t, v) ← WalkStack env (AreExitStubsInstalled i)
              (InstallVisitFrame env (AreExitStubsInstalled i) h) (mkInstallData [] [] false 0 0) t;
  check (bool_decide (length (dex_pcs_ v) = length (th_istack t))) ;;
  if ShouldNotifyMethodEnterExitEvents i then
    l ← enter_stack i h (th_tid t) (rev (th_istack t)) (rev (dex_pcs_ v)) (rev (shadow_stack_ v)) l;
    mret (t, l)
  else mret (t, l).

(** ** Removing exit stubs *)

(** [RestoreStackVisitor::VisitFrame]; the visitor's own field is
    [frames_removed_], kept with the listeners it reports to. *)
Definition RestoreVisitFrame (env : RuntimeEnv) (i : Instrumentation) (h : Heap) (tid : Z)
  : Visitor (Z * L) := fun all depth pc f =>
  st ← gets wk_stack;
  if bool_decide (st = []) then mret (false, f)
  else
    match f with
    | ShadowFrame _ _ _ | Upcall => mret (true, f)
    | QuickFrame m return_pc this_object =>
        fid ← GetFrameId env (AreExitStubsInstalled i) all depth;
        match list_find (fun fr => frame_id_ fr = fid) st with
        | None => mret (true, f)
        | Some (_, fr) =>
            (if interpreter_entry_ fr then checkM (m =? env_refs_and_args_method env)
             else checkM (m =? isf_method_ fr)) ;;
            '(removed, l) ← gets wk_data;
            l ← (if ShouldNotifyMethodEnterExitEvents i
                 then lift (MethodExitEvent i h tid (this_object_ fr) m (env_to_dex_pc env m pc) 0 l)
                 else mret l);
            modify (with_data (removed + 1, l)) ;;
            mret (true, QuickFrame m (return_pc_ fr) this_object)
        end
    end.

(** [InstrumentationRestoreStack]. *)
Definition InstrumentationRestoreStack (env : RuntimeEnv) (i : Instrumentation) (h : Heap)
    (t : Thread_) (l : L) : outcome (Thread_ * L) :=
  if (0 <? length (th_istack t))%nat then
    '(t, (removed, l)) ← WalkStack env (AreExitStubsInstalled i) (RestoreVisitFrame env i h (th_tid t)) (0, l) t;
    check (removed =? Z.of_nat (length (th_istack t))) ;;
    mret (set_istack [] t, l)
  else mret (t, l).

(** ** Entering and leaving instrumented methods *)

(** [PushInstrumentationStackFrame]. *)
Definition PushInstrumentationStackFrame (env : RuntimeEnv) (i : Instrumentation) (h : Heap)
    (this_object method lr : Z) (interpreter_entry : bool) (t : Thread_) (l : L) : outcome (Thread_ * L) :=
  fid ← ComputeNumFrames env (AreExitStubsInstalled i) t;
  let t := set_istack (mkISF this_object method lr fid interpreter_entry :: th_istack t) t in
  if negb interpreter_entry then
    l ← MethodEnterEvent i h (th_tid t) this_object method 0 l; mret (t, l)
  else mret (t, l).

(** [CheckStackDepth]. *)
Definition CheckStackDepth (env : RuntimeEnv) (i : Instrumentation) (t : Thread_)
    (frame : InstrumentationStackFrame) (delta : Z) : outcome unit :=
  n ← ComputeNumFrames env (AreExitStubsInstalled i) t;
  check (n + delta =? frame_id_ frame).

(** The method of a frame, null for an upcall. *)
Definition frame_method (f : Frame) : Z :=
  match f with QuickFrame m _ _ | ShadowFrame m _ _ => m | Upcall => 0 end.

(** [NthCallerVisitor::VisitFrame]. *)
Definition NthCallerVisitFrame (h : Heap) (n : nat) (include_runtime_and_upcalls : bool)
  : Visitor (nat * Z) := fun _ _ _ f =>
  '(count, caller) ← gets wk_data;
  let m := frame_method f in
  runtime ← (if m =? 0 then mret true else lift (frame_is_runtime h m));
  let do_count := if (runtime : bool) then include_runtime_and_upcalls else true in
  if (do_count : bool) then
    if (count =? n)%nat then modify (with_data (count, m)) ;; mret (false, f)
    else modify (with_data (S count, caller)) ;; mret (true, f)
  else mret (true, f).

Definition nth_caller (env : RuntimeEnv) (i : Instrumentation) (h : Heap) (n : nat)
    (include_runtime_and_upcalls : bool) (t : Thread_) : outcome Z :=
  '(_, (_, caller)) ← WalkStack env (AreExitStubsInstalled i)
                        (NthCallerVisitFrame h n include_runtime_and_upcalls) (0%nat, 0) t;
  mret caller.

(** The return pc of the frame on top, which the exit stub fills in. *)
Definition set_top_return_pc (pc : Z) (t : Thread_) : Thread_ :=
  match th_frames t with
  | QuickFrame m _ o :: fs => set_frames (QuickFrame m pc o :: fs) t
  | _ => t
  end.

(** [PopInstrumentationStackFrame].  The result is the pair of words the stub
    returns: the deoptimization stub with the return pc, or the return pc. *)
Definition PopInstrumentationStackFrame (env : RuntimeEnv) (i : Instrumentation) (h : Heap)
    (gpr_result fpr_result : Z) (t : Thread_) (l : L) : outcome ((Z * Z) * Thread_ * L) :=
  match th_istack t with
  | [] => Fault CheckFailed
  | frame :: stack =>
      let t := set_top_return_pc (return_pc_ frame) (set_istack stack t) in
      CheckStackDepth env i t frame 0 ;;
      m ← deref (h_methods h) (isf_method_ frame);
      return_shorty ← match am_shorty m with String c _ => mret c | EmptyString => mret "000"%char end;
      let return_value :=
        if bool_decide (return_shorty = "V"%char) then 0
        else if bool_decide (return_shorty = "F"%char) || bool_decide (return_shorty = "D"%char)
        then fpr_result else gpr_result in
      l ← (if interpreter_entry_ frame then mret l
           else MethodExitEvent i h (th_tid t) (this_object_ frame) (isf_method_ frame) kDexNoIndex
                  return_value l);
      caller ← nth_caller env i h 1 true t;
      if negb (caller =? 0) &&
         (interpreter_stubs_installed_ i || IsDeoptimized i caller ||
          env_forced_interpreter_for_upcall env caller)
      then mret ((return_pc_ frame, env_deoptimization_entry env),
                 set_deopt_value (Some (return_value, bool_decide (return_shorty = "L"%char))) t, l)
      else mret ((0, return_pc_ frame), t, l)
  end.

(** [PopMethodForUnwind]. *)
Definition PopMethodForUnwind (i : Instrumentation) (h : Heap) (is_deoptimization : bool)
    (t : Thread_) (l : L) : outcome (Thread_ * L) :=
  match th_istack t with
  | [] => Fault CheckFailed
  | frame :: stack =>
      let t := set_istack stack t in
      if is_deoptimization then mret (t, l)
      else
        l ← MethodUnwindEvent i h (th_tid t) (this_object_ frame) (isf_method_ frame) kDexNoIndex l;
        mret (t, l)
  end.

(** [artInstrumentationMethodEntryFromCode]: the code to run, after a frame
    was pushed for the method. *)
Definition artInstrumentationMethodEntryFromCode (env : RuntimeEnv) (i : Instrumentation) (s : CodeState)
    (method this_object lr : Z) (t : Thread_) (l : L) : outcome (QuickCode * Thread_ * L) :=
  result ← (if IsDeoptimized i method then mret QuickToInterpreterBridge
            else '(code, _) ← GetQuickCodeFor env i method s; mret code);
  m ← deref (h_methods (cs_heap s)) method;
  let interpreter_entry := bool_decide (result = QuickToInterpreterBridge) in
  '(t, l) ← PushInstrumentationStackFrame env i (cs_heap s) (if IsStatic m then 0 else this_object)
              method lr interpreter_entry t l;
  mret (result, t, l).

(** [artInstrumentationMethodExitFromCode]: the return pc of the frame on top
    must still be empty. *)
Definition artInstrumentationMethodExitFromCode (env : RuntimeEnv) (i : Instrumentation) (h : Heap)
    (gpr_result fpr_result : Z) (t : Thread_) (l : L) : outcome ((Z * Z) * Thread_ * L) :=
  check (match th_frames t with QuickFrame _ pc _ :: _ => pc =? 0 | _ => false end) ;;
  PopInstrumentationStackFrame env i h gpr_result fpr_result t l.

End InstallEvents.

(** ** Consistent stacks *)

Section Links.
Context (env : RuntimeEnv) (h : Heap).

Definition is_runtime (m : Z) : bool :=
  match h_methods h !! m with Some am => IsRuntimeMethod am | None => false end.

(** The side stack of a stack: one entry for each frame that returns through
    the exit stub, from the top, with that frame's id and its method (or, for
    an entry into the interpreter, in the callee-save frame of the bridge),
    and a return address that is not the stub's.  [base] frames lie below. *)
Fixpoint linked (base : Z) (fs : list Frame) (st : list InstrumentationStackFrame) : Prop :=
  match fs with
  | [] => st = []
  | QuickFrame m pc _ :: fs' =>
      if pc =? env_exit_pc env then
        match st with
        | [] => False
        | fr :: st' =>
            frame_id_ fr = base + Z.of_nat (length fs) /\
            (if interpreter_entry_ fr then m = env_refs_and_args_method env /\ is_runtime m = true
             else isf_method_ fr = m /\ is_runtime m = false) /\
            return_pc_ fr <> env_exit_pc env /\ linked base fs' st'
        end
      else linked base fs' st
  | _ :: fs' => linked base fs' st
  end.

(** Every method of the stack is a method. *)
Definition frames_present (fs : list Frame) : Prop :=
  Forall (fun f => match f with Upcall => True | _ => is_Some (h_methods h !! frame_method f) end) fs.

(** Every compiled frame returns through the exit stub. *)
Fixpoint covered (fs : list Frame) : Prop :=
  match fs with
  | [] => True
  | QuickFrame m pc _ :: fs => (is_runtime m = true \/ pc = env_exit_pc env) /\ covered fs
  | _ :: fs => covered fs
  end.

(** Below a compiled frame that returns through the exit stub all of them do;
    the others have a return address. *)
Fixpoint closed_below (fs : list Frame) : Prop :=
  match fs with
  | [] => True
  | QuickFrame m pc _ :: fs =>
      if is_runtime m then closed_below fs
      else if pc =? env_exit_pc env then covered fs
      else pc <> 0 /\ closed_below fs
  | _ :: fs => closed_below fs
  end.

Lemma covered_closed fs : covered fs -> closed_below fs.
Proof.
  induction fs as [|[m pc o|m pc o|] fs IH]; cbn; [done| |auto..].
  intros [H Hc]. destruct (is_runtime m) eqn:E; [auto|]. destruct H as [H|H]; [congruence|].
  by rewrite H, Z.eqb_refl.
Qed.

(** The stack as it would be without the exit stubs. *)
Fixpoint original (fs : list Frame) (st : list InstrumentationStackFrame) : list Frame :=
  match fs with
  | [] => []
  | QuickFrame m pc o :: fs =>
      if pc =? env_exit_pc env then
        match st with
        | fr :: st => QuickFrame m (return_pc_ fr) o :: original fs st
        | [] => QuickFrame m pc o :: original fs []
        end
      else QuickFrame m pc o :: original fs st
  | f :: fs => f :: original fs st
  end.

Lemma linked_app b fs1 st1 fs2 st2 :
  linked (b + Z.of_nat (length fs2)) fs1 st1 -> linked b fs2 st2 -> linked b (fs1 ++ fs2) (st1 ++ st2).
Proof.
  revert st1. induction fs1 as [|[m pc o|m pc o|] fs1 IH]; intros st1 H1 H2; cbn [app linked] in *.
  - by subst.
  - destruct (pc =? env_exit_pc env); [|by apply IH].
    destruct st1 as [|fr st1]; [done|]. destruct H1 as (Hid & Hk & Hr & Hl). cbn [app].
    split; [|split; [done|split; [done|by apply IH]]].
    rewrite Hid. cbn [length]. rewrite length_app. lia.
  - by apply IH.
  - by apply IH.
Qed.

Lemma linked_ids b fs st :
  0 <= b -> linked b fs st -> Forall (fun fr => b < frame_id_ fr <= b + Z.of_nat (length fs)) st.
Proof.
  intros Hb. revert st. induction fs as [|[m pc o|m pc o|] fs IH]; intros st H; cbn [linked] in *.
  - by subst.
  - destruct (pc =? env_exit_pc env).
    + destruct st as [|fr st]; [done|]. destruct H as (Hid & _ & _ & Hl). constructor; [cbn [length] in *; lia|].
      eapply Forall_impl; [by apply IH|]. cbn. lia.
    + eapply Forall_impl; [by apply IH|]. cbn. lia.
  - eapply Forall_impl; [by apply IH|]. cbn. lia.
  - eapply Forall_impl; [by apply IH|]. cbn. lia.
Qed.

(** What the walk checks about a frame with its entry holds. *)
Lemma leave_linked stubs fid m pc o fs pre st base :
  linked base (QuickFrame m pc o :: fs) st ->
  (forall id, fid = Some id -> id = base + Z.of_nat (S (length fs))) ->
  leave_frame env stubs fid (QuickFrame m pc o) (length pre) (pre ++ st) =
  Ok (if stubs && (pc =? env_exit_pc env)
      then (default 0 (return_pc_ <$> head st), S (length pre)) else (pc, length pre)).
Proof.
  intros Hl Hid. cbn [leave_frame linked] in *. rewrite (Z.eqb_sym (env_exit_pc env)).
  destruct stubs; cbn [andb]; [|done].
  destruct (pc =? env_exit_pc env); [|done].
  destruct st as [|fr st]; [done|]. destruct Hl as (Hfid & Hk & _ & _).
  rewrite lookup_app_r, Nat.sub_diag by lia. cbn [lookup list_lookup head fmap option_fmap option_map default].
  assert ((if m =? env_save_all_method env then mret tt
           else if interpreter_entry_ fr then check (m =? env_refs_and_args_method env)
           else if negb (isf_method_ fr =? m) then Fault FatalLog else mret tt) = Ok tt) as ->.
  { destruct (m =? env_save_all_method env); [done|].
    destruct (interpreter_entry_ fr); destruct Hk as [-> _]; by rewrite Z.eqb_refl. }
  cbn [mbind outcome_bind]. destruct fid as [id|]; [|done].
  rewrite (Hid id eq_refl). cbn [length] in Hfid. by rewrite Hfid, Z.eqb_refl.
Qed.

Lemma count_frames_linked stubs b fs : forall pre st,
  linked b fs st ->
  count_frames env stubs fs (if stubs then length pre else 0%nat) (pre ++ st) = Ok (Z.of_nat (length fs)).
Proof.
  induction fs as [|[m pc o|m pc o|] fs IH]; intros pre st H; [done|..]; cbn [count_frames].
  - destruct stubs.
    + rewrite (leave_linked true None m pc o fs pre st b H) by done.
      cbn [andb mbind outcome_bind]. cbn [linked] in H. destruct (pc =? env_exit_pc env).
      * destruct st as [|fr st]; [done|]. destruct H as (_ & _ & _ & H). cbn [mbind outcome_bind].
        replace (pre ++ fr :: st) with ((pre ++ [fr]) ++ st) by (by rewrite <- app_assoc).
        replace (S (length pre)) with (length (pre ++ [fr])) by (rewrite length_app; cbn; lia).
        rewrite IH by done. cbn [mbind outcome_bind mret outcome_ret length]. f_equal. lia.
      * rewrite IH by done. cbn [mbind outcome_bind mret outcome_ret length]. f_equal. lia.
    + cbn [leave_frame andb mbind outcome_bind mret outcome_ret]. cbn [linked] in H.
      destruct (pc =? env_exit_pc env).
      * destruct st as [|fr st]; [done|]. destruct H as (_ & _ & _ & H).
        replace (pre ++ fr :: st) with ((pre ++ [fr]) ++ st) by (by rewrite <- app_assoc).
        rewrite (IH (pre ++ [fr])) by done. cbn [mbind outcome_bind mret outcome_ret length]. f_equal. lia.
      * rewrite (IH pre) by done. cbn [mbind outcome_bind mret outcome_ret length]. f_equal. lia.
  - cbn [leave_frame mbind outcome_bind mret outcome_ret].
    rewrite (IH pre st) by done. cbn [mbind outcome_bind mret outcome_ret length]. f_equal. lia.
  - cbn [leave_frame mbind outcome_bind mret outcome_ret].
    rewrite (IH pre st) by done. cbn [mbind outcome_bind mret outcome_ret length]. f_equal. lia.
Qed.

Lemma ComputeNumFrames_linked stubs t :
  linked 0 (th_frames t) (th_istack t) ->
  ComputeNumFrames env stubs t = Ok (Z.of_nat (length (th_frames t))).
Proof.
  intros H. unfold ComputeNumFrames. pose proof (count_frames_linked stubs 0 _ [] _ H) as Hc.
  by destruct stubs.
Qed.

(** [GetFrameId] of a consistent stack is the height of the frame. *)
Lemma GetFrameId_linked {V B} stubs (all : list Frame) depth (w : Walk V) (k : Z -> M (Walk V) B) :
  linked 0 all (wk_stack w) -> all <> [] ->
  (wk_num_frames w = 0 \/ wk_num_frames w = Z.of_nat (length all)) ->
  (GetFrameId env stubs all depth ≫= k) w =
  k (Z.of_nat (length all) - Z.of_nat depth) (mkWalk (wk_stack w) (Z.of_nat (length all)) (wk_data w)).
Proof.
  intros Hl Hne Hn. unfold GetFrameId. rewrite bind_assoc, bind_gets.
  pose proof (count_frames_linked stubs 0 all [] (wk_stack w) Hl) as Hc. cbn [app length] in Hc.
  replace (if stubs then 0%nat else 0%nat) with 0%nat in Hc by (by destruct stubs).
  destruct (Z.eqb_spec (wk_num_frames w) 0) as [E|E].
  - rewrite bind_assoc, bind_assoc, bind_gets, bind_assoc, bind_lift, Hc. done.
  - rewrite bind_assoc, bind_ret, bind_ret. destruct Hn as [Hn|Hn]; [done|].
    rewrite Hn. f_equal. destruct w; cbn in *. by rewrite Hn.
Qed.

(** *** What installing does to a stack *)

Definition install_frame (f : Frame) : Frame :=
  match f with
  | QuickFrame m _ o => if is_runtime m then f else QuickFrame m (env_exit_pc env) o
  | _ => f
  end.

(** The side stack afterwards: a new entry for each frame that had no stub. *)
Fixpoint new_entries (fs : list Frame) (st : list InstrumentationStackFrame) : list InstrumentationStackFrame :=
  match fs with
  | [] => []
  | QuickFrame m pc o :: fs' =>
      if pc =? env_exit_pc env then
        match st with fr :: st => fr :: new_entries fs' st | [] => [] end
      else if is_runtime m then new_entries fs' st
      else mkISF o m pc (Z.of_nat (length fs)) false :: new_entries fs' st
  | _ :: fs' => new_entries fs' st
  end.

(** The interpreter's frames, as the visitor notes them. *)
Fixpoint shadow_entries (fs : list Frame) : list InstrumentationStackFrame :=
  match fs with
  | [] => []
  | ShadowFrame m _ o :: fs' => mkISF o m 0 (Z.of_nat (length fs)) true :: shadow_entries fs'
  | _ :: fs' => shadow_entries fs'
  end.

(** The dex pcs of the entries: where each method is, by the return address
    of the frame above it. *)
Fixpoint entry_pcs (fs : list Frame) (st : list InstrumentationStackFrame) (last : Z) : list Z :=
  match fs with
  | [] => []
  | QuickFrame m pc o :: fs' =>
      if pc =? env_exit_pc env then
        match st with
        | fr :: st =>
            (if is_runtime m then 0 else env_to_dex_pc env m last) :: entry_pcs fs' st (return_pc_ fr)
        | [] => []
        end
      else if is_runtime m then entry_pcs fs' st pc
      else env_to_dex_pc env m last :: entry_pcs fs' st pc
  | ShadowFrame _ _ _ :: fs' => entry_pcs fs' st last
  | Upcall :: fs' => entry_pcs fs' st 0
  end.

Lemma insert_frame_at fr st1 st2 :
  Forall (fun c => frame_id_ fr < frame_id_ c) st1 -> Forall (fun c => frame_id_ c <= frame_id_ fr) st2 ->
  insert_frame fr (st1 ++ st2) = st1 ++ fr :: st2.
Proof.
  intros H1 H2. induction H1 as [|c st1 Hc _ IH]; cbn [app insert_frame].
  - destruct H2 as [|c st2 Hc _]; cbn [insert_frame]; [done|]. by rewrite (proj2 (Z.leb_le _ _)).
  - rewrite (proj2 (Z.leb_gt _ _)) by done. by rewrite IH.
Qed.

Lemma frame_is_runtime_ok m : is_Some (h_methods h !! m) -> frame_is_runtime h m = Ok (is_runtime m).
Proof. intros [am Hm]. unfold frame_is_runtime, is_runtime, deref. by rewrite Hm. Qed.

(** What [closed_below] says of one frame: it passes the checks of the walk, and
    whether the walk has then reached a frame with an exit stub. *)
Definition passes (reached : bool) (f : Frame) : bool :=
  match f with
  | QuickFrame m pc _ => is_runtime m || (pc =? env_exit_pc env) || (negb (pc =? 0) && negb reached)
  | _ => true
  end.

Definition reaches (reached : bool) (f : Frame) : bool :=
  match f with QuickFrame m pc _ => reached || (negb (is_runtime m) && (pc =? env_exit_pc env)) | _ => reached end.

Definition closed_from (reached : bool) (fs : list Frame) : Prop := if reached then covered fs else closed_below fs.

Lemma closed_cons reached f fs : closed_from reached (f :: fs) <-> passes reached f = true /\ closed_from (reaches reached f) fs.
Proof.
  unfold closed_from. destruct f as [m pc o|m pc o|]; cbn [covered closed_below passes reaches]; [|by destruct reached; tauto..].
  destruct (is_runtime m); cbn [orb andb negb]; [rewrite orb_false_r; destruct reached; tauto|].
  destruct (Z.eqb_spec pc (env_exit_pc env)) as [->|Hx]; cbn [orb andb negb].
  - rewrite orb_true_r. destruct reached; tauto.
  - rewrite orb_false_r. destruct reached; cbn [negb]; [rewrite andb_false_r; naive_solver|].
    rewrite andb_true_r, negb_true_iff, Z.eqb_neq. tauto.
Qed.

(** A walk's state is fit for the frames still to visit. *)
Record install_ready (done rest : list Frame) (stD stR : list InstrumentationStackFrame)
    (num : Z) : Prop := {
  ir_present : frames_present rest;
  ir_done : linked (Z.of_nat (length rest)) done stD;
  ir_rest : linked 0 rest stR;
  ir_num : num = 0 \/ num = Z.of_nat (length (done ++ rest));
}.

(** Going on with the next frame, after the visitor has handled this one. *)
Lemma walk_step {V} stubs (visit : Visitor V) done f f' rest pc idepth w w' pc' idepth' :
  visit (done ++ f :: rest) (length done) pc f w = Ok ((true, f'), w') ->
  leave_frame env stubs (if wk_num_frames w' =? 0 then None
                        else Some (wk_num_frames w' - Z.of_nat (length done))) f' idepth (wk_stack w')
    = Ok (pc', idepth') ->
  walk_frames env stubs visit done (f :: rest) pc idepth w =
  walk_frames env stubs visit (done ++ [f']) rest pc' idepth' w'.
Proof.
  intros Hv Hl. cbn [walk_frames]. rewrite (bind_ok _ _ _ _ _ Hv). cbn [negb].
  rewrite bind_gets, bind_lift. cbn [id]. by rewrite Hl.
Qed.

Lemma walk_fault {V} stubs (visit : Visitor V) done f rest pc idepth w e :
  visit (done ++ f :: rest) (length done) pc f w = Fault e ->
  walk_frames env stubs visit done (f :: rest) pc idepth w = Fault e.
Proof. intros Hv. cbn [walk_frames]. unfold mbind, M_bind. by rewrite Hv. Qed.

Lemma ready_next done f f' rest stD stR eD stR' num :
  install_ready done (f :: rest) stD stR num ->
  linked (Z.of_nat (length rest)) [f'] eD -> linked 0 rest stR' ->
  forall num', num' = num \/ num' = Z.of_nat (length (done ++ f :: rest)) ->
  install_ready (done ++ [f']) rest (stD ++ eD) stR' num'.
Proof.
  intros [Hp Hd Hr Hn] He Hr' num' Hn'. split; try done.
  - by inversion Hp.
  - apply linked_app; [|done]. cbn [length] in *.
    replace (Z.of_nat (length rest) + Z.of_nat 1) with (Z.of_nat (S (length rest))) by lia. done.
  - rewrite !length_app in *. cbn [length] in *. destruct Hn'; subst; lia.
Qed.

(** Leaving a frame whose entries are next on the side stack. *)
Lemma leave_ready fid f rest stD eD stR :
  linked (Z.of_nat (length rest)) [f] eD -> linked 0 rest stR ->
  (forall id, fid = Some id -> id = Z.of_nat (S (length rest))) ->
  exists pc', leave_frame env true fid f (length stD) (stD ++ eD ++ stR) = Ok (pc', length (stD ++ eD)).
Proof.
  intros He Hr Hid.
  assert (linked 0 (f :: rest) (eD ++ stR)) as Hl by (by apply (linked_app 0 [f] eD)).
  rewrite length_app. destruct f as [m pc o|m pc o|].
  - rewrite (leave_linked true fid m pc o rest stD (eD ++ stR) 0 Hl) by (intros id ->; by rewrite (Hid id)).
    cbn [linked andb] in *. destruct (pc =? env_exit_pc env); [|subst; eexists; by rewrite Nat.add_0_r].
    destruct eD as [|fr eD]; [done|]. destruct He as (_ & _ & _ & ->). eexists. by rewrite Nat.add_1_r.
  - cbn in He. subst. exists 0. by rewrite Nat.add_0_r.
  - cbn in He. subst. exists 0. by rewrite Nat.add_0_r.
Qed.

(** One visit of the installing walk. *)
Lemma install_visit done f rest stD stR num sh pcs reached last pc :
  install_ready done (f :: rest) stD stR num -> passes reached f = true ->
  exists eD stR' num' sh1 pcs1 last',
    InstallVisitFrame env true h (done ++ f :: rest) (length done) pc f
      (mkWalk (stD ++ stR) num (mkInstallData sh pcs reached (length stD) last)) =
    Ok ((true, install_frame f),
        mkWalk (stD ++ eD ++ stR') num'
          (mkInstallData (sh ++ sh1) (pcs ++ pcs1) (reaches reached f) (length (stD ++ eD)) last')) /\
    linked (Z.of_nat (length rest)) [install_frame f] eD /\
    install_ready (done ++ [install_frame f]) rest (stD ++ eD) stR' num' /\
    new_entries (f :: rest) stR = eD ++ new_entries rest stR' /\
    shadow_entries (f :: rest) = sh1 ++ shadow_entries rest /\
    entry_pcs (f :: rest) stR last = pcs1 ++ entry_pcs rest stR' last'.
Proof.
  intros HR Hc. pose proof HR as [Hp Hd Hr Hn].
  assert (linked 0 (done ++ f :: rest) (stD ++ stR)) as Hall by (apply linked_app; [done|done]).
  assert (done ++ f :: rest <> []) as Hne by (by destruct done).
  assert (Z.of_nat (length (done ++ f :: rest)) - Z.of_nat (length done) = Z.of_nat (length (f :: rest))) as Hfid
    by (rewrite length_app; lia).
  assert (forall e : InstrumentationStackFrame, length (stD ++ [e]) = S (length stD)) as Hlen
    by (intros; rewrite length_app; cbn; lia).
  unfold InstallVisitFrame. rewrite bind_gets. cbn [wk_data].
  destruct f as [m rpc o|m dpc o|]; cbn [install_frame].
  - rewrite bind_lift, frame_is_runtime_ok by (by inversion Hp).
    cbn [linked] in Hr. cbn [passes reaches] in Hc |- *. cbn [new_entries shadow_entries entry_pcs].
    destruct (is_runtime m) eqn:Em; destruct (Z.eqb_spec rpc (env_exit_pc env)) as [Ex|Ex]; cbn [negb andb orb] in Hc |- *; rewrite ?orb_false_r, ?orb_true_r.
    + destruct stR as [|fr stR]; [done|]. destruct Hr as (Hid & Hk & Hret & Hr).
      destruct (interpreter_entry_ fr) eqn:Ei; [destruct Hk as [Hk _]|destruct Hk; congruence].
      rewrite bind_gets. cbn [wk_stack]. rewrite lookup_app_r, Nat.sub_diag by lia. cbn [lookup list_lookup].
      unfold checkM. rewrite bind_lift, Ei. cbn [check].
      assert (linked (Z.of_nat (length rest)) [QuickFrame m rpc o] [fr]) as HL.
      { cbn. rewrite (proj2 (Z.eqb_eq _ _) Ex), Ei. repeat split; try done. cbn in Hid. lia. }
      exists [fr], stR, num, [], [0], (return_pc_ fr). rewrite Hlen, !app_nil_r.
      split; [done|]. split; [done|]. split; [|done].
      eapply ready_next; [exact HR|exact HL|exact Hr|]. by left.
    + assert (linked (Z.of_nat (length rest)) [QuickFrame m rpc o] []) as HL
        by (cbn; by rewrite (proj2 (Z.eqb_neq _ _) Ex)).
      exists [], stR, num, [], [], rpc. rewrite !app_nil_r.
      split; [done|]. split; [done|]. split; [|done].
      pose proof (ready_next done (QuickFrame m rpc o) (QuickFrame m rpc o) rest stD stR [] stR num HR HL Hr) as HN.
      rewrite app_nil_r in HN. apply HN. by left.
    + destruct stR as [|fr stR]; [done|]. destruct Hr as (Hid & Hk & Hret & Hr).
      destruct (interpreter_entry_ fr) eqn:Ei; [destruct Hk; congruence|]. destruct Hk as [Hk _].
      rewrite bind_gets. cbn [wk_stack]. rewrite lookup_app_r, Nat.sub_diag by lia. cbn [lookup list_lookup].
      unfold checkM. rewrite bind_lift, Hk, Z.eqb_refl. cbn [check].
      assert (linked (Z.of_nat (length rest)) [QuickFrame m (env_exit_pc env) o] [fr]) as HL.
      { cbn. rewrite Z.eqb_refl, Ei. repeat split; try done. cbn in Hid. lia. }
      exists [fr], stR, num, [], [env_to_dex_pc env m last], (return_pc_ fr). rewrite Hlen, !app_nil_r.
      split; [by rewrite Ex|]. split; [done|]. split; [|done].
      eapply ready_next; [exact HR|exact HL|exact Hr|]. by left.
    + apply andb_prop in Hc as [Hnz%negb_true_iff%Z.eqb_neq Hre%negb_true_iff]. subst reached.
      unfold checkM. rewrite bind_lift, (proj2 (Z.eqb_neq _ _) Hnz). cbn [check negb].
      rewrite bind_lift. cbn [check]. rewrite GetFrameId_linked by done. cbn [wk_stack wk_data].
      rewrite !bind_modify. cbn [with_stack with_data wk_stack wk_num_frames wk_data]. rewrite Hfid.
      set (fr := mkISF o m rpc _ false).
      assert (insert_frame fr (stD ++ stR) = stD ++ [fr] ++ stR) as ->.
      { apply insert_frame_at; cbn [fr frame_id_].
        - eapply Forall_impl; [apply (linked_ids _ _ _ (Nat2Z.is_nonneg _) Hd)|]. cbn beta. lia.
        - eapply Forall_impl; [apply (linked_ids _ _ _ (Z.le_refl 0) Hr)|]. cbn [length]. lia. }
      assert (linked (Z.of_nat (length rest)) [QuickFrame m (env_exit_pc env) o] [fr]) as HL.
      { cbn. rewrite Z.eqb_refl. repeat split; try done. cbn. lia. }
      eexists [fr], stR, _, [], [env_to_dex_pc env m last], rpc. rewrite Hlen, !app_nil_r.
      split; [done|]. split; [done|]. split; [|done].
      eapply ready_next; [done..|]. by right.
  - rewrite GetFrameId_linked by done. rewrite bind_modify. cbn [with_data wk_stack wk_num_frames]. rewrite Hfid.
    eexists [], stR, _, [_], [], last. rewrite !app_nil_r.
    split; [done|]. split; [done|]. split; [|done].
    pose proof (ready_next done _ (ShadowFrame m dpc o) rest stD stR [] stR num HR) as HN.
    rewrite app_nil_r in HN. apply HN; [done..|]. by right.
  - rewrite bind_modify. exists [], stR, num, [], [], 0. rewrite !app_nil_r.
    split; [done|]. split; [done|]. split; [|done].
    pose proof (ready_next done _ Upcall rest stD stR [] stR num HR) as HN.
    rewrite app_nil_r in HN. apply HN; [done..|]. by left.
Qed.

(** A frame that does not pass. *)
Lemma install_visit_fault done f rest stD stR num sh pcs reached last pc :
  install_ready done (f :: rest) stD stR num -> passes reached f = false ->
  InstallVisitFrame env true h (done ++ f :: rest) (length done) pc f
    (mkWalk (stD ++ stR) num (mkInstallData sh pcs reached (length stD) last)) = Fault CheckFailed.
Proof.
  intros [Hp _ _ _] Hc. unfold InstallVisitFrame. rewrite bind_gets. cbn [wk_data].
  destruct f as [m rpc o|m dpc o|]; cbn [passes] in Hc; [|done..].
  rewrite bind_lift, frame_is_runtime_ok by (by inversion Hp). apply orb_false_elim in Hc as [[-> ->]%orb_false_elim Hc].
  unfold checkM. rewrite bind_lift. destruct (negb (rpc =? 0)); cbn [check andb] in Hc |- *; [|done]. by rewrite bind_lift, Hc.
Qed.

(** The whole walk. *)
Lemma install_walk rest : forall done stD stR num sh pcs reached last pc,
  install_ready done rest stD stR num -> closed_from reached rest ->
  exists num' reached' last',
    walk_frames env true (InstallVisitFrame env true h) done rest pc (length stD)
      (mkWalk (stD ++ stR) num (mkInstallData sh pcs reached (length stD) last)) =
    Ok (done ++ (install_frame <$> rest),
        mkWalk (stD ++ new_entries rest stR) num'
          (mkInstallData (sh ++ shadow_entries rest) (pcs ++ entry_pcs rest stR last) reached'
             (length (stD ++ new_entries rest stR)) last')) /\
    linked 0 (done ++ (install_frame <$> rest)) (stD ++ new_entries rest stR).
Proof.
  induction rest as [|f rest IH]; intros done stD stR num sh pcs reached last pc HR Hc.
  - pose proof HR as [_ Hd Hr Hn]. cbn in Hr. subst stR. exists num, reached, last.
    cbn [new_entries shadow_entries entry_pcs fmap list_fmap]. rewrite !app_nil_r. split; [|exact Hd].
    cbn [walk_frames]. rewrite bind_gets. cbn [wk_num_frames]. rewrite app_nil_r in Hn.
    destruct (Z.eqb_spec num 0); [done|]. destruct Hn as [|Hn]; [done|].
    cbn [negb whenM]. unfold checkM. rewrite bind_lift, Hn, Z.eqb_refl. done.
  - apply closed_cons in Hc as [Hf Hc].
    destruct (install_visit done f rest stD stR num sh pcs reached last pc HR Hf)
      as (eD & stR' & num' & sh1 & pcs1 & last' & HV & HL & HR' & -> & -> & ->).
    pose proof HR' as [_ _ Hr' Hn'].
    destruct (leave_ready (if num' =? 0 then None else Some (num' - Z.of_nat (length done)))
                (install_frame f) rest stD eD stR' HL Hr') as (pc' & HP).
    { intros id Hid. destruct (Z.eqb_spec num' 0); [done|]. injection Hid as <-.
      destruct Hn' as [|Hn']; [done|]. rewrite Hn', !length_app. cbn. lia. }
    rewrite (walk_step _ _ _ _ _ _ _ _ _ _ _ _ HV HP).
    destruct (IH (done ++ [install_frame f]) (stD ++ eD) stR' num' (sh ++ sh1) (pcs ++ pcs1) _ last' pc' HR' Hc)
      as (num2 & r2 & l2 & HW & HL2).
    exists num2, r2, l2. rewrite <- (app_assoc done), <- (app_assoc stD eD stR'), <- !(app_assoc stD eD (new_entries rest stR')) in HW. rewrite <- (app_assoc done), <- (app_assoc stD) in HL2. rewrite <- (app_assoc sh), <- (app_assoc pcs) in HW. cbn [app] in HW, HL2. split; [exact HW|exact HL2].
Qed.

(** A walk over a stack that is not closed. *)
Lemma install_walk_fault rest : forall done stD stR num sh pcs reached last pc,
  install_ready done rest stD stR num -> ~ closed_from reached rest ->
  walk_frames env true (InstallVisitFrame env true h) done rest pc (length stD)
    (mkWalk (stD ++ stR) num (mkInstallData sh pcs reached (length stD) last)) = Fault CheckFailed.
Proof.
  induction rest as [|f rest IH]; intros done stD stR num sh pcs reached last pc HR Hc; [destruct Hc; by destruct reached|].
  rewrite closed_cons in Hc. destruct (passes reached f) eqn:Hf; [|by apply walk_fault, install_visit_fault].
  destruct (install_visit done f rest stD stR num sh pcs reached last pc HR Hf)
    as (eD & stR' & num' & sh1 & pcs1 & last' & HV & HL & HR' & _).
  pose proof HR' as [_ _ Hr' Hn'].
  destruct (leave_ready (if num' =? 0 then None else Some (num' - Z.of_nat (length done)))
              (install_frame f) rest stD eD stR' HL Hr') as (pc' & HP).
  { intros id Hid. destruct (Z.eqb_spec num' 0); [done|]. injection Hid as <-.
    destruct Hn' as [|Hn']; [done|]. rewrite Hn', !length_app. cbn. lia. }
  rewrite (walk_step _ _ _ _ _ _ _ _ _ _ _ _ HV HP), app_assoc. apply IH; [done|]. tauto.
Qed.

(** *** What restoring does to a stack *)

Section Restore.
Context {L : Type} `{!ListenerOps L}.

(** The exit events of the entries, from the top of the stack. *)
Fixpoint exit_events (i : Instrumentation) (tid : Z) (fs : list Frame) (st : list InstrumentationStackFrame)
    (pc : Z) (l : L) : outcome L :=
  match fs with
  | [] => mret l
  | QuickFrame m rpc _ :: fs =>
      if rpc =? env_exit_pc env then
        match st with
        | fr :: st =>
            l ← (if ShouldNotifyMethodEnterExitEvents i
                 then MethodExitEvent i h tid (this_object_ fr) m (env_to_dex_pc env m pc) 0 l else mret l);
            exit_events i tid fs st (return_pc_ fr) l
        | [] => mret l
        end
      else exit_events i tid fs st rpc l
  | _ :: fs => exit_events i tid fs st 0 l
  end.

Lemma find_entry (st1 st2 : list InstrumentationStackFrame) fr :
  Forall (fun c => frame_id_ c <> frame_id_ fr) st1 ->
  list_find (fun c => frame_id_ c = frame_id_ fr) (st1 ++ fr :: st2) = Some (length st1, fr).
Proof.
  intros H. apply list_find_Some. split; [by apply list_lookup_middle|]. split; [done|].
  intros j y Hj Hlt. rewrite lookup_app_l in Hj by done. by apply (Forall_lookup_1 _ _ _ _ H Hj).
Qed.

Lemma find_no_entry (st : list InstrumentationStackFrame) fid :
  Forall (fun c => frame_id_ c <> fid) st -> list_find (fun c => frame_id_ c = fid) st = None.
Proof. intros H. by apply list_find_None. Qed.

(** A walk's state, while it restores. *)
Record restore_ready (done rest : list Frame) (stD stR : list InstrumentationStackFrame) (num : Z) : Prop := {
  rr_rest : linked 0 rest stR;
  rr_done : Forall (fun c => Z.of_nat (length rest) < frame_id_ c) stD;
  rr_some : stD ++ stR <> [];
  rr_num : num = Z.of_nat (length (done ++ rest)) /\ num <> 0 \/
           num = 0 /\ stD = [] /\ linked (Z.of_nat (length rest)) done [];
}.

Lemma GetFrameId_restore {V B} stubs done f rest stD stR num (v : V) (k : Z -> M (Walk V) B) :
  restore_ready done (f :: rest) stD stR num ->
  (GetFrameId env stubs (done ++ f :: rest) (length done) ≫= k) (mkWalk (stD ++ stR) num v) =
  k (Z.of_nat (length (f :: rest))) (mkWalk (stD ++ stR) (Z.of_nat (length (done ++ f :: rest))) v).
Proof.
  intros [Hr _ _ Hn].
  replace (Z.of_nat (length (f :: rest)))
    with (Z.of_nat (length (done ++ f :: rest)) - Z.of_nat (length done)) by (rewrite length_app; lia).
  destruct Hn as [[Hn Hne]|(-> & -> & Hd)].
  - unfold GetFrameId. rewrite bind_assoc, bind_gets. cbn [wk_num_frames].
    rewrite (proj2 (Z.eqb_neq _ _) Hne), bind_assoc, bind_ret, bind_ret. by rewrite Hn.
  - rewrite GetFrameId_linked; [done| |by destruct done|by left]. by apply (linked_app 0 done []).
Qed.

Lemma restore_next done f f' rest stD stR eD stR' num :
  restore_ready done (f :: rest) stD stR num -> stR = eD ++ stR' -> linked 0 rest stR' ->
  Forall (fun c => Z.of_nat (length rest) < frame_id_ c) eD ->
  forall num', num' = Z.of_nat (length (done ++ f :: rest)) \/
               num' = num /\ eD = [] /\ linked (Z.of_nat (length rest)) [f'] [] ->
  restore_ready (done ++ [f']) rest (stD ++ eD) stR' num'.
Proof.
  intros [Hr Hd Hs Hn] -> Hr' He num' Hn'. split; [done| | |].
  - apply Forall_app. split; [|done]. eapply Forall_impl; [done|]. cbn. lia.
  - by rewrite <- app_assoc.
  - rewrite !length_app in *. cbn [length] in *. destruct Hn' as [->|(-> & -> & Hf)]; [left; lia|].
    destruct Hn as [[-> Hne]|(-> & -> & Hdone)]; [left; lia|]. right. split; [done|]. split; [done|].
    apply (linked_app _ done [] [f'] []); [|done]. cbn [length].
    replace (Z.of_nat (length rest) + Z.of_nat 1) with (Z.of_nat (S (length rest))) by lia. done.
Qed.

(** One visit of the restoring walk. *)
Lemma restore_visit i tid done f rest stD stR num removed pc (l : L) :
  restore_ready done (f :: rest) stD stR num ->
  RestoreVisitFrame env i h tid (done ++ f :: rest) (length done) pc f (mkWalk (stD ++ stR) num (removed, l)) =
  let num1 := Z.of_nat (length (done ++ f :: rest)) in
  match f with
  | QuickFrame m rpc o =>
      if rpc =? env_exit_pc env then
        match stR with
        | fr :: _ =>
            match (if ShouldNotifyMethodEnterExitEvents i
                   then MethodExitEvent i h tid (this_object_ fr) m (env_to_dex_pc env m pc) 0 l else mret l) with
            | Ok l1 => Ok ((true, QuickFrame m (return_pc_ fr) o), mkWalk (stD ++ stR) num1 (removed + 1, l1))
            | Fault e => Fault e
            end
        | [] => Fault CheckFailed
        end
      else Ok ((true, f), mkWalk (stD ++ stR) num1 (removed, l))
  | _ => Ok ((true, f), mkWalk (stD ++ stR) num (removed, l))
  end.
Proof.
  intros HR. pose proof HR as [Hr Hd Hs Hn].
  assert (Forall (fun c => frame_id_ c <> Z.of_nat (length (f :: rest))) stD) as HnD
    by (eapply Forall_impl; [done|]; cbn beta; lia).
  unfold RestoreVisitFrame. rewrite bind_gets. cbn [wk_stack]. rewrite bool_decide_eq_false_2 by done.
  destruct f as [m rpc o|m dpc o|]; [|done..].
  rewrite (GetFrameId_restore _ _ _ _ _ _ _ _ _ HR). cbn [linked] in Hr. cbn zeta.
  destruct (rpc =? env_exit_pc env) eqn:Ex.
  - destruct stR as [|fr stR]; [done|]. destruct Hr as (Hid & Hk & Hret & Hr). rewrite Z.add_0_l in Hid.
    rewrite <- Hid in HnD |- *. rewrite (find_entry stD stR fr HnD).
    assert ((if interpreter_entry_ fr then @checkM (Walk (Z * L)) (m =? env_refs_and_args_method env)
             else checkM (m =? isf_method_ fr)) = checkM true) as ->.
    { destruct (interpreter_entry_ fr); destruct Hk as [-> _]; by rewrite Z.eqb_refl. }
    unfold checkM. rewrite bind_lift. cbn [check]. rewrite bind_gets. cbn [wk_data].
    destruct (ShouldNotifyMethodEnterExitEvents i); [|done].
    rewrite bind_lift. by destruct (MethodExitEvent _ _ _ _ _ _ _ _).
  - rewrite find_no_entry; [done|]. apply Forall_app. split; [done|].
    eapply Forall_impl; [apply (linked_ids _ _ _ (Z.le_refl 0) Hr)|]. cbn [length]. lia.
Qed.

Lemma leave_unstubbed stubs fid m pc o depth st :
  pc <> env_exit_pc env -> leave_frame env stubs fid (QuickFrame m pc o) depth st = Ok (pc, depth).
Proof.
  intros H. cbn [leave_frame]. rewrite (proj2 (Z.eqb_neq _ _)) by congruence. by rewrite andb_false_r.
Qed.

Lemma restore_walk i tid rest : forall done stD stR num removed pc (l : L),
  restore_ready done rest stD stR num ->
  exists num',
    walk_frames env (AreExitStubsInstalled i) (RestoreVisitFrame env i h tid) done rest pc 0
      (mkWalk (stD ++ stR) num (removed, l)) =
    l' ← exit_events i tid rest stR pc l;
    Ok (done ++ original rest stR, mkWalk (stD ++ stR) num' (removed + Z.of_nat (length stR), l')).
Proof.
  induction rest as [|f rest IH]; intros done stD stR num removed pc l HR; pose proof HR as [Hr Hd Hs Hn].
  { cbn in Hr. subst stR. exists num. cbn [walk_frames original exit_events]. rewrite bind_gets.
    cbn [wk_num_frames length mbind outcome_bind mret outcome_ret]. rewrite Z.add_0_r, !(app_nil_r done) in *.
    destruct Hn as [[Hn Hne]|(-> & _)]; [|done].
    rewrite (proj2 (Z.eqb_neq _ _) Hne). cbn [negb whenM]. unfold checkM.
    by rewrite bind_lift, Hn, Z.eqb_refl. }
  pose proof (restore_visit i tid done f rest stD stR num removed pc l HR) as HV. cbn zeta in HV.
  destruct f as [m rpc o|m dpc o|]; cbn [exit_events linked original] in *.
  - destruct (rpc =? env_exit_pc env) eqn:Ex.
    + destruct stR as [|fr stR]; [done|]. destruct Hr as (Hid & Hk & Hret & Hr).
      destruct (if ShouldNotifyMethodEnterExitEvents i then _ else _) as [l1|e].
      2:{ exists 0. cbn [walk_frames mbind outcome_bind]. unfold mbind, M_bind. by rewrite HV. }
      rewrite (walk_step _ _ _ _ _ _ _ _ _ _ _ _ HV (leave_unstubbed _ _ _ _ _ _ _ Hret)).
      assert (restore_ready (done ++ [QuickFrame m (return_pc_ fr) o]) rest (stD ++ [fr]) stR
                (Z.of_nat (length (done ++ QuickFrame m rpc o :: rest)))) as HR'.
      { eapply restore_next; [exact HR|done|done| |by left]. constructor; [|done]. cbn [length] in Hid. lia. }
      destruct (IH _ _ _ _ (removed + 1) (return_pc_ fr) l1 HR') as [num' HW].
      rewrite <- !(app_assoc stD [fr] stR), <- (app_assoc done) in HW. cbn [app] in HW.
      exists num'. rewrite HW. cbn [mbind outcome_bind length].
      replace (removed + Z.of_nat (S (length stR))) with (removed + 1 + Z.of_nat (length stR)) by lia. done.
    + apply Z.eqb_neq in Ex.
      rewrite (walk_step _ _ _ _ _ _ _ _ _ _ _ _ HV (leave_unstubbed _ _ _ _ _ _ _ Ex)).
      assert (restore_ready (done ++ [QuickFrame m rpc o]) rest (stD ++ []) stR
                (Z.of_nat (length (done ++ QuickFrame m rpc o :: rest)))) as HR'
        by (eapply restore_next; [exact HR|done|done|done|by left]).
      rewrite app_nil_r in HR'. destruct (IH _ _ _ _ removed rpc l HR') as [num' HW].
      rewrite <- (app_assoc done) in HW. by exists num'.
  - assert (restore_ready (done ++ [ShadowFrame m dpc o]) rest (stD ++ []) stR num) as HR'
      by (eapply restore_next; [exact HR|done|done|done|by right]).
    rewrite app_nil_r in HR'. destruct (IH _ _ _ _ removed 0 l HR') as [num' HW].
    rewrite (walk_step _ _ _ _ _ _ _ _ _ _ _ _ HV eq_refl). rewrite <- (app_assoc done) in HW. by exists num'.
  - assert (restore_ready (done ++ [Upcall]) rest (stD ++ []) stR num) as HR'
      by (eapply restore_next; [exact HR|done|done|done|by right]).
    rewrite app_nil_r in HR'. destruct (IH _ _ _ _ removed 0 l HR') as [num' HW].
    rewrite (walk_step _ _ _ _ _ _ _ _ _ _ _ _ HV eq_refl). rewrite <- (app_assoc done) in HW. by exists num'.
Qed.

End Restore.

(** *** The operations on a thread *)

Lemma new_entries_length fs : forall st last,
  linked 0 fs st -> length (entry_pcs fs st last) = length (new_entries fs st).
Proof.
  induction fs as [|[m pc o|m pc o|] fs IH]; intros st last H; cbn [entry_pcs new_entries linked] in *; auto.
  destruct (pc =? env_exit_pc env).
  - destruct st as [|fr st]; [done|]. destruct H as (_ & _ & _ & H). cbn. by rewrite IH.
  - destruct (is_runtime m); cbn; by rewrite IH.
Qed.

Lemma install_covered fs : covered (install_frame <$> fs).
Proof.
  induction fs as [|[m pc o|m pc o|] fs IH]; cbn; try done.
  destruct (is_runtime m) eqn:E; cbn; rewrite ?E; auto.
Qed.

Lemma install_present fs : frames_present fs -> frames_present (install_frame <$> fs).
Proof.
  intros H. apply Forall_fmap. eapply Forall_impl; [exact H|].
  intros [m pc o|m pc o|]; cbn; try done. by destruct (is_runtime m).
Qed.

(** Installing stubs does not change what the stack is without them. *)
Lemma install_original fs : forall st, linked 0 fs st ->
  original (install_frame <$> fs) (new_entries fs st) = original fs st.
Proof.
  induction fs as [|[m pc o|m pc o|] fs IH]; intros st H; cbn [fmap list_fmap original linked install_frame new_entries] in *.
  - done.
  - destruct (Z.eqb_spec pc (env_exit_pc env)) as [->|Hne].
    + destruct st as [|fr st]; [done|]. destruct H as (_ & Hk & _ & H).
      destruct (is_runtime m); cbn; rewrite Z.eqb_refl; f_equal; by apply IH.
    + destruct (is_runtime m); cbn.
      * rewrite (proj2 (Z.eqb_neq _ _) Hne). f_equal. by apply IH.
      * rewrite Z.eqb_refl. f_equal. by apply IH.
  - f_equal. by apply IH.
  - f_equal. by apply IH.
Qed.

(** A thread that stubs can be installed on. *)
Record thread_ok (t : Thread_) : Prop := {
  to_present : frames_present (th_frames t);
  to_linked : linked 0 (th_frames t) (th_istack t);
  to_closed : closed_below (th_frames t);
}.

Section Threads.
Context {L : Type} `{!ListenerOps L}.

Lemma InstallStack_ok (i : Instrumentation) t (l : L) :
  AreExitStubsInstalled i = true -> thread_ok t ->
  let t' := set_istack (new_entries (th_frames t) (th_istack t))
              (set_frames (install_frame <$> th_frames t) t) in
  linked 0 (th_frames t') (th_istack t') /\
  InstrumentationInstallStack env i h t l =
  (if ShouldNotifyMethodEnterExitEvents i then
     l ← enter_stack i h (th_tid t) (rev (new_entries (th_frames t) (th_istack t)))
           (rev (entry_pcs (th_frames t) (th_istack t) 0)) (rev (shadow_entries (th_frames t))) l;
     mret (t', l)
   else mret (t', l)).
Proof.
  intros Hi [Hp Hl Hc]. cbn zeta.
  assert (install_ready [] (th_frames t) [] (th_istack t) 0) as HR by (split; try done; by left).
  destruct (install_walk _ _ _ _ _ [] [] false 0 0 HR Hc) as (num' & r' & l' & HW & HL).
  cbn [app] in HW, HL. split; [exact HL|].
  unfold InstrumentationInstallStack, WalkStack. rewrite Hi. cbn [length] in HW.
  cbn [app] in HW. rewrite HW. cbn [mbind outcome_bind mret outcome_ret wk_stack wk_data dex_pcs_ shadow_stack_].
  cbn [set_istack th_istack th_tid set_frames].
  rewrite bool_decide_eq_true_2 by (by apply new_entries_length). done.
Qed.

Lemma InstallStack_fault (i : Instrumentation) t (l : L) :
  AreExitStubsInstalled i = true -> frames_present (th_frames t) -> linked 0 (th_frames t) (th_istack t) -> ~ closed_below (th_frames t) ->
  InstrumentationInstallStack env i h t l = Fault CheckFailed.
Proof.
  intros Hi Hp Hl Hc. assert (install_ready [] (th_frames t) [] (th_istack t) 0) as HR by (split; try done; by left).
  unfold InstrumentationInstallStack, WalkStack. rewrite Hi.
  pose proof (install_walk_fault _ [] [] (th_istack t) 0 [] [] false 0 0 HR Hc) as HW. cbn [app length] in HW. by rewrite HW.
Qed.

Lemma RestoreStack_ok (i : Instrumentation) t (l : L) :
  linked 0 (th_frames t) (th_istack t) ->
  InstrumentationRestoreStack env i h t l =
  l' ← (if (0 <? length (th_istack t))%nat
        then exit_events i (th_tid t) (th_frames t) (th_istack t) 0 l else mret l);
  mret (set_istack [] (set_frames (original (th_frames t) (th_istack t)) t), l').
Proof.
  intros Hl. unfold InstrumentationRestoreStack.
  destruct (Nat.ltb_spec 0 (length (th_istack t))) as [Hlt|Hge].
  - assert (restore_ready [] (th_frames t) [] (th_istack t) 0) as HR.
    { split; [done|done| |by right]. cbn. intros E. rewrite E in Hlt. cbn in Hlt. lia. }
    destruct (restore_walk i (th_tid t) _ _ _ _ _ 0 0 l HR) as [num' HW]. cbn [app] in HW.
    unfold WalkStack. rewrite HW. destruct (exit_events _ _ _ _ _ _) as [l'|]; [|done].
    cbn [mbind outcome_bind mret outcome_ret wk_stack wk_data]. cbn [set_istack th_istack set_frames].
    by rewrite Z.eqb_refl.
  - cbn [mbind outcome_bind mret outcome_ret].
    assert (th_istack t = []) as E by (destruct (th_istack t); [done|cbn in Hge; lia]).
    rewrite E in *. do 2 f_equal.
    assert (forall fs, linked 0 fs [] -> original fs [] = fs) as Ho.
    { induction fs as [|[m pc o|m pc o|] fs IH]; intros H; cbn [original linked] in *; try done;
        try (f_equal; by apply IH).
      destruct (pc =? env_exit_pc env); [done|]. f_equal. by apply IH. }
    rewrite Ho by done. destruct t; cbn in *. by rewrite E.
Qed.

End Threads.

(** *** The enter events of a stack *)

(** The interpreter's frames above the topmost entry. *)
Fixpoint top_shadows (fs : list Frame) : list InstrumentationStackFrame :=
  match fs with
  | [] => []
  | QuickFrame m pc _ :: fs' => if (pc =? env_exit_pc env) || negb (is_runtime m) then [] else top_shadows fs'
  | ShadowFrame m _ o :: fs' => mkISF o m 0 (Z.of_nat (length fs)) true :: top_shadows fs'
  | Upcall :: fs' => top_shadows fs'
  end.

(** The methods on the stack, from the top, with the pc each is at; the
    interpreter's frames count when there is a compiled frame above them. *)
Fixpoint entered (tid : Z) (seen : bool) (fs : list Frame) (st : list InstrumentationStackFrame) (last : Z)
  : list ListenerCall :=
  match fs with
  | [] => []
  | QuickFrame m pc o :: fs =>
      if pc =? env_exit_pc env then
        match st with
        | fr :: st =>
            (if interpreter_entry_ fr then []
             else [MethodEntered tid (this_object_ fr) (isf_method_ fr) (env_to_dex_pc env m last)]) ++
            entered tid true fs st (return_pc_ fr)
        | [] => []
        end
      else if is_runtime m then entered tid seen fs st pc
      else MethodEntered tid o m (env_to_dex_pc env m last) :: entered tid true fs st pc
  | ShadowFrame m _ o :: fs =>
      (if seen then [MethodEntered tid o m 0] else []) ++ entered tid seen fs st last
  | Upcall :: fs => entered tid seen fs st 0
  end.

Definition shadow_event (tid : Z) (s : InstrumentationStackFrame) : ListenerCall :=
  MethodEntered tid (this_object_ s) (isf_method_ s) 0.

Lemma entered_seen tid fs : forall st last,
  linked 0 fs st ->
  entered tid true fs st last = (shadow_event tid <$> top_shadows fs) ++ entered tid false fs st last.
Proof.
  induction fs as [|[m pc o|m pc o|] fs IH]; intros st last H; cbn [entered top_shadows linked] in *.
  - done.
  - destruct (pc =? env_exit_pc env); [done|]. cbn [orb]. destruct (is_runtime m); cbn; auto.
  - cbn. by rewrite IH.
  - auto.
Qed.

Lemma top_shadows_ids fs : Forall (fun s => frame_id_ s <= Z.of_nat (length fs)) (top_shadows fs).
Proof.
  induction fs as [|[m pc o|m pc o|] fs IH]; cbn [top_shadows]; [done| | |].
  - destruct (_ || _); [done|]. eapply Forall_impl; [exact IH|]. cbn. lia.
  - constructor; [cbn; lia|]. eapply Forall_impl; [exact IH|]. cbn. lia.
  - eapply Forall_impl; [exact IH|]. cbn. lia.
Qed.

Section EnterLog.
Context (i : Instrumentation) (tid : Z) (Hi : listeners_wf i).

(** What a sequence of enter events leaves in the log of the listeners. *)
Definition logged (cs : list ListenerCall) : CallLog :=
  concat ((fun c => (fun l => (l, c)) <$> listeners_of i kMethodEntered) <$> cs).

Lemma logged_app cs1 cs2 : logged (cs1 ++ cs2) = logged cs1 ++ logged cs2.
Proof. unfold logged. by rewrite fmap_app, concat_app. Qed.

Lemma MethodEnterEvent_log o m pc (log : CallLog) :
  MethodEnterEvent i h tid o m pc log = Ok (log ++ logged [MethodEntered tid o m pc]).
Proof.
  unfold MethodEnterEvent, HasMethodEntryListeners. rewrite notify_plain by apply Hi.
  rewrite notify_log. unfold logged. cbn. by rewrite app_nil_r.
Qed.

Lemma enter_shadow_log fid ssi rest : forall log,
  Forall (fun s => frame_id_ s < fid) ssi -> Forall (fun s => fid <= frame_id_ s) rest ->
  enter_shadow i h tid (ssi ++ rest) fid log = Ok (rest, log ++ logged (shadow_event tid <$> ssi)).
Proof.
  induction ssi as [|s ssi IH]; intros log H1 H2; cbn [app].
  - cbn. rewrite app_nil_r. destruct H2 as [|s rest Hs H2]; [done|]. cbn [enter_shadow].
    by rewrite (proj2 (Z.ltb_ge _ _)) by done.
  - apply Forall_cons in H1 as [Hs H1]. cbn [enter_shadow]. rewrite (proj2 (Z.ltb_lt _ _)) by done.
    rewrite MethodEnterEvent_log. cbn [mbind outcome_bind]. rewrite IH by done.
    rewrite fmap_cons. change (shadow_event tid s :: _) with ([shadow_event tid s] ++ (shadow_event tid <$> ssi)).
    by rewrite logged_app, app_assoc.
Qed.

(** The outer loop, with the shadow frames it has left. *)
Fixpoint enter_stack_left (isi : list InstrumentationStackFrame)
    (dex_pcs : list Z) (ssi : list InstrumentationStackFrame) (l : CallLog)
  : outcome (list InstrumentationStackFrame * CallLog) :=
  match isi with
  | [] => mret (ssi, l)
  | fr :: isi =>
      '(ssi, l) ← enter_shadow i h tid ssi (frame_id_ fr) l;
      match dex_pcs with
      | [] => Fault OutOfBounds
      | dex_pc :: dex_pcs =>
          l ← (if interpreter_entry_ fr then mret l
               else MethodEnterEvent i h tid (this_object_ fr) (isf_method_ fr) dex_pc l);
          enter_stack_left isi dex_pcs ssi l
      end
  end.

Lemma enter_stack_is_left isi : forall pcs ssi l,
  enter_stack i h tid isi pcs ssi l = ('(_, l) ← enter_stack_left isi pcs ssi l; mret l).
Proof.
  induction isi as [|fr isi IH]; intros pcs ssi l; cbn; [done|].
  destruct (enter_shadow _ _ _ _ _ _) as [[ssi' l']|]; [|done]. cbn. destruct pcs as [|pc pcs]; [done|].
  destruct (if interpreter_entry_ fr then _ else _); [|done]. cbn. by rewrite IH.
Qed.

Lemma enter_stack_left_snoc isi fr pc : forall pcs ssi l,
  length pcs = length isi ->
  enter_stack_left (isi ++ [fr]) (pcs ++ [pc]) ssi l =
  ('(ssi, l) ← enter_stack_left isi pcs ssi l; enter_stack_left [fr] [pc] ssi l).
Proof.
  induction isi as [|f isi IH]; intros pcs ssi l Hl; destruct pcs as [|p pcs]; try done.
  cbn [app enter_stack_left]. destruct (enter_shadow _ _ _ _ _ _) as [[ssi' l']|]; [|done].
  cbn [mbind outcome_bind]. destruct (if interpreter_entry_ f then _ else _); [|done]. cbn [mbind outcome_bind].
  apply IH. by injection Hl.
Qed.

Lemma shadow_split fs : forall st, linked 0 fs st ->
  new_entries fs st = [] -> top_shadows fs = shadow_entries fs.
Proof.
  induction fs as [|[m pc o|m pc o|] fs IH]; intros st H Hn; cbn [top_shadows shadow_entries new_entries linked] in *.
  - done.
  - destruct (pc =? env_exit_pc env); [by destruct st|]. cbn [orb]. destruct (is_runtime m); [|done]. by eapply IH.
  - f_equal. by eapply IH.
  - by eapply IH.
Qed.

Lemma enter_entry fs fr pc ssi log :
  frame_id_ fr = Z.of_nat (S (length fs)) ->
  Forall (fun s => Z.of_nat (S (length fs)) <= frame_id_ s) ssi ->
  enter_stack_left [fr] [pc] (rev (top_shadows fs) ++ ssi) log =
  Ok (ssi, log ++ logged (rev (shadow_event tid <$> top_shadows fs) ++
       if interpreter_entry_ fr then [] else [MethodEntered tid (this_object_ fr) (isf_method_ fr) pc])).
Proof.
  intros Hid HF. cbn [enter_stack_left]. rewrite enter_shadow_log.
  - cbn [mbind outcome_bind]. 
    assert (rev (shadow_event tid <$> top_shadows fs) = shadow_event tid <$> rev (top_shadows fs)) as ->
      by (symmetry; apply map_rev).
    destruct (interpreter_entry_ fr); cbn [mbind outcome_bind mret outcome_ret].
    + by rewrite app_nil_r.
    + rewrite MethodEnterEvent_log. cbn [mbind outcome_bind]. by rewrite logged_app, app_assoc.
  - apply Forall_rev. eapply Forall_impl; [apply top_shadows_ids|]. cbn beta. lia.
  - rewrite Hid. exact HF.
Qed.

Lemma enter_stack_log fs : forall st last ssi log,
  linked 0 fs st -> Forall (fun s => Z.of_nat (length fs) < frame_id_ s) ssi ->
  enter_stack_left (rev (new_entries fs st)) (rev (entry_pcs fs st last)) (rev (shadow_entries fs) ++ ssi) log =
  Ok (rev (top_shadows fs) ++ ssi, log ++ logged (rev (entered tid false fs st last))).
Proof.
  induction fs as [|[m pc o|m pc o|] fs IH]; intros st last ssi log Hl HF;
    cbn [new_entries entry_pcs shadow_entries top_shadows entered linked length] in *.
  - cbn. by rewrite app_nil_r.
  - destruct (pc =? env_exit_pc env); cbn [orb].
    + destruct st as [|fr st]; [done|]. destruct Hl as (Hid & Hk & _ & Hl). rewrite Z.add_0_l in Hid.
      cbn [rev]. rewrite enter_stack_left_snoc by (rewrite !length_rev; by apply new_entries_length).
      rewrite IH by (first [done | eapply Forall_impl; [done|]; cbn; lia]). cbn [mbind outcome_bind].
      rewrite enter_entry by (first [done | eapply Forall_impl; [done|]; cbn; lia]).
      rewrite entered_seen by done. f_equal. f_equal. rewrite <- app_assoc, <- logged_app. f_equal. f_equal.
      rewrite !rev_app_distr, <- app_assoc. f_equal. f_equal.
      destruct (interpreter_entry_ fr); [done|]. destruct Hk as [_ ->]. done.
    + destruct (is_runtime m); cbn [negb].
      * apply IH; [done|]. eapply Forall_impl; [done|]. cbn. lia.
      * cbn [rev]. rewrite enter_stack_left_snoc by (rewrite !length_rev; by apply new_entries_length).
        rewrite IH by (first [done | eapply Forall_impl; [done|]; cbn; lia]). cbn [mbind outcome_bind].
        rewrite enter_entry by (first [done | eapply Forall_impl; [done|]; cbn; lia]).
        rewrite entered_seen by done. f_equal. f_equal. rewrite <- app_assoc, <- logged_app. f_equal. f_equal.
        by rewrite !rev_app_distr, <- app_assoc.
  - cbn [rev]. rewrite <- !app_assoc. cbn [app]. rewrite IH; [done|done|]. constructor; [cbn; lia|].
    eapply Forall_impl; [done|]. cbn. lia.
  - apply IH; [done|]. eapply Forall_impl; [done|]. cbn. lia.
Qed.

End EnterLog.

End Links.

(** ** Calls of instrumented methods *)

Section Calls.
Context (env : RuntimeEnv) (h : Heap).

Lemma linked_unstubbed b m pc o fs st :
  pc <> env_exit_pc env -> linked env h b fs st -> linked env h b (QuickFrame m pc o :: fs) st.
Proof. intros Hp Hl. cbn [linked]. by rewrite (proj2 (Z.eqb_neq _ _) Hp). Qed.

(** The caller of the frame on top. *)
Definition caller_of (fs : list Frame) : Z :=
  match fs with [] => 0 | f :: _ => frame_method f end.

Lemma NthCaller_visit n f all depth pc (w : Walk (nat * Z)) :
  frame_method f <> 0 -> is_Some (h_methods h !! frame_method f) -> fst (wk_data w) <> n ->
  NthCallerVisitFrame h n true all depth pc f w =
  Ok ((true, f), with_data (S (fst (wk_data w)), snd (wk_data w)) w).
Proof.
  intros Hne Hp Hc. unfold NthCallerVisitFrame. rewrite bind_gets. destruct w as [st num [count caller]]. cbn [wk_data].
  rewrite (proj2 (Z.eqb_neq _ _) Hne), bind_lift, (frame_is_runtime_ok h) by done. cbn in Hc.
  destruct (is_runtime h (frame_method f)); by rewrite (proj2 (Nat.eqb_neq _ _) Hc).
Qed.

Lemma NthCaller_found n f all depth pc (w : Walk (nat * Z)) :
  (frame_method f = 0 \/ is_Some (h_methods h !! frame_method f)) -> fst (wk_data w) = n ->
  NthCallerVisitFrame h n true all depth pc f w = Ok ((false, f), with_data (n, frame_method f) w).
Proof.
  intros Hp Hc. unfold NthCallerVisitFrame. rewrite bind_gets. destruct w as [st num [count caller]]. cbn [wk_data].
  cbn in Hc. subst count.
  assert (exists r, (if frame_method f =? 0 then mret true
            else lift (frame_is_runtime h (frame_method f))) (mkWalk st num (n, caller)) = Ok (r, mkWalk st num (n, caller)))
    as [r Hr].
  { destruct (Z.eqb_spec (frame_method f) 0); [by exists true|]. destruct Hp as [|Hp]; [done|].
    exists (is_runtime h (frame_method f)). unfold lift. by rewrite (frame_is_runtime_ok h). }
  rewrite (bind_ok _ _ _ _ _ Hr). rewrite Nat.eqb_refl. by destruct r.
Qed.

(** The walk to the caller, over a frame on top that returns normally. *)
Lemma nth_caller_second i m pc o fs t :
  th_frames t = QuickFrame m pc o :: fs -> pc <> env_exit_pc env -> m <> 0 -> is_Some (h_methods h !! m) ->
  frames_present h fs -> nth_caller env i h 1 true t = Ok (caller_of fs).
Proof.
  intros Hf Hpc Hm Hp Hfs. unfold nth_caller, WalkStack. rewrite Hf.
  rewrite (walk_step env _ _ [] (QuickFrame m pc o) (QuickFrame m pc o) fs 0 0 (mkWalk (th_istack t) 0 (0%nat, 0))
             (mkWalk (th_istack t) 0 (1%nat, 0)) pc 0).
  2:{ by rewrite NthCaller_visit. }
  2:{ by apply leave_unstubbed. }
  destruct fs as [|f fs]; [done|]. cbn [walk_frames app length].
  rewrite (bind_ok _ _ _ (false, f) (mkWalk (th_istack t) 0 (1%nat, frame_method f))).
  { done. }
  rewrite NthCaller_found; [done| |done]. apply Forall_cons in Hfs as [Hf1 _].
  destruct f; [by right..|by left].
Qed.

Section Log.
Context (i : Instrumentation) (Hi : listeners_wf i).

Definition enter_log (tid o m pc : Z) : CallLog :=
  (fun l => (l, MethodEntered tid o m pc)) <$> listeners_of i kMethodEntered.
Definition exit_log (tid o m pc rv : Z) : CallLog :=
  (fun l => (l, MethodExited tid o m pc rv)) <$> listeners_of i kMethodExited.

Lemma MethodExitEvent_log tid o m pc rv (log : CallLog) :
  MethodExitEvent i h tid o m pc rv log = Ok (log ++ exit_log tid o m pc rv).
Proof.
  unfold MethodExitEvent, HasMethodExitListeners. rewrite notify_plain by apply Hi. apply notify_log.
Qed.

Lemma MethodEnterEvent_log1 tid o m pc (log : CallLog) :
  MethodEnterEvent i h tid o m pc log = Ok (log ++ enter_log tid o m pc).
Proof.
  unfold MethodEnterEvent, HasMethodEntryListeners. rewrite notify_plain by apply Hi. apply notify_log.
Qed.

(** Pushing a frame from the entry stub, whose own frame is on top. *)
Lemma Push_ok c pc0 o0 fs st o m lr e t log :
  th_frames t = QuickFrame c pc0 o0 :: fs -> th_istack t = st -> pc0 <> env_exit_pc env ->
  linked env h 0 fs st ->
  PushInstrumentationStackFrame env i h o m lr e t log =
  Ok (set_istack (mkISF o m lr (Z.of_nat (S (length fs))) e :: st) t,
      log ++ if e then [] else enter_log (th_tid t) o m 0).
Proof.
  intros Hf Hs Hpc Hl. unfold PushInstrumentationStackFrame.
  rewrite (ComputeNumFrames_linked env h) by (rewrite Hf, Hs; by apply linked_unstubbed).
  cbn [mbind outcome_bind]. rewrite Hf, Hs. destruct e; cbn [negb].
  - by rewrite app_nil_r.
  - by rewrite MethodEnterEvent_log1.
Qed.

(** The value the exit event reports, by the first letter of the shorty. *)
Definition result_of (m : ArtMethod) (gpr fpr : Z) : Z :=
  match am_shorty m with
  | String "V"%char _ => 0
  | String "F"%char _ | String "D"%char _ => fpr
  | _ => gpr
  end.

Definition returns_reference (m : ArtMethod) : bool :=
  match am_shorty m with String "L"%char _ => true | _ => false end.

(** Whether the caller has to go on in the interpreter. *)
Definition must_deoptimize (caller : Z) : bool :=
  negb (caller =? 0) &&
  (interpreter_stubs_installed_ i || IsDeoptimized i caller || env_forced_interpreter_for_upcall env caller).

Lemma shorty_value c gpr fpr s am :
  am_shorty am = String c s ->
  (if bool_decide (c = "V"%char) then 0
   else if bool_decide (c = "F"%char) || bool_decide (c = "D"%char) then fpr else gpr) = result_of am gpr fpr /\
  bool_decide (c = "L"%char) = returns_reference am.
Proof.
  intros H. unfold result_of, returns_reference. rewrite H.
  destruct c as [[] [] [] [] [] [] [] []]; done.
Qed.

Lemma Pop_ok c fs o m lr e t st (am : ArtMethod) ch rest gpr fpr log :
  th_frames t = QuickFrame c 0 0 :: fs ->
  th_istack t = mkISF o m lr (Z.of_nat (S (length fs))) e :: st ->
  lr <> env_exit_pc env -> linked env h 0 fs st -> frames_present h fs ->
  c <> 0 -> is_Some (h_methods h !! c) -> h_methods h !! m = Some am -> am_shorty am = String ch rest ->
  PopInstrumentationStackFrame env i h gpr fpr t log =
  let t' := set_frames (QuickFrame c lr 0 :: fs) (set_istack st t) in
  let rv := result_of am gpr fpr in
  let log' := log ++ if e then [] else exit_log (th_tid t) o m kDexNoIndex rv in
  Ok (if must_deoptimize (caller_of fs)
      then ((lr, env_deoptimization_entry env), set_deopt_value (Some (rv, returns_reference am)) t', log')
      else ((0, lr), t', log')).
Proof.
  intros Hf Hs Hlr Hl Hp Hc0 Hc Hm Hsh. cbn zeta. unfold PopInstrumentationStackFrame. rewrite Hs.
  cbn [return_pc_ isf_method_ interpreter_entry_ this_object_].
  assert (set_top_return_pc lr (set_istack st t) = set_frames (QuickFrame c lr 0 :: fs) (set_istack st t)) as ->.
  { unfold set_top_return_pc. cbn [set_istack th_frames]. by rewrite Hf. }
  set (t' := set_frames _ _).
  unfold CheckStackDepth. rewrite (ComputeNumFrames_linked env h) by (by apply linked_unstubbed).
  cbn [mbind outcome_bind th_frames t' set_frames frame_id_ length]. rewrite Z.add_0_r, Z.eqb_refl. cbn [check].
  unfold deref. rewrite Hm. cbn [mbind outcome_bind]. rewrite Hsh. cbn [mbind outcome_bind mret outcome_ret].
  destruct (shorty_value ch gpr fpr rest am Hsh) as [-> ->].
  rewrite (nth_caller_second i c lr 0 fs t') by done.
  destruct e.
  - cbn [mbind outcome_bind mret outcome_ret]. fold (must_deoptimize (caller_of fs)).
    rewrite app_nil_r. by destruct (must_deoptimize _).
  - rewrite MethodExitEvent_log. cbn [mbind outcome_bind mret outcome_ret].
    fold (must_deoptimize (caller_of fs)). by destruct (must_deoptimize _).
Qed.

End Log.
End Calls.

(** *** The exit events of a stack *)

Section ExitLog.
Context (env : RuntimeEnv) (h : Heap) (i : Instrumentation) (Hi : listeners_wf i).

(** One exit event per entry, from the top, at the pc its frame is at. *)
Fixpoint exited (tid : Z) (fs : list Frame) (st : list InstrumentationStackFrame) (pc : Z) : CallLog :=
  match fs with
  | [] => []
  | QuickFrame m rpc _ :: fs =>
      if rpc =? env_exit_pc env then
        match st with
        | fr :: st => exit_log i tid (this_object_ fr) m (env_to_dex_pc env m pc) 0 ++
                      exited tid fs st (return_pc_ fr)
        | [] => []
        end
      else exited tid fs st rpc
  | _ :: fs => exited tid fs st 0
  end.

Lemma exit_events_log tid fs : forall st pc (log : CallLog),
  exit_events env h i tid fs st pc log =
  Ok (log ++ if ShouldNotifyMethodEnterExitEvents i then exited tid fs st pc else []).
Proof.
  induction fs as [|[m rpc o|m dpc o|] fs IH]; intros st pc log; cbn [exit_events exited]; auto.
  - destruct (ShouldNotifyMethodEnterExitEvents i); by rewrite app_nil_r.
  - destruct (rpc =? env_exit_pc env); [|auto].
    destruct st as [|fr st]; [destruct (ShouldNotifyMethodEnterExitEvents i); by rewrite app_nil_r|].
    destruct (ShouldNotifyMethodEnterExitEvents i) eqn:E.
    + rewrite (MethodExitEvent_log h i Hi). cbn [mbind outcome_bind]. by rewrite IH, app_assoc.
    + cbn [mbind outcome_bind mret outcome_ret]. by rewrite IH.
Qed.

Lemma original_unstubbed fs : linked env h 0 fs [] -> original env fs [] = fs.
Proof.
  induction fs as [|[m pc o|m pc o|] fs IH]; intros H; cbn [original linked] in *; try done;
    try (f_equal; by apply IH).
  destruct (pc =? env_exit_pc env); [done|]. f_equal. by apply IH.
Qed.

End ExitLog.

(** *** Installing, seen by listeners that keep a log *)

Lemma install_stack_log env h i t (log : CallLog) :
  AreExitStubsInstalled i = true -> listeners_wf i -> thread_ok env h t ->
  exists t', InstrumentationInstallStack env i h t log =
      Ok (t', log ++ if ShouldNotifyMethodEnterExitEvents i
                     then logged i (rev (entered env h (th_tid t) false (th_frames t) (th_istack t) 0)) else []) /\
    thread_ok env h t' /\ covered env h (th_frames t') /\
    original env (th_frames t') (th_istack t') = original env (th_frames t) (th_istack t) /\
    exists fs st, t' = set_istack st (set_frames fs t).
Proof.
  intros Hs Hi Ht. destruct (InstallStack_ok env h i t log Hs Ht) as [Hl HI]. destruct Ht as [Hp Hlk Hc].
  eexists. split; [|split; [split|split; [|split]]].
  - rewrite HI. destruct (ShouldNotifyMethodEnterExitEvents i); [|by rewrite app_nil_r].
    rewrite enter_stack_is_left.
    rewrite <- (app_nil_r (rev (shadow_entries (th_frames t)))).
    by rewrite (enter_stack_log env h i (th_tid t) Hi).
  - by apply install_present.
  - exact Hl.
  - apply covered_closed, install_covered.
  - apply install_covered.
  - by apply install_original.
  - by eexists _, _.
Qed.

Lemma restore_stack_log env h i t (log : CallLog) :
  listeners_wf i -> linked env h 0 (th_frames t) (th_istack t) ->
  InstrumentationRestoreStack env i h t log =
  Ok (set_istack [] (set_frames (original env (th_frames t) (th_istack t)) t),
      log ++ if ShouldNotifyMethodEnterExitEvents i
             then exited env i (th_tid t) (th_frames t) (th_istack t) 0 else []).
Proof.
  intros Hi Hl. rewrite (RestoreStack_ok env h) by done.
  destruct (Nat.ltb_spec 0 (length (th_istack t))) as [Hlt|Hge].
  - by rewrite (exit_events_log env h i Hi).
  - assert (th_istack t = []) as E by (destruct (th_istack t); [done|cbn in Hge; lia]). rewrite E in *.
    cbn [mbind outcome_bind mret outcome_ret].
    assert (exited env i (th_tid t) (th_frames t) [] 0 = []) as ->.
    { generalize 0 at 1. revert Hl. generalize (th_frames t).
      induction l as [|[m pc o|m pc o|] fs IH]; intros H z; cbn [exited linked] in *; auto.
      destruct (pc =? env_exit_pc env); [done|auto]. }
    destruct (ShouldNotifyMethodEnterExitEvents i); by rewrite app_nil_r.
Qed.

(** *** Installing and removing, seen by any lawful listener *)

Section Lawful.
Context {L : Type} `{!ListenerOps L, !ListenerLaws L} (env : RuntimeEnv) (h : Heap) (i : Instrumentation).

(** The listener can be told of every method of the stack. *)
Definition frames_reportable (fs : list Frame) : Prop :=
  Forall (fun f => match f with Upcall => True | _ => reportable (frame_method f) end) fs.

Definition method_known (m : Z) : Prop := reportable m /\ is_Some (h_methods h !! m).

Lemma notify_total ls c (l : L) :
  (forall a l, listener_ok l -> exists l', call_listener a c h l = Ok l' /\ listener_ok l') ->
  listener_ok l -> exists l', notify ls c h l = Ok l' /\ listener_ok l'.
Proof.
  intros Hc. revert l. induction ls as [|a ls IH]; intros l Hl; cbn [notify]; [by eexists|].
  destruct (Hc a l Hl) as (l1 & -> & Hl1). by apply IH.
Qed.

Lemma enter_event_total tid o m pc (l : L) :
  method_known m -> listener_ok l -> exists l', MethodEnterEvent i h tid o m pc l = Ok l' /\ listener_ok l'.
Proof.
  intros [Hr Hm] Hl. unfold MethodEnterEvent. destruct (HasMethodEntryListeners i); [|by eexists].
  apply notify_total; [|done]. intros. by apply entered_total.
Qed.

Lemma exit_event_total tid o m pc rv (l : L) :
  method_known m -> listener_ok l -> exists l', MethodExitEvent i h tid o m pc rv l = Ok l' /\ listener_ok l'.
Proof.
  intros [Hr Hm] Hl. unfold MethodExitEvent. destruct (HasMethodExitListeners i); [|by eexists].
  apply notify_total; [|done]. intros. by apply exited_total.
Qed.

Lemma new_entries_known fs : forall st,
  linked env h 0 fs st -> frames_present h fs -> frames_reportable fs ->
  Forall (fun fr => interpreter_entry_ fr = false -> method_known (isf_method_ fr)) (new_entries env h fs st).
Proof.
  induction fs as [|[m pc o|m pc o|] fs IH]; intros st Hl Hp Hr; cbn [new_entries linked] in *; [done| | |];
    apply Forall_cons in Hp as [Hp Hps]; apply Forall_cons in Hr as [Hr Hrs]; cbn in Hp, Hr; [|auto..].
  destruct (pc =? env_exit_pc env).
  - destruct st as [|fr st]; [done|]. destruct Hl as (_ & Hk & _ & Hl). constructor; [|by apply IH].
    intros E. rewrite E in Hk. destruct Hk as [-> _]. by split.
  - destruct (is_runtime h m); [by apply IH|]. constructor; [|by apply IH]. intros _. by split.
Qed.

Lemma shadow_entries_known fs :
  frames_present h fs -> frames_reportable fs -> Forall (fun s => method_known (isf_method_ s)) (shadow_entries fs).
Proof.
  induction fs as [|[m pc o|m pc o|] fs IH]; intros Hp Hr; cbn [shadow_entries]; [done| | |];
    apply Forall_cons in Hp as [Hp Hps]; apply Forall_cons in Hr as [Hr Hrs]; cbn in Hp, Hr; auto.
  constructor; [by split|auto].
Qed.

Lemma enter_shadow_total tid ssi fid : forall l : L,
  Forall (fun s => method_known (isf_method_ s)) ssi -> listener_ok l ->
  exists ssi' l', enter_shadow i h tid ssi fid l = Ok (ssi', l') /\
    Forall (fun s => method_known (isf_method_ s)) ssi' /\ listener_ok l'.
Proof.
  induction ssi as [|s ssi IH]; intros l Hs Hl; cbn [enter_shadow]; [by eexists _, _|].
  destruct (frame_id_ s <? fid); [|by eexists _, _].
  apply Forall_cons in Hs as [Hs Hss].
  destruct (enter_event_total tid (this_object_ s) _ 0 l Hs Hl) as (l1 & -> & Hl1). by apply IH.
Qed.

Lemma enter_stack_total tid isi : forall pcs ssi (l : L),
  length pcs = length isi -> Forall (fun s => method_known (isf_method_ s)) ssi ->
  Forall (fun fr => interpreter_entry_ fr = false -> method_known (isf_method_ fr)) isi -> listener_ok l ->
  exists l', enter_stack i h tid isi pcs ssi l = Ok l' /\ listener_ok l'.
Proof.
  induction isi as [|fr isi IH]; intros pcs ssi l Hn Hs Hf Hl; cbn [enter_stack]; [by eexists|].
  apply Forall_cons in Hf as [Hf Hfs].
  destruct (enter_shadow_total tid ssi (frame_id_ fr) l Hs Hl) as (ssi' & l1 & -> & Hs' & Hl1).
  cbn [mbind outcome_bind]. destruct pcs as [|pc pcs]; [done|].
  destruct (interpreter_entry_ fr); cbn [mret outcome_ret].
  - apply IH; auto.
  - destruct (enter_event_total tid (this_object_ fr) _ pc l1 (Hf eq_refl) Hl1) as (l2 & -> & Hl2). apply IH; auto.
Qed.

Lemma exit_events_total tid fs : forall st pc (l : L),
  linked env h 0 fs st -> frames_present h fs -> frames_reportable fs -> listener_ok l ->
  exists l', exit_events env h i tid fs st pc l = Ok l' /\ listener_ok l'.
Proof.
  induction fs as [|[m rpc o|m rpc o|] fs IH]; intros st pc l Hk Hp Hr Hl; cbn [exit_events linked] in *;
    [by eexists| | |]; apply Forall_cons in Hp as [Hp Hps]; apply Forall_cons in Hr as [Hr Hrs]; cbn in Hp, Hr;
    [|by apply IH..].
  destruct (rpc =? env_exit_pc env); [|by apply IH]. destruct st as [|fr st]; [done|].
  destruct Hk as (_ & _ & _ & Hk). destruct (ShouldNotifyMethodEnterExitEvents i); [|by apply IH].
  destruct (exit_event_total tid (this_object_ fr) m (env_to_dex_pc env m pc) 0 l) as (l1 & -> & Hl1);
    [done..|]. by apply IH.
Qed.

Lemma install_stack_total t (l : L) :
  AreExitStubsInstalled i = true -> thread_ok env h t -> frames_reportable (th_frames t) -> listener_ok l ->
  exists t' l', InstrumentationInstallStack env i h t l = Ok (t', l') /\ listener_ok l' /\
    thread_ok env h t' /\ covered env h (th_frames t') /\
    original env (th_frames t') (th_istack t') = original env (th_frames t) (th_istack t) /\
    frames_reportable (th_frames t') /\ exists fs st, t' = set_istack st (set_frames fs t).
Proof.
  intros Hs Ht Hr Hl. destruct (InstallStack_ok env h i t l Hs Ht) as [Hlk HI]. pose proof Ht as [Hp Hlk0 Hc].
  set (t' := set_istack _ _) in *.
  assert (exists l', InstrumentationInstallStack env i h t l = Ok (t', l') /\ listener_ok l') as (l' & HI' & Hl').
  { rewrite HI. destruct (ShouldNotifyMethodEnterExitEvents i); [|by eexists].
    destruct (enter_stack_total (th_tid t) (rev (new_entries env h (th_frames t) (th_istack t)))
      (rev (entry_pcs env h (th_frames t) (th_istack t) 0)) (rev (shadow_entries (th_frames t))) l)
      as (l' & -> & Hl'); [| | |done|by eexists].
    - rewrite !length_rev. by apply new_entries_length.
    - apply Forall_rev. by apply shadow_entries_known.
    - apply Forall_rev. by apply new_entries_known. }
  exists t', l'. split; [done|]. split; [done|]. split_and!.
  - split; [by apply install_present|exact Hlk|apply covered_closed, install_covered].
  - apply install_covered.
  - by apply install_original.
  - apply Forall_fmap. eapply Forall_impl; [exact Hr|]. intros [m pc o|m pc o|]; cbn; try done.
    by destruct (is_runtime h m).
  - by eexists _, _.
Qed.

Lemma restore_stack_total t (l : L) :
  linked env h 0 (th_frames t) (th_istack t) -> frames_present h (th_frames t) ->
  frames_reportable (th_frames t) -> listener_ok l ->
  exists l', InstrumentationRestoreStack env i h t l =
    Ok (set_istack [] (set_frames (original env (th_frames t) (th_istack t)) t), l') /\ listener_ok l'.
Proof.
  intros Hk Hp Hr Hl. rewrite (RestoreStack_ok env h) by done.
  destruct (0 <? length (th_istack t))%nat; [|by eexists].
  destruct (exit_events_total (th_tid t) (th_frames t) (th_istack t) 0 l) as (l' & -> & Hl'); [done..|].
  by eexists.
Qed.

End Lawful.

Arguments frames_reportable L {_ _} fs.
Arguments method_known L {_ _} h m.

(** ** Results *)

(** C25. Installing exit stubs on a thread whose side stack agrees with its
    stack.  If below the topmost frame that has an exit stub all compiled frames
    have one, every check of the stack walk passes: afterwards every compiled
    frame returns through the exit stub, the side stack again has exactly one
    entry per stubbed frame, in descending order of frame ids and with the
    original return addresses, and if events are wanted the listeners have been
    told, from the outermost to the innermost, of the compiled methods and of the
    interpreted ones that have a compiled frame above them ([entered]; not of the
    interpreted ones on top).  If a compiled frame without exit stub lies below
    one with it, a check fails. *)
Theorem install_stack_ok env h i t (log : CallLog) :
  AreExitStubsInstalled i = true -> listeners_wf i ->
  frames_present h (th_frames t) -> linked env h 0 (th_frames t) (th_istack t) ->
  (closed_below env h (th_frames t) ->
   exists t', InstrumentationInstallStack env i h t log =
       Ok (t', log ++ if ShouldNotifyMethodEnterExitEvents i
                      then logged i (rev (entered env h (th_tid t) false (th_frames t) (th_istack t) 0)) else []) /\
     thread_ok env h t' /\ covered env h (th_frames t') /\
     original env (th_frames t') (th_istack t') = original env (th_frames t) (th_istack t) /\
     exists fs st, t' = set_istack st (set_frames fs t)) /\
  (~ closed_below env h (th_frames t) -> InstrumentationInstallStack env i h t log = Fault CheckFailed).
Proof.
  intros Hs Hi Hp Hl. split; [|by apply InstallStack_fault]. intros Hc. by apply install_stack_log.
Qed.

(** Removing the exit stubs undoes their installation: a thread that had
    none gets its stack and its empty side stack back, whatever the listeners
    and the instrumentation flags are at the removal; the listeners are told of
    the exit of each stubbed frame, from the top, if events are wanted. *)
Theorem install_restore_roundtrip env h i i' t (log : CallLog) :
  AreExitStubsInstalled i = true -> listeners_wf i -> listeners_wf i' ->
  thread_ok env h t -> th_istack t = [] ->
  exists t1 log1, InstrumentationInstallStack env i h t log = Ok (t1, log1) /\
    InstrumentationRestoreStack env i' h t1 log1 =
      Ok (t, log1 ++ if ShouldNotifyMethodEnterExitEvents i'
                     then exited env i' (th_tid t) (th_frames t1) (th_istack t1) 0 else []).
Proof.
  intros Hs Hi Hi' Ht He.
  destruct (install_stack_log env h i t log Hs Hi Ht) as (t1 & H1 & Ht1 & _ & Ho & fs & st & ->).
  eexists _, _. split; [exact H1|]. rewrite (restore_stack_log env h) by (done || apply Ht1).
  rewrite Ho, He, (original_unstubbed env h) by (destruct Ht; congruence).
  do 3 f_equal. destruct t; cbn in *. by subst.
Qed.


(** Restricting the stubs to traceable classes breaks the second
    installation: when a traced method was called through a compiled method
    without stubs that was itself called from a traced one, the walk finds a
    frame without exit stub below one with it and aborts on its check, although
    the side stack is consistent. *)
Theorem reinstall_aborts env h i m1 m2 m3 pc o r1 r3 tid (log : CallLog) :
  AreExitStubsInstalled i = true ->
  is_runtime h m1 = false -> is_runtime h m2 = false -> is_runtime h m3 = false ->
  is_Some (h_methods h !! m1) -> is_Some (h_methods h !! m2) -> is_Some (h_methods h !! m3) ->
  pc <> env_exit_pc env -> pc <> 0 -> r1 <> env_exit_pc env -> r3 <> env_exit_pc env ->
  let fs := [QuickFrame m1 (env_exit_pc env) o; QuickFrame m2 pc o; QuickFrame m3 (env_exit_pc env) o; Upcall] in
  let st := [mkISF o m1 r1 4 false; mkISF o m3 r3 2 false] in
  linked env h 0 fs st /\
  InstrumentationInstallStack env i h (mkThread tid fs st 0 false None) log = Fault CheckFailed.
Proof.
  intros Hs R1 R2 R3 P1 P2 P3 Hpc Hnz Hr1 Hr3. cbn zeta.
  assert (linked env h 0
    [QuickFrame m1 (env_exit_pc env) o; QuickFrame m2 pc o; QuickFrame m3 (env_exit_pc env) o; Upcall]
    [mkISF o m1 r1 4 false; mkISF o m3 r3 2 false]) as Hl.
  { cbn. rewrite Z.eqb_refl, (proj2 (Z.eqb_neq _ _) Hpc). cbn. repeat split; done. }
  split; [done|]. unfold InstrumentationInstallStack, WalkStack. rewrite Hs. cbn [th_frames th_istack].
  rewrite (walk_step env true (InstallVisitFrame env true h) [] (QuickFrame m1 (env_exit_pc env) o)
             (QuickFrame m1 (env_exit_pc env) o) _ 0 0 _
             (mkWalk [mkISF o m1 r1 4 false; mkISF o m3 r3 2 false] 0
                (mkInstallData [] [env_to_dex_pc env m1 0] true 1 r1)) r1 1%nat).
  - rewrite walk_fault with (e := CheckFailed); [done|].
    unfold InstallVisitFrame. rewrite bind_gets. cbn [wk_data]. rewrite bind_lift.
    rewrite (frame_is_runtime_ok h) by done. rewrite R2, (proj2 (Z.eqb_neq _ _) Hpc).
    unfold checkM. rewrite bind_lift, (proj2 (Z.eqb_neq _ _) Hnz). done.
  - unfold InstallVisitFrame. rewrite bind_gets. cbn [wk_data]. rewrite bind_lift.
    rewrite (frame_is_runtime_ok h) by done. rewrite R1, Z.eqb_refl, bind_gets. cbn [wk_stack lookup list_lookup].
    unfold checkM. rewrite bind_lift. cbn [isf_method_]. rewrite Z.eqb_refl. done.
  - cbn [wk_num_frames wk_stack leave_frame]. rewrite Z.eqb_refl. cbn.
    rewrite Z.eqb_refl. by destruct (m1 =? env_save_all_method env).
Qed.

(** The enter events that an installation makes up do not cover the whole
    stack: a thread that is in the interpreter only, with no compiled frame
    above, gets no event for any of the methods it is in. *)
Theorem interpreted_stack_not_reported env h i ms tid (log : CallLog) :
  AreExitStubsInstalled i = true -> listeners_wf i ->
  Forall (fun m => is_Some (h_methods h !! m)) ms ->
  let fs := ((fun m => ShadowFrame m 0 0) <$> ms) ++ [Upcall] in
  InstrumentationInstallStack env i h (mkThread tid fs [] 0 false None) log =
  Ok (mkThread tid fs [] 0 false None, log).
Proof.
  intros Hs Hi Hp. cbn zeta. set (fs := _ ++ [Upcall]).
  assert (new_entries env h fs [] = [] /\ install_frame env h <$> fs = fs /\ entry_pcs env h fs [] 0 = [])
    as (Hn & Hf & Hpc).
  { unfold fs. clear. induction ms as [|m ms (IH1 & IH2 & IH3)]; [done|].
    cbn in *. rewrite IH1, IH3. split_and!; [done| |done]. f_equal. exact IH2. }
  assert (thread_ok env h (mkThread tid fs [] 0 false None)) as Ht.
  { split; cbn [th_frames th_istack].
    - apply Forall_app. split; [|by repeat constructor]. apply Forall_fmap. exact Hp.
    - unfold fs. clear. by induction ms.
    - unfold fs. clear. by induction ms. }
  destruct (InstallStack_ok env h i _ log Hs Ht) as [_ HI]. rewrite HI. cbn [th_frames th_istack].
  rewrite Hn, Hf, Hpc. by destruct (ShouldNotifyMethodEnterExitEvents i).
Qed.

(** *** A thread in compiled and interpreted code *)

Definition runtime_method : ArtMethod :=
  mkArtMethod 0 0 0 kDexNoIndex "runtime" EmptyString "V" EmptyString artInterpreterToCompiledCodeBridge (CompiledCode 1).
Definition stack_heap : Heap :=
  set_methods (<[24 := runtime_method]> (<[32 := runtime_method]> (h_methods sample_heap))) sample_heap.

(** Compiled code called from the interpreter, which compiled code called. *)
Definition sample_thread : Thread_ :=
  mkThread 7 [QuickFrame 200 5100 0; QuickFrame 208 7100 4096; Upcall;
              ShadowFrame 216 3 4096; Upcall; QuickFrame 216 5300 4096; Upcall] [] 0 false None.

Definition sample_listening : Instrumentation := pushed 40 3 sample_stubs_on.

Lemma sample_listening_wf : listeners_wf sample_listening.
Proof. apply pushed_wf. by split. Qed.

Lemma sample_thread_ok : thread_ok sample_env stack_heap sample_thread.
Proof.
  split.
  - repeat (apply Forall_cons; split; [first [exact I | by eexists]|]). apply Forall_nil. exact I.
  - reflexivity.
  - cbn. repeat split; discriminate.
Qed.

Lemma install_stack_ok_witness :
  exists t', InstrumentationInstallStack sample_env sample_listening stack_heap sample_thread [] =
      Ok (t', [(40, MethodEntered 7 4096 216 0); (40, MethodEntered 7 4096 216 0);
               (40, MethodEntered 7 4096 208 5100); (40, MethodEntered 7 0 200 0)]) /\
    thread_ok sample_env stack_heap t' /\ covered sample_env stack_heap (th_frames t') /\
    original sample_env (th_frames t') (th_istack t') = th_frames sample_thread /\
    exists fs st, t' = set_istack st (set_frames fs sample_thread).
Proof.
  apply (install_stack_ok sample_env stack_heap sample_listening sample_thread []).
  - reflexivity.
  - apply sample_listening_wf.
  - apply sample_thread_ok.
  - apply sample_thread_ok.
  - apply sample_thread_ok.
Defined.

Lemma install_restore_roundtrip_witness :
  exists t1 log1,
    InstrumentationInstallStack sample_env sample_listening stack_heap sample_thread [] = Ok (t1, log1) /\
    InstrumentationRestoreStack sample_env sample_listening stack_heap t1 log1 =
      Ok (sample_thread, log1 ++ exited sample_env sample_listening 7 (th_frames t1) (th_istack t1) 0).
Proof.
  apply (install_restore_roundtrip sample_env stack_heap sample_listening sample_listening sample_thread []).
  - reflexivity.
  - apply sample_listening_wf.
  - apply sample_listening_wf.
  - apply sample_thread_ok.
  - reflexivity.
Defined.


Lemma reinstall_aborts_witness :
  InstrumentationInstallStack sample_env sample_listening stack_heap
    (mkThread 7 [QuickFrame 200 9999 0; QuickFrame 216 5300 0; QuickFrame 208 9999 0; Upcall]
       [mkISF 0 200 5250 4 false; mkISF 0 208 1 2 false] 0 false None) [] = Fault CheckFailed.
Proof.
  apply (reinstall_aborts sample_env stack_heap sample_listening 200 216 208 5300 0 5250 1 7 []);
    first [reflexivity | discriminate | by eexists].
Defined.

Lemma interpreted_stack_not_reported_witness :
  InstrumentationInstallStack sample_env sample_listening stack_heap
    (mkThread 7 [ShadowFrame 216 0 0; ShadowFrame 208 0 0; Upcall] [] 0 false None) [] =
  Ok (mkThread 7 [ShadowFrame 216 0 0; ShadowFrame 208 0 0; Upcall] [] 0 false None, []).
Proof.
  apply (interpreted_stack_not_reported sample_env stack_heap sample_listening [216; 208] 7 []).
  - reflexivity.
  - apply sample_listening_wf.
  - repeat (apply Forall_cons; split; [by eexists|]). apply Forall_nil. exact I.
Defined.
