(* ===== verification/InstrumentationControl.v ===== *)
(** * Instrumentation: levels, deoptimization and allocation stubs

    The operations of [instrumentation.cc] that clients call to switch
    instrumentation on and off.  They work on the whole runtime: the
    instrumentation object, the methods' code, the stacks of all threads and
    the state of the listeners.  All of them run with the other threads
    suspended. *)

From S2P Require Import Prelude ArtObjects Listener Instrumentation InstrumentationStack.

(** ** The runtime *)

Record RT (L : Type) := mkRT {
  rt_instr : Instrumentation;
  rt_code : CodeState;
  rt_threads : list Thread_;
  rt_listeners : L;
  rt_alloc_instrumented : bool;
}.
Arguments mkRT {L} _ _ _ _ _.
Arguments rt_instr {L} _.
Arguments rt_code {L} _.
Arguments rt_threads {L} _.
Arguments rt_listeners {L} _.
Arguments rt_alloc_instrumented {L} _.

Section Control.
Context {L : Type} `{!ListenerOps L} (env : RuntimeEnv).

Definition on_instr (f : Instrumentation -> Instrumentation) : M (RT L) unit :=
  modify (fun s => mkRT (f (rt_instr s)) (rt_code s) (rt_threads s) (rt_listeners s) (rt_alloc_instrumented s)).

(** Run an operation on the methods' code. *)
Definition on_code {A} (m : M CodeState A) : M (RT L) A := fun s =>
  match m (rt_code s) with
  | Ok (a, c) => Ok (a, mkRT (rt_instr s) c (rt_threads s) (rt_listeners s) (rt_alloc_instrumented s))
  | Fault f => Fault f
  end.

(** [ThreadList::ForEach]. *)
Fixpoint for_each (callback : Thread_ -> L -> outcome (Thread_ * L)) (ts : list Thread_) (l : L)
  : outcome (list Thread_ * L) :=
  match ts with
  | [] => mret ([], l)
  | t :: ts =>
      '(t, l) ← callback t l;
      '(ts, l) ← for_each callback ts l;
      mret (t :: ts, l)
  end.

Definition ForEach (callback : Thread_ -> L -> outcome (Thread_ * L)) : M (RT L) unit := fun s =>
  '(ts, l) ← for_each callback (rt_threads s) (rt_listeners s);
  mret (tt, mkRT (rt_instr s) (rt_code s) ts l (rt_alloc_instrumented s)).

Definition InstallAllStacks : M (RT L) unit :=
  i ← gets rt_instr;
  h ← gets (fun s => cs_heap (rt_code s));
  ForEach (InstrumentationInstallStack env i h).

Definition RestoreAllStacks : M (RT L) unit :=
  i ← gets rt_instr;
  h ← gets (fun s => cs_heap (rt_code s));
  ForEach (InstrumentationRestoreStack env i h).

Definition VisitAllClasses : M (RT L) unit :=
  i ← gets rt_instr;
  h ← gets (fun s => cs_heap (rt_code s));
  on_code (VisitClasses (h_class_table h) (h_pre_zygote_class_table h) (InstallStubsClassVisitor env i)).

(** ** Levels *)

Definition GetCurrentInstrumentationLevel (i : Instrumentation) : InstrumentationLevel :=
  if interpreter_stubs_installed_ i then kInstrumentWithInterpreter
  else if entry_exit_stubs_installed_ i then kInstrumentWithInstrumentationStubs
  else kInstrumentNothing.

(** The highest of the requested levels. *)
Definition highest_level (levels : gmap Z InstrumentationLevel) : InstrumentationLevel :=
  map_fold (fun _ l acc => level_max acc l) kInstrumentNothing levels.

Definition store_level (key : Z) (desired_level : InstrumentationLevel) (i : Instrumentation) : Instrumentation :=
  set_requested_instrumentation_levels
    (if bool_decide (desired_level = kInstrumentNothing) then delete key (requested_instrumentation_levels_ i)
     else <[key := desired_level]> (requested_instrumentation_levels_ i)) i.

Definition IsDeoptimizedMethodsEmpty (i : Instrumentation) : bool := bool_decide (deoptimized_methods_ i = ∅).

Definition ConfigureStubs (key : Z) (desired_level : InstrumentationLevel) : M (RT L) unit :=
  on_instr (store_level key desired_level) ;;
  i ← gets rt_instr;
  let requested_level := highest_level (requested_instrumentation_levels_ i) in
  on_instr (set_interpret_only
    (bool_decide (requested_level = kInstrumentWithInterpreter) || forced_interpret_only_ i)) ;;
  if bool_decide (requested_level = GetCurrentInstrumentationLevel i) then mret tt
  else if level_index kInstrumentNothing <? level_index requested_level then
    (if bool_decide (requested_level = kInstrumentWithInterpreter) then
       on_instr (set_interpreter_stubs_installed true) ;;
       on_instr (set_entry_exit_stubs_installed true)
     else
       checkM (bool_decide (requested_level = kInstrumentWithInstrumentationStubs)) ;;
       on_instr (set_entry_exit_stubs_installed true) ;;
       on_instr (set_interpreter_stubs_installed false)) ;;
    VisitAllClasses ;;
    on_instr (set_instrumentation_stubs_installed true) ;;
    InstallAllStacks
  else
    on_instr (set_interpreter_stubs_installed false) ;;
    on_instr (set_entry_exit_stubs_installed false) ;;
    VisitAllClasses ;;
    empty ← gets (fun s => IsDeoptimizedMethodsEmpty (rt_instr s));
    if (empty : bool) then
      on_instr (set_instrumentation_stubs_installed false) ;;
      RestoreAllStacks
    else mret tt.

(** [EnableMethodTracing]; its default for [needs_interpreter] is the
    platform's [kDeoptimizeForAccurateMethodEntryExitListeners]. *)
Definition EnableMethodTracing (key : Z) (needs_interpreter : bool) : M (RT L) unit :=
  ConfigureStubs key (if needs_interpreter then kInstrumentWithInterpreter
                      else kInstrumentWithInstrumentationStubs).

Definition DisableMethodTracing (key : Z) : M (RT L) unit := ConfigureStubs key kInstrumentNothing.

(** ** Deoptimization *)

Definition AddDeoptimizedMethod (method : Z) : M (RT L) bool :=
  i ← gets rt_instr;
  if IsDeoptimizedMethod i method then mret false
  else on_instr (set_deoptimized_methods ({[method]} ∪ deoptimized_methods_ i)) ;; mret true.

Definition RemoveDeoptimizedMethod (method : Z) : M (RT L) bool :=
  i ← gets rt_instr;
  if negb (IsDeoptimizedMethod i method) then mret false
  else on_instr (set_deoptimized_methods (deoptimized_methods_ i ∖ {[method]})) ;; mret true.

(** Some element of the set; the order of a hash set is not specified. *)
Definition BeginDeoptimizedMethod (i : Instrumentation) : Z :=
  match elements (deoptimized_methods_ i) with [] => 0 | method :: _ => method end.

Definition check_deoptimizable (method : Z) : M (RT L) ArtMethod :=
  m ← on_code (get_method method);
  h ← gets (fun s => cs_heap (rt_code s));
  checkM (negb (IsNative m)) ;;
  proxy ← lift (IsProxyMethod h m);
  checkM (negb proxy) ;;
  checkM (negb (IsAbstract m)) ;;
  mret m.

Definition Deoptimize (method : Z) : M (RT L) unit :=
  _ ← check_deoptimizable method;
  has_not_been_deoptimized ← AddDeoptimizedMethod method;
  checkM has_not_been_deoptimized ;;
  i ← gets rt_instr;
  if negb (interpreter_stubs_installed_ i) then
    on_code (UpdateEntrypoints env (IsForcedInterpretOnly i) method QuickInstrumentationEntryPoint) ;;
    on_instr (set_instrumentation_stubs_installed true) ;;
    InstallAllStacks
  else mret tt.

Definition Undeoptimize (method : Z) : M (RT L) unit :=
  m ← check_deoptimizable method;
  found_and_erased ← RemoveDeoptimizedMethod method;
  checkM found_and_erased ;;
  i ← gets rt_instr;
  if negb (interpreter_stubs_installed_ i) then
    h ← gets (fun s => cs_heap (rt_code s));
    k ← lift (GetDeclaringClass h m);
    quick_code ← (if IsStatic m && negb (IsConstructor m) && negb (IsInitialized k)
                  then mret QuickResolutionStub else on_code (GetQuickOatCodeFor env method));
    on_code (UpdateEntrypoints env (IsForcedInterpretOnly i) method quick_code) ;;
    if IsDeoptimizedMethodsEmpty i then
      RestoreAllStacks ;;
      on_instr (set_instrumentation_stubs_installed false)
    else mret tt
  else mret tt.

Definition EnableDeoptimization : M (RT L) unit :=
  i ← gets rt_instr;
  checkM (IsDeoptimizedMethodsEmpty i) ;;
  checkM (negb (deoptimization_enabled_ i)) ;;
  on_instr (set_deoptimization_enabled true).

Definition DeoptimizeEverything (key : Z) : M (RT L) unit :=
  i ← gets rt_instr;
  checkM (deoptimization_enabled_ i) ;;
  ConfigureStubs key kInstrumentWithInterpreter.

Definition UndeoptimizeEverything (key : Z) : M (RT L) unit :=
  i ← gets rt_instr;
  checkM (interpreter_stubs_installed_ i) ;;
  checkM (deoptimization_enabled_ i) ;;
  ConfigureStubs key kInstrumentNothing.

(** The loop of [DisableDeoptimization]; one round per deoptimized method. *)
Fixpoint undeoptimize_all (fuel : nat) : M (RT L) unit :=
  i ← gets rt_instr;
  if IsDeoptimizedMethodsEmpty i then mret tt
  else
    match fuel with
    | O => lift (Fault OutOfFuel)
    | S fuel =>
        let method := BeginDeoptimizedMethod i in
        checkM (negb (method =? 0)) ;;
        Undeoptimize method ;;
        undeoptimize_all fuel
    end.

Definition DisableDeoptimization (key : Z) : M (RT L) unit :=
  i ← gets rt_instr;
  checkM (deoptimization_enabled_ i) ;;
  whenM (interpreter_stubs_installed_ i) (UndeoptimizeEverything key) ;;
  n ← gets (fun s => size (deoptimized_methods_ (rt_instr s)));
  undeoptimize_all n ;;
  on_instr (set_deoptimization_enabled false).

(** ** Allocation entry points *)

Definition ResetQuickAllocEntryPoints : M (RT L) unit :=
  if env_is_started env then
    b ← gets rt_alloc_instrumented;
    ForEach (fun t l => mret (set_alloc_instrumented b t, l))
  else mret tt.

Definition SetEntrypointsInstrumented (instrumented : bool) : M (RT L) unit :=
  modify (fun s => mkRT (rt_instr s) (rt_code s) (rt_threads s) (rt_listeners s) instrumented) ;;
  ResetQuickAllocEntryPoints.

Definition InstrumentQuickAllocEntryPointsLocked : M (RT L) unit :=
  i ← gets rt_instr;
  whenM (alloc_counter_ i =? 0) (SetEntrypointsInstrumented true) ;;
  on_instr (fun i => set_alloc_counter (u64 (alloc_counter_ i + 1)) i).

Definition UninstrumentQuickAllocEntryPointsLocked : M (RT L) unit :=
  i ← gets rt_instr;
  checkM (0 <? alloc_counter_ i) ;;
  on_instr (fun i => set_alloc_counter (alloc_counter_ i - 1) i) ;;
  i ← gets rt_instr;
  whenM (alloc_counter_ i =? 0) (SetEntrypointsInstrumented false).

End Control.

(** ** Heaps that differ in the methods' code *)

(** A method with other entry points. *)
Definition recoded (m m' : ArtMethod) : Prop :=
  exists e c, m' = method_set_interpreter e (method_set_quick c m).

Lemma recoded_refl m : recoded m m.
Proof. exists (am_entry_interpreter m), (am_entry_quick m). by destruct m. Qed.

Lemma recoded_trans m1 m2 m3 : recoded m1 m2 -> recoded m2 m3 -> recoded m1 m3.
Proof. intros (e1 & c1 & ->) (e2 & c2 & ->). by exists e2, c2. Qed.

Lemma recoded_fields m m' : recoded m m' ->
  am_declaring_class m' = am_declaring_class m /\ am_access_flags m' = am_access_flags m /\
  am_dex_method_index m' = am_dex_method_index m.
Proof. by intros (e & c & ->). Qed.

Lemma with_code_recoded env f p c m : recoded m (with_code env f p c m).
Proof.
  unfold with_code. destruct (_ =? _); [|by eexists _, _].
  exists (am_entry_interpreter m), c. done.
Qed.

Definition code_change (h h' : Heap) : Prop :=
  (exists ms, h' = set_methods ms h) /\
  forall q, option_Forall2 recoded (h_methods h !! q) (h_methods h' !! q).

#[global] Instance code_change_refl : Reflexive code_change.
Proof.
  intros h. split; [exists (h_methods h); by destruct h|].
  intros q. destruct (h_methods h !! q); constructor. apply recoded_refl.
Qed.

#[global] Instance code_change_trans : Transitive code_change.
Proof.
  intros h1 h2 h3 [[ms1 ->] H1] [[ms2 ->] H2]. split; [by exists ms2|].
  intros q. specialize (H1 q). specialize (H2 q). cbn in *.
  destruct H1; inversion H2; subst; constructor. by eapply recoded_trans.
Qed.

Lemma code_change_insert h p m m' :
  h_methods h !! p = Some m -> recoded m m' -> code_change h (set_methods (<[p := m']> (h_methods h)) h).
Proof.
  intros Hp Hr. split; [by eexists|]. intros q. cbn. destruct (decide (p = q)) as [<-|Hne].
  - rewrite Hp, lookup_insert_eq. by constructor.
  - rewrite lookup_insert_ne by done. destruct (h_methods h !! q); constructor. apply recoded_refl.
Qed.

Lemma code_change_method h h' p m :
  code_change h h' -> h_methods h !! p = Some m -> exists m', h_methods h' !! p = Some m' /\ recoded m m'.
Proof.
  intros [_ Hq] Hm. specialize (Hq p). rewrite Hm in Hq. inversion Hq; subst. by eexists.
Qed.

Lemma code_change_classes h h' : code_change h h' -> h_classes h' = h_classes h.
Proof. by intros [[ms ->] _]. Qed.

Lemma code_change_present h h' ps : code_change h h' -> methods_present h ps -> methods_present h' ps.
Proof.
  intros Hc Hp p Hin. destruct (Hp p Hin) as (m & k & Hm & Hk).
  destruct (code_change_method _ _ _ _ Hc Hm) as (m' & Hm' & Hr). exists m', k. split; [done|].
  rewrite (code_change_classes _ _ Hc). by rewrite (proj1 (recoded_fields _ _ Hr)).
Qed.

Lemma code_change_traced h h' :
  code_change h h' -> (forall k, traced_methods_of h' k = traced_methods_of h k) /\ traced_methods h' = traced_methods h.
Proof. by intros [[ms ->] _]. Qed.

Lemma code_change_table h h' : code_change h h' -> class_table_wf h -> class_table_wf h'.
Proof.
  intros Hc Hwf k Hk. destruct (Hwf k) as [H1 H2]; [by destruct Hc as [[ms ->] _]|].
  rewrite (code_change_classes _ _ Hc), (proj1 (code_change_traced _ _ Hc)). split; [done|].
  by eapply code_change_present.
Qed.

Lemma code_change_runtime h h' m : code_change h h' -> is_runtime h' m = is_runtime h m.
Proof.
  intros [_ Hq]. specialize (Hq m). unfold is_runtime. destruct Hq as [m1 m2 Hr|]; [|done].
  unfold IsRuntimeMethod. by rewrite (proj2 (proj2 (recoded_fields _ _ Hr))).
Qed.

(** Stacks stay consistent under a change of code. *)
Lemma code_change_linked env h h' b fs : forall st,
  code_change h h' -> linked env h b fs st -> linked env h' b fs st.
Proof.
  induction fs as [|[m pc o|m pc o|] fs IH]; intros st Hc H; cbn [linked] in *; auto.
  destruct (pc =? env_exit_pc env); [|auto]. destruct st as [|fr st]; [done|].
  rewrite (code_change_runtime _ _ _ Hc). destruct H as (? & ? & ? & ?). auto.
Qed.

Lemma code_change_covered env h h' fs : code_change h h' -> covered env h fs -> covered env h' fs.
Proof.
  intros Hc. induction fs as [|[m pc o|m pc o|] fs IH]; cbn [covered]; auto.
  rewrite (code_change_runtime _ _ _ Hc). naive_solver.
Qed.

Lemma code_change_closed env h h' fs : code_change h h' -> closed_below env h fs -> closed_below env h' fs.
Proof.
  intros Hc. induction fs as [|[m pc o|m pc o|] fs IH]; cbn [closed_below]; auto.
  rewrite (code_change_runtime _ _ _ Hc). destruct (is_runtime h m); [auto|].
  destruct (pc =? _); [by apply code_change_covered|]. naive_solver.
Qed.

Lemma code_change_frames h h' fs : code_change h h' -> frames_present h fs -> frames_present h' fs.
Proof.
  intros [_ Hq] Hfs. eapply Forall_impl; [exact Hfs|]. intros f Hf. destruct f as [m pc o|m pc o|]; [..|done];
    cbn in *; specialize (Hq m); destruct Hq; try done; by destruct Hf.
Qed.

Lemma code_change_thread env h h' t : code_change h h' -> thread_ok env h t -> thread_ok env h' t.
Proof.
  intros Hc [H1 H2 H3]. split;
    [by eapply code_change_frames | by eapply code_change_linked | by eapply code_change_closed].
Qed.

(** ** The walk over the classes, for any flags *)

Section AnyWalk.
Context (env : RuntimeEnv).

(** The code the class linker has for a method. *)
Definition oat_view (jit : option JitCodeCache) (p : Z) (m : ArtMethod) : QuickCode :=
  match env_oat_code env p with
  | Some code => CompiledCode code
  | None =>
      match jit ≫= (fun c => jit_GetCodeFor c p m) with
      | Some code => code
      | None => if IsNative m then QuickGenericJniStub else QuickToInterpreterBridge
      end
  end.

(** The code [InstallStubsForMethod] gives a method. *)
Definition method_code (i : Instrumentation) (jit : option JitCodeCache) (p : Z) (k : Class_) (m : ArtMethod)
  : QuickCode :=
  if (interpreter_stubs_installed_ i || forced_interpret_only_ i || IsDeoptimized i p) && negb (IsNative m)
  then QuickToInterpreterBridge
  else if IsInitialized k || negb (IsStatic m) || IsConstructor m
  then if entry_exit_stubs_installed_ i then QuickInstrumentationEntryPoint else oat_view jit p m
  else QuickResolutionStub.

Lemma InstallStubsForMethod_any i p h jit m k :
  h_methods h !! p = Some m -> h_classes h !! am_declaring_class m = Some k ->
  InstallStubsForMethod env i p (mkCodeState h jit) =
  Ok (tt, if stubbable k m
          then mkCodeState (set_methods (<[p := with_code env (forced_interpret_only_ i) p (method_code i jit p k m) m]>
                                           (h_methods h)) h) (jit_saved p m jit)
          else mkCodeState h jit).
Proof.
  intros Hm Hk. unfold InstallStubsForMethod, stubbable.
  rewrite (get_method_bind _ _ _ _ _ Hm), bind_gets. cbn [cs_heap].
  destruct (IsAbstract m) eqn:Ha; cbn [negb andb]; [done|].
  rewrite bind_lift. unfold IsProxyMethod, GetDeclaringClass, deref. rewrite Hk.
  cbn [mbind outcome_bind mret outcome_ret].
  destruct (IsProxyClass k) eqn:Hp; cbn [negb andb]; [done|].
  rewrite bind_lift. destruct (IsConstructor m && bool_decide _) eqn:Hc; cbn [negb andb]; [done|].
  assert (GetQuickOatCodeFor env p (mkCodeState h jit) = Ok (oat_view jit p m, mkCodeState h jit)) as Hoat
    by (by apply (GetQuickOatCodeFor_ok env p h jit m k)).
  pose proof (fun c => UpdateEntrypoints_ok env (forced_interpret_only_ i) p c h jit m k Hm Hk Hp) as HU.
  unfold method_code, IsForcedInterpretOnly.
  destruct (entry_exit_stubs_installed_ i), (interpreter_stubs_installed_ i); cbn [negb andb orb];
    destruct (forced_interpret_only_ i || IsDeoptimized i p), (IsNative m); cbn [negb andb orb];
    rewrite ?bind_ret, ?HU; try done;
    destruct (IsInitialized k || _ || _); rewrite ?bind_ret, ?(bind_ok _ _ _ _ _ Hoat), ?HU; done.
Qed.

(** A property of the code state that every visit of a method keeps is kept by
    the walk, which does not fault; and what the visit of a method achieves for
    it, and no other visit undoes, holds for all traced methods at the end. *)
Lemma class_walk_keeps i (P : CodeState -> Prop) (Q : Z -> CodeState -> Prop) h0 :
  class_table_wf h0 ->
  (forall s, P s -> code_change h0 (cs_heap s)) ->
  (forall p s, p ∈ traced_methods h0 -> P s -> exists s', InstallStubsForMethod env i p s = Ok (tt, s') /\ P s' /\
     Q p s' /\ forall q, Q q s -> Q q s') ->
  forall s, P s -> exists s',
    VisitClasses (h_class_table h0) (h_pre_zygote_class_table h0) (InstallStubsClassVisitor env i) s = Ok (tt, s') /\
    P s' /\ forall p, p ∈ traced_methods h0 -> Q p s'.
Proof.
  intros Hwf HP Hstep.
  assert (forall ps s, (forall p, p ∈ ps -> p ∈ traced_methods h0) -> P s ->
    exists s', forM ps (InstallStubsForMethod env i) s = Ok (tt, s') /\ P s' /\
      forall q, q ∈ ps \/ Q q s -> Q q s') as Hms.
  { induction ps as [|p ps IH]; intros s Hin Hs; cbn [forM]; [exists s; set_solver|].
    destruct (Hstep p s) as (s1 & H1 & Hs1 & Hq1 & Hk1); [apply Hin; set_solver|done|].
    destruct (IH s1) as (s2 & H2 & Hs2 & Hq2); [set_solver|done|].
    exists s2. rewrite (bind_ok _ _ _ _ _ H1). split; [done|]. split; [done|].
    intros q [[->|Hq]%elem_of_cons|Hq]; auto. }
  assert (forall table s, (forall k, k ∈ table -> k ∈ h_class_table h0 ++ h_pre_zygote_class_table h0) -> P s ->
    exists s', visit_table table (InstallStubsClassVisitor env i) s = Ok (true, s') /\ P s' /\
      forall q, (exists k, k ∈ table /\ q ∈ traced_methods_of h0 k) \/ Q q s -> Q q s') as Hts.
  { induction table as [|k table IH]; intros s Hin Hs; cbn [visit_table]; [exists s; set_solver|].
    assert (exists s1, InstallStubsClassVisitor env i k s = Ok (true, s1) /\ P s1 /\
      forall q, q ∈ traced_methods_of h0 k \/ Q q s -> Q q s1) as (s1 & H1 & Hs1 & Hq1).
    { destruct (Hwf k) as [[kc Hk] _]; [apply Hin; set_solver|].
      unfold InstallStubsClassVisitor, InstallStubsForClass. rewrite bind_assoc, bind_gets, bind_assoc, bind_lift.
      unfold deref. rewrite (code_change_classes _ _ (HP s Hs)), Hk.
      assert (forall p, p ∈ traced_methods_of h0 k -> p ∈ traced_methods h0) as Hsub.
      { intros p Hp. unfold traced_methods. apply list_elem_of_In, in_concat. exists (traced_methods_of h0 k).
        split; [|by apply list_elem_of_In]. apply list_elem_of_In, list_elem_of_fmap. exists k.
        split; [done|]. apply Hin. set_solver. }
      unfold traced_methods_of in *. rewrite Hk in *.
      destruct (IsErroneous kc); cbn [negb andb] in *; [exists s; set_solver|].
      destruct (IsResolved kc); cbn [negb andb] in *; [|exists s; set_solver].
      destruct (class_IsMiniTraceable kc); cbn [negb andb] in *; [|exists s; set_solver].
      destruct (Hms (mc_direct_methods kc) s) as (s1 & H1 & Hs1 & Hq1); [set_solver|done|].
      destruct (Hms (mc_virtual_methods kc) s1) as (s2 & H2 & Hs2 & Hq2); [set_solver|done|].
      exists s2. rewrite bind_assoc, (bind_ok _ _ _ _ _ H1), (bind_ok _ _ _ _ _ H2).
      split; [done|]. split; [done|]. intros q [[Hq|Hq]%elem_of_app|Hq]; auto. }
    destruct (IH s1) as (s2 & H2 & Hs2 & Hq2); [set_solver|done|].
    exists s2. rewrite (bind_ok _ _ _ _ _ H1). cbn [negb]. split; [done|]. split; [done|].
    intros q [(k' & [->|Hk']%elem_of_cons & Hq)|Hq]; [apply Hq2; auto|apply Hq2; left; by exists k'|auto]. }
  intros s Hs. unfold VisitClasses.
  destruct (Hts (h_class_table h0) s) as (s1 & H1 & Hs1 & Hq1); [set_solver|done|].
  destruct (Hts (h_pre_zygote_class_table h0) s1) as (s2 & H2 & Hs2 & Hq2); [set_solver|done|].
  exists s2. rewrite (bind_ok _ _ _ _ _ H1). cbn [negb]. rewrite (bind_ok _ _ _ _ _ H2).
  split; [done|]. split; [done|]. intros p Hp. unfold traced_methods in Hp.
  apply list_elem_of_In, in_concat in Hp as (l & Hl & Hp). apply list_elem_of_In in Hp.
  apply list_elem_of_In, list_elem_of_fmap in Hl as (k & -> & [Hk|Hk]%elem_of_app).
  - apply Hq2. right. apply Hq1. left. by exists k.
  - apply Hq2. left. by exists k.
Qed.

(** *** The code the walk leaves *)

(** A method after the walk, when it is visited at all: with the code the flags
    ask for, and without change when it never gets a stub. *)
Definition coded (i : Instrumentation) (jit : option JitCodeCache) (classes : gmap Z Class_) (p : Z) (m : ArtMethod)
  : ArtMethod :=
  match classes !! am_declaring_class m with
  | Some k => if stubbable k m then with_code env (forced_interpret_only_ i) p (method_code i jit p k m) m else m
  | None => m
  end.

(** The methods after the walk: those of the resolved traceable classes have
    the code the flags of [i] ask for, all others are as before. *)
Definition walked (i : Instrumentation) (h : Heap) (jit : option JitCodeCache) (h' : Heap) : Prop :=
  forall q, h_methods h' !! q =
    if decide (q ∈ traced_methods h) then coded i jit (h_classes h) q <$> h_methods h !! q else h_methods h !! q.

Lemma saved_contains p code c x : ContainsCodePtr (SaveCompiledCode p code c) x = ContainsCodePtr c x.
Proof. unfold SaveCompiledCode. by destruct (method_code_map_ c !! p). Qed.

(** Saving another method's code does not matter. *)
Lemma method_code_other i jit p q k m mq : p <> q -> method_code i (jit_saved q mq jit) p k m = method_code i jit p k m.
Proof.
  intros Hne. unfold method_code. destruct (_ && _); [done|]. destruct (_ || _ || _); [|done].
  destruct (entry_exit_stubs_installed_ i); [done|]. unfold oat_view. destruct (env_oat_code env p); [done|].
  destruct jit as [c|]; [|done]. cbn [jit_saved mbind option_bind]. destruct (ContainsCodePtr c (am_entry_quick mq)); [|done].
  unfold jit_GetCodeFor. rewrite saved_contains. unfold SaveCompiledCode.
  destruct (method_code_map_ c !! q); [done|]. cbn [method_code_map_]. by rewrite lookup_insert_ne.
Qed.

Lemma with_code_fields f p code m :
  am_entry_quick (with_code env f p code m) = code /\ IsNative (with_code env f p code m) = IsNative m /\
  IsStatic (with_code env f p code m) = IsStatic m /\ IsConstructor (with_code env f p code m) = IsConstructor m /\
  am_declaring_class (with_code env f p code m) = am_declaring_class m /\
  forall k, stubbable k (with_code env f p code m) = stubbable k m.
Proof. unfold with_code. by destruct (_ =? _). Qed.

(** Visiting a method again gives it the same code. *)
Lemma oat_view_again jit p m m' :
  am_entry_quick m' = oat_view jit p m -> IsNative m' = IsNative m -> oat_view (jit_saved p m jit) p m' = oat_view jit p m.
Proof.
  intros Hq Hn. unfold oat_view in *. destruct (env_oat_code env p); [done|]. rewrite Hn.
  destruct jit as [c|]; [|done]. cbn [jit_saved mbind option_bind] in *. unfold jit_GetCodeFor in *.
  destruct (ContainsCodePtr c (am_entry_quick m)) eqn:E.
  - by rewrite saved_contains, Hq, E.
  - destruct (ContainsCodePtr c (am_entry_quick m')) eqn:E'; [|done]. by rewrite Hq.
Qed.

Lemma method_code_again i jit f p k m :
  method_code i (jit_saved p m jit) p k (with_code env f p (method_code i jit p k m) m) = method_code i jit p k m.
Proof.
  set (C := method_code i jit p k m). destruct (with_code_fields f p C m) as (Hq & Hn & Hs & Hc & _).
  unfold method_code at 1. rewrite Hn, Hs, Hc.
  assert (C = method_code i jit p k m) as HC by done. clearbody C. unfold method_code in HC.
  destruct (_ && _); [done|]. destruct (_ || _ || _); [|done]. destruct (entry_exit_stubs_installed_ i); [done|].
  subst C. by apply oat_view_again.
Qed.

Lemma with_code_twice f p code c0 m : with_code env f p code (with_code env f p c0 m) = with_code env f p code m.
Proof. unfold with_code. by destruct (_ =? _). Qed.

(** During the walk from [h] a method is as it was or has its code already, and
    is still due the same code. *)
Record due (i : Instrumentation) (h : Heap) (jit : option JitCodeCache) (s : CodeState) (q : Z) (m0 m : ArtMethod) : Prop := {
  du_now : h_methods (cs_heap s) !! q = Some m;
  du_kept : m = m0 \/ (q ∈ traced_methods h /\ m = coded i jit (h_classes h) q m0);
  du_code : forall k, h_classes h !! am_declaring_class m0 = Some k ->
    method_code i (cs_jit s) q k m = method_code i jit q k m0;
}.

Record walking (i : Instrumentation) (h : Heap) (jit : option JitCodeCache) (s : CodeState) : Prop := {
  wg_heap : code_change h (cs_heap s);
  wg_due : forall q m0, h_methods h !! q = Some m0 -> exists m, due i h jit s q m0 m;
}.

Lemma coded_again i jit classes p m k :
  classes !! am_declaring_class m = Some k ->
  forall m1, m1 = m \/ m1 = coded i jit classes p m -> stubbable k m1 = stubbable k m /\ am_declaring_class m1 = am_declaring_class m /\
    (stubbable k m = true -> with_code env (forced_interpret_only_ i) p (method_code i jit p k m) m1 = coded i jit classes p m) /\
    (stubbable k m = false -> m1 = m).
Proof.
  intros Hk m1. unfold coded. rewrite Hk. destruct (stubbable k m) eqn:E; intros [->| ->]; try (by rewrite ?E).
  destruct (with_code_fields (forced_interpret_only_ i) p (method_code i jit p k m) m) as (_ & _ & _ & _ & -> & ->).
  by rewrite with_code_twice.
Qed.

Lemma class_of_traced h p : class_table_wf h -> p ∈ traced_methods h ->
  exists m k, h_methods h !! p = Some m /\ h_classes h !! am_declaring_class m = Some k.
Proof.
  intros Hwf Hp. unfold traced_methods in Hp.
  apply list_elem_of_In, in_concat in Hp as (l & Hl & Hp). apply list_elem_of_In in Hp.
  apply list_elem_of_In, list_elem_of_fmap in Hl as (k & -> & Hk). by apply (Hwf k Hk).
Qed.

Lemma walking_visit i h jit p s :
  class_table_wf h -> p ∈ traced_methods h -> walking i h jit s ->
  exists s', InstallStubsForMethod env i p s = Ok (tt, s') /\ walking i h jit s' /\
    (h_methods (cs_heap s') !! p = coded i jit (h_classes h) p <$> h_methods h !! p) /\
    forall q, q <> p -> h_methods (cs_heap s') !! q = h_methods (cs_heap s) !! q.
Proof.
  intros Hwf Hp [Hc Hd]. destruct s as [h1 jit1]. cbn [cs_heap cs_jit] in *.
  destruct (class_of_traced h p Hwf Hp) as (m0 & k & Hm0 & Hk0).
  destruct (Hd p m0 Hm0) as [m [Hm Hkept Hcode]]. cbn [cs_heap cs_jit] in *. specialize (Hcode k Hk0).
  destruct (coded_again i jit (h_classes h) p m0 k Hk0 m) as (Hs & Hdc & Hyes & Hno); [tauto|].
  rewrite (InstallStubsForMethod_any i p h1 jit1 m k Hm) by (by rewrite (code_change_classes _ _ Hc), Hdc).
  rewrite Hs, Hcode, Hm0. cbn [fmap option_fmap option_map]. destruct (stubbable k m0) eqn:E.
  - rewrite (Hyes eq_refl). eexists. split; [done|]. cbn [cs_heap set_methods h_methods]. split; [split|].
    + etrans; [exact Hc|]. cbn [cs_heap]. eapply code_change_insert; [done|]. rewrite <- (Hyes eq_refl). apply with_code_recoded.
    + intros q mq Hq. cbn [cs_heap]. destruct (decide (q = p)) as [->|Hne].
      * rewrite Hm0 in Hq. injection Hq as <-. eexists. split; cbn [cs_heap cs_jit set_methods h_methods]; [by rewrite lookup_insert_eq|by right|].
        intros k' Hk'. rewrite Hk0 in Hk'. injection Hk' as <-. rewrite <- (Hyes eq_refl), <- Hcode. apply method_code_again.
      * destruct (Hd q mq Hq) as [m2 [H1 H2 H3]]. exists m2. split; cbn [cs_heap cs_jit set_methods h_methods] in *;
          [by rewrite lookup_insert_ne|done|]. intros k' Hk'. rewrite method_code_other by done. by apply H3.
    + split; [by rewrite lookup_insert_eq|]. intros q Hne. by rewrite lookup_insert_ne.
  - eexists. split; [done|]. split; [by split|]. split; [|done]. cbn [cs_heap]. rewrite Hm, (Hno eq_refl). unfold coded. by rewrite Hk0, E.
Qed.

(** The walk over the classes never faults, changes code only, and leaves the
    code its flags ask for. *)
Lemma walk_total i h jit :
  class_table_wf h -> exists h' jit',
    VisitClasses (h_class_table h) (h_pre_zygote_class_table h) (InstallStubsClassVisitor env i) (mkCodeState h jit)
      = Ok (tt, mkCodeState h' jit') /\ code_change h h' /\ walked i h jit h'.
Proof.
  intros Hwf.
  set (Q := fun p s => h_methods (cs_heap s) !! p = coded i jit (h_classes h) p <$> h_methods h !! p).
  destruct (class_walk_keeps i (fun s => walking i h jit s /\ forall q, q ∉ traced_methods h -> h_methods (cs_heap s) !! q = h_methods h !! q)
              Q h Hwf) with (s := mkCodeState h jit) as ([h' jit'] & HV & [[Hc Hd] Hout] & HQ).
  - intros s [[]]. done.
  - intros p s Hp [Hw Hout]. destruct (walking_visit i h jit p s Hwf Hp Hw) as (s' & H1 & H2 & H3 & H4).
    exists s'. split; [done|]. split; [split; [done|]|split; [done|]].
    + intros q Hq. rewrite H4 by (by intros ->). auto.
    + intros q Hq. destruct (decide (q = p)) as [->|Hne]; [done|]. unfold Q in *. by rewrite H4.
  - split; [|done]. split; [done|]. intros q m0 Hm0. exists m0. by split; [|left|].
  - exists h', jit'. split; [done|]. split; [done|]. intros q. destruct (decide _) as [Hq|Hq]; [by apply HQ|by apply Hout].
Qed.

(** *** Code that survives the stubs *)

(** [e0] is the code of a method: what the class linker finds for it now,
    what its entry point holds unless a stub is there, and what the JIT has
    saved for it if anything. *)
Record settled (jit : option JitCodeCache) (p : Z) (e0 : QuickCode) (m : ArtMethod) : Prop := {
  se_entry : am_entry_quick m = e0 \/ forall a, am_entry_quick m <> CompiledCode a;
  se_saved : forall c, jit = Some c -> method_code_map_ c !! p = None \/ method_code_map_ c !! p = Some e0;
  se_view : oat_view jit p m = e0;
}.

Lemma not_compiled_outside c code : (forall a, code <> CompiledCode a) -> ContainsCodePtr c code = false.
Proof. intros H. destruct code; try done. by destruct (H addr). Qed.

Lemma SaveCompiledCode_other p q code c :
  p <> q -> method_code_map_ (SaveCompiledCode q code c) !! p = method_code_map_ c !! p /\
  code_cache_begin_ (SaveCompiledCode q code c) = code_cache_begin_ c /\
  code_cache_end_ (SaveCompiledCode q code c) = code_cache_end_ c.
Proof.
  intros Hne. unfold SaveCompiledCode. destruct (method_code_map_ c !! q); [done|]. cbn.
  by rewrite lookup_insert_ne.
Qed.

(** A stub in another method does not matter. *)
Lemma settled_other jit p q e0 m mq :
  p <> q -> settled jit p e0 m -> settled (jit_saved q mq jit) p e0 m.
Proof.
  intros Hne [H1 H2 H3]. destruct jit as [c|]; [|done]. cbn [jit_saved].
  destruct (ContainsCodePtr c (am_entry_quick mq)); [|done].
  destruct (SaveCompiledCode_other p q (am_entry_quick mq) c Hne) as (Hm & Hb & He).
  split; [done| |].
  - intros c' [= <-]. rewrite Hm. by apply H2.
  - rewrite <- H3. unfold oat_view. destruct (env_oat_code env p); [done|]. cbn [mbind option_bind].
    unfold jit_GetCodeFor, ContainsCodePtr. rewrite Hm, Hb, He. done.
Qed.

(** Neither does a stub in the method itself, nor its own code. *)
Lemma settled_update jit p e0 m f code :
  settled jit p e0 m -> code = e0 \/ (forall a, code <> CompiledCode a) ->
  settled (jit_saved p m jit) p e0 (with_code env f p code m).
Proof.
  intros [H1 H2 H3] Hcode.
  assert (am_entry_quick (with_code env f p code m) = code /\ IsNative (with_code env f p code m) = IsNative m)
    as [Hq Hn] by (unfold with_code; by destruct (_ =? _)).
  split; [by rewrite Hq| |].
  - intros c Hc. destruct jit as [c0|]; [|done]. specialize (H2 c0 eq_refl). cbn in Hc. injection Hc as <-.
    destruct (ContainsCodePtr c0 (am_entry_quick m)) eqn:E; [|done].
    unfold SaveCompiledCode. destruct (method_code_map_ c0 !! p) eqn:Ep; [by rewrite Ep|]. cbn.
    rewrite lookup_insert_eq. destruct H1 as [->|H1]; [by right|].
    by rewrite (not_compiled_outside c0 _ H1) in E.
  - unfold oat_view in *. destruct (env_oat_code env p); [done|]. rewrite Hn.
    destruct jit as [c0|]; [|done]. specialize (H2 c0 eq_refl). cbn [jit_saved mbind option_bind] in *.
    unfold jit_GetCodeFor in *. rewrite Hq.
    assert (forall c, ContainsCodePtr (SaveCompiledCode p (am_entry_quick m) c0) c = ContainsCodePtr c0 c) as Hsame.
    { intros c. unfold SaveCompiledCode. by destruct (method_code_map_ c0 !! p). }
    destruct (ContainsCodePtr c0 (am_entry_quick m)) eqn:E.
    + rewrite Hsame. destruct H1 as [H1|H1]; [|by rewrite (not_compiled_outside c0 _ H1) in E].
      destruct (ContainsCodePtr c0 code) eqn:Ec.
      * destruct Hcode as [->|Hcode]; [done|]. by rewrite (not_compiled_outside c0 _ Hcode) in Ec.
      * unfold SaveCompiledCode. destruct (method_code_map_ c0 !! p) eqn:Ep.
        -- rewrite Ep. destruct H2; congruence.
        -- cbn. rewrite lookup_insert_eq. congruence.
    + destruct (ContainsCodePtr c0 code) eqn:Ec; [|done].
      destruct Hcode as [->|Hcode]; [done|]. by rewrite (not_compiled_outside c0 _ Hcode) in Ec.
Qed.

(** A method whose code a stub walk puts back. *)
Definition restorable (h : Heap) (p : Z) (m : ArtMethod) : Prop :=
  h_methods h !! p = Some m /\
  exists k, h_classes h !! am_declaring_class m = Some k /\ stubbable k m = true /\
    (IsInitialized k || negb (IsStatic m) || IsConstructor m) = true.

(** The state of the code during the walks that start from [h0]. *)
Record code_inv (h0 : Heap) (s : CodeState) : Prop := {
  ci_change : code_change h0 (cs_heap s);
  ci_settled : forall p m0, p ∈ traced_methods h0 -> restorable h0 p m0 ->
    exists m, h_methods (cs_heap s) !! p = Some m /\ settled (cs_jit s) p (am_entry_quick m0) m;
}.

Lemma recoded_stubbable k m m' : recoded m m' -> stubbable k m' = stubbable k m.
Proof. by intros (e & c & ->). Qed.

(** A visit of the walk keeps every method's code findable; when the stubs are
    off it is put back. *)
Lemma code_inv_visit i h0 p s :
  class_table_wf h0 -> p ∈ traced_methods h0 -> code_inv h0 s ->
  exists s', InstallStubsForMethod env i p s = Ok (tt, s') /\ code_inv h0 s' /\
    (forall q, q <> p -> h_methods (cs_heap s') !! q = h_methods (cs_heap s) !! q) /\
    (forall m0, entry_exit_stubs_installed_ i = false -> interpreter_stubs_installed_ i = false ->
       forced_interpret_only_ i = false -> p ∉ deoptimized_methods_ i -> restorable h0 p m0 ->
       exists m, h_methods (cs_heap s') !! p = Some m /\ am_entry_quick m = am_entry_quick m0).
Proof.
  intros Hwf Hp [Hc Hse]. destruct s as [h jit]. cbn [cs_heap cs_jit] in *.
  destruct (class_of_traced h0 p Hwf Hp) as (m0 & k & Hm0 & Hk0).
  destruct (code_change_method _ _ _ _ Hc Hm0) as (m & Hm & Hr).
  destruct (recoded_fields _ _ Hr) as (Hdc & Hfl & _).
  assert (h_classes h !! am_declaring_class m = Some k) as Hk
    by (by rewrite (code_change_classes _ _ Hc), Hdc).
  rewrite (InstallStubsForMethod_any i p h jit m k Hm Hk), (recoded_stubbable k m0 m Hr).
  destruct (stubbable k m0) eqn:Hs.
  2:{ eexists. split; [done|]. split; [by split|]. split; [done|].
      intros m1 _ _ _ _ (Hm1 & k1 & Hk1 & Hs1 & _). rewrite Hm0 in Hm1. injection Hm1 as <-.
      rewrite Hk0 in Hk1. injection Hk1 as <-. congruence. }
  set (m' := with_code env _ p (method_code i jit p k m) m).
  eexists. split; [done|]. cbn [cs_heap cs_jit set_methods h_methods].
  assert (forall m1, restorable h0 p m1 -> m1 = m0 /\
    (IsInitialized k || negb (IsStatic m) || IsConstructor m) = true /\ settled jit p (am_entry_quick m0) m) as Hrest.
  { intros m1 Hres. destruct (Hse p m1 Hp Hres) as (m2 & Hm2 & Hst).
    destruct Hres as (Hm1 & k1 & Hk1 & Hs1 & Hi1).
    rewrite Hm0 in Hm1. injection Hm1 as <-. rewrite Hk0 in Hk1. injection Hk1 as <-.
    rewrite Hm in Hm2. injection Hm2 as <-. split; [done|]. split; [|done].
    unfold IsStatic, IsConstructor in *. by rewrite Hfl. }
  split; [split|split].
  - etrans; [exact Hc|]. eapply code_change_insert; [done|]. apply with_code_recoded.
  - intros q mq Hq Hres. cbn [cs_heap cs_jit set_methods h_methods]. destruct (decide (q = p)) as [->|Hne].
    + exists m'. split; [by rewrite lookup_insert_eq|]. destruct (Hrest mq Hres) as (-> & Hi & Hst).
      apply settled_update; [done|]. unfold method_code. rewrite Hi.
      destruct (_ && _); [by right|]. destruct (entry_exit_stubs_installed_ i); [by right|].
      left. apply Hst.
    + destruct (Hse q mq Hq Hres) as (m2 & Hm2 & Hst). exists m2. rewrite lookup_insert_ne by done.
      split; [done|]. by apply settled_other.
  - intros q Hne. by rewrite lookup_insert_ne.
  - intros m1 He Hi Hf Hd Hres. destruct (Hrest m1 Hres) as (-> & Hin & Hst).
    exists m'. split; [by rewrite lookup_insert_eq|].
    assert (am_entry_quick m' = method_code i jit p k m) as -> by (unfold m', with_code; by destruct (_ =? _)).
    unfold method_code. rewrite Hi, Hf, He, Hin. unfold IsDeoptimized, IsDeoptimizedMethod.
    rewrite bool_decide_eq_false_2 by done. cbn. apply Hst.
Qed.

(** Walking the classes, with stubs on or off. *)
Lemma walk_any i h0 s :
  class_table_wf h0 -> code_inv h0 s -> exists s',
    VisitClasses (h_class_table h0) (h_pre_zygote_class_table h0) (InstallStubsClassVisitor env i) s = Ok (tt, s') /\
    code_inv h0 s'.
Proof.
  intros Hwf Hs.
  destruct (class_walk_keeps i (code_inv h0) (fun _ _ => True) h0 Hwf (ci_change h0)) with (s := s)
    as (s' & HV & Hs' & _); [|done|by exists s'].
  intros p s1 Hp Hs1. destruct (code_inv_visit i h0 p s1 Hwf Hp Hs1) as (s2 & H2 & Hs2 & _). by exists s2.
Qed.

Lemma walk_off i h0 s :
  class_table_wf h0 -> code_inv h0 s ->
  entry_exit_stubs_installed_ i = false -> interpreter_stubs_installed_ i = false ->
  forced_interpret_only_ i = false -> deoptimized_methods_ i = ∅ ->
  exists s',
    VisitClasses (h_class_table h0) (h_pre_zygote_class_table h0) (InstallStubsClassVisitor env i) s = Ok (tt, s') /\
    code_inv h0 s' /\
    forall p m0, p ∈ traced_methods h0 -> restorable h0 p m0 ->
      exists m, h_methods (cs_heap s') !! p = Some m /\ am_entry_quick m = am_entry_quick m0.
Proof.
  intros Hwf Hs He Hi Hf Hd.
  set (Q := fun p s => forall m0, restorable h0 p m0 ->
              exists m, h_methods (cs_heap s) !! p = Some m /\ am_entry_quick m = am_entry_quick m0).
  destruct (class_walk_keeps i (code_inv h0) Q h0 Hwf (ci_change h0)) with (s := s)
    as (s' & HV & Hs' & HQ); [|done|exists s'; split; [done|]; split; [done|]; intros p m0 Hp; by apply HQ].
  intros p s1 Hp Hs1. destruct (code_inv_visit i h0 p s1 Hwf Hp Hs1) as (s2 & H2 & Hs2 & Hoth & Hback).
  assert (Q p s2) as HQp by (intros m0 Hr; apply Hback; try done; rewrite Hd; set_solver).
  exists s2. split; [done|]. split; [done|]. split; [done|].
  intros q Hq. destruct (decide (q = p)) as [->|Hne]; [done|]. intros m0 Hr. rewrite Hoth by done. by apply Hq.
Qed.

End AnyWalk.

(** ** Running the operations *)

(** A thread whose stubs can be taken away, and one stubs can be installed
    on, as far as the listeners are concerned. *)
Record stack_ready (L : Type) `{!ListenerOps L, !ListenerLaws L} (env : RuntimeEnv) (h : Heap) (t : Thread_)
  : Prop := {
  sr_linked : linked env h 0 (th_frames t) (th_istack t);
  sr_present : frames_present h (th_frames t);
  sr_reportable : frames_reportable L (th_frames t);
}.

Record thread_ready (L : Type) `{!ListenerOps L, !ListenerLaws L} (env : RuntimeEnv) (h : Heap) (t : Thread_)
  : Prop := {
  tr_ok : thread_ok env h t;
  tr_reportable : frames_reportable L (th_frames t);
}.

Lemma thread_ready_stack L `{!ListenerOps L, !ListenerLaws L} env h t :
  thread_ready L env h t -> stack_ready L env h t.
Proof. by intros [[] ?]. Qed.

Lemma thread_ready_log env h t : thread_ok env h t -> thread_ready CallLog env h t.
Proof. intros Ht. split; [done|]. apply Forall_true. by intros []. Qed.

Lemma code_change_ready L `{!ListenerOps L, !ListenerLaws L} env h h' t :
  code_change h h' -> thread_ready L env h t -> thread_ready L env h' t.
Proof. intros Hc [H1 H2]. split; [by eapply code_change_thread|done]. Qed.

Lemma code_change_stack L `{!ListenerOps L, !ListenerLaws L} env h h' t :
  code_change h h' -> stack_ready L env h t -> stack_ready L env h' t.
Proof.
  intros Hc [H1 H2 H3]. split; [by eapply code_change_linked|by eapply code_change_frames|done].
Qed.

Section Runs.
Context {L : Type} `{!ListenerOps L, !ListenerLaws L} (env : RuntimeEnv).

(** A thread and the same thread with exit stubs in all its frames. *)
Record installed (h : Heap) (t t' : Thread_) : Prop := {
  is_ready : thread_ready L env h t';
  is_covered : covered env h (th_frames t');
  is_original : original env (th_frames t') (th_istack t') = original env (th_frames t) (th_istack t);
  is_same : exists fs st, t' = set_istack st (set_frames fs t);
}.

Definition unstubbed (t : Thread_) : Thread_ :=
  set_istack [] (set_frames (original env (th_frames t) (th_istack t)) t).

Lemma for_each_install i h ts : forall l : L,
  AreExitStubsInstalled i = true -> Forall (thread_ready L env h) ts -> listener_ok l ->
  exists ts' l', for_each (InstrumentationInstallStack env i h) ts l = Ok (ts', l') /\
    Forall2 (installed h) ts ts' /\ listener_ok l'.
Proof.
  intros l Hs Hts. revert l. induction Hts as [|t ts [Ht Hr] _ IH]; intros l Hl; cbn [for_each].
  { eexists _, _. split; [done|]. split; [constructor|done]. }
  destruct (install_stack_total env h i t l Hs Ht Hr Hl) as (t' & l1 & -> & Hl1 & H1 & H2 & H3 & H4 & H5).
  cbn [mbind outcome_bind]. destruct (IH l1 Hl1) as (ts' & l2 & -> & HF & Hl2).
  eexists _, _. split; [done|]. split; [|done]. constructor; [by split|done].
Qed.

Lemma for_each_restore i h ts : forall l : L,
  Forall (stack_ready L env h) ts -> listener_ok l ->
  exists l', for_each (InstrumentationRestoreStack env i h) ts l = Ok (unstubbed <$> ts, l') /\ listener_ok l'.
Proof.
  intros l Hts. revert l. induction Hts as [|t ts [H1 H2 H3] _ IH]; intros l Hl; cbn [for_each]; [by eexists|].
  destruct (restore_stack_total env h i t l H1 H2 H3 Hl) as (l1 & -> & Hl1). cbn [mbind outcome_bind].
  destruct (IH l1 Hl1) as (l2 & -> & Hl2). by eexists.
Qed.

Implicit Types (i : Instrumentation) (c : CodeState) (ts : list Thread_) (log : L).

Lemma bind_on_instr {B} f (k : unit -> M (RT L) B) i c ts log a :
  (on_instr f ≫= k) (mkRT i c ts log a) = k tt (mkRT (f i) c ts log a).
Proof. done. Qed.

Lemma run_on_code {A} (m : M CodeState A) i c ts log a x c' :
  m c = Ok (x, c') -> on_code m (mkRT i c ts log a) = Ok (x, mkRT i c' ts log a).
Proof. intros H. unfold on_code. cbn. by rewrite H. Qed.

Lemma run_install i h jit ts log a :
  AreExitStubsInstalled i = true -> Forall (thread_ready L env h) ts -> listener_ok log ->
  exists ts' log', InstallAllStacks env (mkRT i (mkCodeState h jit) ts log a) =
      Ok (tt, mkRT i (mkCodeState h jit) ts' log' a) /\ Forall2 (installed h) ts ts' /\ listener_ok log'.
Proof.
  intros Hs Hts Hl. destruct (for_each_install i h ts log Hs Hts Hl) as (ts' & log' & HF & H2 & Hl').
  exists ts', log'. split; [|done]. unfold InstallAllStacks. rewrite !bind_gets. unfold ForEach.
  cbn [rt_instr rt_code rt_threads rt_listeners cs_heap]. by rewrite HF.
Qed.

Lemma run_restore i h jit ts log a :
  Forall (stack_ready L env h) ts -> listener_ok log ->
  exists log', RestoreAllStacks env (mkRT i (mkCodeState h jit) ts log a) =
      Ok (tt, mkRT i (mkCodeState h jit) (unstubbed <$> ts) log' a) /\ listener_ok log'.
Proof.
  intros Hts Hl. destruct (for_each_restore i h ts log Hts Hl) as (log' & HF & Hl').
  exists log'. split; [|done]. unfold RestoreAllStacks. rewrite !bind_gets. unfold ForEach.
  cbn [rt_instr rt_code rt_threads rt_listeners cs_heap]. by rewrite HF.
Qed.

Lemma run_visit i h jit ts log a c' :
  VisitClasses (h_class_table h) (h_pre_zygote_class_table h) (InstallStubsClassVisitor env i) (mkCodeState h jit)
    = Ok (tt, c') ->
  VisitAllClasses env (mkRT i (mkCodeState h jit) ts log a) = Ok (tt, mkRT i c' ts log a).
Proof.
  intros HV. unfold VisitAllClasses. rewrite !bind_gets. cbn [rt_instr rt_code cs_heap]. by apply run_on_code.
Qed.

(** The instrumentation object while stubs are being installed at a level. *)
Definition at_level (l : InstrumentationLevel) i : Instrumentation :=
  match l with
  | kInstrumentWithInterpreter =>
      set_entry_exit_stubs_installed true (set_interpreter_stubs_installed true i)
  | kInstrumentWithInstrumentationStubs =>
      set_interpreter_stubs_installed false (set_entry_exit_stubs_installed true i)
  | kInstrumentNothing =>
      set_entry_exit_stubs_installed false (set_interpreter_stubs_installed false i)
  end.

(** The object after the request has been stored. *)
Definition requested (key : Z) (l : InstrumentationLevel) i : Instrumentation :=
  let i := store_level key l i in
  set_interpret_only
    (bool_decide (highest_level (requested_instrumentation_levels_ i) = kInstrumentWithInterpreter)
     || forced_interpret_only_ i) i.

Lemma listeners_wf_requested key l i : listeners_wf i -> listeners_wf (requested key l i).
Proof. intros H. split; apply H. Qed.

Lemma listeners_wf_level l i b :
  listeners_wf i -> listeners_wf (set_instrumentation_stubs_installed b (at_level l i)).
Proof. intros H. destruct l; split; apply H. Qed.

(** [ConfigureStubs], branch by branch. *)
Lemma configure_same key l i c ts log a :
  let i1 := requested key l i in
  highest_level (requested_instrumentation_levels_ i1) = GetCurrentInstrumentationLevel i ->
  ConfigureStubs env key l (mkRT i c ts log a) = Ok (tt, mkRT i1 c ts log a).
Proof.
  cbn zeta. intros H. unfold ConfigureStubs. rewrite bind_on_instr, bind_gets, bind_on_instr.
  cbn [rt_instr]. rewrite bool_decide_eq_true_2; [done|]. exact H.
Qed.

Lemma configure_on key l i h jit ts log a h1 jit1 :
  let i1 := requested key l i in
  let top := highest_level (requested_instrumentation_levels_ i1) in
  top <> GetCurrentInstrumentationLevel i -> top <> kInstrumentNothing ->
  VisitClasses (h_class_table h) (h_pre_zygote_class_table h) (InstallStubsClassVisitor env (at_level top i1))
    (mkCodeState h jit) = Ok (tt, mkCodeState h1 jit1) ->
  code_change h h1 -> Forall (thread_ready L env h) ts -> listener_ok log ->
  exists ts' log',
    ConfigureStubs env key l (mkRT i (mkCodeState h jit) ts log a) =
      Ok (tt, mkRT (set_instrumentation_stubs_installed true (at_level top i1)) (mkCodeState h1 jit1) ts' log' a) /\
    Forall2 (installed h1) ts ts' /\ listener_ok log'.
Proof.
  cbn zeta. intros Hne Hn HV Hc Hts Hl. unfold ConfigureStubs.
  rewrite bind_on_instr, bind_gets, bind_on_instr. cbn [rt_instr].
  fold (requested key l i). set (i1 := requested key l i) in *.
  change (requested_instrumentation_levels_ (store_level key l i)) with (requested_instrumentation_levels_ i1).
  set (top := highest_level _) in *.
  rewrite bool_decide_eq_false_2 by exact Hne.
  destruct (run_install (set_instrumentation_stubs_installed true (at_level top i1)) h1 jit1 ts log a)
    as (ts' & log' & HI & H2 & Hl').
  { by destruct top. }
  { eapply Forall_impl; [exact Hts|]. intros t Ht. by eapply code_change_ready. }
  { done. }
  exists ts', log'. split; [|done].
  pose proof (run_visit (at_level top i1) h jit ts log a _ HV) as HV'.
  change (set_interpret_only _ (store_level key l i)) with i1.
  destruct top; [done| |]; cbn [level_index Z.ltb Z.compare Pos.compare Pos.compare_cont].
  - rewrite bool_decide_eq_false_2 by done. rewrite bool_decide_eq_true_2 by done.
    rewrite bind_assoc. unfold checkM. rewrite bind_lift. cbn [check]. rewrite bind_assoc, !bind_on_instr.
    rewrite (bind_ok _ _ _ _ _ HV'), bind_on_instr. exact HI.
  - rewrite bool_decide_eq_true_2 by done. rewrite bind_assoc, !bind_on_instr.
    rewrite (bind_ok _ _ _ _ _ HV'), bind_on_instr. exact HI.
Qed.

Lemma configure_off key l i h jit ts log a h1 jit1 :
  let i1 := requested key l i in
  highest_level (requested_instrumentation_levels_ i1) = kInstrumentNothing ->
  GetCurrentInstrumentationLevel i <> kInstrumentNothing ->
  VisitClasses (h_class_table h) (h_pre_zygote_class_table h)
    (InstallStubsClassVisitor env (at_level kInstrumentNothing i1)) (mkCodeState h jit) = Ok (tt, mkCodeState h1 jit1) ->
  code_change h h1 -> Forall (stack_ready L env h) ts -> listener_ok log ->
  exists log',
    ConfigureStubs env key l (mkRT i (mkCodeState h jit) ts log a) =
      Ok (tt, if IsDeoptimizedMethodsEmpty i
              then mkRT (set_instrumentation_stubs_installed false (at_level kInstrumentNothing i1))
                     (mkCodeState h1 jit1) (unstubbed <$> ts) log' a
              else mkRT (at_level kInstrumentNothing i1) (mkCodeState h1 jit1) ts log' a) /\
    listener_ok log'.
Proof.
  cbn zeta. intros Htop Hne HV Hc Hts Hl. unfold ConfigureStubs.
  rewrite bind_on_instr, bind_gets, bind_on_instr. cbn [rt_instr].
  set (i1 := requested key l i) in *.
  change (set_interpret_only _ (store_level key l i)) with i1.
  change (requested_instrumentation_levels_ (store_level key l i)) with (requested_instrumentation_levels_ i1).
  rewrite Htop, bool_decide_eq_false_2 by (intros E; apply Hne; by rewrite E).
  cbn [level_index Z.ltb Z.compare]. rewrite !bind_on_instr.
  pose proof (run_visit (at_level kInstrumentNothing i1) h jit ts log a _ HV) as HV'.
  rewrite (bind_ok _ _ _ _ _ HV'), bind_gets. cbn [rt_instr].
  change (IsDeoptimizedMethodsEmpty (at_level kInstrumentNothing i1)) with (IsDeoptimizedMethodsEmpty i).
  destruct (IsDeoptimizedMethodsEmpty i); [|by exists log].
  rewrite bind_on_instr. apply run_restore; [|done].
  eapply Forall_impl; [exact Hts|]. intros t Ht. by eapply code_change_stack.
Qed.

End Runs.

Arguments installed L {_ _} env h t t'.

(** ** Levels requested by several clients *)

Lemma level_max_ge a b : level_index a <= level_index (level_max a b) /\ level_index b <= level_index (level_max a b).
Proof. unfold level_max. destruct (Z.ltb_spec (level_index a) (level_index b)); lia. Qed.

Lemma highest_level_spec levels :
  (forall k l, levels !! k = Some l -> level_index l <= level_index (highest_level levels)) /\
  (highest_level levels = kInstrumentNothing \/ exists k : Z, levels !! k = Some (highest_level levels)).
Proof.
  unfold highest_level.
  apply (map_fold_weak_ind (fun top (levels : gmap Z InstrumentationLevel) =>
    (forall k l, levels !! k = Some l -> level_index l <= level_index top) /\
    (top = kInstrumentNothing \/ exists k : Z, levels !! k = Some top))).
  - split; [by intros k l|by left].
  - intros k l levels' top Hk [Hub Hin]. destruct (level_max_ge top l) as [H1 H2]. split.
    + intros k' l' [[<- <-]|[Hne Hk']]%lookup_insert_Some; [done|]. apply Hub in Hk'. lia.
    + unfold level_max. destruct (level_index top <? level_index l).
      * right. exists k. by rewrite lookup_insert_eq.
      * destruct Hin as [->|[k' Hk']]; [by left|]. right. exists k'. rewrite lookup_insert_ne; [done|]. congruence.
Qed.

Lemma highest_level_empty : highest_level ∅ = kInstrumentNothing.
Proof. done. Qed.

Lemma highest_level_nothing levels :
  (forall k l, levels !! k = Some l -> l = kInstrumentNothing) -> highest_level levels = kInstrumentNothing.
Proof. intros H. destruct (highest_level_spec levels) as [_ [E|[k Hk]]]; [done|]. by apply H in Hk. Qed.

Lemma highest_level_single key l : l <> kInstrumentNothing -> highest_level {[key := l]} = l.
Proof.
  intros Hl. destruct (highest_level_spec {[key := l]}) as [Hub [E|[k Hk]]].
  - specialize (Hub key l). rewrite lookup_singleton_eq, E in Hub. specialize (Hub eq_refl). by destruct l.
  - apply lookup_singleton_Some in Hk as [_ Hk]. done.
Qed.

Lemma level_of_at_level l i b :
  GetCurrentInstrumentationLevel (set_instrumentation_stubs_installed b (at_level l i)) = l /\
  GetCurrentInstrumentationLevel (at_level l i) = l.
Proof. by destruct l. Qed.

Lemma at_level_fields l i b :
  let i' := set_instrumentation_stubs_installed b (at_level l i) in
  interpret_only_ i' = interpret_only_ i /\ deoptimized_methods_ i' = deoptimized_methods_ i /\
  deoptimization_enabled_ i' = deoptimization_enabled_ i /\
  requested_instrumentation_levels_ i' = requested_instrumentation_levels_ i /\
  AreExitStubsInstalled i' = b /\ forall e, listeners_of i' e = listeners_of i e.
Proof. by destruct l. Qed.

Lemma unstubbed_linked env h fs : forall st, linked env h 0 fs st -> linked env h 0 (original env fs st) [].
Proof.
  induction fs as [|[m pc o|m pc o|] fs IH]; intros st H; cbn [original linked] in *; auto.
  destruct (pc =? env_exit_pc env) eqn:E.
  - destruct st as [|fr st]; [done|]. destruct H as (_ & _ & Hr & H). cbn [linked].
    rewrite (proj2 (Z.eqb_neq _ _) Hr). by apply (IH st).
  - cbn [linked]. rewrite E. auto.
Qed.

(** Taking stubs out keeps the methods of a stack. *)
Lemma original_methods env (P : Z -> Prop) fs : forall st,
  Forall (fun f => match f with Upcall => True | _ => P (frame_method f) end) fs ->
  Forall (fun f => match f with Upcall => True | _ => P (frame_method f) end) (original env fs st).
Proof.
  induction fs as [|[m pc o|m pc o|] fs IH]; intros st H; cbn [original]; [done| | |];
    apply Forall_cons in H as [H Hs]; [|constructor; auto..].
  destruct (pc =? env_exit_pc env); [destruct st|]; constructor; auto.
Qed.

Section Lists.
Context {L : Type} `{!ListenerOps L, !ListenerLaws L} (env : RuntimeEnv) (h : Heap).

Lemma installed_linked ts ts' :
  Forall2 (installed L env h) ts ts' ->
  Forall (thread_ready L env h) ts' /\ Forall (fun t => covered env h (th_frames t)) ts'.
Proof. induction 1 as [|t t' ts ts' [Hr] _ [IH1 IH2]]; split; by constructor. Qed.

Lemma all_unstubbed ts :
  Forall (stack_ready L env h) ts ->
  Forall (stack_ready L env h) (unstubbed env <$> ts) /\ Forall (fun t => th_istack t = []) (unstubbed env <$> ts).
Proof.
  intros H. rewrite !Forall_fmap. split; (eapply Forall_impl; [exact H|]); intros t [H1 H2 H3]; cbn; [|done].
  split; [by eapply unstubbed_linked|by apply (original_methods env (fun m => is_Some (h_methods h !! m)))|].
  by apply (original_methods env (fun m => reportable m)).
Qed.

Lemma ready_stacks ts : Forall (thread_ready L env h) ts -> Forall (stack_ready L env h) ts.
Proof. intros H. eapply Forall_impl; [exact H|]. apply thread_ready_stack. Qed.

End Lists.

(** What [ConfigureStubs] promises of the state it leaves. *)
Definition configured (L : Type) `{!ListenerOps L, !ListenerLaws L} (env : RuntimeEnv)
    (levels : gmap Z InstrumentationLevel)
    (i : Instrumentation) (h : Heap) (jit : option JitCodeCache) (i' : Instrumentation) (h' : Heap) (ts' : list Thread_) : Prop :=
  requested_instrumentation_levels_ i' = levels /\
  GetCurrentInstrumentationLevel i' = highest_level levels /\
  InterpretOnly i' = bool_decide (highest_level levels = kInstrumentWithInterpreter) || IsForcedInterpretOnly i /\
  deoptimized_methods_ i' = deoptimized_methods_ i /\ deoptimization_enabled_ i' = deoptimization_enabled_ i /\
  listeners_wf i' /\ (forall e, listeners_of i' e = listeners_of i e) /\
  code_change h h' /\ Forall (stack_ready L env h') ts' /\
  (highest_level levels = GetCurrentInstrumentationLevel i \/ highest_level levels <> kInstrumentNothing ->
   Forall (thread_ready L env h') ts') /\
  (highest_level levels <> GetCurrentInstrumentationLevel i -> highest_level levels <> kInstrumentNothing ->
   AreExitStubsInstalled i' = true /\ Forall (fun t => covered env h' (th_frames t)) ts') /\
  (highest_level levels = kInstrumentNothing -> GetCurrentInstrumentationLevel i <> kInstrumentNothing ->
   deoptimized_methods_ i = ∅ -> AreExitStubsInstalled i' = false /\ Forall (fun t => th_istack t = []) ts') /\
  (if decide (highest_level levels = GetCurrentInstrumentationLevel i) then h' = h else walked env i' h jit h').

Lemma configure_ok {L} `{!ListenerOps L, !ListenerLaws L} env key l i h jit ts (log : L) a :
  class_table_wf h -> listeners_wf i -> Forall (thread_ready L env h) ts -> listener_ok log ->
  exists i' h' jit' ts' log',
    ConfigureStubs env key l (mkRT i (mkCodeState h jit) ts log a) =
      Ok (tt, mkRT i' (mkCodeState h' jit') ts' log' a) /\
    configured L env (requested_instrumentation_levels_ (store_level key l i)) i h jit i' h' ts' /\ listener_ok log'.
Proof.
  intros Hwf Hi Hts Hl. set (levels := requested_instrumentation_levels_ (store_level key l i)).
  set (i1 := requested key l i).
  assert (requested_instrumentation_levels_ i1 = levels) as Hlv by done.
  destruct (decide (highest_level levels = GetCurrentInstrumentationLevel i)) as [Heq|Hne].
  { exists i1, h, jit, ts, log. split; [by apply configure_same|]. split; [|done]. unfold configured.
    split_and!; first [done | by apply listeners_wf_requested | by apply ready_stacks | intros E1 E2; congruence | by rewrite decide_True]. }
  destruct (decide (highest_level levels = kInstrumentNothing)) as [Hn|Hn].
  - destruct (walk_total env (at_level kInstrumentNothing i1) h jit Hwf) as (h1 & jit1 & HV & Hc & Hw).
    destruct (configure_off env key l i h jit ts log a h1 jit1) as (log' & HC & Hl');
      [done|congruence|done|done|by apply ready_stacks|done|].
    assert (Forall (stack_ready L env h1) ts) as Hlk.
    { eapply Forall_impl; [by apply ready_stacks|]. intros t Ht. by eapply code_change_stack. }
    assert (highest_level levels = GetCurrentInstrumentationLevel i \/ highest_level levels <> kInstrumentNothing -> False)
      as Hno by (intros []; congruence).
    unfold IsDeoptimizedMethodsEmpty in HC. case_bool_decide as Hd.
    + destruct (all_unstubbed env h1 ts Hlk). eexists _, h1, jit1, _, log'. split; [exact HC|]. split; [|done].
      unfold configured. split_and!; try done; try (by rewrite decide_False); try by intros []%Hno.
      by apply listeners_wf_level, listeners_wf_requested.
    + eexists _, h1, jit1, _, log'. split; [exact HC|]. split; [|done]. unfold configured.
      split_and!; try done; try (by rewrite decide_False); try by intros []%Hno.
      apply (listeners_wf_level kInstrumentNothing i1 (instrumentation_stubs_installed_ i1)).
      by apply listeners_wf_requested.
  - destruct (walk_total env (at_level (highest_level levels) i1) h jit Hwf) as (h1 & jit1 & HV & Hc & Hw).
    destruct (configure_on env key l i h jit ts log a h1 jit1) as (ts' & log' & HC & H2 & Hl'); try done.
    destruct (installed_linked env h1 ts ts' H2) as [Hl1 Hl2].
    eexists _, h1, jit1, ts', log'. split; [exact HC|]. split; [|done]. unfold configured.
    change (requested_instrumentation_levels_ (requested key l i)) with levels.
    destruct (level_of_at_level (highest_level levels) i1 true) as [Hlev _].
    destruct (at_level_fields (highest_level levels) i1 true) as (F1 & F2 & F3 & F4 & F5 & F6).
    fold i1. split_and!;
      first [done | by rewrite F4 | by apply listeners_wf_level, listeners_wf_requested
            | by apply ready_stacks | unfold InterpretOnly; by rewrite F1
            | rewrite decide_False by done; by destruct (highest_level levels)].
Qed.

(** ** Switching tracing on and off again *)

(** A runtime in which nothing is instrumented. *)
Record idle (L : Type) `{!ListenerOps L, !ListenerLaws L}
    (env : RuntimeEnv) (i : Instrumentation) (h : Heap) (jit : option JitCodeCache) (ts : list Thread_) : Prop := {
  id_levels : requested_instrumentation_levels_ i = ∅;
  id_entry : entry_exit_stubs_installed_ i = false;
  id_interpreter : interpreter_stubs_installed_ i = false;
  id_forced : forced_interpret_only_ i = false;
  id_deoptimized : deoptimized_methods_ i = ∅;
  id_listeners : listeners_wf i;
  id_table : class_table_wf h;
  id_threads : Forall (fun t => thread_ready L env h t /\ th_istack t = []) ts;
  id_code : forall p m, p ∈ traced_methods h -> restorable h p m -> settled env jit p (am_entry_quick m) m;
}.

Section RoundTrip.
Context {L : Type} `{!ListenerOps L, !ListenerLaws L}.

Lemma idle_code_inv env i h jit ts : idle L env i h jit ts -> code_inv env h (mkCodeState h jit).
Proof.
  intros H. split; [by cbn|]. intros p m Hp Hr. exists m. split; [apply Hr|]. by eapply id_code.
Qed.

Lemma installed_back env h ts ts' :
  Forall2 (installed L env h) ts ts' -> Forall (stack_ready L env h) ts ->
  Forall (fun t => th_istack t = []) ts -> unstubbed env <$> ts' = ts.
Proof.
  intros H2. induction H2 as [|t t' ts ts' [_ _ Ho (fs & st & ->)] _ IH]; intros Hl He; [done|].
  apply Forall_cons in Hl as [[Hl _ _] Hls]. apply Forall_cons in He as [He Hes].
  rewrite fmap_cons, IH by done. f_equal. unfold unstubbed. rewrite Ho, He in *.
  rewrite (original_unstubbed env h) by done. destruct t; cbn in *. by subst.
Qed.

Lemma roundtrip_ok env key i h jit ts (log : L) a (interp : bool) :
  idle L env i h jit ts -> listener_ok log ->
  exists i1 h1 jit1 ts1 log1 i2 h2 jit2 log2,
    EnableMethodTracing env key interp (mkRT i (mkCodeState h jit) ts log a) =
      Ok (tt, mkRT i1 (mkCodeState h1 jit1) ts1 log1 a) /\
    Forall (fun t => covered env h1 (th_frames t)) ts1 /\ AreExitStubsInstalled i1 = true /\
    DisableMethodTracing env key (mkRT i1 (mkCodeState h1 jit1) ts1 log1 a) =
      Ok (tt, mkRT i2 (mkCodeState h2 jit2) ts log2 a) /\
    AreExitStubsInstalled i2 = false /\ GetCurrentInstrumentationLevel i2 = kInstrumentNothing /\
    requested_instrumentation_levels_ i2 = ∅ /\
    code_change h h2 /\
    forall p m0, p ∈ traced_methods h -> restorable h p m0 ->
      exists m, h_methods h2 !! p = Some m /\ am_entry_quick m = am_entry_quick m0.
Proof.
  intros Hid Hok. pose proof Hid as [Hlv He Hi0 Hf Hd Hi Hwf Hts _].
  set (l := if interp then kInstrumentWithInterpreter else kInstrumentWithInstrumentationStubs).
  assert (l <> kInstrumentNothing) as Hl by (unfold l; by destruct interp).
  assert (requested_instrumentation_levels_ (requested key l i) = {[key := l]}) as Hlv1.
  { cbn. rewrite Hlv, bool_decide_eq_false_2 by done. done. }
  pose proof (idle_code_inv _ _ _ _ _ Hid) as Hinv0.
  assert (Forall (thread_ready L env h) ts /\ Forall (fun t => th_istack t = []) ts) as [Htok Hte].
  { split; (eapply Forall_impl; [exact Hts|]); by intros t []. }
  destruct (walk_any env (at_level l (requested key l i)) h _ Hwf Hinv0) as ([h1 jit1] & HV1 & Hinv1).
  destruct (configure_on env key l i h jit ts log a h1 jit1) as (ts1 & log1 & HC1 & H2 & Hok1).
  { rewrite Hlv1, highest_level_single by done. unfold GetCurrentInstrumentationLevel. by rewrite Hi0, He. }
  { by rewrite Hlv1, highest_level_single. }
  { by rewrite Hlv1, highest_level_single. }
  { apply Hinv1. }
  { done. }
  { done. }
  rewrite Hlv1, highest_level_single in HC1 by done.
  destruct (installed_linked env h1 ts ts1 H2) as [Hl1 Hcov1].
  set (i1 := set_instrumentation_stubs_installed true (at_level l (requested key l i))) in *.
  assert (requested_instrumentation_levels_ (requested key kInstrumentNothing i1) = ∅) as Hlv2.
  { cbn [requested set_interpret_only requested_instrumentation_levels_ store_level set_requested_instrumentation_levels].
    rewrite bool_decide_eq_true_2 by done.
    assert (requested_instrumentation_levels_ i1 = {[key := l]}) as -> by (rewrite <- Hlv1; by destruct interp).
    apply delete_singleton_eq. }
  assert (traced_methods h1 = traced_methods h /\ h_class_table h1 = h_class_table h /\
          h_pre_zygote_class_table h1 = h_pre_zygote_class_table h) as (Htr & Htb & Htz).
  { destruct (ci_change _ _ _ Hinv1) as [[ms Hms] _]. cbn in Hms. by subst h1. }
  destruct (walk_off env (at_level kInstrumentNothing (requested key kInstrumentNothing i1)) h _ Hwf Hinv1)
    as ([h2 jit2] & HV2 & Hinv2 & Hback); try done; try (unfold i1, l; by destruct interp).
  destruct (configure_off env key kInstrumentNothing i1 h1 jit1 ts1 log1 a h2 jit2) as (log2 & HC2 & _).
  { by rewrite Hlv2. }
  { unfold i1, l. by destruct interp. }
  { rewrite Htb, Htz. exact HV2. }
  { pose proof (ci_change _ _ _ Hinv1) as [[ms1 E1] F1]. pose proof (ci_change _ _ _ Hinv2) as [[ms2 E2] F2].
    cbn in *. subst. split; [by exists ms2|]. intros q. specialize (F1 q). specialize (F2 q). cbn in *.
    destruct F1 as [m m1 Hr1|]; inversion F2 as [? m2 Hr2|]; subst; constructor.
    destruct Hr1 as (e1 & c1 & ->). destruct Hr2 as (e2 & c2 & ->). by exists e2, c2. }
  { by apply ready_stacks. }
  { exact Hok1. }
  assert (IsDeoptimizedMethodsEmpty i1 = true) as Hde.
  { unfold IsDeoptimizedMethodsEmpty. apply bool_decide_eq_true_2. rewrite <- Hd. unfold i1, l. by destruct interp. }
  rewrite Hde, (installed_back env h1 ts ts1 H2) in HC2.
  2:{ eapply Forall_impl; [by apply ready_stacks|]. intros t Ht. eapply code_change_stack; [apply Hinv1|done]. }
  2:{ done. }
  eexists i1, h1, jit1, ts1, log1, _, h2, jit2, log2.
  split; [unfold EnableMethodTracing; exact HC1|]. split; [done|]. split; [by unfold i1, l; destruct interp|].
  split; [exact HC2|]. split_and!; try done. apply Hinv2.
Qed.

End RoundTrip.

(** ** Deoptimization *)

(** A method that may be deoptimized. *)
Definition deoptimizable (h : Heap) (p : Z) : Prop :=
  p <> 0 /\ exists m k, h_methods h !! p = Some m /\ h_classes h !! am_declaring_class m = Some k /\
    IsNative m = false /\ IsAbstract m = false /\ IsProxyClass k = false.

Lemma code_change_deoptimizable h h' p : code_change h h' -> deoptimizable h p -> deoptimizable h' p.
Proof.
  intros Hc (Hne & m & k & Hm & Hk & Hn & Ha & Hp). split; [done|].
  destruct (code_change_method _ _ _ _ Hc Hm) as (m' & Hm' & (e & c & ->)).
  exists (method_set_interpreter e (method_set_quick c m)), k. rewrite (code_change_classes _ _ Hc). done.
Qed.

(** The runtime while methods are being undeoptimized. *)
Record undeopt_ready (L : Type) `{!ListenerOps L, !ListenerLaws L}
    (env : RuntimeEnv) (i : Instrumentation) (h : Heap) (ts : list Thread_) : Prop := {
  ur_listeners : listeners_wf i;
  ur_methods : forall p, p ∈ deoptimized_methods_ i -> deoptimizable h p;
  ur_threads : Forall (stack_ready L env h) ts;
}.

Section Undeoptimizing.
Context {L : Type} `{!ListenerOps L, !ListenerLaws L}.

Lemma run_check_deoptimizable {B} h jit p m k i ts (log : L) a (f : ArtMethod -> M (RT L) B) :
  h_methods h !! p = Some m -> h_classes h !! am_declaring_class m = Some k ->
  IsNative m = false -> IsAbstract m = false -> IsProxyClass k = false ->
  (check_deoptimizable p ≫= f) (mkRT i (mkCodeState h jit) ts log a) = f m (mkRT i (mkCodeState h jit) ts log a).
Proof.
  intros Hm Hk Hn Ha Hp. unfold check_deoptimizable. rewrite bind_assoc.
  assert (on_code (L := L) (get_method p) (mkRT i (mkCodeState h jit) ts log a) =
          Ok (m, mkRT i (mkCodeState h jit) ts log a)) as H1.
  { apply run_on_code. unfold get_method, deref. cbn. by rewrite Hm. }
  rewrite (bind_ok _ _ _ _ _ H1), bind_assoc, bind_gets. cbn [rt_code cs_heap].
  unfold checkM. rewrite bind_assoc, bind_lift, Hn. cbn [negb check].
  rewrite bind_assoc, bind_lift. unfold IsProxyMethod, GetDeclaringClass, deref. rewrite Hk.
  cbn [mbind outcome_bind mret outcome_ret]. rewrite Hp, bind_assoc, bind_lift. cbn [negb check].
  rewrite bind_assoc, bind_lift, Ha. done.
Qed.

Lemma Undeoptimize_ok env p i h jit ts (log : L) a :
  undeopt_ready L env i h ts -> listener_ok log -> p ∈ deoptimized_methods_ i ->
  exists i' h' jit' ts' log',
    Undeoptimize env p (mkRT i (mkCodeState h jit) ts log a) = Ok (tt, mkRT i' (mkCodeState h' jit') ts' log' a) /\
    deoptimized_methods_ i' = deoptimized_methods_ i ∖ {[p]} /\
    deoptimization_enabled_ i' = deoptimization_enabled_ i /\
    undeopt_ready L env i' h' ts' /\ listener_ok log'.
Proof.
  intros [Hi Hms Hts] Hok Hin. destruct (Hms p Hin) as (Hne & m & k & Hm & Hk & Hn & Ha & Hp).
  unfold Undeoptimize. rewrite (run_check_deoptimizable h jit p m k) by done.
  unfold RemoveDeoptimizedMethod. rewrite bind_assoc, bind_gets. cbn [rt_instr].
  unfold IsDeoptimizedMethod. rewrite bool_decide_eq_true_2 by done. cbn [negb].
  rewrite bind_assoc, bind_on_instr, bind_ret. unfold checkM. rewrite bind_lift. cbn [check].
  rewrite bind_gets. cbn [rt_instr]. set (i1 := set_deoptimized_methods _ i).
  assert (listeners_wf i1) as Hi1 by (split; apply Hi).
  assert (forall q, q ∈ deoptimized_methods_ i1 -> deoptimizable h q) as Hms1.
  { intros q Hq. apply Hms. unfold i1 in Hq. cbn in Hq. set_solver. }
  destruct (interpreter_stubs_installed_ i1); cbn [negb].
  { eexists i1, h, jit, ts, log. split; [done|]. split; [done|]. split; [done|]. split; [by split|done]. }
  rewrite bind_gets, bind_lift. unfold GetDeclaringClass, deref. cbn [rt_code cs_heap]. rewrite Hk.
  assert (exists code,
    (if IsStatic m && negb (IsConstructor m) && negb (IsInitialized k) then mret QuickResolutionStub
     else on_code (GetQuickOatCodeFor env p)) (mkRT i1 (mkCodeState h jit) ts log a) =
    Ok (code, mkRT i1 (mkCodeState h jit) ts log a)) as [code Hcode].
  { destruct (_ && _); [by eexists|]. eexists. apply run_on_code. by apply (GetQuickOatCodeFor_ok env p h jit m k). }
  rewrite (bind_ok _ _ _ _ _ Hcode).
  pose proof (UpdateEntrypoints_ok env (IsForcedInterpretOnly i1) p code h jit m k Hm Hk Hp) as HU.
  set (h1 := set_methods _ h) in HU. set (jit1 := jit_saved p m jit) in HU.
  assert (code_change h h1) as Hc by (eapply code_change_insert; [done|]; apply with_code_recoded).
  rewrite (bind_ok _ _ _ _ _ (run_on_code _ i1 _ ts log a _ _ HU)).
  assert (Forall (stack_ready L env h1) ts) as Hts1.
  { eapply Forall_impl; [exact Hts|]. intros t Ht. by eapply code_change_stack. }
  destruct (IsDeoptimizedMethodsEmpty i1).
  - destruct (run_restore env i1 h1 jit1 ts log a Hts1 Hok) as (log1 & HR & Hok1).
    rewrite (bind_ok _ _ _ _ _ HR). eexists _, h1, jit1, _, log1. split; [done|].
    split; [done|]. split; [done|]. split; [split|done].
    + split; apply Hi1.
    + intros q Hq. eapply code_change_deoptimizable; [done|]. by apply Hms1.
    + by apply all_unstubbed.
  - eexists i1, h1, jit1, ts, log. split; [done|]. split; [done|]. split; [done|]. split; [|done]. split; try done.
    intros q Hq. eapply code_change_deoptimizable; [done|]. by apply Hms1.
Qed.

Lemma undeoptimize_all_ok env n : forall i h jit ts (log : L) a,
  undeopt_ready L env i h ts -> listener_ok log -> (size (deoptimized_methods_ i) <= n)%nat ->
  exists i' h' jit' ts' log',
    undeoptimize_all env n (mkRT i (mkCodeState h jit) ts log a) = Ok (tt, mkRT i' (mkCodeState h' jit') ts' log' a) /\
    deoptimized_methods_ i' = ∅ /\ deoptimization_enabled_ i' = deoptimization_enabled_ i /\ listener_ok log'.
Proof.
  induction n as [|n IH]; intros i h jit ts log a Hr Hok Hn; cbn [undeoptimize_all]; rewrite bind_gets; cbn [rt_instr];
    unfold IsDeoptimizedMethodsEmpty; case_bool_decide as Hd.
  - by exists i, h, jit, ts, log.
  - exfalso. apply Hd, leibniz_equiv, size_empty_inv. lia.
  - by exists i, h, jit, ts, log.
  - set (p := BeginDeoptimizedMethod i).
    assert (p ∈ deoptimized_methods_ i) as Hp.
    { unfold p, BeginDeoptimizedMethod. destruct (elements (deoptimized_methods_ i)) as [|q l] eqn:E.
      - by apply elements_empty_inv, leibniz_equiv in E.
      - apply elem_of_elements. rewrite E. set_solver. }
    destruct (ur_methods _ _ _ _ _ Hr p Hp) as [Hne _].
    unfold checkM. rewrite bind_lift, (proj2 (Z.eqb_neq _ _) Hne). cbn [negb check].
    destruct (Undeoptimize_ok env p i h jit ts log a Hr Hok Hp)
      as (i1 & h1 & jit1 & ts1 & log1 & HU & Hd1 & He1 & Hr1 & Hok1).
    rewrite (bind_ok _ _ _ _ _ HU). rewrite <- He1. apply IH; [done..|].
    rewrite Hd1, size_difference by set_solver. rewrite size_singleton. lia.
Qed.

End Undeoptimizing.

(** ** Allocation entry points *)

(** The allocation stubs are in use exactly while somebody wants them. *)
Definition alloc_ok (env : RuntimeEnv) (s : RT CallLog) : Prop :=
  0 <= alloc_counter_ (rt_instr s) < 2 ^ 64 /\
  rt_alloc_instrumented s = (0 <? alloc_counter_ (rt_instr s)) /\
  (env_is_started env = true -> Forall (fun t => th_alloc_instrumented t = rt_alloc_instrumented s) (rt_threads s)).

Lemma SetEntrypointsInstrumented_ok env b (s : RT CallLog) :
  exists s', SetEntrypointsInstrumented env b s = Ok (tt, s') /\ rt_instr s' = rt_instr s /\
    rt_alloc_instrumented s' = b /\
    (env_is_started env = true -> Forall (fun t => th_alloc_instrumented t = b) (rt_threads s')).
Proof.
  unfold SetEntrypointsInstrumented. rewrite bind_modify. unfold ResetQuickAllocEntryPoints.
  destruct (env_is_started env); [|by eexists]. rewrite bind_gets. cbn [rt_alloc_instrumented].
  assert (forall ts (l : CallLog), for_each (fun t l => mret (set_alloc_instrumented b t, l)) ts l =
            Ok (set_alloc_instrumented b <$> ts, l)) as HF.
  { induction ts as [|t ts IH]; intros l; cbn; [done|]. by rewrite IH. }
  unfold ForEach. cbn [rt_threads rt_listeners]. rewrite HF. eexists. split; [done|]. split; [done|]. split; [done|].
  intros _. cbn. apply Forall_fmap. by apply Forall_true.
Qed.

(** ** Results *)

(** C27. Clients share the instrumentation by the highest level any of them
    asks for: [ConfigureStubs] returns on every consistent runtime, and then
    the level in force is the highest of the requests, no request is above it,
    the interpreter-only flag agrees with it, and listeners and deoptimized
    methods are as before.  If the level stays the same no method changes;
    otherwise exactly the concrete, non-proxy methods of the resolved traceable
    classes (the constructors of [java.lang.reflect.Proxy] excepted) get the code the new level asks for (the interpreter bridge, the
    instrumentation entry point or the resolution stub; without stubs, the class
    linker's code).  A new level other than nothing leaves every compiled frame of
    every thread with an exit stub, and dropping it to nothing leaves none unless
    methods are deoptimized. *)
Theorem configure_highest_level {L} `{!ListenerOps L, !ListenerLaws L} env key l i h jit ts (log : L) a :
  class_table_wf h -> listeners_wf i -> Forall (thread_ready L env h) ts -> listener_ok log ->
  let levels := if bool_decide (l = kInstrumentNothing) then delete key (requested_instrumentation_levels_ i)
                else <[key := l]> (requested_instrumentation_levels_ i) in
  exists i' h' jit' ts' log',
    ConfigureStubs env key l (mkRT i (mkCodeState h jit) ts log a) =
      Ok (tt, mkRT i' (mkCodeState h' jit') ts' log' a) /\
    configured L env levels i h jit i' h' ts' /\ listener_ok log' /\
    (forall k l', levels !! k = Some l' -> level_index l' <= level_index (GetCurrentInstrumentationLevel i')) /\
    (GetCurrentInstrumentationLevel i' = kInstrumentNothing \/
     exists k, levels !! k = Some (GetCurrentInstrumentationLevel i')).
Proof.
  intros Hwf Hi Hts Hok. cbn zeta.
  destruct (configure_ok env key l i h jit ts log a Hwf Hi Hts Hok) as (i' & h' & jit' & ts' & log' & HC & Hcfg & Hok').
  exists i', h', jit', ts', log'. split; [exact HC|]. split; [exact Hcfg|]. split; [done|].
  destruct Hcfg as (_ & -> & _). apply highest_level_spec.
Qed.

(** C28. Tracing leaves no trace: switching method tracing on, by stubs or by
    the interpreter, and off again on a runtime in which nothing is
    instrumented gives every thread its stack back, every traced method its
    code, and the instrumentation its idle flags; in between every compiled
    frame returns through the exit stub.  The methods are those that get stubs,
    without the static ones of a class that is not initialized, and their code
    before is the class linker's ([idle]). *)
Theorem tracing_roundtrip {L} `{!ListenerOps L, !ListenerLaws L} env key interp i h jit ts (log : L) a :
  idle L env i h jit ts -> listener_ok log ->
  exists i1 h1 jit1 ts1 log1 i2 h2 jit2 log2,
    EnableMethodTracing env key interp (mkRT i (mkCodeState h jit) ts log a) =
      Ok (tt, mkRT i1 (mkCodeState h1 jit1) ts1 log1 a) /\
    Forall (fun t => covered env h1 (th_frames t)) ts1 /\ AreExitStubsInstalled i1 = true /\
    DisableMethodTracing env key (mkRT i1 (mkCodeState h1 jit1) ts1 log1 a) =
      Ok (tt, mkRT i2 (mkCodeState h2 jit2) ts log2 a) /\
    AreExitStubsInstalled i2 = false /\ GetCurrentInstrumentationLevel i2 = kInstrumentNothing /\
    requested_instrumentation_levels_ i2 = ∅ /\ code_change h h2 /\
    forall p m0, p ∈ traced_methods h -> restorable h p m0 ->
      exists m, h_methods h2 !! p = Some m /\ am_entry_quick m = am_entry_quick m0.
Proof. apply roundtrip_ok. Qed.

(** [DisableDeoptimization] ends: on a consistent runtime its loop takes
    one round per deoptimized method, every one of them is undeoptimized, and
    no check fails. *)
Theorem DisableDeoptimization_returns {L} `{!ListenerOps L, !ListenerLaws L} env key i h jit ts (log : L) a :
  deoptimization_enabled_ i = true -> class_table_wf h -> listeners_wf i ->
  Forall (thread_ready L env h) ts -> listener_ok log ->
  (forall p, p ∈ deoptimized_methods_ i -> deoptimizable h p) ->
  exists i' h' jit' ts' log',
    DisableDeoptimization env key (mkRT i (mkCodeState h jit) ts log a) =
      Ok (tt, mkRT i' (mkCodeState h' jit') ts' log' a) /\
    deoptimized_methods_ i' = ∅ /\ deoptimization_enabled_ i' = false.
Proof.
  intros He Hwf Hi Hts Hok Hms. unfold DisableDeoptimization. rewrite bind_gets. cbn [rt_instr].
  unfold checkM. rewrite bind_lift, He. cbn [check].
  assert (exists i1 h1 jit1 ts1 log1,
    whenM (interpreter_stubs_installed_ i) (UndeoptimizeEverything env key) (mkRT i (mkCodeState h jit) ts log a) =
      Ok (tt, mkRT i1 (mkCodeState h1 jit1) ts1 log1 a) /\ undeopt_ready L env i1 h1 ts1 /\ listener_ok log1)
    as (i1 & h1 & jit1 & ts1 & log1 & HW & Hr & Hok1).
  { destruct (interpreter_stubs_installed_ i) eqn:E; cbn [whenM].
    - unfold UndeoptimizeEverything. rewrite bind_gets. cbn [rt_instr]. unfold checkM.
      rewrite bind_lift, E. cbn [check]. rewrite bind_lift, He. cbn [check].
      destruct (configure_ok env key kInstrumentNothing i h jit ts log a Hwf Hi Hts Hok)
        as (i1 & h1 & jit1 & ts1 & log1 & HC & (_ & _ & _ & Hd & _ & Hl & _ & Hc & Hlk & _) & Hok1).
      exists i1, h1, jit1, ts1, log1. split; [exact HC|]. split; [|done]. split; [done| |done].
      rewrite Hd. intros p Hp. eapply code_change_deoptimizable; [done|]. by apply Hms.
    - exists i, h, jit, ts, log. split; [done|]. split; [|done]. split; [done|done|]. by apply ready_stacks. }
  rewrite (bind_ok _ _ _ _ _ HW), bind_gets. cbn [rt_instr].
  destruct (undeoptimize_all_ok env (size (deoptimized_methods_ i1)) i1 h1 jit1 ts1 log1 a Hr Hok1 (le_n _))
    as (i2 & h2 & jit2 & ts2 & log2 & HU & Hd2 & _).
  rewrite (bind_ok _ _ _ _ _ HU). by eexists _, h2, jit2, ts2, log2.
Qed.

(** The allocation entry points are instrumented exactly while the count
    of clients is positive, in the runtime and in every thread of a started
    runtime; both operations keep this, and only giving back more than was
    taken is refused. *)
Theorem alloc_entrypoints_counted env (s : RT CallLog) :
  alloc_ok env s ->
  (alloc_counter_ (rt_instr s) + 1 < 2 ^ 64 ->
   exists s', InstrumentQuickAllocEntryPointsLocked env s = Ok (tt, s') /\ alloc_ok env s' /\
     alloc_counter_ (rt_instr s') = alloc_counter_ (rt_instr s) + 1) /\
  (if 0 <? alloc_counter_ (rt_instr s) then
     exists s', UninstrumentQuickAllocEntryPointsLocked env s = Ok (tt, s') /\ alloc_ok env s' /\
       alloc_counter_ (rt_instr s') = alloc_counter_ (rt_instr s) - 1
   else UninstrumentQuickAllocEntryPointsLocked env s = Fault CheckFailed).
Proof.
  intros (Hc & Hb & Ht). split.
  - intros Hmax. unfold InstrumentQuickAllocEntryPointsLocked. rewrite bind_gets.
    destruct (Z.eqb_spec (alloc_counter_ (rt_instr s)) 0) as [E|E]; cbn [whenM].
    + destruct (SetEntrypointsInstrumented_ok env true s) as (s1 & H1 & Hi1 & Hb1 & Ht1).
      rewrite (bind_ok _ _ _ _ _ H1). eexists. split; [done|]. unfold alloc_ok.
      cbn [rt_instr rt_alloc_instrumented rt_threads alloc_counter_ set_alloc_counter].
      rewrite Hi1, u64_small by lia. rewrite (proj2 (Z.ltb_lt _ _)) by lia. rewrite Hb1. repeat split; auto; lia.
    + rewrite bind_ret. eexists. split; [done|]. unfold alloc_ok.
      cbn [rt_instr rt_alloc_instrumented rt_threads alloc_counter_ set_alloc_counter].
      rewrite u64_small by lia. rewrite (proj2 (Z.ltb_lt 0 (alloc_counter_ (rt_instr s) + 1))) by lia.
      rewrite Hb, (proj2 (Z.ltb_lt 0 (alloc_counter_ (rt_instr s)))) in * by lia. repeat split; auto; lia.
  - unfold UninstrumentQuickAllocEntryPointsLocked.
    destruct (Z.ltb_spec 0 (alloc_counter_ (rt_instr s))) as [Hp|Hp].
    + rewrite bind_gets. unfold checkM. rewrite bind_lift, (proj2 (Z.ltb_lt _ _)) by lia. cbn [check].
      unfold on_instr at 1. rewrite bind_modify, bind_gets. cbn [rt_instr alloc_counter_ set_alloc_counter].
      set (s1 := mkRT _ _ _ _ _).
      destruct (Z.eqb_spec (alloc_counter_ (rt_instr s) - 1) 0) as [E|E]; cbn [whenM].
      * destruct (SetEntrypointsInstrumented_ok env false s1) as (s2 & H2 & Hi2 & Hb2 & Ht2).
        exists s2. split; [done|]. unfold alloc_ok. rewrite Hi2, Hb2. cbn [s1 rt_instr alloc_counter_ set_alloc_counter].
        rewrite (proj2 (Z.ltb_ge _ _)) by lia. repeat split; auto; lia.
      * exists s1. split; [done|]. unfold alloc_ok.
        cbn [s1 rt_instr rt_alloc_instrumented rt_threads alloc_counter_ set_alloc_counter].
        rewrite (proj2 (Z.ltb_lt _ _)) by lia. repeat split; auto; lia.
    + rewrite bind_gets. unfold checkM. rewrite bind_lift, (proj2 (Z.ltb_ge _ _)) by lia. done.
Qed.

(** *** A runtime with one thread *)

Definition sample_runtime (i : Instrumentation) : RT CallLog :=
  mkRT i (mkCodeState stack_heap sample_jit) [sample_thread] [] false.

Definition tracer_key : Z := 1000.
Definition debugger_key : Z := 2000.

(** Removing the last breakpoint switches method tracing off half-way:
    with method tracing on, deoptimizing a traced method and undeoptimizing it
    again takes the exit stubs out of all stacks and clears the flag that says
    they are there, while the entry stubs stay in the other methods and are
    gone from that one. *)
Theorem undeoptimize_breaks_tracing :
  exists s, (EnableMethodTracing sample_env tracer_key false ;; EnableDeoptimization ;;
             Deoptimize sample_env 208 ;; Undeoptimize sample_env 208) (sample_runtime Instrumentation_new) = Ok (tt, s) /\
    GetCurrentInstrumentationLevel (rt_instr s) = kInstrumentWithInstrumentationStubs /\
    AreExitStubsInstalled (rt_instr s) = false /\
    (am_entry_quick <$> h_methods (cs_heap (rt_code s)) !! 200) = Some QuickInstrumentationEntryPoint /\
    (am_entry_quick <$> h_methods (cs_heap (rt_code s)) !! 208) = Some (CompiledCode 7000) /\
    rt_threads s = [sample_thread].
Proof. eexists. split; [vm_compute; reflexivity|]. repeat split; vm_compute; reflexivity. Qed.

Lemma stack_table_wf : class_table_wf stack_heap.
Proof.
  intros klass Hk. cbn in Hk.
  apply elem_of_cons in Hk as [->|[->|[]%elem_of_nil]%elem_of_cons]; (split; [by eexists|]).
  - intros p Hp. cbn in Hp.
    apply elem_of_cons in Hp as [->|[->|[]%elem_of_nil]%elem_of_cons]; by eexists _, _.
  - intros p Hp. cbn in Hp. by apply elem_of_nil in Hp.
Qed.

Lemma sample_threads_ok : Forall (thread_ready CallLog sample_env stack_heap) [sample_thread].
Proof. constructor; [apply thread_ready_log, sample_thread_ok|constructor]. Qed.

Lemma configure_highest_level_witness :
  exists i' h' jit' ts' log',
    ConfigureStubs sample_env tracer_key kInstrumentWithInstrumentationStubs (sample_runtime Instrumentation_new) =
      Ok (tt, mkRT i' (mkCodeState h' jit') ts' log' false) /\
    configured CallLog sample_env {[tracer_key := kInstrumentWithInstrumentationStubs]} Instrumentation_new stack_heap sample_jit i' h' ts'.
Proof.
  destruct (configure_highest_level sample_env tracer_key kInstrumentWithInstrumentationStubs Instrumentation_new
              stack_heap sample_jit [sample_thread] ([] : CallLog) false) as (i' & h' & jit' & ts' & log' & H1 & H2 & _).
  - apply stack_table_wf.
  - apply Instrumentation_new_wf.
  - apply sample_threads_ok.
  - exact I.
  - exists i', h', jit', ts', log'. split; [exact H1|exact H2].
Defined.

Lemma sample_idle : idle CallLog sample_env Instrumentation_new stack_heap sample_jit [sample_thread].
Proof.
  split; try reflexivity.
  - apply Instrumentation_new_wf.
  - apply stack_table_wf.
  - constructor; [split; [apply thread_ready_log, sample_thread_ok|reflexivity]|constructor].
  - intros p m Hp (Hm & _). change (traced_methods stack_heap) with [200; 208] in Hp.
    apply elem_of_cons in Hp as [->|[->|[]%elem_of_nil]%elem_of_cons]; vm_compute in Hm; injection Hm as <-;
      (split; [by left|intros c [= <-]; by left|reflexivity]).
Qed.

Lemma tracing_roundtrip_witness :
  exists i1 h1 jit1 ts1 log1 i2 h2 jit2 log2,
    EnableMethodTracing sample_env tracer_key true (sample_runtime Instrumentation_new) =
      Ok (tt, mkRT i1 (mkCodeState h1 jit1) ts1 log1 false) /\
    DisableMethodTracing sample_env tracer_key (mkRT i1 (mkCodeState h1 jit1) ts1 log1 false) =
      Ok (tt, mkRT i2 (mkCodeState h2 jit2) [sample_thread] log2 false) /\
    forall p m0, p ∈ traced_methods stack_heap -> restorable stack_heap p m0 ->
      exists m, h_methods h2 !! p = Some m /\ am_entry_quick m = am_entry_quick m0.
Proof.
  destruct (tracing_roundtrip sample_env tracer_key true Instrumentation_new stack_heap sample_jit [sample_thread]
              ([] : CallLog) false sample_idle I) as (i1 & h1 & jit1 & ts1 & log1 & i2 & h2 & jit2 & log2 & H1 & _ & _ & H2 & _ & _ & _ & _ & H3).
  exists i1, h1, jit1, ts1, log1, i2, h2, jit2, log2. split; [exact H1|]. split; [exact H2|exact H3].
Defined.

Definition deoptimizing : Instrumentation :=
  set_deoptimization_enabled true (set_deoptimized_methods {[208]} Instrumentation_new).

Lemma DisableDeoptimization_returns_witness :
  exists i' h' jit' ts' log',
    DisableDeoptimization sample_env debugger_key (sample_runtime deoptimizing) =
      Ok (tt, mkRT i' (mkCodeState h' jit') ts' log' false) /\
    deoptimized_methods_ i' = ∅ /\ deoptimization_enabled_ i' = false.
Proof.
  apply (DisableDeoptimization_returns sample_env debugger_key deoptimizing stack_heap sample_jit [sample_thread]
           ([] : CallLog) false).
  - reflexivity.
  - apply stack_table_wf.
  - by split.
  - apply sample_threads_ok.
  - exact I.
  - intros p Hp. cbn in Hp. apply elem_of_singleton in Hp as ->. split; [discriminate|]. by eexists _, _.
Defined.

Lemma alloc_entrypoints_counted_witness :
  exists s', InstrumentQuickAllocEntryPointsLocked sample_env (sample_runtime Instrumentation_new) = Ok (tt, s') /\
    alloc_ok sample_env s' /\ alloc_counter_ (rt_instr s') = 1.
Proof.
  apply (alloc_entrypoints_counted sample_env (sample_runtime Instrumentation_new)).
  - split; [cbn; lia|]. split; [reflexivity|]. intros _. constructor; [reflexivity|constructor].
  - reflexivity.
Defined.
