(* ===== verification/MiniTraceCodec.v ===== *)
(** * Trace records: the encoding part of [mini_trace.cc]

    A record is fourteen bytes: the thread id, an object address whose three
    low bits carry the action, and a payload.  This file has the action
    codes, the encoders and decoders of the tagged addresses, the
    little-endian stores and the stores each kind of event makes into the
    buffer, with what can be read back from them. *)

From S2P Require Import Prelude.

(** ** Actions *)

Inductive MiniTraceAction :=
| kMiniTraceMethodEnter
| kMiniTraceMethodExit
| kMiniTraceUnroll
| kMiniTraceFieldRead
| kMiniTraceFieldWrite
| kMiniTraceMonitorEnter
| kMiniTraceMonitorExit
| kMiniTraceActionMask.

#[global] Instance MiniTraceAction_eq_dec : EqDecision MiniTraceAction.
Proof. solve_decision. Defined.

Definition action_code (a : MiniTraceAction) : Z :=
  match a with
  | kMiniTraceMethodEnter => 0x00
  | kMiniTraceMethodExit => 0x01
  | kMiniTraceUnroll => 0x02
  | kMiniTraceFieldRead => 0x03
  | kMiniTraceFieldWrite => 0x04
  | kMiniTraceMonitorEnter => 0x05
  | kMiniTraceMonitorExit => 0x06
  | kMiniTraceActionMask => 0x07
  end.

(** [static_cast<MiniTraceAction>] of a value of three bits. *)
Definition action_of_code (c : Z) : MiniTraceAction :=
  if c =? 0 then kMiniTraceMethodEnter
  else if c =? 1 then kMiniTraceMethodExit
  else if c =? 2 then kMiniTraceUnroll
  else if c =? 3 then kMiniTraceFieldRead
  else if c =? 4 then kMiniTraceFieldWrite
  else if c =? 5 then kMiniTraceMonitorEnter
  else if c =? 6 then kMiniTraceMonitorExit
  else kMiniTraceActionMask.

Definition kMiniTraceRecordSize : Z := 14.

(** ** Tagged addresses *)

(** [PointerToLowMemUInt32]: the low word of the address. *)
Definition PointerToLowMemUInt32 (p : Z) : Z := u32 p.

Definition action_mask : Z := action_code kMiniTraceActionMask.

Definition DecodeMiniTraceMethodId (tmid : Z) : Z := Z.land tmid (Z.lnot action_mask).

Definition DecodeMiniTraceFieldId (tfid : Z) : Z := Z.land tfid (Z.lnot action_mask).

Definition DecodeMiniTraceAction (tmid : Z) : MiniTraceAction :=
  action_of_code (Z.land tmid action_mask).

Definition EncodeMiniTraceMethodAndAction (method : Z) (action : MiniTraceAction) : Z :=
  Z.lor (PointerToLowMemUInt32 method) (action_code action).

Definition EncodeMiniTraceFieldAndAction (field : Z) (action : MiniTraceAction) : Z :=
  Z.lor (PointerToLowMemUInt32 field) (action_code action).

Definition EncodeMiniTraceObjectAndAction (object : Z) (action : MiniTraceAction) : Z :=
  Z.lor (PointerToLowMemUInt32 object) (action_code action).

Definition EncodeMiniTraceObject (object : Z) : Z := PointerToLowMemUInt32 object.

(** ** Little-endian stores *)

Definition Append2LE (buf : list Z) (ptr val : Z) : outcome (list Z) :=
  poke_all buf ptr [u8 val; u8 (Z.shiftr val 8)].

Definition Append4LE (buf : list Z) (ptr val : Z) : outcome (list Z) :=
  poke_all buf ptr
    [u8 val; u8 (Z.shiftr val 8); u8 (Z.shiftr val 16); u8 (Z.shiftr val 24)].

Definition Append8LE (buf : list Z) (ptr val : Z) : outcome (list Z) :=
  poke_all buf ptr
    [u8 val; u8 (Z.shiftr val 8); u8 (Z.shiftr val 16); u8 (Z.shiftr val 24);
     u8 (Z.shiftr val 32); u8 (Z.shiftr val 40); u8 (Z.shiftr val 48); u8 (Z.shiftr val 56)].

(** ** The stores of an event *)

(** An event as the three logging functions take it, after the tracing
    filter: the thread, the address and what is recorded with it. *)
Inductive Event :=
| MethodEvent (tid method : Z) (action : MiniTraceAction) (return_value : Z)
| FieldEvent (tid object field dex_pc : Z) (read_event : bool)
| MonitorEvent (tid lock_object dex_pc : Z) (enter_event : bool).

Definition field_action (read_event : bool) : MiniTraceAction :=
  if read_event then kMiniTraceFieldRead else kMiniTraceFieldWrite.

Definition monitor_action (enter_event : bool) : MiniTraceAction :=
  if enter_event then kMiniTraceMonitorEnter else kMiniTraceMonitorExit.

(** The "write data" part of [LogMethodTraceEvent]. *)
Definition write_method_record (buf : list Z) (old_offset tid method : Z)
    (action : MiniTraceAction) (return_value : Z) : outcome (list Z) :=
  let method_value := EncodeMiniTraceMethodAndAction method action in
  let ptr := old_offset in
  buf ← Append2LE buf ptr (u16 tid);
  buf ← Append4LE buf (ptr + 2) method_value;
  Append8LE buf (ptr + 4) (u64 return_value).

(** The "write data" part of [LogFieldTraceEvent]. *)
Definition write_field_record (buf : list Z) (old_offset tid object field dex_pc : Z)
    (read_event : bool) : outcome (list Z) :=
  let field_value := EncodeMiniTraceFieldAndAction field (field_action read_event) in
  let ptr := old_offset in
  buf ← Append2LE buf ptr (u16 tid);
  buf ← Append4LE buf (ptr + 2) field_value;
  let ptr := ptr + 6 in
  let object_value := EncodeMiniTraceObject object in
  buf ← Append4LE buf ptr object_value;
  Append4LE buf (ptr + 4) (u32 dex_pc).

(** The "write data" part of [LogMonitorTraceEvent]. *)
Definition write_monitor_record (buf : list Z) (old_offset tid lock_object dex_pc : Z)
    (enter_event : bool) : outcome (list Z) :=
  let object_value := EncodeMiniTraceObjectAndAction lock_object (monitor_action enter_event) in
  let ptr := old_offset in
  buf ← Append2LE buf ptr (u16 tid);
  buf ← Append4LE buf (ptr + 2) object_value;
  let ptr := ptr + 6 in
  Append4LE buf ptr (u32 dex_pc).

Definition write_record (buf : list Z) (old_offset : Z) (ev : Event) : outcome (list Z) :=
  match ev with
  | MethodEvent tid method action rv => write_method_record buf old_offset tid method action rv
  | FieldEvent tid object field dex_pc rd => write_field_record buf old_offset tid object field dex_pc rd
  | MonitorEvent tid lock dex_pc en => write_monitor_record buf old_offset tid lock dex_pc en
  end.

(** The word [FlushBuffer] reads back: [ptr[2] | ptr[3] << 8 | ...]. *)
Definition record_aid (buf : list Z) (ptr : Z) : outcome Z :=
  b2 ← peek buf (ptr + 2);
  b3 ← peek buf (ptr + 3);
  b4 ← peek buf (ptr + 4);
  b5 ← peek buf (ptr + 5);
  mret (u32 (Z.lor (Z.lor (Z.lor b2 (Z.shiftl b3 8)) (Z.shiftl b4 16)) (Z.shiftl b5 24))).

(** ** The bytes of a record *)

(** The bytes an event puts at its slot.  A method event stores its return
    value two bytes early, over the upper half of the method's address. *)
Definition record_bytes (ev : Event) : list Z :=
  match ev with
  | MethodEvent tid method action rv =>
      le_bytes 2 tid ++ le_bytes 2 (EncodeMiniTraceMethodAndAction method action) ++ le_bytes 8 rv
  | FieldEvent tid object field dex_pc rd =>
      le_bytes 2 tid ++ le_bytes 4 (EncodeMiniTraceFieldAndAction field (field_action rd)) ++
      le_bytes 4 object ++ le_bytes 4 dex_pc
  | MonitorEvent tid lock dex_pc en =>
      le_bytes 2 tid ++ le_bytes 4 (EncodeMiniTraceObjectAndAction lock (monitor_action en)) ++
      le_bytes 4 dex_pc
  end.

Lemma shiftr_byte v n : 0 <= n -> u8 (Z.shiftr v n) = (v / 2 ^ n) mod 256.
Proof. intros. unfold u8. by rewrite Z.shiftr_div_pow2. Qed.

Lemma div_div_pow v a b : 0 <= a -> 0 <= b -> v / 2 ^ a / 2 ^ b = v / 2 ^ (a + b).
Proof. intros. rewrite Z.pow_add_r by done. rewrite Z.div_div; [done|lia..]. Qed.

Lemma le_bytes_shifts2 v : [u8 v; u8 (Z.shiftr v 8)] = le_bytes 2 v.
Proof. cbn. rewrite shiftr_byte by lia. done. Qed.

Lemma le_bytes_shifts4 v :
  [u8 v; u8 (Z.shiftr v 8); u8 (Z.shiftr v 16); u8 (Z.shiftr v 24)] = le_bytes 4 v.
Proof.
  cbn [le_bytes]. rewrite !shiftr_byte by lia. change 256 with (2 ^ 8).
  rewrite !div_div_pow by lia. done.
Qed.

Lemma le_bytes_shifts8 v :
  [u8 v; u8 (Z.shiftr v 8); u8 (Z.shiftr v 16); u8 (Z.shiftr v 24);
   u8 (Z.shiftr v 32); u8 (Z.shiftr v 40); u8 (Z.shiftr v 48); u8 (Z.shiftr v 56)] = le_bytes 8 v.
Proof.
  cbn [le_bytes]. rewrite !shiftr_byte by lia. change 256 with (2 ^ 8).
  rewrite !div_div_pow by lia. done.
Qed.

(** Only the low bytes of a value are stored. *)
Lemma le_bytes_u16 v : le_bytes 2 (u16 v) = le_bytes 2 v.
Proof. apply le_bytes_mod. unfold u16. cbn. by rewrite Z.mod_mod by lia. Qed.

Lemma le_bytes_u32 v : le_bytes 4 (u32 v) = le_bytes 4 v.
Proof. apply le_bytes_mod. unfold u32. cbn. by rewrite Z.mod_mod by lia. Qed.

Lemma le_bytes_u64 v : le_bytes 8 (u64 v) = le_bytes 8 v.
Proof. apply le_bytes_mod. unfold u64. cbn. by rewrite Z.mod_mod by lia. Qed.

Lemma length_record_bytes ev :
  length (record_bytes ev) =
  match ev with MethodEvent _ _ _ _ => 12%nat | FieldEvent _ _ _ _ _ => 14%nat | _ => 10%nat end.
Proof. by destruct ev. Qed.

Lemma record_bytes_fit ev : (length (record_bytes ev) <= 14)%nat.
Proof. rewrite length_record_bytes. destruct ev; lia. Qed.

(** A store over the tail of the previous one keeps its front. *)
Lemma splice_overlap buf i bs1 bs2 bs3 :
  (length bs2 <= length bs3)%nat ->
  (i + length bs1 + length bs3 <= length buf)%nat ->
  splice (splice buf i (bs1 ++ bs2)) (i + length bs1) bs3 = splice buf i (bs1 ++ bs3).
Proof.
  intros Hle Hlen. unfold splice. rewrite !length_app.
  rewrite <- (app_assoc bs1 bs2), (app_assoc (take i buf) bs1).
  rewrite take_app_length' by (rewrite length_app, length_take; lia).
  rewrite <- !app_assoc. do 3 f_equal.
  rewrite !drop_app, ?length_app, !length_take.
  rewrite drop_ge by (rewrite length_take; lia).
  rewrite (drop_ge bs1), (drop_ge bs2) by lia. cbn. rewrite drop_drop. f_equal. lia.
Qed.

Lemma Append2LE_bytes buf ptr v : Append2LE buf ptr v = poke_all buf ptr (le_bytes 2 v).
Proof. unfold Append2LE. by rewrite le_bytes_shifts2. Qed.

Lemma Append4LE_bytes buf ptr v : Append4LE buf ptr v = poke_all buf ptr (le_bytes 4 v).
Proof. unfold Append4LE. by rewrite le_bytes_shifts4. Qed.

Lemma Append8LE_bytes buf ptr v : Append8LE buf ptr v = poke_all buf ptr (le_bytes 8 v).
Proof. unfold Append8LE. by rewrite le_bytes_shifts8. Qed.

(** Run the next store of a record and merge it with the stores before it. *)
Ltac store_len := rewrite ?length_splice; rewrite ?length_app, ?length_le_bytes; lia.

Ltac store :=
  first [rewrite Append2LE_bytes | rewrite Append4LE_bytes | rewrite Append8LE_bytes];
  rewrite ?le_bytes_u16, ?le_bytes_u32, ?le_bytes_u64;
  rewrite poke_all_ok by store_len; cbn [mbind outcome_bind].

Lemma to_nat_plus (ptr d : Z) (n : nat) :
  0 <= ptr -> d = Z.of_nat n -> Z.to_nat (ptr + d) = (Z.to_nat ptr + n)%nat.
Proof. lia. Qed.

(** The stores of an event: one run of bytes at its slot, the rest of the
    buffer as it was. *)
Lemma write_record_ok buf ptr ev :
  0 <= ptr -> ptr + kMiniTraceRecordSize <= Z.of_nat (length buf) ->
  write_record buf ptr ev = Ok (splice buf (Z.to_nat ptr) (record_bytes ev)).
Proof.
  unfold kMiniTraceRecordSize. intros Hp Hlen.
  destruct ev as [tid m a rv | tid o f pc rd | tid l pc en]; cbn [write_record record_bytes];
    unfold write_method_record, write_field_record, write_monitor_record; store; store;
    rewrite (to_nat_plus ptr 2 (length (le_bytes 2 tid))) by done;
    rewrite splice_splice by store_len.
  - set (v := EncodeMiniTraceMethodAndAction m a).
    assert (le_bytes 4 v = le_bytes 2 v ++ le_bytes 2 (v / 256 / 256)) as -> by done.
    rewrite (app_assoc (le_bytes 2 tid)). store.
    rewrite (to_nat_plus ptr 4 (length (le_bytes 2 tid ++ le_bytes 2 v))) by done.
    rewrite splice_overlap by store_len. by rewrite <- app_assoc.
  - set (v := EncodeMiniTraceFieldAndAction f _). unfold EncodeMiniTraceObject, PointerToLowMemUInt32.
    store. rewrite (to_nat_plus ptr 6 (length (le_bytes 2 tid ++ le_bytes 4 v))) by done.
    rewrite splice_splice by store_len.
    store. rewrite <- (Z.add_assoc ptr 6 4). change (6 + 4) with 10.
    rewrite (to_nat_plus ptr 10 (length ((le_bytes 2 tid ++ le_bytes 4 v) ++ le_bytes 4 o))) by done.
    rewrite splice_splice by store_len. by rewrite <- !app_assoc.
  - set (v := EncodeMiniTraceObjectAndAction l _). store.
    rewrite (to_nat_plus ptr 6 (length (le_bytes 2 tid ++ le_bytes 4 v))) by done.
    rewrite splice_splice by store_len. by rewrite <- !app_assoc.
Qed.

(** ** Reading a record back *)

Lemma tag_add p a : p mod 8 = 0 -> 0 <= a < 8 -> Z.lor p a = p + a.
Proof.
  intros Hp Ha. rewrite Z.lor_comm, Z.add_comm.
  assert (p = Z.shiftl (p / 8) 3) as ->
    by (rewrite Z.shiftl_mul_pow2 by lia; change (2 ^ 3) with 8; mlia).
  rewrite lor_shiftl_add by lia. rewrite Z.shiftl_mul_pow2 by lia. done.
Qed.

Lemma untag_mod t : Z.land t (Z.lnot action_mask) = 8 * (t / 8).
Proof.
  change action_mask with (Z.ones 3). rewrite <- Z.ldiff_land, Z.ldiff_ones_r by lia.
  rewrite Z.shiftl_mul_pow2, Z.shiftr_div_pow2 by lia. change (2 ^ 3) with 8. lia.
Qed.

Lemma action_mod t : Z.land t action_mask = t mod 8.
Proof. change action_mask with (Z.ones 3). by rewrite Z.land_ones by lia. Qed.

Lemma low_half_mod8 m : (m mod 2 ^ 16) mod 8 = m mod 8.
Proof. apply Z.mod_mod_divide. by exists 8192. Qed.

Lemma action_code_range a : 0 <= action_code a < 8.
Proof. destruct a; cbn; lia. Qed.

Lemma action_code_of a : action_of_code (action_code a) = a.
Proof. by destruct a. Qed.

(** Tagging a word with an action and taking it apart again. *)
Lemma tag_decode p a :
  p mod 8 = 0 ->
  8 * ((p + action_code a) / 8) = p /\ (p + action_code a) mod 8 = action_code a.
Proof.
  intros Hp. pose proof (action_code_range a).
  assert (p = 8 * (p / 8)) as Hq by mlia. set (q := p / 8) in *. clearbody q. subst p.
  rewrite (Z.add_comm (8 * q)), (Z.mul_comm 8 q).
  rewrite Z.div_add, Z.mod_add by lia. rewrite Z.div_small, Z.mod_small by lia. lia.
Qed.

Lemma Encode_add p a : 0 <= p < 2 ^ 32 -> p mod 8 = 0 ->
  EncodeMiniTraceMethodAndAction p a = p + action_code a.
Proof.
  intros Hp Ha. unfold EncodeMiniTraceMethodAndAction, PointerToLowMemUInt32.
  rewrite u32_small by done. apply tag_add; [done | apply action_code_range].
Qed.

Lemma Encode_range p a : 0 <= p < 2 ^ 32 -> p mod 8 = 0 ->
  0 <= EncodeMiniTraceMethodAndAction p a < 2 ^ 32.
Proof.
  intros. rewrite Encode_add by done. pose proof (action_code_range a).
  assert (p = 8 * (p / 8)) by mlia. lia.
Qed.

(** The word a record's action and object are decoded from. *)
Definition event_word (ev : Event) : Z :=
  match ev with
  | MethodEvent _ m a rv =>
      EncodeMiniTraceMethodAndAction m a mod 2 ^ 16 + 2 ^ 16 * (rv mod 2 ^ 16)
  | FieldEvent _ _ f _ rd => EncodeMiniTraceFieldAndAction f (field_action rd)
  | MonitorEvent _ l _ en => EncodeMiniTraceObjectAndAction l (monitor_action en)
  end.

Definition event_address (ev : Event) : Z :=
  match ev with
  | MethodEvent _ m _ _ => m
  | FieldEvent _ _ f _ _ => f
  | MonitorEvent _ l _ _ => l
  end.

Definition event_action (ev : Event) : MiniTraceAction :=
  match ev with
  | MethodEvent _ _ a _ => a
  | FieldEvent _ _ _ _ rd => field_action rd
  | MonitorEvent _ _ _ en => monitor_action en
  end.

(** The address a record names is one of the low four gigabytes and is
    aligned to eight bytes, as the runtime's allocators hand them out. *)
Definition event_aligned (ev : Event) : Prop :=
  0 <= event_address ev < 2 ^ 32 /\ event_address ev mod 8 = 0.

Lemma record_aid_value buf ptr b2 b3 b4 b5 :
  0 <= ptr ->
  buf !! Z.to_nat (ptr + 2) = Some b2 -> buf !! Z.to_nat (ptr + 3) = Some b3 ->
  buf !! Z.to_nat (ptr + 4) = Some b4 -> buf !! Z.to_nat (ptr + 5) = Some b5 ->
  Forall (fun b => 0 <= b < 256) [b2; b3; b4; b5] ->
  record_aid buf ptr = Ok (le_value [b2; b3; b4; b5]).
Proof.
  intros Hp H2 H3 H4 H5 HF. unfold record_aid.
  rewrite (peek_ok _ (ptr + 2) b2), (peek_ok _ (ptr + 3) b3), (peek_ok _ (ptr + 4) b4),
    (peek_ok _ (ptr + 5) b5) by (done || lia).
  cbn [mbind outcome_bind mret outcome_ret].
  rewrite !Forall_cons in HF. destruct HF as (R2 & R3 & R4 & R5 & _).
  f_equal. rewrite (lor_shiftl_add b2), (lor_shiftl_add (b2 + _)), lor_shiftl_add by lia.
  rewrite u32_small by lia. cbn [le_value]. lia.
Qed.

Lemma splice_lookup buf i bs k :
  (i + length bs <= length buf)%nat -> (k < length bs)%nat ->
  splice buf i bs !! (i + k)%nat = bs !! k.
Proof.
  intros Hlen Hk. unfold splice.
  rewrite lookup_app_r by (rewrite length_take; lia). rewrite length_take.
  rewrite lookup_app_l by lia. f_equal. lia.
Qed.

Lemma record_bytes_byte ev : Forall (fun b => 0 <= b < 256) (record_bytes ev).
Proof. destruct ev; cbn [record_bytes]; rewrite !Forall_app; auto 10 with art. Qed.

Lemma le_value_word v : 0 <= v < 2 ^ 32 -> le_value (le_bytes 4 v) = v.
Proof. intros. rewrite le_value_bytes. by apply Z.mod_small. Qed.

Lemma record_word ev :
  event_aligned ev -> le_value (take 4 (drop 2 (record_bytes ev))) = event_word ev.
Proof.
  intros [Hr Ha]. destruct ev as [tid m a rv | tid o f pc rd | tid l pc en];
    cbn [event_word event_address] in *.
  - set (v := EncodeMiniTraceMethodAndAction m a).
    change (take 4 (drop 2 (record_bytes (MethodEvent tid m a rv))))
      with (le_bytes 2 v ++ le_bytes 2 rv).
    rewrite le_value_app, !le_value_bytes, length_le_bytes. done.
  - set (v := EncodeMiniTraceFieldAndAction f (field_action rd)).
    change (take 4 (drop 2 (record_bytes (FieldEvent tid o f pc rd)))) with (le_bytes 4 v).
    apply le_value_word. by apply Encode_range.
  - set (v := EncodeMiniTraceObjectAndAction l (monitor_action en)).
    change (take 4 (drop 2 (record_bytes (MonitorEvent tid l pc en)))) with (le_bytes 4 v).
    apply le_value_word. by apply Encode_range.
Qed.

(** What [FlushBuffer] reads at a slot in which the event's bytes are. *)
Lemma record_aid_written buf i ev :
  event_aligned ev -> (i + 14 <= length buf)%nat ->
  record_aid (splice buf i (record_bytes ev)) (Z.of_nat i) = Ok (event_word ev).
Proof.
  intros Ha Hlen. rewrite <- (record_word ev Ha).
  pose proof (record_bytes_byte ev) as HB.
  assert (10 <= length (record_bytes ev))%nat as H10
    by (rewrite length_record_bytes; destruct ev; lia).
  pose proof (record_bytes_fit ev) as H14.
  pose proof (splice_lookup buf i (record_bytes ev)) as HS.
  assert (forall k, (k < 6)%nat -> splice buf i (record_bytes ev) !! Z.to_nat (Z.of_nat i + Z.of_nat k)
            = record_bytes ev !! k) as HK.
  { intros k Hk. rewrite <- HS by lia. f_equal. lia. }
  destruct (record_bytes ev) as [|c0 [|c1 [|c2 [|c3 [|c4 [|c5 rest]]]]]] eqn:E;
    cbn [length] in H10; try lia.
  cbn [take drop].
  rewrite !Forall_cons in HB. destruct HB as (_ & _ & ? & ? & ? & ? & _).
  apply record_aid_value; [lia | apply (HK 2%nat) | apply (HK 3%nat) | apply (HK 4%nat)
    | apply (HK 5%nat) |]; try lia. repeat constructor; lia.
Qed.

(** The action always survives: it is in the half of the word a method
    event's return value does not reach. *)
Lemma event_word_action ev :
  event_aligned ev -> DecodeMiniTraceAction (event_word ev) = event_action ev.
Proof.
  intros [Hr Ha]. unfold DecodeMiniTraceAction. rewrite action_mod.
  destruct ev as [tid m a rv | tid o f pc rd | tid l pc en]; cbn [event_word event_address event_action] in *.
  - rewrite Encode_add by done.
    replace ((m + action_code a) mod 2 ^ 16 + 2 ^ 16 * (rv mod 2 ^ 16))
      with ((m + action_code a) mod 2 ^ 16 + rv mod 2 ^ 16 * 8192 * 8) by lia.
    rewrite Z.mod_add by lia.
    rewrite low_half_mod8, (proj2 (tag_decode m a Ha)). apply action_code_of.
  - change (EncodeMiniTraceFieldAndAction f (field_action rd))
      with (EncodeMiniTraceMethodAndAction f (field_action rd)).
    rewrite Encode_add by done. rewrite (proj2 (tag_decode f _ Ha)). apply action_code_of.
  - change (EncodeMiniTraceObjectAndAction l (monitor_action en))
      with (EncodeMiniTraceMethodAndAction l (monitor_action en)).
    rewrite Encode_add by done. rewrite (proj2 (tag_decode l _ Ha)). apply action_code_of.
Qed.

(** The address survives for field and monitor events.  Of a method's address
    only the low half does; the upper half is the return value's low half. *)
Lemma event_word_address ev :
  event_aligned ev ->
  DecodeMiniTraceMethodId (event_word ev) =
  match ev with
  | MethodEvent _ m _ rv => m mod 2 ^ 16 + 2 ^ 16 * (rv mod 2 ^ 16)
  | _ => event_address ev
  end.
Proof.
  intros [Hr Ha]. unfold DecodeMiniTraceMethodId. rewrite untag_mod.
  destruct ev as [tid m a rv | tid o f pc rd | tid l pc en]; cbn [event_word event_address] in *.
  - rewrite Encode_add by done. pose proof (action_code_range a).
    assert ((m + action_code a) mod 2 ^ 16 = m mod 2 ^ 16 + action_code a) as ->.
    { assert (m mod 2 ^ 16 = 8 * (m mod 2 ^ 16 / 8)) as Hm.
      { pose proof (low_half_mod8 m). mlia. }
      rewrite Z.add_mod by lia. rewrite (Z.mod_small (action_code a)) by lia.
      apply Z.mod_small. pose proof (Z.mod_pos_bound m (2 ^ 16)). lia. }
    set (m' := m mod 2 ^ 16 + 2 ^ 16 * (rv mod 2 ^ 16)).
    replace (m mod 2 ^ 16 + action_code a + 2 ^ 16 * (rv mod 2 ^ 16)) with (m' + action_code a)
      by (unfold m'; lia).
    apply tag_decode. unfold m'.
    replace (2 ^ 16 * (rv mod 2 ^ 16)) with (rv mod 2 ^ 16 * 8192 * 8) by lia.
    rewrite Z.mod_add by lia. by rewrite low_half_mod8.
  - change (EncodeMiniTraceFieldAndAction f (field_action rd))
      with (EncodeMiniTraceMethodAndAction f (field_action rd)).
    rewrite Encode_add by done. by apply tag_decode.
  - change (EncodeMiniTraceObjectAndAction l (monitor_action en))
      with (EncodeMiniTraceMethodAndAction l (monitor_action en)).
    rewrite Encode_add by done. by apply tag_decode.
Qed.

(** ** Results *)

(** C17. A record that is written into a slot can be read back: the
    fourteen-byte store stays inside the slot, the action of the event is
    recovered for every kind of event, and the address for field and monitor
    events. *)
Theorem record_roundtrip buf i ev :
  event_aligned ev -> (i + 14 <= length buf)%nat ->
  exists buf' aid, write_record buf (Z.of_nat i) ev = Ok buf' /\
    record_aid buf' (Z.of_nat i) = Ok aid /\ length buf' = length buf /\
    take i buf' = take i buf /\ drop (i + 14) buf' = drop (i + 14) buf /\
    DecodeMiniTraceAction aid = event_action ev /\
    match ev with
    | MethodEvent _ _ _ _ => True
    | _ => DecodeMiniTraceFieldId aid = event_address ev
    end.
Proof.
  intros Ha Hl. pose proof (record_bytes_fit ev) as Hfit.
  exists (splice buf i (record_bytes ev)), (event_word ev).
  rewrite write_record_ok, Nat2Z.id by (unfold kMiniTraceRecordSize; lia).
  split_and!; [done|by apply record_aid_written|by rewrite length_splice by lia|..].
  - unfold splice. by rewrite take_app_length' by (rewrite length_take; lia).
  - unfold splice. rewrite !drop_app, length_take.
    rewrite (drop_ge (take i buf)), (drop_ge (record_bytes ev)) by (rewrite ?length_take; lia).
    cbn. rewrite drop_drop. f_equal. lia.
  - by apply event_word_action.
  - pose proof (event_word_address ev Ha) as Hw. by destruct ev.
Qed.

Lemma record_roundtrip_witness :
  exists buf' aid, write_record (replicate 30 0) (Z.of_nat 14) (FieldEvent 7 4096 8192 3 true) = Ok buf' /\
    record_aid buf' (Z.of_nat 14) = Ok aid /\ length buf' = 30%nat /\
    take 14 buf' = replicate 14 0 /\ drop 28 buf' = [0; 0] /\
    DecodeMiniTraceAction aid = kMiniTraceFieldRead /\ DecodeMiniTraceFieldId aid = 8192.
Proof.
  apply (record_roundtrip (replicate 30 0) 14 (FieldEvent 7 4096 8192 3 true)).
  - split; [cbn; lia|reflexivity].
  - cbn. lia.
Defined.

(** A method record does not keep the method's address: the return value
    is stored two bytes early, so what a flush decodes has the low half of the
    return value for its upper half.  It is the method's address only when the
    two happen to agree, and never for a method above 64 KiB that returns
    nothing. *)
Theorem method_record_address buf i tid m action rv :
  0 <= m < 2 ^ 32 -> m mod 8 = 0 -> (i + 14 <= length buf)%nat ->
  exists buf' aid, write_record buf (Z.of_nat i) (MethodEvent tid m action rv) = Ok buf' /\
    record_aid buf' (Z.of_nat i) = Ok aid /\
    DecodeMiniTraceMethodId aid = m mod 2 ^ 16 + 2 ^ 16 * (rv mod 2 ^ 16) /\
    (DecodeMiniTraceMethodId aid = m <-> rv mod 2 ^ 16 = m / 2 ^ 16) /\
    (2 ^ 16 <= m -> rv = 0 -> DecodeMiniTraceMethodId aid <> m).
Proof.
  intros Hm Ha Hl.
  assert (event_aligned (MethodEvent tid m action rv)) as Hal by done.
  exists (splice buf i (record_bytes (MethodEvent tid m action rv))), (event_word (MethodEvent tid m action rv)).
  rewrite write_record_ok, Nat2Z.id by (unfold kMiniTraceRecordSize; lia).
  pose proof (event_word_address _ Hal) as Hw. cbn iota beta in Hw. rewrite Hw.
  split_and!; [done|by apply record_aid_written|done|mlia|].
  intros Hb ->. mlia.
Qed.

Lemma method_record_address_witness :
  exists buf' aid, write_record (replicate 14 0) 0 (MethodEvent 7 0x71230008 kMiniTraceMethodEnter 0) = Ok buf' /\
    record_aid buf' 0 = Ok aid /\ DecodeMiniTraceMethodId aid <> 0x71230008.
Proof.
  destruct (method_record_address (replicate 14 0) 0 7 0x71230008 kMiniTraceMethodEnter 0)
    as (buf' & aid & H1 & H2 & _ & _ & H3).
  - lia.
  - reflexivity.
  - cbn. lia.
  - exists buf', aid. split; [exact H1|]. split; [exact H2|]. apply H3; lia.
Defined.
