(* ===== verification/MiniTraceLog.v ===== *)
(** * Logging: the buffer of [mini_trace.cc]

    The tracer object, the reservation loop that the three logging functions
    share, the overflow handler and the flush, as one thread runs them.  The
    interleavings of several threads are in [MiniTraceConc].  [LOG] lines are
    not modelled. *)

From S2P Require Import Prelude FdFile ArtObjects Listener MiniTraceCodec.

(** ** The tracer object *)

Record MiniTrace := mkMiniTrace {
  trace_info_file_ : FdFile;
  trace_data_file_ : FdFile;
  buf_ : list Z;
  events_ : Z;
  do_coverage_ : bool;
  do_filter_ : bool;
  buffer_size_ : Z;
  start_time_ : Z;
  cur_offset_ : Z;
  buffer_overflow_count_ : Z;
  visited_methods_ : gset Z;
  visited_fields_ : gset Z;
  exited_threads_ : gmap Z string;
}.

Definition set_data_file (f : FdFile) (t : MiniTrace) : MiniTrace :=
  mkMiniTrace (trace_info_file_ t) f (buf_ t) (events_ t) (do_coverage_ t) (do_filter_ t)
    (buffer_size_ t) (start_time_ t) (cur_offset_ t) (buffer_overflow_count_ t)
    (visited_methods_ t) (visited_fields_ t) (exited_threads_ t).

Definition set_info_file (f : FdFile) (t : MiniTrace) : MiniTrace :=
  mkMiniTrace f (trace_data_file_ t) (buf_ t) (events_ t) (do_coverage_ t) (do_filter_ t)
    (buffer_size_ t) (start_time_ t) (cur_offset_ t) (buffer_overflow_count_ t)
    (visited_methods_ t) (visited_fields_ t) (exited_threads_ t).

Definition set_buf (b : list Z) (t : MiniTrace) : MiniTrace :=
  mkMiniTrace (trace_info_file_ t) (trace_data_file_ t) b (events_ t) (do_coverage_ t)
    (do_filter_ t) (buffer_size_ t) (start_time_ t) (cur_offset_ t) (buffer_overflow_count_ t)
    (visited_methods_ t) (visited_fields_ t) (exited_threads_ t).

Definition set_cur_offset (o : Z) (t : MiniTrace) : MiniTrace :=
  mkMiniTrace (trace_info_file_ t) (trace_data_file_ t) (buf_ t) (events_ t) (do_coverage_ t)
    (do_filter_ t) (buffer_size_ t) (start_time_ t) o (buffer_overflow_count_ t)
    (visited_methods_ t) (visited_fields_ t) (exited_threads_ t).

Definition set_overflow_count (n : Z) (t : MiniTrace) : MiniTrace :=
  mkMiniTrace (trace_info_file_ t) (trace_data_file_ t) (buf_ t) (events_ t) (do_coverage_ t)
    (do_filter_ t) (buffer_size_ t) (start_time_ t) (cur_offset_ t) n
    (visited_methods_ t) (visited_fields_ t) (exited_threads_ t).

Definition set_visited (ms fs : gset Z) (t : MiniTrace) : MiniTrace :=
  mkMiniTrace (trace_info_file_ t) (trace_data_file_ t) (buf_ t) (events_ t) (do_coverage_ t)
    (do_filter_ t) (buffer_size_ t) (start_time_ t) (cur_offset_ t) (buffer_overflow_count_ t)
    ms fs (exited_threads_ t).

Definition set_exited (e : gmap Z string) (t : MiniTrace) : MiniTrace :=
  mkMiniTrace (trace_info_file_ t) (trace_data_file_ t) (buf_ t) (events_ t) (do_coverage_ t)
    (do_filter_ t) (buffer_size_ t) (start_time_ t) (cur_offset_ t) (buffer_overflow_count_ t)
    (visited_methods_ t) (visited_fields_ t) e.

(** [MiniTrace::MiniTraceFlag]. *)
Definition kDoMethodEntered : Z := Z.shiftl 1 0.
Definition kDoMethodExited : Z := Z.shiftl 1 1.
Definition kDoMethodUnwind : Z := Z.shiftl 1 2.
Definition kDoDexPcMoved : Z := Z.shiftl 1 3.
Definition kDoFieldRead : Z := Z.shiftl 1 4.
Definition kDoFieldWritten : Z := Z.shiftl 1 5.
Definition kDoExceptionCaught : Z := Z.shiftl 1 6.
Definition kDoMonitorEntered : Z := Z.shiftl 1 7.
Definition kDoMonitorExited : Z := Z.shiftl 1 8.
Definition kDoCoverage : Z := Z.shiftl 1 9.
Definition kDoFilter : Z := Z.shiftl 1 10.

(** The constructor.  [new uint8_t[buffer_size]()] is zeroed; a negative size
    makes [new] throw. *)
Definition MiniTrace_new (trace_info_file trace_data_file : FdFile) (events buffer_size now : Z)
  : outcome MiniTrace :=
  if buffer_size <? 0 then Fault UncaughtException
  else Ok (mkMiniTrace trace_info_file trace_data_file (replicate (Z.to_nat buffer_size) 0)
             events (HasFlag events kDoCoverage) (HasFlag events kDoFilter) buffer_size now
             0 0 ∅ ∅ ∅).

(** ** Flushing *)

(** The loop of [FlushBuffer] that collects what the records name.  One round
    per record: [FlushBuffer] gives it one more than the buffer has records,
    and [scan_records_spec] shows that it ends. *)
Fixpoint scan_records (fuel : nat) (buf : list Z) (ptr end_ : Z) (ms fs : gset Z)
  : outcome (gset Z * gset Z) :=
  if negb (ptr <? end_) then Ok (ms, fs)
  else
    match fuel with
    | O => Fault OutOfFuel
    | S fuel =>
        aid ← record_aid buf ptr;
        match DecodeMiniTraceAction aid with
        | kMiniTraceMethodEnter | kMiniTraceMethodExit | kMiniTraceUnroll =>
            scan_records fuel buf (ptr + kMiniTraceRecordSize) end_
              ({[DecodeMiniTraceMethodId aid]} ∪ ms) fs
        | kMiniTraceFieldRead | kMiniTraceFieldWrite =>
            scan_records fuel buf (ptr + kMiniTraceRecordSize) end_
              ms ({[DecodeMiniTraceFieldId aid]} ∪ fs)
        | kMiniTraceMonitorEnter | kMiniTraceMonitorExit =>
            scan_records fuel buf (ptr + kMiniTraceRecordSize) end_ ms fs
        | kMiniTraceActionMask => Fault FatalLog
        end
    end.

Section Logging.
Context {W : Type} `{!PosixOps W}.

(** The tracer and the kernel. *)
Record TS := mkTS { ts_trace : MiniTrace; ts_os : W }.

Definition upd (f : MiniTrace -> MiniTrace) : M TS unit :=
  modify (fun s => mkTS (f (ts_trace s)) (ts_os s)).

(** Run a file operation on the kernel state. *)
Definition on_os {A} (m : M W A) : M TS A := fun s =>
  match m (ts_os s) with
  | Ok (a, w) => Ok (a, mkTS (ts_trace s) w)
  | Fault f => Fault f
  end.

Lemma bind_upd {B} f (k : unit -> M TS B) t w :
  (upd f ≫= k) (mkTS t w) = k tt (mkTS (f t) w).
Proof. done. Qed.

Lemma bind_on_os {A B} (m : M W A) (k : A -> M TS B) t w :
  (on_os m ≫= k) (mkTS t w) =
  match m w with Ok (a, w') => k a (mkTS t w') | Fault f => Fault f end.
Proof. unfold on_os, mbind, M_bind. cbn. by destruct (m w) as [[]|]. Qed.

(** [buf_.get()[0 .. n)], as [write] reads it. *)
Definition buf_prefix (buf : list Z) (n : Z) : outcome (list Z) :=
  if (0 <=? n) && (n <=? Z.of_nat (length buf)) then Ok (take (Z.to_nat n) buf)
  else Fault OutOfBounds.

Definition FlushBuffer : M TS bool :=
  cur_offset ← gets (fun s => cur_offset_ (ts_trace s));
  if cur_offset =? 0 then mret true
  else
    buf ← gets (fun s => buf_ (ts_trace s));
    data ← lift (buf_prefix buf cur_offset);
    file ← gets (fun s => trace_data_file_ (ts_trace s));
    '(ok, file) ← on_os (WriteFully data file);
    upd (set_data_file file) ;;
    if negb ok then mret false
    else
      t ← gets ts_trace;
      '(ms, fs) ← lift (scan_records (S (Z.to_nat (cur_offset / kMiniTraceRecordSize))) buf 0
                          cur_offset (visited_methods_ t) (visited_fields_ t));
      upd (set_visited ms fs) ;;
      upd (set_cur_offset 0) ;;
      mret true.

(** The part of [HandleOverflow] that runs under [trace_lock_]. *)
Definition HandleOverflow_locked (local_count : Z) : M TS bool :=
  count ← gets (fun s => buffer_overflow_count_ (ts_trace s));
  if negb (local_count =? count) then mret true
  else
    upd (set_overflow_count (count + 1)) ;;
    FlushBuffer.

Definition HandleOverflow : M TS bool :=
  local_count ← gets (fun s => buffer_overflow_count_ (ts_trace s));
  if 1024 <? local_count then mret false
  else HandleOverflow_locked local_count.

(** [cur_offset_.CompareExchangeWeakSequentiallyConsistent(old, new)], when
    it does not fail spuriously. *)
Definition CompareExchange (old_offset new_offset : Z) : M TS bool :=
  cur ← gets (fun s => cur_offset_ (ts_trace s));
  if cur =? old_offset then upd (set_cur_offset new_offset) ;; mret true
  else mret false.

(** The [do .. while] that reserves a slot.  [continue] goes to the loop's
    condition, so a handled overflow is followed by the compare-and-exchange
    of the old offsets.  [None] is the early return. *)
Fixpoint reserve (fuel : nat) : M TS (option Z) :=
  match fuel with
  | O => lift (Fault OutOfFuel)
  | S fuel =>
      old_offset ← gets (fun s => cur_offset_ (ts_trace s));
      let new_offset := s32 (old_offset + kMiniTraceRecordSize) in
      size ← gets (fun s => buffer_size_ (ts_trace s));
      go ← (if size <? new_offset then HandleOverflow else mret true);
      if negb go then mret None
      else
        done ← CompareExchange old_offset new_offset;
        if (done : bool) then mret (Some old_offset) else reserve fuel
  end.

(** Two rounds are enough: one that overflows and one in the emptied buffer. *)
Definition reserve_fuel : nat := 2.

(** The tail the three logging functions share: reserve a slot, fill it. *)
Definition log_event (ev : Event) : M TS unit :=
  slot ← reserve reserve_fuel;
  match slot with
  | None => mret tt
  | Some old_offset =>
      buf ← gets (fun s => buf_ (ts_trace s));
      buf ← lift (write_record buf old_offset ev);
      upd (set_buf buf)
  end.

(** The switch of [LogMethodTraceEvent]. *)
Definition method_action (event : InstrumentationEvent) : outcome MiniTraceAction :=
  match event with
  | kMethodEntered => Ok kMiniTraceMethodEnter
  | kMethodExited => Ok kMiniTraceMethodExit
  | kMethodUnwind => Ok kMiniTraceUnroll
  | _ => Fault FatalLog
  end.

Definition LogMethodTraceEvent (h : Heap) (thread method dex_pc : Z)
    (event : InstrumentationEvent) (return_value : Z) : M TS unit :=
  m ← lift (deref (h_methods h) method);
  if negb (method_IsMiniTraceable m) then mret tt
  else
    action ← lift (method_action event);
    log_event (MethodEvent thread method action return_value).

Definition LogFieldTraceEvent (h : Heap) (thread this_object field dex_pc : Z)
    (read_event : bool) : M TS unit :=
  f ← lift (deref (h_fields h) field);
  if negb (field_IsMiniTraceable f) then mret tt
  else log_event (FieldEvent thread this_object field dex_pc read_event).

Definition LogMonitorTraceEvent (thread lock_object dex_pc : Z) (enter_event : bool) : M TS unit :=
  log_event (MonitorEvent thread lock_object dex_pc enter_event).

(** The listener functions. *)
Definition on_call (h : Heap) (c : ListenerCall) : M TS unit :=
  match c with
  | MethodEntered thread this_object method dex_pc =>
      LogMethodTraceEvent h thread method dex_pc kMethodEntered 0
  | MethodExited thread this_object method dex_pc return_value =>
      LogMethodTraceEvent h thread method dex_pc kMethodExited return_value
  | MethodUnwind thread this_object method dex_pc =>
      LogMethodTraceEvent h thread method dex_pc kMethodUnwind 0
  | DexPcMoved _ _ _ _ => mret tt
  | FieldRead thread this_object method dex_pc field =>
      LogFieldTraceEvent h thread this_object field dex_pc true
  | FieldWritten thread this_object method dex_pc field field_value =>
      LogFieldTraceEvent h thread this_object field dex_pc false
  | ExceptionCaught _ _ => mret tt
  | BackwardBranch _ _ _ => mret tt
  end.

End Logging.

Arguments TS W : clear implicits.

(** ** Slots *)

(** Slot [k] of a byte array holds an event: its bytes are there, in order.
    (A method or monitor record does not use all of its slot.) *)
Definition slot_holds (bytes : list Z) (k : nat) (ev : Event) : Prop :=
  forall j b, record_bytes ev !! j = Some b -> bytes !! (14 * k + j)%nat = Some b.

Definition holds (bytes : list Z) (evs : list Event) : Prop :=
  forall k ev, evs !! k = Some ev -> slot_holds bytes k ev.

Lemma holds_nil bytes : holds bytes [].
Proof. intros k ev H. by rewrite lookup_nil in H. Qed.

Lemma splice_lookup_lt (buf : list Z) i bs j :
  (j < i)%nat -> (i <= length buf)%nat -> splice buf i bs !! j = buf !! j.
Proof.
  intros Hj Hi. unfold splice. rewrite lookup_app_l by (rewrite length_take; lia).
  by rewrite lookup_take_lt by done.
Qed.

(** Filling the next slot keeps the slots before it. *)
Lemma holds_snoc buf evs ev :
  holds buf evs -> (14 * S (length evs) <= length buf)%nat ->
  holds (splice buf (14 * length evs) (record_bytes ev)) (evs ++ [ev]).
Proof.
  intros Hh Hlen k ev' Hk j b Hj.
  pose proof (record_bytes_fit ev') as Hfit.
  pose proof (lookup_lt_Some _ _ _ Hj) as Hjlt.
  destruct (decide (k < length evs)%nat) as [Hlt|Hge].
  - rewrite lookup_app_l in Hk by done.
    rewrite splice_lookup_lt by lia. by apply (Hh k ev').
  - pose proof (lookup_lt_Some _ _ _ Hk) as Hklt. rewrite length_app in Hklt. cbn in Hklt.
    replace k with (length evs) in * by lia.
    rewrite lookup_app_r, Nat.sub_diag in Hk by lia. injection Hk as <-.
    rewrite splice_lookup by lia. done.
Qed.

(** Written records followed by the buffer's are the records of both. *)
Lemma holds_app bytes buf fl bd :
  holds bytes fl -> holds buf bd -> length bytes = (14 * length fl)%nat ->
  (14 * length bd <= length buf)%nat ->
  holds (bytes ++ take (14 * length bd) buf) (fl ++ bd).
Proof.
  intros Hf Hb Hlen Hlen2 k ev Hk j b Hj.
  pose proof (record_bytes_fit ev) as Hfit.
  pose proof (lookup_lt_Some _ _ _ Hj) as Hjlt.
  destruct (decide (k < length fl)%nat) as [Hlt|Hge].
  - rewrite lookup_app_l in Hk by done. rewrite lookup_app_l by lia. by apply (Hf k ev).
  - rewrite lookup_app_r in Hk by lia. pose proof (lookup_lt_Some _ _ _ Hk).
    rewrite lookup_app_r by lia. rewrite lookup_take_lt by lia.
    replace (14 * k + j - length bytes)%nat with (14 * (k - length fl) + j)%nat by lia.
    by apply (Hb (k - length fl)%nat ev).
Qed.

Lemma splice_id (buf : list Z) i bs :
  (forall j b, bs !! j = Some b -> buf !! (i + j)%nat = Some b) -> splice buf i bs = buf.
Proof.
  revert i. induction bs as [|b bs IH]; intros i H; unfold splice.
  - cbn. by rewrite Nat.add_0_r, take_drop.
  - assert (buf !! i = Some b) as Hb by (rewrite <- (Nat.add_0_r i); by apply H).
    rewrite <- (IH (S i)) at 3.
    + unfold splice. rewrite (take_S_r _ _ _ Hb), <- app_assoc. cbn. repeat f_equal. lia.
    + intros j b' Hj. replace (S i + j)%nat with (i + S j)%nat by lia. by apply H.
Qed.

Lemma slot_aid buf k ev :
  event_aligned ev -> slot_holds buf k ev -> (14 * S k <= length buf)%nat ->
  record_aid buf (14 * Z.of_nat k) = Ok (event_word ev).
Proof.
  intros Ha Hs Hlen. rewrite <- (splice_id buf (14 * k) (record_bytes ev)) by done.
  replace (14 * Z.of_nat k) with (Z.of_nat (14 * k)) by lia.
  apply record_aid_written; [done|lia].
Qed.

(** What the records of a list of events name. *)
Fixpoint named_methods (evs : list Event) : gset Z :=
  match evs with
  | [] => ∅
  | ev :: evs =>
      match event_action ev with
      | kMiniTraceMethodEnter | kMiniTraceMethodExit | kMiniTraceUnroll =>
          {[DecodeMiniTraceMethodId (event_word ev)]} ∪ named_methods evs
      | _ => named_methods evs
      end
  end.

Fixpoint named_fields (evs : list Event) : gset Z :=
  match evs with
  | [] => ∅
  | ev :: evs =>
      match event_action ev with
      | kMiniTraceFieldRead | kMiniTraceFieldWrite =>
          {[DecodeMiniTraceFieldId (event_word ev)]} ∪ named_fields evs
      | _ => named_fields evs
      end
  end.

(** An event as the logging functions make them. *)
Definition event_wf (ev : Event) : Prop :=
  event_aligned ev /\
  match ev with
  | MethodEvent _ _ a _ =>
      a = kMiniTraceMethodEnter \/ a = kMiniTraceMethodExit \/ a = kMiniTraceUnroll
  | _ => True
  end.

Lemma event_wf_action ev : event_wf ev -> event_action ev <> kMiniTraceActionMask.
Proof.
  intros [_ H]. destruct ev as [? ? a ? | ? ? ? ? rd | ? ? ? en]; cbn in *.
  - naive_solver.
  - by destruct rd.
  - by destruct en.
Qed.

(** The scan of a flush visits every record of the buffer and ends. *)
Lemma scan_records_spec buf evs : forall k fuel ms fs,
  (forall j ev, evs !! j = Some ev -> event_wf ev /\ slot_holds buf (k + j) ev) ->
  (14 * (k + length evs) <= length buf)%nat -> (length evs < fuel)%nat ->
  exists ms' fs',
    scan_records fuel buf (14 * Z.of_nat k) (14 * Z.of_nat (k + length evs)) ms fs = Ok (ms', fs') /\
    ms' = named_methods evs ∪ ms /\ fs' = named_fields evs ∪ fs.
Proof.
  induction evs as [|ev evs IH]; intros k fuel ms fs Hev Hlen Hfuel.
  - exists ms, fs. destruct fuel as [|fuel]; [lia|]. cbn [scan_records length].
    rewrite (proj2 (Z.ltb_ge _ _)) by lia. cbn. repeat split; set_solver.
  - destruct fuel as [|fuel]; [cbn in *; lia|]. cbn [scan_records length] in *.
    rewrite (proj2 (Z.ltb_lt _ _)) by lia. cbn [negb].
    destruct (Hev 0%nat ev eq_refl) as [Hwf Hs]. rewrite Nat.add_0_r in Hs.
    rewrite (slot_aid buf k ev) by (destruct Hwf; done || lia). cbn [mbind outcome_bind].
    rewrite event_word_action by apply Hwf.
    replace (14 * Z.of_nat k + kMiniTraceRecordSize) with (14 * Z.of_nat (S k))
      by (unfold kMiniTraceRecordSize; lia).
    replace (k + S (length evs))%nat with (S k + length evs)%nat by lia.
    pose proof (event_wf_action _ Hwf) as Hmask.
    cbn [named_methods named_fields].
    assert (forall ms fs, exists ms' fs',
      scan_records fuel buf (14 * Z.of_nat (S k)) (14 * Z.of_nat (S k + length evs)) ms fs
        = Ok (ms', fs') /\ ms' = named_methods evs ∪ ms /\ fs' = named_fields evs ∪ fs) as Hrec.
    { intros. apply IH; [|lia..]. intros j ev' Hj.
      replace (S k + j)%nat with (k + S j)%nat by lia. by apply Hev. }
    clear IH Hev. destruct (event_action ev); [| | | | | | |done].
    1-3: destruct (Hrec ({[DecodeMiniTraceMethodId (event_word ev)]} ∪ ms) fs) as (ms' & fs' & -> & -> & ->);
      eexists _, _; split; [done|]; split; set_solver.
    1-2: destruct (Hrec ms ({[DecodeMiniTraceFieldId (event_word ev)]} ∪ fs)) as (ms' & fs' & -> & -> & ->);
      eexists _, _; split; [done|]; split; set_solver.
    all: destruct (Hrec ms fs) as (ms' & fs' & -> & -> & ->); eexists _, _; done.
Qed.

(** ** One thread at a time *)

Section Sequential.
Context {W : Type} `{!PosixOps W, !PosixLaws W}.

Definition data_fd (s : TS W) : Z := fd_ (trace_data_file_ (ts_trace s)).

(** The bytes of the trace data file. *)
Definition data_written (s : TS W) : list Z := written (ts_os s) (data_fd s).

(** How many records fit into the buffer. *)
Definition capacity (t : MiniTrace) : nat := Z.to_nat (buffer_size_ t / 14).

(** The tracer between two log calls: [pend] are the events in its buffer. *)
Record trace_wf (t : MiniTrace) (pend : list Event) : Prop := {
  wf_size : 14 <= buffer_size_ t < 2 ^ 31 - 14;
  wf_buf : length (buf_ t) = Z.to_nat (buffer_size_ t);
  wf_cur : cur_offset_ t = 14 * Z.of_nat (length pend);
  wf_fits : (length pend <= capacity t)%nat;
  wf_count : 0 <= buffer_overflow_count_ t <= 1025;
  wf_holds : holds (buf_ t) pend;
  wf_events : Forall event_wf pend;
}.

Lemma capacity_bytes t pend :
  trace_wf t pend -> (14 * length pend <= length (buf_ t))%nat.
Proof.
  intros H. pose proof (wf_fits _ _ H) as Hf. pose proof (wf_size _ _ H).
  rewrite (wf_buf _ _ H). unfold capacity in Hf. mlia.
Qed.

(** Run the program up to the next branch. *)
Ltac run :=
  repeat (rewrite ?bind_gets, ?bind_upd, ?bind_on_os, ?bind_lift, ?bind_ret; cbn [ts_trace ts_os]).

(** A flush either writes the whole buffer and empties it, or fails with a
    part of it written and keeps it. *)
Lemma FlushBuffer_spec t w pend :
  trace_wf t pend -> pend <> [] ->
  exists ok w',
    let t1 := set_data_file (moveTo kBase (trace_data_file_ t)) t in
    FlushBuffer (mkTS t w) =
      Ok (ok, mkTS (if ok : bool then
                      set_cur_offset 0 (set_visited (named_methods pend ∪ visited_methods_ t)
                                          (named_fields pend ∪ visited_fields_ t) t1)
                    else t1) w') /\
    (forall fd', fd' <> fd_ (trace_data_file_ t) -> written w' fd' = written w fd') /\
    let fd := fd_ (trace_data_file_ t) in
    let data := take (14 * length pend) (buf_ t) in
    if ok : bool then written w' fd = written w fd ++ data
    else WriteFully data (trace_data_file_ t) w = Ok ((false, moveTo kBase (trace_data_file_ t)), w') /\
         exists n, (n < length data)%nat /\ written w' fd = written w fd ++ take n data.
Proof.
  intros Hwf Hne. pose proof (capacity_bytes _ _ Hwf) as Hcap.
  destruct Hwf as [Hsize Hbuf Hcur Hfits Hcount Hh Hev].
  assert (length pend <> 0%nat) as Hn0 by (by destruct pend).
  set (data := take (14 * length pend) (buf_ t)).
  destruct (WriteFully_spec data (trace_data_file_ t) w)
    as (ok & w' & n & HW & Hw & Ht & Hf & Ho).
  exists ok, w'. cbn zeta.
  unfold FlushBuffer. run. destruct (Z.eqb_spec (cur_offset_ t) 0); [lia|]. run.
  assert (buf_prefix (buf_ t) (cur_offset_ t) = Ok data) as ->.
  { unfold buf_prefix. rewrite Hcur. rewrite (proj2 (Z.leb_le _ _)), (proj2 (Z.leb_le _ _)) by lia.
    cbn [andb]. do 2 f_equal. lia. }
  run. rewrite HW. run. destruct ok; cbn [negb]; run.
  - assert (exists ms' fs',
      scan_records (S (Z.to_nat (cur_offset_ t / kMiniTraceRecordSize))) (buf_ t) 0 (cur_offset_ t)
        (visited_methods_ t) (visited_fields_ t) = Ok (ms', fs') /\
      ms' = named_methods pend ∪ visited_methods_ t /\
      fs' = named_fields pend ∪ visited_fields_ t) as (ms' & fs' & Hscan & -> & ->).
    { rewrite Hcur. apply (scan_records_spec (buf_ t) pend 0).
      - intros j ev Hj. split; [|by apply Hh]. by eapply Forall_lookup_1.
      - lia.
      - unfold kMiniTraceRecordSize. mlia. }
    cbn [set_data_file visited_methods_ visited_fields_]. rewrite Hscan. run.
    split; [done|]. split; [done|]. cbn beta iota. by rewrite Hw, take_ge by auto.
  - split; [done|]. split; [done|]. split; [done|]. exists n. split; [auto|done].
Qed.

(** ** The log call *)

(** The states a log call can leave, seen from the events pending. *)
Inductive log_result (t : MiniTrace) (pend : list Event) (ev : Event) (w : W)
  : MiniTrace -> list Event -> W -> Prop :=
| LogStored t' :
    (length pend < capacity t)%nat ->
    buffer_overflow_count_ t' = buffer_overflow_count_ t ->
    log_result t pend ev w t' (pend ++ [ev]) w
| LogFlushed t' w' :
    length pend = capacity t -> buffer_overflow_count_ t <= 1024 ->
    buffer_overflow_count_ t' = buffer_overflow_count_ t + 1 ->
    written w' (fd_ (trace_data_file_ t)) =
      written w (fd_ (trace_data_file_ t)) ++ take (14 * length pend) (buf_ t) ->
    log_result t pend ev w t' [ev] w'
| LogFailed t' w' n :
    length pend = capacity t -> buffer_overflow_count_ t <= 1024 ->
    buffer_overflow_count_ t' = buffer_overflow_count_ t + 1 -> (n < 14 * length pend)%nat ->
    written w' (fd_ (trace_data_file_ t)) =
      written w (fd_ (trace_data_file_ t)) ++ take n (buf_ t) ->
    WriteFully (take (14 * length pend) (buf_ t)) (trace_data_file_ t) w
      = Ok ((false, moveTo kBase (trace_data_file_ t)), w') ->
    log_result t pend ev w t' pend w'
| LogDropped :
    length pend = capacity t -> 1024 < buffer_overflow_count_ t ->
    log_result t pend ev w t pend w.

Lemma fd_moveTo g f : fd_ (moveTo g f) = fd_ f.
Proof. unfold moveTo. by repeat case_match. Qed.

Lemma CompareExchange_same {B} old new t w (k : bool -> M (TS W) B) :
  cur_offset_ t = old ->
  (CompareExchange old new ≫= k) (mkTS t w) = k true (mkTS (set_cur_offset new t) w).
Proof. intros H. unfold CompareExchange, mbind, M_bind, gets. cbn [ts_trace]. by rewrite H, Z.eqb_refl. Qed.

Lemma CompareExchange_other {B} old new t w (k : bool -> M (TS W) B) :
  cur_offset_ t <> old -> (CompareExchange old new ≫= k) (mkTS t w) = k false (mkTS t w).
Proof.
  intros H. unfold CompareExchange, mbind, M_bind, gets. cbn [ts_trace].
  by rewrite (proj2 (Z.eqb_neq _ _) H).
Qed.

(** What a reservation can return, from a buffer with room and from a full one. *)
Lemma reserve_room fuel t w pend :
  trace_wf t pend -> (length pend < capacity t)%nat ->
  reserve (S fuel) (mkTS t w) =
    Ok (Some (14 * Z.of_nat (length pend)),
        mkTS (set_cur_offset (14 * Z.of_nat (S (length pend))) t) w).
Proof.
  intros Hwf Hroom. pose proof (wf_size _ _ Hwf). pose proof (wf_cur _ _ Hwf) as Hcur.
  unfold capacity in Hroom.
  cbn [reserve]. run. rewrite Hcur. unfold kMiniTraceRecordSize. rewrite s32_small by mlia.
  rewrite (proj2 (Z.ltb_ge _ _)) by mlia. run. cbn [negb].
  rewrite (CompareExchange_same _ _ _ _ _ Hcur). unfold mret, M_ret. do 4 f_equal. lia.
Qed.

(** Filling the slot that was reserved. *)
Lemma fill_slot t pend ev :
  trace_wf t pend -> event_wf ev -> (length pend < capacity t)%nat ->
  write_record (buf_ t) (14 * Z.of_nat (length pend)) ev =
    Ok (splice (buf_ t) (14 * length pend) (record_bytes ev)) /\
  trace_wf (set_buf (splice (buf_ t) (14 * length pend) (record_bytes ev))
              (set_cur_offset (14 * Z.of_nat (S (length pend))) t)) (pend ++ [ev]).
Proof.
  intros Hwf Hev Hroom. pose proof (record_bytes_fit ev).
  pose proof (wf_size _ _ Hwf). pose proof (wf_buf _ _ Hwf) as Hb.
  assert (14 * S (length pend) <= length (buf_ t))%nat as Hlen
    by (rewrite Hb; unfold capacity in Hroom; mlia).
  split.
  - rewrite write_record_ok by (unfold kMiniTraceRecordSize; lia). do 2 f_equal. lia.
  - split; cbn [set_buf set_cur_offset buf_ buffer_size_ cur_offset_ buffer_overflow_count_].
    + apply Hwf.
    + rewrite length_splice by lia. done.
    + rewrite length_app. cbn. lia.
    + rewrite length_app. cbn. unfold capacity in *. cbn. lia.
    + apply Hwf.
    + apply holds_snoc; [apply Hwf|done].
    + apply Forall_app. split; [apply Hwf|]. by constructor.
Qed.

Lemma trace_wf_empty t pend f ms fs n :
  trace_wf t pend -> 0 <= n <= 1025 ->
  trace_wf (set_cur_offset 0 (set_visited ms fs (set_data_file f (set_overflow_count n t)))) [].
Proof.
  intros Hwf Hn. split; cbn; try apply Hwf; try done.
  - lia.
Qed.

Lemma trace_wf_recount t pend f n :
  trace_wf t pend -> 0 <= n <= 1025 ->
  trace_wf (set_data_file f (set_overflow_count n t)) pend.
Proof. intros Hwf Hn. split; cbn; try apply Hwf; done. Qed.

(** A full buffer: the round that handles the overflow. *)
Lemma reserve_full {B} t w pend (k : option Z -> M (TS W) B) :
  trace_wf t pend -> length pend = capacity t ->
  (reserve reserve_fuel ≫= k) (mkTS t w) =
  (HandleOverflow ≫= fun go : bool =>
     if negb go then k None
     else CompareExchange (cur_offset_ t) (s32 (cur_offset_ t + kMiniTraceRecordSize)) ≫= fun done : bool =>
          if done then k (Some (cur_offset_ t)) else reserve 1 ≫= k) (mkTS t w).
Proof.
  intros Hwf Hlen. unfold reserve_fuel. cbn [reserve]. rewrite bind_assoc. run.
  rewrite bind_assoc. run. rewrite (proj2 (Z.ltb_lt _ _)).
  - rewrite bind_assoc. unfold mbind, M_bind.
    destruct (HandleOverflow _) as [[[] [t1 w1]]|]; try done. cbn [negb].
    by destruct (CompareExchange _ _ _) as [[[] ?]|].
  - pose proof (wf_cur _ _ Hwf) as Hc. pose proof (wf_size _ _ Hwf). rewrite Hc, Hlen.
    unfold kMiniTraceRecordSize, capacity in *. rewrite s32_small; mlia.
Qed.

Lemma HandleOverflow_run {B} t w (k : bool -> M (TS W) B) :
  (HandleOverflow ≫= k) (mkTS t w) =
  if 1024 <? buffer_overflow_count_ t then k false (mkTS t w)
  else (FlushBuffer ≫= k) (mkTS (set_overflow_count (buffer_overflow_count_ t + 1) t) w).
Proof.
  unfold HandleOverflow. rewrite bind_assoc. run. destruct (1024 <? _); run; [done|].
  unfold HandleOverflow_locked. rewrite bind_assoc. run. rewrite Z.eqb_refl. cbn [negb].
  rewrite bind_assoc. by run.
Qed.

(** Reserving and filling a slot of a buffer with room. *)
Lemma log_room fuel t w pend ev (k : option Z -> M (TS W) unit) :
  trace_wf t pend -> event_wf ev -> (length pend < capacity t)%nat ->
  k = (fun slot => match slot with
                   | None => mret tt
                   | Some old_offset =>
                       buf ← gets (fun s => buf_ (ts_trace s));
                       buf ← lift (write_record buf old_offset ev);
                       upd (set_buf buf)
                   end) ->
  exists t', (reserve (S fuel) ≫= k) (mkTS t w) = Ok (tt, mkTS t' w) /\
    trace_wf t' (pend ++ [ev]) /\ buffer_overflow_count_ t' = buffer_overflow_count_ t /\
    trace_data_file_ t' = trace_data_file_ t /\ buffer_size_ t' = buffer_size_ t.
Proof.
  intros Hwf Hev Hroom ->. destruct (fill_slot _ _ _ Hwf Hev Hroom) as [Hfill Hwf'].
  eexists. split; [|split; [exact Hwf'|done]].
  rewrite (bind_ok _ _ _ _ _ (reserve_room fuel _ w _ Hwf Hroom)). run.
  cbn [set_cur_offset buf_]. rewrite Hfill. by run.
Qed.

(** A log call returns, keeps the tracer well-formed and has one of the four
    results: stored, stored after a flush, dropped by a failed write, dropped
    after the flush limit. *)
Lemma log_event_result t w pend ev :
  trace_wf t pend -> event_wf ev ->
  exists t' w' pend', log_event ev (mkTS t w) = Ok (tt, mkTS t' w') /\
    trace_wf t' pend' /\ log_result t pend ev w t' pend' w' /\
    fd_ (trace_data_file_ t') = fd_ (trace_data_file_ t) /\ buffer_size_ t' = buffer_size_ t.
Proof.
  intros Hwf Hev. pose proof (wf_size _ _ Hwf) as Hsize. pose proof (wf_count _ _ Hwf) as Hcnt.
  unfold log_event.
  destruct (decide (length pend < capacity t)%nat) as [Hroom|Hfull].
  { edestruct (log_room 1 t w) as (t' & Hl & Hwf' & Hc & Hf & Hs); [done..|].
    exists t', w, (pend ++ [ev]). rewrite Hf. split; [exact Hl|]. split; [done|].
    split; [by apply LogStored|done]. }
  assert (length pend = capacity t) as Hlen by (pose proof (wf_fits _ _ Hwf); lia).
  assert (pend <> []) as Hne by (intros ->; unfold capacity in Hlen; cbn in Hlen; mlia).
  rewrite (reserve_full _ _ _ _ Hwf Hlen), HandleOverflow_run.
  destruct (Z.ltb_spec 1024 (buffer_overflow_count_ t)) as [Hlim|Hlim].
  { exists t, w, pend. repeat split; try apply Hwf; try done. by constructor. }
  set (n := buffer_overflow_count_ t + 1) in *.
  assert (trace_wf (set_overflow_count n t) pend) as Hwf1
    by (split; cbn; try apply Hwf; unfold n; lia).
  destruct (FlushBuffer_spec (set_overflow_count n t) w pend Hwf1 Hne) as (ok & w' & HF & _ & HW).
  cbn zeta in *. rewrite (bind_ok _ _ _ _ _ HF).
  cbn [set_overflow_count trace_data_file_ buf_ visited_methods_ visited_fields_] in HW |- *.
  destruct ok; cbn [negb].
  - set (t2 := set_cur_offset 0 _).
    assert (trace_wf t2 []) as Hwf2 by (apply (trace_wf_empty t pend); [done | unfold n; lia]).
    rewrite CompareExchange_other.
    2:{ rewrite (wf_cur _ _ Hwf). change (cur_offset_ t2) with 0. destruct pend; [done|cbn; lia]. }
    edestruct (log_room 0 t2 w' []) as (t' & Hl & Hwf' & Hc & Hf & Hs); [done..| |done|].
    { unfold capacity. cbn. mlia. }
    exists t', w', [ev]. split; [exact Hl|]. split; [exact Hwf'|].
    rewrite Hf, Hs. unfold t2. cbn [set_cur_offset set_visited set_data_file trace_data_file_ buffer_size_].
    rewrite fd_moveTo. split; [by apply LogFlushed|done].
  - eexists _, w', pend. split; [done|]. split; [apply (trace_wf_recount t); [done | unfold n; lia]|].
    split; [|cbn [set_data_file trace_data_file_ buffer_size_]; by rewrite fd_moveTo].
    destruct HW as (HWF & k & Hk & HW). rewrite length_take in Hk.
    apply (LogFailed _ _ _ _ _ _ k); try done; [lia|].
    rewrite HW, take_take. do 2 f_equal. lia.
Qed.

(** ** What the tracer promises *)

(** The tracer as a client sees it: the events in the file, those still
    pending, and how often it wrote.  A full buffer is written out, up to
    1025 times; after that events are dropped. *)
Record AbsTrace := mkAbs {
  ab_capacity : nat;
  ab_flushed : list Event;
  ab_pending : list Event;
  ab_flushes : Z;
}.

Definition abs_log (a : AbsTrace) (ev : Event) : AbsTrace :=
  if (length (ab_pending a) <? ab_capacity a)%nat then
    mkAbs (ab_capacity a) (ab_flushed a) (ab_pending a ++ [ev]) (ab_flushes a)
  else if 1024 <? ab_flushes a then a
  else mkAbs (ab_capacity a) (ab_flushed a ++ ab_pending a) [ev] (ab_flushes a + 1).

Record refines (s : TS W) (a : AbsTrace) : Prop := {
  rf_wf : trace_wf (ts_trace s) (ab_pending a);
  rf_capacity : capacity (ts_trace s) = ab_capacity a;
  rf_flushes : buffer_overflow_count_ (ts_trace s) = ab_flushes a;
  rf_holds : holds (data_written s) (ab_flushed a);
  rf_length : length (data_written s) = (14 * length (ab_flushed a))%nat;
}.

(** One log call simulates one abstract step. *)
Lemma log_event_simulates s a ev :
  reliable_writes (W := W) -> refines s a -> event_wf ev ->
  exists s', log_event ev s = Ok (tt, s') /\ refines s' (abs_log a ev).
Proof.
  intros Hrel [Hwf Hcap Hfl Hh Hl] Hev. destruct s as [t w]. cbn [ts_trace] in *.
  destruct (log_event_result t w _ ev Hwf Hev) as (t' & w' & pend' & Hlog & Hwf' & Hr & Hfd & Hsz).
  exists (mkTS t' w'). split; [exact Hlog|].
  pose proof (wf_fits _ _ Hwf) as Hfits.
  assert (capacity t' = ab_capacity a) as Hcap' by (unfold capacity in *; by rewrite Hsz).
  unfold abs_log, data_written, data_fd in *. cbn [ts_trace ts_os] in *.
  destruct Hr as [t' Hlt Hc | t' w' He Hc Hc' HW | t' w' n He Hc Hc' Hn HW HWF | He Hc].
  - rewrite (proj2 (Nat.ltb_lt _ _)) by lia.
    split; unfold data_written, data_fd; cbn; rewrite ?Hfd; done || lia.
  - rewrite (proj2 (Nat.ltb_ge _ _)), (proj2 (Z.ltb_ge _ _)) by lia.
    pose proof (capacity_bytes _ _ Hwf).
    split; cbn [ab_pending ab_flushed ab_flushes ab_capacity ts_trace ts_os]; try done; [lia|..];
      unfold data_written, data_fd; cbn [ts_trace ts_os]; rewrite Hfd, HW.
    + apply holds_app; try done. apply Hwf.
    + rewrite !length_app, length_take. lia.
  - exfalso. by eapply WriteFully_reliable.
  - rewrite (proj2 (Nat.ltb_ge _ _)), (proj2 (Z.ltb_lt _ _)) by lia. by split.
Qed.

(** A run of log calls. *)
Fixpoint log_all (evs : list Event) : M (TS W) unit :=
  match evs with
  | [] => mret tt
  | ev :: evs => log_event ev ;; log_all evs
  end.

Lemma log_all_simulates evs : forall s a,
  reliable_writes (W := W) -> refines s a -> Forall event_wf evs ->
  exists s', log_all evs s = Ok (tt, s') /\ refines s' (fold_left abs_log evs a).
Proof.
  induction evs as [|ev evs IH]; intros s a Hrel Hr Hev; cbn [log_all fold_left].
  { by exists s. }
  apply Forall_cons in Hev as [Hev Hevs].
  destruct (log_event_simulates s a ev Hrel Hr Hev) as (s1 & H1 & Hr1).
  destruct (IH s1 _ Hrel Hr1 Hevs) as (s2 & H2 & Hr2).
  exists s2. by rewrite (bind_ok _ _ _ _ _ H1).
Qed.

(** Nothing is lost before the flush limit: the abstract tracer's file and
    buffer are the log so far. *)
Lemma abs_log_all evs : forall a,
  (0 < ab_capacity a)%nat -> 0 <= ab_flushes a <= 1025 ->
  (length (ab_pending a) <= ab_capacity a)%nat ->
  Z.of_nat (length (ab_pending a) + length evs) <=
    Z.of_nat (ab_capacity a) * (1026 - ab_flushes a) ->
  let a' := fold_left abs_log evs a in
  ab_flushed a' ++ ab_pending a' = (ab_flushed a ++ ab_pending a) ++ evs.
Proof.
  induction evs as [|ev evs IH]; intros a Hcap Hfl Hp Hlen; cbn [fold_left].
  { by rewrite app_nil_r. }
  cbn zeta. cbn [length] in Hlen. rewrite IH; unfold abs_log.
  all: destruct (Nat.ltb_spec (length (ab_pending a)) (ab_capacity a)) as [Hlt|Hge];
    [|destruct (Z.ltb_spec 1024 (ab_flushes a)) as [Hl|Hl]; [exfalso; nia|]];
    cbn [ab_capacity ab_flushes ab_pending ab_flushed length]; rewrite ?length_app; cbn [length];
    try lia; try nia.
  - by rewrite <- !app_assoc.
  - by rewrite <- !app_assoc.
Qed.

End Sequential.

(** ** Results *)

Section Results.
Context {W : Type} `{!PosixOps W, !PosixLaws W}.

(** C14. A log call on a well-formed tracer always returns: it never writes
    outside of the buffer and never runs into a check.  The tracer is
    well-formed again, and the call has stored the event in the next slot,
    stored it in the first slot after writing the full buffer to the file,
    kept the buffer because the kernel refused the write, or dropped the event
    because 1025 buffers have been written. *)
Theorem log_event_total (t : MiniTrace) (w : W) pend ev :
  trace_wf t pend -> event_wf ev ->
  exists t' w' pend', log_event ev (mkTS t w) = Ok (tt, mkTS t' w') /\
    trace_wf t' pend' /\ log_result t pend ev w t' pend' w'.
Proof.
  intros Hwf Hev. destruct (log_event_result t w pend ev Hwf Hev) as (t' & w' & pend' & ? & ? & ? & _).
  by exists t', w', pend'.
Qed.

(** C2. Against a kernel that at most interrupts or shortens writes, the
    logging code implements the abstract tracer [abs_log]: whatever sequence of
    events is logged, the file holds exactly the records the abstract tracer
    has flushed and the buffer those it has pending. *)
Theorem log_refines (s : TS W) a evs :
  reliable_writes (W := W) -> refines s a -> Forall event_wf evs ->
  exists s', log_all evs s = Ok (tt, s') /\ refines s' (fold_left abs_log evs a).
Proof. apply log_all_simulates. Qed.

(** Nothing is lost up to the flush limit: a new tracer that is given at
    most 1026 times as many events as its buffer holds has all of them, in
    order, in the file followed by the buffer. *)
Theorem log_lossless (info data : FdFile) events size now (w : W) evs t :
  reliable_writes (W := W) -> 14 <= size < 2 ^ 31 - 14 -> written w (fd_ data) = [] ->
  MiniTrace_new info data events size now = Ok t ->
  Forall event_wf evs -> Z.of_nat (length evs) <= 1026 * (size / 14) ->
  exists t' w' n, log_all evs (mkTS t w) = Ok (tt, mkTS t' w') /\
    length (written w' (fd_ (trace_data_file_ t'))) = (14 * n)%nat /\
    holds (written w' (fd_ (trace_data_file_ t')) ++ take (14 * (length evs - n)) (buf_ t')) evs /\
    cur_offset_ t' = 14 * Z.of_nat (length evs - n) /\ (n <= length evs)%nat.
Proof.
  intros Hrel Hsize Hw Hnew Hev Hlen.
  assert (refines (mkTS t w) (mkAbs (Z.to_nat (size / 14)) [] [] 0)) as Hr.
  { unfold MiniTrace_new in Hnew. rewrite (proj2 (Z.ltb_ge _ _)) in Hnew by lia.
    injection Hnew as <-. split; cbn; try done; unfold data_written, data_fd; cbn; rewrite ?Hw; try done.
    split; cbn; try done; try lia. by rewrite length_replicate. }
  destruct (log_all_simulates evs _ _ Hrel Hr Hev) as ([t' w'] & Hl & [Hwf Hcap Hfl Hh Hlb]).
  pose proof (abs_log_all evs (mkAbs (Z.to_nat (size / 14)) [] [] 0)) as Hall.
  cbn [ab_capacity ab_flushes ab_pending ab_flushed length] in Hall.
  rewrite app_nil_l in Hall. set (a' := fold_left abs_log evs _) in *.
  assert (1 <= size / 14) by (apply Z.div_le_lower_bound; lia).
  specialize (Hall ltac:(lia) ltac:(lia) ltac:(lia) ltac:(lia)). cbn in Hall.
  exists t', w', (length (ab_flushed a')). split; [done|].
  assert (length evs = length (ab_flushed a') + length (ab_pending a'))%nat as He
    by (by rewrite <- Hall, length_app).
  rewrite He. replace (_ + _ - _)%nat with (length (ab_pending a')) by lia.
  unfold data_written, data_fd in *. cbn [ts_trace ts_os] in *.
  split; [done|]. split_and!; [|by apply Hwf|lia].
  rewrite <- Hall. apply holds_app; try done; [apply Hwf|].
  by eapply capacity_bytes.
Qed.

(** A flush that succeeds has written the whole buffer, has added to the
    visited methods and fields what the records name and nothing else, and has
    emptied the buffer. *)
Theorem flush_visits (t : MiniTrace) (w w' : W) pend t' :
  trace_wf t pend -> pend <> [] -> FlushBuffer (mkTS t w) = Ok (true, mkTS t' w') ->
  visited_methods_ t' = named_methods pend ∪ visited_methods_ t /\
  visited_fields_ t' = named_fields pend ∪ visited_fields_ t /\
  cur_offset_ t' = 0 /\ trace_wf t' [] /\
  written w' (fd_ (trace_data_file_ t)) =
    written w (fd_ (trace_data_file_ t)) ++ take (14 * length pend) (buf_ t).
Proof.
  intros Hwf Hne HF. destruct (FlushBuffer_spec t w pend Hwf Hne) as (ok & w1 & H1 & _ & H2).
  cbn zeta in *. rewrite H1 in HF. injection HF as -> <- <-. split_and!; try done.
  destruct Hwf. split; cbn; try done. lia.
Qed.

End Results.

(** *** A tracer with room for two records *)

Definition steady_os : SteadyOS := mkSteadyOS [-1; 3] ∅ 6.

Definition sample_data_file : FdFile := FdFile_fd 5 true.
Definition sample_os : ScriptOS := mkScriptOS [SysErr EINTR; SysOk 3] ∅ ∅ 6.
Definition sample_trace : MiniTrace :=
  mkMiniTrace (FdFile_fd 4 true) sample_data_file (replicate 30 0) 0 false false 30 0 0 0 ∅ ∅ ∅.
Definition sample_events : list Event :=
  [FieldEvent 7 4096 8192 3 true; MonitorEvent 7 4096 4 true; MethodEvent 7 65544 kMiniTraceMethodExit 1].

Lemma sample_events_wf : Forall event_wf sample_events.
Proof. repeat constructor; cbn; first [lia | by right; left | done]. Qed.

Lemma sample_trace_wf : trace_wf sample_trace [].
Proof. split; cbn; first [done | lia | apply holds_nil]. Qed.

Lemma log_event_total_witness :
  exists t' w' pend', log_event (FieldEvent 7 4096 8192 3 true) (mkTS sample_trace sample_os)
    = Ok (tt, mkTS t' w') /\ trace_wf t' pend' /\
    log_result sample_trace [] (FieldEvent 7 4096 8192 3 true) sample_os t' pend' w'.
Proof.
  apply (log_event_total sample_trace sample_os [] (FieldEvent 7 4096 8192 3 true)).
  - apply sample_trace_wf.
  - exact (Forall_inv sample_events_wf).
Defined.

Lemma sample_refines : refines (mkTS sample_trace steady_os) (mkAbs 2 [] [] 0).
Proof. split; try done. apply sample_trace_wf. Qed.

Lemma log_refines_witness :
  exists s', log_all sample_events (mkTS sample_trace steady_os) = Ok (tt, s') /\
    refines s' (mkAbs 2 (take 2 sample_events) (drop 2 sample_events) 1).
Proof.
  exact (log_refines (mkTS sample_trace steady_os) (mkAbs 2 [] [] 0) sample_events
           SteadyOS_reliable sample_refines sample_events_wf).
Defined.

Lemma log_lossless_witness :
  exists t' (w' : SteadyOS) n, log_all sample_events (mkTS sample_trace steady_os) = Ok (tt, mkTS t' w') /\
    length (written w' (fd_ (trace_data_file_ t'))) = (14 * n)%nat /\
    holds (written w' (fd_ (trace_data_file_ t')) ++ take (14 * (3 - n)) (buf_ t')) sample_events /\
    cur_offset_ t' = 14 * Z.of_nat (3 - n) /\ (n <= 3)%nat.
Proof.
  apply (log_lossless (FdFile_fd 4 true) sample_data_file 0 30 0 steady_os sample_events sample_trace).
  - apply SteadyOS_reliable.
  - lia.
  - reflexivity.
  - reflexivity.
  - apply sample_events_wf.
  - vm_compute. discriminate.
Defined.

(** The tracer after the first two events. *)
Definition sample_full : MiniTrace :=
  match log_all (W := ScriptOS) (take 2 sample_events) (mkTS sample_trace sample_os) with
  | Ok (_, s) => ts_trace s
  | Fault _ => sample_trace
  end.

Lemma sample_full_wf : trace_wf sample_full (take 2 sample_events).
Proof.
  split.
  - change (buffer_size_ sample_full) with 30. lia.
  - reflexivity.
  - reflexivity.
  - apply Nat.leb_le. reflexivity.
  - change (buffer_overflow_count_ sample_full) with 0. lia.
  - intros [|[|k]] ev H; cbn in H; try done; injection H as <-; intros j b Hj;
      do 14 (destruct j as [|j]; [first [exact Hj | discriminate Hj]|]); discriminate Hj.
  - apply Forall_take, sample_events_wf.
Qed.

Lemma flush_visits_witness :
  exists t' (w' : ScriptOS), FlushBuffer (mkTS sample_full sample_os) = Ok (true, mkTS t' w') /\
    visited_fields_ t' = named_fields (take 2 sample_events) ∪ visited_fields_ sample_full /\
    trace_wf t' [] /\
    written w' (fd_ (trace_data_file_ sample_full)) =
      written sample_os (fd_ (trace_data_file_ sample_full)) ++ take 28 (buf_ sample_full).
Proof.
  destruct (FlushBuffer (mkTS sample_full sample_os)) as [[[] [t' w']]|] eqn:E;
    [|vm_compute in E; discriminate..].
  exists t', w'. split; [reflexivity|].
  destruct (flush_visits sample_full sample_os w' (take 2 sample_events) t')
    as (_ & H1 & _ & H2 & H3).
  - apply sample_full_wf.
  - discriminate.
  - exact E.
  - split; [exact H1|]. split; [exact H2|exact H3].
Defined.
