(* ===== verification/MiniTraceConc.v ===== *)
(** * The trace buffer under concurrency

    Several threads run the logging functions of [mini_trace.cc] at once.
    Each atomic access, each lock operation and each byte store is one step;
    a configuration is the shared tracer and the threads' program counters,
    and a schedule picks the thread that steps. *)

From S2P Require Import Prelude MiniTraceCodec MiniTraceLog.

(** ** Configurations *)

(** What the threads share: the buffer, its size, the two counters, the
    holder of [trace_lock_], the bytes of the data file, and what the flushes
    have found in the records. *)
Record Shared := mkShared {
  sh_buf : list Z;
  sh_size : Z;
  sh_cur : Z;
  sh_count : Z;
  sh_lock : option nat;
  sh_file : list Z;
  sh_methods : gset Z;
  sh_fields : gset Z;
}.

(** A byte store of a log call: address in the buffer and value. *)
Fixpoint store_list (base : Z) (bs : list Z) : list (Z * Z) :=
  match bs with
  | [] => []
  | b :: bs => (base, b) :: store_list (base + 1) bs
  end.

(** The stores of an event in program order. *)
Definition event_stores (old_offset : Z) (ev : Event) : list (Z * Z) :=
  match ev with
  | MethodEvent tid m a rv =>
      store_list old_offset (le_bytes 2 tid) ++
      store_list (old_offset + 2) (le_bytes 4 (EncodeMiniTraceMethodAndAction m a)) ++
      store_list (old_offset + 4) (le_bytes 8 rv)
  | FieldEvent tid o f pc rd =>
      store_list old_offset (le_bytes 2 tid) ++
      store_list (old_offset + 2) (le_bytes 4 (EncodeMiniTraceFieldAndAction f (field_action rd))) ++
      store_list (old_offset + 6) (le_bytes 4 o) ++
      store_list (old_offset + 6 + 4) (le_bytes 4 pc)
  | MonitorEvent tid l pc en =>
      store_list old_offset (le_bytes 2 tid) ++
      store_list (old_offset + 2) (le_bytes 4 (EncodeMiniTraceObjectAndAction l (monitor_action en))) ++
      store_list (old_offset + 6) (le_bytes 4 pc)
  end.

(** Where a thread is in a log call. *)
Inductive PC :=
| Idle                                             (* outside of a call *)
| AtLoad (ev : Event)                              (* top of the loop *)
| AtOverflow (ev : Event) (old : Z)                (* HandleOverflow: read the counter *)
| AtLock (ev : Event) (old local_count : Z)        (* waiting for trace_lock_ *)
| AtRecheck (ev : Event) (old local_count : Z)     (* lock held: compare the counters *)
| AtFlush (ev : Event) (old : Z)                   (* FlushBuffer: load the offset *)
| AtFileWrite (ev : Event) (old cur : Z)           (* FlushBuffer: write the file *)
| AtScan (ev : Event) (old cur : Z)                (* FlushBuffer: collect the records *)
| AtReset (ev : Event) (old : Z)                   (* FlushBuffer: store offset zero *)
| AtUnlock (ev : Event) (old : Z) (handled : bool) (* leave the critical section *)
| AtCAS (ev : Event) (old : Z)                     (* the loop's condition *)
| AtStores (ev : Event) (old : Z) (rest : list (Z * Z)). (* filling the slot *)

(** A thread: the events it still has to log, and its place. *)
Record LogThread := mkLogThread { lt_todo : list Event; lt_pc : PC }.

Record Config := mkConfig { c_shared : Shared; c_threads : list LogThread }.

Definition set_cur (o : Z) (s : Shared) : Shared :=
  mkShared (sh_buf s) (sh_size s) o (sh_count s) (sh_lock s) (sh_file s) (sh_methods s) (sh_fields s).
Definition set_sbuf (b : list Z) (s : Shared) : Shared :=
  mkShared b (sh_size s) (sh_cur s) (sh_count s) (sh_lock s) (sh_file s) (sh_methods s) (sh_fields s).
Definition set_count (n : Z) (s : Shared) : Shared :=
  mkShared (sh_buf s) (sh_size s) (sh_cur s) n (sh_lock s) (sh_file s) (sh_methods s) (sh_fields s).
Definition set_lock (l : option nat) (s : Shared) : Shared :=
  mkShared (sh_buf s) (sh_size s) (sh_cur s) (sh_count s) l (sh_file s) (sh_methods s) (sh_fields s).
Definition set_file (f : list Z) (s : Shared) : Shared :=
  mkShared (sh_buf s) (sh_size s) (sh_cur s) (sh_count s) (sh_lock s) f (sh_methods s) (sh_fields s).
Definition set_found (ms fs : gset Z) (s : Shared) : Shared :=
  mkShared (sh_buf s) (sh_size s) (sh_cur s) (sh_count s) (sh_lock s) (sh_file s) ms fs.

(** ** Steps *)

(** One step of thread [i].  [fail] resolves what the code does not
    determine: a spurious failure of the compare-and-exchange, a refused
    write.  [None]: the thread cannot step (it is done, or waits for the
    lock). *)
Definition thread_step (i : nat) (fail : bool) (s : Shared) (th : LogThread)
  : option (outcome (Shared * LogThread)) :=
  let todo := lt_todo th in
  let goto s pc := Some (Ok (s, mkLogThread todo pc)) in
  match lt_pc th with
  | Idle =>
      match todo with
      | [] => None
      | ev :: todo => Some (Ok (s, mkLogThread todo (AtLoad ev)))
      end
  | AtLoad ev =>
      let old := sh_cur s in
      if sh_size s <? s32 (old + kMiniTraceRecordSize) then goto s (AtOverflow ev old)
      else goto s (AtCAS ev old)
  | AtOverflow ev old =>
      if 1024 <? sh_count s then goto s Idle else goto s (AtLock ev old (sh_count s))
  | AtLock ev old local =>
      match sh_lock s with
      | Some _ => None
      | None => goto (set_lock (Some i) s) (AtRecheck ev old local)
      end
  | AtRecheck ev old local =>
      if negb (local =? sh_count s) then goto s (AtUnlock ev old true)
      else goto (set_count (sh_count s + 1) s) (AtFlush ev old)
  | AtFlush ev old =>
      if sh_cur s =? 0 then goto s (AtUnlock ev old true)
      else goto s (AtFileWrite ev old (sh_cur s))
  | AtFileWrite ev old cur =>
      match buf_prefix (sh_buf s) cur with
      | Fault f => Some (Fault f)
      | Ok data =>
          if fail then goto s (AtUnlock ev old false)
          else goto (set_file (sh_file s ++ data) s) (AtScan ev old cur)
      end
  | AtScan ev old cur =>
      match scan_records (S (Z.to_nat (cur / kMiniTraceRecordSize))) (sh_buf s) 0 cur
              (sh_methods s) (sh_fields s) with
      | Fault f => Some (Fault f)
      | Ok (ms, fs) => goto (set_found ms fs s) (AtReset ev old)
      end
  | AtReset ev old => goto (set_cur 0 s) (AtUnlock ev old true)
  | AtUnlock ev old handled =>
      if handled then goto (set_lock None s) (AtCAS ev old)
      else goto (set_lock None s) Idle
  | AtCAS ev old =>
      if negb fail && (sh_cur s =? old) then
        goto (set_cur (s32 (old + kMiniTraceRecordSize)) s) (AtStores ev old (event_stores old ev))
      else goto s (AtLoad ev)
  | AtStores ev old [] => goto s Idle
  | AtStores ev old ((a, b) :: rest) =>
      match poke (sh_buf s) a b with
      | Fault f => Some (Fault f)
      | Ok buf => goto (set_sbuf buf s) (AtStores ev old rest)
      end
  end.

Definition config_step (c : Config) (i : nat) (fail : bool) : option (outcome Config) :=
  match c_threads c !! i with
  | None => None
  | Some th =>
      match thread_step i fail (c_shared c) th with
      | None => None
      | Some (Fault f) => Some (Fault f)
      | Some (Ok (s, th)) => Some (Ok (mkConfig s (<[i := th]> (c_threads c))))
      end
  end.

Definition cstep (c c' : Config) : Prop := exists i fail, config_step c i fail = Some (Ok c').

(** Running a schedule; a thread that cannot step is passed over. *)
Fixpoint run_schedule (sched : list (nat * bool)) (c : Config) : outcome Config :=
  match sched with
  | [] => Ok c
  | (i, fail) :: sched =>
      match config_step c i fail with
      | None => run_schedule sched c
      | Some (Fault f) => Fault f
      | Some (Ok c) => run_schedule sched c
      end
  end.

(** A tracer as [Start] makes it, and threads that have not logged yet. *)
Definition initial (buffer_size : Z) (todos : list (list Event)) : Config :=
  mkConfig (mkShared (replicate (Z.to_nat buffer_size) 0) buffer_size 0 0 None [] ∅ ∅)
           ((fun todo => mkLogThread todo Idle) <$> todos).

(** ** Stores *)

Fixpoint apply_stores (buf : list Z) (rest : list (Z * Z)) : list Z :=
  match rest with
  | [] => buf
  | (a, b) :: rest => apply_stores (<[Z.to_nat a := b]> buf) rest
  end.

Lemma length_apply_stores rest : forall buf, length (apply_stores buf rest) = length buf.
Proof.
  induction rest as [|[a b] rest IH]; intros buf; cbn; [done|]. by rewrite IH, length_insert.
Qed.

Lemma apply_stores_app rest1 rest2 : forall buf,
  apply_stores buf (rest1 ++ rest2) = apply_stores (apply_stores buf rest1) rest2.
Proof. induction rest1 as [|[a b] rest1 IH]; intros buf; cbn; auto. Qed.

(** What the stores leave at a place depends on what was there only. *)
Lemma apply_stores_local rest : forall buf buf' j,
  length buf = length buf' -> buf !! j = buf' !! j ->
  apply_stores buf rest !! j = apply_stores buf' rest !! j.
Proof.
  induction rest as [|[a b] rest IH]; intros buf buf' j Hl Hj; cbn; [done|].
  apply IH; [by rewrite !length_insert|].
  destruct (decide (Z.to_nat a = j)) as [<-|Hne].
  - destruct (decide (Z.to_nat a < length buf)%nat).
    + by rewrite !list_lookup_insert_eq by lia.
    + by rewrite !list_insert_ge by lia.
  - by rewrite !list_lookup_insert_ne.
Qed.

Definition in_slot (k : nat) (a : Z) : Prop := 14 * Z.of_nat k <= a < 14 * Z.of_nat (S k).

Lemma apply_stores_outside rest : forall buf j,
  Forall (fun '(a, _) => Z.to_nat a <> j) rest -> apply_stores buf rest !! j = buf !! j.
Proof.
  induction rest as [|[a b] rest IH]; intros buf j HF; cbn; [done|].
  apply Forall_cons in HF as [Hne HF]. rewrite IH by done. by rewrite list_lookup_insert_ne.
Qed.

(** A run of byte stores, one at a time or all at once. *)
Lemma poke_all_stores bs : forall buf i,
  0 <= i -> i + Z.of_nat (length bs) <= Z.of_nat (length buf) ->
  poke_all buf i bs = Ok (apply_stores buf (store_list i bs)).
Proof.
  induction bs as [|b bs IH]; intros buf i Hi Hl; cbn [poke_all store_list apply_stores length] in *; [done|].
  rewrite poke_ok by lia. cbn [mbind outcome_bind].
  rewrite IH by (rewrite ?length_insert; lia). done.
Qed.

(** The stores of a call, done one by one, are its record. *)
Lemma event_stores_record buf ptr ev :
  0 <= ptr -> ptr + kMiniTraceRecordSize <= Z.of_nat (length buf) ->
  write_record buf ptr ev = Ok (apply_stores buf (event_stores ptr ev)).
Proof.
  unfold kMiniTraceRecordSize. intros Hp Hl.
  destruct ev as [tid m a rv | tid o f pc rd | tid l pc en];
    cbn [write_record event_stores];
    unfold write_method_record, write_field_record, write_monitor_record, EncodeMiniTraceObject,
      PointerToLowMemUInt32;
    rewrite !apply_stores_app;
    repeat (first [rewrite Append2LE_bytes | rewrite Append4LE_bytes | rewrite Append8LE_bytes];
      rewrite ?le_bytes_u16, ?le_bytes_u32, ?le_bytes_u64;
      rewrite poke_all_stores by (rewrite ?length_apply_stores, ?length_le_bytes; lia);
      cbn [mbind outcome_bind]); done.
Qed.

Lemma event_stores_slot k ev :
  Forall (fun '(a, _) => in_slot k a) (event_stores (14 * Z.of_nat k) ev).
Proof.
  unfold in_slot.
  destruct ev; cbn [event_stores le_bytes store_list app]; repeat constructor; lia.
Qed.

(** A slot in which all the stores of an event have been made holds it. *)
Lemma stores_hold buf k ev :
  (14 * S k <= length buf)%nat ->
  slot_holds (apply_stores buf (event_stores (14 * Z.of_nat k) ev)) k ev.
Proof.
  intros Hl. pose proof (record_bytes_fit ev) as Hfit.
  assert (apply_stores buf (event_stores (14 * Z.of_nat k) ev)
          = splice buf (14 * k) (record_bytes ev)) as ->.
  { assert (Ok (apply_stores buf (event_stores (14 * Z.of_nat k) ev))
            = Ok (splice buf (14 * k) (record_bytes ev))) as [= ->]; [|done].
    rewrite <- event_stores_record by (unfold kMiniTraceRecordSize; lia).
    rewrite write_record_ok by (unfold kMiniTraceRecordSize; lia). do 2 f_equal. lia. }
  intros j b Hj. pose proof (lookup_lt_Some _ _ _ Hj). rewrite splice_lookup by lia. done.
Qed.

(** A store into one slot leaves the other slots alone. *)
Lemma slot_holds_other buf k k' a b ev :
  slot_holds buf k ev -> in_slot k' a -> k <> k' -> slot_holds (<[Z.to_nat a := b]> buf) k ev.
Proof.
  unfold in_slot. intros Hs Ha Hne j v Hj.
  pose proof (record_bytes_fit ev). pose proof (lookup_lt_Some _ _ _ Hj).
  rewrite list_lookup_insert_ne by lia. by apply Hs.
Qed.

Lemma slot_pending_other buf rest k k' a b ev :
  slot_holds (apply_stores buf rest) k ev -> in_slot k' a -> k <> k' ->
  slot_holds (apply_stores (<[Z.to_nat a := b]> buf) rest) k ev.
Proof.
  unfold in_slot. intros Hs Ha Hne j v Hj.
  pose proof (record_bytes_fit ev). pose proof (lookup_lt_Some _ _ _ Hj).
  rewrite (apply_stores_local rest _ buf); [by apply Hs | by rewrite length_insert |].
  rewrite list_lookup_insert_ne by lia. done.
Qed.

(** ** Threads that do not fill the buffer *)

(** The events of a thread that have no slot yet. *)
Definition unreserved (th : LogThread) : list Event :=
  match lt_pc th with
  | AtLoad ev | AtCAS ev _ => ev :: lt_todo th
  | _ => lt_todo th
  end.

(** The slot a thread is filling. *)
Definition owner (th : LogThread) : option Z :=
  match lt_pc th with AtStores _ old _ => Some old | _ => None end.

(** The places a thread can be in while the buffer has room for everybody. *)
Definition pc_ok (buf : list Z) (log : list Event) (pc : PC) : Prop :=
  match pc with
  | Idle | AtLoad _ | AtCAS _ _ => True
  | AtStores ev old rest =>
      exists k, old = 14 * Z.of_nat k /\ log !! k = Some ev /\
        Forall (fun '(a, _) => in_slot k a) rest /\
        slot_holds (apply_stores buf rest) k ev
  | _ => False
  end.

(** [log] are the events with a slot, in the order of their slots. *)
Record Inv (all : list Event) (c : Config) (log : list Event) : Prop := {
  inv_size : 0 <= sh_size (c_shared c) < 2 ^ 31 - 14;
  inv_buf : length (sh_buf (c_shared c)) = Z.to_nat (sh_size (c_shared c));
  inv_cap : 14 * Z.of_nat (length all) <= sh_size (c_shared c);
  inv_cur : sh_cur (c_shared c) = 14 * Z.of_nat (length log);
  inv_perm : log ++ concat (unreserved <$> c_threads c) ≡ₚ all;
  inv_pcs : forall i th, c_threads c !! i = Some th -> pc_ok (sh_buf (c_shared c)) log (lt_pc th);
  inv_owner : forall i j th1 th2 old,
    c_threads c !! i = Some th1 -> c_threads c !! j = Some th2 ->
    owner th1 = Some old -> owner th2 = Some old -> i = j;
  inv_slots : forall k ev, log !! k = Some ev ->
    slot_holds (sh_buf (c_shared c)) k ev \/
    exists i th, c_threads c !! i = Some th /\ owner th = Some (14 * Z.of_nat k);
}.

Lemma concat_split {A B} (f : A -> list B) (l : list A) i x :
  l !! i = Some x ->
  concat (f <$> l) = concat (f <$> take i l) ++ f x ++ concat (f <$> drop (S i) l).
Proof.
  intros H. rewrite <- (take_drop_middle l i x H) at 1.
  by rewrite fmap_app, concat_app, fmap_cons.
Qed.

Lemma concat_insert {A B} (f : A -> list B) (l : list A) i x y :
  l !! i = Some x ->
  concat (f <$> <[i := y]> l) = concat (f <$> take i l) ++ f y ++ concat (f <$> drop (S i) l).
Proof.
  intros H. pose proof (lookup_lt_Some _ _ _ H).
  rewrite (concat_split f _ i y) by (by apply list_lookup_insert_eq).
  by rewrite take_insert_ge, drop_insert_lt by lia.
Qed.

(** Changing one thread so that its events and its slot stay the same. *)
Lemma Inv_quiet all c log i th th' :
  Inv all c log -> c_threads c !! i = Some th ->
  unreserved th' = unreserved th -> owner th = None -> owner th' = None ->
  pc_ok (sh_buf (c_shared c)) log (lt_pc th') ->
  Inv all (mkConfig (c_shared c) (<[i := th']> (c_threads c))) log.
Proof.
  intros HI Hi Hu Ho Ho' Hpc. pose proof (lookup_lt_Some _ _ _ Hi).
  split; cbn [c_shared c_threads]; try apply HI.
  - rewrite (concat_insert _ _ _ _ _ Hi), Hu, <- (concat_split _ _ _ _ Hi). apply HI.
  - intros j th1 Hj. apply list_lookup_insert_Some in Hj as [(<- & <- & _)|[_ Hj]]; [done|].
    by apply (inv_pcs _ _ _ HI j).
  - intros j1 j2 t1 t2 old H1 H2 O1 O2.
    apply list_lookup_insert_Some in H1 as [(<- & <- & _)|[_ H1]]; [congruence|].
    apply list_lookup_insert_Some in H2 as [(<- & <- & _)|[_ H2]]; [congruence|].
    by apply (inv_owner _ _ _ HI j1 j2 t1 t2 old).
  - intros k ev Hk. destruct (inv_slots _ _ _ HI k ev Hk) as [Hs|(j & t & Hj & Hjo)]; [by left|].
    right. exists j, t. split; [|done]. rewrite list_lookup_insert_ne; [done|]. congruence.
Qed.

Lemma Inv_room all c log i th ev rest :
  Inv all c log -> c_threads c !! i = Some th -> unreserved th = ev :: rest ->
  14 * Z.of_nat (S (length log)) <= sh_size (c_shared c).
Proof.
  intros HI Hi Hu. pose proof (inv_cap _ _ _ HI).
  pose proof (Permutation_length (inv_perm _ _ _ HI)) as HP.
  rewrite length_app, (concat_split _ _ _ _ Hi), Hu, !length_app in HP. cbn in HP. lia.
Qed.

(** Taking the next slot. *)
Lemma Inv_reserve all c log i th ev rest :
  Inv all c log -> c_threads c !! i = Some th -> lt_pc th = AtCAS ev rest ->
  let slot := 14 * Z.of_nat (length log) in
  Inv all (mkConfig (set_cur (slot + 14) (c_shared c))
             (<[i := mkLogThread (lt_todo th) (AtStores ev slot (event_stores slot ev))]> (c_threads c)))
      (log ++ [ev]).
Proof.
  intros HI Hi Hpc slot. pose proof (lookup_lt_Some _ _ _ Hi) as Hlt.
  assert (unreserved th = ev :: lt_todo th) as Hu by (unfold unreserved; by rewrite Hpc).
  assert (owner th = None) as Ho by (unfold owner; by rewrite Hpc).
  pose proof (Inv_room _ _ _ _ _ _ _ HI Hi Hu) as Hroom.
  pose proof (inv_buf _ _ _ HI) as Hb.
  assert (forall j t old, c_threads c !! j = Some t -> owner t = Some old -> old <> slot) as Hfresh.
  { intros j t old Hj Hjo ->. pose proof (inv_pcs _ _ _ HI j t Hj) as Hp.
    unfold owner in Hjo. destruct (lt_pc t); try done. injection Hjo as ->.
    destruct Hp as (k & Hk & Hlk & _). apply lookup_lt_Some in Hlk. unfold slot in Hk. lia. }
  split; cbn [c_shared c_threads set_cur sh_size sh_buf sh_cur]; try apply HI.
  - rewrite length_app. cbn. unfold slot. lia.
  - rewrite (concat_insert _ _ _ _ _ Hi).
    change (unreserved _) with (lt_todo th). rewrite <- (inv_perm _ _ _ HI).
    rewrite (concat_split _ _ _ _ Hi), Hu. rewrite <- app_assoc. cbn [app].
    f_equiv. by rewrite <- Permutation_middle.
  - intros j t Hj. apply list_lookup_insert_Some in Hj as [(<- & <- & _)|[_ Hj]].
    + cbn. exists (length log). split; [done|]. split; [by rewrite lookup_app_r, Nat.sub_diag by lia|].
      split; [apply event_stores_slot|]. apply stores_hold. rewrite Hb. lia.
    + pose proof (inv_pcs _ _ _ HI j t Hj) as Hp. destruct (lt_pc t); try done.
      destruct Hp as (k & Hk & Hlk & Hrest). exists k. split; [done|]. split; [|done].
      by apply lookup_app_l_Some.
  - intros j1 j2 t1 t2 old H1 H2 O1 O2.
    apply list_lookup_insert_Some in H1 as [(<- & <- & _)|[_ H1]];
      apply list_lookup_insert_Some in H2 as [(<- & <- & _)|[_ H2]]; try done.
    + cbn in O1. injection O1 as <-. by destruct (Hfresh _ _ _ H2 O2).
    + cbn in O2. injection O2 as <-. by destruct (Hfresh _ _ _ H1 O1).
    + by apply (inv_owner _ _ _ HI j1 j2 t1 t2 old).
  - intros k ev' Hk. destruct (decide (k < length log)%nat) as [Hkl|Hkl].
    + rewrite lookup_app_l in Hk by done.
      destruct (inv_slots _ _ _ HI k ev' Hk) as [Hs|(j & t & Hj & Hjo)]; [by left|].
      right. exists j, t. split; [|done]. rewrite list_lookup_insert_ne; [done|]. congruence.
    + right. eexists i, _. split; [by apply list_lookup_insert_eq|]. cbn.
      apply lookup_lt_Some in Hk. rewrite length_app in Hk. cbn in Hk. unfold slot. do 2 f_equal. lia.
Qed.

(** One byte store. *)
Lemma Inv_store all c log i th ev old a b rest :
  Inv all c log -> c_threads c !! i = Some th -> lt_pc th = AtStores ev old ((a, b) :: rest) ->
  0 <= a < Z.of_nat (length (sh_buf (c_shared c))) /\
  Inv all (mkConfig (set_sbuf (<[Z.to_nat a := b]> (sh_buf (c_shared c))) (c_shared c))
             (<[i := mkLogThread (lt_todo th) (AtStores ev old rest)]> (c_threads c))) log.
Proof.
  intros HI Hi Hpc. pose proof (lookup_lt_Some _ _ _ Hi) as Hlt.
  pose proof (inv_pcs _ _ _ HI i th Hi) as Hp. rewrite Hpc in Hp.
  destruct Hp as (k & Hk & Hlk & HF & Hs). apply Forall_cons in HF as [Ha HF].
  cbn [apply_stores] in Hs.
  assert (owner th = Some old) as Ho by (unfold owner; by rewrite Hpc).
  pose proof (inv_buf _ _ _ HI) as Hb.
  assert (14 * Z.of_nat (length log) <= sh_size (c_shared c)) as Hlog.
  { pose proof (inv_cap _ _ _ HI). pose proof (Permutation_length (inv_perm _ _ _ HI)) as HP.
    rewrite length_app in HP. lia. }
  split.
  { apply lookup_lt_Some in Hlk. unfold in_slot in Ha. lia. }
  split; cbn [c_shared c_threads set_sbuf sh_size sh_buf sh_cur]; try apply HI.
  - by rewrite length_insert.
  - rewrite (concat_insert _ _ _ _ _ Hi). rewrite <- (inv_perm _ _ _ HI).
    rewrite (concat_split _ _ _ _ Hi). unfold unreserved at 2 5. rewrite Hpc. done.
  - intros j t Hj. apply list_lookup_insert_Some in Hj as [(<- & <- & _)|[Hne Hj]].
    + cbn. exists k. done.
    + pose proof (inv_pcs _ _ _ HI j t Hj) as Hp. destruct (lt_pc t) eqn:Ept; try done.
      destruct Hp as (k' & Hk' & Hlk' & HF' & Hs'). exists k'. split; [done|]. split; [done|].
      split; [done|]. eapply slot_pending_other; [done..|]. intros ->. apply Hne.
      apply (inv_owner _ _ _ HI i j th t old); try done. unfold owner. rewrite Ept. congruence.
  - intros j1 j2 t1 t2 old' H1 H2 O1 O2.
    apply list_lookup_insert_Some in H1 as [(<- & <- & _)|[_ H1]];
      apply list_lookup_insert_Some in H2 as [(<- & <- & _)|[_ H2]]; try done.
    + eapply (inv_owner _ _ _ HI i j2 th t2 old'); try done. cbn in O1. congruence.
    + eapply (inv_owner _ _ _ HI j1 i t1 th old'); try done. cbn in O2. congruence.
    + by apply (inv_owner _ _ _ HI j1 j2 t1 t2 old').
  - intros k' ev' Hk'. destruct (decide (k' = k)) as [->|Hne].
    + right. eexists i, _. split; [by apply list_lookup_insert_eq|]. cbn. by rewrite Hk.
    + destruct (inv_slots _ _ _ HI k' ev' Hk') as [Hh|(j & t & Hj & Hjo)].
      * left. by eapply slot_holds_other.
      * right. exists j, t. split; [|done]. rewrite list_lookup_insert_ne; [done|].
        intros <-. rewrite Hi in Hj. injection Hj as <-. rewrite Ho in Hjo. injection Hjo as Hjo. lia.
Qed.

(** The last store of a call. *)
Lemma Inv_finish all c log i th ev old :
  Inv all c log -> c_threads c !! i = Some th -> lt_pc th = AtStores ev old [] ->
  Inv all (mkConfig (c_shared c) (<[i := mkLogThread (lt_todo th) Idle]> (c_threads c))) log.
Proof.
  intros HI Hi Hpc. pose proof (lookup_lt_Some _ _ _ Hi) as Hlt.
  pose proof (inv_pcs _ _ _ HI i th Hi) as Hp. rewrite Hpc in Hp.
  destruct Hp as (k & Hk & Hlk & _ & Hs). cbn [apply_stores] in Hs.
  assert (owner th = Some old) as Ho by (unfold owner; by rewrite Hpc).
  split; cbn [c_shared c_threads]; try apply HI.
  - rewrite (concat_insert _ _ _ _ _ Hi). rewrite <- (inv_perm _ _ _ HI).
    rewrite (concat_split _ _ _ _ Hi). unfold unreserved at 2 5. rewrite Hpc. done.
  - intros j t Hj. apply list_lookup_insert_Some in Hj as [(<- & <- & _)|[Hne Hj]]; [done|].
    by apply (inv_pcs _ _ _ HI j).
  - intros j1 j2 t1 t2 old' H1 H2 O1 O2.
    apply list_lookup_insert_Some in H1 as [(<- & <- & _)|[_ H1]]; [done|].
    apply list_lookup_insert_Some in H2 as [(<- & <- & _)|[_ H2]]; [done|].
    by apply (inv_owner _ _ _ HI j1 j2 t1 t2 old').
  - intros k' ev' Hk'. destruct (decide (k' = k)) as [->|Hne].
    + left. rewrite Hlk in Hk'. injection Hk' as <-. exact Hs.
    + destruct (inv_slots _ _ _ HI k' ev' Hk') as [Hh|(j & t & Hj & Hjo)]; [by left|].
      right. exists j, t. split; [|done]. rewrite list_lookup_insert_ne; [done|].
      intros <-. rewrite Hi in Hj. injection Hj as <-. rewrite Ho in Hjo. injection Hjo as Hjo. lia.
Qed.

Lemma Inv_initial size todos :
  0 <= size < 2 ^ 31 - 14 -> 14 * Z.of_nat (length (concat todos)) <= size ->
  Inv (concat todos) (initial size todos) [].
Proof.
  intros Hs Hc. unfold initial.
  assert (forall i th, ((fun todo => mkLogThread todo Idle) <$> todos) !! i = Some th -> lt_pc th = Idle)
    as Hidle.
  { intros i th Hi. apply list_lookup_fmap_Some in Hi as (todo & -> & _). done. }
  split; cbn [c_shared c_threads sh_size sh_buf sh_cur]; try done.
  - by rewrite length_replicate.
  - cbn [app]. rewrite <- list_fmap_compose.
    replace (unreserved ∘ _ <$> todos) with todos; [done|].
    rewrite <- (list_fmap_id todos) at 1. by apply list_fmap_ext.
  - intros i th Hi. by rewrite (Hidle i th Hi).
  - intros i j t1 t2 old H1 H2 O1. unfold owner in O1. by rewrite (Hidle i t1 H1) in O1.
Qed.

(** A step keeps the slots and appends at most one event to them. *)
Lemma Inv_step all c log i fail o :
  Inv all c log -> config_step c i fail = Some o ->
  exists c' log', o = Ok c' /\ Inv all c' log' /\ log `prefix_of` log'.
Proof.
  intros HI Hstep. unfold config_step in Hstep.
  destruct (c_threads c !! i) as [th|] eqn:Hi; [|done].
  pose proof (inv_pcs _ _ _ HI i th Hi) as Hpc. pose proof (inv_size _ _ _ HI) as Hsz.
  pose proof (inv_cur _ _ _ HI) as Hcur.
  assert (forall th', unreserved th' = unreserved th -> owner th = None -> owner th' = None ->
    pc_ok (sh_buf (c_shared c)) log (lt_pc th') ->
    Some (Ok (mkConfig (c_shared c) (<[i := th']> (c_threads c)))) = Some o ->
    exists c' log', o = Ok c' /\ Inv all c' log' /\ log `prefix_of` log') as Hquiet.
  { intros th' Hu Ho Ho' Hp [= <-]. do 2 eexists. split; [done|].
    split; [by eapply Inv_quiet|done]. }
  unfold thread_step in Hstep.
  destruct th as [todo pc]. cbn [lt_pc lt_todo] in *.
  destruct pc as [|ev| | | | | | | | |ev old|ev old [|[a b] rest]]; try done.
  - destruct todo as [|ev todo]; [done|]. by eapply Hquiet; [..|exact Hstep].
  - pose proof (Inv_room _ _ _ _ _ ev todo HI Hi eq_refl) as Hroom.
    rewrite Hcur in Hstep. unfold kMiniTraceRecordSize in Hstep.
    rewrite s32_small in Hstep by lia.
    rewrite (proj2 (Z.ltb_ge _ _)) in Hstep by lia.
    by eapply Hquiet; [..|exact Hstep].
  - destruct (negb fail && (sh_cur (c_shared c) =? old)) eqn:Hc; [|by eapply Hquiet; [..|exact Hstep]].
    apply andb_prop in Hc as [_ Hc]. apply Z.eqb_eq in Hc.
    pose proof (Inv_room _ _ _ _ _ ev todo HI Hi eq_refl) as Hroom.
    pose proof (Inv_reserve _ _ _ _ _ _ _ HI Hi eq_refl) as HI'.
    rewrite <- Hc, Hcur in Hstep. unfold kMiniTraceRecordSize in Hstep.
    rewrite s32_small in Hstep by lia. injection Hstep as <-.
    do 2 eexists. split; [done|]. split; [exact HI'|]. by eexists.
  - injection Hstep as <-. do 2 eexists. split; [done|]. split; [|done].
    by eapply (Inv_finish _ _ _ _ _ _ _ HI Hi).
  - destruct (Inv_store _ _ _ _ _ _ _ _ _ _ HI Hi eq_refl) as [Ha HI'].
    rewrite poke_ok in Hstep by done. injection Hstep as <-.
    do 2 eexists. split; [done|]. by split.
Qed.

Lemma Inv_reachable all c c' log :
  Inv all c log -> rtc cstep c c' -> exists log', Inv all c' log' /\ log `prefix_of` log'.
Proof.
  intros HI Hr. revert log HI. induction Hr as [c|c c1 c2 (i & fail & Hs) _ IH]; intros log HI.
  - by exists log.
  - destruct (Inv_step _ _ _ _ _ _ HI Hs) as (c1' & log1 & [= <-] & HI1 & Hp).
    destruct (IH log1 HI1) as (log2 & HI2 & Hp2). exists log2. split; [done|]. by trans log1.
Qed.

Definition finished (c : Config) : Prop :=
  Forall (fun th => lt_todo th = [] /\ lt_pc th = Idle) (c_threads c).

Lemma Inv_finished all c log :
  Inv all c log -> finished c -> log ≡ₚ all /\ holds (sh_buf (c_shared c)) log.
Proof.
  intros HI HF. split.
  - rewrite <- (inv_perm _ _ _ HI).
    replace (concat (unreserved <$> c_threads c)) with (@nil Event); [by rewrite app_nil_r|].
    induction HF as [|th ths [Ht Hp] _ IH]; [done|]. cbn. unfold unreserved at 1. by rewrite Hp, Ht.
  - intros k ev Hk. destruct (inv_slots _ _ _ HI k ev Hk) as [Hs|(i & th & Hi & Ho)]; [done|].
    destruct (Forall_lookup_1 _ _ _ _ HF Hi) as [_ Hp]. unfold owner in Ho. by rewrite Hp in Ho.
Qed.

(** *** Every call can be completed *)

Definition solo (i : nat) (c c' : Config) : Prop := config_step c i false = Some (Ok c').

(** What is left for a thread to do when it runs alone. *)
Definition work (cur : Z) (th : LogThread) : nat :=
  (40 * length (lt_todo th) +
   match lt_pc th with
   | AtLoad _ => 30
   | AtCAS _ old => if (cur =? old)%Z then 29 else 31
   | AtStores _ _ rest => 1 + length rest
   | _ => 0
   end)%nat.

Lemma length_event_stores old ev : (length (event_stores old ev) <= 14)%nat.
Proof. destruct ev; cbn; lia. Qed.

Lemma solo_step all c log i th :
  Inv all c log -> c_threads c !! i = Some th -> th <> mkLogThread [] Idle ->
  exists c' th', solo i c c' /\ c_threads c' !! i = Some th' /\
    (work (sh_cur (c_shared c')) th' < work (sh_cur (c_shared c)) th)%nat.
Proof.
  intros HI Hi Hne. pose proof (lookup_lt_Some _ _ _ Hi) as Hlt.
  pose proof (inv_pcs _ _ _ HI i th Hi) as Hpc. pose proof (inv_size _ _ _ HI) as Hsz.
  pose proof (inv_cur _ _ _ HI) as Hcur.
  unfold solo, config_step. rewrite Hi. unfold thread_step.
  destruct th as [todo pc]. cbn [lt_pc lt_todo] in *.
  destruct pc as [|ev| | | | | | | | |ev old|ev old [|[a b] rest]]; try done.
  - destruct todo as [|ev todo]; [done|].
    do 2 eexists. split; [done|]. split; [by apply list_lookup_insert_eq|]. unfold work. cbn [lt_todo lt_pc length]. lia.
  - pose proof (Inv_room _ _ _ _ _ ev todo HI Hi eq_refl) as Hroom. unfold kMiniTraceRecordSize.
    rewrite s32_small, (proj2 (Z.ltb_ge _ _)) by lia.
    do 2 eexists. split; [done|]. split; [by apply list_lookup_insert_eq|].
    unfold work. cbn [lt_todo lt_pc c_shared c_threads]. rewrite Z.eqb_refl. lia.
  - destruct (sh_cur (c_shared c) =? old) eqn:Hc; cbn [negb andb];
      do 2 eexists; (split; [done|]); (split; [by apply list_lookup_insert_eq|]);
      unfold work; cbn [lt_todo lt_pc c_shared c_threads sh_cur]; rewrite ?Hc; [|lia].
    pose proof (length_event_stores old ev). lia.
  - do 2 eexists. split; [done|]. split; [by apply list_lookup_insert_eq|]. unfold work. cbn [lt_todo lt_pc length]. lia.
  - destruct (Inv_store _ _ _ _ _ _ _ _ _ _ HI Hi eq_refl) as [Ha _]. rewrite poke_ok by done.
    do 2 eexists. split; [done|]. split; [by apply list_lookup_insert_eq|]. unfold work. cbn [lt_todo lt_pc length]. lia.
Qed.

Lemma solo_cstep i c c' : solo i c c' -> cstep c c'.
Proof. intros H. by exists i, false. Qed.

Lemma config_step_others c i fail c' j :
  config_step c i fail = Some (Ok c') -> i <> j -> c_threads c' !! j = c_threads c !! j.
Proof.
  unfold config_step. intros H Hne. destruct (c_threads c !! i) as [th|]; [|done].
  destruct (thread_step _ _ _ _) as [[[s th']|]|]; try done. injection H as <-. cbn.
  by rewrite list_lookup_insert_ne.
Qed.

Lemma solo_completes all i n : forall c log th,
  Inv all c log -> c_threads c !! i = Some th -> (work (sh_cur (c_shared c)) th < n)%nat ->
  exists c', rtc cstep c c' /\ c_threads c' !! i = Some (mkLogThread [] Idle) /\
    forall j, i <> j -> c_threads c' !! j = c_threads c !! j.
Proof.
  induction n as [|n IH]; intros c log th HI Hi Hw; [lia|].
  assert (th = mkLogThread [] Idle \/ th <> mkLogThread [] Idle) as [->|Hne].
  { destruct th as [[|] []]; first [by left | by right]. }
  - by exists c.
  - destruct (solo_step _ _ _ _ _ HI Hi Hne) as (c1 & th1 & Hs & Hi1 & Hw1).
    destruct (Inv_step _ _ _ _ _ _ HI Hs) as (c1' & log1 & [= <-] & HI1 & _).
    destruct (IH c1 log1 th1 HI1 Hi1 ltac:(lia)) as (c2 & Hr & Hd & Ho).
    exists c2. split; [eapply rtc_l; [by eapply solo_cstep|done]|]. split; [done|].
    intros j Hj. rewrite Ho by done. by eapply config_step_others.
Qed.

Lemma length_threads_step c c' : cstep c c' -> length (c_threads c') = length (c_threads c).
Proof.
  intros (i & fail & H). unfold config_step in H. destruct (c_threads c !! i); [|done].
  destruct (thread_step _ _ _ _) as [[[s th']|]|]; try done. injection H as <-. apply length_insert.
Qed.

Lemma length_threads_run c c' : rtc cstep c c' -> length (c_threads c') = length (c_threads c).
Proof.
  induction 1 as [|c c1 c2 Hs _ IH]; [done|]. rewrite IH. by apply length_threads_step.
Qed.

Lemma completes all n : forall c log,
  Inv all c log -> (n <= length (c_threads c))%nat ->
  exists c', rtc cstep c c' /\
    forall j, (j < n)%nat -> c_threads c' !! j = Some (mkLogThread [] Idle).
Proof.
  induction n as [|n IH]; intros c log HI Hn; [exists c; split; [done|lia]|].
  destruct (IH c log HI ltac:(lia)) as (c1 & Hr1 & Hd1).
  destruct (Inv_reachable _ _ _ _ HI Hr1) as (log1 & HI1 & _).
  pose proof (length_threads_run _ _ Hr1) as Hl.
  destruct (lookup_lt_is_Some_2 (c_threads c1) n ltac:(lia)) as [th Hth].
  destruct (solo_completes _ _ _ _ _ _ HI1 Hth (Nat.lt_succ_diag_r _)) as (c2 & Hr2 & Hd2 & Ho).
  exists c2. split; [by trans c1|]. intros j Hj.
  destruct (decide (n = j)) as [<-|Hne]; [done|]. rewrite Ho by done. apply Hd1. lia.
Qed.

Lemma Inv_completes all c log :
  Inv all c log -> exists c', rtc cstep c c' /\ finished c'.
Proof.
  intros HI. destruct (completes _ _ _ _ HI (le_n _)) as (c' & Hr & Hd). exists c'. split; [done|].
  apply Forall_lookup. intros j th Hj. pose proof (lookup_lt_Some _ _ _ Hj) as Hl.
  rewrite (length_threads_run _ _ Hr) in Hl. rewrite (Hd j Hl) in Hj. by injection Hj as <-.
Qed.

(** C1. Threads that log concurrently, in any interleaving, with spurious
    compare-and-exchange failures at any point, neither fault nor lose,
    duplicate or tear an event while the buffer has room for all of them: no
    reachable step faults, and once every thread is done the buffer holds the
    events one record per slot, in some order, with the offset at their end;
    and every reachable state can be run to such an end. *)
Theorem concurrent_log_linear size todos c :
  0 <= size < 2 ^ 31 - 14 -> 14 * Z.of_nat (length (concat todos)) <= size ->
  rtc cstep (initial size todos) c ->
  (forall i fail f, config_step c i fail <> Some (Fault f)) /\
  (exists c', rtc cstep c c' /\ finished c') /\
  (finished c -> exists log,
     log ≡ₚ concat todos /\ holds (sh_buf (c_shared c)) log /\
     sh_cur (c_shared c) = 14 * Z.of_nat (length log)).
Proof.
  intros Hs Hc Hr. destruct (Inv_reachable _ _ _ _ (Inv_initial size todos Hs Hc) Hr) as (log & HI & _).
  split_and!.
  - intros i fail f Hf. by destruct (Inv_step _ _ _ _ _ _ HI Hf) as (c' & log' & [=] & _).
  - by eapply Inv_completes.
  - intros HF. exists log. destruct (Inv_finished _ _ _ HI HF). split_and!; [done..|]. apply HI.
Qed.

Lemma run_schedule_steps sched : forall c c', run_schedule sched c = Ok c' -> rtc cstep c c'.
Proof.
  induction sched as [|[i fail] sched IH]; intros c c' H; cbn in H; [by injection H as <-|].
  destruct (config_step c i fail) as [[c1|f]|] eqn:Hs; [|done|by apply IH].
  eapply rtc_l; [by exists i, fail|by apply IH].
Qed.

(** Two threads, three events, one spurious failure. *)
Definition sample_todos : list (list Event) :=
  [[FieldEvent 1 4096 8192 3 true; MonitorEvent 1 4096 5 true]; [FieldEvent 2 4096 8192 7 false]].
Definition sample_schedule : list (nat * bool) :=
  [(0%nat, false); (1%nat, false); (0%nat, false); (1%nat, false); (1%nat, true)] ++
  concat (replicate 40 [(0%nat, false); (1%nat, false)]).

Lemma concurrent_log_linear_witness :
  exists c, rtc cstep (initial 1024 sample_todos) c /\ finished c /\
    exists log, log ≡ₚ concat sample_todos /\ holds (sh_buf (c_shared c)) log /\
      sh_cur (c_shared c) = 14 * Z.of_nat (length log).
Proof.
  eexists. split; [apply (run_schedule_steps sample_schedule); vm_compute; reflexivity|].
  match goal with |- finished ?c /\ _ => assert (finished c) as HF by (repeat constructor) end.
  split; [exact HF|].
  refine (proj2 (proj2 (concurrent_log_linear 1024 sample_todos _ _ _ _)) HF).
  - lia.
  - vm_compute. discriminate.
  - apply (run_schedule_steps sample_schedule). vm_compute. reflexivity.
Defined.

(** ** What can go wrong when the buffer fills *)

(** 73 records fill the default buffer of 1024 bytes; a call takes at most 18
    steps when it does not flush. *)
Definition filler (n : nat) : list Event := replicate n (FieldEvent 2 4096 8192 7 false).
Definition alone (i n : nat) : list (nat * bool) := replicate n (i, false).

(** Thread 0 finds the buffer full, flushes it and is about to leave the loop
    through its condition; thread 1 fills the buffer again; thread 0 goes on. *)
Definition stale_todos : list (list Event) := [[FieldEvent 1 4096 8192 3 true]; filler 146].
Definition stale_schedule : list (nat * bool) :=
  alone 1 (73 * 18) ++ alone 0 10 ++ alone 1 (73 * 18) ++ alone 0 4.

(** The [continue] of the reservation loop jumps to the loop's condition,
    so the exchange that follows a flush still compares with the offset loaded
    before it: two threads and the default buffer are enough for a store
    outside of the buffer. *)
Theorem stale_exchange_overruns :
  run_schedule stale_schedule (initial 1024 stale_todos) = Fault OutOfBounds.
Proof. vm_compute. reflexivity. Qed.

(** Thread 0 has taken the first slot and not written it when thread 1 fills
    the buffer, flushes it and starts again. *)
Definition lost_event : Event := FieldEvent 2 65536 131072 9 true.
Definition lost_todos : list (list Event) :=
  [[FieldEvent 1 4096 8192 3 true]; filler 72 ++ [lost_event]].
Definition lost_schedule : list (nat * bool) :=
  alone 0 3 ++ alone 1 (72 * 18 + 40) ++ alone 0 16.

(** A flush does not wait for the slots that are taken and not yet written:
    a run of two threads on the default buffer ends with every call returned,
    one event in no record of the file nor of the buffer, and the null pointer
    among the visited methods. *)
Theorem flush_loses_event :
  exists c, run_schedule lost_schedule (initial 1024 lost_todos) = Ok c /\ finished c /\
    0 ∈ sh_methods (c_shared c) /\
    forall k, take 14 (drop (14 * k) (sh_file (c_shared c) ++
                take (Z.to_nat (sh_cur (c_shared c))) (sh_buf (c_shared c)))) <> record_bytes lost_event.
Proof.
  eexists. split; [vm_compute; reflexivity|]. cbn [c_shared sh_methods sh_file sh_cur sh_buf].
  split; [repeat constructor|]. split; [vm_compute; reflexivity|].
  match goal with |- forall k, take 14 (drop _ ?l) <> _ => set (bytes := l) end.
  assert (length bytes = 1036%nat) as Hl by (vm_compute; reflexivity).
  assert (forallb (fun k => negb (bool_decide (take 14 (drop (14 * k) bytes) = record_bytes lost_event)))
    (seq 0 74) = true) as Hk by (vm_compute; reflexivity).
  intros k. destruct (decide (k < 74)%nat).
  - rewrite forallb_forall in Hk. specialize (Hk k ltac:(apply in_seq; lia)).
    by apply negb_true_iff, bool_decide_eq_false in Hk.
  - rewrite drop_ge by lia. done.
Qed.
