(* ===== verification/MiniTraceText.v ===== *)
(** * Text: the tracer's lists and its configuration file

    What [mini_trace.cc] prints and reads: the lists of threads, methods and
    fields that end a trace, and the options of the configuration file.
    Strings are byte strings; [%p] is Bionic's (lower-case hexadecimal after
    [0x]), a [long] has 32 bits. *)

From stdpp Require Import pretty.
From S2P Require Import Prelude FdFile ArtObjects Listener MiniTraceCodec MiniTraceLog.

(** ** Printing *)

Definition TAB : string := String "009"%char EmptyString.
Definition NL : string := String "010"%char EmptyString.

(** The bytes of a string. *)
Definition string_bytes (s : string) : list Z :=
  (fun c => Z.of_N (N_of_ascii c)) <$> String.list_ascii_of_string s.

Definition hex_digit (d : Z) : ascii :=
  ascii_of_N (Z.to_N (if d <? 10 then 48 + d else 87 + d)).

(** Hexadecimal digits of a number, most significant first; sixteen of them
    are enough for a pointer. *)
Fixpoint hex_digits (fuel : nat) (n : Z) (acc : string) : string :=
  match fuel with
  | O => acc
  | S fuel =>
      let acc := String (hex_digit (n mod 16)) acc in
      if n / 16 =? 0 then acc else hex_digits fuel (n / 16) acc
  end.

(** [%p]. *)
Definition format_pointer (p : Z) : string := String.append "0x" (hex_digits 16 p EmptyString).

(** [operator<<] of an [int] and [%d]. *)
Definition format_int (n : Z) : string := pretty (s32 n).

(** Fields separated by tabs. *)
Fixpoint tabbed (l : list string) : string :=
  match l with
  | [] => EmptyString
  | [x] => x
  | x :: l => String.append x (String.append TAB (tabbed l))
  end.

Definition line (l : list string) : string := String.append (tabbed l) NL.

(** ** The lists *)

(** The elements of a [std::set] of pointers, in its order. *)
Definition ascending (s : gset Z) : list Z := merge_sort Z.le (elements s).

Definition key_le (a b : Z * string) : Prop := a.1 <= b.1.

#[global] Instance key_le_dec : RelDecision key_le := fun a b => Z.le_dec a.1 b.1.

(** The entries of a [SafeMap], in its order. *)
Definition entries (m : gmap Z string) : list (Z * string) := merge_sort key_le (map_to_list m).

(** [ArtMethod::GetDeclaringClassDescriptor]. *)
Definition GetDeclaringClassDescriptor (h : Heap) (m : ArtMethod) : outcome string :=
  if IsRuntimeMethod m then mret "<runtime method>"%string
  else c ← GetDeclaringClass h m; mret (mc_descriptor c).

(** The columns that name a method; the source file is the declaring class's. *)
Definition method_columns (h : Heap) (p : Z) (m : ArtMethod) : outcome (list string) :=
  descriptor ← GetDeclaringClassDescriptor h m;
  name ← PrettyDescriptor descriptor;
  _ ← GetDeclaringClass h m;
  mret [format_pointer p; name; am_name m; am_signature m; am_source_file m].

Fixpoint concat_lines {A} (f : A -> outcome string) (l : list A) : outcome string :=
  match l with
  | [] => mret EmptyString
  | x :: l => s ← f x; rest ← concat_lines f l; mret (String.append s rest)
  end.

Definition DumpMethodList (h : Heap) (t : MiniTrace) : outcome string :=
  concat_lines (fun p => m ← deref (h_methods h) p; cols ← method_columns h p m; mret (line cols))
    (ascending (visited_methods_ t)).

Definition DumpFieldList (h : Heap) (t : MiniTrace) : outcome string :=
  concat_lines (fun p =>
      f ← deref (h_fields h) p;
      c ← deref (h_classes h) (af_declaring_class f);
      _ ← deref (h_dex_files h) (mc_dex_file c);
      name ← PrettyDescriptor (mc_descriptor c);
      mret (line [format_pointer p; name; af_name f; af_type_descriptor f]))
    (ascending (visited_fields_ t)).

Definition DumpThread (tid : Z) (name : string) : string := line [format_int tid; name].

(** [threads] are the running threads, with their names. *)
Definition DumpThreadList (threads : list (Z * string)) (t : MiniTrace) : string :=
  let print l := foldr (fun '(tid, name) acc => String.append (DumpThread tid name) acc) EmptyString l in
  String.append (print (entries (exited_threads_ t))) (print threads).

Definition kMiniTraceTokenChar : string := "*".

Definition token (name : string) : string := String.append kMiniTraceTokenChar (String.append name NL).

Definition DumpList (h : Heap) (threads : list (Z * string)) (t : MiniTrace) : outcome string :=
  methods ← DumpMethodList h t;
  fields ← DumpFieldList h t;
  mret (String.append (token "threads") (String.append (DumpThreadList threads t)
       (String.append (token "methods") (String.append methods
       (String.append (token "fields") (String.append fields (token "end"))))))).

(** ** The configuration file *)

(** The lines of a text that end in a newline, and what follows the last. *)
Fixpoint split_lines (s : string) : list string * string :=
  match s with
  | EmptyString => ([], EmptyString)
  | String c s =>
      let '(ls, rest) := split_lines s in
      if bool_decide (c = "010"%char) then (EmptyString :: ls, rest)
      else match ls with
           | [] => ([], String c rest)
           | l :: ls => (String c l :: ls, rest)
           end
  end.

(** What the loop [while (!in.eof()) { getline(in, line); if (in.eof()) break; ... }]
    hands to its body. *)
Definition config_lines (text : string) : list string := fst (split_lines text).

(** [s.substr(pos)], for a position inside the string. *)
Fixpoint str_drop (n : nat) (s : string) : string :=
  match n, s with
  | S n, String _ s => str_drop n s
  | _, _ => s
  end.

Definition substr (pos : nat) (s : string) : outcome string :=
  if (String.length s <? pos)%nat then Fault UncaughtException else Ok (str_drop pos s).

Definition is_space (c : ascii) : bool :=
  let n := N_of_ascii c in ((n =? 32) || ((9 <=? n) && (n <=? 13)))%N.

Definition digit_value (c : ascii) : option Z :=
  let n := Z.of_N (N_of_ascii c) in if (48 <=? n) && (n <=? 57) then Some (n - 48) else None.

Fixpoint skip_spaces (s : string) : string :=
  match s with
  | String c s' => if is_space c then skip_spaces s' else s
  | EmptyString => s
  end.

Fixpoint decimal (s : string) (acc : Z) : Z :=
  match s with
  | String c s => match digit_value c with Some d => decimal s (10 * acc + d) | None => acc end
  | EmptyString => acc
  end.

(** [atoi]: the value of the leading number, saturated as [strtol] does. *)
Definition atoi (s : string) : Z :=
  let saturate n := Z.max (- 2 ^ 31) (Z.min (2 ^ 31 - 1) n) in
  match skip_spaces s with
  | String "-"%char s => saturate (- decimal s 0)
  | String "+"%char s => saturate (decimal s 0)
  | s => saturate (decimal s 0)
  end.

Record TraceConfig := mkTraceConfig {
  cfg_events : Z;
  cfg_buffer_size : Z;
  cfg_whitelist : list string;
}.

Definition default_config : TraceConfig := mkTraceConfig 0 1024 [].

Definition add_events (e : Z) (c : TraceConfig) : TraceConfig :=
  mkTraceConfig (Z.lor (cfg_events c) e) (cfg_buffer_size c) (cfg_whitelist c).

(** The body of the loop; [None] is its [return].  The product of the buffer
    size wraps as the machine's [int] does. *)
Definition config_line (c : TraceConfig) (l : string) : outcome (option TraceConfig) :=
  if bool_decide (l = "off"%string) then mret None
  else if bool_decide (l = "DoCoverage"%string) then mret (Some (add_events kDoCoverage c))
  else if bool_decide (l = "DoFilter"%string) then mret (Some (add_events kDoFilter c))
  else if bool_decide (l = "MethodEvent"%string) then
    mret (Some (add_events (Z.lor (Z.lor kDoMethodEntered kDoMethodExited) kDoMethodUnwind) c))
  else if bool_decide (l = "FieldEvent"%string) then
    mret (Some (add_events (Z.lor kDoFieldRead kDoFieldWritten) c))
  else if bool_decide (l = "MonitorEvent"%string) then
    mret (Some (add_events (Z.lor kDoMonitorEntered kDoMonitorExited) c))
  else if String.prefix "Buffer" l then
    buffer_str ← substr 6 l;
    let factor := atoi buffer_str in
    mret (Some (if 0 <? factor
                then mkTraceConfig (cfg_events c) (s32 (cfg_buffer_size c * factor)) (cfg_whitelist c) else c))
  else if String.prefix "Include" l then
    class_name_prefix ← substr 8 l;
    mret (Some (mkTraceConfig (cfg_events c) (cfg_buffer_size c) (cfg_whitelist c ++ [class_name_prefix])))
  else mret (Some c).

Fixpoint parse_config (c : TraceConfig) (ls : list string) : outcome (option TraceConfig) :=
  match ls with
  | [] => mret (Some c)
  | l :: ls =>
      r ← config_line c l;
      match r with None => mret None | Some c => parse_config c ls end
  end.

Definition read_config (text : string) : outcome (option TraceConfig) := parse_config default_config (config_lines text).

(** ** What a configuration means *)

(** The events an option line asks for. *)
Definition option_events (l : string) : Z :=
  if bool_decide (l = "DoCoverage"%string) then 2 ^ 9
  else if bool_decide (l = "DoFilter"%string) then 2 ^ 10
  else if bool_decide (l = "MethodEvent"%string) then 7
  else if bool_decide (l = "FieldEvent"%string) then 48
  else if bool_decide (l = "MonitorEvent"%string) then 384
  else 0.

(** The prefix of class names an option line includes. *)
Definition option_prefix (l : string) : list string :=
  if String.prefix "Include" l then [str_drop 8 l] else [].

(** The factor an option line multiplies the buffer size by. *)
Definition option_factor (l : string) : Z :=
  if String.prefix "Buffer" l then Z.max 1 (atoi (str_drop 6 l)) else 1.

(** A line that neither ends the parse nor makes it throw. *)
Definition plain_option (l : string) : Prop := l <> "off"%string /\ l <> "Include"%string.

Lemma prefix_length p l : String.prefix p l = true -> (String.length p <= String.length l)%nat.
Proof.
  revert l. induction p as [|c p IH]; intros [|d l] H; cbn in *; try lia; try done.
  destruct (ascii_dec c d); [|done]. apply IH in H. lia.
Qed.

Lemma prefix_head c p l : String.prefix (String c p) l = true -> exists l', l = String c l'.
Proof. destruct l as [|d l]; cbn; [done|]. destruct (ascii_dec c d) as [->|]; [by eexists|done]. Qed.

Lemma prefix_same_length p l :
  String.prefix p l = true -> String.length l = String.length p -> l = p.
Proof.
  revert l. induction p as [|c p IH]; intros [|d l] H Hl; cbn in *; try done.
  destruct (ascii_dec c d) as [->|]; [|done]. f_equal. apply IH; [done|lia].
Qed.

Definition int_range (n : Z) : Prop := - 2 ^ 31 <= n < 2 ^ 31.

(** What a plain line does to the configuration. *)
Definition apply_option (c : TraceConfig) (l : string) : TraceConfig :=
  mkTraceConfig (Z.lor (cfg_events c) (option_events l)) (s32 (cfg_buffer_size c * option_factor l))
    (cfg_whitelist c ++ option_prefix l).

Lemma substr_ok n l : (n <= String.length l)%nat -> substr n l = Ok (str_drop n l).
Proof. intros H. unfold substr. by rewrite (proj2 (Nat.ltb_ge _ _)). Qed.

Lemma apply_option_same c l :
  int_range (cfg_buffer_size c) -> option_events l = 0 -> option_factor l = 1 -> option_prefix l = [] ->
  apply_option c l = c.
Proof.
  intros Hr He Hf Hp. unfold apply_option. rewrite He, Hf, Hp, Z.lor_0_r, Z.mul_1_r, app_nil_r.
  rewrite s32_small by done. by destruct c.
Qed.

Lemma config_line_plain c l :
  plain_option l -> int_range (cfg_buffer_size c) -> config_line c l = Ok (Some (apply_option c l)).
Proof.
  intros [Hoff Hinc] Hr. unfold config_line. rewrite bool_decide_eq_false_2 by done.
  assert (forall e, option_events l = e -> option_factor l = 1 -> option_prefix l = [] ->
    mret (Some (add_events e c)) = Ok (Some (apply_option c l)) :> outcome (option TraceConfig)) as Hev.
  { intros e He Hf Hp. unfold apply_option, add_events. rewrite He, Hf, Hp, Z.mul_1_r, app_nil_r.
    by rewrite s32_small. }
  do 5 (case_bool_decide; [subst l; by apply Hev|]).
  assert (option_events l = 0) as He by (unfold option_events; by rewrite !bool_decide_eq_false_2).
  destruct (String.prefix "Buffer" l) eqn:Eb.
  - rewrite substr_ok by (apply prefix_length in Eb; exact Eb). cbn [mbind outcome_bind].
    assert (option_prefix l = []) as Hp.
    { unfold option_prefix. destruct (String.prefix "Include" l) eqn:Ei; [|done].
      apply prefix_head in Eb as (l1 & ->). by apply prefix_head in Ei as (l2 & Ei). }
    destruct (Z.ltb_spec 0 (atoi (str_drop 6 l))) as [Hlt|Hge].
    + unfold apply_option, option_factor. rewrite He, Eb, Hp, Z.lor_0_r, app_nil_r, Z.max_r by lia. done.
    + rewrite apply_option_same; [done..| |done]. unfold option_factor. rewrite Eb. lia.
  - assert (option_factor l = 1) as Hf by (unfold option_factor; by rewrite Eb).
    destruct (String.prefix "Include" l) eqn:Ei.
    + assert (8 <= String.length l)%nat as Hlen.
      { destruct (decide (String.length l = 7)%nat) as [E|E].
        - by apply prefix_same_length in Ei.
        - apply prefix_length in Ei. cbn in Ei. lia. }
      rewrite substr_ok by done. cbn [mbind outcome_bind]. unfold apply_option, option_prefix.
      rewrite He, Hf, Ei, Z.lor_0_r, Z.mul_1_r, s32_small by done. done.
    + rewrite apply_option_same; [done..|]. unfold option_prefix. by rewrite Ei.
Qed.

Lemma parse_plain ls : forall c,
  Forall plain_option ls -> int_range (cfg_buffer_size c) ->
  forall rest, parse_config c (ls ++ rest) = parse_config (fold_left apply_option ls c) rest /\
    int_range (cfg_buffer_size (fold_left apply_option ls c)).
Proof.
  induction ls as [|l ls IH]; intros c Hls Hr rest; cbn [app parse_config fold_left]; [done|].
  apply Forall_cons in Hls as [Hl Hls]. rewrite config_line_plain by done. cbn [mbind outcome_bind].
  apply IH; [done|]. apply s32_range.
Qed.

Lemma fold_options ls : forall c,
  cfg_whitelist (fold_left apply_option ls c) = cfg_whitelist c ++ concat (option_prefix <$> ls) /\
  cfg_buffer_size (fold_left apply_option ls c) =
    fold_left (fun size l => s32 (size * option_factor l)) ls (cfg_buffer_size c) /\
  forall n, Z.testbit (cfg_events (fold_left apply_option ls c)) n =
    Z.testbit (cfg_events c) n || existsb (fun l => Z.testbit (option_events l) n) ls.
Proof.
  induction ls as [|l ls IH]; intros c; cbn [fold_left fmap list_fmap concat existsb].
  { rewrite app_nil_r. split_and!; [done..|]. intros n. by rewrite orb_false_r. }
  destruct (IH (apply_option c l)) as (-> & -> & Hn). split_and!; [|done|].
  - cbn [apply_option cfg_whitelist]. by rewrite app_assoc.
  - intros n. rewrite Hn. cbn [apply_option cfg_events]. by rewrite Z.lor_spec, orb_assoc.
Qed.

(** ** Results *)

(** C38. The configuration file means the sum of its lines: the events that
    some line asks for, the buffer size multiplied by each positive factor in
    machine arithmetic, and the class prefixes in the order of their lines;
    text after the last newline is ignored.  A line [off] that is reached
    switches the tracer off, and a line that says just [Include] throws. *)
Theorem config_meaning text :
  let ls := config_lines text in
  (Forall plain_option ls -> exists c, read_config text = Ok (Some c) /\
     cfg_whitelist c = concat (option_prefix <$> ls) /\
     cfg_buffer_size c = fold_left (fun size l => s32 (size * option_factor l)) ls 1024 /\
     forall n, Z.testbit (cfg_events c) n = existsb (fun l => Z.testbit (option_events l) n) ls) /\
  (forall before after, ls = before ++ "off"%string :: after -> Forall plain_option before ->
     read_config text = Ok None) /\
  (forall before after, ls = before ++ "Include"%string :: after -> Forall plain_option before ->
     read_config text = Fault UncaughtException).
Proof.
  cbn zeta. unfold read_config. split_and!.
  - intros H. destruct (parse_plain _ default_config H ltac:(done) []) as [HP _].
    rewrite app_nil_r in HP. eexists. split; [exact HP|]. destruct (fold_options (config_lines text) default_config) as (-> & -> & Hn).
    split_and!; [done..|]. intros n. rewrite Hn. cbn [default_config cfg_events]. by rewrite Z.bits_0.
  - intros before after -> H. by rewrite (proj1 (parse_plain _ default_config H ltac:(done) _)).
  - intros before after -> H. by rewrite (proj1 (parse_plain _ default_config H ltac:(done) _)).
Qed.

Definition sample_config : string :=
  String.append (line ["FieldEvent"%string]) (String.append (line ["Buffer 4"%string])
    (String.append (line ["Include Lcom/example/"%string]) "MethodEvent")).

Lemma config_meaning_witness :
  exists c, read_config sample_config = Ok (Some c) /\ cfg_whitelist c = ["Lcom/example/"%string] /\
    cfg_buffer_size c = 4096.
Proof.
  destruct (proj1 (config_meaning sample_config)) as (c & H1 & H2 & H3 & _).
  - vm_compute. repeat constructor; discriminate.
  - exists c. split; [exact H1|]. split; [rewrite H2; reflexivity|rewrite H3; reflexivity].
Defined.
