(* ===== verification/MiniTraceClasses.v ===== *)
(** * Choosing classes and dumping coverage: [mini_trace.cc]

    [PostClassPrepare], which marks the classes to trace, and the dump of the
    coverage bytes of their methods.  Both work on the heap of runtime
    objects. *)

From stdpp Require Import pretty.
From S2P Require Import Prelude ArtObjects MiniTraceText.

(** ** Marking classes *)

(** [s.c_str()]: the string up to its first null byte. *)
Fixpoint c_str (s : string) : string :=
  match s with
  | EmptyString => EmptyString
  | String c s => if bool_decide (c = "000"%char) then EmptyString else String c (c_str s)
  end.

(** [strncmp(s, prefix, strlen(prefix)) == 0]. *)
Definition strncmp_eq (s prefix : string) : bool := String.prefix (c_str prefix) s.

Definition load {A} (f : Heap -> gmap Z A) (p : Z) : M Heap A := fun h =>
  match deref (f h) p with Ok a => Ok (a, h) | Fault e => Fault e end.

Definition store_method (p : Z) (m : ArtMethod) : M Heap unit :=
  modify (fun h => set_methods (<[p := m]> (h_methods h)) h).

Definition store_field (p : Z) (f : ArtField) : M Heap unit :=
  modify (fun h => set_fields (<[p := f]> (h_fields h)) h).

Definition store_class (p : Z) (c : Class_) : M Heap unit :=
  modify (fun h => set_classes (<[p := c]> (h_classes h)) h).

(** [AllocateCoverageData]: what is left of it reads the size of the method's
    code item through a pointer that it does not test. *)
Definition AllocateCoverageData (p : Z) : M Heap unit :=
  m ← load h_methods p;
  h ← gets id;
  code_item ← lift (method_GetCodeItem h m);
  match code_item with
  | None => lift (Fault NullDereference)
  | Some _ => mret tt
  end.

Definition mark_method (p : Z) : M Heap unit :=
  m ← load h_methods p;
  store_method p (method_SetIsMiniTraceable m) ;;
  AllocateCoverageData p.

Definition mark_field (p : Z) : M Heap unit :=
  f ← load h_fields p;
  store_field p (field_SetIsMiniTraceable f).

Definition framework_prefix : string := "/system/framework/".

(** The decision of [PostClassPrepare]; [location] is the class's dex file's. *)
Definition do_trace (whitelist : option (list string)) (c : Class_) : M Heap bool :=
  match whitelist with
  | None => mret false
  | Some [] =>
      d ← load h_dex_files (mc_dex_file c);
      mret (negb (strncmp_eq (df_location d) framework_prefix))
  | Some prefixes => mret (existsb (strncmp_eq (mc_descriptor c)) prefixes)
  end.

Definition PostClassPrepare (whitelist : option (list string)) (klass : Z) : M Heap unit :=
  c ← load h_classes klass;
  if IsArrayClass c || IsInterface c || IsPrimitive c || IsProxyClass c then mret tt
  else
    trace ← do_trace whitelist c;
    if negb trace then mret tt
    else
      store_class klass (class_SetIsMiniTraceable c) ;;
      forM (mc_direct_methods c) mark_method ;;
      forM (mc_virtual_methods c) mark_method ;;
      forM (mc_ifields c) mark_field ;;
      forM (mc_sfields c) mark_field.

Definition PostClassPrepareClassVisitor (whitelist : option (list string)) (klass : Z) : M Heap bool :=
  PostClassPrepare whitelist klass ;; mret true.

(** ** Dumping coverage *)

(** [p[i]] of a [uint32_t*], in bytes from the start of the array. *)
Definition read_word (data : list Z) (at_ : Z) : outcome Z :=
  b0 ← peek data at_;
  b1 ← peek data (at_ + 1);
  b2 ← peek data (at_ + 2);
  b3 ← peek data (at_ + 3);
  mret (le_value [b0; b1; b2; b3]).

(** The loop that looks for a non-zero word: [n] words from [at_]. *)
Fixpoint any_word (n : nat) (data : list Z) (at_ : Z) : outcome bool :=
  match n with
  | O => mret false
  | S n => w ← read_word data at_; if negb (w =? 0) then mret true else any_word n data (at_ + 4)
  end.

(** The loop that prints and clears: [n] bytes from [at_]. *)
Fixpoint dump_bytes (n : nat) (data : list Z) (at_ : Z) : outcome (string * list Z) :=
  match n with
  | O => mret (EmptyString, data)
  | S n =>
      b ← peek data at_;
      if negb (b =? 0) then
        data ← poke data at_ 0;
        '(s, data) ← dump_bytes n data (at_ + 1);
        mret (String "1"%char s, data)
      else
        '(s, data) ← dump_bytes n data (at_ + 1);
        mret (String "0"%char s, data)
  end.

(** [DumpCoverageData(os, method)]: what it writes to [os]. *)
Definition dump_method_coverage (p : Z) : M Heap string :=
  m ← load h_methods p;
  h ← gets id;
  code_item ← lift (method_GetCodeItem h m);
  match code_item with
  | None => mret EmptyString
  | Some item =>
      let insns_size := u16 (insns_size_in_code_units_ item) in
      dex ← lift (method_dex_file h m);
      d ← load h_dex_files dex;
      match dex_GetCoverageData (am_dex_code_item_offset m) d with
      | None => mret EmptyString
      | Some at_ =>
          if insns_size =? 0 then mret EmptyString
          else
            data ← lift (match df_coverage_data d with None => Fault NullDereference | Some data => Ok data end);
            b ← lift (peek data at_);
            visited ← lift (if b =? 0 then any_word (Z.to_nat (Z.shiftr insns_size 2 + 1)) data at_
                            else mret true);
            if negb visited then mret EmptyString
            else
              cols ← lift (method_columns h p m);
              '(bits, data) ← lift (dump_bytes (Z.to_nat insns_size) data at_);
              modify (fun h => set_dex_files (<[dex := set_coverage (Some data) d]> (h_dex_files h)) h) ;;
              mret (line (cols ++ [format_int insns_size; bits]))
      end
  end.

(** The heap and the stream of a dump. *)
Record CovState := mkCov { cv_heap : Heap; cv_os : string }.

Definition to_os (m : M Heap string) : M CovState unit := fun s =>
  match m (cv_heap s) with
  | Ok (text, h) => Ok (tt, mkCov h (String.append (cv_os s) text))
  | Fault f => Fault f
  end.

Definition DumpCoverageDataClassVisitor (klass : Z) : M CovState bool :=
  h ← gets cv_heap;
  c ← lift (deref (h_classes h) klass);
  if negb (class_IsMiniTraceable c) then mret true
  else
    forM (mc_direct_methods c) (fun p => to_os (dump_method_coverage p)) ;;
    forM (mc_virtual_methods c) (fun p => to_os (dump_method_coverage p)) ;;
    mret true.

(** ** What marking does *)

(** The heap with some methods, fields and classes marked. *)
Record marked (h : Heap) (ms fs ks : gset Z) (h' : Heap) : Prop := {
  mk_methods q : h_methods h' !! q =
    (if decide (q ∈ ms) then method_SetIsMiniTraceable else id) <$> h_methods h !! q;
  mk_fields q : h_fields h' !! q =
    (if decide (q ∈ fs) then field_SetIsMiniTraceable else id) <$> h_fields h !! q;
  mk_classes q : h_classes h' !! q =
    (if decide (q ∈ ks) then class_SetIsMiniTraceable else id) <$> h_classes h !! q;
  mk_dex : h_dex_files h' = h_dex_files h;
  mk_table : h_class_table h' = h_class_table h;
  mk_zygote : h_pre_zygote_class_table h' = h_pre_zygote_class_table h;
}.

Lemma marked_refl h : marked h ∅ ∅ ∅ h.
Proof. split; try done; intros q; rewrite decide_False by set_solver; by destruct (_ !! q). Qed.

Lemma lor_twice a b : Z.lor (Z.lor a b) b = Z.lor a b.
Proof. by rewrite <- Z.lor_assoc, Z.lor_diag. Qed.

Lemma method_mark_twice m : method_SetIsMiniTraceable (method_SetIsMiniTraceable m) = method_SetIsMiniTraceable m.
Proof. unfold method_SetIsMiniTraceable, method_set_flags. cbn. by rewrite lor_twice. Qed.

Lemma field_mark_twice f : field_SetIsMiniTraceable (field_SetIsMiniTraceable f) = field_SetIsMiniTraceable f.
Proof. unfold field_SetIsMiniTraceable, field_set_flags. cbn. by rewrite lor_twice. Qed.

Lemma class_mark_twice c : class_SetIsMiniTraceable (class_SetIsMiniTraceable c) = class_SetIsMiniTraceable c.
Proof. unfold class_SetIsMiniTraceable, class_set_flags. cbn. by rewrite lor_twice. Qed.

(** Marking one more entry of a map in which some are marked. *)
Lemma mark_insert {A} (f : A -> A) (m0 m1 : gmap Z A) (s : gset Z) p a :
  (forall x, f (f x) = f x) ->
  (forall q, m1 !! q = (if decide (q ∈ s) then f else id) <$> m0 !! q) -> m0 !! p = Some a ->
  exists a1, m1 !! p = Some a1 /\
    forall q, <[p := f a1]> m1 !! q = (if decide (q ∈ {[p]} ∪ s) then f else id) <$> m0 !! q.
Proof.
  intros Hf Hm Ha. exists ((if decide (p ∈ s) then f else id) a). split; [by rewrite Hm, Ha|].
  intros q. destruct (decide (p = q)) as [<-|Hne].
  - rewrite lookup_insert_eq, Ha. destruct (decide (p ∈ {[p]} ∪ s)); [|set_solver]. cbn. f_equal.
    case_decide; [apply Hf|done].
  - rewrite lookup_insert_ne, Hm by done.
    destruct (decide (q ∈ s)), (decide (q ∈ {[p]} ∪ s)); try done; exfalso; set_solver.
Qed.

Lemma run_load {A B} (f : Heap -> gmap Z A) p (k : A -> M Heap B) h a :
  f h !! p = Some a -> (load f p ≫= k) h = k a h.
Proof. intros H. unfold load, deref, mbind, M_bind. by rewrite H. Qed.

(** A method whose code item can be read. *)
Definition has_code (h : Heap) (p : Z) : Prop :=
  exists m item, h_methods h !! p = Some m /\ method_GetCodeItem h m = Ok (Some item).

Lemma marked_code h ms fs ks h' m b :
  marked h ms fs ks h' -> method_GetCodeItem h' ((if b : bool then method_SetIsMiniTraceable else id) m) = method_GetCodeItem h m.
Proof.
  intros H. unfold method_GetCodeItem, method_dex_file, GetDeclaringClass, deref.
  assert (am_declaring_class ((if b then method_SetIsMiniTraceable else id) m) = am_declaring_class m) as -> by (by destruct b).
  assert (am_dex_code_item_offset ((if b then method_SetIsMiniTraceable else id) m) = am_dex_code_item_offset m)
    as -> by (by destruct b).
  rewrite (mk_classes _ _ _ _ _ H), (mk_dex _ _ _ _ _ H).
  destruct (h_classes h !! am_declaring_class m) as [c|]; [|done]. cbn. by destruct (decide _).
Qed.

Lemma run_mark_method h ms fs ks h1 p :
  marked h ms fs ks h1 -> has_code h p ->
  exists h2, mark_method p h1 = Ok (tt, h2) /\ marked h ({[p]} ∪ ms) fs ks h2.
Proof.
  intros H (m & item & Hm & Hi).
  destruct (mark_insert method_SetIsMiniTraceable (h_methods h) (h_methods h1) ms p m method_mark_twice
              (mk_methods _ _ _ _ _ H) Hm) as (m1 & Hm1 & Hins).
  set (h2 := set_methods (<[p := method_SetIsMiniTraceable m1]> (h_methods h1)) h1).
  assert (marked h ({[p]} ∪ ms) fs ks h2) as H2 by (split; [exact Hins|apply H..]).
  exists h2. split; [|done]. unfold mark_method. rewrite (run_load _ _ _ _ m1) by done.
  unfold store_method. rewrite bind_modify. fold h2. unfold AllocateCoverageData.
  rewrite (run_load _ _ _ _ (method_SetIsMiniTraceable m1)) by apply lookup_insert_eq.
  rewrite bind_gets, bind_lift. change (method_GetCodeItem (id h2)) with (method_GetCodeItem h2).
  assert (m1 = (if bool_decide (p ∈ ms) then method_SetIsMiniTraceable else id) m) as E.
  { rewrite (mk_methods _ _ _ _ _ H), Hm in Hm1. injection Hm1 as <-. by repeat case_decide || case_bool_decide. }
  assert (method_GetCodeItem h2 (method_SetIsMiniTraceable m1) = Ok (Some item)) as ->; [|done].
  rewrite <- Hi, <- (marked_code _ _ _ _ _ m true H2). f_equal. rewrite E.
  case_bool_decide; [apply method_mark_twice|done].
Qed.

Lemma run_mark_field h ms fs ks h1 p :
  marked h ms fs ks h1 -> is_Some (h_fields h !! p) ->
  exists h2, mark_field p h1 = Ok (tt, h2) /\ marked h ms ({[p]} ∪ fs) ks h2.
Proof.
  intros H [f Hf].
  destruct (mark_insert field_SetIsMiniTraceable (h_fields h) (h_fields h1) fs p f field_mark_twice
              (mk_fields _ _ _ _ _ H) Hf) as (f1 & Hf1 & Hins).
  eexists. split; [unfold mark_field; by rewrite (run_load _ _ _ _ f1)|].
  split; [apply H|exact Hins|apply H..].
Qed.

Lemma run_mark_methods h fs ks l : forall ms h1,
  marked h ms fs ks h1 -> Forall (has_code h) l ->
  exists h2, forM l mark_method h1 = Ok (tt, h2) /\ marked h (list_to_set l ∪ ms) fs ks h2.
Proof.
  induction l as [|p l IH]; intros ms h1 H Hl; cbn [forM list_to_set].
  { exists h1. by rewrite union_empty_l_L. }
  apply Forall_cons in Hl as [Hp Hl]. destruct (run_mark_method _ _ _ _ _ _ H Hp) as (h2 & H2 & HM).
  rewrite (bind_ok _ _ _ _ _ H2). destruct (IH _ _ HM Hl) as (h3 & H3 & HM3). exists h3. split; [done|].
  by replace ({[p]} ∪ list_to_set l ∪ ms) with (list_to_set l ∪ ({[p]} ∪ ms)) by set_solver.
Qed.

Lemma run_mark_fields h ms ks l : forall fs h1,
  marked h ms fs ks h1 -> Forall (fun p => is_Some (h_fields h !! p)) l ->
  exists h2, forM l mark_field h1 = Ok (tt, h2) /\ marked h ms (list_to_set l ∪ fs) ks h2.
Proof.
  induction l as [|p l IH]; intros fs h1 H Hl; cbn [forM list_to_set].
  { exists h1. by rewrite union_empty_l_L. }
  apply Forall_cons in Hl as [Hp Hl]. destruct (run_mark_field _ _ _ _ _ _ H Hp) as (h2 & H2 & HM).
  rewrite (bind_ok _ _ _ _ _ H2). destruct (IH _ _ HM Hl) as (h3 & H3 & HM3). exists h3. split; [done|].
  by replace ({[p]} ∪ list_to_set l ∪ fs) with (list_to_set l ∪ ({[p]} ∪ fs)) by set_solver.
Qed.

(** ** Which classes are chosen *)

Definition plain_class (c : Class_) : bool :=
  negb (IsArrayClass c || IsInterface c || IsPrimitive c || IsProxyClass c).

(** A class is traced if the tracer runs and the class's descriptor begins
    with a prefix of the white list or, when the list is empty, the class does
    not come from the framework. *)
Definition selected (whitelist : option (list string)) (h : Heap) (c : Class_) : Prop :=
  plain_class c = true /\
  match whitelist with
  | None => False
  | Some [] => exists d, h_dex_files h !! mc_dex_file c = Some d /\
      String.prefix "/system/framework/" (df_location d) = false
  | Some prefixes => Exists (fun p => String.prefix (c_str p) (mc_descriptor c) = true) prefixes
  end.

#[global] Instance selected_dec whitelist h c : Decision (selected whitelist h c).
Proof.
  apply and_dec; [apply _|]. destruct whitelist as [[|p ps]|]; [|apply _..].
  destruct (h_dex_files h !! mc_dex_file c) as [d|].
  - destruct (String.prefix "/system/framework/" (df_location d)) eqn:E; [right|left].
    + intros (d' & [= <-] & H). congruence.
    + by exists d.
  - right. by intros (d & H & _).
Defined.

(** A class [PostClassPrepare] can be called on: its dex file is there when it
    is looked at and, if it is to be traced, its methods have code. *)
Definition preparable (whitelist : option (list string)) (h : Heap) (k : Z) : Prop :=
  exists c, h_classes h !! k = Some c /\
    (plain_class c = true -> whitelist = Some [] -> is_Some (h_dex_files h !! mc_dex_file c)) /\
    (selected whitelist h c ->
     Forall (has_code h) (mc_direct_methods c ++ mc_virtual_methods c) /\
     Forall (fun p => is_Some (h_fields h !! p)) (mc_ifields c ++ mc_sfields c)).

Definition class_methods (h : Heap) (k : Z) : list Z :=
  match h_classes h !! k with Some c => mc_direct_methods c ++ mc_virtual_methods c | None => [] end.

Definition class_fields (h : Heap) (k : Z) : list Z :=
  match h_classes h !! k with Some c => mc_ifields c ++ mc_sfields c | None => [] end.

Definition chosen (whitelist : option (list string)) (h : Heap) (k : Z) : Prop :=
  match h_classes h !! k with Some c => selected whitelist h c | None => False end.

#[global] Instance chosen_dec whitelist h k : Decision (chosen whitelist h k).
Proof. unfold chosen. destruct (h_classes h !! k); apply _. Defined.

Lemma plain_marked c b : plain_class ((if b : bool then class_SetIsMiniTraceable else id) c) = plain_class c.
Proof.
  destruct b; [|done]. unfold plain_class, IsArrayClass, IsInterface, IsPrimitive, IsProxyClass.
  cbn [class_SetIsMiniTraceable class_set_flags mc_component_type mc_access_flags mc_primitive_type].
  change kAccIsMiniTraceable with (2 ^ 30). change kAccInterface with (2 ^ 9). change kAccClassIsProxy with (2 ^ 18).
  by rewrite !HasFlag_lor_other by lia.
Qed.

Lemma run_do_trace whitelist h ms fs ks h1 c b :
  marked h ms fs ks h1 -> plain_class c = true ->
  (plain_class c = true -> whitelist = Some [] -> is_Some (h_dex_files h !! mc_dex_file c)) ->
  do_trace whitelist ((if b : bool then class_SetIsMiniTraceable else id) c) h1 =
    Ok (bool_decide (selected whitelist h c), h1).
Proof.
  intros H Hp Hd. unfold do_trace, selected.
  assert (mc_dex_file ((if b then class_SetIsMiniTraceable else id) c) = mc_dex_file c) as -> by (by destruct b).
  assert (mc_descriptor ((if b then class_SetIsMiniTraceable else id) c) = mc_descriptor c) as -> by (by destruct b).
  destruct whitelist as [[|p ps]|].
  - destruct (Hd Hp eq_refl) as [d Hd']. rewrite (run_load _ _ _ _ d) by (by rewrite (mk_dex _ _ _ _ _ H)).
    unfold mret, M_ret. do 2 f_equal. change (c_str framework_prefix) with "/system/framework/"%string.
    unfold strncmp_eq. change (c_str framework_prefix) with "/system/framework/"%string.
    destruct (String.prefix "/system/framework/" (df_location d)) eqn:E; symmetry.
    + apply bool_decide_eq_false_2. intros (_ & d' & Hd2 & E2). congruence.
    + apply bool_decide_eq_true_2. eauto.
  - unfold mret, M_ret. do 2 f_equal. apply eq_true_iff_eq. rewrite existsb_exists, bool_decide_eq_true, Exists_exists.
    setoid_rewrite list_elem_of_In. unfold strncmp_eq. naive_solver.
  - unfold mret, M_ret. do 2 f_equal. symmetry. apply bool_decide_eq_false_2. tauto.
Qed.

Lemma run_prepare whitelist h ms fs ks h1 k :
  marked h ms fs ks h1 -> preparable whitelist h k ->
  exists h2, PostClassPrepare whitelist k h1 = Ok (tt, h2) /\
    if decide (chosen whitelist h k)
    then marked h (list_to_set (class_methods h k) ∪ ms) (list_to_set (class_fields h k) ∪ fs) ({[k]} ∪ ks) h2
    else h2 = h1.
Proof.
  intros H (c & Hc & Hd & Hs). unfold class_methods, class_fields. rewrite Hc.
  assert (chosen whitelist h k <-> selected whitelist h c) as Hch by (unfold chosen; by rewrite Hc).
  destruct (mark_insert class_SetIsMiniTraceable (h_classes h) (h_classes h1) ks k c class_mark_twice
              (mk_classes _ _ _ _ _ H) Hc) as (c1 & Hc1 & Hins).
  assert (c1 = (if bool_decide (k ∈ ks) then class_SetIsMiniTraceable else id) c) as E.
  { rewrite (mk_classes _ _ _ _ _ H), Hc in Hc1. injection Hc1 as <-. by repeat case_decide || case_bool_decide. }
  unfold PostClassPrepare. rewrite (run_load _ _ _ _ c1) by done.
  assert (plain_class c1 = plain_class c) as Hpl by (rewrite E; apply plain_marked).
  unfold plain_class at 1 in Hpl. destruct (IsArrayClass c1 || _ || _ || _); cbn [negb] in Hpl.
  { exists h1. split; [done|]. rewrite decide_False; [done|]. rewrite Hch. intros [Hp _]. congruence. }
  pose proof (run_do_trace whitelist _ _ _ _ _ c (bool_decide (k ∈ ks)) H (eq_sym Hpl) Hd) as HT. rewrite <- E in HT.
  rewrite (bind_ok _ _ _ _ _ HT). case_bool_decide as Hsel; cbn [negb].
  2:{ exists h1. split; [done|]. rewrite decide_False; [done|]. by rewrite Hch. }
  destruct (Hs Hsel) as [Hms Hfs]. apply Forall_app in Hms as [Hm1 Hm2]. apply Forall_app in Hfs as [Hf1 Hf2].
  unfold store_class. rewrite bind_modify. set (h2 := set_classes _ h1).
  assert (marked h ms fs ({[k]} ∪ ks) h2) as H2 by (split; [apply H|apply H|exact Hins|apply H..]).
  assert (mc_direct_methods c1 = mc_direct_methods c /\ mc_virtual_methods c1 = mc_virtual_methods c /\
          mc_ifields c1 = mc_ifields c /\ mc_sfields c1 = mc_sfields c) as (-> & -> & -> & ->)
    by (rewrite E; by case_bool_decide).
  destruct (run_mark_methods _ _ _ _ _ _ H2 Hm1) as (h3 & R3 & H3). rewrite (bind_ok _ _ _ _ _ R3).
  destruct (run_mark_methods _ _ _ _ _ _ H3 Hm2) as (h4 & R4 & H4). rewrite (bind_ok _ _ _ _ _ R4).
  destruct (run_mark_fields _ _ _ _ _ _ H4 Hf1) as (h5 & R5 & H5). rewrite (bind_ok _ _ _ _ _ R5).
  destruct (run_mark_fields _ _ _ _ _ _ H5 Hf2) as (h6 & R6 & H6). exists h6. split; [exact R6|].
  rewrite decide_True by (by apply Hch). rewrite !list_to_set_app_L.
  rewrite (union_comm_L (list_to_set (mc_direct_methods c))), (union_comm_L (list_to_set (mc_ifields c))).
  by rewrite <- !union_assoc_L.
Qed.

Definition chosen_classes (whitelist : option (list string)) (h : Heap) (table : list Z) : list Z :=
  filter (chosen whitelist h) table.

(** The heap after [PostClassPrepare] has run on the classes of a list. *)
Definition prepared (whitelist : option (list string)) (h : Heap) (table : list Z) (h' : Heap) : Prop :=
  let ks := chosen_classes whitelist h table in
  marked h (list_to_set (concat (class_methods h <$> ks))) (list_to_set (concat (class_fields h <$> ks)))
    (list_to_set ks) h'.

Lemma prepared_step whitelist h table k h1 h2 :
  prepared whitelist h table h1 ->
  (if decide (chosen whitelist h k)
   then marked h (list_to_set (class_methods h k) ∪ list_to_set (concat (class_methods h <$> chosen_classes whitelist h table)))
          (list_to_set (class_fields h k) ∪ list_to_set (concat (class_fields h <$> chosen_classes whitelist h table)))
          ({[k]} ∪ list_to_set (chosen_classes whitelist h table)) h2
   else h2 = h1) ->
  prepared whitelist h (table ++ [k]) h2.
Proof.
  intros H H2. unfold prepared, chosen_classes. rewrite filter_app, filter_cons. case_decide as Hk.
  - rewrite filter_nil, !fmap_app, !concat_app, !list_to_set_app_L. cbn [fmap list_fmap concat list_to_set].
    rewrite !app_nil_r, union_empty_r_L.
    rewrite (union_comm_L _ (list_to_set (class_methods h k))), (union_comm_L _ (list_to_set (class_fields h k))).
    by rewrite (union_comm_L _ {[k]}).
  - rewrite filter_nil, app_nil_r. by subst.
Qed.

Lemma run_prepare_table whitelist h l : forall table h1,
  prepared whitelist h table h1 -> Forall (preparable whitelist h) l ->
  exists h2, visit_table l (PostClassPrepareClassVisitor whitelist) h1 = Ok (true, h2) /\
    prepared whitelist h (table ++ l) h2.
Proof.
  induction l as [|k l IH]; intros table h1 H Hl; cbn [visit_table].
  { exists h1. by rewrite app_nil_r. }
  apply Forall_cons in Hl as [Hk Hl]. destruct (run_prepare _ _ _ _ _ _ _ H Hk) as (h2 & R2 & H2).
  unfold PostClassPrepareClassVisitor. rewrite bind_assoc, (bind_ok _ _ _ _ _ R2), bind_ret. cbn [negb].
  destruct (IH _ _ (prepared_step _ _ _ _ _ _ H H2) Hl) as (h3 & R3 & H3). exists h3. split; [done|].
  by rewrite <- app_assoc in H3.
Qed.

(** *** Methods without code *)

(** A class whose pointers can be read; it is [preparable] if moreover the
    methods that are to be marked have code. *)
Definition readable (h : Heap) (p : Z) : Prop :=
  exists m item, h_methods h !! p = Some m /\ method_GetCodeItem h m = Ok item.

Definition described (whitelist : option (list string)) (h : Heap) (k : Z) : Prop :=
  exists c, h_classes h !! k = Some c /\
    (plain_class c = true -> whitelist = Some [] -> is_Some (h_dex_files h !! mc_dex_file c)) /\
    (selected whitelist h c ->
     Forall (readable h) (mc_direct_methods c ++ mc_virtual_methods c) /\
     Forall (fun p => is_Some (h_fields h !! p)) (mc_ifields c ++ mc_sfields c)).

(** Every method that is to be marked has code. *)
Definition chosen_have_code (whitelist : option (list string)) (h : Heap) (table : list Z) : Prop :=
  forall k p, k ∈ table -> chosen whitelist h k -> p ∈ class_methods h k -> has_code h p.

Lemma readable_cases h p : readable h p -> has_code h p \/
  exists m, h_methods h !! p = Some m /\ method_GetCodeItem h m = Ok None.
Proof. intros (m & [item|] & Hm & Hi); [left|right]; by repeat eexists. Qed.

Lemma described_preparable whitelist h k : described whitelist h k ->
  (preparable whitelist h k <-> (chosen whitelist h k -> Forall (has_code h) (class_methods h k))).
Proof.
  intros (c & Hc & Hd & Hs). unfold chosen, class_methods. rewrite Hc. split.
  - intros (c' & Hc' & _ & Hs') Hsel. assert (c' = c) as -> by congruence. by apply Hs'.
  - intros Hcode. exists c. split; [done|]. split; [done|]. intros Hsel. split; [by apply Hcode|by apply Hs].
Qed.

Lemma forall_coded h l : Forall (readable h) l -> Forall (has_code h) l \/ ~ Forall (has_code h) l.
Proof.
  induction 1 as [|p l Hp _ IH]; [by left|]. rewrite Forall_cons. destruct (readable_cases h p Hp) as [Hc|(m & Hm & Hi)]; [tauto|].
  right. intros [(m' & item & Hm' & Hi') _]. congruence.
Qed.

Lemma mark_methods_fault h fs ks l : forall ms h1,
  marked h ms fs ks h1 -> Forall (readable h) l -> ~ Forall (has_code h) l -> forM l mark_method h1 = Fault NullDereference.
Proof.
  induction l as [|p l IH]; intros ms h1 H Hl Hn; [by destruct Hn|]. apply Forall_cons in Hl as [Hp Hl]. cbn [forM].
  destruct (readable_cases h p Hp) as [Hc|(m & Hm & Hi)].
  - destruct (run_mark_method _ _ _ _ _ _ H Hc) as (h2 & R & H2). rewrite (bind_ok _ _ _ _ _ R). apply (IH _ _ H2 Hl).
    intros Hall. apply Hn. by constructor.
  - apply bind_fault.
    destruct (mark_insert method_SetIsMiniTraceable (h_methods h) (h_methods h1) ms p m method_mark_twice
                (mk_methods _ _ _ _ _ H) Hm) as (m1 & Hm1 & Hins).
    set (h2 := set_methods (<[p := method_SetIsMiniTraceable m1]> (h_methods h1)) h1).
    assert (marked h ({[p]} ∪ ms) fs ks h2) as H2 by (split; [exact Hins|apply H..]).
    unfold mark_method. rewrite (run_load _ _ _ _ m1) by done.
    unfold store_method. rewrite bind_modify. fold h2. unfold AllocateCoverageData.
    rewrite (run_load _ _ _ _ (method_SetIsMiniTraceable m1)) by apply lookup_insert_eq.
    rewrite bind_gets, bind_lift. change (method_GetCodeItem (id h2)) with (method_GetCodeItem h2).
    assert (method_SetIsMiniTraceable m1 = method_SetIsMiniTraceable m) as ->.
    { rewrite (mk_methods _ _ _ _ _ H), Hm in Hm1. injection Hm1 as <-. case_decide; [apply method_mark_twice|done]. }
    by rewrite (marked_code _ _ _ _ _ m true H2), Hi.
Qed.

Lemma prepare_fault whitelist h ms fs ks h1 k :
  marked h ms fs ks h1 -> described whitelist h k -> ~ preparable whitelist h k ->
  PostClassPrepare whitelist k h1 = Fault NullDereference.
Proof.
  intros H Hdes Hn. rewrite (described_preparable _ _ _ Hdes) in Hn. destruct Hdes as (c & Hc & Hd & Hs).
  unfold chosen, class_methods in Hn. rewrite Hc in Hn.
  destruct (decide (selected whitelist h c)) as [Hsel|]; [|by destruct Hn; intros ?].
  assert (~ Forall (has_code h) (mc_direct_methods c ++ mc_virtual_methods c)) as Hcode by tauto. clear Hn.
  destruct (Hs Hsel) as [Hms _].
  destruct (mark_insert class_SetIsMiniTraceable (h_classes h) (h_classes h1) ks k c class_mark_twice
              (mk_classes _ _ _ _ _ H) Hc) as (c1 & Hc1 & Hins).
  assert (c1 = (if bool_decide (k ∈ ks) then class_SetIsMiniTraceable else id) c) as E.
  { rewrite (mk_classes _ _ _ _ _ H), Hc in Hc1. injection Hc1 as <-. by repeat case_decide || case_bool_decide. }
  unfold PostClassPrepare. rewrite (run_load _ _ _ _ c1) by done.
  assert (plain_class c1 = plain_class c) as Hpl by (rewrite E; apply plain_marked).
  pose proof (proj1 Hsel) as Hplain. rewrite Hplain in Hpl. unfold plain_class in Hpl. apply negb_true_iff in Hpl. rewrite Hpl.
  pose proof (run_do_trace whitelist _ _ _ _ _ c (bool_decide (k ∈ ks)) H Hplain Hd) as HT. rewrite <- E in HT.
  rewrite (bind_ok _ _ _ _ _ HT), bool_decide_true by done. cbn [negb].
  unfold store_class. rewrite bind_modify. set (h2 := set_classes _ h1).
  assert (marked h ms fs ({[k]} ∪ ks) h2) as H2 by (split; [apply H|apply H|exact Hins|apply H..]).
  assert (mc_direct_methods c1 = mc_direct_methods c /\ mc_virtual_methods c1 = mc_virtual_methods c) as (-> & ->)
    by (rewrite E; destruct (bool_decide (k ∈ ks)); split; reflexivity).
  apply Forall_app in Hms as [Hm1 Hm2]. rewrite Forall_app in Hcode. destruct (forall_coded h _ Hm1) as [Hc2|Hc2].
  - destruct (run_mark_methods _ _ _ _ _ _ H2 Hc2) as (h3 & R3 & H3). rewrite (bind_ok _ _ _ _ _ R3).
    apply bind_fault, (mark_methods_fault _ _ _ _ _ _ H3 Hm2). tauto.
  - by apply bind_fault, (mark_methods_fault _ _ _ _ _ _ H2 Hm1).
Qed.

Lemma preparable_cases whitelist h k : described whitelist h k -> preparable whitelist h k \/ ~ preparable whitelist h k.
Proof.
  intros Hdes. rewrite (described_preparable _ _ _ Hdes). destruct Hdes as (c & Hc & _ & Hs). unfold chosen, class_methods. rewrite Hc.
  destruct (decide (selected whitelist h c)) as [Hsel|]; [|tauto]. destruct (forall_coded h _ (proj1 (Hs Hsel))); tauto.
Qed.

Lemma prepare_table_fault whitelist h l : forall table h1,
  prepared whitelist h table h1 -> Forall (described whitelist h) l -> ~ Forall (preparable whitelist h) l ->
  visit_table l (PostClassPrepareClassVisitor whitelist) h1 = Fault NullDereference.
Proof.
  induction l as [|k l IH]; intros table h1 H Hl Hn; [by destruct Hn|]. apply Forall_cons in Hl as [Hk Hl]. cbn [visit_table].
  unfold PostClassPrepareClassVisitor. rewrite bind_assoc. destruct (preparable_cases _ _ _ Hk) as [Hp|Hp].
  - destruct (run_prepare _ _ _ _ _ _ _ H Hp) as (h2 & R2 & H2). rewrite (bind_ok _ _ _ _ _ R2), bind_ret. cbn [negb].
    apply (IH _ _ (prepared_step _ _ _ _ _ _ H H2) Hl). intros Hall. apply Hn. by constructor.
  - by apply bind_fault, (prepare_fault _ _ _ _ _ _ _ H).
Qed.

Lemma prepare_classes_ok whitelist h :
  Forall (preparable whitelist h) (h_class_table h ++ h_pre_zygote_class_table h) ->
  exists h', VisitClasses (h_class_table h) (h_pre_zygote_class_table h) (PostClassPrepareClassVisitor whitelist) h
      = Ok (tt, h') /\ prepared whitelist h (h_class_table h ++ h_pre_zygote_class_table h) h'.
Proof.
  intros H. apply Forall_app in H as [H1 H2]. unfold VisitClasses.
  destruct (run_prepare_table whitelist h (h_class_table h) [] h (marked_refl h) H1) as (h1 & R1 & P1).
  rewrite (bind_ok _ _ _ _ _ R1). cbn [negb app] in *.
  destruct (run_prepare_table whitelist h _ _ _ P1 H2) as (h2 & R2 & P2). exists h2.
  by rewrite (bind_ok _ _ _ _ _ R2).
Qed.

Lemma prepare_classes_fault whitelist h :
  let table := h_class_table h ++ h_pre_zygote_class_table h in
  Forall (described whitelist h) table -> ~ Forall (preparable whitelist h) table ->
  VisitClasses (h_class_table h) (h_pre_zygote_class_table h) (PostClassPrepareClassVisitor whitelist) h = Fault NullDereference.
Proof.
  cbv zeta. intros [H1 H2]%Forall_app Hn. rewrite Forall_app in Hn. unfold VisitClasses.
  assert (Forall (preparable whitelist h) (h_class_table h) \/ ~ Forall (preparable whitelist h) (h_class_table h)) as [Hp|Hp].
  { clear Hn. induction H1 as [|k l Hk _ IH]; [by left|]. rewrite Forall_cons. destruct (preparable_cases _ _ _ Hk); tauto. }
  - destruct (run_prepare_table whitelist h (h_class_table h) [] h (marked_refl h) Hp) as (h1 & R1 & P1).
    rewrite (bind_ok _ _ _ _ _ R1). cbn [negb app] in *. apply bind_fault, (prepare_table_fault whitelist h _ _ _ P1 H2). tauto.
  - by apply bind_fault, (prepare_table_fault whitelist h _ [] h (marked_refl h) H1).
Qed.

(** The two descriptions agree. *)
Lemma chosen_preparable whitelist h table : Forall (described whitelist h) table ->
  (Forall (preparable whitelist h) table <-> chosen_have_code whitelist h table).
Proof.
  intros Hd. rewrite Forall_forall in Hd |- *. split.
  - intros Hp k p Hk Hch Hin. apply (proj1 (described_preparable _ _ _ (Hd k Hk)) (Hp k Hk)) in Hch. rewrite Forall_forall in Hch. by apply Hch.
  - intros Hc k Hk. apply (described_preparable _ _ _ (Hd k Hk)). intros Hch. apply Forall_forall. intros p Hp. by apply (Hc k p).
Qed.

(** ** What a coverage dump writes *)

(** One character per byte. *)
Fixpoint bits (bs : list Z) : string :=
  match bs with
  | [] => EmptyString
  | b :: bs => String (if b =? 0 then "0"%char else "1"%char) (bits bs)
  end.

Definition all_zero (bs : list Z) : bool := forallb (fun b => b =? 0) bs.

Definition bytes (bs : list Z) : Prop := Forall (fun b => 0 <= b < 256) bs.

Lemma all_zero_app l1 l2 : all_zero (l1 ++ l2) = all_zero l1 && all_zero l2.
Proof. apply forallb_app. Qed.

Lemma le_value_zero bs : bytes bs -> (le_value bs =? 0) = all_zero bs.
Proof.
  induction 1 as [|b bs Hb Hbs IH]; [done|]. cbn [le_value all_zero forallb]. fold (all_zero bs). rewrite <- IH.
  pose proof (le_value_range bs Hbs).
  destruct (Z.eqb_spec b 0), (Z.eqb_spec (le_value bs) 0), (Z.eqb_spec (b + 256 * le_value bs) 0); cbn; lia || done.
Qed.

Lemma drop_cons (data : list Z) (i : nat) :
  (i < length data)%nat -> exists b, data !! i = Some b /\ drop i data = b :: drop (S i) data.
Proof.
  intros H. destruct (lookup_lt_is_Some_2 data i H) as [b Hb]. exists b. split; [done|]. by apply drop_S.
Qed.

Lemma peek_nat data (i : nat) b : data !! i = Some b -> peek data (Z.of_nat i) = Ok b.
Proof. intros H. apply peek_ok; [lia|]. by rewrite Nat2Z.id. Qed.

Lemma read_word_ok data (at_ : nat) :
  (at_ + 4 <= length data)%nat -> read_word data (Z.of_nat at_) = Ok (le_value (take 4 (drop at_ data))).
Proof.
  intros H. unfold read_word.
  destruct (drop_cons data at_) as (b0 & H0 & D0); [lia|]. destruct (drop_cons data (S at_)) as (b1 & H1 & D1); [lia|].
  destruct (drop_cons data (S (S at_))) as (b2 & H2 & D2); [lia|].
  destruct (drop_cons data (S (S (S at_)))) as (b3 & H3 & D3); [lia|].
  replace (Z.of_nat at_ + 1) with (Z.of_nat (S at_)) by lia.
  replace (Z.of_nat at_ + 2) with (Z.of_nat (S (S at_))) by lia.
  replace (Z.of_nat at_ + 3) with (Z.of_nat (S (S (S at_)))) by lia.
  rewrite (peek_nat _ _ _ H0), (peek_nat _ _ _ H1), (peek_nat _ _ _ H2), (peek_nat _ _ _ H3).
  by rewrite D0, D1, D2, D3.
Qed.

Lemma take_drop_add {A} (l : list A) i n k : take (n + k) (drop i l) = take n (drop i l) ++ take k (drop (i + n) l).
Proof. rewrite <- take_take_drop, drop_drop. done. Qed.

Lemma bytes_range data i n : bytes data -> bytes (take n (drop i data)).
Proof. intros H. by apply Forall_take, Forall_drop. Qed.

Lemma any_word_ok n : forall data (at_ : nat),
  (at_ + 4 * n <= length data)%nat -> bytes data ->
  any_word n data (Z.of_nat at_) = Ok (negb (all_zero (take (4 * n) (drop at_ data)))).
Proof.
  induction n as [|n IH]; intros data at_ Hlen Hb; cbn [any_word]; [done|].
  rewrite read_word_ok by lia. cbn [mbind outcome_bind]. rewrite le_value_zero by (by apply bytes_range).
  replace (4 * S n)%nat with (4 + 4 * n)%nat by lia. rewrite take_drop_add, all_zero_app.
  destruct (all_zero (take 4 (drop at_ data))); cbn [negb andb]; [|done].
  replace (Z.of_nat at_ + 4) with (Z.of_nat (at_ + 4)) by lia. apply IH; [lia|done].
Qed.

Lemma dump_bytes_ok n : forall data (at_ : nat),
  (at_ + n <= length data)%nat ->
  dump_bytes n data (Z.of_nat at_) = Ok (bits (take n (drop at_ data)), splice data at_ (replicate n 0)).
Proof.
  induction n as [|n IH]; intros data at_ Hlen; cbn [dump_bytes].
  { unfold splice. cbn. by rewrite Nat.add_0_r, take_drop. }
  destruct (drop_cons data at_) as (b & Hb & HD); [lia|].
  rewrite (peek_nat _ _ _ Hb). cbn [mbind outcome_bind]. rewrite HD. cbn [take bits].
  replace (Z.of_nat at_ + 1) with (Z.of_nat (S at_)) by lia.
  destruct (Z.eqb_spec b 0) as [->|Hne]; cbn [negb].
  - rewrite IH by lia. cbn [mbind outcome_bind mret outcome_ret]. do 2 f_equal.
    rewrite <- (list_insert_id data at_ 0) at 1 by done. rewrite splice_cons; [done|]. rewrite length_replicate. lia.
  - rewrite poke_ok by lia. cbn [mbind outcome_bind]. rewrite Nat2Z.id, IH by (rewrite length_insert; lia).
    cbn [mbind outcome_bind mret outcome_ret]. rewrite drop_insert_lt by lia. do 2 f_equal.
    rewrite splice_cons; [done|]. rewrite length_replicate. lia.
Qed.

Lemma splice_inside (l : list Z) i bs :
  (i + length bs <= length l)%nat -> take (length bs) (drop i (splice l i bs)) = bs.
Proof.
  intros H. unfold splice. rewrite drop_app_le by (rewrite length_take; lia).
  rewrite (drop_ge (take i l)) by (rewrite length_take; lia). cbn [app]. by rewrite take_app_length.
Qed.

Lemma splice_before (l : list Z) i bs j k :
  (i + length bs <= length l)%nat -> (j + k <= i)%nat -> take k (drop j (splice l i bs)) = take k (drop j l).
Proof.
  intros H Hj. unfold splice. rewrite drop_app_le by (rewrite length_take; lia).
  rewrite take_app_le by (rewrite length_drop, length_take; lia).
  rewrite skipn_firstn_comm, take_take. f_equal. lia.
Qed.

Lemma splice_after (l : list Z) i bs j :
  (i + length bs <= length l)%nat -> (i + length bs <= j)%nat -> drop j (splice l i bs) = drop j l.
Proof.
  intros H Hj. unfold splice. rewrite app_assoc.
  rewrite drop_app_ge by (rewrite length_app, length_take; lia). rewrite drop_drop. f_equal.
  rewrite length_app, length_take. lia.
Qed.

(** A method whose coverage can be dumped: its code item lies in a dex file
    whose coverage array has the file's size. *)
Record dumpable (h : Heap) (p : Z) (m : ArtMethod) (dex : Z) (d : DexFile) (data : list Z) (item : CodeItem) : Prop := {
  dm_method : h_methods h !! p = Some m;
  dm_class : method_dex_file h m = Ok dex;
  dm_file : h_dex_files h !! dex = Some d;
  dm_item : df_code_items d !! am_dex_code_item_offset m = Some item;
  dm_wf : code_items_wf d;
  dm_data : df_coverage_data d = Some data;
  dm_size : Z.of_nat (length data) = df_size d;
  dm_bytes : bytes data;
}.

(** The bytes after a method's that the search for a non-zero word reads too. *)
Definition overread (data : list Z) (off n : Z) : list Z :=
  take (Z.to_nat (4 * (n / 4) + 4 - n)) (drop (Z.to_nat (off + n)) data).

(** The method's dump, as the search finds something to print or not. *)
Lemma dump_method_run h p m dex d data item cols :
  dumpable h p m dex d data item -> method_columns h p m = Ok cols ->
  let off := am_dex_code_item_offset m in
  let n := insns_size_in_code_units_ item in
  0 < n < 2 ^ 16 ->
  dump_method_coverage p h =
    if all_zero (coverage_bytes d off item ++ overread data off n) then Ok (EmptyString, h)
    else Ok (line (cols ++ [format_int n; bits (coverage_bytes d off item)]),
             set_dex_files (<[dex := set_coverage (Some (splice data (Z.to_nat off) (replicate (Z.to_nat n) 0))) d]>
                              (h_dex_files h)) h).
Proof.
  intros [Hm Hc Hd Hi [Hin _] Hdata Hsize Hb] Hcols. cbn zeta. intros Hn.
  set (off := am_dex_code_item_offset m) in *. set (n := insns_size_in_code_units_ item) in *.
  destruct (Hin _ _ Hi) as (Hoff & _ & Hend). unfold code_item_end in Hend. fold n in Hend.
  unfold dump_method_coverage. rewrite (run_load _ _ _ _ m) by done. rewrite bind_gets, bind_lift. unfold id.
  assert (method_GetCodeItem h m = Ok (Some item)) as ->.
  { unfold method_GetCodeItem. rewrite Hc. cbn [mbind outcome_bind]. unfold deref. rewrite Hd.
    cbn [mbind outcome_bind]. fold off. unfold GetCodeItem. rewrite (proj2 (Z.eqb_neq _ _)) by lia. by rewrite Hi. }
  fold n. rewrite u16_small by lia. rewrite bind_lift, Hc, (run_load _ _ _ _ d) by done.
  fold off. unfold dex_GetCoverageData. rewrite (proj2 (Z.eqb_neq off 0)), (proj2 (Z.eqb_neq n 0)) by lia.
  rewrite bind_lift, Hdata.
  destruct (drop_cons data (Z.to_nat off)) as (b & Hlb & HD); [lia|].
  assert (peek data off = Ok b) as Hpk by (apply peek_ok; [lia|done]). rewrite bind_lift, Hpk, bind_lift.
  set (k := Z.to_nat (Z.shiftr n 2 + 1)).
  assert (4 * k = Z.to_nat (4 * (n / 4) + 4))%nat as Hk.
  { unfold k. rewrite Z.shiftr_div_pow2 by lia. change (2 ^ 2) with 4. mlia. }
  assert (coverage_bytes d off item ++ overread data off n = take (4 * k) (drop (Z.to_nat off) data)) as Hall.
  { unfold coverage_bytes, overread. rewrite Hdata. cbn [default from_option id]. fold n.
    replace (Z.to_nat (off + n)) with (Z.to_nat off + Z.to_nat n)%nat by lia. rewrite <- take_drop_add. f_equal. mlia. }
  rewrite Hall.
  assert ((if b =? 0 then any_word k data off else mret true) =
          Ok (negb (all_zero (take (4 * k) (drop (Z.to_nat off) data))))) as ->.
  { destruct (Z.eqb_spec b 0) as [->|Hne].
    - rewrite <- (Z2Nat.id off) at 1 by lia. apply any_word_ok; [|done]. rewrite Hk. mlia.
    - rewrite HD. destruct (4 * k)%nat as [|j] eqn:E; [mlia|]. cbn. by rewrite (proj2 (Z.eqb_neq _ _)). }
  destruct (all_zero _); cbn [negb]; [done|].
  rewrite bind_lift, Hcols, bind_lift. rewrite <- (Z2Nat.id off) at 1 by lia.
  rewrite dump_bytes_ok by lia. rewrite bind_modify. unfold mret, M_ret. do 3 f_equal.
  unfold coverage_bytes. by rewrite Hdata.
Qed.

(** ** Executing and dumping *)

(** The interpreter records every pc it executes. *)
Fixpoint visit_pcs (m : ArtMethod) (pcs : list Z) (h : Heap) : outcome Heap :=
  match pcs with
  | [] => mret h
  | pc :: pcs => h ← method_VisitPc h m pc; visit_pcs m pcs h
  end.

Definition visited_bytes (data : list Z) (off : Z) (pcs : list Z) : list Z :=
  foldl (fun data pc => <[Z.to_nat (off + pc) := 1]> data) data pcs.

Definition with_coverage (dex : Z) (d : DexFile) (data : list Z) (h : Heap) : Heap :=
  set_dex_files (<[dex := set_coverage (Some data) d]> (h_dex_files h)) h.

Lemma dumpable_with h p m dex d data item data' :
  dumpable h p m dex d data item -> length data' = length data -> bytes data' ->
  dumpable (with_coverage dex d data' h) p m dex (set_coverage (Some data') d) data' item.
Proof.
  intros [Hm Hc Hd Hi Hwf Hdata Hsize Hb] Hl Hb'. split; try done.
  - cbn. by rewrite lookup_insert_eq.
  - by rewrite Hl.
Qed.

Lemma visit_pcs_ok h p m dex d item pcs : forall data,
  dumpable (with_coverage dex d data h) p m dex (set_coverage (Some data) d) data item ->
  Forall (fun pc => 0 <= pc < insns_size_in_code_units_ item) pcs ->
  visit_pcs m pcs (with_coverage dex d data h) =
    Ok (with_coverage dex d (visited_bytes data (am_dex_code_item_offset m) pcs) h) /\
  dumpable (with_coverage dex d (visited_bytes data (am_dex_code_item_offset m) pcs) h) p m dex
    (set_coverage (Some (visited_bytes data (am_dex_code_item_offset m) pcs)) d)
    (visited_bytes data (am_dex_code_item_offset m) pcs) item.
Proof.
  induction pcs as [|pc pcs IH]; intros data Hdm Hpcs; cbn [visit_pcs visited_bytes foldl]; [done|].
  apply Forall_cons in Hpcs as [Hpc Hpcs]. pose proof Hdm as [Hm Hc Hd Hi [Hin Hdis] Hdata Hsize Hb].
  set (off := am_dex_code_item_offset m) in *. destruct (Hin _ _ Hi) as (Hoff & Hn & Hend). unfold code_item_end in Hend.
  cbn [set_coverage df_size df_code_items] in *.
  set (data1 := <[Z.to_nat (off + pc) := 1]> data).
  assert (method_VisitPc (with_coverage dex d data h) m pc = Ok (with_coverage dex d data1 h)) as ->.
  { unfold method_VisitPc. rewrite Hc. cbn [mbind outcome_bind]. unfold deref. rewrite Hd. cbn [mbind outcome_bind].
    unfold dex_VisitPc. fold off. rewrite (proj2 (Z.eqb_neq _ _)) by lia. cbn [set_coverage df_coverage_data].
    rewrite poke_ok by lia. cbn [mbind outcome_bind mret outcome_ret]. do 2 f_equal.
    unfold with_coverage, set_dex_files. cbn [h_dex_files]. f_equal. by rewrite insert_insert_eq. }
  cbn [mbind outcome_bind]. apply IH; [|done].
  replace (with_coverage dex d data1 h) with (with_coverage dex (set_coverage (Some data) d) data1 (with_coverage dex d data h)).
  - change (set_coverage (Some data1) d) with (set_coverage (Some data1) (set_coverage (Some data) d)).
    eapply dumpable_with; [exact Hdm|by unfold data1; rewrite length_insert|].
    unfold data1, bytes. by apply Forall_insert.
  - unfold with_coverage, set_dex_files. cbn [h_dex_files]. f_equal. by rewrite insert_insert_eq.
Qed.

Lemma length_visited data off pcs : length (visited_bytes data off pcs) = length data.
Proof.
  revert data. induction pcs as [|pc pcs IH]; intros data; cbn; [done|]. unfold visited_bytes in IH.
  by rewrite IH, length_insert.
Qed.

Lemma lookup_visited off pcs j : forall data,
  0 <= off -> Forall (fun pc => 0 <= pc) pcs -> (j < length data)%nat ->
  visited_bytes data off pcs !! j = if decide (Z.of_nat j - off ∈ pcs) then Some 1 else data !! j.
Proof.
  induction pcs as [|pc pcs IH]; intros data Hoff Hp Hj; cbn [visited_bytes foldl].
  { rewrite decide_False by (apply not_elem_of_nil). done. }
  apply Forall_cons in Hp as [Hpc Hp]. fold (visited_bytes (<[Z.to_nat (off + pc) := 1]> data) off pcs).
  rewrite IH by (rewrite ?length_insert; done).
  destruct (decide (Z.of_nat j - off ∈ pcs)) as [Hi|Hi].
  { by rewrite decide_True by (by apply elem_of_cons; right). }
  destruct (decide (Z.of_nat j - off = pc)) as [<-|Hne].
  - rewrite decide_True by (apply elem_of_cons; by left).
    replace (Z.to_nat (off + (Z.of_nat j - off))) with j by lia. by rewrite list_lookup_insert_eq.
  - rewrite decide_False by (rewrite elem_of_cons; tauto). apply list_lookup_insert_ne. lia.
Qed.

Lemma with_coverage_id h p m dex d data item : dumpable h p m dex d data item -> with_coverage dex d data h = h.
Proof.
  intros [_ _ Hd _ _ Hdata _ _]. unfold with_coverage, set_coverage, set_dex_files. rewrite <- Hdata.
  destruct d as [g sz loc its cov], h as [ms fs cs ds t z]. cbn in *. by rewrite insert_id.
Qed.

Lemma visited_outside data off pcs j k :
  0 <= off -> Forall (fun pc => 0 <= pc /\ ~ (Z.of_nat j <= off + pc < Z.of_nat (j + k))) pcs ->
  take k (drop j (visited_bytes data off pcs)) = take k (drop j data).
Proof.
  intros Hoff Hp. apply list_eq. intros i. destruct (decide (i < k)%nat); [|by rewrite !lookup_take_ge by lia].
  rewrite !lookup_take_lt, !lookup_drop by done.
  destruct (decide (j + i < length data)%nat) as [Hlt|Hge].
  - rewrite lookup_visited; [|done| |done].
    + rewrite decide_False; [done|]. intros Hin. rewrite Forall_forall in Hp. apply Hp in Hin. lia.
    + eapply Forall_impl; [exact Hp|]. cbn. tauto.
  - rewrite !lookup_ge_None_2; [done|lia|rewrite length_visited; lia].
Qed.

(** The bytes of a method after it has run at some pcs: those of the pcs are
    set. *)
Definition executed (pcs before : list Z) : list Z := imap (fun i b => if decide (Z.of_nat i ∈ pcs) then 1 else b) before.

Lemma visited_inside data off pcs n :
  0 <= off -> Forall (fun pc => 0 <= pc) pcs -> (Z.to_nat off + n <= length data)%nat ->
  take n (drop (Z.to_nat off) (visited_bytes data off pcs)) = executed pcs (take n (drop (Z.to_nat off) data)).
Proof.
  intros Hoff Hp Hlen. apply list_eq. intros i. unfold executed. rewrite list_lookup_imap.
  destruct (decide (i < n)%nat) as [Hi|Hi].
  - rewrite !lookup_take_lt, !lookup_drop, lookup_visited by (done || lia).
    replace (Z.of_nat (Z.to_nat off + i) - off) with (Z.of_nat i) by lia.
    destruct (lookup_lt_is_Some_2 data (Z.to_nat off + i)) as [b Hb]; [lia|]. rewrite Hb. cbn. by case_decide.
  - by rewrite !lookup_take_ge by lia.
Qed.

Lemma splice_again (l : list Z) i bs : (i + length bs <= length l)%nat -> splice (splice l i bs) i bs = splice l i bs.
Proof.
  intros H. unfold splice at 1. rewrite splice_after by lia.
  pose proof (splice_before l i bs 0 i H ltac:(lia)) as Hb. rewrite !drop_0 in Hb. by rewrite Hb.
Qed.

Lemma all_zero_replicate n : all_zero (replicate n 0) = true.
Proof. induction n; [done|exact IHn]. Qed.

Lemma bytes_splice_zero data i n : bytes data -> bytes (splice data i (replicate n 0)).
Proof.
  intros H. unfold bytes, splice. rewrite !Forall_app. split_and!; [by apply Forall_take| |by apply Forall_drop].
  apply Forall_replicate. lia.
Qed.

(** Clearing a method's bytes: its own are zero, those of the others and the
    ones read past its end stay. *)
Lemma cleared_bytes d data off item :
  code_items_wf d -> df_coverage_data d = Some data -> Z.of_nat (length data) = df_size d ->
  df_code_items d !! off = Some item ->
  let n := insns_size_in_code_units_ item in
  let data' := splice data (Z.to_nat off) (replicate (Z.to_nat n) 0) in
  let d' := set_coverage (Some data') d in
  length data' = length data /\ coverage_bytes d' off item = replicate (Z.to_nat n) 0 /\
  overread data' off n = overread data off n /\
  forall off' item', df_code_items d !! off' = Some item' -> off' <> off ->
    coverage_bytes d' off' item' = coverage_bytes d off' item'.
Proof.
  intros [Hin Hdis] Hdata Hsize Hi. cbn zeta. set (n := insns_size_in_code_units_ item).
  destruct (Hin _ _ Hi) as (Hoff & Hn & Hend). unfold code_item_end in *. fold n in Hend, Hn.
  assert (Z.to_nat off + length (replicate (Z.to_nat n) 0%Z) <= length data)%nat as Hlen by (rewrite length_replicate; lia).
  unfold coverage_bytes, overread. rewrite Hdata. cbn [set_coverage df_coverage_data default from_option id].
  split_and!.
  - by apply length_splice.
  - fold n. rewrite <- (length_replicate (Z.to_nat n) 0) at 1. by apply splice_inside.
  - rewrite splice_after; [done|done|]. rewrite length_replicate. lia.
  - intros off' item' Hi' Hne. destruct (Hin _ _ Hi') as (Hoff' & Hn' & Hend').
    destruct (Z.lt_ge_cases off off') as [Hlt|Hge].
    + pose proof (Hdis _ _ _ _ Hi Hi' Hlt). fold n in H. rewrite splice_after; [done|done|]. rewrite length_replicate. lia.
    + assert (off' < off) as Hlt by lia. pose proof (Hdis _ _ _ _ Hi' Hi Hlt).
      apply splice_before; [done|]. lia.
Qed.

(** ** Results *)

(** Preparing the classes of the table marks exactly the chosen ones:
    those that are not arrays, interfaces, primitives or proxies and begin
    with a prefix of the white list (with an empty list, do not come from the
    framework).  Their methods and fields are marked with them, and nothing
    else of the heap changes.  This is so if every method of a chosen class has
    code; otherwise, when one is native or abstract, the code reads through a
    null pointer. *)
Theorem prepare_marks_selected whitelist h :
  let table := h_class_table h ++ h_pre_zygote_class_table h in
  let run := VisitClasses (h_class_table h) (h_pre_zygote_class_table h) (PostClassPrepareClassVisitor whitelist) h in
  Forall (described whitelist h) table ->
  (chosen_have_code whitelist h table ->
   exists h', run = Ok (tt, h') /\ prepared whitelist h table h' /\
     forall k c, k ∈ table -> h_classes h !! k = Some c -> class_IsMiniTraceable c = false ->
       exists c', h_classes h' !! k = Some c' /\ (class_IsMiniTraceable c' = true <-> selected whitelist h c)) /\
  (~ chosen_have_code whitelist h table -> run = Fault NullDereference).
Proof.
  cbv zeta. intros Hdes. rewrite <- (chosen_preparable _ _ _ Hdes). split; [|by apply prepare_classes_fault].
  intros H. destruct (prepare_classes_ok whitelist h H) as (h' & HV & HP). exists h'. split; [done|].
  split; [done|]. intros k c Hk Hc Hf. unfold prepared in HP.
  assert (k ∈ (list_to_set (chosen_classes whitelist h (h_class_table h ++ h_pre_zygote_class_table h)) : gset Z)
          <-> selected whitelist h c) as Hsel.
  { rewrite elem_of_list_to_set. unfold chosen_classes. rewrite list_elem_of_filter.
    unfold chosen. rewrite Hc. tauto. }
  eexists. split; [rewrite (mk_classes _ _ _ _ _ HP), Hc; reflexivity|]. rewrite <- Hsel.
  case_decide as Hd; cbn [id]; [rewrite class_mark|rewrite Hf]; split; (done || tauto).
Qed.

(** A chosen class with a method that has no code, a native or abstract
    one, makes [PostClassPrepare] read through a null pointer: what is left of
    [AllocateCoverageData] does not test the code item. *)
Theorem prepare_without_code_faults whitelist h k c p m rest :
  h_classes h !! k = Some c -> selected whitelist h c -> mc_direct_methods c = p :: rest ->
  h_methods h !! p = Some m -> am_declaring_class m = k -> am_dex_code_item_offset m = 0 ->
  is_Some (h_dex_files h !! mc_dex_file c) ->
  PostClassPrepare whitelist k h = Fault NullDereference.
Proof.
  intros Hc Hsel Hdm Hm Hk Hoff [d Hd]. unfold PostClassPrepare. rewrite (run_load _ _ _ _ c) by done.
  pose proof Hsel as [Hp _]. pose proof Hp as Hp'. unfold plain_class in Hp. apply negb_true_iff in Hp. rewrite Hp.
  pose proof (run_do_trace whitelist h ∅ ∅ ∅ h c false (marked_refl h) Hp' ltac:(by eexists)) as HT. cbn [id] in HT.
  rewrite (bind_ok _ _ _ _ _ HT). rewrite bool_decide_eq_true_2 by done. cbn [negb]. unfold store_class.
  rewrite bind_modify, Hdm. cbn [forM]. do 2 apply bind_fault. unfold mark_method.
  rewrite (run_load _ _ _ _ m) by done. unfold store_method. rewrite bind_modify. unfold AllocateCoverageData.
  rewrite (run_load _ _ _ _ (method_SetIsMiniTraceable m)) by (cbn; apply lookup_insert_eq).
  rewrite bind_gets, bind_lift. unfold method_GetCodeItem, method_dex_file, GetDeclaringClass, deref.
  cbn [id method_SetIsMiniTraceable method_set_flags am_declaring_class am_dex_code_item_offset set_methods set_classes
       h_classes h_dex_files]. rewrite Hk, lookup_insert_eq.
  cbn [mbind outcome_bind mret outcome_ret class_SetIsMiniTraceable class_set_flags mc_dex_file]. by rewrite Hd, Hoff.
Qed.

(** C39. Coverage is what was executed.  When a method of less than 2^16 code
    units runs at some pcs and its coverage is dumped, the dump has a one
    exactly at those pcs and where a byte was set before, nothing is written if
    neither a byte of the method nor one of the up to four that follow it is
    set, and otherwise the method's bytes are cleared and no other method's.
    A second dump then writes nothing, or a line of zeros if one of the bytes
    after the method is set. *)
Theorem coverage_roundtrip h p m dex d data item cols pcs :
  dumpable h p m dex d data item -> method_columns h p m = Ok cols ->
  let off := am_dex_code_item_offset m in
  let n := insns_size_in_code_units_ item in
  let now := executed pcs (coverage_bytes d off item) in
  let dump bytes := line (cols ++ [format_int n; bits bytes]) in
  0 < n < 2 ^ 16 -> Forall (fun pc => 0 <= pc < n) pcs ->
  exists h1 d', let h2 := set_dex_files (<[dex := d']> (h_dex_files h)) h in
    visit_pcs m pcs h = Ok h1 /\
    dump_method_coverage p h1 = Ok (if all_zero (now ++ overread data off n) then (EmptyString, h1) else (dump now, h2)) /\
    coverage_bytes d' off item = replicate (Z.to_nat n) 0 /\
    (forall off' item', df_code_items d !! off' = Some item' -> off' <> off ->
       coverage_bytes d' off' item' = coverage_bytes d off' item') /\
    dump_method_coverage p h2 = Ok (if all_zero (overread data off n) then EmptyString else dump (replicate (Z.to_nat n) 0), h2).
Proof.
  intros Hdm Hcols. cbn zeta. set (off := am_dex_code_item_offset m). set (n := insns_size_in_code_units_ item).
  intros Hn Hpcs. pose proof Hdm as [Hm Hc Hd Hi Hwf Hdata Hsize Hb].
  destruct (proj1 Hwf _ _ Hi) as (Hoff & _ & Hend). unfold code_item_end in Hend. fold off n in Hoff, Hend.
  pose proof (with_coverage_id _ _ _ _ _ _ _ Hdm) as Hid. pose proof Hdm as Hdm0. rewrite <- Hid in Hdm0.
  assert (set_coverage (Some data) d = d) as Hsd by (unfold set_coverage; rewrite <- Hdata; by destruct d).
  rewrite <- Hsd in Hdm0.
  destruct (visit_pcs_ok h p m dex d item pcs data Hdm0 Hpcs) as [HV Hdm1]. rewrite Hid in HV.
  set (data1 := visited_bytes data (am_dex_code_item_offset m) pcs) in *. fold off in data1.
  assert (Forall (fun pc => 0 <= pc) pcs) as Hpos by (eapply Forall_impl; [exact Hpcs|]; cbn; lia).
  assert (coverage_bytes (set_coverage (Some data1) d) off item = executed pcs (coverage_bytes d off item)) as Hrec.
  { unfold coverage_bytes. rewrite Hdata. cbn [set_coverage df_coverage_data default from_option id]. fold n.
    apply visited_inside; [lia|done|lia]. }
  assert (overread data1 off n = overread data off n) as Hov.
  { apply visited_outside; [lia|]. eapply Forall_impl; [exact Hpcs|]. cbn. lia. }
  pose proof (dump_method_run _ p m dex _ _ item cols Hdm1 Hcols Hn) as HD. cbn zeta in HD. fold off n in HD.
  rewrite Hrec, Hov in HD.
  destruct (cleared_bytes (set_coverage (Some data1) d) data1 off item Hwf) as (L1 & L2 & L3 & L4);
    [done|by apply Hdm1|done|]. fold n in L1, L2, L3, L4.
  set (data2 := splice data1 (Z.to_nat off) (replicate (Z.to_nat n) 0)) in *.
  change (set_coverage (Some data2) (set_coverage (Some data1) d)) with (set_coverage (Some data2) d) in *.
  exists (with_coverage dex d data1 h), (set_coverage (Some data2) d). cbn zeta.
  assert (forall dx dy, set_dex_files (<[dex := dy]> (h_dex_files (set_dex_files (<[dex := dx]> (h_dex_files h)) h))) (set_dex_files (<[dex := dx]> (h_dex_files h)) h)
          = set_dex_files (<[dex := dy]> (h_dex_files h)) h) as Hw.
  { intros dx dy. unfold set_dex_files. cbn [h_dex_files]. f_equal. by rewrite insert_insert_eq. }
  split; [exact HV|]. split; [by rewrite HD; unfold with_coverage; rewrite Hw; destruct (all_zero _)|]. split; [exact L2|]. split.
  - intros off' item' Hi' Hne'. rewrite (L4 off' item' Hi' Hne'). unfold coverage_bytes. rewrite Hdata.
    cbn [set_coverage df_coverage_data default from_option id]. apply visited_outside; [lia|].
    destruct (proj1 Hwf _ _ Hi') as (Hoff' & Hn' & Hend'). unfold code_item_end in *.
    eapply Forall_impl; [exact Hpcs|]. cbn. intros pc Hpc. split; [lia|]. destruct Hwf as [_ Hdis]. unfold code_item_end in Hdis.
    destruct (Z.lt_ge_cases off off') as [Hlt|Hge].
    + pose proof (Hdis _ _ _ _ Hi Hi' Hlt). fold n in H. lia.
    + assert (off' < off) as Hlt by lia. pose proof (Hdis _ _ _ _ Hi' Hi Hlt). lia.
  - assert (dumpable (with_coverage dex d data2 h) p m dex (set_coverage (Some data2) d) data2 item) as Hdm2.
    { apply (dumpable_with h p m dex d data item data2 Hdm); [by rewrite L1; unfold data1; rewrite length_visited|].
      apply bytes_splice_zero. apply Hdm1. }
    pose proof (dump_method_run _ p m dex _ _ item cols Hdm2 Hcols Hn) as HD2. cbn zeta in HD2. fold off n in HD2.
    rewrite L2, L3, Hov, all_zero_app, all_zero_replicate in HD2. cbn [andb] in HD2.
    change (set_dex_files (<[dex := set_coverage (Some data2) d]> (h_dex_files h)) h) with (with_coverage dex d data2 h).
    rewrite HD2. destruct (all_zero (overread data off n)); [done|]. do 2 f_equal. unfold with_coverage. rewrite Hw.
    unfold data2 at 1. rewrite splice_again; [done|]. rewrite length_replicate. unfold data1. rewrite length_visited. lia.
Qed.

(** ** The results at concrete heaps *)

Definition demo_item : CodeItem := mkCodeItem 4 1 0 0 0 5.

Definition demo_dex : DexFile :=
  mkDexFile (kDexMagic ++ kDexMagicVersion) 64 "/data/app/base.apk" {[ 16 := demo_item ]} (Some (replicate 64 0)).

Definition demo_framework : DexFile :=
  mkDexFile (kDexMagic ++ kDexMagicVersion) 64 "/system/framework/core.jar" ∅ (Some (replicate 64 0)).

Definition demo_method (off : Z) : ArtMethod :=
  mkArtMethod 1000 1 off 3 "run" "()V" "V" "Main.java" artInterpreterToCompiledCodeBridge (CompiledCode 4096).

Definition demo_class (descriptor : string) (dex : Z) (ms : list Z) : Class_ :=
  mkClass kStatusInitialized 1 0 kPrimNot descriptor dex ms [] [500] [].

Definition demo_heap (off : Z) : Heap :=
  mkHeap {[ 40 := demo_method off ]} {[ 500 := mkArtField 1000 1 "count" "I" 0 8 ]}
    {[ 1000 := demo_class "LMain;" 7 [40]; 2000 := demo_class "Ljava/lang/Object;" 8 [] ]}
    {[ 7 := demo_dex; 8 := demo_framework ]} [1000] [2000].

Lemma demo_described off : off = 0 \/ off = 16 -> Forall (described (Some []) (demo_heap off)) [1000; 2000].
Proof.
  intros Hoff. repeat constructor.
  - exists (demo_class "LMain;" 7 [40]). split; [reflexivity|]. split; [intros; by eexists|]. intros _. split.
    + repeat constructor. destruct Hoff as [->| ->]; [by exists (demo_method 0), None|by exists (demo_method 16), (Some demo_item)].
    + repeat constructor. by eexists.
  - exists (demo_class "Ljava/lang/Object;" 8 []). split; [reflexivity|]. split; [intros; by eexists|]. intros _. split.
    + repeat constructor.
    + repeat constructor. by eexists.
Qed.

Lemma demo_coded : chosen_have_code (Some []) (demo_heap 16) [1000; 2000].
Proof.
  intros k p [->|[->|?%not_elem_of_nil]%elem_of_cons]%elem_of_cons _ Hp; cbn in Hp; [|by apply not_elem_of_nil in Hp|done].
  apply list_elem_of_singleton in Hp as ->. by exists (demo_method 16), demo_item.
Qed.

Lemma demo_not_coded : ~ chosen_have_code (Some []) (demo_heap 0) [1000; 2000].
Proof.
  intros H. destruct (H 1000 40) as (m & item & Hm & Hi); [set_solver| |cbn; set_solver|].
  - split; [done|]. by exists demo_dex.
  - cbn in Hm. injection Hm as <-. vm_compute in Hi. done.
Qed.

Lemma prepare_marks_selected_witness :
  (exists h', VisitClasses [1000] [2000] (PostClassPrepareClassVisitor (Some [])) (demo_heap 16) = Ok (tt, h') /\
    (class_IsMiniTraceable <$> h_classes h' !! 1000) = Some true /\
    (class_IsMiniTraceable <$> h_classes h' !! 2000) = Some false) /\
  VisitClasses [1000] [2000] (PostClassPrepareClassVisitor (Some [])) (demo_heap 0) = Fault NullDereference.
Proof.
  split; [|apply (proj2 (prepare_marks_selected (Some []) (demo_heap 0) (demo_described 0 (or_introl eq_refl)))); apply demo_not_coded].
  destruct (proj1 (prepare_marks_selected (Some []) (demo_heap 16) (demo_described 16 (or_intror eq_refl))) demo_coded) as (h' & HV & _ & HC).
  exists h'. split; [exact HV|].
  destruct (HC 1000 (demo_class "LMain;" 7 [40])) as (c1 & E1 & S1); [set_solver|done|done|].
  destruct (HC 2000 (demo_class "Ljava/lang/Object;" 8 [])) as (c2 & E2 & S2); [set_solver|done|done|].
  rewrite E1, E2. cbn. split; f_equal.
  - apply S1. split; [done|]. by exists demo_dex.
  - apply not_true_iff_false. rewrite S2. intros (_ & d & Hd & HF). injection Hd as <-. done.
Defined.

Lemma prepare_without_code_faults_witness :
  PostClassPrepare (Some ["LMain"%string]) 1000 (demo_heap 0) = Fault NullDereference.
Proof.
  apply (prepare_without_code_faults _ _ _ (demo_class "LMain;" 7 [40]) 40 (demo_method 0) []); try done.
  split; [done|]. by constructor.
Defined.

Lemma coverage_roundtrip_witness :
  exists h1 h2 cols, visit_pcs (demo_method 16) [0; 3; 0] (demo_heap 16) = Ok h1 /\
    dump_method_coverage 40 h1 = Ok (line (cols ++ [format_int 5; "10010"%string]), h2) /\
    dump_method_coverage 40 h2 = Ok (EmptyString, h2).
Proof.
  destruct (method_columns (demo_heap 16) 40 (demo_method 16)) as [cols|] eqn:HC; [|vm_compute in HC; done].
  destruct (coverage_roundtrip (demo_heap 16) 40 (demo_method 16) 7 demo_dex (replicate 64 0) demo_item cols [0; 3; 0])
    as (h1 & d' & H1 & H2 & _ & _ & H3); try done.
  - split; try done.
    + split.
      * intros off item H. unfold demo_dex in H. cbn [df_code_items] in H. apply lookup_singleton_Some in H as [<- <-].
        split_and!; by vm_compute.
      * intros o1 i1 o2 i2 H1 H2. unfold demo_dex in H1, H2. cbn [df_code_items] in H1, H2. apply lookup_singleton_Some in H1 as [<- <-], H2 as [<- <-]. lia.
    + apply Forall_replicate. lia.
  - repeat constructor; lia.
  - exists h1. eexists _, cols. split; [exact H1|]. split; [exact H2|exact H3].
Defined.
