(* ===== verification/MiniTraceControl.v ===== *)
(** * Starting and stopping a trace: [mini_trace.cc]

    The static functions of [MiniTrace]: they open the trace's files, create
    the tracer, register it with the instrumentation, mark the classes, and
    undo all of it.  They run on the whole runtime; the listener state of the
    runtime is the tracer and the kernel.  [LOG] lines, locks and memory that
    is never freed are not modelled; what runs between [SuspendAll] and
    [ResumeAll] is atomic. *)

From stdpp Require Import pretty.
From S2P Require Import Prelude FdFile ArtObjects Listener.
From S2P Require Import Instrumentation InstrumentationStack InstrumentationControl.
From S2P Require Import MiniTraceCodec MiniTraceLog MiniTraceText MiniTraceClasses.

(** ** The tracer among the listeners *)

(** The static members, the object [the_trace_] points to or pointed to, with
    its address, and the kernel. *)
Record Tracer (W : Type) := mkTracer {
  tr_the_trace : Z;
  tr_object : option (Z * MiniTrace);
  tr_whitelist : option (list string);
  tr_os : W;
}.
Arguments mkTracer {W} _ _ _ _.
Arguments tr_the_trace {W} _.
Arguments tr_object {W} _.
Arguments tr_whitelist {W} _.
Arguments tr_os {W} _.

(** What [mini_trace.cc] asks of its surroundings: the process, the clocks,
    the address the tracer is created at, the names of the running threads,
    the calling thread, the exception object that is created when an
    exception is thrown, and the address of the string that is the tracer's
    key to the instrumentation. *)
Record TraceEnv := mkTraceEnv {
  te_uid : Z;
  te_pid : Z;
  te_milli_time : Z;
  te_micro_time : Z;
  te_new : Z;
  te_threads : list (Z * string);
  te_self : Z;
  te_exception : Z;
  kMiniTracerInstrumentationKey : Z;
}.

(** [kDeoptimizeForAccurateMethodEntryExitListeners]. *)
Definition kDeoptimizeForAccurateMethodEntryExitListeners : bool := true.

Section Tracing.
Context {W : Type} `{!PosixOps W}.

(** A call-back at the tracer's address runs the tracer's function; the other
    listeners have a state of their own. *)
#[global] Instance Tracer_ops : ListenerOps (Tracer W) := {|
  call_listener a c h s :=
    match tr_object s with
    | Some (p, t) =>
        if bool_decide (a = p) then
          '(_, ts) ← on_call h c (mkTS t (tr_os s));
          mret (mkTracer (tr_the_trace s) (Some (p, ts_trace ts)) (tr_whitelist s) (ts_os ts))
        else mret s
    | None => mret s
    end;
|}.

Definition set_listeners (l : Tracer W) (s : RT (Tracer W)) : RT (Tracer W) :=
  mkRT (rt_instr s) (rt_code s) (rt_threads s) l (rt_alloc_instrumented s).

Definition on_tracer (f : Tracer W -> Tracer W) : M (RT (Tracer W)) unit := modify (fun s => set_listeners (f (rt_listeners s)) s).

Definition set_the_trace (p : Z) (l : Tracer W) : Tracer W := mkTracer p (tr_object l) (tr_whitelist l) (tr_os l).
Definition set_object (o : option (Z * MiniTrace)) (l : Tracer W) : Tracer W :=
  mkTracer (tr_the_trace l) o (tr_whitelist l) (tr_os l).
Definition set_whitelist (wl : option (list string)) (l : Tracer W) : Tracer W :=
  mkTracer (tr_the_trace l) (tr_object l) wl (tr_os l).
Definition set_os (w : W) (l : Tracer W) : Tracer W :=
  mkTracer (tr_the_trace l) (tr_object l) (tr_whitelist l) w.

(** Run a file operation. *)
Definition os_op {A} (m : M W A) : M (RT (Tracer W)) A := fun s =>
  match m (tr_os (rt_listeners s)) with
  | Ok (a, w) => Ok (a, set_listeners (set_os w (rt_listeners s)) s)
  | Fault f => Fault f
  end.

(** Run a function of the tracer object. *)
Definition trace_op {A} (m : M (TS W) A) : M (RT (Tracer W)) A := fun s =>
  match tr_object (rt_listeners s) with
  | None => Fault NullDereference
  | Some (p, t) =>
      match m (mkTS t (tr_os (rt_listeners s))) with
      | Ok (a, ts) => Ok (a, set_listeners (set_os (ts_os ts) (set_object (Some (p, ts_trace ts)) (rt_listeners s))) s)
      | Fault f => Fault f
      end
  end.

(** Run an operation on the heap. *)
Definition heap_op {A} (m : M Heap A) : M (RT (Tracer W)) A := fun s =>
  match m (cs_heap (rt_code s)) with
  | Ok (a, h) => Ok (a, mkRT (rt_instr s) (mkCodeState h (cs_jit (rt_code s))) (rt_threads s) (rt_listeners s)
                          (rt_alloc_instrumented s))
  | Fault f => Fault f
  end.

Context (env : RuntimeEnv) (tenv : TraceEnv).

Definition the_heap : M (RT (Tracer W)) Heap := gets (fun s => cs_heap (rt_code s)).

(** ** Coverage *)

Definition coverage_data_filename : string :=
  String.append "/data/mini_trace_" (String.append (format_int (te_uid tenv)) "_coverage.dat").

(** The first line of what is written. *)
Definition coverage_header (start : bool) : string :=
  line [if start then "Start"%string else "Dump"%string; format_int (te_pid tenv); pretty (u64 (te_milli_time tenv))].

(** The walk over the classes that dumps the coverage of their methods. *)
Definition dump_coverage_classes (header : string) : M (RT (Tracer W)) string :=
  heap_op (fun h =>
    match VisitClasses (h_class_table h) (h_pre_zygote_class_table h) DumpCoverageDataClassVisitor (mkCov h header) with
    | Ok (_, s) => Ok (cv_os s, cv_heap s)
    | Fault f => Fault f
    end).

Definition DumpCoverageData (start : bool) : M (RT (Tracer W)) unit :=
  exists_ ← os_op (FileExists coverage_data_filename);
  file ← os_op (if (exists_ : bool) then OpenFileWithFlags coverage_data_filename (Z.lor O_RDWR O_APPEND)
                else CreateEmptyFile coverage_data_filename);
  match file with
  | None => mret tt
  | Some file =>
      data ← (if start then mret (coverage_header true) else dump_coverage_classes (coverage_header false));
      '(ok, file) ← os_op (WriteFully (string_bytes data) file);
      if negb (ok : bool) then
        file ← os_op (Erase file);
        os_op (destroy file)
      else
        '(_, file) ← os_op (FlushCloseOrErase file);
        os_op (destroy file)
  end.

(** ** Starting *)

(** [os << trace_base_filename << getuid() << suffix]. *)
Definition trace_filename (suffix : string) : string :=
  String.append "/data/mini_trace_" (String.append (pretty (u32 (te_uid tenv))) suffix).

(** Reading the configuration; [None] where [Start] returns. *)
Definition start_config : M (RT (Tracer W)) (option TraceConfig) :=
  let name := trace_filename "_config.in" in
  exists_ ← os_op (FileExists name);
  if (exists_ : bool) then
    text ← os_op (gets (sys_file_text name));
    match text with
    | None => mret None
    | Some text => lift (read_config text)
    end
  else mret None.

(** Opening the two files.  Where the second cannot be opened, the return
    destroys the first. *)
Definition start_files : M (RT (Tracer W)) (option (FdFile * FdFile)) :=
  trace_info_file ← os_op (CreateEmptyFile (trace_filename "_info.log"));
  match trace_info_file with
  | None => mret None
  | Some trace_info_file =>
      trace_data_file ← os_op (CreateEmptyFile (trace_filename "_data.bin"));
      match trace_data_file with
      | None => os_op (destroy trace_info_file) ;; mret None
      | Some trace_data_file => mret (Some (trace_info_file, trace_data_file))
      end
  end.

(** The part between [SuspendAll] and [ResumeAll]; the result says whether the
    tracer took the files. *)
Definition start_create (c : TraceConfig) (trace_info_file trace_data_file : FdFile) : M (RT (Tracer W)) bool :=
  the_trace ← gets (fun s => tr_the_trace (rt_listeners s));
  if negb (the_trace =? 0) then mret false
  else
    on_tracer (set_whitelist (Some (cfg_whitelist c))) ;;
    t ← lift (MiniTrace_new trace_info_file trace_data_file (cfg_events c) (cfg_buffer_size c) (te_micro_time tenv));
    on_tracer (set_object (Some (te_new tenv, t))) ;;
    on_tracer (set_the_trace (te_new tenv)) ;;
    i ← gets rt_instr;
    i ← lift (AddListener (te_new tenv) (cfg_events c) i);
    on_instr (fun _ => i) ;;
    EnableMethodTracing env (kMiniTracerInstrumentationKey tenv) kDeoptimizeForAccurateMethodEntryExitListeners ;;
    h ← the_heap;
    whitelist ← gets (fun s => tr_whitelist (rt_listeners s));
    heap_op (VisitClasses (h_class_table h) (h_pre_zygote_class_table h) (PostClassPrepareClassVisitor whitelist)) ;;
    mret true.

(** [Start]; [others] is what other threads do before it has suspended them. *)
Definition Start (others : M (RT (Tracer W)) unit) : M (RT (Tracer W)) unit :=
  the_trace ← gets (fun s => tr_the_trace (rt_listeners s));
  if negb (the_trace =? 0) then mret tt
  else
    config ← start_config;
    match config with
    | None => mret tt
    | Some c =>
        files ← start_files;
        match files with
        | None => mret tt
        | Some (trace_info_file, trace_data_file) =>
            others ;;
            released ← start_create c trace_info_file trace_data_file;
            DumpCoverageData true ;;
            if (released : bool) then mret tt
            else os_op (destroy trace_data_file) ;; os_op (destroy trace_info_file)
        end
    end.

(** ** Stopping *)

(** [ThrowRuntimeException]: the calling thread's exception. *)
Definition ThrowRuntimeException : M (RT (Tracer W)) unit :=
  modify (fun s => mkRT (rt_instr s) (rt_code s)
    ((fun t => if th_tid t =? te_self tenv then set_exception (te_exception tenv) t else t) <$> rt_threads s)
    (rt_listeners s) (rt_alloc_instrumented s)).

Definition FinishTracing : M (RT (Tracer W)) unit :=
  _ ← trace_op FlushBuffer;
  h ← the_heap;
  header ← trace_op (t ← gets ts_trace; lift (DumpList h (te_threads tenv) t));
  ok ← trace_op (t ← gets ts_trace;
                 '(ok, file) ← on_os (WriteFully (string_bytes header) (trace_info_file_ t));
                 upd (set_info_file file) ;;
                 mret ok);
  if negb (ok : bool) then ThrowRuntimeException else mret tt.

(** Flushing and closing a file; failures are only logged. *)
Definition flush_and_close (f : FdFile) : M W FdFile :=
  '(_, f) ← Flush f;
  '(_, f) ← Close f;
  mret f.

(** [delete the_trace]: the members are destroyed in reverse order. *)
Definition delete_trace : M (RT (Tracer W)) unit :=
  trace_op (t ← gets ts_trace;
            on_os (destroy (trace_data_file_ t)) ;;
            on_os (destroy (trace_info_file_ t))) ;;
  on_tracer (set_object None).

Definition Stop : M (RT (Tracer W)) unit :=
  the_trace ← gets (fun s => tr_the_trace (rt_listeners s));
  if the_trace =? 0 then mret tt
  else
    on_tracer (set_the_trace 0) ;;
    on_tracer (set_whitelist None) ;;
    FinishTracing ;;
    DisableMethodTracing env (kMiniTracerInstrumentationKey tenv) ;;
    i ← gets rt_instr;
    events ← trace_op (gets (fun s => events_ (ts_trace s)));
    i ← lift (RemoveListener the_trace events i);
    on_instr (fun _ => i) ;;
    trace_op (t ← gets ts_trace;
              file ← on_os (flush_and_close (trace_info_file_ t));
              upd (set_info_file file) ;;
              file ← on_os (flush_and_close (trace_data_file_ t));
              upd (set_data_file file)) ;;
    delete_trace.

Inductive TracingMode := kTracingInactive | kMethodTracingActive | kSampleProfilingActive.

Definition GetMethodTracingMode : M (RT (Tracer W)) TracingMode :=
  the_trace ← gets (fun s => tr_the_trace (rt_listeners s));
  mret (if the_trace =? 0 then kTracingInactive else kMethodTracingActive).

Definition Shutdown : M (RT (Tracer W)) unit :=
  mode ← GetMethodTracingMode;
  match mode with kTracingInactive => mret tt | _ => Stop end.

(** ** The other entry points *)

(** [DumpList()]: what goes to the log; [None] when no trace is in progress. *)
Definition DumpList_log : M (RT (Tracer W)) (option string) :=
  the_trace ← gets (fun s => tr_the_trace (rt_listeners s));
  if the_trace =? 0 then mret None
  else
    h ← the_heap;
    text ← trace_op (t ← gets ts_trace; lift (DumpList h (te_threads tenv) t));
    mret (Some text).

(** [SafeMap::Put] keeps the entry of a key that is there. *)
Definition SafeMap_Put (k : Z) (v : string) (m : gmap Z string) : gmap Z string :=
  match m !! k with Some _ => m | None => <[k := v]> m end.

Definition StoreExitingThreadInfo (tid : Z) (name : string) : M (RT (Tracer W)) unit :=
  the_trace ← gets (fun s => tr_the_trace (rt_listeners s));
  if the_trace =? 0 then mret tt
  else trace_op (upd (fun t => set_exited (SafeMap_Put tid name (exited_threads_ t)) t)).

(** [SignalCatcher::HandleSigUsr1], after [collect_garbage]. *)
Definition HandleSigUsr1 (collect_garbage : M (RT (Tracer W)) unit) : M (RT (Tracer W)) unit :=
  collect_garbage ;; Stop.

Definition HandleSigUsr2 : M (RT (Tracer W)) unit := DumpCoverageData false.

End Tracing.

(** ** What logging keeps *)

(** The members of the tracer that logging does not write. *)
Record kept (t t' : MiniTrace) : Prop := {
  kp_info : trace_info_file_ t' = trace_info_file_ t;
  kp_events : events_ t' = events_ t;
  kp_size : buffer_size_ t' = buffer_size_ t;
  kp_exited : exited_threads_ t' = exited_threads_ t;
}.

#[global] Instance kept_preorder : PreOrder kept.
Proof.
  split; [by intros t; split|]. intros t1 t2 t3 [A1 A2 A3 A4] [B1 B2 B3 B4]. split; congruence.
Qed.

Section Keeping.
Context {W : Type} `{!PosixOps W}.

Definition keeps {A} (m : M (TS W) A) : Prop :=
  forall s a s', m s = Ok (a, s') -> kept (ts_trace s) (ts_trace s').

Lemma keeps_bind {A B} (m : M (TS W) A) (k : A -> M (TS W) B) : keeps m -> (forall a, keeps (k a)) -> keeps (m ≫= k).
Proof. intros Hm Hk s b s' H. apply bind_inv in H as (a & s1 & H1 & H2). etrans; [by eapply Hm|by eapply Hk]. Qed.

Lemma keeps_ret {A} (a : A) : keeps (mret a).
Proof. by intros s b s' [= <- <-]. Qed.

Lemma keeps_gets {A} (f : TS W -> A) : keeps (gets f).
Proof. by intros s b s' [= <- <-]. Qed.

Lemma keeps_lift {A} (o : outcome A) : keeps (lift o).
Proof. intros s b s' H. unfold lift in H. destruct o; [|done]. by injection H as <- <-. Qed.

Lemma keeps_upd f : (forall t, kept t (f t)) -> keeps (upd f).
Proof. intros Hf s b s' [= <- <-]. apply Hf. Qed.

Lemma keeps_on_os {A} (m : M W A) : keeps (on_os m).
Proof. intros s b s' H. unfold on_os in H. destruct (m (ts_os s)) as [[a w]|]; [|done]. by injection H as <- <-. Qed.

Ltac keep :=
  repeat first
    [ apply keeps_bind; [|intros ?] | apply keeps_ret | apply keeps_gets | apply keeps_lift | apply keeps_on_os
    | apply keeps_upd; by split | match goal with |- context [match ?x with _ => _ end] => destruct x end ].

Lemma keeps_flush : keeps FlushBuffer.
Proof. unfold FlushBuffer. keep. Qed.

Lemma keeps_overflow : keeps HandleOverflow.
Proof. unfold HandleOverflow, HandleOverflow_locked. keep. Qed.

Lemma keeps_reserve fuel : keeps (reserve fuel).
Proof.
  induction fuel as [|fuel IH]; cbn [reserve]; unfold CompareExchange; keep; apply IH.
Qed.

Lemma keeps_log ev : keeps (log_event ev).
Proof. unfold log_event. apply keeps_bind; [apply keeps_reserve|]. intros slot. keep. Qed.

End Keeping.

(** ** The tracer is a lawful listener *)

Section Lawful.
Context {W : Type} `{!PosixOps W, !PosixLaws W}.

(** The tracer can be told of methods whose address fits a record. *)
Definition recordable (m : Z) : Prop := event_aligned (MethodEvent 0 m kMiniTraceMethodEnter 0).

Lemma method_event_total h tid m pc e rv t (w : W) pend :
  trace_wf t pend -> recordable m -> is_Some (h_methods h !! m) -> e = kMethodEntered \/ e = kMethodExited ->
  exists t' w' pend', LogMethodTraceEvent h tid m pc e rv (mkTS t w) = Ok (tt, mkTS t' w') /\
    trace_wf t' pend' /\ kept t t' /\ fd_ (trace_data_file_ t') = fd_ (trace_data_file_ t).
Proof.
  intros Hwf Hm [am Ham] He. unfold LogMethodTraceEvent. rewrite bind_lift. unfold deref. rewrite Ham.
  destruct (negb (method_IsMiniTraceable am)); [by exists t, w, pend|].
  assert (exists a, method_action e = Ok a /\ event_wf (MethodEvent tid m a rv)) as (a & Ha & Hev).
  { destruct He as [->| ->]; eexists; (split; [reflexivity|]); (split; [exact Hm|tauto]). }
  rewrite bind_lift, Ha. destruct (log_event_result t w pend _ Hwf Hev) as (t' & w' & pend' & Hl & Hwf' & _ & Hfd & _).
  exists t', w', pend'. split_and!; try done. by apply (keeps_log _ _ _ _ Hl).
Qed.

(** The tracer of [s] is the one of [s0], some events later. *)
Definition tracer_ok (s0 s : Tracer W) : Prop :=
  tr_the_trace s = tr_the_trace s0 /\ tr_whitelist s = tr_whitelist s0 /\
  match tr_object s0 with
  | None => s = s0
  | Some (p, t0) => exists t pend, tr_object s = Some (p, t) /\ trace_wf t pend /\ kept t0 t /\
      fd_ (trace_data_file_ t) = fd_ (trace_data_file_ t0)
  end.

Lemma tracer_call a c h s0 s :
  (forall t w pend, trace_wf t pend -> exists t' w' pend', on_call h c (mkTS t w) = Ok (tt, mkTS t' w') /\
     trace_wf t' pend' /\ kept t t' /\ fd_ (trace_data_file_ t') = fd_ (trace_data_file_ t)) ->
  tracer_ok s0 s -> exists s', call_listener a c h s = Ok s' /\ tracer_ok s0 s'.
Proof.
  intros Hc (H1 & H2 & H3). cbn [call_listener Tracer_ops]. destruct (tr_object s0) as [[p t0]|] eqn:E0.
  - destruct H3 as (t & pend & Hs & Hwf & Hk & Hfd). rewrite Hs. case_bool_decide; [|eexists; split; [done|]].
    + destruct (Hc t (tr_os s) pend Hwf) as (t' & w' & pend' & -> & Hwf' & Hk' & Hfd').
      eexists. split; [done|]. split; [done|]. split; [done|]. rewrite E0. exists t', pend'. split; [done|].
      split; [done|]. split; [by etrans|congruence].
    + split; [done|]. split; [done|]. rewrite E0. by exists t, pend.
  - subst s. rewrite E0. eexists. split; [done|]. split; [done|]. split; [done|]. by rewrite E0.
Qed.

Definition Tracer_laws (s0 : Tracer W) : ListenerLaws (Tracer W).
Proof.
  refine {| listener_ok := tracer_ok s0; reportable := recordable |}.
  - intros a tid o m pc h s Hm Hh Hs. apply tracer_call; [|done]. intros t w pend Hwf.
    eapply method_event_total; eauto.
  - intros a tid o m pc rv h s Hm Hh Hs. apply tracer_call; [|done]. intros t w pend Hwf.
    eapply method_event_total; eauto.
Defined.

(** A thread stubs can be installed on while the tracer listens. *)
Definition thread_traceable (env : RuntimeEnv) (h : Heap) (t : Thread_) : Prop :=
  thread_ok env h t /\
  Forall (fun f => match f with Upcall => True | _ => recordable (frame_method f) end) (th_frames t).

Lemma traceable_ready s0 env h t : thread_traceable env h t -> @thread_ready (Tracer W) _ (Tracer_laws s0) env h t.
Proof. intros [H1 H2]. by split. Qed.

(** ** Running the operations *)

Context (env : RuntimeEnv) (tenv : TraceEnv).

Implicit Types (i : Instrumentation) (c : CodeState) (ts : list Thread_) (w : W) (q : Z) (a : bool)
  (o : option (Z * MiniTrace)) (wl : option (list string)).

Lemma run_os {A B} (m : M W A) (k : A -> M (RT (Tracer W)) B) i c ts q o wl w a x w' :
  m w = Ok (x, w') -> (os_op m ≫= k) (mkRT i c ts (mkTracer q o wl w) a) = k x (mkRT i c ts (mkTracer q o wl w') a).
Proof. intros H. unfold os_op, mbind, M_bind. cbn. by rewrite H. Qed.

Lemma run_os_last (m : M W unit) i c ts q o wl w a w' :
  m w = Ok (tt, w') -> os_op m (mkRT i c ts (mkTracer q o wl w) a) = Ok (tt, mkRT i c ts (mkTracer q o wl w') a).
Proof. intros H. unfold os_op. cbn. by rewrite H. Qed.

Lemma run_trace {A B} (m : M (TS W) A) (k : A -> M (RT (Tracer W)) B) i c ts q p t wl w a x t' w' :
  m (mkTS t w) = Ok (x, mkTS t' w') ->
  (trace_op m ≫= k) (mkRT i c ts (mkTracer q (Some (p, t)) wl w) a) =
    k x (mkRT i c ts (mkTracer q (Some (p, t')) wl w') a).
Proof. intros H. unfold trace_op, mbind, M_bind. cbn. by rewrite H. Qed.

Lemma run_heap {A B} (m : M Heap A) (k : A -> M (RT (Tracer W)) B) i h jit ts l a x h' :
  m h = Ok (x, h') -> (heap_op m ≫= k) (mkRT i (mkCodeState h jit) ts l a) = k x (mkRT i (mkCodeState h' jit) ts l a).
Proof. intros H. unfold heap_op, mbind, M_bind. cbn. by rewrite H. Qed.

Lemma bind_on_tracer {B} f (k : unit -> M (RT (Tracer W)) B) i c ts l a :
  (on_tracer f ≫= k) (mkRT i c ts l a) = k tt (mkRT i c ts (f l) a).
Proof. done. Qed.

(** Writing the coverage file and closing it never aborts. *)
Lemma write_coverage text file i c ts q o wl w a :
  exists w',
    ('(ok, file) ← os_op (WriteFully (string_bytes text) file);
     if negb (ok : bool) then
       file ← os_op (Erase file); os_op (destroy file)
     else
       '(_, file) ← os_op (FlushCloseOrErase file); os_op (destroy file)) (mkRT i c ts (mkTracer q o wl w) a) =
      Ok (tt, mkRT i c ts (mkTracer q o wl w') a).
Proof.
  destruct (WriteFully_spec (string_bytes text) file w) as (ok & w1 & n & HW & _).
  rewrite (run_os _ _ _ _ _ _ _ _ _ _ _ _ HW). destruct ok; cbn [negb].
  - destruct (FlushCloseOrErase_spec (moveTo kBase file) w1) as (rc & f2 & w2 & HF & Hd).
    rewrite (run_os _ _ _ _ _ _ _ _ _ _ _ _ HF). pose proof (destroy_spec f2 w2) as HD. rewrite Hd in HD.
    destruct HD as [w3 HD]. exists w3. by apply run_os_last.
  - destruct (Erase_spec (moveTo kBase file) w1) as (f2 & w2 & HF & Hd).
    rewrite (run_os _ _ _ _ _ _ _ _ _ _ _ _ HF). pose proof (destroy_spec f2 w2) as HD. rewrite Hd in HD.
    destruct HD as [w3 HD]. exists w3. by apply run_os_last.
Qed.

Lemma open_coverage (b : bool) name (w : W) :
  exists (file : option FdFile) w', (if b then OpenFileWithFlags name (Z.lor O_RDWR O_APPEND) else CreateEmptyFile name) w = Ok (file, w').
Proof.
  destruct b.
  - destruct (OpenFileWithFlags_spec name (Z.lor O_RDWR O_APPEND) w) as (o & w' & H & _); [done|by exists o, w'].
  - destruct (OpenFileWithFlags_spec name (Z.lor (Z.lor O_RDWR O_CREAT) O_TRUNC) w) as (o & w' & H & _);
      [done|by exists o, w'].
Qed.

(** Starting coverage changes the kernel only. *)
Lemma run_coverage_start i c ts q o wl w a :
  exists w', DumpCoverageData tenv true (mkRT i c ts (mkTracer q o wl w) a) = Ok (tt, mkRT i c ts (mkTracer q o wl w') a).
Proof.
  unfold DumpCoverageData. rewrite (run_os _ _ _ _ _ _ _ _ _ _ _ w eq_refl).
  destruct (open_coverage (sys_is_regular (coverage_data_filename tenv) w) (coverage_data_filename tenv) w)
    as (file & w1 & HO). rewrite (run_os _ _ _ _ _ _ _ _ _ _ _ _ HO).
  destruct file as [file|]; [|by exists w1]. rewrite bind_ret. apply write_coverage.
Qed.

(** Switching tracing on when no class is marked installs no stub. *)
Lemma walk_untraced i h jit :
  class_table_wf h -> traced_methods h = [] ->
  VisitClasses (h_class_table h) (h_pre_zygote_class_table h) (InstallStubsClassVisitor env i) (mkCodeState h jit)
    = Ok (tt, mkCodeState h jit).
Proof.
  intros Hwf Hn.
  destruct (class_walk_keeps env i (fun s => s = mkCodeState h jit) (fun _ _ => True) h Hwf)
    with (s := mkCodeState h jit) as (s' & HV & -> & _); [by intros s ->| |done|exact HV].
  intros p s Hp. rewrite Hn in Hp. by apply elem_of_nil in Hp.
Qed.

(** The highest level that can be asked for is the interpreter. *)
Lemma interpreter_highest key levels :
  highest_level (<[key := kInstrumentWithInterpreter]> levels) = kInstrumentWithInterpreter.
Proof.
  destruct (highest_level_spec (<[key := kInstrumentWithInterpreter]> levels)) as [Hub _].
  specialize (Hub key kInstrumentWithInterpreter (lookup_insert_eq _ _ _)).
  by destruct (highest_level _).
Qed.

Lemma enable_untraced key i h jit ts (l0 : Tracer W) a :
  class_table_wf h -> traced_methods h = [] -> Forall (thread_traceable env h) ts -> tracer_ok l0 l0 ->
  exists i' ts' l',
    EnableMethodTracing env key true (mkRT i (mkCodeState h jit) ts l0 a) =
      Ok (tt, mkRT i' (mkCodeState h jit) ts' l' a) /\
    tracer_ok l0 l' /\ GetCurrentInstrumentationLevel i' = kInstrumentWithInterpreter /\
    (forall e, listeners_of i' e = listeners_of i e) /\ (listeners_wf i -> listeners_wf i').
Proof.
  intros Hwf Hn Hts Hl. unfold EnableMethodTracing.
  set (i1 := requested key kInstrumentWithInterpreter i).
  assert (highest_level (requested_instrumentation_levels_ i1) = kInstrumentWithInterpreter) as Htop
    by apply interpreter_highest.
  destruct (decide (GetCurrentInstrumentationLevel i = kInstrumentWithInterpreter)) as [E|E].
  - exists i1, ts, l0. split; [apply configure_same; by rewrite E|]. split_and!; try done.
    apply listeners_wf_requested.
  - destruct (configure_on (ListenerLaws0 := Tracer_laws l0) env key kInstrumentWithInterpreter i h jit ts l0 a h jit)
      as (ts' & l' & HC & _ & Hl'); fold i1.
    + rewrite Htop. congruence.
    + by rewrite Htop.
    + by apply walk_untraced.
    + reflexivity.
    + eapply Forall_impl; [exact Hts|]. intros t. apply traceable_ready.
    + exact Hl.
    + fold i1 in HC. rewrite Htop in HC. eexists _, ts', l'. split; [exact HC|]. split; [exact Hl'|].
      split; [done|]. split; [done|]. intros Hi. by apply listeners_wf_level, listeners_wf_requested.
Qed.

(** A new tracer is well-formed and empty. *)
Lemma new_trace_wf info data events size now t :
  14 <= size < 2 ^ 31 - 14 -> MiniTrace_new info data events size now = Ok t ->
  trace_wf t [] /\ trace_info_file_ t = info /\ trace_data_file_ t = data /\ events_ t = events.
Proof.
  intros Hs. unfold MiniTrace_new. rewrite (proj2 (Z.ltb_ge _ _)) by lia. intros [= <-].
  split; [|done]. split; cbn; try done; try lia. by rewrite length_replicate.
Qed.

(** The tracer is created and registered; what is left is to mark the classes. *)
Lemma start_create_run cfg info data i h jit ts o wl w a :
  14 <= cfg_buffer_size cfg < 2 ^ 31 - 14 -> class_table_wf h -> traced_methods h = [] ->
  listeners_wf i -> Forall (thread_traceable env h) ts ->
  exists i' ts' t pend w',
    start_create env tenv cfg info data (mkRT i (mkCodeState h jit) ts (mkTracer 0 o wl w) a) =
      (heap_op (VisitClasses (h_class_table h) (h_pre_zygote_class_table h)
                  (PostClassPrepareClassVisitor (Some (cfg_whitelist cfg)))) ;; mret true)
        (mkRT i' (mkCodeState h jit) ts' (mkTracer (te_new tenv) (Some (te_new tenv, t)) (Some (cfg_whitelist cfg)) w') a) /\
    trace_wf t pend /\ trace_info_file_ t = info /\ fd_ (trace_data_file_ t) = fd_ data /\ events_ t = cfg_events cfg /\
    (forall e, listeners_of i' e = listeners_of i e ++ if HasEvent e (cfg_events cfg) then [te_new tenv] else []) /\
    listeners_wf i' /\ GetCurrentInstrumentationLevel i' = kInstrumentWithInterpreter.
Proof.
  intros Hs Hwf Hn Hi Hts. unfold start_create. rewrite bind_gets.
  cbn [rt_listeners tr_the_trace Z.eqb negb]. rewrite bind_on_tracer, bind_lift.
  destruct (MiniTrace_new info data (cfg_events cfg) (cfg_buffer_size cfg) (te_micro_time tenv)) as [t0|] eqn:Hnew.
  2:{ unfold MiniTrace_new in Hnew. by rewrite (proj2 (Z.ltb_ge _ _)) in Hnew by lia. }
  destruct (new_trace_wf _ _ _ _ _ _ Hs Hnew) as (Hwf0 & Hinfo & Hdata & Hev).
  rewrite !bind_on_tracer, bind_gets, bind_lift. cbn [rt_instr]. rewrite AddListener_ok by done.
  rewrite (bind_on_instr _ _ _ _ _ _ _). set (l0 := set_the_trace _ _).
  assert (tracer_ok l0 l0) as Hl0 by (split; [done|]; split; [done|]; cbn; by exists t0, []).
  destruct (enable_untraced (kMiniTracerInstrumentationKey tenv) (pushed (te_new tenv) (cfg_events cfg) i)
              h jit ts l0 a Hwf Hn Hts Hl0) as (i' & ts' & [q' o' wl' w'] & HE & (E1 & E2 & t & pend & E3 & Hwf' & Hk & Hfd) & Hlev & Hls & Hwfi).
  cbn in E1, E2, E3. subst.
  rewrite (bind_ok _ _ _ _ _ HE). unfold the_heap. rewrite !bind_gets. cbn [rt_code cs_heap rt_listeners tr_whitelist].
  exists i', ts', t, pend, w'. destruct Hk as [K1 K2 K3 K4].
  split; [done|]. split_and!; try done; try congruence.
  - intros e. by rewrite Hls, listeners_of_pushed.
  - by apply Hwfi, pushed_wf.
Qed.

(** ** The lists of a trace *)

(** A method or a field that can be printed. *)
Definition method_listable (h : Heap) (p : Z) : Prop :=
  exists m cols, h_methods h !! p = Some m /\ method_columns h p m = Ok cols.

Definition field_listable (h : Heap) (p : Z) : Prop :=
  exists f k name, h_fields h !! p = Some f /\ h_classes h !! af_declaring_class f = Some k /\
    is_Some (h_dex_files h !! mc_dex_file k) /\ PrettyDescriptor (mc_descriptor k) = Ok name.

Lemma concat_lines_total {A} (f : A -> outcome string) l :
  (forall x, x ∈ l -> exists s, f x = Ok s) -> exists s, concat_lines f l = Ok s.
Proof.
  induction l as [|x l IH]; intros H; cbn [concat_lines]; [by eexists|].
  destruct (H x) as [s ->]; [by left|]. destruct IH as [rest ->]; [|by eexists]. intros y Hy. apply H. by right.
Qed.

Lemma concat_lines_fault {A} (f : A -> outcome string) l x e :
  x ∈ l -> f x = Fault e -> exists e', concat_lines f l = Fault e'.
Proof.
  intros Hx Hf. induction Hx as [x l|x y l Hx IH]; cbn [concat_lines]; [rewrite Hf; by eexists|].
  destruct (f y); [|by eexists]. destruct (IH Hf) as [e' ->]. by eexists.
Qed.

Lemma elem_of_ascending (s : gset Z) p : p ∈ ascending s <-> p ∈ s.
Proof. unfold ascending. by rewrite merge_sort_Permutation, elem_of_elements. Qed.

Lemma DumpList_total h threads t :
  (forall p, p ∈ visited_methods_ t -> method_listable h p) ->
  (forall p, p ∈ visited_fields_ t -> field_listable h p) -> exists text, DumpList h threads t = Ok text.
Proof.
  intros Hm Hf. unfold DumpList, DumpMethodList, DumpFieldList.
  edestruct (concat_lines_total (fun p => m ← deref (h_methods h) p; cols ← method_columns h p m; mret (line cols))
               (ascending (visited_methods_ t))) as [s1 ->].
  { intros p Hp. apply elem_of_ascending, Hm in Hp as (m & cols & H1 & H2). unfold deref. rewrite H1.
    cbn [mbind outcome_bind]. rewrite H2. by eexists. }
  cbn [mbind outcome_bind].
  edestruct (concat_lines_total (fun p =>
      f ← deref (h_fields h) p;
      c ← deref (h_classes h) (af_declaring_class f);
      _ ← deref (h_dex_files h) (mc_dex_file c);
      name ← PrettyDescriptor (mc_descriptor c);
      mret (line [format_pointer p; name; af_name f; af_type_descriptor f]))
               (ascending (visited_fields_ t))) as [s2 ->]; [|by eexists].
  intros p Hp. apply elem_of_ascending, Hf in Hp as (f & c & name & H1 & H2 & [d H3] & H4). unfold deref. rewrite H1.
  cbn [mbind outcome_bind]. rewrite H2. cbn [mbind outcome_bind]. rewrite H3. cbn [mbind outcome_bind].
  rewrite H4. by eexists.
Qed.

(** ** Finishing *)

(** The tracer after a flush that wrote everything. *)
Definition flushed (t : MiniTrace) (pend : list Event) : MiniTrace :=
  set_cur_offset 0 (set_visited (named_methods pend ∪ visited_methods_ t) (named_fields pend ∪ visited_fields_ t)
    (set_data_file (match pend with [] => trace_data_file_ t | _ => moveTo kBase (trace_data_file_ t) end) t)).

Lemma flush_any t w pend :
  trace_wf t pend ->
  exists (ok : bool) t' w' pend', FlushBuffer (mkTS t w) = Ok (ok, mkTS t' w') /\ trace_wf t' pend' /\
    (ok = true -> t' = flushed t pend /\ written w' (fd_ (trace_data_file_ t)) =
       written w (fd_ (trace_data_file_ t)) ++ take (14 * length pend) (buf_ t)) /\
    (forall fd, fd <> fd_ (trace_data_file_ t) -> written w' fd = written w fd) /\
    (reliable_writes (W := W) -> ok = true) /\
    visited_methods_ t' ⊆ named_methods pend ∪ visited_methods_ t /\
    visited_fields_ t' ⊆ named_fields pend ∪ visited_fields_ t.
Proof.
  intros Hwf. destruct pend as [|ev pend].
  { exists true, t, w, []. pose proof (wf_cur _ _ Hwf) as Hc. cbn in Hc. split.
    - unfold FlushBuffer. rewrite bind_gets. cbn [ts_trace]. by rewrite Hc.
    - split; [done|]. split_and!; try done; [|set_solver..]. intros _. split; [|by rewrite app_nil_r].
      unfold flushed. cbn [named_methods named_fields]. rewrite !union_empty_l_L. destruct t; cbn in *. by subst. }
  destruct (FlushBuffer_spec t w (ev :: pend) Hwf ltac:(done)) as (ok & w' & HF & Ho & HW). cbn zeta in HF, HW.
  exists ok. eexists _, w', (if ok then [] else ev :: pend). split; [exact HF|].
  destruct ok.
  - split; [split; cbn; try done; try apply Hwf; lia|]. split_and!; try done.
  - destruct HW as [HWF _]. split; [split; cbn; try apply Hwf|]. split_and!; try done; [|set_solver..].
    intros Hrel. exfalso. by eapply WriteFully_reliable.
Qed.

Lemma thread_traceable_exception h f ts :
  (forall t, th_frames (f t) = th_frames t /\ th_istack (f t) = th_istack t) ->
  Forall (thread_traceable env h) ts -> Forall (thread_traceable env h) (f <$> ts).
Proof.
  intros Hf H. rewrite Forall_fmap. eapply Forall_impl; [exact H|]. intros t [[A1 A2 A3] B].
  destruct (Hf t) as [E1 E2]. split; [split|]; by rewrite ?E1, ?E2.
Qed.

(** What [FinishTracing] does after the flush, whatever the kernel answers: it
    returns exactly if the lists can be printed, and keeps the tracer in order;
    against a reliable kernel both files have what they should. *)
Lemma finish_run i h jit ts q p t wl w a pend :
  trace_wf t pend ->
  let finish := FinishTracing tenv (mkRT i (mkCodeState h jit) ts (mkTracer q (Some (p, t)) wl w) a) in
  exists ok t1 w1, FlushBuffer (mkTS t w) = Ok (ok, mkTS t1 w1) /\
    (reliable_writes (W := W) -> t1 = flushed t pend) /\
    (forall e, DumpList h (te_threads tenv) t1 = Fault e -> finish = Fault e) /\
    (forall text, DumpList h (te_threads tenv) t1 = Ok text ->
     exists ts' t' w' pend',
       finish = Ok (tt, mkRT i (mkCodeState h jit) ts' (mkTracer q (Some (p, t')) wl w') a) /\
       trace_wf t' pend' /\ events_ t' = events_ t /\
       (Forall (thread_traceable env h) ts -> Forall (thread_traceable env h) ts') /\
       (reliable_writes (W := W) -> fd_ (trace_info_file_ t) <> fd_ (trace_data_file_ t) ->
        ts' = ts /\ pend' = [] /\
          written w' (fd_ (trace_data_file_ t)) =
            written w (fd_ (trace_data_file_ t)) ++ take (14 * length pend) (buf_ t) /\
          written w' (fd_ (trace_info_file_ t)) = written w (fd_ (trace_info_file_ t)) ++ string_bytes text)).
Proof.
  intros Hwf. destruct (flush_any t w pend Hwf) as (ok & t1 & w1 & pend1 & HF & Hwf1 & Hok & Ho & Hrel & Hvm & Hvf).
  pose proof (keeps_flush _ _ _ HF) as Hk. cbn [ts_trace] in Hk. cbv zeta. exists ok, t1, w1. split; [exact HF|].
  split; [intros Hr; by apply Hok, Hrel|].
  unfold FinishTracing. rewrite (run_trace _ _ _ _ _ _ _ _ _ _ _ _ _ _ HF). unfold the_heap. rewrite bind_gets.
  cbn [rt_code cs_heap]. split.
  { intros e He. apply bind_fault. unfold trace_op. cbn [rt_listeners tr_object]. rewrite bind_gets. unfold lift.
    cbn [ts_trace tr_os]. by rewrite He. }
  intros text Htext.
  rewrite (run_trace _ _ _ _ _ _ _ _ _ _ _ text t1 w1) by (by rewrite bind_gets; unfold lift; cbn [ts_trace]; rewrite Htext).
  destruct (WriteFully_spec (string_bytes text) (trace_info_file_ t1) w1) as (ok2 & w2 & n & HW & HW1 & HW2 & HW3 & HW4).
  rewrite (run_trace _ _ _ _ _ _ _ _ _ _ _ ok2 (set_info_file (moveTo kBase (trace_info_file_ t1)) t1) w2).
  2:{ rewrite bind_gets. cbn [ts_trace]. rewrite bind_on_os, HW. by rewrite bind_upd. }
  exists (if ok2 then ts else (fun t => if th_tid t =? te_self tenv then set_exception (te_exception tenv) t else t) <$> ts).
  exists (set_info_file (moveTo kBase (trace_info_file_ t1)) t1), w2, pend1.
  split; [by destruct ok2|]. split; [split; apply Hwf1|]. split; [by apply Hk|]. split.
  - destruct ok2; [done|]. apply thread_traceable_exception. intros th. by destruct (_ =? _).
  - intros Hr Hne. specialize (Hrel Hr). subst ok. destruct (Hok eq_refl) as [-> Hd].
    assert (trace_info_file_ (flushed t pend) = trace_info_file_ t) as E by done.
    destruct ok2; [|exfalso; by eapply WriteFully_reliable]. split; [done|].
    assert (pend1 = []) as -> by (pose proof (wf_cur _ _ Hwf1) as Hc; cbn in Hc; destruct pend1; [done|cbn in Hc; lia]).
    split; [done|]. rewrite E in *. split.
    + rewrite HW4 by done. exact Hd.
    + rewrite HW1, take_ge by (by apply HW2). by rewrite Ho.
Qed.

(** ** Stopping *)

Lemma flush_and_close_ok f w :
  exists f' w', flush_and_close f w = Ok (f', w') /\ destroyable f' = true.
Proof.
  destruct (Flush_spec f w) as (rc & w1 & HF).
  destruct (Close_spec (moveUp kFlushed f) w1) as (rc2 & f2 & w2 & HC & Hd & _); [apply moveUp_flushed|].
  exists f2, w2. split; [|done]. unfold flush_and_close. by rewrite (bind_ok _ _ _ _ _ HF), (bind_ok _ _ _ _ _ HC).
Qed.

(** Closing both files and deleting the tracer. *)
Lemma close_and_delete i c ts q p t wl w a :
  exists w',
    (trace_op (t ← gets ts_trace;
               file ← on_os (flush_and_close (trace_info_file_ t));
               upd (set_info_file file) ;;
               file ← on_os (flush_and_close (trace_data_file_ t));
               upd (set_data_file file)) ;;
     delete_trace) (mkRT i c ts (mkTracer q (Some (p, t)) wl w) a) = Ok (tt, mkRT i c ts (mkTracer q None wl w') a).
Proof.
  destruct (flush_and_close_ok (trace_info_file_ t) w) as (f1 & w1 & H1 & D1).
  destruct (flush_and_close_ok (trace_data_file_ t) w1) as (f2 & w2 & H2 & D2).
  pose proof (destroy_spec f2 w2) as HD2. rewrite D2 in HD2. destruct HD2 as [w3 HD2].
  pose proof (destroy_spec f1 w3) as HD1. rewrite D1 in HD1. destruct HD1 as [w4 HD1].
  exists w4. rewrite (run_trace _ _ _ _ _ _ _ _ _ _ _ tt (set_data_file f2 (set_info_file f1 t)) w2).
  2:{ rewrite bind_gets. cbn [ts_trace]. rewrite bind_on_os, H1, bind_upd, bind_on_os, H2. done. }
  unfold delete_trace. rewrite (run_trace _ _ _ _ _ _ _ _ _ _ _ tt (set_data_file f2 (set_info_file f1 t)) w4); [done|].
  rewrite bind_gets. cbn [ts_trace set_data_file set_info_file trace_data_file_ trace_info_file_].
  rewrite bind_on_os, HD2. unfold on_os. cbn. by rewrite HD1.
Qed.

(** The runtime after the tracer has been taken out. *)
Record stopped (i : Instrumentation) (p : Z) (t : MiniTrace) (h : Heap) (jit : option JitCodeCache) (i' : Instrumentation) (h' : Heap) (ts' : list Thread_) : Prop := {
  sp_wf : listeners_wf i';
  sp_listeners : forall e, listeners_of i' e = if HasEvent e (events_ t) then list_remove p (listeners_of i e) else listeners_of i e;
  sp_levels : requested_instrumentation_levels_ i' = delete (kMiniTracerInstrumentationKey tenv) (requested_instrumentation_levels_ i);
  sp_level : GetCurrentInstrumentationLevel i' = highest_level (requested_instrumentation_levels_ i');
  sp_code : code_change h h';
  sp_walked : if decide (GetCurrentInstrumentationLevel i' = GetCurrentInstrumentationLevel i) then h' = h else walked env i' h jit h';
  sp_stacks : highest_level (requested_instrumentation_levels_ i') = kInstrumentNothing -> GetCurrentInstrumentationLevel i <> kInstrumentNothing ->
    deoptimized_methods_ i = ∅ -> AreExitStubsInstalled i' = false /\ Forall (fun t => th_istack t = []) ts';
}.

(** [Stop] fails as [FinishTracing] does. *)
Lemma stop_fault i c ts p t wl w a e :
  p <> 0 -> FinishTracing tenv (mkRT i c ts (mkTracer 0 (Some (p, t)) None w) a) = Fault e ->
  Stop env tenv (mkRT i c ts (mkTracer p (Some (p, t)) wl w) a) = Fault e.
Proof.
  intros Hp He. unfold Stop. rewrite bind_gets. cbn [rt_listeners tr_the_trace]. rewrite (proj2 (Z.eqb_neq _ _) Hp), !bind_on_tracer.
  by apply bind_fault.
Qed.

Lemma stop_run i h jit ts p t wl w a pend :
  p <> 0 -> trace_wf t pend -> class_table_wf h -> listeners_wf i -> Forall (thread_traceable env h) ts ->
  let stop := Stop env tenv (mkRT i (mkCodeState h jit) ts (mkTracer p (Some (p, t)) wl w) a) in
  exists ok t1 w1, FlushBuffer (mkTS t w) = Ok (ok, mkTS t1 w1) /\
    (forall e, DumpList h (te_threads tenv) t1 = Fault e -> stop = Fault e) /\
    (forall text, DumpList h (te_threads tenv) t1 = Ok text ->
     exists i' h' jit' ts' w',
       stop = Ok (tt, mkRT i' (mkCodeState h' jit') ts' (mkTracer 0 None None w') a) /\ stopped i p t h jit i' h' ts').
Proof.
  intros Hp Hwf Hcw Hi Hts. cbn zeta.
  destruct (finish_run i h jit ts 0 p t None w a pend Hwf) as (ok & t0 & w0 & HFl & _ & Hbad & Hgood). cbv zeta in Hbad, Hgood.
  exists ok, t0, w0. split; [exact HFl|]. split; [intros e He; by apply stop_fault, Hbad|]. intros text Htext.
  unfold Stop. rewrite bind_gets. cbn [rt_listeners tr_the_trace]. rewrite (proj2 (Z.eqb_neq _ _) Hp), !bind_on_tracer.
  unfold set_whitelist, set_the_trace. cbn [tr_the_trace tr_object tr_os tr_whitelist].
  destruct (Hgood text Htext) as (ts1 & t1 & w1 & pend1 & HF & Hwf1 & Hev & Hts1 & _).
  rewrite (bind_ok _ _ _ _ _ HF). set (l1 := mkTracer 0 (Some (p, t1)) None w1).
  destruct (configure_ok (ListenerLaws0 := Tracer_laws l1) env (kMiniTracerInstrumentationKey tenv) kInstrumentNothing
              i h jit ts1 l1 a) as (i2 & h2 & jit2 & ts2 & [q2 o2 wl2 w2] & HC & Hcfg & (E1 & E2 & t2 & pend2 & E3 & Hwf2 & Hk & _));
    [done|done| |by split; [|split; [|exists t1, pend1]]|].
  { eapply Forall_impl; [by apply Hts1|]. intros th. apply traceable_ready. }
  cbn in E1, E2, E3. subst. unfold DisableMethodTracing. rewrite (bind_ok _ _ _ _ _ HC), bind_gets. cbn [rt_instr].
  rewrite (run_trace _ _ _ _ _ _ _ _ _ _ _ (events_ t2) t2 w2) by done.
  destruct Hcfg as (C1 & C2 & _ & _ & _ & C6 & C7 & C8 & _ & _ & _ & C12 & C13).
  rewrite bind_lift, RemoveListener_ok by done. rewrite bind_on_instr.
  destruct (close_and_delete (removed p (events_ t2) i2) (mkCodeState h2 jit2) ts2 0 p t2 None w2 a) as [w3 HD].
  exists (removed p (events_ t2) i2), h2, jit2, ts2, w3. split; [exact HD|].
  assert (events_ t2 = events_ t) as -> by (rewrite <- Hev; apply Hk).
  cbn in C1. assert (requested_instrumentation_levels_ (removed p (events_ t) i2) = delete (kMiniTracerInstrumentationKey tenv) (requested_instrumentation_levels_ i)) as Hl by exact C1.
  constructor; [by apply removed_wf|intros e; by rewrite listeners_of_removed, C7|exact Hl|rewrite Hl; exact C2|done| |rewrite Hl; exact C12].
  change (GetCurrentInstrumentationLevel (removed _ _ _)) with (GetCurrentInstrumentationLevel i2). rewrite C2. exact C13.
Qed.

Lemma named_methods_entry ev evs :
  ev ∈ evs -> event_action ev = kMiniTraceMethodEnter -> DecodeMiniTraceMethodId (event_word ev) ∈ named_methods evs.
Proof.
  intros Hin Ha. induction evs as [|y evs IH]; [by apply elem_of_nil in Hin|]. cbn [named_methods].
  apply elem_of_cons in Hin as [<-|Hin]; [rewrite Ha; apply elem_of_union_l, elem_of_singleton; done|].
  specialize (IH Hin). destruct (event_action y); try apply elem_of_union_r; exact IH.
Qed.

(** A record that names something that is not a method ends the runtime when
    the trace is stopped. *)
Lemma list_fault h threads t m : m ∈ visited_methods_ t -> h_methods h !! m = None -> exists e, DumpList h threads t = Fault e.
Proof.
  intros Hm Hn. destruct (concat_lines_fault (fun p => m ← deref (h_methods h) p; cols ← method_columns h p m; mret (line cols))
              (ascending (visited_methods_ t)) m NullDereference) as [e He].
  { by apply elem_of_ascending. }
  { unfold deref. by rewrite Hn. }
  exists e. unfold DumpList, DumpMethodList. by rewrite He.
Qed.

(** A start that cannot take its files destroys them, which aborts. *)
Lemma CreateEmptyFile_base name w f w' :
  CreateEmptyFile name w = Ok (Some f, w') -> guard_state_ f = kBase.
Proof.
  intros H. destruct (OpenFileWithFlags_spec name (Z.lor (Z.lor O_RDWR O_CREAT) O_TRUNC) w) as (o & w1 & HO & Ho);
    [done|]. unfold CreateEmptyFile in H. rewrite HO in H. injection H as -> ->. apply Ho.
Qed.

Lemma destroy_base f w : guard_state_ f = kBase -> destroy f w = Fault CheckFailed.
Proof. intros H. pose proof (destroy_spec f w) as HD. unfold destroyable in HD. by rewrite H in HD. Qed.

End Lawful.

(** ** Results *)

Section Results.
Context {W : Type} `{!PosixOps W, !PosixLaws W} (env : RuntimeEnv) (tenv : TraceEnv).

(** C29. Starting a trace in a process in which nothing is marked yet, with a
    configuration that can be read, a buffer of at least one record, and files
    that can be created.  If every method of the classes to be traced has code,
    the tracer exists and is well-formed, it listens to exactly the configured
    events, the interpreter is required, and the classes of the white list are
    marked.  No method's entry point is changed: the stubs are installed before
    the classes are marked, so the loaded classes that are to be traced get none.
    If a class to be traced has a native or abstract method, starting reads
    through a null pointer. *)
Theorem start_traces text cfg info data i h jit ts o wl (w w1 w2 : W) a :
  sys_is_regular (trace_filename tenv "_config.in") w = true ->
  sys_file_text (trace_filename tenv "_config.in") w = Some text -> read_config text = Ok (Some cfg) ->
  CreateEmptyFile (trace_filename tenv "_info.log") w = Ok (Some info, w1) ->
  CreateEmptyFile (trace_filename tenv "_data.bin") w1 = Ok (Some data, w2) ->
  14 <= cfg_buffer_size cfg < 2 ^ 31 - 14 -> te_new tenv <> 0 ->
  class_table_wf h -> traced_methods h = [] -> listeners_wf i -> Forall (thread_traceable env h) ts ->
  let table := h_class_table h ++ h_pre_zygote_class_table h in
  Forall (described (Some (cfg_whitelist cfg)) h) table ->
  let start := Start env tenv (mret tt) (mkRT i (mkCodeState h jit) ts (mkTracer 0 o wl w) a) in
  (chosen_have_code (Some (cfg_whitelist cfg)) h table ->
   exists i' h' ts' t pend w',
     let s' := mkRT i' (mkCodeState h' jit) ts'
                 (mkTracer (te_new tenv) (Some (te_new tenv, t)) (Some (cfg_whitelist cfg)) w') a in
     start = Ok (tt, s') /\
     GetMethodTracingMode s' = Ok (kMethodTracingActive, s') /\
     trace_wf t pend /\ trace_info_file_ t = info /\ fd_ (trace_data_file_ t) = fd_ data /\
     (forall e, listeners_of i' e = listeners_of i e ++ if HasEvent e (cfg_events cfg) then [te_new tenv] else []) /\
     listeners_wf i' /\ GetCurrentInstrumentationLevel i' = kInstrumentWithInterpreter /\
     prepared (Some (cfg_whitelist cfg)) h table h' /\
     forall p m, h_methods h !! p = Some m ->
       exists m', h_methods h' !! p = Some m' /\ am_entry_quick m' = am_entry_quick m) /\
  (~ chosen_have_code (Some (cfg_whitelist cfg)) h table -> start = Fault NullDereference).
Proof.
  intros Hreg Htext Hcfg Hinfo Hdata Hsize Hnew Hwf Hn Hi Hts. cbn zeta. intros Hdes.
  rewrite <- (chosen_preparable _ _ _ Hdes).
  unfold Start, start_config, start_files. rewrite bind_gets. cbn [rt_listeners tr_the_trace Z.eqb negb].
  rewrite bind_assoc, (run_os _ _ _ _ _ _ _ _ _ _ true w) by (unfold FileExists, gets; by rewrite Hreg).
  rewrite bind_assoc, (run_os _ _ _ _ _ _ _ _ _ _ (Some text) w) by (unfold gets; by rewrite Htext).
  rewrite bind_lift, Hcfg, bind_assoc, (run_os _ _ _ _ _ _ _ _ _ _ _ _ Hinfo).
  rewrite bind_assoc, (run_os _ _ _ _ _ _ _ _ _ _ _ _ Hdata), !bind_ret.
  destruct (start_create_run env tenv cfg info data i h jit ts o wl w2 a Hsize Hwf Hn Hi Hts)
    as (i' & ts' & t & pend & w3 & HC & Hwf' & Hin & Hfd & _ & Hls & Hwfi & Hlev).
  split.
  - intros Hp. destruct (prepare_classes_ok _ h Hp) as (h' & HV & HP). rewrite (run_heap _ _ _ _ _ _ _ _ _ _ HV) in HC.
    rewrite (bind_ok _ _ _ _ _ HC).
    destruct (run_coverage_start tenv i' (mkCodeState h' jit) ts' (te_new tenv) (Some (te_new tenv, t))
                (Some (cfg_whitelist cfg)) w3 a) as [w4 HD]. rewrite (bind_ok _ _ _ _ _ HD).
    exists i', h', ts', t, pend, w4. split; [done|]. split.
    { unfold GetMethodTracingMode. rewrite bind_gets. cbn [rt_listeners tr_the_trace].
      by rewrite (proj2 (Z.eqb_neq _ _) Hnew). }
    split_and!; try done. intros p m Hm. rewrite (mk_methods _ _ _ _ _ HP), Hm. eexists. split; [done|].
    by destruct (decide _).
  - intros Hp. apply bind_fault. rewrite HC. apply bind_fault. unfold heap_op. cbn [rt_code cs_heap].
    by rewrite (prepare_classes_fault _ h Hdes Hp).
Qed.

(** C30. Finishing a trace against a kernel that at most interrupts or
    shortens writes.  If the lists of threads, methods and fields, those named by
    the last records included, can be printed, the data file gets exactly the
    records that were pending, the info file exactly these lists, and the buffer
    is empty.  If not, because the address in a record is not that of a method,
    finishing fails as printing does. *)
Theorem finish_writes i h jit ts q p t wl (w : W) a pend :
  reliable_writes (W := W) -> trace_wf t pend -> fd_ (trace_info_file_ t) <> fd_ (trace_data_file_ t) ->
  let finish := FinishTracing tenv (mkRT i (mkCodeState h jit) ts (mkTracer q (Some (p, t)) wl w) a) in
  match DumpList h (te_threads tenv) (flushed t pend) with
  | Ok text =>
      exists t' w',
        finish = Ok (tt, mkRT i (mkCodeState h jit) ts (mkTracer q (Some (p, t')) wl w') a) /\ trace_wf t' [] /\
        written w' (fd_ (trace_data_file_ t)) =
          written w (fd_ (trace_data_file_ t)) ++ take (14 * length pend) (buf_ t) /\
        written w' (fd_ (trace_info_file_ t)) = written w (fd_ (trace_info_file_ t)) ++ string_bytes text
  | Fault e => finish = Fault e
  end.
Proof.
  intros Hr Hwf Hne. cbv zeta.
  destruct (finish_run env tenv i h jit ts q p t wl w a pend Hwf) as (ok & t1 & w1 & _ & Hrel & Hbad & Hgood).
  rewrite (Hrel Hr) in Hbad, Hgood. destruct (DumpList h (te_threads tenv) (flushed t pend)) as [text|e]; [|by apply Hbad].
  destruct (Hgood text eq_refl) as (ts' & t' & w' & pend' & HF & Hwf' & _ & _ & Hw).
  destruct (Hw Hr Hne) as (-> & -> & H1 & H2). by exists t', w'.
Qed.


(** A trace with a method entry among its last records cannot be stopped:
    the address a flush decodes has lost its upper half, so it names nothing
    that is a method, and listing the visited methods reads through it. *)
Theorem stop_after_method_entry_faults i h jit ts p t wl (w : W) a pend tid m :
  p <> 0 -> trace_wf t pend -> reliable_writes (W := W) -> MethodEvent tid m kMiniTraceMethodEnter 0 ∈ pend ->
  (forall q, is_Some (h_methods h !! q) -> 2 ^ 16 <= q) ->
  exists e, Stop env tenv (mkRT i (mkCodeState h jit) ts (mkTracer p (Some (p, t)) wl w) a) = Fault e.
Proof.
  intros Hp Hwf Hr Hin Hlow. set (ev := MethodEvent tid m kMiniTraceMethodEnter 0) in *.
  assert (event_aligned ev) as Hal.
  { pose proof (wf_events _ _ Hwf) as He. rewrite Forall_forall in He. apply (He _ Hin). }
  pose proof (event_word_address ev Hal) as Hw. cbn [ev] in Hw.
  destruct (finish_run env tenv i h jit ts 0 p t None w a pend Hwf) as (ok & t1 & w1 & _ & Hrel & Hbad & _).
  rewrite (Hrel Hr) in Hbad.
  destruct (list_fault h (te_threads tenv) (flushed t pend) (DecodeMiniTraceMethodId (event_word ev))) as [e He].
  - apply (elem_of_union_l (DecodeMiniTraceMethodId (event_word ev)) (named_methods pend)). by apply named_methods_entry.
  - rewrite Hw. apply eq_None_not_Some. intros Hs%Hlow. mlia.
  - exists e. by apply stop_fault, Hbad.
Qed.

(** A start that has opened a file and then gives up aborts the runtime:
    when the data file cannot be created, or another thread has started a trace
    in between, the files are destroyed without having been closed, and their
    destructor's check fails. *)
Theorem failed_start_aborts text cfg info i c ts o wl (w w1 w2 : W) a :
  sys_is_regular (trace_filename tenv "_config.in") w = true ->
  sys_file_text (trace_filename tenv "_config.in") w = Some text -> read_config text = Ok (Some cfg) ->
  CreateEmptyFile (trace_filename tenv "_info.log") w = Ok (Some info, w1) ->
  (CreateEmptyFile (trace_filename tenv "_data.bin") w1 = Ok (None, w2) -> forall others,
   Start env tenv others (mkRT i c ts (mkTracer 0 o wl w) a) = Fault CheckFailed) /\
  (forall data q (others : M (RT (Tracer W)) unit), q <> 0 ->
   CreateEmptyFile (trace_filename tenv "_data.bin") w1 = Ok (Some data, w2) ->
   others (mkRT i c ts (mkTracer 0 o wl w2) a) = Ok (tt, mkRT i c ts (mkTracer q o wl w2) a) ->
   Start env tenv others (mkRT i c ts (mkTracer 0 o wl w) a) = Fault CheckFailed).
Proof.
  intros Hreg Htext Hcfg Hinfo. pose proof (CreateEmptyFile_base _ _ _ _ Hinfo) as Hg.
  assert (forall others, Start env tenv others (mkRT i c ts (mkTracer 0 o wl w) a) =
    match CreateEmptyFile (trace_filename tenv "_data.bin") w1 with
    | Ok (Some data, w2) => (others ;; released ← start_create env tenv cfg info data; DumpCoverageData tenv true ;;
                             if (released : bool) then mret tt else os_op (destroy data) ;; os_op (destroy info))
                            (mkRT i c ts (mkTracer 0 o wl w2) a)
    | Ok (None, w2) => Fault CheckFailed
    | Fault f => Fault f
    end) as HS.
  { intros others. unfold Start, start_config, start_files. rewrite bind_gets. cbn [rt_listeners tr_the_trace Z.eqb negb].
    rewrite bind_assoc, (run_os _ _ _ _ _ _ _ _ _ _ true w) by (unfold FileExists, gets; by rewrite Hreg).
    rewrite bind_assoc, (run_os _ _ _ _ _ _ _ _ _ _ (Some text) w) by (unfold gets; by rewrite Htext).
    rewrite bind_lift, Hcfg, bind_assoc, (run_os _ _ _ _ _ _ _ _ _ _ _ _ Hinfo).
    destruct (CreateEmptyFile (trace_filename tenv "_data.bin") w1) as [[[data|] w3]|f] eqn:E; rewrite bind_assoc.
    - by rewrite (run_os _ _ _ _ _ _ _ _ _ _ _ _ E), !bind_ret.
    - rewrite (run_os _ _ _ _ _ _ _ _ _ _ _ _ E), bind_assoc. apply bind_fault. unfold os_op. cbn.
      by rewrite destroy_base.
    - apply bind_fault. unfold os_op. cbn. by rewrite E. }
  split.
  - intros Hn others. by rewrite HS, Hn.
  - intros data q others Hq Hd Ho. rewrite HS, Hd, (bind_ok _ _ _ _ _ Ho).
    unfold start_create. rewrite bind_assoc, bind_gets. cbn [rt_listeners tr_the_trace].
    rewrite (proj2 (Z.eqb_neq _ _) Hq). cbn [negb]. rewrite bind_ret.
    destruct (run_coverage_start tenv i c ts q o wl w2 a) as [w4 HD]. rewrite (bind_ok _ _ _ _ _ HD).
    apply bind_fault. unfold os_op. cbn. by rewrite (destroy_base data w4 (CreateEmptyFile_base _ _ _ _ Hd)).
Qed.

(** Dumping coverage never aborts, whatever the kernel answers to the
    file operations.  The methods' coverage bytes are cleared as soon as the
    file could be opened, whether or not what they said reaches it. *)
Theorem coverage_dump_total i h jit ts q o wl (w : W) a text h' :
  (exists b, VisitClasses (h_class_table h) (h_pre_zygote_class_table h) DumpCoverageDataClassVisitor
               (mkCov h (coverage_header tenv false)) = Ok (b, mkCov h' text)) ->
  exists (opened : bool) w',
    HandleSigUsr2 tenv (mkRT i (mkCodeState h jit) ts (mkTracer q o wl w) a) =
      Ok (tt, mkRT i (mkCodeState (if opened then h' else h) jit) ts (mkTracer q o wl w') a) /\
    exists file w1, (if sys_is_regular (coverage_data_filename tenv) w
                     then OpenFileWithFlags (coverage_data_filename tenv) (Z.lor O_RDWR O_APPEND)
                     else CreateEmptyFile (coverage_data_filename tenv)) w = Ok (file, w1) /\
      opened = bool_decide (is_Some file).
Proof.
  intros [b HV]. unfold HandleSigUsr2, DumpCoverageData. rewrite (run_os _ _ _ _ _ _ _ _ _ _ _ w eq_refl).
  destruct (open_coverage (sys_is_regular (coverage_data_filename tenv) w) (coverage_data_filename tenv) w)
    as (file & w1 & HO). rewrite (run_os _ _ _ _ _ _ _ _ _ _ _ _ HO).
  destruct file as [file|].
  - unfold dump_coverage_classes. rewrite (run_heap _ _ _ _ _ _ _ _ text h') by (by rewrite HV).
    destruct (write_coverage text file i (mkCodeState h' jit) ts q o wl w1 a) as [w2 HW].
    exists true, w2. split; [exact HW|]. exists (Some file), w1. done.
  - exists false, w1. split; [done|]. exists None, w1. done.
Qed.

End Results.

(** *** A process with one traced class *)

Definition demo_tenv : TraceEnv := mkTraceEnv 10057 1234 1000 2000 65536 [(7, "main"%string)] 7 900 1000.

Definition demo_config : string :=
  String.append "MethodEvent" (String.append NL (String.append "Include LMain" NL)).

Definition demo_os : ScriptOS :=
  mkScriptOS [] {[ trace_filename demo_tenv "_config.in" := demo_config ]} ∅ 6.

Definition demo_thread : Thread_ := mkThread 7 [QuickFrame 40 5000 4096] [] 0 false None.

Definition demo_state {W} (the_trace : Z) (o : option (Z * MiniTrace)) (h : Heap) (w : W) : RT (Tracer W) :=
  mkRT Instrumentation_new (mkCodeState h None) [demo_thread] (mkTracer the_trace o None w) false.

Lemma demo_thread_traceable h :
  h_methods h !! 40 = Some (demo_method 16) -> thread_traceable sample_env h demo_thread.
Proof.
  intros Hm. split; [split|].
  - constructor; [|constructor]. cbn. by rewrite Hm.
  - done.
  - cbn. unfold is_runtime. rewrite Hm. cbn. done.
  - constructor; [|constructor]. split; cbn; [lia|done].
Qed.

Lemma demo_table_wf : class_table_wf (demo_heap 16).
Proof.
  intros k Hk. cbn in Hk.
  apply elem_of_cons in Hk as [->|[->|[]%elem_of_nil]%elem_of_cons]; (split; [by eexists|]);
    intros p Hp; cbn in Hp; by apply elem_of_nil in Hp.
Qed.

Definition demo_cfg : TraceConfig := mkTraceConfig 7 1024 ["LMain"%string].

Lemma start_traces_witness :
  exists i' h' ts' t w',
    let s' := mkRT i' (mkCodeState h' None) ts' (mkTracer 65536 (Some (65536, t)) (Some ["LMain"%string]) w') false in
    Start sample_env demo_tenv (mret tt) (demo_state 0 None (demo_heap 16) demo_os) = Ok (tt, s') /\
    GetMethodTracingMode s' = Ok (kMethodTracingActive, s') /\
    listeners_of i' kMethodEntered = [65536] /\ listeners_of i' kFieldRead = [] /\
    (am_entry_quick <$> h_methods h' !! 40) = Some (CompiledCode 4096).
Proof.
  destruct (CreateEmptyFile (trace_filename demo_tenv "_info.log") demo_os) as [[[info|] w1]|] eqn:E1;
    [|vm_compute in E1; discriminate..].
  destruct (CreateEmptyFile (trace_filename demo_tenv "_data.bin") w1) as [[[data|] w2]|] eqn:E2;
    [|vm_compute in E1; injection E1 as <- <-; vm_compute in E2; discriminate..].
  destruct (start_traces sample_env demo_tenv demo_config demo_cfg info data Instrumentation_new (demo_heap 16) None
              [demo_thread] None None demo_os w1 w2 false) as [H _].
  - vm_compute. reflexivity.
  - vm_compute. reflexivity.
  - vm_compute. reflexivity.
  - exact E1.
  - exact E2.
  - cbn. lia.
  - discriminate.
  - apply demo_table_wf.
  - reflexivity.
  - apply Instrumentation_new_wf.
  - constructor; [by apply demo_thread_traceable|constructor].
  - repeat constructor.
    + exists (demo_class "LMain;" 7 [40]). split; [reflexivity|]. split; [done|]. intros _. split; repeat constructor.
      * by exists (demo_method 16), (Some demo_item).
      * by eexists.
    + exists (demo_class "Ljava/lang/Object;" 8 []). split; [reflexivity|]. split; [done|]. intros _. split; repeat constructor.
      by eexists.
  - destruct H as (i' & h' & ts' & t & pend & w' & H1 & H2 & _ & _ & _ & H3 & _ & _ & _ & H4).
    { intros k p [->|[->|?%not_elem_of_nil]%elem_of_cons]%elem_of_cons _ Hp; cbn in Hp; [|by apply not_elem_of_nil in Hp|done].
      apply list_elem_of_singleton in Hp as ->. by exists (demo_method 16), demo_item. }
    exists i', h', ts', t, w'. cbn zeta. split; [exact H1|]. split; [exact H2|]. rewrite !H3. split; [reflexivity|].
    split; [reflexivity|]. destruct (H4 40 (demo_method 16) eq_refl) as (m' & -> & E). cbn. by rewrite E.
Defined.

(** A heap with the field that the pending records name. *)
Definition field_heap : Heap := set_fields {[ 8192 := mkArtField 1000 1 "count" "I" 0 8 ]} (demo_heap 16).

Lemma field_heap_listable f :
  f ∈ named_fields (take 2 sample_events) ∪ visited_fields_ sample_full -> field_listable field_heap f.
Proof.
  intros Hf. assert (f = 8192) as ->.
  { apply elem_of_elements in Hf. vm_compute in Hf. by apply list_elem_of_singleton in Hf. }
  eexists _, (demo_class "LMain;" 7 [40]), _. split; [reflexivity|]. split; [reflexivity|]. split; [by eexists|].
  vm_compute. reflexivity.
Qed.

Lemma field_heap_methods m :
  m ∈ named_methods (take 2 sample_events) ∪ visited_methods_ sample_full -> method_listable field_heap m.
Proof. intros Hm. apply elem_of_elements in Hm. vm_compute in Hm. by apply elem_of_nil in Hm. Qed.

Definition demo_tracing : Instrumentation :=
  set_interpreter_stubs_installed true (set_entry_exit_stubs_installed true
    (set_requested_instrumentation_levels {[ 1000 := kInstrumentWithInterpreter ]} (pushed 65536 7 Instrumentation_new))).

Lemma field_table_wf : class_table_wf field_heap.
Proof. exact demo_table_wf. Qed.

(** A tracer with the entry of method 0x10008 in its buffer. *)
Definition entry_event : Event := MethodEvent 7 0x10008 kMiniTraceMethodEnter 0.

Definition entry_trace : MiniTrace :=
  set_buf (splice (replicate 30 0) 0 (record_bytes entry_event)) (set_cur_offset 14 sample_trace).

Lemma entry_trace_wf : trace_wf entry_trace [entry_event].
Proof.
  apply (fill_slot sample_trace [] entry_event).
  - apply sample_trace_wf.
  - split; [split; [cbn; lia|reflexivity]|by left].
  - apply Nat.ltb_lt. reflexivity.
Qed.

Definition entry_heap : Heap :=
  set_methods {[ 0x10008 := demo_method 16 ]} (demo_heap 16).

Lemma field_heap_lists t : visited_methods_ t ⊆ named_methods (take 2 sample_events) ∪ visited_methods_ sample_full ->
  visited_fields_ t ⊆ named_fields (take 2 sample_events) ∪ visited_fields_ sample_full ->
  exists text, DumpList field_heap (te_threads demo_tenv) t = Ok text.
Proof. intros Hm Hf. apply DumpList_total; [intros m ?; apply field_heap_methods; set_solver|intros f ?; apply field_heap_listable; set_solver]. Qed.

Lemma entry_heap_fails : exists e, DumpList entry_heap (te_threads demo_tenv) (flushed entry_trace [entry_event]) = Fault e.
Proof.
  apply (list_fault _ _ _ (DecodeMiniTraceMethodId (event_word entry_event))).
  - apply (elem_of_union_l (DecodeMiniTraceMethodId (event_word entry_event)) (named_methods [entry_event])). apply named_methods_entry; [by left|done].
  - vm_compute. reflexivity.
Qed.

Lemma finish_writes_witness :
  (exists t' w' text,
    FinishTracing demo_tenv (demo_state 0 (Some (65536, sample_full)) field_heap steady_os) =
      Ok (tt, demo_state 0 (Some (65536, t')) field_heap w') /\
    DumpList field_heap (te_threads demo_tenv) (flushed sample_full (take 2 sample_events)) = Ok text /\
    written w' 5 = take 28 (buf_ sample_full) /\ written w' 4 = string_bytes text) /\
  exists e, FinishTracing demo_tenv (demo_state 0 (Some (65536, entry_trace)) entry_heap steady_os) = Fault e.
Proof.
  split.
  - destruct (field_heap_lists (flushed sample_full (take 2 sample_events))) as [text E]; [done|done|].
    pose proof (finish_writes sample_env demo_tenv Instrumentation_new field_heap None [demo_thread] 0 65536 sample_full None steady_os
                  false (take 2 sample_events) SteadyOS_reliable sample_full_wf ltac:(discriminate)) as H. cbv zeta in H. rewrite E in H.
    destruct H as (t' & w' & H1 & _ & H2 & H3). exists t', w', text. split; [exact H1|]. split; [exact E|]. split; [exact H2|exact H3].
  - destruct entry_heap_fails as [e E].
    pose proof (finish_writes sample_env demo_tenv Instrumentation_new entry_heap None [demo_thread] 0 65536 entry_trace None steady_os
                  false [entry_event] SteadyOS_reliable entry_trace_wf ltac:(discriminate)) as H. cbv zeta in H. rewrite E in H.
    exists e. exact H.
Defined.


Lemma stop_after_method_entry_faults_witness :
  exists e, Stop sample_env demo_tenv (demo_state 65536 (Some (65536, entry_trace)) entry_heap steady_os) = Fault e.
Proof.
  apply (stop_after_method_entry_faults sample_env demo_tenv Instrumentation_new entry_heap None [demo_thread] 65536
           entry_trace None steady_os false [entry_event] 7 0x10008).
  - discriminate.
  - apply entry_trace_wf.
  - apply SteadyOS_reliable.
  - by left.
  - intros q [m Hq]. unfold entry_heap in Hq. cbn [set_methods h_methods] in Hq.
    apply lookup_singleton_Some in Hq as [<- _]. lia.
Defined.

Lemma failed_start_aborts_witness :
  Start sample_env demo_tenv (mret tt)
    (demo_state 0 None (demo_heap 16)
       (mkScriptOS [SysOk 0; SysErr 13] {[ trace_filename demo_tenv "_config.in" := demo_config ]} ∅ 6)) = Fault CheckFailed.
Proof.
  set (w := mkScriptOS _ _ _ _).
  destruct (CreateEmptyFile (trace_filename demo_tenv "_info.log") w) as [[[info|] w1]|] eqn:E1;
    [|vm_compute in E1; discriminate..].
  destruct (CreateEmptyFile (trace_filename demo_tenv "_data.bin") w1) as [[[data|] w2]|] eqn:E2;
    [vm_compute in E1; injection E1 as <- <-; vm_compute in E2; discriminate| |
     vm_compute in E1; injection E1 as <- <-; vm_compute in E2; discriminate].
  refine (proj1 (failed_start_aborts sample_env demo_tenv demo_config demo_cfg info Instrumentation_new
                   (mkCodeState (demo_heap 16) None) [demo_thread] None None w w1 w2 false _ _ _ _) _ (mret tt)).
  - vm_compute. reflexivity.
  - vm_compute. reflexivity.
  - vm_compute. reflexivity.
  - exact E1.
  - exact E2.
Defined.

Lemma coverage_dump_total_witness :
  exists (opened : bool) w',
    HandleSigUsr2 demo_tenv (demo_state 0 None (demo_heap 16) sample_os) =
      Ok (tt, demo_state 0 None (demo_heap 16) w').
Proof.
  destruct (coverage_dump_total demo_tenv Instrumentation_new (demo_heap 16) None [demo_thread] 0 None None sample_os false
              (coverage_header demo_tenv false) (demo_heap 16)) as (opened & w' & H & _).
  - exists tt. vm_compute. reflexivity.
  - exists opened, w'. by destruct opened.
Defined.
