(* ===== verification/Leb128.v ===== *)
(** * LEB128: [leb128.h]

    The variable-length integers of dex files.  Bytes are numbers below 256;
    a pointer into an array is an index. *)

From S2P Require Import Prelude.

(** ** Decoding *)

Definition DecodeUnsignedLeb128 (data : list Z) (ptr : Z) : outcome (Z * Z) :=
  result ← peek data ptr;
  if 0x7f <? result then
    cur ← peek data (ptr + 1);
    let result := Z.lor (Z.land result 0x7f) (Z.shiftl (Z.land cur 0x7f) 7) in
    if 0x7f <? cur then
      cur ← peek data (ptr + 2);
      let result := Z.lor result (Z.shiftl (Z.land cur 0x7f) 14) in
      if 0x7f <? cur then
        cur ← peek data (ptr + 3);
        let result := Z.lor result (Z.shiftl (Z.land cur 0x7f) 21) in
        if 0x7f <? cur then
          cur ← peek data (ptr + 4);
          let result := Z.lor result (Z.shiftl cur 28) in
          mret (u32 result, ptr + 5)
        else mret (u32 result, ptr + 4)
      else mret (u32 result, ptr + 3)
    else mret (u32 result, ptr + 2)
  else mret (u32 result, ptr + 1).

Definition DecodeUnsignedLeb128P1 (data : list Z) (ptr : Z) : outcome (Z * Z) :=
  '(v, ptr) ← DecodeUnsignedLeb128 data ptr;
  mret (s32 (v - 1), ptr).

(** [(x << n) >> n] of an [int32_t]. *)
Definition sign_extend (x n : Z) : Z := Z.shiftr (s32 (Z.shiftl x n)) n.

Definition DecodeSignedLeb128 (data : list Z) (ptr : Z) : outcome (Z * Z) :=
  result ← peek data ptr;
  if result <=? 0x7f then mret (sign_extend result 25, ptr + 1)
  else
    cur ← peek data (ptr + 1);
    let result := Z.lor (Z.land result 0x7f) (Z.shiftl (Z.land cur 0x7f) 7) in
    if cur <=? 0x7f then mret (sign_extend result 18, ptr + 2)
    else
      cur ← peek data (ptr + 2);
      let result := Z.lor result (Z.shiftl (Z.land cur 0x7f) 14) in
      if cur <=? 0x7f then mret (sign_extend result 11, ptr + 3)
      else
        cur ← peek data (ptr + 3);
        let result := Z.lor result (Z.shiftl (Z.land cur 0x7f) 21) in
        if cur <=? 0x7f then mret (sign_extend result 4, ptr + 4)
        else
          cur ← peek data (ptr + 4);
          mret (s32 (Z.lor result (Z.shiftl cur 28)), ptr + 5).

(** ** Sizes *)

(** [__builtin_clz] of a 32-bit value that is not zero. *)
Definition CLZ (x : Z) : Z := 31 - Z.log2 x.

Definition UnsignedLeb128Size (data : Z) : Z :=
  let x := 6 + 32 - CLZ (Z.lor data 1) in
  Z.shiftr (x * 37) 8.

Definition SignedLeb128Size (data : Z) : Z :=
  let data := Z.lxor data (Z.shiftr data 31) in
  let x := 1 + 6 + 32 - CLZ (Z.lor data 1) in
  Z.shiftr (x * 37) 8.

(** ** Encoding *)

(** The loop of [EncodeUnsignedLeb128] into a [std::vector]; four rounds are
    enough for 32 bits. *)
Fixpoint encode_unsigned (fuel : nat) (dest : list Z) (out value : Z) : outcome (list Z) :=
  if value =? 0 then mret (dest ++ [out])
  else
    match fuel with
    | O => Fault OutOfFuel
    | S fuel => encode_unsigned fuel (dest ++ [Z.lor out 0x80]) (Z.land value 0x7f) (Z.shiftr value 7)
    end.

Definition PushBackUnsigned (dest : list Z) (value : Z) : outcome (list Z) :=
  encode_unsigned 4 dest (Z.land value 0x7f) (Z.shiftr value 7).

(** The same loop through a pointer. *)
Fixpoint encode_unsigned_at (fuel : nat) (data : list Z) (dest out value : Z) : outcome (list Z * Z) :=
  if value =? 0 then data ← poke data dest out; mret (data, dest + 1)
  else
    match fuel with
    | O => Fault OutOfFuel
    | S fuel =>
        data ← poke data dest (Z.lor out 0x80);
        encode_unsigned_at fuel data (dest + 1) (Z.land value 0x7f) (Z.shiftr value 7)
    end.

Definition EncodeUnsignedLeb128 (data : list Z) (dest value : Z) : outcome (list Z * Z) :=
  encode_unsigned_at 4 data dest (Z.land value 0x7f) (Z.shiftr value 7).

(** The loop of [UpdateUnsignedLeb128]. *)
Fixpoint fill_space (fuel : nat) (data : list Z) (end_ old_end : Z) : outcome (list Z) :=
  if end_ <? old_end then
    match fuel with
    | O => Fault OutOfFuel
    | S fuel =>
        b ← peek data (end_ - 1);
        data ← poke data (end_ - 1) (Z.lor b 0x80);
        data ← poke data end_ 0;
        fill_space fuel data (end_ + 1) old_end
    end
  else mret data.

Definition UpdateUnsignedLeb128 (data : list Z) (dest value : Z) : outcome (list Z) :=
  '(_, old_end) ← DecodeUnsignedLeb128 data dest;
  '(data, end_) ← EncodeUnsignedLeb128 data dest value;
  fill_space 5 data end_ old_end.

Fixpoint encode_signed (fuel : nat) (dest : list Z) (out value extra_bits : Z) : outcome (list Z) :=
  if extra_bits =? 0 then mret (dest ++ [out])
  else
    match fuel with
    | O => Fault OutOfFuel
    | S fuel =>
        let value := Z.shiftr value 7 in
        encode_signed fuel (dest ++ [Z.lor out 0x80]) (Z.land value 0x7f) value (Z.shiftr extra_bits 7)
    end.

Definition PushBackSigned (dest : list Z) (value : Z) : outcome (list Z) :=
  let extra_bits := Z.shiftr (u32 (Z.lxor value (Z.shiftr value 31))) 6 in
  encode_signed 4 dest (Z.land value 0x7f) value extra_bits.

Fixpoint encode_signed_at (fuel : nat) (data : list Z) (dest out value extra_bits : Z) : outcome (list Z * Z) :=
  if extra_bits =? 0 then data ← poke data dest out; mret (data, dest + 1)
  else
    match fuel with
    | O => Fault OutOfFuel
    | S fuel =>
        data ← poke data dest (Z.lor out 0x80);
        let value := Z.shiftr value 7 in
        encode_signed_at fuel data (dest + 1) (Z.land value 0x7f) value (Z.shiftr extra_bits 7)
    end.

Definition EncodeSignedLeb128 (data : list Z) (dest value : Z) : outcome (list Z * Z) :=
  let extra_bits := Z.shiftr (u32 (Z.lxor value (Z.shiftr value 31))) 6 in
  encode_signed_at 4 data dest (Z.land value 0x7f) value extra_bits.

(** [Leb128Encoder::InsertBackUnsigned] and [InsertBackSigned]. *)
Fixpoint InsertBackUnsigned (dest values : list Z) : outcome (list Z) :=
  match values with
  | [] => mret dest
  | v :: values => dest ← PushBackUnsigned dest v; InsertBackUnsigned dest values
  end.

Fixpoint InsertBackSigned (dest values : list Z) : outcome (list Z) :=
  match values with
  | [] => mret dest
  | v :: values => dest ← PushBackSigned dest v; InsertBackSigned dest values
  end.

(** ** The format *)

(** A number in base 128, least significant digit first; every byte but the
    last has its high bit set. *)
Fixpoint groups (bs : list Z) : Z :=
  match bs with
  | [] => 0
  | b :: bs => b mod 128 + 128 * groups bs
  end.

Fixpoint leb_shape (bs : list Z) : Prop :=
  match bs with
  | [] => False
  | [b] => 0 <= b < 128
  | b :: bs => 128 <= b < 256 /\ leb_shape bs
  end.

Lemma land_low7 x : Z.land x 0x7f = x mod 128.
Proof. change 0x7f with (Z.ones 7). by rewrite Z.land_ones by lia. Qed.

Lemma shiftr_7 x : Z.shiftr x 7 = x / 128.
Proof. by rewrite Z.shiftr_div_pow2 by lia. Qed.

Lemma lor_high x : 0 <= x < 128 -> Z.lor x 0x80 = x + 128.
Proof. intros H. change (Z.lor x 0x80) with (Z.lor x (Z.shiftl 1 7)). rewrite lor_shiftl_add by lia. lia. Qed.

Lemma groups_range bs : 0 <= groups bs < 128 ^ Z.of_nat (length bs).
Proof.
  induction bs as [|b bs IH]; cbn [groups length]; [done|]. rewrite Nat2Z.inj_succ, Z.pow_succ_r by lia.
  pose proof (Z.mod_pos_bound b 128). nia.
Qed.

(** The bytes of an encoding of at most five bytes. *)
Lemma leb_cases bs :
  leb_shape bs -> (length bs <= 5)%nat ->
  (exists b0, bs = [b0] /\ 0 <= b0 < 128) \/
  (exists b0 b1, bs = [b0; b1] /\ 128 <= b0 < 256 /\ 0 <= b1 < 128) \/
  (exists b0 b1 b2, bs = [b0; b1; b2] /\ 128 <= b0 < 256 /\ 128 <= b1 < 256 /\ 0 <= b2 < 128) \/
  (exists b0 b1 b2 b3, bs = [b0; b1; b2; b3] /\ 128 <= b0 < 256 /\ 128 <= b1 < 256 /\ 128 <= b2 < 256 /\ 0 <= b3 < 128) \/
  (exists b0 b1 b2 b3 b4, bs = [b0; b1; b2; b3; b4] /\ 128 <= b0 < 256 /\ 128 <= b1 < 256 /\ 128 <= b2 < 256 /\
     128 <= b3 < 256 /\ 0 <= b4 < 128).
Proof.
  intros Hs Hl. destruct bs as [|b0 [|b1 [|b2 [|b3 [|b4 [|b5 bs]]]]]]; cbn in Hs, Hl; [done|..|lia].
  - left. eauto.
  - right; left. naive_solver.
  - do 2 right; left. naive_solver.
  - do 3 right; left. naive_solver.
  - do 4 right. naive_solver.
Qed.

(** The groups of seven bits that are put together. *)
Lemma combine2 a b : 128 <= a < 256 -> Z.lor (Z.land a 0x7f) (Z.shiftl (Z.land b 0x7f) 7) = groups [a; b].
Proof.
  intros Ha. rewrite !land_low7. pose proof (Z.mod_pos_bound a 128). rewrite lor_shiftl_add by lia. cbn [groups]. lia.
Qed.

Lemma combine bs b n :
  n = 7 * Z.of_nat (length bs) -> Z.lor (groups bs) (Z.shiftl (Z.land b 0x7f) n) = groups (bs ++ [b]).
Proof.
  intros ->. rewrite land_low7. pose proof (groups_range bs) as Hr.
  change 128 with (2 ^ 7) in Hr. rewrite <- Z.pow_mul_r in Hr by lia. rewrite lor_shiftl_add by lia.
  clear Hr. induction bs as [|a bs IH]; cbn [groups length app].
  - cbn. lia.
  - rewrite <- IH, Nat2Z.inj_succ.
    replace (7 * Z.succ (Z.of_nat (length bs))) with (7 + 7 * Z.of_nat (length bs)) by lia.
    rewrite Z.pow_add_r by lia. change (2 ^ 7) with 128. ring.
Qed.

(** Read the next byte of an encoding and decide whether it is the last. *)
Ltac read_bytes Hp Hd :=
  repeat (first
    [ match goal with |- context [peek ?d (?p + ?k)] =>
        rewrite (peek_at d p _ _ k _ Hp Hd ltac:(lia) eq_refl) end
    | match goal with |- context [peek ?d ?p] =>
        replace (peek d p) with (peek d (p + 0)) by (by rewrite Z.add_0_r);
        rewrite (peek_at d p _ _ 0 _ Hp Hd ltac:(lia) eq_refl) end
    | rewrite (proj2 (Z.ltb_lt _ _)) by lia | rewrite (proj2 (Z.ltb_ge _ _)) by lia
    | rewrite (proj2 (Z.leb_gt _ _)) by lia | rewrite (proj2 (Z.leb_le _ _)) by lia
    | rewrite combine2 by lia | rewrite combine by reflexivity; cbn [app]
    | progress cbn [mbind outcome_bind] ]).

Lemma decode_unsigned_ok data ptr bs rest :
  0 <= ptr -> drop (Z.to_nat ptr) data = bs ++ rest -> leb_shape bs -> (length bs <= 5)%nat ->
  DecodeUnsignedLeb128 data ptr = Ok (u32 (groups bs), ptr + Z.of_nat (length bs)).
Proof.
  intros Hp Hd Hs Hl. unfold DecodeUnsignedLeb128.
  destruct (leb_cases bs Hs Hl) as [(b0 & -> & H0)|[(b0 & b1 & -> & H0 & H1)|[(b0 & b1 & b2 & -> & H0 & H1 & H2)|
    [(b0 & b1 & b2 & b3 & -> & H0 & H1 & H2 & H3)|(b0 & b1 & b2 & b3 & b4 & -> & H0 & H1 & H2 & H3 & H4)]]]];
    read_bytes Hp Hd; unfold mret, outcome_ret; do 2 f_equal.
  - cbn [groups]. by rewrite Z.mod_small, Z.add_0_r by lia.
  - rewrite <- (Z.mod_small b4 128) at 1 by lia. rewrite <- land_low7, combine by reflexivity. done.
Qed.

(** ** Signed values *)

(** The value of the low [n] bits, as a two's complement number. *)
Definition sext (n x : Z) : Z := (x + 2 ^ (n - 1)) mod 2 ^ n - 2 ^ (n - 1).

Lemma sext_value n v : 0 < n -> - 2 ^ (n - 1) <= v < 2 ^ (n - 1) -> sext n (v mod 2 ^ n) = v.
Proof.
  intros Hn Hv. unfold sext. assert (0 < 2 ^ (n - 1)) by (apply Z.pow_pos_nonneg; lia).
  assert (2 ^ n = 2 * 2 ^ (n - 1)) as E by (rewrite <- Z.pow_succ_r by lia; f_equal; lia).
  rewrite Zplus_mod_idemp_l, Z.mod_small by lia. lia.
Qed.

Lemma sign_extend_sext x k : 0 <= k < 32 -> 0 <= x < 2 ^ (32 - k) -> sign_extend x k = sext (32 - k) x.
Proof.
  intros Hk Hx. unfold sign_extend, sext, s32. rewrite Z.shiftr_div_pow2, Z.shiftl_mul_pow2 by lia.
  set (a := 2 ^ (32 - k - 1)). assert (0 < a) by (apply Z.pow_pos_nonneg; lia).
  assert (0 < 2 ^ k) by (apply Z.pow_pos_nonneg; lia).
  assert (2 ^ (32 - k) = 2 * a) as E2 by (unfold a; rewrite <- Z.pow_succ_r by lia; f_equal; lia).
  assert (2 ^ 31 = a * 2 ^ k) as E31 by (unfold a; rewrite <- Z.pow_add_r by lia; f_equal; lia).
  assert (2 ^ 32 = 2 * a * 2 ^ k) as -> by (rewrite <- Z.mul_assoc, <- E31; reflexivity).
  rewrite E31, E2 in *. rewrite <- Z.mul_add_distr_r, Z.mul_mod_distr_r by lia.
  rewrite <- Z.mul_sub_distr_r, Z.div_mul by lia. reflexivity.
Qed.

(** How many bits of a decoded value count. *)
Definition leb_width (bs : list Z) : Z := Z.min 32 (7 * Z.of_nat (length bs)).

Lemma s32_sext x : s32 x = sext 32 x.
Proof. reflexivity. Qed.

Lemma decode_signed_ok data ptr bs rest :
  0 <= ptr -> drop (Z.to_nat ptr) data = bs ++ rest -> leb_shape bs -> (length bs <= 5)%nat ->
  DecodeSignedLeb128 data ptr = Ok (sext (leb_width bs) (groups bs), ptr + Z.of_nat (length bs)).
Proof.
  intros Hp Hd Hs Hl. unfold DecodeSignedLeb128. pose proof (groups_range bs) as Hr.
  destruct (leb_cases bs Hs Hl) as [(b0 & -> & H0)|[(b0 & b1 & -> & H0 & H1)|[(b0 & b1 & b2 & -> & H0 & H1 & H2)|
    [(b0 & b1 & b2 & b3 & -> & H0 & H1 & H2 & H3)|(b0 & b1 & b2 & b3 & b4 & -> & H0 & H1 & H2 & H3 & H4)]]]];
    read_bytes Hp Hd; unfold mret, outcome_ret; do 2 f_equal.
  - cbn [groups]. rewrite (Z.mod_small b0), Z.add_0_r by lia. by apply (sign_extend_sext b0 25); lia.
  - by apply (sign_extend_sext _ 18).
  - by apply (sign_extend_sext _ 11).
  - by apply (sign_extend_sext _ 4).
  - rewrite <- (Z.mod_small b4 128) at 1 by lia. rewrite <- land_low7, combine by reflexivity. done.
Qed.

(** ** What the encoders write *)

(** The length of an encoding of a number that needs [v < 128^n]. *)
Definition minimal (v : Z) (n : nat) : Prop :=
  v < 128 ^ Z.of_nat n /\ ((1 < n)%nat -> 128 ^ (Z.of_nat n - 1) <= v).

Lemma minimal_step v n : 0 < v / 128 -> minimal (v / 128) n -> minimal v (S n).
Proof.
  intros Hv [H1 H2]. unfold minimal. rewrite Nat2Z.inj_succ. split.
  - rewrite Z.pow_succ_r by lia. mlia.
  - intros _. replace (Z.succ (Z.of_nat n) - 1) with (Z.of_nat n) by lia.
    destruct (decide (1 < n)%nat) as [Hn|Hn].
    + specialize (H2 Hn). replace (Z.of_nat n) with (Z.succ (Z.of_nat n - 1)) by lia.
      rewrite Z.pow_succ_r by lia. mlia.
    + destruct n as [|[|n]]; [cbn in H1; lia| |lia]. change (128 ^ Z.of_nat 1) with 128. mlia.
Qed.

Lemma shape_cons b bs : 128 <= b < 256 -> leb_shape bs -> leb_shape (b :: bs).
Proof. intros Hb Hs. destruct bs; [done|]. by split. Qed.

Lemma groups_cons_high out bs : 0 <= out < 128 -> groups (Z.lor out 0x80 :: bs) = out + 128 * groups bs.
Proof.
  intros H. cbn [groups]. rewrite lor_high by done. replace (out + 128) with (out + 1 * 128) by lia.
  rewrite Z.mod_add, Z.mod_small by lia. done.
Qed.

(** The bytes of an unsigned value. *)
Fixpoint uleb (fuel : nat) (out value : Z) : list Z :=
  match fuel with
  | O => [out]
  | S fuel => if value =? 0 then [out] else Z.lor out 0x80 :: uleb fuel (value mod 128) (value / 128)
  end.

Lemma uleb_shape fuel : forall out value, 0 <= out < 128 -> 0 <= value -> leb_shape (uleb fuel out value).
Proof.
  induction fuel as [|fuel IH]; intros out value Ho Hv; cbn [uleb]; [done|]. destruct (Z.eqb_spec value 0); [done|].
  apply shape_cons; [rewrite lor_high; lia|]. apply IH; [apply Z.mod_pos_bound; lia|mlia].
Qed.

Lemma uleb_length fuel : forall out value, (1 <= length (uleb fuel out value) <= S fuel)%nat.
Proof.
  induction fuel as [|fuel IH]; intros out value; cbn [uleb]; [cbn; lia|]. destruct (_ =? _); cbn; [lia|].
  specialize (IH (value mod 128) (value / 128)). lia.
Qed.

Lemma uleb_groups fuel : forall out value, 0 <= out < 128 -> 0 <= value < 128 ^ Z.of_nat fuel ->
  groups (uleb fuel out value) = out + 128 * value /\ minimal (out + 128 * value) (length (uleb fuel out value)).
Proof.
  induction fuel as [|fuel IH]; intros out value Ho Hv; cbn [uleb].
  - assert (value = 0) as -> by (cbn in Hv; lia). cbn. rewrite Z.mod_small by lia. split; [lia|]. split; [cbn; lia|lia].
  - destruct (Z.eqb_spec value 0) as [->|Hne].
    { cbn. rewrite Z.mod_small by lia. split; [lia|]. split; [cbn; lia|lia]. }
    rewrite Nat2Z.inj_succ, Z.pow_succ_r in Hv by lia. pose proof (Z.mod_pos_bound value 128).
    destruct (IH (value mod 128) (value / 128)) as [H1 H2]; [lia|mlia|].
    assert (value mod 128 + 128 * (value / 128) = value) as E by (pose proof (Z.div_mod value 128); lia).
    assert ((out + 128 * value) / 128 = value) as Ed by mlia.
    rewrite E in H1, H2. rewrite groups_cons_high, H1 by lia. split; [lia|]. cbn [length].
    apply minimal_step; rewrite Ed; [lia|done].
Qed.

Lemma encode_unsigned_uleb fuel : forall dest out value, 0 <= value < 128 ^ Z.of_nat fuel ->
  encode_unsigned fuel dest out value = Ok (dest ++ uleb fuel out value).
Proof.
  induction fuel as [|fuel IH]; intros dest out value Hv; cbn [encode_unsigned uleb].
  { assert (value = 0) as -> by (cbn in Hv; lia). done. }
  destruct (Z.eqb_spec value 0); [done|]. rewrite Nat2Z.inj_succ, Z.pow_succ_r in Hv by lia.
  rewrite land_low7, shiftr_7, IH by mlia. by rewrite <- app_assoc.
Qed.

Lemma encode_unsigned_at_uleb fuel : forall data dest out value, 0 <= value < 128 ^ Z.of_nat fuel ->
  encode_unsigned_at fuel data dest out value =
    (data ← poke_all data dest (uleb fuel out value); mret (data, dest + Z.of_nat (length (uleb fuel out value)))).
Proof.
  induction fuel as [|fuel IH]; intros data dest out value Hv; cbn [encode_unsigned_at uleb].
  { assert (value = 0) as -> by (cbn in Hv; lia). cbn. by destruct (poke data dest out). }
  destruct (Z.eqb_spec value 0); [cbn; by destruct (poke data dest out)|].
  rewrite Nat2Z.inj_succ, Z.pow_succ_r in Hv by lia. cbn [poke_all]. destruct (poke _ _ _) as [data1|]; [|done].
  cbn [mbind outcome_bind]. rewrite land_low7, shiftr_7, IH by mlia. cbn [length].
  destruct (poke_all _ _ _); [|done]. cbn. do 2 f_equal. lia.
Qed.

Definition ubytes (v : Z) : list Z := uleb 4 (v mod 128) (v / 128).

Lemma ubytes_spec v :
  0 <= v < 2 ^ 32 ->
  leb_shape (ubytes v) /\ groups (ubytes v) = v /\ (1 <= length (ubytes v) <= 5)%nat /\ minimal v (length (ubytes v)).
Proof.
  intros Hv. unfold ubytes. pose proof (Z.mod_pos_bound v 128). pose proof (Z.div_mod v 128).
  destruct (uleb_groups 4 (v mod 128) (v / 128)) as [H1 H2]; [lia|change (128 ^ Z.of_nat 4) with (2 ^ 28); mlia|].
  replace (v mod 128 + 128 * (v / 128)) with v in * by lia.
  split; [apply uleb_shape; mlia|]. split; [done|]. split; [apply uleb_length|done].
Qed.

Lemma PushBackUnsigned_ok dest v : 0 <= v < 2 ^ 32 -> PushBackUnsigned dest v = Ok (dest ++ ubytes v).
Proof.
  intros Hv. unfold PushBackUnsigned. rewrite land_low7, shiftr_7. apply encode_unsigned_uleb.
  change (128 ^ Z.of_nat 4) with (2 ^ 28). mlia.
Qed.

(** *** Signed values *)

(** The bits of a value without its sign. *)
Definition magnitude (v : Z) : Z := if v <? 0 then - v - 1 else v.

Lemma magnitude_nonneg v : 0 <= magnitude v.
Proof. unfold magnitude. destruct (Z.ltb_spec v 0); lia. Qed.

Lemma magnitude_div v : magnitude (v / 128) = magnitude v / 128.
Proof.
  unfold magnitude. destruct (Z.ltb_spec v 0) as [H|H], (Z.ltb_spec (v / 128) 0) as [H1|H1]; try mlia.
Qed.

Lemma sign_fold v : - 2 ^ 31 <= v < 2 ^ 31 -> Z.lxor v (Z.shiftr v 31) = magnitude v.
Proof.
  intros Hv. unfold magnitude. rewrite Z.shiftr_div_pow2 by lia. destruct (Z.ltb_spec v 0).
  - assert (v / 2 ^ 31 = -1) as -> by mlia. rewrite Z.lxor_m1_r. unfold Z.lnot. lia.
  - rewrite Z.div_small by lia. apply Z.lxor_0_r.
Qed.

(** The bytes of a signed value: enough for one bit more than its magnitude. *)
Fixpoint sleb (fuel : nat) (value : Z) : list Z :=
  match fuel with
  | O => [value mod 128]
  | S fuel => if magnitude value <? 64 then [value mod 128] else Z.lor (value mod 128) 0x80 :: sleb fuel (value / 128)
  end.

Lemma sleb_shape fuel : forall value, leb_shape (sleb fuel value) /\ (1 <= length (sleb fuel value) <= S fuel)%nat.
Proof.
  induction fuel as [|fuel IH]; intros value; cbn [sleb]; pose proof (Z.mod_pos_bound value 128).
  - split; [cbn; lia|cbn; lia].
  - destruct (_ <? _); [split; [cbn; lia|cbn; lia]|]. destruct (IH (value / 128)) as [H1 H2]. split.
    + apply shape_cons; [rewrite lor_high; lia|done].
    + cbn [length]. lia.
Qed.

Lemma sleb_one value : magnitude value < 64 ->
  groups [value mod 128] = value mod 128 ^ Z.of_nat (length [value mod 128]) /\
  minimal (2 * magnitude value) (length [value mod 128]).
Proof.
  intros H. cbn [groups length]. unfold minimal. change (128 ^ Z.of_nat 1) with 128. rewrite Z.mod_mod by lia.
  split; [lia|]. split; [lia|]. intros ?. lia.
Qed.

Lemma sleb_groups fuel : forall value, 0 <= magnitude value < 64 * 128 ^ Z.of_nat fuel ->
  groups (sleb fuel value) = value mod 128 ^ Z.of_nat (length (sleb fuel value)) /\
  minimal (2 * magnitude value) (length (sleb fuel value)).
Proof.
  induction fuel as [|fuel IH]; intros value Hm; cbn [sleb].
  - apply sleb_one. cbn in Hm. lia.
  - destruct (Z.ltb_spec (magnitude value) 64) as [Hl|Hl]; [by apply sleb_one|].
    rewrite Nat2Z.inj_succ, Z.pow_succ_r in Hm by lia. pose proof (Z.mod_pos_bound value 128).
    destruct (IH (value / 128)) as [H1 H2]; [rewrite magnitude_div; mlia|].
    rewrite groups_cons_high, H1 by lia. cbn [length]. set (n := length (sleb fuel (value / 128))) in *.
    rewrite Nat2Z.inj_succ, Z.pow_succ_r by lia. split.
    + assert (0 < 128 ^ Z.of_nat n) by (apply Z.pow_pos_nonneg; lia). rewrite Z.rem_mul_r by lia. done.
    + pose proof (magnitude_nonneg value). apply minimal_step; [mlia|].
      rewrite magnitude_div in H2. destruct H2 as [H2 H3]. split.
      * pose proof (proj2 (sleb_shape fuel (value / 128))) as Hn. fold n in Hn. destruct n as [|n]; [lia|]. rewrite Nat2Z.inj_succ, Z.pow_succ_r in * by lia.
        set (k := 128 ^ Z.of_nat n) in *. mlia.
      * intros Hn. specialize (H3 Hn). mlia.
Qed.

Lemma encode_signed_sleb fuel : forall dest value extra,
  extra = magnitude value / 64 -> magnitude value < 64 * 128 ^ Z.of_nat fuel ->
  encode_signed fuel dest (value mod 128) value extra = Ok (dest ++ sleb fuel value).
Proof.
  induction fuel as [|fuel IH]; intros dest value extra -> Hm; cbn [encode_signed sleb]; pose proof (magnitude_nonneg value).
  { cbn in Hm. rewrite Z.div_small by lia. done. }
  destruct (Z.eqb_spec (magnitude value / 64) 0) as [E|E].
  { rewrite (proj2 (Z.ltb_lt _ _)) by mlia. done. }
  rewrite (proj2 (Z.ltb_ge _ _)) by mlia. rewrite Nat2Z.inj_succ, Z.pow_succ_r in Hm by lia.
  rewrite land_low7, !shiftr_7, IH.
  - by rewrite <- app_assoc.
  - rewrite magnitude_div, !Z.div_div by lia. done.
  - rewrite magnitude_div. mlia.
Qed.

Definition sbytes (v : Z) : list Z := sleb 4 v.

Lemma magnitude_range v : - 2 ^ 31 <= v < 2 ^ 31 -> 0 <= magnitude v < 2 ^ 31.
Proof. intros H. unfold magnitude. destruct (Z.ltb_spec v 0); lia. Qed.

Lemma PushBackSigned_ok dest v : - 2 ^ 31 <= v < 2 ^ 31 -> PushBackSigned dest v = Ok (dest ++ sbytes v).
Proof.
  intros Hv. unfold PushBackSigned. pose proof (magnitude_range v Hv). rewrite sign_fold, u32_small, land_low7 by lia.
  apply encode_signed_sleb; [by rewrite Z.shiftr_div_pow2 by lia|]. change (64 * 128 ^ Z.of_nat 4) with (2 ^ 34). lia.
Qed.

Lemma sbytes_spec v :
  - 2 ^ 31 <= v < 2 ^ 31 ->
  leb_shape (sbytes v) /\ (1 <= length (sbytes v) <= 5)%nat /\ sext (leb_width (sbytes v)) (groups (sbytes v)) = v /\
  minimal (2 * magnitude v) (length (sbytes v)).
Proof.
  intros Hv. pose proof (magnitude_range v Hv). destruct (sleb_shape 4 v) as [H1 H2].
  destruct (sleb_groups 4 v) as [H3 H4]; [change (64 * 128 ^ Z.of_nat 4) with (2 ^ 34); lia|].
  split; [done|]. split; [done|]. split; [|done]. unfold sbytes, leb_width. rewrite H3.
  set (n := length (sleb 4 v)) in *. destruct H4 as [H4 _].
  assert (128 ^ Z.of_nat n = 2 ^ (7 * Z.of_nat n)) as E by (rewrite Z.pow_mul_r by lia; done). rewrite E in *.
  assert (- 2 ^ (7 * Z.of_nat n - 1) <= v < 2 ^ (7 * Z.of_nat n - 1)) as Hr.
  { assert (2 ^ (7 * Z.of_nat n) = 2 * 2 ^ (7 * Z.of_nat n - 1)) as E2
      by (rewrite <- Z.pow_succ_r by lia; f_equal; lia).
    unfold magnitude in H4. destruct (Z.ltb_spec v 0); lia. }
  destruct (decide (n <= 4)%nat) as [Hn|Hn].
  - rewrite Z.min_r by lia. apply sext_value; [lia|done].
  - replace n with 5%nat by lia. change (Z.min 32 (7 * Z.of_nat 5)) with 32.
    assert (sext 32 (v mod 2 ^ (7 * Z.of_nat 5)) = sext 32 (v mod 2 ^ 32)) as ->.
    { unfold sext. rewrite <- (Zplus_mod_idemp_l (v mod 2 ^ (7 * Z.of_nat 5))), Z.mod_mod_divide by (by exists 8). done. }
    apply sext_value; [lia|]. change (2 ^ (32 - 1)) with (2 ^ 31). lia.
Qed.

(** The size functions count the bytes. *)
Lemma size_minimal x n :
  0 <= x -> minimal x n -> (1 <= n <= 5)%nat -> Z.shiftr ((6 + 32 - CLZ (Z.lor x 1)) * 37) 8 = Z.of_nat n.
Proof.
  intros Hx [H1 H2] Hn. unfold CLZ. rewrite Z.log2_lor, Z.max_l by (try apply Z.log2_nonneg; lia).
  rewrite Z.shiftr_div_pow2 by lia. change (2 ^ 8) with 256.
  assert (128 ^ Z.of_nat n = 2 ^ (7 * Z.of_nat n)) as E by (rewrite Z.pow_mul_r by lia; done).
  assert (Z.log2 x < 7 * Z.of_nat n) as Hu.
  { destruct (Z.eq_dec x 0) as [->|]; [cbn; lia|]. apply Z.log2_lt_pow2; lia. }
  assert (7 * (Z.of_nat n - 1) <= Z.log2 x) as Hl.
  { destruct (decide (1 < n)%nat) as [Hn1|]; [|pose proof (Z.log2_nonneg x); lia].
    specialize (H2 Hn1). apply Z.log2_le_pow2.
    - eapply Z.lt_le_trans; [|exact H2]. apply Z.pow_pos_nonneg; lia.
    - rewrite Z.pow_mul_r by lia. done. }
  assert (n = 1 \/ n = 2 \/ n = 3 \/ n = 4 \/ n = 5)%nat as Hc by lia.
  destruct Hc as [->|[->|[->|[->| ->]]]]; mlia.
Qed.

Lemma signed_size_minimal m n :
  0 <= m -> minimal (2 * m) n -> (1 <= n <= 5)%nat -> Z.shiftr ((1 + 6 + 32 - CLZ (Z.lor m 1)) * 37) 8 = Z.of_nat n.
Proof.
  intros Hm Hn Hr. destruct (Z.eq_dec m 0) as [->|Hne].
  - assert (n = 1)%nat as -> by (destruct Hn as [_ Hn]; destruct (decide (1 < n)%nat) as [Hl|]; [|lia];
      specialize (Hn Hl); assert (0 < 128 ^ (Z.of_nat n - 1)) by (apply Z.pow_pos_nonneg; lia); lia). done.
  - rewrite <- (size_minimal (2 * m) n) by (done || lia). unfold CLZ. do 2 f_equal.
    rewrite !Z.log2_lor, !Z.max_l by (try apply Z.log2_nonneg; lia).
    replace (2 * m) with (m * 2 ^ 1) by lia. rewrite Z.log2_mul_pow2 by lia. lia.
Qed.

Lemma ubytes_size v : 0 <= v < 2 ^ 32 -> UnsignedLeb128Size v = Z.of_nat (length (ubytes v)).
Proof. intros Hv. destruct (ubytes_spec v Hv) as (_ & _ & Hn & Hm). apply size_minimal; [lia|done|done]. Qed.

Lemma sbytes_size v : - 2 ^ 31 <= v < 2 ^ 31 -> SignedLeb128Size v = Z.of_nat (length (sbytes v)).
Proof.
  intros Hv. destruct (sbytes_spec v Hv) as (_ & Hn & _ & Hm). unfold SignedLeb128Size. rewrite sign_fold by done.
  apply signed_size_minimal; [apply magnitude_nonneg|done|done].
Qed.

Lemma decode_ubytes us : Forall (fun v => 0 <= v < 2 ^ 32) us ->
  forall v data ptr rest, v ∈ us -> 0 <= ptr -> drop (Z.to_nat ptr) data = ubytes v ++ rest ->
  DecodeUnsignedLeb128 data ptr = Ok (v, ptr + Z.of_nat (length (ubytes v))).
Proof.
  intros Hu v data ptr rest Hv Hp Hd. rewrite Forall_forall in Hu. specialize (Hu v Hv).
  destruct (ubytes_spec v Hu) as (H1 & H2 & H3 & _). rewrite (decode_unsigned_ok data ptr _ rest Hp Hd H1) by lia.
  by rewrite H2, u32_small.
Qed.

Lemma decode_sbytes ss : Forall (fun v => - 2 ^ 31 <= v < 2 ^ 31) ss ->
  forall v data ptr rest, v ∈ ss -> 0 <= ptr -> drop (Z.to_nat ptr) data = sbytes v ++ rest ->
  DecodeSignedLeb128 data ptr = Ok (v, ptr + Z.of_nat (length (sbytes v))).
Proof.
  intros Hs v data ptr rest Hv Hp Hd. rewrite Forall_forall in Hs. specialize (Hs v Hv).
  destruct (sbytes_spec v Hs) as (H1 & H2 & H3 & _). rewrite (decode_signed_ok data ptr _ rest Hp Hd H1) by lia.
  by rewrite H3.
Qed.

Lemma concat_sizes (P : Z -> Prop) (size : Z -> Z) (bytes : Z -> list Z) vs :
  (forall v, P v -> size v = Z.of_nat (length (bytes v))) -> Forall P vs ->
  length (concat (bytes <$> vs)) = sum_list ((fun v => Z.to_nat (size v)) <$> vs).
Proof.
  intros Hs. induction 1 as [|v vs Hv _ IH]; [done|]. cbn. rewrite length_app, Hs, Nat2Z.id by done. f_equal. exact IH.
Qed.

(** ** Updating in place *)

Lemma peek_middle (l1 l2 : list Z) b i : i = Z.of_nat (length l1) -> peek (l1 ++ b :: l2) i = Ok b.
Proof. intros ->. apply peek_ok; [lia|]. rewrite Nat2Z.id. by apply list_lookup_middle. Qed.

Lemma poke_middle (l1 l2 : list Z) x b i : i = Z.of_nat (length l1) -> poke (l1 ++ x :: l2) i b = Ok (l1 ++ b :: l2).
Proof.
  intros ->. rewrite poke_ok by (rewrite length_app; cbn; lia). rewrite Nat2Z.id.
  rewrite <- (Nat.add_0_r (length l1)). by rewrite insert_app_r.
Qed.

(** One more byte for the same number. *)
Lemma shape_pad init last :
  leb_shape (init ++ [last]) ->
  leb_shape (init ++ [Z.lor last 0x80; 0]) /\ groups (init ++ [Z.lor last 0x80; 0]) = groups (init ++ [last]).
Proof.
  induction init as [|b init IH]; intros Hs.
  - cbn [app]. cbn in Hs. rewrite groups_cons_high by done. split.
    + split; [rewrite lor_high by done; lia|done].
    + cbn [groups]. rewrite (Z.mod_small last), Z.mod_0_l by lia. lia.
  - cbn [app] in *. assert (128 <= b < 256 /\ leb_shape (init ++ [last])) as [Hb Hs'] by (destruct init; exact Hs).
    destruct (IH Hs') as [H1 H2]. split; [by apply shape_cons|]. cbn [groups]. by rewrite H2.
Qed.

Lemma fill_ok pre rest junk : forall c fuel,
  leb_shape c -> (length junk <= fuel)%nat ->
  exists c', fill_space fuel (pre ++ c ++ junk ++ rest) (Z.of_nat (length pre + length c))
               (Z.of_nat (length pre + length c + length junk)) = Ok (pre ++ c' ++ rest) /\
    leb_shape c' /\ groups c' = groups c /\ length c' = (length c + length junk)%nat.
Proof.
  induction junk as [|x junk IH]; intros c fuel Hs Hf; cbn [length] in *.
  { exists c. split; [|split; [done|]; split; [done|lia]]. destruct fuel; cbn [fill_space]; by rewrite (proj2 (Z.ltb_ge _ _)) by lia. }
  destruct fuel as [|fuel]; [lia|]. cbn [fill_space]. rewrite (proj2 (Z.ltb_lt _ _)) by lia.
  destruct (exists_last (l := c)) as (init & last & ->); [by intros ->|].
  replace (pre ++ (init ++ [last]) ++ (x :: junk) ++ rest) with ((pre ++ init) ++ last :: x :: junk ++ rest)
    by (by rewrite <- !app_assoc). rewrite length_app in *. cbn [length] in *.
  rewrite peek_middle by (rewrite length_app; lia). cbn [mbind outcome_bind].
  rewrite poke_middle by (rewrite length_app; lia). cbn [mbind outcome_bind].
  replace ((pre ++ init) ++ Z.lor last 0x80 :: x :: junk ++ rest)
    with ((pre ++ init ++ [Z.lor last 0x80]) ++ x :: junk ++ rest) by (by rewrite <- !app_assoc).
  rewrite poke_middle by (rewrite !length_app; cbn; lia). cbn [mbind outcome_bind].
  replace ((pre ++ init ++ [Z.lor last 0x80]) ++ 0 :: junk ++ rest)
    with (pre ++ (init ++ [Z.lor last 0x80; 0]) ++ junk ++ rest) by (by rewrite <- !app_assoc).
  destruct (shape_pad init last Hs) as [H1 H2].
  destruct (IH (init ++ [Z.lor last 0x80; 0]) fuel H1 ltac:(lia)) as (c' & HF & Hs' & Hg & Hl).
  rewrite length_app in HF, Hl. cbn [length] in HF, Hl. exists c'. split; [|split; [done|]; split; [congruence|lia]].
  rewrite <- HF. f_equal; lia.
Qed.

Lemma minimal_length v n k : 0 <= v < 128 ^ Z.of_nat k -> (1 <= k)%nat -> minimal v n -> (n <= k)%nat.
Proof.
  intros Hv Hk [_ Hn]. destruct (decide (1 < n)%nat) as [H|]; [|lia]. specialize (Hn H).
  assert (Z.of_nat n - 1 < Z.of_nat k); [|lia]. apply (Z.pow_lt_mono_r_iff 128); lia.
Qed.

(** An update keeps the length of the old encoding, and what is read from it
    afterwards is the new value. *)
Lemma update_in_place pre bs rest v :
  leb_shape bs -> (length bs <= 5)%nat -> 0 <= v <= u32 (groups bs) ->
  exists bs', UpdateUnsignedLeb128 (pre ++ bs ++ rest) (Z.of_nat (length pre)) v = Ok (pre ++ bs' ++ rest) /\
    length bs' = length bs /\
    DecodeUnsignedLeb128 (pre ++ bs' ++ rest) (Z.of_nat (length pre)) = Ok (v, Z.of_nat (length pre + length bs)).
Proof.
  intros Hs Hl Hv. pose proof (u32_range (groups bs)). pose proof (groups_range bs) as Hg.
  assert (v < 128 ^ Z.of_nat (length bs)) as Hb.
  { unfold u32 in *. pose proof (Z.mod_le (groups bs) (2 ^ 32)). lia. }
  destruct (ubytes_spec v ltac:(lia)) as (U1 & U2 & U3 & U4).
  assert (length (ubytes v) <= length bs)%nat as Hle.
  { apply (minimal_length v); [lia| |done]. destruct bs; [done|cbn; lia]. }
  unfold UpdateUnsignedLeb128.
  assert (forall c r, drop (Z.to_nat (Z.of_nat (length pre))) (pre ++ c ++ r) = c ++ r) as Hd
    by (intros; by rewrite Nat2Z.id, drop_app_length).
  rewrite (decode_unsigned_ok _ _ bs rest (Nat2Z.is_nonneg _) (Hd _ _) Hs Hl). cbn [mbind outcome_bind].
  unfold EncodeUnsignedLeb128. rewrite land_low7, shiftr_7, encode_unsigned_at_uleb
    by (change (128 ^ Z.of_nat 4) with (2 ^ 28); mlia). fold (ubytes v).
  rewrite poke_all_ok by (rewrite ?length_app; lia). cbn [mbind outcome_bind mret outcome_ret].
  assert (splice (pre ++ bs ++ rest) (Z.to_nat (Z.of_nat (length pre))) (ubytes v) =
          pre ++ ubytes v ++ drop (length (ubytes v)) bs ++ rest) as ->.
  { unfold splice. rewrite Nat2Z.id, take_app_length. do 2 f_equal. rewrite <- drop_drop, drop_app_length.
    by rewrite drop_app_le. }
  destruct (fill_ok pre rest (drop (length (ubytes v)) bs) (ubytes v) 5 U1) as (bs' & HF & F1 & F2 & F3).
  { rewrite length_drop. lia. }
  rewrite length_drop in HF, F3. exists bs'. split; [|split; [lia|]].
  - rewrite <- HF. f_equal; lia.
  - rewrite (decode_unsigned_ok _ _ bs' rest (Nat2Z.is_nonneg _) (Hd _ _) F1) by lia.
    rewrite F2, U2, u32_small by lia. do 2 f_equal. lia.
Qed.

(** ** Results *)

(** Reading as many values as were written, one after the other. *)
Fixpoint decode_all (decode : list Z -> Z -> outcome (Z * Z)) (n : nat) (data : list Z) (ptr : Z) : outcome (list Z * Z) :=
  match n with
  | O => mret ([], ptr)
  | S n =>
      '(v, ptr) ← decode data ptr;
      '(vs, ptr) ← decode_all decode n data ptr;
      mret (v :: vs, ptr)
  end.

Lemma insert_unsigned_ok vs : forall dest, Forall (fun v => 0 <= v < 2 ^ 32) vs ->
  InsertBackUnsigned dest vs = Ok (dest ++ concat (ubytes <$> vs)).
Proof.
  induction vs as [|v vs IH]; intros dest H; cbn [InsertBackUnsigned fmap list_fmap concat]; [by rewrite app_nil_r|].
  apply Forall_cons in H as [Hv H]. rewrite PushBackUnsigned_ok by done. cbn [mbind outcome_bind].
  rewrite IH by done. by rewrite <- app_assoc.
Qed.

Lemma insert_signed_ok vs : forall dest, Forall (fun v => - 2 ^ 31 <= v < 2 ^ 31) vs ->
  InsertBackSigned dest vs = Ok (dest ++ concat (sbytes <$> vs)).
Proof.
  induction vs as [|v vs IH]; intros dest H; cbn [InsertBackSigned fmap list_fmap concat]; [by rewrite app_nil_r|].
  apply Forall_cons in H as [Hv H]. rewrite PushBackSigned_ok by done. cbn [mbind outcome_bind].
  rewrite IH by done. by rewrite <- app_assoc.
Qed.

(** Reading back, for any decoder that reads one value. *)
Lemma decode_all_ok decode (bytes : Z -> list Z) vs :
  (forall v data ptr rest, v ∈ vs -> 0 <= ptr -> drop (Z.to_nat ptr) data = bytes v ++ rest ->
     decode data ptr = Ok (v, ptr + Z.of_nat (length (bytes v)))) ->
  forall data ptr rest, 0 <= ptr -> drop (Z.to_nat ptr) data = concat (bytes <$> vs) ++ rest ->
  decode_all decode (length vs) data ptr = Ok (vs, ptr + Z.of_nat (length (concat (bytes <$> vs)))).
Proof.
  induction vs as [|v vs IH]; intros Hdec data ptr rest Hp Hd; cbn [decode_all length fmap list_fmap concat] in *.
  { by rewrite Z.add_0_r. }
  rewrite <- app_assoc in Hd. rewrite (Hdec v data ptr _ ltac:(by left) Hp Hd). cbn [mbind outcome_bind].
  rewrite (IH (fun v data ptr rest Hv => Hdec v data ptr rest (list_elem_of_further _ _ _ Hv)) data _ rest).
  - cbn. rewrite length_app. do 2 f_equal. lia.
  - lia.
  - replace (Z.to_nat (ptr + Z.of_nat (length (bytes v)))) with (Z.to_nat ptr + length (bytes v))%nat by lia.
    rewrite <- drop_drop, Hd. apply drop_app_length.
Qed.

(** LEB128 round trip: a list of unsigned, or of signed, 32-bit values
    that is appended to a byte vector is read back by the decoder, value by
    value, from where it starts to exactly where it ends, whatever follows it;
    each value takes as many bytes as the size functions say, between one and
    five. *)
Theorem leb128_roundtrip (pre post us ss : list Z) :
  Forall (fun v => 0 <= v < 2 ^ 32) us -> Forall (fun v => - 2 ^ 31 <= v < 2 ^ 31) ss ->
  exists bytes_u bytes_s,
    InsertBackUnsigned pre us = Ok (pre ++ bytes_u) /\
    decode_all DecodeUnsignedLeb128 (length us) (pre ++ bytes_u ++ post) (Z.of_nat (length pre)) =
      Ok (us, Z.of_nat (length pre + length bytes_u)) /\
    InsertBackSigned pre ss = Ok (pre ++ bytes_s) /\
    decode_all DecodeSignedLeb128 (length ss) (pre ++ bytes_s ++ post) (Z.of_nat (length pre)) =
      Ok (ss, Z.of_nat (length pre + length bytes_s)) /\
    length bytes_u = sum_list ((fun v => Z.to_nat (UnsignedLeb128Size v)) <$> us) /\
    length bytes_s = sum_list ((fun v => Z.to_nat (SignedLeb128Size v)) <$> ss) /\
    Forall (fun v => 1 <= UnsignedLeb128Size v <= 5) us /\ Forall (fun v => 1 <= SignedLeb128Size v <= 5) ss.
Proof.
  intros Hu Hs. exists (concat (ubytes <$> us)), (concat (sbytes <$> ss)).
  split_and!.
  - by apply insert_unsigned_ok.
  - rewrite (decode_all_ok _ ubytes us (decode_ubytes us Hu) _ _ post) by (lia || by rewrite Nat2Z.id, drop_app_length).
    do 2 f_equal. lia.
  - by apply insert_signed_ok.
  - rewrite (decode_all_ok _ sbytes ss (decode_sbytes ss Hs) _ _ post) by (lia || by rewrite Nat2Z.id, drop_app_length).
    do 2 f_equal. lia.
  - eapply concat_sizes; [apply ubytes_size|done].
  - eapply concat_sizes; [apply sbytes_size|done].
  - eapply Forall_impl; [exact Hu|]. cbn beta. intros v Hv. rewrite ubytes_size by done. destruct (ubytes_spec v Hv) as (_ & _ & ? & _). lia.
  - eapply Forall_impl; [exact Hs|]. cbn beta. intros v Hv. rewrite sbytes_size by done. destruct (sbytes_spec v Hv) as (_ & ? & _). lia.
Qed.

Lemma leb128_roundtrip_witness :
  exists bytes_u bytes_s,
    InsertBackUnsigned [9] [0; 300; 2 ^ 32 - 1] = Ok ([9] ++ bytes_u) /\
    decode_all DecodeUnsignedLeb128 3 ([9] ++ bytes_u ++ [7]) 1 = Ok ([0; 300; 2 ^ 32 - 1], Z.of_nat (1 + length bytes_u)) /\
    InsertBackSigned [9] [-1; 64; - 2 ^ 31] = Ok ([9] ++ bytes_s) /\
    decode_all DecodeSignedLeb128 3 ([9] ++ bytes_s ++ [7]) 1 = Ok ([-1; 64; - 2 ^ 31], Z.of_nat (1 + length bytes_s)).
Proof.
  destruct (leb128_roundtrip [9] [7] [0; 300; 2 ^ 32 - 1] [-1; 64; - 2 ^ 31]) as (bu & bs & H1 & H2 & H3 & H4 & _).
  - repeat constructor; lia.
  - repeat constructor; lia.
  - exists bu, bs. split; [exact H1|]. split; [exact H2|]. split; [exact H3|exact H4].
Defined.
