(* ===== verification/Utf.v ===== *)
(** * Modified UTF-8: [utf.cc] and [utf-inl.h]

    The strings of dex files and their UTF-16 form.  A [char*] is an index
    into an array of bytes that a zero byte ends; a [char] has no sign, as on
    ARM, and [size_t] has 32 bits. *)

From S2P Require Import Prelude.

(** ** Reading *)

Definition GetTrailingUtf16Char (maybe_pair : Z) : Z := u16 (Z.shiftr maybe_pair 16).

Definition GetLeadingUtf16Char (maybe_pair : Z) : Z := u16 (Z.land maybe_pair 0x0000FFFF).

Definition GetUtf16FromUtf8 (data : list Z) (ptr : Z) : outcome (Z * Z) :=
  one ← peek data ptr;
  if Z.land one 0x80 =? 0 then mret (one, ptr + 1)
  else
    two ← peek data (ptr + 1);
    if Z.land one 0x20 =? 0 then
      mret (Z.lor (Z.shiftl (Z.land one 0x1f) 6) (Z.land two 0x3f), ptr + 2)
    else
      three ← peek data (ptr + 2);
      if Z.land one 0x10 =? 0 then
        mret (Z.lor (Z.lor (Z.shiftl (Z.land one 0x0f) 12) (Z.shiftl (Z.land two 0x3f) 6)) (Z.land three 0x3f), ptr + 3)
      else
        four ← peek data (ptr + 3);
        let code_point :=
          Z.lor (Z.lor (Z.lor (Z.shiftl (Z.land one 0x0f) 18) (Z.shiftl (Z.land two 0x3f) 12))
                       (Z.shiftl (Z.land three 0x3f) 6)) (Z.land four 0x3f) in
        let surrogate_pair := Z.land (Z.shiftr code_point 10 + 0xd7c0) 0xffff in
        let surrogate_pair := Z.lor surrogate_pair (u32 (Z.shiftl (Z.land code_point 0x03ff + 0xdc00) 16)) in
        mret (surrogate_pair, ptr + 4).

(** The loop of [CountModifiedUtf8Chars]; it takes at least one byte a round. *)
Fixpoint count_chars (fuel : nat) (data : list Z) (utf8 len : Z) : outcome Z :=
  match fuel with
  | O => Fault OutOfFuel
  | S fuel =>
      ic ← peek data utf8;
      if ic =? 0 then mret len
      else if Z.land ic 0x80 =? 0 then count_chars fuel data (utf8 + 1) (len + 1)
      else if Z.land ic 0x20 =? 0 then count_chars fuel data (utf8 + 2) (len + 1)
      else if Z.land ic 0x10 =? 0 then count_chars fuel data (utf8 + 3) (len + 1)
      else count_chars fuel data (utf8 + 4) (len + 2)
  end.

Definition CountModifiedUtf8Chars (data : list Z) (utf8 : Z) : outcome Z :=
  count_chars (S (length data)) data utf8 0.

(** What the loop of [ConvertModifiedUtf8ToUtf16] stores, in order. *)
Fixpoint convert_to_utf16 (fuel : nat) (data : list Z) (utf8 : Z) : outcome (list Z) :=
  match fuel with
  | O => Fault OutOfFuel
  | S fuel =>
      b ← peek data utf8;
      if b =? 0 then mret []
      else
        '(ch, utf8) ← GetUtf16FromUtf8 data utf8;
        let leading := GetLeadingUtf16Char ch in
        let trailing := GetTrailingUtf16Char ch in
        rest ← convert_to_utf16 fuel data utf8;
        mret (leading :: (if negb (trailing =? 0) then trailing :: rest else rest))
  end.

Definition ConvertModifiedUtf8ToUtf16 (data : list Z) (utf8 : Z) : outcome (list Z) :=
  convert_to_utf16 (S (length data)) data utf8.

(** ** Writing *)

Definition is_leading (ch : Z) : bool := (0xd800 <=? ch) && (ch <=? 0xdbff).
Definition is_trailing (ch : Z) : bool := (0xdc00 <=? ch) && (ch <=? 0xdfff).

(** The four bytes of a surrogate pair. *)
Definition pair_bytes (ch ch2 : Z) : list Z :=
  let code_point := u32 (Z.shiftl ch 10 + ch2 - 0x035fdc00) in
  [u8 (Z.lor (Z.shiftr code_point 18) 0xf0);
   u8 (Z.lor (Z.land (Z.shiftr code_point 12) 0x3f) 0x80);
   u8 (Z.lor (Z.land (Z.shiftr code_point 6) 0x3f) 0x80);
   u8 (Z.lor (Z.land code_point 0x3f) 0x80)].

(** The bytes of a character on its own. *)
Definition char_bytes (ch : Z) : list Z :=
  if (0 <? ch) && (ch <=? 0x7f) then [u8 ch]
  else if 0x07ff <? ch then
    [u8 (Z.lor (Z.shiftr ch 12) 0xe0);
     u8 (Z.lor (Z.land (Z.shiftr ch 6) 0x3f) 0x80);
     u8 (Z.lor (Z.land ch 0x3f) 0x80)]
  else [u8 (Z.lor (Z.shiftr ch 6) 0xc0); u8 (Z.lor (Z.land ch 0x3f) 0x80)].

(** What [ConvertUtf16ToModifiedUtf8] stores, in order. *)
Fixpoint ConvertUtf16ToModifiedUtf8 (utf16_in : list Z) : list Z :=
  match utf16_in with
  | [] => []
  | ch :: utf16_in =>
      if (0 <? ch) && (ch <=? 0x7f) then char_bytes ch ++ ConvertUtf16ToModifiedUtf8 utf16_in
      else
        match utf16_in with
        | ch2 :: utf16_in2 =>
            if is_leading ch && is_trailing ch2 then pair_bytes ch ch2 ++ ConvertUtf16ToModifiedUtf8 utf16_in2
            else char_bytes ch ++ ConvertUtf16ToModifiedUtf8 utf16_in
        | [] => char_bytes ch
        end
  end.

Fixpoint CountUtf8Bytes (chars : list Z) : Z :=
  match chars with
  | [] => 0
  | ch :: chars =>
      if (0 <? ch) && (ch <=? 0x7f) then 1 + CountUtf8Bytes chars
      else if is_leading ch then
        match chars with
        | ch2 :: chars2 => if is_trailing ch2 then 4 + CountUtf8Bytes chars2 else 3 + CountUtf8Bytes chars
        | [] => 3
        end
      else if 0x7ff <? ch then 3 + CountUtf8Bytes chars
      else 2 + CountUtf8Bytes chars
  end.

(** ** Hashing and comparing *)

Definition ComputeUtf16Hash (chars : list Z) : Z :=
  s32 (foldl (fun hash ch => u32 (hash * 31 + ch)) 0 chars).

Fixpoint utf8_hash (fuel : nat) (data : list Z) (chars hash : Z) : outcome Z :=
  match fuel with
  | O => Fault OutOfFuel
  | S fuel =>
      c ← peek data chars;
      if c =? 0 then mret hash else utf8_hash fuel data (chars + 1) (u32 (hash * 31 + c))
  end.

Definition ComputeModifiedUtf8Hash (data : list Z) (chars : Z) : outcome Z :=
  hash ← utf8_hash (S (length data)) data chars 0;
  mret (u32 (s32 hash)).

(** [CompareModifiedUtf8ToUtf16AsCodePointValues]. *)
Fixpoint compare_utf16 (fuel : nat) (data : list Z) (utf8 : Z) (utf16 : list Z) : outcome Z :=
  match fuel with
  | O => Fault OutOfFuel
  | S fuel =>
      b ← peek data utf8;
      if b =? 0 then mret (match utf16 with [] => 0 | _ => -1 end)
      else
        match utf16 with
        | [] => mret 1
        | rhs :: utf16 =>
            '(maybe_pair, utf8) ← GetUtf16FromUtf8 data utf8;
            let lhs := GetLeadingUtf16Char maybe_pair in
            if negb (lhs =? rhs) then mret (if rhs <? lhs then 1 else -1)
            else
              let lhs2 := GetTrailingUtf16Char maybe_pair in
              if negb (lhs2 =? 0) then
                match utf16 with
                | [] => mret 1
                | rhs2 :: utf16 =>
                    if negb (lhs2 =? rhs2) then mret (if rhs2 <? lhs2 then 1 else -1)
                    else compare_utf16 fuel data utf8 utf16
                end
              else compare_utf16 fuel data utf8 utf16
        end
  end.

Definition CompareModifiedUtf8ToUtf16AsCodePointValues (data : list Z) (utf8 : Z) (utf16 : list Z) : outcome Z :=
  compare_utf16 (S (length data)) data utf8 utf16.

(** [CompareModifiedUtf8ToModifiedUtf8AsUtf16CodePointValues]. *)
Fixpoint compare_utf8 (fuel : nat) (data1 : list Z) (utf8_1 : Z) (data2 : list Z) (utf8_2 : Z) : outcome Z :=
  match fuel with
  | O => Fault OutOfFuel
  | S fuel =>
      c1 ← peek data1 utf8_1;
      c2 ← peek data2 utf8_2;
      if c1 =? 0 then mret (if c2 =? 0 then 0 else -1)
      else if c2 =? 0 then mret 1
      else
        '(c1, utf8_1) ← GetUtf16FromUtf8 data1 utf8_1;
        '(c2, utf8_2) ← GetUtf16FromUtf8 data2 utf8_2;
        if c1 =? c2 then compare_utf8 fuel data1 utf8_1 data2 utf8_2
        else
          let leading_surrogate_diff := u32 (GetLeadingUtf16Char c1 - GetLeadingUtf16Char c2) in
          if negb (leading_surrogate_diff =? 0) then mret (s32 leading_surrogate_diff)
          else mret (GetTrailingUtf16Char c1 - GetTrailingUtf16Char c2)
  end.

Definition CompareModifiedUtf8ToModifiedUtf8AsUtf16CodePointValues (data1 : list Z) (utf8_1 : Z)
    (data2 : list Z) (utf8_2 : Z) : outcome Z :=
  compare_utf8 (S (length data1)) data1 utf8_1 data2 utf8_2.

(** ** Bits *)

(** A property of bytes, checked for all of them. *)
Lemma all_bytes (P : Z -> bool) :
  forallb P (Z.of_nat <$> seq 0 256) = true -> forall b, 0 <= b < 256 -> P b = true.
Proof.
  intros H b Hb. rewrite forallb_forall in H. apply H, list_elem_of_In, list_elem_of_fmap.
  exists (Z.to_nat b). split; [lia|]. apply elem_of_seq. lia.
Qed.

Lemma test_80 b : 0 <= b < 256 -> (Z.land b 0x80 =? 0) = (b <? 128).
Proof. intros Hb. apply eqb_prop. apply (all_bytes (fun b => Bool.eqb (Z.land b 0x80 =? 0) (b <? 128))); [by vm_compute|done]. Qed.

Lemma test_20 b : 192 <= b < 256 -> (Z.land b 0x20 =? 0) = (b <? 224).
Proof.
  intros Hb. apply eqb_prop.
  pose proof (all_bytes (fun b => (b <? 192) || Bool.eqb (Z.land b 0x20 =? 0) (b <? 224)) eq_refl b ltac:(lia)) as H.
  cbn beta in H. rewrite (proj2 (Z.ltb_ge b 192)) in H by lia. exact H.
Qed.

Lemma test_10 b : 224 <= b < 256 -> (Z.land b 0x10 =? 0) = (b <? 240).
Proof.
  intros Hb. apply eqb_prop.
  pose proof (all_bytes (fun b => (b <? 224) || Bool.eqb (Z.land b 0x10 =? 0) (b <? 240)) eq_refl b ltac:(lia)) as H.
  cbn beta in H. rewrite (proj2 (Z.ltb_ge b 224)) in H by lia. exact H.
Qed.

Lemma land_mask x n m : 0 <= n -> m = Z.ones n -> Z.land x m = x mod 2 ^ n.
Proof. intros Hn ->. by apply Z.land_ones. Qed.

Lemma lor_top x top n m : 0 <= n -> 0 <= x < 2 ^ n -> m = Z.shiftl top n -> Z.lor x m = x + top * 2 ^ n.
Proof. intros Hn Hx ->. by apply lor_shiftl_add. Qed.

Lemma u8_small x : 0 <= x < 256 -> u8 x = x.
Proof. apply Z.mod_small. Qed.

(** The bytes of a character. *)
Lemma tail_byte x : u8 (Z.lor (Z.land x 0x3f) 0x80) = 128 + x mod 64.
Proof.
  rewrite (land_mask x 6) by done. change (2 ^ 6) with 64. pose proof (Z.mod_pos_bound x 64).
  rewrite (lor_top _ 2 6) by (done || lia). change (2 * 2 ^ 6) with 128. rewrite u8_small by lia. lia.
Qed.

Lemma char_bytes_cases ch :
  0 <= ch < 2 ^ 16 ->
  (0 < ch <= 127 /\ char_bytes ch = [ch]) \/
  ((ch = 0 \/ 128 <= ch <= 2047) /\ char_bytes ch = [192 + ch / 64; 128 + ch mod 64]) \/
  (2048 <= ch /\ char_bytes ch = [224 + ch / 4096; 128 + (ch / 64) mod 64; 128 + ch mod 64]).
Proof.
  intros Hch. unfold char_bytes. destruct (Z.ltb_spec 0 ch), (Z.leb_spec ch 127); cbn [andb].
  - left. split; [lia|]. by rewrite u8_small by lia.
  - destruct (Z.ltb_spec 2047 ch); right; [right|left]; (split; [lia|]); rewrite !tail_byte, !Z.shiftr_div_pow2 by lia.
    + change (2 ^ 12) with 4096. change (2 ^ 6) with 64. rewrite (lor_top _ 14 4) by (done || mlia).
      change (14 * 2 ^ 4) with 224. rewrite u8_small by mlia. f_equal. lia.
    + change (2 ^ 6) with 64. rewrite (lor_top _ 3 6) by (done || mlia).
      change (3 * 2 ^ 6) with 192. rewrite u8_small by mlia. f_equal. lia.
  - right; left. assert (ch = 0) as -> by lia. split; [by left|]. done.
  - lia.
Qed.

(** The code point of a surrogate pair. *)
Definition code_point (ch ch2 : Z) : Z := 0x10000 + 1024 * (ch - 0xd800) + (ch2 - 0xdc00).

Lemma surrogate_ranges ch ch2 :
  is_leading ch = true -> is_trailing ch2 = true -> 0xd800 <= ch <= 0xdbff /\ 0xdc00 <= ch2 <= 0xdfff.
Proof. unfold is_leading, is_trailing. intros [H1 H2]%andb_prop [H3 H4]%andb_prop. lia. Qed.

Lemma pair_bytes_value ch ch2 :
  is_leading ch = true -> is_trailing ch2 = true ->
  let cp := code_point ch ch2 in
  pair_bytes ch ch2 = [240 + cp / 2 ^ 18; 128 + (cp / 2 ^ 12) mod 64; 128 + (cp / 64) mod 64; 128 + cp mod 64].
Proof.
  intros H1 H2. destruct (surrogate_ranges ch ch2 H1 H2). cbn zeta. unfold pair_bytes, code_point.
  rewrite Z.shiftl_mul_pow2 by lia. change (2 ^ 10) with 1024.
  replace (ch * 1024 + ch2 - 0x035fdc00) with (0x10000 + 1024 * (ch - 0xd800) + (ch2 - 0xdc00)) by lia.
  set (cp := 0x10000 + _ + _). assert (0x10000 <= cp < 0x110000) by (unfold cp; lia).
  rewrite u32_small, !tail_byte, !Z.shiftr_div_pow2 by lia. change (2 ^ 6) with 64.
  rewrite (lor_top _ 15 4) by (done || mlia). change (15 * 2 ^ 4) with 240.
  rewrite u8_small by mlia. f_equal. lia.
Qed.

(** ** Reading back *)

Lemma peek_here data ptr (bs rest : list Z) b :
  0 <= ptr -> drop (Z.to_nat ptr) data = b :: bs ++ rest -> peek data ptr = Ok b.
Proof. intros Hp Hd. rewrite <- (Z.add_0_r ptr). by apply (peek_at data ptr (b :: bs) rest). Qed.

Lemma tail_mod x : (128 + x mod 64) mod 2 ^ 6 = x mod 64.
Proof. change (2 ^ 6) with 64. mlia. Qed.

Lemma read_char data ptr ch rest :
  0 <= ptr -> 0 <= ch < 2 ^ 16 -> drop (Z.to_nat ptr) data = char_bytes ch ++ rest ->
  GetUtf16FromUtf8 data ptr = Ok (ch, ptr + Z.of_nat (length (char_bytes ch))).
Proof.
  intros Hp Hch Hd. unfold GetUtf16FromUtf8.
  destruct (char_bytes_cases ch Hch) as [[H E]|[[H E]|[H E]]]; rewrite E in *; cbn [app length] in *.
  - rewrite (peek_here _ _ [] rest ch Hp Hd). cbn [mbind outcome_bind]. rewrite test_80, (proj2 (Z.ltb_lt _ _)) by lia. done.
  - rewrite (peek_here _ _ [_] rest _ Hp Hd), (peek_at _ _ [_; _] rest 1 _ Hp Hd) by (done || lia).
    cbn [mbind outcome_bind]. rewrite test_80, (proj2 (Z.ltb_ge _ _)) by mlia.
    rewrite test_20, (proj2 (Z.ltb_lt _ _)) by mlia. unfold mret, outcome_ret. do 2 f_equal.
    rewrite (land_mask _ 5 0x1f), (land_mask _ 6 0x3f), tail_mod by done. pose proof (Z.mod_pos_bound ch 64).
    rewrite Z.lor_comm, lor_shiftl_add by lia. change (2 ^ 5) with 32. change (2 ^ 6) with 64. mlia.
  - rewrite (peek_here _ _ [_; _] rest _ Hp Hd), (peek_at _ _ [_; _; _] rest 1 _ Hp Hd),
      (peek_at _ _ [_; _; _] rest 2 _ Hp Hd) by (done || lia).
    cbn [mbind outcome_bind]. rewrite test_80, (proj2 (Z.ltb_ge _ _)) by mlia.
    rewrite test_20, (proj2 (Z.ltb_ge _ _)) by mlia. rewrite test_10, (proj2 (Z.ltb_lt _ _)) by mlia.
    unfold mret, outcome_ret. do 2 f_equal. rewrite (land_mask _ 4 0x0f), !(land_mask _ 6 0x3f), !tail_mod by done.
    pose proof (Z.mod_pos_bound ch 64). pose proof (Z.mod_pos_bound (ch / 64) 64).
    rewrite (Z.lor_comm (Z.shiftl _ 12)), Z.lor_comm, Z.lor_assoc. rewrite (lor_shiftl_add _ _ 6) by lia.
    rewrite (lor_shiftl_add _ _ 12) by lia. change (2 ^ 4) with 16. change (2 ^ 6) with 64. change (2 ^ 12) with 4096. mlia.
Qed.

Lemma lor_groups a b c d :
  0 <= b < 64 -> 0 <= c < 64 -> 0 <= d < 64 ->
  Z.lor (Z.lor (Z.lor (Z.shiftl a 18) (Z.shiftl b 12)) (Z.shiftl c 6)) d = a * 2 ^ 18 + b * 2 ^ 12 + c * 2 ^ 6 + d.
Proof.
  intros Hb Hc Hd. transitivity (Z.lor (Z.lor (Z.lor d (Z.shiftl c 6)) (Z.shiftl b 12)) (Z.shiftl a 18)).
  { apply Z.bits_inj'. intros n _. rewrite !Z.lor_spec. by repeat destruct (Z.testbit _ _). }
  rewrite (lor_shiftl_add d), (lor_shiftl_add _ b 12), (lor_shiftl_add _ a 18) by lia. lia.
Qed.

Lemma read_pair data ptr ch ch2 rest :
  0 <= ptr -> is_leading ch = true -> is_trailing ch2 = true -> drop (Z.to_nat ptr) data = pair_bytes ch ch2 ++ rest ->
  GetUtf16FromUtf8 data ptr = Ok (ch + ch2 * 2 ^ 16, ptr + 4).
Proof.
  intros Hp H1 H2 Hd. destruct (surrogate_ranges ch ch2 H1 H2) as [R1 R2].
  rewrite (pair_bytes_value ch ch2 H1 H2) in Hd. cbn zeta in Hd. unfold GetUtf16FromUtf8.
  set (cp := code_point ch ch2) in *.
  assert (0x10000 <= cp < 0x110000) as Hcp by (unfold cp, code_point; lia).
  assert (cp / 1024 = ch - 0xd7c0 /\ cp mod 1024 = ch2 - 0xdc00) as [Hq Hr] by (unfold cp, code_point; split; mlia).
  clearbody cp. cbn [app] in Hd.
  rewrite (peek_here _ _ [_; _; _] rest _ Hp Hd), (peek_at _ _ [_; _; _; _] rest 1 _ Hp Hd),
    (peek_at _ _ [_; _; _; _] rest 2 _ Hp Hd), (peek_at _ _ [_; _; _; _] rest 3 _ Hp Hd) by (done || lia).
  cbn [mbind outcome_bind]. change (2 ^ 18) with 262144. change (2 ^ 12) with 4096.
  rewrite test_80, (proj2 (Z.ltb_ge _ _)) by mlia. rewrite test_20, (proj2 (Z.ltb_ge _ _)) by mlia.
  rewrite test_10, (proj2 (Z.ltb_ge _ _)) by mlia. unfold mret, outcome_ret. do 2 f_equal.
  rewrite (land_mask _ 4 0x0f) by done. rewrite !(land_mask _ 6 0x3f) by done. rewrite !tail_mod.
  pose proof (Z.mod_pos_bound cp 64). pose proof (Z.mod_pos_bound (cp / 64) 64). pose proof (Z.mod_pos_bound (cp / 4096) 64).
  rewrite lor_groups by lia. change (2 ^ 4) with 16.
  replace ((240 + cp / 262144) mod 16 * 2 ^ 18 + (cp / 4096) mod 64 * 2 ^ 12 + (cp / 64) mod 64 * 2 ^ 6 + cp mod 64) with cp
    by (change (2 ^ 18) with 262144; change (2 ^ 12) with 4096; change (2 ^ 6) with 64; mlia).
  rewrite (land_mask _ 16 0xffff), (land_mask _ 10 0x03ff) by done. rewrite Z.shiftr_div_pow2 by lia. change (2 ^ 10) with 1024.
  rewrite Hq, Hr. replace (ch - 0xd7c0 + 0xd7c0) with ch by lia. replace (ch2 - 0xdc00 + 0xdc00) with ch2 by lia.
  rewrite (Z.mod_small ch), u32_small by (rewrite ?Z.shiftl_mul_pow2 by lia; lia). apply lor_shiftl_add; lia.
Qed.

(** ** Whole strings *)

(** A string begins with a surrogate pair or with a character of its own. *)
Definition paired (us : list Z) : bool :=
  match us with ch :: ch2 :: _ => is_leading ch && is_trailing ch2 | _ => false end.

Lemma utf16_ind (P : list Z -> Prop) :
  P [] ->
  (forall ch ch2 us, is_leading ch = true -> is_trailing ch2 = true -> P us -> P (ch :: ch2 :: us)) ->
  (forall ch us, paired (ch :: us) = false -> P us -> P (ch :: us)) ->
  forall us, P us.
Proof.
  intros H0 H2 H1 us. remember (length us) as n eqn:Hn. revert us Hn.
  induction n as [n IH] using lt_wf_ind. intros [|ch us] Hn; [done|].
  destruct (paired (ch :: us)) eqn:E.
  - destruct us as [|ch2 us]; [done|]. apply andb_prop in E as [E1 E2]. apply H2; try done.
    eapply IH; [|reflexivity]. cbn in Hn. lia.
  - apply H1; [done|]. eapply IH; [|reflexivity]. cbn in Hn. lia.
Qed.

Lemma encode_pair ch ch2 us :
  is_leading ch = true -> is_trailing ch2 = true ->
  ConvertUtf16ToModifiedUtf8 (ch :: ch2 :: us) = pair_bytes ch ch2 ++ ConvertUtf16ToModifiedUtf8 us.
Proof.
  intros H1 H2. destruct (surrogate_ranges ch ch2 H1 H2). cbn [ConvertUtf16ToModifiedUtf8].
  rewrite (proj2 (Z.leb_gt ch 127)), andb_false_r, H1, H2 by lia. done.
Qed.

Lemma encode_char ch us :
  paired (ch :: us) = false ->
  ConvertUtf16ToModifiedUtf8 (ch :: us) = char_bytes ch ++ ConvertUtf16ToModifiedUtf8 us.
Proof.
  intros H. cbn [ConvertUtf16ToModifiedUtf8]. destruct (_ && _); [done|]. destruct us as [|ch2 us]; [by rewrite app_nil_r|].
  cbn in H. by rewrite H.
Qed.

Lemma count_pair ch ch2 us :
  is_leading ch = true -> is_trailing ch2 = true -> CountUtf8Bytes (ch :: ch2 :: us) = 4 + CountUtf8Bytes us.
Proof.
  intros H1 H2. destruct (surrogate_ranges ch ch2 H1 H2). cbn [CountUtf8Bytes].
  by rewrite (proj2 (Z.leb_gt ch 127)), andb_false_r, H1, H2 by lia.
Qed.

Lemma count_char ch us :
  0 <= ch < 2 ^ 16 -> paired (ch :: us) = false ->
  CountUtf8Bytes (ch :: us) = Z.of_nat (length (char_bytes ch)) + CountUtf8Bytes us.
Proof.
  intros Hch H. cbn [CountUtf8Bytes]. unfold char_bytes. destruct ((0 <? ch) && (ch <=? 127)) eqn:E1; [cbn [length]; lia|].
  destruct (is_leading ch) eqn:E2.
  - assert ((0x07ff <? ch) = true) as -> by (unfold is_leading in E2; lia). cbn [length].
    destruct us as [|ch2 us]; [done|]. cbn in H. rewrite E2 in H. cbn in H. by rewrite H.
  - destruct (0x07ff <? ch); cbn [length]; lia.
Qed.

Lemma char_bytes_range ch : 0 <= ch < 2 ^ 16 -> Forall (fun b => 0 < b < 256) (char_bytes ch).
Proof.
  intros Hch. destruct (char_bytes_cases ch Hch) as [[H ->]|[[H ->]|[H ->]]]; repeat constructor; mlia.
Qed.

Lemma pair_bytes_range ch ch2 :
  is_leading ch = true -> is_trailing ch2 = true -> Forall (fun b => 0 < b < 256) (pair_bytes ch ch2).
Proof.
  intros H1 H2. rewrite pair_bytes_value by done. destruct (surrogate_ranges ch ch2 H1 H2). cbn zeta.
  set (cp := code_point ch ch2). assert (0x10000 <= cp < 0x110000) by (unfold cp, code_point; lia).
  change (2 ^ 18) with 262144. change (2 ^ 12) with 4096. repeat constructor; mlia.
Qed.

Lemma utf8_bytes us :
  Forall (fun ch => 0 <= ch < 2 ^ 16) us ->
  Forall (fun b => 0 < b < 256) (ConvertUtf16ToModifiedUtf8 us) /\
  Z.of_nat (length (ConvertUtf16ToModifiedUtf8 us)) = CountUtf8Bytes us.
Proof.
  induction us as [|ch ch2 us H1 H2 IH|ch us H IH] using utf16_ind; intros Hus.
  - done.
  - do 2 apply Forall_cons in Hus as [_ Hus]. destruct (IH Hus) as [I1 I2].
    rewrite encode_pair, count_pair, length_app by done. split; [|cbn [pair_bytes length]; lia].
    apply Forall_app. split; [by apply pair_bytes_range|done].
  - apply Forall_cons in Hus as [Hch Hus]. destruct (IH Hus) as [I1 I2].
    rewrite encode_char, count_char, length_app by done. split; [|lia].
    apply Forall_app. split; [by apply char_bytes_range|done].
Qed.

(** Where a run of bytes ends. *)
(** The first byte of a string that is not empty. *)
Lemma first_byte data ptr (bs rest : list Z) :
  0 <= ptr -> drop (Z.to_nat ptr) data = bs ++ rest -> Forall (fun b => 0 < b < 256) bs -> bs <> [] ->
  exists b, peek data ptr = Ok b /\ 0 < b < 256.
Proof.
  intros Hp Hd Hb Hne. destruct bs as [|b bs]; [done|]. exists b. split; [by eapply peek_here|]. by apply Forall_inv in Hb.
Qed.

Lemma leading_value ch ch2 :
  0 <= ch < 2 ^ 16 -> 0 <= ch2 < 2 ^ 16 ->
  GetLeadingUtf16Char (ch + ch2 * 2 ^ 16) = ch /\ GetTrailingUtf16Char (ch + ch2 * 2 ^ 16) = ch2.
Proof.
  intros H1 H2. unfold GetLeadingUtf16Char, GetTrailingUtf16Char, u16. rewrite (land_mask _ 16 0x0000FFFF) by done.
  rewrite Z.shiftr_div_pow2 by lia. change (2 ^ 16) with 65536 in *. split; mlia.
Qed.

Lemma leading_char ch : 0 <= ch < 2 ^ 16 -> GetLeadingUtf16Char ch = ch /\ GetTrailingUtf16Char ch = 0.
Proof. intros H. pose proof (leading_value ch 0 H ltac:(lia)) as HL. by rewrite Z.mul_0_l, Z.add_0_r in HL. Qed.

(** The steps of a reader through an encoded string: what it sees where a
    character starts. *)
Lemma pair_step data ptr ch ch2 rest :
  0 <= ptr -> is_leading ch = true -> is_trailing ch2 = true -> drop (Z.to_nat ptr) data = pair_bytes ch ch2 ++ rest ->
  (exists b, peek data ptr = Ok b /\ 240 <= b < 256) /\
  GetUtf16FromUtf8 data ptr = Ok (ch + ch2 * 2 ^ 16, ptr + 4) /\ drop (Z.to_nat (ptr + 4)) data = rest.
Proof.
  intros Hp H1 H2 Hd. split; [|split; [by eapply read_pair|by apply (drop_next data ptr (pair_bytes ch ch2))]].
  rewrite pair_bytes_value in Hd by done. cbn zeta in Hd. eexists. split; [by eapply peek_here|].
  destruct (surrogate_ranges ch ch2 H1 H2). unfold code_point. change (2 ^ 18) with 262144. mlia.
Qed.

Lemma char_step data ptr ch rest :
  0 <= ptr -> 0 <= ch < 2 ^ 16 -> drop (Z.to_nat ptr) data = char_bytes ch ++ rest ->
  exists b n, peek data ptr = Ok b /\ n = Z.of_nat (length (char_bytes ch)) /\
    ((0 < b < 128 /\ n = 1) \/ (192 <= b < 224 /\ n = 2) \/ (224 <= b < 240 /\ n = 3)) /\
    GetUtf16FromUtf8 data ptr = Ok (ch, ptr + n) /\ drop (Z.to_nat (ptr + n)) data = rest.
Proof.
  intros Hp Hch Hd. pose proof (read_char data ptr ch rest Hp Hch Hd) as HR.
  pose proof (drop_next data ptr _ _ Hp Hd) as HN.
  destruct (char_bytes_cases ch Hch) as [[H E]|[[H E]|[H E]]]; rewrite E in *; eexists _, _;
    (split; [by eapply peek_here|]); (split; [reflexivity|]); (split; [cbn; mlia|done]).
Qed.

Section Reading.
Context (data tail : list Z).

Lemma convert_ok us : forall fuel ptr,
  Forall (fun ch => 0 <= ch < 2 ^ 16) us -> 0 <= ptr -> (length us < fuel)%nat ->
  drop (Z.to_nat ptr) data = ConvertUtf16ToModifiedUtf8 us ++ 0 :: tail ->
  convert_to_utf16 fuel data ptr = Ok us.
Proof.
  induction us as [|ch ch2 us H1 H2 IH|ch us H IH] using utf16_ind; intros fuel ptr Hus Hp Hf Hd;
    (destruct fuel as [|fuel]; [cbn in Hf; lia|]); cbn [convert_to_utf16].
  - by rewrite (peek_here data ptr [] tail 0 Hp Hd).
  - apply Forall_cons in Hus as [Hc1 [Hc2 Hus]%Forall_cons]. rewrite encode_pair, <- app_assoc in Hd by done.
    destruct (pair_step data ptr ch ch2 _ Hp H1 H2 Hd) as ((b & -> & Hb) & -> & Hd'). cbn [mbind outcome_bind].
    rewrite (proj2 (Z.eqb_neq b 0)) by lia. destruct (leading_value ch ch2 Hc1 Hc2) as [-> ->].
    rewrite (IH fuel (ptr + 4)) by (done || (cbn in Hf; lia)). cbn [mbind outcome_bind].
    destruct (surrogate_ranges ch ch2 H1 H2). rewrite (proj2 (Z.eqb_neq ch2 0)) by lia. done.
  - apply Forall_cons in Hus as [Hch Hus]. rewrite encode_char, <- app_assoc in Hd by done.
    destruct (char_step data ptr ch _ Hp Hch Hd) as (b & n & -> & Hn & Hb & -> & Hd'). cbn [mbind outcome_bind].
    rewrite (proj2 (Z.eqb_neq b 0)) by lia. destruct (leading_char ch Hch) as [-> ->].
    rewrite (IH fuel (ptr + n)) by (done || (cbn in Hf; lia)). done.
Qed.

Lemma count_ok us : forall fuel ptr len,
  Forall (fun ch => 0 <= ch < 2 ^ 16) us -> 0 <= ptr -> (length us < fuel)%nat ->
  drop (Z.to_nat ptr) data = ConvertUtf16ToModifiedUtf8 us ++ 0 :: tail ->
  count_chars fuel data ptr len = Ok (len + Z.of_nat (length us)).
Proof.
  induction us as [|ch ch2 us H1 H2 IH|ch us H IH] using utf16_ind; intros fuel ptr len Hus Hp Hf Hd;
    (destruct fuel as [|fuel]; [cbn in Hf; lia|]); cbn [count_chars].
  - rewrite (peek_here data ptr [] tail 0 Hp Hd). cbn. by rewrite Z.add_0_r.
  - apply Forall_cons in Hus as [Hc1 [Hc2 Hus]%Forall_cons]. rewrite encode_pair, <- app_assoc in Hd by done.
    destruct (pair_step data ptr ch ch2 _ Hp H1 H2 Hd) as ((b & -> & Hb) & _ & Hd'). cbn [mbind outcome_bind].
    rewrite (proj2 (Z.eqb_neq b 0)) by lia. rewrite test_80, (proj2 (Z.ltb_ge _ _)) by lia.
    rewrite test_20, (proj2 (Z.ltb_ge _ _)) by lia. rewrite test_10, (proj2 (Z.ltb_ge _ _)) by lia.
    rewrite IH by (done || (cbn in Hf; lia)). cbn [length]. f_equal. lia.
  - apply Forall_cons in Hus as [Hch Hus]. rewrite encode_char, <- app_assoc in Hd by done.
    destruct (char_step data ptr ch _ Hp Hch Hd) as (b & n & -> & _ & Hb & _ & Hd'). cbn [mbind outcome_bind].
    rewrite (proj2 (Z.eqb_neq b 0)) by lia.
    assert (count_chars fuel data (ptr + n) (len + 1) = Ok (len + Z.of_nat (length (ch :: us)))) as HC.
    { rewrite IH by (done || (cbn in Hf; lia)). cbn [length]. f_equal. lia. }
    destruct Hb as [[Hb ->]|[[Hb ->]|[Hb ->]]].
    + by rewrite test_80, (proj2 (Z.ltb_lt _ _)) by lia.
    + rewrite test_80, (proj2 (Z.ltb_ge _ _)) by lia. by rewrite test_20, (proj2 (Z.ltb_lt _ _)) by lia.
    + rewrite test_80, (proj2 (Z.ltb_ge _ _)) by lia. rewrite test_20, (proj2 (Z.ltb_ge _ _)) by lia.
      by rewrite test_10, (proj2 (Z.ltb_lt _ _)) by lia.
Qed.

(** Lexicographic order of strings of 16-bit units. *)
Fixpoint lex (us vs : list Z) : Z :=
  match us, vs with
  | [], [] => 0
  | [], _ => -1
  | _, [] => 1
  | u :: us, v :: vs => if u =? v then lex us vs else if v <? u then 1 else -1
  end.

Lemma compare_ok us : forall fuel ptr vs,
  Forall (fun ch => 0 <= ch < 2 ^ 16) us -> 0 <= ptr -> (length us < fuel)%nat ->
  drop (Z.to_nat ptr) data = ConvertUtf16ToModifiedUtf8 us ++ 0 :: tail ->
  compare_utf16 fuel data ptr vs = Ok (lex us vs).
Proof.
  induction us as [|ch ch2 us H1 H2 IH|ch us H IH] using utf16_ind; intros fuel ptr vs Hus Hp Hf Hd;
    (destruct fuel as [|fuel]; [cbn in Hf; lia|]); cbn [compare_utf16].
  - rewrite (peek_here data ptr [] tail 0 Hp Hd). by destruct vs.
  - apply Forall_cons in Hus as [Hc1 [Hc2 Hus]%Forall_cons]. rewrite encode_pair, <- app_assoc in Hd by done.
    destruct (pair_step data ptr ch ch2 _ Hp H1 H2 Hd) as ((b & -> & Hb) & -> & Hd'). cbn [mbind outcome_bind].
    rewrite (proj2 (Z.eqb_neq b 0)) by lia. destruct vs as [|v vs]; [done|].
    destruct (leading_value ch ch2 Hc1 Hc2) as [-> ->]. cbn [lex]. destruct (ch =? v); cbn [negb]; [|done].
    destruct (surrogate_ranges ch ch2 H1 H2). rewrite (proj2 (Z.eqb_neq ch2 0)) by lia. cbn [negb].
    destruct vs as [|v2 vs]; [done|]. destruct (ch2 =? v2); cbn [negb]; [|done].
    apply IH; (done || (cbn in Hf; lia)).
  - apply Forall_cons in Hus as [Hch Hus]. rewrite encode_char, <- app_assoc in Hd by done.
    destruct (char_step data ptr ch _ Hp Hch Hd) as (b & n & -> & Hn & Hb & -> & Hd'). cbn [mbind outcome_bind].
    rewrite (proj2 (Z.eqb_neq b 0)) by lia. destruct vs as [|v vs]; [done|]. destruct (leading_char ch Hch) as [-> ->].
    cbn [lex]. destruct (ch =? v); cbn [negb]; [|done]. apply IH; (done || (cbn in Hf; lia)).
Qed.

End Reading.

(** ** Results *)

(** C40. Every UTF-16 string, unpaired surrogates and zeros included, survives
    the conversion to modified UTF-8 and back: the encoding has no zero byte
    and exactly the length that was counted for it; reading it up to the zero
    that ends it gives the string again and counts its units; and comparing it
    with another string gives the lexicographic order of their units. *)
Theorem utf_roundtrip (us vs tail : list Z) :
  Forall (fun ch => 0 <= ch < 2 ^ 16) us ->
  let bytes := ConvertUtf16ToModifiedUtf8 us in
  Forall (fun b => 0 < b < 256) bytes /\ Z.of_nat (length bytes) = CountUtf8Bytes us /\
  ConvertModifiedUtf8ToUtf16 (bytes ++ 0 :: tail) 0 = Ok us /\
  CountModifiedUtf8Chars (bytes ++ 0 :: tail) 0 = Ok (Z.of_nat (length us)) /\
  CompareModifiedUtf8ToUtf16AsCodePointValues (bytes ++ 0 :: tail) 0 vs = Ok (lex us vs).
Proof.
  intros Hus. cbn zeta. destruct (utf8_bytes us Hus) as [Hb Hl]. split; [done|]. split; [done|].
  assert (length us < S (length (ConvertUtf16ToModifiedUtf8 us ++ 0%Z :: tail)))%nat as Hf.
  { rewrite length_app. cbn. assert (length us <= length (ConvertUtf16ToModifiedUtf8 us))%nat; [|lia].
    clear. induction us as [|ch ch2 us H1 H2 IH|ch us H IH] using utf16_ind; [done|..].
    - rewrite encode_pair, length_app by done. cbn [pair_bytes length]. lia.
    - rewrite encode_char, length_app by done. unfold char_bytes. destruct (_ && _); [cbn; lia|].
      destruct (_ <? _); cbn [length]; lia. }
  split_and!.
  - by apply (convert_ok _ tail).
  - unfold CountModifiedUtf8Chars. by rewrite (count_ok _ tail us).
  - by apply (compare_ok _ tail).
Qed.

Lemma utf_roundtrip_witness :
  ConvertModifiedUtf8ToUtf16 (ConvertUtf16ToModifiedUtf8 [0x61; 0; 0xd83d; 0xde00; 0xd800] ++ [0]) 0 =
    Ok [0x61; 0; 0xd83d; 0xde00; 0xd800] /\
  Z.of_nat (length (ConvertUtf16ToModifiedUtf8 [0x61; 0; 0xd83d; 0xde00; 0xd800])) =
    CountUtf8Bytes [0x61; 0; 0xd83d; 0xde00; 0xd800].
Proof.
  destruct (utf_roundtrip [0x61; 0; 0xd83d; 0xde00; 0xd800] [] []) as (_ & H1 & H2 & _).
  - repeat constructor; lia.
  - split; [exact H2|exact H1].
Defined.
