(* ===== verification/ClassData.v ===== *)
(** * Class data of a dex file: [ClassDataItemIterator] of [dex_file.h]

    A class data item is a sequence of unsigned LEB128 numbers: the sizes of
    the four member arrays, then the members, each with the difference of its
    index to the one before it in its array.  [data] is the memory of the dex
    file, a pointer into it an index, and 0 the null pointer (offset 0 is the
    header of the file and never a class data item).  The result is that what
    was encoded is visited. *)

From S2P Require Import Prelude ArtObjects Leb128.

Record ClassDataHeader := mkClassDataHeader {
  static_fields_size_ : Z;
  instance_fields_size_ : Z;
  direct_methods_size_ : Z;
  virtual_methods_size_ : Z;
}.

Record ClassDataField := mkClassDataField { field_idx_delta_ : Z; cdf_access_flags_ : Z }.

Record ClassDataMethod := mkClassDataMethod {
  method_idx_delta_ : Z;
  cdm_access_flags_ : Z;
  code_off_ : Z;
}.

Record ClassDataItemIterator := mkClassDataItemIterator {
  header_ : ClassDataHeader;
  field_ : ClassDataField;
  method_ : ClassDataMethod;
  pos_ : Z;
  ptr_pos_ : Z;
  last_idx_ : Z;
}.

Definition set_header (h : ClassDataHeader) (it : ClassDataItemIterator) : ClassDataItemIterator :=
  mkClassDataItemIterator h (field_ it) (method_ it) (pos_ it) (ptr_pos_ it) (last_idx_ it).
Definition set_field (f : ClassDataField) (it : ClassDataItemIterator) : ClassDataItemIterator :=
  mkClassDataItemIterator (header_ it) f (method_ it) (pos_ it) (ptr_pos_ it) (last_idx_ it).
Definition set_method (m : ClassDataMethod) (it : ClassDataItemIterator) : ClassDataItemIterator :=
  mkClassDataItemIterator (header_ it) (field_ it) m (pos_ it) (ptr_pos_ it) (last_idx_ it).
Definition set_pos (p : Z) (it : ClassDataItemIterator) : ClassDataItemIterator :=
  mkClassDataItemIterator (header_ it) (field_ it) (method_ it) p (ptr_pos_ it) (last_idx_ it).
Definition set_ptr (p : Z) (it : ClassDataItemIterator) : ClassDataItemIterator :=
  mkClassDataItemIterator (header_ it) (field_ it) (method_ it) (pos_ it) p (last_idx_ it).
Definition set_last (x : Z) (it : ClassDataItemIterator) : ClassDataItemIterator :=
  mkClassDataItemIterator (header_ it) (field_ it) (method_ it) (pos_ it) (ptr_pos_ it) x.

(** ** Positions *)

Definition NumStaticFields (it : ClassDataItemIterator) : Z := static_fields_size_ (header_ it).
Definition NumInstanceFields (it : ClassDataItemIterator) : Z := instance_fields_size_ (header_ it).
Definition NumDirectMethods (it : ClassDataItemIterator) : Z := direct_methods_size_ (header_ it).
Definition NumVirtualMethods (it : ClassDataItemIterator) : Z := virtual_methods_size_ (header_ it).

Definition EndOfStaticFieldsPos (it : ClassDataItemIterator) : Z := static_fields_size_ (header_ it).
Definition EndOfInstanceFieldsPos (it : ClassDataItemIterator) : Z :=
  u32 (EndOfStaticFieldsPos it + instance_fields_size_ (header_ it)).
Definition EndOfDirectMethodsPos (it : ClassDataItemIterator) : Z :=
  u32 (EndOfInstanceFieldsPos it + direct_methods_size_ (header_ it)).
Definition EndOfVirtualMethodsPos (it : ClassDataItemIterator) : Z :=
  u32 (EndOfDirectMethodsPos it + virtual_methods_size_ (header_ it)).

Definition HasNextStaticField (it : ClassDataItemIterator) : bool := pos_ it <? EndOfStaticFieldsPos it.
Definition HasNextInstanceField (it : ClassDataItemIterator) : bool :=
  (EndOfStaticFieldsPos it <=? pos_ it) && (pos_ it <? EndOfInstanceFieldsPos it).
Definition HasNextDirectMethod (it : ClassDataItemIterator) : bool :=
  (EndOfInstanceFieldsPos it <=? pos_ it) && (pos_ it <? EndOfDirectMethodsPos it).
Definition HasNextVirtualMethod (it : ClassDataItemIterator) : bool :=
  (EndOfDirectMethodsPos it <=? pos_ it) && (pos_ it <? EndOfVirtualMethodsPos it).
Definition HasNext (it : ClassDataItemIterator) : bool := pos_ it <? EndOfVirtualMethodsPos it.

(** ** Reading; the warnings about duplicate members are not modelled *)

Definition read_uleb (data : list Z) (it : ClassDataItemIterator) : outcome (Z * ClassDataItemIterator) :=
  '(v, ptr) ← DecodeUnsignedLeb128 data (ptr_pos_ it);
  mret (v, set_ptr ptr it).

Definition ReadClassDataHeader (data : list Z) (it : ClassDataItemIterator) : outcome ClassDataItemIterator :=
  check (negb (ptr_pos_ it =? 0)) ;;
  '(s, it) ← read_uleb data it;
  '(i, it) ← read_uleb data it;
  '(d, it) ← read_uleb data it;
  '(v, it) ← read_uleb data it;
  mret (set_header (mkClassDataHeader s i d v) it).

Definition ReadClassDataField (data : list Z) (it : ClassDataItemIterator) : outcome ClassDataItemIterator :=
  '(delta, it) ← read_uleb data it;
  '(flags, it) ← read_uleb data it;
  mret (set_field (mkClassDataField delta flags) it).

Definition ReadClassDataMethod (data : list Z) (it : ClassDataItemIterator) : outcome ClassDataItemIterator :=
  '(delta, it) ← read_uleb data it;
  '(flags, it) ← read_uleb data it;
  '(off, it) ← read_uleb data it;
  mret (set_method (mkClassDataMethod delta flags off) it).

(** The constructor. *)
Definition ClassDataItemIterator_new (data : list Z) (raw_class_data_item : Z) : outcome ClassDataItemIterator :=
  it ← ReadClassDataHeader data
         (mkClassDataItemIterator (mkClassDataHeader 0 0 0 0) (mkClassDataField 0 0)
            (mkClassDataMethod 0 0 0) 0 raw_class_data_item 0);
  if 0 <? EndOfInstanceFieldsPos it then ReadClassDataField data it
  else if 0 <? EndOfVirtualMethodsPos it then ReadClassDataMethod data it
  else mret it.

(** ** The current member *)

Definition GetMemberIndex (it : ClassDataItemIterator) : Z :=
  if pos_ it <? EndOfInstanceFieldsPos it then u32 (last_idx_ it + field_idx_delta_ (field_ it))
  else u32 (last_idx_ it + method_idx_delta_ (method_ it)).

Definition GetRawMemberAccessFlags (it : ClassDataItemIterator) : Z :=
  if pos_ it <? EndOfInstanceFieldsPos it then cdf_access_flags_ (field_ it) else cdm_access_flags_ (method_ it).

Definition GetFieldAccessFlags (it : ClassDataItemIterator) : Z :=
  Z.land (GetRawMemberAccessFlags it) kAccValidFieldFlags.
Definition GetMethodAccessFlags (it : ClassDataItemIterator) : Z :=
  Z.land (GetRawMemberAccessFlags it) kAccValidMethodFlags.
Definition MemberIsNative (it : ClassDataItemIterator) : bool :=
  negb (Z.land (GetRawMemberAccessFlags it) kAccNative =? 0).
Definition MemberIsFinal (it : ClassDataItemIterator) : bool :=
  negb (Z.land (GetRawMemberAccessFlags it) kAccFinal =? 0).

(** [invoke_type.h]. *)
Inductive InvokeType := kStatic | kDirect | kVirtual | kSuper | kInterface.

Definition GetMethodInvokeType (class_access_flags : Z) (it : ClassDataItemIterator) : InvokeType :=
  if HasNextDirectMethod it then
    if negb (Z.land (GetRawMemberAccessFlags it) kAccStatic =? 0) then kStatic else kDirect
  else if negb (Z.land class_access_flags kAccInterface =? 0) then kInterface
  else if negb (Z.land (GetRawMemberAccessFlags it) kAccConstructor =? 0) then kSuper
  else kVirtual.

Definition GetMethodCodeItemOffset (it : ClassDataItemIterator) : Z := code_off_ (method_ it).

Definition EndDataPointer (it : ClassDataItemIterator) : outcome Z :=
  check (negb (HasNext it)) ;; mret (ptr_pos_ it).

(** ** Advancing *)

Definition Next (data : list Z) (it : ClassDataItemIterator) : outcome ClassDataItemIterator :=
  let it := set_pos (pos_ it + 1) it in
  if pos_ it <? EndOfStaticFieldsPos it then
    ReadClassDataField data (set_last (GetMemberIndex it) it)
  else if (pos_ it =? EndOfStaticFieldsPos it) && (0 <? NumInstanceFields it) then
    ReadClassDataField data (set_last 0 it)
  else if pos_ it <? EndOfInstanceFieldsPos it then
    ReadClassDataField data (set_last (GetMemberIndex it) it)
  else if (pos_ it =? EndOfInstanceFieldsPos it) && (0 <? NumDirectMethods it) then
    ReadClassDataMethod data (set_last 0 it)
  else if pos_ it <? EndOfDirectMethodsPos it then
    ReadClassDataMethod data (set_last (GetMemberIndex it) it)
  else if (pos_ it =? EndOfDirectMethodsPos it) && (0 <? NumVirtualMethods it) then
    ReadClassDataMethod data (set_last 0 it)
  else if pos_ it <? EndOfVirtualMethodsPos it then
    ReadClassDataMethod data (set_last (GetMemberIndex it) it)
  else mret it.

(** ** What is encoded

    The members of a class, as they are listed in the dex file: static fields,
    instance fields, direct methods, virtual methods. *)

Record Member := mkMember { m_idx : Z; m_flags : Z; m_code : Z }.

Record Layout := mkLayout { ly_static : nat; ly_instance : nat; ly_direct : nat; ly_virtual : nat }.

Definition ly_fields (ly : Layout) : nat := (ly_static ly + ly_instance ly)%nat.
Definition ly_methods (ly : Layout) : nat := (ly_fields ly + ly_direct ly)%nat.
Definition ly_total (ly : Layout) : nat := (ly_methods ly + ly_virtual ly)%nat.

(** The position of a member that starts its array. *)
Definition starts_array (ly : Layout) (p : nat) : bool :=
  bool_decide (p ∈ [0%nat; ly_static ly; ly_fields ly; ly_methods ly]).

(** The index a member's difference is taken from. *)
Definition base_idx (ly : Layout) (ms : list Member) (p : nat) : Z :=
  if starts_array ly p then 0 else from_option m_idx 0 (ms !! pred p).

Definition member_numbers (ly : Layout) (ms : list Member) (p : nat) (m : Member) : list Z :=
  [m_idx m - base_idx ly ms p; m_flags m] ++ if (p <? ly_fields ly)%nat then [] else [m_code m].

Fixpoint numbers_from (ly : Layout) (ms : list Member) (p : nat) (l : list Member) : list Z :=
  match l with
  | [] => []
  | m :: l => member_numbers ly ms p m ++ numbers_from ly ms (S p) l
  end.

Definition header_numbers (ly : Layout) : list Z :=
  Z.of_nat <$> [ly_static ly; ly_instance ly; ly_direct ly; ly_virtual ly].

Definition class_numbers (ly : Layout) (ms : list Member) : list Z :=
  header_numbers ly ++ numbers_from ly ms 0 ms.

Definition class_bytes (ly : Layout) (ms : list Member) : list Z := concat (ubytes <$> class_numbers ly ms).

(** Members are sorted by index within their array, and numbers fit 32 bits. *)
Record members_wf (ly : Layout) (ms : list Member) : Prop := {
  mw_length : length ms = ly_total ly;
  mw_total : Z.of_nat (ly_total ly) < 2 ^ 32;
  mw_idx : forall p m, ms !! p = Some m -> 0 <= base_idx ly ms p <= m_idx m /\ m_idx m < 2 ^ 32;
  mw_flags : forall p m, ms !! p = Some m -> 0 <= m_flags m < 2 ^ 32;
  mw_code : forall p m, ms !! p = Some m -> 0 <= m_code m < 2 ^ 32;
}.

(** ** Reading what was encoded *)

#[local] Arguments ubytes : simpl never.

Definition word (v : Z) : Prop := 0 <= v < 2 ^ 32.

Definition rest_at (data : list Z) (it : ClassDataItemIterator) (tail : list Z) : Prop :=
  0 <= ptr_pos_ it /\ drop (Z.to_nat (ptr_pos_ it)) data = tail.

Lemma read_uleb_ok data it v tail :
  word v -> rest_at data it (ubytes v ++ tail) ->
  exists ptr, read_uleb data it = Ok (v, set_ptr ptr it) /\ rest_at data (set_ptr ptr it) tail.
Proof.
  intros Hv [Hp Hd]. exists (ptr_pos_ it + Z.of_nat (length (ubytes v))). unfold read_uleb.
  rewrite (decode_ubytes [v] ltac:(by constructor) v _ _ tail) by (done || by left).
  cbn [mbind outcome_bind]. split; [done|].
  split; cbn [ptr_pos_ set_ptr]; [lia|].
  replace (Z.to_nat (ptr_pos_ it + Z.of_nat (length (ubytes v)))) with (Z.to_nat (ptr_pos_ it) + length (ubytes v))%nat by lia.
  by rewrite <- drop_drop, Hd, drop_app_length.
Qed.

(** What a read leaves unchanged, up to the pointer. *)
Ltac read_step H :=
  let p := fresh "p" in let E := fresh "E" in
  let H' := fresh "H'" in
  edestruct read_uleb_ok as (p & E & H'); [|exact H|]; [eassumption|]; clear H; rename H' into H;
  rewrite E; clear E; cbn [mbind outcome_bind].

Lemma read_field_ok data it a b tail :
  word a -> word b -> rest_at data it (ubytes a ++ ubytes b ++ tail) ->
  exists ptr, ReadClassDataField data it = Ok (set_field (mkClassDataField a b) (set_ptr ptr it)) /\
    rest_at data (set_ptr ptr it) tail.
Proof.
  intros Ha Hb H. unfold ReadClassDataField. read_step H. read_step H. eexists. split; [reflexivity|exact H].
Qed.

Lemma read_method_ok data it a b c tail :
  word a -> word b -> word c -> rest_at data it (ubytes a ++ ubytes b ++ ubytes c ++ tail) ->
  exists ptr, ReadClassDataMethod data it = Ok (set_method (mkClassDataMethod a b c) (set_ptr ptr it)) /\
    rest_at data (set_ptr ptr it) tail.
Proof.
  intros Ha Hb Hc H. unfold ReadClassDataMethod. do 3 read_step H. eexists. split; [reflexivity|exact H].
Qed.

Lemma read_header_ok data it s i d v tail :
  ptr_pos_ it <> 0 -> word s -> word i -> word d -> word v ->
  rest_at data it (ubytes s ++ ubytes i ++ ubytes d ++ ubytes v ++ tail) ->
  exists ptr, ReadClassDataHeader data it = Ok (set_header (mkClassDataHeader s i d v) (set_ptr ptr it)) /\
    rest_at data (set_ptr ptr it) tail.
Proof.
  intros Hn Hs Hi Hd Hv H. unfold ReadClassDataHeader. rewrite (proj2 (Z.eqb_neq _ _) Hn).
  cbn [negb check mbind outcome_bind]. do 4 read_step H. eexists. split; [reflexivity|exact H].
Qed.

Section Members.
Context (ly : Layout) (ms : list Member) (Hwf : members_wf ly ms).
Context (data rest : list Z).

(** The iterator is at position [p]: the member there is decoded, and what
    follows it is next. *)
Record at_pos (p : nat) (it : ClassDataItemIterator) : Prop := {
  ap_header : header_ it = mkClassDataHeader (Z.of_nat (ly_static ly)) (Z.of_nat (ly_instance ly))
                             (Z.of_nat (ly_direct ly)) (Z.of_nat (ly_virtual ly));
  ap_pos : pos_ it = Z.of_nat p;
  ap_rest : rest_at data it (concat (ubytes <$> numbers_from ly ms (S p) (drop (S p) ms)) ++ rest);
  ap_last : forall m, ms !! p = Some m -> last_idx_ it = base_idx ly ms p;
  ap_member : forall m, ms !! p = Some m ->
    if (p <? ly_fields ly)%nat then field_ it = mkClassDataField (m_idx m - base_idx ly ms p) (m_flags m)
    else method_ it = mkClassDataMethod (m_idx m - base_idx ly ms p) (m_flags m) (m_code m);
}.

Lemma at_ends p it : at_pos p it ->
  EndOfStaticFieldsPos it = Z.of_nat (ly_static ly) /\ EndOfInstanceFieldsPos it = Z.of_nat (ly_fields ly) /\
  EndOfDirectMethodsPos it = Z.of_nat (ly_methods ly) /\ EndOfVirtualMethodsPos it = Z.of_nat (ly_total ly).
Proof using Hwf.
  intros H. pose proof (mw_total _ _ Hwf). unfold ly_total, ly_methods, ly_fields in *.
  unfold EndOfVirtualMethodsPos, EndOfDirectMethodsPos, EndOfInstanceFieldsPos, EndOfStaticFieldsPos.
  rewrite (ap_header _ _ H). cbn [static_fields_size_ instance_fields_size_ direct_methods_size_ virtual_methods_size_].
  rewrite !u32_small by (rewrite ?u32_small; lia). lia.
Qed.

Lemma numbers_at p m : ms !! p = Some m ->
  numbers_from ly ms p (drop p ms) = member_numbers ly ms p m ++ numbers_from ly ms (S p) (drop (S p) ms).
Proof. intros Hm. by rewrite (drop_S _ _ _ Hm). Qed.

Lemma member_words p m : ms !! p = Some m ->
  word (m_idx m - base_idx ly ms p) /\ word (m_flags m) /\ word (m_code m).
Proof using Hwf.
  intros Hm. pose proof (mw_idx _ _ Hwf p m Hm). pose proof (mw_flags _ _ Hwf p m Hm). pose proof (mw_code _ _ Hwf p m Hm).
  unfold word. lia.
Qed.

(** Reading the member at [p] with the base index of [p]. *)
Lemma read_at p m it :
  ms !! p = Some m -> header_ it = mkClassDataHeader (Z.of_nat (ly_static ly)) (Z.of_nat (ly_instance ly))
                             (Z.of_nat (ly_direct ly)) (Z.of_nat (ly_virtual ly)) ->
  pos_ it = Z.of_nat p -> last_idx_ it = base_idx ly ms p ->
  rest_at data it (concat (ubytes <$> numbers_from ly ms p (drop p ms)) ++ rest) ->
  exists it', (if (p <? ly_fields ly)%nat then ReadClassDataField data it else ReadClassDataMethod data it) = Ok it' /\
    at_pos p it'.
Proof using Hwf.
  intros Hm Hh Hp Hl Hr. destruct (member_words p m Hm) as (W1 & W2 & W3).
  rewrite (numbers_at p m Hm) in Hr. unfold member_numbers in Hr.
  destruct (Nat.ltb_spec p (ly_fields ly)) as [Hf|Hf]; cbn [app fmap list_fmap concat] in Hr; rewrite <- !app_assoc in Hr.
  - destruct (read_field_ok _ _ _ _ _ W1 W2 Hr) as (ptr & -> & Hr'). eexists. split; [done|].
    constructor; cbn [header_ field_ method_ pos_ last_idx_ set_field set_method set_ptr]; [done..|]. intros m' Hm'. simplify_eq. by rewrite (proj2 (Nat.ltb_lt _ _) Hf).
  - destruct (read_method_ok _ _ _ _ _ _ W1 W2 W3 Hr) as (ptr & -> & Hr'). eexists. split; [done|].
    constructor; cbn [header_ field_ method_ pos_ last_idx_ set_field set_method set_ptr]; [done..|]. intros m' Hm'. simplify_eq. by rewrite (proj2 (Nat.ltb_ge _ _) Hf).
Qed.

Lemma at_member p it m : at_pos p it -> ms !! p = Some m ->
  GetMemberIndex it = m_idx m /\ GetRawMemberAccessFlags it = m_flags m /\
  ((ly_fields ly <= p)%nat -> GetMethodCodeItemOffset it = m_code m).
Proof using Hwf.
  intros H Hm. pose proof (ap_last _ _ H m Hm) as Hl. pose proof (ap_member _ _ H m Hm) as Hc.
  destruct (at_ends _ _ H) as (_ & E2 & _). pose proof (mw_idx _ _ Hwf p m Hm).
  unfold GetMemberIndex, GetRawMemberAccessFlags, GetMethodCodeItemOffset. rewrite E2, (ap_pos _ _ H), Hl.
  destruct (Nat.ltb_spec p (ly_fields ly)) as [Hf|Hf].
  - rewrite (proj2 (Z.ltb_lt _ _)) by lia. rewrite Hc. cbn. rewrite u32_small by lia. split_and!; lia.
  - rewrite (proj2 (Z.ltb_ge _ _)) by lia. rewrite Hc. cbn. rewrite u32_small by lia. split_and!; lia.
Qed.

Lemma starts_array_spec p : starts_array ly p = true <->
  p = 0%nat \/ p = ly_static ly \/ p = ly_fields ly \/ p = ly_methods ly.
Proof. unfold starts_array. rewrite bool_decide_eq_true, !elem_of_cons, elem_of_nil. tauto. Qed.

(** The base index the code keeps for the next member: the current index in
    the middle of an array, 0 at the start of one. *)
Lemma base_next p m : ms !! p = Some m ->
  base_idx ly ms (S p) = if starts_array ly (S p) then 0 else m_idx m.
Proof. intros Hm. unfold base_idx. destruct (starts_array ly (S p)); [done|]. cbn [pred]. by rewrite Hm. Qed.

(** Moving the position within one kind of member does not change the index. *)
Lemma index_moved p it : at_pos p it -> (S p < ly_fields ly \/ ly_fields ly <= p)%nat ->
  GetMemberIndex (set_pos (pos_ it + 1) it) = GetMemberIndex it.
Proof using Hwf.
  intros H Hp. destruct (at_ends _ _ H) as (_ & E2 & _). unfold GetMemberIndex.
  change (EndOfInstanceFieldsPos (set_pos (pos_ it + 1) it)) with (EndOfInstanceFieldsPos it).
  cbn [pos_ set_pos last_idx_ field_ method_]. rewrite E2, (ap_pos _ _ H).
  destruct (Z.ltb_spec (Z.of_nat p + 1) (Z.of_nat (ly_fields ly))), (Z.ltb_spec (Z.of_nat p) (Z.of_nat (ly_fields ly))); (done || lia).
Qed.

(** Which branch [Next] takes. *)
Lemma Next_dispatch p it m : at_pos p it -> ms !! p = Some m ->
  Next data it =
    let it' := set_pos (pos_ it + 1) it in
    if (S p <? ly_total ly)%nat then
      let it' := set_last (base_idx ly ms (S p)) it' in
      if (S p <? ly_fields ly)%nat then ReadClassDataField data it' else ReadClassDataMethod data it'
    else Ok it'.
Proof using Hwf.
  intros H Hm. destruct (at_ends _ _ H) as (E1 & E2 & E3 & E4). destruct (at_member p it m H Hm) as (Hidx & _).
  pose proof (ap_pos _ _ H) as Hpos. pose proof (ap_header _ _ H) as Hh.
  pose proof (index_moved p it H) as Hmove. rewrite Hidx in Hmove. rewrite (base_next p m Hm).
  pose proof (starts_array_spec (S p)) as Hs.
  assert (Hs' : if starts_array ly (S p)
                then S p = ly_static ly \/ S p = ly_fields ly \/ S p = ly_methods ly
                else S p <> ly_static ly /\ S p <> ly_fields ly /\ S p <> ly_methods ly).
  { destruct (starts_array ly (S p)); [|intuition congruence]. destruct (proj1 Hs eq_refl) as [?|?]; [lia|done]. }
  clear Hs. unfold Next. cbv zeta.
  set (it' := set_pos (pos_ it + 1) it) in *.
  change (EndOfStaticFieldsPos it') with (EndOfStaticFieldsPos it).
  change (EndOfInstanceFieldsPos it') with (EndOfInstanceFieldsPos it).
  change (EndOfDirectMethodsPos it') with (EndOfDirectMethodsPos it).
  change (EndOfVirtualMethodsPos it') with (EndOfVirtualMethodsPos it).
  replace (pos_ it') with (Z.of_nat (S p)) by (cbn; lia).
  unfold NumInstanceFields, NumDirectMethods, NumVirtualMethods. replace (header_ it') with (header_ it) by done.
  rewrite Hh, E1, E2, E3, E4. cbn [instance_fields_size_ direct_methods_size_ virtual_methods_size_].
  unfold ly_total, ly_methods, ly_fields in *.
  destruct (starts_array ly (S p));
  repeat match goal with
  | |- context [Z.ltb ?a ?b] => destruct (Z.ltb_spec a b); try lia
  | |- context [Z.eqb ?a ?b] => destruct (Z.eqb_spec a b); try lia
  | |- context [Nat.ltb ?a ?b] => destruct (Nat.ltb_spec a b); try lia
  | |- context [andb _ _] => cbn [andb]
  end; rewrite ?Hmove by lia; done.
Qed.

Lemma Next_at p it : at_pos p it -> (p < ly_total ly)%nat -> exists it', Next data it = Ok it' /\ at_pos (S p) it'.
Proof using Hwf.
  intros H Hp. destruct (lookup_lt_is_Some_2 ms p) as [m Hm]; [by rewrite (mw_length _ _ Hwf)|].
  rewrite (Next_dispatch p it m H Hm). cbv zeta. pose proof (ap_pos _ _ H) as Hpos.
  destruct (Nat.ltb_spec (S p) (ly_total ly)) as [Hlt|Hge].
  - destruct (lookup_lt_is_Some_2 ms (S p)) as [m' Hm']; [by rewrite (mw_length _ _ Hwf)|].
    apply (read_at (S p) m' _ Hm'); [apply (ap_header _ _ H)|cbn; lia|done|apply (ap_rest _ _ H)].
  - pose proof (mw_length _ _ Hwf). eexists. split; [done|]. constructor.
    + apply (ap_header _ _ H).
    + cbn. lia.
    + pose proof (ap_rest _ _ H) as Hr. rewrite drop_ge in Hr |- * by lia. exact Hr.
    + intros m' Hm'. apply lookup_lt_Some in Hm'. lia.
    + intros m' Hm'. apply lookup_lt_Some in Hm'. lia.
Qed.

(** The constructor leaves the iterator at the first member. *)
Lemma new_at ptr :
  0 < ptr -> drop (Z.to_nat ptr) data = class_bytes ly ms ++ rest ->
  exists it, ClassDataItemIterator_new data ptr = Ok it /\ at_pos 0 it.
Proof using Hwf.
  intros Hp Hd. pose proof (mw_total _ _ Hwf) as Ht. pose proof (mw_length _ _ Hwf) as Hlen.
  unfold ClassDataItemIterator_new. set (it0 := mkClassDataItemIterator _ _ _ _ _ _).
  destruct (read_header_ok data it0 (Z.of_nat (ly_static ly)) (Z.of_nat (ly_instance ly)) (Z.of_nat (ly_direct ly))
              (Z.of_nat (ly_virtual ly)) (concat (ubytes <$> numbers_from ly ms 0 ms) ++ rest)) as (q & E & Hr);
    try (unfold word, ly_total, ly_methods, ly_fields in *; cbn [it0 ptr_pos_]; lia).
  { split; cbn [it0 ptr_pos_]; [lia|]. rewrite Hd. unfold class_bytes, class_numbers. rewrite fmap_app, concat_app.
    cbn [header_numbers fmap list_fmap concat]. by rewrite app_nil_r, <- !app_assoc. }
  rewrite E. cbn [mbind outcome_bind]. set (it1 := set_header _ _).
  assert (E2 : EndOfInstanceFieldsPos it1 = Z.of_nat (ly_fields ly)).
  { unfold EndOfInstanceFieldsPos, EndOfStaticFieldsPos. cbn. unfold ly_total, ly_methods, ly_fields in *.
    rewrite u32_small; lia. }
  assert (E4 : EndOfVirtualMethodsPos it1 = Z.of_nat (ly_total ly)).
  { unfold EndOfVirtualMethodsPos, EndOfDirectMethodsPos. rewrite E2. cbn. unfold ly_total, ly_methods, ly_fields in *.
    rewrite !u32_small by (rewrite ?u32_small; lia). lia. }
  rewrite E2, E4. destruct (decide (ly_total ly = 0%nat)) as [Hz|Hz].
  - rewrite !(proj2 (Z.ltb_ge _ _)) by (unfold ly_total, ly_methods in *; lia). exists it1. split; [done|].
    assert (Hnil : ms = []) by (apply nil_length_inv; lia). constructor; [done|done| | |].
    + rewrite Hnil in Hr |- *. exact Hr.
    + intros m. by rewrite Hnil.
    + intros m. by rewrite Hnil.
  - destruct (lookup_lt_is_Some_2 ms 0) as [m Hm]; [lia|]. rewrite (proj2 (Z.ltb_lt _ (Z.of_nat (ly_total ly)))) by lia.
    destruct (read_at 0 m it1 Hm) as (it' & E' & Hat); [done..| |exact Hr|].
    { unfold base_idx. by rewrite (proj2 (starts_array_spec 0)) by lia. }
    exists it'. split; [|exact Hat]. rewrite <- E'.
    destruct (Nat.ltb_spec 0 (ly_fields ly)), (Z.ltb_spec 0 (Z.of_nat (ly_fields ly))); (done || lia).
Qed.

End Members.

(** ** Results *)

(** What a client reads of the current member; a field has no code. *)
Definition current_member (it : ClassDataItemIterator) : Member :=
  mkMember (GetMemberIndex it) (GetRawMemberAccessFlags it)
    (if HasNextStaticField it || HasNextInstanceField it then 0 else GetMethodCodeItemOffset it).

(** [for (; it.HasNext(); it.Next())], with the pointer at the end. *)
Fixpoint visit_members (fuel : nat) (data : list Z) (it : ClassDataItemIterator) : outcome (list Member * Z) :=
  if HasNext it then
    match fuel with
    | O => Fault OutOfFuel
    | S fuel =>
        let m := current_member it in
        it ← Next data it;
        '(ms, ptr) ← visit_members fuel data it;
        mret (m :: ms, ptr)
    end
  else ptr ← EndDataPointer it; mret ([], ptr).

Definition fields_without_code (ly : Layout) (ms : list Member) : Prop :=
  forall p m, ms !! p = Some m -> (p < ly_fields ly)%nat -> m_code m = 0.

Lemma current_member_at ly ms data rest p it m :
  members_wf ly ms -> fields_without_code ly ms -> at_pos ly ms data rest p it -> ms !! p = Some m ->
  current_member it = m.
Proof.
  intros Hwf Hf H Hm. destruct (at_member ly ms Hwf data rest p it m H Hm) as (H1 & H2 & H3).
  destruct (at_ends ly ms Hwf data rest p it H) as (E1 & E2 & E3 & E4). pose proof (ap_pos _ _ _ _ _ _ H) as Hpos.
  unfold current_member, HasNextStaticField, HasNextInstanceField. rewrite H1, H2, E1, E2, Hpos.
  assert (ly_static ly <= ly_fields ly)%nat by (unfold ly_fields; lia).
  destruct m as [idx fl code]. cbn [m_idx m_flags] in *. f_equal.
  destruct (Nat.ltb_spec p (ly_fields ly)) as [Hp|Hp].
  - pose proof (Hf _ _ Hm Hp) as Hc. cbn in Hc. subst code. destruct (Z.ltb_spec (Z.of_nat p) (Z.of_nat (ly_static ly))); [done|].
    rewrite (proj2 (Z.leb_le _ _)), (proj2 (Z.ltb_lt _ _)) by lia. done.
  - rewrite !(proj2 (Z.ltb_ge _ _)), andb_false_r by lia. cbn. by apply H3.
Qed.

Lemma visit_ok ly ms data rest fuel :
  members_wf ly ms -> fields_without_code ly ms -> forall p it,
  at_pos ly ms data rest p it -> (p <= ly_total ly)%nat -> (ly_total ly - p <= fuel)%nat ->
  exists ptr, visit_members fuel data it = Ok (drop p ms, ptr) /\ 0 <= ptr /\ drop (Z.to_nat ptr) data = rest.
Proof.
  intros Hwf Hf. induction fuel as [|fuel IH]; intros p it H Hp Hfuel;
    destruct (at_ends ly ms Hwf data rest p it H) as (E1 & E2 & E3 & E4);
    pose proof (ap_pos _ _ _ _ _ _ H) as Hpos; pose proof (mw_length _ _ Hwf) as Hlen;
    cbn [visit_members]; unfold HasNext; rewrite E4, Hpos.
  - rewrite (proj2 (Z.ltb_ge _ _)) by lia. unfold EndDataPointer, HasNext. rewrite E4, Hpos, (proj2 (Z.ltb_ge _ _)) by lia.
    destruct (ap_rest _ _ _ _ _ _ H) as [? Hr]. rewrite drop_ge in Hr |- * by lia. by exists (ptr_pos_ it).
  - destruct (Z.ltb_spec (Z.of_nat p) (Z.of_nat (ly_total ly))) as [Hlt|Hge].
    + destruct (Next_at ly ms Hwf data rest p it H) as (it' & -> & H'); [lia|]. cbn [mbind outcome_bind].
      destruct (IH (S p) it' H') as (ptr & -> & Hptr); [lia..|]. cbn [mbind outcome_bind].
      destruct (lookup_lt_is_Some_2 ms p) as [m Hm]; [lia|].
      rewrite (current_member_at _ _ _ _ _ _ m Hwf Hf H Hm). exists ptr. by rewrite (drop_S _ _ _ Hm).
    + unfold EndDataPointer, HasNext. rewrite E4, Hpos, (proj2 (Z.ltb_ge _ _)) by lia.
      destruct (ap_rest _ _ _ _ _ _ H) as [? Hr]. rewrite drop_ge in Hr |- * by lia. by exists (ptr_pos_ it).
Qed.

Lemma class_words ly ms : members_wf ly ms -> Forall word (class_numbers ly ms).
Proof.
  intros Hwf. apply Forall_app. split.
  - pose proof (mw_total _ _ Hwf). unfold word, ly_total, ly_methods, ly_fields in *. repeat constructor; cbn; lia.
  - assert (forall l p, drop p ms = l -> Forall word (numbers_from ly ms p l)) as H; [|by apply H].
    induction l as [|m l IH]; intros p Hl; cbn [numbers_from]; [constructor|].
    assert (Hm : ms !! p = Some m) by (rewrite <- (Nat.add_0_r p), <- lookup_drop, Hl; done).
    destruct (member_words ly ms Hwf p m Hm) as (W1 & W2 & W3). apply Forall_app. split.
    + unfold member_numbers. destruct (p <? ly_fields ly)%nat; cbn [app]; repeat first [apply Forall_nil_2 | apply Forall_cons_2; [done|]].
    + apply IH. rewrite (drop_S _ _ _ Hm) in Hl. by simplify_eq.
Qed.

(** Class data round trip: the class data item of a list of members,
    written number by number with the LEB128 encoder, is visited by the
    iterator member by member, each with its index, its access flags and its
    code offset, in the order of the four arrays and whatever the sizes of
    these; the iterator stops after the last member and its end pointer is the
    end of the item. *)
Theorem class_data_roundtrip ly ms pre post :
  members_wf ly ms -> fields_without_code ly ms -> pre <> [] ->
  exists bytes it ptr,
    InsertBackUnsigned pre (class_numbers ly ms) = Ok (pre ++ bytes) /\
    ClassDataItemIterator_new (pre ++ bytes ++ post) (Z.of_nat (length pre)) = Ok it /\
    visit_members (ly_total ly) (pre ++ bytes ++ post) it = Ok (ms, ptr) /\
    drop (Z.to_nat ptr) (pre ++ bytes ++ post) = post.
Proof.
  intros Hwf Hf Hpre. assert (0 < length pre)%nat by (destruct pre; [done|cbn; lia]).
  destruct (new_at ly ms Hwf (pre ++ class_bytes ly ms ++ post) post (Z.of_nat (length pre))) as (it & E & Hat); [lia| |].
  { by rewrite Nat2Z.id, drop_app_length. }
  destruct (visit_ok ly ms _ post (ly_total ly) Hwf Hf 0%nat it Hat) as (ptr & Ev & Hptr); [lia..|].
  exists (class_bytes ly ms), it, ptr. split; [by apply insert_unsigned_ok, class_words|].
  split; [exact E|]. split; [exact Ev|]. apply Hptr.
Qed.

(** A class with one static field, no instance field, a constructor and a
    native method, and one virtual method. *)
Definition demo_layout : Layout := mkLayout 1 0 2 1.
Definition demo_members : list Member :=
  [mkMember 7 kAccStatic 0; mkMember 300 kAccConstructor 4096; mkMember 301 kAccNative 0; mkMember 5 kAccPublic 70000].

Lemma demo_members_wf : members_wf demo_layout demo_members /\ fields_without_code demo_layout demo_members.
Proof.
  split; [constructor; [done|done|..]|]; intros p m Hm.
  all: do 4 (destruct p as [|p]; [cbn in Hm; simplify_eq;
         try (intros Hp; unfold ly_fields in Hp; cbn in Hp; lia); vm_compute; repeat split; done|]).
  all: done.
Qed.

Lemma class_data_roundtrip_witness :
  exists bytes it ptr,
    InsertBackUnsigned [1] (class_numbers demo_layout demo_members) = Ok ([1] ++ bytes) /\
    ClassDataItemIterator_new ([1] ++ bytes ++ [9]) 1 = Ok it /\
    visit_members 4 ([1] ++ bytes ++ [9]) it = Ok (demo_members, ptr) /\
    drop (Z.to_nat ptr) ([1] ++ bytes ++ [9]) = [9].
Proof.
  destruct demo_members_wf as [H1 H2].
  destruct (class_data_roundtrip demo_layout demo_members [1] [9] H1 H2) as (bytes & it & ptr & H); [done|].
  exists bytes, it, ptr. exact H.
Defined.
