(* ===== verification/ClassLoading.v ===== *)
(** * Loading and linking the members of a class: [class_linker.cc]

    The part of class loading that decides where a method runs: the members
    are read from the class data of the dex file ([LoadClassMembers]), each
    method gets its entry points ([LinkCode]) according to the code the oat
    file has and to the instrumentation, the tail of [DefineClass] installs
    stubs and lets the tracer mark the class, and initialization replaces the
    entry points of static methods ([FixupStaticTrampolines]).  Field offsets,
    which [DefineClass] computes in between, are in [FieldLayout]; super classes
    and method tables are not modelled. *)

From S2P Require Import Prelude ArtObjects Instrumentation MiniTraceClasses Leb128 ClassData.

(** ** State *)

(** [entry_point_from_jni_] of a native method. *)
Inductive JniCode := JniDlsymLookupStub | NativeFunction (addr : Z).

(** The heap and the code cache, two more words of every method (its JNI entry
    point and [method_index_]), and what the linear allocator will return for
    the next requests. *)
Record LoadState := mkLoad {
  ld_code : CodeState;
  ld_jni : gmap Z JniCode;
  ld_index : gmap Z Z;
  ld_alloc : list Z;
}.

Record MethodId := mkMethodId { mi_name : string; mi_signature : string; mi_shorty : string }.

(** What class loading reads and does not change: the dex files (their memory,
    where the class data of a class is, and the strings of their fields and
    methods), the oat classes, and the state of the runtime. *)
Record LoadEnv := mkLoadEnv {
  le_memory : Z -> list Z;
  le_class_data : Z -> Z;
  le_field_id : Z -> Z -> string * string;
  le_method_id : Z -> Z -> MethodId;
  le_source_file : Z -> string;
  le_class_def : Z -> bool;
  le_class_loader : Z -> Z;
  le_oat_class : Z -> option (Z -> QuickCode);
  le_is_aot_compiler : bool;
  le_has_image_space : bool;
  le_method_size : Z;
}.

Definition sizeof_ArtField : Z := 16.

Definition code_op {A} (m : M CodeState A) : M LoadState A := fun s =>
  match m (ld_code s) with
  | Ok (a, c) => Ok (a, mkLoad c (ld_jni s) (ld_index s) (ld_alloc s))
  | Fault f => Fault f
  end.

Definition on_heap {A} (m : M Heap A) : M LoadState A := code_op (fun c =>
  match m (cs_heap c) with Ok (a, h) => Ok (a, mkCodeState h (cs_jit c)) | Fault f => Fault f end).

Definition set_jni (p : Z) (c : JniCode) : M LoadState unit :=
  modify (fun s => mkLoad (ld_code s) (<[p := c]> (ld_jni s)) (ld_index s) (ld_alloc s)).

(** The argument is a [uint16_t]. *)
Definition SetMethodIndex (p new_method_index : Z) : M LoadState unit :=
  modify (fun s => mkLoad (ld_code s) (ld_jni s) (<[p := u16 new_method_index]> (ld_index s)) (ld_alloc s)).

(** ** Allocation *)

(** [LinearAlloc::Alloc]: 0 when there is no memory. *)
Definition linear_alloc : M LoadState Z := fun s =>
  match ld_alloc s with
  | [] => Ok (0, s)
  | a :: l => Ok (a, mkLoad (ld_code s) (ld_jni s) (ld_index s) l)
  end.

(** The addresses of the elements of an array. *)
Definition elements (base size n : Z) : list Z :=
  (fun i => base + size * Z.of_nat i) <$> seq 0 (Z.to_nat n).

Definition AllocArtFieldArray (length : Z) : M LoadState Z :=
  ptr ← linear_alloc;
  checkM (negb (ptr =? 0)) ;;
  on_heap (forM (elements ptr sizeof_ArtField length)
             (fun p => store_field p (mkArtField 0 0 EmptyString EmptyString 0 0))) ;;
  mret ptr.

Definition AllocArtMethodArray (le : LoadEnv) (length : Z) : M LoadState Z :=
  ptr ← linear_alloc;
  checkM (negb (ptr =? 0)) ;;
  on_heap (forM (elements ptr (le_method_size le) length)
             (fun p => store_method p
                (mkArtMethod 0 0 0 0 EmptyString EmptyString EmptyString EmptyString NullEntry NullCode))) ;;
  mret ptr.

(** ** Native methods: [art_method.cc] *)

Definition IsFastNative (m : ArtMethod) : bool :=
  let mask := Z.lor kAccFastNative kAccNative in Z.land (am_access_flags m) mask =? mask.

(** [native_method] is not null. *)
Definition RegisterNative (p : Z) (native_method : JniCode) (is_fast : bool) : M LoadState unit :=
  m ← code_op (get_method p);
  checkM (IsNative m) ;;
  checkM (negb (IsFastNative m)) ;;
  whenM is_fast (code_op (put_method p (method_set_flags (Z.lor (am_access_flags m) kAccFastNative) m))) ;;
  set_jni p native_method.

Definition UnregisterNative (p : Z) : M LoadState unit :=
  m ← code_op (get_method p);
  checkM (IsNative m && negb (IsFastNative m)) ;;
  RegisterNative p JniDlsymLookupStub false.

(** ** Linking *)

Definition NeedsInterpreter (i : Instrumentation) (h : Heap) (m : ArtMethod) (quick_code : QuickCode) : outcome bool :=
  if bool_decide (quick_code = NullCode) then mret true
  else if InterpretOnly i && negb (IsNative m)
  then (proxy ← IsProxyMethod h m; mret (negb proxy))
  else mret false.

(** [method->Set...(...)]. *)
Definition update_method (p : Z) (f : ArtMethod -> ArtMethod) : M LoadState unit :=
  m ← code_op (get_method p); code_op (put_method p (f m)).

Definition LinkCode (le : LoadEnv) (i : Instrumentation) (p : Z) (oat_class : option (Z -> QuickCode))
  (class_def_method_index : Z) : M LoadState unit :=
  if le_is_aot_compiler le then mret tt
  else
    (match oat_class with
     | Some oat_method => update_method p (method_set_quick (oat_method class_def_method_index))
     | None => mret tt
     end : M LoadState unit) ;;
    m ← code_op (get_method p);
    h ← gets (fun s => cs_heap (ld_code s));
    enter_interpreter ← lift (S := LoadState) (NeedsInterpreter i h m (am_entry_quick m));
    update_method p (method_set_interpreter
      (if (enter_interpreter : bool) && negb (IsNative m) then artInterpreterToInterpreterBridge
       else artInterpreterToCompiledCodeBridge)) ;;
    if IsAbstract m then update_method p (method_set_quick QuickToInterpreterBridge)
    else
      (if IsStatic m && negb (IsConstructor m) then update_method p (method_set_quick QuickResolutionStub)
       else if (enter_interpreter : bool) then
         update_method p (method_set_quick
           (if negb (IsNative m) then QuickToInterpreterBridge else QuickGenericJniStub))
       else mret tt) ;;
      whenM (IsNative m) (UnregisterNative p).

(** ** Loading *)

Definition LoadField (le : LoadEnv) (it : ClassDataItemIterator) (klass dst : Z) : M LoadState unit :=
  let field_idx := GetMemberIndex it in
  c ← on_heap (load h_classes klass);
  f ← on_heap (load h_fields dst);
  let id := le_field_id le (mc_dex_file c) field_idx in
  on_heap (store_field dst (mkArtField klass (GetFieldAccessFlags it) id.1 id.2 field_idx (af_offset f))).

Definition SetFinalizable (klass : Z) : M LoadState unit :=
  c ← on_heap (load h_classes klass);
  on_heap (store_class klass (class_set_flags (Z.lor (mc_access_flags c) kAccClassIsFinalizable) c)).

(** The method's short cuts to the arrays of the dex cache and the warnings
    about odd names are not modelled. *)
Definition LoadMethod (le : LoadEnv) (it : ClassDataItemIterator) (klass dst : Z) : M LoadState unit :=
  let dex_method_idx := GetMemberIndex it in
  c ← on_heap (load h_classes klass);
  let id := le_method_id le (mc_dex_file c) dex_method_idx in
  let method_name := mi_name id in
  let access_flags := GetMethodAccessFlags it in
  access_flags ←
    (if bool_decide (method_name = "finalize"%string) then
       whenM (bool_decide (mi_shorty id = "V"%string))
         (if negb (le_class_loader le klass =? 0) then SetFinalizable klass
          else whenM (negb (bool_decide (mc_descriptor c = "Ljava/lang/Object;"%string)) &&
                      negb (bool_decide (mc_descriptor c = "Ljava/lang/Enum;"%string)))
                 (SetFinalizable klass)) ;;
       mret access_flags
     else if String.prefix "<" method_name then
       let is_init := bool_decide (method_name = "<init>"%string) in
       let is_clinit := negb is_init && bool_decide (method_name = "<clinit>"%string) in
       if negb is_init && negb is_clinit then mret access_flags
       else if Z.land access_flags kAccConstructor =? 0 then mret (Z.lor access_flags kAccConstructor)
       else mret access_flags
     else mret access_flags);
  update_method dst (fun m =>
    mkArtMethod klass access_flags (GetMethodCodeItemOffset it) dex_method_idx (mi_name id) (mi_signature id)
      (mi_shorty id) (le_source_file le klass) (am_entry_interpreter m) (am_entry_quick m)).

(** A loop [for (i = ...; has(it); i++, it.Next())] that carries local
    variables. *)
Fixpoint for_members {V} (fuel : nat) (has : ClassDataItemIterator -> bool)
  (body : Z -> ClassDataItemIterator -> V -> M LoadState V) (data : list Z) (i : Z)
  (it : ClassDataItemIterator) (v : V) : M LoadState (ClassDataItemIterator * V) :=
  if has it then
    match fuel with
    | O => lift (Fault OutOfFuel)
    | S fuel =>
        v ← body i it v;
        it ← lift (Next data it);
        for_members fuel has body data (i + 1) it v
    end
  else mret (it, v).

Definition set_class_fields (sfields ifields : option (list Z)) (c : Class_) : Class_ :=
  mkClass (mc_status c) (mc_access_flags c) (mc_component_type c) (mc_primitive_type c) (mc_descriptor c)
    (mc_dex_file c) (mc_direct_methods c) (mc_virtual_methods c)
    (default (mc_ifields c) ifields) (default (mc_sfields c) sfields).

Definition set_class_methods (direct virtual : list Z) (c : Class_) : Class_ :=
  mkClass (mc_status c) (mc_access_flags c) (mc_component_type c) (mc_primitive_type c) (mc_descriptor c)
    (mc_dex_file c) direct virtual (mc_ifields c) (mc_sfields c).

Definition update_class (klass : Z) (f : Class_ -> Class_) : M LoadState unit :=
  c ← on_heap (load h_classes klass); on_heap (store_class klass (f c)).

(** The local variables of the loop over direct methods. *)
Record MethodLocals := mkMethodLocals {
  class_def_method_index : Z;
  last_dex_method_index : Z;
  last_class_def_method_index : Z;
}.

Definition load_field_body (le : LoadEnv) (klass num fields : Z) (i : Z) (it : ClassDataItemIterator) (v : unit)
  : M LoadState unit :=
  checkM (i <? num) ;; LoadField le it klass (fields + sizeof_ArtField * i).

Definition load_direct_body (le : LoadEnv) (ins : Instrumentation) (klass : Z) (oat_class : option (Z -> QuickCode))
  (direct_methods i : Z) (it : ClassDataItemIterator) (v : MethodLocals) : M LoadState MethodLocals :=
  let method := direct_methods + le_method_size le * i in
  LoadMethod le it klass method ;;
  LinkCode le ins method oat_class (class_def_method_index v) ;;
  let it_method_index := GetMemberIndex it in
  if last_dex_method_index v =? it_method_index then
    SetMethodIndex method (last_class_def_method_index v) ;;
    mret (mkMethodLocals (class_def_method_index v + 1) (last_dex_method_index v) (last_class_def_method_index v))
  else
    SetMethodIndex method (class_def_method_index v) ;;
    mret (mkMethodLocals (class_def_method_index v + 1) it_method_index (class_def_method_index v)).

Definition load_virtual_body (le : LoadEnv) (ins : Instrumentation) (klass : Z) (oat_class : option (Z -> QuickCode))
  (virtual_methods i : Z) (it : ClassDataItemIterator) (v : MethodLocals) : M LoadState MethodLocals :=
  let method := virtual_methods + le_method_size le * i in
  LoadMethod le it klass method ;;
  LinkCode le ins method oat_class (class_def_method_index v) ;;
  mret (mkMethodLocals (class_def_method_index v + 1) (last_dex_method_index v) (last_class_def_method_index v)).

Definition LoadClassMembers (le : LoadEnv) (ins : Instrumentation) (data : list Z) (class_data klass : Z)
  (oat_class : option (Z -> QuickCode)) : M LoadState unit :=
  it ← lift (ClassDataItemIterator_new data class_data);
  let fuel := Z.to_nat (EndOfVirtualMethodsPos it) in
  let num_sfields := NumStaticFields it in
  sfields ← (if negb (num_sfields =? 0) then AllocArtFieldArray num_sfields else mret 0);
  '(it, _) ← for_members fuel HasNextStaticField (load_field_body le klass num_sfields sfields) data 0 it tt;
  update_class klass (set_class_fields (Some (elements sfields sizeof_ArtField num_sfields)) None) ;;
  let num_ifields := NumInstanceFields it in
  ifields ← (if negb (num_ifields =? 0) then AllocArtFieldArray num_ifields else mret 0);
  '(it, _) ← for_members fuel HasNextInstanceField (load_field_body le klass num_ifields ifields) data 0 it tt;
  update_class klass (set_class_fields None (Some (elements ifields sizeof_ArtField num_ifields))) ;;
  direct_methods ← (if negb (NumDirectMethods it =? 0) then AllocArtMethodArray le (NumDirectMethods it) else mret 0);
  virtual_methods ← (if negb (NumVirtualMethods it =? 0) then AllocArtMethodArray le (NumVirtualMethods it) else mret 0);
  update_class klass (set_class_methods (elements direct_methods (le_method_size le) (NumDirectMethods it))
                        (elements virtual_methods (le_method_size le) (NumVirtualMethods it))) ;;
  '(it, v) ← for_members fuel HasNextDirectMethod (load_direct_body le ins klass oat_class direct_methods) data 0 it
               (mkMethodLocals 0 kDexNoIndex 0);
  '(it, v) ← for_members fuel HasNextVirtualMethod (load_virtual_body le ins klass oat_class virtual_methods) data 0 it v;
  mret tt.

Definition LoadClass (env : RuntimeEnv) (le : LoadEnv) (ins : Instrumentation) (klass : Z) : M LoadState unit :=
  c ← on_heap (load h_classes klass);
  let data := le_memory le (mc_dex_file c) in
  let class_data := le_class_data le klass in
  if class_data =? 0 then mret tt
  else
    LoadClassMembers le ins data class_data klass
      (if env_is_started env && negb (le_is_aot_compiler le) then le_oat_class le klass else None).

(** The tail of [DefineClass], from where the class is resolved; the debugger's
    [PostClassPrepare] is not modelled. *)
Definition DefineClass_resolved (env : RuntimeEnv) (ins : Instrumentation) (whitelist : option (list string))
  (klass : Z) : M LoadState unit :=
  c ← on_heap (load h_classes klass);
  checkM (IsResolved c) ;;
  whenM (AreExitStubsInstalled ins) (code_op (InstallStubsForClass env ins klass)) ;;
  on_heap (PostClassPrepare whitelist klass).

(** ** After initialization *)

Definition fixup_body (env : RuntimeEnv) (ins : Instrumentation) (direct : list Z) (oat_class : option (Z -> QuickCode))
  (method_index : Z) (it : ClassDataItemIterator) (v : unit) : M LoadState unit :=
  p ← lift (match direct !! Z.to_nat method_index with Some p => Ok p | None => Fault OutOfBounds end);
  m ← code_op (get_method p);
  if negb (IsStatic m) then mret tt
  else
    let quick_code := match oat_class with Some oat_method => oat_method method_index | None => NullCode end in
    h ← gets (fun s => cs_heap (ld_code s));
    enter_interpreter ← lift (NeedsInterpreter ins h m quick_code);
    code_op (UpdateMethodsCode env ins p
      (if enter_interpreter : bool then
         if bool_decide (quick_code = NullCode) && IsNative m then QuickGenericJniStub else QuickToInterpreterBridge
       else quick_code)).

Definition skip_body (i : Z) (it : ClassDataItemIterator) (v : unit) : M LoadState unit := mret tt.

Definition FixupStaticTrampolines (env : RuntimeEnv) (le : LoadEnv) (ins : Instrumentation) (klass : Z)
  : M LoadState unit :=
  c ← on_heap (load h_classes klass);
  if Z.of_nat (length (mc_direct_methods c)) =? 0 then mret tt
  else if negb (env_is_started env) && (le_is_aot_compiler le || le_has_image_space le) then mret tt
  else
    checkM (le_class_def le klass) ;;
    let class_data := le_class_data le klass in
    checkM (negb (class_data =? 0)) ;;
    let data := le_memory le (mc_dex_file c) in
    it ← lift (ClassDataItemIterator_new data class_data);
    let fuel := Z.to_nat (EndOfVirtualMethodsPos it) in
    '(it, _) ← for_members fuel HasNextStaticField skip_body data 0 it tt;
    '(it, _) ← for_members fuel HasNextInstanceField skip_body data 0 it tt;
    for_members fuel HasNextDirectMethod (fixup_body env ins (mc_direct_methods c) (le_oat_class le klass)) data 0 it tt ;;
    mret tt.

(** ** Single steps *)

Definition heap_of (s : LoadState) : Heap := cs_heap (ld_code s).

Definition with_heap (h : Heap) (s : LoadState) : LoadState :=
  mkLoad (mkCodeState h (cs_jit (ld_code s))) (ld_jni s) (ld_index s) (ld_alloc s).

Definition with_method (p : Z) (m : ArtMethod) (s : LoadState) : LoadState :=
  with_heap (set_methods (<[p := m]> (h_methods (heap_of s))) (heap_of s)) s.
Definition with_field (p : Z) (f : ArtField) (s : LoadState) : LoadState :=
  with_heap (set_fields (<[p := f]> (h_fields (heap_of s))) (heap_of s)) s.
Definition with_class (p : Z) (c : Class_) (s : LoadState) : LoadState :=
  with_heap (set_classes (<[p := c]> (h_classes (heap_of s))) (heap_of s)) s.

Lemma with_heap_of s : with_heap (heap_of s) s = s.
Proof. by destruct s as [[]]. Qed.

Lemma with_method_twice p m m' s : with_method p m' (with_method p m s) = with_method p m' s.
Proof.
  unfold with_method, with_heap, heap_of. cbn [ld_code cs_heap set_methods h_methods]. by rewrite insert_insert_eq.
Qed.

Lemma run_on_heap {A B} (m : M Heap A) (k : A -> M LoadState B) s a h :
  m (heap_of s) = Ok (a, h) -> (on_heap m ≫= k) s = k a (with_heap h s).
Proof. intros H. unfold on_heap, code_op, mbind, M_bind. fold (heap_of s). by rewrite H. Qed.

Lemma run_load_at {A B} (f : Heap -> gmap Z A) p (k : A -> M LoadState B) s a :
  f (heap_of s) !! p = Some a -> (on_heap (load f p) ≫= k) s = k a s.
Proof.
  intros H. rewrite (run_on_heap _ _ _ a (heap_of s)).
  - by rewrite with_heap_of.
  - unfold load, deref. by rewrite H.
Qed.

Lemma run_get {B} p (k : ArtMethod -> M LoadState B) s m :
  h_methods (heap_of s) !! p = Some m -> (code_op (get_method p) ≫= k) s = k m s.
Proof.
  intros H. unfold code_op, get_method, mbind, M_bind. fold (heap_of s). unfold deref. rewrite H. cbn.
  by destruct s as [[]].
Qed.

Lemma run_update {B} p f (k : unit -> M LoadState B) s m :
  h_methods (heap_of s) !! p = Some m -> (update_method p f ≫= k) s = k tt (with_method p (f m) s).
Proof. intros H. unfold update_method. rewrite bind_assoc. by rewrite (run_get _ _ _ _ H). Qed.

Lemma update_ok p f s m :
  h_methods (heap_of s) !! p = Some m -> update_method p f s = Ok (tt, with_method p (f m) s).
Proof. intros H. unfold update_method. by rewrite (run_get _ _ _ _ H). Qed.

Lemma run_update_class {B} klass f (k : unit -> M LoadState B) s c :
  h_classes (heap_of s) !! klass = Some c -> (update_class klass f ≫= k) s = k tt (with_class klass (f c) s).
Proof. intros H. unfold update_class. rewrite bind_assoc. by rewrite (run_load_at _ _ _ _ _ H). Qed.

Lemma method_here p m s : h_methods (heap_of (with_method p m s)) !! p = Some m.
Proof. apply lookup_insert_eq. Qed.

(** *** [LinkCode] *)

Definition enters_interpreter (ins : Instrumentation) (m : ArtMethod) : bool :=
  bool_decide (am_entry_quick m = NullCode) || (InterpretOnly ins && negb (IsNative m)).

(** The entry points of a linked method, from the code [LinkCode] finds. *)
Definition link_result (ins : Instrumentation) (oat_class : option (Z -> QuickCode)) (idx : Z) (m : ArtMethod) : ArtMethod :=
  let m := match oat_class with Some code => method_set_quick (code idx) m | None => m end in
  let enter := enters_interpreter ins m in
  method_set_quick
    (if IsAbstract m then QuickToInterpreterBridge
     else if IsStatic m && negb (IsConstructor m) then QuickResolutionStub
     else if enter then if IsNative m then QuickGenericJniStub else QuickToInterpreterBridge
     else am_entry_quick m)
    (method_set_interpreter
       (if enter && negb (IsNative m) then artInterpreterToInterpreterBridge else artInterpreterToCompiledCodeBridge) m).

Definition with_jni (p : Z) (c : JniCode) (s : LoadState) : LoadState :=
  mkLoad (ld_code s) (<[p := c]> (ld_jni s)) (ld_index s) (ld_alloc s).

Lemma NeedsInterpreter_ok ins h m c q :
  h_classes h !! am_declaring_class m = Some c -> IsProxyClass c = false ->
  NeedsInterpreter ins h m q = Ok (bool_decide (q = NullCode) || (InterpretOnly ins && negb (IsNative m))).
Proof.
  intros Hc Hp. unfold NeedsInterpreter. case_bool_decide; [done|]. cbn [orb].
  destruct (InterpretOnly ins && negb (IsNative m)); [|done].
  unfold IsProxyMethod, GetDeclaringClass, deref. rewrite Hc. cbn. by rewrite Hp.
Qed.

Lemma UnregisterNative_ok p m s :
  h_methods (heap_of s) !! p = Some m -> IsNative m = true -> IsFastNative m = false ->
  UnregisterNative p s = Ok (tt, with_jni p JniDlsymLookupStub s).
Proof.
  intros Hm Hn Hf. unfold UnregisterNative, RegisterNative. rewrite (run_get _ _ _ _ Hm), Hn, Hf. cbn [negb andb].
  unfold checkM, check. rewrite bind_lift, (run_get _ _ _ _ Hm), Hn, Hf. cbn [negb]. by rewrite !bind_lift.
Qed.

Lemma LinkCode_ok le ins p oat_class idx s m c :
  le_is_aot_compiler le = false -> h_methods (heap_of s) !! p = Some m ->
  h_classes (heap_of s) !! am_declaring_class m = Some c -> IsProxyClass c = false -> IsFastNative m = false ->
  LinkCode le ins p oat_class idx s =
    Ok (tt, (if IsNative m && negb (IsAbstract m) then with_jni p JniDlsymLookupStub else id)
              (with_method p (link_result ins oat_class idx m) s)).
Proof.
  intros Ha Hm Hc Hp Hf. unfold LinkCode. rewrite Ha. unfold link_result.
  set (m1 := match oat_class with Some code => method_set_quick (code idx) m | None => m end).
  assert (Hstart : forall B (k : unit -> M LoadState B),
    ((match oat_class with
      | Some oat_method => update_method p (method_set_quick (oat_method idx))
      | None => mret tt end : M LoadState unit) ≫= k) s = k tt (with_method p m1 s)).
  { intros B k. destruct oat_class as [code|]; subst m1; [by rewrite (run_update _ _ _ _ _ Hm)|]. rewrite bind_ret.
    f_equal. unfold with_method. rewrite insert_id by done. destruct s as [[[] ?]]; done. }
  rewrite Hstart. clear Hstart.
  assert (Hd : am_declaring_class m1 = am_declaring_class m /\ am_access_flags m1 = am_access_flags m)
    by (subst m1; by destruct oat_class). destruct Hd as [Hd Hfl].
  assert (Hn : IsNative m = IsNative m1 /\ IsAbstract m = IsAbstract m1) by (unfold IsNative, IsAbstract; by rewrite Hfl).
  destruct Hn as [-> ->]. rewrite (run_get _ _ _ m1) by apply method_here. rewrite bind_gets.
  change (cs_heap (ld_code (with_method p m1 s))) with (heap_of (with_method p m1 s)).
  rewrite (NeedsInterpreter_ok ins _ m1 c) by (rewrite ?Hd; done). fold (enters_interpreter ins m1). rewrite bind_lift.
  rewrite (run_update _ _ _ _ m1) by apply method_here. rewrite with_method_twice.
  set (m2 := method_set_interpreter _ m1). set (enter := enters_interpreter ins m1).
  destruct (IsAbstract m1) eqn:Eabs.
  { rewrite (update_ok _ _ _ m2) by apply method_here. rewrite with_method_twice. by rewrite andb_false_r. }
  assert (Hset : forall q s', s' = with_method p (method_set_quick q m2) s ->
    whenM (IsNative m1) (UnregisterNative p) s' =
    Ok (tt, (if IsNative m1 && negb false then with_jni p JniDlsymLookupStub else id) (with_method p (method_set_quick q m2) s))).
  { intros q s' ->. unfold whenM. destruct (IsNative m1) eqn:En; [|done]. cbn [andb negb].
    apply (UnregisterNative_ok _ (method_set_quick q m2)); [apply method_here|exact En|].
    unfold IsFastNative in *. cbn [am_access_flags method_set_quick m2 method_set_interpreter]. by rewrite Hfl. }
  destruct (IsStatic m1 && negb (IsConstructor m1)).
  { rewrite (run_update _ _ _ _ m2) by apply method_here. apply Hset. by rewrite with_method_twice. }
  destruct enter eqn:Een.
  - rewrite (run_update _ _ _ _ m2) by apply method_here. rewrite with_method_twice.
    replace (if negb (IsNative m1) then QuickToInterpreterBridge else QuickGenericJniStub)
      with (if IsNative m1 then QuickGenericJniStub else QuickToInterpreterBridge) by (by destruct (IsNative m1)).
    by apply Hset.
  - rewrite bind_ret. apply Hset. done.
Qed.

(** *** [LoadField] and [LoadMethod] *)

Definition loaded_field (le : LoadEnv) (klass dex : Z) (mem : Member) : ArtField :=
  let id := le_field_id le dex (m_idx mem) in
  mkArtField klass (Z.land (m_flags mem) kAccValidFieldFlags) id.1 id.2 (m_idx mem) 0.

(** Initializers get the constructor flag. *)
Definition loaded_flags (id : MethodId) (raw : Z) : Z :=
  let flags := Z.land raw kAccValidMethodFlags in
  if bool_decide (mi_name id ∈ ["<init>"; "<clinit>"]%string) then Z.lor flags kAccConstructor else flags.

Definition loaded_method (le : LoadEnv) (klass dex : Z) (mem : Member) : ArtMethod :=
  let id := le_method_id le dex (m_idx mem) in
  mkArtMethod klass (loaded_flags id (m_flags mem)) (m_code mem) (m_idx mem) (mi_name id) (mi_signature id)
    (mi_shorty id) (le_source_file le klass) NullEntry NullCode.

Definition finalizable (c : Class_) : Class_ :=
  class_set_flags (Z.lor (mc_access_flags c) kAccClassIsFinalizable) c.

Definition declares_finalizer (le : LoadEnv) (klass : Z) (c : Class_) (id : MethodId) : bool :=
  bool_decide (mi_name id = "finalize"%string) && bool_decide (mi_shorty id = "V"%string) &&
  (negb (le_class_loader le klass =? 0) ||
   bool_decide (mc_descriptor c ∉ ["Ljava/lang/Object;"; "Ljava/lang/Enum;"]%string)).

Lemma LoadField_ok le it klass dst s c f :
  h_classes (heap_of s) !! klass = Some c -> h_fields (heap_of s) !! dst = Some f ->
  LoadField le it klass dst s =
    Ok (tt, with_field dst (mkArtField klass (GetFieldAccessFlags it)
              (le_field_id le (mc_dex_file c) (GetMemberIndex it)).1
              (le_field_id le (mc_dex_file c) (GetMemberIndex it)).2 (GetMemberIndex it) (af_offset f)) s).
Proof. intros Hc Hf. unfold LoadField. rewrite (run_load_at _ _ _ _ _ Hc), (run_load_at _ _ _ _ _ Hf). done. Qed.

Lemma prefix_lt name : name ∈ ["<init>"; "<clinit>"]%string -> String.prefix "<" name = true.
Proof. intros [->|[->|[]%elem_of_nil]%elem_of_cons]%elem_of_cons; done. Qed.

Lemma lor_absorb a b : (Z.land a b =? 0) = false -> (exists n, b = 2 ^ n /\ 0 <= n) -> Z.lor a b = a.
Proof.
  intros H (n & -> & Hn). assert (Ht : Z.testbit a n = true).
  { rewrite <- HasFlag_pow2 by done. unfold HasFlag. by rewrite H. }
  apply Z.bits_inj'. intros k Hk. rewrite Z.lor_spec. destruct (Z.eq_dec k n) as [->|Hne]; [by rewrite Ht|].
  rewrite Z.pow2_bits_false by lia. apply orb_false_r.
Qed.

Lemma SetFinalizable_ok klass s c :
  h_classes (heap_of s) !! klass = Some c -> SetFinalizable klass s = Ok (tt, with_class klass (finalizable c) s).
Proof. intros Hc. unfold SetFinalizable. by rewrite (run_load_at _ _ _ _ _ Hc). Qed.

Lemma LoadMethod_ok le it klass dst s c m mid :
  h_classes (heap_of s) !! klass = Some c -> h_methods (heap_of s) !! dst = Some m ->
  mid = le_method_id le (mc_dex_file c) (GetMemberIndex it) ->
  LoadMethod le it klass dst s =
    Ok (tt, with_method dst
              (mkArtMethod klass (loaded_flags mid (GetRawMemberAccessFlags it)) (GetMethodCodeItemOffset it)
                 (GetMemberIndex it) (mi_name mid) (mi_signature mid) (mi_shorty mid) (le_source_file le klass)
                 (am_entry_interpreter m) (am_entry_quick m))
              ((if declares_finalizer le klass c mid then with_class klass (finalizable c) else id) s)).
Proof.
  intros Hc Hm Hid. unfold LoadMethod. rewrite (run_load_at _ _ _ _ _ Hc). cbv zeta. rewrite <- Hid.
  set (s' := (if declares_finalizer le klass c mid then with_class klass (finalizable c) else id) s).
  assert (Hm' : h_methods (heap_of s') !! dst = Some m) by (subst s'; by destruct (declares_finalizer _ _ _ _)).
  rewrite (bind_ok _ _ _ (loaded_flags mid (GetRawMemberAccessFlags it)) s'); [by rewrite (update_ok _ _ _ _ Hm')|].
  unfold loaded_flags. fold (GetMethodAccessFlags it). subst s'. unfold declares_finalizer.
  destruct (decide (mi_name mid = "finalize"%string)) as [Efin|Efin].
  - rewrite !(bool_decide_eq_true_2 _ Efin).
    rewrite (bool_decide_eq_false_2 (_ ∈ _)) by (rewrite Efin; intros [?|[?|[]%elem_of_nil]%elem_of_cons]%elem_of_cons; done).
    cbn [andb]. case_bool_decide; cbn [whenM andb]; [|done].
    destruct (negb (le_class_loader le klass =? 0)); cbn [orb].
    + by rewrite (bind_ok _ _ _ _ _ (SetFinalizable_ok _ _ _ Hc)).
    + repeat case_bool_decide; cbn [negb andb whenM];
        try (by rewrite (bind_ok _ _ _ _ _ (SetFinalizable_ok _ _ _ Hc))); try done;
        exfalso; set_solver.
  - rewrite !(bool_decide_eq_false_2 _ Efin). cbn [andb].
    destruct (decide (mi_name mid ∈ ["<init>"; "<clinit>"]%string)) as [Ei|Ei].
    + rewrite (prefix_lt _ Ei), (bool_decide_eq_true_2 _ Ei).
      replace (negb (bool_decide (mi_name mid = "<init>"%string)) &&
               negb (negb (bool_decide (mi_name mid = "<init>"%string)) && bool_decide (mi_name mid = "<clinit>"%string)))
        with false.
      2:{ repeat case_bool_decide; try done. set_solver. }
      destruct (Z.land (GetMethodAccessFlags it) kAccConstructor =? 0) eqn:E; [done|].
      rewrite lor_absorb; [done|exact E|by exists 16].
    + rewrite (bool_decide_eq_false_2 _ Ei). destruct (String.prefix "<" (mi_name mid)); [|done].
      rewrite !bool_decide_eq_false_2 by set_solver. done.
Qed.

(** Methods that were just loaded are not fast native: the flag is not valid in
    a dex file. *)
Lemma loaded_not_fast le klass dex mem : IsFastNative (loaded_method le klass dex mem) = false.
Proof.
  unfold IsFastNative. apply Z.eqb_neq. intros E.
  assert (Hb : Z.testbit (Z.land (am_access_flags (loaded_method le klass dex mem)) (Z.lor kAccFastNative kAccNative)) 19 = true)
    by (by rewrite E).
  cbn [am_access_flags loaded_method] in Hb. unfold loaded_flags in Hb. rewrite Z.land_spec in Hb.
  destruct (bool_decide _); rewrite ?Z.lor_spec, Z.land_spec in Hb; by rewrite andb_false_r in Hb.
Qed.

(** ** Arrays *)

(** A map in which the first [j] entries of an array are set and the others
    are fresh. *)
Definition filled {A} (addrs : list Z) (new : nat -> A) (fresh : A) (j : nat) (m0 m : gmap Z A) : Prop :=
  (forall k a, addrs !! k = Some a -> m !! a = Some (if (k <? j)%nat then new k else fresh)) /\
  (forall q, q ∉ addrs -> m !! q = m0 !! q).

Lemma filled_step {A} addrs (new : nat -> A) fresh j m0 m a :
  NoDup addrs -> addrs !! j = Some a -> filled addrs new fresh j m0 m -> filled addrs new fresh (S j) m0 (<[a := new j]> m).
Proof.
  intros Hnd Ha [H1 H2]. split.
  - intros k b Hb. destruct (decide (a = b)) as [<-|Hne].
    + assert (k = j) as -> by (by eapply NoDup_lookup). rewrite lookup_insert_eq.
      by rewrite (proj2 (Nat.ltb_lt j (S j))) by lia.
    + rewrite lookup_insert_ne, (H1 _ _ Hb) by done. assert (k <> j) by congruence. f_equal.
      destruct (Nat.ltb_spec k j), (Nat.ltb_spec k (S j)); (done || lia).
  - intros q Hq. rewrite lookup_insert_ne; [by apply H2|]. intros ->. apply Hq. by eapply list_elem_of_lookup_2.
Qed.

Lemma filled_fresh {A} addrs (new : nat -> A) fresh m0 m :
  (forall q, m !! q = if decide (q ∈ addrs) then Some fresh else m0 !! q) -> filled addrs new fresh 0 m0 m.
Proof.
  intros H. split.
  - intros k a Ha. rewrite H, decide_True by (by eapply list_elem_of_lookup_2). done.
  - intros q Hq. by rewrite H, decide_False.
Qed.

Lemma filled_all {A} addrs (new : nat -> A) fresh m0 m k a :
  filled addrs new fresh (length addrs) m0 m -> addrs !! k = Some a -> m !! a = Some (new k).
Proof. intros [H _] Ha. rewrite (H _ _ Ha). apply lookup_lt_Some in Ha. by rewrite (proj2 (Nat.ltb_lt _ _)). Qed.

Lemma elements_length base size n : length (elements base size (Z.of_nat n)) = n.
Proof. unfold elements. by rewrite length_fmap, length_seq, Nat2Z.id. Qed.

Lemma elements_lookup base size n k :
  (k < n)%nat -> elements base size (Z.of_nat n) !! k = Some (base + size * Z.of_nat k).
Proof. intros H. unfold elements. rewrite Nat2Z.id, list_lookup_fmap, lookup_seq_lt by done. done. Qed.

Definition fresh_method : ArtMethod :=
  mkArtMethod 0 0 0 0 EmptyString EmptyString EmptyString EmptyString NullEntry NullCode.
Definition fresh_field : ArtField := mkArtField 0 0 EmptyString EmptyString 0 0.

Lemma store_methods_ok m l : forall h, exists h',
  forM l (fun p => store_method p m) h = Ok (tt, h') /\
  (forall q, h_methods h' !! q = if decide (q ∈ l) then Some m else h_methods h !! q) /\
  h_fields h' = h_fields h /\ h_classes h' = h_classes h /\ h_dex_files h' = h_dex_files h /\
  h_class_table h' = h_class_table h /\ h_pre_zygote_class_table h' = h_pre_zygote_class_table h.
Proof.
  induction l as [|p l IH]; intros h; cbn [forM]; [by exists h|].
  unfold store_method. rewrite bind_modify. destruct (IH (set_methods (<[p := m]> (h_methods h)) h)) as (h' & E & Hm & Hr).
  exists h'. split; [exact E|]. split; [|exact Hr]. intros q. rewrite Hm. cbn [h_methods set_methods].
  destruct (decide (p = q)) as [<-|Hne].
  - rewrite lookup_insert_eq, (decide_True (P := p ∈ p :: l)) by (by left). by case_decide.
  - rewrite lookup_insert_ne by done. destruct (decide (q ∈ l)), (decide (q ∈ p :: l)); try done; set_solver.
Qed.

Lemma store_fields_ok f l : forall h, exists h',
  forM l (fun p => store_field p f) h = Ok (tt, h') /\
  (forall q, h_fields h' !! q = if decide (q ∈ l) then Some f else h_fields h !! q) /\
  h_methods h' = h_methods h /\ h_classes h' = h_classes h /\ h_dex_files h' = h_dex_files h /\
  h_class_table h' = h_class_table h /\ h_pre_zygote_class_table h' = h_pre_zygote_class_table h.
Proof.
  induction l as [|p l IH]; intros h; cbn [forM]; [by exists h|].
  unfold store_field. rewrite bind_modify. destruct (IH (set_fields (<[p := f]> (h_fields h)) h)) as (h' & E & Hm & Hr).
  exists h'. split; [exact E|]. split; [|exact Hr]. intros q. rewrite Hm. cbn [h_fields set_fields].
  destruct (decide (p = q)) as [<-|Hne].
  - rewrite lookup_insert_eq, (decide_True (P := p ∈ p :: l)) by (by left). by case_decide.
  - rewrite lookup_insert_ne by done. destruct (decide (q ∈ l)), (decide (q ∈ p :: l)); try done; set_solver.
Qed.

(** What an array of [n] elements takes from the allocator. *)
Definition request (n : nat) (base : Z) : list Z := if (n =? 0)%nat then [] else [base].

Lemma alloc_fields_ok n base more s :
  base <> 0 -> ld_alloc s = request n base ++ more ->
  exists b s', (if negb (Z.of_nat n =? 0) then AllocArtFieldArray (Z.of_nat n) else mret 0) s = Ok (b, s') /\
    elements b sizeof_ArtField (Z.of_nat n) = elements base sizeof_ArtField (Z.of_nat n) /\
    (0 < n -> b = base)%nat /\ ld_alloc s' = more /\ cs_jit (ld_code s') = cs_jit (ld_code s) /\
    (forall q, h_fields (heap_of s') !! q =
       if decide (q ∈ elements base sizeof_ArtField (Z.of_nat n)) then Some fresh_field else h_fields (heap_of s) !! q) /\
    h_methods (heap_of s') = h_methods (heap_of s) /\ h_classes (heap_of s') = h_classes (heap_of s) /\
    h_dex_files (heap_of s') = h_dex_files (heap_of s) /\ h_class_table (heap_of s') = h_class_table (heap_of s) /\
    h_pre_zygote_class_table (heap_of s') = h_pre_zygote_class_table (heap_of s).
Proof.
  intros Hb Ha. unfold request in Ha. destruct n as [|n].
  { exists 0, s. cbn [negb Z.of_nat Z.eqb]. split; [done|]. split; [done|]. split; [lia|]. split; [done|]. done. }
  rewrite (proj2 (Z.eqb_neq (Z.of_nat (S n)) 0)) by lia. cbn [negb Nat.eqb app] in Ha |- *.
  unfold AllocArtFieldArray, linear_alloc. unfold mbind at 1, M_bind at 1. rewrite Ha.
  unfold checkM, check. rewrite bind_lift, (proj2 (Z.eqb_neq _ _) Hb). cbn [negb].
  destruct (store_fields_ok fresh_field (elements base sizeof_ArtField (Z.of_nat (S n))) (heap_of s)) as (h' & E & Hf & Hr).
  rewrite (run_on_heap _ _ _ tt h') by exact E. eexists base, _. split; [reflexivity|]. done.
Qed.

Lemma alloc_methods_ok le n base more s :
  base <> 0 -> ld_alloc s = request n base ++ more ->
  exists b s', (if negb (Z.of_nat n =? 0) then AllocArtMethodArray le (Z.of_nat n) else mret 0) s = Ok (b, s') /\
    elements b (le_method_size le) (Z.of_nat n) = elements base (le_method_size le) (Z.of_nat n) /\
    (0 < n -> b = base)%nat /\ ld_alloc s' = more /\ cs_jit (ld_code s') = cs_jit (ld_code s) /\
    (forall q, h_methods (heap_of s') !! q =
       if decide (q ∈ elements base (le_method_size le) (Z.of_nat n)) then Some fresh_method else h_methods (heap_of s) !! q) /\
    h_fields (heap_of s') = h_fields (heap_of s) /\ h_classes (heap_of s') = h_classes (heap_of s) /\
    h_dex_files (heap_of s') = h_dex_files (heap_of s) /\ h_class_table (heap_of s') = h_class_table (heap_of s) /\
    h_pre_zygote_class_table (heap_of s') = h_pre_zygote_class_table (heap_of s).
Proof.
  intros Hb Ha. unfold request in Ha. destruct n as [|n].
  { exists 0, s. cbn [negb Z.of_nat Z.eqb]. split; [done|]. split; [done|]. split; [lia|]. split; [done|]. done. }
  rewrite (proj2 (Z.eqb_neq (Z.of_nat (S n)) 0)) by lia. cbn [negb Nat.eqb app] in Ha |- *.
  unfold AllocArtMethodArray, linear_alloc. unfold mbind at 1, M_bind at 1. rewrite Ha.
  unfold checkM, check. rewrite bind_lift, (proj2 (Z.eqb_neq _ _) Hb). cbn [negb].
  destruct (store_methods_ok fresh_method (elements base (le_method_size le) (Z.of_nat (S n))) (heap_of s)) as (h' & E & Hf & Hr).
  rewrite (run_on_heap _ _ _ tt h') by exact E. eexists base, _. split; [reflexivity|]. done.
Qed.

(** ** The loops *)

Lemma of_nat_ltb a b : (Z.of_nat a <? Z.of_nat b) = (a <? b)%nat.
Proof. destruct (Z.ltb_spec (Z.of_nat a) (Z.of_nat b)), (Nat.ltb_spec a b); (done || lia). Qed.

Lemma of_nat_leb a b : (Z.of_nat a <=? Z.of_nat b) = (a <=? b)%nat.
Proof. destruct (Z.leb_spec (Z.of_nat a) (Z.of_nat b)), (Nat.leb_spec a b); (done || lia). Qed.

(** A loop over the members from position [lo] to [hi]. *)
Lemma for_members_ok {V} (P : nat -> V -> LoadState -> Prop) has body ly ms data rest lo hi :
  members_wf ly ms -> (hi <= ly_total ly)%nat ->
  (forall p it, at_pos ly ms data rest p it -> (lo <= p <= hi)%nat -> has it = (p <? hi)%nat) ->
  (forall p it v s, (lo <= p < hi)%nat -> at_pos ly ms data rest p it -> P p v s ->
     exists v' s', body (Z.of_nat (p - lo)) it v s = Ok (v', s') /\ P (S p) v' s') ->
  forall fuel p it v s, (lo <= p <= hi)%nat -> (hi - p <= fuel)%nat -> at_pos ly ms data rest p it -> P p v s ->
  exists it' v' s', for_members fuel has body data (Z.of_nat (p - lo)) it v s = Ok ((it', v'), s') /\
    at_pos ly ms data rest hi it' /\ P hi v' s'.
Proof.
  intros Hwf Hhi Hhas Hbody. induction fuel as [|fuel IH]; intros p it v s Hp Hfuel Hat HP; cbn [for_members];
    rewrite (Hhas p it Hat Hp).
  - assert (p = hi) as -> by lia. rewrite Nat.ltb_irrefl. by exists it, v, s.
  - destruct (Nat.ltb_spec p hi) as [Hlt|Hge].
    2:{ assert (p = hi) as -> by lia. by exists it, v, s. }
    destruct (Hbody p it v s) as (v' & s' & E & HP'); [lia|done|done|]. rewrite (bind_ok _ _ _ _ _ E).
    destruct (Next_at ly ms Hwf data rest p it Hat) as (it' & E' & Hat'); [lia|]. rewrite E', bind_lift.
    replace (Z.of_nat (p - lo) + 1) with (Z.of_nat (S p - lo)) by lia. apply IH; [lia|lia|done|done].
Qed.

Section Load.
Context (le : LoadEnv) (ins : Instrumentation) (klass : Z) (oat_class : option (Z -> QuickCode)).
Context (ly : Layout) (ms : list Member) (Hwf : members_wf ly ms).
Context (data rest : list Z).
Context (Haot : le_is_aot_compiler le = false).

#[local] Abbreviation at_ := (at_pos ly ms data rest).

Definition member_at (p : nat) : Member := default (mkMember 0 0 0) (ms !! p).

Lemma member_at_ok p it : at_ p it -> (p < ly_total ly)%nat ->
  GetMemberIndex it = m_idx (member_at p) /\ GetRawMemberAccessFlags it = m_flags (member_at p) /\
  ((ly_fields ly <= p)%nat -> GetMethodCodeItemOffset it = m_code (member_at p)).
Proof using Hwf.
  intros Hat Hp. destruct (lookup_lt_is_Some_2 ms p) as [m Hm]; [by rewrite (mw_length _ _ Hwf)|].
  unfold member_at. rewrite Hm. cbn. by apply (at_member ly ms Hwf data rest p it).
Qed.

(** The parts of the heap that loading fields leaves alone. *)
Definition field_frame (h0 h : Heap) : Prop :=
  h_methods h = h_methods h0 /\ h_classes h = h_classes h0 /\ h_dex_files h = h_dex_files h0 /\
  h_class_table h = h_class_table h0 /\ h_pre_zygote_class_table h = h_pre_zygote_class_table h0.

Definition loading_fields (c : Class_) (base : Z) (lo n p : nat) (s0 s : LoadState) : Prop :=
  filled (elements base sizeof_ArtField (Z.of_nat n)) (fun k => loaded_field le klass (mc_dex_file c) (member_at (lo + k)))
    fresh_field (p - lo) (h_fields (heap_of s0)) (h_fields (heap_of s)) /\
  field_frame (heap_of s0) (heap_of s) /\ ld_alloc s = ld_alloc s0.

Lemma load_field_step c base lo n p it s0 s :
  h_classes (heap_of s0) !! klass = Some c -> NoDup (elements base sizeof_ArtField (Z.of_nat n)) ->
  (lo <= p < lo + n)%nat -> (lo + n <= ly_fields ly)%nat -> at_ p it -> loading_fields c base lo n p s0 s ->
  exists s', load_field_body le klass (Z.of_nat n) base (Z.of_nat (p - lo)) it tt s = Ok (tt, s') /\
    loading_fields c base lo n (S p) s0 s'.
Proof using Hwf.
  intros Hc Hnd Hp Hn Hat (Hf & Hfr & Hal). assert (p < ly_total ly)%nat by (unfold ly_total, ly_methods; lia).
  destruct (member_at_ok p it Hat) as (E1 & E2 & _); [done|].
  unfold load_field_body, checkM, check. rewrite (proj2 (Z.ltb_lt _ _)) by lia. rewrite bind_lift.
  pose proof (elements_lookup base sizeof_ArtField n (p - lo) ltac:(lia)) as Ha.
  rewrite (LoadField_ok le it klass _ s c fresh_field).
  2:{ by rewrite (proj1 (proj2 Hfr)). }
  2:{ rewrite (proj1 Hf _ _ Ha). by rewrite Nat.ltb_irrefl. }
  eexists. split; [reflexivity|]. split; [|split; [exact Hfr|exact Hal]].
  replace (S p - lo)%nat with (S (p - lo)) by lia. cbn [heap_of with_field with_heap ld_code cs_heap set_fields h_fields].
  unfold GetFieldAccessFlags. rewrite E1, E2.
  pose proof (filled_step _ _ _ _ _ _ _ Hnd Ha Hf) as Hs. cbn beta in Hs.
  replace (lo + (p - lo))%nat with p in Hs by lia. exact Hs.
Qed.

Lemma load_fields_ok c base lo n has it s0 fuel :
  h_classes (heap_of s0) !! klass = Some c -> NoDup (elements base sizeof_ArtField (Z.of_nat n)) ->
  (lo + n <= ly_fields ly)%nat -> (n <= fuel)%nat ->
  (forall p it, at_ p it -> (lo <= p <= lo + n)%nat -> has it = (p <? lo + n)%nat) ->
  at_ lo it -> loading_fields c base lo n lo s0 s0 ->
  exists it' s', for_members fuel has (load_field_body le klass (Z.of_nat n) base) data 0 it tt s0 = Ok ((it', tt), s') /\
    at_ (lo + n) it' /\ loading_fields c base lo n (lo + n) s0 s'.
Proof using Hwf.
  intros Hc Hnd Hn Hfuel Hhas Hat Hinit.
  destruct (for_members_ok (fun p (_ : unit) s => loading_fields c base lo n p s0 s) has
              (load_field_body le klass (Z.of_nat n) base) ly ms data rest lo (lo + n) Hwf) with
              (fuel := fuel) (p := lo) (it := it) (v := tt) (s := s0) as (it' & [] & s' & E & H1 & H2); try done; try lia.
  - unfold ly_total, ly_methods. lia.
  - intros p it1 [] s Hp Hat1 HP. destruct (load_field_step c base lo n p it1 s0 s) as (s' & E & H'); [done..|]. eauto.
  - rewrite Nat.sub_diag in E. eauto.
Qed.

(** A method of the class as loading leaves it. *)
Definition linked_method (c : Class_) (p : nat) : ArtMethod :=
  link_result ins oat_class (Z.of_nat (p - ly_fields ly)) (loaded_method le klass (mc_dex_file c) (member_at p)).

Definition maybe_finalizable (c c' : Class_) : Prop := c' = c \/ c' = finalizable c.

(** The parts of the heap that loading methods leaves alone; the class may
    become finalizable. *)
Record method_frame (c : Class_) (h0 h : Heap) : Prop := {
  mf_fields : h_fields h = h_fields h0;
  mf_class : exists c', h_classes h !! klass = Some c' /\ maybe_finalizable c c';
  mf_classes : forall q, q <> klass -> h_classes h !! q = h_classes h0 !! q;
  mf_dex : h_dex_files h = h_dex_files h0;
  mf_table : h_class_table h = h_class_table h0;
  mf_zygote : h_pre_zygote_class_table h = h_pre_zygote_class_table h0;
}.

Definition loading_methods (c : Class_) (base : Z) (lo n p : nat) (s0 : LoadState) (v : MethodLocals) (s : LoadState) : Prop :=
  filled (elements base (le_method_size le) (Z.of_nat n)) (fun k => linked_method c (lo + k))
    fresh_method (p - lo) (h_methods (heap_of s0)) (h_methods (heap_of s)) /\
  method_frame c (heap_of s0) (heap_of s) /\ class_def_method_index v = Z.of_nat (p - ly_fields ly).

Lemma finalizable_twice c : finalizable (finalizable c) = finalizable c.
Proof. unfold finalizable, class_set_flags. cbn. by rewrite lor_twice. Qed.

Lemma maybe_finalizable_proxy c c' : maybe_finalizable c c' -> IsProxyClass c' = IsProxyClass c.
Proof.
  intros [->| ->]; [done|]. unfold IsProxyClass, finalizable. cbn [class_set_flags mc_access_flags].
  change kAccClassIsFinalizable with (2 ^ 31). change kAccClassIsProxy with (2 ^ 18). by rewrite HasFlag_lor_other by lia.
Qed.

(** What the bodies of the two loops share. *)
Lemma load_and_link c base lo n p it v s0 s :
  IsProxyClass c = false -> NoDup (elements base (le_method_size le) (Z.of_nat n)) ->
  (lo <= p < lo + n)%nat -> (ly_fields ly <= lo)%nat -> (lo + n <= ly_total ly)%nat ->
  at_ p it -> loading_methods c base lo n p s0 v s ->
  let method := base + le_method_size le * Z.of_nat (p - lo) in
  exists s',
    (forall B (k : unit -> M LoadState B),
       (LoadMethod le it klass method ;; LinkCode le ins method oat_class (class_def_method_index v) ≫= k) s = k tt s') /\
    forall v', class_def_method_index v' = class_def_method_index v + 1 -> loading_methods c base lo n (S p) s0 v' s'.
Proof using Hwf Haot.
  intros Hpr Hnd Hp Hlo Hn Hat (Hf & Hfr & Hv) method. destruct (member_at_ok p it Hat) as (E1 & E2 & E3); [lia|].
  specialize (E3 ltac:(lia)). pose proof (elements_lookup base (le_method_size le) n (p - lo) ltac:(lia)) as Ha.
  destruct (mf_class _ _ _ Hfr) as (c' & Hc' & Hmay).
  assert (Hdex : mc_dex_file c' = mc_dex_file c) by (by destruct Hmay as [->| ->]).
  assert (Hm : h_methods (heap_of s) !! method = Some fresh_method)
    by (subst method; rewrite (proj1 Hf _ _ Ha); by rewrite Nat.ltb_irrefl).
  pose proof (LoadMethod_ok le it klass method s c' fresh_method _ Hc' Hm eq_refl) as Hload.
  rewrite E1, E2, E3, Hdex in Hload. set (mid := le_method_id le _ _) in Hload.
  set (fin := declares_finalizer le klass c' mid) in Hload.
  set (s1 := with_method method _ _) in Hload.
  set (c1 := if fin then finalizable c' else c').
  assert (Hc1 : h_classes (heap_of s1) !! klass = Some c1)
    by (subst s1 c1; destruct fin; [apply lookup_insert_eq|exact Hc']).
  assert (Hmay1 : maybe_finalizable c c1).
  { subst c1. destruct fin; [|done]. right. destruct Hmay as [->| ->]; [done|]. apply finalizable_twice. }
  pose proof (LinkCode_ok le ins method oat_class (class_def_method_index v) s1
             (loaded_method le klass (mc_dex_file c) (member_at p)) c1 Haot (method_here _ _ _) Hc1
             ltac:(by rewrite (maybe_finalizable_proxy c c1)) (loaded_not_fast _ _ _ _)) as Hlink.
  eexists. split; [intros B k; rewrite (bind_ok _ _ _ _ _ Hload), (bind_ok _ _ _ _ _ Hlink); reflexivity|]. intros v' Ev'. subst s1. rewrite with_method_twice.
  set (s2 := (if fin then with_class klass (finalizable c') else id) s).
  assert (Hs2 : h_methods (heap_of s2) = h_methods (heap_of s)) by (subst s2; by destruct fin).
  set (m' := link_result _ _ _ _).
  set (s3 := (if IsNative _ && negb _ then _ else id) _).
  assert (Hs3 : heap_of s3 = heap_of (with_method method m' s2)) by (subst s3; by destruct (_ && _)).
  unfold loading_methods. rewrite Hs3. split; [|split].
  - replace (S p - lo)%nat with (S (p - lo)) by lia. cbn [heap_of with_method with_heap ld_code cs_heap set_methods h_methods].
    fold (heap_of s2). rewrite Hs2. pose proof (filled_step _ _ _ _ _ _ _ Hnd Ha Hf) as Hs. cbn beta in Hs.
    replace (lo + (p - lo))%nat with p in Hs by lia. unfold linked_method in Hs. rewrite <- Hv in Hs. exact Hs.
  - split.
    + transitivity (h_fields (heap_of s)); [subst s2; by destruct fin|apply Hfr].
    + exists c1. split; [|done]. subst s2 c1. destruct fin; [apply lookup_insert_eq|exact Hc'].
    + intros q Hq. rewrite <- (mf_classes _ _ _ Hfr q Hq). subst s2. destruct fin; [|done].
      cbn [heap_of with_method with_class with_heap ld_code cs_heap set_methods set_classes h_classes].
      by apply lookup_insert_ne.
    + transitivity (h_dex_files (heap_of s)); [subst s2; by destruct fin|apply Hfr].
    + transitivity (h_class_table (heap_of s)); [subst s2; by destruct fin|apply Hfr].
    + transitivity (h_pre_zygote_class_table (heap_of s)); [subst s2; by destruct fin|apply Hfr].
  - rewrite Ev', Hv. lia.
Qed.

Lemma load_methods_loop c base lo n has body it v s0 fuel :
  (ly_fields ly <= lo)%nat -> (lo + n <= ly_total ly)%nat -> (n <= fuel)%nat ->
  (forall p it, at_ p it -> (lo <= p <= lo + n)%nat -> has it = (p <? lo + n)%nat) ->
  (forall p it v s, (lo <= p < lo + n)%nat -> at_ p it -> loading_methods c base lo n p s0 v s ->
     exists v' s', body (Z.of_nat (p - lo)) it v s = Ok (v', s') /\ loading_methods c base lo n (S p) s0 v' s') ->
  at_ lo it -> loading_methods c base lo n lo s0 v s0 ->
  exists it' v' s', for_members fuel has body data 0 it v s0 = Ok ((it', v'), s') /\
    at_ (lo + n) it' /\ loading_methods c base lo n (lo + n) s0 v' s'.
Proof using Hwf.
  intros Hlo Hn Hfuel Hhas Hbody Hat Hinit.
  destruct (for_members_ok (fun p v s => loading_methods c base lo n p s0 v s) has body ly ms data rest lo (lo + n) Hwf) with
              (fuel := fuel) (p := lo) (it := it) (v := v) (s := s0) as (it' & v' & s' & E & H1 & H2); try done; try lia.
  rewrite Nat.sub_diag in E. eauto 6.
Qed.

Lemma load_direct_step c base lo n p it v s0 s :
  IsProxyClass c = false -> NoDup (elements base (le_method_size le) (Z.of_nat n)) ->
  (ly_fields ly <= lo)%nat -> (lo + n <= ly_total ly)%nat -> (lo <= p < lo + n)%nat -> at_ p it ->
  loading_methods c base lo n p s0 v s ->
  exists v' s', load_direct_body le ins klass oat_class base (Z.of_nat (p - lo)) it v s = Ok (v', s') /\
    loading_methods c base lo n (S p) s0 v' s'.
Proof using Hwf Haot.
  intros Hpr Hnd Hlo Hn Hp Hat HP. unfold load_direct_body. cbv zeta.
  destruct (load_and_link c base lo n p it v s0 s) as (s' & E & Hs'); [done..|]. rewrite E.
  destruct (last_dex_method_index v =? GetMemberIndex it); unfold SetMethodIndex; rewrite bind_modify;
    (eexists _, _; split; [reflexivity|]; by apply Hs').
Qed.

Lemma load_virtual_step c base lo n p it v s0 s :
  IsProxyClass c = false -> NoDup (elements base (le_method_size le) (Z.of_nat n)) ->
  (ly_fields ly <= lo)%nat -> (lo + n <= ly_total ly)%nat -> (lo <= p < lo + n)%nat -> at_ p it ->
  loading_methods c base lo n p s0 v s ->
  exists v' s', load_virtual_body le ins klass oat_class base (Z.of_nat (p - lo)) it v s = Ok (v', s') /\
    loading_methods c base lo n (S p) s0 v' s'.
Proof using Hwf Haot.
  intros Hpr Hnd Hlo Hn Hp Hat HP. unfold load_virtual_body. cbv zeta.
  destruct (load_and_link c base lo n p it v s0 s) as (s' & E & Hs'); [done..|]. rewrite E.
  eexists _, _. split; [reflexivity|]. by apply Hs'.
Qed.

(** Where the four loops stop. *)
Lemma has_next p it : at_ p it ->
  HasNextStaticField it = (p <? ly_static ly)%nat /\
  HasNextInstanceField it = ((ly_static ly <=? p)%nat && (p <? ly_fields ly)%nat) /\
  HasNextDirectMethod it = ((ly_fields ly <=? p)%nat && (p <? ly_methods ly)%nat) /\
  HasNextVirtualMethod it = ((ly_methods ly <=? p)%nat && (p <? ly_total ly)%nat).
Proof using Hwf.
  intros H. destruct (at_ends ly ms Hwf data rest p it H) as (E1 & E2 & E3 & E4).
  unfold HasNextStaticField, HasNextInstanceField, HasNextDirectMethod, HasNextVirtualMethod.
  rewrite E1, E2, E3, E4, (ap_pos _ _ _ _ _ _ H). rewrite !of_nat_ltb, !of_nat_leb. done.
Qed.

(** ** Loading the members *)

(** Where the allocator puts the four arrays. *)
Record Arrays := mkArrays { ar_sfields : Z; ar_ifields : Z; ar_direct : Z; ar_virtual : Z }.

Definition sfield_addrs (ar : Arrays) : list Z := elements (ar_sfields ar) sizeof_ArtField (Z.of_nat (ly_static ly)).
Definition ifield_addrs (ar : Arrays) : list Z := elements (ar_ifields ar) sizeof_ArtField (Z.of_nat (ly_instance ly)).
Definition direct_addrs (ar : Arrays) : list Z := elements (ar_direct ar) (le_method_size le) (Z.of_nat (ly_direct ly)).
Definition virtual_addrs (ar : Arrays) : list Z := elements (ar_virtual ar) (le_method_size le) (Z.of_nat (ly_virtual ly)).

Record arrays_ok (ar : Arrays) (s : LoadState) : Prop := {
  ao_alloc : exists more, ld_alloc s =
    request (ly_static ly) (ar_sfields ar) ++ request (ly_instance ly) (ar_ifields ar) ++
    request (ly_direct ly) (ar_direct ar) ++ request (ly_virtual ly) (ar_virtual ar) ++ more;
  ao_nonnull : ar_sfields ar <> 0 /\ ar_ifields ar <> 0 /\ ar_direct ar <> 0 /\ ar_virtual ar <> 0;
  ao_fields : NoDup (sfield_addrs ar ++ ifield_addrs ar);
  ao_methods : NoDup (direct_addrs ar ++ virtual_addrs ar);
}.

Definition loaded_class (ar : Arrays) (c : Class_) : Class_ :=
  set_class_methods (direct_addrs ar) (virtual_addrs ar)
    (set_class_fields (Some (sfield_addrs ar)) (Some (ifield_addrs ar)) c).

(** The heap once the members of the class are loaded. *)
Record members_loaded (ar : Arrays) (c : Class_) (h h' : Heap) : Prop := {
  ml_methods : forall k a, (direct_addrs ar ++ virtual_addrs ar) !! k = Some a ->
    h_methods h' !! a = Some (linked_method c (ly_fields ly + k));
  ml_fields : forall k a, (sfield_addrs ar ++ ifield_addrs ar) !! k = Some a ->
    h_fields h' !! a = Some (loaded_field le klass (mc_dex_file c) (member_at k));
  ml_class : exists c', h_classes h' !! klass = Some c' /\ maybe_finalizable (loaded_class ar c) c';
  ml_other_methods : forall q, q ∉ direct_addrs ar ++ virtual_addrs ar -> h_methods h' !! q = h_methods h !! q;
  ml_other_fields : forall q, q ∉ sfield_addrs ar ++ ifield_addrs ar -> h_fields h' !! q = h_fields h !! q;
  ml_other_classes : forall q, q <> klass -> h_classes h' !! q = h_classes h !! q;
  ml_dex : h_dex_files h' = h_dex_files h;
  ml_table : h_class_table h' = h_class_table h /\ h_pre_zygote_class_table h' = h_pre_zygote_class_table h;
}.

(** Allocating and loading one array of fields. *)
Lemma fields_phase n lo base more has it c s fuel :
  base <> 0 -> ld_alloc s = request n base ++ more -> h_classes (heap_of s) !! klass = Some c ->
  NoDup (elements base sizeof_ArtField (Z.of_nat n)) -> (lo + n <= ly_fields ly)%nat -> (n <= fuel)%nat ->
  (forall p it, at_ p it -> (lo <= p <= lo + n)%nat -> has it = (p <? lo + n)%nat) -> at_ lo it ->
  exists b s1 it' s',
    (if negb (Z.of_nat n =? 0) then AllocArtFieldArray (Z.of_nat n) else mret 0) s = Ok (b, s1) /\
    elements b sizeof_ArtField (Z.of_nat n) = elements base sizeof_ArtField (Z.of_nat n) /\
    for_members fuel has (load_field_body le klass (Z.of_nat n) b) data 0 it tt s1 = Ok ((it', tt), s') /\
    at_ (lo + n) it' /\ ld_alloc s' = more /\ field_frame (heap_of s) (heap_of s') /\
    (forall k a, elements base sizeof_ArtField (Z.of_nat n) !! k = Some a ->
       h_fields (heap_of s') !! a = Some (loaded_field le klass (mc_dex_file c) (member_at (lo + k)))) /\
    (forall q, q ∉ elements base sizeof_ArtField (Z.of_nat n) -> h_fields (heap_of s') !! q = h_fields (heap_of s) !! q).
Proof using Hwf.
  intros Hb Hal Hc Hnd Hn Hfuel Hhas Hat.
  destruct (alloc_fields_ok n base more s Hb Hal) as (b & s1 & E1 & Eel & _ & Hal1 & _ & Hf1 & Hfr1).
  assert (Hfresh : loading_fields c b lo n lo s1 s1).
  { split; [|done]. rewrite Nat.sub_diag. apply filled_fresh. intros q. rewrite Eel. case_decide as Hq; [|done].
    by rewrite Hf1, decide_True. }
  destruct (load_fields_ok c b lo n has it s1 fuel) as (it' & s' & E2 & Hat' & Hl & Hfr2 & Hal2); try done.
  { by rewrite (proj1 (proj2 Hfr1)). }
  { by rewrite Eel. }
  exists b, s1, it', s'. split; [exact E1|]. split; [exact Eel|]. split; [exact E2|]. split; [exact Hat'|].
  split; [congruence|]. replace (lo + n - lo)%nat with n in Hl by lia. split; [|split].
  - unfold field_frame in *. naive_solver congruence.
  - intros k a Ha. rewrite <- Eel in Ha.
    apply (filled_all (elements b sizeof_ArtField (Z.of_nat n)) (fun k => loaded_field le klass (mc_dex_file c) (member_at (lo + k)))
             fresh_field (h_fields (heap_of s1)) _ k a); [|done]. by rewrite elements_length.
  - intros q Hq. rewrite (proj2 Hl) by (by rewrite Eel). by rewrite Hf1, decide_False.
Qed.

(** Loading one array of methods that was allocated. *)
Lemma methods_phase body c base lo n has it v s fuel :
  (forall p it v s1, (lo <= p < lo + n)%nat -> at_ p it -> loading_methods c base lo n p s v s1 ->
     exists v' s', body (Z.of_nat (p - lo)) it v s1 = Ok (v', s') /\ loading_methods c base lo n (S p) s v' s') ->
  (exists c', h_classes (heap_of s) !! klass = Some c' /\ maybe_finalizable c c') ->
  (forall q, q ∈ elements base (le_method_size le) (Z.of_nat n) -> h_methods (heap_of s) !! q = Some fresh_method) ->
  (ly_fields ly <= lo)%nat -> (lo + n <= ly_total ly)%nat -> (n <= fuel)%nat ->
  class_def_method_index v = Z.of_nat (lo - ly_fields ly) ->
  (forall p it, at_ p it -> (lo <= p <= lo + n)%nat -> has it = (p <? lo + n)%nat) -> at_ lo it ->
  exists it' v' s', for_members fuel has body data 0 it v s = Ok ((it', v'), s') /\
    at_ (lo + n) it' /\ method_frame c (heap_of s) (heap_of s') /\
    class_def_method_index v' = Z.of_nat (lo + n - ly_fields ly) /\
    (forall k a, elements base (le_method_size le) (Z.of_nat n) !! k = Some a ->
       h_methods (heap_of s') !! a = Some (linked_method c (lo + k))) /\
    (forall q, q ∉ elements base (le_method_size le) (Z.of_nat n) -> h_methods (heap_of s') !! q = h_methods (heap_of s) !! q).
Proof using Hwf.
  intros Hbody Hc Hfresh Hlo Hn Hfuel Hv Hhas Hat.
  assert (Hinit : loading_methods c base lo n lo s v s).
  { split; [|split; [|exact Hv]].
    - rewrite Nat.sub_diag. apply filled_fresh. intros q. case_decide as Hq; [by apply Hfresh|done].
    - by constructor. }
  destruct (load_methods_loop c base lo n has body it v s fuel Hlo Hn Hfuel Hhas Hbody Hat Hinit)
    as (it' & v' & s' & E & Hat' & Hl & Hfr & Hv').
  exists it', v', s'. split; [exact E|]. split; [exact Hat'|]. split; [exact Hfr|]. split; [exact Hv'|].
  replace (lo + n - lo)%nat with n in Hl by lia. split; [|apply Hl]. intros k a Ha.
  apply (filled_all (elements base (le_method_size le) (Z.of_nat n)) (fun k => linked_method c (lo + k))
           fresh_method (h_methods (heap_of s)) _ k a); [|done]. by rewrite elements_length.
Qed.

(** The two field arrays. *)
Lemma load_both_fields ar c s it fuel :
  arrays_ok ar s -> h_classes (heap_of s) !! klass = Some c -> at_ 0 it -> (ly_total ly <= fuel)%nat ->
  exists it' s',
    (forall B (k : ClassDataItemIterator -> M LoadState B),
     (sfields ← (if negb (NumStaticFields it =? 0) then AllocArtFieldArray (NumStaticFields it) else mret 0);
     '(it1, _) ← for_members fuel HasNextStaticField (load_field_body le klass (NumStaticFields it) sfields) data 0 it tt;
     update_class klass (set_class_fields (Some (elements sfields sizeof_ArtField (NumStaticFields it))) None) ;;
     ifields ← (if negb (NumInstanceFields it1 =? 0) then AllocArtFieldArray (NumInstanceFields it1) else mret 0);
     '(it2, _) ← for_members fuel HasNextInstanceField (load_field_body le klass (NumInstanceFields it1) ifields) data 0 it1 tt;
     update_class klass (set_class_fields None (Some (elements ifields sizeof_ArtField (NumInstanceFields it1)))) ;;
     k it2) s = k it' s') /\
    at_ (ly_fields ly) it' /\
    (exists more, ld_alloc s' = request (ly_direct ly) (ar_direct ar) ++ request (ly_virtual ly) (ar_virtual ar) ++ more) /\
    h_methods (heap_of s') = h_methods (heap_of s) /\
    h_classes (heap_of s') = <[klass := set_class_fields (Some (sfield_addrs ar)) (Some (ifield_addrs ar)) c]> (h_classes (heap_of s)) /\
    h_dex_files (heap_of s') = h_dex_files (heap_of s) /\ h_class_table (heap_of s') = h_class_table (heap_of s) /\
    h_pre_zygote_class_table (heap_of s') = h_pre_zygote_class_table (heap_of s) /\
    (forall k a, (sfield_addrs ar ++ ifield_addrs ar) !! k = Some a ->
       h_fields (heap_of s') !! a = Some (loaded_field le klass (mc_dex_file c) (member_at k))) /\
    (forall q, q ∉ sfield_addrs ar ++ ifield_addrs ar -> h_fields (heap_of s') !! q = h_fields (heap_of s) !! q).
Proof using Hwf.
  intros Har Hc Hat Hfuel. destruct (ao_alloc _ _ Har) as [more Hal]. destruct (ao_nonnull _ _ Har) as (Hb1 & Hb2 & _).
  pose proof (ao_fields _ _ Har) as Hnd. apply NoDup_app in Hnd as (Hnd1 & Hdis & Hnd2).
  assert (Hsz : (ly_static ly <= ly_fields ly <= ly_total ly)%nat) by (unfold ly_total, ly_methods, ly_fields; lia).
  assert (Hnum : forall p it, at_ p it -> NumStaticFields it = Z.of_nat (ly_static ly) /\ NumInstanceFields it = Z.of_nat (ly_instance ly)).
  { intros p it0 H0. unfold NumStaticFields, NumInstanceFields. by rewrite (ap_header _ _ _ _ _ _ H0). }
  destruct (fields_phase (ly_static ly) 0 (ar_sfields ar) _ HasNextStaticField it c s fuel Hb1 Hal Hc Hnd1)
    as (b1 & s1 & it1 & s2 & E1 & El1 & E2 & Hat1 & Hal2 & (Fm & Fc & Fd & Ft & Fz) & Hf2 & Ho2); try lia.
  { intros p it0 H0 Hp. by rewrite (proj1 (has_next p it0 H0)). }
  { exact Hat. }
  cbn [Nat.add] in Hat1. rewrite <- Fc in Hc.
  set (c1 := set_class_fields (Some (sfield_addrs ar)) None c). set (s3 := with_class klass c1 s2).
  destruct (fields_phase (ly_instance ly) (ly_static ly) (ar_ifields ar) _ HasNextInstanceField it1 c1 s3 fuel Hb2 Hal2
              (lookup_insert_eq _ _ _) Hnd2)
    as (b2 & s4 & it2 & s5 & E3 & El2 & E4 & Hat2 & Hal5 & (Gm & Gc & Gd & Gt & Gz) & Hf5 & Ho5);
    try (unfold ly_fields in *; lia).
  { intros p it0 H0 Hp. destruct (has_next p it0 H0) as (_ & -> & _). unfold ly_fields.
    by rewrite (proj2 (Nat.leb_le _ _)) by lia. }
  { exact Hat1. }
  assert (Hc5 : h_classes (heap_of s5) !! klass = Some c1) by (rewrite Gc; apply lookup_insert_eq).
  exists it2, (with_class klass (set_class_fields None (Some (ifield_addrs ar)) c1) s5). split.
  { intros B k. rewrite (proj1 (Hnum _ _ Hat)), (bind_ok _ _ _ _ _ E1), (bind_ok _ _ _ _ _ E2).
    rewrite (run_update_class _ _ _ _ _ Hc), (proj2 (Hnum _ _ Hat1)), El1. fold (sfield_addrs ar) c1 s3.
    rewrite (bind_ok _ _ _ _ _ E3), (bind_ok _ _ _ _ _ E4).
    by rewrite (run_update_class _ _ _ _ _ Hc5), El2. }
  split; [exact Hat2|]. split; [exists more; exact Hal5|].
  cbn [heap_of with_class with_heap ld_code cs_heap set_classes h_methods h_classes h_dex_files h_class_table h_pre_zygote_class_table h_fields].
  fold (heap_of s5). split; [by rewrite Gm|]. split.
  { rewrite Gc. subst s3. cbn. rewrite insert_insert_eq. fold (heap_of s2). by rewrite Fc. }
  split; [by rewrite Gd|]. split; [by rewrite Gt|]. split; [by rewrite Gz|]. split.
  - intros k0 a. rewrite lookup_app. destruct (sfield_addrs ar !! k0) as [a'|] eqn:Ek.
    + intros [= <-]. rewrite Ho5 by (apply (Hdis a'), (list_elem_of_lookup_2 _ k0), Ek).
      apply (Hf2 _ _ Ek).
    + intros Ha. apply lookup_ge_None in Ek. unfold sfield_addrs in Ek, Ha. rewrite elements_length in Ek, Ha.
      rewrite (Hf5 _ _ Ha). do 3 f_equal. lia.
  - intros q Hq. rewrite not_elem_of_app in Hq. rewrite Ho5 by apply Hq. apply Ho2, (proj1 Hq).
Qed.

(** Allocating the two method arrays and entering them in the class. *)
Lemma alloc_both_methods ar c s it :
  ar_direct ar <> 0 -> ar_virtual ar <> 0 ->
  (exists more, ld_alloc s = request (ly_direct ly) (ar_direct ar) ++ request (ly_virtual ly) (ar_virtual ar) ++ more) ->
  h_classes (heap_of s) !! klass = Some c -> at_ (ly_fields ly) it ->
  exists b1 b2 s',
    (forall B (k : Z -> Z -> M LoadState B),
     (direct_methods ← (if negb (NumDirectMethods it =? 0) then AllocArtMethodArray le (NumDirectMethods it) else mret 0);
      virtual_methods ← (if negb (NumVirtualMethods it =? 0) then AllocArtMethodArray le (NumVirtualMethods it) else mret 0);
      update_class klass (set_class_methods (elements direct_methods (le_method_size le) (NumDirectMethods it))
                            (elements virtual_methods (le_method_size le) (NumVirtualMethods it))) ;;
      k direct_methods virtual_methods) s = k b1 b2 s') /\
    elements b1 (le_method_size le) (Z.of_nat (ly_direct ly)) = direct_addrs ar /\
    elements b2 (le_method_size le) (Z.of_nat (ly_virtual ly)) = virtual_addrs ar /\
    (forall q, h_methods (heap_of s') !! q =
       if decide (q ∈ direct_addrs ar ++ virtual_addrs ar) then Some fresh_method else h_methods (heap_of s) !! q) /\
    method_frame (set_class_methods (direct_addrs ar) (virtual_addrs ar) c) (heap_of s) (heap_of s').
Proof using Hwf.
  intros Hb1 Hb2 [more Hal] Hc Hat.
  assert (NumDirectMethods it = Z.of_nat (ly_direct ly) /\ NumVirtualMethods it = Z.of_nat (ly_virtual ly)) as [-> ->].
  { unfold NumDirectMethods, NumVirtualMethods. by rewrite (ap_header _ _ _ _ _ _ Hat). }
  destruct (alloc_methods_ok le (ly_direct ly) (ar_direct ar) _ s Hb1 Hal)
    as (b1 & s1 & E1 & El1 & _ & Hal1 & _ & Hm1 & F1 & F2 & F3 & F4 & F5).
  destruct (alloc_methods_ok le (ly_virtual ly) (ar_virtual ar) _ s1 Hb2 Hal1)
    as (b2 & s2 & E2 & El2 & _ & _ & _ & Hm2 & G1 & G2 & G3 & G4 & G5).
  assert (Hc2 : h_classes (heap_of s2) !! klass = Some c) by (by rewrite G2, F2).
  exists b1, b2, (with_class klass (set_class_methods (direct_addrs ar) (virtual_addrs ar) c) s2). split.
  { intros B k. rewrite (bind_ok _ _ _ _ _ E1), (bind_ok _ _ _ _ _ E2).
    by rewrite (run_update_class _ _ _ _ _ Hc2), El1, El2. }
  split; [exact El1|]. split; [exact El2|].
  cbn [heap_of with_class with_heap ld_code cs_heap set_classes h_methods]. fold (heap_of s2). split.
  - intros q. rewrite Hm2, Hm1. unfold direct_addrs, virtual_addrs.
    repeat case_decide; try done; exfalso; rewrite elem_of_app in *; tauto.
  - constructor; cbn [set_classes h_fields h_classes h_dex_files h_class_table h_pre_zygote_class_table]; try congruence.
    + eexists. split; [apply lookup_insert_eq|by left].
    + intros q Hq. rewrite lookup_insert_ne by done. congruence.
Qed.

Lemma method_frame_trans c c1 h0 h1 h2 : method_frame c h0 h1 -> method_frame c1 h1 h2 -> method_frame c1 h0 h2.
Proof.
  intros H1 H2. constructor; [|apply H2| | | |].
  - by rewrite (mf_fields _ _ _ H2), (mf_fields _ _ _ H1).
  - intros q Hq. by rewrite (mf_classes _ _ _ H2 q Hq), (mf_classes _ _ _ H1 q Hq).
  - by rewrite (mf_dex _ _ _ H2), (mf_dex _ _ _ H1).
  - by rewrite (mf_table _ _ _ H2), (mf_table _ _ _ H1).
  - by rewrite (mf_zygote _ _ _ H2), (mf_zygote _ _ _ H1).
Qed.

(** The two method arrays. *)
Lemma load_both_methods ar c s it fuel :
  NoDup (direct_addrs ar ++ virtual_addrs ar) -> ar_direct ar <> 0 -> ar_virtual ar <> 0 ->
  (exists more, ld_alloc s = request (ly_direct ly) (ar_direct ar) ++ request (ly_virtual ly) (ar_virtual ar) ++ more) ->
  h_classes (heap_of s) !! klass = Some c -> IsProxyClass c = false -> at_ (ly_fields ly) it -> (ly_total ly <= fuel)%nat ->
  exists s',
    (direct_methods ← (if negb (NumDirectMethods it =? 0) then AllocArtMethodArray le (NumDirectMethods it) else mret 0);
     virtual_methods ← (if negb (NumVirtualMethods it =? 0) then AllocArtMethodArray le (NumVirtualMethods it) else mret 0);
     update_class klass (set_class_methods (elements direct_methods (le_method_size le) (NumDirectMethods it))
                           (elements virtual_methods (le_method_size le) (NumVirtualMethods it))) ;;
     '(it, v) ← for_members fuel HasNextDirectMethod (load_direct_body le ins klass oat_class direct_methods) data 0 it
                  (mkMethodLocals 0 kDexNoIndex 0);
     '(it, v) ← for_members fuel HasNextVirtualMethod (load_virtual_body le ins klass oat_class virtual_methods) data 0 it v;
     mret tt) s = Ok (tt, s') /\
    method_frame (set_class_methods (direct_addrs ar) (virtual_addrs ar) c) (heap_of s) (heap_of s') /\
    (forall k a, (direct_addrs ar ++ virtual_addrs ar) !! k = Some a ->
       h_methods (heap_of s') !! a = Some (linked_method c (ly_fields ly + k))) /\
    (forall q, q ∉ direct_addrs ar ++ virtual_addrs ar -> h_methods (heap_of s') !! q = h_methods (heap_of s) !! q).
Proof using Hwf Haot.
  intros Hnd Hb1 Hb2 Hal Hc Hpr Hat Hfuel. apply NoDup_app in Hnd as (Hnd1 & Hdis & Hnd2).
  assert (Hsz : (ly_fields ly + ly_direct ly = ly_methods ly /\ ly_methods ly + ly_virtual ly = ly_total ly)%nat) by done.
  destruct (alloc_both_methods ar c s it Hb1 Hb2 Hal Hc Hat) as (b1 & b2 & s3 & E & El1 & El2 & Hm3 & Hfr3). rewrite E. clear E.
  set (c1 := set_class_methods (direct_addrs ar) (virtual_addrs ar) c) in *.
  destruct (methods_phase (load_direct_body le ins klass oat_class b1) c1 b1 (ly_fields ly) (ly_direct ly) HasNextDirectMethod it
              (mkMethodLocals 0 kDexNoIndex 0) s3 fuel) as (it1 & v1 & s4 & E3 & Hat1 & Hfr1 & Hv1 & Hd & Ho1);
    [|apply Hfr3| |lia|lia|lia|cbn; lia| |exact Hat|].
  { intros. apply load_direct_step; first [done|by rewrite El1|lia]. }
  { rewrite El1. intros q Hq. rewrite Hm3, decide_True by (apply elem_of_app; by left). done. }
  { intros p it0 H0 Hp. destruct (has_next p it0 H0) as (_ & _ & -> & _). by rewrite (proj2 (Nat.leb_le _ _)) by lia. }
  rewrite El1 in Hd, Ho1. rewrite (bind_ok _ _ _ _ _ E3).
  destruct (methods_phase (load_virtual_body le ins klass oat_class b2) c1 b2 (ly_methods ly) (ly_virtual ly) HasNextVirtualMethod it1
              v1 s4 fuel) as (it2 & v2 & s5 & E4 & Hat2 & Hfr2 & Hv2 & Hvm & Ho2);
    [|apply Hfr1| |lia|lia|lia|exact Hv1| |exact Hat1|].
  { intros. apply load_virtual_step; first [done|by rewrite El2|lia]. }
  { rewrite El2. intros q Hq. rewrite Ho1, Hm3, decide_True; [done|apply elem_of_app; by right|].
    intros Hin. by apply (Hdis q). }
  { intros p it0 H0 Hp. destruct (has_next p it0 H0) as (_ & _ & _ & ->). by rewrite (proj2 (Nat.leb_le _ _)) by lia. }
  rewrite El2 in Hvm, Ho2. rewrite (bind_ok _ _ _ _ _ E4). exists s5. split; [done|].
  split; [by eapply method_frame_trans; [exact Hfr3|]; eapply method_frame_trans|]. split.
  - intros k a. rewrite lookup_app. destruct (direct_addrs ar !! k) as [a'|] eqn:Ek.
    + intros [= <-]. rewrite Ho2 by (apply (Hdis a'), (list_elem_of_lookup_2 _ k), Ek). apply (Hd _ _ Ek).
    + intros Ha. apply lookup_ge_None in Ek. unfold direct_addrs in Ek, Ha. rewrite elements_length in Ek, Ha.
      rewrite (Hvm _ _ Ha). do 2 f_equal. lia.
  - intros q Hq. pose proof Hq as Hq'. rewrite not_elem_of_app in Hq'.
    rewrite Ho2, Ho1, Hm3, decide_False by (exact Hq || apply Hq'). done.
Qed.

Lemma LoadClassMembers_ok ar c s ptr :
  arrays_ok ar s -> h_classes (heap_of s) !! klass = Some c -> IsProxyClass c = false ->
  0 < ptr -> drop (Z.to_nat ptr) data = class_bytes ly ms ++ rest ->
  exists s', LoadClassMembers le ins data ptr klass oat_class s = Ok (tt, s') /\
    members_loaded ar c (heap_of s) (heap_of s').
Proof using Hwf Haot.
  intros Har Hc Hpr Hptr Hd. destruct (new_at ly ms Hwf data rest ptr Hptr Hd) as (it & E & Hat).
  unfold LoadClassMembers. rewrite E, bind_lift. cbv zeta.
  set (fuel := Z.to_nat (EndOfVirtualMethodsPos it)).
  assert (Hfuel : (ly_total ly <= fuel)%nat).
  { subst fuel. destruct (at_ends ly ms Hwf data rest 0 it Hat) as (_ & _ & _ & ->). lia. }
  destruct (load_both_fields ar c s it fuel) as (it1 & s1 & E1 & Hat1 & Hal1 & F1 & F2 & F3 & F4 & F5 & Hf & Ho);
    [done..|]. rewrite E1. clear E1.
  destruct (load_both_methods ar (set_class_fields (Some (sfield_addrs ar)) (Some (ifield_addrs ar)) c) s1 it1 fuel)
    as (s2 & E2 & [G1 G2 G3 G4 G5 G6] & Hm & Hom);
    [apply Har|apply Har|apply Har|exact Hal1|rewrite F2; apply lookup_insert_eq|exact Hpr|exact Hat1|exact Hfuel|].
  exists s2. split; [exact E2|]. constructor.
  - exact Hm.
  - intros k a Ha. rewrite G1. by apply Hf.
  - exact G2.
  - intros q Hq. rewrite Hom by done. by rewrite F1.
  - intros q Hq. rewrite G1. by apply Ho.
  - intros q Hq. rewrite G3, F2 by done. by apply lookup_insert_ne.
  - congruence.
  - split; congruence.
Qed.

End Load.

(** ** Marking the class and replacing trampolines *)

Definition class_set_status (status : Z) (c : Class_) : Class_ :=
  mkClass status (mc_access_flags c) (mc_component_type c) (mc_primitive_type c) (mc_descriptor c) (mc_dex_file c)
    (mc_direct_methods c) (mc_virtual_methods c) (mc_ifields c) (mc_sfields c).

(** What [LinkClass] and [InitializeClass] do to the status of the class. *)
Definition with_status (klass status : Z) (s : LoadState) : LoadState :=
  match h_classes (heap_of s) !! klass with
  | Some c => with_class klass (class_set_status status c) s
  | None => s
  end.

Definition interpreted (m : ArtMethod) : Prop :=
  am_entry_quick m = QuickToInterpreterBridge /\ am_entry_interpreter m = artInterpreterToInterpreterBridge.

Lemma LoadClass_ok env le ins klass ly ms rest ar c s :
  members_wf ly ms -> le_is_aot_compiler le = false -> arrays_ok le ly ar s ->
  h_classes (heap_of s) !! klass = Some c -> IsProxyClass c = false -> 0 < le_class_data le klass ->
  drop (Z.to_nat (le_class_data le klass)) (le_memory le (mc_dex_file c)) = class_bytes ly ms ++ rest ->
  exists s', LoadClass env le ins klass s = Ok (tt, s') /\
    members_loaded le ins klass (if env_is_started env then le_oat_class le klass else None) ly ms ar c
      (heap_of s) (heap_of s').
Proof.
  intros Hwf Haot Har Hc Hpr Hp Hd. unfold LoadClass. rewrite (run_load_at _ _ _ _ _ Hc). cbv zeta.
  rewrite (proj2 (Z.eqb_neq _ _)) by lia. rewrite Haot. cbn [negb]. rewrite andb_true_r.
  by apply (LoadClassMembers_ok le ins klass _ ly ms Hwf _ rest Haot ar c s).
Qed.

(** The code of a method whose class is not marked is not touched. *)
Lemma install_unmarked env ins klass c s :
  h_classes (heap_of s) !! klass = Some c -> class_IsMiniTraceable c = false ->
  code_op (InstallStubsForClass env ins klass) s = Ok (tt, s).
Proof.
  intros Hc Hm. unfold code_op, InstallStubsForClass. rewrite bind_gets. fold (heap_of s). unfold deref. rewrite Hc, bind_lift.
  rewrite Hm. cbn [negb]. destruct s as [[]]. by destruct (IsErroneous c), (IsResolved c).
Qed.

Lemma selected_same whitelist h h' c c' :
  h_dex_files h' = h_dex_files h -> plain_class c' = plain_class c -> mc_dex_file c' = mc_dex_file c ->
  mc_descriptor c' = mc_descriptor c -> selected whitelist h' c' <-> selected whitelist h c.
Proof. intros Hd Hp Hx Hn. unfold selected. by rewrite Hd, Hp, Hx, Hn. Qed.

(** Only what the tracer reads of the class matters to it. *)
Lemma class_view ar le ly c c' status :
  maybe_finalizable (loaded_class le ly ar c) c' ->
  let c'' := class_set_status status c' in
  plain_class c'' = plain_class c /\ mc_dex_file c'' = mc_dex_file c /\ mc_descriptor c'' = mc_descriptor c /\
  class_IsMiniTraceable c'' = class_IsMiniTraceable c /\ IsProxyClass c'' = IsProxyClass c /\ mc_status c'' = status /\
  mc_direct_methods c'' = direct_addrs le ly ar /\ mc_virtual_methods c'' = virtual_addrs le ly ar /\
  mc_sfields c'' = sfield_addrs ly ar /\ mc_ifields c'' = ifield_addrs ly ar.
Proof.
  intros Hmay. assert (Hflag : forall n, 0 <= n -> n <> 31 ->
    HasFlag (mc_access_flags c') (2 ^ n) = HasFlag (mc_access_flags c) (2 ^ n)).
  { intros n Hn Hne. destruct Hmay as [->| ->]; [done|]. cbn. change kAccClassIsFinalizable with (2 ^ 31).
    by rewrite HasFlag_lor_other by lia. }
  pose proof (Hflag 9 ltac:(lia) ltac:(lia)) as H9. pose proof (Hflag 18 ltac:(lia) ltac:(lia)) as H18.
  pose proof (Hflag 30 ltac:(lia) ltac:(lia)) as H30.
  cbv zeta. unfold plain_class, IsArrayClass, IsInterface, IsPrimitive, IsProxyClass, class_IsMiniTraceable.
  cbn [class_set_status mc_access_flags mc_component_type mc_primitive_type mc_dex_file mc_descriptor mc_status
       mc_direct_methods mc_virtual_methods mc_sfields mc_ifields].
  change kAccInterface with (2 ^ 9). change kAccClassIsProxy with (2 ^ 18). change kAccIsMiniTraceable with (2 ^ 30).
  rewrite H9, H18, H30. by destruct Hmay as [->| ->].
Qed.

Section Resolved.
Context (env : RuntimeEnv) (le : LoadEnv) (ins : Instrumentation) (klass : Z) (oat_class : option (Z -> QuickCode)).
Context (ly : Layout) (ms : list Member) (Hwf : members_wf ly ms) (ar : Arrays) (c : Class_).
Context (whitelist : option (list string)).

(** Everything the tracer asks of the methods it marks: that they have code. *)
Definition methods_have_code (h : Heap) : Prop :=
  exists d, h_dex_files h !! mc_dex_file c = Some d /\
    (selected whitelist h c -> forall p mem, (ly_fields ly <= p)%nat -> ms !! p = Some mem ->
       exists item, GetCodeItem d (m_code mem) = Ok (Some item)).

(** That the code items of the methods that have one are in the dex file. *)
Definition methods_readable (h : Heap) : Prop :=
  exists d, h_dex_files h !! mc_dex_file c = Some d /\
    (selected whitelist h c -> forall p mem, (ly_fields ly <= p)%nat -> ms !! p = Some mem ->
       exists item, GetCodeItem d (m_code mem) = Ok item).

Lemma addrs_member k a :
  (direct_addrs le ly ar ++ virtual_addrs le ly ar) !! k = Some a ->
  exists mem, ms !! (ly_fields ly + k)%nat = Some mem /\ member_at ms (ly_fields ly + k) = mem.
Proof using Hwf.
  intros Ha. apply lookup_lt_Some in Ha. rewrite length_app in Ha. unfold direct_addrs, virtual_addrs in Ha.
  rewrite !elements_length in Ha.
  destruct (lookup_lt_is_Some_2 ms (ly_fields ly + k)) as [mem Hm].
  { rewrite (mw_length _ _ Hwf). unfold ly_total, ly_methods. lia. }
  exists mem. split; [done|]. unfold member_at. by rewrite Hm.
Qed.

Section Prepared.
Context (h0 h : Heap) (c' : Class_) (d : DexFile).
Context (Hl : members_loaded le ins klass oat_class ly ms ar c h0 h) (Hc : h_classes h !! klass = Some c').
Context (Hmay : maybe_finalizable (loaded_class le ly ar c) c') (Hd : h_dex_files h0 !! mc_dex_file c = Some d).

#[local] Abbreviation h' := (set_classes (<[klass := class_set_status kStatusResolved c']> (h_classes h)) h).

(** The code item of a method that was loaded. *)
Lemma loaded_code_item k a : (direct_addrs le ly ar ++ virtual_addrs le ly ar) !! k = Some a ->
  exists mem m, ms !! (ly_fields ly + k)%nat = Some mem /\ h_methods h' !! a = Some m /\ method_GetCodeItem h' m = GetCodeItem d (m_code mem).
Proof using Hwf Hl Hc Hmay Hd.
  intros Ha. destruct (class_view ar le ly c c' kStatusResolved Hmay) as (_ & Vd & _).
  destruct (addrs_member k a Ha) as (mem & Hm & Hat).
  exists mem, (linked_method le ins klass oat_class ly ms c (ly_fields ly + k)). split; [done|]. cbn [set_classes h_methods].
  split; [by apply (ml_methods _ _ _ _ _ _ _ _ _ _ Hl)|]. unfold method_GetCodeItem, method_dex_file, GetDeclaringClass, deref.
  replace (am_declaring_class (linked_method le ins klass oat_class ly ms c (ly_fields ly + k))) with klass
    by (unfold linked_method, link_result; by destruct oat_class).
  replace (am_dex_code_item_offset (linked_method le ins klass oat_class ly ms c (ly_fields ly + k))) with (m_code mem)
    by (unfold linked_method, link_result; rewrite Hat; by destruct oat_class).
  cbn [h_classes set_classes h_dex_files]. rewrite lookup_insert_eq.
  cbn [mbind outcome_bind mret outcome_ret]. rewrite Vd.
  rewrite (ml_dex _ _ _ _ _ _ _ _ _ _ Hl), Hd. done.
Qed.

Lemma loaded_selected : selected whitelist h' (class_set_status kStatusResolved c') <-> selected whitelist h0 c.
Proof using Hl Hmay.
  destruct (class_view ar le ly c c' kStatusResolved Hmay) as (Vp & Vd & Vn & _).
  apply selected_same; [apply (ml_dex _ _ _ _ _ _ _ _ _ _ Hl)|done..].
Qed.

Lemma loaded_described : methods_readable h0 -> described whitelist h' klass.
Proof using Hwf Hl Hc Hmay Hd.
  intros (d1 & Hd1 & Hread). assert (d1 = d) as -> by congruence.
  destruct (class_view ar le ly c c' kStatusResolved Hmay) as (Vp & Vd & Vn & _ & _ & _ & Vdm & Vvm & Vsf & Vif).
  exists (class_set_status kStatusResolved c'). split; [apply lookup_insert_eq|]. rewrite Vd, Vdm, Vvm, Vsf, Vif.
  split; [intros _ _; exists d; cbn; by rewrite (ml_dex _ _ _ _ _ _ _ _ _ _ Hl)|]. intros Hsel%loaded_selected. split.
  - apply Forall_lookup. intros k a Ha. destruct (loaded_code_item k a Ha) as (mem & m & Hm & Hlm & Hi).
    destruct (Hread Hsel (ly_fields ly + k)%nat mem) as [item Hitem]; [lia|done|]. exists m, item. by rewrite Hi.
  - assert (Hf : Forall (fun p => is_Some (h_fields h' !! p)) (sfield_addrs ly ar ++ ifield_addrs ly ar)).
    { apply Forall_lookup. intros k a Ha. cbn. rewrite (ml_fields _ _ _ _ _ _ _ _ _ _ Hl _ _ Ha). eauto. }
    rewrite Forall_app in Hf |- *. tauto.
Qed.

Lemma loaded_preparable : methods_readable h0 -> (preparable whitelist h' klass <-> methods_have_code h0).
Proof using Hwf Hl Hc Hmay Hd.
  intros Hread. rewrite (described_preparable _ _ _ (loaded_described Hread)). unfold chosen, class_methods.
  cbn [set_classes h_classes]. rewrite lookup_insert_eq.
  destruct (class_view ar le ly c c' kStatusResolved Hmay) as (_ & _ & _ & _ & _ & _ & -> & -> & _).
  rewrite loaded_selected. split.
  - intros Hcode. exists d. split; [done|]. intros Hsel p mem Hp Hm. specialize (Hcode Hsel). rewrite Forall_lookup in Hcode.
    destruct (lookup_lt_is_Some_2 (direct_addrs le ly ar ++ virtual_addrs le ly ar) (p - ly_fields ly)) as [a Ha].
    { rewrite length_app. unfold direct_addrs, virtual_addrs. rewrite !elements_length. apply lookup_lt_Some in Hm.
      rewrite (mw_length _ _ Hwf) in Hm. unfold ly_total, ly_methods in Hm. lia. }
    destruct (loaded_code_item _ a Ha) as (mem' & m & Hm' & Hlm & Hi). replace (ly_fields ly + (p - ly_fields ly))%nat with p in Hm' by lia.
    destruct (Hcode _ a Ha) as (m' & item & Hlm' & Hi'). exists item. assert (m' = m) as -> by congruence. assert (mem' = mem) as -> by congruence. congruence.
  - intros (d1 & Hd1 & Hcode) Hsel. assert (d1 = d) as -> by congruence. apply Forall_lookup. intros k a Ha.
    destruct (loaded_code_item k a Ha) as (mem & m & Hm & Hlm & Hi). destruct (Hcode Hsel (ly_fields ly + k)%nat mem) as [item Hitem]; [lia|done|].
    exists m, item. by rewrite Hi.
Qed.

End Prepared.

Lemma have_code_readable h : methods_have_code h -> methods_readable h.
Proof. intros (d & Hd & Hc). exists d. split; [done|]. intros Hsel p mem Hp Hm. destruct (Hc Hsel p mem Hp Hm) as [item Hi]. eauto. Qed.

(** A method that is to be marked and has no code. *)
Lemma DefineClass_resolved_fault s0 s :
  members_loaded le ins klass oat_class ly ms ar c (heap_of s0) (heap_of s) -> class_IsMiniTraceable c = false ->
  methods_readable (heap_of s0) -> ~ methods_have_code (heap_of s0) ->
  DefineClass_resolved env ins whitelist klass (with_status klass kStatusResolved s) = Fault NullDereference.
Proof using Hwf.
  intros Hl Hun Hread Hn. destruct (ml_class _ _ _ _ _ _ _ _ _ _ Hl) as (c1 & Hc1 & Hmay). pose proof Hread as (d & Hd & _).
  pose proof (loaded_described _ _ _ d Hl Hc1 Hmay Hd Hread) as Hdes. rewrite <- (loaded_preparable _ _ _ d Hl Hc1 Hmay Hd Hread) in Hn.
  destruct (class_view ar le ly c c1 kStatusResolved Hmay) as (Vp & Vd & Vn & Vm & Vx & Vs & _).
  unfold with_status. rewrite Hc1. set (c2 := class_set_status kStatusResolved c1) in *. set (s1 := with_class klass c2 s).
  assert (Hc2 : h_classes (heap_of s1) !! klass = Some c2) by apply lookup_insert_eq.
  change (described whitelist (heap_of s1) klass) in Hdes. change (~ preparable whitelist (heap_of s1) klass) in Hn.
  unfold DefineClass_resolved. rewrite (run_load_at _ _ _ _ _ Hc2).
  unfold checkM, check, IsResolved. rewrite Vs. cbn [Z.leb]. rewrite bind_lift.
  rewrite (bind_ok _ _ _ tt s1).
  2:{ unfold whenM. destruct (AreExitStubsInstalled ins); [|done]. apply (install_unmarked env ins klass c2); [done|congruence]. }
  unfold on_heap, code_op. fold (heap_of s1).
  by rewrite (prepare_fault whitelist (heap_of s1) ∅ ∅ ∅ (heap_of s1) klass (marked_refl _) Hdes Hn).
Qed.

Lemma DefineClass_resolved_ok s0 s :
  members_loaded le ins klass oat_class ly ms ar c (heap_of s0) (heap_of s) -> class_IsMiniTraceable c = false ->
  methods_have_code (heap_of s0) ->
  exists s' c', DefineClass_resolved env ins whitelist klass (with_status klass kStatusResolved s) = Ok (tt, s') /\
    (forall k a, (direct_addrs le ly ar ++ virtual_addrs le ly ar) !! k = Some a ->
       h_methods (heap_of s') !! a = Some ((if decide (selected whitelist (heap_of s0) c) then method_SetIsMiniTraceable else id)
                                 (linked_method le ins klass oat_class ly ms c (ly_fields ly + k)))) /\
    h_classes (heap_of s') !! klass = Some c' /\ mc_direct_methods c' = direct_addrs le ly ar /\
    IsProxyClass c' = IsProxyClass c /\ mc_dex_file c' = mc_dex_file c.
Proof using Hwf.
  intros Hl Hun Hcode. destruct (ml_class _ _ _ _ _ _ _ _ _ _ Hl) as (c1 & Hc1 & Hmay).
  pose proof Hcode as (d & Hd & _).
  pose proof (proj2 (loaded_preparable _ _ _ d Hl Hc1 Hmay Hd (have_code_readable _ Hcode)) Hcode) as Hprep.
  destruct (class_view ar le ly c c1 kStatusResolved Hmay) as (Vp & Vd & Vn & Vm & Vx & Vs & Vdm & Vvm & Vsf & Vif).
  unfold with_status. rewrite Hc1. set (c2 := class_set_status kStatusResolved c1) in *. set (s1 := with_class klass c2 s).
  assert (Hc2 : h_classes (heap_of s1) !! klass = Some c2) by apply lookup_insert_eq.
  change (preparable whitelist (heap_of s1) klass) in Hprep.
  unfold DefineClass_resolved. rewrite (run_load_at _ _ _ _ _ Hc2).
  unfold checkM, check, IsResolved. rewrite Vs. cbn [Z.leb]. rewrite bind_lift.
  rewrite (bind_ok _ _ _ tt s1).
  2:{ unfold whenM. destruct (AreExitStubsInstalled ins); [|done]. apply (install_unmarked env ins klass c2); [done|congruence]. }
  destruct (run_prepare whitelist (heap_of s1) ∅ ∅ ∅ (heap_of s1) klass (marked_refl _) Hprep) as (h2 & E2 & Hmk).
  assert (Hch : chosen whitelist (heap_of s1) klass <-> selected whitelist (heap_of s0) c).
  { unfold chosen. rewrite Hc2. apply selected_same; [apply (ml_dex _ _ _ _ _ _ _ _ _ _ Hl)|done..]. }
  exists (with_heap h2 s1).
  assert (Hrun : on_heap (PostClassPrepare whitelist klass) s1 = Ok (tt, with_heap h2 s1))
    by (unfold on_heap, code_op; fold (heap_of s1); by rewrite E2).
  destruct (decide (selected whitelist (heap_of s0) c)) as [Hsel|Hsel].
  - rewrite decide_True in Hmk by (by apply Hch). exists (class_SetIsMiniTraceable c2). split; [exact Hrun|]. split.
    + intros k a Ha. cbn [heap_of with_heap ld_code cs_heap]. rewrite (mk_methods _ _ _ _ _ Hmk).
      change (h_methods (heap_of s1)) with (h_methods (heap_of s)). rewrite (ml_methods _ _ _ _ _ _ _ _ _ _ Hl _ _ Ha).
      rewrite decide_True; [done|]. apply elem_of_union_l, elem_of_list_to_set. unfold class_methods. rewrite Hc2, Vdm, Vvm.
      by eapply list_elem_of_lookup_2.
    + cbn [heap_of with_heap ld_code cs_heap]. rewrite (mk_classes _ _ _ _ _ Hmk), Hc2, decide_True by set_solver.
      split; [done|]. split; [exact Vdm|]. split; [|exact Vd]. rewrite <- Vx. unfold IsProxyClass.
      cbn [class_SetIsMiniTraceable class_set_flags mc_access_flags]. change kAccIsMiniTraceable with (2 ^ 30).
      change kAccClassIsProxy with (2 ^ 18). by rewrite HasFlag_lor_other by lia.
  - rewrite decide_False in Hmk by (by rewrite Hch). subst h2. exists c2. split; [exact Hrun|].
    split; [|split; [exact Hc2|split; [exact Vdm|split; [exact Vx|exact Vd]]]].
    intros k a Ha. cbn [heap_of with_heap ld_code cs_heap id].
    apply (ml_methods _ _ _ _ _ _ _ _ _ _ Hl _ _ Ha).
Qed.

End Resolved.

Section Fixup.
Context (env : RuntimeEnv) (le : LoadEnv) (ins : Instrumentation) (klass : Z).
Context (ly : Layout) (ms : list Member) (Hwf : members_wf ly ms) (data rest : list Z) (c : Class_).
Context (direct : list Z) (Hnd : NoDup direct).
Context (Hres : env_resolution_method env ∉ direct) (Hint : InterpretOnly ins = true) (Hpr : IsProxyClass c = false).

(** A method before and after its trampoline was replaced. *)
Definition fixed (m m' : ArtMethod) : Prop :=
  am_access_flags m' = am_access_flags m /\ (IsStatic m = true -> IsNative m = false -> interpreted m') /\
  (IsStatic m = false -> m' = m).

Record fixing (j : nat) (s0 s : LoadState) : Prop := {
  fx_done : forall k a m, direct !! k = Some a -> h_methods (heap_of s0) !! a = Some m ->
    exists m', h_methods (heap_of s) !! a = Some m' /\ if (k <? j)%nat then fixed m m' else m' = m;
  fx_other : forall q, q ∉ direct -> h_methods (heap_of s) !! q = h_methods (heap_of s0) !! q;
  fx_classes : h_classes (heap_of s) = h_classes (heap_of s0);
}.

(** In interpreter-only mode a static Java method goes to the interpreter. *)
Lemma update_interpreted p s m :
  h_methods (heap_of s) !! p = Some m -> h_classes (heap_of s) !! am_declaring_class m = Some c ->
  p <> env_resolution_method env -> forall code, (IsNative m = false -> code = QuickToInterpreterBridge) ->
  exists m' s', code_op (UpdateMethodsCode env ins p code) s = Ok (tt, s') /\
    h_methods (heap_of s') = <[p := m']> (h_methods (heap_of s)) /\ h_classes (heap_of s') = h_classes (heap_of s) /\
    am_access_flags m' = am_access_flags m /\ (IsNative m = false -> interpreted m').
Proof using Hpr.
  intros Hm Hc Hp code Hcode. unfold code_op, UpdateMethodsCode. destruct s as [[h jit] jni idx al]. cbn [ld_code heap_of cs_heap] in *.
  rewrite (get_method_bind _ _ _ _ _ Hm). set (new := if negb _ then _ else _).
  rewrite (UpdateEntrypoints_ok env _ p new h jit m c Hm Hc Hpr).
  exists (with_code env (IsForcedInterpretOnly ins) p new m). eexists. split; [reflexivity|]. split; [done|]. split; [done|].
  split; [unfold with_code; by destruct (p =? _)|]. intros Hn.
  assert (new = QuickToInterpreterBridge) as ->.
  { subst new. rewrite (Hcode Hn). destruct (negb _); [done|]. by destruct (_ && _). }
  unfold with_code, interpreted. by rewrite (proj2 (Z.eqb_neq _ _) Hp).
Qed.

Lemma fixup_step oat_class j it a s0 s :
  direct !! j = Some a ->
  (exists m, h_methods (heap_of s0) !! a = Some m /\ h_classes (heap_of s0) !! am_declaring_class m = Some c) ->
  fixing j s0 s -> exists s', fixup_body env ins direct oat_class (Z.of_nat j) it tt s = Ok (tt, s') /\ fixing (S j) s0 s'.
Proof using Hnd Hres Hint Hpr.
  intros Ha (m & Hm & Hc) H. unfold fixup_body. rewrite Nat2Z.id, Ha, bind_lift.
  destruct (fx_done _ _ _ H _ _ _ Ha Hm) as (m' & Hm' & Hj). rewrite Nat.ltb_irrefl in Hj. subst m'.
  assert (Hne : a <> env_resolution_method env) by (intros ->; by apply Hres, (list_elem_of_lookup_2 _ j)).
  assert (Hstep : forall s' m', h_methods (heap_of s') = <[a := m']> (h_methods (heap_of s)) ->
    h_classes (heap_of s') = h_classes (heap_of s) -> fixed m m' -> fixing (S j) s0 s').
  { intros s' m' Em Ec Hf. split.
    - intros k b mb Hb Hmb. rewrite Em. destruct (decide (a = b)) as [<-|Hab].
      + assert (k = j) as -> by (by eapply NoDup_lookup). rewrite lookup_insert_eq, (proj2 (Nat.ltb_lt j (S j))) by lia.
        assert (mb = m) as -> by congruence. eauto.
      + rewrite lookup_insert_ne by done. destruct (fx_done _ _ _ H _ _ _ Hb Hmb) as (mb' & -> & Hk).
        exists mb'. split; [done|]. assert (k <> j) by congruence.
        destruct (Nat.ltb_spec k j), (Nat.ltb_spec k (S j)); (done || lia).
    - intros q Hq. rewrite Em, lookup_insert_ne; [by apply (fx_other _ _ _ H)|]. intros ->. by apply Hq, (list_elem_of_lookup_2 _ j).
    - by rewrite Ec, (fx_classes _ _ _ H). }
  rewrite (run_get _ _ _ _ Hm'). destruct (IsStatic m) eqn:Es; cbn [negb].
  2:{ exists s. split; [done|]. apply (Hstep s m); [by rewrite insert_id|done|]. split; [done|]. split; [congruence|done]. }
  cbv zeta. set (code := match oat_class with Some _ => _ | None => _ end). rewrite bind_gets.
  change (cs_heap (ld_code s)) with (heap_of s).
  rewrite (NeedsInterpreter_ok ins _ m c code) by (rewrite ?(fx_classes _ _ _ H); done). rewrite bind_lift, Hint.
  destruct (update_interpreted a s m Hm' ltac:(by rewrite (fx_classes _ _ _ H)) Hne
              (if bool_decide (code = NullCode) || (true && negb (IsNative m)) then
                 if bool_decide (code = NullCode) && IsNative m then QuickGenericJniStub else QuickToInterpreterBridge
               else code)) as (m' & s' & E & Em & Ec & Efl & Hi).
  { intros Hn. rewrite Hn. cbn [negb andb]. by rewrite orb_true_r, andb_false_r. }
  exists s'. split; [exact E|]. apply (Hstep s' m'); [done|done|]. split; [done|]. split; [by intros _|congruence].
Qed.

(** A loop that only advances the iterator. *)
Lemma skip_ok has lo hi it s fuel :
  (lo <= hi <= ly_total ly)%nat -> (hi - lo <= fuel)%nat ->
  (forall p it, at_pos ly ms data rest p it -> (lo <= p <= hi)%nat -> has it = (p <? hi)%nat) ->
  at_pos ly ms data rest lo it ->
  exists it', for_members fuel has skip_body data 0 it tt s = Ok ((it', tt), s) /\ at_pos ly ms data rest hi it'.
Proof using Hwf.
  intros Hlo Hfuel Hhas Hat.
  destruct (for_members_ok (fun _ (_ : unit) s' => s' = s) has skip_body ly ms data rest lo hi Hwf) with
    (fuel := fuel) (p := lo) (it := it) (v := tt) (s := s) as (it' & [] & s' & E & H1 & ->); try done; try lia.
  - intros p it1 [] s1 _ _ ->. by exists tt, s.
  - rewrite Nat.sub_diag in E. eauto.
Qed.

Lemma FixupStaticTrampolines_ok s :
  h_classes (heap_of s) !! klass = Some c -> mc_direct_methods c = direct -> length direct = ly_direct ly ->
  (forall a, a ∈ direct -> exists m, h_methods (heap_of s) !! a = Some m /\ am_declaring_class m = klass) ->
  env_is_started env = true -> le_class_def le klass = true -> 0 < le_class_data le klass ->
  data = le_memory le (mc_dex_file c) ->
  drop (Z.to_nat (le_class_data le klass)) data = class_bytes ly ms ++ rest ->
  exists s', FixupStaticTrampolines env le ins klass s = Ok (tt, s') /\ fixing (length direct) s s'.
Proof using Hwf Hnd Hres Hint Hpr.
  intros Hc Hd Hlen Hms Hst Hdef Hptr Hdt Hdata. unfold FixupStaticTrampolines. rewrite (run_load_at _ _ _ _ _ Hc), Hd.
  assert (H0 : fixing 0 s s) by (split; [intros k a m _ Hm; by exists m|done|done]).
  destruct (Z.eqb_spec (Z.of_nat (length direct)) 0) as [Hz|Hz].
  { exists s. split; [done|]. by replace (length direct) with 0%nat by lia. }
  rewrite Hst, Hdef. cbn [negb andb]. unfold checkM, check. rewrite bind_lift. cbv zeta. rewrite <- Hdt.
  rewrite (proj2 (Z.eqb_neq _ 0)) by lia. cbn [negb]. rewrite bind_lift.
  destruct (new_at ly ms Hwf _ rest _ Hptr Hdata) as (it & E & Hat). rewrite E, bind_lift.
  assert (Hfuel : Z.to_nat (EndOfVirtualMethodsPos it) = ly_total ly).
  { destruct (at_ends ly ms Hwf _ rest 0 it Hat) as (_ & _ & _ & ->). lia. }
  rewrite Hfuel. assert (Hsz : (ly_static ly <= ly_fields ly)%nat /\ (ly_fields ly <= ly_methods ly <= ly_total ly)%nat)
    by (unfold ly_total, ly_methods, ly_fields; lia).
  destruct (skip_ok HasNextStaticField 0 (ly_static ly) it s (ly_total ly)) as (it1 & E1 & Hat1); [lia|lia| |done|].
  { intros p it0 H1 Hp. by rewrite (proj1 (has_next ly ms Hwf _ rest p it0 H1)). }
  rewrite (bind_ok _ _ _ _ _ E1).
  destruct (skip_ok HasNextInstanceField (ly_static ly) (ly_fields ly) it1 s (ly_total ly)) as (it2 & E2 & Hat2); [lia|lia| |done|].
  { intros p it0 H1 Hp. destruct (has_next ly ms Hwf _ rest p it0 H1) as (_ & -> & _). by rewrite (proj2 (Nat.leb_le _ _)) by lia. }
  rewrite (bind_ok _ _ _ _ _ E2).
  destruct (for_members_ok (fun p (_ : unit) s' => fixing (p - ly_fields ly) s s') HasNextDirectMethod
              (fixup_body env ins direct (le_oat_class le klass)) ly ms data rest (ly_fields ly) (ly_methods ly) Hwf)
    with (fuel := ly_total ly) (p := ly_fields ly) (it := it2) (v := tt) (s := s) as (it3 & [] & s' & E3 & _ & H3);
    try lia; try done.
  - intros p it0 H1 Hp. destruct (has_next ly ms Hwf _ rest p it0 H1) as (_ & _ & -> & _). by rewrite (proj2 (Nat.leb_le _ _)) by lia.
  - intros p it0 [] s1 Hp _ HP. replace (S p - ly_fields ly)%nat with (S (p - ly_fields ly)) by lia.
    destruct (lookup_lt_is_Some_2 direct (p - ly_fields ly)) as [a Ha]; [unfold ly_methods in Hp; lia|].
    destruct (fixup_step (le_oat_class le klass) _ it0 a s s1 Ha) as (s2 & E4 & H4); [|done|eauto].
    destruct (Hms a) as (m & Hm & <-); [by eapply list_elem_of_lookup_2|]. eauto.
  - by rewrite Nat.sub_diag.
  - rewrite Nat.sub_diag in E3. exists s'. rewrite (bind_ok _ _ _ _ _ E3). split; [done|].
    replace (length direct) with (ly_methods ly - ly_fields ly)%nat by (unfold ly_methods; lia). exact H3.
Qed.

End Fixup.

(** ** Results *)

Lemma mark_other_flag m n : 0 <= n -> n <> 30 ->
  HasFlag (am_access_flags (method_SetIsMiniTraceable m)) (2 ^ n) = HasFlag (am_access_flags m) (2 ^ n).
Proof.
  intros Hn Hne. cbn [method_SetIsMiniTraceable method_set_flags am_access_flags]. change kAccIsMiniTraceable with (2 ^ 30).
  by rewrite HasFlag_lor_other by lia.
Qed.

Lemma mark_keeps (b : bool) m :
  let m' := (if b then method_SetIsMiniTraceable else id) m in
  IsNative m' = IsNative m /\ IsAbstract m' = IsAbstract m /\ IsStatic m' = IsStatic m /\ IsConstructor m' = IsConstructor m /\
  am_entry_quick m' = am_entry_quick m /\ am_entry_interpreter m' = am_entry_interpreter m /\
  am_declaring_class m' = am_declaring_class m.
Proof.
  destruct b; [|done]. cbv zeta. unfold IsNative, IsAbstract, IsStatic, IsConstructor.
  change kAccNative with (2 ^ 8). change kAccAbstract with (2 ^ 10). change kAccStatic with (2 ^ 3).
  change kAccConstructor with (2 ^ 16). by rewrite !mark_other_flag by lia.
Qed.

Lemma link_keeps ins oat_class idx m :
  am_access_flags (link_result ins oat_class idx m) = am_access_flags m /\
  am_declaring_class (link_result ins oat_class idx m) = am_declaring_class m.
Proof. unfold link_result. by destruct oat_class. Qed.

(** Freshly loaded methods carry no mark: the flag is not valid in a dex file. *)
Lemma loaded_unmarked le klass dex mem : method_IsMiniTraceable (loaded_method le klass dex mem) = false.
Proof.
  unfold method_IsMiniTraceable, loaded_method. cbn [am_access_flags]. change kAccIsMiniTraceable with (2 ^ 30).
  rewrite HasFlag_pow2 by lia. unfold loaded_flags.
  destruct (bool_decide _); rewrite ?Z.lor_spec, Z.land_spec; by rewrite andb_false_r.
Qed.

Lemma link_interpreted ins oat_class idx m :
  let m' := link_result ins oat_class idx m in
  InterpretOnly ins = true -> IsNative m' = false -> IsAbstract m' = false ->
  am_entry_interpreter m' = artInterpreterToInterpreterBridge /\
  am_entry_quick m' = if IsStatic m' && negb (IsConstructor m') then QuickResolutionStub else QuickToInterpreterBridge.
Proof.
  cbv zeta. unfold IsNative, IsAbstract, IsStatic, IsConstructor. rewrite (proj1 (link_keeps _ _ _ _)).
  intros Hi Hn Ha. unfold link_result, enters_interpreter.
  set (m1 := match oat_class with Some code => method_set_quick (code idx) m | None => m end).
  assert (Hfl : am_access_flags m1 = am_access_flags m) by (subst m1; by destruct oat_class).
  unfold IsNative, IsAbstract, IsStatic, IsConstructor in *. rewrite Hfl, Hn, Ha, Hi. cbn [negb andb].
  by rewrite orb_true_r.
Qed.

(** A class that was loaded, marked and initialized, method by method. *)
Lemma load_define_fixup env le ins whitelist klass ly ms rest ar c s :
  InterpretOnly ins = true -> env_is_started env = true -> le_is_aot_compiler le = false -> le_class_def le klass = true ->
  members_wf ly ms -> arrays_ok le ly ar s -> env_resolution_method env ∉ direct_addrs le ly ar ->
  h_classes (heap_of s) !! klass = Some c -> IsProxyClass c = false -> class_IsMiniTraceable c = false ->
  methods_have_code ly ms c whitelist (heap_of s) -> 0 < le_class_data le klass ->
  drop (Z.to_nat (le_class_data le klass)) (le_memory le (mc_dex_file c)) = class_bytes ly ms ++ rest ->
  let m k := (if bool_decide (selected whitelist (heap_of s) c) then method_SetIsMiniTraceable else id)
               (linked_method le ins klass (if env_is_started env then le_oat_class le klass else None) ly ms c (ly_fields ly + k)) in
  exists s1 s2 s3,
    LoadClass env le ins klass s = Ok (tt, s1) /\
    DefineClass_resolved env ins whitelist klass (with_status klass kStatusResolved s1) = Ok (tt, s2) /\
    FixupStaticTrampolines env le ins klass (with_status klass kStatusInitialized s2) = Ok (tt, s3) /\
    forall k a, (direct_addrs le ly ar ++ virtual_addrs le ly ar) !! k = Some a ->
      h_methods (heap_of s2) !! a = Some (m k) /\
      exists m3, h_methods (heap_of s3) !! a = Some m3 /\ if (k <? ly_direct ly)%nat then fixed (m k) m3 else m3 = m k.
Proof.
  intros Hi Hst Haot Hdef Hwf Har Hres Hc Hpr Hun Hcode Hp Hd m.
  destruct (LoadClass_ok env le ins klass ly ms rest ar c s Hwf Haot Har Hc Hpr Hp Hd) as (s1 & E1 & Hl).
  destruct (DefineClass_resolved_ok env le ins klass _ ly ms Hwf ar c whitelist s s1 Hl Hun Hcode)
    as (s2 & c2 & E2 & Hm2 & Hc2 & Hdm & Hpx & Hdx).
  assert (Hm : forall k a, (direct_addrs le ly ar ++ virtual_addrs le ly ar) !! k = Some a -> h_methods (heap_of s2) !! a = Some (m k))
    by (intros k a Ha; rewrite (Hm2 k a Ha); subst m; by case_decide; case_bool_decide).
  pose proof (ao_methods _ _ _ _ Har) as Hnd. apply NoDup_app in Hnd as (Hnd & Hdis & _).
  set (c3 := class_set_status kStatusInitialized c2). set (s2' := with_status klass kStatusInitialized s2).
  assert (Hs2 : s2' = with_class klass c3 s2) by (subst s2'; unfold with_status; by rewrite Hc2).
  destruct (FixupStaticTrampolines_ok env le ins klass ly ms Hwf (le_memory le (mc_dex_file c3)) rest c3
              (direct_addrs le ly ar) Hnd Hres Hi) with (s := s2') as (s3 & E3 & Hfix); try done.
  { change (IsProxyClass c2 = false). congruence. }
  { rewrite Hs2. apply lookup_insert_eq. }
  { apply elements_length. }
  { intros a Ha. apply list_elem_of_lookup_1 in Ha as [k Hk]. exists (m k). split.
    - rewrite Hs2. apply Hm. by apply lookup_app_l_Some.
    - destruct (mark_keeps (bool_decide (selected whitelist (heap_of s) c)) (linked_method le ins klass
        (if env_is_started env then le_oat_class le klass else None) ly ms c (ly_fields ly + k))) as (_ & _ & _ & _ & _ & _ & H).
      etransitivity; [exact H|]. apply link_keeps. }
  { change (mc_dex_file c3) with (mc_dex_file c2). by rewrite Hdx. }
  exists s1, s2, s3. split; [exact E1|]. split; [exact E2|]. split; [exact E3|]. intros k a Ha. split; [by apply Hm|].
  assert (Hm2' : h_methods (heap_of s2') !! a = Some (m k)) by (rewrite Hs2; by apply Hm).
  destruct (Nat.ltb_spec k (ly_direct ly)) as [Hk|Hk].
  - rewrite lookup_app_l in Ha by (unfold direct_addrs; by rewrite elements_length).
    destruct (fx_done _ _ _ _ Hfix k a _ Ha Hm2') as (m3 & ? & H3). exists m3. split; [done|].
    unfold direct_addrs in H3. rewrite elements_length, (proj2 (Nat.ltb_lt _ _) Hk) in H3. exact H3.
  - exists (m k). split; [|done]. rewrite (fx_other _ _ _ _ Hfix); [done|]. intros Hin. apply (Hdis a Hin).
    rewrite lookup_app_r in Ha by (unfold direct_addrs; by rewrite elements_length). by eapply list_elem_of_lookup_2.
Qed.

(** Loading a class from its dex file returns, and every method and field
    of the class data is in the array of its kind with the index, the valid
    access flags and the code offset of the file (initializers with the
    constructor flag); every method has the entry points its code and the
    instrumentation ask for, compiled code where there is some and the
    interpreter is not required; nothing else of the heap changes, except that
    the class may become finalizable. *)
Theorem load_class_links env le ins klass ly ms rest ar c s :
  members_wf ly ms -> le_is_aot_compiler le = false -> arrays_ok le ly ar s ->
  h_classes (heap_of s) !! klass = Some c -> IsProxyClass c = false -> 0 < le_class_data le klass ->
  drop (Z.to_nat (le_class_data le klass)) (le_memory le (mc_dex_file c)) = class_bytes ly ms ++ rest ->
  let oat_class := if env_is_started env then le_oat_class le klass else None in
  exists s', LoadClass env le ins klass s = Ok (tt, s') /\
    members_loaded le ins klass oat_class ly ms ar c (heap_of s) (heap_of s') /\
    forall k a, (direct_addrs le ly ar ++ virtual_addrs le ly ar) !! k = Some a ->
      exists mem m, ms !! (ly_fields ly + k)%nat = Some mem /\ h_methods (heap_of s') !! a = Some m /\
        am_dex_method_index m = m_idx mem /\ am_dex_code_item_offset m = m_code mem /\
        am_declaring_class m = klass /\
        (IsNative m = false -> InterpretOnly ins = false -> IsStatic m && negb (IsConstructor m) = false -> IsAbstract m = false ->
         am_entry_quick m = match oat_class with
                            | Some code => if decide (code (Z.of_nat k) = NullCode) then QuickToInterpreterBridge
                                           else code (Z.of_nat k)
                            | None => QuickToInterpreterBridge end).
Proof.
  intros Hwf Haot Har Hc Hpr Hp Hd oat_class.
  destruct (LoadClass_ok env le ins klass ly ms rest ar c s Hwf Haot Har Hc Hpr Hp Hd) as (s' & E & Hl).
  exists s'. split; [exact E|]. split; [exact Hl|]. intros k a Ha.
  destruct (addrs_member le ly ms Hwf ar k a Ha) as (mem & Hm & Hat).
  pose proof (ml_methods _ _ _ _ _ _ _ _ _ _ Hl _ _ Ha) as Hme. fold oat_class in Hme.
  unfold linked_method in Hme. rewrite Hat in Hme. replace (ly_fields ly + k - ly_fields ly)%nat with k in Hme by lia.
  exists mem, (link_result ins oat_class (Z.of_nat k) (loaded_method le klass (mc_dex_file c) mem)). split; [done|]. split; [done|].
  destruct (link_keeps ins oat_class (Z.of_nat k) (loaded_method le klass (mc_dex_file c) mem)) as [Hfl Hdc].
  split; [unfold link_result; by destruct oat_class|]. split; [unfold link_result; by destruct oat_class|]. split; [by rewrite Hdc|].
  unfold IsNative, IsAbstract, IsStatic, IsConstructor. rewrite Hfl. intros Hn Hi Hs Hab.
  unfold link_result, enters_interpreter, IsNative, IsAbstract, IsStatic, IsConstructor. rewrite Hi.
  destruct oat_class as [code|]; cbn [am_access_flags am_entry_quick method_set_quick method_set_interpreter]; rewrite Hn, Hab, Hs; [|done].
  cbn [negb andb]. rewrite orb_false_r. by case_decide; case_bool_decide.
Qed.

(** C23. A class that is loaded while the interpreter is required (as it is
    while tracing) runs in the interpreter although it gets no stubs: the stubs
    are installed before the tracer marks the class and pass it by, but loading
    has linked every Java method to the interpreter, or to the resolution stub
    if it is static, and initialization sends the static ones to the
    interpreter too.  The methods are marked exactly if the class is on the
    white list.  This is so if the class is not on the white list or all its
    methods have code; if it is on the list and has a native or abstract method,
    the tracer reads through a null pointer when the class has been resolved. *)
Theorem loaded_class_interpreted env le ins whitelist klass ly ms rest ar c s :
  InterpretOnly ins = true -> env_is_started env = true -> le_is_aot_compiler le = false -> le_class_def le klass = true ->
  members_wf ly ms -> arrays_ok le ly ar s -> env_resolution_method env ∉ direct_addrs le ly ar ->
  h_classes (heap_of s) !! klass = Some c -> IsProxyClass c = false -> class_IsMiniTraceable c = false ->
  methods_readable ly ms c whitelist (heap_of s) -> 0 < le_class_data le klass ->
  drop (Z.to_nat (le_class_data le klass)) (le_memory le (mc_dex_file c)) = class_bytes ly ms ++ rest ->
  exists s1, LoadClass env le ins klass s = Ok (tt, s1) /\
  let define := DefineClass_resolved env ins whitelist klass (with_status klass kStatusResolved s1) in
  (methods_have_code ly ms c whitelist (heap_of s) ->
   exists s2 s3,
    define = Ok (tt, s2) /\
    FixupStaticTrampolines env le ins klass (with_status klass kStatusInitialized s2) = Ok (tt, s3) /\
    forall k a, (direct_addrs le ly ar ++ virtual_addrs le ly ar) !! k = Some a ->
      exists m2 m3, h_methods (heap_of s2) !! a = Some m2 /\ h_methods (heap_of s3) !! a = Some m3 /\
        method_IsMiniTraceable m2 = bool_decide (selected whitelist (heap_of s) c) /\
        (IsNative m2 = false -> IsAbstract m2 = false ->
         am_entry_interpreter m2 = artInterpreterToInterpreterBridge /\
         am_entry_quick m2 = (if IsStatic m2 && negb (IsConstructor m2) then QuickResolutionStub
                              else QuickToInterpreterBridge) /\
         ((k < ly_direct ly)%nat \/ IsStatic m2 = false -> interpreted m3))) /\
  (~ methods_have_code ly ms c whitelist (heap_of s) -> define = Fault NullDereference).
Proof.
  intros Hi Hst Haot Hdef Hwf Har Hres Hc Hpr Hun Hread Hp Hd.
  destruct (LoadClass_ok env le ins klass ly ms rest ar c s Hwf Haot Har Hc Hpr Hp Hd) as (s1 & E1 & Hl).
  exists s1. split; [exact E1|]. cbv zeta.
  split; [|intros Hn; by eapply (DefineClass_resolved_fault env le ins klass _ ly ms Hwf ar c whitelist s s1)]. intros Hcode.
  destruct (load_define_fixup env le ins whitelist klass ly ms rest ar c s) as (s1' & s2 & s3 & E1' & E2 & E3 & H); [done..|].
  assert (s1' = s1) as -> by congruence.
  exists s2, s3. split; [exact E2|]. split; [exact E3|]. intros k a Ha.
  destruct (H k a Ha) as (Hm2 & m3 & Hm3 & Hfix). clear H. set (lm := linked_method _ _ _ _ _ _ _ _) in *.
  set (b := bool_decide (selected whitelist (heap_of s) c)) in *.
  set (m2 := (if b then method_SetIsMiniTraceable else id) lm) in *. exists m2, m3. split; [exact Hm2|]. split; [exact Hm3|].
  destruct (mark_keeps b lm) as (Kn & Ka & Ks & Kc & Kq & Ki & _). cbv zeta in *. fold m2 in Kn, Ka, Ks, Kc, Kq, Ki. split.
  { subst m2. destruct b; [apply method_mark|]. cbn [id]. unfold method_IsMiniTraceable, lm, linked_method.
    rewrite (proj1 (link_keeps _ _ _ _)). apply loaded_unmarked. }
  rewrite Kn, Ka, Kc, Kq, Ki. intros Hn Hab.
  assert (HL : am_entry_interpreter lm = artInterpreterToInterpreterBridge /\
    am_entry_quick lm = if IsStatic lm && negb (IsConstructor lm) then QuickResolutionStub else QuickToInterpreterBridge)
    by (by apply link_interpreted). destruct HL as [Li Lq].
  rewrite Ks. split; [exact Li|]. split; [exact Lq|]. intros Hk.
  assert (Hplain : IsStatic lm = false -> interpreted m2) by (intros E; unfold interpreted; by rewrite Kq, Ki, Lq, Li, E).
  destruct (Nat.ltb_spec k (ly_direct ly)) as [Hlt|Hge].
  - destruct Hfix as (_ & Hs & Hns). rewrite Ks, Kn in Hs. rewrite Ks in Hns. destruct (IsStatic lm) eqn:E; [by apply Hs|].
    rewrite Hns by done. by apply Hplain.
  - subst m3. destruct Hk as [?|E]; [lia|]. by apply Hplain.
Qed.

(** *** A concrete class: a static field, a constructor, a static and a
    virtual method, loaded while tracing. *)

Definition load_layout : Layout := mkLayout 1 0 2 1.
Definition load_members : list Member :=
  [mkMember 7 kAccStatic 0; mkMember 300 kAccPublic 4096; mkMember 301 kAccStatic 4200; mkMember 5 kAccPublic 8192].

Definition load_method_id (idx : Z) : MethodId :=
  mkMethodId (match idx with 300 => "<init>" | _ => "m" end)%string "()V" "V".

Definition load_env : LoadEnv :=
  mkLoadEnv (fun _ => 0 :: class_bytes load_layout load_members) (fun _ => 1) (fun _ _ => ("f", "I")%string)
    (fun _ => load_method_id) (fun _ => "A.java"%string) (fun _ => true) (fun _ => 77)
    (fun _ => Some (fun i => CompiledCode (6000 + i))) false true 48.

Definition load_runtime : RuntimeEnv := mkRuntimeEnv 1 2 3 4 5 (fun _ => None) (fun _ _ => 0) true (fun _ => false).

Definition tracing_instrumentation : Instrumentation :=
  set_interpret_only true (set_entry_exit_stubs_installed true (set_instrumentation_stubs_installed true Instrumentation_new)).

Definition load_class : Class_ := mkClass 1 kAccPublic 0 kPrimNot "Lcom/app/A;" 50 [] [] [] [].

Definition load_dex : DexFile :=
  mkDexFile [] 9000 "/data/app/base.apk" {[ 4096 := demo_item; 4200 := demo_item; 8192 := demo_item ]} None.

Definition load_state : LoadState :=
  mkLoad (mkCodeState (mkHeap ∅ ∅ {[ 100 := load_class ]} {[ 50 := load_dex ]} [100] []) None) ∅ ∅ [1000; 5000; 9000].

Definition load_arrays : Arrays := mkArrays 1000 1 5000 9000.

Lemma load_members_wf : members_wf load_layout load_members.
Proof.
  constructor; [done|done|..]; intros p m Hm.
  all: do 4 (destruct p as [|p]; [cbn in Hm; simplify_eq; vm_compute; repeat split; done|]).
  all: done.
Qed.

Lemma load_arrays_ok : arrays_ok load_env load_layout load_arrays load_state.
Proof. constructor; [by exists []|done|..]; apply (bool_decide_eq_true_1 _); by vm_compute. Qed.

Lemma load_methods_have_code whitelist :
  methods_have_code load_layout load_members load_class whitelist (heap_of load_state).
Proof.
  exists load_dex. split; [done|]. intros _ p mem Hp Hm. exists demo_item.
  do 4 (destruct p as [|p]; [cbn in Hm; simplify_eq; first [done|unfold ly_fields in Hp; cbn in Hp; lia]|]). done.
Qed.

Lemma load_class_links_witness :
  exists s', LoadClass load_runtime load_env Instrumentation_new 100 load_state = Ok (tt, s') /\
    exists m, h_methods (heap_of s') !! 5000 = Some m /\ am_dex_method_index m = 300 /\ am_entry_quick m = CompiledCode 6000.
Proof.
  destruct (load_class_links load_runtime load_env Instrumentation_new 100 load_layout load_members [] load_arrays
              load_class load_state) as (s' & E & _ & H).
  - apply load_members_wf.
  - reflexivity.
  - apply load_arrays_ok.
  - reflexivity.
  - reflexivity.
  - reflexivity.
  - by rewrite app_nil_r.
  - exists s'. split; [exact E|]. destruct (H 0%nat 5000 eq_refl) as (mem & m & Hmem & Hm & Hi & _).
    exists m. split; [exact Hm|]. injection Hmem as <-. split; [exact Hi|].
    vm_compute in E. injection E as <-. vm_compute in Hm. injection Hm as <-. reflexivity.
Defined.

Lemma loaded_class_interpreted_witness :
  exists s1 s2 s3,
    LoadClass load_runtime load_env tracing_instrumentation 100 load_state = Ok (tt, s1) /\
    DefineClass_resolved load_runtime tracing_instrumentation (Some ["Lcom/app"%string]) 100 (with_status 100 kStatusResolved s1) =
      Ok (tt, s2) /\
    FixupStaticTrampolines load_runtime load_env tracing_instrumentation 100 (with_status 100 kStatusInitialized s2) = Ok (tt, s3) /\
    exists m2 m3, h_methods (heap_of s2) !! 5048 = Some m2 /\ h_methods (heap_of s3) !! 5048 = Some m3 /\
      method_IsMiniTraceable m2 = true.
Proof.
  destruct (loaded_class_interpreted load_runtime load_env tracing_instrumentation (Some ["Lcom/app"%string]) 100
              load_layout load_members [] load_arrays load_class load_state) as (s1 & E1 & H & _).
  1-4: reflexivity.
  - apply load_members_wf.
  - apply load_arrays_ok.
  - apply (bool_decide_eq_true_1 _). by vm_compute.
  - reflexivity.
  - reflexivity.
  - reflexivity.
  - apply have_code_readable, load_methods_have_code.
  - reflexivity.
  - by rewrite app_nil_r.
  - destruct (H (load_methods_have_code _)) as (s2 & s3 & E2 & E3 & H').
    exists s1, s2, s3. split; [exact E1|]. split; [exact E2|]. split; [exact E3|].
    destruct (H' 1%nat 5048 eq_refl) as (m2 & m3 & Hm2 & Hm3 & Hmk & _). exists m2, m3.
    split; [exact Hm2|]. split; [exact Hm3|]. rewrite Hmk. apply bool_decide_eq_true_2. split; [reflexivity|]. by left.
Defined.
