(* ===== verification/FieldLayout.v ===== *)
(** * The layout of fields: [class_linker.cc], [mirror/class-inl.h], [mirror/object-inl.h]

    Where [ClassLinker::LinkFields] puts the fields of a class: references
    first, then the primitive fields from the largest to the smallest, in the
    gaps that alignment leaves where there are any; the size of the class
    object, which is computed before from the counts of the fields
    ([Class::ComputeClassSize]) and must agree; the bitmap of the slots that
    hold references ([CreateReferenceInstanceOffsets]) and the walk of the
    collector that reads it ([Object::VisitFieldsReferences]).

    The fields and classes are those of [ArtObjects]; what only linking uses of
    a class is the record [ClassLayout], by the address of the class.  The array
    of fields of a class is the list of their addresses, so that it is null
    exactly when it is empty.  [std::sort] is the class [StdSort]: the order of
    fields that compare equal is not specified.  *)

From S2P Require Import Prelude ArtObjects Instrumentation MiniTraceClasses Leb128 ClassData ClassLoading.

(** ** Primitive types: [primitive.h] *)

Module Primitive.

Inductive Type_ :=
| kPrimNot
| kPrimBoolean
| kPrimByte
| kPrimChar
| kPrimShort
| kPrimInt
| kPrimLong
| kPrimFloat
| kPrimDouble
| kPrimVoid.

#[global] Instance Type_eq_dec : EqDecision Type_.
Proof. solve_decision. Defined.

(** The number of the enumerator. *)
Definition value (type : Type_) : Z :=
  match type with
  | kPrimNot => 0
  | kPrimBoolean => 1
  | kPrimByte => 2
  | kPrimChar => 3
  | kPrimShort => 4
  | kPrimInt => 5
  | kPrimLong => 6
  | kPrimFloat => 7
  | kPrimDouble => 8
  | kPrimVoid => 9
  end.

Definition GetType (type : ascii) : Type_ :=
  match type with
  | "B"%char => kPrimByte
  | "C"%char => kPrimChar
  | "D"%char => kPrimDouble
  | "F"%char => kPrimFloat
  | "I"%char => kPrimInt
  | "J"%char => kPrimLong
  | "S"%char => kPrimShort
  | "Z"%char => kPrimBoolean
  | "V"%char => kPrimVoid
  | _ => kPrimNot
  end.

Definition kObjectReferenceSize : Z := 4.

Definition ComponentSize (type : Type_) : Z :=
  match type with
  | kPrimVoid => 0
  | kPrimBoolean | kPrimByte => 1
  | kPrimChar | kPrimShort => 2
  | kPrimInt | kPrimFloat => 4
  | kPrimLong | kPrimDouble => 8
  | kPrimNot => kObjectReferenceSize
  end.

End Primitive.

(** The first character of a C string. *)
Definition first_char (s : string) : ascii :=
  match s with EmptyString => "000"%char | String c _ => c end.

Definition GetTypeAsPrimitiveType (f : ArtField) : Primitive.Type_ :=
  Primitive.GetType (first_char (af_type_descriptor f)).

Definition SetOffset (num_bytes : Z) (f : ArtField) : ArtField :=
  mkArtField (af_declaring_class f) (af_access_flags f) (af_name f) (af_type_descriptor f)
    (af_dex_field_index f) num_bytes.

(** ** Alignment: [base/bit_utils.h], at 32 bits *)

Definition IsAligned (n x : Z) : bool := Z.land x (n - 1) =? 0.

Definition RoundDown (x n : Z) : Z := Z.land x (u32 (- n)).

Definition RoundUp (x n : Z) : Z := RoundDown (u32 (x + n - 1)) n.

(** ** What linking knows of a class *)

Record ClassLayout := mkClassLayout {
  super_class_ : Z;
  class_size_ : Z;
  object_size_ : Z;
  num_reference_instance_fields_ : Z;
  num_reference_static_fields_ : Z;
  reference_instance_offsets_ : Z;
  vtable_length : Z;
  embedded_vtable_length : Z;
}.

Definition SetObjectSize (size : Z) (l : ClassLayout) : ClassLayout :=
  mkClassLayout (super_class_ l) (class_size_ l) size (num_reference_instance_fields_ l)
    (num_reference_static_fields_ l) (reference_instance_offsets_ l) (vtable_length l) (embedded_vtable_length l).
Definition SetNumReferenceInstanceFields (n : Z) (l : ClassLayout) : ClassLayout :=
  mkClassLayout (super_class_ l) (class_size_ l) (object_size_ l) n
    (num_reference_static_fields_ l) (reference_instance_offsets_ l) (vtable_length l) (embedded_vtable_length l).
Definition SetNumReferenceStaticFields (n : Z) (l : ClassLayout) : ClassLayout :=
  mkClassLayout (super_class_ l) (class_size_ l) (object_size_ l) (num_reference_instance_fields_ l)
    n (reference_instance_offsets_ l) (vtable_length l) (embedded_vtable_length l).
Definition SetReferenceInstanceOffsets (offsets : Z) (l : ClassLayout) : ClassLayout :=
  mkClassLayout (super_class_ l) (class_size_ l) (object_size_ l) (num_reference_instance_fields_ l)
    (num_reference_static_fields_ l) offsets (vtable_length l) (embedded_vtable_length l).

Record LinkState := mkLink {
  lk_heap : Heap;
  lk_layouts : gmap Z ClassLayout;
}.

(** The size of a pointer of the target, the class [java.lang.Class], whether
    the class linker has finished its initialization, and whether debug checks
    are compiled in. *)
Record LinkEnv := mkLinkEnv {
  image_pointer_size_ : Z;
  java_lang_Class_ : Z;
  init_done_ : bool;
  kIsDebugBuild : bool;
}.

Definition heap_op {A} (m : M Heap A) : M LinkState A := fun s =>
  match m (lk_heap s) with Ok (a, h) => Ok (a, mkLink h (lk_layouts s)) | Fault f => Fault f end.

Definition get_layout (klass : Z) : M LinkState ClassLayout := fun s =>
  match deref (lk_layouts s) klass with Ok l => Ok (l, s) | Fault f => Fault f end.

Definition update_layout (klass : Z) (f : ClassLayout -> ClassLayout) : M LinkState unit :=
  l ← get_layout klass;
  modify (fun s => mkLink (lk_heap s) (<[klass := f l]> (lk_layouts s))).

(** ** Predicates of [mirror/class.h] *)

Definition kAccClassIsStringClass : Z := 0x00800000.
Definition kStatusLoaded : Z := 2.
Definition kStatusResolving : Z := 3.

Definition class_IsAbstract (c : Class_) : bool := HasFlag (mc_access_flags c) kAccAbstract.

Definition IsInstantiable (c : Class_) : bool :=
  (negb (IsPrimitive c) && negb (IsInterface c) && negb (class_IsAbstract c)) ||
  (class_IsAbstract c && IsArrayClass c).

Definition ShouldHaveEmbeddedImtAndVTable (c : Class_) : bool := IsInstantiable c.

Definition IsTemp (c : Class_) : bool :=
  (mc_status c <? kStatusResolving) && ShouldHaveEmbeddedImtAndVTable c.

Definition IsVariableSize (env : LinkEnv) (klass : Z) (c : Class_) : bool :=
  (klass =? java_lang_Class_ env) || IsArrayClass c || HasFlag (mc_access_flags c) kAccClassIsStringClass.

(** ** The size of a class object *)

(** [sizeof(mirror::Class)]: the header of an object, nine references, the
    access flags, four pointers of 64 bits and fourteen words. *)
Definition sizeof_Class : Z := 8 + 9 * 4 + 4 + 4 * 8 + 14 * 4.

Definition kImtSize : Z := 64.
Definition ImTableEntrySize (pointer_size : Z) : Z := pointer_size.
Definition VTableEntrySize (pointer_size : Z) : Z := pointer_size.

(** [while (gap >= size && num != 0) { --num; gap -= size; }], which returns
    after at most [gap] rounds. *)
Fixpoint fill_gap (fuel : nat) (size gap num : Z) : Z * Z :=
  match fuel with
  | O => (gap, num)
  | S fuel => if (size <=? gap) && negb (num =? 0) then fill_gap fuel size (gap - size) (num - 1) else (gap, num)
  end.

Definition ComputeClassSize (has_embedded_tables : bool) (num_vtable_entries num_8bit_static_fields
  num_16bit_static_fields num_32bit_static_fields num_64bit_static_fields num_ref_static_fields pointer_size : Z) : Z :=
  let size := sizeof_Class in
  let size :=
    if has_embedded_tables then
      let embedded_imt_size := u32 (kImtSize * ImTableEntrySize pointer_size) in
      let embedded_vtable_size := u32 (num_vtable_entries * VTableEntrySize pointer_size) in
      u32 (RoundUp (size + 4) pointer_size + embedded_imt_size + embedded_vtable_size)
    else size in
  let size := u32 (size + num_ref_static_fields * 4) in
  let '(size, num_32, num_16, num_8) :=
    if negb (IsAligned 8 size) && (0 <? num_64bit_static_fields) then
      let gap := 8 - Z.land size 0x7 in
      let size := u32 (size + gap) in
      let '(gap, num_32) := fill_gap (Z.to_nat gap) 4 gap num_32bit_static_fields in
      let '(gap, num_16) := fill_gap (Z.to_nat gap) 2 gap num_16bit_static_fields in
      let '(gap, num_8) := fill_gap (Z.to_nat gap) 1 gap num_8bit_static_fields in
      (size, num_32, num_16, num_8)
    else (size, num_32bit_static_fields, num_16bit_static_fields, num_8bit_static_fields) in
  u32 (size + (num_8 * 1 + num_16 * 2 + num_32 * 4 + num_64bit_static_fields * 8)).

Definition GetFirstReferenceStaticFieldOffsetDuringLinking (env : LinkEnv) (c : Class_) (l : ClassLayout) : Z :=
  if ShouldHaveEmbeddedImtAndVTable c
  then ComputeClassSize true (vtable_length l) 0 0 0 0 0 (image_pointer_size_ env)
  else sizeof_Class.

Definition GetFirstReferenceStaticFieldOffset (env : LinkEnv) (c : Class_) (l : ClassLayout) : Z :=
  if ShouldHaveEmbeddedImtAndVTable c
  then ComputeClassSize true (embedded_vtable_length l) 0 0 0 0 0 (image_pointer_size_ env)
  else sizeof_Class.

(** Offset 0 is [ClassOffset()]. *)
Definition GetFirstReferenceInstanceFieldOffset (l : ClassLayout) : M LinkState Z :=
  if negb (super_class_ l =? 0) then
    super ← get_layout (super_class_ l);
    mret (RoundUp (object_size_ super) 4)
  else mret 0.

(** The loop over the static fields of the class data; the counters are those
    of references and of fields of 8, 16, 32 and 64 bits. *)
Record FieldCounts := mkCounts { num_ref : Z; num_8 : Z; num_16 : Z; num_32 : Z; num_64 : Z }.

Definition count_field (descriptor : string) (n : FieldCounts) : outcome FieldCounts :=
  match first_char descriptor with
  | "L"%char | "["%char => Ok (mkCounts (num_ref n + 1) (num_8 n) (num_16 n) (num_32 n) (num_64 n))
  | "J"%char | "D"%char => Ok (mkCounts (num_ref n) (num_8 n) (num_16 n) (num_32 n) (num_64 n + 1))
  | "I"%char | "F"%char => Ok (mkCounts (num_ref n) (num_8 n) (num_16 n) (num_32 n + 1) (num_64 n))
  | "S"%char | "C"%char => Ok (mkCounts (num_ref n) (num_8 n) (num_16 n + 1) (num_32 n) (num_64 n))
  | "B"%char | "Z"%char => Ok (mkCounts (num_ref n) (num_8 n + 1) (num_16 n) (num_32 n) (num_64 n))
  | _ => Fault FatalLog
  end.

Definition SizeOfClassWithoutEmbeddedTables (env : LinkEnv) (le : LoadEnv) (dex klass : Z) : M LoadState Z :=
  let data := le_memory le dex in
  let class_data := le_class_data le klass in
  n ← (if negb (class_data =? 0) then
         it ← lift (ClassDataItemIterator_new data class_data);
         '(_, n) ← for_members (Z.to_nat (EndOfVirtualMethodsPos it)) HasNextStaticField
                     (fun _ it n => lift (count_field (le_field_id le dex (GetMemberIndex it)).2 n))
                     data 0 it (mkCounts 0 0 0 0 0);
         mret n
       else mret (mkCounts 0 0 0 0 0));
  mret (ComputeClassSize false 0 (u32 (num_8 n)) (u32 (num_16 n)) (u32 (num_32 n)) (u32 (num_64 n)) (u32 (num_ref n))
          (image_pointer_size_ env)).

(** ** Gaps *)

Record FieldGap := mkGap { start_offset : Z; gap_size : Z }.

Definition FieldGapsComparator (lhs rhs : FieldGap) : bool :=
  (gap_size rhs <? gap_size lhs) ||
  ((gap_size lhs =? gap_size rhs) && (start_offset lhs <? start_offset rhs)).

(** [std::priority_queue]: [top] is an element that the comparator puts before
    no other one; [pop] removes it. *)
Definition FieldGaps : Type := list FieldGap.

Fixpoint extract (g : FieldGap) (gaps : FieldGaps) : FieldGap * FieldGaps :=
  match gaps with
  | [] => (g, [])
  | x :: gaps =>
      if FieldGapsComparator g x then let (t, rest) := extract x gaps in (t, g :: rest)
      else let (t, rest) := extract g gaps in (t, x :: rest)
  end.

Definition top_pop (gaps : FieldGaps) : option (FieldGap * FieldGaps) :=
  match gaps with [] => None | g :: gaps => Some (extract g gaps) end.

(** A round of the loop moves [current_offset] by at least a byte. *)
Fixpoint add_gaps (fuel : nat) (current_offset gap_end : Z) (gaps : FieldGaps) : outcome FieldGaps :=
  if current_offset =? gap_end then Ok gaps
  else
    match fuel with
    | O => Fault OutOfFuel
    | S fuel =>
        let remaining := u32 (gap_end - current_offset) in
        let size :=
          if (4 <=? remaining) && IsAligned 4 current_offset then 4
          else if (2 <=? remaining) && IsAligned 2 current_offset then 2
          else 1 in
        add_gaps fuel (u32 (current_offset + size)) gap_end (mkGap current_offset size :: gaps)
    end.

Definition AddFieldGap (gap_start gap_end : Z) (gaps : FieldGaps) : outcome FieldGaps :=
  add_gaps (Z.to_nat (u32 (gap_end - gap_start))) gap_start gap_end gaps.

(** [if (!IsAligned<n>(field_offset)) { ... }] *)
Definition align_offset (n field_offset : Z) (gaps : FieldGaps) : outcome (Z * FieldGaps) :=
  if negb (IsAligned n field_offset) then
    let old_offset := field_offset in
    let field_offset := RoundUp field_offset n in
    gaps ← AddFieldGap old_offset field_offset gaps;
    mret (field_offset, gaps)
  else mret (field_offset, gaps).

(** The loop runs until the deque is empty or its front is smaller than [n]. *)
Fixpoint ShuffleForward (n current_field_idx field_offset : Z) (grouped_and_sorted_fields : list Z) (gaps : FieldGaps)
  : M Heap (Z * Z * list Z * FieldGaps) :=
  match grouped_and_sorted_fields with
  | [] => mret (current_field_idx, field_offset, [], gaps)
  | field :: rest =>
      f ← load h_fields field;
      let type := GetTypeAsPrimitiveType f in
      if Primitive.ComponentSize type <? n then mret (current_field_idx, field_offset, field :: rest, gaps)
      else
        '(field_offset, gaps) ← lift (align_offset n field_offset gaps);
        checkM (negb (bool_decide (type = Primitive.kPrimNot))) ;;
        let usable := match top_pop gaps with
                      | Some (gap, others) => if n <=? gap_size gap then Some (gap, others) else None
                      | None => None
                      end in
        match usable with
        | Some (gap, others) =>
            store_field field (SetOffset (start_offset gap) f) ;;
            gaps ← lift (if n <? gap_size gap
                         then AddFieldGap (u32 (start_offset gap + n)) (u32 (start_offset gap + gap_size gap)) others
                         else Ok others);
            ShuffleForward n (current_field_idx + 1) field_offset rest gaps
        | None =>
            store_field field (SetOffset field_offset f) ;;
            ShuffleForward n (current_field_idx + 1) (u32 (field_offset + n)) rest gaps
        end
  end.

(** ** Linking *)

(** The order of two fields. *)
Definition field_before (field1 field2 : ArtField) : bool :=
  let type1 := GetTypeAsPrimitiveType field1 in
  let type2 := GetTypeAsPrimitiveType field2 in
  if negb (bool_decide (type1 = type2)) then
    if bool_decide (type1 = Primitive.kPrimNot) then true
    else if bool_decide (type2 = Primitive.kPrimNot) then false
    else
      let size1 := Primitive.ComponentSize type1 in
      let size2 := Primitive.ComponentSize type2 in
      if negb (size1 =? size2) then size2 <? size1
      else Primitive.value type1 <? Primitive.value type2
  else af_dex_field_index field1 <? af_dex_field_index field2.

Definition LinkFieldsComparator (h : Heap) (field1 field2 : Z) : bool :=
  field_before (default fresh_field (h_fields h !! field1)) (default fresh_field (h_fields h !! field2)).

(** [std::sort] with a strict weak order. *)
Definition strict_weak (lt : Z -> Z -> bool) : Prop :=
  (forall a b, lt a b = true -> lt b a = false) /\
  (forall a b c, lt b a = false -> lt c b = false -> lt c a = false).

Class StdSort := std_sort : (Z -> Z -> bool) -> list Z -> list Z.

Class StdSortLaws (S : StdSort) : Prop := {
  sort_perm : forall lt l, std_sort lt l ≡ₚ l;
  sort_sorted : forall lt l, strict_weak lt -> StronglySorted (fun a b => lt b a = false) (std_sort lt l);
}.

(** The loop over the references at the front of the deque. *)
Fixpoint place_references (current_field num_reference_fields field_offset : Z) (grouped_and_sorted_fields : list Z)
  (gaps : FieldGaps) : M Heap (Z * Z * Z * list Z * FieldGaps) :=
  match grouped_and_sorted_fields with
  | [] => mret (current_field, num_reference_fields, field_offset, [], gaps)
  | field :: rest =>
      f ← load h_fields field;
      let isPrimitive := negb (bool_decide (GetTypeAsPrimitiveType f = Primitive.kPrimNot)) in
      if isPrimitive then mret (current_field, num_reference_fields, field_offset, field :: rest, gaps)
      else
        '(field_offset, gaps) ← lift (align_offset 4 field_offset gaps);
        store_field field (SetOffset field_offset f) ;;
        place_references (current_field + 1) (num_reference_fields + 1) (u32 (field_offset + 4)) rest gaps
  end.

Definition reference_descriptor : string := "Ljava/lang/ref/Reference;".

(** The checks of a debug build, [i] from the second field on. *)
Fixpoint debug_checks (is_reference : bool) (start_ref_offset end_ref_offset : Z) (prev : option ArtField)
  (fields : list Z) (current_ref_offset : Z) : M Heap Z :=
  match fields with
  | [] => mret current_ref_offset
  | p :: fields =>
      field ← load h_fields p;
      checkM (match prev with Some prev_field => String.leb (af_name prev_field) (af_name field) | None => true end) ;;
      let type := GetTypeAsPrimitiveType field in
      let is_primitive := negb (bool_decide (type = Primitive.kPrimNot)) ||
                          (is_reference && bool_decide (af_name field = "referent"%string)) in
      let offset := af_offset field in
      if is_primitive then
        whenM (offset <? end_ref_offset)
          (let type_size := Primitive.ComponentSize type in
           checkM (type_size <? 4) ;;
           checkM (offset <? start_ref_offset) ;;
           checkM (u32 (offset + type_size) <=? start_ref_offset) ;;
           checkM (negb (IsAligned 4 offset))) ;;
        debug_checks is_reference start_ref_offset end_ref_offset (Some field) fields current_ref_offset
      else
        checkM (current_ref_offset =? offset) ;;
        debug_checks is_reference start_ref_offset end_ref_offset (Some field) fields (u32 (current_ref_offset + 4))
  end.

Section Linking.
Context `{sort : StdSort}.

Definition LinkFields_debug (env : LinkEnv) (klass : Z) (c : Class_) (is_static : bool) (fields : list Z)
  (num_reference_fields : Z) : M LinkState unit :=
  l ← get_layout klass;
  start_ref_offset ← (if is_static then mret (GetFirstReferenceStaticFieldOffsetDuringLinking env c l)
                      else GetFirstReferenceInstanceFieldOffset l);
  let end_ref_offset := u32 (start_ref_offset + num_reference_fields * 4) in
  current_ref_offset ← heap_op (debug_checks (bool_decide (mc_descriptor c = reference_descriptor))
                                  start_ref_offset end_ref_offset None fields start_ref_offset);
  checkM (current_ref_offset =? end_ref_offset).

(** The result is what is stored through [class_size], which is null when
    instance fields are linked; the function returns [true]. *)
Definition LinkFields (env : LinkEnv) (klass : Z) (is_static : bool) : M LinkState (option Z) :=
  c ← heap_op (load h_classes klass);
  let fields := if is_static then mc_sfields c else mc_ifields c in
  let num_fields := Z.of_nat (length fields) in
  l ← get_layout klass;
  field_offset ← (if is_static then mret (GetFirstReferenceStaticFieldOffsetDuringLinking env c l)
                  else if negb (super_class_ l =? 0) then
                    super ← heap_op (load h_classes (super_class_ l));
                    checkM (IsResolved super) ;;
                    super_layout ← get_layout (super_class_ l);
                    mret (object_size_ super_layout)
                  else mret 0);
  h ← gets lk_heap;
  let grouped_and_sorted_fields := std_sort (LinkFieldsComparator h) fields in
  '(current_field, num_reference_fields, field_offset, deque, gaps) ←
    heap_op (place_references 0 0 field_offset grouped_and_sorted_fields []);
  '(current_field, field_offset, deque, gaps) ← heap_op (ShuffleForward 8 current_field field_offset deque gaps);
  '(current_field, field_offset, deque, gaps) ← heap_op (ShuffleForward 4 current_field field_offset deque gaps);
  '(current_field, field_offset, deque, gaps) ← heap_op (ShuffleForward 2 current_field field_offset deque gaps);
  '(current_field, field_offset, deque, gaps) ← heap_op (ShuffleForward 1 current_field field_offset deque gaps);
  checkM (bool_decide (deque = [])) ;;
  num_reference_fields ←
    (if negb is_static && bool_decide (mc_descriptor c = reference_descriptor) then
       checkM (num_reference_fields =? num_fields) ;;
       last_field ← match last fields with
                    | Some p => heap_op (load h_fields p)
                    | None => lift (Fault NullDereference)
                    end;
       checkM (bool_decide (af_name last_field = "referent"%string)) ;;
       mret (num_reference_fields - 1)
     else mret num_reference_fields);
  let size := field_offset in
  (if is_static then update_layout klass (SetNumReferenceStaticFields (u32 num_reference_fields))
   else
     update_layout klass (SetNumReferenceInstanceFields (u32 num_reference_fields)) ;;
     whenM (negb (IsVariableSize env klass c))
       (l ← get_layout klass;
        let previous_size := object_size_ l in
        whenM (negb (previous_size =? 0)) (checkM (previous_size =? size)) ;;
        update_layout klass (SetObjectSize size))) ;;
  whenM (kIsDebugBuild env) (LinkFields_debug env klass c is_static fields num_reference_fields) ;;
  mret (if is_static then Some size else None).

Definition LinkInstanceFields (env : LinkEnv) (klass : Z) : M LinkState unit :=
  checkM (negb (klass =? 0)) ;; _ ← LinkFields env klass false; mret tt.

Definition LinkStaticFields (env : LinkEnv) (klass : Z) : M LinkState Z :=
  checkM (negb (klass =? 0)) ;; class_size ← LinkFields env klass true; mret (default 0 class_size).

(** ** The bitmap of references *)

Definition kClassWalkSuper : Z := 0xC0000000.
Definition kObjectHeaderSize : Z := 8.

Definition CreateReferenceInstanceOffsets (klass : Z) : M LinkState unit :=
  l ← get_layout klass;
  reference_offsets ←
    (if negb (super_class_ l =? 0) then
       super ← get_layout (super_class_ l);
       let reference_offsets := reference_instance_offsets_ super in
       if negb (reference_offsets =? kClassWalkSuper) then
         let num_reference_fields := num_reference_instance_fields_ l in
         if negb (num_reference_fields =? 0) then
           let start_offset := RoundUp (object_size_ super) 4 in
           let start_bit := u32 (start_offset - kObjectHeaderSize) / 4 in
           if 32 <? start_bit + num_reference_fields then mret kClassWalkSuper
           else mret (Z.lor reference_offsets
                        (Z.land (u32 (Z.shiftl 0xffffffff start_bit))
                                (Z.shiftr 0xffffffff (32 - (start_bit + num_reference_fields)))))
         else mret reference_offsets
       else mret reference_offsets
     else mret 0);
  update_layout klass (SetReferenceInstanceOffsets reference_offsets).

(** The part of [LinkClass] that follows [LinkMethods], up to the check of the
    size of a class that is not retired.  The result is the size of the class. *)
Definition LinkClass_fields (env : LinkEnv) (klass : Z) : M LinkState Z :=
  LinkInstanceFields env klass ;;
  class_size ← LinkStaticFields env klass;
  CreateReferenceInstanceOffsets klass ;;
  c ← heap_op (load h_classes klass);
  checkM (mc_status c =? kStatusLoaded) ;;
  l ← get_layout klass;
  whenM (negb (IsTemp c) || (negb (init_done_ env) && (class_size_ l =? class_size)))
    (checkM (class_size_ l =? class_size)) ;;
  mret class_size.

End Linking.

(** ** The walk of the collector

    The visitor is called with an object and an offset; the walk is the list of
    offsets, in the order of the calls. *)

(** [ref_offsets] has 32 bits. *)
Fixpoint visit_bitmap (fuel : nat) (ref_offsets field_offset : Z) : list Z :=
  match fuel with
  | O => []
  | S fuel =>
      if ref_offsets =? 0 then []
      else
        (if negb (Z.land ref_offsets 1 =? 0) then [field_offset] else []) ++
        visit_bitmap fuel (Z.shiftr ref_offsets 1) (field_offset + 4)
  end.

Fixpoint visit_slots (kVisitClass : bool) (num_reference_fields : nat) (field_offset : Z) : list Z :=
  match num_reference_fields with
  | O => []
  | S n =>
      (if kVisitClass || negb (field_offset =? 0) then [field_offset] else []) ++
      visit_slots kVisitClass n (u32 (field_offset + 4))
  end.

(** The loop over the super classes; [fuel] bounds the depth of the class. *)
Fixpoint walk_super (fuel : nat) (kVisitClass : bool) (klass : Z) : M LinkState (list Z) :=
  if klass =? 0 then mret []
  else
    match fuel with
    | O => lift (Fault OutOfFuel)
    | S fuel =>
        l ← get_layout klass;
        let num_reference_fields := num_reference_instance_fields_ l in
        slots ← (if num_reference_fields =? 0 then mret []
                 else field_offset ← GetFirstReferenceInstanceFieldOffset l;
                      mret (visit_slots kVisitClass (Z.to_nat num_reference_fields) field_offset));
        rest ← walk_super fuel kVisitClass (super_class_ l);
        mret (slots ++ rest)
    end.

(** [VisitFieldsReferences<kVisitClass, false>] on an object of the class
    [klass]. *)
Definition VisitFieldsReferences (fuel : nat) (kVisitClass : bool) (klass ref_offsets : Z) : M LinkState (list Z) :=
  if negb (ref_offsets =? kClassWalkSuper) then
    mret ((if kVisitClass then [0] else []) ++ visit_bitmap 32 ref_offsets kObjectHeaderSize)
  else walk_super fuel kVisitClass klass.

Definition VisitInstanceFieldsReferences (fuel : nat) (kVisitClass : bool) (klass : Z) : M LinkState (list Z) :=
  l ← get_layout klass; VisitFieldsReferences fuel kVisitClass klass (reference_instance_offsets_ l).

(** [VisitFieldsReferences<kVisitClass, true>] on the class object [klass]. *)
Definition VisitStaticFieldsReferences (env : LinkEnv) (kVisitClass : bool) (klass : Z) : M LinkState (list Z) :=
  c ← heap_op (load h_classes klass);
  l ← get_layout klass;
  let num_reference_fields := num_reference_static_fields_ l in
  if num_reference_fields =? 0 then mret []
  else mret (visit_slots kVisitClass (Z.to_nat num_reference_fields) (GetFirstReferenceStaticFieldOffset env c l)).

(** ** Alignment *)

Definition field_size (n : Z) : Prop := n = 1 \/ n = 2 \/ n = 4 \/ n = 8.

Lemma IsAligned_mod n x : field_size n -> IsAligned n x = (x mod n =? 0).
Proof.
  intros Hn. unfold IsAligned. assert (exists k, 0 <= k /\ n = 2 ^ k) as (k & Hk & ->).
  { destruct Hn as [->|[->|[->| ->]]]; [exists 0|exists 1|exists 2|exists 3]; lia. }
  by rewrite land_ones_mod.
Qed.

Lemma RoundDown_mod x n : field_size n -> 0 <= x < 2 ^ 32 -> RoundDown x n = x - x mod n.
Proof.
  intros Hn Hx. unfold RoundDown. assert (exists k, 0 <= k <= 3 /\ n = 2 ^ k) as (k & Hk & ->).
  { destruct Hn as [->|[->|[->| ->]]]; [exists 0|exists 1|exists 2|exists 3]; lia. }
  assert (E : u32 (- 2 ^ k) = Z.shiftl (Z.ones (32 - k)) k).
  { assert (k = 0 \/ k = 1 \/ k = 2 \/ k = 3) as [->|[->|[->| ->]]] by lia; reflexivity. }
  transitivity (Z.shiftl (Z.shiftr x k) k).
  - apply Z.bits_inj'. intros i Hi. rewrite E, Z.land_spec, !Z.shiftl_spec by lia.
    destruct (Z.lt_ge_cases i k); [by rewrite !(Z.testbit_neg_r _ (i - k)), andb_false_r by lia|].
    rewrite Z.shiftr_spec by lia. replace (i - k + k) with i by lia.
    destruct (Z.lt_ge_cases i 32); [by rewrite Z.ones_spec_low, andb_true_r by lia|].
    rewrite (Z.bits_above_log2 x), andb_false_l; [done|lia|].
    destruct (decide (x = 0)) as [->|]; [cbn; lia|]. apply Z.log2_lt_pow2; [lia|].
    apply Z.lt_le_trans with (2 ^ 32); [lia|]. apply Z.pow_le_mono_r; lia.
  - rewrite Z.shiftr_div_pow2, Z.shiftl_mul_pow2 by lia. pose proof (Z.div_mod x (2 ^ k)). lia.
Qed.

Lemma RoundUp_spec x n : field_size n -> 0 <= x -> x + n <= 2 ^ 32 ->
  RoundUp x n mod n = 0 /\ x <= RoundUp x n < x + n.
Proof.
  intros Hn Hx Hb. unfold RoundUp. assert (1 <= n <= 8) by (unfold field_size in Hn; lia).
  rewrite u32_small, RoundDown_mod by (done || lia).
  destruct Hn as [->|[->|[->| ->]]]; mlia.
Qed.

Lemma RoundUp_aligned x n : field_size n -> 0 <= x -> x + n <= 2 ^ 32 -> x mod n = 0 -> RoundUp x n = x.
Proof.
  intros Hn Hx Hb Hm. destruct (RoundUp_spec x n Hn Hx Hb) as [H1 H2].
  destruct Hn as [->|[->|[->| ->]]]; mlia.
Qed.

(** ** Sizes of fields *)

Definition is_reference_field (f : ArtField) : bool := bool_decide (GetTypeAsPrimitiveType f = Primitive.kPrimNot).
Definition size_of (f : ArtField) : Z := Primitive.ComponentSize (GetTypeAsPrimitiveType f).

Lemma size_of_cases f : GetTypeAsPrimitiveType f <> Primitive.kPrimVoid -> field_size (size_of f).
Proof. unfold size_of, field_size. destruct (GetTypeAsPrimitiveType f); cbn; tauto. Qed.

Lemma size_of_offset o f : size_of (SetOffset o f) = size_of f.
Proof. done. Qed.

(** ** The order of fields is a strict weak order *)

Definition order_key (f : ArtField) : Z * Z * Z :=
  (if is_reference_field f then -16 else - size_of f, Primitive.value (GetTypeAsPrimitiveType f), af_dex_field_index f).

Definition key_lt (a b : Z * Z * Z) : Prop :=
  a.1.1 < b.1.1 \/ a.1.1 = b.1.1 /\ (a.1.2 < b.1.2 \/ a.1.2 = b.1.2 /\ a.2 < b.2).

Lemma field_before_key a b : field_before a b = true <-> key_lt (order_key a) (order_key b).
Proof.
  unfold field_before, key_lt, order_key, is_reference_field, size_of. cbn [fst snd].
  generalize (af_dex_field_index a) (af_dex_field_index b). intros i j.
  destruct (GetTypeAsPrimitiveType a), (GetTypeAsPrimitiveType b); cbn;
    repeat first [rewrite bool_decide_eq_true_2 by done|rewrite bool_decide_eq_false_2 by done];
    cbn; unfold Primitive.kObjectReferenceSize; lia.
Qed.

Lemma comparator_strict_weak h : strict_weak (LinkFieldsComparator h).
Proof.
  unfold LinkFieldsComparator. split.
  - intros a b H%field_before_key. apply not_true_iff_false. rewrite field_before_key. unfold key_lt in *. lia.
  - intros a b c H1 H2. apply not_true_iff_false in H1, H2. rewrite field_before_key in H1, H2.
    apply not_true_iff_false. rewrite field_before_key. unfold key_lt in *. lia.
Qed.

(** ** Gaps *)

Definition gap_ok (g : FieldGap) : Prop :=
  (gap_size g = 1 \/ gap_size g = 2 \/ gap_size g = 4) /\ 0 <= start_offset g /\ start_offset g mod gap_size g = 0.

Definition gap_bytes (g : FieldGap) : list Z := seqZ (start_offset g) (gap_size g).

Lemma extract_perm g gaps t rest : extract g gaps = (t, rest) -> t :: rest ≡ₚ g :: gaps.
Proof.
  revert g t rest. induction gaps as [|x gaps IH]; intros g t rest; cbn [extract]; [by intros [= <- <-]|].
  destruct (FieldGapsComparator g x).
  - destruct (extract x gaps) as [t' r] eqn:E. intros [= <- <-]. rewrite (Permutation_swap g t').
    by rewrite (IH _ _ _ E).
  - destruct (extract g gaps) as [t' r] eqn:E. intros [= <- <-]. rewrite (Permutation_swap x t').
    rewrite (IH _ _ _ E). apply Permutation_swap.
Qed.

Lemma top_pop_perm gaps t rest : top_pop gaps = Some (t, rest) -> gaps ≡ₚ t :: rest.
Proof. destruct gaps as [|g gaps]; cbn; [done|]. intros [= E]. symmetry. by apply extract_perm. Qed.

(** The comparator orders the queue from the largest gap down, so that what is
    on top is a smallest gap. *)
Lemma extract_smallest g gaps t rest :
  extract g gaps = (t, rest) -> gap_size t <= gap_size g /\ Forall (fun x => gap_size t <= gap_size x) rest.
Proof.
  revert g t rest. induction gaps as [|x gaps IH]; intros g t rest; cbn [extract]; [by intros [= <- <-]|].
  unfold FieldGapsComparator at 1. destruct (_ || _) eqn:C.
  - destruct (extract x gaps) as [t' r] eqn:E. intros [= <- <-]. destruct (IH _ _ _ E) as [H1 H2].
    split; [lia|]. constructor; [lia|done].
  - destruct (extract g gaps) as [t' r] eqn:E. intros [= <- <-]. destruct (IH _ _ _ E) as [H1 H2].
    split; [lia|]. constructor; [lia|done].
Qed.

Lemma gap_bytes_cons a n m : 0 <= n -> 0 <= m -> seqZ a n ++ seqZ (a + n) m = seqZ a (n + m).
Proof. intros. by rewrite seqZ_app. Qed.

Lemma add_gaps_ok fuel a b gaps : 0 <= a <= b -> b < 2 ^ 32 -> b - a <= Z.of_nat fuel ->
  exists new, add_gaps fuel a b gaps = Ok (new ++ gaps) /\ Forall gap_ok new /\
    concat (gap_bytes <$> new) ≡ₚ seqZ a (b - a) /\
    (forall n, n = 1 \/ n = 2 \/ n = 4 -> a mod n = 0 -> b mod n = 0 -> Forall (fun g => n <= gap_size g) new).
Proof.
  revert a gaps. induction fuel as [|fuel IH]; intros a gaps Ha Hb Hf; cbn [add_gaps];
    (destruct (Z.eqb_spec a b) as [->|Hne]; [exists []; rewrite Z.sub_diag; repeat split; constructor|]); [lia|].
  rewrite (u32_small (b - a)) by lia.
  rewrite !IsAligned_mod by (unfold field_size; lia). set (size := if _ && _ then 4 else _).
  assert (Hs : (size = 1 \/ size = 2 \/ size = 4) /\ a mod size = 0 /\ a + size <= b /\
               forall n, n = 1 \/ n = 2 \/ n = 4 -> a mod n = 0 -> b mod n = 0 -> n <= size /\ (a + size) mod n = 0).
  { subst size. destruct (_ && (a mod 4 =? 0)) eqn:C4; [|destruct (_ && (a mod 2 =? 0)) eqn:C2];
      (split; [tauto|split; [mlia|split; [mlia|]]]); intros n [->|[->| ->]]; mlia. }
  clearbody size. destruct Hs as (Hsz & Hal & Hle & Hn). rewrite u32_small by lia.
  destruct (IH (a + size) (mkGap a size :: gaps)) as (new & E & Hok & Hby & Hlo); [lia..|].
  exists (new ++ [mkGap a size]). split; [by rewrite E, <- app_assoc|].
  split; [apply Forall_app; split; [done|]; constructor; [|done]; split; cbn; [tauto|split; [lia|done]]|].
  split.
  - rewrite fmap_app, concat_app. cbn [fmap list_fmap concat]. rewrite app_nil_r, Hby. unfold gap_bytes at 1. cbn.
    rewrite Permutation_app_comm, gap_bytes_cons by lia. f_equiv. lia.
  - intros n H0 H1 H2. destruct (Hn n H0 H1 H2). apply Forall_app. split; [by apply Hlo|]. by constructor.
Qed.

Lemma AddFieldGap_ok a b gaps : 0 <= a <= b -> b < 2 ^ 32 ->
  exists new, AddFieldGap a b gaps = Ok (new ++ gaps) /\ Forall gap_ok new /\
    concat (gap_bytes <$> new) ≡ₚ seqZ a (b - a) /\
    (forall n, n = 1 \/ n = 2 \/ n = 4 -> a mod n = 0 -> b mod n = 0 -> Forall (fun g => n <= gap_size g) new).
Proof. intros Ha Hb. unfold AddFieldGap. rewrite u32_small by lia. apply add_gaps_ok; lia. Qed.

(** ** The invariant of the layout

    The fields placed so far, with their offsets, and the gaps are a partition
    of the bytes between where the layout starts and where it ends now. *)

Definition field_at (h : Heap) (p : Z) : ArtField := default fresh_field (h_fields h !! p).
Definition slot_bytes (h : Heap) (po : Z * Z) : list Z := seqZ po.2 (size_of (field_at h po.1)).

(** [h] is [h0] with the offsets of [placed]. *)
Record placed_in (h0 : Heap) (placed : list (Z * Z)) (h : Heap) : Prop := {
  pi_frame : h = set_fields (h_fields h) h0;
  pi_placed : forall p o, (p, o) ∈ placed ->
    exists f, h_fields h0 !! p = Some f /\ h_fields h !! p = Some (SetOffset o f);
  pi_others : forall p, p ∉ placed.*1 -> h_fields h !! p = h_fields h0 !! p;
}.

Record layout_inv (h0 : Heap) (start : Z) (placed : list (Z * Z)) (gaps : FieldGaps) (off : Z) (h : Heap) : Prop := {
  li_heap : placed_in h0 placed h;
  li_off : 0 <= start <= off;
  li_gaps : Forall gap_ok gaps;
  li_aligned : Forall (fun po => po.2 mod size_of (field_at h0 po.1) = 0) placed;
  li_bytes : concat (slot_bytes h0 <$> placed) ++ concat (gap_bytes <$> gaps) ≡ₚ seqZ start (off - start);
}.

Lemma layout_start h start : 0 <= start -> layout_inv h start [] [] start h.
Proof.
  intros H. constructor; [constructor|lia|constructor..|]; [by destruct h|by intros p o ?%not_elem_of_nil|done|].
  by rewrite Z.sub_diag.
Qed.

Lemma placed_load h0 placed h p f :
  placed_in h0 placed h -> p ∉ placed.*1 -> h_fields h0 !! p = Some f -> load h_fields p h = Ok (f, h).
Proof.
  intros [_ _ H] Hp Hf. unfold load, deref. by rewrite H, Hf.
Qed.

Lemma placed_store h0 placed h p o f :
  placed_in h0 placed h -> p ∉ placed.*1 -> h_fields h0 !! p = Some f ->
  placed_in h0 ((p, o) :: placed) (set_fields (<[p := SetOffset o f]> (h_fields h)) h).
Proof.
  intros [H1 H2 H3] Hp Hf. constructor; cbn [h_fields set_fields fmap list_fmap fst].
  - rewrite H1. done.
  - intros q o' [[= -> ->]|Hq]%elem_of_cons.
    + exists f. by rewrite lookup_insert_eq.
    + destruct (H2 _ _ Hq) as (g & Hg & Hg'). exists g. rewrite lookup_insert_ne; [done|].
      intros ->. apply Hp. by apply (list_elem_of_fmap_2 fst) in Hq.
  - intros q [Hne Hq]%not_elem_of_cons. rewrite lookup_insert_ne by done. by apply H3.
Qed.

Lemma field_at_some h p f : h_fields h !! p = Some f -> field_at h p = f.
Proof. unfold field_at. by intros ->. Qed.

(** Aligning the end adds the gaps up to it. *)
Lemma align_offset_ok h0 start placed gaps off h n :
  field_size n -> layout_inv h0 start placed gaps off h -> off + n <= 2 ^ 32 ->
  exists new, align_offset n off gaps = Ok (RoundUp off n, new ++ gaps) /\
    layout_inv h0 start placed (new ++ gaps) (RoundUp off n) h /\
    concat (gap_bytes <$> new) ≡ₚ seqZ off (RoundUp off n - off) /\
    (forall m, m = 1 \/ m = 2 \/ m = 4 -> off mod m = 0 -> RoundUp off n mod m = 0 ->
       Forall (fun g => m <= gap_size g) new).
Proof.
  intros Hn Hinv Hb. pose proof (li_off _ _ _ _ _ _ Hinv) as Ho.
  destruct (RoundUp_spec off n Hn ltac:(lia) Hb) as [Hr1 Hr2]. unfold align_offset. rewrite IsAligned_mod by done.
  destruct (Z.eqb_spec (off mod n) 0) as [Hm|Hm]; cbn [negb].
  - exists []. rewrite RoundUp_aligned by (done || lia). rewrite Z.sub_diag.
    split; [done|]. split; [done|]. split; [done|]. intros. constructor.
  - assert (RoundUp off n < 2 ^ 32).
    { destruct Hn as [->|[->|[->| ->]]]; mlia. }
    destruct (AddFieldGap_ok off (RoundUp off n) gaps) as (new & E & Hok & Hby & Hlo); [lia..|].
    exists new. rewrite E. split; [done|]. split; [|split; [done|exact Hlo]].
    destruct Hinv as [H1 H2 H3 H4 H5]. constructor; [done|lia| |done|].
    + by apply Forall_app.
    + rewrite fmap_app, concat_app, Hby. rewrite (Permutation_app_comm (seqZ off _)), app_assoc, H5.
      replace off with (start + (off - start)) at 2 by lia. rewrite gap_bytes_cons by lia. f_equiv. lia.
Qed.

(** Placing a field at the end. *)
Lemma place_at_end h0 start placed gaps off h p f :
  layout_inv h0 start placed gaps off h -> p ∉ placed.*1 -> h_fields h0 !! p = Some f ->
  field_size (size_of f) -> off mod size_of f = 0 ->
  layout_inv h0 start ((p, off) :: placed) gaps (off + size_of f)
    (set_fields (<[p := SetOffset off f]> (h_fields h)) h).
Proof.
  intros [H1 H2 H3 H4 H5] Hp Hf Hs Ha. assert (0 < size_of f) by (unfold field_size in Hs; lia).
  constructor; [by apply placed_store|lia|done| |].
  - constructor; [|done]. cbn. by rewrite (field_at_some _ _ _ Hf).
  - cbn [fmap list_fmap concat]. rewrite <- app_assoc, H5. unfold slot_bytes. cbn [fst snd].
    rewrite (field_at_some _ _ _ Hf), Permutation_app_comm.
    replace off with (start + (off - start)) at 2 by lia. rewrite gap_bytes_cons by lia. f_equiv. lia.
Qed.

(** Placing a field at the start of a gap; the rest of the gap is a gap again. *)
Lemma place_in_gap h0 start placed gaps off h p f g others rest :
  layout_inv h0 start placed gaps off h -> p ∉ placed.*1 -> h_fields h0 !! p = Some f ->
  gaps ≡ₚ g :: others -> field_size (size_of f) -> size_of f <= gap_size g -> Forall gap_ok rest ->
  concat (gap_bytes <$> rest) ≡ₚ seqZ (start_offset g + size_of f) (gap_size g - size_of f) ->
  layout_inv h0 start ((p, start_offset g) :: placed) (rest ++ others) off
    (set_fields (<[p := SetOffset (start_offset g) f]> (h_fields h)) h).
Proof.
  intros [H1 H2 H3 H4 H5] Hp Hf Hg Hs Hle Hok Hrest. rewrite Hg in H3. apply Forall_cons in H3 as [Hg0 H3].
  assert (0 < size_of f) by (unfold field_size in Hs; lia).
  constructor; [by apply placed_store|done|by apply Forall_app| |].
  - constructor; [|done]. cbn. rewrite (field_at_some _ _ _ Hf).
    destruct Hg0 as ([E|[E|E]] & _ & Hm); rewrite E in *; destruct Hs as [Es|[Es|[Es|Es]]]; rewrite Es in *; mlia.
  - rewrite Hg in H5. cbn [fmap list_fmap concat] in H5 |- *. rewrite <- H5.
    rewrite fmap_app, concat_app, Hrest. unfold slot_bytes at 1, gap_bytes at 2. cbn [fst snd].
    rewrite (field_at_some _ _ _ Hf).
    replace (gap_size g) with (size_of f + (gap_size g - size_of f)) at 2 by lia.
    rewrite <- (gap_bytes_cons _ (size_of f)) by lia. solve_Permutation.
Qed.

(** ** Rounds of the loops *)

(** What a round of [ShuffleForward<n>] does with the end of the layout and the
    gaps: the offset of the field, and the new end and gaps. *)
Definition next_slot (n off : Z) (gaps : FieldGaps) : outcome (Z * Z * FieldGaps) :=
  '(off, gaps) ← align_offset n off gaps;
  match top_pop gaps with
  | Some (gap, others) =>
      if n <=? gap_size gap then
        gaps ← (if n <? gap_size gap
                then AddFieldGap (u32 (start_offset gap + n)) (u32 (start_offset gap + gap_size gap)) others
                else Ok others);
        Ok (start_offset gap, off, gaps)
      else Ok (off, u32 (off + n), gaps)
  | None => Ok (off, u32 (off + n), gaps)
  end.

Lemma ShuffleForward_round n idx off p rest gaps h f o off' gaps' :
  load h_fields p h = Ok (f, h) -> n <= size_of f -> is_reference_field f = false ->
  next_slot n off gaps = Ok (o, off', gaps') ->
  ShuffleForward n idx off (p :: rest) gaps h =
    ShuffleForward n (idx + 1) off' rest gaps' (set_fields (<[p := SetOffset o f]> (h_fields h)) h).
Proof.
  intros Hl Hs Hr Hslot. cbn [ShuffleForward]. rewrite (bind_ok _ _ _ _ _ Hl). unfold size_of in Hs. cbv zeta.
  rewrite (proj2 (Z.ltb_ge _ _)) by lia. rewrite bind_lift. unfold next_slot in Hslot.
  destruct (align_offset n off gaps) as [[off1 gaps1]|]; [|done]. cbn [mbind outcome_bind] in Hslot.
  unfold is_reference_field in Hr. rewrite Hr. cbn [negb]. unfold checkM, check. rewrite bind_lift.
  destruct (top_pop gaps1) as [[gap others]|]; [|simplify_eq; done].
  destruct (n <=? gap_size gap); [|simplify_eq; done].
  unfold store_field. rewrite bind_modify, bind_lift.
  destruct (if n <? gap_size gap then _ else _) as [gaps2|]; [|done]. by injection Hslot as <- <- <-.
Qed.

Lemma ShuffleForward_stop n idx off p rest gaps h f :
  load h_fields p h = Ok (f, h) -> size_of f < n ->
  ShuffleForward n idx off (p :: rest) gaps h = Ok ((idx, off, p :: rest, gaps), h).
Proof.
  intros Hl Hs. cbn [ShuffleForward]. rewrite (bind_ok _ _ _ _ _ Hl). unfold size_of in Hs. cbv zeta.
  by rewrite (proj2 (Z.ltb_lt _ _)) by lia.
Qed.

Definition gap_sum (gaps : FieldGaps) : Z := Z.of_nat (length (concat (gap_bytes <$> gaps))).

(** The rest of a gap of which the first [n] bytes are used. *)
Lemma split_gap n g others : gap_ok g -> field_size n -> n <= gap_size g -> start_offset g + gap_size g < 2 ^ 32 ->
  exists rest,
    (if n <? gap_size g then AddFieldGap (u32 (start_offset g + n)) (u32 (start_offset g + gap_size g)) others
     else Ok others) = Ok (rest ++ others) /\
    Forall gap_ok rest /\ concat (gap_bytes <$> rest) ≡ₚ seqZ (start_offset g + n) (gap_size g - n) /\
    Forall (fun x => n <= gap_size x) rest.
Proof.
  intros (Hs & H0 & Hm) Hn Hle Hb. assert (0 < n) by (unfold field_size in Hn; lia).
  destruct (Z.ltb_spec n (gap_size g)) as [Hlt|Hge].
  - rewrite !u32_small by lia.
    destruct (AddFieldGap_ok (start_offset g + n) (start_offset g + gap_size g) others) as (new & E & Hok & Hby & Hlo); [lia..|].
    exists new. split; [done|]. split; [done|]. split; [rewrite Hby; f_equiv; lia|].
    apply Hlo; [unfold field_size in Hn; lia|..]; destruct Hs as [E1|[E1|E1]]; rewrite E1 in *;
      destruct Hn as [->|[->|[->| ->]]]; mlia.
  - exists []. split; [done|]. split; [constructor|]. replace (gap_size g - n) with 0 by lia. split; [done|constructor].
Qed.

(** Gaps are below the end. *)
Lemma gaps_below h0 start placed gaps off h g :
  layout_inv h0 start placed gaps off h -> g ∈ gaps -> start <= start_offset g /\ start_offset g + gap_size g <= off.
Proof.
  intros [H1 H2 H3 H4 H5] Hg. assert (Hok : gap_ok g) by (by eapply Forall_forall in H3).
  assert (Hin : forall x, x ∈ gap_bytes g -> start <= x < off).
  { intros x Hx. assert (x ∈ seqZ start (off - start)) as ?%elem_of_seqZ; [|lia]. rewrite <- H5.
    apply elem_of_app. right. apply list_elem_of_In, in_concat. exists (gap_bytes g).
    split; apply list_elem_of_In; [by apply list_elem_of_fmap_2|done]. }
  destruct Hok as (Hs & _). unfold gap_bytes in Hin.
  pose proof (Hin (start_offset g) ltac:(apply elem_of_seqZ; lia)).
  pose proof (Hin (start_offset g + gap_size g - 1) ltac:(apply elem_of_seqZ; lia)). lia.
Qed.

(** A round aligns the end; then it uses the gap on top of the queue, or
    the end. *)
Lemma next_slot_cases h0 start placed gaps off h n :
  field_size n -> layout_inv h0 start placed gaps off h -> off + 16 < 2 ^ 32 ->
  exists new,
    layout_inv h0 start placed (new ++ gaps) (RoundUp off n) h /\
    concat (gap_bytes <$> new) ≡ₚ seqZ off (RoundUp off n - off) /\
    (forall m, m = 1 \/ m = 2 \/ m = 4 -> off mod m = 0 -> RoundUp off n mod m = 0 ->
       Forall (fun g => m <= gap_size g) new) /\
    ((next_slot n off gaps = Ok (RoundUp off n, RoundUp off n + n, new ++ gaps) /\
      (new ++ gaps = [] \/ exists g, g ∈ new ++ gaps /\ gap_size g < n)) \/
     (exists g others rest, new ++ gaps ≡ₚ g :: others /\ n <= gap_size g /\
        next_slot n off gaps = Ok (start_offset g, RoundUp off n, rest ++ others) /\ Forall gap_ok rest /\
        concat (gap_bytes <$> rest) ≡ₚ seqZ (start_offset g + n) (gap_size g - n) /\
        Forall (fun x => n <= gap_size x) rest)).
Proof.
  intros Hn Hinv Hb. assert (1 <= n <= 8) by (unfold field_size in Hn; lia).
  pose proof (li_off _ _ _ _ _ _ Hinv).
  destruct (align_offset_ok _ _ _ _ _ _ n Hn Hinv) as (new & E & Hinv' & Hby & Hlo); [lia|].
  exists new. split; [done|]. split; [done|]. split; [done|].
  destruct (RoundUp_spec off n Hn) as [Hr1 Hr2]; [lia..|]. unfold next_slot. rewrite E. cbn [mbind outcome_bind].
  rewrite u32_small by lia. destruct (top_pop (new ++ gaps)) as [[gap others]|] eqn:Et.
  2:{ left. split; [done|]. left. by destruct (new ++ gaps). }
  apply top_pop_perm in Et. assert (Hg : gap ∈ new ++ gaps) by (rewrite Et; by left).
  destruct (Z.leb_spec n (gap_size gap)) as [Hle|]; [|left; split; [done|right; by exists gap]].
  destruct (gaps_below _ _ _ _ _ _ _ Hinv' Hg) as [_ Hgb].
  destruct (split_gap n gap others) as (rest & -> & Hok & Hrest & Hn');
    [by eapply Forall_forall; [apply (li_gaps _ _ _ _ _ _ Hinv')|]|done|done|lia|].
  right. by exists gap, others, rest.
Qed.

Lemma next_slot_ok h0 start placed gaps off h n p f :
  field_size n -> layout_inv h0 start placed gaps off h -> p ∉ placed.*1 -> h_fields h0 !! p = Some f ->
  size_of f = n -> off + 16 < 2 ^ 32 ->
  exists o off' gaps', next_slot n off gaps = Ok (o, off', gaps') /\ off <= off' <= off + 15 /\
    layout_inv h0 start ((p, o) :: placed) gaps' off' (set_fields (<[p := SetOffset o f]> (h_fields h)) h).
Proof.
  intros Hn Hinv Hp Hf Hsz Hb. assert (1 <= n <= 8) by (unfold field_size in Hn; lia).
  pose proof (li_off _ _ _ _ _ _ Hinv). destruct (RoundUp_spec off n Hn) as [Hr1 Hr2]; [lia..|].
  destruct (next_slot_cases _ _ _ _ _ _ n Hn Hinv Hb) as (new & Hinv' & _ & _ & [[-> _]|Hgap]).
  - eexists _, _, _. split; [done|]. split; [lia|]. subst n. by apply place_at_end.
  - destruct Hgap as (g & others & rest & Hg & Hle & -> & Hok & Hrest & _).
    eexists _, _, _. split; [done|]. split; [lia|]. subst n. by eapply place_in_gap.
Qed.

(** ** How much is lost to alignment *)

Lemma gap_sum_app a b : gap_sum (a ++ b) = gap_sum a + gap_sum b.
Proof. unfold gap_sum. rewrite fmap_app, concat_app, length_app. lia. Qed.

Lemma gap_sum_perm a b : a ≡ₚ b -> gap_sum a = gap_sum b.
Proof. intros H. unfold gap_sum. by rewrite H. Qed.

Lemma gap_sum_cons g gaps : gap_ok g -> gap_sum (g :: gaps) = gap_size g + gap_sum gaps.
Proof. intros [H _]. unfold gap_sum, gap_bytes. cbn [fmap list_fmap concat]. rewrite length_app, length_seqZ. lia. Qed.

Lemma gap_sum_bytes gaps a n : 0 <= n -> concat (gap_bytes <$> gaps) ≡ₚ seqZ a n -> gap_sum gaps = n.
Proof. intros Hn H. unfold gap_sum. rewrite H, length_seqZ. lia. Qed.

(** What a round does to the bytes in gaps. *)
Lemma next_slot_sum h0 start placed gaps off h n o off' gaps' :
  field_size n -> layout_inv h0 start placed gaps off h -> off + 16 < 2 ^ 32 ->
  next_slot n off gaps = Ok (o, off', gaps') ->
  off' mod n = 0 /\
  (off' = RoundUp off n + n /\ gap_sum gaps' = gap_sum gaps + (RoundUp off n - off) \/
   off' = RoundUp off n /\ gap_sum gaps' = gap_sum gaps + (RoundUp off n - off) - n).
Proof.
  intros Hn Hinv Hb E. assert (1 <= n <= 8) by (unfold field_size in Hn; lia).
  pose proof (li_off _ _ _ _ _ _ Hinv). destruct (RoundUp_spec off n Hn) as [Hr1 Hr2]; [lia..|].
  destruct (next_slot_cases _ _ _ _ _ _ n Hn Hinv Hb) as (new & Hinv' & Hnew & _ & [[E' _]|Hgap]).
  - rewrite E in E'. simplify_eq. rewrite gap_sum_app, (gap_sum_bytes new off (RoundUp off n - off)) by (done || lia).
    split; [|left; lia]. destruct Hn as [->|[->|[->| ->]]]; mlia.
  - destruct Hgap as (g & others & rest & Hg & Hle & E' & Hok & Hrest & _). rewrite E in E'. simplify_eq.
    split; [done|]. right. split; [done|].
    assert (gap_ok g) by (eapply Forall_forall; [apply (li_gaps _ _ _ _ _ _ Hinv')|rewrite Hg; by left]).
    pose proof (gap_sum_perm _ _ Hg) as Hs. rewrite gap_sum_cons, gap_sum_app in Hs by done.
    rewrite (gap_sum_bytes new off (RoundUp off n - off)) in Hs by (done || lia).
    rewrite gap_sum_app, (gap_sum_bytes rest (start_offset g + n) (gap_size g - n)) by (done || lia). lia.
Qed.

(** Never more than seven bytes are in gaps. *)
Definition padding_ok (n off : Z) (gaps : FieldGaps) : Prop := gap_sum gaps + (- off) mod n <= 7.

Lemma padding_step h0 start placed gaps off h n o off' gaps' :
  field_size n -> layout_inv h0 start placed gaps off h -> off + 16 < 2 ^ 32 ->
  padding_ok n off gaps -> next_slot n off gaps = Ok (o, off', gaps') -> padding_ok n off' gaps'.
Proof.
  intros Hn Hinv Hb Hp E. pose proof (li_off _ _ _ _ _ _ Hinv). unfold padding_ok in *.
  assert (1 <= n <= 8) by (unfold field_size in Hn; lia). destruct (RoundUp_spec off n Hn) as [Hr1 Hr2]; [lia..|].
  destruct (next_slot_sum _ _ _ _ _ _ _ _ _ _ Hn Hinv Hb E) as [Hm [[-> Hs]|[-> Hs]]]; rewrite Hs;
    destruct Hn as [->|[->|[->| ->]]]; mlia.
Qed.

(** When the end is aligned and every gap holds a field of size [n], gaps are
    filled as long as there are any. *)
Definition filling (n g : Z) (k : nat) (off : Z) (gaps : FieldGaps) : Prop :=
  Forall (fun x => n <= gap_size x) gaps /\ off mod n = 0 /\ gap_sum gaps = Z.max 0 (g - n * Z.of_nat k).

Lemma filling_step h0 start placed gaps off h n g k o off' gaps' :
  field_size n -> layout_inv h0 start placed gaps off h -> off + 16 < 2 ^ 32 ->
  filling n g k off gaps -> next_slot n off gaps = Ok (o, off', gaps') -> filling n g (S k) off' gaps'.
Proof.
  intros Hn Hinv Hb (Hge & Hal & Hsum) E. pose proof (li_off _ _ _ _ _ _ Hinv).
  assert (1 <= n <= 8) by (unfold field_size in Hn; lia).
  destruct (next_slot_sum _ _ _ _ _ _ _ _ _ _ Hn Hinv Hb E) as [Hm Hs]. unfold filling.
  assert (Hru : RoundUp off n = off) by (apply RoundUp_aligned; (done || lia)).
  destruct (next_slot_cases _ _ _ _ _ _ n Hn Hinv Hb) as (new & Hinv' & Hnew & _ & Hcases).
  rewrite Hru, Z.sub_diag in *. assert (new = []) as ->.
  { destruct new as [|x new]; [done|]. apply gap_sum_bytes in Hnew; [|lia].
    pose proof (li_gaps _ _ _ _ _ _ Hinv') as Hg. apply Forall_cons in Hg as [Hg _]. rewrite gap_sum_cons in Hnew by done.
    unfold gap_ok, gap_sum in *. lia. }
  cbn [app] in Hcases. destruct Hcases as [[E' Hno]|(x & others & rest & Hx & Hle & E' & Hok & Hrest & Hr)];
    rewrite E in E'; simplify_eq.
  - assert (gaps = []) as ->.
    { destruct Hno as [?|(x & Hx & Hlt)]; [done|]. eapply Forall_forall in Hge; [|exact Hx]. cbn in Hge. lia. }
    split; [constructor|]. split; [done|]. change (gap_sum []) with 0 in *. lia.
  - rewrite Hx in Hge. apply Forall_cons in Hge as [_ Hge]. split; [by apply Forall_app|]. split; [done|].
    assert (gap_ok x) by (eapply Forall_forall; [apply (li_gaps _ _ _ _ _ _ Hinv')|rewrite Hx; by left]).
    assert (n <= gap_sum gaps).
    { rewrite (gap_sum_perm _ _ Hx), gap_sum_cons by done. unfold gap_sum. lia. }
    lia.
Qed.

(** The loop over the largest fields uses no gap, and leaves the bytes before
    the first of them. *)
Definition padded (off0 : Z) (k : nat) (off : Z) (gaps : FieldGaps) : Prop :=
  Forall (fun x => 4 <= gap_size x) gaps /\ off mod 4 = 0 /\
  if (k =? 0)%nat then off = off0 /\ gaps = [] else off mod 8 = 0 /\ gap_sum gaps = RoundUp off0 8 - off0.

Lemma padded_step h0 start placed gaps off h off0 k o off' gaps' :
  layout_inv h0 start placed gaps off h -> off + 16 < 2 ^ 32 ->
  padded off0 k off gaps -> next_slot 8 off gaps = Ok (o, off', gaps') -> padded off0 (S k) off' gaps'.
Proof.
  intros Hinv Hb (Hge & Hal & Hk) E. pose proof (li_off _ _ _ _ _ _ Hinv). assert (Hn : field_size 8) by (unfold field_size; lia).
  destruct (RoundUp_spec off 8 Hn) as [Hr1 Hr2]; [lia..|].
  destruct (next_slot_cases _ _ _ _ _ _ 8 Hn Hinv Hb) as (new & Hinv' & Hnew & Hlo & Hcases).
  destruct Hcases as [[E' _]|(x & others & rest & Hx & Hle & _)].
  2:{ exfalso. assert (gap_ok x) by (eapply Forall_forall; [apply (li_gaps _ _ _ _ _ _ Hinv')|rewrite Hx; by left]).
      unfold gap_ok in *. lia. }
  rewrite E in E'. simplify_eq. unfold padded. cbn [Nat.eqb]. split_and!; [|mlia|mlia|].
  - apply Forall_app. split; [|done]. apply Hlo; [lia|done|mlia].
  - rewrite gap_sum_app, (gap_sum_bytes new off (RoundUp off 8 - off)) by (done || lia).
    destruct (Nat.eqb_spec k 0); [destruct Hk as [-> ->]; change (gap_sum []) with 0; lia|].
    destruct Hk as [H8 ->]. rewrite RoundUp_aligned by (done || lia). lia.
Qed.

(** ** The loops *)

Section Loops.
Context (h0 : Heap) (start : Z).

Definition size_at (p : Z) : Z := size_of (field_at h0 p).

(** The fields of the deque are there, and not placed yet. *)
Record pending (deque : list Z) (placed : list (Z * Z)) (off : Z) : Prop := {
  pe_fields : forall p, p ∈ deque -> exists f, h_fields h0 !! p = Some f /\ GetTypeAsPrimitiveType f <> Primitive.kPrimVoid;
  pe_nodup : NoDup deque;
  pe_fresh : forall p, p ∈ deque -> p ∉ placed.*1;
  pe_room : off + 16 * Z.of_nat (length deque) < 2 ^ 32;
}.

Lemma pending_next p rest placed off o off' :
  pending (p :: rest) placed off -> off' <= off + 16 -> pending rest ((p, o) :: placed) off'.
Proof.
  intros [H1 [Hp H2]%NoDup_cons H3 H4] Ho. constructor; [| |intros q Hq|].
  - intros q Hq. apply H1. by right.
  - done.
  - cbn. apply not_elem_of_cons. split; [intros ->; done|]. apply H3. by right.
  - cbn [length] in H4. lia.
Qed.

Lemma pending_head p rest placed off h :
  pending (p :: rest) placed off -> placed_in h0 placed h ->
  exists f, h_fields h0 !! p = Some f /\ load h_fields p h = Ok (f, h) /\ size_at p = size_of f /\
    field_size (size_of f) /\ (p ∉ placed.*1) /\ off + 16 < 2 ^ 32.
Proof.
  intros [H1 H2 H3 H4] Hpl. destruct (H1 p ltac:(by left)) as (f & Hf & Hv). pose proof (H3 p ltac:(by left)) as Hp.
  exists f. split; [done|]. split; [by eapply placed_load|]. split; [by unfold size_at; erewrite field_at_some|].
  split; [by apply size_of_cases|]. split; [done|]. cbn [length] in H4. lia.
Qed.

(** A loop of [ShuffleForward<n>] takes the fields of size [n]; what a round
    does to the end and the gaps can be followed by a predicate [Q], indexed by
    the number of rounds. *)
Lemma ShuffleForward_ok n (Q : nat -> Z -> FieldGaps -> Prop) deque : field_size n ->
  (forall k off gaps o off' gaps' placed h, layout_inv h0 start placed gaps off h -> off + 16 < 2 ^ 32 ->
     Q k off gaps -> next_slot n off gaps = Ok (o, off', gaps') -> Q (S k) off' gaps') ->
  forall k idx off gaps placed h, layout_inv h0 start placed gaps off h -> pending deque placed off ->
  Forall (fun p => is_reference_field (field_at h0 p) = false /\ size_at p <= n) deque ->
  StronglySorted (fun p q => size_at q <= size_at p) deque -> Q k off gaps ->
  exists taken left placed' off' gaps' h',
    ShuffleForward n idx off deque gaps h = Ok ((idx + Z.of_nat (length taken), off', left, gaps'), h') /\
    deque = taken ++ left /\ layout_inv h0 start (placed' ++ placed) gaps' off' h' /\ placed'.*1 ≡ₚ taken /\
    Forall (fun p => size_at p = n) taken /\ Forall (fun p => size_at p < n) left /\
    pending left (placed' ++ placed) off' /\ Q (k + length taken)%nat off' gaps'.
Proof.
  intros Hn HQ. induction deque as [|p rest IH]; intros k idx off gaps placed h Hinv Hpe Hty Hso HQ0.
  - exists [], [], [], off, gaps, h. cbn. rewrite Z.add_0_r, Nat.add_0_r. split_and!; first [done|by apply Forall_nil].
  - destruct (pending_head _ _ _ _ _ Hpe (li_heap _ _ _ _ _ _ Hinv)) as (f & Hf & Hl & Hs & Hfs & Hp & Hb).
    apply Forall_cons in Hty as [[Hr Hle] Hty]. apply StronglySorted_inv in Hso as [Hso Hall].
    rewrite (field_at_some _ _ _ Hf) in Hr. destruct (decide (size_at p = n)) as [E|E].
    + rewrite Hs in E. destruct (next_slot_ok _ _ _ _ _ _ n p f Hn Hinv Hp Hf E Hb) as (o & off1 & gaps1 & Esl & Hoff & Hinv1).
      rewrite (ShuffleForward_round n idx off p rest gaps h f o off1 gaps1 Hl ltac:(lia) Hr Esl).
      destruct (IH (S k) (idx + 1) off1 gaps1 _ _ Hinv1 (pending_next _ _ _ _ o off1 Hpe ltac:(lia)) Hty Hso
                  (HQ _ _ _ _ _ _ _ _ Hinv Hb HQ0 Esl))
        as (taken & left & placed' & off' & gaps' & h' & -> & -> & Hinv' & Hpl & Ht & Hle' & Hpe' & HQ').
      exists (p :: taken), left, (placed' ++ [(p, o)]), off', gaps', h'.
      rewrite <- app_assoc. cbn [app length] in *. split_and!; try done.
      * by replace (idx + 1 + Z.of_nat (length taken)) with (idx + Z.of_nat (S (length taken))) by lia.
      * rewrite fmap_app, Hpl. symmetry. apply Permutation_cons_append.
      * constructor; [by rewrite Hs|done].
      * by rewrite Nat.add_succ_r.
    + rewrite (ShuffleForward_stop _ _ _ _ _ _ _ _ Hl) by lia.
      exists [], (p :: rest), [], off, gaps, h. cbn. rewrite Z.add_0_r, Nat.add_0_r.
      split_and!; try done. constructor; [lia|]. eapply Forall_impl; [exact Hall|]. cbn. intros q Hq. lia.
Qed.

(** References are placed one after the other. *)
Lemma place_references_round idx num off p rest gaps h f new :
  load h_fields p h = Ok (f, h) -> is_reference_field f = true -> align_offset 4 off gaps = Ok (RoundUp off 4, new ++ gaps) ->
  place_references idx num off (p :: rest) gaps h =
    place_references (idx + 1) (num + 1) (u32 (RoundUp off 4 + 4)) rest (new ++ gaps)
      (set_fields (<[p := SetOffset (RoundUp off 4) f]> (h_fields h)) h).
Proof.
  intros Hl Hr Ha. cbn [place_references]. rewrite (bind_ok _ _ _ _ _ Hl). cbv zeta. unfold is_reference_field in Hr.
  rewrite Hr. cbn [negb]. by rewrite bind_lift, Ha.
Qed.

Lemma place_references_stop idx num off deque gaps h :
  (forall p rest, deque = p :: rest -> exists f, load h_fields p h = Ok (f, h) /\ is_reference_field f = false) ->
  place_references idx num off deque gaps h = Ok ((idx, num, off, deque, gaps), h).
Proof.
  intros H. destruct deque as [|p rest]; [done|]. destruct (H p rest eq_refl) as (f & Hl & Hr).
  cbn [place_references]. rewrite (bind_ok _ _ _ _ _ Hl). cbv zeta. unfold is_reference_field in Hr. by rewrite Hr.
Qed.

Definition reference_at (p : Z) : bool := is_reference_field (field_at h0 p).

Lemma reference_size p : reference_at p = true -> size_at p = 4.
Proof. unfold reference_at, is_reference_field, size_at, size_of. intros H%bool_decide_eq_true. by rewrite H. Qed.

Lemma place_references_aligned refs prims :
  Forall (fun p => reference_at p = true) refs -> Forall (fun p => reference_at p = false) prims ->
  forall idx num off gaps placed h, layout_inv h0 start placed gaps off h -> pending (refs ++ prims) placed off -> off mod 4 = 0 ->
  exists placed' h',
    place_references idx num off (refs ++ prims) gaps h =
      Ok ((idx + Z.of_nat (length refs), num + Z.of_nat (length refs), off + 4 * Z.of_nat (length refs), prims, gaps), h') /\
    layout_inv h0 start (placed' ++ placed) gaps (off + 4 * Z.of_nat (length refs)) h' /\ placed'.*1 ≡ₚ refs /\
    pending prims (placed' ++ placed) (off + 4 * Z.of_nat (length refs)) /\
    (forall k p, refs !! k = Some p -> (p, off + 4 * Z.of_nat k) ∈ placed').
Proof.
  intros Hrefs Hprims. induction Hrefs as [|p refs Hp Hrefs IH]; intros idx num off gaps placed h Hinv Hpe Hal.
  - exists [], h. cbn [length app]. rewrite !Z.add_0_r. split; [|split_and!; [done..|intros k p Hk; by rewrite lookup_nil in Hk]].
    apply place_references_stop. intros p rest ->.
    destruct (pending_head _ _ _ _ _ Hpe (li_heap _ _ _ _ _ _ Hinv)) as (f & Hf & Hl & _). exists f. split; [done|].
    apply Forall_cons in Hprims as [H _]. unfold reference_at in H. by rewrite (field_at_some _ _ _ Hf) in H.
  - destruct (pending_head _ _ _ _ _ Hpe (li_heap _ _ _ _ _ _ Hinv)) as (f & Hf & Hl & Hs & Hfs & Hpn & Hb).
    pose proof (li_off _ _ _ _ _ _ Hinv).
    destruct (align_offset_ok _ _ _ _ _ _ 4 ltac:(unfold field_size; lia) Hinv ltac:(lia)) as (new & Ea & _ & Hby & _).
    rewrite RoundUp_aligned in Ea, Hby by (unfold field_size; lia).
    assert (new = []) as ->.
    { unfold align_offset in Ea. rewrite IsAligned_mod, Hal in Ea by (unfold field_size; lia). cbn in Ea.
      injection Ea as Ea. by destruct new as [|? new]; [|apply (f_equal length) in Ea; rewrite length_app in Ea; cbn in Ea; lia]. }
    cbn [app]. rewrite (place_references_round _ _ _ _ _ _ _ f []);
      [|done|unfold reference_at in Hp; by rewrite (field_at_some _ _ _ Hf) in Hp|
       by rewrite RoundUp_aligned by (unfold field_size; lia)].
    rewrite RoundUp_aligned, u32_small by (unfold field_size; lia). cbn [app].
    assert (Hs4 : size_of f = 4) by (rewrite <- Hs; by apply reference_size).
    pose proof (place_at_end _ _ _ _ _ _ p f Hinv Hpn Hf Hfs ltac:(by rewrite Hs4)) as Hinv1. rewrite Hs4 in Hinv1.
    destruct (IH (idx + 1) (num + 1) (off + 4) gaps _ _ Hinv1 (pending_next _ _ _ _ off (off + 4) Hpe ltac:(lia)) ltac:(mlia))
      as (placed' & h' & -> & Hinv' & Hpl & Hpe' & Hat).
    exists (placed' ++ [(p, off)]), h'. rewrite <- app_assoc. cbn [app length].
    replace (off + 4 * Z.of_nat (S (length refs))) with (off + 4 + 4 * Z.of_nat (length refs)) by lia.
    replace (idx + Z.of_nat (S (length refs))) with (idx + 1 + Z.of_nat (length refs)) by lia.
    replace (num + Z.of_nat (S (length refs))) with (num + 1 + Z.of_nat (length refs)) by lia. split; [done|]. split; [done|]. split; [rewrite fmap_app, Hpl; symmetry; apply Permutation_cons_append|].
    split; [done|]. intros [|k] q Hq; cbn in Hq.
    + injection Hq as ->. rewrite Z.add_0_r. apply elem_of_app. right. by left.
    + apply elem_of_app. left. replace (off + 4 * Z.of_nat (S k)) with (off + 4 + 4 * Z.of_nat k) by lia. by apply Hat.
Qed.

(** Where references start. *)
Lemma place_references_ok refs prims :
  Forall (fun p => reference_at p = true) refs -> Forall (fun p => reference_at p = false) prims ->
  0 <= start -> pending (refs ++ prims) [] start ->
  exists placed gaps off h,
    place_references 0 0 start (refs ++ prims) [] h0 =
      Ok ((Z.of_nat (length refs), Z.of_nat (length refs), off, prims, gaps), h) /\
    layout_inv h0 start placed gaps off h /\ placed.*1 ≡ₚ refs /\ pending prims placed off /\
    (forall k p, refs !! k = Some p -> (p, RoundUp start 4 + 4 * Z.of_nat k) ∈ placed) /\
    (start mod 4 = 0 -> gaps = [] /\ off = start + 4 * Z.of_nat (length refs)) /\ padding_ok 8 off gaps.
Proof.
  intros Hrefs Hprims H0 Hpe. pose proof (layout_start h0 start H0) as Hinv.
  assert (Hnone : forall x, padding_ok 8 x []).
  { intros x. unfold padding_ok. change (gap_sum []) with 0. mlia. }
  destruct (decide (start mod 4 = 0)) as [Hal|Hal].
  { destruct (place_references_aligned refs prims Hrefs Hprims 0 0 start [] [] h0 Hinv Hpe Hal)
      as (placed' & h' & -> & Hinv' & Hpl & Hpe' & Hat). rewrite app_nil_r in *. pose proof (pe_room _ _ _ Hpe).
    eexists placed', [], _, h'. split; [done|]. split; [done|]. split; [done|]. split; [done|].
    split; [|by split]. intros k p Hk. rewrite RoundUp_aligned; [by apply Hat|unfold field_size; lia|lia| |done].
    apply lookup_lt_Some in Hk. rewrite length_app in *. lia. }
  destruct refs as [|p refs].
  - exists [], [], start, h0.
    split; [|split_and!; [done..|intros k p Hk; by rewrite lookup_nil in Hk|done|done]].
    apply (place_references_stop 0 0 start prims [] h0). intros p rest ->. destruct (pending_head _ _ _ _ _ Hpe (li_heap _ _ _ _ _ _ Hinv)) as (f & Hf & Hl & _).
      exists f. split; [done|]. apply Forall_cons in Hprims as [H _]. unfold reference_at in H.
      by rewrite (field_at_some _ _ _ Hf) in H.
  - apply Forall_cons in Hrefs as [Hp Hrefs].
    destruct (pending_head _ _ _ _ _ Hpe (li_heap _ _ _ _ _ _ Hinv)) as (f & Hf & Hl & Hs & Hfs & Hpn & Hb).
    destruct (align_offset_ok _ _ _ _ _ _ 4 ltac:(unfold field_size; lia) Hinv ltac:(lia)) as (new & Ea & Hinv1 & Hnew & _).
    destruct (RoundUp_spec start 4 ltac:(unfold field_size; lia) H0 ltac:(lia)) as [Hr1 Hr2].
    cbn [app]. rewrite (place_references_round _ _ _ _ _ _ _ f new);
      [|done|unfold reference_at in Hp; by rewrite (field_at_some _ _ _ Hf) in Hp|done].
    assert (Hs4 : size_of f = 4) by (rewrite <- Hs; by apply reference_size).
    pose proof (place_at_end _ _ _ _ _ _ p f Hinv1 Hpn Hf Hfs ltac:(by rewrite Hs4)) as Hinv2.
    rewrite Hs4 in Hinv2. rewrite u32_small by lia.
    destruct (place_references_aligned refs prims Hrefs Hprims 1 1 _ _ _ _ Hinv2
                (pending_next _ _ _ _ (RoundUp start 4) (RoundUp start 4 + 4) Hpe ltac:(lia)) ltac:(mlia))
      as (placed' & h' & E & Hinv' & Hpl & Hpe' & Hat).
    eexists _, _, _, h'. cbn [length]. replace (Z.of_nat (S (length refs))) with (1 + Z.of_nat (length refs)) by lia. split; [exact E|]. split; [exact Hinv'|].
    split; [rewrite fmap_app, Hpl; symmetry; apply Permutation_cons_append|]. split; [done|]. split.
    2:{ split; [done|]. unfold padding_ok. rewrite app_nil_r, (gap_sum_bytes new start (RoundUp start 4 - start)) by (done || lia). mlia. }
    intros [|k] q Hq; cbn in Hq.
    + injection Hq as ->. rewrite Z.add_0_r. apply elem_of_app. right. by left.
    + apply elem_of_app. left. replace (RoundUp start 4 + 4 * Z.of_nat (S k)) with (RoundUp start 4 + 4 + 4 * Z.of_nat k) by lia.
      by apply Hat.
Qed.

End Loops.
(** ** The whole layout *)

(** A sorted deque starts with the references; the others follow from the
    largest to the smallest. *)
Lemma sorted_split h ds : StronglySorted (fun a b => LinkFieldsComparator h b a = false) ds ->
  exists refs prims, ds = refs ++ prims /\ Forall (fun p => reference_at h p = true) refs /\
    Forall (fun p => reference_at h p = false) prims /\
    StronglySorted (fun p q => size_at h q <= size_at h p) prims /\
    StronglySorted (fun p q => af_dex_field_index (field_at h p) <= af_dex_field_index (field_at h q)) refs.
Proof.
  assert (Hk : forall a b, LinkFieldsComparator h b a = false -> ~ key_lt (order_key (field_at h b)) (order_key (field_at h a))).
  { intros a b H Hlt%field_before_key. unfold LinkFieldsComparator in H. unfold field_at in Hlt. congruence. }
  unfold reference_at, size_at. induction 1 as [|p ds Hs IH Hall].
  { exists [], []. split_and!; constructor. }
  destruct IH as (refs & prims & -> & Hr & Hp & Hsz & Hidx). destruct (is_reference_field (field_at h p)) eqn:Ep.
  - exists (p :: refs), prims. split_and!; [done|by constructor|done|done|]. constructor; [done|].
    apply Forall_app in Hall as [Hall _]. apply Forall_forall. intros q Hq.
    eapply Forall_forall in Hall; [|exact Hq]. eapply Forall_forall in Hr; [|exact Hq]. cbn in Hall, Hr.
    apply Hk in Hall. unfold key_lt, order_key in Hall. rewrite Ep, Hr in Hall. cbn in Hall.
    apply bool_decide_eq_true in Ep, Hr. rewrite Ep, Hr in Hall. cbn in Hall. lia.
  - assert (Hq : forall q, q ∈ refs ++ prims -> is_reference_field (field_at h q) = false /\
              size_of (field_at h q) <= size_of (field_at h p)).
    { intros q Hq. eapply Forall_forall in Hall; [|exact Hq]. apply Hk in Hall.
      unfold key_lt, order_key in Hall. rewrite Ep in Hall. cbn in Hall.
      assert (0 <= size_of (field_at h p) <= 8).
      { unfold size_of. destruct (GetTypeAsPrimitiveType (field_at h p)); cbn; unfold Primitive.kObjectReferenceSize; lia. }
      destruct (is_reference_field (field_at h q)); lia. }
    assert (refs = []) as ->.
    { destruct refs as [|q refs]; [done|]. apply Forall_cons in Hr as [Hr _]. cbn in Hr.
      destruct (Hq q ltac:(by left)) as [? _]. congruence. }
    exists [], (p :: prims). cbn [app] in *. split_and!; [done|constructor|by constructor| |constructor].
    constructor; [done|]. apply Forall_forall. intros q Hin. by apply Hq.
Qed.

(** The fields that the loops place, by size. *)
Record groups (h : Heap) (ds refs t8 t4 t2 t1 : list Z) : Prop := {
  gr_split : ds = refs ++ t8 ++ t4 ++ t2 ++ t1;
  gr_refs : Forall (fun p => reference_at h p = true) refs;
  gr_prims : Forall (fun p => reference_at h p = false) (t8 ++ t4 ++ t2 ++ t1);
  gr_8 : Forall (fun p => size_at h p = 8) t8;
  gr_4 : Forall (fun p => size_at h p = 4) t4;
  gr_2 : Forall (fun p => size_at h p = 2) t2;
  gr_1 : Forall (fun p => size_at h p = 1) t1;
  gr_order : StronglySorted (fun p q => af_dex_field_index (field_at h p) <= af_dex_field_index (field_at h q)) refs;
}.

(** The bytes that are left over when a layout starts at a multiple of four. *)
Definition leftover (start : Z) (refs t8 t4 t2 t1 : list Z) : Z :=
  let off0 := start + 4 * Z.of_nat (length refs) in
  let pad := if (length t8 =? 0)%nat then 0 else RoundUp off0 8 - off0 in
  Z.max 0 (Z.max 0 (Z.max 0 (pad - 4 * Z.of_nat (length t4)) - 2 * Z.of_nat (length t2)) - 1 * Z.of_nat (length t1)).

(** The loops of [LinkFields], one after the other. *)
Record layout_run (h0 : Heap) (start : Z) (ds : list Z) (num_refs off : Z) (h : Heap) : Prop := {
  lr_run : exists i0 o0 d0 g0 h1 i1 o1 d1 g1 h2 i2 o2 d2 g2 h3 i3 o3 d3 g3 h4 i4 g4,
    place_references 0 0 start ds [] h0 = Ok ((i0, num_refs, o0, d0, g0), h1) /\
    ShuffleForward 8 i0 o0 d0 g0 h1 = Ok ((i1, o1, d1, g1), h2) /\
    ShuffleForward 4 i1 o1 d1 g1 h2 = Ok ((i2, o2, d2, g2), h3) /\
    ShuffleForward 2 i2 o2 d2 g2 h3 = Ok ((i3, o3, d3, g3), h4) /\
    ShuffleForward 1 i3 o3 d3 g3 h4 = Ok ((i4, off, [], g4), h);
}.

Lemma filling_next n m g k off gaps : filling n g k off gaps -> (n = 4 /\ m = 2) \/ (n = 2 /\ m = 1) ->
  filling m (gap_sum gaps) 0 off gaps.
Proof.
  intros (H1 & H2 & H3) Hnm. assert (0 <= gap_sum gaps) by (unfold gap_sum; lia). split; [|split].
  - eapply Forall_impl; [exact H1|]. cbn. lia.
  - destruct Hnm as [[-> ->]|[-> ->]]; mlia.
  - lia.
Qed.

Lemma padding_next n m off gaps : padding_ok n off gaps -> (n = 8 /\ m = 4) \/ (n = 4 /\ m = 2) \/ (n = 2 /\ m = 1) ->
  padding_ok m off gaps.
Proof. unfold padding_ok. intros H [[-> ->]|[[-> ->]|[-> ->]]]; mlia. Qed.

(** The state before a loop over fields of size at most [m]. *)
Record shuffling (h0 : Heap) (start m : Z) (deque : list Z) (placed : list (Z * Z)) (gaps : FieldGaps) (off : Z) (h : Heap)
  : Prop := {
  sh_inv : layout_inv h0 start placed gaps off h;
  sh_pending : pending h0 deque placed off;
  sh_types : Forall (fun p => is_reference_field (field_at h0 p) = false /\ size_at h0 p <= m) deque;
  sh_sorted : StronglySorted (fun p q => size_at h0 q <= size_at h0 p) deque;
}.

Lemma pending_size h0 deque placed off p : pending h0 deque placed off -> p ∈ deque -> field_size (size_at h0 p).
Proof.
  intros Hpe Hp. destruct (pe_fields _ _ _ _ Hpe p Hp) as (f & Hf & Hv).
  unfold size_at. rewrite (field_at_some _ _ _ Hf). by apply size_of_cases.
Qed.

Lemma shuffle_loop h0 start n (Q : nat -> Z -> FieldGaps -> Prop) deque placed gaps off h idx : field_size n ->
  (forall k off gaps o off' gaps' placed h, layout_inv h0 start placed gaps off h -> off + 16 < 2 ^ 32 ->
     Q k off gaps -> next_slot n off gaps = Ok (o, off', gaps') -> Q (S k) off' gaps') ->
  shuffling h0 start n deque placed gaps off h -> Q 0%nat off gaps ->
  exists taken left placed' off' gaps' h' idx',
    ShuffleForward n idx off deque gaps h = Ok ((idx', off', left, gaps'), h') /\
    deque = taken ++ left /\ placed'.*1 ≡ₚ taken /\ Forall (fun p => size_at h0 p = n) taken /\
    shuffling h0 start (n / 2) left (placed' ++ placed) gaps' off' h' /\ Q (length taken) off' gaps'.
Proof.
  intros Hn HQ [H1 H2 H3 H4] HQ0.
  destruct (ShuffleForward_ok h0 start n Q deque Hn HQ 0 idx off gaps placed h H1 H2 H3 H4 HQ0)
    as (taken & left & placed' & off' & gaps' & h' & E & -> & Hinv & Hpl & Ht & Hl & Hpe & HQ').
  exists taken, left, placed', off', gaps', h', (idx + Z.of_nat (length taken)). split_and!; try done.
  constructor; [done|done| |by eapply StronglySorted_app_1_r].
  apply Forall_app in H3 as [_ H3]. apply Forall_forall. intros p Hp.
  pose proof (pending_size _ _ _ _ _ Hpe Hp) as Hs. eapply Forall_forall in H3; [|exact Hp].
  eapply Forall_forall in Hl; [|exact Hp]. cbn in Hl, H3. split; [apply H3|].
  unfold field_size in Hs. destruct Hn as [->|[->|[->| ->]]]; mlia.
Qed.

Lemma shuffling_done h0 start deque placed gaps off h : shuffling h0 start (1 / 2) deque placed gaps off h -> deque = [].
Proof.
  intros [_ Hpe Ht _]. destruct deque as [|p deque]; [done|]. apply Forall_cons in Ht as [[_ Hp] _].
  pose proof (pending_size _ _ _ _ p Hpe ltac:(by left)) as Hs. change (1 / 2) with 0 in Hp. unfold field_size in Hs. lia.
Qed.

(** The primitive fields, with all that is followed through the loops. *)
Lemma shuffle_all h0 start prims placed gaps off h idx :
  shuffling h0 start 8 prims placed gaps off h -> padding_ok 8 off gaps ->
  exists t8 t4 t2 t1 placed' off' gaps' h',
    (exists i1 o1 d1 g1 h2 i2 o2 d2 g2 h3 i3 o3 d3 g3 h4 i4,
      ShuffleForward 8 idx off prims gaps h = Ok ((i1, o1, d1, g1), h2) /\
      ShuffleForward 4 i1 o1 d1 g1 h2 = Ok ((i2, o2, d2, g2), h3) /\
      ShuffleForward 2 i2 o2 d2 g2 h3 = Ok ((i3, o3, d3, g3), h4) /\
      ShuffleForward 1 i3 o3 d3 g3 h4 = Ok ((i4, off', [], gaps'), h')) /\
    prims = t8 ++ t4 ++ t2 ++ t1 /\
    Forall (fun p => size_at h0 p = 8) t8 /\ Forall (fun p => size_at h0 p = 4) t4 /\
    Forall (fun p => size_at h0 p = 2) t2 /\ Forall (fun p => size_at h0 p = 1) t1 /\
    layout_inv h0 start (placed' ++ placed) gaps' off' h' /\ placed'.*1 ≡ₚ prims /\ gap_sum gaps' <= 7 /\
    (gaps = [] /\ off mod 4 = 0 ->
     gap_sum gaps' =
       let pad := if (length t8 =? 0)%nat then 0 else RoundUp off 8 - off in
       Z.max 0 (Z.max 0 (Z.max 0 (pad - 4 * Z.of_nat (length t4)) - 2 * Z.of_nat (length t2)) - 1 * Z.of_nat (length t1))).
Proof.
  intros Hsh Hpad. set (C := gaps = [] /\ off mod 4 = 0).
  assert (HF : forall n g k off gaps o off' gaps' placed h, field_size n -> layout_inv h0 start placed gaps off h ->
    off + 16 < 2 ^ 32 -> padding_ok n off gaps /\ (C -> filling n g k off gaps) -> next_slot n off gaps = Ok (o, off', gaps') ->
    padding_ok n off' gaps' /\ (C -> filling n g (S k) off' gaps')).
  { intros n g k ? ? ? ? ? ? ? Hn Hi Hb [Hp Hf] E. split; [by eapply padding_step|]. intros c. eapply filling_step; eauto. }
  destruct (shuffle_loop h0 start 8 (fun k o g => padding_ok 8 o g /\ (C -> padded off k o g)) prims placed gaps off h idx)
    as (t8 & d1 & p1 & o1 & g1 & h2 & i1 & E1 & -> & Hp1 & Hs1 & Sh1 & Pad1 & Q1); [unfold field_size; lia| |done| |].
  { intros k ? ? ? ? ? ? ? Hi Hb [Hp Hf] E. split; [eapply padding_step; eauto; unfold field_size; lia|].
    intros c. eapply padded_step; eauto. }
  { split; [done|]. intros [-> Hm]. split_and!; [by apply Forall_nil|done..]. }
  set (pad := if (length t8 =? 0)%nat then 0 else RoundUp off 8 - off).
  destruct (shuffle_loop h0 start 4 (fun k o g => padding_ok 4 o g /\ (C -> filling 4 pad k o g)) d1 (p1 ++ placed) g1 o1 h2 i1)
    as (t4 & d2 & p2 & o2 & g2 & h3 & i2 & E2 & -> & Hp2 & Hs2 & Sh2 & Pad2 & Q2);
    [unfold field_size; lia|intros; eapply HF; eauto; unfold field_size; lia|exact Sh1| |].
  { split; [by eapply padding_next; [exact Pad1|lia]|]. intros c. destruct (Q1 c) as (F1 & F2 & F3). split_and!; [done|done|].
    unfold pad. destruct (Nat.eqb_spec (length t8) 0); destruct F3 as [F3 ->]; [done|].
    destruct c as [_ c]. destruct (Z.le_ge_cases (RoundUp off 8 - off) 0); [|lia].
    pose proof (li_off _ _ _ _ _ _ (sh_inv _ _ _ _ _ _ _ _ Hsh)). pose proof (pe_room _ _ _ _ (sh_pending _ _ _ _ _ _ _ _ Hsh)) as Hr.
    rewrite length_app in Hr. destruct (RoundUp_spec off 8); unfold field_size; lia. }
  destruct (shuffle_loop h0 start 2 (fun k o g => padding_ok 2 o g /\ (C -> filling 2 (gap_sum g2) k o g)) d2 (p2 ++ p1 ++ placed) g2 o2 h3 i2)
    as (t2 & d3 & p3 & o3 & g3 & h4 & i3 & E3 & -> & Hp3 & Hs3 & Sh3 & Pad3 & Q3);
    [unfold field_size; lia|intros; eapply HF; eauto; unfold field_size; lia|exact Sh2| |].
  { split; [by eapply padding_next; [exact Pad2|lia]|]. intros c. eapply filling_next; [by apply Q2|lia]. }
  destruct (shuffle_loop h0 start 1 (fun k o g => padding_ok 1 o g /\ (C -> filling 1 (gap_sum g3) k o g)) d3 (p3 ++ p2 ++ p1 ++ placed) g3 o3 h4 i3)
    as (t1 & d4 & p4 & o4 & g4 & h5 & i4 & E4 & -> & Hp4 & Hs4 & Sh4 & Pad4 & Q4);
    [unfold field_size; lia|intros; eapply HF; eauto; unfold field_size; lia|exact Sh3| |].
  { split; [by eapply padding_next; [exact Pad3|lia]|]. intros c. eapply filling_next; [by apply Q3|lia]. }
  assert (d4 = []) as -> by (by eapply shuffling_done). rewrite app_nil_r in *.
  exists t8, t4, t2, t1, (p4 ++ p3 ++ p2 ++ p1), o4, g4, h5. rewrite <- !app_assoc. split_and!; try done.
  - eexists _, _, _, _, _, _, _, _, _, _, _, _, _, _, _, _. split_and!; [exact E1|exact E2|exact E3|exact E4].
  - apply Sh4.
  - rewrite !fmap_app, Hp1, Hp2, Hp3, Hp4. solve_Permutation.
  - unfold padding_ok in Pad4. rewrite Z.mod_1_r in Pad4. lia.
  - intros c. destruct (Q4 c) as (_ & _ & ->), (Q3 c) as (_ & _ & ->), (Q2 c) as (_ & _ & ->). done.
Qed.

(** All loops, from a sorted deque. *)
Lemma layout_ok h0 start ds :
  0 <= start -> pending h0 ds [] start -> StronglySorted (fun a b => LinkFieldsComparator h0 b a = false) ds ->
  exists refs t8 t4 t2 t1 placed gaps off h,
    groups h0 ds refs t8 t4 t2 t1 /\ layout_run h0 start ds (Z.of_nat (length refs)) off h /\
    layout_inv h0 start placed gaps off h /\ placed.*1 ≡ₚ ds /\ gap_sum gaps <= 7 /\
    (forall k p, refs !! k = Some p -> (p, RoundUp start 4 + 4 * Z.of_nat k) ∈ placed) /\
    (start mod 4 = 0 -> gap_sum gaps = leftover start refs t8 t4 t2 t1).
Proof.
  intros H0 Hpe Hs. destruct (sorted_split _ _ Hs) as (refs & prims & -> & Hr & Hp & Hsz & Hidx).
  destruct (place_references_ok h0 start refs prims Hr Hp H0 Hpe) as (placed & gaps & off & h & E0 & Hinv & Hpl & Hpe' & Hat & Hal & Hpad).
  destruct (shuffle_all h0 start prims placed gaps off h (Z.of_nat (length refs)))
    as (t8 & t4 & t2 & t1 & placed' & off' & gaps' & h' & Hrun & -> & S8 & S4 & S2 & S1 & Hinv' & Hpl' & Hle & Hleft); [|done|].
  { constructor; [done|done| |done]. apply Forall_forall. intros p Hin. split; [by eapply Forall_forall in Hp; [|exact Hin]|].
    pose proof (pending_size _ _ _ _ _ Hpe' Hin) as Hf. unfold field_size in Hf. lia. }
  exists refs, t8, t4, t2, t1, (placed' ++ placed), gaps', off', h'. split_and!; try done.
  - constructor.
    destruct Hrun as (i1 & o1 & d1 & g1 & h2 & i2 & o2 & d2 & g2 & h3 & i3 & o3 & d3 & g3 & h4 & i4 & E1 & E2 & E3 & E4).
    eexists _, _, _, _, _, _, _, _, _, _, _, _, _, _, _, _, _, _, _, _, _, _.
    split_and!; [exact E0|exact E1|exact E2|exact E3|exact E4].
  - rewrite fmap_app, Hpl, Hpl'. apply Permutation_app_comm.
  - intros k p Hk. apply elem_of_app. right. by apply Hat.
  - intros Hm. destruct (Hal Hm) as [-> ->]. apply Hleft. split; [done|mlia].
Qed.

(** ** What a layout means *)

Definition total_size (h : Heap) (fields : list Z) : Z := foldr (fun p acc => size_at h p + acc) 0 fields.

(** The fields of [fields] have their offsets, between [start] and [size]: each
    one aligned to its size and none over another one; the references are in
    the slots from [start] on, in the order of their indices; at most seven bytes are
    lost. *)
Record fields_linked (start : Z) (fields : list Z) (refs : list Z) (size : Z) (h h' : Heap) : Prop := {
  fl_frame : h' = set_fields (h_fields h') h;
  fl_others : forall p, p ∉ fields -> h_fields h' !! p = h_fields h !! p;
  fl_fields : forall p f, p ∈ fields -> h_fields h !! p = Some f ->
    exists o, h_fields h' !! p = Some (SetOffset o f) /\ start <= o /\ o + size_of f <= size /\ o mod size_of f = 0;
  fl_disjoint : forall p q f g, p ∈ fields -> q ∈ fields -> p <> q -> h_fields h' !! p = Some f -> h_fields h' !! q = Some g ->
    af_offset f + size_of f <= af_offset g \/ af_offset g + size_of g <= af_offset f;
  fl_refs : forall p, p ∈ refs <-> p ∈ fields /\ reference_at h p = true;
  fl_refs_sorted : NoDup refs /\
    StronglySorted (fun p q => af_dex_field_index (field_at h p) <= af_dex_field_index (field_at h q)) refs;
  fl_slots : forall k p, refs !! k = Some p -> af_offset (field_at h' p) = RoundUp start 4 + 4 * Z.of_nat k;
  fl_size : start + total_size h fields <= size <= start + total_size h fields + 7;
}.

Lemma total_size_perm h a b : a ≡ₚ b -> total_size h a = total_size h b.
Proof. unfold total_size. induction 1; cbn; lia. Qed.

Lemma placed_offset h0 placed h p o : placed_in h0 placed h -> (p, o) ∈ placed -> af_offset (field_at h p) = o.
Proof. intros Hp Hin. destruct (pi_placed _ _ _ Hp _ _ Hin) as (f & _ & Hf). by rewrite (field_at_some _ _ _ Hf). Qed.

Lemma concat_bytes_length h0 placed : Forall (fun po => 0 <= size_at h0 po.1) placed ->
  Z.of_nat (length (concat (slot_bytes h0 <$> placed))) = total_size h0 placed.*1.
Proof.
  induction 1 as [|[p o] placed Hp _ IH]; cbn [fmap list_fmap concat]; [done|].
  rewrite length_app, Nat2Z.inj_add, IH. unfold slot_bytes, total_size, size_at in *. cbn in *. rewrite length_seqZ. lia.
Qed.

(** Two slots share no byte. *)
Lemma slots_disjoint (bytes : Z * Z -> list Z) placed a b : NoDup (concat (bytes <$> placed)) ->
  a ∈ placed -> b ∈ placed -> a <> b -> forall x, x ∈ bytes a -> x ∈ bytes b -> False.
Proof.
  induction placed as [|c placed IH]; cbn [fmap list_fmap concat]; [by intros _ ?%not_elem_of_nil|].
  intros (Hc & Hd & Hn)%NoDup_app Ha Hb Hne x Hxa Hxb.
  assert (Hin : forall y, y ∈ placed -> x ∈ bytes y -> x ∈ concat (bytes <$> placed)).
  { intros y Hy Hx. apply list_elem_of_In, in_concat. exists (bytes y). split; apply list_elem_of_In; [by apply list_elem_of_fmap_2|done]. }
  apply elem_of_cons in Ha as [->|Ha], Hb as [->|Hb]; [done| | |by eapply IH].
  - apply (Hd x Hxa). by eapply Hin.
  - apply (Hd x Hxb). by eapply Hin.
Qed.

Section Meaning.
Context (h0 : Heap) (start : Z) (placed : list (Z * Z)) (gaps : FieldGaps) (off : Z) (h : Heap).
Context (Hinv : layout_inv h0 start placed gaps off h).
Context (Hsize : forall p, p ∈ placed.*1 -> field_size (size_at h0 p)).

Lemma placed_size p o : (p, o) ∈ placed -> field_size (size_at h0 p).
Proof using Hsize. intros H. apply Hsize. by apply (list_elem_of_fmap_2 fst) in H. Qed.

Lemma placed_range p o : (p, o) ∈ placed -> start <= o /\ o + size_at h0 p <= off.
Proof using Hsize Hinv.
  intros Hp. pose proof (placed_size _ _ Hp) as Hs.
  assert (Hx : forall x, x ∈ slot_bytes h0 (p, o) -> start <= x < off).
  { intros x Hx. assert (x ∈ seqZ start (off - start)) as ?%elem_of_seqZ; [|lia].
    rewrite <- (li_bytes _ _ _ _ _ _ Hinv). apply elem_of_app. left.
    apply list_elem_of_In, in_concat. exists (slot_bytes h0 (p, o)).
    split; apply list_elem_of_In; [by apply list_elem_of_fmap_2|done]. }
  unfold slot_bytes in Hx. cbn in Hx. fold (size_at h0 p) in Hx. unfold field_size in Hs.
  pose proof (Hx o ltac:(apply elem_of_seqZ; lia)). pose proof (Hx (o + size_at h0 p - 1) ltac:(apply elem_of_seqZ; lia)). lia.
Qed.

Lemma placed_disjoint p o q o' : (p, o) ∈ placed -> (q, o') ∈ placed -> p <> q ->
  o + size_at h0 p <= o' \/ o' + size_at h0 q <= o.
Proof using Hsize Hinv.
  intros Hp Hq Hne. pose proof (placed_size _ _ Hp) as Sp. pose proof (placed_size _ _ Hq) as Sq. unfold field_size in *.
  assert (Hall : NoDup (concat (slot_bytes h0 <$> placed) ++ concat (gap_bytes <$> gaps)))
    by (rewrite (li_bytes _ _ _ _ _ _ Hinv); apply NoDup_seqZ).
  apply NoDup_app in Hall as [Hall _].
  assert (Hdis : forall x, x ∈ slot_bytes h0 (p, o) -> x ∈ slot_bytes h0 (q, o') -> False)
    by (eapply slots_disjoint; [exact Hall|done|done|congruence]).
  unfold slot_bytes in Hdis. cbn in Hdis. fold (size_at h0 p) (size_at h0 q) in Hdis.
  destruct (Z.le_gt_cases (o + size_at h0 p) o'); [by left|]. destruct (Z.le_gt_cases (o' + size_at h0 q) o); [by right|].
  exfalso. apply (Hdis (Z.max o o')); apply elem_of_seqZ; lia.
Qed.

Lemma placed_total : off = start + total_size h0 placed.*1 + gap_sum gaps.
Proof using Hsize Hinv.
  pose proof (li_off _ _ _ _ _ _ Hinv). pose proof (li_bytes _ _ _ _ _ _ Hinv) as Hby. apply Permutation_length in Hby.
  rewrite length_app, length_seqZ in Hby. rewrite <- concat_bytes_length; [unfold gap_sum; lia|].
  apply Forall_forall. intros [p o] Hp. pose proof (placed_size _ _ Hp) as Hs. unfold field_size in Hs. cbn. lia.
Qed.

Lemma placed_linked fields refs : placed.*1 ≡ₚ fields -> gap_sum gaps <= 7 ->
  (forall p, p ∈ refs <-> p ∈ fields /\ reference_at h0 p = true) -> NoDup refs ->
  StronglySorted (fun p q => af_dex_field_index (field_at h0 p) <= af_dex_field_index (field_at h0 q)) refs ->
  (forall k p, refs !! k = Some p -> (p, RoundUp start 4 + 4 * Z.of_nat k) ∈ placed) ->
  fields_linked start fields refs off h0 h.
Proof using Hsize Hinv.
  intros Hpl Hle Hrefs Hndr Hso Hat. pose proof (li_heap _ _ _ _ _ _ Hinv) as Hh.
  assert (Hmem : forall p, p ∈ fields -> exists o, (p, o) ∈ placed).
  { intros p Hp. rewrite <- Hpl in Hp. apply list_elem_of_fmap in Hp as ([q o] & -> & Hq). by exists o. }
  constructor; [apply Hh| | | |done|done| |].
  - intros p Hp. apply (pi_others _ _ _ Hh). by rewrite Hpl.
  - intros p f Hp Hf. destruct (Hmem p Hp) as [o Ho]. exists o.
    destruct (pi_placed _ _ _ Hh _ _ Ho) as (f' & Hf' & Hh'). rewrite Hf in Hf'. injection Hf' as <-.
    destruct (placed_range _ _ Ho) as [R1 R2]. pose proof (li_aligned _ _ _ _ _ _ Hinv) as Hal.
    eapply Forall_forall in Hal; [|exact Ho]. cbn in Hal. unfold size_at in R2.
    rewrite (field_at_some _ _ _ Hf) in Hal, R2. done.
  - intros p q f g Hp Hq Hne Hf Hg. destruct (Hmem p Hp) as [o Ho], (Hmem q Hq) as [o' Ho'].
    destruct (pi_placed _ _ _ Hh _ _ Ho) as (f' & Hf' & Hh'), (pi_placed _ _ _ Hh _ _ Ho') as (g' & Hg' & Hh'').
    rewrite Hf in Hh'. rewrite Hg in Hh''. injection Hh' as ->. injection Hh'' as ->. cbn [af_offset SetOffset].
    rewrite !size_of_offset. pose proof (placed_disjoint _ _ _ _ Ho Ho' Hne) as Hd. unfold size_at in Hd.
    by rewrite (field_at_some _ _ _ Hf'), (field_at_some _ _ _ Hg') in Hd.
  - intros k p Hk. by apply (placed_offset h0 placed), Hat.
  - pose proof placed_total as Ht. rewrite (total_size_perm _ _ _ Hpl) in Ht.
    assert (0 <= gap_sum gaps) by (unfold gap_sum; lia). lia.
Qed.

End Meaning.

(** The loops of [LinkFields] on the sorted fields. *)
Lemma fields_layout h0 start fields ds :
  0 <= start -> ds ≡ₚ fields -> StronglySorted (fun a b => LinkFieldsComparator h0 b a = false) ds ->
  pending h0 fields [] start ->
  exists refs t8 t4 t2 t1 off h,
    groups h0 ds refs t8 t4 t2 t1 /\ layout_run h0 start ds (Z.of_nat (length refs)) off h /\
    fields_linked start fields refs off h0 h /\
    (start mod 4 = 0 -> off = start + total_size h0 fields + leftover start refs t8 t4 t2 t1).
Proof.
  intros H0 Hds Hs Hpe.
  assert (Hpe' : pending h0 ds [] start).
  { destruct Hpe as [P1 P2 P3 P4]. constructor; [|by rewrite Hds|intros p _; apply not_elem_of_nil|by rewrite Hds].
    intros p Hp. apply P1. by rewrite <- Hds. }
  destruct (layout_ok h0 start ds H0 Hpe' Hs) as (refs & t8 & t4 & t2 & t1 & placed & gaps & off & h & Hg & Hrun & Hinv & Hpl & Hle & Hat & Hlo).
  assert (Hsz : forall p, p ∈ placed.*1 -> field_size (size_at h0 p)).
  { intros p Hp. rewrite Hpl in Hp. by eapply pending_size. }
  assert (Hpf : placed.*1 ≡ₚ fields) by (by rewrite Hpl).
  exists refs, t8, t4, t2, t1, off, h. split; [done|]. split; [done|]. split.
  - eapply placed_linked; try done; [| |apply Hg].
    + intros p. rewrite <- Hds, (gr_split _ _ _ _ _ _ _ Hg). split.
      * intros Hp. split; [apply elem_of_app; by left|]. pose proof (gr_refs _ _ _ _ _ _ _ Hg) as Hr. rewrite Forall_forall in Hr. by apply Hr.
      * intros [[Hp|Hp]%elem_of_app Hr]; [done|]. pose proof (gr_prims _ _ _ _ _ _ _ Hg) as Hn. rewrite Forall_forall in Hn.
        specialize (Hn p Hp). cbn in Hn. congruence.
    + pose proof (pe_nodup _ _ _ _ Hpe') as Hn. rewrite (gr_split _ _ _ _ _ _ _ Hg) in Hn. by apply NoDup_app in Hn as [? _].
  - intros Hm. rewrite <- (Hlo Hm), <- (total_size_perm _ _ _ Hpf). by eapply placed_total.
Qed.

