(* ===== verification/FieldLinking.v ===== *)
(** * Linking fields: what [LinkFields] does to a class

    [LinkFields] lays the fields of a class out and no check of it fails, those
    of a debug build included ([link_fields_ok]); [ComputeClassSize], which
    counts fields before the class is loaded, gives the size that linking
    arrives at; the collector visits the references of an object and no other
    slot. *)

From S2P Require Import Prelude ArtObjects Instrumentation MiniTraceClasses Leb128 ClassData ClassLoading FieldLayout.

Lemma run_heap_op {A B} (m : M Heap A) (k : A -> M LinkState B) s a h :
  m (lk_heap s) = Ok (a, h) -> (heap_op m ≫= k) s = k a (mkLink h (lk_layouts s)).
Proof. intros E. unfold mbind, M_bind, heap_op. by rewrite E. Qed.

Lemma run_heap_at {A B} (m : M Heap A) (k : A -> M LinkState B) h ls a h' :
  m h = Ok (a, h') -> (heap_op m ≫= k) (mkLink h ls) = k a (mkLink h' ls).
Proof. intros E. by apply run_heap_op. Qed.

Lemma run_heap_load {A B} (f : Heap -> gmap Z A) p (k : A -> M LinkState B) s a :
  f (lk_heap s) !! p = Some a -> (heap_op (load f p) ≫= k) s = k a s.
Proof.
  intros E. rewrite (run_heap_op _ _ _ a (lk_heap s)); [by destruct s|]. unfold load, deref. by rewrite E.
Qed.

Lemma run_layout {B} klass (k : ClassLayout -> M LinkState B) s l :
  lk_layouts s !! klass = Some l -> (get_layout klass ≫= k) s = k l s.
Proof. intros E. unfold mbind, M_bind, get_layout, deref. by rewrite E. Qed.

Lemma run_update_layout {B} klass f (k : unit -> M LinkState B) s l :
  lk_layouts s !! klass = Some l ->
  (update_layout klass f ≫= k) s = k tt (mkLink (lk_heap s) (<[klass := f l]> (lk_layouts s))).
Proof. intros E. unfold update_layout. by rewrite bind_assoc, (run_layout _ _ _ _ E), bind_modify. Qed.

Lemma run_checkM {S B} (b : bool) (k : unit -> M S B) s : b = true -> (checkM b ≫= k) s = k tt s.
Proof. intros ->. done. Qed.

(** ** The order of references *)

Lemma sorted_unique (key : Z -> Z) a b : a ≡ₚ b -> StronglySorted (fun p q => key p <= key q) a ->
  StronglySorted (fun p q => key p < key q) b -> a = b.
Proof.
  revert b. induction a as [|x a IH]; intros b Hp Ha Hb; [by apply Permutation_nil_l in Hp as ->|].
  destruct b as [|y b]; [by apply Permutation_nil_r in Hp|].
  apply StronglySorted_inv in Ha as [Ha Hxa], Hb as [Hb Hyb]. rewrite Forall_forall in Hxa, Hyb.
  assert (x = y) as ->.
  { assert (Hx : x ∈ y :: b) by (rewrite <- Hp; by left). assert (Hy : y ∈ x :: a) by (rewrite Hp; by left).
    apply elem_of_cons in Hx as [->|Hx]; [done|]. apply elem_of_cons in Hy as [->|Hy]; [done|].
    specialize (Hyb x Hx). specialize (Hxa y Hy). cbn in *. lia. }
  f_equal. apply IH; [by eapply Permutation_cons_inv|done|done].
Qed.

Lemma sorted_filter (R : Z -> Z -> Prop) (P : Z -> Prop) `{forall x, Decision (P x)} l :
  StronglySorted R l -> StronglySorted R (filter P l).
Proof.
  induction 1 as [|x l Hl IH Hx]; [constructor|]. rewrite filter_cons. case_decide; [|done].
  constructor; [done|]. rewrite Forall_forall in *. intros y [_ Hy]%list_elem_of_filter. by apply Hx.
Qed.

Lemma filter_all (P : Z -> Prop) `{forall x, Decision (P x)} l : Forall P l -> filter P l = l.
Proof. induction 1 as [|x l Hx _ IH]; [done|]. by rewrite filter_cons_True, IH. Qed.

Lemma linked_refs_filter start fields refs size h h' : fields_linked start fields refs size h h' -> NoDup fields ->
  refs ≡ₚ filter (fun p => reference_at h p = true) fields.
Proof.
  intros Hl Hnd. apply NoDup_Permutation; [apply Hl|by apply NoDup_filter|].
  intros p. rewrite list_elem_of_filter, (fl_refs _ _ _ _ _ _ Hl). tauto.
Qed.

(** ** The checks of a debug build *)

Definition lied (h : Heap) (is_reference : bool) (p : Z) : bool :=
  is_reference && bool_decide (af_name (field_at h p) = "referent"%string).

(** The fields that count as references. *)
Definition visible (h : Heap) (is_reference : bool) (p : Z) : bool :=
  reference_at h p && negb (lied h is_reference p).

(** The order of fields in a dex file: by name, and by index; and the one
    reference of [java.lang.ref.Reference] that is hidden is the last field. *)
Record array_order (h : Heap) (is_reference : bool) (fields : list Z) : Prop := {
  ao_names : forall i p q, fields !! i = Some p -> fields !! S i = Some q ->
    String.leb (af_name (field_at h p)) (af_name (field_at h q)) = true;
  ao_indices : StronglySorted (fun p q => af_dex_field_index (field_at h p) < af_dex_field_index (field_at h q)) fields;
  ao_last : forall i p, fields !! i = Some p -> lied h is_reference p = true -> S i = length fields;
}.

Definition refs_in (h : Heap) (l : list Z) : nat := length (filter (fun p => reference_at h p = true) l).
Definition visible_in (h : Heap) (is_reference : bool) (l : list Z) : nat :=
  length (filter (fun p => visible h is_reference p = true) l).

Section Debug.
Context (h0 h : Heap) (start size : Z) (fields refs : list Z) (is_reference : bool).
Context (Hl : fields_linked start fields refs size h0 h) (Hnd : NoDup fields).
Context (Hord : array_order h0 is_reference fields).
Context (Hf : forall p, p ∈ fields -> exists f, h_fields h0 !! p = Some f /\ GetTypeAsPrimitiveType f <> Primitive.kPrimVoid).
Context (H0 : 0 <= start) (Hroom : start + 16 * Z.of_nat (length fields) + 4 < 2 ^ 32).

Lemma refs_are : refs = filter (fun p => reference_at h0 p = true) fields.
Proof using Hl Hnd Hord.
  apply (sorted_unique (fun p => af_dex_field_index (field_at h0 p))); [by eapply linked_refs_filter|apply Hl|].
  apply sorted_filter, Hord.
Qed.

Lemma reference_slot pre p post : fields = pre ++ p :: post -> reference_at h0 p = true ->
  af_offset (field_at h p) = RoundUp start 4 + 4 * Z.of_nat (refs_in h0 pre).
Proof using Hl Hnd Hord.
  intros E Hr. apply (fl_slots _ _ _ _ _ _ Hl). rewrite refs_are, E, filter_app, filter_cons_True by done.
  unfold refs_in. apply list_lookup_middle. done.
Qed.

Lemma visible_refs pre p post : fields = pre ++ p :: post -> visible_in h0 is_reference pre = refs_in h0 pre.
Proof using Hord.
  intros E. unfold visible_in, refs_in.
  assert (Hno : forall q, q ∈ pre -> lied h0 is_reference q = false).
  { intros q [i Hi]%list_elem_of_lookup. apply not_true_iff_false. intros Hlie.
    pose proof (lookup_lt_Some _ _ _ Hi). pose proof (ao_last _ _ _ Hord i q) as Hlast.
    rewrite E, lookup_app_l, length_app in Hlast by done. specialize (Hlast Hi Hlie). cbn in Hlast. lia. }
  clear E. induction pre as [|q pre IH]; [done|]. rewrite !filter_cons.
  assert (Ev : visible h0 is_reference q = reference_at h0 q).
  { unfold visible. rewrite (Hno q) by (by left). apply andb_true_r. }
  assert (IH' := IH (fun r Hr => Hno r (list_elem_of_further _ _ _ Hr))).
  repeat case_decide; cbn [length]; (congruence || lia).
Qed.

(** A primitive field in front of the end of the references is in front of
    their start. *)
Lemma primitive_before p f : p ∈ fields -> h_fields h !! p = Some f -> is_reference_field f = false ->
  af_offset f < RoundUp start 4 + 4 * Z.of_nat (length refs) ->
  size_of f < 4 /\ af_offset f < RoundUp start 4 /\ af_offset f + size_of f <= RoundUp start 4 /\ IsAligned 4 (af_offset f) = false.
Proof using Hl Hf H0 Hroom Hnd.
  intros Hp Hfh Hr Hlt. destruct (Hf p Hp) as (f0 & Hf0 & Hv).
  destruct (fl_fields _ _ _ _ _ _ Hl p f0 Hp Hf0) as (o & Ho & Hs & _ & Hal).
  rewrite Hfh in Ho. injection Ho as ->. cbn [af_offset SetOffset] in *. rewrite size_of_offset in *.
  pose proof (size_of_cases f0 Hv) as Hsz. destruct (RoundUp_spec start 4) as [R1 R2]; [unfold field_size; lia|lia|lia|].
  assert (Hbefore : o < RoundUp start 4).
  { apply Z.nle_gt. intros Hge. set (k := Z.to_nat ((o - RoundUp start 4) / 4)).
    assert (Hk : RoundUp start 4 + 4 * Z.of_nat k <= o < RoundUp start 4 + 4 * Z.of_nat k + 4) by (subst k; mlia).
    destruct (lookup_lt_is_Some_2 refs k) as [q Hq]; [lia|].
    assert (Hqf : q ∈ fields /\ reference_at h0 q = true) by (apply (fl_refs _ _ _ _ _ _ Hl); by eapply list_elem_of_lookup_2).
    destruct Hqf as [Hqf Hqr]. destruct (Hf q Hqf) as (g0 & Hg0 & _).
    destruct (fl_fields _ _ _ _ _ _ Hl q g0 Hqf Hg0) as (o' & Hg & _).
    assert (o' = RoundUp start 4 + 4 * Z.of_nat k) as ->.
    { pose proof (fl_slots _ _ _ _ _ _ Hl k q Hq) as E. by rewrite (field_at_some _ _ _ Hg) in E. }
    assert (Hne : p <> q).
    { intros ->. unfold reference_at in Hqr. rewrite (field_at_some _ _ _ Hf0) in Hqr. unfold is_reference_field in *.
      change (GetTypeAsPrimitiveType (SetOffset o f0)) with (GetTypeAsPrimitiveType f0) in Hr. congruence. }
    pose proof (reference_size h0 q Hqr) as Hq4. unfold size_at in Hq4. rewrite (field_at_some _ _ _ Hg0) in Hq4.
    destruct (fl_disjoint _ _ _ _ _ _ Hl p q _ _ Hp Hqf Hne Hfh Hg) as [D|D]; cbn [af_offset SetOffset] in D;
      rewrite size_of_offset in D; unfold field_size in Hsz; lia. }
  rewrite IsAligned_mod by (unfold field_size; lia). rewrite Z.eqb_neq.
  destruct Hsz as [E|[E|[E|E]]]; rewrite E in *; mlia.
Qed.

Lemma visible_step pre p : visible_in h0 is_reference (pre ++ [p]) =
  (visible_in h0 is_reference pre + if visible h0 is_reference p then 1 else 0)%nat.
Proof.
  unfold visible_in. rewrite filter_app, length_app, filter_cons.
  destruct (visible h0 is_reference p) eqn:E; case_decide; (congruence || done).
Qed.

Lemma visible_le : (visible_in h0 is_reference fields <= length refs)%nat.
Proof using Hl Hnd Hord.
  rewrite refs_are. unfold visible_in. clear. induction fields as [|p l IH]; [done|]. rewrite !filter_cons.
  assert (visible h0 is_reference p = true -> reference_at h0 p = true) by (unfold visible; by intros [? _]%andb_true_iff).
  repeat case_decide; cbn [length]; (tauto || lia).
Qed.

Lemma refs_le : (length refs <= length fields)%nat.
Proof using Hl Hnd Hord. rewrite refs_are. apply length_filter. Qed.

Lemma names_ordered pre p l f : fields = pre ++ p :: l -> h_fields h !! p = Some f ->
  match field_at h <$> last pre with Some prev => String.leb (af_name prev) (af_name f) | None => true end = true.
Proof using Hl Hord Hf H0 Hroom Hnd.
  intros E Hp. assert (Hname : forall q, q ∈ fields -> af_name (field_at h q) = af_name (field_at h0 q)).
  { intros q Hq. destruct (Hf q Hq) as (g0 & Hg0 & _). destruct (fl_fields _ _ _ _ _ _ Hl q g0 Hq Hg0) as (o & Hg & _).
    by rewrite (field_at_some _ _ _ Hg0), (field_at_some _ _ _ Hg). }
  destruct (last pre) as [q|] eqn:El; [|done]. cbn. apply last_Some in El as [pre' ->].
  rewrite <- (field_at_some _ _ _ Hp), !Hname by (rewrite E; set_solver).
  apply (ao_names _ _ _ Hord (length pre') q p); rewrite E, <- app_assoc; cbn [app].
  - by apply list_lookup_middle.
  - rewrite lookup_app_r by lia. by replace (S (length pre') - length pre')%nat with 1%nat by lia.
Qed.

Lemma debug_checks_ok l : forall pre, fields = pre ++ l ->
  debug_checks is_reference (RoundUp start 4) (RoundUp start 4 + 4 * Z.of_nat (visible_in h0 is_reference fields))
    (field_at h <$> last pre) l (RoundUp start 4 + 4 * Z.of_nat (visible_in h0 is_reference pre)) h =
  Ok (RoundUp start 4 + 4 * Z.of_nat (visible_in h0 is_reference fields), h).
Proof using Hl Hnd Hord Hf H0 Hroom.
  induction l as [|p l IH]; intros pre E; [rewrite app_nil_r in E; by subst|]. cbn [debug_checks].
  assert (Hp : p ∈ fields) by (rewrite E; apply elem_of_app; right; by left).
  destruct (Hf p Hp) as (f0 & Hf0 & Hv). destruct (fl_fields _ _ _ _ _ _ Hl p f0 Hp Hf0) as (o & Ho & Hs & Hos & Hal).
  rewrite (bind_ok _ _ _ (SetOffset o f0) h) by (unfold load, deref; by rewrite Ho).
  rewrite run_checkM.
  2:{ exact (names_ordered pre p l (SetOffset o f0) E Ho). }
  cbv zeta. change (GetTypeAsPrimitiveType (SetOffset o f0)) with (GetTypeAsPrimitiveType f0).
  change (af_offset (SetOffset o f0)) with o. change (af_name (SetOffset o f0)) with (af_name f0).
  pose proof (IH (pre ++ [p])) as IH'. rewrite <- app_assoc in IH'. specialize (IH' E).
  rewrite last_snoc in IH'. cbn [fmap option_fmap option_map] in IH'. rewrite (field_at_some _ _ _ Ho), visible_step in IH'.
  pose proof visible_le as Hvl. pose proof refs_le as Hrl.
  destruct (RoundUp_spec start 4) as [R1 R2]; [unfold field_size; lia|lia|lia|].
  assert (Hra : reference_at h0 p = is_reference_field f0) by (unfold reference_at; by rewrite (field_at_some _ _ _ Hf0)).
  assert (Hli : lied h0 is_reference p = is_reference && bool_decide (af_name f0 = "referent"%string))
    by (unfold lied; by rewrite (field_at_some _ _ _ Hf0)).
  unfold visible in IH'. rewrite <- Hli. change (bool_decide (GetTypeAsPrimitiveType f0 = Primitive.kPrimNot)) with (is_reference_field f0).
  rewrite <- Hra. destruct (reference_at h0 p) eqn:Er; cbn [negb orb andb] in *.
  - pose proof (reference_slot pre p l E Er) as Hslot. rewrite (field_at_some _ _ _ Ho) in Hslot. cbn [af_offset SetOffset] in Hslot.
    pose proof (visible_refs pre p l E) as Hvis.
    destruct (lied h0 is_reference p) eqn:Elie; cbn [negb orb andb] in *.
    + assert (l = []) as ->.
      { pose proof (ao_last _ _ _ Hord (length pre) p) as Hla. rewrite E, list_lookup_middle in Hla by done.
        specialize (Hla eq_refl Elie). rewrite length_app in Hla. cbn in Hla. destruct l; cbn in *; [done|lia]. }
      assert (Hall : visible_in h0 is_reference fields = visible_in h0 is_reference pre).
      { rewrite E, visible_step. unfold visible. rewrite Elie, andb_false_r. lia. }
      rewrite Hall in *. unfold whenM.
      destruct (Z.ltb_spec o (RoundUp start 4 + 4 * Z.of_nat (visible_in h0 is_reference pre))); [lia|]. rewrite bind_ret.
      by rewrite Nat.add_0_r in IH'.
    + rewrite run_checkM by (apply Z.eqb_eq; lia).
      assert (visible_in h0 is_reference pre < length fields)%nat
        by (unfold visible_in; rewrite E, length_app; cbn [length]; pose proof (length_filter (fun q => visible h0 is_reference q = true) pre); lia).
      rewrite u32_small by lia.
      replace (RoundUp start 4 + 4 * Z.of_nat (visible_in h0 is_reference pre) + 4)
        with (RoundUp start 4 + 4 * Z.of_nat (visible_in h0 is_reference pre + 1)) by lia. exact IH'.
  - rewrite Nat.add_0_r in IH'. unfold whenM at 1. destruct (Z.ltb_spec o (RoundUp start 4 + 4 * Z.of_nat (visible_in h0 is_reference fields)));
      [|by rewrite bind_ret].
    destruct (primitive_before p _ Hp Ho) as (P1 & P2 & P3 & P4); [by symmetry|cbn; lia|].
    cbn [af_offset SetOffset] in *. rewrite size_of_offset in *. unfold size_of in *.
    rewrite !bind_assoc, run_checkM by (by apply Z.ltb_lt). rewrite !bind_assoc, run_checkM by (by apply Z.ltb_lt).
    rewrite !bind_assoc, run_checkM by (rewrite u32_small by (destruct (size_of_cases f0 Hv); unfold size_of in *; lia); by apply Z.leb_le).
    rewrite run_checkM by (by rewrite P4). exact IH'.
Qed.

End Debug.

(** ** [LinkFields] *)

Definition fields_of (is_static : bool) (c : Class_) : list Z := if is_static then mc_sfields c else mc_ifields c.

Definition is_Reference (c : Class_) : bool := bool_decide (mc_descriptor c = reference_descriptor).

(** The references that are counted: all, without [Reference.referent]. *)
Definition counted (is_static : bool) (c : Class_) (n : nat) : Z :=
  if negb is_static && is_Reference c then Z.of_nat n - 1 else Z.of_nat n.

Definition linked_layout (env : LinkEnv) (klass : Z) (c : Class_) (is_static : bool) (n size : Z) (l : ClassLayout) : ClassLayout :=
  if is_static then SetNumReferenceStaticFields n l
  else if IsVariableSize env klass c then SetNumReferenceInstanceFields n l
  else SetObjectSize size (SetNumReferenceInstanceFields n l).

(** Where the layout of a class starts. *)
Inductive starts_at (env : LinkEnv) (c : Class_) (l : ClassLayout) (s : LinkState) : bool -> Z -> Prop :=
| starts_static :
    image_pointer_size_ env = 4 \/ image_pointer_size_ env = 8 ->
    starts_at env c l s true (GetFirstReferenceStaticFieldOffsetDuringLinking env c l)
| starts_Object : super_class_ l = 0 -> starts_at env c l s false 0
| starts_super sc sl :
    super_class_ l <> 0 -> h_classes (lk_heap s) !! super_class_ l = Some sc -> IsResolved sc = true ->
    lk_layouts s !! super_class_ l = Some sl -> 0 <= object_size_ sl ->
    starts_at env c l s false (object_size_ sl).

(** A class whose fields can be linked. *)
Record linkable (env : LinkEnv) (klass : Z) (is_static : bool) (c : Class_) (l : ClassLayout) (start : Z) (s : LinkState)
  : Prop := {
  lb_class : h_classes (lk_heap s) !! klass = Some c;
  lb_layout : lk_layouts s !! klass = Some l;
  lb_super : super_class_ l <> klass;
  lb_start : starts_at env c l s is_static start;
  lb_nodup : NoDup (fields_of is_static c);
  lb_fields : forall p, p ∈ fields_of is_static c ->
    exists f, h_fields (lk_heap s) !! p = Some f /\ GetTypeAsPrimitiveType f <> Primitive.kPrimVoid;
  lb_room : start + 16 * Z.of_nat (length (fields_of is_static c)) + 16 < 2 ^ 32;
  lb_referent : is_static = false -> is_Reference c = true ->
    Forall (fun p => reference_at (lk_heap s) p = true) (mc_ifields c) /\
    exists p, last (mc_ifields c) = Some p /\ af_name (field_at (lk_heap s) p) = "referent"%string;
  lb_new : is_static = false -> IsVariableSize env klass c = false -> object_size_ l = 0;
  lb_debug : kIsDebugBuild env = true ->
    array_order (lk_heap s) (is_Reference c) (fields_of is_static c) /\
    (is_static = true -> forall p, p ∈ mc_sfields c -> lied (lk_heap s) (is_Reference c) p = false);
}.

Lemma u32_mod4 x : u32 x mod 4 = x mod 4.
Proof. unfold u32. mlia. Qed.

Lemma static_start_aligned env c l : image_pointer_size_ env = 4 \/ image_pointer_size_ env = 8 ->
  GetFirstReferenceStaticFieldOffsetDuringLinking env c l mod 4 = 0 /\
  0 <= GetFirstReferenceStaticFieldOffsetDuringLinking env c l.
Proof.
  intros Hps. unfold GetFirstReferenceStaticFieldOffsetDuringLinking. destruct (ShouldHaveEmbeddedImtAndVTable c); [|by vm_compute].
  unfold ComputeClassSize. rewrite andb_false_r. change (0 * 4) with 0. change (0 * 1 + 0 * 2 + 0 * 4 + 0 * 8) with 0.
  rewrite !Z.add_0_r. split; [|apply u32_range]. rewrite !u32_mod4. unfold ImTableEntrySize, VTableEntrySize, kImtSize.
  destruct Hps as [-> | ->]; [change (RoundUp (sizeof_Class + 4) 4) with 140|change (RoundUp (sizeof_Class + 4) 8) with 144];
    pose proof (u32_mod4 (vtable_length l * 4)); pose proof (u32_mod4 (vtable_length l * 8));
    pose proof (u32_mod4 (64 * 4)); pose proof (u32_mod4 (64 * 8)); mlia.
Qed.

Lemma starts_nonneg env c l s is_static start : starts_at env c l s is_static start -> 0 <= start.
Proof. destruct 1; [by apply static_start_aligned|done|done]. Qed.

(** The start as [LinkFields] reads it. *)
Lemma run_start {B} env c l s is_static start (k : Z -> M LinkState B) :
  starts_at env c l s is_static start ->
  ((if is_static then mret (GetFirstReferenceStaticFieldOffsetDuringLinking env c l)
    else if negb (super_class_ l =? 0) then
      super ← heap_op (load h_classes (super_class_ l));
      checkM (IsResolved super) ;;
      super_layout ← get_layout (super_class_ l);
      mret (object_size_ super_layout)
    else mret 0) ≫= k) s = k start s.
Proof.
  destruct 1 as [|E|sc sl Hne Hsc Hr Hsl].
  - apply bind_ret.
  - by rewrite E.
  - rewrite (proj2 (Z.eqb_neq _ _) Hne). cbn [negb].
    rewrite bind_assoc, (run_heap_load _ _ _ _ _ Hsc), bind_assoc, run_checkM by done.
    by rewrite bind_assoc, (run_layout _ _ _ _ Hsl), bind_ret.
Qed.

(** The start of references, as the debug checks read it; the layout of the
    class itself has been changed. *)
Lemma run_start_ref {B} env klass c l l' s is_static start (k : Z -> M LinkState B) h :
  starts_at env c l s is_static start -> super_class_ l <> klass -> start + 16 < 2 ^ 32 ->
  super_class_ l' = super_class_ l -> vtable_length l' = vtable_length l ->
  ((if is_static then mret (GetFirstReferenceStaticFieldOffsetDuringLinking env c l')
    else GetFirstReferenceInstanceFieldOffset l') ≫= k) (mkLink h (<[klass := l']> (lk_layouts s))) =
  k (RoundUp start 4) (mkLink h (<[klass := l']> (lk_layouts s))).
Proof.
  intros Hst Hne Hb Esup Evt. unfold GetFirstReferenceInstanceFieldOffset. rewrite Esup. destruct Hst as [Hps|E|sc sl Hz Hsc Hr Hsl Hos].
  - destruct (static_start_aligned env c l Hps) as [S1 S2].
    rewrite bind_ret. replace (GetFirstReferenceStaticFieldOffsetDuringLinking env c l')
      with (GetFirstReferenceStaticFieldOffsetDuringLinking env c l)
      by (unfold GetFirstReferenceStaticFieldOffsetDuringLinking; by rewrite Evt).
    rewrite RoundUp_aligned by (unfold field_size; lia). done.
  - rewrite E. cbn [Z.eqb negb]. by rewrite bind_ret.
  - rewrite (proj2 (Z.eqb_neq _ _) Hz). cbn [negb]. rewrite bind_assoc.
    rewrite (run_layout _ _ _ sl) by (cbn; by rewrite lookup_insert_ne by done). by rewrite bind_ret.
Qed.

Lemma linked_layout_keeps env klass c is_static n size l :
  super_class_ (linked_layout env klass c is_static n size l) = super_class_ l /\
  vtable_length (linked_layout env klass c is_static n size l) = vtable_length l.
Proof. unfold linked_layout. destruct is_static; [done|]. by destruct (IsVariableSize env klass c). Qed.

(** Storing the results in the class. *)
Lemma run_store {B} env klass c is_static n size l s (k : unit -> M LinkState B) :
  lk_layouts s !! klass = Some l -> (is_static = false -> IsVariableSize env klass c = false -> object_size_ l = 0) ->
  ((if is_static then update_layout klass (SetNumReferenceStaticFields n)
    else
      update_layout klass (SetNumReferenceInstanceFields n) ;;
      whenM (negb (IsVariableSize env klass c))
        (l ← get_layout klass;
         let previous_size := object_size_ l in
         whenM (negb (previous_size =? 0)) (checkM (previous_size =? size)) ;;
         update_layout klass (SetObjectSize size))) ≫= k) s =
  k tt (mkLink (lk_heap s) (<[klass := linked_layout env klass c is_static n size l]> (lk_layouts s))).
Proof.
  intros Hl Hnew. unfold linked_layout. destruct is_static; [by rewrite (run_update_layout _ _ _ _ _ Hl)|].
  rewrite bind_assoc, (run_update_layout _ _ _ _ _ Hl). unfold whenM. destruct (IsVariableSize env klass c); cbn [negb].
  - by rewrite bind_ret.
  - rewrite bind_assoc. rewrite (run_layout _ _ _ (SetNumReferenceInstanceFields n l)) by (cbn; by rewrite lookup_insert_eq).
    cbv zeta. cbn [object_size_ SetNumReferenceInstanceFields]. rewrite (Hnew eq_refl eq_refl). cbn [Z.eqb negb].
    rewrite bind_assoc, bind_ret.
    rewrite (run_update_layout _ _ _ _ (SetNumReferenceInstanceFields n l)) by (cbn; by rewrite lookup_insert_eq).
    cbn [lk_heap lk_layouts]. by rewrite insert_insert_eq.
Qed.

(** The special case of [java.lang.ref.Reference]. *)
Lemma run_referent {B} env klass is_static c l start s refs size h' layouts (k : Z -> M LinkState B) :
  linkable env klass is_static c l start s -> fields_linked start (fields_of is_static c) refs size (lk_heap s) h' ->
  ((if negb is_static && bool_decide (mc_descriptor c = reference_descriptor) then
      checkM (Z.of_nat (length refs) =? Z.of_nat (length (fields_of is_static c))) ;;
      last_field ← match last (fields_of is_static c) with
                   | Some p => heap_op (load h_fields p)
                   | None => lift (Fault NullDereference)
                   end;
      checkM (bool_decide (af_name last_field = "referent"%string)) ;;
      mret (Z.of_nat (length refs) - 1)
    else mret (Z.of_nat (length refs))) ≫= k) (mkLink h' layouts) =
  k (counted is_static c (length refs)) (mkLink h' layouts).
Proof.
  intros Hlk Hl. unfold counted. fold (is_Reference c). destruct (negb is_static && is_Reference c) eqn:E; [|by rewrite bind_ret].
  apply andb_true_iff in E as [Est%negb_true_iff Eref]. subst is_static. cbn [fields_of] in *.
  destruct (lb_referent _ _ _ _ _ _ _ Hlk eq_refl Eref) as (Hall & p & Hlast & Hname). rewrite Hlast.
  assert (Hp : p ∈ mc_ifields c) by (apply last_Some in Hlast as [pre ->]; apply elem_of_app; right; by left).
  destruct (lb_fields _ _ _ _ _ _ _ Hlk p Hp) as (f & Hf & _). destruct (fl_fields _ _ _ _ _ _ Hl p f Hp Hf) as (o & Ho & _).
  rewrite bind_assoc, run_checkM.
  2:{ apply Z.eqb_eq. f_equal. rewrite (Permutation_length (linked_refs_filter _ _ _ _ _ _ Hl (lb_nodup _ _ _ _ _ _ _ Hlk))).
      cbn [fields_of]. by rewrite filter_all. }
  rewrite bind_assoc, (run_heap_load _ _ _ _ (SetOffset o f)) by done. rewrite bind_assoc, run_checkM; [by rewrite bind_ret|].
  apply bool_decide_eq_true. rewrite (field_at_some _ _ _ Hf) in Hname. exact Hname.
Qed.

(** What is counted is what the debug checks see. *)
Lemma counted_visible env klass is_static c l start s refs size h' :
  linkable env klass is_static c l start s -> fields_linked start (fields_of is_static c) refs size (lk_heap s) h' ->
  kIsDebugBuild env = true ->
  counted is_static c (length refs) = Z.of_nat (visible_in (lk_heap s) (is_Reference c) (fields_of is_static c)).
Proof.
  intros Hlk Hl Hd. destruct (lb_debug _ _ _ _ _ _ _ Hlk Hd) as [Hord Hst].
  pose proof (lb_nodup _ _ _ _ _ _ _ Hlk) as Hnd. unfold counted.
  assert (Hno : (forall p, p ∈ fields_of is_static c -> lied (lk_heap s) (is_Reference c) p = false) ->
            length refs = visible_in (lk_heap s) (is_Reference c) (fields_of is_static c)).
  { intros Hno. rewrite (refs_are _ _ _ _ _ _ _ Hl Hnd Hord). unfold visible_in. f_equal.
    clear -Hno. induction (fields_of is_static c) as [|p fs IH]; [done|]. rewrite !filter_cons.
    assert (Ev : visible (lk_heap s) (is_Reference c) p = reference_at (lk_heap s) p).
    { unfold visible. rewrite (Hno p) by (by left). apply andb_true_r. }
    assert (IH' := IH (fun r Hr => Hno r (list_elem_of_further _ _ _ Hr))). repeat case_decide; congruence. }
  destruct is_static; cbn [negb andb fields_of] in *; [by rewrite Hno; [|apply Hst]|].
  destruct (is_Reference c) eqn:Er; [|by rewrite Hno].
  destruct (lb_referent _ _ _ _ _ _ _ Hlk eq_refl Er) as (Hall & p & Hlast & Hname).
  apply last_Some in Hlast as [pre E]. pose proof (visible_refs _ _ _ Hord pre p [] E) as Hv.
  rewrite (refs_are _ _ _ _ _ _ _ Hl Hnd Hord), filter_all by done.
  rewrite E, visible_step, Hv. unfold visible, lied, refs_in. rewrite bool_decide_eq_true_2, andb_false_r by done.
  rewrite E in Hall. apply Forall_app in Hall as [Hall _]. rewrite filter_all by done. rewrite length_app. cbn. lia.
Qed.

Lemma run_debug {B} env klass is_static c l start s refs size h' (k : unit -> M LinkState B) :
  linkable env klass is_static c l start s -> fields_linked start (fields_of is_static c) refs size (lk_heap s) h' ->
  let n := counted is_static c (length refs) in
  let s' := mkLink h' (<[klass := linked_layout env klass c is_static (u32 n) size l]> (lk_layouts s)) in
  (whenM (kIsDebugBuild env) (LinkFields_debug env klass c is_static (fields_of is_static c) n) ≫= k) s' = k tt s'.
Proof.
  intros Hlk Hl n s'. unfold whenM. destruct (kIsDebugBuild env) eqn:Hd; [|by rewrite bind_ret].
  destruct (lb_debug _ _ _ _ _ _ _ Hlk Hd) as [Hord _]. pose proof (lb_room _ _ _ _ _ _ _ Hlk) as Hroom.
  pose proof (lb_start _ _ _ _ _ _ _ Hlk) as Hst. pose proof (starts_nonneg _ _ _ _ _ _ Hst) as H0.
  destruct (linked_layout_keeps env klass c is_static (u32 n) size l) as [Esup Evt].
  unfold LinkFields_debug. rewrite bind_assoc. unfold s' at 1.
  rewrite (run_layout _ _ _ (linked_layout env klass c is_static (u32 n) size l)) by (cbn; by rewrite lookup_insert_eq).
  rewrite bind_assoc, (run_start_ref _ _ _ l _ _ _ start); [|done|apply Hlk|lia|done|done].
  pose proof (counted_visible _ _ _ _ _ _ _ _ _ _ Hlk Hl Hd) as En. fold n in En. cbv zeta.
  assert (Hle : (visible_in (lk_heap s) (is_Reference c) (fields_of is_static c) <= length (fields_of is_static c))%nat)
    by (unfold visible_in; apply length_filter).
  destruct (RoundUp_spec start 4) as [R1 R2]; [unfold field_size; lia|lia|lia|].
  replace (u32 (RoundUp start 4 + n * 4))
    with (RoundUp start 4 + 4 * Z.of_nat (visible_in (lk_heap s) (is_Reference c) (fields_of is_static c)))
    by (rewrite u32_small; lia).
  fold (is_Reference c).
  pose proof (debug_checks_ok _ _ _ _ _ _ _ Hl (lb_nodup _ _ _ _ _ _ _ Hlk) Hord (lb_fields _ _ _ _ _ _ _ Hlk) H0 ltac:(lia)
                (fields_of is_static c) [] eq_refl) as E.
  cbn [last fmap option_fmap option_map] in E. change (visible_in (lk_heap s) (is_Reference c) []) with 0%nat in E.
  rewrite Z.add_0_r in E.
  rewrite bind_assoc, (run_heap_at _ _ _ _ _ _ E). by rewrite run_checkM by (by rewrite Z.eqb_refl).
Qed.

Section Link.
Context `{sort : StdSort} `{!StdSortLaws sort}.

Lemma LinkFields_ok env klass is_static c l start s : linkable env klass is_static c l start s ->
  exists refs t8 t4 t2 t1 size h',
    LinkFields env klass is_static s =
      Ok (if is_static then Some size else None,
          mkLink h' (<[klass := linked_layout env klass c is_static (u32 (counted is_static c (length refs))) size l]> (lk_layouts s))) /\
    groups (lk_heap s) (std_sort (LinkFieldsComparator (lk_heap s)) (fields_of is_static c)) refs t8 t4 t2 t1 /\
    fields_linked start (fields_of is_static c) refs size (lk_heap s) h' /\
    (start mod 4 = 0 -> size = start + total_size (lk_heap s) (fields_of is_static c) + leftover start refs t8 t4 t2 t1).
Proof using StdSortLaws0.
  intros Hlk. pose proof (lb_start _ _ _ _ _ _ _ Hlk) as Hst. pose proof (lb_room _ _ _ _ _ _ _ Hlk) as Hroom.
  destruct (fields_layout (lk_heap s) start (fields_of is_static c) (std_sort (LinkFieldsComparator (lk_heap s)) (fields_of is_static c)))
    as (refs & t8 & t4 & t2 & t1 & size & h' & Hgr & Hrun & Hl & Hsize).
  { by eapply starts_nonneg. }
  { apply sort_perm. }
  { apply sort_sorted, comparator_strict_weak. }
  { constructor; [apply Hlk|apply Hlk|intros p _; apply not_elem_of_nil|lia]. }
  exists refs, t8, t4, t2, t1, size, h'. split; [|done]. clear Hsize Hgr.
  unfold LinkFields. rewrite (run_heap_load _ _ _ _ _ (lb_class _ _ _ _ _ _ _ Hlk)).
  rewrite (run_layout _ _ _ _ (lb_layout _ _ _ _ _ _ _ Hlk)). rewrite (run_start _ _ _ _ _ _ _ Hst), bind_gets. cbv zeta.
  fold (fields_of is_static c).
  destruct Hrun as [(i0 & o0 & d0 & g0 & h1 & i1 & o1 & d1 & g1 & h2 & i2 & o2 & d2 & g2 & h3 & i3 & o3 & d3 & g3 & h4 & i4 & g4 &
    E0 & E1 & E2 & E3 & E4)].
  rewrite (run_heap_op _ _ _ _ _ E0), (run_heap_at _ _ _ _ _ _ E1), (run_heap_at _ _ _ _ _ _ E2).
  rewrite (run_heap_at _ _ _ _ _ _ E3), (run_heap_at _ _ _ _ _ _ E4).
  rewrite run_checkM by done. cbn [lk_layouts].
  rewrite (run_referent _ _ _ _ _ _ _ _ _ _ _ _ Hlk Hl).
  rewrite (run_store _ _ _ _ _ _ _ (mkLink h' (lk_layouts s)) _ (lb_layout _ _ _ _ _ _ _ Hlk) (lb_new _ _ _ _ _ _ _ Hlk)).
  by rewrite (run_debug _ _ _ _ _ _ _ _ _ _ _ Hlk Hl).
Qed.

End Link.
(** ** The size of the class object *)

Definition in_group (h : Heap) (n : Z) (p : Z) : bool := negb (reference_at h p) && (size_at h p =? n).

Definition group_count (h : Heap) (n : Z) (fields : list Z) : nat := length (filter (fun p => in_group h n p = true) fields).

Lemma filter_none (P : Z -> Prop) `{forall x, Decision (P x)} l : Forall (fun x => ~ P x) l -> filter P l = [].
Proof. induction 1 as [|x l Hx _ IH]; [done|]. by rewrite filter_cons_False. Qed.

Lemma groups_count h ds refs t8 t4 t2 t1 fields : groups h ds refs t8 t4 t2 t1 -> ds ≡ₚ fields ->
  length refs = refs_in h fields /\ length t8 = group_count h 8 fields /\ length t4 = group_count h 4 fields /\
  length t2 = group_count h 2 fields /\ length t1 = group_count h 1 fields.
Proof.
  intros [E Hr Hp H8 H4 H2 H1 _] Hds. unfold refs_in, group_count. rewrite <- !Hds, E.
  assert (Hgr : forall n, Forall (fun p => ~ in_group h n p = true) refs).
  { intros n. eapply Forall_impl; [exact Hr|]. intros p Hp'. unfold in_group. by rewrite Hp'. }
  assert (Hin : forall n t, Forall (fun p => size_at h p = n) t -> Forall (fun p => reference_at h p = false) t ->
            Forall (fun p => in_group h n p = true) t /\ forall m, m <> n -> Forall (fun p => ~ in_group h m p = true) t).
  { intros n t Ht Ht'. split; [|intros m Hm]; rewrite Forall_forall in *; intros p Hin; unfold in_group;
      rewrite (Ht' p Hin), (Ht p Hin); cbn; rewrite ?Z.eqb_refl; [done|]. by rewrite (proj2 (Z.eqb_neq n m)) by done. }
  apply Forall_app in Hp as [P8 Hp]. apply Forall_app in Hp as [P4 Hp]. apply Forall_app in Hp as [P2 P1].
  destruct (Hin 8 t8 H8 P8) as [G8 N8], (Hin 4 t4 H4 P4) as [G4 N4], (Hin 2 t2 H2 P2) as [G2 N2], (Hin 1 t1 H1 P1) as [G1 N1].
  assert (Hno : forall t, Forall (fun p => reference_at h p = false) t -> Forall (fun p => ~ reference_at h p = true) t).
  { intros t Ht. eapply Forall_impl; [exact Ht|]. cbn. congruence. }
  rewrite !filter_app. split_and!.
  - rewrite (filter_all _ refs), !filter_none by (by try apply Hno). by rewrite !app_nil_r.
  - by rewrite (filter_none _ refs), (filter_all _ t8), (filter_none _ t4), (filter_none _ t2), (filter_none _ t1), !app_nil_r by eauto with lia.
  - by rewrite (filter_none _ refs), (filter_all _ t4), (filter_none _ t8), (filter_none _ t2), (filter_none _ t1), !app_nil_r by eauto with lia.
  - by rewrite (filter_none _ refs), (filter_all _ t2), (filter_none _ t8), (filter_none _ t4), (filter_none _ t1), !app_nil_r by eauto with lia.
  - by rewrite (filter_none _ refs), (filter_all _ t1), (filter_none _ t8), (filter_none _ t4), (filter_none _ t2), ?app_nil_r by eauto with lia.
Qed.

Lemma groups_total h ds refs t8 t4 t2 t1 fields : groups h ds refs t8 t4 t2 t1 -> ds ≡ₚ fields ->
  total_size h fields = 4 * Z.of_nat (length refs) + 8 * Z.of_nat (length t8) + 4 * Z.of_nat (length t4) +
    2 * Z.of_nat (length t2) + Z.of_nat (length t1).
Proof.
  intros [E Hr Hp H8 H4 H2 H1 _] Hds. rewrite <- (total_size_perm _ _ _ Hds), E.
  assert (Happ : forall a b, total_size h (a ++ b) = total_size h a + total_size h b).
  { intros a b. unfold total_size. induction a as [|x a IH]; cbn; lia. }
  assert (Hall : forall n t, Forall (fun p => size_at h p = n) t -> total_size h t = n * Z.of_nat (length t)).
  { intros n t. unfold total_size. induction 1 as [|p t Ht _ IH]; cbn [foldr length]; lia. }
  rewrite !Happ, (Hall 8 t8), (Hall 4 t4), (Hall 2 t2), (Hall 1 t1), (Hall 4 refs) by
    (done || (eapply Forall_impl; [exact Hr|]; intros p; apply reference_size)). lia.
Qed.

Lemma fill_gap_spec fuel size gap num : 0 < size -> 0 <= gap <= Z.of_nat fuel -> 0 <= num ->
  fill_gap fuel size gap num = (gap - size * Z.min (gap / size) num, num - Z.min (gap / size) num).
Proof.
  revert gap num. induction fuel as [|fuel IH]; intros gap num Hs Hg Hn; cbn [fill_gap].
  - assert (gap = 0) as -> by lia. rewrite Z.div_0_l by lia. f_equal; lia.
  - destruct (Z.leb_spec size gap) as [Hle|Hgt]; cbn [andb].
    + destruct (Z.eqb_spec num 0) as [->|Hne]; cbn [negb].
      * assert (0 <= gap / size) by (apply Z.div_pos; lia). f_equal; lia.
      * rewrite IH by lia. replace (gap / size) with ((gap - size) / size + 1).
        2:{ replace gap with (gap - size + 1 * size) at 2 by lia. rewrite Z.div_add by lia. lia. }
        f_equal; lia.
    + rewrite (Z.div_small gap size) by lia. f_equal; lia.
Qed.

(** The size that is computed from the counts is what the loops arrive at. *)
Lemma ComputeClassSize_layout tables vt n8 n16 n32 n64 nref ps base :
  base = ComputeClassSize tables vt 0 0 0 0 0 ps -> base mod 4 = 0 ->
  0 <= n8 -> 0 <= n16 -> 0 <= n32 -> 0 <= n64 -> 0 <= nref ->
  base + 8 * (n8 + n16 + n32 + n64 + nref) + 8 < 2 ^ 32 ->
  ComputeClassSize tables vt n8 n16 n32 n64 nref ps =
    base + (4 * nref + 8 * n64 + 4 * n32 + 2 * n16 + n8) +
    (let off0 := base + 4 * nref in
     let pad := if n64 =? 0 then 0 else RoundUp off0 8 - off0 in
     Z.max 0 (Z.max 0 (Z.max 0 (pad - 4 * n32) - 2 * n16) - 1 * n8)).
Proof.
  intros Hbase Hal H8 H16 H32 H64 Href Hb. unfold ComputeClassSize in Hbase |- *.
  set (size := if tables then _ else _) in *.
  rewrite andb_false_r in Hbase. change (0 * 4) with 0 in Hbase. change (0 * 1 + 0 * 2 + 0 * 4 + 0 * 8) with 0 in Hbase.
  rewrite !Z.add_0_r in Hbase. unfold u32 in Hbase at 1.
  assert (Hsz : base = u32 size) by (rewrite Hbase; unfold u32; apply Z.mod_mod; lia).
  assert (0 <= base) by (rewrite Hsz; apply u32_range).
  assert (Hoff : u32 (size + nref * 4) = base + 4 * nref).
  { unfold u32 in *. rewrite Z.add_mod by lia. rewrite <- Hsz. rewrite (Z.mod_small (nref * 4)) by lia. rewrite Z.mod_small; lia. }
  rewrite Hoff. clearbody size. set (off0 := base + 4 * nref) in *. assert (off0 mod 4 = 0) by (subst off0; mlia).
  rewrite IsAligned_mod by (unfold field_size; lia). change 0x7 with (2 ^ 3 - 1). rewrite land_ones_mod by lia. change (2 ^ 3) with 8.
  destruct (RoundUp_spec off0 8) as [R1 R2]; [unfold field_size; lia|lia|lia|].
  destruct (Z.eqb_spec (off0 mod 8) 0) as [E8|E8]; cbn [negb andb].
  - rewrite RoundUp_aligned by (unfold field_size; lia). rewrite u32_small by lia. destruct (n64 =? 0); lia.
  - destruct (Z.ltb_spec 0 n64) as [Hp|Hp]; cycle 1.
    { assert (n64 = 0) as -> by lia. cbn [Z.eqb]. rewrite u32_small by lia. lia. }
    rewrite (proj2 (Z.eqb_neq n64 0)) by lia. assert (off0 mod 8 = 4) as -> by mlia. change (8 - 4) with 4.
    assert (RoundUp off0 8 - off0 = 4) as -> by mlia.
    rewrite fill_gap_spec by lia. change (4 / 4) with 1.
    rewrite fill_gap_spec by lia. rewrite fill_gap_spec by mlia. rewrite Z.div_1_r.
    rewrite (u32_small (off0 + 4)) by lia. rewrite u32_small by mlia. mlia.
Qed.

Definition counts_of (h : Heap) (fields : list Z) : FieldCounts :=
  mkCounts (Z.of_nat (refs_in h fields)) (Z.of_nat (group_count h 1 fields)) (Z.of_nat (group_count h 2 fields))
    (Z.of_nat (group_count h 4 fields)) (Z.of_nat (group_count h 8 fields)).

Definition computed_size (env : LinkEnv) (c : Class_) (l : ClassLayout) (n : FieldCounts) : Z :=
  ComputeClassSize (ShouldHaveEmbeddedImtAndVTable c) (vtable_length l) (num_8 n) (num_16 n) (num_32 n) (num_64 n)
    (num_ref n) (image_pointer_size_ env).

Lemma static_start_computed env c l :
  GetFirstReferenceStaticFieldOffsetDuringLinking env c l =
    ComputeClassSize (ShouldHaveEmbeddedImtAndVTable c) (vtable_length l) 0 0 0 0 0 (image_pointer_size_ env).
Proof. unfold GetFirstReferenceStaticFieldOffsetDuringLinking. by destruct (ShouldHaveEmbeddedImtAndVTable c). Qed.

Section Sizes.
Context `{sort : StdSort} `{!StdSortLaws sort}.

Lemma LinkStaticFields_ok env klass c l start s : klass <> 0 -> linkable env klass true c l start s ->
  let size := computed_size env c l (counts_of (lk_heap s) (mc_sfields c)) in
  exists refs h',
    LinkStaticFields env klass s =
      Ok (size, mkLink h' (<[klass := SetNumReferenceStaticFields (u32 (Z.of_nat (length refs))) l]> (lk_layouts s))) /\
    fields_linked start (mc_sfields c) refs size (lk_heap s) h'.
Proof using StdSortLaws0.
  intros Hk Hlk. destruct (LinkFields_ok env klass true c l start s Hlk) as (refs & t8 & t4 & t2 & t1 & size & h' & E & Hgr & Hl & Hsize).
  pose proof (lb_start _ _ _ _ _ _ _ Hlk) as Hst. inversion Hst as [Hps Hflag Hstart| |]. subst start.
  destruct (static_start_aligned env c l Hps) as [Hal Hpos]. specialize (Hsize Hal).
  pose proof (sort_perm (LinkFieldsComparator (lk_heap s)) (fields_of true c)) as Hperm. cbn [fields_of] in *.
  destruct (groups_count _ _ _ _ _ _ _ _ Hgr Hperm) as (C0 & C8 & C4 & C2 & C1).
  assert (Hlen : (length refs + length t8 + length t4 + length t2 + length t1)%nat = length (mc_sfields c)).
  { rewrite <- Hperm, (gr_split _ _ _ _ _ _ _ Hgr), !length_app. lia. }
  assert (Hcs : computed_size env c l (counts_of (lk_heap s) (mc_sfields c)) = size).
  { unfold computed_size, counts_of. cbn [num_ref num_8 num_16 num_32 num_64]. rewrite <- C0, <- C8, <- C4, <- C2, <- C1.
    pose proof (lb_room _ _ _ _ _ _ _ Hlk). cbn [fields_of] in *.
    rewrite (ComputeClassSize_layout _ _ _ _ _ _ _ _ _ (static_start_computed env c l)) by lia.
    rewrite Hsize, (groups_total _ _ _ _ _ _ _ _ Hgr Hperm). unfold leftover. cbv zeta.
    replace (Z.of_nat (length t8) =? 0) with (length t8 =? 0)%nat by (by destruct t8). lia. }
  cbv zeta. rewrite Hcs. exists refs, h'. split; [|exact Hl]. unfold LinkStaticFields.
  rewrite run_checkM by (by apply negb_true_iff, Z.eqb_neq). by rewrite (bind_ok _ _ _ _ _ E).
Qed.

Lemma LinkInstanceFields_ok env klass c l start s : klass <> 0 -> linkable env klass false c l start s ->
  exists refs size h',
    LinkInstanceFields env klass s =
      Ok (tt, mkLink h' (<[klass := linked_layout env klass c false (u32 (counted false c (length refs))) size l]> (lk_layouts s))) /\
    fields_linked start (mc_ifields c) refs size (lk_heap s) h'.
Proof using StdSortLaws0.
  intros Hk Hlk. destruct (LinkFields_ok env klass false c l start s Hlk) as (refs & t8 & t4 & t2 & t1 & size & h' & E & _ & Hl & _).
  exists refs, size, h'. split; [|done]. unfold LinkInstanceFields.
  rewrite run_checkM by (by apply negb_true_iff, Z.eqb_neq). by rewrite (bind_ok _ _ _ _ _ E).
Qed.

End Sizes.

