(* ===== verification/ReferenceWalk.v ===== *)
(** * The references of an object: the bitmap of its class and the collector's walk

    [CreateReferenceInstanceOffsets] keeps a bitmap of the slots of a class that
    hold references, or marks the class to be walked through its super classes;
    [VisitFieldsReferences] visits what they say.  [chain] is the invariant of a
    class and its super classes that linking keeps. *)

From S2P Require Import Prelude ArtObjects Instrumentation MiniTraceClasses Leb128 ClassData ClassLoading FieldLayout FieldLinking.

(** ** The bitmap *)

(** The bitmap of a class whose super class is [super]. *)
Definition bitmap_of (super : ClassLayout) (n : Z) : Z :=
  if (reference_instance_offsets_ super =? kClassWalkSuper) || (n =? 0) then reference_instance_offsets_ super
  else
    let start_bit := u32 (RoundUp (object_size_ super) 4 - kObjectHeaderSize) / 4 in
    if 32 <? start_bit + n then kClassWalkSuper
    else Z.lor (reference_instance_offsets_ super)
           (Z.land (u32 (Z.shiftl 0xffffffff start_bit)) (Z.shiftr 0xffffffff (32 - (start_bit + n)))).

Lemma CreateReferenceInstanceOffsets_ok klass l super s :
  lk_layouts s !! klass = Some l -> super_class_ l <> 0 -> lk_layouts s !! super_class_ l = Some super ->
  CreateReferenceInstanceOffsets klass s =
    Ok (tt, mkLink (lk_heap s)
              (<[klass := SetReferenceInstanceOffsets (bitmap_of super (num_reference_instance_fields_ l)) l]> (lk_layouts s))).
Proof.
  intros Hl Hne Hs. unfold CreateReferenceInstanceOffsets. rewrite (run_layout _ _ _ _ Hl), (proj2 (Z.eqb_neq _ _) Hne).
  cbn [negb]. rewrite bind_assoc, (run_layout _ _ _ _ Hs). unfold bitmap_of. cbv zeta.
  destruct (_ =? kClassWalkSuper); cbn [negb orb]; [|destruct (_ =? 0); cbn [negb]; [|destruct (32 <? _)]];
    rewrite bind_ret; unfold update_layout; by rewrite (run_layout _ _ _ _ Hl).
Qed.

Lemma CreateReferenceInstanceOffsets_Object klass l s :
  lk_layouts s !! klass = Some l -> super_class_ l = 0 ->
  CreateReferenceInstanceOffsets klass s =
    Ok (tt, mkLink (lk_heap s) (<[klass := SetReferenceInstanceOffsets 0 l]> (lk_layouts s))).
Proof.
  intros Hl Hz. unfold CreateReferenceInstanceOffsets. rewrite (run_layout _ _ _ _ Hl), Hz. cbn [Z.eqb negb].
  rewrite bind_ret. unfold update_layout. by rewrite (run_layout _ _ _ _ Hl).
Qed.

(** The mask of [n] bits from [b] on. *)
Lemma mask_bits b n i : 0 <= b -> 0 < n -> b + n <= 32 -> 0 <= i ->
  Z.testbit (Z.land (u32 (Z.shiftl 0xffffffff b)) (Z.shiftr 0xffffffff (32 - (b + n)))) i = (b <=? i) && (i <? b + n).
Proof.
  intros Hb Hn Hle Hi. change 0xffffffff with (Z.ones 32). rewrite Z.land_spec. unfold u32.
  rewrite <- Z.land_ones, Z.land_spec, Z.shiftl_spec, Z.shiftr_spec by lia.
  destruct (Z.leb_spec b i); cbn [andb]; cycle 1.
  { by rewrite (Z.testbit_neg_r _ (i - b)) by lia. }
  destruct (Z.ltb_spec i (b + n)).
  - by rewrite !Z.ones_spec_low by lia.
  - rewrite (Z.ones_spec_high 32 (i + (32 - (b + n)))) by lia. by rewrite andb_false_r.
Qed.

Lemma visit_bitmap_elem fuel bm o x : 0 <= bm < 2 ^ Z.of_nat fuel ->
  x ∈ visit_bitmap fuel bm o <-> exists i, (i < fuel)%nat /\ Z.testbit bm (Z.of_nat i) = true /\ x = o + 4 * Z.of_nat i.
Proof.
  revert bm o. induction fuel as [|fuel IH]; intros bm o Hbm; cbn [visit_bitmap].
  { split; [by intros ?%not_elem_of_nil|]. intros (i & Hi & _). lia. }
  destruct (Z.eqb_spec bm 0) as [->|Hne].
  { split; [by intros ?%not_elem_of_nil|]. intros (i & _ & Hi & _). by rewrite Z.bits_0 in Hi. }
  assert (Hd : Z.shiftr bm 1 = bm / 2) by (rewrite Z.shiftr_div_pow2 by lia; done).
  rewrite elem_of_app, IH.
  2:{ rewrite Hd. rewrite Nat2Z.inj_succ, Z.pow_succ_r in Hbm by lia. mlia. }
  assert (Hbit : Z.testbit bm 0 = negb (Z.land bm 1 =? 0)).
  { change 1 with (2 ^ 1 - 1) at 1. rewrite land_ones_mod by lia. rewrite Z.bit0_odd, Zmod_odd. by destruct (Z.odd bm). }
  rewrite <- Hbit. split.
  - intros [Hx|(i & Hi & Ht & ->)].
    + destruct (Z.testbit bm 0) eqn:E; [|by apply not_elem_of_nil in Hx]. apply list_elem_of_singleton in Hx as ->.
      exists 0%nat. split; [lia|]. split; [done|lia].
    + exists (S i). split; [lia|]. split; [|lia]. rewrite Z.shiftr_spec in Ht by lia. by rewrite Nat2Z.inj_succ.
  - intros ([|i] & Hi & Ht & ->).
    + left. change (Z.of_nat 0) with 0 in Ht. rewrite Ht. apply list_elem_of_singleton. lia.
    + right. exists i. split; [lia|]. rewrite Z.shiftr_spec by lia. rewrite Nat2Z.inj_succ in Ht. split; [exact Ht|lia].
Qed.

Lemma visit_bitmap_nodup fuel bm o : 0 <= bm < 2 ^ Z.of_nat fuel -> NoDup (visit_bitmap fuel bm o).
Proof.
  revert bm o. induction fuel as [|fuel IH]; intros bm o Hbm; cbn [visit_bitmap]; [constructor|].
  destruct (Z.eqb_spec bm 0) as [->|Hne]; [constructor|].
  assert (Hb : 0 <= Z.shiftr bm 1 < 2 ^ Z.of_nat fuel).
  { rewrite Z.shiftr_div_pow2 by lia. rewrite Nat2Z.inj_succ, Z.pow_succ_r in Hbm by lia. change (2 ^ 1) with 2. mlia. }
  apply NoDup_app. split; [|split; [|by apply IH]].
  - destruct (negb _); [apply NoDup_singleton|constructor].
  - intros x Hx. destruct (negb _); [|by apply not_elem_of_nil in Hx]. apply list_elem_of_singleton in Hx as ->.
    rewrite visit_bitmap_elem by done. intros (i & _ & _ & Hi). lia.
Qed.

(** ** The references of a class and its super classes *)

(** The offsets of the references that a class declares, as the collector is to
    see them: without [Reference.referent]. *)
Definition own_slots (h : Heap) (c : Class_) : list Z :=
  (fun p => af_offset (field_at h p)) <$> filter (fun p => visible h (is_Reference c) p = true) (mc_ifields c).

Definition class_at (h : Heap) (klass : Z) : Class_ := default (mkClass 0 0 0 0 EmptyString 0 [] [] [] []) (h_classes h !! klass).

(** Those of a class and its super classes, which are [ks]. *)
Definition all_slots (h : Heap) (ks : list Z) : list Z := concat ((fun k => own_slots h (class_at h k)) <$> ks).

Definition slots_from (o : Z) (n : nat) : list Z := (fun k => o + 4 * Z.of_nat k) <$> seq 0 n.

(** A class with its super classes, up to [java.lang.Object], whose only
    reference is the class word of the header. *)
Inductive chain (s : LinkState) : list Z -> Prop :=
| chain_Object klass l :
    klass <> 0 -> is_Some (h_classes (lk_heap s) !! klass) -> lk_layouts s !! klass = Some l -> super_class_ l = 0 ->
    own_slots (lk_heap s) (class_at (lk_heap s) klass) = [0] -> num_reference_instance_fields_ l = 1 ->
    reference_instance_offsets_ l = 0 ->
    chain s [klass]
| chain_super klass l super sl ks :
    klass <> 0 -> is_Some (h_classes (lk_heap s) !! klass) -> lk_layouts s !! klass = Some l -> super_class_ l = super ->
    lk_layouts s !! super = Some sl -> chain s (super :: ks) ->
    8 <= object_size_ sl -> (forall x, x ∈ all_slots (lk_heap s) (super :: ks) -> x + 4 <= object_size_ sl) ->
    0 <= num_reference_instance_fields_ l -> object_size_ sl + 4 * num_reference_instance_fields_ l + 16 < 2 ^ 32 ->
    own_slots (lk_heap s) (class_at (lk_heap s) klass) ≡ₚ
      slots_from (RoundUp (object_size_ sl) 4) (Z.to_nat (num_reference_instance_fields_ l)) ->
    reference_instance_offsets_ l = bitmap_of sl (num_reference_instance_fields_ l) ->
    chain s (klass :: super :: ks).

Lemma chain_head s k ks : chain s (k :: ks) -> k <> 0 /\ exists l, lk_layouts s !! k = Some l.
Proof. inversion 1; eauto. Qed.

Lemma all_slots_cons h k ks : all_slots h (k :: ks) = own_slots h (class_at h k) ++ all_slots h ks.
Proof. done. Qed.

Lemma slots_from_elem o n x : x ∈ slots_from o n <-> exists k, (k < n)%nat /\ x = o + 4 * Z.of_nat k.
Proof.
  unfold slots_from. rewrite list_elem_of_fmap. split.
  - intros (k & -> & Hk%elem_of_seq). exists k. split; [lia|done].
  - intros (k & Hk & ->). exists k. split; [done|]. apply elem_of_seq. lia.
Qed.

Lemma slots_from_nodup o n : NoDup (slots_from o n).
Proof. apply NoDup_fmap_2; [intros a b; lia|apply NoDup_seq]. Qed.

(** ** The walk over the super classes *)

Definition seen (kVisitClass : bool) (x : Z) : Prop := kVisitClass = true \/ x <> 0.

#[global] Instance seen_dec b x : Decision (seen b x).
Proof. unfold seen. apply _. Defined.

Lemma visit_slots_spec b n o : 0 <= o -> o + 4 * Z.of_nat n < 2 ^ 32 -> visit_slots b n o = filter (seen b) (slots_from o n).
Proof.
  intros H0 Hb. assert (Hg : forall m i, (i + m)%nat = n ->
    visit_slots b m (o + 4 * Z.of_nat i) = filter (seen b) ((fun k => o + 4 * Z.of_nat k) <$> seq i m)).
  { induction m as [|m IH]; intros i Hi; [done|]. cbn [visit_slots seq fmap list_fmap]. rewrite u32_small by lia.
    replace (o + 4 * Z.of_nat i + 4) with (o + 4 * Z.of_nat (S i)) by lia. rewrite IH by lia. rewrite filter_cons.
    unfold seen at 2. destruct b; cbn [orb]; [by rewrite decide_True by (by left)|].
    destruct (Z.eqb_spec (o + 4 * Z.of_nat i) 0) as [E|E]; cbn [negb]; case_decide as D; try done; exfalso; destruct D; try done; by right. }
  specialize (Hg n 0%nat eq_refl). by rewrite Z.add_0_r in Hg.
Qed.

Lemma walk_super_ok b s ks : chain s ks -> forall k ks', ks = k :: ks' -> forall fuel, (length ks <= fuel)%nat ->
  exists vs, walk_super fuel b k s = Ok (vs, s) /\ vs ≡ₚ filter (seen b) (all_slots (lk_heap s) ks).
Proof.
  induction 1 as [klass l Hk Hc Hl Hz Hown Hn Hbm|klass l super sl ks Hk Hc Hl Hsup Hsl Hch IH H8 Hcov Hn Hroom Hown Hbm];
    intros k ks' [= <- <-] fuel Hfuel; (destruct fuel as [|fuel]; [cbn in Hfuel; lia|]); cbn [walk_super];
    rewrite (proj2 (Z.eqb_neq _ _) Hk), (run_layout _ _ _ _ Hl); cbv zeta.
  - rewrite Hn. cbn [Z.eqb]. unfold GetFirstReferenceInstanceFieldOffset. rewrite Hz. cbn [Z.eqb negb].
    rewrite bind_assoc, bind_ret, bind_ret.
    replace (walk_super fuel b 0) with (mret (M := M LinkState) (@nil Z)) by (by destruct fuel). rewrite bind_ret, app_nil_r.
    eexists. split; [done|]. rewrite visit_slots_spec by lia. by rewrite all_slots_cons, Hown.
  - destruct (IH super ks eq_refl fuel) as (vs & E & Hvs); [cbn in *; lia|].
    assert (Hru : 0 <= RoundUp (object_size_ sl) 4 < object_size_ sl + 4).
    { destruct (RoundUp_spec (object_size_ sl) 4); [unfold field_size; lia|lia|lia|lia]. }
    destruct (chain_head _ _ _ Hch) as [Hs0 _].
    rewrite (bind_ok _ _ _ (filter (seen b) (slots_from (RoundUp (object_size_ sl) 4) (Z.to_nat (num_reference_instance_fields_ l)))) s).
    + rewrite Hsup, (bind_ok _ _ _ _ _ E). eexists. split; [done|]. rewrite all_slots_cons, filter_app. by rewrite Hown, Hvs.
    + destruct (Z.eqb_spec (num_reference_instance_fields_ l) 0) as [->|_]; [done|].
      unfold GetFirstReferenceInstanceFieldOffset. rewrite Hsup, (proj2 (Z.eqb_neq _ _) Hs0). cbn [negb].
      rewrite bind_assoc, (run_layout _ _ _ _ Hsl), bind_ret. by rewrite visit_slots_spec by lia.
Qed.

(** ** The bitmap is exact *)

Definition exact_bitmap (bm : Z) (slots : list Z) : Prop :=
  0 <= bm < 2 ^ 32 /\
  (forall i, 0 <= i < 32 -> Z.testbit bm i = true <-> 8 + 4 * i ∈ slots) /\
  (forall x, x ∈ slots -> x = 0 \/ exists i, 0 <= i < 32 /\ x = 8 + 4 * i).

Lemma chain_slots s ks : chain s ks -> NoDup (all_slots (lk_heap s) ks) /\ 0 ∈ all_slots (lk_heap s) ks.
Proof.
  induction 1 as [klass l Hk Hc Hl Hz Hown Hn Hbm|klass l super sl ks Hk Hc Hl Hsup Hsl Hch [IH1 IH2] H8 Hcov Hn Hroom Hown Hbm].
  - rewrite all_slots_cons, Hown. split; [apply NoDup_singleton|by left].
  - rewrite all_slots_cons. split; [|apply elem_of_app; by right]. apply NoDup_app. rewrite Hown.
    split; [apply slots_from_nodup|]. split; [|done]. intros x. rewrite Hown. intros (k & _ & ->)%slots_from_elem Hx%Hcov.
    destruct (RoundUp_spec (object_size_ sl) 4); [unfold field_size; lia|lia|lia|lia].
Qed.

Lemma log2_word x : 0 <= x < 2 ^ 32 -> Z.log2 x < 32.
Proof. intros Hx. destruct (decide (x = 0)) as [->|]; [done|]. apply Z.log2_lt_pow2; lia. Qed.

Lemma land_word a b : 0 <= a < 2 ^ 32 -> 0 <= b -> 0 <= Z.land a b < 2 ^ 32.
Proof.
  intros Ha Hb. assert (Hpos : 0 <= Z.land a b) by (apply Z.land_nonneg; lia). split; [done|].
  destruct (decide (Z.land a b = 0)) as [->|Hne]; [done|]. apply Z.log2_lt_pow2; [lia|].
  pose proof (Z.log2_land a b). pose proof (log2_word a Ha). lia.
Qed.

Lemma lor_word a b : 0 <= a < 2 ^ 32 -> 0 <= b < 2 ^ 32 -> 0 <= Z.lor a b < 2 ^ 32.
Proof.
  intros Ha Hb. assert (Hpos : 0 <= Z.lor a b) by (apply Z.lor_nonneg; lia). split; [done|].
  destruct (decide (Z.lor a b = 0)) as [->|Hne]; [done|]. apply Z.log2_lt_pow2; [lia|]. rewrite Z.log2_lor by lia.
  pose proof (log2_word a Ha). pose proof (log2_word b Hb). lia.
Qed.

Lemma chain_bitmap s ks : chain s ks -> forall k ks' l, ks = k :: ks' -> lk_layouts s !! k = Some l ->
  reference_instance_offsets_ l = kClassWalkSuper \/ exact_bitmap (reference_instance_offsets_ l) (all_slots (lk_heap s) ks).
Proof.
  induction 1 as [klass l Hk Hc Hl Hz Hown Hn Hbm|klass l super sl ks Hk Hc Hl Hsup Hsl Hch IH H8 Hcov Hn Hroom Hown Hbm];
    intros k ks' l' [= <- <-] Hl'; rewrite Hl in Hl'; injection Hl' as <-; rewrite Hbm.
  - right. rewrite all_slots_cons, Hown. split; [lia|]. split.
    + intros i Hi. rewrite Z.bits_0. split; [done|]. intros [?|?%not_elem_of_nil]%elem_of_cons; [lia|done].
    + intros x [->|?%not_elem_of_nil]%elem_of_cons; [by left|done].
  - unfold bitmap_of. set (n := num_reference_instance_fields_ l) in *.
    destruct (Z.eqb_spec (reference_instance_offsets_ sl) kClassWalkSuper) as [->|Hnw]; cbn [orb]; [by left|].
    destruct (IH super ks sl eq_refl Hsl) as [?|(Hb & Hbits & Hall)]; [done|].
    rewrite all_slots_cons. destruct (Z.eqb_spec n 0) as [E0|En].
    { right. rewrite E0 in Hown. apply Permutation_nil_r in Hown. by rewrite Hown. }
    destruct (RoundUp_spec (object_size_ sl) 4) as [R1 R2]; [unfold field_size; lia|lia|lia|]. cbv zeta.
    rewrite u32_small by (unfold kObjectHeaderSize; lia). set (b := (RoundUp (object_size_ sl) 4 - kObjectHeaderSize) / 4).
    assert (Hb4 : RoundUp (object_size_ sl) 4 = 8 + 4 * b) by (subst b; unfold kObjectHeaderSize; mlia).
    destruct (Z.ltb_spec 32 (b + n)) as [|Hle]; [by left|]. right.
    assert (Hown' : forall x, x ∈ own_slots (lk_heap s) (class_at (lk_heap s) klass) <-> exists i, b <= i < b + n /\ x = 8 + 4 * i).
    { intros x. rewrite Hown, slots_from_elem, Hb4. split.
      - intros (j & Hj & ->). exists (b + Z.of_nat j). lia.
      - intros (i & Hi & ->). exists (Z.to_nat (i - b)). lia. }
    split; [|split].
    + apply lor_word; [done|]. apply land_word; [apply u32_range|]. apply Z.shiftr_nonneg. lia.
    + intros i Hi. rewrite Z.lor_spec, mask_bits by lia. rewrite elem_of_app, Hown', orb_true_iff, Hbits by done.
      rewrite andb_true_iff, Z.leb_le, Z.ltb_lt. split.
      * intros [?|?]; [by right|left]. by exists i.
      * intros [(j & Hj & E)|?]; [right|by left]. lia.
    + intros x [(i & Hi & ->)%Hown'|Hx]%elem_of_app; [|by apply Hall]. right. exists i. lia.
Qed.

(** ** Instance fields *)

Lemma instance_visit_ok b s k ks fuel : chain s (k :: ks) -> (length ks < fuel)%nat ->
  exists vs, VisitInstanceFieldsReferences fuel b k s = Ok (vs, s) /\
    vs ≡ₚ filter (seen b) (all_slots (lk_heap s) (k :: ks)).
Proof.
  intros Hch Hfuel. destruct (chain_head _ _ _ Hch) as (_ & l & Hl). unfold VisitInstanceFieldsReferences, VisitFieldsReferences.
  rewrite (run_layout _ _ _ _ Hl). destruct (Z.eqb_spec (reference_instance_offsets_ l) kClassWalkSuper) as [_|Hne]; cbn [negb].
  { by apply (walk_super_ok b s (k :: ks) Hch k ks eq_refl). }
  destruct (chain_bitmap _ _ Hch k ks l eq_refl Hl) as [?|(Hb & Hbits & Hall)]; [done|].
  destruct (chain_slots _ _ Hch) as [Hnd H0]. eexists. split; [done|].
  assert (Hel : forall x, x ∈ visit_bitmap 32 (reference_instance_offsets_ l) kObjectHeaderSize <->
            x <> 0 /\ x ∈ all_slots (lk_heap s) (k :: ks)).
  { intros x. rewrite visit_bitmap_elem by done. unfold kObjectHeaderSize. split.
    - intros (i & Hi & Ht & ->). split; [lia|]. apply Hbits; [lia|done].
    - intros [Hx Hin]. destruct (Hall x Hin) as [?|(i & Hi & ->)]; [done|]. exists (Z.to_nat i).
      rewrite Z2Nat.id by lia. split; [lia|]. split; [|done]. by apply Hbits. }
  apply NoDup_Permutation; [|by apply NoDup_filter|].
  - destruct b; cbn [app]; [|by apply visit_bitmap_nodup]. apply NoDup_cons. split; [|by apply visit_bitmap_nodup].
    rewrite Hel. tauto.
  - intros x. rewrite elem_of_app, Hel, list_elem_of_filter. unfold seen. destruct b.
    + rewrite list_elem_of_singleton. destruct (decide (x = 0)) as [->|]; tauto.
    + rewrite elem_of_nil. split; [tauto|]. intros [[?|?] ?]; [done|tauto].
Qed.

(** ** Linking keeps the invariant *)

Lemma linked_visible start fields refs size h h' r p f :
  fields_linked start fields refs size h h' -> p ∈ fields -> h_fields h !! p = Some f -> visible h' r p = visible h r p.
Proof.
  intros Hl Hp Hf. destruct (fl_fields _ _ _ _ _ _ Hl p f Hp Hf) as (o & Ho & _).
  unfold visible, reference_at, lied. by rewrite (field_at_some _ _ _ Ho), (field_at_some _ _ _ Hf).
Qed.

Lemma filter_ext_in (P Q : Z -> bool) (l : list Z) : (forall x, x ∈ l -> P x = Q x) ->
  filter (fun x => P x = true) l = filter (fun x => Q x = true) l.
Proof.
  intros H. induction l as [|x l IH]; [done|]. rewrite !filter_cons. rewrite IH by (intros y Hy; apply H; by right).
  pose proof (H x ltac:(by left)). repeat case_decide; congruence.
Qed.

Lemma linked_offsets start fields refs size h h' : fields_linked start fields refs size h h' ->
  (fun p => af_offset (field_at h' p)) <$> refs = slots_from (RoundUp start 4) (length refs).
Proof.
  intros Hl. apply list_eq_same_length with (length refs); [|by rewrite length_fmap|].
  { unfold slots_from. by rewrite length_fmap, length_seq. }
  intros i x y Hi Hx Hy. rewrite list_lookup_fmap in Hx. unfold slots_from in Hy.
  destruct (refs !! i) as [p|] eqn:Hp; [|done]. cbn in Hx. injection Hx as <-.
  rewrite list_lookup_fmap, lookup_seq_lt in Hy by done. cbn in Hy. injection Hy as <-. by apply (fl_slots _ _ _ _ _ _ Hl).
Qed.

Lemma slots_from_S o n : slots_from o (S n) = slots_from o n ++ [o + 4 * Z.of_nat n].
Proof. unfold slots_from. by rewrite seq_S, fmap_app. Qed.

Lemma own_slots_linked env klass c l start s refs size h' :
  linkable env klass false c l start s -> fields_linked start (mc_ifields c) refs size (lk_heap s) h' ->
  (is_Reference c = true -> array_order (lk_heap s) true (mc_ifields c)) ->
  own_slots h' c ≡ₚ slots_from (RoundUp start 4) (Z.to_nat (counted false c (length refs))).
Proof.
  intros Hlk Hl Hord. pose proof (lb_nodup _ _ _ _ _ _ _ Hlk) as Hnd. cbn [fields_of] in Hnd. unfold own_slots.
  rewrite (filter_ext_in (visible h' (is_Reference c)) (visible (lk_heap s) (is_Reference c))).
  2:{ intros p Hp. destruct (lb_fields _ _ _ _ _ _ _ Hlk p Hp) as (f & Hf & _). by eapply linked_visible. }
  pose proof (linked_offsets _ _ _ _ _ _ Hl) as Hoff. unfold counted. cbn [negb andb].
  destruct (is_Reference c) eqn:Er.
  - specialize (Hord eq_refl). destruct (lb_referent _ _ _ _ _ _ _ Hlk eq_refl Er) as (Hall & p & Hlast & Hname).
    apply last_Some in Hlast as [pre E]. pose proof (refs_are _ _ _ _ _ _ _ Hl Hnd Hord) as Hrefs.
    rewrite filter_all in Hrefs by done. rewrite Hrefs in *.
    rewrite E in Hoff, Hall |- *. rewrite filter_app, fmap_app, length_app, Nat.add_1_r, slots_from_S in *.
    apply app_inj_tail in Hoff as [Hoff _]. rewrite (filter_none _ [p]).
    2:{ constructor; [|constructor]. unfold visible, lied. rewrite bool_decide_eq_true_2 by done. by rewrite andb_false_r. }
    rewrite app_nil_r, filter_all; [rewrite Hoff; f_equiv; lia|].
    apply Forall_app in Hall as [Hall _]. rewrite Forall_forall in *. intros q Hq. unfold visible. rewrite (Hall q Hq). cbn [andb].
    apply negb_true_iff, not_true_iff_false. intros Hlie. apply list_elem_of_lookup in Hq as [i Hi].
    pose proof (ao_last _ _ _ Hord i q) as Hla. pose proof (lookup_lt_Some _ _ _ Hi).
    rewrite E, lookup_app_l, length_app in Hla by done. specialize (Hla Hi Hlie). cbn in Hla. lia.
  - rewrite Nat2Z.id, <- Hoff. f_equiv. rewrite (linked_refs_filter _ _ _ _ _ _ Hl Hnd).
    rewrite (filter_ext_in (visible (lk_heap s) false) (reference_at (lk_heap s))); [done|].
    intros p _. unfold visible, lied. by rewrite andb_true_r.
Qed.

Lemma chain_frame s s' ks : chain s ks ->
  (forall k, k ∈ ks -> lk_layouts s' !! k = lk_layouts s !! k /\ h_classes (lk_heap s') !! k = h_classes (lk_heap s) !! k /\
     own_slots (lk_heap s') (class_at (lk_heap s') k) = own_slots (lk_heap s) (class_at (lk_heap s) k)) ->
  chain s' ks /\ all_slots (lk_heap s') ks = all_slots (lk_heap s) ks.
Proof.
  induction 1 as [klass l Hk Hc Hl Hz Hown Hn Hbm|klass l super sl ks Hk Hc Hl Hsup Hsl Hch IH H8 Hcov Hn Hroom Hown Hbm]; intros Hfr.
  - destruct (Hfr klass ltac:(by left)) as (F1 & F2 & F3). split; [|unfold all_slots; cbn; by rewrite F3].
    apply (chain_Object s' klass l); try done; [by rewrite F2|by rewrite F1|by rewrite F3].
  - destruct (Hfr klass ltac:(by left)) as (F1 & F2 & F3). destruct (Hfr super ltac:(right; by left)) as (G1 & _).
    destruct IH as [IH1 IH2]; [intros k Hin; apply Hfr; by right|].
    split; [|by rewrite !all_slots_cons, F3, <- !all_slots_cons, IH2].
    apply (chain_super s' klass l super sl ks); try done; [by rewrite F2|by rewrite F1|by rewrite G1|by rewrite IH2|by rewrite F3].
Qed.

(** The fields of [c] belong to no class of [ks]. *)
Definition apart (h : Heap) (c : Class_) (ks : list Z) : Prop :=
  forall k p, k ∈ ks -> p ∈ mc_ifields (class_at h k) -> p ∉ mc_ifields c.

Lemma linked_apart start c refs size h h' k : fields_linked start (mc_ifields c) refs size h h' ->
  (forall p, p ∈ mc_ifields (class_at h k) -> p ∉ mc_ifields c) ->
  class_at h' k = class_at h k /\ own_slots h' (class_at h k) = own_slots h (class_at h k).
Proof.
  intros Hl Hk. assert (Hfa : forall p, p ∈ mc_ifields (class_at h k) -> field_at h' p = field_at h p).
  { intros p Hp. unfold field_at. by rewrite (fl_others _ _ _ _ _ _ Hl p (Hk p Hp)). }
  split; [unfold class_at; by rewrite (fl_frame _ _ _ _ _ _ Hl)|]. unfold own_slots.
  rewrite (filter_ext_in (visible h' (is_Reference (class_at h k))) (visible h (is_Reference (class_at h k)))).
  2:{ intros p Hp. unfold visible, reference_at, lied. by rewrite Hfa. }
  apply list_fmap_ext. intros i p Hp%list_elem_of_lookup_2. apply list_elem_of_filter in Hp as [_ Hp]. by rewrite Hfa.
Qed.

(** The class at the head of [ks] can have subclasses: its objects have a size,
    and its references are within it. *)
Definition extensible (s : LinkState) (ks : list Z) (sl : ClassLayout) : Prop :=
  (exists k ks', ks = k :: ks' /\ lk_layouts s !! k = Some sl) /\ 8 <= object_size_ sl /\
  forall x, x ∈ all_slots (lk_heap s) ks -> x + 4 <= object_size_ sl.

Lemma counted_range env klass c l start s refs size h' :
  linkable env klass false c l start s -> fields_linked start (mc_ifields c) refs size (lk_heap s) h' ->
  0 <= counted false c (length refs) <= Z.of_nat (length (mc_ifields c)).
Proof.
  intros Hlk Hl. pose proof (lb_nodup _ _ _ _ _ _ _ Hlk) as Hnd. cbn [fields_of] in Hnd.
  assert (Hlen : (length refs <= length (mc_ifields c))%nat).
  { rewrite (Permutation_length (linked_refs_filter _ _ _ _ _ _ Hl Hnd)). apply length_filter. }
  unfold counted. cbn [negb andb]. destruct (is_Reference c) eqn:Er; [|lia].
  destruct (lb_referent _ _ _ _ _ _ _ Hlk eq_refl Er) as (Hall & p & Hlast & _). rewrite Forall_forall in Hall.
  assert (Hpin : p ∈ mc_ifields c) by (apply last_Some in Hlast as [pre ->]; apply elem_of_app; right; by left).
  assert (Hp : p ∈ refs) by (apply (fl_refs _ _ _ _ _ _ Hl); by split; [|apply Hall]).
  destruct refs; [by apply not_elem_of_nil in Hp|]. cbn [length] in *. lia.
Qed.

(** The slots of a class that has been linked are within its size. *)
Lemma own_slots_below start c refs size h h' x :
  fields_linked start (mc_ifields c) refs size h h' -> (forall p, p ∈ mc_ifields c -> is_Some (h_fields h !! p)) ->
  x ∈ own_slots h' c -> x + 4 <= size.
Proof.
  intros Hl Hf Hx. apply list_elem_of_fmap in Hx as (p & -> & Hp). apply list_elem_of_filter in Hp as [Hv Hp].
  destruct (Hf p Hp) as [f Hfp]. rewrite (linked_visible _ _ _ _ _ _ _ _ _ Hl Hp Hfp) in Hv.
  apply andb_true_iff in Hv as [Hr _]. apply reference_size in Hr. unfold size_at in Hr. rewrite (field_at_some _ _ _ Hfp) in Hr.
  destruct (fl_fields _ _ _ _ _ _ Hl p f Hp Hfp) as (o & Ho & _ & Hs & _). rewrite (field_at_some _ _ _ Ho). cbn. lia.
Qed.

Lemma total_size_nonneg h fields : 0 <= total_size h fields.
Proof.
  induction fields as [|p fields IH]; [done|]. cbn [total_size foldr]. fold (total_size h fields).
  assert (0 <= size_at h p); [|lia]. unfold size_at, size_of. destruct (GetTypeAsPrimitiveType (field_at h p)); done.
Qed.

Section Walk.
Context `{sort : StdSort} `{!StdSortLaws sort}.

Lemma link_chain env klass c l start s ks sl :
  klass <> 0 -> linkable env klass false c l start s -> super_class_ l <> 0 ->
  chain s (super_class_ l :: ks) -> extensible s (super_class_ l :: ks) sl ->
  klass ∉ super_class_ l :: ks -> apart (lk_heap s) c (super_class_ l :: ks) ->
  (is_Reference c = true -> array_order (lk_heap s) true (mc_ifields c)) ->
  exists s' refs size l',
    (LinkInstanceFields env klass ;; CreateReferenceInstanceOffsets klass) s = Ok (tt, s') /\
    fields_linked start (mc_ifields c) refs size (lk_heap s) (lk_heap s') /\
    chain s' (klass :: super_class_ l :: ks) /\
    all_slots (lk_heap s') (klass :: super_class_ l :: ks) =
      own_slots (lk_heap s') c ++ all_slots (lk_heap s) (super_class_ l :: ks) /\
    (IsVariableSize env klass c = false -> extensible s' (klass :: super_class_ l :: ks) l').
Proof using StdSortLaws0.
  intros Hk Hlk Hsup Hch ((k0 & ks0 & [= <- <-] & Hsl) & H8 & Hcov) Hnew Hap Hord.
  destruct (LinkInstanceFields_ok env klass c l start s Hk Hlk) as (refs & size & h' & E & Hl).
  assert (start = object_size_ sl) as ->.
  { pose proof (lb_start _ _ _ _ _ _ _ Hlk) as Hst. inversion Hst as [| |sc sl' ? ? ? Hsl']; [done|]. rewrite Hsl in Hsl'. by simplify_eq. }
  pose proof (counted_range _ _ _ _ _ _ _ _ _ Hlk Hl) as Hn.
  set (n := counted false c (length refs)) in *. set (l1 := linked_layout env klass c false (u32 n) size l) in *.
  pose proof (lb_room _ _ _ _ _ _ _ Hlk) as Hroom. cbn [fields_of] in Hroom.
  assert (Hl1 : super_class_ l1 = super_class_ l /\ num_reference_instance_fields_ l1 = n /\
            (IsVariableSize env klass c = false -> object_size_ l1 = size)).
  { unfold l1, linked_layout. rewrite u32_small by lia. by destruct (IsVariableSize env klass c). }
  destruct Hl1 as (Esup & En & Eos). apply not_elem_of_cons in Hnew as [Hne1 Hne2].
  set (l2 := SetReferenceInstanceOffsets (bitmap_of sl n) l1). set (s' := mkLink h' (<[klass := l2]> (lk_layouts s))).
  assert (Hcl : class_at h' klass = c).
  { unfold class_at. rewrite (fl_frame _ _ _ _ _ _ Hl). cbn. by rewrite (lb_class _ _ _ _ _ _ _ Hlk). }
  assert (Hfr : chain s' (super_class_ l :: ks) /\
            all_slots (lk_heap s') (super_class_ l :: ks) = all_slots (lk_heap s) (super_class_ l :: ks)).
  { apply chain_frame; [done|]. intros k Hin. cbn [lk_layouts lk_heap s'].
    destruct (linked_apart _ _ _ _ _ _ k Hl (fun p => Hap k p Hin)) as [A1 A2]. rewrite A1.
    split; [apply lookup_insert_ne; set_solver|]. split; [by rewrite (fl_frame _ _ _ _ _ _ Hl)|exact A2]. }
  destruct Hfr as [Hch' Hall'].
  assert (Hslots : all_slots h' (klass :: super_class_ l :: ks) = own_slots h' c ++ all_slots (lk_heap s) (super_class_ l :: ks)).
  { rewrite all_slots_cons, Hcl. by rewrite <- Hall'. }
  exists s', refs, size, l2. split; [|split; [exact Hl|split; [|split; [exact Hslots|]]]].
  - rewrite (bind_ok _ _ _ _ _ E). rewrite (CreateReferenceInstanceOffsets_ok klass l1 sl); cbn [lk_layouts lk_heap];
      [by rewrite En, insert_insert_eq|by rewrite lookup_insert_eq|by rewrite Esup|by rewrite Esup, lookup_insert_ne].
  - apply (chain_super s' klass l2 (super_class_ l) sl ks); try done.
    + cbn. rewrite (fl_frame _ _ _ _ _ _ Hl). cbn. rewrite (lb_class _ _ _ _ _ _ _ Hlk). by eexists.
    + apply lookup_insert_eq.
    + cbn. by rewrite lookup_insert_ne.
    + by rewrite Hall'.
    + change (0 <= num_reference_instance_fields_ l1). rewrite En. lia.
    + change (object_size_ sl + 4 * num_reference_instance_fields_ l1 + 16 < 2 ^ 32). rewrite En. lia.
    + change (num_reference_instance_fields_ l2) with (num_reference_instance_fields_ l1). cbn [lk_heap s']. rewrite En, Hcl.
      by eapply own_slots_linked.
    + change (num_reference_instance_fields_ l2) with (num_reference_instance_fields_ l1). by rewrite En.
  - intros Hvs. change (object_size_ l2) with (object_size_ l1). specialize (Eos Hvs).
    assert (Hge : object_size_ sl <= size).
    { pose proof (fl_size _ _ _ _ _ _ Hl). pose proof (total_size_nonneg (lk_heap s) (mc_ifields c)). lia. }
    split; [exists klass, (super_class_ l :: ks); split; [done|apply lookup_insert_eq]|].
    change (object_size_ l2) with (object_size_ l1). rewrite Eos. split; [lia|].
    intros x. cbn [lk_heap s']. rewrite Hslots. intros [Hx|Hx%Hcov]%elem_of_app; [|lia].
    eapply own_slots_below; [exact Hl| |exact Hx]. intros p Hp. destruct (lb_fields _ _ _ _ _ _ _ Hlk p Hp) as (f & Hf & _). by eexists.
Qed.

End Walk.

(** ** Static fields *)

Definition own_static_slots (h : Heap) (c : Class_) : list Z :=
  (fun p => af_offset (field_at h p)) <$> filter (fun p => reference_at h p = true) (mc_sfields c).

Lemma own_static_linked env klass c l start s refs size h' :
  linkable env klass true c l start s -> fields_linked start (mc_sfields c) refs size (lk_heap s) h' ->
  own_static_slots h' c ≡ₚ slots_from start (length refs).
Proof.
  intros Hlk Hl. pose proof (lb_nodup _ _ _ _ _ _ _ Hlk) as Hnd. cbn [fields_of] in Hnd. unfold own_static_slots.
  rewrite (filter_ext_in (reference_at h') (reference_at (lk_heap s))).
  2:{ intros p Hp. destruct (lb_fields _ _ _ _ _ _ _ Hlk p Hp) as (f & Hf & _).
      destruct (fl_fields _ _ _ _ _ _ Hl p f Hp Hf) as (o & Ho & _). unfold reference_at.
      by rewrite (field_at_some _ _ _ Ho), (field_at_some _ _ _ Hf). }
  rewrite <- (linked_refs_filter _ _ _ _ _ _ Hl Hnd), (linked_offsets _ _ _ _ _ _ Hl).
  pose proof (lb_start _ _ _ _ _ _ _ Hlk) as Hst. inversion Hst as [Hps Hflag Hstart| |]. subst start.
  destruct (static_start_aligned env c l Hps). pose proof (lb_room _ _ _ _ _ _ _ Hlk).
  by rewrite RoundUp_aligned by (unfold field_size; lia).
Qed.

Lemma static_visit_ok b env klass c l h' n layouts :
  h_classes h' !! klass = Some c -> layouts !! klass = Some l -> num_reference_static_fields_ l = Z.of_nat n ->
  embedded_vtable_length l = vtable_length l -> image_pointer_size_ env = 4 \/ image_pointer_size_ env = 8 ->
  GetFirstReferenceStaticFieldOffsetDuringLinking env c l + 4 * Z.of_nat n < 2 ^ 32 ->
  0 < GetFirstReferenceStaticFieldOffsetDuringLinking env c l ->
  VisitStaticFieldsReferences env b klass (mkLink h' layouts) =
    Ok (slots_from (GetFirstReferenceStaticFieldOffsetDuringLinking env c l) n, mkLink h' layouts).
Proof.
  intros Hc Hl Hn Hvt Hps Hroom Hpos. unfold VisitStaticFieldsReferences.
  rewrite (run_heap_load _ _ _ _ c) by done. rewrite (run_layout _ _ _ l) by done. cbv zeta. rewrite Hn.
  assert (E : GetFirstReferenceStaticFieldOffset env c l = GetFirstReferenceStaticFieldOffsetDuringLinking env c l).
  { unfold GetFirstReferenceStaticFieldOffset, GetFirstReferenceStaticFieldOffsetDuringLinking. by rewrite Hvt. }
  destruct (Z.eqb_spec (Z.of_nat n) 0) as [Hz|_]; [assert (n = 0%nat) as -> by lia; done|].
  rewrite E, Nat2Z.id, visit_slots_spec by lia. rewrite filter_all; [done|].
  apply Forall_forall. intros x (k & _ & ->)%slots_from_elem. right. lia.
Qed.

