(* ===== verification/ClassLinking.v ===== *)
(** * Linking a class: sizes and references

    The results on [FieldLayout], with the loading of [ClassLoading]: where the
    fields of a class are ([field_layout_safe]), that the size a class object is
    allocated with is the one linking asks for ([class_size_agrees]), and that
    the collector visits the references of an object
    ([collector_visits_references]).  [gap_left_unused] is a class that is laid
    out larger than it needs to be. *)

From S2P Require Import Prelude ArtObjects Instrumentation MiniTraceClasses Leb128 ClassData ClassLoading FieldLayout FieldLinking ReferenceWalk.

(** ** A sort *)

Fixpoint insert_sorted (lt : Z -> Z -> bool) (x : Z) (l : list Z) : list Z :=
  match l with
  | [] => [x]
  | y :: l => if lt x y then x :: y :: l else y :: insert_sorted lt x l
  end.

#[global] Instance insertion_sort : StdSort := fun lt l => foldr (insert_sorted lt) [] l.

Lemma insert_sorted_perm lt x l : insert_sorted lt x l ≡ₚ x :: l.
Proof.
  induction l as [|y l IH]; cbn; [done|]. destruct (lt x y); [done|]. rewrite IH. apply Permutation_swap.
Qed.

#[global] Instance insertion_sort_laws : StdSortLaws insertion_sort.
Proof.
  constructor.
  - intros lt l. unfold std_sort, insertion_sort. induction l as [|x l IH]; cbn; [done|]. by rewrite insert_sorted_perm, IH.
  - intros lt l [Hasym Htr]. unfold std_sort, insertion_sort. induction l as [|x l IH]; cbn; [constructor|].
    induction IH as [|y m Hm IHm Hy]; cbn; [repeat constructor|]. destruct (lt x y) eqn:E.
    + constructor; [by constructor|]. rewrite Forall_forall in *. intros z [->|Hz]%elem_of_cons; [by apply Hasym|].
      eapply Htr; [|by apply Hy]. by apply Hasym.
    + constructor; [done|]. rewrite insert_sorted_perm. by constructor.
Qed.

(** ** A class without embedded tables *)

(** What the static fields of the class data are counted as. *)
Definition countable (descriptor : string) : Prop :=
  first_char descriptor ∈ ["L"; "["; "J"; "D"; "I"; "F"; "S"; "C"; "B"; "Z"]%char.

Definition desc_field (descriptor : string) : ArtField := mkArtField 0 0 EmptyString descriptor 0 0.

Definition add_field (f : ArtField) (n : FieldCounts) : FieldCounts :=
  mkCounts (num_ref n + if is_reference_field f then 1 else 0)
    (num_8 n + if negb (is_reference_field f) && (size_of f =? 1) then 1 else 0)
    (num_16 n + if negb (is_reference_field f) && (size_of f =? 2) then 1 else 0)
    (num_32 n + if negb (is_reference_field f) && (size_of f =? 4) then 1 else 0)
    (num_64 n + if negb (is_reference_field f) && (size_of f =? 8) then 1 else 0).

Lemma count_field_ok descriptor f n : countable descriptor -> af_type_descriptor f = descriptor ->
  count_field descriptor n = Ok (add_field f n) /\ GetTypeAsPrimitiveType f <> Primitive.kPrimVoid.
Proof.
  intros Hc E. unfold count_field, add_field, is_reference_field, size_of, GetTypeAsPrimitiveType. rewrite E.
  unfold countable in Hc. set (ch := first_char descriptor) in *. clearbody ch. destruct n as [a b d e g].
  repeat (apply elem_of_cons in Hc as [->|Hc]; [cbn; rewrite ?Z.add_0_r; done|]). by apply not_elem_of_nil in Hc.
Qed.

Lemma filter_snoc_length (P : Z -> bool) (l : list Z) p :
  Z.of_nat (length (filter (fun x => P x = true) (l ++ [p]))) =
  Z.of_nat (length (filter (fun x => P x = true) l)) + if P p then 1 else 0.
Proof.
  rewrite filter_app, length_app, filter_cons. change (filter (fun x => P x = true) []) with (@nil Z).
  destruct (P p) eqn:E; case_decide; (congruence || cbn [length]; lia).
Qed.

Lemma counts_snoc h l p : counts_of h (l ++ [p]) = add_field (field_at h p) (counts_of h l).
Proof. unfold counts_of, add_field, refs_in, group_count. by rewrite !filter_snoc_length. Qed.

Section Loaded.
Context (le : LoadEnv) (klass dex : Z) (ly : Layout) (ms : list Member) (Hwf : members_wf ly ms) (rest : list Z).
Context (Hptr : 0 < le_class_data le klass).
Context (Hdata : drop (Z.to_nat (le_class_data le klass)) (le_memory le dex) = class_bytes ly ms ++ rest).

Definition descriptor_at (k : nat) : string := (le_field_id le dex (m_idx (member_at ms k))).2.

Context (Hcount : forall k, (k < ly_static ly)%nat -> countable (descriptor_at k)).

(** The counts of the class data are those of the loaded fields. *)
Lemma SizeOfClass_ok env s h addrs :
  length addrs = ly_static ly ->
  (forall k a, addrs !! k = Some a -> exists f, h_fields h !! a = Some f /\ af_type_descriptor f = descriptor_at k) ->
  let n := counts_of h addrs in
  SizeOfClassWithoutEmbeddedTables env le dex klass s =
    Ok (ComputeClassSize false 0 (num_8 n) (num_16 n) (num_32 n) (num_64 n) (num_ref n) (image_pointer_size_ env), s).
Proof using Hwf Hptr Hdata Hcount.
  intros Hlen Hf n. pose proof (mw_total _ _ Hwf) as Htot. assert (ly_static ly <= ly_total ly)%nat
    by (unfold ly_total, ly_methods, ly_fields; lia).
  destruct (new_at ly ms Hwf _ rest _ Hptr Hdata) as (it & E & Hat).
  unfold SizeOfClassWithoutEmbeddedTables. cbv zeta. rewrite (proj2 (Z.eqb_neq (le_class_data le klass) 0)) by lia. cbn [negb].
  rewrite bind_assoc, E, bind_lift, bind_assoc.
  destruct (at_ends ly ms Hwf _ _ 0 it Hat) as (_ & _ & _ & ->). rewrite Nat2Z.id.
  set (body := fun (_ : Z) (it : ClassDataItemIterator) (n : FieldCounts) => _).
  destruct (for_members_ok (fun p n s' => s' = s /\ n = counts_of h (take p addrs)) HasNextStaticField body ly ms
              (le_memory le dex) rest 0 (ly_static ly) Hwf) with (fuel := ly_total ly) (p := 0%nat) (it := it)
              (v := mkCounts 0 0 0 0 0) (s := s) as (it' & n' & s' & El & _ & -> & ->); try done; try lia.
  - intros p it1 Hat1 _. by apply (has_next ly ms Hwf (le_memory le dex) rest).
  - intros p it1 v s1 Hp Hat1 [-> ->]. exists (counts_of h (take (S p) addrs)), s. split; [|done].
    destruct (member_at_ok ly ms Hwf _ _ p it1 Hat1) as (Ei & _); [lia|]. unfold body. rewrite Ei.
    destruct (lookup_lt_is_Some_2 addrs p) as [a Ha]; [lia|]. destruct (Hf p a Ha) as (f & Hfa & Hd).
    rewrite (take_S_r _ _ _ Ha), counts_snoc, (field_at_some _ _ _ Hfa).
    destruct (count_field_ok _ f (counts_of h (take p addrs)) (Hcount p ltac:(lia)) Hd) as [Ec _].
    unfold descriptor_at in Ec. by rewrite Ec.
  - rewrite Nat.sub_diag in El. change (Z.of_nat 0) with 0 in El. rewrite (bind_ok _ _ _ _ _ El), bind_ret.
    rewrite <- Hlen, firstn_all. fold n.
    assert (Hb : forall P : Z -> bool, 0 <= Z.of_nat (length (filter (fun x => P x = true) addrs)) < 2 ^ 32).
    { intros P. pose proof (length_filter (fun x => P x = true) addrs). lia. }
    unfold n, counts_of, refs_in, group_count. cbn [num_ref num_8 num_16 num_32 num_64]. by rewrite !u32_small by apply Hb.
Qed.

End Loaded.

Lemma instantiable_finalizable c : IsInstantiable (finalizable c) = IsInstantiable c.
Proof.
  unfold IsInstantiable, IsPrimitive, IsInterface, class_IsAbstract, IsArrayClass, finalizable.
  cbn [class_set_flags mc_access_flags mc_primitive_type mc_component_type].
  change kAccClassIsFinalizable with (2 ^ 31). change kAccInterface with (2 ^ 9). change kAccAbstract with (2 ^ 10).
  by rewrite !HasFlag_lor_other by lia.
Qed.

(** A class that has just been loaded, as linking finds it. *)
Record loaded_for_linking (le : LoadEnv) (klass : Z) (ly : Layout) (ms : list Member) (ar : Arrays) (c c1 : Class_) (h1 : Heap)
  : Prop := {
  ll_class : h_classes h1 !! klass = Some c1;
  ll_status : mc_status c1 = kStatusLoaded;
  ll_same : IsInstantiable c1 = IsInstantiable c /\ mc_descriptor c1 = mc_descriptor c /\ mc_component_type c1 = mc_component_type c;
  ll_sfields : mc_sfields c1 = sfield_addrs ly ar;
  ll_ifields : mc_ifields c1 = ifield_addrs ly ar;
  ll_fields : forall k a, (sfield_addrs ly ar ++ ifield_addrs ly ar) !! k = Some a ->
    h_fields h1 !! a = Some (loaded_field le klass (mc_dex_file c) (member_at ms k));
}.

Lemma loaded_linking le ins klass oat ly ms ar c h s1 :
  members_loaded le ins klass oat ly ms ar c h (heap_of s1) ->
  exists c1, loaded_for_linking le klass ly ms ar c c1 (heap_of (with_status klass kStatusLoaded s1)).
Proof.
  intros Hl. destruct (ml_class _ _ _ _ _ _ _ _ _ _ Hl) as (c' & Hc' & Hmf). exists (class_set_status kStatusLoaded c').
  unfold with_status. rewrite Hc'.
  assert (Hsame : mc_sfields c' = sfield_addrs ly ar /\ mc_ifields c' = ifield_addrs ly ar /\
            IsInstantiable c' = IsInstantiable c /\ mc_descriptor c' = mc_descriptor c /\ mc_component_type c' = mc_component_type c).
  { destruct Hmf as [->| ->]; [done|]. by rewrite instantiable_finalizable. }
  destruct Hsame as (S1 & S2 & S3 & S4 & S5). constructor; cbn; try done; [apply lookup_insert_eq|].
  apply (ml_fields _ _ _ _ _ _ _ _ _ _ Hl).
Qed.

(** ** The two linkings of a class, and the check of its size *)

Lemma array_order_frame h h' r fields : (forall p, p ∈ fields -> field_at h' p = field_at h p) ->
  array_order h r fields -> array_order h' r fields.
Proof.
  intros Hf [H1 H2 H3].
  assert (Hi : forall i p, fields !! i = Some p -> field_at h' p = field_at h p)
    by (intros i p Hp; apply Hf; by eapply list_elem_of_lookup_2).
  constructor.
  - intros i p q Hp Hq. rewrite (Hi _ _ Hp), (Hi _ _ Hq). by eapply H1.
  - clear -H2 Hf. induction H2 as [|p fields Hs IH Hall]; constructor.
    + apply IH. intros q Hq. apply Hf. by right.
    + rewrite Forall_forall in *. intros q Hq. rewrite (Hf p), (Hf q) by (by left || by right). by apply Hall.
  - intros i p Hp. unfold lied. rewrite (Hi _ _ Hp). by apply H3.
Qed.

Lemma counts_frame h h' fields : (forall p, p ∈ fields -> field_at h' p = field_at h p) -> counts_of h' fields = counts_of h fields.
Proof.
  intros Hf. unfold counts_of, refs_in, group_count.
  rewrite (filter_ext_in (reference_at h') (reference_at h)) by (intros p Hp; unfold reference_at; by rewrite Hf).
  assert (Hg : forall n, filter (fun p => in_group h' n p = true) fields = filter (fun p => in_group h n p = true) fields).
  { intros n. apply filter_ext_in. intros p Hp. unfold in_group, reference_at, size_at. by rewrite Hf. }
  by rewrite !Hg.
Qed.

(** Linking instance fields leaves the static ones to be linked. *)
Lemma linkable_static_after env klass c l start sstart s refs size h' n :
  linkable env klass true c l sstart s -> fields_linked start (mc_ifields c) refs size (lk_heap s) h' ->
  NoDup (mc_sfields c ++ mc_ifields c) ->
  let l1 := linked_layout env klass c false n size l in
  let s1 := mkLink h' (<[klass := l1]> (lk_layouts s)) in
  linkable env klass true c l1 sstart s1 /\ (forall p, p ∈ mc_sfields c -> field_at h' p = field_at (lk_heap s) p).
Proof.
  intros Hlk Hl Hnd l1 s1. apply NoDup_app in Hnd as (_ & Hdis & _).
  destruct (linked_layout_keeps env klass c false n size l) as [Esup Evt]. fold l1 in Esup, Evt.
  assert (Hsame : forall p, p ∈ mc_sfields c -> h_fields h' !! p = h_fields (lk_heap s) !! p)
    by (intros p Hp; apply (fl_others _ _ _ _ _ _ Hl), Hdis, Hp).
  assert (Hfa : forall p, p ∈ mc_sfields c -> field_at h' p = field_at (lk_heap s) p)
    by (intros p Hp; unfold field_at; by rewrite Hsame).
  split; [|done]. destruct Hlk as [H1 H2 H3 H4 H5 H6 H7 H8 H9 H10]. constructor; try done.
  - cbn. by rewrite (fl_frame _ _ _ _ _ _ Hl).
  - apply lookup_insert_eq.
  - by rewrite Esup.
  - inversion H4 as [Hps Hflag Hstart| |].
    replace (GetFirstReferenceStaticFieldOffsetDuringLinking env c l) with (GetFirstReferenceStaticFieldOffsetDuringLinking env c l1)
      by (unfold GetFirstReferenceStaticFieldOffsetDuringLinking; by rewrite Evt). by constructor.
  - intros p Hp. cbn [lk_heap s1]. rewrite Hsame by done. by apply H6.
  - intros Hd. destruct (H10 Hd) as [Ho Hlie]. cbn [fields_of lk_heap s1] in *. split; [by eapply array_order_frame|].
    intros _ p Hp. unfold lied. rewrite Hfa by done. by apply Hlie.
Qed.

Section Class.
Context `{sort : StdSort} `{!StdSortLaws sort}.

Lemma LinkClass_fields_ok env klass c l sl start sstart s :
  klass <> 0 -> linkable env klass false c l start s -> linkable env klass true c l sstart s ->
  NoDup (mc_sfields c ++ mc_ifields c) -> super_class_ l <> 0 -> lk_layouts s !! super_class_ l = Some sl ->
  mc_status c = kStatusLoaded ->
  let size := computed_size env c l (counts_of (lk_heap s) (mc_sfields c)) in
  (IsTemp c = false -> class_size_ l = size) ->
  exists s', LinkClass_fields env klass s = Ok (size, s').
Proof using StdSortLaws0.
  intros Hk Hli Hls Hnd Hsup Hsl Hst size Hsize.
  destruct (LinkInstanceFields_ok env klass c l start s Hk Hli) as (refs & isize & h1 & E1 & Hl1).
  set (l1 := linked_layout env klass c false _ isize l) in *. set (s1 := mkLink h1 _) in *.
  destruct (linkable_static_after env klass c l start sstart s refs isize h1 (u32 (counted false c (length refs))) Hls Hl1 Hnd) as [Hls1 Hfa].
  fold l1 s1 in Hls1. destruct (linked_layout_keeps env klass c false (u32 (counted false c (length refs))) isize l) as [Esup Evt].
  fold l1 in Esup, Evt. destruct (LinkStaticFields_ok env klass c l1 sstart s1 Hk Hls1) as (srefs & h2 & E2 & Hl2).
  assert (Esize : computed_size env c l1 (counts_of (lk_heap s1) (mc_sfields c)) = size).
  { unfold size, computed_size. rewrite Evt. cbn [lk_heap s1]. by rewrite (counts_frame _ _ _ Hfa). }
  rewrite Esize in *. set (l2 := SetNumReferenceStaticFields _ l1) in *.
  assert (Hne : super_class_ l <> klass) by apply Hli.
  set (s2 := mkLink h2 (<[klass := l2]> (lk_layouts s1))) in *.
  assert (Hs2 : lk_layouts s2 !! klass = Some l2) by apply lookup_insert_eq.
  assert (Esup2 : super_class_ l2 = super_class_ l) by exact Esup.
  assert (Hsl2 : lk_layouts s2 !! super_class_ l2 = Some sl) by (rewrite Esup2; cbn; by rewrite !lookup_insert_ne).
  rewrite <- Esup2 in Hsup. pose proof (CreateReferenceInstanceOffsets_ok klass l2 sl s2 Hs2 Hsup Hsl2) as E3.
  unfold LinkClass_fields. rewrite (bind_ok _ _ _ _ _ E1), (bind_ok _ _ _ _ _ E2), (bind_ok _ _ _ _ _ E3).
  cbn [lk_heap lk_layouts]. rewrite (run_heap_load _ _ _ _ c).
  2:{ cbn. rewrite (fl_frame _ _ _ _ _ _ Hl2). cbn. rewrite (fl_frame _ _ _ _ _ _ Hl1). cbn. apply Hli. }
  rewrite run_checkM by (by rewrite Hst).
  rewrite (run_layout _ _ _ (SetReferenceInstanceOffsets (bitmap_of sl (num_reference_instance_fields_ l2)) l2)) by apply lookup_insert_eq.
  change (class_size_ (SetReferenceInstanceOffsets _ l2)) with (class_size_ l1).
  assert (Ecs : class_size_ l1 = class_size_ l) by (unfold l1, linked_layout; by destruct (IsVariableSize env klass c)).
  rewrite Ecs. eexists. unfold whenM. destruct (negb (IsTemp c) || _) eqn:Eb; [|by rewrite bind_ret].
  rewrite run_checkM; [done|]. apply orb_true_iff in Eb as [Eb|Eb].
  - rewrite (Hsize (proj1 (negb_true_iff _) Eb)). apply Z.eqb_refl.
  - by apply andb_true_iff in Eb as [_ Eb].
Qed.

End Class.
Section Results.
Context `{sort : StdSort} `{!StdSortLaws sort}.

(** C11. Linking the fields of a class returns, and none of its checks fails,
    those of a debug build included.  Every field then lies between where the
    layout starts (the end of the super class, or of the tables of the class
    object) and the size that is stored, aligned to its size; no two fields
    overlap; the references fill the first aligned slots in the order of their
    indices, and are counted, without [Reference.referent]; at most seven bytes
    are lost to alignment; nothing but the offsets of these fields and the
    class changes. *)
Theorem field_layout_safe env klass is_static c l start s : linkable env klass is_static c l start s ->
  exists refs size h',
    LinkFields env klass is_static s =
      Ok (if is_static then Some size else None,
          mkLink h' (<[klass := linked_layout env klass c is_static (u32 (counted is_static c (length refs))) size l]> (lk_layouts s))) /\
    fields_linked start (fields_of is_static c) refs size (lk_heap s) h'.
Proof using StdSortLaws0.
  intros Hlk. destruct (LinkFields_ok env klass is_static c l start s Hlk) as (refs & _ & _ & _ & _ & size & h' & E & _ & Hl & _). eauto.
Qed.

(** The size of a class object is counted from the class data before the
    class is loaded, and computed again when its fields are laid out.  Both are
    [ComputeClassSize] of the same numbers of static fields: the first without
    the embedded tables, the second with the tables of the class if it is
    instantiable.  For a class that is not, which has no tables, the two are
    equal, so that the check of [LinkClass] holds; for an instantiable one no
    check fails, and the size that linking returns is the one for the copy that
    replaces the class. *)
Theorem class_size_agrees renv env le ins klass ly ms rest ar c s :
  members_wf ly ms -> le_is_aot_compiler le = false -> arrays_ok le ly ar s ->
  h_classes (heap_of s) !! klass = Some c -> IsProxyClass c = false -> 0 < le_class_data le klass ->
  drop (Z.to_nat (le_class_data le klass)) (le_memory le (mc_dex_file c)) = class_bytes ly ms ++ rest ->
  (forall k, (k < ly_static ly)%nat -> countable (descriptor_at le (mc_dex_file c) ms k)) ->
  (forall k, (ly_static ly <= k < ly_fields ly)%nat ->
     GetTypeAsPrimitiveType (desc_field (descriptor_at le (mc_dex_file c) ms k)) <> Primitive.kPrimVoid) ->
  image_pointer_size_ env = 4 \/ image_pointer_size_ env = 8 -> kIsDebugBuild env = false -> is_Reference c = false -> klass <> 0 ->
  exists n size s1,
    size = ComputeClassSize false 0 (num_8 n) (num_16 n) (num_32 n) (num_64 n) (num_ref n) (image_pointer_size_ env) /\
    SizeOfClassWithoutEmbeddedTables env le (mc_dex_file c) klass s = Ok (size, s) /\
    LoadClass renv le ins klass s = Ok (tt, s1) /\
    let h1 := heap_of (with_status klass kStatusLoaded s1) in
    forall layouts l sc sl,
      layouts !! klass = Some l -> class_size_ l = size -> object_size_ l = 0 ->
      GetFirstReferenceStaticFieldOffsetDuringLinking env c l + 16 * Z.of_nat (ly_static ly) + 16 < 2 ^ 32 ->
      super_class_ l <> 0 -> super_class_ l <> klass -> h_classes h1 !! super_class_ l = Some sc -> IsResolved sc = true ->
      layouts !! super_class_ l = Some sl -> 0 <= object_size_ sl ->
      object_size_ sl + 16 * Z.of_nat (ly_instance ly) + 16 < 2 ^ 32 ->
      exists class_size s2,
        LinkClass_fields env klass (mkLink h1 layouts) = Ok (class_size, s2) /\
        class_size = ComputeClassSize (ShouldHaveEmbeddedImtAndVTable c) (vtable_length l) (num_8 n) (num_16 n) (num_32 n) (num_64 n)
          (num_ref n) (image_pointer_size_ env) /\
        (ShouldHaveEmbeddedImtAndVTable c = false -> class_size = size).
Proof using StdSortLaws0.
  intros Hwf Haot Har Hc Hpr Hptr Hd Hst Hin Hps Hdb Href Hk.
  destruct (LoadClass_ok renv le ins klass ly ms rest ar c s Hwf Haot Har Hc Hpr Hptr Hd) as (s1 & E & Hml).
  destruct (loaded_linking _ _ _ _ _ _ _ _ _ _ Hml) as (c1 & [L1 L2 (L3 & L4 & L5) L6 L7 L8]).
  set (h1 := heap_of (with_status klass kStatusLoaded s1)) in *. pose proof (ao_fields _ _ _ _ Har) as Hnd.
  assert (Hsl : length (sfield_addrs ly ar) = ly_static ly) by apply elements_length.
  assert (Hil : length (ifield_addrs ly ar) = ly_instance ly) by apply elements_length.
  assert (Hsize := SizeOfClass_ok le klass (mc_dex_file c) ly ms Hwf rest Hptr Hd Hst env s h1 (sfield_addrs ly ar) Hsl).
  cbv zeta in Hsize. rewrite Hsize; clear Hsize.
  2:{ intros k a Ha. eexists. split; [by apply L8, lookup_app_l_Some|done]. }
  exists (counts_of h1 (sfield_addrs ly ar)). eexists _, s1. split; [done|]. split; [done|]. split; [exact E|]. intros h1' layouts l sc sl Hl Hcs Hos Hroom Hs0 Hsk Hsc Hres Hsl' Hpos Hiroom.
  subst h1'. fold h1 in Hsc |- *.
  assert (Hnew : forall is_static p, p ∈ fields_of is_static c1 ->
            exists f, h_fields h1 !! p = Some f /\ GetTypeAsPrimitiveType f <> Primitive.kPrimVoid).
  { intros is_static p [k Hp]%list_elem_of_lookup. destruct is_static; cbn [fields_of] in Hp.
    - rewrite L6 in Hp. pose proof (lookup_lt_Some _ _ _ Hp). eexists. split; [by apply (L8 k), lookup_app_l_Some|].
      by destruct (count_field_ok _ (loaded_field le klass (mc_dex_file c) (member_at ms k)) (mkCounts 0 0 0 0 0) (Hst k ltac:(lia)) eq_refl).
    - rewrite L7 in Hp. pose proof (lookup_lt_Some _ _ _ Hp). eexists. split.
      + apply (L8 (length (sfield_addrs ly ar) + k)%nat). by rewrite lookup_app_r, Nat.add_comm, Nat.add_sub by lia.
      + apply (Hin (length (sfield_addrs ly ar) + k)%nat). unfold ly_fields. lia. }
  assert (Heq : GetFirstReferenceStaticFieldOffsetDuringLinking env c1 l = GetFirstReferenceStaticFieldOffsetDuringLinking env c l)
    by (unfold GetFirstReferenceStaticFieldOffsetDuringLinking, ShouldHaveEmbeddedImtAndVTable; by rewrite L3).
  assert (Href1 : is_Reference c1 = false) by (unfold is_Reference; by rewrite L4).
  assert (Hnd1 : NoDup (mc_sfields c1 ++ mc_ifields c1)) by (by rewrite L6, L7).
  destruct (LinkClass_fields_ok env klass c1 l sl (object_size_ sl) (GetFirstReferenceStaticFieldOffsetDuringLinking env c1 l)
              (mkLink h1 layouts)) as (s2 & E2); try done.
  - constructor; try done; try congruence; [by eapply starts_super|by apply NoDup_app in Hnd1 as (_ & _ & ?)|apply Hnew|]. cbn [fields_of]. rewrite L7. lia.
  - constructor; try done; try congruence; [by constructor|by apply NoDup_app in Hnd1 as [? _]|apply Hnew|]. cbn [fields_of]. rewrite L6, Heq. lia.
  - intros Ht. rewrite Hcs, L6. unfold computed_size. unfold IsTemp in Ht. rewrite L2 in Ht. cbn [Z.ltb] in Ht. cbn in Ht.
    by rewrite Ht.
  - eexists _, s2. split; [exact E2|]. unfold computed_size, ShouldHaveEmbeddedImtAndVTable in *. rewrite L3, L6. split; [done|]. by intros ->.
Qed.

(** C10. The collector visits, on an object of a class that has been linked,
    each reference that the class and its super classes declare, exactly once, and
    nothing else, through the bitmap of the class or, where it
    overflowed, by walking up the hierarchy; [Reference.referent] is left
    out, and the class word is visited if it is asked for.  Linking keeps the
    invariant that this rests on, so that the class can have subclasses. *)
Theorem collector_visits_references env klass c l start s ks sl :
  klass <> 0 -> linkable env klass false c l start s -> super_class_ l <> 0 ->
  chain s (super_class_ l :: ks) -> extensible s (super_class_ l :: ks) sl ->
  klass ∉ super_class_ l :: ks -> apart (lk_heap s) c (super_class_ l :: ks) ->
  (is_Reference c = true -> array_order (lk_heap s) true (mc_ifields c)) ->
  exists s' l',
    (LinkInstanceFields env klass ;; CreateReferenceInstanceOffsets klass) s = Ok (tt, s') /\
    (forall kVisitClass fuel, (length ks + 2 <= fuel)%nat ->
       exists visited, VisitInstanceFieldsReferences fuel kVisitClass klass s' = Ok (visited, s') /\
         visited ≡ₚ filter (seen kVisitClass) (own_slots (lk_heap s') c ++ all_slots (lk_heap s) (super_class_ l :: ks))) /\
    NoDup (own_slots (lk_heap s') c ++ all_slots (lk_heap s) (super_class_ l :: ks)) /\
    chain s' (klass :: super_class_ l :: ks) /\
    (IsVariableSize env klass c = false -> extensible s' (klass :: super_class_ l :: ks) l').
Proof using StdSortLaws0.
  intros Hk Hlk Hsup Hch Hext Hnew Hap Hord.
  destruct (link_chain env klass c l start s ks sl Hk Hlk Hsup Hch Hext Hnew Hap Hord) as (s' & refs & size & l' & E & _ & Hch' & Hall & Hext').
  exists s', l'. split; [exact E|]. rewrite <- Hall. split; [|split; [by apply chain_slots|by split]].
  intros b fuel Hfuel. apply instance_visit_ok; [done|]. cbn. lia.
Qed.

End Results.

(** The collector visits the static references of a class that has been linked,
    where its embedded tables have the length they were linked with. *)
Lemma static_references_visited `{!StdSort} `{!StdSortLaws _} b env klass c l start s :
  klass <> 0 -> linkable env klass true c l start s -> embedded_vtable_length l = vtable_length l -> 0 < start ->
  exists size s' slots,
    LinkStaticFields env klass s = Ok (size, s') /\
    VisitStaticFieldsReferences env b klass s' = Ok (slots, s') /\ slots ≡ₚ own_static_slots (lk_heap s') c.
Proof.
  intros Hk Hlk Hvt Hpos. destruct (LinkStaticFields_ok env klass c l start s Hk Hlk) as (refs & h' & E & Hl).
  pose proof (own_static_linked _ _ _ _ _ _ _ _ _ Hlk Hl) as Hown. pose proof (lb_room _ _ _ _ _ _ _ Hlk) as Hroom.
  pose proof (lb_start _ _ _ _ _ _ _ Hlk) as Hst. inversion Hst as [Hps Hflag Hstart| |]. subst start.
  assert (Hlen : (length refs <= length (mc_sfields c))%nat).
  { rewrite (Permutation_length (linked_refs_filter _ _ _ _ _ _ Hl (lb_nodup _ _ _ _ _ _ _ Hlk))). apply length_filter. }
  cbn [fields_of] in Hroom. eexists _, _, _. split; [exact E|]. split; [|symmetry; exact Hown].
  apply (static_visit_ok b env klass c (SetNumReferenceStaticFields (u32 (Z.of_nat (length refs))) l)); try done.
  - rewrite (fl_frame _ _ _ _ _ _ Hl). cbn. apply Hlk.
  - apply lookup_insert_eq.
  - cbn. apply u32_small. lia.
  - change (GetFirstReferenceStaticFieldOffsetDuringLinking env c (SetNumReferenceStaticFields _ l))
      with (GetFirstReferenceStaticFieldOffsetDuringLinking env c l). lia.
Qed.

(** ** Concrete classes *)

(** [java.lang.Object]; a class with two references, a long and a byte; and a
    class with a long and an int whose super class ends at an odd offset. *)
Definition object_class : Class_ :=
  mkClass kStatusInitialized kAccPublic 0 kPrimNot "Ljava/lang/Object;" 50 [] [] [800; 816] [].
Definition a_class : Class_ := mkClass kStatusLoaded kAccPublic 0 kPrimNot "LA;" 50 [] [] [900; 916; 932; 948] [].
Definition odd_class : Class_ := mkClass kStatusInitialized kAccPublic 0 kPrimNot "LOdd;" 50 [] [] [1000] [].
Definition b_class : Class_ := mkClass kStatusLoaded kAccPublic 0 kPrimNot "LB;" 50 [] [] [1100; 1116] [].

Definition link_fields : gmap Z ArtField :=
  list_to_map
    [(800, mkArtField 8 0 "shadow$_klass_" "Ljava/lang/Class;" 1 0);
     (816, mkArtField 8 0 "shadow$_monitor_" "I" 2 4);
     (900, mkArtField 100 0 "a" "Ljava/lang/String;" 3 0);
     (916, mkArtField 100 0 "b" "J" 4 0);
     (932, mkArtField 100 0 "c" "[I" 5 0);
     (948, mkArtField 100 0 "d" "B" 6 0);
     (1000, mkArtField 200 0 "e" "B" 7 8);
     (1100, mkArtField 300 0 "f" "I" 8 0);
     (1116, mkArtField 300 0 "g" "J" 9 0)].

Definition link_heap : Heap :=
  mkHeap ∅ link_fields (list_to_map [(8, object_class); (100, a_class); (200, odd_class); (300, b_class)]) ∅ [] [].

Definition object_layout : ClassLayout := mkClassLayout 0 0 8 1 0 0 11 11.
Definition new_layout (super : Z) : ClassLayout := mkClassLayout super 0 0 0 0 0 11 11.

Definition link_state : LinkState :=
  mkLink link_heap (list_to_map
    [(8, object_layout); (100, new_layout 8); (200, mkClassLayout 8 0 9 0 0 0 11 11); (300, new_layout 200)]).

Definition link_env : LinkEnv := mkLinkEnv 4 1 true true.

Lemma a_array_order : array_order link_heap false [900; 916; 932; 948].
Proof.
  constructor.
  - intros i p q Hp Hq. do 4 (destruct i as [|i]; [cbn in Hp, Hq; simplify_eq; by vm_compute|]). done.
  - repeat constructor.
  - intros i p _ H. done.
Qed.

Lemma a_linkable : linkable link_env 100 false a_class (new_layout 8) 8 link_state.
Proof.
  constructor; try done.
  - by apply (starts_super link_env a_class (new_layout 8) link_state object_class object_layout).
  - apply (bool_decide_eq_true_1 _). by vm_compute.
  - intros p Hp. cbn in Hp. repeat (apply elem_of_cons in Hp as [->|Hp]; [eexists; split; [reflexivity|by vm_compute]|]).
    by apply not_elem_of_nil in Hp.
  - intros _. split; [apply a_array_order|done].
Qed.

(** The long is put at the end, the byte in front of it. *)
Lemma field_layout_safe_witness :
  exists refs size h',
    LinkFields link_env 100 false link_state =
      Ok (None, mkLink h' (<[100 := linked_layout link_env 100 a_class false (u32 (counted false a_class (length refs))) size
                                      (new_layout 8)]> (lk_layouts link_state))) /\
    fields_linked 8 [900; 916; 932; 948] refs size link_heap h' /\
    (af_offset <$> h_fields h' !! 900) = Some 8 /\ (af_offset <$> h_fields h' !! 932) = Some 12 /\
    (af_offset <$> h_fields h' !! 916) = Some 16 /\ (af_offset <$> h_fields h' !! 948) = Some 24.
Proof.
  destruct (field_layout_safe link_env 100 false a_class (new_layout 8) 8 link_state a_linkable) as (refs & size & h' & E & Hl).
  exists refs, size, h'. split; [exact E|]. split; [exact Hl|]. clear Hl.
  destruct (LinkFields link_env 100 false link_state) as [[r s']|] eqn:E'; [|discriminate E].
  injection E as _ Es. assert (Hh : h' = lk_heap s') by (by rewrite Es). rewrite Hh. clear Es Hh. vm_compute in E'. injection E' as _ <-.
  split; [reflexivity|]. split; [reflexivity|]. split; reflexivity.
Defined.

Lemma object_chain : chain link_state [8].
Proof. apply (chain_Object link_state 8 object_layout); try done; by eexists. Qed.

Lemma collector_visits_references_witness :
  exists s' visited,
    (LinkInstanceFields link_env 100 ;; CreateReferenceInstanceOffsets 100) link_state = Ok (tt, s') /\
    VisitInstanceFieldsReferences 2 true 100 s' = Ok (visited, s') /\ visited ≡ₚ [0; 8; 12].
Proof.
  destruct (collector_visits_references link_env 100 a_class (new_layout 8) 8 link_state [] object_layout)
    as (s' & l' & E & Hv & _).
  - done.
  - apply a_linkable.
  - done.
  - apply object_chain.
  - split; [by exists 8, []|]. split; [done|]. intros x [->|?%not_elem_of_nil]%elem_of_cons; done.
  - apply (bool_decide_eq_true_1 _). by vm_compute.
  - intros k p [->|?%not_elem_of_nil]%elem_of_cons Hp; [|done].
    repeat (apply elem_of_cons in Hp as [->|Hp]; [apply (bool_decide_eq_true_1 _); by vm_compute|]). by apply not_elem_of_nil in Hp.
  - done.
  - destruct (Hv true 2%nat ltac:(done)) as (visited & E2 & Hp). exists s', visited. split; [exact E|]. split; [exact E2|].
    rewrite Hp. vm_compute in E. injection E as <-. apply (bool_decide_eq_true_1 _). by vm_compute.
Defined.

(** The queue of gaps is ordered the other way round than the comments say: its
    top is a smallest gap.  A class with an int and a long whose super class
    ends at offset 9 has a free gap of four bytes at offset 12, behind smaller
    ones; the int is put at the end, and an object has 28 bytes instead of 24. *)
Lemma gap_left_unused :
  (forall gaps t rest, top_pop gaps = Some (t, rest) -> Forall (fun g => gap_size t <= gap_size g) gaps) /\
  exists s', LinkInstanceFields (mkLinkEnv 4 1 true false) 300 link_state = Ok (tt, s') /\
    (object_size_ <$> lk_layouts s' !! 300) = Some 28 /\
    (af_offset <$> h_fields (lk_heap s') !! 1116) = Some 16 /\ (af_offset <$> h_fields (lk_heap s') !! 1100) = Some 24.
Proof.
  split.
  - intros [|g gaps] t rest; [done|]. cbn [top_pop]. intros [= E]. destruct (extract_smallest _ _ _ _ E) as [Hg Hr].
    rewrite <- (extract_perm _ _ _ _ E). constructor; [lia|done].
  - destruct (LinkInstanceFields _ 300 link_state) as [[[] s']|] eqn:E; [|by vm_compute in E]. exists s'.
    split; [done|]. vm_compute in E. injection E as <-. split; [reflexivity|]. split; reflexivity.
Qed.

(** An interface with static fields of several sizes, before it is loaded. *)
Definition size_layout : Layout := mkLayout 4 0 1 0.
Definition size_members : list Member :=
  [mkMember 20 kAccStatic 0; mkMember 21 kAccStatic 0; mkMember 22 kAccStatic 0; mkMember 23 kAccStatic 0;
   mkMember 301 kAccStatic 4200].

Definition size_load_env : LoadEnv :=
  mkLoadEnv (fun _ => 0 :: class_bytes size_layout size_members) (fun _ => 1)
    (fun _ idx => match idx with 20 => ("a", "Ljava/lang/String;") | 21 => ("b", "J") | 22 => ("c", "S") | _ => ("d", "Z") end%string)
    (fun _ => load_method_id) (fun _ => "I.java"%string) (fun _ => true) (fun _ => 77) (fun _ => None) false true 48.

Definition size_class : Class_ :=
  mkClass 1 (Z.lor kAccInterface kAccAbstract) 0 kPrimNot "LI;" 50 [] [] [] [].

Definition size_state : LoadState :=
  mkLoad (mkCodeState (mkHeap ∅ ∅ (list_to_map [(100, size_class); (8, object_class)]) {[ 50 := load_dex ]} [100] []) None)
    ∅ ∅ [1000; 5000].

Lemma size_members_wf : members_wf size_layout size_members.
Proof.
  constructor; [done|done|..]; intros p m Hm.
  all: do 5 (destruct p as [|p]; [cbn in Hm; simplify_eq; vm_compute; repeat split; done|]).
  all: done.
Qed.

Lemma class_size_agrees_witness :
  exists size s1,
    SizeOfClassWithoutEmbeddedTables (mkLinkEnv 4 1 true false) size_load_env 50 100 size_state = Ok (size, size_state) /\
    LoadClass load_runtime size_load_env Instrumentation_new 100 size_state = Ok (tt, s1) /\ size = 152 /\
    exists s2,
      LinkClass_fields (mkLinkEnv 4 1 true false) 100
        (mkLink (heap_of (with_status 100 kStatusLoaded s1))
           (list_to_map [(8, object_layout); (100, mkClassLayout 8 size 0 0 0 0 0 0)])) = Ok (size, s2).
Proof.
  destruct (class_size_agrees load_runtime (mkLinkEnv 4 1 true false) size_load_env Instrumentation_new 100 size_layout
              size_members [] (mkArrays 1000 1 5000 2) size_class size_state) as (n & size & s1 & _ & E1 & E2 & H).
  - apply size_members_wf.
  - reflexivity.
  - constructor; [by exists []|done|..]; apply (bool_decide_eq_true_1 _); by vm_compute.
  - reflexivity.
  - reflexivity.
  - reflexivity.
  - by rewrite app_nil_r.
  - intros k Hk. apply (bool_decide_eq_true_1 _). do 4 (destruct k as [|k]; [by vm_compute|]). unfold size_layout in Hk. cbn in Hk. lia.
  - intros k Hk. unfold ly_fields, size_layout in Hk. cbn in Hk. lia.
  - by left.
  - reflexivity.
  - reflexivity.
  - lia.
  - exists size, s1. split; [exact E1|]. split; [exact E2|].
    assert (Hsz : size = 152) by (vm_compute in E1; congruence). split; [exact Hsz|].
    destruct (H (list_to_map [(8, object_layout); (100, mkClassLayout 8 size 0 0 0 0 0 0)]) (mkClassLayout 8 size 0 0 0 0 0 0)
                object_class object_layout) as (class_size & s2 & E3 & _ & Hs);
      [done|done|done|by vm_compute|done|done| |done|done|done|done|].
    + vm_compute in E2. injection E2 as <-. reflexivity.
    + exists s2. rewrite (Hs eq_refl) in E3. exact E3.
Defined.
