(* ===== verification/HashSet.v ===== *)
(** * [base/hash_set.h]: the open-addressing hash set of the runtime

    [HashSet] keeps its elements in an array of slots and resolves collisions
    by linear probing; an erased slot is refilled by moving later elements
    back.  The class table and the intern tables of the runtime are such sets.

    The element type comes with the functors of the template: [IsEmpty] and
    [MakeEmpty] ([EmptyFn]), [hashfn] ([HashFn]), and for a type of keys the
    hash of a key and [pred] ([Pred]).  They are classes, [SlotOps] and
    [KeyOps], with the laws the header relies on, [SlotLaws] and [KeyLaws].

    A loop that the code writes [while (true)] has as much fuel as the table
    has slots; [OutOfFuel] then means that the loop goes round the table
    without ever finding the empty slot it waits for, so it never ends.  The
    theorems show that this does not happen on a table that [wf] holds of.

    The set is shown to refine a multiset ([run_refines]); [Verify] is shown to
    decide the probing invariant; the written table is shown to be read back;
    and [ShrinkToMaximumLoad] is shown to leave a table on which [Find] does
    not return. *)

From S2P Require Import Prelude.

(** ** Doubles

    The load factors are [double]s.  A positive double is a mantissa and a
    binary exponent; the mantissa of a number other than zero has 53 bits.
    Results are rounded to nearest, ties to even. *)

Record double := Double { d_mant : Z; d_exp : Z }.

Definition round_double (n e : Z) : double :=
  if n =? 0 then Double 0 0
  else
    let s := Z.log2 n - 52 in
    if s <=? 0 then Double (n * 2 ^ (- s)) (e + s)
    else
      let q := n / 2 ^ s in
      let r := n mod 2 ^ s in
      let q := if (2 ^ (s - 1) <? r) || ((r =? 2 ^ (s - 1)) && Z.odd q) then q + 1 else q in
      if q =? 2 ^ 53 then Double (2 ^ 52) (e + s + 1) else Double q (e + s).

(** [static_cast<double>(n)] of a [size_t]. *)
Definition double_of_size (n : Z) : double := round_double n 0.

Definition double_mul (a b : double) : double :=
  round_double (d_mant a * d_mant b) (d_exp a + d_exp b).

(** The quotient is computed to 128 bits and a sticky bit before it is
    rounded. *)
Definition double_div (a b : double) : double :=
  let n := d_mant a * 2 ^ 128 in
  let sticky := if n mod d_mant b =? 0 then 0 else 1 in
  round_double (2 * (n / d_mant b) + sticky) (d_exp a - d_exp b - 129).

(** [static_cast<size_t>(d)]: truncation. *)
Definition size_of_double (d : double) : Z :=
  if d_exp d <? 0 then d_mant d / 2 ^ (- d_exp d) else d_mant d * 2 ^ d_exp d.

(** The bytes of a positive double: the exponent is biased by 1023 and the
    leading bit of the mantissa is not stored. *)
Definition double_bits (d : double) : Z :=
  if d_mant d =? 0 then 0 else (d_exp d + 1075) * 2 ^ 52 + (d_mant d - 2 ^ 52).

Definition double_of_bits (b : Z) : double :=
  if b =? 0 then Double 0 0 else Double (b mod 2 ^ 52 + 2 ^ 52) (b / 2 ^ 52 - 1075).

Definition kDefaultMinLoadFactor : double := Double (2 ^ 52) (-53).
Definition kDefaultMaxLoadFactor : double := Double 8106479329266893 (-53).
Definition kMinBuckets : Z := 1000.

(** ** The functors of the template *)

Class SlotOps (T : Type) := {
  (** [T()] *)
  default_item : T;
  (** [EmptyFn] *)
  MakeEmpty : T -> T;
  IsEmpty : T -> bool;
  (** [HashFn] *)
  hashfn : T -> Z;
}.

Class SlotLaws (T : Type) `{SlotOps T} := {
  make_empty_empty : forall x : T, IsEmpty (MakeEmpty x) = true;
  hashfn_size : forall x : T, 0 <= hashfn x < 2 ^ 64;
}.

Class KeyOps (T K : Type) := {
  (** [HashFn] on a key *)
  hashkey : K -> Z;
  (** [Pred] *)
  pred : T -> K -> bool;
}.

Class KeyLaws (T K : Type) `{SlotOps T, KeyOps T K} := {
  pred_hash : forall (x : T) (k : K), pred x k = true -> hashfn x = hashkey k;
}.

Record HashSet (T : Type) := {
  num_elements_ : Z;
  num_buckets_ : Z;
  elements_until_expand_ : Z;
  owns_data_ : bool;
  data_ : list T;
  min_load_factor_ : double;
  max_load_factor_ : double;
}.
Arguments num_elements_ {T} _.
Arguments num_buckets_ {T} _.
Arguments elements_until_expand_ {T} _.
Arguments owns_data_ {T} _.
Arguments data_ {T} _.
Arguments min_load_factor_ {T} _.
Arguments max_load_factor_ {T} _.
Arguments Build_HashSet {T}.

Section Operations.
Context {T : Type} `{SlotOps T}.

#[local] Abbreviation set := (HashSet T).

Definition with_data (h : set) (data : list T) : set :=
  Build_HashSet (num_elements_ h) (num_buckets_ h) (elements_until_expand_ h) (owns_data_ h) data
    (min_load_factor_ h) (max_load_factor_ h).

Definition with_num_elements (h : set) (n : Z) : set :=
  Build_HashSet n (num_buckets_ h) (elements_until_expand_ h) (owns_data_ h) (data_ h)
    (min_load_factor_ h) (max_load_factor_ h).

Definition with_elements_until_expand (h : set) (n : Z) : set :=
  Build_HashSet (num_elements_ h) (num_buckets_ h) n (owns_data_ h) (data_ h)
    (min_load_factor_ h) (max_load_factor_ h).

Definition NumBuckets (h : set) : Z := num_buckets_ h.

Definition Size (h : set) : Z := num_elements_ h.

Definition Empty (h : set) : bool := Size h =? 0.

(** [data_[index]]. *)
Definition slot_at (data : list T) (index : Z) : outcome T :=
  if 0 <=? index then
    match data !! Z.to_nat index with Some x => Ok x | None => Fault OutOfBounds end
  else Fault OutOfBounds.

(** [data_[index] = x]. *)
Definition set_slot (data : list T) (index : Z) (x : T) : outcome (list T) :=
  if (0 <=? index) && (index <? Z.of_nat (length data))
  then Ok (<[Z.to_nat index := x]> data) else Fault OutOfBounds.

Definition ElementForIndex (h : set) (index : Z) : outcome T := slot_at (data_ h) index.

Definition IsFreeSlot (h : set) (index : Z) : outcome bool :=
  x ← ElementForIndex h index; mret (IsEmpty x).

Definition IndexForHash (h : set) (hash : Z) : outcome Z :=
  if num_buckets_ h =? 0 then Fault DivisionByZero else Ok (hash mod num_buckets_ h).

Definition NextIndex (h : set) (index : Z) : Z :=
  let index := index + 1 in
  if num_buckets_ h <=? index then 0 else index.

Definition AllocateStorage (h : set) (num_buckets : Z) : set :=
  Build_HashSet (num_elements_ h) num_buckets (elements_until_expand_ h) true
    (replicate (Z.to_nat num_buckets) (MakeEmpty default_item))
    (min_load_factor_ h) (max_load_factor_ h).

Definition DeallocateStorage (h : set) : set :=
  if num_buckets_ h =? 0 then h
  else Build_HashSet (num_elements_ h) 0 (elements_until_expand_ h) false []
         (min_load_factor_ h) (max_load_factor_ h).

Definition Clear (h : set) : set :=
  with_elements_until_expand (with_num_elements (AllocateStorage (DeallocateStorage h) 1) 0) 0.

(** [HashSet()]. *)
Definition HashSet_new : set :=
  Clear (Build_HashSet 0 0 0 false [] kDefaultMinLoadFactor kDefaultMaxLoadFactor).

(** The number of rounds after which a loop over the slots has seen all of
    them. *)
Definition slots_fuel (h : set) : nat := S (length (data_ h)).

(** *** Iterators *)

Fixpoint NextNonEmptySlot_loop (fuel : nat) (h : set) (index : Z) : outcome Z :=
  match fuel with
  | O => Fault OutOfFuel
  | S fuel =>
      let index := index + 1 in
      if index <? NumBuckets h then
        free ← IsFreeSlot h index;
        if (free : bool) then NextNonEmptySlot_loop fuel h index else mret index
      else mret index
  end.

Definition NextNonEmptySlot (h : set) (index : Z) : outcome Z :=
  NextNonEmptySlot_loop (slots_fuel h) h index.

Definition begin_ (h : set) : outcome Z :=
  if num_buckets_ h =? 0 then mret 0
  else free ← IsFreeSlot h 0;
       if (free : bool) then NextNonEmptySlot h 0 else mret 0.

Definition end_ (h : set) : Z := NumBuckets h.

(** A range-for over the set: what it visits. *)
Fixpoint iterate_loop (fuel : nat) (h : set) (it : Z) : outcome (list T) :=
  match fuel with
  | O => Fault OutOfFuel
  | S fuel =>
      if it =? end_ h then mret []
      else x ← ElementForIndex h it;
           it ← NextNonEmptySlot h it;
           xs ← iterate_loop fuel h it;
           mret (x :: xs)
  end.

Definition iterate (h : set) : outcome (list T) :=
  it ← begin_ h; iterate_loop (slots_fuel h) h it.

(** *** Insertion *)

Fixpoint FirstAvailableSlot_loop (fuel : nat) (h : set) (index : Z) : outcome Z :=
  match fuel with
  | O => Fault OutOfFuel
  | S fuel =>
      x ← slot_at (data_ h) index;
      if IsEmpty x then mret index else FirstAvailableSlot_loop fuel h (NextIndex h index)
  end.

Definition FirstAvailableSlot (h : set) (index : Z) : outcome Z :=
  FirstAvailableSlot_loop (slots_fuel h) h index.

(** The body of the loop of [Resize] for one old slot. *)
Definition Resize_slot (h : set) (element : T) : outcome set :=
  if IsEmpty element then mret h
  else
    index ← IndexForHash h (hashfn element);
    slot ← FirstAvailableSlot h index;
    data ← set_slot (data_ h) slot element;
    mret (with_data h data).

Fixpoint Resize_loop (h : set) (old_data : list T) : outcome set :=
  match old_data with
  | [] => mret h
  | element :: old_data => h ← Resize_slot h element; Resize_loop h old_data
  end.

Definition Resize (h : set) (new_size : Z) : outcome set :=
  let old_data := data_ h in
  Resize_loop (AllocateStorage h new_size) old_data.

Definition Expand (h : set) : outcome set :=
  let min_index := size_of_double (double_div (double_of_size (Size h)) (min_load_factor_ h)) in
  let min_index := if min_index <? kMinBuckets then kMinBuckets else min_index in
  h ← Resize h min_index;
  mret (with_elements_until_expand h
          (size_of_double (double_mul (double_of_size (NumBuckets h)) (max_load_factor_ h)))).

Definition InsertWithHash (h : set) (element : T) (hash : Z) : outcome set :=
  h ← (if elements_until_expand_ h <=? num_elements_ h then Expand h else mret h);
  ideal ← IndexForHash h hash;
  index ← FirstAvailableSlot h ideal;
  data ← set_slot (data_ h) index element;
  mret (with_num_elements (with_data h data) (num_elements_ h + 1)).

Definition Insert (h : set) (element : T) : outcome set :=
  InsertWithHash h element (hashfn element).

Definition ShrinkToMaximumLoad (h : set) : outcome set :=
  Resize h (size_of_double (double_div (double_of_size (Size h)) (max_load_factor_ h))).

(** *** Erasure *)

(** The loop of [HashSet_Erase]: the slots and whether the erased slot was filled. *)
Fixpoint Erase_loop (fuel : nat) (h : set) (empty_index next_index : Z) (filled : bool)
  : outcome (set * bool) :=
  match fuel with
  | O => Fault OutOfFuel
  | S fuel =>
      let next_index := NextIndex h next_index in
      next_element ← ElementForIndex h next_index;
      if IsEmpty next_element then
        x ← ElementForIndex h empty_index;
        data ← set_slot (data_ h) empty_index (MakeEmpty x);
        mret (with_data h data, filled)
      else
        next_ideal_index ← IndexForHash h (hashfn next_element);
        let unwrapped_next_index :=
          if next_index <? empty_index then next_index + NumBuckets h else next_index in
        let unwrapped_next_ideal_index :=
          if next_ideal_index <? empty_index then next_ideal_index + NumBuckets h
          else next_ideal_index in
        if (unwrapped_next_ideal_index <=? empty_index)
           || (unwrapped_next_index <? unwrapped_next_ideal_index) then
          data ← set_slot (data_ h) empty_index next_element;
          Erase_loop fuel (with_data h data) next_index next_index true
        else Erase_loop fuel h empty_index next_index filled
  end.

Definition HashSet_Erase (h : set) (it : Z) : outcome (set * Z) :=
  r ← Erase_loop (slots_fuel h) h it it false;
  let h := with_num_elements r.1 (u64 (num_elements_ r.1 - 1)) in
  it ← (if r.2 : bool then mret it else NextNonEmptySlot h it);
  mret (h, it).

(** *** Checks and statistics *)

(** One round of the loop of [Verify]: the element is taken out of its slot,
    the slot an insertion would choose is computed, and it is put back. *)
Definition Verify_slot (h : set) (i : Z) : outcome Z :=
  element ← slot_at (data_ h) i;
  if IsEmpty element then mret 0
  else
    data ← set_slot (data_ h) i (MakeEmpty default_item);
    ideal ← IndexForHash h (hashfn element);
    first_slot ← FirstAvailableSlot (with_data h data) ideal;
    mret (if i =? first_slot then 0 else 1).

Fixpoint Verify_loop (h : set) (slots : list Z) (errors : Z) : outcome Z :=
  match slots with
  | [] => mret errors
  | i :: slots => e ← Verify_slot h i; Verify_loop h slots (errors + e)
  end.

Definition Verify (h : set) : outcome Z :=
  Verify_loop h (seqZ 0 (num_buckets_ h)) 0.

Fixpoint TotalProbeDistance_loop (h : set) (slots : list Z) (total : Z) : outcome Z :=
  match slots with
  | [] => mret total
  | i :: slots =>
      element ← ElementForIndex h i;
      d ← (if IsEmpty element then mret 0
           else
             ideal_location ← IndexForHash h (hashfn element);
             mret (if i <? ideal_location then i + NumBuckets h - ideal_location
                   else i - ideal_location));
      TotalProbeDistance_loop h slots (total + d)
  end.

Definition TotalProbeDistance (h : set) : outcome Z :=
  TotalProbeDistance_loop h (seqZ 0 (NumBuckets h)) 0.

Definition CalculateLoadFactor (h : set) : double :=
  double_div (double_of_size (Size h)) (double_of_size (NumBuckets h)).

(** *** Copy and move *)

(** [operator=(const HashSet&)]; copying the slots one by one reads outside
    of [other]'s when it has fewer of them than buckets. *)
Definition copy_assign (h other : set) : outcome set :=
  let h := AllocateStorage (DeallocateStorage h) (NumBuckets other) in
  data ← mapM (slot_at (data_ other)) (seqZ 0 (num_buckets_ h));
  mret (Build_HashSet (num_elements_ other) (num_buckets_ h) (elements_until_expand_ other)
          (owns_data_ h) data (min_load_factor_ other) (max_load_factor_ other)).

(** [operator=(HashSet&&)] swaps the two sets. *)
Definition move_assign (h other : set) : set * set := (other, h).

(** *** Lookup *)

Context {K : Type} `{KeyOps T K}.

Fixpoint FindIndex_loop (fuel : nat) (h : set) (element : K) (index : Z) : outcome Z :=
  match fuel with
  | O => Fault OutOfFuel
  | S fuel =>
      slot ← ElementForIndex h index;
      if IsEmpty slot then mret (NumBuckets h)
      else if pred slot element then mret index
      else FindIndex_loop fuel h element (NextIndex h index)
  end.

Definition FindIndex (h : set) (element : K) (hash : Z) : outcome Z :=
  index ← IndexForHash h hash;
  FindIndex_loop (slots_fuel h) h element index.

Definition FindWithHash (h : set) (element : K) (hash : Z) : outcome Z :=
  FindIndex h element hash.

Definition Find (h : set) (element : K) : outcome Z := FindWithHash h element (hashkey element).

End Operations.

(** *** The table in memory

    [sizeof(T)] and the object representation of an element. *)

Class SlotBytes (T : Type) := {
  sizeof_item : nat;
  item_bytes : T -> list Z;
  item_of_bytes : list Z -> T;
}.

Class SlotBytesLaws (T : Type) `{SlotBytes T} := {
  item_bytes_length : forall x : T, length (item_bytes x) = sizeof_item;
}.

Section Memory.
Context {T : Type} `{SlotBytes T}.

(** [WriteToBytes]: nothing is stored when the pointer is null. *)
Definition WriteToBytes (ptr : option (list Z)) (offset : Z) (bytes : list Z)
  : outcome (option (list Z) * Z) :=
  ptr ← (match ptr with
         | None => mret None
         | Some mem => mem ← poke_all mem offset bytes; mret (Some mem)
         end);
  mret (ptr, offset + Z.of_nat (length bytes)).

Fixpoint WriteToMemory_loop (ptr : option (list Z)) (offset : Z) (data : list T)
  : outcome (option (list Z) * Z) :=
  match data with
  | [] => mret (ptr, offset)
  | x :: data =>
      r ← WriteToBytes ptr offset (item_bytes x);
      WriteToMemory_loop r.1 r.2 data
  end.

Definition WriteToMemory (h : HashSet T) (ptr : option (list Z)) : outcome (option (list Z) * Z) :=
  r ← WriteToBytes ptr 0 (le_bytes 8 (num_elements_ h));
  r ← WriteToBytes r.1 r.2 (le_bytes 8 (num_buckets_ h));
  r ← WriteToBytes r.1 r.2 (le_bytes 8 (elements_until_expand_ h));
  r ← WriteToBytes r.1 r.2 (le_bytes 8 (double_bits (min_load_factor_ h)));
  r ← WriteToBytes r.1 r.2 (le_bytes 8 (double_bits (max_load_factor_ h)));
  WriteToMemory_loop r.1 r.2 (data_ h).

(** The bytes of an object of [n] bytes at [offset], and the offset after it. *)
Definition ReadFromBytes (mem : list Z) (offset : Z) (n : nat) : outcome (list Z * Z) :=
  bytes ← mapM (peek mem) (seqZ offset (Z.of_nat n));
  mret (bytes, offset + Z.of_nat n).

Fixpoint ReadSlots_loop (mem : list Z) (offset : Z) (n : nat) : outcome (list T * Z) :=
  match n with
  | O => mret ([], offset)
  | S n =>
      r ← ReadFromBytes mem offset (sizeof_item (T := T));
      rest ← ReadSlots_loop mem r.2 n;
      mret (item_of_bytes r.1 :: rest.1, rest.2)
  end.

(** [HashSet(ptr, make_copy_of_data, read_count)]: the set and [*read_count].
    When the data is not copied the slots are the memory itself. *)
Definition HashSet_read (mem : list Z) (make_copy_of_data : bool) : outcome (HashSet T * Z) :=
  num_elements ← ReadFromBytes mem 0 8;
  num_buckets ← ReadFromBytes mem num_elements.2 8;
  _ ← check (le_value num_elements.1 <=? le_value num_buckets.1);
  elements_until_expand ← ReadFromBytes mem num_buckets.2 8;
  min_load_factor ← ReadFromBytes mem elements_until_expand.2 8;
  max_load_factor ← ReadFromBytes mem min_load_factor.2 8;
  slots ← ReadSlots_loop mem max_load_factor.2 (Z.to_nat (le_value num_buckets.1));
  mret (Build_HashSet (le_value num_elements.1) (le_value num_buckets.1)
          (le_value elements_until_expand.1) make_copy_of_data slots.1
          (double_of_bits (le_value min_load_factor.1))
          (double_of_bits (le_value max_load_factor.1)), slots.2).

End Memory.

(** ** Rounding *)

Lemma round_double_small n e :
  0 < n < 2 ^ 53 ->
  round_double n e = Double (n * 2 ^ (52 - Z.log2 n)) (e + (Z.log2 n - 52)).
Proof.
  intros Hn. unfold round_double. rewrite (proj2 (Z.eqb_neq n 0)) by lia.
  assert (Z.log2 n < 53) by (apply Z.log2_lt_pow2; lia).
  rewrite (proj2 (Z.leb_le _ _)) by lia. f_equal. do 2 f_equal. lia.
Qed.

(** A rounded number is within half a unit in the last place. *)
Lemma round_double_large n e :
  2 ^ 53 <= n -> exists m s, round_double n e = Double m (e + s) /\ 0 < s /\
    2 ^ 52 <= m /\ 2 ^ 53 * Z.abs (m * 2 ^ s - n) <= n.
Proof.
  intros Hn. unfold round_double. rewrite (proj2 (Z.eqb_neq n 0)) by lia.
  assert (53 <= Z.log2 n) by (apply Z.log2_le_pow2; lia).
  destruct (Z.log2_spec n) as [Hlo Hhi]; [lia|]. cbv zeta.
  remember (Z.log2 n - 52) as s eqn:Hs.
  replace (Z.log2 n) with (52 + s) in Hlo by lia.
  replace (Z.succ (Z.log2 n)) with (53 + s) in Hhi by lia.
  rewrite Z.pow_add_r in Hlo, Hhi by lia.
  rewrite (proj2 (Z.leb_gt _ _)) by lia.
  assert (2 ^ s = 2 * 2 ^ (s - 1)) as Hh.
  { replace s with (1 + (s - 1)) at 1 by lia. by rewrite Z.pow_add_r by lia. }
  assert (0 < 2 ^ (s - 1)) by (apply Z.pow_pos_nonneg; lia).
  pose proof (Z.div_mod n (2 ^ s)) as Hdm. pose proof (Z.mod_pos_bound n (2 ^ s)) as Hr.
  remember (n / 2 ^ s) as q eqn:Hq. remember (n mod 2 ^ s) as r eqn:Hr'.
  assert (2 ^ 52 <= q) by nia.
  set (q' := if _ || _ then q + 1 else q).
  assert (Z.abs (q' * 2 ^ s - n) <= 2 ^ (s - 1) /\ q <= q') as [Herr Hqq].
  { subst q'. destruct (Z.ltb_spec (2 ^ (s - 1)) r), (Z.eqb_spec r (2 ^ (s - 1))), (Z.odd q); cbn [orb andb]; nia. }
  destruct (Z.eqb_spec q' (2 ^ 53)) as [E|E].
  - exists (2 ^ 52), (s + 1). rewrite Z.add_assoc. split_and!; [done|lia|lia|].
    rewrite Z.pow_add_r by lia. rewrite E in Herr.
    replace (2 ^ 52 * (2 ^ s * 2 ^ 1)) with (2 ^ 53 * 2 ^ s) by lia. nia.
  - exists q', s. split_and!; [done|lia|lia|]. nia.
Qed.

(** Conversion to a double and truncation back are exact below 2^53. *)
Lemma double_of_size_exact n :
  0 < n < 2 ^ 53 -> exists m L, double_of_size n = Double m (L - 52) /\
    0 <= L < 53 /\ m = n * 2 ^ (52 - L) /\ 2 ^ 52 <= m < 2 ^ 53.
Proof.
  intros Hn. unfold double_of_size. rewrite round_double_small by lia.
  eexists _, (Z.log2 n). split_and!; [done|apply Z.log2_nonneg|apply Z.log2_lt_pow2; lia|done|..].
  all: destruct (Z.log2_spec n) as [Hlo Hhi]; [lia|].
  all: assert (0 <= Z.log2 n < 53) by (split; [apply Z.log2_nonneg | apply Z.log2_lt_pow2; lia]).
  all: remember (Z.log2 n) as L eqn:HL.
  all: assert (0 < 2 ^ (52 - L)) by (apply Z.pow_pos_nonneg; lia).
  - replace (2 ^ 52) with (2 ^ L * 2 ^ (52 - L)); [nia|]. rewrite <- Z.pow_add_r by lia. f_equal. lia.
  - replace (2 ^ 53) with (2 ^ (Z.succ L) * 2 ^ (52 - L)); [nia|]. rewrite <- Z.pow_add_r by lia. f_equal. lia.
Qed.

Lemma double_trunc_exact m e n : 0 <= m -> (0 <= e -> m * 2 ^ e = n) -> (e < 0 -> m = n * 2 ^ (- e)) ->
  size_of_double (Double m e) = n.
Proof.
  intros Hm H1 H2. unfold size_of_double. cbn [d_mant d_exp].
  destruct (Z.ltb_spec e 0); [|by apply H1]. rewrite H2 by done.
  apply Z.div_mul. apply Z.pow_nonzero; lia.
Qed.

(** Division by one half is exact: the number of buckets [Expand] asks for. *)
Lemma expand_min_index n :
  0 <= n < 2 ^ 52 ->
  size_of_double (double_div (double_of_size n) kDefaultMinLoadFactor) = 2 * n.
Proof.
  intros Hn. destruct (decide (n = 0)) as [->|Hn0]; [vm_compute; done|].
  destruct (double_of_size_exact n) as (m & L & -> & HL & Hm & Hmr); [lia|].
  unfold double_div. cbn [d_mant d_exp kDefaultMinLoadFactor].
  replace (m * 2 ^ 128) with (m * 2 ^ 76 * 2 ^ 52) by lia.
  rewrite Z.div_mul, Z.mod_mul by lia. cbn [Z.eqb].
  assert (Z.log2 (2 * (m * 2 ^ 76) + 0) = 129) as Hlog by (apply Z.log2_unique; lia).
  unfold round_double. rewrite Hlog. rewrite (proj2 (Z.eqb_neq _ _)) by lia.
  change (129 - 52) with 77. cbv zeta. change (77 <=? 0) with false. cbv iota.
  replace (2 * (m * 2 ^ 76) + 0) with (m * 2 ^ 77) by lia.
  rewrite Z.div_mul, Z.mod_mul by lia. change (2 ^ (77 - 1) <? 0) with false.
  change (0 =? 2 ^ (77 - 1)) with false. cbn [orb andb].
  rewrite (proj2 (Z.eqb_neq m _)) by lia.
  replace (L - 52 - -53 - 129 + 77) with (L - 51) by lia.
  apply double_trunc_exact; [lia|..]; intros He; subst m.
  - rewrite <- Z.mul_assoc, <- Z.pow_add_r by lia. replace (52 - L + (L - 51)) with 1 by lia. lia.
  - replace (52 - L) with (1 + - (L - 51)) by lia. rewrite Z.pow_add_r by lia. lia.
Qed.

(** Nine tenths, rounded and truncated, stay between one half and the whole. *)
Lemma expand_until b :
  1000 <= b < 2 ^ 51 ->
  b < 2 * size_of_double (double_mul (double_of_size b) kDefaultMaxLoadFactor) < 2 * b.
Proof.
  intros Hb. destruct (double_of_size_exact b) as (m & L & -> & HL & Hm & Hmr); [lia|].
  unfold double_mul. cbn [d_mant d_exp kDefaultMaxLoadFactor].
  destruct (round_double_large (m * 8106479329266893) (L - 52 + -53)) as (q & s & -> & Hs & Hq & Herr); [lia|].
  assert (L < 51) as HL'.
  { destruct (Z.le_gt_cases 51 L); [|lia]. exfalso.
    assert (2 ^ (52 - L) <= 2 ^ 1) by (apply Z.pow_le_mono_r; lia). nia. }
  assert (s < 55) as Hs'.
  { destruct (Z.le_gt_cases 55 s); [|lia]. exfalso.
    assert (2 ^ 55 <= 2 ^ s) by (apply Z.pow_le_mono_r; lia). nia. }
  unfold size_of_double. cbn [d_mant d_exp]. rewrite (proj2 (Z.ltb_lt _ _)) by lia.
  remember (- (L - 52 + -53 + s)) as E eqn:HE.
  assert (2 ^ E * 2 ^ s = 2 ^ 53 * 2 ^ (52 - L)) as HP
    by (rewrite <- !Z.pow_add_r by lia; f_equal; lia).
  assert (0 < 2 ^ (52 - L)) as Hw by (apply Z.pow_pos_nonneg; lia).
  assert (0 < 2 ^ s) by (apply Z.pow_pos_nonneg; lia).
  assert (0 < 2 ^ E) as HEp by (apply Z.pow_pos_nonneg; lia).
  pose proof (Z.div_mod q (2 ^ E)) as Hdm. pose proof (Z.mod_pos_bound q (2 ^ E) HEp) as Hr.
  remember (q / 2 ^ E) as t eqn:Ht. clear Ht.
  assert (t * (2 ^ 53 * 2 ^ (52 - L)) <= q * 2 ^ s < (t + 1) * (2 ^ 53 * 2 ^ (52 - L))) as Hq2
    by (rewrite <- HP; nia).
  remember (2 ^ (52 - L)) as w eqn:Hweq. clear Hweq HP.
  remember (q * 2 ^ s) as Q eqn:HQ. clear HQ Hdm Hr Hq.
  subst m.
  assert (t * 2 ^ 106 <= b * (8106479329266893 * (2 ^ 53 + 1))) by nia.
  assert (b * (8106479329266893 * (2 ^ 53 - 1)) < (t + 1) * 2 ^ 106) by nia.
  lia.
Qed.

(** ** Distances on the circle of slots *)

(** How many steps of [NextIndex] lead from [a] to [b] in a table of [n]. *)
Definition dist (n a b : Z) : Z := (b - a) mod n.

Section Circle.
Context (n : Z) (Hn : 0 < n).

Lemma dist_range a b : 0 <= dist n a b < n.
Proof. apply Z.mod_pos_bound. done. Qed.

Lemma dist_unique a b d q : 0 <= d < n -> b = a + d + n * q -> dist n a b = d.
Proof. intros Hd ->. unfold dist. symmetry. apply Z.mod_unique with q; lia. Qed.

Lemma dist_step a b : 0 <= b < n -> (a + dist n a b) mod n = b.
Proof.
  intros Hb. unfold dist. rewrite Zplus_mod_idemp_r. replace (a + (b - a)) with b by lia.
  by apply Z.mod_small.
Qed.

Lemma dist_walk a k : 0 <= k < n -> dist n a ((a + k) mod n) = k.
Proof.
  intros Hk. apply dist_unique with (- ((a + k) / n)); [done|]. pose proof (Z.div_mod (a + k) n). lia.
Qed.

Lemma dist_self a : dist n a a = 0.
Proof. apply dist_unique with 0; lia. Qed.

Lemma dist_zero a b : 0 <= a < n -> 0 <= b < n -> dist n a b = 0 -> a = b.
Proof. intros Ha Hb Hd. pose proof (dist_step a b Hb) as H. rewrite Hd, Z.add_0_r, Z.mod_small in H; lia. Qed.

(** A point passed on the way splits the way. *)
Lemma dist_split a b c : dist n a b <= dist n a c -> dist n a c = dist n a b + dist n b c.
Proof.
  intros Hle. pose proof (dist_range a b). pose proof (dist_range a c). pose proof (dist_range b c).
  unfold dist in *.
  pose proof (Z.div_mod (b - a) n). pose proof (Z.div_mod (c - a) n). pose proof (Z.div_mod (c - b) n).
  set (q1 := (b - a) / n) in *. set (q2 := (c - a) / n) in *. set (q3 := (c - b) / n) in *.
  assert (n * (q2 - q1 - q3) = (b - a) mod n + (c - b) mod n - (c - a) mod n) by lia.
  assert (-1 < q2 - q1 - q3 < 1) by nia. assert (q2 - q1 - q3 = 0) by lia. nia.
Qed.

Lemma dist_join a b c : dist n a b + dist n b c < n -> dist n a c = dist n a b + dist n b c.
Proof.
  intros Hlt. pose proof (dist_range a b). pose proof (dist_range b c).
  apply dist_unique with ((b - a) / n + (c - b) / n); [lia|]. unfold dist.
  pose proof (Z.div_mod (b - a) n). pose proof (Z.div_mod (c - b) n). lia.
Qed.

End Circle.

(** ** The slots *)

Section Slots.
Context {T : Type} `{SlotLaws T}.

#[local] Abbreviation set := (HashSet T).
Implicit Types (h : set) (data : list T) (x : T) (i n : Z).

(** The slot [i] holds an element. *)
Definition full data i : bool :=
  match data !! Z.to_nat i with Some x => negb (IsEmpty x) | None => false end.

(** What the set holds, in the order of the slots. *)
Definition elements (data : list T) : list T := filter (fun x => IsEmpty x = false) data.

(** The invariant [HashSet_Erase] relies on: "there's no empty slots from the 'ideal'
    index of an element to its actual location".  [but] is a slot exempt from
    it. *)
Definition slot_reachable (n : Z) (data : list T) (j : Z) (x : T) : Prop :=
  forall k, 0 <= k < dist n (hashfn x mod n) j -> full data ((hashfn x mod n + k) mod n) = true.

Definition probe_inv (n : Z) (data : list T) (but : Z -> Prop) : Prop :=
  forall j x, 0 <= j < n -> ~ but j -> data !! Z.to_nat j = Some x -> IsEmpty x = false ->
  slot_reachable n data j x.

Lemma slot_at_ok data i x : 0 <= i -> data !! Z.to_nat i = Some x -> slot_at data i = Ok x.
Proof. intros Hi Hx. unfold slot_at. by rewrite (proj2 (Z.leb_le _ _)), Hx. Qed.

Lemma set_slot_ok data i x :
  0 <= i < Z.of_nat (length data) -> set_slot data i x = Ok (<[Z.to_nat i := x]> data).
Proof. intros [??]. unfold set_slot. by rewrite (proj2 (Z.leb_le _ _)), (proj2 (Z.ltb_lt _ _)). Qed.

Lemma slot_lookup data i : 0 <= i < Z.of_nat (length data) -> exists x, data !! Z.to_nat i = Some x.
Proof. intros Hi. apply lookup_lt_is_Some. lia. Qed.

Lemma full_lookup data i : full data i = true <-> exists x, data !! Z.to_nat i = Some x /\ IsEmpty x = false.
Proof.
  unfold full. destruct (data !! Z.to_nat i) as [x|]; [rewrite negb_true_iff|]; naive_solver.
Qed.

Lemma full_insert data i j x :
  0 <= i < Z.of_nat (length data) -> 0 <= j ->
  full (<[Z.to_nat i := x]> data) j = if decide (j = i) then negb (IsEmpty x) else full data j.
Proof.
  intros Hi Hj. unfold full. destruct (decide (j = i)) as [->|Hne].
  - rewrite list_lookup_insert_eq by lia. done.
  - rewrite list_lookup_insert_ne by lia. done.
Qed.

Lemma NextIndex_step h i :
  0 <= i < num_buckets_ h -> NextIndex h i = (i + 1) mod num_buckets_ h.
Proof.
  intros Hi. unfold NextIndex. destruct (Z.leb_spec (num_buckets_ h) (i + 1)).
  - replace (i + 1) with (num_buckets_ h) by lia. by rewrite Z.mod_same by lia.
  - by rewrite Z.mod_small by lia.
Qed.

Lemma NextIndex_walk h a k :
  0 < num_buckets_ h ->
  NextIndex h ((a + k) mod num_buckets_ h) = (a + (k + 1)) mod num_buckets_ h.
Proof.
  intros Hn. rewrite NextIndex_step by (apply Z.mod_pos_bound; done).
  rewrite Zplus_mod_idemp_l. f_equal. lia.
Qed.

(** *** Elements under updates *)

Lemma elements_insert data (p : nat) x y :
  data !! p = Some y -> IsEmpty y = true -> IsEmpty x = false ->
  elements (<[p := x]> data) ≡ₚ x :: elements data.
Proof.
  intros Hi Hy Hx. pose proof (lookup_lt_Some _ _ _ Hi).
  rewrite <- (take_drop_middle _ _ _ Hi) at 2.
  rewrite insert_take_drop by done. unfold elements. rewrite !filter_app.
  rewrite !filter_cons, decide_True, decide_False by (rewrite ?Hy; done).
  by rewrite <- Permutation_middle.
Qed.

Lemma elements_remove data (p : nat) x y :
  data !! p = Some x -> IsEmpty x = false -> IsEmpty y = true ->
  elements data ≡ₚ x :: elements (<[p := y]> data).
Proof.
  intros Hi Hx Hy. pose proof (lookup_lt_Some _ _ _ Hi).
  rewrite <- (elements_insert (<[p:=y]> data) p x y);
    [|by apply list_lookup_insert_eq|done..].
  by rewrite list_insert_insert_eq, list_insert_id.
Qed.

Lemma elements_replicate k x : IsEmpty x = true -> elements (replicate k x) = [].
Proof.
  intros Hx. induction k as [|k IH]; [done|]. cbn [replicate]. unfold elements in *.
  by rewrite filter_cons, decide_False by (rewrite Hx; done).
Qed.

Lemma elem_of_elements data x : x ∈ elements data <-> IsEmpty x = false /\ x ∈ data.
Proof. unfold elements. by rewrite list_elem_of_filter. Qed.

(** A table that holds fewer elements than it has slots has an empty slot. *)
Lemma empty_slot data : (length (elements data) < length data)%nat ->
  exists (p : nat) x, data !! p = Some x /\ IsEmpty x = true.
Proof.
  induction data as [|y data IH]; cbn [length]; [lia|]. unfold elements in *. rewrite filter_cons.
  destruct (IsEmpty y) eqn:Hy.
  - intros _. by exists O, y.
  - rewrite decide_True by done. cbn [length]. intros Hlt.
    destruct IH as (i & x & ?); [lia|]. by exists (S i), x.
Qed.

(** Walking from [a] one meets an empty slot, and the slots before it are
    full. *)
Lemma first_empty n data a :
  0 < n -> Z.of_nat (length data) = n -> (length (elements data) < length data)%nat ->
  exists d, 0 <= d < n /\ full data ((a + d) mod n) = false /\
    forall k, 0 <= k < d -> full data ((a + k) mod n) = true.
Proof.
  intros Hn Hlen Hlt. destruct (empty_slot data Hlt) as (i & x & Hi & Hx).
  pose proof (lookup_lt_Some _ _ _ Hi).
  assert (exists d : nat, full data ((a + Z.of_nat d) mod n) = false /\ Z.of_nat d < n) as Hex.
  { exists (Z.to_nat (dist n a (Z.of_nat i))). pose proof (dist_range n Hn a (Z.of_nat i)).
    split; [|lia]. rewrite Z2Nat.id, dist_step by lia. unfold full. by rewrite Nat2Z.id, Hi, Hx. }
  destruct Hex as (d & Hd & Hdn). revert Hd Hdn.
  induction d as [d IH] using lt_wf_ind. intros Hd Hdn.
  destruct (decide (Forall (fun k => full data ((a + Z.of_nat k) mod n) = true) (seq 0 d))) as [Hall|Hnot].
  - exists (Z.of_nat d). split_and!; [lia|lia|done|]. intros k Hk.
    rewrite Forall_forall in Hall. rewrite <- (Z2Nat.id k) by lia. apply Hall, elem_of_seq. lia.
  - apply not_Forall_Exists in Hnot; [|apply _]. apply Exists_exists in Hnot as (k & Hk & Hf).
    apply elem_of_seq in Hk. apply not_true_is_false in Hf. apply (IH k); [lia|done|lia].
Qed.

End Slots.

(** ** Placing an element *)

Section Placing.
Context {T : Type} `{SlotLaws T}.

#[local] Abbreviation set := (HashSet T).
Implicit Types (h : set) (data : list T) (x : T) (i n : Z).

(** The array has as many slots as the set has buckets, and the probing
    invariant holds. *)
Record table_ok h : Prop := {
  table_len : Z.of_nat (length (data_ h)) = num_buckets_ h;
  table_pos : 0 < num_buckets_ h;
  table_probe : probe_inv (num_buckets_ h) (data_ h) (fun _ => False);
}.

Definition has_room h : Prop := (length (elements (data_ h)) < length (data_ h))%nat.

Lemma IndexForHash_ok h hash :
  0 < num_buckets_ h ->
  IndexForHash h hash = Ok (hash mod num_buckets_ h) /\ 0 <= hash mod num_buckets_ h < num_buckets_ h.
Proof.
  intros Hn. unfold IndexForHash. rewrite (proj2 (Z.eqb_neq _ _)) by lia. split; [done|].
  by apply Z.mod_pos_bound.
Qed.

Lemma FirstAvailableSlot_loop_ok h a d fuel k :
  Z.of_nat (length (data_ h)) = num_buckets_ h -> 0 < num_buckets_ h -> (d < fuel)%nat ->
  (forall j, k <= j < k + Z.of_nat d -> full (data_ h) ((a + j) mod num_buckets_ h) = true) ->
  full (data_ h) ((a + (k + Z.of_nat d)) mod num_buckets_ h) = false ->
  FirstAvailableSlot_loop fuel h ((a + k) mod num_buckets_ h) = Ok ((a + (k + Z.of_nat d)) mod num_buckets_ h).
Proof.
  intros Hlen Hn. revert fuel k. induction d as [|d IH]; intros fuel k Hfuel Hfull Hempty;
    (destruct fuel as [|fuel]; [lia|]); cbn [FirstAvailableSlot_loop];
    pose proof (Z.mod_pos_bound (a + k) (num_buckets_ h) Hn) as Hr;
    (destruct (slot_lookup (data_ h) ((a + k) mod num_buckets_ h)) as [x Hx]; [lia|]);
    rewrite (slot_at_ok _ _ x) by (done || lia); cbn [mbind outcome_bind].
  - replace (k + Z.of_nat 0) with k in * by lia. unfold full in Hempty. rewrite Hx in Hempty.
    by rewrite (proj1 (negb_false_iff _) Hempty).
  - pose proof (Hfull k) as Hk. unfold full in Hk. rewrite Hx in Hk.
    rewrite (proj1 (negb_true_iff _) (Hk ltac:(lia))), NextIndex_walk by done.
    rewrite IH; [f_equal; f_equal; lia|lia|intros; apply Hfull; lia|].
    rewrite <- Hempty. do 2 f_equal. lia.
Qed.

(** [FirstAvailableSlot] returns when there is room: it gives the first empty
    slot of the circle that starts at [a]. *)
Lemma FirstAvailableSlot_ok h a :
  Z.of_nat (length (data_ h)) = num_buckets_ h -> 0 < num_buckets_ h -> has_room h ->
  0 <= a < num_buckets_ h ->
  exists d, 0 <= d < num_buckets_ h /\ FirstAvailableSlot h a = Ok ((a + d) mod num_buckets_ h) /\
    full (data_ h) ((a + d) mod num_buckets_ h) = false /\
    forall k, 0 <= k < d -> full (data_ h) ((a + k) mod num_buckets_ h) = true.
Proof.
  intros Hlen Hn Hroom Ha.
  destruct (first_empty (num_buckets_ h) (data_ h) a) as (d & Hd & Hempty & Hfull); [done..|].
  exists d. split_and!; [lia|lia| |done|done].
  unfold FirstAvailableSlot, slots_fuel.
  rewrite <- (Z.mod_small a (num_buckets_ h)) at 1 by done. rewrite <- (Z.add_0_r a) at 1.
  rewrite (FirstAvailableSlot_loop_ok h a (Z.to_nat d)); rewrite ?Z2Nat.id by lia; try done; lia.
Qed.

(** Filling an empty slot keeps the paths of the other elements. *)
Lemma probe_inv_fill n data i x (but : Z -> Prop) :
  0 < n -> Z.of_nat (length data) = n -> 0 <= i < n -> full data i = false -> IsEmpty x = false ->
  probe_inv n data but -> slot_reachable n data i x -> probe_inv n (<[Z.to_nat i := x]> data) but.
Proof.
  intros Hn Hlen Hi Hempty Hx Hinv Hreach j y Hj Hbut Hy Hye k Hk.
  pose proof (Z.mod_pos_bound (hashfn y mod n + k) n Hn).
  rewrite full_insert by lia. case_decide; [by rewrite Hx|].
  destruct (decide (j = i)) as [->|Hne].
  - rewrite list_lookup_insert_eq in Hy by lia. injection Hy as <-. by apply Hreach.
  - rewrite list_lookup_insert_ne in Hy by lia. by apply (Hinv j y).
Qed.

(** What [Resize] and [Insert] do with an element. *)
Lemma place_ok h x :
  table_ok h -> has_room h -> IsEmpty x = false ->
  exists ideal slot, IndexForHash h (hashfn x) = Ok ideal /\ FirstAvailableSlot h ideal = Ok slot /\
    set_slot (data_ h) slot x = Ok (<[Z.to_nat slot := x]> (data_ h)) /\
    table_ok (with_data h (<[Z.to_nat slot := x]> (data_ h))) /\
    elements (<[Z.to_nat slot := x]> (data_ h)) ≡ₚ x :: elements (data_ h).
Proof.
  intros [Hlen Hn Hinv] Hroom Hx. destruct (IndexForHash_ok h (hashfn x) Hn) as [Hideal Hr].
  destruct (FirstAvailableSlot_ok h (hashfn x mod num_buckets_ h)) as (d & Hd & Hslot & Hempty & Hfull); [done..|].
  set (slot := (hashfn x mod num_buckets_ h + d) mod num_buckets_ h) in *.
  assert (0 <= slot < num_buckets_ h) as Hs by by apply Z.mod_pos_bound.
  destruct (slot_lookup (data_ h) slot) as [y Hy]; [lia|].
  exists (hashfn x mod num_buckets_ h), slot. split_and!; [done|done|apply set_slot_ok; lia|..].
  - constructor; cbn; [by rewrite length_insert|done|].
    apply probe_inv_fill; [done..|]. intros k Hk. apply Hfull. revert Hk. unfold slot. by rewrite dist_walk by lia.
  - apply (elements_insert _ _ x y); [done|..|done].
    unfold full in Hempty. rewrite Hy in Hempty. by apply negb_false_iff.
Qed.

Lemma AllocateStorage_table h n : 0 < n -> table_ok (AllocateStorage h n) /\ elements (data_ (AllocateStorage h n)) = [].
Proof.
  intros Hn. split; [constructor; cbn; [rewrite length_replicate; lia|done|]|].
  - intros j x Hj _ Hx He. apply lookup_replicate in Hx as [-> _]. by rewrite make_empty_empty in He.
  - apply elements_replicate. apply make_empty_empty.
Qed.

Lemma Resize_loop_ok old h :
  table_ok h -> (length (elements (data_ h)) + length (elements old) <= length (data_ h))%nat ->
  exists data, Resize_loop h old = Ok (with_data h data) /\ table_ok (with_data h data) /\
    length data = length (data_ h) /\ elements data ≡ₚ elements old ++ elements (data_ h).
Proof.
  revert h. induction old as [|x old IH]; intros h Hok Hle; cbn [Resize_loop].
  - exists (data_ h). by destruct h.
  - unfold Resize_slot. unfold elements in Hle at 2. rewrite filter_cons in Hle.
    destruct (IsEmpty x) eqn:Hx.
    + destruct (IH h Hok) as (data & Hrun & Hok' & Hl & Hp); [done|]. exists data. split_and!; [done|done|done|].
      rewrite Hp. unfold elements at 3. by rewrite filter_cons, decide_False by (rewrite Hx; done).
    + rewrite decide_True in Hle by done. cbn [length] in Hle. fold (elements old) in Hle.
      destruct (place_ok h x Hok) as (ideal & slot & -> & Hs & Hset & Hok1 & Hp1); [unfold has_room; lia|done|].
      cbn [mbind outcome_bind]. rewrite Hs. cbn [mbind outcome_bind]. rewrite Hset. cbn [mbind outcome_bind mret outcome_ret].
      destruct (IH _ Hok1) as (data & Hrun & Hok' & Hl & Hp).
      { cbn. rewrite Hp1, length_insert. cbn. lia. }
      cbn in Hl, Hp. rewrite length_insert in Hl. exists data. split_and!; [done|done|done|].
      rewrite Hp, Hp1. unfold elements at 3. rewrite filter_cons, decide_True by done. cbn.
      by rewrite <- Permutation_middle.
Qed.

(** [Resize] to a size that can hold the elements returns; it keeps the
    elements and establishes the probing invariant. *)
Lemma Resize_ok h new_size :
  0 < new_size -> Z.of_nat (length (elements (data_ h))) <= new_size ->
  exists data, Resize h new_size = Ok (with_data (AllocateStorage h new_size) data) /\
    table_ok (with_data (AllocateStorage h new_size) data) /\
    Z.of_nat (length data) = new_size /\ elements data ≡ₚ elements (data_ h).
Proof.
  intros Hpos Hle. destruct (AllocateStorage_table h new_size Hpos) as [Hok Hel].
  destruct (Resize_loop_ok (data_ h) _ Hok) as (data & Hrun & Hok' & Hl & Hp).
  { rewrite Hel. cbn. rewrite length_replicate. lia. }
  exists data. split_and!; [done|done|..].
  - rewrite Hl. cbn. rewrite length_replicate. lia.
  - by rewrite Hp, Hel, app_nil_r.
Qed.

(** ** The invariant of the set *)

Record wf h : Prop := {
  wf_table : table_ok h;
  wf_size : num_elements_ h = Z.of_nat (length (elements (data_ h)));
  wf_expand : num_elements_ h <= elements_until_expand_ h < num_buckets_ h;
  wf_min : min_load_factor_ h = kDefaultMinLoadFactor;
  wf_max : max_load_factor_ h = kDefaultMaxLoadFactor;
}.

Lemma wf_room h : wf h -> has_room h.
Proof. intros [[Hlen Hn _] Hs He _ _]. unfold has_room. lia. Qed.

Lemma Clear_wf h :
  min_load_factor_ h = kDefaultMinLoadFactor -> max_load_factor_ h = kDefaultMaxLoadFactor -> wf (Clear h).
Proof.
  intros Hmin Hmax. destruct (AllocateStorage_table (DeallocateStorage h) 1) as [[Hl Hp Hi] He]; [lia|].
  constructor; [by constructor|..].
  - change (data_ (Clear h)) with (data_ (AllocateStorage (DeallocateStorage h) 1)). by rewrite He.
  - cbn. lia.
  - cbn. unfold DeallocateStorage. by destruct (num_buckets_ h =? 0).
  - cbn. unfold DeallocateStorage. by destruct (num_buckets_ h =? 0).
Qed.

Lemma HashSet_new_wf : wf HashSet_new.
Proof. by apply Clear_wf. Qed.

Lemma HashSet_new_elements : elements (data_ (HashSet_new (T := T))) = [].
Proof. apply elements_replicate, make_empty_empty. Qed.

Lemma Expand_ok h :
  wf h -> num_elements_ h < 2 ^ 49 ->
  exists h', Expand h = Ok h' /\ wf h' /\ elements (data_ h') ≡ₚ elements (data_ h) /\
    num_elements_ h' = num_elements_ h /\ num_elements_ h' < elements_until_expand_ h'.
Proof.
  intros [_ Hs He Hmin Hmax] Hb. unfold Expand, Size. rewrite Hmin, expand_min_index by lia.
  set (n := if 2 * num_elements_ h <? kMinBuckets then kMinBuckets else 2 * num_elements_ h).
  assert (1000 <= n < 2 ^ 51 /\ 2 * num_elements_ h <= n) as [Hn Hn2].
  { subst n. unfold kMinBuckets. destruct (Z.ltb_spec (2 * num_elements_ h) 1000); lia. }
  destruct (Resize_ok h n) as (data & -> & Hok & Hl & Hp); [lia|lia|].
  cbn [mbind outcome_bind mret outcome_ret]. pose proof (expand_until n Hn) as Hu.
  eexists. split; [done|]. unfold NumBuckets in *. cbn in *. rewrite Hmax. destruct Hok.
  split_and!; [constructor; [by constructor|..]|..]; cbn; rewrite ?Hp; try done; lia.
Qed.

(** [Insert] returns, keeps the invariant and adds the element. *)
Lemma Insert_ok h x :
  wf h -> num_elements_ h < 2 ^ 49 -> IsEmpty x = false ->
  exists h', Insert h x = Ok h' /\ wf h' /\ elements (data_ h') ≡ₚ x :: elements (data_ h).
Proof.
  intros Hwf Hb Hx. unfold Insert, InsertWithHash.
  assert (exists h1, (if elements_until_expand_ h <=? num_elements_ h then Expand h else mret h) = Ok h1 /\ wf h1 /\
    elements (data_ h1) ≡ₚ elements (data_ h) /\ num_elements_ h1 < elements_until_expand_ h1) as (h1 & -> & Hwf1 & Hp1 & Hlt).
  { destruct (Z.leb_spec (elements_until_expand_ h) (num_elements_ h)).
    - destruct (Expand_ok h Hwf Hb) as (h1 & ? & ? & ? & ? & ?). by exists h1.
    - by exists h. }
  cbn [mbind outcome_bind].
  destruct (place_ok h1 x) as (ideal & slot & -> & Hs & Hset & Hok & Hp); [by destruct Hwf1|by apply wf_room|done|].
  cbn [mbind outcome_bind]. rewrite Hs. cbn [mbind outcome_bind]. rewrite Hset. cbn [mbind outcome_bind mret outcome_ret].
  destruct Hwf1 as [[Hl Hn Hi] Hsz He Hmin Hmax], Hok as [Hl' Hn' Hi'].
  eexists. split; [done|]. split; [|cbn; by rewrite Hp, Hp1].
  constructor; [by constructor|..]; cbn in *; [rewrite Hp; cbn; lia|lia|done..].
Qed.

End Placing.

(** ** Lookup *)

Section Lookup.
Context {T K : Type} `{SlotLaws T} `{KeyOps T K} `{!KeyLaws T K}.

#[local] Abbreviation set := (HashSet T).
Implicit Types (h : set) (data : list T) (x : T) (key : K).

Definition matches data i key : Prop :=
  exists x, data !! Z.to_nat i = Some x /\ IsEmpty x = false /\ pred x key = true.

Lemma FindIndex_loop_ok h key a m fuel k :
  Z.of_nat (length (data_ h)) = num_buckets_ h -> 0 < num_buckets_ h -> (m < fuel)%nat ->
  (forall j, k <= j < k + Z.of_nat m -> full (data_ h) ((a + j) mod num_buckets_ h) = true) ->
  full (data_ h) ((a + (k + Z.of_nat m)) mod num_buckets_ h) = false ->
  (FindIndex_loop fuel h key ((a + k) mod num_buckets_ h) = Ok (num_buckets_ h) /\
     forall j, k <= j < k + Z.of_nat m -> ~ matches (data_ h) ((a + j) mod num_buckets_ h) key) \/
  exists j, k <= j < k + Z.of_nat m /\ matches (data_ h) ((a + j) mod num_buckets_ h) key /\
    FindIndex_loop fuel h key ((a + k) mod num_buckets_ h) = Ok ((a + j) mod num_buckets_ h).
Proof.
  intros Hlen Hn. revert fuel k. induction m as [|m IH]; intros fuel k Hfuel Hfull Hempty;
    (destruct fuel as [|fuel]; [lia|]); cbn [FindIndex_loop]; unfold ElementForIndex;
    pose proof (Z.mod_pos_bound (a + k) (num_buckets_ h) Hn) as Hr;
    (destruct (slot_lookup (data_ h) ((a + k) mod num_buckets_ h)) as [x Hx]; [lia|]);
    rewrite (slot_at_ok _ _ x) by (done || lia); cbn [mbind outcome_bind].
  - replace (k + Z.of_nat 0) with k in * by lia. unfold full in Hempty. rewrite Hx in Hempty.
    rewrite (proj1 (negb_false_iff _) Hempty). left. split; [done|lia].
  - pose proof (Hfull k ltac:(lia)) as Hk. unfold full in Hk. rewrite Hx in Hk. apply negb_true_iff in Hk.
    rewrite Hk. destruct (pred x key) eqn:Hpred.
    + right. exists k. split_and!; [lia|lia|by exists x|done].
    + rewrite NextIndex_walk by done.
      destruct (IH fuel (k + 1)) as [[-> Hno]|(j & Hj & Hm & ->)];
        [lia|intros; apply Hfull; lia|by replace (k + 1 + Z.of_nat m) with (k + Z.of_nat (S m)) by lia|..].
      * left. split; [done|]. intros j Hj. destruct (decide (j = k)) as [->|]; [|apply Hno; lia].
        intros (y & Hy & _ & Hyp). congruence.
      * right. exists j. split_and!; [lia|lia|done|done].
Qed.

(** [Find] returns: it gives the slot of an element that the key matches, and
    [end()] exactly when there is none. *)
Lemma Find_ok h key :
  table_ok h -> has_room h ->
  (Find h key = Ok (end_ h) /\ forall x, x ∈ elements (data_ h) -> pred x key = false) \/
  exists i, 0 <= i < end_ h /\ Find h key = Ok i /\ matches (data_ h) i key.
Proof.
  intros [Hlen Hn Hinv] Hroom. unfold Find, FindWithHash, FindIndex, end_, NumBuckets.
  destruct (IndexForHash_ok h (hashkey key) Hn) as [-> Hr]. cbn [mbind outcome_bind].
  set (a := hashkey key mod num_buckets_ h) in *.
  destruct (first_empty (num_buckets_ h) (data_ h) a) as (d & Hd & Hempty & Hfull); [done..|].
  destruct (FindIndex_loop_ok h key a (Z.to_nat d) (slots_fuel h) 0) as [[Hrun Hno]|(j & Hj & Hm & Hrun)];
    rewrite ?Z2Nat.id, ?Z.add_0_l by lia; [done|done|unfold slots_fuel; lia|done|done|..];
    rewrite Z.add_0_r, (Z.mod_small a) in Hrun by done; rewrite Z2Nat.id in * by lia.
  - left. split; [done|]. intros x [Hx Hin]%elem_of_elements.
    apply not_true_is_false. intros Hpred. apply list_elem_of_lookup in Hin as (p & Hp).
    pose proof (lookup_lt_Some _ _ _ Hp). set (i := Z.of_nat p).
    assert (0 <= i < num_buckets_ h) as Hi by lia.
    assert (data_ h !! Z.to_nat i = Some x) as Hpi by (unfold i; by rewrite Nat2Z.id).
    pose proof (pred_hash x key Hpred) as Hhash.
    pose proof (dist_range (num_buckets_ h) Hn a i) as Hdr.
    destruct (Z.lt_trichotomy (dist (num_buckets_ h) a i) d) as [Hlt|[Heq|Hgt]].
    + apply (Hno (dist (num_buckets_ h) a i)); [lia|]. rewrite dist_step by done. by exists x.
    + rewrite <- Heq, dist_step in Hempty by done. unfold full in Hempty. rewrite Hpi, Hx in Hempty. done.
    + assert (full (data_ h) ((a + d) mod num_buckets_ h) = true) as Ht; [|congruence].
      pose proof (Hinv i x Hi (fun f => f) Hpi Hx) as Hreach. unfold slot_reachable in Hreach.
      rewrite Hhash in Hreach. apply Hreach. fold a. lia.
  - right. exists ((a + j) mod num_buckets_ h). split_and!; [..|done|done]; apply Z.mod_pos_bound; done.
Qed.

End Lookup.

(** ** Iteration *)

Section Iteration.
Context {T : Type} `{SlotLaws T}.

#[local] Abbreviation set := (HashSet T).
Implicit Types (h : set) (data : list T) (x : T).

(** The first slot from [i] on that holds an element. *)
Fixpoint first_full (data : list T) (i : Z) : Z :=
  match data with
  | [] => i
  | x :: data => if IsEmpty x then first_full data (i + 1) else i
  end.

Lemma NextNonEmptySlot_loop_ok h m fuel i :
  Z.of_nat (length (data_ h)) = num_buckets_ h -> 0 <= i < num_buckets_ h ->
  num_buckets_ h = i + 1 + Z.of_nat m -> (m < fuel)%nat ->
  NextNonEmptySlot_loop fuel h i = Ok (first_full (drop (Z.to_nat (i + 1)) (data_ h)) (i + 1)).
Proof.
  intros Hlen. revert fuel i. induction m as [|m IH]; intros fuel i Hi Hm Hfuel;
    (destruct fuel as [|fuel]; [lia|]); cbn [NextNonEmptySlot_loop]; unfold NumBuckets, IsFreeSlot, ElementForIndex.
  - rewrite (proj2 (Z.ltb_ge _ _)) by lia. rewrite drop_ge by lia. done.
  - rewrite (proj2 (Z.ltb_lt _ _)) by lia.
    destruct (slot_lookup (data_ h) (i + 1)) as [x Hx]; [lia|].
    rewrite (slot_at_ok _ _ x) by (done || lia). cbn [mbind outcome_bind mret outcome_ret].
    rewrite (drop_S _ x) by done. cbn [first_full]. destruct (IsEmpty x); [|done].
    rewrite IH by lia. by replace (Z.to_nat (i + 1 + 1)) with (S (Z.to_nat (i + 1))) by lia.
Qed.

Lemma NextNonEmptySlot_ok h i :
  Z.of_nat (length (data_ h)) = num_buckets_ h -> 0 <= i < num_buckets_ h ->
  NextNonEmptySlot h i = Ok (first_full (drop (Z.to_nat (i + 1)) (data_ h)) (i + 1)).
Proof.
  intros Hlen Hi. apply (NextNonEmptySlot_loop_ok h (Z.to_nat (num_buckets_ h - i - 1))); unfold slots_fuel; lia.
Qed.

Lemma begin_ok h :
  Z.of_nat (length (data_ h)) = num_buckets_ h -> begin_ h = Ok (first_full (data_ h) 0).
Proof.
  intros Hlen. unfold begin_. destruct (Z.eqb_spec (num_buckets_ h) 0) as [Hz|Hz].
  - destruct (data_ h); [done|cbn in Hlen; lia].
  - destruct (slot_lookup (data_ h) 0) as [x Hx]; [lia|]. unfold IsFreeSlot, ElementForIndex.
    rewrite (slot_at_ok _ _ x) by done. cbn [mbind outcome_bind mret outcome_ret].
    rewrite NextNonEmptySlot_ok by lia. destruct (data_ h) as [|y data]; [done|]. cbn in Hx. injection Hx as ->.
    cbn. by destruct (IsEmpty x).
Qed.

Lemma first_full_range data i : i <= first_full data i <= i + Z.of_nat (length data).
Proof.
  revert i. induction data as [|x data IH]; intros i; cbn [first_full length]; [lia|].
  destruct (IsEmpty x); [|lia]. specialize (IH (i + 1)). lia.
Qed.

(** Where [first_full] stops. *)
Lemma first_full_split data i :
  (first_full data i = i + Z.of_nat (length data) /\ elements data = []) \/
  exists x, data !! Z.to_nat (first_full data i - i) = Some x /\ IsEmpty x = false /\
    elements data = x :: elements (drop (S (Z.to_nat (first_full data i - i))) data).
Proof.
  revert i. induction data as [|x data IH]; intros i; cbn [first_full length].
  - left. split; [lia|done].
  - unfold elements. rewrite filter_cons. destruct (IsEmpty x) eqn:Hx.
    + rewrite decide_False by done. pose proof (first_full_range data (i + 1)).
      replace (Z.to_nat (first_full data (i + 1) - i)) with (S (Z.to_nat (first_full data (i + 1) - (i + 1)))) by lia.
      destruct (IH (i + 1)) as [[Hend Hel]|(y & Hy & Hye & Hel)].
      * left. split; [lia|done].
      * right. by exists y.
    + rewrite decide_True by done. right. exists x. rewrite Z.sub_diag. cbn. by rewrite drop_0.
Qed.

Lemma iterate_loop_ok h fuel i :
  Z.of_nat (length (data_ h)) = num_buckets_ h -> 0 <= i <= num_buckets_ h ->
  num_buckets_ h - i < Z.of_nat fuel ->
  iterate_loop fuel h (first_full (drop (Z.to_nat i) (data_ h)) i) = Ok (elements (drop (Z.to_nat i) (data_ h))).
Proof.
  intros Hlen. revert i. induction fuel as [|fuel IH]; intros i Hi Hfuel; [lia|]. cbn [iterate_loop].
  unfold end_, NumBuckets.
  destruct (first_full_split (drop (Z.to_nat i) (data_ h)) i) as [[-> ->]|(x & Hx & Hxe & ->)].
  - rewrite length_drop. rewrite (proj2 (Z.eqb_eq _ _)) by lia. done.
  - pose proof (first_full_range (drop (Z.to_nat i) (data_ h)) i) as Hr.
    set (j := first_full (drop (Z.to_nat i) (data_ h)) i) in *.
    rewrite lookup_drop in Hx. pose proof (lookup_lt_Some _ _ _ Hx) as Hlt.
    replace (Z.to_nat i + Z.to_nat (j - i))%nat with (Z.to_nat j) in * by lia.
    rewrite (proj2 (Z.eqb_neq _ _)) by lia. unfold ElementForIndex.
    rewrite (slot_at_ok _ _ x) by (done || lia). cbn [mbind outcome_bind].
    rewrite NextNonEmptySlot_ok by lia. cbn [mbind outcome_bind]. rewrite IH by lia.
    cbn [mbind outcome_bind mret outcome_ret]. rewrite drop_drop.
    by replace (Z.to_nat i + S (Z.to_nat (j - i)))%nat with (Z.to_nat (j + 1)) by lia.
Qed.

(** A range-for visits the elements, each once, in the order of the slots. *)
Lemma iterate_ok h :
  Z.of_nat (length (data_ h)) = num_buckets_ h -> iterate h = Ok (elements (data_ h)).
Proof.
  intros Hlen. unfold iterate. rewrite begin_ok by done. cbn [mbind outcome_bind].
  rewrite <- (drop_0 (data_ h)) at 1 2. apply (iterate_loop_ok h _ 0); unfold slots_fuel; lia.
Qed.

End Iteration.

(** ** Erasure *)

Section Erasure.
Context {T : Type} `{SlotLaws T}.

#[local] Abbreviation set := (HashSet T).
Implicit Types (h : set) (data : list T) (x : T).

(** The test of [HashSet_Erase], with its unwrapped indices, asks whether the hole is
    on the way from the ideal slot of an element to its slot. *)
Lemma unwrapped_test n e j a :
  0 <= e < n -> 0 <= j < n -> 0 <= a < n -> e <> j ->
  ((if a <? e then a + n else a) <=? e) || ((if j <? e then j + n else j) <? (if a <? e then a + n else a))
  = (dist n a e <? dist n a j).
Proof.
  intros He Hj Ha Hne.
  assert (forall b, 0 <= b < n -> dist n a b = if b <? a then b + n - a else b - a) as Hdist.
  { intros b Hb. destruct (Z.ltb_spec b a); [apply dist_unique with (-1)|apply dist_unique with 0]; lia. }
  rewrite !Hdist by done. apply eq_true_iff_eq. rewrite orb_true_iff, Z.leb_le, !Z.ltb_lt.
  destruct (Z.ltb_spec a e), (Z.ltb_spec j e), (Z.ltb_spec e a), (Z.ltb_spec j a); lia.
Qed.

(** The loop invariant: the hole [e] still holds a stale element, every other
    element is reachable when the hole counts as full, and none of the
    elements in the [d] slots after the hole is reached through it. *)
Record erase_inv n data (e d : Z) : Prop := {
  er_len : Z.of_nat (length data) = n;
  er_hole : 0 <= e < n;
  er_dist : 0 <= d < n;
  er_full : full data e = true;
  er_probe : probe_inv n data (eq e);
  er_scanned : forall k x, 1 <= k <= d -> data !! Z.to_nat ((e + k) mod n) = Some x ->
    dist n (hashfn x mod n) ((e + k) mod n) <= dist n (hashfn x mod n) e;
}.

(** At an empty slot the hole can be emptied. *)
Lemma erase_stop n data e d x :
  erase_inv n data e d -> d + 1 < n -> full data ((e + (d + 1)) mod n) = false -> IsEmpty x = true ->
  probe_inv n (<[Z.to_nat e := x]> data) (fun _ => False).
Proof.
  intros [Hlen He Hd Hfull Hinv Hsc] Hdn Hempty Hx j y Hj _ Hy Hye k Hk.
  assert (0 < n) as Hn by lia.
  destruct (decide (j = e)) as [->|Hne].
  { rewrite list_lookup_insert_eq in Hy by lia. congruence. }
  rewrite list_lookup_insert_ne in Hy by lia.
  assert (slot_reachable n data j y) as Hreach by (apply (Hinv j y); [lia|congruence|done|done]).
  set (a := hashfn y mod n) in *. assert (0 <= a < n) as Ha by by apply Z.mod_pos_bound.
  assert (dist n a j <= dist n a e) as Hoff.
  { destruct (Z.le_gt_cases (dist n a j) (dist n a e)); [done|exfalso].
    pose proof (dist_split n Hn a e j ltac:(lia)) as Hs. pose proof (dist_range n Hn e j).
    pose proof (dist_range n Hn a j). pose proof (dist_range n Hn a e).
    destruct (Z.lt_trichotomy (dist n e j) (d + 1)) as [Hlt|[Heq|Hgt]].
    - assert (dist n e j <> 0) by (intros Hz; apply dist_zero in Hz; lia).
      pose proof (Hsc (dist n e j) y ltac:(lia)) as Hs'. rewrite dist_step in Hs' by lia.
      specialize (Hs' Hy). fold a in Hs'. lia.
    - rewrite <- Heq, dist_step in Hempty by lia. unfold full in Hempty. rewrite Hy, Hye in Hempty. done.
    - assert (full data ((a + (dist n a e + (d + 1))) mod n) = true) as Ht by (apply Hreach; fold a; lia).
      rewrite Z.add_assoc, <- Zplus_mod_idemp_l, dist_step in Ht by done. congruence. }
  pose proof (Z.mod_pos_bound (a + k) n Hn). rewrite full_insert by lia.
  case_decide as Heq; [|by apply Hreach]. exfalso.
  pose proof (dist_range n Hn a j). assert (dist n a e = k); [|lia]. rewrite <- Heq. apply dist_walk; lia.
Qed.

(** A step that leaves the element where it is. *)
Lemma erase_skip n data e d x :
  erase_inv n data e d -> d + 1 < n -> data !! Z.to_nat ((e + (d + 1)) mod n) = Some x ->
  dist n (hashfn x mod n) ((e + (d + 1)) mod n) <= dist n (hashfn x mod n) e ->
  erase_inv n data e (d + 1).
Proof.
  intros [Hlen He Hd Hfull Hinv Hsc] Hdn Hx Hoff. constructor; try done; [lia|].
  intros k y Hk Hy. destruct (decide (k = d + 1)) as [->|]; [|apply Hsc; [lia|done]]. by simplify_eq.
Qed.

(** A step that moves the element into the hole: its old slot is the new hole. *)
Lemma erase_move n data e d x :
  erase_inv n data e d -> d + 1 < n -> data !! Z.to_nat ((e + (d + 1)) mod n) = Some x -> IsEmpty x = false ->
  dist n (hashfn x mod n) e < dist n (hashfn x mod n) ((e + (d + 1)) mod n) ->
  erase_inv n (<[Z.to_nat e := x]> data) ((e + (d + 1)) mod n) 0.
Proof.
  intros [Hlen He Hd Hfull Hinv Hsc] Hdn Hx Hxe Hon. assert (0 < n) as Hn by lia.
  set (j := (e + (d + 1)) mod n) in *. assert (0 <= j < n) as Hj by by apply Z.mod_pos_bound.
  assert (e <> j) as Hne by (intros Heq; rewrite <- Heq in Hon; lia).
  assert (forall i, 0 <= i -> full (<[Z.to_nat e := x]> data) i = full data i) as Hsame.
  { intros i Hi. rewrite full_insert by lia. case_decide as Heq; [|done]. by rewrite Heq, Hfull, Hxe. }
  assert (slot_reachable n data j x) as Hreach by (apply (Hinv j x); done).
  constructor; [by rewrite length_insert|done|lia|..].
  - rewrite Hsame by lia. unfold full. by rewrite Hx, Hxe.
  - intros i y Hi Hbut Hy Hye k Hk. pose proof (Z.mod_pos_bound (hashfn y mod n + k) n Hn). rewrite Hsame by lia.
    destruct (decide (i = e)) as [->|Hie].
    + rewrite list_lookup_insert_eq in Hy by lia. injection Hy as <-. apply Hreach. lia.
    + rewrite list_lookup_insert_ne in Hy by lia. by apply (Hinv i y); [lia|congruence|..].
  - lia.
Qed.

(** Moving an element into the hole and making its slot the hole changes
    nothing in what the table holds besides the hole. *)
Lemma elements_move data (e j : nat) x z :
  e <> j -> (e < length data)%nat -> data !! j = Some x -> IsEmpty x = false -> IsEmpty z = true ->
  elements (<[j := z]> (<[e := x]> data)) ≡ₚ elements (<[e := z]> data).
Proof.
  intros Hne He Hx Hxe Hz. pose proof (lookup_lt_Some _ _ _ Hx) as Hjl.
  rewrite list_insert_insert_ne by done.
  rewrite (elements_remove (<[e:=z]> data) j x z);
    [|by rewrite list_lookup_insert_ne by done|done|done].
  rewrite <- (elements_insert _ e x z);
    [|rewrite list_lookup_insert_ne by done; by apply list_lookup_insert_eq|done|done].
  rewrite (list_insert_insert_ne data j e z z) by done. by rewrite list_insert_insert_eq.
Qed.

Lemma elements_empty_values data (p : nat) y z :
  (p < length data)%nat -> IsEmpty y = true -> IsEmpty z = true ->
  elements (<[p := y]> data) = elements (<[p := z]> data).
Proof.
  intros Hp Hy Hz. rewrite !insert_take_drop by done. unfold elements. rewrite !filter_app, !filter_cons.
  by rewrite !decide_False by (rewrite ?Hy, ?Hz; done).
Qed.

Lemma with_data_twice h data data' : with_data (with_data h data) data' = with_data h data'.
Proof. done. Qed.

(** What the loop of [HashSet_Erase] leaves after at most [m] steps: the slots, without
    the element of the hole, where the slot [(e + k) mod n] is now empty.
    Elements only move backwards on the circle, towards the hole. *)
Record erased n data (e k m : Z) (data' : list T) : Prop := {
  ed_len : Z.of_nat (length data') = n;
  ed_probe : probe_inv n data' (fun _ => False);
  ed_elements : forall z, IsEmpty z = true -> elements data' ≡ₚ elements (<[Z.to_nat e := z]> data);
  ed_full : forall i, 0 <= i -> full data' i = full data i && negb (i =? (e + k) mod n);
  ed_from : forall i y, 0 <= i < n -> data' !! Z.to_nat i = Some y -> IsEmpty y = false ->
    data !! Z.to_nat i = Some y \/
    exists l, dist n e i < l <= m /\ data !! Z.to_nat ((e + l) mod n) = Some y;
}.

Lemma erased_stop n data e d x :
  erase_inv n data e d -> d + 1 < n -> full data ((e + (d + 1)) mod n) = false -> IsEmpty x = true ->
  erased n data e 0 d (<[Z.to_nat e := x]> data).
Proof.
  intros Hinv Hdn Hempty Hx. pose proof Hinv as [Hlen He _ Hfull _ _].
  constructor; [by rewrite length_insert|by apply (erase_stop n data e d)|..].
  - intros z Hz. by rewrite (elements_empty_values data _ x z) by (done || lia).
  - intros i Hi. rewrite Z.add_0_r, Z.mod_small, full_insert by lia. case_decide as Heq.
    + by rewrite Hx, Heq, Z.eqb_refl, andb_false_r.
    + by rewrite (proj2 (Z.eqb_neq _ _)), andb_true_r.
  - intros i y Hi Hy Hye. left. destruct (decide (i = e)) as [->|Hne].
    + rewrite list_lookup_insert_eq in Hy by lia. congruence.
    + by rewrite list_lookup_insert_ne in Hy by lia.
Qed.

Lemma erased_move n data e d x k m data' :
  erase_inv n data e d -> d + 1 < n -> data !! Z.to_nat ((e + (d + 1)) mod n) = Some x -> IsEmpty x = false ->
  (e + (d + 1)) mod n <> e -> 0 <= m -> d + 1 + m < n ->
  erased n (<[Z.to_nat e := x]> data) ((e + (d + 1)) mod n) k m data' -> erased n data e (d + 1 + k) (d + 1 + m) data'.
Proof.
  intros [Hlen He Hd Hfull _ _] Hdn Hx Hxe Hne Hm Hmn [Hl Hp Hel Hf Hfrom]. assert (0 < n) as Hn by lia.
  constructor; [done|done|..].
  - intros z Hz. rewrite (Hel z Hz). apply elements_move; [|lia|done..].
    pose proof (Z.mod_pos_bound (e + (d + 1)) n). lia.
  - intros i Hi. rewrite Hf by done. rewrite full_insert by lia. rewrite Zplus_mod_idemp_l.
    replace (e + (d + 1) + k) with (e + (d + 1 + k)) by lia.
    case_decide as Heq; [|done]. by rewrite Heq, Hfull, Hxe.
  - intros i y Hi Hy Hye. destruct (Hfrom i y Hi Hy Hye) as [Hsame|(l & Hl' & Hsame)].
    + destruct (decide (i = e)) as [->|Hie].
      * right. exists (d + 1). rewrite dist_self by done. split; [lia|].
        rewrite list_lookup_insert_eq in Hsame by lia. congruence.
      * left. by rewrite list_lookup_insert_ne in Hsame by lia.
    + right. exists (d + 1 + l). pose proof (dist_range n Hn ((e + (d + 1)) mod n) i).
      assert (dist n e i = d + 1 + dist n ((e + (d + 1)) mod n) i) as ->.
      { rewrite (dist_join n Hn e ((e + (d + 1)) mod n) i); rewrite dist_walk by lia; lia. }
      split; [lia|]. rewrite Zplus_mod_idemp_l in Hsame. replace (e + (d + 1) + l) with (e + (d + 1 + l)) in Hsame by lia.
      rewrite list_lookup_insert_ne in Hsame; [done|]. pose proof (Z.mod_pos_bound (e + (d + 1 + l)) n Hn).
      intros Heq. assert ((e + (d + 1 + l)) mod n = e) as Hc by lia.
      pose proof (dist_walk n Hn e (d + 1 + l) ltac:(lia)) as Hw. rewrite Hc, dist_self in Hw by done. lia.
Qed.

(** The loop of [HashSet_Erase]: [m] steps before the empty slot that ends it. *)
Lemma Erase_loop_ok m h fuel e d filled :
  erase_inv (num_buckets_ h) (data_ h) e d -> (m < fuel)%nat -> d + Z.of_nat m + 1 < num_buckets_ h ->
  full (data_ h) ((e + (d + Z.of_nat m + 1)) mod num_buckets_ h) = false ->
  (forall k, 1 <= k <= d + Z.of_nat m -> full (data_ h) ((e + k) mod num_buckets_ h) = true) ->
  exists data k, 0 <= k <= d + Z.of_nat m /\ erased (num_buckets_ h) (data_ h) e k (d + Z.of_nat m) data /\
    Erase_loop fuel h e ((e + d) mod num_buckets_ h) filled = Ok (with_data h data, filled || negb (k =? 0)).
Proof.
  revert h fuel e d filled. induction m as [|m IH]; intros h fuel e d filled Hinv Hfuel Hdm Hempty Hfull;
    (destruct fuel as [|fuel]; [lia|]); cbn [Erase_loop]; unfold ElementForIndex, NumBuckets;
    pose proof Hinv as [Hlen He Hd Hfe _ _]; assert (0 < num_buckets_ h) as Hn by lia;
    rewrite NextIndex_walk by done;
    set (j := (e + (d + 1)) mod num_buckets_ h) in *;
    assert (0 <= j < num_buckets_ h) as Hj by (by apply Z.mod_pos_bound);
    (destruct (slot_lookup (data_ h) j) as [x Hx]; [lia|]); rewrite (slot_at_ok _ j x) by (done || lia);
    cbn [mbind outcome_bind].
  - replace (d + Z.of_nat 0 + 1) with (d + 1) in * by lia. fold j in Hempty.
    assert (IsEmpty x = true) as -> by (unfold full in Hempty; rewrite Hx in Hempty; by apply negb_false_iff).
    destruct (slot_lookup (data_ h) e) as [y Hy]; [lia|]. rewrite (slot_at_ok _ _ y) by (done || lia).
    cbn [mbind outcome_bind]. rewrite set_slot_ok by lia. cbn [mbind outcome_bind].
    rewrite Z.add_0_r. eexists _, 0.
    split_and!; [lia|lia|by apply (erased_stop _ _ _ d); [..|apply make_empty_empty]|].
    by rewrite orb_false_r.
  - assert (IsEmpty x = false) as Hxe.
    { pose proof (Hfull (d + 1) ltac:(lia)) as Hf. fold j in Hf. unfold full in Hf. rewrite Hx in Hf. by apply negb_true_iff. }
    assert (e <> j) as Hej.
    { intros Heq. pose proof (dist_walk (num_buckets_ h) Hn e (d + 1) ltac:(lia)) as Hw. fold j in Hw.
      rewrite <- Heq, dist_self in Hw; lia. }
    rewrite Hxe. destruct (IndexForHash_ok h (hashfn x) Hn) as [-> Ha]. cbn [mbind outcome_bind].
    rewrite unwrapped_test by done.
    replace (d + Z.of_nat (S m) + 1) with (d + 1 + Z.of_nat m + 1) in * by lia.
    destruct (Z.ltb_spec (dist (num_buckets_ h) (hashfn x mod num_buckets_ h) e) (dist (num_buckets_ h) (hashfn x mod num_buckets_ h) j)) as [Hon|Hoff].
    + rewrite set_slot_ok by lia. cbn [mbind outcome_bind].
      assert (erase_inv (num_buckets_ h) (<[Z.to_nat e := x]> (data_ h)) j 0) as Hinv'
        by (apply (erase_move _ _ _ d); [done|lia|done..]).
      assert (forall i, full (<[Z.to_nat e := x]> (data_ h)) (i mod num_buckets_ h) = full (data_ h) (i mod num_buckets_ h)) as Hsame.
      { intros i. pose proof (Z.mod_pos_bound i _ Hn). rewrite full_insert by lia.
        case_decide as Heq; [|done]. by rewrite Heq, Hfe, Hxe. }
      destruct (IH (with_data h (<[Z.to_nat e := x]> (data_ h))) fuel j 0 true) as (data & k & Hk & Her & Hrun);
        cbn [num_buckets_ data_ with_data] in *; [done|lia|lia|..].
      { rewrite Hsame. unfold j. rewrite Zplus_mod_idemp_l, <- Hempty. do 2 f_equal. lia. }
      { intros k Hk. rewrite Hsame. unfold j. rewrite Zplus_mod_idemp_l.
        replace (e + (d + 1) + k) with (e + (d + 1 + k)) by lia. apply Hfull. lia. }
      rewrite Z.add_0_r, Z.mod_small in Hrun by done. rewrite Hrun.
      exists data, (d + 1 + k). replace (d + Z.of_nat (S m)) with (d + 1 + (0 + Z.of_nat m)) by lia.
      split_and!; [lia|lia|by apply (erased_move _ _ _ _ x); [done|lia|done|done|done|lia|lia|]|].
      by rewrite (proj2 (Z.eqb_neq (d + 1 + k) 0)), orb_true_r by lia.
    + destruct (IH h fuel e (d + 1) filled) as (data & k & Hk & Her & Hrun);
        [by apply (erase_skip _ _ _ _ x); [done|lia|..]|lia|lia|done|intros; apply Hfull; lia|].
      exists data, k. replace (d + Z.of_nat (S m)) with (d + 1 + Z.of_nat m) by lia.
      split_and!; [lia|lia|done|done].
Qed.

(** [HashSet_Erase] returns; it keeps the invariant, removes the element of the slot
    and gives the first slot from there on that holds an element.  The slots
    before the erased one hold nothing that was not before it already. *)
Lemma Erase_ok h it x :
  wf h -> num_elements_ h < 2 ^ 64 -> 0 <= it < num_buckets_ h ->
  data_ h !! Z.to_nat it = Some x -> IsEmpty x = false ->
  exists h', HashSet_Erase h it = Ok (h', first_full (drop (Z.to_nat it) (data_ h')) it) /\ wf h' /\
    elements (data_ h) ≡ₚ x :: elements (data_ h') /\ num_buckets_ h' = num_buckets_ h /\
    (forall i y, 0 <= i < it -> data_ h' !! Z.to_nat i = Some y -> IsEmpty y = false ->
       exists i', 0 <= i' < it /\ data_ h !! Z.to_nat i' = Some y).
Proof.
  intros Hwf Hb Hit Hx Hxe. pose proof (wf_room h Hwf) as Hroom.
  destruct Hwf as [[Hlen Hn Hinv] Hsz Hexp Hmin Hmax].
  assert (full (data_ h) it = true) as Hfit by (unfold full; by rewrite Hx, Hxe).
  destruct (first_empty (num_buckets_ h) (data_ h) it) as (d & Hd & Hempty & Hfull); [done..|].
  assert (d <> 0) by (intros ->; rewrite Z.add_0_r, Z.mod_small in Hempty by done; congruence).
  assert (erase_inv (num_buckets_ h) (data_ h) it 0) as Hinv0.
  { constructor; [done|done|lia|done|intros j y Hj _ Hy Hye; exact (Hinv j y Hj (fun f => f) Hy Hye)|lia]. }
  destruct (Erase_loop_ok (Z.to_nat (d - 1)) h (slots_fuel h) it 0 false) as (data & k & Hk & Her & Hrun);
    [done|unfold slots_fuel; lia|lia|by replace (0 + Z.of_nat (Z.to_nat (d - 1)) + 1) with d by lia|intros; apply Hfull; lia|].
  rewrite Z.add_0_r, Z.mod_small in Hrun by done. cbn [orb] in Hrun. unfold HashSet_Erase. rewrite Hrun.
  cbn [mbind outcome_bind fst snd]. destruct Her as [Hl Hp Hel Hf Hfrom].
  assert (elements (data_ h) ≡ₚ x :: elements data) as Hperm.
  { rewrite (Hel (MakeEmpty x)) by apply make_empty_empty. apply elements_remove; [done|done|apply make_empty_empty]. }
  assert (num_elements_ h = Z.of_nat (length (elements data)) + 1) as Hcount by (rewrite Hsz, Hperm; cbn; lia).
  cbn [num_elements_ with_data]. rewrite u64_small by lia.
  set (h' := with_num_elements (with_data h data) (num_elements_ h - 1)).
  assert (wf h') as Hwf' by (constructor; [by constructor|..]; unfold h'; cbn [num_elements_ data_ num_buckets_ elements_until_expand_ with_data with_num_elements]; [lia|lia|done|done]).
  exists h'. split_and!; [|done|done|done|].
  2: { intros i y Hi Hy Hye. destruct (Hfrom i y ltac:(lia) Hy Hye) as [Hsame|(l & Hl' & Hsame)]; [by exists i|].
       assert (dist (num_buckets_ h) it i = i - it + num_buckets_ h) as Hdi by (apply dist_unique with (-1); lia).
       exists (it + l - num_buckets_ h). split; [lia|].
       assert ((it + l) mod num_buckets_ h = it + l - num_buckets_ h) as <-
         by (symmetry; apply Z.mod_unique with 1; lia). done. }
  destruct (slot_lookup data it) as [y Hy]; [lia|].
  pose proof (Hf it ltac:(lia)) as Hfit'. rewrite Hfit in Hfit'. cbn [andb] in Hfit'.
  assert ((it =? (it + k) mod num_buckets_ h) = (k =? 0)) as Hkz.
  { apply eq_true_iff_eq. rewrite !Z.eqb_eq. split; [|intros ->; by rewrite Z.add_0_r, Z.mod_small].
    intros Heq. rewrite <- (dist_walk (num_buckets_ h) Hn it k) by lia. rewrite <- Heq. by apply dist_self. }
  rewrite Hkz in Hfit'. unfold full in Hfit'. rewrite Hy in Hfit'.
  unfold h'. cbn [data_ with_num_elements with_data]. rewrite (drop_S _ y) by done. cbn [first_full].
  destruct (k =? 0); cbn [negb] in *.
  - rewrite NextNonEmptySlot_ok by (done || cbn; lia). cbn [mbind outcome_bind mret outcome_ret].
    rewrite (proj1 (negb_false_iff _) Hfit'). cbn.
    by replace (Z.to_nat (it + 1)) with (S (Z.to_nat it)) by lia.
  - by rewrite (proj1 (negb_true_iff _) Hfit').
Qed.

End Erasure.

(** ** [Verify] decides the probing invariant *)

Section Verification.
Context {T : Type} `{SlotLaws T}.

#[local] Abbreviation set := (HashSet T).
Implicit Types (h : set) (data : list T) (x : T).

Lemma Verify_slot_ok h i :
  Z.of_nat (length (data_ h)) = num_buckets_ h -> 0 <= i < num_buckets_ h ->
  exists e, Verify_slot h i = Ok e /\ 0 <= e /\
    (e = 0 <-> forall x, data_ h !! Z.to_nat i = Some x -> IsEmpty x = false ->
               slot_reachable (num_buckets_ h) (data_ h) i x).
Proof.
  intros Hlen Hi. assert (0 < num_buckets_ h) as Hn by lia. unfold Verify_slot.
  destruct (slot_lookup (data_ h) i) as [x Hx]; [lia|]. rewrite (slot_at_ok _ _ x) by (done || lia).
  cbn [mbind outcome_bind]. destruct (IsEmpty x) eqn:Hxe.
  { exists 0. split_and!; [done|done|]. split; [|done]. intros _ y Hy Hye. congruence. }
  rewrite set_slot_ok by lia. cbn [mbind outcome_bind].
  destruct (IndexForHash_ok h (hashfn x) Hn) as [-> Ha]. cbn [mbind outcome_bind].
  set (n := num_buckets_ h) in *. set (a := hashfn x mod n) in *.
  set (data := <[Z.to_nat i := MakeEmpty default_item]> (data_ h)).
  assert (forall k, full data ((a + k) mod n) = full (data_ h) ((a + k) mod n) && negb ((a + k) mod n =? i)) as Hf.
  { intros k. pose proof (Z.mod_pos_bound (a + k) n Hn). unfold data. rewrite full_insert by lia.
    case_decide as Heq; [by rewrite Heq, Z.eqb_refl, make_empty_empty, andb_false_r|].
    by rewrite (proj2 (Z.eqb_neq _ _)), andb_true_r. }
  destruct (FirstAvailableSlot_ok (with_data h data) a) as (d & Hd & Hrun & Hempty & Hfull); [..|done|].
  { cbn. unfold data. by rewrite length_insert. }
  { done. }
  { unfold has_room. cbn [data_ with_data]. unfold data. rewrite length_insert.
    assert (length (elements (data_ h)) <= length (data_ h))%nat by (apply length_filter).
    rewrite (elements_remove (data_ h) (Z.to_nat i) x (MakeEmpty default_item)) in H1; [|done|done|apply make_empty_empty].
    cbn [length] in *. lia. }
  cbn [num_buckets_ with_data data_] in *. fold n in Hd, Hrun, Hempty, Hfull. rewrite Hrun. cbn [mbind outcome_bind mret outcome_ret].
  eexists. split; [done|]. split; [by destruct (_ =? _)|].
  assert ((if i =? (a + d) mod n then 0 else 1) = 0 <-> (a + d) mod n = i) as ->
    by (destruct (Z.eqb_spec i ((a + d) mod n)); split; [done|done|lia|congruence]).
  assert (0 <= dist n a i < n) as Hdr by by apply dist_range. split.
  - intros Heq y Hy _ k Hk. rewrite Hx in Hy. injection Hy as <-. fold a in Hk |- *. rewrite <- Heq, dist_walk in Hk by lia.
    pose proof (Hfull k Hk) as Hfk. rewrite Hf in Hfk. by apply andb_true_iff in Hfk as [? _].
  - intros Hreach. specialize (Hreach x Hx Hxe). fold a in Hreach.
    destruct (Z.lt_trichotomy d (dist n a i)) as [Hlt|[->|Hgt]]; [exfalso|by apply dist_step|exfalso].
    + pose proof (Hreach d ltac:(fold a; lia)) as Hrd. fold a in Hrd. rewrite Hf, Hrd in Hempty. apply negb_false_iff, Z.eqb_eq in Hempty.
      pose proof (dist_walk n Hn a d Hd). rewrite Hempty in *. lia.
    + pose proof (Hfull (dist n a i) ltac:(lia)) as Hfi. rewrite Hf, dist_step, Z.eqb_refl, andb_false_r in Hfi by lia. done.
Qed.

Lemma Verify_loop_ok h slots errors :
  Z.of_nat (length (data_ h)) = num_buckets_ h -> Forall (fun i => 0 <= i < num_buckets_ h) slots -> 0 <= errors ->
  exists e, Verify_loop h slots errors = Ok e /\ 0 <= e /\
    (e = 0 <-> errors = 0 /\ forall i, i ∈ slots -> forall x, data_ h !! Z.to_nat i = Some x -> IsEmpty x = false ->
               slot_reachable (num_buckets_ h) (data_ h) i x).
Proof.
  intros Hlen Hs. revert errors. induction Hs as [|i slots Hi Hs IH]; intros errors Herr; cbn [Verify_loop].
  - exists errors. split_and!; [done|done|]. split; [|by intros [? _]]. intros ->. split; [done|]. by intros i ?%elem_of_nil.
  - destruct (Verify_slot_ok h i Hlen Hi) as (e & -> & He & Hiff). cbn [mbind outcome_bind].
    destruct (IH (errors + e)) as (e' & -> & He' & Hiff'); [lia|]. exists e'. split_and!; [done|done|].
    rewrite Hiff'. split.
    + intros [Hz Hall]. split; [lia|]. intros j Hj. apply elem_of_cons in Hj as [->|Hj]; [apply Hiff; lia|by apply Hall].
    + intros [-> Hall]. split; [rewrite (proj2 Hiff); [done|apply Hall; left]|]. intros j Hj. apply Hall. by right.
Qed.

Lemma Verify_decides h :
  Z.of_nat (length (data_ h)) = num_buckets_ h ->
  exists errors, Verify h = Ok errors /\ 0 <= errors /\
    (errors = 0 <-> probe_inv (num_buckets_ h) (data_ h) (fun _ => False)).
Proof.
  intros Hlen. destruct (Verify_loop_ok h (seqZ 0 (num_buckets_ h)) 0) as (e & Hrun & He & Hiff); [done|..|done|].
  { apply Forall_forall. intros i Hi. apply elem_of_seqZ in Hi. lia. }
  exists e. split_and!; [done|done|]. rewrite Hiff. split.
  - intros [_ Hall] j x Hj _. apply Hall, elem_of_seqZ. lia.
  - intros Hinv. split; [done|]. intros i Hi%elem_of_seqZ x. apply Hinv; [lia|by intros []].
Qed.

End Verification.

(** ** The set refines a multiset *)

Section Refinement.
Context {T K : Type} `{SlotLaws T} `{KeyOps T K} `{!KeyLaws T K}.

#[local] Abbreviation set := (HashSet T).

(** What clients do with a set. *)
Inductive op :=
| OpInsert (x : T)
| OpFind (k : K)
| OpErase (k : K)   (** [it = Find(k); if (it != end()) Erase(it)] *)
| OpClear
| OpSize
| OpIterate.

Inductive ret :=
| RetUnit
| RetItem (x : option T)
| RetSize (n : Z)
| RetItems (xs : list T).

Definition exec (h : set) (o : op) : outcome (set * ret) :=
  match o with
  | OpInsert x => h ← Insert h x; mret (h, RetUnit)
  | OpFind k =>
      it ← Find h k;
      if it =? end_ h then mret (h, RetItem None)
      else x ← ElementForIndex h it; mret (h, RetItem (Some x))
  | OpErase k =>
      it ← Find h k;
      if it =? end_ h then mret (h, RetItem None)
      else x ← ElementForIndex h it; r ← HashSet_Erase h it; mret (r.1, RetItem (Some x))
  | OpClear => mret (Clear h, RetUnit)
  | OpSize => mret (h, RetSize (Size h))
  | OpIterate => xs ← iterate h; mret (h, RetItems xs)
  end.

Fixpoint run (h : set) (ops : list op) : outcome (set * list ret) :=
  match ops with
  | [] => mret (h, [])
  | o :: ops => r ← exec h o; rs ← run r.1 ops; mret (rs.1, r.2 :: rs.2)
  end.

(** The abstract set: a multiset as a list up to permutation. *)
Inductive spec_step (s : list T) : op -> ret -> list T -> Prop :=
| spec_insert x s' : s' ≡ₚ x :: s -> spec_step s (OpInsert x) RetUnit s'
| spec_find k x s' : x ∈ s -> pred x k = true -> s' ≡ₚ s -> spec_step s (OpFind k) (RetItem (Some x)) s'
| spec_find_none k s' : (forall x, x ∈ s -> pred x k = false) -> s' ≡ₚ s -> spec_step s (OpFind k) (RetItem None) s'
| spec_erase k x s' : pred x k = true -> s ≡ₚ x :: s' -> spec_step s (OpErase k) (RetItem (Some x)) s'
| spec_erase_none k s' : (forall x, x ∈ s -> pred x k = false) -> s' ≡ₚ s -> spec_step s (OpErase k) (RetItem None) s'
| spec_clear : spec_step s OpClear RetUnit []
| spec_size s' : s' ≡ₚ s -> spec_step s OpSize (RetSize (Z.of_nat (length s))) s'
| spec_iterate xs s' : xs ≡ₚ s -> s' ≡ₚ s -> spec_step s OpIterate (RetItems xs) s'.

Inductive spec_run : list T -> list op -> list ret -> list T -> Prop :=
| spec_run_nil s : spec_run s [] [] s
| spec_run_cons s o r s1 ops rs s2 :
    spec_step s o r s1 -> spec_run s1 ops rs s2 -> spec_run s (o :: ops) (r :: rs) s2.

(** The empty value is not an element. *)
Definition op_ok (o : op) : Prop :=
  match o with OpInsert x => IsEmpty x = false | _ => True end.

Lemma exec_refines h o :
  wf h -> num_elements_ h < 2 ^ 49 -> op_ok o ->
  exists h' r, exec h o = Ok (h', r) /\ wf h' /\ spec_step (elements (data_ h)) o r (elements (data_ h')) /\
    num_elements_ h' <= num_elements_ h + 1.
Proof.
  intros Hwf Hb Ho. pose proof (wf_room h Hwf) as Hroom. pose proof (wf_table h Hwf) as Htab.
  assert (forall h', wf h' -> elements (data_ h') ≡ₚ elements (data_ h) -> num_elements_ h' <= num_elements_ h + 1) as Hsame.
  { intros h' Hwf' Hp. rewrite (wf_size h' Hwf'), (wf_size h Hwf), Hp. lia. }
  destruct o as [x|k|k| | |]; cbn [exec].
  - destruct (Insert_ok h x Hwf Hb Ho) as (h' & -> & Hwf' & Hp). exists h', RetUnit.
    split_and!; [done|done|by constructor|]. rewrite (wf_size h' Hwf'), (wf_size h Hwf), Hp. cbn. lia.
  - destruct (Find_ok h k Htab Hroom) as [[-> Hno]|(i & Hi & -> & (x & Hx & Hxe & Hp))]; cbn [mbind outcome_bind].
    + rewrite Z.eqb_refl. exists h, (RetItem None). split_and!; [done|done|by constructor|lia].
    + rewrite (proj2 (Z.eqb_neq _ _)) by lia. unfold ElementForIndex. rewrite (slot_at_ok _ _ x) by (done || lia).
      exists h, (RetItem (Some x)). split_and!; [done|done|constructor; [|done|done]|lia].
      apply elem_of_elements. split; [done|]. by apply list_elem_of_lookup_2 in Hx.
  - destruct (Find_ok h k Htab Hroom) as [[-> Hno]|(i & Hi & -> & (x & Hx & Hxe & Hp))]; cbn [mbind outcome_bind].
    + rewrite Z.eqb_refl. exists h, (RetItem None). split_and!; [done|done|by constructor|lia].
    + rewrite (proj2 (Z.eqb_neq _ _)) by lia. unfold ElementForIndex. rewrite (slot_at_ok _ _ x) by (done || lia).
      cbn [mbind outcome_bind]. unfold end_, NumBuckets in Hi.
      destruct (Erase_ok h i x Hwf) as (h' & -> & Hwf' & Hperm & _); [lia|done|done|done|].
      exists h', (RetItem (Some x)). split_and!; [done|done|by constructor|].
      rewrite (wf_size h' Hwf'), (wf_size h Hwf), Hperm. cbn. lia.
  - exists (Clear h), RetUnit. assert (wf (Clear h)) as Hwf' by (destruct Hwf; by apply Clear_wf).
    assert (elements (data_ (Clear h)) = []) as He by (apply elements_replicate, make_empty_empty).
    rewrite (wf_size _ Hwf'), (wf_size h Hwf), He. split_and!; [done|done|constructor|cbn; lia].
  - exists h, (RetSize (Size h)). unfold Size. rewrite (wf_size h Hwf). split_and!; [done|done|by constructor|lia].
  - rewrite iterate_ok by apply Htab. exists h, (RetItems (elements (data_ h))). split_and!; [done|done|by constructor|lia].
Qed.

Lemma run_refines ops h :
  wf h -> num_elements_ h + Z.of_nat (length ops) <= 2 ^ 49 -> Forall op_ok ops ->
  exists h' rs, run h ops = Ok (h', rs) /\ wf h' /\ spec_run (elements (data_ h)) ops rs (elements (data_ h')).
Proof.
  intros Hwf Hb Hops. revert h Hwf Hb. induction Hops as [|o ops Ho Hops IH]; intros h Hwf Hb; cbn [run length] in *.
  - exists h, []. split_and!; [done|done|constructor].
  - destruct (exec_refines h o) as (h1 & r & -> & Hwf1 & Hstep & Hn1); [done|lia|done|]. cbn [mbind outcome_bind fst snd].
    destruct (IH h1 Hwf1) as (h2 & rs & -> & Hwf2 & Hrun); [lia|]. exists h2, (r :: rs).
    split_and!; [done|done|by econstructor].
Qed.

End Refinement.

(** ** The table in memory *)

(** A double that has a normal 64-bit representation. *)
Definition double_ok (d : double) : Prop :=
  d = Double 0 0 \/ 2 ^ 52 <= d_mant d < 2 ^ 53 /\ -1074 <= d_exp d <= 971.

Lemma double_bits_range d : double_ok d -> 0 <= double_bits d < 2 ^ 64.
Proof.
  unfold double_bits. intros [->|[Hm He]]; [cbn; lia|]. rewrite (proj2 (Z.eqb_neq _ _)) by lia. nia.
Qed.

Lemma double_bits_inv d : double_ok d -> double_of_bits (double_bits d) = d.
Proof.
  unfold double_bits, double_of_bits. intros [->|[Hm He]]; [done|]. rewrite (proj2 (Z.eqb_neq (d_mant d) 0)) by lia.
  rewrite (proj2 (Z.eqb_neq _ 0)) by nia. destruct d as [m e]; cbn [d_mant d_exp] in *.
  assert (((e + 1075) * 2 ^ 52 + (m - 2 ^ 52)) / 2 ^ 52 = e + 1075) as ->
    by (symmetry; apply Z.div_unique with (m - 2 ^ 52); lia).
  assert (((e + 1075) * 2 ^ 52 + (m - 2 ^ 52)) mod 2 ^ 52 = m - 2 ^ 52) as ->
    by (symmetry; apply Z.mod_unique with (e + 1075); lia).
  f_equal; lia.
Qed.

Section MemoryRoundtrip.
Context {T : Type} `{SlotBytesLaws T}.
Implicit Types (h : HashSet T).

Definition table_bytes h : list Z :=
  le_bytes 8 (num_elements_ h) ++ le_bytes 8 (num_buckets_ h) ++ le_bytes 8 (elements_until_expand_ h) ++
  le_bytes 8 (double_bits (min_load_factor_ h)) ++ le_bytes 8 (double_bits (max_load_factor_ h)) ++
  concat (map item_bytes (data_ h)).

(** The memory after a prefix of the table has been written. *)
Definition written (ptr : option (list Z)) (bytes : list Z) : option (list Z) :=
  (fun mem => splice mem 0 bytes) <$> ptr.

Definition fits (ptr : option (list Z)) (bytes : list Z) : Prop :=
  match ptr with Some mem => (length bytes <= length mem)%nat | None => True end.

Lemma WriteToBytes_ok ptr pre bs :
  fits ptr (pre ++ bs) ->
  WriteToBytes (written ptr pre) (Z.of_nat (length pre)) bs =
  Ok (written ptr (pre ++ bs), Z.of_nat (length (pre ++ bs))).
Proof.
  intros Hfit. unfold WriteToBytes. rewrite length_app, Nat2Z.inj_add. destruct ptr as [mem|]; [|done].
  cbn [fits] in Hfit. rewrite length_app in Hfit.
  change (written (Some mem)) with (fun bytes => Some (splice mem 0 bytes)). cbv beta iota.
  rewrite poke_all_ok; [|lia|rewrite length_splice; lia]. cbn [mbind outcome_bind mret outcome_ret]. rewrite Nat2Z.id.
  by rewrite <- (splice_splice mem 0 pre bs) by lia.
Qed.

Lemma WriteToMemory_loop_ok ptr pre data :
  fits ptr (pre ++ concat (map item_bytes data)) ->
  WriteToMemory_loop (written ptr pre) (Z.of_nat (length pre)) data =
  Ok (written ptr (pre ++ concat (map item_bytes data)), Z.of_nat (length (pre ++ concat (map item_bytes data)))).
Proof.
  revert pre. induction data as [|x data IH]; intros pre Hfit; cbn [WriteToMemory_loop map concat] in *.
  - by rewrite app_nil_r.
  - rewrite (app_assoc pre) in *. rewrite WriteToBytes_ok; [by rewrite <- IH|].
    destruct ptr; [|done]. cbn in *. rewrite length_app in Hfit. lia.
Qed.

(** [WriteToMemory] stores the bytes of the table and returns their number; a
    null pointer only asks for the number. *)
Lemma WriteToMemory_ok h ptr :
  fits ptr (table_bytes h) ->
  WriteToMemory h ptr = Ok (written ptr (table_bytes h), Z.of_nat (length (table_bytes h))).
Proof.
  intros Hfit. unfold WriteToMemory, table_bytes in *.
  assert (written ptr [] = ptr) as Hw.
  { destruct ptr as [mem|]; [|done]. unfold written, splice. cbn. by rewrite drop_0. }
  rewrite <- Hw at 1. change 0 with (Z.of_nat (length (@nil Z))) at 1.
  assert (forall l l', fits ptr (l ++ l') -> fits ptr l) as Hpre.
  { intros l l' Hl. destruct ptr; [|done]. cbn in *. rewrite length_app in Hl. lia. }
  rewrite !app_assoc in *.
  repeat (rewrite WriteToBytes_ok by (cbn [app]; eauto 8); cbn [mbind outcome_bind fst snd]).
  by apply WriteToMemory_loop_ok.
Qed.

Lemma ReadFromBytes_ok mem offset n bs rest :
  0 <= offset -> drop (Z.to_nat offset) mem = bs ++ rest -> length bs = n ->
  ReadFromBytes mem offset n = Ok (bs, offset + Z.of_nat n).
Proof.
  intros Ho Hd <-. unfold ReadFromBytes.
  assert (mapM (peek mem) (seqZ offset (Z.of_nat (length bs))) = Ok bs) as ->; [|done].
  revert offset Ho Hd. induction bs as [|b bs IH]; intros offset Ho Hd; [done|].
  cbn [length]. rewrite seqZ_cons by lia. cbn [mapM].
  pose proof (peek_at mem offset (b :: bs) rest 0 b Ho Hd ltac:(lia) eq_refl) as Hp. rewrite Z.add_0_r in Hp. rewrite Hp.
  cbn [mbind outcome_bind]. replace (Z.pred (Z.of_nat (S (length bs)))) with (Z.of_nat (length bs)) by lia.
  rewrite IH; [done|lia|]. replace (Z.to_nat (Z.succ offset)) with (Z.to_nat offset + 1)%nat by lia.
  rewrite <- drop_drop, Hd. by rewrite <- app_comm_cons.
Qed.

Lemma ReadSlots_loop_ok mem offset (data : list T) rest :
  Forall (fun x => item_of_bytes (item_bytes x) = x) data -> 0 <= offset -> drop (Z.to_nat offset) mem = concat (map item_bytes data) ++ rest ->
  ReadSlots_loop mem offset (length data) = Ok (data, offset + Z.of_nat (length (concat (map item_bytes data)))).
Proof.
  revert offset. induction data as [|x data IH]; intros offset Hinv Ho Hd; cbn [ReadSlots_loop length map concat] in *.
  - by rewrite Z.add_0_r.
  - rewrite <- app_assoc in Hd. apply Forall_cons in Hinv as [Hx Hinv].
    rewrite (ReadFromBytes_ok _ _ _ _ _ Ho Hd) by apply item_bytes_length. cbn [mbind outcome_bind fst snd].
    apply drop_next in Hd; [|done]. rewrite item_bytes_length in Hd. rewrite IH by (done || lia).
    cbn [mbind outcome_bind fst snd mret outcome_ret]. rewrite Hx, length_app, item_bytes_length.
    do 2 f_equal. lia.
Qed.

(** A table whose numbers and elements fit their fields. *)
Record serializable h : Prop := {
  sz_len : Z.of_nat (length (data_ h)) = num_buckets_ h;
  sz_elements : 0 <= num_elements_ h <= num_buckets_ h;
  sz_buckets : num_buckets_ h < 2 ^ 64;
  sz_expand : 0 <= elements_until_expand_ h < 2 ^ 64;
  sz_min : double_ok (min_load_factor_ h);
  sz_max : double_ok (max_load_factor_ h);
  sz_items : Forall (fun x => item_of_bytes (item_bytes x) = x) (data_ h);
}.

Lemma le_value_bytes8 v : 0 <= v < 2 ^ 64 -> le_value (le_bytes 8 v) = v.
Proof. intros Hv. rewrite le_value_bytes. by apply Z.mod_small. Qed.

Lemma HashSet_read_ok h mem rest copy :
  serializable h -> mem = table_bytes h ++ rest ->
  HashSet_read mem copy =
  Ok (Build_HashSet (num_elements_ h) (num_buckets_ h) (elements_until_expand_ h) copy (data_ h)
        (min_load_factor_ h) (max_load_factor_ h), Z.of_nat (length (table_bytes h))).
Proof.
  intros [Hlen Hel Hbu Hex Hmin Hmax Hit] Hmem. unfold table_bytes in *. unfold HashSet_read.
  rewrite <- !app_assoc in Hmem. change mem with (drop (Z.to_nat 0) mem) in Hmem.
  pose proof (double_bits_range _ Hmin). pose proof (double_bits_range _ Hmax).
  do 2 (erewrite ReadFromBytes_ok; [|lia|exact Hmem|apply length_le_bytes]; cbn [mbind outcome_bind fst snd];
    apply drop_next in Hmem; [|lia]; rewrite length_le_bytes in Hmem).
  rewrite !le_value_bytes8 by lia. unfold check. rewrite (proj2 (Z.leb_le _ _)) by lia. cbn [mbind outcome_bind fst snd].
  do 3 (erewrite ReadFromBytes_ok; [|lia|exact Hmem|apply length_le_bytes]; cbn [mbind outcome_bind fst snd];
    apply drop_next in Hmem; [|lia]; rewrite length_le_bytes in Hmem).
  rewrite <- Hlen at 1. rewrite Nat2Z.id. rewrite (ReadSlots_loop_ok _ _ (data_ h) rest) by (done || lia).
  cbn [mbind outcome_bind fst snd mret outcome_ret].
  rewrite !le_value_bytes8, !double_bits_inv by (done || lia). do 2 f_equal. rewrite !length_app, !length_le_bytes. lia.
Qed.

End MemoryRoundtrip.

(** ** Copies *)

Lemma mapM_slot_at {T} (data : list T) (i : nat) :
  (i <= length data)%nat ->
  mapM (slot_at data) (seqZ (Z.of_nat i) (Z.of_nat (length data - i))) = Ok (drop i data).
Proof.
  intros Hi. remember (length data - i)%nat as m eqn:Hm. revert i Hi Hm. induction m as [|m IH]; intros i Hi Hm.
  - rewrite drop_ge by lia. done.
  - rewrite seqZ_cons by lia. cbn [mapM]. destruct (lookup_lt_is_Some_2 data i) as [x Hx]; [lia|].
    rewrite (slot_at_ok data (Z.of_nat i) x) by first [lia | by rewrite Nat2Z.id]. cbn [mbind outcome_bind].
    replace (Z.pred (Z.of_nat (S m))) with (Z.of_nat m) by lia. rewrite <- Nat2Z.inj_succ, IH by lia.
    by rewrite (drop_S data x i) by done.
Qed.

(** Assignment makes an equal set that owns its slots. *)
Lemma copy_assign_ok {T} `{SlotOps T} (h other : HashSet T) :
  Z.of_nat (length (data_ other)) = num_buckets_ other ->
  copy_assign h other =
  Ok (Build_HashSet (num_elements_ other) (num_buckets_ other) (elements_until_expand_ other) true (data_ other)
        (min_load_factor_ other) (max_load_factor_ other)).
Proof.
  intros Hlen. unfold copy_assign, NumBuckets. cbn [num_buckets_ AllocateStorage]. rewrite <- Hlen.
  pose proof (mapM_slot_at (data_ other) 0) as Hm. rewrite Nat.sub_0_r in Hm. change (Z.of_nat 0) with 0 in Hm. by rewrite Hm by lia.
Qed.

(** ** Tables without room *)

Section Full.
Context {T K : Type} `{SlotLaws T} `{KeyOps T K} `{!KeyLaws T K}.
Implicit Types (h : HashSet T) (data : list T) (key : K).

Lemma all_full data i : length (elements data) = length data -> 0 <= i < Z.of_nat (length data) -> full data i = true.
Proof.
  intros Heq Hi. destruct (slot_lookup data i Hi) as [x Hx]. unfold full. rewrite Hx.
  destruct (IsEmpty x) eqn:Hxe; [exfalso|done]. revert Heq. clear Hi.
  rewrite <- (take_drop_middle _ _ _ Hx). unfold elements. rewrite filter_app, filter_cons, decide_False by (rewrite Hxe; done).
  rewrite !length_app. cbn [length].
  assert (forall l : list T, length (filter (fun x => IsEmpty x = false) l) <= length l)%nat as Hle by (intros; apply length_filter).
  pose proof (Hle (take (Z.to_nat i) data)). pose proof (Hle (drop (S (Z.to_nat i)) data)). lia.
Qed.

(** On a table without an empty slot the loop of [FindIndex] never ends. *)
Lemma FindIndex_full h key fuel i :
  length (elements (data_ h)) = length (data_ h) -> Z.of_nat (length (data_ h)) = num_buckets_ h ->
  (forall x, x ∈ elements (data_ h) -> pred x key = false) -> 0 <= i < num_buckets_ h ->
  FindIndex_loop fuel h key i = Fault OutOfFuel.
Proof.
  intros Hall Hlen Hno. revert i. induction fuel as [|fuel IH]; intros i Hi; [done|]. cbn [FindIndex_loop].
  pose proof (all_full (data_ h) i Hall ltac:(lia)) as (x & Hx & Hxe)%full_lookup. unfold ElementForIndex.
  rewrite (slot_at_ok _ _ x) by (done || lia). cbn [mbind outcome_bind]. rewrite Hxe, Hno.
  - apply IH. rewrite NextIndex_step by done. apply Z.mod_pos_bound. lia.
  - apply elem_of_elements. split; [done|]. by apply list_elem_of_lookup_2 in Hx.
Qed.

(** Dividing fewer than nine elements by the load factor gives as many buckets. *)
Lemma shrink_size n : 1 <= n <= 8 -> size_of_double (double_div (double_of_size n) kDefaultMaxLoadFactor) = n.
Proof.
  intros Hn. assert (n = 1 \/ n = 2 \/ n = 3 \/ n = 4 \/ n = 5 \/ n = 6 \/ n = 7 \/ n = 8) as Hcases by lia.
  destruct_or! Hcases; subst n; vm_compute; reflexivity.
Qed.

End Full.

(** ** The set of pointers *)

(** [DefaultEmptyFn<T*>] with some hash of addresses. *)
Definition DefaultEmptyFn_ptr (hash : Z -> Z) : SlotOps Z :=
  {| default_item := 0; MakeEmpty := fun _ => 0; IsEmpty := fun item => item =? 0; hashfn := hash |}.

Definition equal_to (hash : Z -> Z) : KeyOps Z Z := {| hashkey := hash; pred := Z.eqb |}.

Section Pointers.
Context (hash : Z -> Z) (Hhash : forall x, 0 <= hash x < 2 ^ 64).

Lemma ptr_slot_laws : @SlotLaws Z (DefaultEmptyFn_ptr hash).
Proof. by constructor. Qed.

Lemma ptr_key_laws : @KeyLaws Z Z (DefaultEmptyFn_ptr hash) (equal_to hash).
Proof. constructor. intros x k Hk%Z.eqb_eq. cbn. by rewrite Hk. Qed.

End Pointers.

#[local] Instance u64_slot_ops : SlotOps Z := DefaultEmptyFn_ptr u64.
#[local] Instance u64_key_ops : KeyOps Z Z := equal_to u64.
#[local] Instance u64_slot_laws : SlotLaws Z := ptr_slot_laws u64 u64_range.
#[local] Instance u64_key_laws : KeyLaws Z Z := ptr_key_laws u64.

(** One-byte elements in memory. *)
Definition flag_bytes : SlotBytes bool :=
  {| sizeof_item := 1; item_bytes := fun b : bool => [if b then 1 else 0];
     item_of_bytes := fun bs => negb (le_value bs =? 0) |}.

Lemma flag_bytes_laws : @SlotBytesLaws bool flag_bytes.
Proof. by constructor; intros []. Qed.

(** The results of a run that returned. *)
Definition results {A B} (r : outcome (A * list B)) : list B :=
  match r with Ok (_, rs) => rs | Fault _ => [] end.

(** ** What the set guarantees *)

(** C7. From the empty set, every sequence of insertions, lookups, erasures,
    clears, size queries and iterations returns, without a fault and without
    looping for ever, and its results are those of a multiset: a lookup finds
    an element that matches exactly when there is one, an erasure removes one
    matching element, and an iteration visits every element once. *)
Theorem hash_set_refines {T K} `{SlotLaws T} `{KeyOps T K} `{!KeyLaws T K} (ops : list (op (T := T) (K := K))) :
  Z.of_nat (length ops) <= 2 ^ 49 -> Forall op_ok ops ->
  exists (h : HashSet T) rs, run HashSet_new ops = Ok (h, rs) /\ wf h /\ spec_run [] ops rs (elements (data_ h)).
Proof.
  intros Hlen Hops. destruct (run_refines ops HashSet_new) as (h & rs & Hrun & Hwf & Hspec); [apply HashSet_new_wf|cbn; lia|done|].
  rewrite HashSet_new_elements in Hspec. by exists h, rs.
Qed.

Lemma hash_set_refines_witness :
  exists (h : HashSet Z) rs,
    run HashSet_new [OpInsert 7; OpInsert 1007; OpErase 7; OpFind 1007; OpFind 7] = Ok (h, rs) /\
    rs = [RetUnit; RetUnit; RetItem (Some 7); RetItem (Some 1007); RetItem None] /\
    spec_run [] [OpInsert 7; OpInsert 1007; OpErase 7; OpFind 1007; OpFind 7] rs (elements (data_ h)).
Proof.
  destruct (hash_set_refines [OpInsert 7; OpInsert 1007; OpErase 7; OpFind 1007; OpFind 7]) as (h & rs & Hrun & _ & Hspec).
  - cbn. lia.
  - repeat constructor.
  - exists h, rs. split; [exact Hrun|]. split; [|exact Hspec].
    assert (results (run HashSet_new [OpInsert 7; OpInsert 1007; OpErase 7; OpFind 1007; OpFind 7])
            = [RetUnit; RetUnit; RetItem (Some 7); RetItem (Some 1007); RetItem None]) as Hres by (vm_compute; reflexivity).
    rewrite Hrun in Hres. exact Hres.
Defined.

(** [Verify] returns on every table, and it finds no errors exactly when
    no element has an empty slot between its ideal slot and its slot, the
    invariant that [Find] and [HashSet_Erase] rely on. *)
Theorem verify_decides_probing {T} `{SlotLaws T} (h : HashSet T) :
  Z.of_nat (length (data_ h)) = num_buckets_ h ->
  exists errors, Verify h = Ok errors /\ 0 <= errors /\
    (errors = 0 <-> probe_inv (num_buckets_ h) (data_ h) (fun _ => False)).
Proof. apply Verify_decides. Qed.

Lemma verify_decides_probing_witness :
  exists errors,
    Verify (Build_HashSet 1 3 2 true [0; 0; 7] kDefaultMinLoadFactor kDefaultMaxLoadFactor) = Ok errors /\
    errors = 1 /\ ~ probe_inv 3 [0; 0; 7] (fun _ => False).
Proof.
  destruct (verify_decides_probing (Build_HashSet 1 3 2 true [0; 0; 7] kDefaultMinLoadFactor kDefaultMaxLoadFactor) eq_refl)
    as (e & Hv & _ & Hiff).
  exists e. split; [exact Hv|]. vm_compute in Hv. injection Hv as <-. split; [reflexivity|].
  intros Hp. apply Hiff in Hp. discriminate Hp.
Defined.

(** A table written with [WriteToMemory] into a buffer of the size that
    the call with a null pointer returns is read back by the constructor as the
    same table, and both count the same bytes. *)
Theorem hash_set_memory_roundtrip {T} `{SlotBytesLaws T} (h : HashSet T) (mem : list Z) (copy : bool) size :
  serializable h -> WriteToMemory h None = Ok (None, size) -> size <= Z.of_nat (length mem) ->
  exists mem', WriteToMemory h (Some mem) = Ok (Some mem', size) /\
    HashSet_read mem' copy =
    Ok (Build_HashSet (num_elements_ h) (num_buckets_ h) (elements_until_expand_ h) copy (data_ h)
          (min_load_factor_ h) (max_load_factor_ h), size).
Proof.
  intros Hser Hsize Hle. rewrite (WriteToMemory_ok h None) in Hsize by done.
  assert (size = Z.of_nat (length (table_bytes h))) as -> by congruence. clear Hsize.
  rewrite (WriteToMemory_ok h (Some mem)) by (cbn [fits]; lia). exists (splice mem 0 (table_bytes h)). split; [done|].
  by apply HashSet_read_ok with (drop (length (table_bytes h)) mem).
Qed.

Lemma hash_set_memory_roundtrip_witness :
  @HashSet_read bool flag_bytes
    (le_bytes 8 1 ++ le_bytes 8 2 ++ le_bytes 8 1 ++ le_bytes 8 4602678819172646912 ++ le_bytes 8 4606281698874543309
     ++ [0; 1]) true
  = Ok (Build_HashSet 1 2 1 true [false; true] kDefaultMinLoadFactor kDefaultMaxLoadFactor, 42).
Proof.
  destruct (@hash_set_memory_roundtrip bool flag_bytes flag_bytes_laws
    (Build_HashSet 1 2 1 false [false; true] kDefaultMinLoadFactor kDefaultMaxLoadFactor) (replicate 42 0) true 42)
    as (mem' & Hw & Hr).
  - constructor; cbn; try lia; [right; cbn; lia|right; cbn; lia|]. repeat constructor.
  - vm_compute. reflexivity.
  - cbn. lia.
  - vm_compute in Hw. injection Hw as <-. exact Hr.
Defined.

(** A set of one to eight elements that [ShrinkToMaximumLoad] shrinks has no
    empty slot left: looking up a key that is not in it never ends, however
    many steps it is given. *)
Theorem shrink_then_find_diverges {T K} `{SlotLaws T} `{KeyOps T K} (h : HashSet T) (key : K) :
  wf h -> 1 <= Size h <= 8 -> (forall x, x ∈ elements (data_ h) -> pred x key = false) ->
  exists h' index, ShrinkToMaximumLoad h = Ok h' /\ IndexForHash h' (hashkey key) = Ok index /\
    forall fuel, FindIndex_loop fuel h' key index = Fault OutOfFuel.
Proof.
  intros Hwf Hsz Hno. unfold ShrinkToMaximumLoad. rewrite (wf_max h Hwf). unfold Size in *. rewrite shrink_size by done.
  pose proof (wf_size h Hwf) as Hn. destruct (Resize_ok h (num_elements_ h)) as (data & -> & [Hl Hp _] & Hlen & Hel); [lia|lia|].
  set (h' := with_data _ data) in *. destruct (IndexForHash_ok h' (hashkey key) Hp) as [Hi Hr].
  exists h', (hashkey key mod num_buckets_ h'). split_and!; [done|done|]. intros fuel.
  apply FindIndex_full; [|done| |done]; unfold h'; cbn [data_ with_data].
  - rewrite Hel. lia.
  - intros x. rewrite Hel. apply Hno.
Qed.

Lemma shrink_then_find_diverges_witness :
  exists (h h' : HashSet Z) index,
    Insert HashSet_new 5 = Ok h /\ ShrinkToMaximumLoad h = Ok h' /\
    forall fuel, FindIndex_loop fuel h' 6 index = Fault OutOfFuel.
Proof.
  destruct (Insert_ok HashSet_new 5) as (h & Hins & Hwf & Hel); [apply HashSet_new_wf|cbn; lia|reflexivity|].
  assert (elements (data_ h) ≡ₚ [5]) as Hp by (rewrite Hel; reflexivity).
  destruct (shrink_then_find_diverges h 6) as (h' & i & Hshrink & Hi & Hdiv).
  - exact Hwf.
  - unfold Size. rewrite (wf_size h Hwf), Hp. cbn. lia.
  - intros x Hx. rewrite Hp in Hx. apply list_elem_of_singleton in Hx as ->. reflexivity.
  - exists h, h', i. split; [exact Hins|]. split; [exact Hshrink|exact Hdiv].
Defined.
