(* ===== verification/DexLookup.v ===== *)
(** * [dex_file.cc]: finding things in the sorted tables of a dex file

    The ids of a dex file are sorted tables: strings by their contents, types
    by the index of their descriptor, fields and methods by class, name and
    type, prototypes by return type and parameters, try items by address.
    [FindStringId], [FindTypeId], [FindFieldId], [FindMethodId], [FindProtoId]
    and [FindTryItem] search them by bisection, and the theorems show that
    they find what a scan of the table from its start would find.

    [FindClassDef] bisects twice and scans, and after a hundred misses builds a
    hash table ([HashSet], as the [HashMap] of [base/hash_map.h]); the answers
    are shown not to depend on which of the two it uses.  [CreateSignature]
    parses what [Signature::ToString] prints.

    A pointer into a table is its index.  The data of a string id is the
    modified UTF-8 of a UTF-16 string, ended by a zero, as the dex file verifier
    requires. *)

From S2P Require Import Prelude Utf HashSet.

(** ** Strings *)

Record utf_string := mk_utf_string {
  units : list Z;
  units_range : forallb (fun ch => (0 <=? ch) && (ch <? 2 ^ 16)) units = true;
}.

(** The characters before the zero, and with it. *)
Definition c_chars (s : utf_string) : list Z := ConvertUtf16ToModifiedUtf8 (units s).
Definition c_str (s : utf_string) : list Z := c_chars s ++ [0].

(** ** The tables *)

Record FieldIdItem := mkFieldIdItem { fi_class_idx_ : Z; fi_type_idx_ : Z; fi_name_idx_ : Z }.
Record MethodIdItem := mkMethodIdItem { mi_class_idx_ : Z; mi_proto_idx_ : Z; mi_name_idx_ : Z }.

(** A prototype with its list of parameter types (empty when the item has
    none). *)
Record ProtoIdItem := mkProtoIdItem { pi_return_type_idx_ : Z; pi_parameters : list Z }.

Record ClassDefItem := mkClassDefItem { cd_class_idx_ : Z }.

Record TryItem := mkTryItem { start_addr_ : Z; insn_count_ : Z; handler_off_ : Z }.

Record DexTables := mkDexTables {
  string_ids_ : list utf_string;
  type_ids_ : list Z;          (** [descriptor_idx_] *)
  field_ids_ : list FieldIdItem;
  method_ids_ : list MethodIdItem;
  proto_ids_ : list ProtoIdItem;
  class_defs_ : list ClassDefItem;
}.

(** The number of entries of a table. *)
Definition Num {A} (table : list A) : Z := Z.of_nat (length table).

(** [table[idx]]. *)
Definition GetId {A} (table : list A) (idx : Z) : outcome A :=
  if 0 <=? idx then
    match table !! Z.to_nat idx with Some x => Ok x | None => Fault OutOfBounds end
  else Fault OutOfBounds.

Definition GetIndexForStringId (d : DexTables) (string_id : Z) : outcome Z :=
  _ ← check ((0 <=? string_id) && (string_id <? Num (string_ids_ d)));
  mret string_id.

Definition GetIndexForTypeId (d : DexTables) (type_id : Z) : outcome Z :=
  _ ← check ((0 <=? type_id) && (type_id <? Num (type_ids_ d)));
  mret (u16 type_id).

Definition GetIndexForProtoId (d : DexTables) (proto_id : Z) : outcome Z :=
  _ ← check ((0 <=? proto_id) && (proto_id <? Num (proto_ids_ d)));
  mret (u16 proto_id).

Definition StringByTypeIdx (d : DexTables) (idx : Z) : outcome utf_string :=
  descriptor_idx ← GetId (type_ids_ d) idx; GetId (string_ids_ d) descriptor_idx.

Definition GetClassDescriptor (d : DexTables) (class_def : ClassDefItem) : outcome utf_string :=
  StringByTypeIdx d (cd_class_idx_ class_def).

(** ** Bisection

    The loop all searches share: [compare mid] is positive when what is looked
    for comes after the entry [mid], negative when it comes before. *)
Fixpoint binary_search (fuel : nat) (compare : Z -> outcome Z) (lo hi : Z) : outcome (option Z) :=
  match fuel with
  | O => Fault OutOfFuel
  | S fuel =>
      if lo <=? hi then
        let mid := Z.quot (s32 (hi + lo)) 2 in
        c ← compare mid;
        if 0 <? c then binary_search fuel compare (mid + 1) hi
        else if c <? 0 then binary_search fuel compare lo (mid - 1)
        else mret (Some mid)
      else mret None
  end.

(** [lo = 0; hi = n - 1;] and the loop. *)
Definition search (n : Z) (compare : Z -> outcome Z) : outcome (option Z) :=
  binary_search (S (Z.to_nat n)) compare 0 (s32 (n - 1)).

Definition FindStringId (d : DexTables) (string : list Z) : outcome (option Z) :=
  search (Num (string_ids_ d)) (fun mid =>
    str ← GetId (string_ids_ d) mid;
    CompareModifiedUtf8ToModifiedUtf8AsUtf16CodePointValues string 0 (c_str str) 0).

(** [FindStringId(const uint16_t*, size_t)]. *)
Definition FindStringIdUtf16 (d : DexTables) (string : list Z) : outcome (option Z) :=
  search (Num (string_ids_ d)) (fun mid =>
    str ← GetId (string_ids_ d) mid;
    CompareModifiedUtf8ToUtf16AsCodePointValues (c_str str) 0 string).

Definition FindTypeId (d : DexTables) (string_idx : Z) : outcome (option Z) :=
  search (Num (type_ids_ d)) (fun mid =>
    descriptor_idx ← GetId (type_ids_ d) mid;
    mret (if descriptor_idx <? string_idx then 1
          else if string_idx <? descriptor_idx then -1
          else 0)).

Definition FindFieldId (d : DexTables) (declaring_klass name type : Z) : outcome (option Z) :=
  class_idx ← GetIndexForTypeId d declaring_klass;
  name_idx ← GetIndexForStringId d name;
  type_idx ← GetIndexForTypeId d type;
  search (Num (field_ids_ d)) (fun mid =>
    field ← GetId (field_ids_ d) mid;
    mret (if fi_class_idx_ field <? class_idx then 1
          else if class_idx <? fi_class_idx_ field then -1
          else if fi_name_idx_ field <? name_idx then 1
          else if name_idx <? fi_name_idx_ field then -1
          else if fi_type_idx_ field <? type_idx then 1
          else if type_idx <? fi_type_idx_ field then -1
          else 0)).

Definition FindMethodId (d : DexTables) (declaring_klass name signature : Z) : outcome (option Z) :=
  class_idx ← GetIndexForTypeId d declaring_klass;
  name_idx ← GetIndexForStringId d name;
  proto_idx ← GetIndexForProtoId d signature;
  search (Num (method_ids_ d)) (fun mid =>
    method ← GetId (method_ids_ d) mid;
    mret (if mi_class_idx_ method <? class_idx then 1
          else if class_idx <? mi_class_idx_ method then -1
          else if mi_name_idx_ method <? name_idx then 1
          else if name_idx <? mi_name_idx_ method then -1
          else if mi_proto_idx_ method <? proto_idx then 1
          else if proto_idx <? mi_proto_idx_ method then -1
          else 0)).

(** The loop over the parameters: stops at the first difference, or at the end
    of one of the lists. *)
Fixpoint compare_parameters (signature_type_idxs parameters : list Z) : Z :=
  match parameters, signature_type_idxs with
  | p :: parameters, s :: signature_type_idxs =>
      if s - p =? 0 then compare_parameters signature_type_idxs parameters else s - p
  | _ :: _, [] => -1
  | [], _ :: _ => 1
  | [], [] => 0
  end.

Definition FindProtoId (d : DexTables) (return_type_idx : Z) (signature_type_idxs : list Z)
  : outcome (option Z) :=
  search (Num (proto_ids_ d)) (fun mid =>
    proto ← GetId (proto_ids_ d) mid;
    let compare := return_type_idx - pi_return_type_idx_ proto in
    mret (if compare =? 0 then compare_parameters signature_type_idxs (pi_parameters proto)
          else compare)).

(** [FindTryItem] computes the middle as [min + (max - min) / 2]. *)
Fixpoint FindTryItem_loop (fuel : nat) (tries : list TryItem) (address min max : Z) : outcome Z :=
  match fuel with
  | O => Fault OutOfFuel
  | S fuel =>
      if min <=? max then
        let mid := min + Z.quot (max - min) 2 in
        ti ← GetId tries mid;
        let start := start_addr_ ti in
        let end_ := u32 (start + insn_count_ ti) in
        if address <? start then FindTryItem_loop fuel tries address min (mid - 1)
        else if end_ <=? address then FindTryItem_loop fuel tries address (mid + 1) max
        else mret mid
      else mret (-1)
  end.

Definition FindTryItem (tries : list TryItem) (address : Z) : outcome Z :=
  FindTryItem_loop (S (length tries)) tries address 0 (Num tries - 1).

Definition FindCatchHandlerOffset (tries : list TryItem) (address : Z) : outcome Z :=
  try_item ← FindTryItem tries address;
  if try_item =? -1 then mret (-1)
  else ti ← GetId tries try_item; mret (handler_off_ ti).

(** ** Classes *)

(** An entry of the class index: a descriptor and a class, or the empty pair. *)
Definition IndexEntry : Type := option (utf_string * Z).

(** [UTF16HashCmp]. *)
Definition UTF16Hash (key : utf_string) : Z :=
  match ComputeModifiedUtf8Hash (c_str key) 0 with Ok h => h | Fault _ => 0 end.

Definition UTF16Cmp (a b : utf_string) : bool :=
  match CompareModifiedUtf8ToModifiedUtf8AsUtf16CodePointValues (c_str a) 0 (c_str b) 0 with
  | Ok c => c =? 0
  | Fault _ => false
  end.

(** [UTF16EmptyFn] and [HashMapWrapper]: a pair is hashed and compared by its
    key. *)
#[export] Instance index_slots : SlotOps IndexEntry :=
  {| default_item := None; MakeEmpty := fun _ => None;
     IsEmpty := fun e => match e with None => true | Some _ => false end;
     hashfn := fun e => match e with Some (key, _) => UTF16Hash key | None => 0 end |}.

#[export] Instance index_keys : KeyOps IndexEntry utf_string :=
  {| hashkey := UTF16Hash;
     pred := fun e key => match e with Some (a, _) => UTF16Cmp a key | None => false end |}.

(** What [FindClassDef] changes: [find_class_def_misses_] and
    [class_def_index_]. *)
Record ClassDefCache := mkClassDefCache {
  find_class_def_misses_ : Z;
  class_def_index_ : option (HashSet IndexEntry);
}.

Definition kMaxFailedDexClassDefLookups : Z := 100.

(** The first class definition of the type. *)
Fixpoint class_def_of_type (class_defs : list ClassDefItem) (type_idx i : Z) : option Z :=
  match class_defs with
  | [] => None
  | class_def :: class_defs =>
      if cd_class_idx_ class_def =? type_idx then Some i else class_def_of_type class_defs type_idx (i + 1)
  end.

(** [FindClassDef(uint16_t)]. *)
Definition FindClassDefByType (d : DexTables) (type_idx : Z) : option Z :=
  class_def_of_type (class_defs_ d) type_idx 0.

(** The loop that fills the index. *)
Fixpoint build_index (d : DexTables) (class_defs : list ClassDefItem) (i : Z) (index : HashSet IndexEntry)
  : outcome (HashSet IndexEntry) :=
  match class_defs with
  | [] => mret index
  | class_def :: class_defs =>
      class_descriptor ← GetClassDescriptor d class_def;
      index ← Insert index (Some (class_descriptor, i));
      build_index d class_defs (i + 1) index
  end.

(** The two bisections and the scan. *)
Definition search_class_def (d : DexTables) (descriptor : utf_string) : outcome (option Z) :=
  string_id ← FindStringId d (c_str descriptor);
  match string_id with
  | None => mret None
  | Some string_id =>
      string_idx ← GetIndexForStringId d string_id;
      type_id ← FindTypeId d string_idx;
      match type_id with
      | None => mret None
      | Some type_id =>
          type_idx ← GetIndexForTypeId d type_id;
          mret (class_def_of_type (class_defs_ d) type_idx 0)
      end
  end.

(** A miss: it is counted, and the hundred and first builds the index. *)
Definition count_miss (d : DexTables) : M ClassDefCache unit :=
  old_misses ← gets find_class_def_misses_;
  modify (fun c => mkClassDefCache (u32 (old_misses + 1)) (class_def_index_ c)) ;;
  whenM (old_misses =? kMaxFailedDexClassDefLookups)
    (index ← gets class_def_index_;
     checkM (match index with None => true | Some _ => false end) ;;
     index ← lift (build_index d (class_defs_ d) 0 HashSet_new);
     modify (fun c => mkClassDefCache (find_class_def_misses_ c) (Some index))).

Definition FindClassDef (d : DexTables) (descriptor : utf_string) (hash : Z) : M ClassDefCache (option Z) :=
  index ← gets class_def_index_;
  match index with
  | Some index =>
      it ← lift (FindWithHash index descriptor hash);
      if it =? end_ index then mret None
      else e ← lift (ElementForIndex index it);
           mret (snd <$> e)
  | None =>
      if Num (class_defs_ d) =? 0 then mret None
      else
        found ← lift (search_class_def d descriptor);
        match found with
        | Some class_def => mret (Some class_def)
        | None => count_miss d ;; mret None
        end
  end.

(** ** Signatures *)

(** The characters of a signature, as bytes. *)
Definition chr (c : Ascii.ascii) : Z := Z.of_N (N_of_ascii c).

(** [while (c == '[')]: the array prefix.  The result is the last character
    read and the offset after it, or nothing when the string ends. *)
Fixpoint skip_array (fuel : nat) (signature : list Z) (c offset : Z) : outcome (option (Z * Z)) :=
  match fuel with
  | O => Fault OutOfFuel
  | S fuel =>
      if c =? chr "[" then
        if Num signature <=? offset then mret None
        else c ← GetId signature offset; skip_array fuel signature c (offset + 1)
      else mret (Some (c, offset))
  end.

(** [do ... while (c != ';')]. *)
Fixpoint skip_class (fuel : nat) (signature : list Z) (offset : Z) : outcome (option Z) :=
  match fuel with
  | O => Fault OutOfFuel
  | S fuel =>
      if Num signature <=? offset then mret None
      else
        c ← GetId signature offset;
        if c =? chr ";" then mret (Some (offset + 1)) else skip_class fuel signature (offset + 1)
  end.

(** The type of a descriptor, when the file has it. *)
Definition find_descriptor (d : DexTables) (descriptor : list Z) : outcome (option Z) :=
  string_id ← FindStringId d (descriptor ++ [0]);
  match string_id with
  | None => mret None
  | Some string_id =>
      string_idx ← GetIndexForStringId d string_id;
      type_id ← FindTypeId d string_idx;
      match type_id with
      | None => mret None
      | Some type_id => type_idx ← GetIndexForTypeId d type_id; mret (Some type_idx)
      end
  end.

(** One descriptor that starts at [start_offset] with [c]: its end. *)
Definition scan_descriptor (signature : list Z) (c offset : Z) : outcome (option Z) :=
  let fuel := S (length signature) in
  r ← skip_array fuel signature c offset;
  match r with
  | None => mret None
  | Some (c, offset) =>
      if c =? chr "L" then skip_class fuel signature offset else mret (Some offset)
  end.

(** The loop of [CreateTypeList]: the parameters and the return type, or
    nothing where the code returns false. *)
Fixpoint CreateTypeList_loop (fuel : nat) (d : DexTables) (signature : list Z) (offset : Z)
    (process_return : bool) (param_type_idxs : list Z) : outcome (option (list Z * Z)) :=
  match fuel with
  | O => Fault OutOfFuel
  | S fuel =>
      if offset <? Num signature then
        let start_offset := offset in
        c ← GetId signature offset;
        let offset := offset + 1 in
        if c =? chr ")" then CreateTypeList_loop fuel d signature offset true param_type_idxs
        else
          r ← scan_descriptor signature c offset;
          match r with
          | None => mret None
          | Some offset =>
              type_idx ← find_descriptor d (take (Z.to_nat (offset - start_offset)) (drop (Z.to_nat start_offset) signature));
              match type_idx with
              | None => mret None
              | Some type_idx =>
                  if process_return then
                    mret (if offset =? Num signature then Some (param_type_idxs, type_idx) else None)
                  else CreateTypeList_loop fuel d signature offset process_return (param_type_idxs ++ [type_idx])
              end
          end
      else mret None
  end.

Definition CreateTypeList (d : DexTables) (signature : list Z) : outcome (option (list Z * Z)) :=
  c ← GetId signature 0;
  if negb (c =? chr "(") then mret None
  else CreateTypeList_loop (S (length signature)) d signature 1 false [].

(** [CreateSignature]: the prototype, [NoSignature] when there is none. *)
Definition CreateSignature (d : DexTables) (signature : list Z) : outcome (option Z) :=
  r ← CreateTypeList d signature;
  match r with
  | None => mret None
  | Some (param_type_indices, return_type_idx) => FindProtoId d return_type_idx param_type_indices
  end.

(** [Signature::ToString]. *)
Definition Signature_ToString (d : DexTables) (proto : ProtoIdItem) : outcome (list Z) :=
  params ← mapM (StringByTypeIdx d) (pi_parameters proto);
  ret ← StringByTypeIdx d (pi_return_type_idx_ proto);
  mret ([chr "("] ++ concat (map c_chars params) ++ [chr ")"] ++ c_chars ret).

(** ** The order of strings *)

(** A string as the numbers the comparison sees: a surrogate pair is one, and a
    character on its own has an empty second half. *)
Fixpoint tokens (us : list Z) : list Z :=
  match us with
  | [] => []
  | ch :: us =>
      match us with
      | ch2 :: us2 =>
          if is_leading ch && is_trailing ch2 then ch * 2 ^ 16 + ch2 :: tokens us2 else ch * 2 ^ 16 :: tokens us
      | [] => [ch * 2 ^ 16]
      end
  end.

Definition untoken (t : Z) : list Z :=
  if t mod 2 ^ 16 =? 0 then [t / 2 ^ 16] else [t / 2 ^ 16; t mod 2 ^ 16].

Lemma tokens_char ch us : paired (ch :: us) = false -> tokens (ch :: us) = ch * 2 ^ 16 :: tokens us.
Proof. destruct us as [|ch2 us]; [done|]. cbn [paired tokens]. by intros ->. Qed.

Lemma tokens_pair ch ch2 us :
  is_leading ch = true -> is_trailing ch2 = true -> tokens (ch :: ch2 :: us) = ch * 2 ^ 16 + ch2 :: tokens us.
Proof. cbn [tokens]. by intros -> ->. Qed.

Lemma tokens_inv us : Forall (fun ch => 0 <= ch < 2 ^ 16) us -> flat_map untoken (tokens us) = us.
Proof.
  induction us as [|ch ch2 us H1 H2 IH|ch us H IH] using utf16_ind; intros Hus; [done|..].
  - apply Forall_cons in Hus as [Hc1 [Hc2 Hus]%Forall_cons]. rewrite tokens_pair by done. cbn [flat_map].
    rewrite IH by done. destruct (surrogate_ranges ch ch2 H1 H2). unfold untoken. change (2 ^ 16) with 65536 in *.
    assert ((ch * 65536 + ch2) mod 65536 = ch2) as -> by mlia.
    assert ((ch * 65536 + ch2) / 65536 = ch) as -> by mlia. by rewrite (proj2 (Z.eqb_neq ch2 0)) by lia.
  - apply Forall_cons in Hus as [Hc Hus]. rewrite tokens_char by done. cbn [flat_map]. rewrite IH by done.
    unfold untoken. by rewrite Z.mod_mul, Z.div_mul by lia.
Qed.

Lemma token_step data tail us ptr :
  us <> [] -> Forall (fun ch => 0 <= ch < 2 ^ 16) us -> 0 <= ptr ->
  drop (Z.to_nat ptr) data = ConvertUtf16ToModifiedUtf8 us ++ 0 :: tail ->
  exists b ch ch2 n us', peek data ptr = Ok b /\ b <> 0 /\ 0 <= n /\
    GetUtf16FromUtf8 data ptr = Ok (ch + ch2 * 2 ^ 16, ptr + n) /\
    drop (Z.to_nat (ptr + n)) data = ConvertUtf16ToModifiedUtf8 us' ++ 0 :: tail /\
    tokens us = ch * 2 ^ 16 + ch2 :: tokens us' /\ 0 <= ch < 2 ^ 16 /\ 0 <= ch2 < 2 ^ 16 /\
    (length us' < length us)%nat /\ Forall (fun ch => 0 <= ch < 2 ^ 16) us'.
Proof.
  intros Hne Hus Hp Hd. destruct us as [|ch us]; [done|]. destruct (paired (ch :: us)) eqn:Hpair.
  - destruct us as [|ch2 us]; [done|]. apply andb_prop in Hpair as [H1 H2].
    apply Forall_cons in Hus as [Hc1 [Hc2 Hus]%Forall_cons]. rewrite encode_pair, <- app_assoc in Hd by done.
    destruct (pair_step data ptr ch ch2 _ Hp H1 H2 Hd) as ((b & Hb & Hbr) & Hget & Hd').
    exists b, ch, ch2, 4, us. rewrite tokens_pair by done. cbn [length]. split_and!; try done; lia.
  - apply Forall_cons in Hus as [Hc Hus]. rewrite encode_char, <- app_assoc in Hd by done.
    destruct (char_step data ptr ch _ Hp Hc Hd) as (b & n & Hb & Hn & Hbr & Hget & Hd').
    exists b, ch, 0, n, us. rewrite tokens_char by done. cbn [length]. rewrite Z.mul_0_l, !Z.add_0_r.
    split_and!; try done; lia.
Qed.

Lemma leading_diff ch1 ch2 :
  0 <= ch1 < 2 ^ 16 -> 0 <= ch2 < 2 ^ 16 ->
  (u32 (ch1 - ch2) =? 0) = (ch1 =? ch2) /\ s32 (u32 (ch1 - ch2)) = ch1 - ch2.
Proof.
  intros H1 H2. unfold s32, u32. change (2 ^ 32) with 4294967296. change (2 ^ 31) with 2147483648.
  change (2 ^ 16) with 65536 in *. split; [|mlia]. apply eq_true_iff_eq. rewrite !Z.eqb_eq. mlia.
Qed.

(** The comparison of two strings is the lexicographic order of their tokens. *)
Lemma compare_utf8_ok n : forall us vs fuel data1 tail1 ptr1 data2 tail2 ptr2,
  length us = n -> (length us < fuel)%nat ->
  Forall (fun ch => 0 <= ch < 2 ^ 16) us -> Forall (fun ch => 0 <= ch < 2 ^ 16) vs ->
  0 <= ptr1 -> drop (Z.to_nat ptr1) data1 = ConvertUtf16ToModifiedUtf8 us ++ 0 :: tail1 ->
  0 <= ptr2 -> drop (Z.to_nat ptr2) data2 = ConvertUtf16ToModifiedUtf8 vs ++ 0 :: tail2 ->
  exists c, compare_utf8 fuel data1 ptr1 data2 ptr2 = Ok c /\ Z.sgn c = lex (tokens us) (tokens vs).
Proof.
  induction n as [n IH] using lt_wf_ind. intros us vs fuel data1 tail1 ptr1 data2 tail2 ptr2 Hn Hf Hus Hvs Hp1 Hd1 Hp2 Hd2.
  destruct fuel as [|fuel]; [lia|]. cbn [compare_utf8].
  destruct (decide (us = [])) as [->|Hne1], (decide (vs = [])) as [->|Hne2];
    try (destruct (token_step data1 tail1 us ptr1 Hne1 Hus Hp1 Hd1) as (b1 & c1 & d1 & n1 & us' & -> & Hb1 & Hn1 & Hg1 & Hd1' & Ht1 & Hc1 & Hc1' & Hl1 & Hus'));
    try (destruct (token_step data2 tail2 vs ptr2 Hne2 Hvs Hp2 Hd2) as (b2 & c2 & d2 & n2 & vs' & -> & Hb2 & Hn2 & Hg2 & Hd2' & Ht2 & Hc2 & Hc2' & Hl2 & Hvs'));
    try rewrite (peek_here data1 ptr1 [] tail1 0 Hp1 Hd1); try rewrite (peek_here data2 ptr2 [] tail2 0 Hp2 Hd2);
    cbn [mbind outcome_bind].
  - by exists 0.
  - rewrite Z.eqb_refl, (proj2 (Z.eqb_neq b2 0)) by done. exists (-1). by rewrite Ht2.
  - rewrite (proj2 (Z.eqb_neq b1 0)), Z.eqb_refl by done. exists 1. by rewrite Ht1.
  - rewrite (proj2 (Z.eqb_neq b1 0)), (proj2 (Z.eqb_neq b2 0)), Hg1 by done. cbn [mbind outcome_bind]. rewrite Hg2.
    cbn [mbind outcome_bind]. rewrite Ht1, Ht2. cbn [lex].
    destruct (leading_value c1 d1 Hc1 Hc1') as [-> ->]. destruct (leading_value c2 d2 Hc2 Hc2') as [-> ->].
    assert ((c1 + d1 * 2 ^ 16 =? c2 + d2 * 2 ^ 16) = (c1 * 2 ^ 16 + d1 =? c2 * 2 ^ 16 + d2)) as ->
      by (apply eq_true_iff_eq; rewrite !Z.eqb_eq; lia).
    destruct (Z.eqb_spec (c1 * 2 ^ 16 + d1) (c2 * 2 ^ 16 + d2)) as [Heq|Hneq].
    + eapply (IH (length us')); try done; lia.
    + destruct (leading_diff c1 c2 Hc1 Hc2) as [-> ->].
      destruct (Z.eqb_spec c1 c2) as [->|Hc]; cbn [negb]; eexists; (split; [reflexivity|]);
        match goal with |- context [?a <? ?b] => destruct (Z.ltb_spec a b) end; lia.
Qed.

(** ** Lexicographic order *)

Lemma lex_cases us vs : lex us vs = -1 \/ lex us vs = 0 \/ lex us vs = 1.
Proof.
  revert vs. induction us as [|u us IH]; intros [|v vs]; cbn; auto.
  destruct (u =? v); [auto|]. destruct (v <? u); auto.
Qed.

Lemma lex_eq us vs : lex us vs = 0 <-> us = vs.
Proof.
  revert vs. induction us as [|u us IH]; intros [|v vs]; cbn; try done.
  destruct (Z.eqb_spec u v) as [->|Hne]; [rewrite IH; split; congruence|].
  split; [destruct (v <? u); done|congruence].
Qed.

Lemma lex_antisym us vs : lex vs us = - lex us vs.
Proof.
  revert vs. induction us as [|u us IH]; intros [|v vs]; cbn; try done.
  rewrite Z.eqb_sym. destruct (Z.eqb_spec u v) as [->|Hne]; [done|].
  destruct (Z.ltb_spec u v), (Z.ltb_spec v u); lia.
Qed.

Lemma lex_trans us vs ws : lex us vs = -1 -> lex vs ws = -1 -> lex us ws = -1.
Proof.
  revert vs ws. induction us as [|u us IH]; intros [|v vs] [|w ws]; cbn; try done.
  destruct (Z.eqb_spec u v) as [->|Huv], (Z.eqb_spec v w) as [->|Hvw].
  - rewrite ?Z.eqb_refl. apply IH.
  - auto.
  - rewrite (proj2 (Z.eqb_neq u w)) by done. auto.
  - destruct (Z.ltb_spec v u), (Z.ltb_spec w v); try done. intros _ _.
    rewrite (proj2 (Z.eqb_neq u w)), (proj2 (Z.ltb_ge w u)) by lia. done.
Qed.

(** ** Bisection and scanning *)

(** The index of the first entry that satisfies the test. *)
Fixpoint scan {A} (P : A -> bool) (table : list A) (i : Z) : option Z :=
  match table with
  | [] => None
  | x :: table => if P x then Some i else scan P table (i + 1)
  end.

Lemma scan_none {A} (P : A -> bool) table i :
  (forall (j : nat) x, table !! j = Some x -> P x = false) -> scan P table i = None.
Proof.
  revert i. induction table as [|x table IH]; intros i Hall; cbn; [done|].
  rewrite (Hall O x eq_refl). apply IH. intros j y Hy. by apply (Hall (S j)).
Qed.

Lemma scan_unique {A} (P : A -> bool) table i (j : nat) x :
  table !! j = Some x -> P x = true -> (forall (k : nat) y, (k < j)%nat -> table !! k = Some y -> P y = false) ->
  scan P table i = Some (i + Z.of_nat j).
Proof.
  revert i j. induction table as [|y table IH]; intros i j Hx HP Hbefore; [done|]. destruct j as [|j]; cbn.
  - injection Hx as ->. rewrite HP. f_equal. lia.
  - rewrite (Hbefore O y) by (done || lia). rewrite (IH (i + 1) j); [f_equal; lia|done|done|].
    intros k z Hk Hz. apply (Hbefore (S k)); [lia|done].
Qed.

Lemma scan_some {A} (P : A -> bool) table i k :
  scan P table i = Some k -> exists (j : nat) x, k = i + Z.of_nat j /\ table !! j = Some x /\ P x = true.
Proof.
  revert i. induction table as [|y table IH]; intros i Hs; [done|]. cbn in Hs. destruct (P y) eqn:HP.
  - injection Hs as <-. exists O, y. split_and!; [lia|done|done].
  - destruct (IH _ Hs) as (j & x & -> & Hx & Hpx). exists (S j), x. split_and!; [lia|done|done].
Qed.

(** A table sorted strictly by a key that is a list of numbers. *)
Definition sorted_by {A} (key : A -> list Z) (table : list A) : Prop :=
  forall (i j : nat) x y, (i < j)%nat -> table !! i = Some x -> table !! j = Some y -> lex (key x) (key y) = -1.

(** What a search relies on: a table of a size that fits an [int32_t] with room
    for the sum of two indices. *)
Definition small {A} (table : list A) : Prop := Num table < 2 ^ 30.

Section Search.
Context {A : Type} (key : A -> list Z) (table : list A).
Context (Hsorted : sorted_by key table) (Hsmall : small table).

Lemma GetId_ok {B} (t : list B) i x : t !! Z.to_nat i = Some x -> 0 <= i -> GetId t i = Ok x.
Proof. intros Hx Hi. unfold GetId. by rewrite (proj2 (Z.leb_le _ _)), Hx. Qed.

(** What the comparison of a search does: its sign is the order of the key that
    is looked for and the key of the entry. *)
Definition compares (k : list Z) (compare : Z -> outcome Z) : Prop :=
  forall i x, 0 <= i -> table !! Z.to_nat i = Some x -> exists c, compare i = Ok c /\ Z.sgn c = lex k (key x).

Lemma binary_search_ok k compare fuel lo hi :
  compares k compare -> 0 <= lo -> hi < Num table -> lo <= hi + 1 -> hi - lo + 1 < Z.of_nat fuel ->
  (forall (i : nat) x, table !! i = Some x -> lex k (key x) = 0 -> lo <= Z.of_nat i <= hi) ->
  binary_search fuel compare lo hi = Ok (scan (fun x => lex k (key x) =? 0) table 0).
Proof.
  intros Hc. revert lo hi. induction fuel as [|fuel IH]; intros lo hi Hlo Hhi Hle Hfuel Hin; [lia|].
  cbn [binary_search]. unfold small in Hsmall. destruct (Z.leb_spec lo hi) as [Hlh|Hlh].
  - rewrite s32_small by lia. set (mid := Z.quot (hi + lo) 2).
    assert (lo <= mid <= hi) as Hmid by (unfold mid; rewrite Z.quot_div_nonneg by lia; mlia).
    unfold Num in Hhi. destruct (lookup_lt_is_Some_2 table (Z.to_nat mid)) as [x Hx]; [lia|].
    destruct (Hc mid x ltac:(lia) Hx) as (c & -> & Hsgn). cbn [mbind outcome_bind].
    destruct (Z.ltb_spec 0 c) as [Hpos|Hpos]; [|destruct (Z.ltb_spec c 0) as [Hneg|Hneg]].
    + apply IH; [lia|unfold Num; lia|lia|lia|]. intros i y Hy Hk. specialize (Hin i y Hy Hk). split; [|lia].
      destruct (Z.lt_trichotomy (Z.of_nat i) mid) as [Hlt|[Heq|Hgt]]; [|..|lia].
      * pose proof (Hsorted i (Z.to_nat mid) y x ltac:(lia) Hy Hx) as Hs. apply lex_eq in Hk as ->. lia.
      * replace (Z.to_nat mid) with i in Hx by lia. assert (y = x) as -> by congruence. lia.
    + apply IH; [lia|unfold Num; lia|lia|lia|]. intros i y Hy Hk. specialize (Hin i y Hy Hk). split; [lia|].
      destruct (Z.lt_trichotomy (Z.of_nat i) mid) as [Hlt|[Heq|Hgt]]; [lia|..].
      * replace (Z.to_nat mid) with i in Hx by lia. assert (y = x) as -> by congruence. lia.
      * pose proof (Hsorted (Z.to_nat mid) i x y ltac:(lia) Hx Hy) as Hs. apply lex_eq in Hk as ->.
        rewrite lex_antisym in Hs. lia.
    + assert (c = 0) as -> by lia. rewrite (scan_unique _ table 0 (Z.to_nat mid) x); [f_equal; f_equal; lia|done|..].
      * by rewrite <- Hsgn.
      * intros j y Hj Hy. apply Z.eqb_neq. intros Hk. pose proof (Hsorted j (Z.to_nat mid) y x ltac:(lia) Hy Hx) as Hs.
        apply lex_eq in Hk as ->. rewrite <- Hsgn in Hs. done.
  - rewrite scan_none; [done|]. intros j y Hy. apply Z.eqb_neq. intros Hk. specialize (Hin j y Hy Hk). lia.
Qed.

Lemma search_ok k compare :
  compares k compare -> search (Num table) compare = Ok (scan (fun x => lex k (key x) =? 0) table 0).
Proof.
  intros Hc. unfold search. unfold small in Hsmall. unfold Num in *. rewrite s32_small by lia.
  apply (binary_search_ok k); [done|lia|unfold Num; lia|lia|lia|].
  intros i x Hx _. apply lookup_lt_Some in Hx. lia.
Qed.

(** A scan by key gives the entry with that key. *)
Lemma scan_key (i : nat) x : table !! i = Some x -> scan (fun y => lex (key x) (key y) =? 0) table 0 = Some (Z.of_nat i).
Proof.
  intros Hx. rewrite (scan_unique _ table 0 i x); [done|done|apply Z.eqb_eq; by apply lex_eq|].
  intros j y Hj Hy. apply Z.eqb_neq. intros Hk%lex_eq. pose proof (Hsorted j i y x Hj Hy Hx) as Hs.
  rewrite Hk in Hs. pose proof (proj2 (lex_eq (key y) (key y)) eq_refl). lia.
Qed.

End Search.

(** ** The searches of the file *)

Lemma units_ok s : Forall (fun ch => 0 <= ch < 2 ^ 16) (units s).
Proof.
  destruct s as [us Hus]. cbn. apply Forall_forall. intros ch Hch.
  rewrite forallb_forall in Hus. apply list_elem_of_In, Hus in Hch. lia.
Qed.

Definition string_key (s : utf_string) : list Z := tokens (units s).
Definition field_key (f : FieldIdItem) : list Z := [fi_class_idx_ f; fi_name_idx_ f; fi_type_idx_ f].
Definition method_key (m : MethodIdItem) : list Z := [mi_class_idx_ m; mi_name_idx_ m; mi_proto_idx_ m].
Definition proto_key (p : ProtoIdItem) : list Z := pi_return_type_idx_ p :: pi_parameters p.

(** The tables are sorted, as the dex file verifier checks. *)
Record tables_sorted (d : DexTables) : Prop := {
  ts_strings : sorted_by string_key (string_ids_ d);
  ts_types : sorted_by (fun t => [t]) (type_ids_ d);
  ts_fields : sorted_by field_key (field_ids_ d);
  ts_methods : sorted_by method_key (method_ids_ d);
  ts_protos : sorted_by proto_key (proto_ids_ d);
  ts_small : small (string_ids_ d) /\ small (field_ids_ d) /\ small (method_ids_ d);
  ts_types_16 : Num (type_ids_ d) <= 2 ^ 16;
  ts_protos_16 : Num (proto_ids_ d) <= 2 ^ 16;
}.

Lemma c_chars_length s : (length (units s) <= length (c_chars s))%nat.
Proof.
  unfold c_chars. induction (units s) as [|ch ch2 us H1 H2 IH|ch us H IH] using utf16_ind; [done|..].
  - rewrite encode_pair, length_app by done. cbn [pair_bytes length]. lia.
  - rewrite encode_char, length_app by done. unfold char_bytes. destruct (_ && _); [cbn; lia|].
    destruct (_ <? _); cbn [length]; lia.
Qed.

Lemma compare_strings_ok a b :
  exists c, CompareModifiedUtf8ToModifiedUtf8AsUtf16CodePointValues (c_str a) 0 (c_str b) 0 = Ok c /\
    Z.sgn c = lex (string_key a) (string_key b).
Proof.
  unfold CompareModifiedUtf8ToModifiedUtf8AsUtf16CodePointValues, c_str, c_chars.
  eapply (compare_utf8_ok _ (units a) (units b) _ _ []); [done| |apply units_ok|apply units_ok|done|done|done|done].
  rewrite length_app. cbn [length]. pose proof (c_chars_length a). unfold c_chars in *. lia.
Qed.

Lemma string_key_inj a b : string_key a = string_key b -> units a = units b.
Proof.
  intros Heq. unfold string_key in Heq. rewrite <- (tokens_inv (units a)), <- (tokens_inv (units b)) by apply units_ok.
  by rewrite Heq.
Qed.

Lemma FindStringId_ok d s :
  tables_sorted d ->
  FindStringId d (c_str s) = Ok (scan (fun str => lex (string_key s) (string_key str) =? 0) (string_ids_ d) 0).
Proof.
  intros Hts. apply search_ok; [apply Hts|apply Hts|]. intros i x Hi Hx. rewrite (GetId_ok _ _ x Hx Hi).
  apply compare_strings_ok.
Qed.

Lemma one_number a b : Z.sgn (if b <? a then 1 else if a <? b then -1 else 0) = lex [a] [b].
Proof. cbn. destruct (Z.eqb_spec a b), (Z.ltb_spec b a), (Z.ltb_spec a b); lia. Qed.

Lemma three_numbers a1 a2 a3 b1 b2 b3 :
  Z.sgn (if b1 <? a1 then 1 else if a1 <? b1 then -1 else if b2 <? a2 then 1 else if a2 <? b2 then -1
         else if b3 <? a3 then 1 else if a3 <? b3 then -1 else 0) = lex [a1; a2; a3] [b1; b2; b3].
Proof.
  cbn. destruct (Z.eqb_spec a1 b1), (Z.ltb_spec b1 a1), (Z.ltb_spec a1 b1), (Z.eqb_spec a2 b2), (Z.ltb_spec b2 a2),
    (Z.ltb_spec a2 b2), (Z.eqb_spec a3 b3), (Z.ltb_spec b3 a3), (Z.ltb_spec a3 b3); lia.
Qed.

Lemma compare_parameters_lex s p : Z.sgn (compare_parameters s p) = lex s p.
Proof.
  revert s. induction p as [|x p IH]; intros [|y s]; cbn; try done.
  destruct (Z.eqb_spec (y - x) 0), (Z.eqb_spec y x); try lia; [apply IH|]. destruct (Z.ltb_spec x y); lia.
Qed.

Lemma FindTypeId_ok d string_idx :
  tables_sorted d -> FindTypeId d string_idx = Ok (scan (fun t => lex [string_idx] [t] =? 0) (type_ids_ d) 0).
Proof.
  intros Hts. apply (search_ok (fun t => [t])); [apply Hts|destruct Hts; unfold small; lia|].
  intros i x Hi Hx. rewrite (GetId_ok _ _ x Hx Hi). eexists. split; [done|]. apply one_number.
Qed.

Lemma FindProtoId_ok d r params :
  tables_sorted d ->
  FindProtoId d r params = Ok (scan (fun p => lex (r :: params) (proto_key p) =? 0) (proto_ids_ d) 0).
Proof.
  intros Hts. apply search_ok; [apply Hts|destruct Hts; unfold small; lia|].
  intros i x Hi Hx. rewrite (GetId_ok _ _ x Hx Hi). eexists. split; [done|]. cbn [proto_key lex].
  destruct (Z.eqb_spec (r - pi_return_type_idx_ x) 0), (Z.eqb_spec r (pi_return_type_idx_ x)); try lia;
    [apply compare_parameters_lex|]. destruct (Z.ltb_spec (pi_return_type_idx_ x) r); lia.
Qed.

Lemma index_ok {A} (table : list A) i : 0 <= i < Num table -> check ((0 <=? i) && (i <? Num table)) = Ok tt.
Proof. intros [H1 H2]. unfold check. by rewrite (proj2 (Z.leb_le _ _) H1), (proj2 (Z.ltb_lt _ _) H2). Qed.

Lemma GetIndexForTypeId_ok d i : tables_sorted d -> 0 <= i < Num (type_ids_ d) -> GetIndexForTypeId d i = Ok i.
Proof.
  intros Hts Hi. unfold GetIndexForTypeId. rewrite index_ok by done. destruct Hts. cbn. rewrite u16_small by lia. done.
Qed.

Lemma GetIndexForStringId_ok d i : 0 <= i < Num (string_ids_ d) -> GetIndexForStringId d i = Ok i.
Proof. intros Hi. unfold GetIndexForStringId. by rewrite index_ok. Qed.

Lemma GetIndexForProtoId_ok d i : tables_sorted d -> 0 <= i < Num (proto_ids_ d) -> GetIndexForProtoId d i = Ok i.
Proof.
  intros Hts Hi. unfold GetIndexForProtoId. rewrite index_ok by done. destruct Hts. cbn. rewrite u16_small by lia. done.
Qed.

Lemma FindFieldId_ok d klass name type :
  tables_sorted d -> 0 <= klass < Num (type_ids_ d) -> 0 <= name < Num (string_ids_ d) -> 0 <= type < Num (type_ids_ d) ->
  FindFieldId d klass name type =
  Ok (scan (fun f => lex [klass; name; type] (field_key f) =? 0) (field_ids_ d) 0).
Proof.
  intros Hts H1 H2 H3. unfold FindFieldId. rewrite !GetIndexForTypeId_ok, GetIndexForStringId_ok by done.
  cbn [mbind outcome_bind]. apply search_ok; [apply Hts|apply Hts|].
  intros i x Hi Hx. rewrite (GetId_ok _ _ x Hx Hi). eexists. split; [done|]. apply three_numbers.
Qed.

Lemma FindMethodId_ok d klass name proto :
  tables_sorted d -> 0 <= klass < Num (type_ids_ d) -> 0 <= name < Num (string_ids_ d) -> 0 <= proto < Num (proto_ids_ d) ->
  FindMethodId d klass name proto =
  Ok (scan (fun m => lex [klass; name; proto] (method_key m) =? 0) (method_ids_ d) 0).
Proof.
  intros Hts H1 H2 H3. unfold FindMethodId. rewrite GetIndexForTypeId_ok, GetIndexForStringId_ok, GetIndexForProtoId_ok by done.
  cbn [mbind outcome_bind]. apply search_ok; [apply Hts|apply Hts|].
  intros i x Hi Hx. rewrite (GetId_ok _ _ x Hx Hi). eexists. split; [done|]. apply three_numbers.
Qed.

(** ** The search for a UTF-16 string *)

Lemma binary_search_none compare fuel lo hi :
  (forall i, lo <= i <= hi -> exists c, compare i = Ok c /\ c <> 0) ->
  0 <= lo -> lo <= hi + 1 -> hi < 2 ^ 30 -> hi - lo + 1 < Z.of_nat fuel -> binary_search fuel compare lo hi = Ok None.
Proof.
  revert lo hi. induction fuel as [|fuel IH]; intros lo hi Hc Hlo Hlh Hhi Hfuel.
  - cbn [binary_search]. lia.
  - cbn [binary_search]. destruct (Z.leb_spec lo hi) as [Hle|Hle]; [|done].
    rewrite s32_small by lia. set (mid := Z.quot (hi + lo) 2).
    assert (lo <= mid <= hi) as Hmid by (unfold mid; rewrite Z.quot_div_nonneg by lia; mlia).
    destruct (Hc mid Hmid) as (c & -> & Hne). cbn [mbind outcome_bind].
    destruct (Z.ltb_spec 0 c); [apply IH; try lia; intros; apply Hc; lia|].
    destruct (Z.ltb_spec c 0); [apply IH; try lia; intros; apply Hc; lia|lia].
Qed.

Lemma compare_utf16_ok s vs : CompareModifiedUtf8ToUtf16AsCodePointValues (c_str s) 0 vs = Ok (lex (units s) vs).
Proof.
  unfold CompareModifiedUtf8ToUtf16AsCodePointValues. apply (compare_ok _ []); [apply units_ok|done| |done].
  pose proof (c_chars_length s). unfold c_str. rewrite length_app. cbn [length]. lia.
Qed.

(** The search that compares in the wrong direction: it finds a string only in
    the middle of the table. *)
Lemma FindStringIdUtf16_middle d (t : nat) s :
  sorted_by units (string_ids_ d) -> small (string_ids_ d) -> string_ids_ d !! t = Some s ->
  FindStringIdUtf16 d (units s) =
  Ok (if Z.of_nat t =? (Num (string_ids_ d) - 1) / 2 then Some (Z.of_nat t) else None).
Proof.
  intros Hs Hsmall Ht. pose proof (lookup_lt_Some _ _ _ Ht) as Hlt. unfold FindStringIdUtf16, search.
  set (compare := fun mid : Z => _). set (n := Num (string_ids_ d)) in *.
  assert (forall i x, 0 <= i -> string_ids_ d !! Z.to_nat i = Some x -> compare i = Ok (lex (units x) (units s))) as Hc.
  { intros i x Hi Hx. unfold compare. rewrite (GetId_ok _ _ x Hx Hi). apply compare_utf16_ok. }
  assert (forall i, 0 <= i < n -> i <> Z.of_nat t -> exists c, compare i = Ok c /\ c <> 0 /\ (0 < c <-> Z.of_nat t < i)) as Hne.
  { intros i Hi Hit. unfold n, Num in Hi. destruct (lookup_lt_is_Some_2 (string_ids_ d) (Z.to_nat i)) as [x Hx]; [lia|].
    exists (lex (units x) (units s)). split; [by apply Hc; [lia|]|].
    destruct (Z.lt_ge_cases i (Z.of_nat t)).
    - rewrite (Hs (Z.to_nat i) t x s) by (done || lia). lia.
    - pose proof (Hs t (Z.to_nat i) s x ltac:(lia) Ht Hx) as Hl. rewrite lex_antisym in Hl. lia. }
  unfold small in Hsmall. fold n in Hsmall. assert (0 < n) as Hn by (unfold n, Num; lia).
  rewrite s32_small by lia. cbn [binary_search]. rewrite (proj2 (Z.leb_le _ _)) by lia.
  rewrite Z.add_0_r, s32_small, Z.quot_div_nonneg by lia. set (mid := (n - 1) / 2).
  assert (0 <= mid <= n - 1) as Hmid by (unfold mid; mlia).
  destruct (Z.eqb_spec (Z.of_nat t) mid) as [Heq|Hneq].
  - rewrite (Hc mid s); [|lia|by rewrite <- Heq, Nat2Z.id]. cbn [mbind outcome_bind].
    rewrite (proj2 (lex_eq _ _) eq_refl). cbn. by rewrite Heq.
  - destruct (Hne mid) as (c & -> & Hc0 & Hiff); [lia|done|]. cbn [mbind outcome_bind].
    assert (forall lo hi, 0 <= lo -> lo <= hi + 1 -> hi < n -> (hi < Z.of_nat t \/ Z.of_nat t < lo) ->
      binary_search (Z.to_nat n) compare lo hi = Ok None \/ hi - lo + 1 >= n) as Hnone.
    { intros lo hi Hlo Hlh Hhi Hout. destruct (Z.lt_ge_cases (hi - lo + 1) n); [left|right; lia].
      apply binary_search_none; [|lia|lia|lia|lia]. intros i Hi. destruct (Hne i) as (c' & ? & ? & _); [lia|lia|by exists c']. }
    destruct (Z.ltb_spec 0 c) as [Hpos|Hpos].
    + destruct (Hnone (mid + 1) (n - 1)) as [?|?]; [lia|lia|lia|lia|done|lia].
    + rewrite (proj2 (Z.ltb_lt c 0)) by lia. destruct (Hnone 0 (mid - 1)) as [?|?]; [lia|lia|lia|lia|done|lia].
Qed.

(** ** Try items *)

Record tries_ok (tries : list TryItem) : Prop := {
  tr_range : forall (i : nat) t, tries !! i = Some t -> 0 <= start_addr_ t /\ 0 <= insn_count_ t /\ start_addr_ t + insn_count_ t < 2 ^ 32;
  tr_sorted : forall (i j : nat) t u, (i < j)%nat -> tries !! i = Some t -> tries !! j = Some u ->
    start_addr_ t + insn_count_ t <= start_addr_ u;
}.

Definition covers (address : Z) (t : TryItem) : bool :=
  (start_addr_ t <=? address) && (address <? start_addr_ t + insn_count_ t).

Definition try_index (tries : list TryItem) (address : Z) : Z :=
  match scan (covers address) tries 0 with Some i => i | None => -1 end.

Lemma FindTryItem_loop_ok tries address fuel lo hi :
  tries_ok tries -> 0 <= lo -> lo <= hi + 1 -> hi < Num tries -> hi - lo + 1 < Z.of_nat fuel ->
  (forall (i : nat) t, tries !! i = Some t -> covers address t = true -> lo <= Z.of_nat i <= hi) ->
  FindTryItem_loop fuel tries address lo hi = Ok (try_index tries address).
Proof.
  intros [Hr Hs]. revert lo hi. induction fuel as [|fuel IH]; intros lo hi Hlo Hlh Hhi Hfuel Hin; cbn [FindTryItem_loop].
  - lia.
  - unfold Num in Hhi. destruct (Z.leb_spec lo hi) as [Hle|Hle].
    + rewrite Z.quot_div_nonneg by lia. set (mid := lo + (hi - lo) / 2). assert (lo <= mid <= hi) as Hmid by (unfold mid; mlia).
      destruct (lookup_lt_is_Some_2 tries (Z.to_nat mid)) as [t Ht]; [lia|]. rewrite (GetId_ok _ _ t Ht) by lia.
      cbn [mbind outcome_bind]. destruct (Hr _ _ Ht) as (H1 & H2 & H3). rewrite u32_small by lia.
      destruct (Z.ltb_spec address (start_addr_ t)) as [Hlt|Hge]; [|destruct (Z.leb_spec (start_addr_ t + insn_count_ t) address) as [Hle'|Hlt]].
      * apply IH; [lia|lia|unfold Num; lia|lia|]. intros i u Hu Hcov. specialize (Hin i u Hu Hcov). split; [lia|].
        destruct (Z.le_gt_cases mid (Z.of_nat i)) as [Hi|Hi]; [exfalso|lia]. unfold covers in Hcov.
        destruct (decide (Z.of_nat i = mid)) as [Heq|]; [replace (Z.to_nat mid) with i in Ht by lia; assert (u = t) as -> by congruence; lia|].
        pose proof (Hs (Z.to_nat mid) i t u ltac:(lia) Ht Hu). lia.
      * apply IH; [lia|lia|unfold Num; lia|lia|]. intros i u Hu Hcov. specialize (Hin i u Hu Hcov). split; [|lia].
        destruct (Z.le_gt_cases (Z.of_nat i) mid) as [Hi|Hi]; [exfalso|lia]. unfold covers in Hcov.
        destruct (decide (Z.of_nat i = mid)) as [Heq|]; [replace (Z.to_nat mid) with i in Ht by lia; assert (u = t) as -> by congruence; lia|].
        pose proof (Hs i (Z.to_nat mid) u t ltac:(lia) Hu Ht). destruct (Hr _ _ Hu). lia.
      * unfold try_index. rewrite (scan_unique _ tries 0 (Z.to_nat mid) t); [by rewrite Z2Nat.id by lia|done|unfold covers; lia|].
        intros k u Hk Hu. pose proof (Hs k (Z.to_nat mid) u t Hk Hu Ht). unfold covers. lia.
    + unfold try_index. rewrite scan_none; [done|]. intros j u Hu. apply not_true_is_false. intros Hcov.
      specialize (Hin j u Hu Hcov). lia.
Qed.

Lemma FindTryItem_ok tries address :
  tries_ok tries -> FindTryItem tries address = Ok (try_index tries address).
Proof.
  intros Hok. apply FindTryItem_loop_ok; [done|lia|unfold Num; lia|lia|unfold Num; lia|].
  intros i t Ht _. apply lookup_lt_Some in Ht. unfold Num. lia.
Qed.

(** ** Classes *)

Lemma UTF16Cmp_iff a b : UTF16Cmp a b = true <-> units a = units b.
Proof.
  unfold UTF16Cmp. destruct (compare_strings_ok a b) as (c & -> & Hsgn). rewrite Z.eqb_eq. split.
  - intros ->. symmetry in Hsgn. apply lex_eq in Hsgn. by apply string_key_inj.
  - intros Heq. unfold string_key in Hsgn. rewrite Heq, (proj2 (lex_eq _ _) eq_refl) in Hsgn. lia.
Qed.

Lemma UTF16Hash_range s : 0 <= UTF16Hash s < 2 ^ 64.
Proof.
  unfold UTF16Hash, ComputeModifiedUtf8Hash. destruct (utf8_hash _ _ _ _) as [h|]; cbn; [|lia].
  pose proof (u32_range (s32 h)). lia.
Qed.

#[export] Instance index_slot_laws : SlotLaws IndexEntry.
Proof.
  constructor; [done|]. intros [[key i]|]; cbn; [apply UTF16Hash_range|lia].
Qed.

#[export] Instance index_key_laws : KeyLaws IndexEntry utf_string.
Proof.
  constructor. intros [[a i]|] k; cbn; [|done]. rewrite UTF16Cmp_iff. intros Heq.
  unfold UTF16Hash, c_str, c_chars. by rewrite Heq.
Qed.

(** The class definitions name types, the types have descriptors, and no class
    is defined twice. *)
Record classes_ok (d : DexTables) : Prop := {
  co_tables : tables_sorted d;
  co_descriptors : forall cd, cd ∈ class_defs_ d -> is_ok (GetClassDescriptor d cd) = true;
  co_unique : NoDup (class_defs_ d);
  co_small : small (class_defs_ d);
}.

(** The reference: the first class definition with that descriptor. *)
Definition has_descriptor (d : DexTables) (s : utf_string) (cd : ClassDefItem) : bool :=
  match GetClassDescriptor d cd with Ok a => UTF16Cmp a s | Fault _ => false end.

Definition class_named (d : DexTables) (s : utf_string) : option Z := scan (has_descriptor d s) (class_defs_ d) 0.

Lemma scan_ext {A} (P Q : A -> bool) table i :
  (forall x, x ∈ table -> P x = Q x) -> scan P table i = scan Q table i.
Proof.
  revert i. induction table as [|x table IH]; intros i Heq; cbn; [done|].
  rewrite (Heq x) by (by left). destruct (Q x); [done|]. apply IH. intros y Hy. apply Heq. by right.
Qed.

Lemma class_def_of_type_scan cds t i : class_def_of_type cds t i = scan (fun cd => cd_class_idx_ cd =? t) cds i.
Proof. revert i. induction cds as [|cd cds IH]; intros i; cbn; [done|]. by rewrite IH. Qed.

Lemma GetId_inv {A} (table : list A) i x : GetId table i = Ok x -> 0 <= i < Num table /\ table !! Z.to_nat i = Some x.
Proof.
  unfold GetId. destruct (Z.leb_spec 0 i); [|done]. destruct (table !! Z.to_nat i) eqn:Hx; [|done].
  intros Heq. injection Heq as ->. apply lookup_lt_Some in Hx as Hl. unfold Num. split; [lia|done].
Qed.

(** The descriptor of a type determines the type. *)
Lemma descriptor_type d t t' a b :
  tables_sorted d -> StringByTypeIdx d t = Ok a -> StringByTypeIdx d t' = Ok b -> units a = units b -> t = t'.
Proof.
  intros Hts Ha Hb Heq. unfold StringByTypeIdx in *.
  destruct (GetId (type_ids_ d) t) as [i|] eqn:Ht; [|done]. destruct (GetId (type_ids_ d) t') as [j|] eqn:Ht'; [|done].
  cbn in Ha, Hb. apply GetId_inv in Ht as [Hr1 H1], Ht' as [Hr2 H2], Ha as [Hr3 H3], Hb as [Hr4 H4].
  pose proof (scan_key string_key _ (ts_strings d Hts) _ _ H3) as S1.
  pose proof (scan_key string_key _ (ts_strings d Hts) _ _ H4) as S2.
  unfold string_key in S1, S2. rewrite Heq in S1. assert (i = j) as -> by (rewrite S1 in S2; injection S2; lia).
  pose proof (scan_key (fun t => [t]) _ (ts_types d Hts) _ _ H1) as S3.
  pose proof (scan_key (fun t => [t]) _ (ts_types d Hts) _ _ H2) as S4.
  pose proof (eq_trans (eq_sym S3) S4) as Hs. injection Hs. lia.
Qed.

(** The type of a descriptor: the two bisections. *)
Lemma find_type_ok d s :
  tables_sorted d ->
  (exists i t, FindStringId d (c_str s) = Ok (Some i) /\ GetIndexForStringId d i = Ok i /\
     FindTypeId d i = Ok (Some t) /\ GetIndexForTypeId d t = Ok t /\ 0 <= t /\
     exists a, StringByTypeIdx d t = Ok a /\ units a = units s) \/
  ((FindStringId d (c_str s) = Ok None \/
    exists i, FindStringId d (c_str s) = Ok (Some i) /\ GetIndexForStringId d i = Ok i /\ FindTypeId d i = Ok None) /\
   forall t a, StringByTypeIdx d t = Ok a -> units a <> units s).
Proof.
  intros Hts. pose proof (FindStringId_ok d s Hts) as HS.
  destruct (decide (Exists (fun str => units str = units s) (string_ids_ d))) as [Hex|Hno].
  - apply Exists_exists in Hex as (str & Hin & Heq). apply list_elem_of_lookup in Hin as (i & Hi).
    pose proof (scan_key string_key _ (ts_strings d Hts) _ _ Hi) as Hscan. unfold string_key in HS, Hscan.
    rewrite Heq in Hscan. rewrite Hscan in HS. pose proof (lookup_lt_Some _ _ _ Hi) as Hlt.
    assert (GetIndexForStringId d (Z.of_nat i) = Ok (Z.of_nat i)) as HI by (apply GetIndexForStringId_ok; unfold Num; lia).
    pose proof (FindTypeId_ok d (Z.of_nat i) Hts) as HT.
    destruct (decide (Exists (fun t => t = Z.of_nat i) (type_ids_ d))) as [Hex'|Hno'].
    + apply Exists_exists in Hex' as (t & Hin' & ->). apply list_elem_of_lookup in Hin' as (k & Hk).
      pose proof (scan_key (fun t => [t]) _ (ts_types d Hts) _ _ Hk) as Hscan'. rewrite Hscan' in HT.
      pose proof (lookup_lt_Some _ _ _ Hk) as Hlt'. left. exists (Z.of_nat i), (Z.of_nat k).
      split_and!; [done|done|done|apply GetIndexForTypeId_ok; [done|unfold Num; lia]|lia|].
      exists str. split; [|done]. unfold StringByTypeIdx.
      rewrite (GetId_ok _ (Z.of_nat k) (Z.of_nat i)) by first [lia | by rewrite Nat2Z.id]. cbn [mbind outcome_bind].
      apply GetId_ok; [by rewrite Nat2Z.id|lia].
    + right. rewrite (scan_none (fun t => lex [Z.of_nat i] [t] =? 0)) in HT.
      2: { intros j t Ht. apply Z.eqb_neq. intros Hl%lex_eq. apply Hno', Exists_exists. exists t.
           split; [by eapply list_elem_of_lookup_2|congruence]. }
      split; [right; by exists (Z.of_nat i)|]. intros t a Ha Hu. apply Hno', Exists_exists.
      unfold StringByTypeIdx in Ha. destruct (GetId (type_ids_ d) t) as [j|] eqn:Ht; [|done]. cbn in Ha.
      apply GetId_inv in Ht as [_ Ht], Ha as [Hr Ha]. exists j. split; [by eapply list_elem_of_lookup_2|].
      pose proof (scan_key string_key _ (ts_strings d Hts) _ _ Ha) as Hs2. unfold string_key in Hs2. rewrite Hu, Hscan in Hs2.
      injection Hs2. lia.
  - right. assert (FindStringId d (c_str s) = Ok None) as HN.
    { rewrite HS. f_equal. apply scan_none. intros j str Hj. apply Z.eqb_neq. intros Hl%lex_eq%string_key_inj.
      apply Hno, Exists_exists. exists str. split; [by eapply list_elem_of_lookup_2|done]. }
    split; [by left|]. intros t a Ha Hu. unfold StringByTypeIdx in Ha. destruct (GetId (type_ids_ d) t) as [j|]; [|done].
    apply GetId_inv in Ha as [_ Ha]. apply Hno, Exists_exists. exists a. split; [by eapply list_elem_of_lookup_2|done].
Qed.

Lemma search_class_def_ok d s : classes_ok d -> search_class_def d s = Ok (class_named d s).
Proof.
  intros [Hts Hdesc _ _]. unfold search_class_def, class_named.
  assert (forall P, (forall cd a, cd ∈ class_defs_ d -> GetClassDescriptor d cd = Ok a -> P cd = UTF16Cmp a s) ->
    scan P (class_defs_ d) 0 = scan (has_descriptor d s) (class_defs_ d) 0) as Hext.
  { intros P HP. apply scan_ext. intros cd Hcd. unfold has_descriptor. pose proof (Hdesc cd Hcd) as Hok.
    destruct (GetClassDescriptor d cd) as [a|] eqn:Ha; [|done]. by apply HP. }
  destruct (find_type_ok d s Hts) as [(i & t & -> & HI & HT & HI' & Ht0 & a & Ha & Hu)|[Hnf Hno]].
  - cbn [mbind outcome_bind]. rewrite HI. cbn [mbind outcome_bind]. rewrite HT. cbn [mbind outcome_bind]. rewrite HI'.
    cbn [mbind outcome_bind mret outcome_ret]. rewrite class_def_of_type_scan. f_equal. apply Hext.
    intros cd b Hcd Hb. apply eq_true_iff_eq. rewrite Z.eqb_eq, UTF16Cmp_iff. unfold GetClassDescriptor in Hb. split.
    + intros Heq. rewrite Heq, Ha in Hb. congruence.
    + intros Heq. eapply descriptor_type; [done|done|done|congruence].
  - assert (scan (has_descriptor d s) (class_defs_ d) 0 = None) as ->.
    { apply scan_none. intros j cd Hj. unfold has_descriptor. destruct (GetClassDescriptor d cd) as [b|] eqn:Hb; [|done].
      apply not_true_is_false. rewrite UTF16Cmp_iff. by eapply Hno. }
    destruct Hnf as [-> | (i & -> & HI & HT)]; [done|]. cbn [mbind outcome_bind]. rewrite HI. cbn [mbind outcome_bind]. by rewrite HT.
Qed.

(** What the index holds: a pair for every class. *)
Definition indexed (d : DexTables) (cds : list ClassDefItem) (i : Z) (e : IndexEntry) : Prop :=
  exists (k : nat) cd a, cds !! k = Some cd /\ GetClassDescriptor d cd = Ok a /\ e = Some (a, i + Z.of_nat k).

Lemma build_index_ok d cds i h :
  wf h -> num_elements_ h + Num cds < 2 ^ 49 -> (forall cd, cd ∈ cds -> is_ok (GetClassDescriptor d cd) = true) ->
  exists h', build_index d cds i h = Ok h' /\ wf h' /\
    forall e, e ∈ elements (data_ h') <-> e ∈ elements (data_ h) \/ indexed d cds i e.
Proof.
  revert i h. induction cds as [|cd cds IH]; intros i h Hwf Hn Hok; cbn [build_index].
  - exists h. split_and!; [done|done|]. intros e. split; [by left|]. intros [?|(k & cd & a & Hk & _)]; [done|by rewrite lookup_nil in Hk].
  - pose proof (Hok cd ltac:(by left)) as Hcd. destruct (GetClassDescriptor d cd) as [a|] eqn:Ha; [|done]. cbn [mbind outcome_bind].
    unfold Num in *. cbn [length] in Hn.
    destruct (Insert_ok h (Some (a, i))) as (h1 & -> & Hwf1 & Hp); [done|lia|done|]. cbn [mbind outcome_bind].
    assert (num_elements_ h1 = num_elements_ h + 1) as Hn1.
    { rewrite (wf_size h1 Hwf1), (wf_size h Hwf), Hp. cbn [length]. lia. }
    destruct (IH (i + 1) h1 Hwf1) as (h2 & -> & Hwf2 & Hel); [lia|intros; apply Hok; by right|].
    exists h2. split_and!; [done|done|]. intros e. rewrite Hel, Hp, elem_of_cons. split.
    + intros [[-> | ?]|(k & cd' & b & Hk & Hb & ->)].
      * right. exists O, cd, a. split_and!; [done|done|]. do 2 f_equal. lia.
      * by left.
      * right. exists (S k), cd', b. split_and!; [done|done|]. do 2 f_equal. lia.
    + intros [?|(k & cd' & b & Hk & Hb & ->)]; [by left; right|]. destruct k as [|k]; cbn in Hk.
      * left; left. injection Hk as <-. rewrite Ha in Hb. injection Hb as <-. do 2 f_equal. lia.
      * right. exists k, cd', b. split_and!; [done|done|]. do 2 f_equal. lia.
Qed.

Definition cache_ok (d : DexTables) (c : ClassDefCache) : Prop :=
  match class_def_index_ c with
  | None => True
  | Some h => wf h /\ forall e, e ∈ elements (data_ h) <-> indexed d (class_defs_ d) 0 e
  end.

(** A class definition with a descriptor is the one the reference finds. *)
Lemma class_named_unique d s (k : nat) cd a :
  classes_ok d -> class_defs_ d !! k = Some cd -> GetClassDescriptor d cd = Ok a -> units a = units s ->
  class_named d s = Some (Z.of_nat k).
Proof.
  intros [Hts _ Huniq _] Hk Ha Hu. unfold class_named.
  rewrite (scan_unique _ (class_defs_ d) 0 k cd); [done|done|unfold has_descriptor; rewrite Ha; by apply UTF16Cmp_iff|].
  intros j cd' Hj Hcd'. unfold has_descriptor. destruct (GetClassDescriptor d cd') as [b|] eqn:Hb; [|done].
  apply not_true_is_false. rewrite UTF16Cmp_iff. intros Hub.
  pose proof (descriptor_type d _ _ _ _ Hts Ha Hb ltac:(congruence)) as Hidx.
  assert (cd' = cd) as -> by (destruct cd, cd'; cbn in Hidx; congruence).
  pose proof (NoDup_lookup _ _ _ _ Huniq Hcd' Hk). lia.
Qed.

(** Whether the class is found by bisection or in the index, before or after
    the miss that builds it, the answer is the reference's. *)
Lemma FindClassDef_ok d s c :
  classes_ok d -> cache_ok d c ->
  exists c', FindClassDef d s (UTF16Hash s) c = Ok (class_named d s, c') /\ cache_ok d c'.
Proof.
  intros Hok Hc. unfold FindClassDef. rewrite bind_gets. unfold cache_ok in Hc.
  destruct (class_def_index_ c) as [h|] eqn:Hidx.
  - destruct Hc as [Hwf Hel]. rewrite bind_lift. exists c. unfold cache_ok. rewrite Hidx.
    change (FindWithHash h s (UTF16Hash s)) with (Find h s).
    destruct (Find_ok h s (wf_table h Hwf) (wf_room h Hwf)) as [[-> Hno]|(i & Hi & -> & (e & He & Hee & Hp))];
      cbv beta iota.
    + rewrite Z.eqb_refl. split; [|done]. unfold class_named. rewrite scan_none; [done|].
      intros j cd Hj. unfold has_descriptor. destruct (GetClassDescriptor d cd) as [a|] eqn:Ha; [|done].
      apply (Hno (Some (a, 0 + Z.of_nat j))). apply Hel. by exists j, cd, a.
    + unfold IndexEntry in *. rewrite (proj2 (Z.eqb_neq i (end_ h))) by lia. rewrite bind_lift. unfold ElementForIndex.
      rewrite (slot_at_ok _ i e) by (done || lia). split; [|done].
      assert (indexed d (class_defs_ d) 0 e) as (k & cd & a & Hk & Ha & ->).
      { apply Hel, elem_of_elements. split; [done|]. by eapply list_elem_of_lookup_2. }
      cbn in Hp. apply UTF16Cmp_iff in Hp. by rewrite (class_named_unique d s k cd a).
  - destruct (Z.eqb_spec (Num (class_defs_ d)) 0) as [Hz|Hz].
    + exists c. unfold cache_ok. rewrite Hidx. split; [|done]. unfold class_named, Num in *.
      destruct (class_defs_ d); [done|cbn in Hz; lia].
    + rewrite bind_lift, search_class_def_ok by done. destruct (class_named d s) as [k|].
      * exists c. unfold cache_ok. by rewrite Hidx.
      * unfold count_miss. rewrite bind_assoc, bind_gets, bind_assoc, bind_modify. unfold whenM.
        destruct (find_class_def_misses_ c =? kMaxFailedDexClassDefLookups).
        -- rewrite !bind_assoc, bind_gets. cbn [class_def_index_]. rewrite Hidx.
           destruct (build_index_ok d (class_defs_ d) 0 HashSet_new) as (h & Hb & Hwf & Hel);
             [apply HashSet_new_wf|destruct Hok; unfold small in *; cbn [num_elements_ HashSet_new Clear with_elements_until_expand with_num_elements]; lia|apply Hok|].
           eexists. split.
           { unfold checkM. rewrite bind_assoc, bind_lift. cbn [check]. rewrite bind_assoc, bind_lift, Hb. reflexivity. }
           unfold cache_ok. cbn [class_def_index_]. split; [done|]. intros e. rewrite Hel.
           rewrite HashSet_new_elements, elem_of_nil. tauto.
        -- eexists. split; [reflexivity|]. unfold cache_ok. cbn [class_def_index_]. by rewrite Hidx.
Qed.

(** A sequence of lookups. *)
Fixpoint lookups (d : DexTables) (descriptors : list utf_string) : M ClassDefCache (list (option Z)) :=
  match descriptors with
  | [] => mret []
  | s :: descriptors =>
      r ← FindClassDef d s (UTF16Hash s);
      rs ← lookups d descriptors;
      mret (r :: rs)
  end.

(** Whether the index was built. *)
Definition has_index {A} (r : outcome (A * ClassDefCache)) : bool :=
  match r with Ok (_, c) => bool_decide (is_Some (class_def_index_ c)) | Fault _ => false end.

(** ** Signatures *)

(** A type descriptor: array brackets, and then a letter or a class name. *)
Inductive descriptor : list Z -> Prop :=
| desc_primitive n c : c <> chr "[" -> c <> chr "L" -> c <> chr ")" -> descriptor (replicate n (chr "[") ++ [c])
| desc_class n name : chr ";" ∉ name -> descriptor (replicate n (chr "[") ++ chr "L" :: name ++ [chr ";"]).

Lemma GetId_app (pre : list Z) c rest : GetId (pre ++ c :: rest) (Num pre) = Ok c.
Proof.
  apply GetId_ok; [|unfold Num; lia]. unfold Num. rewrite Nat2Z.id. by rewrite list_lookup_middle.
Qed.

Lemma Num_app {A} (l1 l2 : list A) : Num (l1 ++ l2) = Num l1 + Num l2.
Proof. unfold Num. rewrite length_app. lia. Qed.

Lemma Num_cons {A} (x : A) l : Num (x :: l) = Num l + 1.
Proof. unfold Num. cbn. lia. Qed.

Lemma Num_nil {A} : Num (@nil A) = 0.
Proof. done. Qed.

Lemma Num_replicate {A} n (x : A) : Num (replicate n x) = Z.of_nat n.
Proof. unfold Num. by rewrite length_replicate. Qed.

(** Lengths of strings put together. *)
Ltac num := rewrite ?Num_app, ?Num_cons, ?Num_app, ?Num_cons, ?Num_nil, ?Num_replicate; lia.

Lemma Num_nonneg {A} (l : list A) : 0 <= Num l.
Proof. unfold Num. lia. Qed.

Lemma skip_array_ok n c pre rest fuel :
  c <> chr "[" -> (n < fuel)%nat ->
  skip_array fuel (pre ++ replicate n (chr "[") ++ c :: rest)
    (match n with O => c | S _ => chr "[" end) (Num pre + 1) = Ok (Some (c, Num pre + Z.of_nat n + 1)).
Proof.
  intros Hc. revert pre fuel. induction n as [|n IH]; intros pre fuel Hf; (destruct fuel as [|fuel]; [lia|]); cbn [skip_array].
  - rewrite (proj2 (Z.eqb_neq _ _)) by done. unfold mret, outcome_ret. do 3 f_equal. lia.
  - rewrite Z.eqb_refl. cbn [replicate app].
    rewrite Num_app, Num_cons, Num_app, Num_cons. pose proof (Num_nonneg rest). pose proof (Num_nonneg (replicate n (chr "["))).
    rewrite (proj2 (Z.leb_gt _ _)) by lia.
    replace (pre ++ chr "[" :: replicate n (chr "[") ++ c :: rest)
      with ((pre ++ [chr "["]) ++ replicate n (chr "[") ++ c :: rest) by (by rewrite <- app_assoc).
    replace (Num pre + 1) with (Num (pre ++ [chr "["])) by (rewrite Num_app; done).
    assert (GetId ((pre ++ [chr "["]) ++ replicate n (chr "[") ++ c :: rest) (Num (pre ++ [chr "["]))
            = Ok (match n with O => c | S _ => chr "[" end)) as ->.
    { destruct n; cbn [replicate app]; apply GetId_app. }
    cbn [mbind outcome_bind]. rewrite IH by lia. do 3 f_equal. num.
Qed.

Lemma skip_class_ok name pre rest fuel :
  chr ";" ∉ name -> (length name < fuel)%nat ->
  skip_class fuel (pre ++ name ++ chr ";" :: rest) (Num pre) = Ok (Some (Num pre + Num name + 1)).
Proof.
  revert pre fuel. induction name as [|c name IH]; intros pre fuel Hnot Hf; (destruct fuel as [|fuel]; [cbn in Hf; lia|]); cbn [skip_class].
  - cbn [app]. rewrite Num_app, Num_cons. pose proof (Num_nonneg rest). rewrite (proj2 (Z.leb_gt _ _)) by lia.
    rewrite GetId_app. cbn [mbind outcome_bind]. rewrite Z.eqb_refl. unfold mret, outcome_ret. do 2 f_equal. num.
  - apply not_elem_of_cons in Hnot as [Hne Hnot]. cbn [app].
    rewrite Num_app, Num_cons. pose proof (Num_nonneg (name ++ chr ";" :: rest)). rewrite (proj2 (Z.leb_gt _ _)) by lia.
    rewrite GetId_app. cbn [mbind outcome_bind]. rewrite (proj2 (Z.eqb_neq _ _)) by congruence.
    replace (pre ++ c :: name ++ chr ";" :: rest) with ((pre ++ [c]) ++ name ++ chr ";" :: rest) by (by rewrite <- app_assoc).
    replace (Num pre + 1) with (Num (pre ++ [c])) by (rewrite Num_app; done).
    rewrite IH by (done || (cbn in Hf; lia)). do 2 f_equal. num.
Qed.

(** A descriptor starts with a character that is not a parenthesis, and it is
    scanned to its end. *)
Lemma scan_descriptor_ok desc pre rest :
  descriptor desc -> exists c, GetId (pre ++ desc ++ rest) (Num pre) = Ok c /\ c <> chr ")" /\
    scan_descriptor (pre ++ desc ++ rest) c (Num pre + 1) = Ok (Some (Num pre + Num desc)).
Proof.
  intros Hdesc. unfold scan_descriptor. destruct Hdesc as [n c H1 H2 H3|n name Hname].
  - exists (match n with O => c | S _ => chr "[" end). rewrite <- app_assoc. cbn [app].
    split; [destruct n; cbn [replicate app]; apply GetId_app|]. split; [by destruct n|].
    rewrite skip_array_ok; [|done|rewrite !length_app, length_replicate; cbn; lia].
    cbn [mbind outcome_bind]. rewrite (proj2 (Z.eqb_neq c (chr "L"))) by done.
    unfold mret, outcome_ret. do 2 f_equal. num.
  - exists (match n with O => chr "L" | S _ => chr "[" end). rewrite <- app_assoc. cbn [app]. rewrite <- app_assoc. cbn [app].
    split; [destruct n; cbn [replicate app]; apply GetId_app|]. split; [by destruct n|].
    rewrite skip_array_ok; [|done|rewrite !length_app, length_replicate; cbn; lia].
    cbn [mbind outcome_bind]. rewrite Z.eqb_refl.
    replace (pre ++ replicate n (chr "[") ++ chr "L" :: name ++ chr ";" :: rest)
      with ((pre ++ replicate n (chr "[") ++ [chr "L"]) ++ name ++ chr ";" :: rest) by (by rewrite <- !app_assoc).
    replace (Num pre + Z.of_nat n + 1) with (Num (pre ++ replicate n (chr "[") ++ [chr "L"]))
      by num.
    rewrite skip_class_ok; [|done|rewrite !length_app; cbn [length]; lia].
    do 2 f_equal. num.
Qed.

Lemma find_descriptor_ok d t s :
  tables_sorted d -> StringByTypeIdx d t = Ok s -> find_descriptor d (c_chars s) = Ok (Some t).
Proof.
  intros Hts Hs. unfold find_descriptor. change (c_chars s ++ [0]) with (c_str s).
  destruct (find_type_ok d s Hts) as [(i & t' & -> & HI & HT & HI' & _ & a & Ha & Hu)|[_ Hno]].
  - cbn [mbind outcome_bind]. rewrite HI. cbn [mbind outcome_bind]. rewrite HT. cbn [mbind outcome_bind]. rewrite HI'. cbn.
    by rewrite (descriptor_type d t' t a s).
  - by destruct (Hno t s Hs).
Qed.

(** Every type of the file has a well-formed descriptor. *)
Definition types_ok (d : DexTables) : Prop :=
  forall t s, StringByTypeIdx d t = Ok s -> descriptor (c_chars s).

Lemma descriptor_pos desc : descriptor desc -> 0 < Num desc.
Proof. intros [n c H1 H2 H3|n name Hname]; rewrite Num_app; unfold Num; cbn; lia. Qed.

(** Cutting a descriptor out of the signature. *)
Lemma cut_descriptor (pre desc rest : list Z) :
  take (Z.to_nat (Num pre + Num desc - Num pre)) (drop (Z.to_nat (Num pre)) (pre ++ desc ++ rest)) = desc.
Proof.
  unfold Num. rewrite Nat2Z.id, drop_app_length. replace (Z.to_nat _) with (length desc) by lia. apply take_app_length.
Qed.

Section TypeList.
Context (d : DexTables) (Hts : tables_sorted d) (Htypes : types_ok d).

Lemma type_list_return ret s pre acc fuel :
  StringByTypeIdx d ret = Ok s -> (0 < fuel)%nat ->
  CreateTypeList_loop fuel d (pre ++ c_chars s) (Num pre) true acc = Ok (Some (acc, ret)).
Proof.
  intros Hs Hf. destruct fuel as [|fuel]; [lia|]. cbn [CreateTypeList_loop].
  pose proof (descriptor_pos _ (Htypes ret s Hs)). rewrite (proj2 (Z.ltb_lt _ _)) by (rewrite Num_app; lia).
  destruct (scan_descriptor_ok (c_chars s) pre [] (Htypes ret s Hs)) as (c & Hc & Hne & Hscan).
  rewrite app_nil_r in Hc, Hscan. rewrite Hc. cbn [mbind outcome_bind]. rewrite (proj2 (Z.eqb_neq _ _)) by done. rewrite Hscan.
  cbn [mbind outcome_bind]. pose proof (cut_descriptor pre (c_chars s) []) as Hcut. rewrite app_nil_r in Hcut. rewrite Hcut.
  rewrite (find_descriptor_ok d ret s) by done. cbn [mbind outcome_bind]. by rewrite Num_app, Z.eqb_refl.
Qed.

Lemma type_list_params params strs pre ret s acc fuel :
  mapM (StringByTypeIdx d) params = Ok strs -> StringByTypeIdx d ret = Ok s -> (length params + 1 < fuel)%nat ->
  CreateTypeList_loop fuel d (pre ++ concat (map c_chars strs) ++ chr ")" :: c_chars s) (Num pre) false acc =
  Ok (Some (acc ++ params, ret)).
Proof.
  intros Hp Hs. revert strs pre acc fuel Hp. induction params as [|t params IH]; intros strs pre acc fuel Hp Hf;
    (destruct fuel as [|fuel]; [lia|]).
  - injection Hp as <-. cbn [map concat app]. cbn [CreateTypeList_loop].
    pose proof (Num_nonneg (c_chars s)). rewrite (proj2 (Z.ltb_lt _ _)) by (rewrite Num_app, Num_cons; lia).
    rewrite GetId_app. cbn [mbind outcome_bind]. rewrite Z.eqb_refl.
    replace (pre ++ chr ")" :: c_chars s) with ((pre ++ [chr ")"]) ++ c_chars s) by (by rewrite <- app_assoc).
    replace (Num pre + 1) with (Num (pre ++ [chr ")"])) by (rewrite Num_app; done).
    rewrite (type_list_return ret) by (done || (cbn in Hf; lia)). by rewrite app_nil_r.
  - cbn [mapM] in Hp. destruct (StringByTypeIdx d t) as [s1|] eqn:Hs1; [|done]. cbn [mbind outcome_bind] in Hp.
    destruct (mapM (StringByTypeIdx d) params) as [strs'|] eqn:Hp'; [|done]. injection Hp as <-. cbn [map concat].
    rewrite <- app_assoc. set (rest := concat (map c_chars strs') ++ chr ")" :: c_chars s).
    cbn [CreateTypeList_loop]. pose proof (descriptor_pos _ (Htypes t s1 Hs1)). pose proof (Num_nonneg rest).
    rewrite (proj2 (Z.ltb_lt _ _)) by (rewrite !Num_app; lia).
    destruct (scan_descriptor_ok (c_chars s1) pre rest (Htypes t s1 Hs1)) as (c & -> & Hne & Hscan). cbn [mbind outcome_bind].
    rewrite (proj2 (Z.eqb_neq _ _)), Hscan by done. cbn [mbind outcome_bind]. rewrite cut_descriptor, (find_descriptor_ok d t s1) by done.
    cbn [mbind outcome_bind]. rewrite (app_assoc pre). rewrite <- Num_app. unfold rest. rewrite (IH strs') by (done || (cbn in Hf; lia)).
    by rewrite <- app_assoc.
Qed.

Lemma CreateTypeList_ok proto str :
  Signature_ToString d proto = Ok str -> CreateTypeList d str = Ok (Some (pi_parameters proto, pi_return_type_idx_ proto)).
Proof.
  unfold Signature_ToString. destruct (mapM (StringByTypeIdx d) (pi_parameters proto)) as [strs|] eqn:Hp; [|done].
  destruct (StringByTypeIdx d (pi_return_type_idx_ proto)) as [s|] eqn:Hs; [|done].
  cbn [mbind outcome_bind mret outcome_ret]. intros Heq.
  assert (str = [chr "("] ++ concat (map c_chars strs) ++ chr ")" :: c_chars s) as -> by (by injection Heq).
  unfold CreateTypeList. rewrite (GetId_ok _ 0 (chr "(")) by done. cbn [mbind outcome_bind]. rewrite Z.eqb_refl. cbn [negb].
  apply (type_list_params (pi_parameters proto) strs [chr "("] (pi_return_type_idx_ proto) s []); [done|done|].
  rewrite !length_app. cbn [length].
  assert (length (pi_parameters proto) <= length (concat (map c_chars strs)))%nat; [|lia].
  clear Hs Heq. revert strs Hp. induction (pi_parameters proto) as [|t l IH]; intros strs Hp; [cbn; lia|].
  cbn [mapM] in Hp. destruct (StringByTypeIdx d t) as [s1|] eqn:Hs1; [|done]. cbn [mbind outcome_bind] in Hp.
  destruct (mapM (StringByTypeIdx d) l) as [strs'|]; [|done]. injection Hp as <-. cbn [map concat]. rewrite length_app.
  pose proof (descriptor_pos _ (Htypes t s1 Hs1)) as Hpos. unfold Num in Hpos. specialize (IH strs' eq_refl). cbn. lia.
Qed.

Lemma CreateSignature_ok (i : nat) proto str :
  proto_ids_ d !! i = Some proto -> Signature_ToString d proto = Ok str ->
  CreateSignature d str = Ok (Some (Z.of_nat i)).
Proof.
  intros Hi Hstr. unfold CreateSignature. rewrite (CreateTypeList_ok proto) by done. cbn [mbind outcome_bind].
  rewrite FindProtoId_ok by done. f_equal. apply (scan_key proto_key); [apply Hts|done].
Qed.

End TypeList.

(** ** Results *)

(** C37. On sorted tables the searches by bisection for a modified UTF-8 string, a
    type, a prototype, a field and a method find exactly what a scan of the
    whole table for that key finds, or nothing when the scan finds nothing (the
    indices in the key of a field or a method being those of the file).  The
    search for a UTF-16 string goes the wrong way: in a table that is sorted by
    code units it finds, of the strings that are there, only the one in the
    middle. *)
Theorem id_lookups_scan (d : DexTables) :
  tables_sorted d ->
  (forall s, FindStringId d (c_str s) =
     Ok (scan (fun str => bool_decide (units str = units s)) (string_ids_ d) 0)) /\
  (sorted_by units (string_ids_ d) -> forall (t : nat) s, string_ids_ d !! t = Some s ->
     FindStringIdUtf16 d (units s) = Ok (if Z.of_nat t =? (Num (string_ids_ d) - 1) / 2 then Some (Z.of_nat t) else None)) /\
  (forall i, FindTypeId d i = Ok (scan (fun t => bool_decide (t = i)) (type_ids_ d) 0)) /\
  (forall r ps, FindProtoId d r ps =
     Ok (scan (fun p => bool_decide (pi_return_type_idx_ p = r /\ pi_parameters p = ps)) (proto_ids_ d) 0)) /\
  forall klass name, 0 <= klass < Num (type_ids_ d) -> 0 <= name < Num (string_ids_ d) ->
    (forall type, 0 <= type < Num (type_ids_ d) -> FindFieldId d klass name type =
       Ok (scan (fun f => bool_decide (fi_class_idx_ f = klass /\ fi_name_idx_ f = name /\ fi_type_idx_ f = type)) (field_ids_ d) 0)) /\
    (forall proto, 0 <= proto < Num (proto_ids_ d) -> FindMethodId d klass name proto =
       Ok (scan (fun m => bool_decide (mi_class_idx_ m = klass /\ mi_name_idx_ m = name /\ mi_proto_idx_ m = proto)) (method_ids_ d) 0)).
Proof.
  intros Hts.
  assert (forall A (key : A -> list Z) k P table, (forall x, lex k (key x) = 0 <-> P x) -> forall (D : forall x, Decision (P x)),
    Ok (scan (fun x => lex k (key x) =? 0) table 0) = Ok (scan (fun x => bool_decide (P x)) table 0)) as Hscan.
  { intros A key k P table Hiff D. f_equal. apply scan_ext. intros x _. apply eq_true_iff_eq.
    by rewrite Z.eqb_eq, bool_decide_eq_true, Hiff. }
  split_and!.
  - intros s. rewrite FindStringId_ok by done. apply (Hscan _ string_key). intros x. rewrite lex_eq. split.
    + intros Heq. symmetry. by apply string_key_inj.
    + intros Heq. unfold string_key. by rewrite Heq.
  - intros Hu t s. apply FindStringIdUtf16_middle; [done|apply Hts].
  - intros i. rewrite FindTypeId_ok by done. apply (Hscan _ (fun t => [t])). intros x. rewrite lex_eq. split; congruence.
  - intros r ps. rewrite FindProtoId_ok by done. apply (Hscan _ proto_key). intros [pr pp]. rewrite lex_eq. cbn. split; [|intros [-> ->]]; [intros Heq; by injection Heq as -> ->|done].
  - intros klass name Hk Hn. split.
    + intros type Ht. rewrite FindFieldId_ok by done. apply (Hscan _ field_key). intros [a b c]. rewrite lex_eq. cbn.
      split; [intros Heq; by injection Heq as -> -> ->|by intros (-> & -> & ->)].
    + intros proto Hp. rewrite FindMethodId_ok by done. apply (Hscan _ method_key). intros [a b c]. rewrite lex_eq. cbn.
      split; [intros Heq; by injection Heq as -> -> ->|by intros (-> & -> & ->)].
Qed.

(** Deciding the order of a table. *)
Fixpoint strictly_sorted {A} (key : A -> list Z) (table : list A) : bool :=
  match table with
  | [] => true
  | x :: table => forallb (fun y => lex (key x) (key y) =? -1) table && strictly_sorted key table
  end.

Lemma strictly_sorted_ok {A} (key : A -> list Z) table : strictly_sorted key table = true -> sorted_by key table.
Proof.
  induction table as [|x table IH]; cbn [strictly_sorted]; [by intros _ [|i] [|j]|].
  intros [Hx Hs]%andb_true_iff. rewrite forallb_forall in Hx. intros [|i] [|j] y z Hij Hy Hz; try lia; cbn in Hy, Hz.
  - injection Hy as <-. apply Z.eqb_eq, Hx, list_elem_of_In. by eapply list_elem_of_lookup_2.
  - apply (IH Hs i j); [lia|done|done].
Qed.

(** A dex file with the types [I], [La;], [V] and [[I], the field [f] and the
    method [m], and the class [La;]. *)
Definition example_string (us : list Z) (H : forallb (fun ch => (0 <=? ch) && (ch <? 2 ^ 16)) us = true) : utf_string :=
  mk_utf_string us H.

Definition example_dex : DexTables := mkDexTables
  [example_string [73] eq_refl; example_string [76; 97; 59] eq_refl; example_string [86] eq_refl;
   example_string [91; 73] eq_refl; example_string [102] eq_refl; example_string [109] eq_refl]
  [0; 1; 2; 3]
  [mkFieldIdItem 1 0 4]
  [mkMethodIdItem 1 1 5]
  [mkProtoIdItem 0 []; mkProtoIdItem 2 [3; 1]]
  [mkClassDefItem 1].

Lemma example_sorted : tables_sorted example_dex.
Proof.
  constructor; try (apply strictly_sorted_ok; vm_compute; reflexivity).
  - split_and!; vm_compute; reflexivity.
  - vm_compute. discriminate.
  - vm_compute. discriminate.
Qed.

Lemma id_lookups_scan_witness :
  FindStringId example_dex [91; 73; 0] = Ok (Some 3) /\ FindMethodId example_dex 1 5 1 = Ok (Some 0) /\
  FindFieldId example_dex 1 4 1 = Ok None.
Proof.
  destruct (id_lookups_scan example_dex example_sorted) as (Hs & _ & _ & _ & Hids).
  destruct (Hids 1 5 ltac:(vm_compute; split; congruence) ltac:(vm_compute; split; congruence)) as [_ Hm].
  destruct (Hids 1 4 ltac:(vm_compute; split; congruence) ltac:(vm_compute; split; congruence)) as [Hf _].
  split; [exact (Hs (example_string [91; 73] eq_refl))|].
  split; [exact (Hm 1 ltac:(vm_compute; split; congruence))|exact (Hf 1 ltac:(vm_compute; split; congruence))].
Defined.

(** The answers of [FindClassDef] do not depend on how often it was called:
    in every sequence of lookups on a new dex file, each returns the first
    class with that descriptor, both while it bisects and after the hundred
    and first miss has built the hash index. *)
Theorem class_lookup_stable (d : DexTables) (descriptors : list utf_string) :
  classes_ok d ->
  exists c, lookups d descriptors (mkClassDefCache 0 None) = Ok (map (class_named d) descriptors, c).
Proof.
  intros Hok. assert (cache_ok d (mkClassDefCache 0 None)) as Hc by done. revert Hc. generalize (mkClassDefCache 0 None).
  induction descriptors as [|s ss IH]; intros c Hc; cbn [lookups map]; [by exists c|].
  destruct (FindClassDef_ok d s c Hok Hc) as (c1 & H1 & Hc1). destruct (IH c1 Hc1) as (c2 & H2). exists c2.
  rewrite (bind_ok _ _ _ _ _ H1), (bind_ok _ _ _ _ _ H2). done.
Qed.

Lemma class_lookup_stable_witness :
  let missing := example_string [86] eq_refl in
  let present := example_string [76; 97; 59] eq_refl in
  exists c, lookups example_dex (repeat missing 101 ++ [present; missing]) (mkClassDefCache 0 None)
            = Ok (repeat None 101 ++ [Some 0; None], c) /\
    is_Some (class_def_index_ c).
Proof.
  cbn zeta. destruct (class_lookup_stable example_dex (repeat (example_string [86] eq_refl) 101 ++ [example_string [76; 97; 59] eq_refl; example_string [86] eq_refl])) as (c & Hrun).
  - constructor; [apply example_sorted| | |].
    + intros cd Hcd. apply list_elem_of_singleton in Hcd as ->. vm_compute. reflexivity.
    + apply NoDup_singleton.
    + vm_compute. reflexivity.
  - exists c. split; [exact Hrun|].
    assert (has_index (lookups example_dex (repeat (example_string [86] eq_refl) 101 ++ [example_string [76; 97; 59] eq_refl; example_string [86] eq_refl]) (mkClassDefCache 0 None)) = true) as Hi by (vm_compute; reflexivity).
    rewrite Hrun in Hi. cbn in Hi. destruct (class_def_index_ c); [by eexists|discriminate Hi].
Defined.

(** A signature that is printed is parsed back to its prototype: for every
    prototype of a dex file whose types have well-formed descriptors,
    [CreateSignature] of [Signature::ToString] finds that prototype. *)
Theorem signature_roundtrip (d : DexTables) (i : nat) (proto : ProtoIdItem) (str : list Z) :
  tables_sorted d -> types_ok d -> proto_ids_ d !! i = Some proto -> Signature_ToString d proto = Ok str ->
  CreateTypeList d str = Ok (Some (pi_parameters proto, pi_return_type_idx_ proto)) /\
  CreateSignature d str = Ok (Some (Z.of_nat i)).
Proof. intros Hts Htypes Hi Hstr. split; [by apply CreateTypeList_ok|by apply (CreateSignature_ok d Hts Htypes i proto)]. Qed.

Lemma signature_roundtrip_witness :
  exists str, str = map chr ["("; "["; "I"; "L"; "a"; ";"; ")"; "V"]%char /\ CreateSignature example_dex str = Ok (Some 1).
Proof.
  exists (map chr ["("; "["; "I"; "L"; "a"; ";"; ")"; "V"]%char). split; [reflexivity|].
  apply (signature_roundtrip example_dex 1 (mkProtoIdItem 2 [3; 1])).
  - apply example_sorted.
  - intros t s Hs. unfold StringByTypeIdx in Hs. destruct (GetId (type_ids_ example_dex) t) as [x|] eqn:Ht; [|discriminate Hs].
    apply GetId_inv in Ht as [Hr Ht]. cbn in Hs. apply GetId_inv in Hs as [_ Hs].
    change (Num (type_ids_ example_dex)) with 4 in Hr.
    assert (t = 0 \/ t = 1 \/ t = 2 \/ t = 3) as Hcases by lia.
    destruct Hcases as [-> | [-> | [-> | ->]]]; cbn in Ht; injection Ht as <-; cbn in Hs; injection Hs as <-.
    + apply (desc_primitive 0 73); vm_compute; congruence.
    + apply (desc_class 0 [97]). vm_compute. intros H. apply elem_of_cons in H as [H|H]; [discriminate H|by apply elem_of_nil in H].
    + apply (desc_primitive 0 86); vm_compute; congruence.
    + apply (desc_primitive 1 73); vm_compute; congruence.
  - reflexivity.
  - vm_compute. reflexivity.
Defined.

(** [FindTryItem] finds the try block that covers an address, and -1 when
    none does: on sorted blocks that do not overlap it agrees with a scan of
    all of them, and [FindCatchHandlerOffset] gives the handlers of that
    block. *)
Theorem find_try_item_scan (tries : list TryItem) (address : Z) :
  tries_ok tries ->
  FindTryItem tries address = Ok (match scan (covers address) tries 0 with Some i => i | None => -1 end) /\
  FindCatchHandlerOffset tries address =
    Ok (match list_find (covers address) tries with Some (_, t) => handler_off_ t | None => -1 end).
Proof.
  intros Hok. split; [by apply FindTryItem_ok|]. unfold FindCatchHandlerOffset. rewrite FindTryItem_ok by done.
  cbn [mbind outcome_bind]. unfold try_index. destruct (list_find (covers address) tries) as [[i t]|] eqn:Hf.
  - apply list_find_Some in Hf as (Hi & Hc & Hb). rewrite (scan_unique _ tries 0 i t); [|done|by apply Is_true_true|].
    + rewrite (proj2 (Z.eqb_neq _ _)) by lia. by rewrite (GetId_ok _ _ t) by first [lia | by rewrite Z.add_0_l, Nat2Z.id].
    + intros k u Hk Hu. apply Is_true_false. by apply (Hb k u).
  - apply list_find_None in Hf. rewrite scan_none; [done|]. intros j t Ht. apply Is_true_false.
    by apply (Forall_lookup_1 _ _ _ _ Hf Ht).
Qed.

Lemma find_try_item_scan_witness :
  FindTryItem [mkTryItem 0 4 1; mkTryItem 4 2 9; mkTryItem 10 1 17] 5 = Ok 1 /\
  FindCatchHandlerOffset [mkTryItem 0 4 1; mkTryItem 4 2 9; mkTryItem 10 1 17] 5 = Ok 9.
Proof.
  apply (find_try_item_scan [mkTryItem 0 4 1; mkTryItem 4 2 9; mkTryItem 10 1 17] 5). constructor.
  - intros [|[|[|i]]] t Ht; cbn in Ht; simplify_eq; cbn; lia.
  - intros [|[|[|i]]] [|[|[|j]]] t u Hij Ht Hu; try lia; cbn in Ht, Hu; simplify_eq; cbn; lia.
Defined.

(** The search for a UTF-16 string compares in the wrong direction: of the
    strings of a sorted table it finds only the one in the middle, and it
    reports every other one as missing. *)
Theorem find_string_utf16_only_middle (d : DexTables) (t : nat) (s : utf_string) :
  sorted_by units (string_ids_ d) -> small (string_ids_ d) -> string_ids_ d !! t = Some s ->
  FindStringIdUtf16 d (units s) =
  Ok (if Z.of_nat t =? (Num (string_ids_ d) - 1) / 2 then Some (Z.of_nat t) else None).
Proof. apply FindStringIdUtf16_middle. Qed.

Lemma find_string_utf16_only_middle_witness :
  FindStringIdUtf16 example_dex [109] = Ok None /\ FindStringId example_dex [109; 0] = Ok (Some 5).
Proof.
  split; [|vm_compute; reflexivity].
  apply (find_string_utf16_only_middle example_dex 5 (example_string [109] eq_refl)).
  - apply strictly_sorted_ok. vm_compute. reflexivity.
  - vm_compute. reflexivity.
  - reflexivity.
Defined.
