(* ===== verification/InternTable.v ===== *)
(** * [intern_table.{h,cc}]: interned strings

    The runtime keeps one reference per contents of an interned string, in two
    tables: [strong_interns_] keeps its strings alive, [weak_interns_] does
    not.  Each is a pair of hash sets ([HashSet]), one filled before and one
    after the zygote forked.  [Insert] looks in both tables and in the strings
    of the boot image, promotes a weak string that is interned strongly, and
    inserts the string when it is new.  Changes made during a transaction are
    logged so that [Transaction] can undo them.

    The contents of strings do not change; the section is over the function
    that gives them.  A garbage collection that moves strings is a function on
    references that keeps the contents.

    The theorems show that interning is canonical, and that sweeping the weak
    table keeps exactly the marked strings, at their new addresses, although
    [HashSet_Erase] moves elements under the iterator. *)

From S2P Require Import Prelude Utf HashSet DexLookup.

(** ** State *)

Record Table := mkTable {
  pre_zygote_table_ : HashSet Z;
  post_zygote_table_ : HashSet Z;
}.

(** [Transaction::InternStringLog]. *)
Inductive StringKind := kStrongString | kWeakString.
Inductive StringOp := kInsert | kRemove.

Record InternStringLog := mkInternStringLog { str_ : Z; string_kind_ : StringKind; string_op_ : StringOp }.

Record InternTable := mkInternTable {
  image_added_to_intern_table_ : bool;
  log_new_roots_ : bool;
  allow_new_interns_ : bool;
  strong_interns_ : Table;
  new_strong_intern_roots_ : list Z;
  weak_interns_ : Table;
  (** of the runtime: whether a transaction is active, and its log *)
  active_transaction_ : bool;
  intern_string_logs_ : list InternStringLog;
}.

(** The dex caches of the image: the tables of each dex file and the strings
    resolved in it, by string index; 0 where none is. *)
Record ImageDexCache := mkImageDexCache { dc_dex_file : DexTables; dc_resolved_strings : list Z }.

(** The result of an operation that waits for a condition. *)
Inductive blocking (A : Type) :=
| Waits
| Returns (a : A).
Arguments Waits {A}.
Arguments Returns {A} a.

(** [String::Equals] of two strings. *)
Definition String_Equals (content : Z -> list Z) (this that : Z) : bool :=
  if this =? that then true
  else if that =? 0 then false
  else if negb (Num (content this) =? Num (content that)) then false
  else forallb (fun p => p.1 =? p.2) (zip (content this) (content that)).

(** A [GcRoot] is a compressed reference of four bytes. *)
#[export] Instance root_bytes : SlotBytes Z :=
  {| sizeof_item := 4; item_bytes := le_bytes 4; item_of_bytes := le_value |}.

#[export] Instance root_bytes_laws : SlotBytesLaws Z.
Proof. constructor. intros x. apply length_le_bytes. Qed.

(** [GcRootEmptyFn] and [StringHashEquals]; the hash code, of 32 bits with a
    sign, is converted to [size_t]. *)
Definition string_slots (content : Z -> list Z) : SlotOps Z :=
  {| default_item := 0; MakeEmpty := fun _ => 0; IsEmpty := fun item => item =? 0;
     hashfn := fun root => u64 (ComputeUtf16Hash (content root)) |}.

Definition string_keys (content : Z -> list Z) : KeyOps Z Z :=
  {| hashkey := fun root => u64 (ComputeUtf16Hash (content root)); pred := String_Equals content |}.

Section Operations.
Context (content : Z -> list Z).

#[local] Hint Extern 0 (SlotOps Z) => exact (string_slots content) : typeclass_instances.
#[local] Hint Extern 0 (KeyOps Z Z) => exact (string_keys content) : typeclass_instances.

(** ** Tables *)

Definition Table_new : Table := mkTable HashSet_new HashSet_new.

Definition Table_Size (t : Table) : Z := Size (pre_zygote_table_ t) + Size (post_zygote_table_ t).

Definition Table_Find (t : Table) (s : Z) : outcome Z :=
  it ← Find (pre_zygote_table_ t) s;
  if negb (it =? end_ (pre_zygote_table_ t)) then ElementForIndex (pre_zygote_table_ t) it
  else
    it ← Find (post_zygote_table_ t) s;
    if negb (it =? end_ (post_zygote_table_ t)) then ElementForIndex (post_zygote_table_ t) it
    else mret 0.

Definition Table_Insert (t : Table) (s : Z) : outcome Table :=
  post ← Insert (post_zygote_table_ t) s;
  mret (mkTable (pre_zygote_table_ t) post).

Definition Table_Remove (t : Table) (s : Z) : outcome Table :=
  it ← Find (post_zygote_table_ t) s;
  if negb (it =? end_ (post_zygote_table_ t)) then
    r ← HashSet_Erase (post_zygote_table_ t) it;
    mret (mkTable (pre_zygote_table_ t) r.1)
  else
    it ← Find (pre_zygote_table_ t) s;
    r ← HashSet_Erase (pre_zygote_table_ t) it;
    mret (mkTable r.1 (post_zygote_table_ t)).

Definition Table_SwapPostZygoteWithPreZygote (t : Table) : Table :=
  if Empty (pre_zygote_table_ t) then mkTable (post_zygote_table_ t) (pre_zygote_table_ t) else t.

(** The loop of [SweepWeaks]; [callback] gives the new address of a marked
    string and 0 for one that is not marked. *)
Fixpoint SweepWeaks_loop (fuel : nat) (callback : Z -> Z) (set : HashSet Z) (it end_ : Z) : outcome (HashSet Z) :=
  match fuel with
  | O => Fault OutOfFuel
  | S fuel =>
      if it =? end_ then mret set
      else
        object ← ElementForIndex set it;
        let new_object := callback object in
        if new_object =? 0 then
          r ← HashSet_Erase set it;
          SweepWeaks_loop fuel callback r.1 r.2 end_
        else
          data ← set_slot (data_ set) it new_object;
          let set := with_data set data in
          it ← NextNonEmptySlot set it;
          SweepWeaks_loop fuel callback set it end_
  end.

(** An element can be visited again after [HashSet_Erase] moved it from the front of
    the array to its end: twice as many rounds as there are slots. *)
Definition SweepWeaks_set (callback : Z -> Z) (set : HashSet Z) : outcome (HashSet Z) :=
  it ← begin_ set;
  SweepWeaks_loop (2 * length (data_ set) + 1) callback set it (end_ set).

Definition Table_SweepWeaks (callback : Z -> Z) (t : Table) : outcome Table :=
  pre ← SweepWeaks_set callback (pre_zygote_table_ t);
  post ← SweepWeaks_set callback (post_zygote_table_ t);
  mret (mkTable pre post).

(** The table read from an image: the slots are the memory of the image. *)
Definition ReadIntoPreZygoteTable (t : Table) (mem : list Z) : outcome (Table * Z) :=
  _ ← check (Size (pre_zygote_table_ t) =? 0);
  r ← HashSet_read mem false;
  mret (mkTable r.1 (post_zygote_table_ t), r.2).

Definition WriteFromPostZygoteTable (t : Table) (ptr : option (list Z)) : outcome (option (list Z) * Z) :=
  HashSet.WriteToMemory (post_zygote_table_ t) ptr.

(** The visitor may move every root. *)
Definition visit_set (visitor : Z -> Z) (set : HashSet Z) : HashSet Z :=
  with_data set (map (fun root => if IsEmpty root then root else visitor root) (data_ set)).

Definition Table_VisitRoots (visitor : Z -> Z) (t : Table) : Table :=
  mkTable (visit_set visitor (pre_zygote_table_ t)) (visit_set visitor (post_zygote_table_ t)).

(** ** The intern table *)

Definition with_strong (i : InternTable) (t : Table) : InternTable :=
  mkInternTable (image_added_to_intern_table_ i) (log_new_roots_ i) (allow_new_interns_ i) t
    (new_strong_intern_roots_ i) (weak_interns_ i) (active_transaction_ i) (intern_string_logs_ i).

Definition with_weak (i : InternTable) (t : Table) : InternTable :=
  mkInternTable (image_added_to_intern_table_ i) (log_new_roots_ i) (allow_new_interns_ i) (strong_interns_ i)
    (new_strong_intern_roots_ i) t (active_transaction_ i) (intern_string_logs_ i).

Definition with_roots (i : InternTable) (roots : list Z) : InternTable :=
  mkInternTable (image_added_to_intern_table_ i) (log_new_roots_ i) (allow_new_interns_ i) (strong_interns_ i)
    roots (weak_interns_ i) (active_transaction_ i) (intern_string_logs_ i).

Definition with_log_new_roots (i : InternTable) (b : bool) : InternTable :=
  mkInternTable (image_added_to_intern_table_ i) b (allow_new_interns_ i) (strong_interns_ i)
    (new_strong_intern_roots_ i) (weak_interns_ i) (active_transaction_ i) (intern_string_logs_ i).

Definition with_allow (i : InternTable) (b : bool) : InternTable :=
  mkInternTable (image_added_to_intern_table_ i) (log_new_roots_ i) b (strong_interns_ i)
    (new_strong_intern_roots_ i) (weak_interns_ i) (active_transaction_ i) (intern_string_logs_ i).

Definition with_image_added (i : InternTable) : InternTable :=
  mkInternTable true (log_new_roots_ i) (allow_new_interns_ i) (strong_interns_ i)
    (new_strong_intern_roots_ i) (weak_interns_ i) (active_transaction_ i) (intern_string_logs_ i).

Definition with_logs (i : InternTable) (logs : list InternStringLog) : InternTable :=
  mkInternTable (image_added_to_intern_table_ i) (log_new_roots_ i) (allow_new_interns_ i) (strong_interns_ i)
    (new_strong_intern_roots_ i) (weak_interns_ i) (active_transaction_ i) logs.

Definition InternTable_new : InternTable :=
  mkInternTable false false true Table_new [] Table_new false [].

Definition InternTable_Size (i : InternTable) : Z := Table_Size (strong_interns_ i) + Table_Size (weak_interns_ i).
Definition StrongSize (i : InternTable) : Z := Table_Size (strong_interns_ i).
Definition WeakSize (i : InternTable) : Z := Table_Size (weak_interns_ i).

(** [Transaction::LogInternedString]: the newest entry comes first. *)
Definition LogInternedString (log : InternStringLog) : M InternTable unit :=
  modify (fun i => with_logs i (log :: intern_string_logs_ i)).

Definition LookupStrong (s : Z) : M InternTable Z :=
  t ← gets strong_interns_; lift (Table_Find t s).

Definition LookupWeak (s : Z) : M InternTable Z :=
  t ← gets weak_interns_; lift (Table_Find t s).

Definition InsertStrong (s : Z) : M InternTable Z :=
  active ← gets active_transaction_;
  whenM active (LogInternedString (mkInternStringLog s kStrongString kInsert)) ;;
  log_roots ← gets log_new_roots_;
  whenM log_roots (modify (fun i => with_roots i (new_strong_intern_roots_ i ++ [s]))) ;;
  t ← gets strong_interns_;
  t ← lift (Table_Insert t s);
  modify (fun i => with_strong i t) ;;
  mret s.

Definition InsertWeak (s : Z) : M InternTable Z :=
  active ← gets active_transaction_;
  whenM active (LogInternedString (mkInternStringLog s kWeakString kInsert)) ;;
  t ← gets weak_interns_;
  t ← lift (Table_Insert t s);
  modify (fun i => with_weak i t) ;;
  mret s.

Definition RemoveStrong (s : Z) : M InternTable unit :=
  t ← gets strong_interns_;
  t ← lift (Table_Remove t s);
  modify (fun i => with_strong i t).

Definition RemoveWeak (s : Z) : M InternTable unit :=
  active ← gets active_transaction_;
  whenM active (LogInternedString (mkInternStringLog s kWeakString kRemove)) ;;
  t ← gets weak_interns_;
  t ← lift (Table_Remove t s);
  modify (fun i => with_weak i t).

(** The loop over the dex caches of the image: [s] as modified UTF-8 is looked
    up in each dex file. *)
Fixpoint image_lookup (dex_caches : list ImageDexCache) (utf8 : list Z) : outcome Z :=
  match dex_caches with
  | [] => mret 0
  | dex_cache :: dex_caches =>
      string_id ← FindStringId (dc_dex_file dex_cache) utf8;
      match string_id with
      | None => image_lookup dex_caches utf8
      | Some string_id =>
          string_idx ← GetIndexForStringId (dc_dex_file dex_cache) string_id;
          image_string ← GetId (dc_resolved_strings dex_cache) string_idx;
          if negb (image_string =? 0) then mret image_string else image_lookup dex_caches utf8
      end
  end.

Definition LookupStringFromImage (image : option (list ImageDexCache)) (s : Z) : M InternTable Z :=
  added ← gets image_added_to_intern_table_;
  if (added : bool) then mret 0
  else
    match image with
    | None => mret 0
    | Some dex_caches => lift (image_lookup dex_caches (ConvertUtf16ToModifiedUtf8 (content s) ++ [0]))
    end.

(** [InternTable::Insert]. *)
Definition InternTable_Insert (image : option (list ImageDexCache)) (s : Z) (is_strong : bool)
  : M InternTable (blocking Z) :=
  if s =? 0 then mret (Returns 0)
  else
    allow ← gets allow_new_interns_;
    if negb allow then mret Waits
    else
      strong ← LookupStrong s;
      if negb (strong =? 0) then mret (Returns strong)
      else
        weak ← LookupWeak s;
        if negb (weak =? 0) then
          if is_strong then RemoveWeak weak ;; r ← InsertStrong weak; mret (Returns r)
          else mret (Returns weak)
        else
          image_string ← LookupStringFromImage image s;
          if negb (image_string =? 0) then
            r ← (if is_strong then InsertStrong image_string else InsertWeak image_string);
            mret (Returns r)
          else
            r ← (if is_strong then InsertStrong s else InsertWeak s);
            mret (Returns r).

Definition InternStrong (image : option (list ImageDexCache)) (s : Z) : M InternTable (blocking Z) :=
  InternTable_Insert image s true.

Definition InternWeak (image : option (list ImageDexCache)) (s : Z) : M InternTable (blocking Z) :=
  InternTable_Insert image s false.

Definition ContainsWeak (s : Z) : M InternTable bool :=
  r ← LookupWeak s; mret (r =? s).

Definition AllowNewInterns : M InternTable unit := modify (fun i => with_allow i true).

Definition DisallowNewInterns : M InternTable unit := modify (fun i => with_allow i false).

Definition EnsureNewInternsDisallowed : M InternTable unit :=
  allow ← gets allow_new_interns_; checkM (negb allow).

Definition SwapPostZygoteWithPreZygote : M InternTable unit :=
  modify (fun i => with_weak i (Table_SwapPostZygoteWithPreZygote (weak_interns_ i))) ;;
  modify (fun i => with_strong i (Table_SwapPostZygoteWithPreZygote (strong_interns_ i))).

Definition SweepInternTableWeaks (callback : Z -> Z) : M InternTable unit :=
  t ← gets weak_interns_;
  t ← lift (Table_SweepWeaks callback t);
  modify (fun i => with_weak i t).

(** One resolved string of the image. *)
Definition add_image_string (image_string : Z) : M InternTable unit :=
  if image_string =? 0 then mret tt
  else
    found ← LookupStrong image_string;
    if found =? 0 then _ ← InsertStrong image_string; mret tt else mret tt.

(** [ReadFromMemory] and [ReadFromMemoryLocked]. *)
Definition ReadFromMemory (mem : list Z) : M InternTable Z :=
  t ← gets strong_interns_;
  r ← lift (ReadIntoPreZygoteTable t mem);
  modify (fun i => with_strong i r.1) ;;
  mret r.2.

(** [InternTable::WriteToMemory]. *)
Definition InternTable_WriteToMemory (i : InternTable) (ptr : option (list Z)) : outcome (option (list Z) * Z) :=
  WriteFromPostZygoteTable (strong_interns_ i) ptr.

(** [section] holds the bytes of the image's section of interned strings. *)
Definition AddImageInternTable (section : list Z) : M InternTable unit :=
  offset ← ReadFromMemory section;
  checkM (offset <=? Num section).

Definition AddImageStringsToTable (section : list Z) (dex_caches : list ImageDexCache) : M InternTable unit :=
  added ← gets image_added_to_intern_table_;
  if (added : bool) then mret tt
  else
    (if 0 <? Num section then _ ← ReadFromMemory section; mret tt
     else
       forM dex_caches (fun dex_cache =>
         forM (take (length (string_ids_ (dc_dex_file dex_cache))) (dc_resolved_strings dex_cache)) add_image_string)) ;;
    modify with_image_added.

(** [kVisitRootFlag...] *)
Definition kVisitRootFlagAllRoots : Z := 1.
Definition kVisitRootFlagNewRoots : Z := 2.
Definition kVisitRootFlagStartLoggingNewRoots : Z := 4.
Definition kVisitRootFlagStopLoggingNewRoots : Z := 8.
Definition kVisitRootFlagClearRootLog : Z := 16.

(** A root of the log that the collector moved is moved in the table. *)
Definition visit_new_root (visitor : Z -> Z) (old_ref : Z) : M InternTable unit :=
  let new_ref := visitor old_ref in
  whenM (negb (new_ref =? old_ref))
    (t ← gets strong_interns_;
     t ← lift (Table_Remove t old_ref);
     t ← lift (Table_Insert t new_ref);
     modify (fun i => with_strong i t)).

Definition VisitRoots (visitor : Z -> Z) (flags : Z) : M InternTable unit :=
  (if HasFlag flags kVisitRootFlagAllRoots then
     modify (fun i => with_strong i (Table_VisitRoots visitor (strong_interns_ i)))
   else if HasFlag flags kVisitRootFlagNewRoots then
     roots ← gets new_strong_intern_roots_;
     forM roots (visit_new_root visitor) ;;
     modify (fun i => with_roots i (map visitor roots))
   else mret tt) ;;
  whenM (HasFlag flags kVisitRootFlagClearRootLog) (modify (fun i => with_roots i [])) ;;
  if HasFlag flags kVisitRootFlagStartLoggingNewRoots then modify (fun i => with_log_new_roots i true)
  else whenM (HasFlag flags kVisitRootFlagStopLoggingNewRoots) (modify (fun i => with_log_new_roots i false)).

(** [InternStringLog::Undo] and [UndoInternStringTableModifications]. *)
Definition undo_string_log (log : InternStringLog) : M InternTable unit :=
  match string_op_ log, string_kind_ log with
  | kInsert, kStrongString => RemoveStrong (str_ log)
  | kInsert, kWeakString => RemoveWeak (str_ log)
  | kRemove, kStrongString => _ ← InsertStrong (str_ log); mret tt
  | kRemove, kWeakString => _ ← InsertWeak (str_ log); mret tt
  end.

Definition UndoInternStringTableModifications : M InternTable unit :=
  logs ← gets intern_string_logs_;
  forM logs undo_string_log ;;
  modify (fun i => with_logs i []).

End Operations.

(** ** Strings by contents *)

Section Laws.
Context (content : Z -> list Z).

Lemma zip_eq (us vs : list Z) :
  length us = length vs -> forallb (fun p => p.1 =? p.2) (zip us vs) = true -> us = vs.
Proof.
  revert vs. induction us as [|u us IH]; intros [|v vs] Hl Hall; try done. cbn in Hl, Hall.
  apply andb_true_iff in Hall as [Huv Hall]. apply Z.eqb_eq in Huv as ->. f_equal. apply IH; [lia|done].
Qed.

Lemma zip_refl (us : list Z) : forallb (fun p => p.1 =? p.2) (zip us us) = true.
Proof. induction us as [|u us IH]; [done|]. cbn. by rewrite Z.eqb_refl. Qed.

Lemma String_Equals_iff a b : b <> 0 -> String_Equals content a b = true <-> content a = content b.
Proof.
  intros Hb. unfold String_Equals. destruct (Z.eqb_spec a b) as [->|Hne]; [done|].
  rewrite (proj2 (Z.eqb_neq b 0)) by done. unfold Num. split.
  - destruct (Z.eqb_spec (Z.of_nat (length (content a))) (Z.of_nat (length (content b)))); [|done]. cbn.
    apply zip_eq. lia.
  - intros ->. rewrite Z.eqb_refl. cbn. apply zip_refl.
Qed.

Lemma String_Equals_content a b : String_Equals content a b = true -> content a = content b.
Proof.
  destruct (decide (b = 0)) as [->|Hb]; [|by apply String_Equals_iff]. unfold String_Equals.
  destruct (Z.eqb_spec a 0); [by intros _; subst|done].
Qed.

Lemma string_slot_laws : @SlotLaws Z (string_slots content).
Proof.
  constructor; [done|]. intros x. cbn. apply u64_range.
Qed.

Lemma string_key_laws : @KeyLaws Z Z (string_slots content) (string_keys content).
Proof. constructor. intros x k Heq%String_Equals_content. cbn. by rewrite Heq. Qed.

End Laws.

(** ** Sweeping *)

Section Sweep.
Context {T : Type} `{SlotLaws T}.
Implicit Types (h : HashSet T) (data : list T) (x y : T).

(** The slots that [first_full] skips are empty, and it stops at a full one. *)
Lemma first_full_empty data i j :
  i <= j < first_full data i -> full data (j - i) = false.
Proof.
  revert i. induction data as [|x data IH]; intros i Hj; cbn [first_full] in Hj; [lia|].
  destruct (IsEmpty x) eqn:Hx; [|lia]. destruct (decide (j = i)) as [->|Hne].
  - unfold full. rewrite Z.sub_diag. change (negb (IsEmpty x) = false). by rewrite Hx.
  - specialize (IH (i + 1) ltac:(lia)). rewrite <- IH. unfold full.
    replace (Z.to_nat (j - i)) with (S (Z.to_nat (j - (i + 1)))) by lia. done.
Qed.

Lemma first_full_drop data i j :
  0 <= i -> i <= j < first_full (drop (Z.to_nat i) data) i -> full data j = false.
Proof.
  intros Hi Hj. pose proof (first_full_empty _ _ _ Hj) as Hf. unfold full in *. rewrite lookup_drop in Hf.
  by replace (Z.to_nat i + Z.to_nat (j - i))%nat with (Z.to_nat j) in Hf by lia.
Qed.

Lemma first_full_stop data i :
  0 <= i <= Z.of_nat (length data) ->
  let it := first_full (drop (Z.to_nat i) data) i in
  i <= it <= Z.of_nat (length data) /\ (it = Z.of_nat (length data) \/ full data it = true).
Proof.
  intros Hi it. pose proof (first_full_range (drop (Z.to_nat i) data) i) as Hr. rewrite length_drop in Hr. fold it in Hr.
  split; [lia|]. destruct (first_full_split (drop (Z.to_nat i) data) i) as [[Hend _]|(x & Hx & Hxe & _)].
  - left. rewrite length_drop in Hend. fold it in Hend. lia.
  - right. fold it in Hx. rewrite lookup_drop in Hx. apply full_lookup. exists x. split; [|done].
    by replace (Z.to_nat i + Z.to_nat (it - i))%nat with (Z.to_nat it) in Hx by lia.
Qed.

(** An element may be replaced by one with the same hash. *)
Lemma wf_replace h i x y :
  wf h -> 0 <= i -> data_ h !! Z.to_nat i = Some x -> IsEmpty x = false -> IsEmpty y = false -> hashfn y = hashfn x ->
  wf (with_data h (<[Z.to_nat i := y]> (data_ h))).
Proof.
  intros [[Hlen Hn Hinv] Hsz He Hmin Hmax] Hi Hx Hxe Hye Hh. pose proof (lookup_lt_Some _ _ _ Hx) as Hlt.
  assert (forall j, 0 <= j -> full (<[Z.to_nat i := y]> (data_ h)) j = full (data_ h) j) as Hsame.
  { intros j Hj. rewrite full_insert by lia. case_decide as Heq; [|done]. subst j. unfold full. by rewrite Hx, Hxe, Hye. }
  constructor; [constructor|..]; cbn [data_ with_data num_buckets_ num_elements_ elements_until_expand_]; try done.
  - by rewrite length_insert.
  - intros j z Hj _ Hz Hze k Hk. pose proof (Z.mod_pos_bound (hashfn z mod num_buckets_ h + k) (num_buckets_ h) Hn).
    rewrite Hsame by lia. destruct (decide (j = i)) as [->|Hne].
    + rewrite list_lookup_insert_eq in Hz by lia. injection Hz as <-. rewrite Hh in *.
      apply (Hinv i x Hj (fun f => f) Hx Hxe k Hk).
    + rewrite list_lookup_insert_ne in Hz by lia. apply (Hinv j z Hj (fun f => f) Hz Hze k Hk).
  - rewrite Hsz. f_equal. rewrite <- (list_insert_insert_eq (data_ h) (Z.to_nat i) y (MakeEmpty x)).
    rewrite (elements_insert (<[Z.to_nat i:=MakeEmpty x]> (data_ h)) _ y (MakeEmpty x));
      [|by apply list_lookup_insert_eq|apply make_empty_empty|done].
    rewrite (elements_remove (data_ h) (Z.to_nat i) x (MakeEmpty x)); [done|done|done|apply make_empty_empty].
Qed.

Lemma elements_replace data (p : nat) x y :
  data !! p = Some x -> IsEmpty x = false -> IsEmpty y = false ->
  exists rest, elements data ≡ₚ x :: rest /\ elements (<[p := y]> data) ≡ₚ y :: rest.
Proof.
  intros Hx Hxe Hye. exists (elements (<[p := MakeEmpty x]> data)). pose proof (lookup_lt_Some _ _ _ Hx). split.
  - apply elements_remove; [done|done|apply make_empty_empty].
  - rewrite <- (list_insert_insert_eq data p y (MakeEmpty x)).
    apply (elements_insert _ _ y (MakeEmpty x)); [by apply list_lookup_insert_eq|apply make_empty_empty|done].
Qed.

End Sweep.

Section SweepWeaks.
Context (content : Z -> list Z) (callback : Z -> Z).

#[local] Hint Extern 0 (SlotOps Z) => exact (string_slots content) : typeclass_instances.
#[local] Hint Extern 0 (SlotLaws Z) => exact (string_slot_laws content) : typeclass_instances.

(** The collector's answer for a string, when it is marked. *)
Definition marked (x : Z) : option Z := if callback x =? 0 then None else Some (callback x).

(** A marked string keeps its contents when it moves, and asking again for its
    new address gives the same. *)
Record callback_ok : Prop := {
  cb_content : forall x, callback x <> 0 -> content (callback x) = content x;
  cb_stable : forall x, callback x <> 0 -> callback (callback x) = callback x;
}.

Context (Hcb : callback_ok).

(** The slots before the iterator hold strings at their final addresses. *)
Definition swept (data : list Z) (it : Z) : Prop :=
  forall i y, 0 <= i < it -> data !! Z.to_nat i = Some y -> IsEmpty y = false -> callback y = y.

Lemma swept_next data p :
  0 <= p <= Z.of_nat (length data) -> swept data p -> swept data (first_full (drop (Z.to_nat p) data) p).
Proof.
  intros Hp Hs i y Hi Hy Hye. destruct (Z.lt_ge_cases i p) as [Hlt|Hge]; [apply (Hs i); [lia|done|done]|].
  assert (full data i = false) as Hf by (apply (first_full_drop data p); lia). unfold full in Hf. rewrite Hy, Hye in Hf. done.
Qed.

Lemma omap_marked_all (l : list Z) : (forall y, y ∈ l -> y <> 0 /\ callback y = y) -> omap marked l = l.
Proof.
  induction l as [|y l IH]; intros Hall; [done|]. cbn. unfold marked at 1.
  destruct (Hall y) as [Hne Heq]; [by left|]. rewrite Heq, (proj2 (Z.eqb_neq y 0)) by done. f_equal.
  apply IH. intros z Hz. apply Hall. by right.
Qed.

Lemma SweepWeaks_loop_ok fuel set it :
  wf set -> num_elements_ set < 2 ^ 64 -> 0 <= it <= num_buckets_ set ->
  (it = num_buckets_ set \/ full (data_ set) it = true) -> swept (data_ set) it ->
  num_elements_ set + (num_buckets_ set - it) < Z.of_nat fuel ->
  exists set', SweepWeaks_loop content fuel callback set it (num_buckets_ set) = Ok set' /\ wf set' /\
    num_buckets_ set' = num_buckets_ set /\ elements (data_ set') ≡ₚ omap marked (elements (data_ set)).
Proof.
  revert set it. induction fuel as [|fuel IH]; intros set it Hwf Hb Hit Hfull Hswept Hfuel.
  { pose proof (wf_size set Hwf). lia. }
  cbn [SweepWeaks_loop]. pose proof (wf_table set Hwf) as [Hlen Hn _]. destruct (Z.eqb_spec it (num_buckets_ set)) as [->|Hne].
  - exists set. split_and!; [done|done|done|]. rewrite omap_marked_all; [done|]. intros y [Hye Hin]%elem_of_elements.
    apply list_elem_of_lookup in Hin as (p & Hp). pose proof (lookup_lt_Some _ _ _ Hp). split.
    + intros ->. done.
    + apply (Hswept (Z.of_nat p)); [lia|by rewrite Nat2Z.id|done].
  - destruct Hfull as [?|Hfull]; [done|]. apply full_lookup in Hfull as (x & Hx & Hxe). unfold ElementForIndex.
    rewrite (slot_at_ok _ it x) by (done || lia). cbn [mbind outcome_bind].
    destruct (Z.eqb_spec (callback x) 0) as [Hz|Hz].
    + destruct (Erase_ok set it x Hwf Hb ltac:(lia) Hx Hxe) as (set1 & -> & Hwf1 & Hp1 & Hnb & Hfrom). cbn [mbind outcome_bind fst snd].
      pose proof (wf_table set1 Hwf1) as [Hlen1 _ _].
      assert (num_elements_ set = num_elements_ set1 + 1) as Hn1
        by (rewrite (wf_size set Hwf), (wf_size set1 Hwf1), Hp1; cbn [length]; lia).
      destruct (first_full_stop (data_ set1) it) as [Hr Hst]; [lia|].
      destruct (IH set1 (first_full (drop (Z.to_nat it) (data_ set1)) it)) as (set' & Hrun & Hwf' & Hnb' & Hp'); [done|lia|lia| |..|lia|].
      * destruct Hst as [Hst|Hst]; [left; lia|by right].
      * apply swept_next; [lia|]. intros i y Hi Hy Hye. destruct (Hfrom i y Hi Hy Hye) as (i' & Hi' & Hy'). by apply (Hswept i').
      * exists set'. rewrite <- Hnb at 1. split_and!; [done|done|lia|]. rewrite Hp', Hp1. cbn. unfold marked at 2. by rewrite Hz.
    + rewrite set_slot_ok by lia. cbn [mbind outcome_bind]. set (y := callback x) in *.
      assert (IsEmpty y = false) as Hye by (by apply Z.eqb_neq).
      set (set1 := with_data set (<[Z.to_nat it := y]> (data_ set))).
      assert (wf set1) as Hwf1.
      { apply (wf_replace set it x y); [done|lia|done|done|done|]. unfold y. cbn. by rewrite (cb_content Hcb x Hz). }
      pose proof (wf_table set1 Hwf1) as [Hlen1 _ _].
      rewrite NextNonEmptySlot_ok by (done || (cbn; lia)). cbn [mbind outcome_bind].
      assert (num_buckets_ set1 = num_buckets_ set) as Hnb by done. assert (num_elements_ set1 = num_elements_ set) as Hn1 by done.
      destruct (first_full_stop (data_ set1) (it + 1)) as [Hr Hst]; [lia|].
      destruct (IH set1 (first_full (drop (Z.to_nat (it + 1)) (data_ set1)) (it + 1))) as (set' & Hrun & Hwf' & Hnb' & Hp'); [done|lia|lia| |..|lia|].
      * destruct Hst as [Hst|Hst]; [left; lia|by right].
      * apply swept_next; [lia|]. intros i z Hi Hy' Hze. unfold set1 in Hy'. cbn [data_ with_data] in Hy'. destruct (decide (i = it)) as [->|Hi'].
        -- rewrite list_lookup_insert_eq in Hy' by lia. injection Hy' as <-. by apply (cb_stable Hcb).
        -- rewrite list_lookup_insert_ne in Hy' by lia. by apply (Hswept i); [lia|..].
      * exists set'. split_and!; [done|done|done|]. rewrite Hp'.
        destruct (elements_replace (data_ set) (Z.to_nat it) x y Hx Hxe Hye) as (rest & Hr1 & Hr2).
        assert (marked x = Some y) as Hmx by (unfold marked; fold y; by rewrite (proj2 (Z.eqb_neq y 0))).
        assert (callback y = y) as Hyy by (by apply (cb_stable Hcb)).
        assert (marked y = Some y) as Hmy by (unfold marked; rewrite Hyy; by rewrite (proj2 (Z.eqb_neq y 0))).
        unfold set1. cbn [data_ with_data]. rewrite Hr1, Hr2. cbn [omap list_omap]. by rewrite Hmx, Hmy.
Qed.

(** [SweepWeaks] of a set returns, and leaves exactly the marked strings. *)
Lemma SweepWeaks_set_ok set :
  wf set -> num_elements_ set < 2 ^ 64 ->
  exists set', SweepWeaks_set content callback set = Ok set' /\ wf set' /\
    elements (data_ set') ≡ₚ omap marked (elements (data_ set)).
Proof.
  intros Hwf Hb. unfold SweepWeaks_set. pose proof (wf_table set Hwf) as [Hlen Hn _].
  rewrite begin_ok by done. cbn [mbind outcome_bind]. change (first_full (data_ set) 0) with (first_full (drop (Z.to_nat 0) (data_ set)) 0).
  destruct (first_full_stop (data_ set) 0) as [Hr Hst]; [lia|].
  destruct (SweepWeaks_loop_ok (2 * length (data_ set) + 1) set (first_full (drop (Z.to_nat 0) (data_ set)) 0))
    as (set' & Hrun & Hwf' & _ & Hp); [done|done|lia| |..|by exists set'].
  - destruct Hst as [Hst|Hst]; [left; lia|by right].
  - apply swept_next; [lia|]. intros i y Hi. lia.
  - pose proof (wf_expand set Hwf). lia.
Qed.

End SweepWeaks.

(** ** Tables *)

Section Interning.
Context (content : Z -> list Z).
Context (Hcontent : forall s, forallb (fun ch => (0 <=? ch) && (ch <? 2 ^ 16)) (content s) = true).

#[local] Hint Extern 0 (SlotOps Z) => exact (string_slots content) : typeclass_instances.
#[local] Hint Extern 0 (KeyOps Z Z) => exact (string_keys content) : typeclass_instances.
#[local] Hint Extern 0 (SlotLaws Z) => exact (string_slot_laws content) : typeclass_instances.
#[local] Hint Extern 0 (KeyLaws Z Z) => exact (string_key_laws content) : typeclass_instances.

Record table_wf (t : Table) : Prop := {
  tw_pre : wf (pre_zygote_table_ t);
  tw_post : wf (post_zygote_table_ t);
}.

Definition strings (t : Table) : list Z :=
  elements (data_ (pre_zygote_table_ t)) ++ elements (data_ (post_zygote_table_ t)).

Lemma elements_nonzero (h : HashSet Z) x : x ∈ elements (data_ h) -> x <> 0.
Proof. intros [Hx _]%elem_of_elements. cbn in Hx. lia. Qed.

Lemma strings_nonzero t x : x ∈ strings t -> x <> 0.
Proof. intros [Hx|Hx]%elem_of_app; by eapply elements_nonzero. Qed.

(** A lookup in one of the sets. *)
Lemma set_find h s :
  wf h -> s <> 0 ->
  (Find h s = Ok (end_ h) /\ forall x, x ∈ elements (data_ h) -> content x <> content s) \/
  exists i r, Find h s = Ok i /\ 0 <= i < end_ h /\ ElementForIndex h i = Ok r /\ data_ h !! Z.to_nat i = Some r /\
    r ∈ elements (data_ h) /\ content r = content s.
Proof.
  intros Hwf Hs. destruct (Find_ok h s (wf_table h Hwf) (wf_room h Hwf)) as [[Hf Hno]|(i & Hi & Hf & (r & Hr & Hre & Hp))].
  - left. split; [done|]. intros x Hx Heq. specialize (Hno x Hx). cbn in Hno.
    by rewrite (proj2 (String_Equals_iff content x s Hs) Heq) in Hno.
  - right. exists i, r. split_and!; [done|lia|lia|by apply slot_at_ok; [lia|]|done| |by apply String_Equals_content].
    apply elem_of_elements. split; [done|]. by eapply list_elem_of_lookup_2.
Qed.

Lemma Table_Find_ok t s :
  table_wf t -> s <> 0 ->
  exists r, Table_Find content t s = Ok r /\
    ((r = 0 /\ forall x, x ∈ strings t -> content x <> content s) \/
     (r <> 0 /\ r ∈ strings t /\ content r = content s)).
Proof.
  intros [Hpre Hpost] Hs. unfold Table_Find.
  destruct (set_find _ s Hpre Hs) as [[-> Hno1]|(i & r & -> & Hi & Hel & _ & Hin & Hc)]; cbn [mbind outcome_bind].
  - rewrite Z.eqb_refl. cbn [negb].
    destruct (set_find _ s Hpost Hs) as [[-> Hno2]|(i & r & -> & Hi & Hel & _ & Hin & Hc)]; cbn [mbind outcome_bind].
    + rewrite Z.eqb_refl. exists 0. split; [done|]. left. split; [done|]. intros x [Hx|Hx]%elem_of_app; [by apply Hno1|by apply Hno2].
    + rewrite (proj2 (Z.eqb_neq _ _)) by lia. exists r. split; [done|]. right.
      split_and!; [by eapply elements_nonzero|apply elem_of_app; by right|done].
  - rewrite (proj2 (Z.eqb_neq _ _)) by lia. exists r. split; [done|]. right.
    split_and!; [by eapply elements_nonzero|apply elem_of_app; by left|done].
Qed.

Lemma Table_Insert_ok t s :
  table_wf t -> s <> 0 -> Z.of_nat (length (strings t)) < 2 ^ 49 ->
  exists t', Table_Insert content t s = Ok t' /\ table_wf t' /\ strings t' ≡ₚ s :: strings t.
Proof.
  intros [Hpre Hpost] Hs Hb. unfold Table_Insert, strings in *. rewrite length_app in Hb.
  destruct (Insert_ok (post_zygote_table_ t) s Hpost) as (post & -> & Hwf & Hp).
  - rewrite (wf_size _ Hpost). lia.
  - cbn. lia.
  - cbn [mbind outcome_bind]. eexists. split; [done|]. split; [by constructor|].
    cbn [pre_zygote_table_ post_zygote_table_]. rewrite Hp. by rewrite <- Permutation_middle.
Qed.

Definition distinct (l : list Z) : Prop := NoDup (content <$> l).

Lemma distinct_unique l x y : distinct l -> x ∈ l -> y ∈ l -> content x = content y -> x = y.
Proof.
  intros Hd Hx Hy Heq. apply list_elem_of_lookup in Hx as (i & Hi), Hy as (j & Hj).
  assert (i = j) as ->; [|congruence].
  apply (NoDup_lookup _ _ _ (content x) Hd); rewrite list_lookup_fmap; [by rewrite Hi|rewrite Hj; cbn; congruence].
Qed.

Lemma distinct_perm l l' : l ≡ₚ l' -> distinct l -> distinct l'.
Proof. unfold distinct. by intros ->. Qed.

Lemma Erase_set h i x :
  wf h -> Z.of_nat (length (elements (data_ h))) < 2 ^ 49 -> 0 <= i < end_ h -> data_ h !! Z.to_nat i = Some x -> x <> 0 ->
  exists h' it, HashSet_Erase h i = Ok (h', it) /\ wf h' /\ elements (data_ h) ≡ₚ x :: elements (data_ h').
Proof.
  intros Hwf Hb Hi Hx Hne. destruct (Erase_ok h i x Hwf) as (h' & Hrun & Hwf' & Hp & _); [|done|done|by apply Z.eqb_neq|].
  - rewrite (wf_size h Hwf). lia.
  - by exists h', (first_full (drop (Z.to_nat i) (data_ h')) i).
Qed.

Lemma Table_Remove_ok t s :
  table_wf t -> s ∈ strings t -> distinct (strings t) -> Z.of_nat (length (strings t)) < 2 ^ 49 ->
  exists t', Table_Remove content t s = Ok t' /\ table_wf t' /\ strings t ≡ₚ s :: strings t'.
Proof.
  intros [Hpre Hpost] Hin Hd Hb. pose proof (strings_nonzero t s Hin) as Hs. unfold Table_Remove.
  assert (forall r, r ∈ strings t -> content r = content s -> r = s) as Huniq by (intros; by eapply distinct_unique).
  unfold strings in *. rewrite length_app in Hb.
  destruct (set_find _ s Hpost Hs) as [[-> Hno]|(i & r & -> & Hi & _ & Hr & Hrin & Hc)]; cbn [mbind outcome_bind].
  - rewrite Z.eqb_refl. cbn [negb].
    assert (s ∈ elements (data_ (pre_zygote_table_ t))) as Hspre
      by (apply elem_of_app in Hin as [?|Hx]; [done|by destruct (Hno s Hx)]).
    destruct (set_find _ s Hpre Hs) as [[_ Hno2]|(i & r & -> & Hi & _ & Hr & Hrin & Hc)]; [by destruct (Hno2 s Hspre)|].
    cbn [mbind outcome_bind]. assert (r = s) as -> by (apply Huniq; [apply elem_of_app; by left|done]).
    destruct (Erase_set _ i s Hpre) as (h' & it & -> & Hwf & Hp); [lia|done|done|done|]. cbn [mbind outcome_bind fst].
    eexists. split; [done|]. split; [by constructor|]. cbn [pre_zygote_table_ post_zygote_table_]. by rewrite Hp.
  - rewrite (proj2 (Z.eqb_neq _ _)) by lia. cbn [negb].
    assert (r = s) as -> by (apply Huniq; [apply elem_of_app; by right|done]).
    destruct (Erase_set _ i s Hpost) as (h' & it & -> & Hwf & Hp); [lia|done|done|done|]. cbn [mbind outcome_bind fst].
    eexists. split; [done|]. split; [by constructor|]. cbn [pre_zygote_table_ post_zygote_table_]. rewrite Hp.
    by rewrite <- Permutation_middle.
Qed.

(** ** The intern table *)

Definition strong_strings (i : InternTable) : list Z := strings (strong_interns_ i).
Definition weak_strings (i : InternTable) : list Z := strings (weak_interns_ i).
Definition all_strings (i : InternTable) : list Z := strong_strings i ++ weak_strings i.

(** At most one interned string per contents. *)
Record intern_ok (i : InternTable) : Prop := {
  io_strong : table_wf (strong_interns_ i);
  io_weak : table_wf (weak_interns_ i);
  io_distinct : distinct (all_strings i);
}.

(** The resolved strings of the image have the contents of their string ids. *)
Record image_ok (image : option (list ImageDexCache)) : Prop := {
  im_sorted : forall l c, image = Some l -> c ∈ l -> tables_sorted (dc_dex_file c);
  im_length : forall l c, image = Some l -> c ∈ l -> length (dc_resolved_strings c) = length (string_ids_ (dc_dex_file c));
  im_content : forall l c (k : nat) str r, image = Some l -> c ∈ l -> string_ids_ (dc_dex_file c) !! k = Some str ->
    dc_resolved_strings c !! k = Some r -> r <> 0 -> content r = units str;
}.

Lemma InsertStrong_ok s i :
  table_wf (strong_interns_ i) -> s <> 0 -> Z.of_nat (length (strong_strings i)) < 2 ^ 49 ->
  exists i', InsertStrong content s i = Ok (s, i') /\ table_wf (strong_interns_ i') /\
    strong_strings i' ≡ₚ s :: strong_strings i /\ weak_interns_ i' = weak_interns_ i /\
    active_transaction_ i' = active_transaction_ i /\ allow_new_interns_ i' = allow_new_interns_ i /\
    image_added_to_intern_table_ i' = image_added_to_intern_table_ i /\
    intern_string_logs_ i' = (if active_transaction_ i then [mkInternStringLog s kStrongString kInsert] else []) ++ intern_string_logs_ i.
Proof.
  intros Hwf Hs Hb. destruct (Table_Insert_ok (strong_interns_ i) s Hwf Hs Hb) as (t' & Ht & Hwf' & Hp).
  unfold InsertStrong, LogInternedString. rewrite bind_gets. destruct (active_transaction_ i) eqn:Ha, (log_new_roots_ i) eqn:Hl;
    unfold whenM; rewrite ?bind_modify, ?bind_ret, bind_gets; cbn [log_new_roots_ with_logs]; rewrite Hl;
    rewrite ?bind_modify, ?bind_ret, bind_gets, bind_lift; cbn [strong_interns_ with_roots with_logs]; rewrite Ht, bind_modify;
    eexists; (split; [reflexivity|]); cbn; rewrite ?Ha; split_and!; done.
Qed.

Lemma InsertWeak_ok s i :
  table_wf (weak_interns_ i) -> s <> 0 -> Z.of_nat (length (weak_strings i)) < 2 ^ 49 ->
  exists i', InsertWeak content s i = Ok (s, i') /\ table_wf (weak_interns_ i') /\
    weak_strings i' ≡ₚ s :: weak_strings i /\ strong_interns_ i' = strong_interns_ i /\
    active_transaction_ i' = active_transaction_ i /\ allow_new_interns_ i' = allow_new_interns_ i /\
    image_added_to_intern_table_ i' = image_added_to_intern_table_ i /\
    intern_string_logs_ i' = (if active_transaction_ i then [mkInternStringLog s kWeakString kInsert] else []) ++ intern_string_logs_ i.
Proof.
  intros Hwf Hs Hb. destruct (Table_Insert_ok (weak_interns_ i) s Hwf Hs Hb) as (t' & Ht & Hwf' & Hp).
  unfold InsertWeak, LogInternedString. rewrite bind_gets. destruct (active_transaction_ i) eqn:Ha;
    unfold whenM; rewrite ?bind_modify, ?bind_ret, bind_gets, bind_lift; cbn [weak_interns_ with_logs]; rewrite Ht, bind_modify;
    eexists; (split; [reflexivity|]); cbn; rewrite ?Ha; split_and!; done.
Qed.

Lemma RemoveWeak_ok s i :
  table_wf (weak_interns_ i) -> s ∈ weak_strings i -> distinct (weak_strings i) -> Z.of_nat (length (weak_strings i)) < 2 ^ 49 ->
  exists i', RemoveWeak content s i = Ok (tt, i') /\ table_wf (weak_interns_ i') /\
    weak_strings i ≡ₚ s :: weak_strings i' /\ strong_interns_ i' = strong_interns_ i /\
    active_transaction_ i' = active_transaction_ i /\ allow_new_interns_ i' = allow_new_interns_ i /\
    image_added_to_intern_table_ i' = image_added_to_intern_table_ i /\
    intern_string_logs_ i' = (if active_transaction_ i then [mkInternStringLog s kWeakString kRemove] else []) ++ intern_string_logs_ i.
Proof.
  intros Hwf Hs Hd Hb. destruct (Table_Remove_ok (weak_interns_ i) s Hwf Hs Hd Hb) as (t' & Ht & Hwf' & Hp).
  unfold RemoveWeak, LogInternedString. rewrite bind_gets. destruct (active_transaction_ i) eqn:Ha;
    unfold whenM; rewrite ?bind_modify, ?bind_ret, bind_gets, bind_lift; cbn [weak_interns_ with_logs]; rewrite Ht;
    eexists; (split; [reflexivity|]); cbn; rewrite ?Ha; split_and!; done.
Qed.

Lemma RemoveStrong_ok s i :
  table_wf (strong_interns_ i) -> s ∈ strong_strings i -> distinct (strong_strings i) -> Z.of_nat (length (strong_strings i)) < 2 ^ 49 ->
  exists i', RemoveStrong content s i = Ok (tt, i') /\ table_wf (strong_interns_ i') /\
    strong_strings i ≡ₚ s :: strong_strings i' /\ weak_interns_ i' = weak_interns_ i /\
    active_transaction_ i' = active_transaction_ i /\ intern_string_logs_ i' = intern_string_logs_ i.
Proof.
  intros Hwf Hs Hd Hb. destruct (Table_Remove_ok (strong_interns_ i) s Hwf Hs Hd Hb) as (t' & Ht & Hwf' & Hp).
  unfold RemoveStrong. rewrite bind_gets, bind_lift, Ht. eexists; (split; [reflexivity|]); cbn; split_and!; done.
Qed.

(** A string found in the image has the contents of the string looked for. *)
Lemma image_lookup_ok image l s :
  image_ok image -> image = Some l ->
  exists r, image_lookup l (ConvertUtf16ToModifiedUtf8 (content s) ++ [0]) = Ok r /\ (r = 0 \/ r <> 0 /\ content r = content s).
Proof.
  intros Him Hl. set (str := mk_utf_string (content s) (Hcontent s)). change (ConvertUtf16ToModifiedUtf8 (content s) ++ [0]) with (c_str str).
  assert (forall c, c ∈ l -> c ∈ l) as Hsub by done. revert Hsub. generalize l at 1 3. intros l'.
  induction l' as [|c l' IH]; intros Hsub; cbn [image_lookup].
  - exists 0. split; [done|by left].
  - assert (c ∈ l) as Hc by (apply Hsub; by left). specialize (IH ltac:(intros; apply Hsub; by right)).
    pose proof (im_sorted image Him l c Hl Hc) as Hts. rewrite FindStringId_ok by done. cbn [mbind outcome_bind].
    destruct (scan _ _ 0) as [k|] eqn:Hscan; [|done].
    destruct (scan_some _ _ _ _ Hscan) as (p & x & Hp & Hx & Hkey). rewrite Z.add_0_l in Hp. subst k.
    pose proof (lookup_lt_Some _ _ _ Hx) as Hlt.
    rewrite GetIndexForStringId_ok by (unfold Num; lia). cbn [mbind outcome_bind].
    destruct (lookup_lt_is_Some_2 (dc_resolved_strings c) p) as [r Hr]; [by rewrite (im_length image Him l c)|].
    rewrite (GetId_ok _ _ r) by first [lia | by rewrite Nat2Z.id]. cbn [mbind outcome_bind].
    destruct (Z.eqb_spec r 0) as [->|Hne]; [done|]. cbn [negb]. exists r. split; [done|]. right. split; [done|].
    rewrite (im_content image Him l c p x r) by done. apply Z.eqb_eq, lex_eq, string_key_inj in Hkey. by rewrite <- Hkey.
Qed.

(** *** Logs that can be undone

    [undoable S0 W0 logs S W]: undoing [logs], newest first, leads from the
    strings [S] and [W] of the two tables to [S0] and [W0]. *)
Inductive undoable (S0 W0 : list Z) : list InternStringLog -> list Z -> list Z -> Prop :=
| ud_nil S W : S ≡ₚ S0 -> W ≡ₚ W0 -> undoable S0 W0 [] S W
| ud_strong s logs S S' W :
    S ≡ₚ s :: S' -> distinct (S ++ W) -> undoable S0 W0 logs S' W ->
    undoable S0 W0 (mkInternStringLog s kStrongString kInsert :: logs) S W
| ud_weak s logs S W W' :
    W ≡ₚ s :: W' -> distinct (S ++ W) -> undoable S0 W0 logs S W' ->
    undoable S0 W0 (mkInternStringLog s kWeakString kInsert :: logs) S W
| ud_unweak s logs S W W' :
    s <> 0 -> W' ≡ₚ s :: W -> undoable S0 W0 logs S W' ->
    undoable S0 W0 (mkInternStringLog s kWeakString kRemove :: logs) S W.

Lemma undoable_perm S0 W0 logs S W S' W' :
  S ≡ₚ S' -> W ≡ₚ W' -> undoable S0 W0 logs S W -> undoable S0 W0 logs S' W'.
Proof.
  intros HS HW Hu. revert S' W' HS HW. induction Hu as [S W H1 H2|s logs S S1 W H1 H2 Hu IH|s logs S W W1 H1 H2 Hu IH|s logs S W W1 H0 H1 Hu IH]; intros S' W' HS HW.
  - apply ud_nil; [by rewrite <- HS|by rewrite <- HW].
  - apply (ud_strong _ _ s logs S' S1); [by rewrite <- HS|eapply distinct_perm; [|done]; by rewrite HS, HW|by apply IH].
  - apply (ud_weak _ _ s logs S' W' W1); [by rewrite <- HW|eapply distinct_perm; [|done]; by rewrite HS, HW|by apply IH].
  - apply (ud_unweak _ _ s logs S' W' W1); [done|by rewrite <- HW|by apply IH].
Qed.

(** What interning [s] does: [r] is the interned string. *)
Record interned (i : InternTable) (s : Z) (is_strong : bool) (r : Z) (i' : InternTable) : Prop := {
  in_ok : intern_ok i';
  in_content : content r = content s;
  in_here : r ∈ all_strings i';
  in_strong : is_strong = true -> r ∈ strong_strings i';
  in_keeps_strong : forall x, x ∈ strong_strings i -> x ∈ strong_strings i';
  in_keeps : forall x, x ∈ all_strings i -> x ∈ all_strings i';
  in_length : (length (all_strings i') <= length (all_strings i) + 1)%nat;
  in_allow : allow_new_interns_ i' = allow_new_interns_ i;
  in_active : active_transaction_ i' = active_transaction_ i;
  in_undo : active_transaction_ i = true -> forall S0 W0,
    undoable S0 W0 (intern_string_logs_ i) (strong_strings i) (weak_strings i) ->
    undoable S0 W0 (intern_string_logs_ i') (strong_strings i') (weak_strings i');
  in_logs : exists new, intern_string_logs_ i' = new ++ intern_string_logs_ i /\ (length new <= 2)%nat;
}.

Lemma interned_found i s b r :
  intern_ok i -> content r = content s -> r ∈ all_strings i -> (b = true -> r ∈ strong_strings i) -> interned i s b r i.
Proof. intros. constructor; auto; [lia|]. exists []. split; [done|cbn; lia]. Qed.

Lemma distinct_cons l s : distinct l -> (forall x, x ∈ l -> content x <> content s) -> distinct (s :: l).
Proof.
  intros Hd Hno. apply NoDup_cons. split; [|done]. intros Hin. apply list_elem_of_fmap in Hin as (x & Heq & Hx).
  by apply (Hno x Hx).
Qed.

Section Insertion.
Context (i : InternTable) (Hok : intern_ok i) (Hb : Z.of_nat (length (all_strings i)) < 2 ^ 48).

Lemma table_bounds : Z.of_nat (length (strong_strings i)) < 2 ^ 48 /\ Z.of_nat (length (weak_strings i)) < 2 ^ 48.
Proof. unfold all_strings in Hb. rewrite length_app in Hb. lia. Qed.

(** A string whose contents are new is inserted in the table asked for. *)
Lemma insert_new s (b : bool) r0 :
  s <> 0 -> content s = content r0 -> (forall x, x ∈ all_strings i -> content x <> content s) ->
  exists i', (if b then InsertStrong content s else InsertWeak content s) i = Ok (s, i') /\ interned i r0 b s i'.
Proof.
  intros Hs Hc Hno. destruct table_bounds as [Hbs Hbw]. destruct Hok as [Hws Hww Hd].
  assert (distinct (s :: all_strings i)) as Hd' by (by apply distinct_cons). destruct b.
  - destruct (InsertStrong_ok s i Hws Hs ltac:(lia)) as (i' & Hrun & Hwf' & Hp & Hw & Ha & Hal & Him & Hlogs).
    assert (weak_strings i' = weak_strings i) as Hws' by (unfold weak_strings; by rewrite Hw).
    assert (all_strings i' ≡ₚ s :: all_strings i) as Hpa by (unfold all_strings; by rewrite Hp, Hws').
    exists i'. split; [done|]. constructor; try done.
    + constructor; [done|by rewrite Hw|by eapply distinct_perm; [symmetry|]].
    + rewrite Hpa. by left.
    + intros _. rewrite Hp. by left.
    + intros x Hx. rewrite Hp. by right.
    + intros x Hx. rewrite Hpa. by right.
    + rewrite Hpa. cbn [length]. lia.
    + intros Hact S0 W0 Hu. rewrite Hlogs, Hact, Hws'. cbn [app].
      apply (ud_strong _ _ s _ _ (strong_strings i)); [done| |done]. by eapply distinct_perm; [|exact Hd']; unfold all_strings; rewrite Hp.
    + rewrite Hlogs. eexists. split; [done|]. destruct (active_transaction_ i); cbn; lia.
  - destruct (InsertWeak_ok s i Hww Hs ltac:(lia)) as (i' & Hrun & Hwf' & Hp & Hst & Ha & Hal & Him & Hlogs).
    assert (strong_strings i' = strong_strings i) as Hss' by (unfold strong_strings; by rewrite Hst).
    assert (all_strings i' ≡ₚ s :: all_strings i) as Hpa by (unfold all_strings; rewrite Hp, Hss'; by rewrite <- Permutation_middle).
    exists i'. split; [done|]. constructor; try done.
    + constructor; [by rewrite Hst|done|by eapply distinct_perm; [symmetry|]].
    + rewrite Hpa. by left.
    + intros x. by rewrite Hss'.
    + intros x Hx. rewrite Hpa. by right.
    + rewrite Hpa. cbn [length]. lia.
    + intros Hact S0 W0 Hu. rewrite Hlogs, Hact, Hss'. cbn [app].
      apply (ud_weak _ _ s _ _ _ (weak_strings i)); [done| |done]. eapply distinct_perm; [|exact Hd'].
      unfold all_strings. rewrite Hp. by rewrite <- Permutation_middle.
    + rewrite Hlogs. eexists. split; [done|]. destruct (active_transaction_ i); cbn; lia.
Qed.

(** A weak string that is interned strongly moves to the strong table. *)
Lemma promote s w :
  w ∈ weak_strings i -> content w = content s ->
  exists i1 i', RemoveWeak content w i = Ok (tt, i1) /\ InsertStrong content w i1 = Ok (w, i') /\ interned i s true w i'.
Proof.
  intros Hin Hc. destruct table_bounds as [Hbs Hbw]. destruct Hok as [Hws Hww Hd].
  assert (w <> 0) as Hw0 by (by eapply strings_nonzero).
  assert (distinct (weak_strings i)) as Hdw.
  { unfold distinct, all_strings in *. rewrite fmap_app in Hd. by apply NoDup_app in Hd as (_ & _ & ?). }
  destruct (RemoveWeak_ok w i Hww Hin Hdw ltac:(lia)) as (i1 & Hrun1 & Hwf1 & Hp1 & Hst1 & Ha1 & Hal1 & Him1 & Hl1).
  assert (strong_strings i1 = strong_strings i) as Hss1 by (unfold strong_strings; by rewrite Hst1).
  destruct (InsertStrong_ok w i1) as (i' & Hrun2 & Hwf2 & Hp2 & Hw2 & Ha2 & Hal2 & Him2 & Hl2);
    [by rewrite Hst1|done|rewrite Hss1; lia|].
  assert (weak_strings i' = weak_strings i1) as Hws2 by (unfold weak_strings; by rewrite Hw2).
  rewrite Hss1 in Hp2.
  assert (all_strings i' ≡ₚ all_strings i) as Hpa by (unfold all_strings; rewrite Hp2, Hws2, Hp1; by rewrite <- Permutation_middle).
  exists i1, i'. split_and!; [done|done|]. constructor; try done.
  - constructor; [done|by rewrite Hw2|by eapply distinct_perm; [symmetry|]].
  - rewrite Hpa. unfold all_strings. apply elem_of_app. by right.
  - intros _. rewrite Hp2. by left.
  - intros x Hx. rewrite Hp2. by right.
  - intros x Hx. by rewrite Hpa.
  - rewrite Hpa. lia.
  - by rewrite Hal2.
  - by rewrite Ha2.
  - intros Hact S0 W0 Hu. rewrite Hl2, Ha1, Hl1, Hact, Hws2. cbn [app].
    apply (ud_strong _ _ w _ _ (strong_strings i)); [done|..].
    + eapply distinct_perm; [|exact Hd]. rewrite <- Hws2. fold (all_strings i'). by rewrite Hpa.
    + by apply (ud_unweak _ _ w _ _ _ (weak_strings i)).
  - rewrite Hl2, Hl1, Ha1. rewrite app_assoc. eexists. split; [done|]. destruct (active_transaction_ i); cbn; lia.
Qed.

Lemma InternTable_Insert_ok image s b :
  image_ok image -> allow_new_interns_ i = true -> s <> 0 ->
  exists r i', InternTable_Insert content image s b i = Ok (Returns r, i') /\ interned i s b r i'.
Proof.
  intros Him Hal Hs. unfold InternTable_Insert. rewrite (proj2 (Z.eqb_neq s 0)) by done. rewrite bind_gets, Hal. cbn [negb].
  destruct (Table_Find_ok (strong_interns_ i) s (io_strong i Hok) Hs) as (r1 & Hf1 & Hr1).
  unfold LookupStrong. rewrite bind_assoc, bind_gets, bind_lift, Hf1.
  destruct Hr1 as [[-> Hno1]|(Hr1 & Hin1 & Hc1)].
  2: { rewrite (proj2 (Z.eqb_neq r1 0)) by done. exists r1, i. split; [done|].
       apply interned_found; [done|done|apply elem_of_app; by left|done]. }
  cbn [Z.eqb negb]. destruct (Table_Find_ok (weak_interns_ i) s (io_weak i Hok) Hs) as (r2 & Hf2 & Hr2).
  unfold LookupWeak. rewrite bind_assoc, bind_gets, bind_lift, Hf2.
  destruct Hr2 as [[-> Hno2]|(Hr2 & Hin2 & Hc2)].
  2: { rewrite (proj2 (Z.eqb_neq r2 0)) by done. cbn [negb]. destruct b.
       - destruct (promote s r2 Hin2 Hc2) as (i1 & i' & Hrun1 & Hrun2 & Hi').
         rewrite (bind_ok _ _ _ _ _ Hrun1), (bind_ok _ _ _ _ _ Hrun2). by exists r2, i'.
       - exists r2, i. split; [done|]. apply interned_found; [done|done|apply elem_of_app; by right|done]. }
  cbn [Z.eqb negb]. assert (forall x, x ∈ all_strings i -> content x <> content s) as Hno
    by (intros x [Hx|Hx]%elem_of_app; [by apply Hno1|by apply Hno2]).
  assert (exists r3, LookupStringFromImage content image s i = Ok (r3, i) /\ (r3 = 0 \/ r3 <> 0 /\ content r3 = content s)) as (r3 & Hrun3 & Hr3).
  { unfold LookupStringFromImage. rewrite bind_gets. destruct (image_added_to_intern_table_ i); [exists 0; split; [done|by left]|].
    destruct image as [l|]; [|exists 0; split; [done|by left]].
    destruct (image_lookup_ok (Some l) l s Him eq_refl) as (r3 & Hr & Hr3). exists r3. split; [|done]. unfold lift. by rewrite Hr. }
  rewrite (bind_ok _ _ _ _ _ Hrun3). destruct Hr3 as [->|[Hne3 Hc3]].
  - cbn [Z.eqb negb]. destruct (insert_new s b s Hs eq_refl Hno) as (i' & Hrun & Hi').
    rewrite (bind_ok _ _ _ _ _ Hrun). by exists s, i'.
  - rewrite (proj2 (Z.eqb_neq r3 0)) by done. cbn [negb].
    destruct (insert_new r3 b s Hne3 Hc3) as (i' & Hrun & Hi'); [intros x Hx; rewrite Hc3; by apply Hno|].
    rewrite (bind_ok _ _ _ _ _ Hrun). by exists r3, i'.
Qed.

End Insertion.

(** *** Sequences of requests *)

(** Interning a string, strongly or weakly, or the fork of the zygote. *)
Inductive request :=
| Intern (s : Z) (is_strong : bool)
| Fork.

Definition serve (image : option (list ImageDexCache)) (q : request) : M InternTable (option (blocking Z)) :=
  match q with
  | Intern s is_strong => r ← (if is_strong then InternStrong content image s else InternWeak content image s); mret (Some r)
  | Fork => SwapPostZygoteWithPreZygote ;; mret None
  end.

Fixpoint serve_all (image : option (list ImageDexCache)) (qs : list request) : M InternTable (list (option (blocking Z))) :=
  match qs with
  | [] => mret []
  | q :: qs => r ← serve image q; rs ← serve_all image qs; mret (r :: rs)
  end.

(** The answer to a request. *)
Definition answers (i : InternTable) (q : request) (r : option (blocking Z)) : Prop :=
  match q with
  | Intern s is_strong => exists x, r = Some (Returns x) /\ content x = content s /\ x ∈ all_strings i /\
      (is_strong = true -> x ∈ strong_strings i)
  | Fork => r = None
  end.

Lemma swap_strings t : table_wf t -> table_wf (Table_SwapPostZygoteWithPreZygote t) /\ strings (Table_SwapPostZygoteWithPreZygote t) ≡ₚ strings t.
Proof.
  intros [H1 H2]. unfold Table_SwapPostZygoteWithPreZygote. destruct (Empty _); [|done].
  split; [by constructor|]. unfold strings. cbn. apply Permutation_app_comm.
Qed.

(** What every request keeps. *)
Record served (i i' : InternTable) : Prop := {
  se_ok : intern_ok i';
  se_strong : forall x, x ∈ strong_strings i -> x ∈ strong_strings i';
  se_all : forall x, x ∈ all_strings i -> x ∈ all_strings i';
  se_length : (length (all_strings i') <= length (all_strings i) + 1)%nat;
  se_allow : allow_new_interns_ i' = allow_new_interns_ i;
  se_active : active_transaction_ i' = active_transaction_ i;
  se_undo : active_transaction_ i = true -> forall S0 W0,
    undoable S0 W0 (intern_string_logs_ i) (strong_strings i) (weak_strings i) ->
    undoable S0 W0 (intern_string_logs_ i') (strong_strings i') (weak_strings i');
  se_logs : (length (intern_string_logs_ i') <= length (intern_string_logs_ i) + 2)%nat;
}.

Definition request_ok (q : request) : Prop := match q with Intern s _ => s <> 0 | Fork => True end.

Lemma serve_ok image q i :
  intern_ok i -> image_ok image -> allow_new_interns_ i = true -> request_ok q -> Z.of_nat (length (all_strings i)) < 2 ^ 48 ->
  exists r i', serve image q i = Ok (r, i') /\ answers i' q r /\ served i i'.
Proof.
  intros Hok Him Hal Hq Hb. destruct q as [s b|]; cbn [serve].
  - destruct (InternTable_Insert_ok i Hok Hb image s b Him Hal Hq) as (r & i' & Hrun & [ ]).
    exists (Some (Returns r)), i'. split.
    + rewrite (bind_ok _ _ i (Returns r) i'); [done|]. by destruct b.
    + split; [by exists r|]. constructor; try done. destruct in_logs0 as (new & -> & Hn). rewrite length_app. lia.
  - destruct Hok as [Hs Hw Hd]. destruct (swap_strings _ Hs) as [Hs' Hps], (swap_strings _ Hw) as [Hw' Hpw].
    unfold SwapPostZygoteWithPreZygote. rewrite bind_assoc, bind_modify. cbn [strong_interns_ with_weak]. rewrite bind_modify.
    eexists _, _. split; [reflexivity|]. split; [done|].
    constructor; unfold all_strings, strong_strings, weak_strings; cbn [strong_interns_ weak_interns_ with_strong with_weak]; try done.
    + constructor; cbn [strong_interns_ weak_interns_ with_strong with_weak]; [done|done|].
      eapply distinct_perm; [|exact Hd]. unfold all_strings, strong_strings, weak_strings. cbn. by rewrite Hps, Hpw.
    + intros x. by rewrite Hps.
    + intros x. by rewrite Hps, Hpw.
    + rewrite !length_app, Hps, Hpw. lia.
    + intros _ S0 W0. apply undoable_perm; by symmetry.
    + cbn. lia.
Qed.

Lemma serve_all_ok image qs i :
  intern_ok i -> image_ok image -> allow_new_interns_ i = true -> Forall request_ok qs ->
  Z.of_nat (length (all_strings i)) + Z.of_nat (length qs) <= 2 ^ 48 ->
  exists rs i', serve_all image qs i = Ok (rs, i') /\ Forall2 (answers i') qs rs /\ intern_ok i' /\
    (forall x, x ∈ strong_strings i -> x ∈ strong_strings i') /\ (forall x, x ∈ all_strings i -> x ∈ all_strings i') /\
    active_transaction_ i' = active_transaction_ i /\
    (active_transaction_ i = true -> forall S0 W0,
      undoable S0 W0 (intern_string_logs_ i) (strong_strings i) (weak_strings i) ->
      undoable S0 W0 (intern_string_logs_ i') (strong_strings i') (weak_strings i')) /\
    (length (intern_string_logs_ i') <= length (intern_string_logs_ i) + 2 * length qs)%nat /\
    (length (all_strings i') <= length (all_strings i) + length qs)%nat.
Proof.
  intros Hok Him Hal Hqs. revert i Hok Hal. induction Hqs as [|q qs Hq Hqs IH]; intros i Hok Hal Hb; cbn [serve_all length] in *.
  - exists [], i. split_and!; try done; lia.
  - destruct (serve_ok image q i Hok Him Hal Hq ltac:(lia)) as (r & i1 & Hrun1 & Hans & [ ]).
    destruct (IH i1) as (rs & i2 & Hrun2 & Hall & Hok2 & Hk1 & Hk2 & Ha2 & Hu2 & Hl2 & Hl3); [done|by rewrite se_allow0|lia|].
    exists (r :: rs), i2. rewrite (bind_ok _ _ _ _ _ Hrun1), (bind_ok _ _ _ _ _ Hrun2). split_and!; try lia; auto.
    + constructor; [|done]. destruct q as [s b|]; [|done]. destruct Hans as (x & -> & Hc & Hx & Hst). exists x. split_and!; auto.
    + by rewrite Ha2.
    + intros Hact S0 W0 Hu. apply Hu2; [by rewrite se_active0|]. by apply se_undo0.
Qed.

(** *** Undoing *)

Lemma distinct_app l k : distinct (l ++ k) -> distinct l /\ distinct k.
Proof. unfold distinct. rewrite fmap_app. intros (H1 & _ & H2)%NoDup_app. done. Qed.

Lemma undo_logs_ok S0 W0 logs i :
  table_wf (strong_interns_ i) -> table_wf (weak_interns_ i) -> active_transaction_ i = false ->
  undoable S0 W0 logs (strong_strings i) (weak_strings i) ->
  Z.of_nat (length (all_strings i)) + Z.of_nat (length logs) < 2 ^ 49 ->
  exists i', forM logs (undo_string_log content) i = Ok (tt, i') /\ table_wf (strong_interns_ i') /\ table_wf (weak_interns_ i') /\
    strong_strings i' ≡ₚ S0 /\ weak_strings i' ≡ₚ W0 /\ active_transaction_ i' = false.
Proof.
  revert i. induction logs as [|l logs IH]; intros i Hs Hw Ha Hu Hb; cbn [forM length] in *.
  { inversion Hu; subst. exists i. by split_and!. }
  assert (forall i1, undo_string_log content l i = Ok (tt, i1) -> table_wf (strong_interns_ i1) -> table_wf (weak_interns_ i1) ->
    active_transaction_ i1 = false -> undoable S0 W0 logs (strong_strings i1) (weak_strings i1) ->
    (length (all_strings i1) <= length (all_strings i) + 1)%nat ->
    exists i', (undo_string_log content l ;; forM logs (undo_string_log content)) i = Ok (tt, i') /\
      table_wf (strong_interns_ i') /\ table_wf (weak_interns_ i') /\ strong_strings i' ≡ₚ S0 /\ weak_strings i' ≡ₚ W0 /\ active_transaction_ i' = false) as Hnext.
  { intros i1 Hrun H1 H2 H3 H4 H5. destruct (IH i1 H1 H2 H3 H4 ltac:(lia)) as (i' & Hrun' & Hrest).
    exists i'. by rewrite (bind_ok _ _ _ _ _ Hrun). }
  unfold all_strings in *. rewrite length_app in *.
  inversion Hu as [|s logs' S S1 W HS1 Hd Hu'|s logs' S W W1 HW1 Hd Hu'|s logs' S W W1 Hs0 HW1 Hu']; subst;
    cbn [undo_string_log string_op_ string_kind_ str_] in Hnext.
  - destruct (distinct_app _ _ Hd) as [Hds _].
    destruct (RemoveStrong_ok s i Hs) as (i1 & Hrun & Hwf1 & Hp1 & Hw1 & Ha1 & _); [rewrite HS1; by left|done|lia|].
    assert (weak_strings i1 = weak_strings i) as Hwe by (unfold weak_strings; by rewrite Hw1).
    apply (Hnext i1); [done|done|by rewrite Hw1|by rewrite Ha1|..].
    + eapply undoable_perm; [| |exact Hu']; [|by rewrite Hwe]. apply (Permutation_cons_inv (a := s)). by rewrite <- HS1.
    + rewrite length_app, Hwe. rewrite Hp1. cbn [length]. lia.
  - destruct (distinct_app _ _ Hd) as [_ Hdw].
    destruct (RemoveWeak_ok s i Hw) as (i1 & Hrun & Hwf1 & Hp1 & Hs1 & Ha1 & _); [rewrite HW1; by left|done|lia|].
    assert (strong_strings i1 = strong_strings i) as Hst by (unfold strong_strings; by rewrite Hs1).
    apply (Hnext i1); [done|by rewrite Hs1|done|by rewrite Ha1|..].
    + eapply undoable_perm; [| |exact Hu']; [by rewrite Hst|]. apply (Permutation_cons_inv (a := s)). by rewrite <- HW1.
    + rewrite length_app, Hst. rewrite Hp1. cbn [length]. lia.
  - destruct (InsertWeak_ok s i Hw Hs0 ltac:(lia)) as (i1 & Hrun & Hwf1 & Hp1 & Hs1 & Ha1 & _).
    assert (strong_strings i1 = strong_strings i) as Hst by (unfold strong_strings; by rewrite Hs1).
    apply (Hnext i1); [by rewrite (bind_ok _ _ _ _ _ Hrun)|by rewrite Hs1|done|by rewrite Ha1|..].
    + eapply undoable_perm; [| |exact Hu']; [by rewrite Hst|]. by rewrite Hp1.
    + rewrite length_app, Hst. rewrite Hp1. cbn [length]. lia.
Qed.

(** *** Sweeping the weak table *)

Lemma distinct_sweep callback S W :
  callback_ok content callback -> distinct (S ++ W) -> distinct (S ++ omap (marked callback) W).
Proof.
  intros Hcb Hd. unfold distinct in *. eapply sublist_NoDup; [exact Hd|]. rewrite !fmap_app. apply sublist_app; [done|].
  clear Hd. induction W as [|w W IH]; [done|]. cbn. unfold marked at 1. destruct (Z.eqb_spec (callback w) 0) as [Hz|Hz]; cbn.
  - by apply sublist_cons.
  - rewrite (cb_content content callback Hcb w Hz). by apply sublist_skip.
Qed.

Lemma SweepInternTableWeaks_ok callback i :
  intern_ok i -> callback_ok content callback -> Z.of_nat (length (all_strings i)) < 2 ^ 48 ->
  exists i', SweepInternTableWeaks content callback i = Ok (tt, i') /\ intern_ok i' /\
    strong_interns_ i' = strong_interns_ i /\ weak_strings i' ≡ₚ omap (marked callback) (weak_strings i).
Proof.
  intros [Hs Hw Hd] Hcb Hb. unfold all_strings in Hb. rewrite length_app in Hb. unfold weak_strings, strings in Hb. rewrite length_app in Hb.
  destruct Hw as [H1 H2].
  destruct (SweepWeaks_set_ok content callback Hcb _ H1) as (pre & Hrun1 & Hwf1 & Hp1); [rewrite (wf_size _ H1); lia|].
  destruct (SweepWeaks_set_ok content callback Hcb _ H2) as (post & Hrun2 & Hwf2 & Hp2); [rewrite (wf_size _ H2); lia|].
  unfold SweepInternTableWeaks. rewrite bind_gets, bind_lift. unfold Table_SweepWeaks. rewrite Hrun1. cbn [mbind outcome_bind].
  rewrite Hrun2. cbn [mbind outcome_bind mret outcome_ret]. eexists. split; [reflexivity|].
  assert (weak_strings (with_weak i (mkTable pre post)) ≡ₚ omap (marked callback) (weak_strings i)) as Hp.
  { unfold weak_strings, strings. cbn. by rewrite Hp1, Hp2, omap_app. }
  split_and!; [|done|done]. constructor; [done|by constructor|].
  eapply distinct_perm; [|by apply (distinct_sweep callback)]. unfold all_strings. by rewrite Hp.
Qed.

(** *** The strings of an image *)

(** References of 32 bits: the table in memory gives them back. *)
Lemma image_serializable (h : HashSet Z) :
  wf h -> num_buckets_ h < 2 ^ 64 -> (forall x, x ∈ elements (data_ h) -> 0 <= x < 2 ^ 32) -> serializable h.
Proof.
  intros [[Hlen Hn Hinv] Hsz He Hmin Hmax] Hb Hr.
  constructor; [done|lia|done|lia|rewrite Hmin; right; cbn; lia|rewrite Hmax; right; cbn; lia|].
  apply Forall_forall. intros x Hx. cbn [item_of_bytes item_bytes root_bytes]. rewrite le_value_bytes. apply Z.mod_small.
  destruct (IsEmpty x) eqn:Hxe; [apply Z.eqb_eq in Hxe as ->; cbn; lia|]. apply Hr. by apply elem_of_elements.
Qed.

Lemma read_wf (h : HashSet Z) copy :
  wf h -> wf (Build_HashSet (num_elements_ h) (num_buckets_ h) (elements_until_expand_ h) copy (data_ h)
                (min_load_factor_ h) (max_load_factor_ h)).
Proof. intros [[Hlen Hn Hinv] Hsz He Hmin Hmax]. constructor; [by constructor|..]; done. Qed.

(** What the strong table holds is found, and interning gives it back. *)
Lemma strong_found image i s x :
  intern_ok i -> allow_new_interns_ i = true -> s <> 0 -> x ∈ strong_strings i -> content s = content x ->
  LookupStrong content s i = Ok (x, i) /\ InternStrong content image s i = Ok (Returns x, i).
Proof.
  intros Hok Hal Hs Hx Hc.
  assert (LookupStrong content s i = Ok (x, i)) as Hrun.
  { destruct (Table_Find_ok (strong_interns_ i) s (io_strong i Hok) Hs) as (r & Hf & Hr).
    unfold LookupStrong. rewrite bind_gets. unfold lift. rewrite Hf.
    destruct Hr as [[_ Hno]|(_ & Hin & Hcr)]; [by destruct (Hno x Hx)|].
    assert (r = x) as ->; [|done]. apply (distinct_unique (all_strings i)); [apply Hok|apply elem_of_app; by left..|congruence]. }
  split; [done|]. unfold InternStrong, InternTable_Insert.
  rewrite (proj2 (Z.eqb_neq s 0)), bind_gets, Hal by done. cbn [negb]. rewrite (bind_ok _ _ _ _ _ Hrun).
  by rewrite (proj2 (Z.eqb_neq x 0)) by (by eapply strings_nonzero).
Qed.

Lemma ReadFromMemory_ok i mem h n :
  Size (pre_zygote_table_ (strong_interns_ i)) = 0 -> HashSet_read mem false = Ok (h, n) ->
  ReadFromMemory mem i = Ok (n, with_strong i (mkTable h (post_zygote_table_ (strong_interns_ i)))).
Proof.
  intros Hs Hr. unfold ReadFromMemory. rewrite bind_gets, bind_lift. unfold ReadIntoPreZygoteTable. rewrite Hs, Hr. done.
Qed.

End Interning.

(** ** Results *)

(** The results of a run that returned. *)
Definition results_of {A} (r : outcome (list A * InternTable)) : list A :=
  match r with Ok (rs, _) => rs | Fault _ => [] end.

Lemma InternTable_new_ok content : intern_ok content (InternTable_new content).
Proof.
  pose proof (string_slot_laws content) as Hl.
  assert (@elements Z (string_slots content) (data_ (@HashSet_new Z (string_slots content))) = []) as He
    by apply HashSet_new_elements.
  assert (table_wf content (Table_new content)) as Hw by (constructor; apply HashSet_new_wf).
  constructor; [done|done|]. unfold distinct, all_strings, strong_strings, weak_strings, strings. cbn [strong_interns_ weak_interns_ InternTable_new pre_zygote_table_ post_zygote_table_ Table_new].
  rewrite He. apply NoDup_nil_2.
Qed.

(** C9. Interning is canonical: every sequence of strong and weak requests,
    across the fork of the zygote, is answered without a fault by strings with
    the contents asked for, strings with equal contents get the same
    reference, what was interned strongly stays in the strong table, and the
    tables never hold two strings with the same contents. *)
Theorem intern_canonical (content : Z -> list Z) (image : option (list ImageDexCache)) (qs : list request) (i : InternTable) :
  (forall s, forallb (fun ch => (0 <=? ch) && (ch <? 2 ^ 16)) (content s) = true) ->
  intern_ok content i -> image_ok content image -> allow_new_interns_ i = true -> Forall request_ok qs ->
  Z.of_nat (length (all_strings content i)) + Z.of_nat (length qs) <= 2 ^ 48 ->
  exists rs i', serve_all content image qs i = Ok (rs, i') /\ intern_ok content i' /\
    Forall2 (answers content i') qs rs /\
    (forall x y, Some (Returns x) ∈ rs -> Some (Returns y) ∈ rs -> content x = content y -> x = y).
Proof.
  intros Hc Hok Him Hal Hqs Hb. destruct (serve_all_ok content Hc image qs i Hok Him Hal Hqs Hb) as (rs & i' & Hrun & Hall & Hok' & _).
  exists rs, i'. split_and!; [done|done|done|]. intros x y Hx Hy Heq.
  assert (forall z, Some (Returns z) ∈ rs -> z ∈ all_strings content i') as Hin.
  { intros z Hz. apply list_elem_of_lookup in Hz as (k & Hk). destruct (Forall2_lookup_r _ _ _ _ _ Hall Hk) as (q & Hq & Hans).
    destruct q as [s b|]; cbn in Hans; [|done]. destruct Hans as (z' & Hz' & _ & Hin & _). by injection Hz' as <-. }
  eapply distinct_unique; [apply Hok'|by apply Hin|by apply Hin|done].
Qed.

(** Two strings with the contents [a], at 1 and 2, and one with [b]. *)
Definition example_content (s : Z) : list Z := match s with 1 | 2 => [97] | 3 => [98] | _ => [] end.

Lemma intern_canonical_witness :
  exists i', serve_all example_content None [Intern 1 false; Intern 3 true; Fork; Intern 2 true] (InternTable_new example_content)
    = Ok ([Some (Returns 1); Some (Returns 3); None; Some (Returns 1)], i') /\
    intern_ok example_content i'.
Proof.
  destruct (intern_canonical example_content None [Intern 1 false; Intern 3 true; Fork; Intern 2 true] (InternTable_new example_content))
    as (rs & i' & Hrun & Hok' & _).
  - intros s. unfold example_content. repeat case_match; reflexivity.
  - apply InternTable_new_ok.
  - constructor; discriminate.
  - reflexivity.
  - repeat constructor; discriminate.
  - vm_compute. discriminate.
  - exists i'. split; [|exact Hok']. rewrite Hrun.
    assert (results_of (serve_all example_content None [Intern 1 false; Intern 3 true; Fork; Intern 2 true] (InternTable_new example_content))
      = [Some (Returns 1); Some (Returns 3); None; Some (Returns 1)]) as Hres by (vm_compute; reflexivity).
    rewrite Hrun in Hres. cbn in Hres. rewrite Hres. reflexivity.
Defined.

(** C32. Sweeping the weak table during a collection returns and keeps exactly
    the strings that are marked, each at the address the collector moved it to,
    although erasing moves other strings under the iterator and some strings
    are visited twice; the strong table is not changed, and the table stays
    canonical. *)
Theorem sweep_keeps_marked (content : Z -> list Z) (callback : Z -> Z) (i : InternTable) :
  intern_ok content i -> callback_ok content callback -> Z.of_nat (length (all_strings content i)) < 2 ^ 48 ->
  exists i', SweepInternTableWeaks content callback i = Ok (tt, i') /\ intern_ok content i' /\
    strong_interns_ i' = strong_interns_ i /\
    weak_strings content i' ≡ₚ omap (marked callback) (weak_strings content i).
Proof. apply SweepInternTableWeaks_ok. Qed.

(** String 1 is dead, 3 has moved to 13. *)
Definition moved_content (s : Z) : list Z := match s with 1 => [97] | 3 | 13 => [98] | _ => [] end.
Definition example_callback (s : Z) : Z := match s with 3 | 13 => 13 | _ => 0 end.

Lemma example_callback_ok : callback_ok moved_content example_callback.
Proof.
  assert (forall x, example_callback x <> 0 -> x = 3 \/ x = 13) as Hcb
    by (intros x; unfold example_callback; repeat case_match; intros Hx; first [by left | by right | by destruct Hx]).
  constructor; intros x [-> | ->]%Hcb; reflexivity.
Qed.

Lemma sweep_keeps_marked_witness :
  exists i i', serve_all moved_content None [Intern 1 false; Intern 3 false] (InternTable_new moved_content)
    = Ok ([Some (Returns 1); Some (Returns 3)], i) /\
    SweepInternTableWeaks moved_content example_callback i = Ok (tt, i') /\ weak_strings moved_content i' ≡ₚ [13].
Proof.
  destruct (serve_all_ok moved_content) with (image := @None (list ImageDexCache)) (qs := [Intern 1 false; Intern 3 false])
    (i := InternTable_new moved_content) as (rs & i & Hrun & _ & Hok & _ & _ & _ & _ & _ & Hlen).
  - intros s. unfold moved_content. repeat case_match; reflexivity.
  - apply InternTable_new_ok.
  - constructor; discriminate.
  - reflexivity.
  - repeat constructor; discriminate.
  - vm_compute. discriminate.
  - destruct (sweep_keeps_marked moved_content example_callback i Hok) as (i' & Hs & _ & _ & Hp).
    + exact example_callback_ok.
    + assert (length (all_strings moved_content (InternTable_new moved_content)) = 0)%nat as H0 by (vm_compute; reflexivity).
      rewrite H0 in Hlen. cbn in Hlen. lia.
    + exists i, i'.
      assert (results_of (serve_all moved_content None [Intern 1 false; Intern 3 false] (InternTable_new moved_content))
        = [Some (Returns 1); Some (Returns 3)]) as Hres by (vm_compute; reflexivity).
      assert (match serve_all moved_content None [Intern 1 false; Intern 3 false] (InternTable_new moved_content) with
              | Ok (_, i) => weak_strings moved_content i | Fault _ => [] end = [1; 3]) as Hweak by (vm_compute; reflexivity).
      rewrite Hrun in Hres, Hweak. cbn in Hres. split; [rewrite Hrun, Hres; reflexivity|]. split; [exact Hs|].
      rewrite Hp, Hweak. reflexivity.
Defined.

(** C33. The strings of an image: what the image writer wrote, with the size it
    was told when it asked, is read back by a new runtime as its table of
    strong strings; the table is canonical, it finds exactly the strings that
    were written, and interning a string with the contents of one of them gives
    the one of the image. *)
Theorem image_interns_roundtrip (content : Z -> list Z) (i : InternTable) (section : list Z) size :
  (forall s, forallb (fun ch => (0 <=? ch) && (ch <? 2 ^ 16)) (content s) = true) ->
  intern_ok content i -> num_buckets_ (post_zygote_table_ (strong_interns_ i)) < 2 ^ 64 ->
  (forall x, x ∈ strong_strings content i -> 0 <= x < 2 ^ 32) ->
  InternTable_WriteToMemory i None = Ok (None, size) -> Z.of_nat (length section) = size ->
  exists section' i', InternTable_WriteToMemory i (Some section) = Ok (Some section', size) /\
    AddImageInternTable section' (InternTable_new content) = Ok (tt, i') /\ intern_ok content i' /\
    all_strings content i' = @elements Z (string_slots content) (data_ (post_zygote_table_ (strong_interns_ i))) /\
    forall s x, s <> 0 -> x ∈ all_strings content i' -> content s = content x ->
      LookupStrong content s i' = Ok (x, i') /\ InternStrong content None s i' = Ok (Returns x, i').
Proof.
  intros Hc Hok Hb Hr Hsize Hlen. set (post := post_zygote_table_ (strong_interns_ i)) in *.
  pose proof (tw_post content _ (io_strong content i Hok)) as Hwf. fold post in Hwf.
  assert (serializable post) as Hser.
  { apply (image_serializable content); [done|done|]. intros x Hx. apply Hr. apply elem_of_app. by right. }
  unfold InternTable_WriteToMemory, WriteFromPostZygoteTable in *. fold post in Hsize |- *.
  rewrite (WriteToMemory_ok post None) in Hsize by done.
  assert (size = Z.of_nat (length (table_bytes post))) as Heq by congruence. rewrite Heq in *. clear Hsize Heq size.
  rewrite (WriteToMemory_ok post (Some section)) by (cbn [fits]; lia).
  set (h := Build_HashSet (num_elements_ post) (num_buckets_ post) (elements_until_expand_ post) false (data_ post)
              (min_load_factor_ post) (max_load_factor_ post)).
  assert (HashSet_read (splice section 0 (table_bytes post)) false = Ok (h, Z.of_nat (length (table_bytes post)))) as Hread
    by (by apply HashSet_read_ok with (drop (length (table_bytes post)) section)).
  set (new := InternTable_new content).
  exists (splice section 0 (table_bytes post)), (with_strong new (mkTable h (post_zygote_table_ (strong_interns_ new)))).
  assert (AddImageInternTable (splice section 0 (table_bytes post)) new =
          Ok (tt, with_strong new (mkTable h (post_zygote_table_ (strong_interns_ new))))) as Hadd.
  { unfold AddImageInternTable. rewrite (bind_ok _ _ _ _ _ (ReadFromMemory_ok new _ _ _ eq_refl Hread)).
    unfold checkM, Num. rewrite length_splice by lia. by rewrite (proj2 (Z.leb_le _ _)) by lia. }
  assert (@elements Z (string_slots content) (data_ (@HashSet_new Z (string_slots content))) = []) as He
    by (apply (@HashSet_new_elements Z (string_slots content) (string_slot_laws content))).
  set (i' := with_strong new _) in *.
  assert (all_strings content i' = @elements Z (string_slots content) (data_ post)) as Hall.
  { unfold i', new, all_strings, strong_strings, weak_strings, strings. cbn [strong_interns_ weak_interns_ with_strong
      InternTable_new Table_new pre_zygote_table_ post_zygote_table_ data_ h]. rewrite He. cbn [app]. by rewrite !app_nil_r. }
  assert (strong_strings content i' = all_strings content i') as Hst.
  { rewrite Hall. unfold i', new, strong_strings, strings. cbn [strong_interns_ with_strong
      InternTable_new Table_new pre_zygote_table_ post_zygote_table_ data_ h]. rewrite He. by rewrite app_nil_r. }
  assert (intern_ok content i') as Hok'.
  { destruct (InternTable_new_ok content) as [[_ Hp] Hw _]. constructor; [|done|].
    - constructor; [by apply (read_wf content)|done].
    - rewrite Hall. destruct Hok as [_ _ Hd]. unfold distinct, all_strings, strong_strings, strings in Hd.
      rewrite !fmap_app in Hd. apply NoDup_app in Hd as (Hd & _ & _). apply NoDup_app in Hd as (_ & _ & Hd). exact Hd. }
  split_and!; [done|done|done|done|]. intros s x Hs Hx Heq. rewrite <- Hst in Hx. by apply strong_found.
Qed.

Lemma image_interns_roundtrip_witness :
  exists i section i', serve_all example_content None [Intern 1 true; Intern 3 true] (InternTable_new example_content)
    = Ok ([Some (Returns 1); Some (Returns 3)], i) /\
    InternTable_WriteToMemory i (Some (replicate 4040 0)) = Ok (Some section, 4040) /\
    AddImageInternTable section (InternTable_new example_content) = Ok (tt, i') /\
    InternStrong example_content None 2 i' = Ok (Returns 1, i').
Proof.
  destruct (serve_all_ok example_content) with (image := @None (list ImageDexCache)) (qs := [Intern 1 true; Intern 3 true])
    (i := InternTable_new example_content) as (rs & i & Hrun & _ & Hok & _).
  - intros s. unfold example_content. repeat case_match; reflexivity.
  - apply InternTable_new_ok.
  - constructor; discriminate.
  - reflexivity.
  - repeat constructor; discriminate.
  - vm_compute. discriminate.
  - assert (match serve_all example_content None [Intern 1 true; Intern 3 true] (InternTable_new example_content) with
            | Ok (rs, i) => (rs, num_buckets_ (post_zygote_table_ (strong_interns_ i)), strong_strings example_content i,
                @elements Z (string_slots example_content) (data_ (post_zygote_table_ (strong_interns_ i))),
                InternTable_WriteToMemory i None)
            | Fault f => ([], 0, [], [], Fault f) end
            = ([Some (Returns 1); Some (Returns 3)], 1000, [1; 3], [1; 3], Ok (None, 4040))) as Hres by (vm_compute; reflexivity).
    rewrite Hrun in Hres. injection Hres as Hrs Hb Hst Hel Hsize.
    destruct (image_interns_roundtrip example_content i (replicate 4040 0) 4040) as (section & i' & Hw & Hadd & _ & Hall & Hfind).
    + intros s. unfold example_content. repeat case_match; reflexivity.
    + exact Hok.
    + rewrite Hb. reflexivity.
    + rewrite Hst. intros x Hx. repeat (apply elem_of_cons in Hx as [->|Hx]; [lia|]). inversion Hx.
    + exact Hsize.
    + rewrite length_replicate. reflexivity.
    + exists i, section, i'. split; [rewrite Hrun, Hrs; reflexivity|]. split; [exact Hw|]. split; [exact Hadd|].
      apply (Hfind 2 1); [discriminate| |reflexivity]. rewrite Hall, Hel. left.
Defined.
