(* ===== verification/Transaction.v ===== *)
(** * [transaction.{h,cc}]: undoing a class initializer

    When the compiler builds the boot image it runs class initializers inside a
    transaction: the setters of [mirror/object-inl.h] and [mirror/array-inl.h]
    record the value they are about to overwrite ([Runtime::RecordWrite*]),
    [Transaction] keeps the first value recorded for each field, and
    [Rollback] writes them back when the initializer fails.  Changes of the
    table of interned strings are logged and undone in the same way; that log
    is part of [InternTable].

    The heap is the bytes of every object, so that fields of different widths,
    the sign extension of the recorded values and the truncation that undoes
    it are the ones of the code.  The classes of objects do not change; the
    section is over the component types of array classes, and over the contents
    of strings as in [InternTable].  References are 32 bits wide and not
    poisoned.

    The theorems show that rolling back restores every byte of every object and
    the interned strings, and where that fails: for references in the log when
    the collector moves objects, for a compare-and-swap that fails, and for the
    elements of [float] arrays. *)

From S2P Require Import Prelude InternTable.

(** ** Values in memory *)

(** The types [kSize] of [GetField] and [SetField]; references are
    compressed to 32 bits. *)
Inductive kSize := kUint8 | kInt8 | kUint16 | kInt16 | kInt32 | kInt64 | kHeapReference.

Definition size_of (k : kSize) : nat :=
  match k with kUint8 | kInt8 => 1 | kUint16 | kInt16 => 2 | kInt32 | kHeapReference => 4 | kInt64 => 8 end%nat.

(** The value of a bit pattern. *)
Definition cast (k : kSize) (v : Z) : Z :=
  match k with
  | kUint8 => u8 v | kInt8 => s8 v | kUint16 => u16 v | kInt16 => s16 v
  | kInt32 => s32 v | kInt64 => s64 v | kHeapReference => u32 v
  end.

Inductive Primitive :=
| PrimNot | PrimBoolean | PrimByte | PrimChar | PrimShort | PrimInt | PrimLong | PrimFloat | PrimDouble | PrimVoid.

#[global] Instance Primitive_eq_dec : EqDecision Primitive.
Proof. solve_decision. Defined.

(** The bytes from [off] on, if they are there. *)
Definition peek_bytes (buf : list Z) (off : Z) (n : nat) : outcome (list Z) :=
  if (0 <=? off) && (off + Z.of_nat n <=? Z.of_nat (length buf)) then Ok (take n (drop (Z.to_nat off) buf))
  else Fault OutOfBounds.

(** *** Floating-point numbers

    A format with [mb] bits of mantissa and [eb] bits of exponent: [float] is
    23 and 8, [double] 52 and 11. *)

(** [static_cast<uint64_t>] of a floating-point number given by its bits:
    truncation, undefined when the result does not fit. *)
Definition float_to_uint64 (mb eb bits : Z) : outcome Z :=
  let m := bits mod 2 ^ mb in
  let e := (bits / 2 ^ mb) mod 2 ^ eb in
  let negative := Z.testbit bits (mb + eb) in
  let bias := 2 ^ (eb - 1) - 1 in
  let significand := if e =? 0 then m else m + 2 ^ mb in
  let exponent := Z.max e 1 - bias - mb in
  if e =? 2 ^ eb - 1 then Fault UndefinedConversion
  else
    let value := Z.shiftl significand exponent in
    if (if negative then value =? 0 else value <? 2 ^ 64) then Ok value else Fault UndefinedConversion.

(** [static_cast<float>] or [static_cast<double>] of a [uint64_t], as bits:
    rounded to the nearest, ties to even. *)
Definition uint64_to_float (mb eb v : Z) : Z :=
  if v =? 0 then 0
  else
    let l := Z.log2 v in
    let bias := 2 ^ (eb - 1) - 1 in
    let significand :=
      if l <=? mb then Z.shiftl v (mb - l)
      else
        let shift := l - mb in
        let q := Z.shiftr v shift in
        let r := v mod 2 ^ shift in
        if (2 ^ (shift - 1) <? r) || ((r =? 2 ^ (shift - 1)) && Z.odd q) then q + 1 else q in
    Z.shiftl (l + bias) mb + (significand - 2 ^ mb).

(** ** State *)

Inductive FieldValueKind := kBoolean | kByte | kChar | kShort | k32Bits | k64Bits | kReference.

Record FieldValue := mkFieldValue { fv_value : Z; fv_kind : FieldValueKind; fv_is_volatile : bool }.

(** [std::map] from integers: the entries in the order of their keys. *)
Section OrderedMap.
Context {V : Type}.

Fixpoint map_find (k : Z) (l : list (Z * V)) : option V :=
  match l with
  | [] => None
  | (k', v) :: l => if k =? k' then Some v else map_find k l
  end.

(** [map[k] = v]. *)
Fixpoint map_store (k : Z) (v : V) (l : list (Z * V)) : list (Z * V) :=
  match l with
  | [] => [(k, v)]
  | (k', v') :: l' =>
      if k <? k' then (k, v) :: l
      else if k =? k' then (k, v) :: l'
      else (k', v') :: map_store k v l'
  end.

Fixpoint map_erase (k : Z) (l : list (Z * V)) : list (Z * V) :=
  match l with
  | [] => []
  | (k', v') :: l' => if k =? k' then l' else (k', v') :: map_erase k l'
  end.

End OrderedMap.

#[local] Abbreviation ObjectLog := (list (Z * FieldValue)).
#[local] Abbreviation ArrayLog := (list (Z * Z)).

Record Transaction := mkTransaction {
  object_logs_ : list (Z * ObjectLog);
  array_logs_ : list (Z * ArrayLog);
  aborted_ : bool;
  abort_message_ : list Z;
}.

(** The pending exception of the thread, as far as transactions raise it. *)
Inductive Exception := TransactionAbortError (message : list Z) | ArrayIndexOutOfBoundsException (index : Z).

(** The heap, the objects whose card is marked, the interned strings, whether
    [preinitialization_transaction_] points to the transaction (that flag is
    [active_transaction_] of the interned strings), and the transaction. *)
Record World := mkWorld {
  heap : gmap Z (list Z);
  cards : gset Z;
  interns : InternTable;
  transaction : Transaction;
  exception : option Exception;
  is_aot_compiler : bool;
}.

Definition set_heap (w : World) (h : gmap Z (list Z)) : World :=
  mkWorld h (cards w) (interns w) (transaction w) (exception w) (is_aot_compiler w).

Definition set_interns (w : World) (i : InternTable) : World :=
  mkWorld (heap w) (cards w) i (transaction w) (exception w) (is_aot_compiler w).

Definition set_transaction (w : World) (t : Transaction) : World :=
  mkWorld (heap w) (cards w) (interns w) t (exception w) (is_aot_compiler w).

Definition set_exception (w : World) (e : option Exception) : World :=
  mkWorld (heap w) (cards w) (interns w) (transaction w) e (is_aot_compiler w).

Definition MarkCard (w : World) (obj : Z) : World :=
  mkWorld (heap w) ({[obj]} ∪ cards w) (interns w) (transaction w) (exception w) (is_aot_compiler w).

Definition set_active (i : InternTable) (b : bool) : InternTable :=
  mkInternTable (image_added_to_intern_table_ i) (log_new_roots_ i) (allow_new_interns_ i) (strong_interns_ i)
    (new_strong_intern_roots_ i) (weak_interns_ i) b (intern_string_logs_ i).

Definition with_object_logs (t : Transaction) (logs : list (Z * ObjectLog)) : Transaction :=
  mkTransaction logs (array_logs_ t) (aborted_ t) (abort_message_ t).

Definition with_array_logs (t : Transaction) (logs : list (Z * ArrayLog)) : Transaction :=
  mkTransaction (object_logs_ t) logs (aborted_ t) (abort_message_ t).

(** ** Recording *)

(** [ObjectLog::LogValue]: only the first value of a field is kept. *)
Definition LogValue (kind : FieldValueKind) (log : ObjectLog) (offset value : Z) (is_volatile : bool) : ObjectLog :=
  match map_find offset log with
  | None => map_store offset (mkFieldValue value kind is_volatile) log
  | Some _ => log
  end.

(** The integer conversions to [uint64_t] extend the sign. *)
Definition LogBooleanValue log offset value := LogValue kBoolean log offset (u64 (u8 value)).
Definition LogByteValue log offset value := LogValue kByte log offset (u64 (s8 value)).
Definition LogCharValue log offset value := LogValue kChar log offset (u64 (u16 value)).
Definition LogShortValue log offset value := LogValue kShort log offset (u64 (s16 value)).
Definition Log32BitsValue log offset value := LogValue k32Bits log offset (u64 (u32 value)).
Definition Log64BitsValue log offset value := LogValue k64Bits log offset (u64 value).
Definition LogReferenceValue log offset value := LogValue kReference log offset (u64 value).

(** [ObjectLog& object_log = object_logs_[obj]] and a change of it. *)
Definition on_object_log (obj : Z) (f : ObjectLog -> ObjectLog) (t : Transaction) : Transaction :=
  with_object_logs t (map_store obj (f (default [] (map_find obj (object_logs_ t)))) (object_logs_ t)).

Definition Transaction_RecordWriteFieldBoolean obj offset value is_volatile :=
  on_object_log obj (fun log => LogBooleanValue log offset value is_volatile).
Definition Transaction_RecordWriteFieldByte obj offset value is_volatile :=
  on_object_log obj (fun log => LogByteValue log offset value is_volatile).
Definition Transaction_RecordWriteFieldChar obj offset value is_volatile :=
  on_object_log obj (fun log => LogCharValue log offset value is_volatile).
Definition Transaction_RecordWriteFieldShort obj offset value is_volatile :=
  on_object_log obj (fun log => LogShortValue log offset value is_volatile).
Definition Transaction_RecordWriteField32 obj offset value is_volatile :=
  on_object_log obj (fun log => Log32BitsValue log offset value is_volatile).
Definition Transaction_RecordWriteField64 obj offset value is_volatile :=
  on_object_log obj (fun log => Log64BitsValue log offset value is_volatile).
Definition Transaction_RecordWriteFieldReference obj offset value is_volatile :=
  on_object_log obj (fun log => LogReferenceValue log offset value is_volatile).

(** [ArrayLog::LogValue]. *)
Definition ArrayLog_LogValue (log : ArrayLog) (index value : Z) : ArrayLog :=
  match map_find index log with
  | None => map_store index value log
  | Some _ => log
  end.

Definition Transaction_RecordWriteArray (array index value : Z) (t : Transaction) : Transaction :=
  with_array_logs t
    (map_store array (ArrayLog_LogValue (default [] (map_find array (array_logs_ t))) index value) (array_logs_ t)).

Definition Transaction_Abort (message : list Z) (t : Transaction) : Transaction :=
  if aborted_ t then t else mkTransaction (object_logs_ t) (array_logs_ t) true message.

(** ** [Runtime] *)

Definition IsActiveTransaction (w : World) : bool := active_transaction_ (interns w).

(** A call through [preinitialization_transaction_]. *)
Definition through_transaction (f : Transaction -> Transaction) : M World unit :=
  active ← gets IsActiveTransaction;
  if (active : bool) then modify (fun w => set_transaction w (f (transaction w)))
  else lift (Fault NullDereference).

Definition RecordWriteFieldBoolean obj offset value is_volatile : M World unit :=
  through_transaction (Transaction_RecordWriteFieldBoolean obj offset value is_volatile).
Definition RecordWriteFieldByte obj offset value is_volatile : M World unit :=
  through_transaction (Transaction_RecordWriteFieldByte obj offset value is_volatile).
Definition RecordWriteFieldChar obj offset value is_volatile : M World unit :=
  through_transaction (Transaction_RecordWriteFieldChar obj offset value is_volatile).
Definition RecordWriteFieldShort obj offset value is_volatile : M World unit :=
  through_transaction (Transaction_RecordWriteFieldShort obj offset value is_volatile).
Definition RecordWriteField32 obj offset value is_volatile : M World unit :=
  through_transaction (Transaction_RecordWriteField32 obj offset value is_volatile).
Definition RecordWriteField64 obj offset value is_volatile : M World unit :=
  through_transaction (Transaction_RecordWriteField64 obj offset value is_volatile).
Definition RecordWriteFieldReference obj offset value is_volatile : M World unit :=
  through_transaction (Transaction_RecordWriteFieldReference obj offset value is_volatile).
Definition RecordWriteArray array index value : M World unit :=
  through_transaction (Transaction_RecordWriteArray array index value).

(** [Transaction transaction;] on the stack. *)
Definition Transaction_new : M World unit :=
  aot ← gets is_aot_compiler;
  checkM aot ;;
  modify (fun w => set_interns (set_transaction w (mkTransaction [] [] false [])) (with_logs (interns w) [])).

Definition EnterTransactionMode : M World unit :=
  modify (fun w => set_interns w (set_active (interns w) true)).

Definition ExitTransactionMode : M World unit :=
  modify (fun w => set_interns w (set_active (interns w) false)).

Definition IsTransactionAborted (w : World) : bool :=
  if negb (IsActiveTransaction w) then false else aborted_ (transaction w).

(** [Transaction::ThrowAbortError]: the exception carries the given message,
    or that of the first abort. *)
Definition ThrowAbortError (abort_message : option (list Z)) : M World unit :=
  t ← gets transaction;
  modify (fun w => set_exception w (Some (TransactionAbortError (default (abort_message_ t) abort_message)))).

Definition AbortTransactionAndThrowAbortError (abort_message : list Z) : M World unit :=
  active ← gets IsActiveTransaction;
  if (active : bool) then
    ThrowAbortError (Some abort_message) ;;
    through_transaction (Transaction_Abort abort_message)
  else lift (Fault NullDereference).

Definition ThrowTransactionAbortError : M World unit :=
  active ← gets IsActiveTransaction;
  if (active : bool) then ThrowAbortError None else lift (Fault NullDereference).

(** ** [mirror/object-inl.h] *)

Definition object_at (obj : Z) : M World (list Z) :=
  h ← gets heap;
  match h !! obj with Some bytes => mret bytes | None => lift (Fault NullDereference) end.

Definition GetField (k : kSize) (obj offset : Z) : M World Z :=
  bytes ← object_at obj;
  v ← lift (peek_bytes bytes offset (size_of k));
  mret (cast k (le_value v)).

Definition SetField (k : kSize) (obj offset new_value : Z) : M World unit :=
  bytes ← object_at obj;
  bytes ← lift (poke_all bytes offset (le_bytes (size_of k) new_value));
  modify (fun w => set_heap w (<[obj := bytes]> (heap w))).

Section Setters.
Context (kTransactionActive kIsVolatile : bool).

Definition SetFieldBoolean (obj offset new_value : Z) : M World unit :=
  whenM kTransactionActive
    (old ← GetField kUint8 obj offset; RecordWriteFieldBoolean obj offset old kIsVolatile) ;;
  SetField kUint8 obj offset new_value.

Definition SetFieldByte (obj offset new_value : Z) : M World unit :=
  whenM kTransactionActive
    (old ← GetField kInt8 obj offset; RecordWriteFieldByte obj offset old kIsVolatile) ;;
  SetField kInt8 obj offset new_value.

Definition SetFieldChar (obj offset new_value : Z) : M World unit :=
  whenM kTransactionActive
    (old ← GetField kUint16 obj offset; RecordWriteFieldChar obj offset old kIsVolatile) ;;
  SetField kUint16 obj offset new_value.

(** A [short] is recorded as a [char]. *)
Definition SetFieldShort (obj offset new_value : Z) : M World unit :=
  whenM kTransactionActive
    (old ← GetField kInt16 obj offset; RecordWriteFieldChar obj offset old kIsVolatile) ;;
  SetField kInt16 obj offset new_value.

Definition SetField32 (obj offset new_value : Z) : M World unit :=
  whenM kTransactionActive
    (old ← GetField kInt32 obj offset; RecordWriteField32 obj offset old kIsVolatile) ;;
  SetField kInt32 obj offset new_value.

Definition SetField64 (obj offset new_value : Z) : M World unit :=
  whenM kTransactionActive
    (old ← GetField kInt64 obj offset; RecordWriteField64 obj offset old kIsVolatile) ;;
  SetField kInt64 obj offset new_value.

(** The field is recorded as volatile either way. *)
Definition SetFieldObjectWithoutWriteBarrier (obj offset new_value : Z) : M World unit :=
  whenM kTransactionActive
    (old ← GetField kHeapReference obj offset; RecordWriteFieldReference obj offset old true) ;;
  SetField kHeapReference obj offset new_value.

Definition SetFieldObject (obj offset new_value : Z) : M World unit :=
  SetFieldObjectWithoutWriteBarrier obj offset new_value ;;
  whenM (negb (new_value =? 0)) (modify (fun w => MarkCard w obj)).

(** [CompareExchangeStrong]; the weak one may also fail spuriously. *)
Definition CompareExchange (k : kSize) (spurious : bool) (obj offset old_value new_value : Z) : M World bool :=
  v ← GetField k obj offset;
  if (v =? cast k old_value) && negb spurious then SetField k obj offset new_value ;; mret true
  else mret false.

Definition CasFieldWeakSequentiallyConsistent32 (spurious : bool) (obj offset old_value new_value : Z) : M World bool :=
  whenM kTransactionActive (RecordWriteField32 obj offset old_value true) ;;
  CompareExchange kInt32 spurious obj offset old_value new_value.

Definition CasFieldStrongSequentiallyConsistent32 (obj offset old_value new_value : Z) : M World bool :=
  whenM kTransactionActive (RecordWriteField32 obj offset old_value true) ;;
  CompareExchange kInt32 false obj offset old_value new_value.

Definition CasFieldWeakSequentiallyConsistent64 (spurious : bool) (obj offset old_value new_value : Z) : M World bool :=
  whenM kTransactionActive (RecordWriteField64 obj offset old_value true) ;;
  CompareExchange kInt64 spurious obj offset old_value new_value.

Definition CasFieldStrongSequentiallyConsistent64 (obj offset old_value new_value : Z) : M World bool :=
  whenM kTransactionActive (RecordWriteField64 obj offset old_value true) ;;
  CompareExchange kInt64 false obj offset old_value new_value.

Definition CasFieldStrongSequentiallyConsistentObject (obj offset old_value new_value : Z) : M World bool :=
  whenM kTransactionActive (RecordWriteFieldReference obj offset old_value true) ;;
  success ← CompareExchange kHeapReference false obj offset old_value new_value;
  whenM success (modify (fun w => MarkCard w obj)) ;;
  mret success.

End Setters.

Definition ClassOffset : Z := 0.
Definition LengthOffset : Z := 8.

Section Objects.
Context (content : Z -> list Z) (component_type : Z -> option Primitive).

(** The component type of the class of an object, if that is an array
    class. *)
Definition object_component (obj : Z) : M World (option Primitive) :=
  klass ← GetField kHeapReference obj ClassOffset;
  mret (component_type klass).

Definition IsArrayInstance (obj : Z) : M World bool :=
  c ← object_component obj; mret (bool_decide (is_Some c)).

(** ** [mirror/array-inl.h] *)

Definition component_size (t : Primitive) : Z :=
  match t with
  | PrimBoolean | PrimByte => 1
  | PrimChar | PrimShort => 2
  | PrimInt | PrimFloat | PrimNot => 4
  | PrimLong | PrimDouble => 8
  | PrimVoid => 0
  end.

(** The first element is at 12, rounded up to the component size. *)
Definition DataOffset (component_size : Z) : Z := (12 + component_size - 1) / component_size * component_size.

Definition element_offset (t : Primitive) (i : Z) : Z := DataOffset (component_size t) + i * component_size t.

(** The element type [T] of a [PrimitiveArray<T>]; a [float] or a [double] is
    its bits. *)
Definition element_size (t : Primitive) : kSize :=
  match t with
  | PrimBoolean => kUint8 | PrimByte => kInt8 | PrimChar => kUint16 | PrimShort => kInt16
  | PrimInt => kInt32 | PrimLong => kInt64 | PrimFloat => kInt32 | PrimDouble => kInt64
  | _ => kInt32
  end.

Definition CheckIsValidIndex (array index : Z) : M World bool :=
  length_ ← GetField kInt32 array LengthOffset;
  if u32 length_ <=? u32 index then
    modify (fun w => set_exception w (Some (ArrayIndexOutOfBoundsException index))) ;; mret false
  else mret true.

Definition GetWithoutChecks (t : Primitive) (array i : Z) : M World Z :=
  GetField (element_size t) array (element_offset t i).

(** The conversion of an element to the [uint64_t] of [RecordWriteArray]. *)
Definition element_to_uint64 (t : Primitive) (v : Z) : outcome Z :=
  match t with
  | PrimFloat => float_to_uint64 23 8 (u32 v)
  | PrimDouble => float_to_uint64 52 11 (u64 v)
  | _ => Ok (u64 v)
  end.

Definition SetWithoutChecks (kTransactionActive : bool) (t : Primitive) (array i value : Z) : M World unit :=
  whenM kTransactionActive
    (old ← GetWithoutChecks t array i;
     v ← lift (element_to_uint64 t old);
     RecordWriteArray array (u64 i) v) ;;
  SetField (element_size t) array (element_offset t i) value.

(** [PrimitiveArray<T>::Set<kTransactionActive>]. *)
Definition PrimitiveArray_Set (kTransactionActive : bool) (t : Primitive) (array i value : Z) : M World unit :=
  valid ← CheckIsValidIndex array i;
  whenM valid (SetWithoutChecks kTransactionActive t array i value).

(** ** Undoing *)

(** [static_cast<bool>]. *)
Definition to_bool (v : Z) : Z := if v =? 0 then 0 else 1.

Definition UndoFieldWrite (obj field_offset : Z) (field_value : FieldValue) : M World unit :=
  let v := fv_value field_value in
  let is_volatile := fv_is_volatile field_value in
  match fv_kind field_value with
  | kBoolean => SetFieldBoolean false is_volatile obj field_offset (to_bool v)
  | kByte => SetFieldByte false is_volatile obj field_offset (s8 v)
  | kChar => SetFieldChar false is_volatile obj field_offset (u16 v)
  | kShort => SetFieldShort false is_volatile obj field_offset (s16 v)
  | k32Bits => SetField32 false is_volatile obj field_offset (u32 v)
  | k64Bits => SetField64 false is_volatile obj field_offset v
  | kReference => SetFieldObject false obj field_offset v
  end.

(** One round of the loop of [ObjectLog::Undo]. *)
Definition undo_field (obj : Z) (it : Z * FieldValue) : M World unit :=
  if it.1 =? ClassOffset then mret tt
  else
    is_array ← IsArrayInstance obj;
    if is_array && (it.1 =? LengthOffset) then mret tt
    else UndoFieldWrite obj it.1 it.2.

Definition ObjectLog_Undo (log : ObjectLog) (obj : Z) : M World unit :=
  forM log (undo_field obj).

Definition UndoArrayWrite (array : Z) (array_type : Primitive) (index value : Z) : M World unit :=
  match array_type with
  | PrimBoolean => SetWithoutChecks false PrimBoolean array (s32 index) (u8 value)
  | PrimByte => SetWithoutChecks false PrimByte array (s32 index) (s8 value)
  | PrimChar => SetWithoutChecks false PrimChar array (s32 index) (u16 value)
  | PrimShort => SetWithoutChecks false PrimShort array (s32 index) (s16 value)
  | PrimInt => SetWithoutChecks false PrimInt array (s32 index) (s32 value)
  | PrimFloat => SetWithoutChecks false PrimFloat array (s32 index) (uint64_to_float 23 8 value)
  | PrimLong => SetWithoutChecks false PrimLong array (s32 index) (s64 value)
  | PrimDouble => SetWithoutChecks false PrimDouble array (s32 index) (uint64_to_float 52 11 value)
  | PrimNot | PrimVoid => lift (Fault FatalLog)
  end.

Definition ArrayLog_Undo (log : ArrayLog) (array : Z) : M World unit :=
  c ← object_component array;
  match c with
  | None => lift (Fault NullDereference)
  | Some type => forM log (fun it => UndoArrayWrite array type it.1 it.2)
  end.

Definition UndoObjectModifications : M World unit :=
  t ← gets transaction;
  forM (object_logs_ t) (fun it => ObjectLog_Undo it.2 it.1) ;;
  modify (fun w => set_transaction w (with_object_logs (transaction w) [])).

Definition UndoArrayModifications : M World unit :=
  t ← gets transaction;
  forM (array_logs_ t) (fun it => ArrayLog_Undo it.2 it.1) ;;
  modify (fun w => set_transaction w (with_array_logs (transaction w) [])).

(** An operation on the interned strings. *)
Definition on_interns {A} (m : M InternTable A) : M World A := fun w =>
  match m (interns w) with
  | Ok (a, i) => Ok (a, set_interns w i)
  | Fault f => Fault f
  end.

Definition Rollback : M World unit :=
  active ← gets IsActiveTransaction;
  checkM (negb active) ;;
  pending ← gets exception;
  match pending with Some _ => lift (Fault FatalLog) | None => mret tt end ;;
  UndoObjectModifications ;;
  UndoArrayModifications ;;
  on_interns (UndoInternStringTableModifications content).

(** ** Garbage collection *)

(** The entries of a log whose object moves. *)
Definition moving_roots {V} (visitor : Z -> Z) (logs : list (Z * V)) : list (Z * Z) :=
  omap (fun it => if visitor it.1 =? it.1 then None else Some (it.1, visitor it.1)) logs.

(** The loop that moves entries to the new address. *)
Fixpoint move_logs {V} (moves : list (Z * Z)) (logs : list (Z * V)) : outcome (list (Z * V)) :=
  match moves with
  | [] => mret logs
  | (old_root, new_root) :: moves =>
      match map_find old_root logs with
      | None => Fault CheckFailed
      | Some log =>
          check (bool_decide (map_find new_root logs = None)) ;;
          move_logs moves (map_erase old_root (map_store new_root log logs))
      end
  end.

(** The references of a log, as [ObjectLog::VisitRoots] hands them to the
    visitor.  The loop visits copies of the field values, so the log does not
    change. *)
Definition ObjectLog_VisitRoots (log : ObjectLog) : list Z :=
  omap (fun it => match fv_kind it.2 with
                  | kReference => if fv_value it.2 =? 0 then None else Some (fv_value it.2)
                  | _ => None
                  end) log.

(** [visitor] gives the new address of an object; the result is the roots it
    was called on. *)
Definition VisitObjectLogs (visitor : Z -> Z) : M World (list Z) :=
  t ← gets transaction;
  logs ← lift (move_logs (moving_roots visitor (object_logs_ t)) (object_logs_ t));
  modify (fun w => set_transaction w (with_object_logs (transaction w) logs)) ;;
  mret (concat (map (fun it => ObjectLog_VisitRoots it.2 ++ [it.1]) (object_logs_ t))).

Definition check_not_object_array (array : Z) : M World unit :=
  c ← object_component array;
  checkM (negb (bool_decide (c = Some PrimNot))).

Definition VisitArrayLogs (visitor : Z -> Z) : M World (list Z) :=
  t ← gets transaction;
  forM (map fst (array_logs_ t)) check_not_object_array ;;
  logs ← lift (move_logs (moving_roots visitor (array_logs_ t)) (array_logs_ t));
  modify (fun w => set_transaction w (with_array_logs (transaction w) logs)) ;;
  mret (map fst (array_logs_ t)).

(** [InternStringLog::VisitRoots], on the entries themselves. *)
Definition InternStringLog_VisitRoots (visitor : Z -> Z) (log : InternStringLog) : InternStringLog :=
  mkInternStringLog (visitor (str_ log)) (string_kind_ log) (string_op_ log).

Definition VisitStringLogs (visitor : Z -> Z) : M World (list Z) :=
  i ← gets interns;
  modify (fun w => set_interns w (with_logs (interns w) (map (InternStringLog_VisitRoots visitor) (intern_string_logs_ i)))) ;;
  mret (map str_ (intern_string_logs_ i)).

Definition Transaction_VisitRoots (visitor : Z -> Z) : M World (list Z) :=
  objects ← VisitObjectLogs visitor;
  arrays ← VisitArrayLogs visitor;
  strings ← VisitStringLogs visitor;
  mret (objects ++ arrays ++ strings).

Definition VisitTransactionRoots (visitor : Z -> Z) : M World (list Z) :=
  active ← gets IsActiveTransaction;
  if (active : bool) then Transaction_VisitRoots visitor else mret [].

(** ** [InitializeClass] of [compiler_driver.cc]

    The part that runs the class initializer of [klass] in a transaction.
    [EnsureInitialized] is given: it returns whether the class could be
    initialized.  [GetStatus] reads the field [status_] of the class. *)
Definition GetStatus (status_offset klass : Z) : M World Z := GetField kInt32 klass status_offset.

Definition initialize_static_fields (status_offset klass : Z) (EnsureInitialized : M World bool) : M World unit :=
  Transaction_new ;;
  EnterTransactionMode ;;
  old_status ← GetStatus status_offset klass;
  success ← EnsureInitialized;
  ExitTransactionMode ;;
  if (success : bool) then mret tt
  else
    pending ← gets exception;
    checkM (bool_decide (is_Some pending)) ;;
    modify (fun w => set_exception w None) ;;
    Rollback ;;
    status ← GetStatus status_offset klass;
    checkM (old_status =? status).

End Objects.

(** ** Ordered maps *)

Section OrderedMapLaws.
Context {V : Type}.
Implicit Types l : list (Z * V).

Definition keys_sorted l : Prop := StronglySorted Z.lt (map fst l).

Lemma map_find_store k k' (v : V) l : map_find k (map_store k' v l) = if k =? k' then Some v else map_find k l.
Proof.
  induction l as [|[j u] l IH]; cbn; [done|]. destruct (Z.ltb_spec k' j); cbn.
  - done.
  - destruct (Z.eqb_spec k' j) as [->|Hne]; cbn.
    + by destruct (Z.eqb_spec k j).
    + rewrite IH. destruct (Z.eqb_spec k j) as [->|]; [|done]. by rewrite (proj2 (Z.eqb_neq j k')) by lia.
Qed.

Lemma map_store_new k (v : V) l : map_find k l = None -> map_store k v l ≡ₚ (k, v) :: l.
Proof.
  induction l as [|[j u] l IH]; cbn; [done|]. destruct (Z.eqb_spec k j) as [->|Hne]; [done|]. intros Hf.
  destruct (Z.ltb_spec k j); [done|]. rewrite IH by done. apply Permutation_swap.
Qed.

Lemma map_store_in k (v : V) l k' : k' ∈ map fst (map_store k v l) -> k' = k \/ k' ∈ map fst l.
Proof.
  induction l as [|[j u] l IH]; cbn.
  - rewrite elem_of_cons. tauto.
  - destruct (k <? j); cbn; [rewrite !elem_of_cons; tauto|]. destruct (k =? j); cbn; rewrite !elem_of_cons; tauto.
Qed.

Lemma map_store_sorted k (v : V) l : keys_sorted l -> keys_sorted (map_store k v l).
Proof.
  unfold keys_sorted. induction l as [|[j u] l IH]; cbn; intros Hs; [by repeat constructor|].
  apply StronglySorted_inv in Hs as [Hs Hall]. destruct (Z.ltb_spec k j); cbn.
  - constructor; [by constructor|]. constructor; [done|]. eapply Forall_impl; [exact Hall|]. cbn. lia.
  - destruct (Z.eqb_spec k j) as [->|Hne]; cbn; [by constructor|]. constructor; [by apply IH|].
    apply Forall_forall. intros k' [->|Hin]%map_store_in; [lia|]. rewrite Forall_forall in Hall. by apply Hall.
Qed.

Lemma keys_sorted_nodup l : keys_sorted l -> NoDup (map fst l).
Proof.
  unfold keys_sorted. intros Hs. induction Hs as [|k ks Hs IH Hall]; constructor; [|done].
  rewrite Forall_forall in Hall. intros Hin%Hall. lia.
Qed.

Lemma map_find_in k l v : map_find k l = Some v -> (k, v) ∈ l.
Proof. induction l as [|[j u] l IH]; cbn; [done|]. destruct (Z.eqb_spec k j) as [->|]; [intros [= ->]; left|intros; right; auto]. Qed.

Lemma map_find_none k l : map_find k l = None -> k ∉ map fst l.
Proof.
  induction l as [|[j u] l IH]; cbn; intros Hf; [by intros ?%elem_of_nil|]. destruct (Z.eqb_spec k j); [done|].
  rewrite not_elem_of_cons. auto.
Qed.

Lemma map_find_not_in k l : k ∉ map fst l -> map_find k l = None.
Proof.
  induction l as [|[j u] l IH]; cbn; [done|]. rewrite not_elem_of_cons. intros [Hne Hn]. rewrite (proj2 (Z.eqb_neq k j)) by done. auto.
Qed.

End OrderedMapLaws.

(** ** Bytes *)

Definition byte (b : Z) : Prop := 0 <= b < 256.

Lemma le_bytes_value bs : Forall byte bs -> le_bytes (length bs) (le_value bs) = bs.
Proof.
  induction 1 as [|b bs Hb Hbs IH]; cbn [le_bytes le_value length]; [done|]. unfold byte in Hb. rewrite (Z.mul_comm 256), Z.mod_add, Z.mod_small, Z.div_add, Z.div_small, Z.add_0_l, IH by lia. done.
Qed.

(** The [n] bytes from [c] on. *)
Definition slice (b : list Z) (c n : nat) : list Z := take n (drop c b).

Lemma slice_lookup b c n p : (c <= p < c + n)%nat -> slice b c n !! (p - c)%nat = b !! p.
Proof. intros. unfold slice. rewrite lookup_take_lt, lookup_drop by lia. f_equal. lia. Qed.

Lemma length_slice b c n : (c + n <= length b)%nat -> length (slice b c n) = n.
Proof. intros. unfold slice. rewrite length_take, length_drop. lia. Qed.

Lemma slice_ext b o c n : (forall p, (c <= p < c + n)%nat -> b !! p = o !! p) -> length b = length o -> slice b c n = slice o c n.
Proof.
  intros Heq Hlen. apply list_eq. intros i. destruct (decide (i < n)%nat).
  - assert (i = (c + i) - c)%nat as -> by lia. rewrite !slice_lookup by lia. apply Heq. lia.
  - unfold slice. by rewrite !lookup_take_ge by lia.
Qed.

Lemma splice_byte o c bs p :
  (c + length bs <= length o)%nat ->
  splice o c bs !! p = if decide (c <= p < c + length bs)%nat then bs !! (p - c)%nat else o !! p.
Proof.
  intros Hlen. unfold splice. destruct (decide (p < c)%nat).
  - rewrite lookup_app_l by (rewrite length_take; lia). rewrite lookup_take_lt by lia. by destruct (decide _); [lia|].
  - rewrite lookup_app_r by (rewrite length_take; lia). rewrite length_take, Nat.min_l by lia. case_decide.
    + by rewrite lookup_app_l by lia.
    + rewrite lookup_app_r, lookup_drop by lia. f_equal. lia.
Qed.

(** ** Cells

    An entry of a log is a cell: an offset and the bytes that undoing it writes
    there. *)
Definition cell : Type := nat * list Z.
Implicit Types cells : list cell.

Definition covers (c : cell) (p : nat) : Prop := (c.1 <= p < c.1 + length c.2)%nat.

(** The cells hold what was in [b], and [o] differs from [b] only in
    cells. *)
Record tracked (b o : list Z) cells : Prop := {
  tr_length : length o = length b;
  tr_range : Forall (fun c => (c.1 + length c.2 <= length b)%nat) cells;
  tr_cells : Forall (fun c => slice b c.1 (length c.2) = c.2) cells;
  tr_rest : forall p, Forall (fun c => ~ covers c p) cells -> o !! p = b !! p;
}.

Definition restore cells (o : list Z) : list Z := fold_left (fun o c => splice o c.1 c.2) cells o.

Lemma tracked_nil b : tracked b b [].
Proof. by constructor. Qed.

Lemma tracked_perm b o cells cells' : cells ≡ₚ cells' -> tracked b o cells -> tracked b o cells'.
Proof. intros Hp [H1 H2 H3 H4]. constructor; [done|by rewrite <- Hp|by rewrite <- Hp|]. intros p. rewrite <- Hp. apply H4. Qed.

Lemma tracked_restore b o cells : tracked b o cells -> restore cells o = b.
Proof.
  revert o. induction cells as [|c cells IH]; intros o [Hl Hr Hc Hrest]; cbn.
  - apply list_eq. intros p. by apply Hrest.
  - apply Forall_cons in Hr as [Hr1 Hr], Hc as [Hc1 Hc]. apply IH. constructor; [by rewrite length_splice by lia|done|done|].
    intros p Hp. rewrite splice_byte by lia. case_decide as Hin.
    + rewrite <- Hc1. by rewrite slice_lookup by lia.
    + apply Hrest. by constructor.
Qed.

(** A write to a cell of the log. *)
Lemma tracked_write_old b o cells c new :
  tracked b o cells -> c ∈ cells -> length new = length c.2 -> tracked b (splice o c.1 new) cells.
Proof.
  intros [Hl Hr Hc Hrest] Hin Hlen. pose proof (proj1 (Forall_forall _ _) Hr c Hin) as Hr1. cbn in Hr1.
  constructor; [by rewrite length_splice by lia|done|done|]. intros p Hp. rewrite splice_byte by lia.
  case_decide as Hpin; [|by apply Hrest]. rewrite Forall_forall in Hp. destruct (Hp c Hin). unfold covers. lia.
Qed.

(** A write to a place that no cell of the log touches. *)
Lemma tracked_write_new b o cells c new :
  tracked b o cells -> (c + length new <= length b)%nat ->
  Forall (fun d => (d.1 + length d.2 <= c)%nat \/ (c + length new <= d.1)%nat) cells ->
  slice o c (length new) = slice b c (length new) /\
  tracked b (splice o c new) ((c, slice b c (length new)) :: cells).
Proof.
  intros [Hl Hr Hc Hrest] Hin Hdis.
  assert (forall p, (c <= p < c + length new)%nat -> o !! p = b !! p) as Hsame.
  { intros p Hp. apply Hrest. eapply Forall_impl; [exact Hdis|]. intros d Hd. cbn in Hd. unfold covers. lia. }
  split; [by apply slice_ext|]. constructor.
  - by rewrite length_splice by lia.
  - constructor; [|done]. cbn. by rewrite length_slice by lia.
  - constructor; [|done]. cbn. by rewrite length_slice by lia.
  - intros p [Hnc Hp]%Forall_cons. rewrite splice_byte by lia. case_decide as Hpin; [|by apply Hrest].
    unfold covers in Hnc. cbn in Hnc. rewrite length_slice in Hnc by lia. lia.
Qed.

(** ** Fields *)

Definition field_size (k : FieldValueKind) : kSize :=
  match k with
  | kBoolean => kUint8 | kByte => kInt8 | kChar => kUint16 | kShort => kInt16
  | k32Bits => kInt32 | k64Bits => kInt64 | kReference => kHeapReference
  end.

#[local] Abbreviation width k := (size_of (field_size k)).

(** A write to a field of a given type. *)
Definition write_field (kTransactionActive is_volatile : bool) (k : FieldValueKind) : Z -> Z -> Z -> M World unit :=
  match k with
  | kBoolean => SetFieldBoolean kTransactionActive is_volatile
  | kByte => SetFieldByte kTransactionActive is_volatile
  | kChar => SetFieldChar kTransactionActive is_volatile
  | kShort => SetFieldShort kTransactionActive is_volatile
  | k32Bits => SetField32 kTransactionActive is_volatile
  | k64Bits => SetField64 kTransactionActive is_volatile
  | kReference => SetFieldObject kTransactionActive
  end.

(** What it records, and what is written when that is undone. *)
Definition recorded_kind (k : FieldValueKind) : FieldValueKind := match k with kShort => kChar | _ => k end.

Definition recorded_volatile (k : FieldValueKind) (is_volatile : bool) : bool :=
  match k with kReference => true | _ => is_volatile end.

Definition recorded_value (k : FieldValueKind) (v : Z) : Z :=
  u64 (match k with kBoolean => u8 v | kByte => s8 v | kChar | kShort => u16 v | k32Bits => u32 v | _ => v end).

Definition undone_value (k : FieldValueKind) (v : Z) : Z :=
  match k with kBoolean => to_bool v | kByte => s8 v | kChar => u16 v | kShort => s16 v | k32Bits => u32 v | _ => v end.

Definition field_cell (it : Z * FieldValue) : cell :=
  (Z.to_nat it.1, le_bytes (width (fv_kind it.2)) (undone_value (fv_kind it.2) (fv_value it.2))).

Lemma recorded_undone k bs :
  length bs = width k -> Forall byte bs -> (k = kBoolean -> le_value bs <= 1) ->
  le_bytes (width (recorded_kind k)) (undone_value (recorded_kind k) (recorded_value k (cast (field_size k) (le_value bs)))) = bs.
Proof.
  intros Hlen Hb Hbool. pose proof (le_value_range _ Hb) as Hr. rewrite Hlen in Hr.
  rewrite <- (le_bytes_value bs Hb) at 2. rewrite Hlen. set (v := le_value bs) in *. clearbody v.
  replace (width (recorded_kind k)) with (width k) by (by destruct k). apply le_bytes_mod.
  destruct k; cbn [recorded_kind undone_value field_size size_of cast] in *;
    unfold recorded_value, to_bool, u8, u16, u32, u64, s8, s16, s32, s64;
    change (8 * Z.of_nat 1) with 8 in *; change (8 * Z.of_nat 2) with 16 in *;
    change (8 * Z.of_nat 4) with 32 in *; change (8 * Z.of_nat 8) with 64 in *.
  1: { specialize (Hbool eq_refl). assert (v = 0 \/ v = 1) as [-> | ->] by lia; reflexivity. }
  all: mlia.
Qed.

(** What the setters do not touch. *)
Record unchanged (w w' : World) : Prop := {
  un_interns : interns w' = interns w;
  un_exception : exception w' = exception w;
  un_aot : is_aot_compiler w' = is_aot_compiler w;
}.

#[global] Instance unchanged_refl : Reflexive unchanged.
Proof. done. Qed.

#[global] Instance unchanged_trans : Transitive unchanged.
Proof. intros ??? [] []. constructor; congruence. Qed.

(** A place inside an object. *)
Definition within (o : list Z) (off : Z) (n : nat) : Prop := 0 <= off /\ off + Z.of_nat n <= Z.of_nat (length o).

Lemma object_at_ok w obj o : heap w !! obj = Some o -> object_at obj w = Ok (o, w).
Proof. intros Ho. unfold object_at. rewrite bind_gets, Ho. done. Qed.

Lemma GetField_ok k w obj o off :
  heap w !! obj = Some o -> within o off (size_of k) ->
  GetField k obj off w = Ok (cast k (le_value (slice o (Z.to_nat off) (size_of k))), w).
Proof.
  intros Ho [H1 H2]. unfold GetField. rewrite (bind_ok _ _ _ _ _ (object_at_ok _ _ _ Ho)). rewrite bind_lift. unfold peek_bytes.
  by rewrite (proj2 (Z.leb_le _ _) H1), (proj2 (Z.leb_le _ _) H2).
Qed.

Lemma SetField_ok k w obj o off v :
  heap w !! obj = Some o -> within o off (size_of k) ->
  SetField k obj off v w = Ok (tt, set_heap w (<[obj := splice o (Z.to_nat off) (le_bytes (size_of k) v)]> (heap w))).
Proof.
  intros Ho [H1 H2]. unfold SetField. rewrite (bind_ok _ _ _ _ _ (object_at_ok _ _ _ Ho)). rewrite bind_lift.
  rewrite poke_all_ok by (rewrite ?length_le_bytes; lia). done.
Qed.

(** The heap after a write. *)
Definition written_heap (w : World) (obj off : Z) (n : nat) (v : Z) (o : list Z) : gmap Z (list Z) :=
  <[obj := splice o (Z.to_nat off) (le_bytes n v)]> (heap w).

Lemma through_transaction_ok f w :
  IsActiveTransaction w = true -> through_transaction f w = Ok (tt, set_transaction w (f (transaction w))).
Proof. intros Ha. unfold through_transaction. rewrite bind_gets, Ha. done. Qed.

(** Recording and writing: the shape of every setter. *)
Lemma record_and_set ks kr (record : Z -> M World unit) w obj o off v f :
  IsActiveTransaction w = true -> heap w !! obj = Some o -> within o off (size_of ks) -> within o off (size_of kr) ->
  (forall old, record old = through_transaction (f old)) ->
  (whenM true (old ← GetField kr obj off; record old) ;; SetField ks obj off v) w =
  Ok (tt, set_heap (set_transaction w (f (cast kr (le_value (slice o (Z.to_nat off) (size_of kr)))) (transaction w)))
            (written_heap w obj off (size_of ks) v o)).
Proof.
  intros Ha Ho Hs Hr Hrec. cbn [whenM]. rewrite bind_assoc. rewrite (bind_ok _ _ _ _ _ (GetField_ok kr w obj o off Ho Hr)).
  rewrite Hrec. rewrite (bind_ok _ _ _ _ _ (through_transaction_ok _ w Ha)). by rewrite (SetField_ok ks _ obj o) by done.
Qed.

Lemma write_field_ok vol k w obj o off v :
  IsActiveTransaction w = true -> heap w !! obj = Some o -> within o off (width k) ->
  exists w', write_field true vol k obj off v w = Ok (tt, w') /\ unchanged w w' /\
    heap w' = written_heap w obj off (width k) v o /\
    transaction w' = on_object_log obj (fun log =>
      LogValue (recorded_kind k) log off (recorded_value k (cast (field_size k) (le_value (slice o (Z.to_nat off) (width k)))))
        (recorded_volatile k vol)) (transaction w).
Proof.
  intros Ha Ho Hin. destruct k; cbn [write_field].
  1-6: eexists; split; [unfold SetFieldBoolean, SetFieldByte, SetFieldChar, SetFieldShort, SetField32, SetField64;
         eapply record_and_set; try done; intros; reflexivity|done].
  unfold SetFieldObject. erewrite bind_ok by (unfold SetFieldObjectWithoutWriteBarrier; eapply record_and_set; try done; intros; reflexivity).
  unfold whenM. destruct (negb _); eexists; (split; [reflexivity|done]).
Qed.

(** Outside a transaction a setter only writes. *)
Lemma write_field_plain vol k w obj o off v :
  heap w !! obj = Some o -> within o off (width k) ->
  exists w', write_field false vol k obj off v w = Ok (tt, w') /\ unchanged w w' /\
    heap w' = written_heap w obj off (width k) v o /\ transaction w' = transaction w.
Proof.
  intros Ho Hin. destruct k; cbn [write_field].
  1-6: eexists; split; [unfold SetFieldBoolean, SetFieldByte, SetFieldChar, SetFieldShort, SetField32, SetField64, whenM;
         rewrite bind_ret; by apply SetField_ok|done].
  unfold SetFieldObject. erewrite bind_ok by (unfold SetFieldObjectWithoutWriteBarrier, whenM; rewrite bind_ret; by apply SetField_ok).
  unfold whenM. destruct (negb _); eexists; (split; [reflexivity|done]).
Qed.

Lemma UndoFieldWrite_ok w obj o off fv :
  heap w !! obj = Some o -> within o off (width (fv_kind fv)) ->
  exists w', UndoFieldWrite obj off fv w = Ok (tt, w') /\ unchanged w w' /\ transaction w' = transaction w /\
    heap w' = <[obj := splice o (field_cell (off, fv)).1 (field_cell (off, fv)).2]> (heap w).
Proof.
  intros Ho Hin. destruct (write_field_plain (fv_is_volatile fv) (fv_kind fv) w obj o off (undone_value (fv_kind fv) (fv_value fv)) Ho Hin)
    as (w' & Hrun & Hun & Hh & Ht).
  exists w'. split_and!; [|done|done|done]. rewrite <- Hrun. unfold UndoFieldWrite. by destruct (fv_kind fv).
Qed.

(** ** Objects in a transaction *)

Definition integral (t : Primitive) : bool :=
  match t with PrimBoolean | PrimByte | PrimChar | PrimShort | PrimInt | PrimLong => true | _ => false end.

(** The cell of an entry of the log of an array. *)
Definition array_cell (t : Primitive) (it : Z * Z) : cell :=
  (Z.to_nat (element_offset t (s32 it.1)), le_bytes (size_of (element_size t)) (cast (element_size t) it.2)).

Definition klass_of (o : list Z) : Z := u32 (le_value (slice o 0 4)).
Definition array_length (o : list Z) : Z := s32 (le_value (slice o 8 4)).

Lemma element_layout t i : integral t = true ->
  12 <= DataOffset (component_size t) /\ element_offset t i = DataOffset (component_size t) + i * component_size t /\
  component_size t = Z.of_nat (size_of (element_size t)) /\ 0 < component_size t.
Proof. intros Ht. unfold element_offset. split_and!; [|done|..]; by destruct t. Qed.

Lemma recorded_element t bs :
  integral t = true -> length bs = size_of (element_size t) -> Forall byte bs ->
  le_bytes (size_of (element_size t)) (cast (element_size t) (u64 (cast (element_size t) (le_value bs)))) = bs.
Proof.
  intros Ht Hlen Hb. rewrite <- (le_bytes_value bs Hb) at 2. rewrite Hlen. apply le_bytes_mod. set (v := le_value bs). clearbody v.
  destruct t; try done; cbn [element_size size_of cast]; unfold u8, u16, u64, s8, s16, s32, s64;
    change (8 * Z.of_nat 1) with 8; change (8 * Z.of_nat 2) with 16; change (8 * Z.of_nat 4) with 32; change (8 * Z.of_nat 8) with 64; mlia.
Qed.

Section Rollbacks.
Context (content : Z -> list Z) (component_type : Z -> option Primitive) (layout : Z -> list (Z * FieldValueKind)).

(** An object has its fields where the layout says, and they do not overlap;
    an array of primitive values has no other fields. *)
Record object_ok (obj : Z) (b : list Z) : Prop := {
  ob_bytes : Forall byte b;
  ob_header : (8 <= length b)%nat;
  ob_fields : forall off k, (off, k) ∈ layout obj ->
    8 <= off /\ within b off (width k) /\ (k = kBoolean -> le_value (slice b (Z.to_nat off) 1) <= 1) /\
    (is_Some (component_type (klass_of b)) -> 12 <= off);
  ob_disjoint : forall off1 k1 off2 k2, (off1, k1) ∈ layout obj -> (off2, k2) ∈ layout obj ->
    (off1 = off2 /\ k1 = k2) \/ off1 + Z.of_nat (width k1) <= off2 \/ off2 + Z.of_nat (width k2) <= off1;
  ob_array : forall t, component_type (klass_of b) = Some t -> integral t = true ->
    layout obj = [] /\ (12 <= length b)%nat /\ 0 <= array_length b /\
    element_offset t (array_length b) <= Z.of_nat (length b);
}.

Definition object_cells (b : list Z) (log : list (Z * FieldValue)) (alog : list (Z * Z)) : list cell :=
  map field_cell log ++
  match component_type (klass_of b) with Some t => map (array_cell t) alog | None => [] end.

(** The logs of an object that was [b] when the transaction began. *)
Record logs_ok (obj : Z) (b o : list Z) (log : list (Z * FieldValue)) (alog : list (Z * Z)) : Prop := {
  lg_tracked : tracked b o (object_cells b log alog);
  lg_fields : Forall (fun it => exists k, (it.1, k) ∈ layout obj /\ fv_kind it.2 = recorded_kind k) log;
  lg_elements : Forall (fun it => exists t, component_type (klass_of b) = Some t /\ integral t = true /\
    0 <= it.1 < array_length b) alog;
}.

Lemma width_recorded k : width (recorded_kind k) = width k.
Proof. by destruct k. Qed.

Lemma length_field_cell it : length (field_cell it).2 = width (fv_kind it.2).
Proof. apply length_le_bytes. Qed.

Section Object.
Context (obj : Z) (b o : list Z) (log : list (Z * FieldValue)) (alog : list (Z * Z)).
Context (Hob : object_ok obj b) (Hlg : logs_ok obj b o log alog).

(** Logs of elements are logs of arrays, which have no fields. *)
Lemma fields_or_elements : log = [] \/ alog = [].
Proof.
  destruct log as [|it log']; [by left|]. right. destruct alog as [|jt alog']; [done|]. exfalso.
  destruct (proj1 (Forall_cons _ _ _) (lg_fields _ _ _ _ _ Hlg)) as [(k & Hk & _) _].
  destruct (proj1 (Forall_cons _ _ _) (lg_elements _ _ _ _ _ Hlg)) as [(t & Ht & Hi & _) _].
  destruct (ob_array _ _ Hob t Ht Hi) as [Hnil _]. rewrite Hnil in Hk. by apply elem_of_nil in Hk.
Qed.

Lemma array_length_range : 0 <= array_length b -> array_length b < 2 ^ 31.
Proof. intros _. apply s32_range. Qed.

(** No cell is in the header, nor in the length of an array. *)
Lemma cells_after c : c ∈ object_cells b log alog ->
  (8 <= c.1)%nat /\ (is_Some (component_type (klass_of b)) -> (12 <= c.1)%nat).
Proof.
  intros [Hin|Hin]%elem_of_app.
  - apply list_elem_of_fmap in Hin as (it & -> & Hit). pose proof (proj1 (Forall_forall _ _) (lg_fields _ _ _ _ _ Hlg) it Hit) as (k & Hk & _).
    destruct (ob_fields _ _ Hob _ _ Hk) as (H8 & _ & _ & H12). cbn. split; [lia|]. intros Hs%H12. lia.
  - destruct (component_type (klass_of b)) as [t|] eqn:Et; [|by apply elem_of_nil in Hin].
    apply list_elem_of_fmap in Hin as (it & -> & Hit). pose proof (proj1 (Forall_forall _ _) (lg_elements _ _ _ _ _ Hlg) it Hit) as (t' & Et' & Hi & Hr).
    rewrite Et in Et'. injection Et' as <-. destruct (element_layout t (s32 it.1) Hi) as (H12 & Hoff & Hsz & Hpos).
    pose proof (s32_range (le_value (slice b 8 4))) as Hs. unfold array_length in Hr. rewrite s32_small in Hoff by lia.
    cbn. rewrite s32_small by lia. rewrite Hoff. split; nia.
Qed.

Lemma same_below n : (8 <= n)%nat -> (forall c, c ∈ object_cells b log alog -> (n <= c.1)%nat) ->
  forall c k, (c + k <= n)%nat -> slice o c k = slice b c k.
Proof.
  intros Hn Hall c k Hck. apply slice_ext; [|apply Hlg]. intros p Hp. apply (lg_tracked _ _ _ _ _ Hlg).
  apply Forall_forall. intros d Hd. specialize (Hall d Hd). unfold covers. lia.
Qed.

Lemma same_class : klass_of o = klass_of b.
Proof. unfold klass_of. rewrite (same_below 8); [done|lia| |lia]. intros c Hc. by apply cells_after. Qed.

Lemma same_array_length : is_Some (component_type (klass_of b)) -> array_length o = array_length b.
Proof. intros Hs. unfold array_length. rewrite (same_below 12); [done|lia| |lia]. intros c Hc. by apply cells_after. Qed.

Lemma same_length : length o = length b.
Proof. apply Hlg. Qed.

(** *** A write to a field *)

Lemma field_known off k fv :
  (off, k) ∈ layout obj -> map_find off log = Some fv -> fv_kind fv = recorded_kind k.
Proof.
  intros Hk Hf%map_find_in. destruct (proj1 (Forall_forall _ _) (lg_fields _ _ _ _ _ Hlg) _ Hf) as (k' & Hk' & Hkind). cbn in Hk', Hkind.
  destruct (ob_disjoint _ _ Hob _ _ _ _ Hk Hk') as [[_ ->]|Hd]; [done|]. exfalso. clear Hkind. destruct k, k'; cbn in Hd; lia.
Qed.

Lemma field_apart off k :
  (off, k) ∈ layout obj -> map_find off log = None ->
  Forall (fun d => (d.1 + length d.2 <= Z.to_nat off)%nat \/ (Z.to_nat off + width k <= d.1)%nat) (object_cells b log alog).
Proof.
  intros Hk Hf. apply Forall_forall. intros d [Hd|Hd]%elem_of_app.
  - apply list_elem_of_fmap in Hd as (it & -> & Hit). destruct (proj1 (Forall_forall _ _) (lg_fields _ _ _ _ _ Hlg) _ Hit) as (k' & Hk' & Hkind).
    rewrite length_field_cell, Hkind, width_recorded. cbn [fst field_cell].
    destruct (ob_fields _ _ Hob _ _ Hk) as (? & _), (ob_fields _ _ Hob _ _ Hk') as (? & _).
    destruct (ob_disjoint _ _ Hob _ _ _ _ Hk Hk') as [[Heq _]|Hd]; [|lia].
    destruct (map_find_none _ _ Hf). rewrite Heq. by apply list_elem_of_fmap_2.
  - destruct (component_type (klass_of b)) as [t|]; [|by apply elem_of_nil in Hd]. exfalso.
    destruct alog as [|jt alog'] eqn:Ea; [by apply elem_of_nil in Hd|].
    destruct (proj1 (Forall_cons _ _ _) (lg_elements _ _ _ _ _ Hlg)) as [(t' & Ht & Hi & _) _].
    destruct (ob_array _ _ Hob t' Ht Hi) as [Hnil _]. rewrite Hnil in Hk. by apply elem_of_nil in Hk.
Qed.

Lemma write_field_logs off k v vol :
  (off, k) ∈ layout obj ->
  logs_ok obj b (splice o (Z.to_nat off) (le_bytes (width k) v))
    (LogValue (recorded_kind k) log off (recorded_value k (cast (field_size k) (le_value (slice o (Z.to_nat off) (width k))))) vol) alog.
Proof.
  intros Hk. destruct (ob_fields _ _ Hob _ _ Hk) as (H8 & [Hw1 Hw2] & Hbool & _). destruct Hlg as [Ht Hf He].
  unfold LogValue. destruct (map_find off log) as [fv|] eqn:Efind.
  - pose proof (field_known off k fv Hk Efind) as Hkind. constructor; [|done|done].
    apply (tracked_write_old b o _ (field_cell (off, fv)) (le_bytes (width k) v) Ht).
    + apply elem_of_app. left. by apply list_elem_of_fmap_2, map_find_in.
    + rewrite length_field_cell, length_le_bytes. cbn [snd]. by rewrite Hkind, width_recorded.
  - pose proof (tracked_write_new b o _ (Z.to_nat off) (le_bytes (width k) v) Ht) as Hnew. rewrite length_le_bytes in Hnew.
    destruct Hnew as [Hsame Hnew]; [lia|by apply field_apart|].
    constructor; [|rewrite map_store_new by done; apply Forall_cons; split; [by exists k|done]|done].
    eapply tracked_perm; [|exact Hnew]. unfold object_cells. rewrite (map_store_new _ _ _ Efind). cbn [map app].
    rewrite Hsame. rewrite <- (recorded_undone k (slice b (Z.to_nat off) (width k))) at 1; [done|..].
    + apply length_slice. lia.
    + apply Forall_take, Forall_drop, Hob.
    + intros ->. by apply Hbool.
Qed.

(** *** A write to an element *)

Section Element.
Context (t : Primitive) (Ht : component_type (klass_of b) = Some t) (Hi : integral t = true).

Lemma no_fields : log = [].
Proof.
  destruct (ob_array _ _ Hob t Ht Hi) as [Hnil _]. destruct log as [|it log']; [done|].
  destruct (proj1 (Forall_cons _ _ _) (lg_fields _ _ _ _ _ Hlg)) as [(k & Hk & _) _]. rewrite Hnil in Hk. by apply elem_of_nil in Hk.
Qed.

Lemma element_index i : 0 <= i < array_length b -> s32 i = i.
Proof. intros. apply s32_small. pose proof (s32_range (le_value (slice b 8 4))) as Hr. fold (array_length b) in Hr. lia. Qed.

Lemma element_within i : 0 <= i < array_length b ->
  12 <= element_offset t i /\ within b (element_offset t i) (size_of (element_size t)).
Proof.
  intros Hr. destruct (ob_array _ _ Hob t Ht Hi) as (_ & _ & _ & Hfit).
  destruct (element_layout t i Hi) as (H12 & Hoff & Hsz & Hpos), (element_layout t (array_length b) Hi) as (_ & Hend & _).
  rewrite Hend in Hfit. rewrite Hoff. unfold within. rewrite <- Hsz. nia.
Qed.

Lemma element_apart i :
  0 <= i < array_length b -> map_find i alog = None ->
  Forall (fun d => (d.1 + length d.2 <= Z.to_nat (element_offset t i))%nat \/
    (Z.to_nat (element_offset t i) + size_of (element_size t) <= d.1)%nat) (map (array_cell t) alog).
Proof.
  intros Hr Hf. apply Forall_forall. intros d Hd. apply list_elem_of_fmap in Hd as ([j u] & -> & Hit).
  destruct (proj1 (Forall_forall _ _) (lg_elements _ _ _ _ _ Hlg) _ Hit) as (t' & _ & _ & Hj). cbn in Hj.
  unfold array_cell. cbn [fst snd]. rewrite length_le_bytes, (element_index j Hj).
  destruct (element_layout t i Hi) as (H12 & -> & Hsz & Hpos), (element_layout t j Hi) as (_ & -> & _).
  assert (i <> j) as Hne. { intros ->. destruct (map_find_none _ _ Hf). apply (list_elem_of_fmap_2 fst _ _ Hit). }
  assert (i + 1 <= j \/ j + 1 <= i) as [Hlt|Hlt] by lia; [right|left]; nia.
Qed.

Lemma write_element_logs i v :
  0 <= i < array_length b ->
  logs_ok obj b (splice o (Z.to_nat (element_offset t i)) (le_bytes (size_of (element_size t)) v)) log
    (ArrayLog_LogValue alog i (u64 (cast (element_size t) (le_value (slice o (Z.to_nat (element_offset t i)) (size_of (element_size t))))))).
Proof.
  intros Hr. pose proof (element_within i Hr) as [H12 [Hw1 Hw2]]. pose proof Hlg as [Htr Hf He].
  assert (forall al, object_cells b log al = map (array_cell t) al) as Hcells by (intros; unfold object_cells; by rewrite no_fields, Ht).
  unfold ArrayLog_LogValue. destruct (map_find i alog) as [u|] eqn:Efind.
  - assert ((array_cell t (i, u)).1 = Z.to_nat (element_offset t i)) as <- by (cbn; by rewrite element_index).
    constructor; [|done|done]. apply tracked_write_old; [done| |cbn; by rewrite !length_le_bytes].
    rewrite Hcells. by apply list_elem_of_fmap_2, map_find_in.
  - pose proof (tracked_write_new b o _ (Z.to_nat (element_offset t i)) (le_bytes (size_of (element_size t)) v) Htr) as Hnew.
    rewrite length_le_bytes, Hcells in Hnew. destruct Hnew as [Hsame Hnew]; [lia|by apply element_apart|].
    constructor; [|done|rewrite map_store_new by done; apply Forall_cons; split; [by exists t|done]].
    eapply tracked_perm; [|exact Hnew]. rewrite Hcells, (map_store_new _ _ _ Efind). cbn [map].
    rewrite Hsame. unfold array_cell at 2. cbn [fst snd]. rewrite element_index by done. rewrite recorded_element; [done|done|..].
    + apply length_slice. lia.
    + apply Forall_take, Forall_drop, Hob.
Qed.

End Element.

End Object.

(** ** Initializers

    What the code of a class initializer does to the state: writes to fields
    and elements, new objects, interned strings, and aborting.  [tx] is the
    template argument [transaction_active] of the interpreter. *)
Inductive txn_op :=
| WriteField (k : FieldValueKind) (is_volatile : bool) (obj offset value : Z)
| WriteElement (t : Primitive) (array i value : Z)
| AllocateObject (obj : Z) (bytes : list Z)
| InternString (s : Z) (is_strong : bool)
| AbortTransaction (message : list Z).

Definition exec (tx : bool) (image : option (list ImageDexCache)) (op : txn_op) : M World unit :=
  match op with
  | WriteField k is_volatile obj offset value => write_field tx is_volatile k obj offset value
  | WriteElement t array i value => PrimitiveArray_Set tx t array i value
  | AllocateObject obj bytes => modify (fun w => set_heap w (<[obj := bytes]> (heap w)))
  | InternString s is_strong =>
      _ ← on_interns (if is_strong then InternStrong content image s else InternWeak content image s); mret tt
  | AbortTransaction message => AbortTransactionAndThrowAbortError message
  end.

(** The objects there are, as they were when the transaction began or when they
    were created. *)
Definition born (h : gmap Z (list Z)) (op : txn_op) : gmap Z (list Z) :=
  match op with AllocateObject obj bytes => <[obj := bytes]> h | _ => h end.

(** The operations of verified code: fields and elements are accessed as what
    they are. *)
Definition op_ok (h : gmap Z (list Z)) (op : txn_op) : Prop :=
  match op with
  | WriteField k _ obj offset _ => is_Some (h !! obj) /\ (offset, k) ∈ layout obj
  | WriteElement t array i _ => exists b, h !! array = Some b /\ component_type (klass_of b) = Some t /\
      integral t = true /\ - 2 ^ 31 <= i < 2 ^ 31
  | AllocateObject obj bytes => h !! obj = None /\ object_ok obj bytes
  | InternString s _ => s <> 0
  | AbortTransaction _ => True
  end.

Fixpoint ops_ok (h : gmap Z (list Z)) (ops : list txn_op) : Prop :=
  match ops with
  | [] => True
  | op :: ops => op_ok h op /\ ops_ok (born h op) ops
  end.

(** *** The invariant *)

#[local] Abbreviation log_of w obj := (default [] (map_find obj (object_logs_ (transaction w)))).
#[local] Abbreviation array_log_of w obj := (default [] (map_find obj (array_logs_ (transaction w)))).

Definition tracked_object (w : World) (obj : Z) (b o : option (list Z)) : Prop :=
  match b, o with
  | Some b, Some o => object_ok obj b /\ logs_ok obj b o (log_of w obj) (array_log_of w obj)
  | None, None => map_find obj (object_logs_ (transaction w)) = None /\ map_find obj (array_logs_ (transaction w)) = None
  | _, _ => False
  end.

Record in_transaction (base : gmap Z (list Z)) (S0 W0 : list Z) (w : World) : Prop := {
  it_active : IsActiveTransaction w = true;
  it_objects : forall obj, tracked_object w obj (base !! obj) (heap w !! obj);
  it_sorted : keys_sorted (object_logs_ (transaction w));
  it_array_sorted : keys_sorted (array_logs_ (transaction w));
  it_array_logs : forall obj, map_find obj (array_logs_ (transaction w)) <> Some [];
  it_interns : intern_ok content (interns w);
  it_allow : allow_new_interns_ (interns w) = true;
  it_undoable : undoable content S0 W0 (intern_string_logs_ (interns w)) (strong_strings content (interns w)) (weak_strings content (interns w));
}.

Lemma in_transaction_object base S0 W0 w obj b :
  in_transaction base S0 W0 w -> base !! obj = Some b ->
  exists o, heap w !! obj = Some o /\ object_ok obj b /\ logs_ok obj b o (log_of w obj) (array_log_of w obj).
Proof.
  intros Hit Hb. pose proof (it_objects _ _ _ _ Hit obj) as Ho. rewrite Hb in Ho. unfold tracked_object in Ho.
  destruct (heap w !! obj) as [o|]; [|done]. by exists o.
Qed.

(** A change of one object and of its logs. *)
Lemma in_transaction_step base S0 W0 w w' obj b o' :
  in_transaction base S0 W0 w -> base !! obj = Some b -> unchanged w w' -> heap w' = <[obj := o']> (heap w) ->
  logs_ok obj b o' (log_of w' obj) (array_log_of w' obj) ->
  keys_sorted (object_logs_ (transaction w')) -> keys_sorted (array_logs_ (transaction w')) ->
  (forall j, j <> obj -> map_find j (object_logs_ (transaction w')) = map_find j (object_logs_ (transaction w))) ->
  (forall j, j <> obj -> map_find j (array_logs_ (transaction w')) = map_find j (array_logs_ (transaction w))) ->
  map_find obj (array_logs_ (transaction w')) <> Some [] ->
  in_transaction base S0 W0 w'.
Proof.
  intros Hit Hb [Hi He Ha] Hh Hlg Hs1 Hs2 Ho1 Ho2 Hne. destruct (in_transaction_object _ _ _ _ _ _ Hit Hb) as (o & Ho & Hob & _).
  pose proof Hit as [H1 H2 H3 H4 Hne0 H5 H6 H7].
  constructor; unfold IsActiveTransaction; rewrite ?Hi; try done.
  2: { intros j. destruct (decide (j = obj)) as [->|Hj]; [done|]. by rewrite Ho2. }
  intros j. rewrite Hh. destruct (decide (j = obj)) as [->|Hj].
  - by rewrite Hb, lookup_insert_eq.
  - rewrite lookup_insert_ne by done. specialize (H2 j). unfold tracked_object in *. by rewrite Ho1, Ho2.
Qed.

Lemma on_object_log_find obj f t j :
  map_find j (object_logs_ (on_object_log obj f t)) = if j =? obj then Some (f (default [] (map_find obj (object_logs_ t)))) else map_find j (object_logs_ t).
Proof. apply map_find_store. Qed.

Lemma write_field_step base S0 W0 w k vol obj off v :
  in_transaction base S0 W0 w -> op_ok base (WriteField k vol obj off v) ->
  exists w', write_field true vol k obj off v w = Ok (tt, w') /\ in_transaction base S0 W0 w' /\ unchanged w w'.
Proof.
  intros Hit [[b Hb] Hk]. destruct (in_transaction_object _ _ _ _ _ _ Hit Hb) as (o & Ho & Hob & Hlg).
  destruct (ob_fields _ _ Hob _ _ Hk) as (_ & [Hw1 Hw2] & _). pose proof (same_length _ _ _ _ _ Hlg) as Hlen.
  destruct (write_field_ok vol k w obj o off v (it_active _ _ _ _ Hit) Ho) as (w' & Hrun & Hun & Hh & Ht); [unfold within; lia|].
  exists w'. split_and!; [done| |done].
  eapply (in_transaction_step _ _ _ w w' obj b); try done; rewrite Ht.
  - rewrite on_object_log_find, Z.eqb_refl. cbn [default from_option id]. by apply write_field_logs.
  - by apply map_store_sorted, Hit.
  - apply Hit.
  - intros j Hj. rewrite on_object_log_find. by rewrite (proj2 (Z.eqb_neq j obj)).
  - done.
  - apply Hit.
Qed.

Lemma CheckIsValidIndex_ok w array o i :
  heap w !! array = Some o -> (12 <= length o)%nat -> 0 <= array_length o ->
  CheckIsValidIndex array i w =
    if u32 i <? array_length o then Ok (true, w)
    else Ok (false, set_exception w (Some (ArrayIndexOutOfBoundsException i))).
Proof.
  intros Ho Hlen Hn. unfold CheckIsValidIndex. rewrite (bind_ok _ _ _ _ _ (GetField_ok kInt32 w array o LengthOffset Ho ltac:(unfold within, LengthOffset; cbn; lia))).
  cbn [cast]. change (s32 (le_value (slice o (Z.to_nat LengthOffset) (size_of kInt32)))) with (array_length o).
  pose proof (s32_range (le_value (slice o 8 4))) as Hr. fold (array_length o) in Hr. rewrite (u32_small (array_length o)) by lia.
  destruct (Z.ltb_spec (u32 i) (array_length o)); [by rewrite (proj2 (Z.leb_gt _ _))|by rewrite (proj2 (Z.leb_le _ _))].
Qed.

Lemma ArrayLog_LogValue_cons log i v : ArrayLog_LogValue log i v <> [].
Proof.
  unfold ArrayLog_LogValue. destruct (map_find i log) eqn:E; [by destruct log|]. intros Hnil.
  pose proof (map_store_new i v log E) as Hp. rewrite Hnil in Hp. by apply Permutation_nil_cons in Hp.
Qed.

Lemma SetWithoutChecks_ok t w array o i v :
  integral t = true -> IsActiveTransaction w = true -> heap w !! array = Some o ->
  within o (element_offset t i) (size_of (element_size t)) ->
  SetWithoutChecks true t array i v w =
    Ok (tt, set_heap (set_transaction w (Transaction_RecordWriteArray array (u64 i)
              (u64 (cast (element_size t) (le_value (slice o (Z.to_nat (element_offset t i)) (size_of (element_size t))))))
              (transaction w)))
            (written_heap w array (element_offset t i) (size_of (element_size t)) v o)).
Proof.
  intros Ht Ha Ho Hin. unfold SetWithoutChecks, GetWithoutChecks.
  assert (forall x, element_to_uint64 t x = Ok (u64 x)) as Hconv by (intros; by destruct t).
  apply (record_and_set (element_size t) (element_size t) _ w array o (element_offset t i) v
    (fun old => Transaction_RecordWriteArray array (u64 i) (u64 old))); try done.
  intros old. by rewrite Hconv.
Qed.

Lemma write_element_step base S0 W0 w t array i v :
  in_transaction base S0 W0 w -> op_ok base (WriteElement t array i v) ->
  exists w', PrimitiveArray_Set true t array i v w = Ok (tt, w') /\ in_transaction base S0 W0 w' /\ interns w' = interns w /\
    is_aot_compiler w' = is_aot_compiler w.
Proof.
  intros Hit (b & Hb & Ht & Hint & Hi). destruct (in_transaction_object _ _ _ _ _ _ Hit Hb) as (o & Ho & Hob & Hlg).
  destruct (ob_array _ _ Hob t Ht Hint) as (_ & H12 & Hn & _). pose proof (same_length _ _ _ _ _ Hlg) as Hlen.
  pose proof (same_array_length _ _ _ _ _ Hob Hlg (mk_is_Some _ _ Ht)) as Hal.
  unfold PrimitiveArray_Set. pose proof (CheckIsValidIndex_ok w array o i Ho ltac:(lia) ltac:(lia)) as Hcheck.
  destruct (Z.ltb_spec (u32 i) (array_length o)) as [Hlt|Hge]; rewrite (bind_ok _ _ _ _ _ Hcheck); cbn [whenM].
  - assert (u32 i = i) as Heq by (pose proof (s32_range (le_value (slice o 8 4))) as Hr; fold (array_length o) in Hr; unfold u32 in *; mlia).
    rewrite Heq, Hal in Hlt. assert (0 <= i < array_length b) as Hr by (pose proof (u32_range i); lia).
    destruct (element_within _ _ Hob t Ht Hint i Hr) as [_ [Hw1 Hw2]].
    eexists. split; [eapply SetWithoutChecks_ok; [done|apply Hit|done|unfold within; lia]|]. split; [|done].
    rewrite (u64_small i) by (pose proof (u32_range i); lia).
    eapply (in_transaction_step _ _ _ w _ array b); try done; cbn [transaction set_heap set_transaction Transaction_RecordWriteArray with_array_logs array_logs_ object_logs_].
    + rewrite map_find_store, Z.eqb_refl. cbn [default from_option id]. by apply write_element_logs.
    + apply Hit.
    + by apply map_store_sorted, Hit.
    + intros j Hj. rewrite map_find_store. by rewrite (proj2 (Z.eqb_neq j array)).
    + rewrite map_find_store, Z.eqb_refl. intros [= Hnil]. revert Hnil. apply ArrayLog_LogValue_cons.
  - eexists. split; [done|]. split; [|done]. by destruct Hit.
Qed.

Lemma allocate_step base S0 W0 w obj bytes :
  in_transaction base S0 W0 w -> op_ok base (AllocateObject obj bytes) ->
  in_transaction (<[obj := bytes]> base) S0 W0 (set_heap w (<[obj := bytes]> (heap w))).
Proof.
  intros [H1 H2 H3 H4 Hne0 H5 H6 H7] [Hnone Hob]. constructor; try done. intros j. cbn [heap set_heap]. specialize (H2 j).
  destruct (decide (j = obj)) as [->|Hne]; [|by rewrite !lookup_insert_ne].
  rewrite !lookup_insert_eq. rewrite Hnone in H2. unfold tracked_object in *. destruct (heap w !! obj); [done|]. destruct H2 as [Hn1 Hn2].
  cbn [transaction set_heap]. rewrite Hn1, Hn2. cbn [default from_option]. split; [done|].
  constructor; [|constructor|constructor]. unfold object_cells. cbn. destruct (component_type _); apply tracked_nil.
Qed.

(** *** Steps *)

Context (Hcontent : forall s, forallb (fun ch => (0 <=? ch) && (ch <? 2 ^ 16)) (content s) = true).
Context (image : option (list ImageDexCache)) (Himage : image_ok content image).

#[local] Abbreviation nstrings w := (Z.of_nat (length (all_strings content (interns w)))).
#[local] Abbreviation nlogs w := (Z.of_nat (length (intern_string_logs_ (interns w)))).

(** What an operation keeps, and how much it adds. *)
Record stepped (base : gmap Z (list Z)) (S0 W0 : list Z) (n : Z) (w w' : World) : Prop := {
  st_inv : in_transaction base S0 W0 w';
  st_aot : is_aot_compiler w' = is_aot_compiler w;
  st_strings : nstrings w' <= nstrings w + n;
  st_logs : nlogs w' <= nlogs w + 2 * n;
}.

Lemma intern_step base S0 W0 w s b :
  in_transaction base S0 W0 w -> s <> 0 -> nstrings w < 2 ^ 48 ->
  exists w', exec true image (InternString s b) w = Ok (tt, w') /\ stepped base S0 W0 1 w w'.
Proof.
  intros Hit Hs Hb. pose proof Hit as [H1 H2 H3 H4 Hne0 H5 H6 H7].
  destruct (InternTable_Insert_ok content Hcontent _ H5 Hb image s b Himage H6 Hs) as (r & i' & Hrun & Hin).
  exists (set_interns w i'). split.
  - cbn [exec]. unfold on_interns, mbind, M_bind. unfold InternStrong, InternWeak.
    assert ((if b then InternTable_Insert content image s true else InternTable_Insert content image s false) (interns w) = Ok (Returns r, i')) as ->
      by (by destruct b). done.
  - destruct Hin as [Hok _ _ _ _ _ Hlen Hal Hact Hun (new & Hnew & Hnl)]. constructor; cbn [interns set_interns]; try done.
    + constructor; cbn [interns set_interns heap transaction]; try done.
      * unfold IsActiveTransaction. cbn. by rewrite Hact.
      * by rewrite Hal.
      * by apply Hun.
    + lia.
    + rewrite Hnew, length_app. lia.
Qed.

Lemma exec_ok base S0 W0 w op :
  in_transaction base S0 W0 w -> op_ok base op -> nstrings w < 2 ^ 48 ->
  exists w', exec true image op w = Ok (tt, w') /\ stepped (born base op) S0 W0 1 w w'.
Proof.
  intros Hit Hop Hb. destruct op as [k vol obj off v|t array i v|obj bytes|s b|message].
  - destruct (write_field_step _ _ _ _ _ _ _ _ _ Hit Hop) as (w' & Hrun & Hit' & [Hi _ Ha]). exists w'. split; [done|].
    constructor; rewrite ?Hi; [done|done|lia|lia].
  - destruct (write_element_step _ _ _ _ _ _ _ _ Hit Hop) as (w' & Hrun & Hit' & Hi & Ha). exists w'. split; [done|].
    constructor; rewrite ?Hi; [done|done|lia|lia].
  - eexists. split; [done|]. constructor; [by apply allocate_step|done|cbn; lia|cbn; lia].
  - by apply intern_step.
  - cbn [exec]. unfold AbortTransactionAndThrowAbortError. rewrite bind_gets, (it_active _ _ _ _ Hit).
    unfold ThrowAbortError. rewrite bind_assoc, bind_gets, bind_modify.
    rewrite through_transaction_ok by apply Hit. eexists. split; [done|].
    constructor; [|done|cbn; lia|cbn; lia]. destruct Hit as [H1 H2 H3 H4 Hne0 H5 H6 H7].
    assert (forall t, object_logs_ (Transaction_Abort message t) = object_logs_ t /\ array_logs_ (Transaction_Abort message t) = array_logs_ t) as Hab
      by (intros t; unfold Transaction_Abort; by destruct (aborted_ t)).
    destruct (Hab (transaction w)) as [E1 E2].
    constructor; cbn [transaction set_transaction set_exception heap interns]; rewrite ?E1, ?E2; try done.
    intros obj. specialize (H2 obj). unfold tracked_object in *. cbn [transaction set_transaction set_exception heap interns]. by rewrite E1, E2.
Qed.

Lemma exec_all_ok S0 W0 ops base w :
  in_transaction base S0 W0 w -> ops_ok base ops -> nstrings w + Z.of_nat (length ops) <= 2 ^ 48 ->
  exists w', forM ops (exec true image) w = Ok (tt, w') /\ stepped (fold_left born ops base) S0 W0 (Z.of_nat (length ops)) w w'.
Proof.
  revert base w. induction ops as [|op ops IH]; intros base w Hit Hops Hb; cbn [forM fold_left length] in *.
  - exists w. split; [done|]. constructor; [done|done|lia|lia].
  - destruct Hops as [Hop Hops]. destruct (exec_ok _ _ _ _ _ Hit Hop ltac:(lia)) as (w1 & Hrun1 & [ ]).
    destruct (IH _ w1 st_inv0 Hops ltac:(lia)) as (w2 & Hrun2 & [ ]). exists w2. rewrite (bind_ok _ _ _ _ _ Hrun1). split; [done|].
    constructor; [done|congruence|lia|lia].
Qed.

(** *** Undoing one object *)

Lemma slice_splice_below o c bs a n : (a + n <= c)%nat -> (c + length bs <= length o)%nat -> slice (splice o c bs) a n = slice o a n.
Proof.
  intros H1 H2. apply slice_ext; [|by apply length_splice]. intros p Hp. rewrite splice_byte by done. by destruct (decide _); [lia|].
Qed.

Lemma object_component_ok w obj o :
  heap w !! obj = Some o -> (4 <= length o)%nat -> object_component component_type obj w = Ok (component_type (klass_of o), w).
Proof.
  intros Ho Hl. unfold object_component. by rewrite (bind_ok _ _ _ _ _ (GetField_ok kHeapReference w obj o ClassOffset Ho ltac:(unfold within, ClassOffset; cbn; lia))).
Qed.

(** What undoing a log does to the heap. *)
Record undone (w w' : World) (obj : Z) (o' : list Z) : Prop := {
  ud_unchanged : unchanged w w';
  ud_transaction : transaction w' = transaction w;
  ud_heap : heap w' = <[obj := o']> (heap w);
}.

Lemma undone_trans w w1 w2 obj o1 o2 : undone w w1 obj o1 -> undone w1 w2 obj o2 -> undone w w2 obj o2.
Proof.
  intros [U1 T1 H1] [U2 T2 H2]. constructor; [by etrans|congruence|]. by rewrite H2, H1, insert_insert_eq.
Qed.

Lemma undone_same w obj o : heap w !! obj = Some o -> undone w w obj o.
Proof. intros Ho. constructor; [done|done|]. by rewrite insert_id. Qed.

Lemma ObjectLog_Undo_ok log w obj o :
  heap w !! obj = Some o -> (8 <= length o)%nat ->
  Forall (fun it => 8 <= it.1 /\ within o it.1 (width (fv_kind it.2)) /\ (is_Some (component_type (klass_of o)) -> 12 <= it.1)) log ->
  exists w', ObjectLog_Undo component_type log obj w = Ok (tt, w') /\ undone w w' obj (restore (map field_cell log) o).
Proof.
  unfold ObjectLog_Undo. revert w o. induction log as [|it log IH]; intros w o Ho Hl Hall; cbn [forM map].
  - exists w. split; [done|]. by apply undone_same.
  - apply Forall_cons in Hall as [(H8 & Hin & H12) Hall].
    destruct (UndoFieldWrite_ok w obj o it.1 it.2 Ho Hin) as (w1 & Hrun1 & Hun1 & Ht1 & Hh1). rewrite <- surjective_pairing in Hh1.
    assert (((field_cell it).1 + length (field_cell it).2 <= length o)%nat) as Hfit
      by (rewrite length_field_cell; destruct Hin; cbn [field_cell fst]; lia).
    set (o1 := splice o (field_cell it).1 (field_cell it).2) in *.
    assert (klass_of o1 = klass_of o) as Hk by (unfold klass_of, o1; rewrite slice_splice_below; [done|cbn [field_cell fst]; lia|done]).
    assert (length o1 = length o) as Hl1 by (by apply length_splice).
    destruct (IH w1 o1) as (w2 & Hrun2 & Hud2); [by rewrite Hh1, lookup_insert_eq|lia|by unfold within; rewrite Hk, Hl1|].
    exists w2. split; [|by eapply undone_trans].
    assert (undo_field component_type obj it w = Ok (tt, w1)) as Hfield; [|by rewrite (bind_ok _ _ _ _ _ Hfield)].
    unfold undo_field. rewrite (proj2 (Z.eqb_neq it.1 ClassOffset)) by (unfold ClassOffset; lia).
    unfold IsArrayInstance. rewrite bind_assoc, (bind_ok _ _ _ _ _ (object_component_ok w obj o Ho ltac:(lia))), bind_ret.
    case_bool_decide as Hs; cbn [andb]; [|done]. specialize (H12 Hs). by rewrite (proj2 (Z.eqb_neq it.1 LengthOffset)) by (unfold LengthOffset; lia).
Qed.

Lemma UndoArrayWrite_ok t w array o i v :
  integral t = true -> heap w !! array = Some o -> within o (element_offset t (s32 i)) (size_of (element_size t)) ->
  exists w', UndoArrayWrite array t i v w = Ok (tt, w') /\
    undone w w' array (splice o (array_cell t (i, v)).1 (array_cell t (i, v)).2).
Proof.
  intros Ht Ho Hin.
  exists (set_heap w (<[array := splice o (array_cell t (i, v)).1 (array_cell t (i, v)).2]> (heap w))). split; [|done].
  destruct t; try done; cbn [UndoArrayWrite]; unfold SetWithoutChecks, whenM; rewrite bind_ret; by rewrite (SetField_ok _ w array o).
Qed.

Lemma ArrayLog_Undo_loop t log w array o :
  integral t = true -> heap w !! array = Some o ->
  Forall (fun it => within o (element_offset t (s32 it.1)) (size_of (element_size t))) log ->
  exists w', forM log (fun it => UndoArrayWrite array t it.1 it.2) w = Ok (tt, w') /\
    undone w w' array (restore (map (array_cell t) log) o).
Proof.
  intros Ht. revert w o. induction log as [|it log IH]; intros w o Ho Hall; cbn [forM map].
  - exists w. split; [done|]. by apply undone_same.
  - apply Forall_cons in Hall as [Hin Hall]. destruct (UndoArrayWrite_ok t w array o it.1 it.2 Ht Ho Hin) as (w1 & Hrun1 & Hud1).
    rewrite <- surjective_pairing in Hud1. set (o1 := splice o (array_cell t it).1 (array_cell t it).2) in *.
    assert (length o1 = length o) as Hl1 by (apply length_splice; cbn [array_cell snd fst]; rewrite length_le_bytes; destruct Hin; lia).
    destruct (IH w1 o1) as (w2 & Hrun2 & Hud2); [by rewrite (ud_heap _ _ _ _ Hud1), lookup_insert_eq|by unfold within; rewrite Hl1|].
    exists w2. rewrite (bind_ok _ _ _ _ _ Hrun1). split; [done|]. by eapply undone_trans.
Qed.

Lemma ArrayLog_Undo_ok t log w array o :
  component_type (klass_of o) = Some t -> integral t = true -> heap w !! array = Some o -> (4 <= length o)%nat ->
  Forall (fun it => within o (element_offset t (s32 it.1)) (size_of (element_size t))) log ->
  exists w', ArrayLog_Undo component_type log array w = Ok (tt, w') /\ undone w w' array (restore (map (array_cell t) log) o).
Proof.
  intros Hc Ht Ho Hl Hall. destruct (ArrayLog_Undo_loop t log w array o Ht Ho Hall) as (w' & Hrun & Hud). exists w'. split; [|done].
  unfold ArrayLog_Undo. rewrite (bind_ok _ _ _ _ _ (object_component_ok w array o Ho Hl)). by rewrite Hc.
Qed.

(** *** Undoing all objects *)

Lemma undo_all {V} (undo : V -> Z -> M World unit) (effect : V -> list Z -> list Z) (logs : list (Z * V)) w :
  NoDup (map fst logs) ->
  (forall obj log, (obj, log) ∈ logs -> exists o, heap w !! obj = Some o /\
     forall w1, heap w1 !! obj = Some o -> exists w2, undo log obj w1 = Ok (tt, w2) /\ undone w1 w2 obj (effect log o)) ->
  exists w', forM logs (fun it => undo it.2 it.1) w = Ok (tt, w') /\ unchanged w w' /\ transaction w' = transaction w /\
    forall obj, heap w' !! obj = match map_find obj logs with Some log => effect log <$> heap w !! obj | None => heap w !! obj end.
Proof.
  revert w. induction logs as [|[obj log] logs IH]; intros w Hnd Hall; cbn [forM map_find map fst snd] in *.
  - by exists w.
  - apply NoDup_cons in Hnd as [Hni Hnd]. destruct (Hall obj log ltac:(by left)) as (o & Ho & Hundo).
    destruct (Hundo w Ho) as (w1 & Hrun1 & [Hun1 Ht1 Hh1]).
    assert (forall j, j <> obj -> heap w1 !! j = heap w !! j) as Hother by (intros j Hj; by rewrite Hh1, lookup_insert_ne).
    destruct (IH w1 Hnd) as (w2 & Hrun2 & Hun2 & Ht2 & Hh2).
    { intros j l Hj. destruct (Hall j l ltac:(by right)) as (o' & Ho' & Hundo'). exists o'. split; [|done].
      rewrite Hother; [done|]. intros ->. destruct Hni. by apply (list_elem_of_fmap_2 fst) in Hj. }
    exists w2. rewrite (bind_ok _ _ _ _ _ Hrun1). split_and!; [done|by etrans|congruence|].
    intros j. rewrite Hh2. destruct (Z.eqb_spec j obj) as [->|Hj]; [|by rewrite Hother].
    rewrite (map_find_not_in _ _ Hni), Hh1, lookup_insert_eq. by rewrite Ho.
Qed.

(** *** Rolling back *)

Lemma map_find_unique {V} (l : list (Z * V)) k v : NoDup (map fst l) -> (k, v) ∈ l -> map_find k l = Some v.
Proof.
  induction l as [|[j u] l IH]; cbn; intros Hnd Hin; [by apply elem_of_nil in Hin|]. apply NoDup_cons in Hnd as [Hni Hnd].
  apply elem_of_cons in Hin as [[= -> ->]|Hin]; [by rewrite Z.eqb_refl|].
  destruct (Z.eqb_spec k j) as [->|]; [|auto]. destruct Hni. by apply (list_elem_of_fmap_2 fst) in Hin.
Qed.

Section Undo.
Context (base : gmap Z (list Z)) (S0 W0 : list Z) (w : World) (Hit : in_transaction base S0 W0 w).

Lemma logged_object obj :
  is_Some (map_find obj (object_logs_ (transaction w))) \/ is_Some (map_find obj (array_logs_ (transaction w))) ->
  exists b o, base !! obj = Some b /\ heap w !! obj = Some o /\ object_ok obj b /\ logs_ok obj b o (log_of w obj) (array_log_of w obj).
Proof.
  intros Hlog. pose proof (it_objects _ _ _ _ Hit obj) as Ho. unfold tracked_object in Ho.
  destruct (base !! obj) as [b|], (heap w !! obj) as [o|]; try done; [by exists b, o|]. destruct Ho as [E1 E2].
  rewrite E1, E2 in Hlog. by destruct Hlog as [[? ?]|[? ?]].
Qed.

Lemma logged_fields obj b o log alog :
  object_ok obj b -> logs_ok obj b o log alog ->
  Forall (fun it => 8 <= it.1 /\ within o it.1 (width (fv_kind it.2)) /\ (is_Some (component_type (klass_of o)) -> 12 <= it.1)) log.
Proof.
  intros Hob Hlg. rewrite (same_class _ _ _ _ _ Hob Hlg). eapply Forall_impl; [apply Hlg|]. intros it (k & Hk & Hkind). cbn.
  destruct (ob_fields _ _ Hob _ _ Hk) as (H8 & Hin & _ & H12). rewrite Hkind, width_recorded. unfold within in *.
  by rewrite (same_length _ _ _ _ _ Hlg).
Qed.

Lemma undo_objects wc :
  heap wc = heap w -> transaction wc = transaction w ->
  exists w1, forM (object_logs_ (transaction w)) (fun it => ObjectLog_Undo component_type it.2 it.1) wc = Ok (tt, w1) /\
    unchanged wc w1 /\ transaction w1 = transaction w /\
    forall obj, heap w1 !! obj = restore (map field_cell (log_of w obj)) <$> heap w !! obj.
Proof.
  intros Hh Ht. pose proof (keys_sorted_nodup _ (it_sorted _ _ _ _ Hit)) as Hnd.
  destruct (undo_all (ObjectLog_Undo component_type) (fun log => restore (map field_cell log)) (object_logs_ (transaction w)) wc Hnd) as (w1 & Hrun & Hun & Ht1 & Hh1).
  - intros obj log Hin. pose proof (map_find_unique _ _ _ Hnd Hin) as Hf.
    destruct (logged_object obj) as (b & o & Hb & Ho & Hob & Hlg); [left; by rewrite Hf|].
    exists o. rewrite Hh. split; [done|]. intros w1 Ho1. rewrite Hf in Hlg. pose proof (logged_fields _ _ _ _ _ Hob Hlg) as Hall.
    apply ObjectLog_Undo_ok; [done| |done]. rewrite (same_length _ _ _ _ _ Hlg). apply Hob.
  - exists w1. split_and!; [done|done|congruence|]. intros obj. rewrite Hh1, Hh.
    destruct (map_find obj _); cbn [default from_option map restore fold_left]; [done|]. by destruct (heap w !! obj).
Qed.

Definition undo_elements (alog : list (Z * Z)) (o : list Z) : list Z :=
  match component_type (klass_of o) with Some t => restore (map (array_cell t) alog) o | None => o end.

Lemma undo_arrays w1 :
  transaction w1 = with_object_logs (transaction w) [] ->
  (forall obj, heap w1 !! obj = restore (map field_cell (log_of w obj)) <$> heap w !! obj) ->
  exists w2, forM (array_logs_ (transaction w)) (fun it => ArrayLog_Undo component_type it.2 it.1) w1 = Ok (tt, w2) /\
    unchanged w1 w2 /\ transaction w2 = transaction w1 /\ forall obj, heap w2 !! obj = base !! obj.
Proof.
  intros Ht Hh. pose proof (keys_sorted_nodup _ (it_array_sorted _ _ _ _ Hit)) as Hnd.
  destruct (undo_all (ArrayLog_Undo component_type) undo_elements (array_logs_ (transaction w)) w1 Hnd) as (w2 & Hrun & Hun & Ht2 & Hh2).
  - intros obj alog Hin. pose proof (map_find_unique _ _ _ Hnd Hin) as Hf.
    destruct (logged_object obj) as (b & o & Hb & Ho & Hob & Hlg); [right; by rewrite Hf|]. rewrite Hf in Hlg. cbn [default from_option id] in Hlg.
    destruct alog as [|it alog]; [by destruct (it_array_logs _ _ _ _ Hit obj)|].
    destruct (proj1 (Forall_cons _ _ _) (lg_elements _ _ _ _ _ Hlg)) as [(t & Hc & Hint & _) _].
    exists o. rewrite Hh, Ho, (no_fields _ _ _ _ _ Hob Hlg t Hc Hint). split; [done|]. intros w3 Ho3.
    pose proof (same_class _ _ _ _ _ Hob Hlg) as Hk. unfold undo_elements. rewrite Hk, Hc.
    apply ArrayLog_Undo_ok; [by rewrite Hk|done|done| |].
    + rewrite (same_length _ _ _ _ _ Hlg). pose proof (ob_header _ _ Hob). lia.
    + eapply Forall_impl; [apply Hlg|]. intros jt (t' & Hc' & _ & Hr). rewrite Hc in Hc'. injection Hc' as <-.
      rewrite (element_index _ _ Hr). unfold within. rewrite (same_length _ _ _ _ _ Hlg). by apply (element_within obj b Hob t Hc Hint).
  - exists w2. split_and!; [done|done|done|]. intros obj. rewrite Hh2, Hh.
    pose proof (it_objects _ _ _ _ Hit obj) as Ho. unfold tracked_object in Ho.
    destruct (base !! obj) as [b|], (heap w !! obj) as [o|]; try done; [|by destruct (map_find obj (array_logs_ _))].
    destruct Ho as [Hob Hlg]. pose proof (tracked_restore _ _ _ (lg_tracked _ _ _ _ _ Hlg)) as Hres. unfold object_cells in Hres.
    unfold restore in Hres. rewrite fold_left_app in Hres. fold (restore (map field_cell (log_of w obj)) o) in Hres.
    destruct (map_find obj (array_logs_ (transaction w))) as [alog|] eqn:Ef; cbn [fmap option_fmap option_map default from_option id] in *; f_equal.
    + destruct alog as [|it alog]; [by destruct (it_array_logs _ _ _ _ Hit obj)|].
      destruct (proj1 (Forall_cons _ _ _) (lg_elements _ _ _ _ _ Hlg)) as [(t & Hc & Hint & _) _].
      rewrite (no_fields _ _ _ _ _ Hob Hlg t Hc Hint) in *. cbn [map restore fold_left] in *.
      unfold undo_elements. rewrite (same_class _ _ _ _ _ Hob Hlg). rewrite Hc in *. exact Hres.
    + by destruct (component_type _).
Qed.

Lemma Rollback_ok wc :
  heap wc = heap w -> transaction wc = transaction w -> interns wc = set_active (interns w) false -> exception wc = None ->
  nstrings w + nlogs w < 2 ^ 49 ->
  exists w', Rollback content component_type wc = Ok (tt, w') /\ heap w' = base /\ exception w' = None /\
    IsActiveTransaction w' = false /\ table_wf content (strong_interns_ (interns w')) /\ table_wf content (weak_interns_ (interns w')) /\
    strong_strings content (interns w') ≡ₚ S0 /\ weak_strings content (interns w') ≡ₚ W0.
Proof.
  intros Hh Ht Hi He Hb. unfold Rollback. rewrite bind_gets. assert (IsActiveTransaction wc = false) as Hact by (unfold IsActiveTransaction; by rewrite Hi).
  rewrite Hact. cbn [negb]. unfold checkM. rewrite bind_lift. cbn [check]. rewrite bind_gets, He, bind_ret.
  destruct (undo_objects wc Hh Ht) as (w1 & Hrun1 & [Hi1 He1 _] & Ht1 & Hh1).
  unfold UndoObjectModifications at 1. rewrite bind_assoc, bind_gets, Ht. rewrite bind_assoc, (bind_ok _ _ _ _ _ Hrun1), bind_modify.
  set (w1' := set_transaction w1 _).
  destruct (undo_arrays w1') as (w2 & Hrun2 & [Hi2 He2 _] & Ht2 & Hh2); [by subst w1'; cbn; rewrite Ht1|done|].
  unfold UndoArrayModifications at 1. rewrite bind_assoc, bind_gets. replace (array_logs_ (transaction w1')) with (array_logs_ (transaction w)) by (subst w1'; cbn; by rewrite Ht1).
  rewrite bind_assoc, (bind_ok _ _ _ _ _ Hrun2), bind_modify.
  set (w2' := set_transaction w2 _).
  assert (interns w2' = set_active (interns w) false) as Hi2' by (subst w2'; cbn; rewrite Hi2; subst w1'; cbn; congruence).
  destruct Hit as [_ _ _ _ _ [Hwf1 Hwf2 _] _ Hundo].
  destruct (undo_logs_ok content S0 W0 (intern_string_logs_ (interns w)) (set_active (interns w) false) Hwf1 Hwf2 eq_refl Hundo Hb)
    as (i' & Hrun3 & Hw1 & Hw2 & Hs & Hw & Ha).
  unfold on_interns, UndoInternStringTableModifications. rewrite Hi2', bind_gets. cbn [intern_string_logs_ set_active].
  rewrite (bind_ok _ _ _ _ _ Hrun3).
  eexists. split; [reflexivity|]. cbn [heap interns exception set_interns w2' set_transaction strong_interns_ weak_interns_ with_logs].
  split_and!; try done.
  - apply map_eq. exact Hh2.
  - subst w2' w1'. cbn in *. congruence.
Qed.

End Undo.

(** ** Class initializers

    [EnsureInitialized] runs the initializer; when that fails an exception is
    pending. *)
Definition run_initializer (tx : bool) (ops : list txn_op) (failure : option Exception) : M World bool :=
  forM ops (exec tx image) ;;
  match failure with
  | Some e => modify (fun w => set_exception w (Some e)) ;; mret false
  | None => mret true
  end.

(** A state outside transactions. *)
Record world_ok (w : World) : Prop := {
  wo_aot : is_aot_compiler w = true;
  wo_objects : forall obj b, heap w !! obj = Some b -> object_ok obj b;
  wo_interns : intern_ok content (interns w);
  wo_allow : allow_new_interns_ (interns w) = true;
}.

(** The state in which the initializer starts. *)
Definition entered (w : World) : World :=
  set_interns (set_transaction w (mkTransaction [] [] false [])) (set_active (with_logs (interns w) []) true).

Lemma entered_ok w :
  world_ok w ->
  in_transaction (heap w) (strong_strings content (interns w)) (weak_strings content (interns w)) (entered w).
Proof.
  intros [H1 H2 H3 H4]. constructor; try done; try (by repeat constructor); [|by destruct H3].
  intros obj. unfold tracked_object. cbn [heap entered set_interns set_transaction transaction object_logs_ array_logs_ map_find default from_option].
  destruct (heap w !! obj) as [b|] eqn:Eb; [|done]. split; [by apply H2|]. constructor; [|constructor|constructor].
  unfold object_cells. destruct (component_type _); apply tracked_nil.
Qed.

Lemma initialize_entered status_offset klass init w :
  is_aot_compiler w = true ->
  initialize_static_fields content component_type status_offset klass init w =
  (old_status ← GetStatus status_offset klass;
   success ← init;
   ExitTransactionMode ;;
   if (success : bool) then mret tt
   else
     pending ← gets exception;
     checkM (bool_decide (is_Some pending)) ;;
     modify (fun w => set_exception w None) ;;
     Rollback content component_type ;;
     status ← GetStatus status_offset klass;
     checkM (old_status =? status)) (entered w).
Proof. intros Ha. unfold initialize_static_fields, Transaction_new. rewrite bind_assoc, bind_gets, Ha. done. Qed.

Lemma bind_check {S B} (k : unit -> M S B) s : (checkM true ≫= k) s = k tt s.
Proof. done. Qed.

Lemma failed_initializer_ok status_offset klass b ops e w :
  world_ok w -> ops_ok (heap w) ops -> heap w !! klass = Some b -> within b status_offset 4 ->
  nstrings w + Z.of_nat (length ops) <= 2 ^ 46 ->
  exists w', initialize_static_fields content component_type status_offset klass (run_initializer true ops (Some e)) w = Ok (tt, w') /\
    heap w' = fold_left born ops (heap w) /\ exception w' = None /\ IsActiveTransaction w' = false /\ intern_ok content (interns w') /\
    strong_strings content (interns w') ≡ₚ strong_strings content (interns w) /\
    weak_strings content (interns w') ≡ₚ weak_strings content (interns w).
Proof.
  intros Hw Hops Hk Hin Hb. rewrite initialize_entered by apply Hw. pose proof (entered_ok w Hw) as Hit.
  unfold GetStatus. rewrite (bind_ok _ _ _ _ _ (GetField_ok kInt32 (entered w) klass b status_offset Hk Hin)).
  assert (nstrings (entered w) = nstrings w) as Hn by done.
  destruct (exec_all_ok _ _ ops (heap w) (entered w) Hit Hops ltac:(lia)) as (w1 & Hrun & [Hinv _ Hs Hl]).
  unfold run_initializer. rewrite !bind_assoc, (bind_ok _ _ _ _ _ Hrun), bind_assoc, bind_modify, bind_ret.
  unfold ExitTransactionMode. rewrite bind_modify, bind_gets. cbn [exception set_interns set_exception].
  rewrite bool_decide_true by done. rewrite bind_check, bind_modify.
  destruct (Rollback_ok _ _ _ w1 Hinv (set_exception (set_interns (set_exception w1 (Some e)) (set_active (interns (set_exception w1 (Some e))) false)) None))
    as (w' & Hroll & Hh & He & Ha & Hw1 & Hw2 & Hss & Hws); try done; [cbn in Hl; lia|].
  rewrite (bind_ok _ _ _ _ _ Hroll).
  assert (heap w' !! klass = Some b) as Hk'.
  { rewrite Hh. clear -Hops Hk. revert Hk Hops. generalize (heap w). induction ops as [|op ops IH]; intros h Hk [Hop Hops] || intros h Hk _; [done|].
    apply IH; [|done]. destruct op; cbn in *; try done. rewrite lookup_insert_ne; [done|]. intros ->. destruct Hop. congruence. }
  rewrite (bind_ok _ _ _ _ _ (GetField_ok kInt32 w' klass b status_offset Hk' Hin)). rewrite Z.eqb_refl.
  exists w'. split_and!; try done. destruct (wo_interns _ Hw) as [_ _ Hd]. constructor; [done|done|].
  eapply distinct_perm; [|exact Hd]. unfold all_strings. by rewrite Hss, Hws.
Qed.

End Rollbacks.

(** ** With and without a transaction *)

(** The interned strings without the traces of a transaction. *)
Definition forget (i : InternTable) : InternTable := set_active (with_logs i []) false.

Definition blind {A} (m : M InternTable A) : Prop :=
  forall i a i', m i = Ok (a, i') -> m (forget i) = Ok (a, forget i').

Lemma blind_bind {A B} (m : M InternTable A) (k : A -> M InternTable B) : blind m -> (forall a, blind (k a)) -> blind (m ≫= k).
Proof. intros Hm Hk i b i' (a & i1 & H1 & H2)%bind_inv. rewrite (bind_ok _ _ _ _ _ (Hm _ _ _ H1)). by apply Hk. Qed.

Lemma blind_gets {A} (f : InternTable -> A) : (forall i, f (forget i) = f i) -> blind (gets f).
Proof. intros Hf i a i' [= <- <-]. unfold gets. by rewrite Hf. Qed.

Lemma blind_modify f : (forall i, f (forget i) = forget (f i)) -> blind (modify f).
Proof. intros Hf i a i' [= <- <-]. unfold modify. by rewrite Hf. Qed.

Lemma blind_lift {A} (m : outcome A) : blind (lift m).
Proof. intros i a i'. unfold lift. destruct m; [|done]. by intros [= <- <-]. Qed.

Lemma blind_ret {A} (a : A) : blind (mret a).
Proof. by intros i a' i' [= <- <-]. Qed.

Lemma blind_when (b : bool) m : blind m -> blind (whenM b m).
Proof. destruct b; [done|]. intros _. apply blind_ret. Qed.

Lemma blind_logged {A} log (m : M InternTable A) :
  blind m -> blind (active ← gets active_transaction_; whenM active (LogInternedString log) ;; m).
Proof.
  intros Hm i a i'. rewrite !bind_gets. cbn [active_transaction_ forget set_active]. intros (u & i1 & H1 & H2)%bind_inv. cbn [whenM]. rewrite bind_ret.
  replace (forget i) with (forget i1); [by apply Hm|]. unfold whenM in H1. destruct (active_transaction_ i); by injection H1 as <- <-.
Qed.

Create HintDb blind.
#[local] Hint Resolve blind_bind blind_gets blind_modify blind_lift blind_ret blind_when blind_logged : blind.

Lemma InternTable_Insert_blind content image s b : blind (InternTable_Insert content image s b).
Proof.
  assert (forall x, blind (LookupStrong content x)) as H1 by (intros; unfold LookupStrong; auto 6 with blind).
  assert (forall x, blind (LookupWeak content x)) as H2 by (intros; unfold LookupWeak; auto 6 with blind).
  assert (forall x, blind (InsertStrong content x)) as H3 by (intros; unfold InsertStrong; auto 12 with blind).
  assert (forall x, blind (InsertWeak content x)) as H4 by (intros; unfold InsertWeak; auto 12 with blind).
  assert (forall x, blind (RemoveWeak content x)) as H5 by (intros; unfold RemoveWeak; auto 12 with blind).
  assert (forall x, blind (LookupStringFromImage content image x)) as H6.
  { intros. unfold LookupStringFromImage. apply blind_bind; [auto with blind|]. intros []; [auto with blind|]. destruct image; auto with blind. }
  unfold InternTable_Insert. destruct (s =? 0); [apply blind_ret|].
  apply blind_bind; [auto with blind|]. intros allow. destruct (negb allow); [apply blind_ret|].
  apply blind_bind; [done|]. intros strong. destruct (negb (strong =? 0)); [apply blind_ret|].
  apply blind_bind; [done|]. intros weak. destruct (negb (weak =? 0)); [destruct b; auto 6 with blind|].
  apply blind_bind; [done|]. intros image_string. destruct (negb (image_string =? 0)), b; auto 6 with blind.
Qed.

(** The state without the traces of a transaction. *)
Definition forget_world (w : World) : World :=
  mkWorld (heap w) (cards w) (forget (interns w)) (mkTransaction [] [] false []) (exception w) (is_aot_compiler w).

(** [m2] does outside a transaction what [m1] does inside. *)
Definition follows {A} (m1 m2 : M World A) : Prop :=
  forall w a w', m1 w = Ok (a, w') -> m2 (forget_world w) = Ok (a, forget_world w').

Lemma follows_bind {A B} (m1 m2 : M World A) (k1 k2 : A -> M World B) :
  follows m1 m2 -> (forall a, follows (k1 a) (k2 a)) -> follows (m1 ≫= k1) (m2 ≫= k2).
Proof. intros Hm Hk w b w' (a & w1 & H1 & H2)%bind_inv. rewrite (bind_ok _ _ _ _ _ (Hm _ _ _ H1)). by apply Hk. Qed.

Lemma follows_gets {A} (f : World -> A) : (forall w, f (forget_world w) = f w) -> follows (gets f) (gets f).
Proof. intros Hf w a w' [= <- <-]. unfold gets. by rewrite Hf. Qed.

Lemma follows_modify f : (forall w, f (forget_world w) = forget_world (f w)) -> follows (modify f) (modify f).
Proof. intros Hf w a w' [= <- <-]. unfold modify. by rewrite Hf. Qed.

Lemma follows_lift {A} (m : outcome A) : follows (lift m) (lift m).
Proof. intros w a w'. unfold lift. destruct m; [|done]. by intros [= <- <-]. Qed.

Lemma follows_ret {A} (a : A) : follows (mret a) (mret a).
Proof. by intros w a' w' [= <- <-]. Qed.

Lemma follows_when (b : bool) m : follows m m -> follows (whenM b m) (whenM b m).
Proof. destruct b; [done|]. intros _. apply follows_ret. Qed.

Lemma follows_object_at obj : follows (object_at obj) (object_at obj).
Proof.
  apply follows_bind; [by apply follows_gets|]. intros h. destruct (h !! obj); [apply follows_ret|apply follows_lift].
Qed.

Lemma follows_GetField k obj off : follows (GetField k obj off) (GetField k obj off).
Proof. repeat (apply follows_bind; [apply follows_object_at || apply follows_lift|intros ?]). apply follows_ret. Qed.

Lemma follows_SetField k obj off v : follows (SetField k obj off v) (SetField k obj off v).
Proof. repeat (apply follows_bind; [apply follows_object_at || apply follows_lift|intros ?]). by apply follows_modify. Qed.

Lemma GetField_reads k obj off w a w' : GetField k obj off w = Ok (a, w') -> w' = w.
Proof.
  intros (o & w1 & (h & w2 & [= <- <-] & H1)%bind_inv & (v & w3 & H2 & [= <- <-])%bind_inv)%bind_inv.
  assert (w1 = w) as -> by (destruct (heap w !! obj); [unfold mret, M_ret in H1; congruence|done]). unfold lift in H2. destruct (peek_bytes _ _ _); congruence.
Qed.

Lemma through_transaction_trace f w u w' : through_transaction f w = Ok (u, w') -> forget_world w' = forget_world w.
Proof. unfold through_transaction. rewrite bind_gets. destruct (IsActiveTransaction w); by intros [= <- <-]. Qed.

(** Recording leaves no other trace. *)
Lemma follows_record kr (record : Z -> M World unit) ks obj off v :
  (forall a w u w', record a w = Ok (u, w') -> forget_world w' = forget_world w) ->
  follows (whenM true (a ← GetField kr obj off; record a) ;; SetField ks obj off v)
    (whenM false (a ← GetField kr obj off; record a) ;; SetField ks obj off v).
Proof.
  intros Hrec w u w' (u1 & w1 & (a & w0 & ->%GetField_reads & H1)%bind_inv & H2)%bind_inv. cbn [whenM]. rewrite bind_ret.
  rewrite <- (Hrec _ _ _ _ H1). by apply follows_SetField.
Qed.

Lemma follows_write_field vol k obj off v : follows (write_field true vol k obj off v) (write_field false vol k obj off v).
Proof.
  destruct k; try (apply follows_record; intros ? ? ? ?; apply through_transaction_trace).
  apply follows_bind; [apply follows_record; intros ? ? ? ?; apply through_transaction_trace|]. intros _.
  apply follows_when. by apply follows_modify.
Qed.

Lemma follows_set_element t array i v : follows (PrimitiveArray_Set true t array i v) (PrimitiveArray_Set false t array i v).
Proof.
  apply follows_bind.
  - apply follows_bind; [apply follows_GetField|]. intros len. destruct (_ <=? _); [|apply follows_ret].
    apply follows_bind; [by apply follows_modify|]. intros _. apply follows_ret.
  - intros []; [|apply follows_ret]. apply follows_record. intros a w u w' (x & w1 & H1 & H2)%bind_inv.
    rewrite (through_transaction_trace _ _ _ _ H2). unfold lift in H1. destruct (element_to_uint64 _ _); [by injection H1 as <- <-|done].
Qed.

Definition not_abort (op : txn_op) : bool := match op with AbortTransaction _ => false | _ => true end.

Lemma follows_exec content image op : not_abort op = true -> follows (exec content true image op) (exec content false image op).
Proof.
  intros Hop. destruct op as [k vol obj off v|t array i v|obj bytes|s b|message]; cbn [exec]; [..|done].
  - apply follows_write_field.
  - apply follows_set_element.
  - by apply follows_modify.
  - apply follows_bind; [|intros; apply follows_ret]. intros w a w'. unfold on_interns. cbn [interns forget_world].
    assert (blind (if b then InternStrong content image s else InternWeak content image s)) as Hbl
      by (destruct b; apply InternTable_Insert_blind).
    set (m := if b then InternStrong content image s else InternWeak content image s) in *.
    destruct (m (interns w)) as [[r i']|f] eqn:E; [|done]. intros [= <- <-]. by rewrite (Hbl _ _ _ E).
Qed.

Lemma follows_exec_all content image ops :
  Forall (fun op => not_abort op = true) ops -> follows (forM ops (exec content true image)) (forM ops (exec content false image)).
Proof.
  induction 1 as [|op ops Hop Hops IH]; cbn [forM]; [apply follows_ret|]. apply follows_bind; [by apply follows_exec|]. by intros _.
Qed.

(** ** Results *)

(** C6. A class initializer that fails leaves no trace, as far as it stores to
    fields of every width and to elements of integral arrays, interns strings,
    creates objects and aborts the transaction: after [InitializeClass] has rolled
    the transaction back every byte of every object is what it was before the
    transaction or when the object was created, both tables hold the strings they
    held, and the check that the status of the class was restored passes.  This is
    not so of elements of [float] and [double] arrays ([float_element_lost]), of
    compare-and-exchanges ([failed_cas_rolls_back_wrong]) and of objects that a
    collection moves during the transaction ([log_references_not_moved]). *)
Theorem failed_initializer_undone (content : Z -> list Z) (component_type : Z -> option Primitive)
    (layout : Z -> list (Z * FieldValueKind)) (image : option (list ImageDexCache))
    (status_offset klass : Z) (b : list Z) (ops : list txn_op) (e : Exception) (w : World) :
  (forall s, forallb (fun ch => (0 <=? ch) && (ch <? 2 ^ 16)) (content s) = true) -> image_ok content image ->
  world_ok content component_type layout w -> ops_ok component_type layout (heap w) ops ->
  heap w !! klass = Some b -> within b status_offset 4 ->
  Z.of_nat (length (all_strings content (interns w))) + Z.of_nat (length ops) <= 2 ^ 46 ->
  exists w', initialize_static_fields content component_type status_offset klass (run_initializer content image true ops (Some e)) w = Ok (tt, w') /\
    heap w' = fold_left born ops (heap w) /\ exception w' = None /\ IsActiveTransaction w' = false /\ intern_ok content (interns w') /\
    strong_strings content (interns w') ≡ₚ strong_strings content (interns w) /\
    weak_strings content (interns w') ≡ₚ weak_strings content (interns w).
Proof. intros. by eapply failed_initializer_ok. Qed.

(** C35. A class initializer that succeeds in a transaction leaves the heap,
    the cards, the interned strings and the pending exception exactly as
    running it without a transaction does: recording changes nothing else.  The
    initializer is a sequence of stores to fields and to elements of integral
    arrays, internings and allocations. *)
Theorem successful_initializer_commits (content : Z -> list Z) (component_type : Z -> option Primitive)
    (layout : Z -> list (Z * FieldValueKind)) (image : option (list ImageDexCache))
    (status_offset klass : Z) (b : list Z) (ops : list txn_op) (w : World) :
  (forall s, forallb (fun ch => (0 <=? ch) && (ch <? 2 ^ 16)) (content s) = true) -> image_ok content image ->
  world_ok content component_type layout w -> ops_ok component_type layout (heap w) ops ->
  Forall (fun op => not_abort op = true) ops ->
  heap w !! klass = Some b -> within b status_offset 4 ->
  Z.of_nat (length (all_strings content (interns w))) + Z.of_nat (length ops) <= 2 ^ 46 ->
  exists w', initialize_static_fields content component_type status_offset klass (run_initializer content image true ops None) w = Ok (tt, w') /\
    forM ops (exec content false image) (forget_world w) = Ok (tt, forget_world w') /\ IsActiveTransaction w' = false.
Proof.
  intros Hc Him Hw Hops Hna Hk Hin Hb. rewrite initialize_entered by apply Hw.
  pose proof (entered_ok _ _ _ w Hw) as Hit.
  unfold GetStatus. rewrite (bind_ok _ _ _ _ _ (GetField_ok kInt32 (entered w) klass b status_offset Hk Hin)).
  assert (length (all_strings content (interns (entered w))) = length (all_strings content (interns w))) as Hn by done.
  destruct (exec_all_ok content component_type layout Hc image Him _ _ ops (heap w) (entered w) Hit Hops ltac:(lia)) as (w1 & Hrun & _).
  unfold run_initializer. rewrite bind_assoc, (bind_ok _ _ _ _ _ Hrun), bind_ret.
  eexists. split; [reflexivity|]. split; [|done]. apply (follows_exec_all content image ops Hna _ _ _ Hrun).
Qed.

(** *** Moving objects *)

Lemma map_erase_perm {V} k (v : V) l : map_find k l = Some v -> l ≡ₚ (k, v) :: map_erase k l.
Proof.
  induction l as [|[j u] l IH]; cbn; [done|]. destruct (Z.eqb_spec k j) as [->|]; [by intros [= ->]|].
  intros Hf. rewrite (IH Hf) at 1. apply Permutation_swap.
Qed.

Lemma move_logs_values {V} moves (logs logs' : list (Z * V)) :
  move_logs moves logs = Ok logs' -> map snd logs' ≡ₚ map snd logs.
Proof.
  revert logs. induction moves as [|[old_root new_root] moves IH]; intros logs; cbn [move_logs]; [by intros [= ->]|].
  destruct (map_find old_root logs) as [log|] eqn:Eold; [|done]. case_bool_decide as Enew; [|done]. cbn. intros Hrun.
  rewrite (IH _ Hrun). apply (Permutation_cons_inv (a := log)).
  assert (map_find old_root (map_store new_root log logs) = Some log) as Hf.
  { rewrite map_find_store. destruct (Z.eqb_spec old_root new_root) as [->|]; [congruence|done]. }
  change (map snd ((old_root, log) :: map_erase old_root (map_store new_root log logs)) ≡ₚ map snd ((new_root, log) :: logs)).
  by rewrite <- (map_erase_perm _ _ _ Hf), (map_store_new _ _ _ Enew).
Qed.

(** A collection during a transaction reports every reference that the
    logs hold, so that the objects stay alive, but never updates one: the loops
    of [VisitObjectLogs] and [ObjectLog::VisitRoots] visit copies, and the logs
    keep the old addresses of objects that moved. *)
Theorem log_references_not_moved (visitor : Z -> Z) (w w' : World) (roots : list Z) :
  VisitObjectLogs visitor w = Ok (roots, w') ->
  map snd (object_logs_ (transaction w')) ≡ₚ map snd (object_logs_ (transaction w)) /\
  (forall obj log off fv, (obj, log) ∈ object_logs_ (transaction w) -> (off, fv) ∈ log -> fv_kind fv = kReference ->
    fv_value fv <> 0 -> fv_value fv ∈ roots).
Proof.
  intros (t & w1 & [= <- <-] & (logs & w2 & Hlogs & Hrest)%bind_inv)%bind_inv. rewrite bind_modify in Hrest. injection Hrest as <- <-.
  unfold lift in Hlogs. destruct (move_logs _ _) as [logs'|] eqn:Emove; [|done]. injection Hlogs as <- <-. split.
  - by apply move_logs_values in Emove.
  - intros obj log off fv Hlog Hfv Hkind Hne. apply list_elem_of_In, in_concat. exists (ObjectLog_VisitRoots log ++ [obj]).
    split; [apply in_map_iff; exists (obj, log); split; [done|by apply list_elem_of_In]|]. apply in_or_app. left. apply list_elem_of_In.
    apply list_elem_of_omap. exists (off, fv). split; [done|]. cbn. by rewrite Hkind, (proj2 (Z.eqb_neq _ _) Hne).
Qed.

(** A compare-and-swap that fails in a transaction changes nothing, but it
    has recorded the value it expected as the old value of the field: rolling
    back writes that value into the field. *)
Theorem failed_cas_rolls_back_wrong (content : Z -> list Z) (component_type : Z -> option Primitive)
    (layout : Z -> list (Z * FieldValueKind)) (w : World) (obj off old_value new_value : Z) (o : list Z) :
  world_ok content component_type layout w -> exception w = None -> heap w !! obj = Some o -> (off, k32Bits) ∈ layout obj ->
  s32 (le_value (slice o (Z.to_nat off) 4)) <> s32 old_value ->
  exists w1 w2, CasFieldStrongSequentiallyConsistent32 true obj off old_value new_value (entered w) = Ok (false, w1) /\
    heap w1 = heap w /\
    (ExitTransactionMode ;; Rollback content component_type) w1 = Ok (tt, w2) /\
    heap w2 = <[obj := splice o (Z.to_nat off) (le_bytes 4 old_value)]> (heap w).
Proof.
  intros Hw He Ho Hk Hne. destruct (ob_fields _ _ _ _ (wo_objects _ _ _ _ Hw _ _ Ho) _ _ Hk) as (H8 & Hin & _ & H12).
  pose proof (ob_header _ _ _ _ (wo_objects _ _ _ _ Hw _ _ Ho)) as Hh.
  set (fv := mkFieldValue (u64 (u32 old_value)) k32Bits true).
  set (w1 := set_transaction (entered w) (mkTransaction [(obj, [(off, fv)])] [] false [])).
  assert (RecordWriteField32 obj off old_value true (entered w) = Ok (tt, w1)) as Hrec by done.
  exists w1. unfold CasFieldStrongSequentiallyConsistent32, CompareExchange. cbn [whenM].
  rewrite (bind_ok _ _ _ _ _ Hrec), (bind_ok _ _ _ _ _ (GetField_ok kInt32 w1 obj o off Ho Hin)). cbn [cast size_of].
  rewrite (proj2 (Z.eqb_neq _ _) Hne). cbn [andb].
  set (w1' := set_interns w1 (set_active (interns w1) false)).
  destruct (ObjectLog_Undo_ok component_type [(off, fv)] w1' obj o Ho Hh) as (w2 & Hrun & [[Hi Hx _] Ht Hheap]); [by apply Forall_singleton|].
  cbn [map restore fold_left field_cell fst snd fv_kind fv_value fv undone_value] in Hheap.
  assert (le_bytes (size_of kInt32) (u32 (u64 (u32 old_value))) = le_bytes 4 old_value) as Hbytes
    by (apply le_bytes_mod; unfold u32, u64; change (8 * Z.of_nat (size_of kInt32)) with 32; mlia).
  eexists. split; [done|]. split; [done|]. unfold ExitTransactionMode. rewrite bind_modify. fold w1'. unfold Rollback. rewrite bind_gets. change (negb (IsActiveTransaction w1')) with true.
  rewrite bind_check, bind_gets. change (exception w1') with (exception w). rewrite He, bind_ret.
  unfold UndoObjectModifications. rewrite bind_assoc, bind_gets, bind_assoc. change (object_logs_ (transaction w1')) with [(obj, [(off, fv)])].
  cbn [forM]. rewrite bind_assoc. cbn [fst snd]. rewrite (bind_ok _ _ _ _ _ Hrun), bind_ret, bind_modify.
  unfold UndoArrayModifications. rewrite bind_assoc, bind_gets. cbn [transaction set_transaction with_object_logs array_logs_]. rewrite Ht.
  change (array_logs_ (transaction w1')) with (@nil (Z * list (Z * Z))). cbn [forM]. rewrite bind_assoc, bind_ret, bind_modify.
  unfold on_interns, UndoInternStringTableModifications. cbn [interns set_transaction]. rewrite Hi. split; [reflexivity|].
  cbn [heap set_interns set_transaction]. rewrite Hheap. by rewrite <- Hbytes.
Qed.

(** An element of a [float] array between 0 and 1 is recorded as 0. *)
Lemma float_element_lost bits : 0 <= bits < 0x3f800000 -> element_to_uint64 PrimFloat bits = Ok 0.
Proof.
  intros Hb. unfold element_to_uint64, float_to_uint64. rewrite u32_small by lia. set (e := (bits / 2 ^ 23) mod 2 ^ 8).
  assert (0 <= e < 127) as He by (subst e; mlia). rewrite (proj2 (Z.eqb_neq e (2 ^ 8 - 1))) by lia.
  assert (Z.testbit bits (23 + 8) = false) as -> by (apply Z.testbit_false; [lia|]; rewrite Z.div_small by lia; done).
  set (m := if e =? 0 then bits mod 2 ^ 23 else bits mod 2 ^ 23 + 2 ^ 23).
  assert (0 <= m < 2 ^ 24) as Hm by (pose proof (Z.mod_pos_bound bits (2 ^ 23)); subst m; destruct (e =? 0); lia).
  rewrite Z.shiftl_div_pow2 by lia. rewrite Z.div_small; [done|]. split; [lia|].
  apply Z.lt_le_trans with (2 ^ 24); [lia|]. apply Z.pow_le_mono_r; lia.
Qed.

(** ** Examples

    A class at 16 with a [boolean], a [short], its status, a [long] and a
    reference, and an array of two [int]s at 32. *)

Definition example_layout (obj : Z) : list (Z * FieldValueKind) :=
  if obj =? 16 then [(8, kBoolean); (10, kShort); (12, k32Bits); (16, k64Bits); (24, kReference)] else [].

Definition example_component (klass : Z) : option Primitive := if klass =? 7 then Some PrimInt else None.

Definition example_class : list Z :=
  [1; 0; 0; 0; 0; 0; 0; 0; 1; 0; 255; 255; 3; 0; 0; 0; 1; 2; 3; 4; 5; 6; 7; 8; 0; 0; 0; 0].

Definition example_array : list Z := [7; 0; 0; 0; 0; 0; 0; 0; 2; 0; 0; 0; 5; 0; 0; 0; 6; 0; 0; 0].

Definition example_object : list Z := [9; 0; 0; 0; 0; 0; 0; 0].

Definition example_world : World :=
  mkWorld {[16 := example_class; 32 := example_array]} ∅ (InternTable_new example_content) (mkTransaction [] [] false []) None true.

Definition example_ops : list txn_op :=
  [WriteField kBoolean false 16 8 0; WriteField kShort true 16 10 7; WriteField k32Bits true 16 12 9;
   WriteField k64Bits false 16 16 (-1); AllocateObject 64 example_object; WriteField kReference false 16 24 64;
   WriteElement PrimInt 32 1 99; WriteElement PrimInt 32 2 99; InternString 3 true; WriteField k32Bits true 16 12 10].

Ltac each_field H := repeat (apply elem_of_cons in H as [H|H]; [injection H as -> ->|]); [..|by apply elem_of_nil in H].

Lemma example_class_ok : object_ok example_component example_layout 16 example_class.
Proof.
  constructor.
  - repeat constructor; done.
  - cbn. lia.
  - intros off k Hk. cbn in Hk. each_field Hk; (split_and!; [lia|split; vm_compute; discriminate|intros; vm_compute; discriminate|by intros [? [=]]]).
  - intros off1 k1 off2 k2 H1 H2. cbn in H1, H2. each_field H1; each_field H2; first [left; done | right; left; vm_compute; discriminate | right; right; vm_compute; discriminate].
  - by intros t [=].
Qed.

Lemma example_array_ok : object_ok example_component example_layout 32 example_array.
Proof.
  constructor.
  - repeat constructor; done.
  - cbn. lia.
  - intros off k Hk. by apply elem_of_nil in Hk.
  - intros off1 k1 off2 k2 H1. by apply elem_of_nil in H1.
  - intros t [= <-] _. split_and!; [done|cbn; lia|by vm_compute|by vm_compute].
Qed.

Lemma example_world_ok : world_ok example_content example_component example_layout example_world.
Proof.
  constructor; [done| |apply InternTable_new_ok|done].
  intros obj b Hb. cbn [heap example_world] in Hb. rewrite lookup_insert_Some, lookup_singleton_Some in Hb.
  destruct Hb as [[<- <-]|[_ [<- <-]]]; [apply example_class_ok|apply example_array_ok].
Qed.

Lemma example_ops_ok : ops_ok example_component example_layout (heap example_world) example_ops.
Proof.
  assert (object_ok example_component example_layout 64 example_object) as Hob.
  { constructor; [repeat constructor; done|cbn; lia|intros off k Hk; by apply elem_of_nil in Hk|intros off1 k1 off2 k2 H1; by apply elem_of_nil in H1|by intros t [=]]. }
  cbn [ops_ok example_ops born op_ok].
  split_and!; try done; try (by eexists); try (by rewrite list_elem_of_In; cbn; auto 10);
    eexists; (split; [vm_compute; reflexivity|]); split_and!; try done; lia.
Qed.

Lemma example_content_ok s : forallb (fun ch => (0 <=? ch) && (ch <? 2 ^ 16)) (example_content s) = true.
Proof. unfold example_content. repeat case_match; reflexivity. Qed.

Lemma failed_initializer_undone_witness :
  exists w', initialize_static_fields example_content example_component 12 16
      (run_initializer example_content None true example_ops (Some (TransactionAbortError [97]))) example_world = Ok (tt, w') /\
    heap w' = {[64 := example_object; 16 := example_class; 32 := example_array]} /\
    strong_strings example_content (interns w') ≡ₚ [].
Proof.
  destruct (failed_initializer_undone example_content example_component example_layout None 12 16 example_class example_ops
    (TransactionAbortError [97]) example_world example_content_ok) as (w' & Hrun & Hh & _ & _ & _ & Hs & _).
  - constructor; discriminate.
  - exact example_world_ok.
  - exact example_ops_ok.
  - reflexivity.
  - split; vm_compute; discriminate.
  - vm_compute. discriminate.
  - exists w'. split; [exact Hrun|]. split; [exact Hh|]. rewrite Hs. vm_compute. reflexivity.
Defined.

Lemma successful_initializer_commits_witness :
  exists w', initialize_static_fields example_content example_component 12 16
      (run_initializer example_content None true example_ops None) example_world = Ok (tt, w') /\
    forM example_ops (exec example_content false None) (forget_world example_world) = Ok (tt, forget_world w').
Proof.
  destruct (successful_initializer_commits example_content example_component example_layout None 12 16 example_class example_ops
    example_world example_content_ok) as (w' & Hrun & Hplain & _).
  - constructor; discriminate.
  - exact example_world_ok.
  - exact example_ops_ok.
  - repeat constructor.
  - reflexivity.
  - split; vm_compute; discriminate.
  - vm_compute. discriminate.
  - exists w'. split; [exact Hrun|exact Hplain].
Defined.

(** The object at 64 moves to 128 while the log of the class holds 64. *)
Definition moving_world : World :=
  set_transaction example_world (mkTransaction [(16, [(24, mkFieldValue 64 kReference true)])] [] false []).

Definition example_visitor (x : Z) : Z := if x =? 64 then 128 else x.

Lemma log_references_not_moved_witness :
  exists w', VisitObjectLogs example_visitor moving_world = Ok ([64; 16], w') /\
    map snd (object_logs_ (transaction w')) ≡ₚ [[(24, mkFieldValue 64 kReference true)]].
Proof.
  assert (VisitObjectLogs example_visitor moving_world = Ok ([64; 16], moving_world)) as Hrun by reflexivity.
  exists moving_world. split; [exact Hrun|]. exact (proj1 (log_references_not_moved _ _ _ _ Hrun)).
Defined.

Lemma failed_cas_rolls_back_wrong_witness :
  exists w1 w2, CasFieldStrongSequentiallyConsistent32 true 16 12 5 6 (entered example_world) = Ok (false, w1) /\
    heap w1 = heap example_world /\
    (ExitTransactionMode ;; Rollback example_content example_component) w1 = Ok (tt, w2) /\
    heap w2 = <[16 := splice example_class 12 [5; 0; 0; 0]]> (heap example_world).
Proof.
  apply (failed_cas_rolls_back_wrong example_content example_component example_layout example_world 16 12 5 6 example_class).
  - exact example_world_ok.
  - reflexivity.
  - reflexivity.
  - right. right. left.
  - vm_compute. discriminate.
Defined.
