(* ===== verification/IndirectReferences.v ===== *)
(** * [indirect_reference_table.{h,cc}] and [-inl.h]: references for native code

    Native code holds objects through indirect references: a kind in the two
    low bits, an index into a table, and a serial number that tells the
    occupants of a slot apart.  The table of local references is a stack of
    segments: a native method, or [PushLocalFrame], begins a new segment, and
    leaving it drops the segment's references at once.  References can be
    deleted one by one, which leaves holes that later additions to the same
    segment fill.  [JNIEnvExt] ([jni_env_ext.cc]) keeps the cookie of the
    current segment, [quick_jni_entrypoints.cc] those of the native methods on
    the stack.

    The model is that of a release build ([kIRTPrevCount] is 3).  Whether the
    runtime checks JNI calls, and which references are in the handle scopes of
    the thread, are given.

    The theorems show that the table implements a stack of maps from references
    to objects, that a reference that is not live never gives an object, and
    that the table aborts when its end is reached although it has holes. *)

From S2P Require Import Prelude.

(** ** Entries *)

Definition kIRTPrevCount : Z := 3.

Record IrtEntry := mkIrtEntry { serial_ : Z; references_ : list Z }.

Definition IrtEntry_Add (e : IrtEntry) (obj : Z) : outcome IrtEntry :=
  let serial := u32 (serial_ e + 1) in
  let serial := if serial =? kIRTPrevCount then 0 else serial in
  references ← poke (references_ e) serial obj;
  mret (mkIrtEntry serial references).

Definition GetReference (e : IrtEntry) : outcome Z := peek (references_ e) (serial_ e).

Definition SetReference (e : IrtEntry) (obj : Z) : outcome IrtEntry :=
  references ← poke (references_ e) (serial_ e) obj;
  mret (mkIrtEntry (serial_ e) references).

(** ** The table *)

Definition kHandleScopeOrInvalid : Z := 0.
Definition kLocal : Z := 1.
Definition kGlobal : Z := 2.
Definition kWeakGlobal : Z := 3.

Definition GetIndirectRefKind (iref : Z) : Z := Z.land iref 3.

(** The union of a 32-bit word and its two halves. *)
Record IRTSegmentState := mkSegmentState { topIndex : Z; numHoles : Z }.

Definition all_of (s : IRTSegmentState) : Z := topIndex s + numHoles s * 2 ^ 16.
Definition parts_of (all : Z) : IRTSegmentState := mkSegmentState (u16 all) (u16 (all / 2 ^ 16)).

Definition IRT_FIRST_SEGMENT : Z := 0.

Record IndirectReferenceTable := mkIRT {
  segment_state_ : IRTSegmentState;
  table_ : list IrtEntry;
  kind_ : Z;
  max_entries_ : Z;
}.

Definition with_state (t : IndirectReferenceTable) (s : IRTSegmentState) : IndirectReferenceTable :=
  mkIRT s (table_ t) (kind_ t) (max_entries_ t).

Definition with_table (t : IndirectReferenceTable) (entries : list IrtEntry) : IndirectReferenceTable :=
  mkIRT (segment_state_ t) entries (kind_ t) (max_entries_ t).

(** Stores to the 16-bit fields. *)
Definition store_topIndex (v : Z) (t : IndirectReferenceTable) : IndirectReferenceTable :=
  with_state t (mkSegmentState (u16 v) (numHoles (segment_state_ t))).

Definition store_numHoles (v : Z) (t : IndirectReferenceTable) : IndirectReferenceTable :=
  with_state t (mkSegmentState (topIndex (segment_state_ t)) (u16 v)).

(** The memory of the table comes zeroed from [mmap]; [mapped] is whether that
    succeeded.  [None]: the table is left invalid. *)
Definition IndirectReferenceTable_new (mapped : bool) (initialCount maxCount desiredKind : Z) (abort_on_error : bool)
  : outcome (option IndirectReferenceTable) :=
  check (0 <? initialCount) ;;
  check (initialCount <=? maxCount) ;;
  check (negb (desiredKind =? kHandleScopeOrInvalid)) ;;
  if abort_on_error then
    check mapped ;;
    mret (Some (mkIRT (parts_of IRT_FIRST_SEGMENT) (replicate (Z.to_nat maxCount) (mkIrtEntry 0 [0; 0; 0])) desiredKind maxCount))
  else if negb mapped then mret None
  else mret (Some (mkIRT (parts_of IRT_FIRST_SEGMENT) (replicate (Z.to_nat maxCount) (mkIrtEntry 0 [0; 0; 0])) desiredKind maxCount)).

Definition Capacity (t : IndirectReferenceTable) : Z := topIndex (segment_state_ t).

Definition GetSegmentState (t : IndirectReferenceTable) : Z := all_of (segment_state_ t).

Definition SetSegmentState (new_state : Z) (t : IndirectReferenceTable) : IndirectReferenceTable :=
  with_state t (parts_of new_state).

Definition ExtractIndex (iref : Z) : Z := Z.land (Z.shiftr iref 2) 65535.

Definition entry_at (table : list IrtEntry) (i : Z) : outcome IrtEntry :=
  if 0 <=? i then match table !! Z.to_nat i with Some e => Ok e | None => Fault OutOfBounds end else Fault OutOfBounds.

(** [table_[i].GetReference()], read. *)
Definition reference_at (table : list IrtEntry) (i : Z) : outcome Z :=
  e ← entry_at table i; GetReference e.

Definition ToIndirectRef (t : IndirectReferenceTable) (tableIndex : Z) : outcome Z :=
  e ← entry_at (table_ t) tableIndex;
  mret (Z.lor (Z.lor (u32 (Z.shiftl (serial_ e) 20)) (Z.shiftl tableIndex 2)) (kind_ t)).

(** A change of one entry. *)
Definition update_entry (i : Z) (f : IrtEntry -> outcome IrtEntry) : M IndirectReferenceTable unit :=
  table ← gets table_;
  e ← lift (entry_at table i);
  e ← lift (f e);
  modify (fun t => with_table t (<[Z.to_nat i := e]> table)).

(** The search for the hole nearest to the end. *)
Fixpoint scan_hole (fuel : nat) (table : list IrtEntry) (pScan : Z) : outcome Z :=
  match fuel with
  | O => Fault OutOfFuel
  | S fuel =>
      r ← reference_at table pScan;
      if r =? 0 then mret pScan else scan_hole fuel table (pScan - 1)
  end.

Definition IRT_Add (cookie obj : Z) : M IndirectReferenceTable Z :=
  let prevState := parts_of cookie in
  t ← gets (fun t => t);
  let top := topIndex (segment_state_ t) in
  checkM (negb (obj =? 0)) ;;
  if top =? max_entries_ t then lift (Fault FatalLog)
  else
    let holes := numHoles (segment_state_ t) - numHoles prevState in
    index ←
      (if 0 <? holes then
         index ← lift (scan_hole (Z.to_nat top) (table_ t) (top - 2));
         modify (store_numHoles (numHoles (segment_state_ t) - 1)) ;;
         mret index
       else modify (store_topIndex (top + 1)) ;; mret top);
    update_entry index (fun e => IrtEntry_Add e obj) ;;
    t ← gets (fun t => t);
    lift (ToIndirectRef t index).

(** [for (auto ref : *this)] or [for (i < Capacity())]: the current references. *)
Definition current_references (t : IndirectReferenceTable) : list IrtEntry := take (Z.to_nat (Capacity t)) (table_ t).

Fixpoint all_null (entries : list IrtEntry) : outcome bool :=
  match entries with
  | [] => mret true
  | e :: entries => r ← GetReference e; if negb (r =? 0) then mret false else all_null entries
  end.

Definition AssertEmpty (t : IndirectReferenceTable) : outcome unit :=
  b ← all_null (current_references t);
  if (b : bool) then mret tt else Fault FatalLog.

Section Checks.
Context (check_jni : bool) (HandleScopeContains : Z -> bool).

Definition AbortIfNoCheckJNI : outcome unit := if negb check_jni then Fault FatalLog else mret tt.

Definition CheckEntry (t : IndirectReferenceTable) (iref idx : Z) : outcome bool :=
  checkRef ← ToIndirectRef t idx;
  if negb (checkRef =? iref) then AbortIfNoCheckJNI ;; mret false else mret true.

Definition GetChecked (t : IndirectReferenceTable) (iref : Z) : outcome bool :=
  if iref =? 0 then mret false
  else if GetIndirectRefKind iref =? kHandleScopeOrInvalid then AbortIfNoCheckJNI ;; mret false
  else
    let idx := ExtractIndex iref in
    if topIndex (segment_state_ t) <=? idx then AbortIfNoCheckJNI ;; mret false
    else
      r ← reference_at (table_ t) idx;
      if r =? 0 then AbortIfNoCheckJNI ;; mret false
      else CheckEntry t iref idx.

Definition IRT_Get (t : IndirectReferenceTable) (iref : Z) : outcome Z :=
  ok ← GetChecked t iref;
  if negb ok then mret 0 else reference_at (table_ t) (ExtractIndex iref).

Definition IRT_Update (iref obj : Z) : M IndirectReferenceTable unit :=
  t ← gets (fun t => t);
  ok ← lift (GetChecked t iref);
  whenM ok (update_entry (ExtractIndex iref) (fun e => SetReference e obj)).

(** The loop that drops the holes below the topmost entry: the new top index
    and number of holes. *)
Fixpoint consume_holes (fuel : nat) (table : list IrtEntry) (top bottom holes : Z) : outcome (Z * Z) :=
  match fuel with
  | O => Fault OutOfFuel
  | S fuel =>
      let top := top - 1 in
      if (bottom <? top) && negb (holes =? 0) then
        r ← reference_at table (top - 1);
        if negb (r =? 0) then mret (top, holes) else consume_holes fuel table top bottom (holes - 1)
      else mret (top, holes)
  end.

Definition IRT_Remove (cookie iref : Z) : M IndirectReferenceTable bool :=
  let prevState := parts_of cookie in
  t ← gets (fun t => t);
  let top := topIndex (segment_state_ t) in
  let bottom := topIndex prevState in
  if (GetIndirectRefKind iref =? kHandleScopeOrInvalid) && HandleScopeContains iref then mret true
  else
    let idx := ExtractIndex iref in
    if idx <? bottom then mret false
    else if top <=? idx then mret false
    else if idx =? top - 1 then
      ok ← lift (CheckEntry t iref idx);
      if negb ok then mret false
      else
        update_entry idx (fun e => SetReference e 0) ;;
        let holes := numHoles (segment_state_ t) - numHoles prevState in
        (if negb (holes =? 0) then
           table ← gets table_;
           r ← lift (consume_holes (S (Z.to_nat top)) table top bottom holes);
           modify (store_numHoles (r.2 + numHoles prevState)) ;;
           modify (store_topIndex r.1)
         else modify (store_topIndex (top - 1))) ;;
        mret true
    else
      r ← lift (reference_at (table_ t) idx);
      if r =? 0 then mret false
      else
        ok ← lift (CheckEntry t iref idx);
        if negb ok then mret false
        else
          update_entry idx (fun e => SetReference e 0) ;;
          modify (store_numHoles (numHoles (segment_state_ t) + 1)) ;;
          mret true.

(** [Trim]: the pages that lie wholly above the used entries are given back, so
    that their entries are zero again; an entry has 16 bytes. *)
Definition Trim (t : IndirectReferenceTable) : IndirectReferenceTable :=
  let release_start := Z.to_nat ((Capacity t * 16 + 4095) / 4096 * 256) in
  with_table t (take release_start (table_ t) ++ map (fun _ => mkIrtEntry 0 [0; 0; 0]) (drop release_start (table_ t))).

(** [VisitRoots]: the visitor may move every object. *)
Fixpoint visit_entries (visitor : Z -> Z) (entries : list IrtEntry) : outcome (list IrtEntry) :=
  match entries with
  | [] => mret []
  | e :: entries =>
      r ← GetReference e;
      e ← (if negb (r =? 0) then SetReference e (visitor r) else mret e);
      entries ← visit_entries visitor entries;
      mret (e :: entries)
  end.

Definition IRT_VisitRoots (visitor : Z -> Z) (t : IndirectReferenceTable) : outcome IndirectReferenceTable :=
  entries ← visit_entries visitor (current_references t);
  mret (with_table t (entries ++ drop (Z.to_nat (Capacity t)) (table_ t))).

(** ** [JNIEnvExt] *)

Record JNIEnvExt := mkJNIEnvExt {
  local_ref_cookie : Z;
  locals : IndirectReferenceTable;
  stacked_local_ref_cookies : list Z;
}.

Definition on_locals {A} (m : M IndirectReferenceTable A) : M JNIEnvExt A := fun env =>
  match m (locals env) with
  | Ok (a, t) => Ok (a, mkJNIEnvExt (local_ref_cookie env) t (stacked_local_ref_cookies env))
  | Fault f => Fault f
  end.

Definition kLocalsInitial : Z := 64.
Definition kLocalsMax : Z := 512.

(** [JNIEnvExt::Create]; [None] when the table could not be mapped. *)
Definition JNIEnvExt_Create (mapped : bool) : outcome (option JNIEnvExt) :=
  t ← IndirectReferenceTable_new mapped kLocalsInitial kLocalsMax kLocal false;
  mret (option_map (fun t => mkJNIEnvExt IRT_FIRST_SEGMENT t []) t).

Definition NewLocalRef (obj : Z) : M JNIEnvExt Z :=
  if obj =? 0 then mret 0
  else cookie ← gets local_ref_cookie; on_locals (IRT_Add cookie obj).

Definition DeleteLocalRef (obj : Z) : M JNIEnvExt unit :=
  whenM (negb (obj =? 0))
    (cookie ← gets local_ref_cookie; _ ← on_locals (IRT_Remove cookie obj); mret tt).

(** The back of the vector is the head of the list. *)
Definition PushFrame : M JNIEnvExt unit :=
  modify (fun env => mkJNIEnvExt (GetSegmentState (locals env)) (locals env)
                       (local_ref_cookie env :: stacked_local_ref_cookies env)).

Definition PopFrame : M JNIEnvExt unit :=
  env ← gets (fun env => env);
  match stacked_local_ref_cookies env with
  | [] => lift (Fault OutOfBounds)
  | cookie :: cookies => modify (fun env => mkJNIEnvExt cookie (SetSegmentState (local_ref_cookie env) (locals env)) cookies)
  end.

(** [Thread::DecodeJObject] for local references. *)
Definition DecodeJObject (obj : Z) : M JNIEnvExt Z :=
  if obj =? 0 then mret 0
  else
    t ← gets locals;
    result ← lift (IRT_Get t obj);
    if result =? 0 then lift (Fault FatalLog) else mret result.

Definition JNI_OK : Z := 0.
Definition JNI_ERR : Z := -1.

(** [EnsureLocalCapacityInternal]. *)
Definition EnsureLocalCapacityInternal (desired_capacity : Z) : M JNIEnvExt Z :=
  t ← gets locals;
  if (desired_capacity <? 0) || (kLocalsMax <? desired_capacity) then mret JNI_ERR
  else mret (if desired_capacity <=? s32 (kLocalsMax - Capacity t) then JNI_OK else JNI_ERR).

Definition PushLocalFrame (capacity : Z) : M JNIEnvExt Z :=
  r ← EnsureLocalCapacityInternal capacity;
  if negb (r =? JNI_OK) then mret JNI_ERR else PushFrame ;; mret JNI_OK.

Definition PopLocalFrame (java_survivor : Z) : M JNIEnvExt Z :=
  survivor ← DecodeJObject java_survivor;
  PopFrame ;;
  NewLocalRef survivor.

(** ** [quick_jni_entrypoints.cc] *)

(** The local references of [JniMethodStart]; the result goes to the stub. *)
Definition JniMethodStart : M JNIEnvExt Z :=
  saved_local_ref_cookie ← gets local_ref_cookie;
  modify (fun env => mkJNIEnvExt (GetSegmentState (locals env)) (locals env) (stacked_local_ref_cookies env)) ;;
  mret saved_local_ref_cookie.

Definition PopLocalReferences (saved_local_ref_cookie : Z) : M JNIEnvExt unit :=
  modify (fun env => mkJNIEnvExt saved_local_ref_cookie (SetSegmentState (local_ref_cookie env) (locals env))
                       (stacked_local_ref_cookies env)).

Definition JniMethodEnd (saved_local_ref_cookie : Z) : M JNIEnvExt unit := PopLocalReferences saved_local_ref_cookie.

(** [JniMethodEndWithReference]: the result is decoded before its frame is
    dropped. *)
Definition JniMethodEndWithReference (exception_pending : bool) (result saved_local_ref_cookie : Z) : M JNIEnvExt Z :=
  o ← (if exception_pending then mret 0 else DecodeJObject result);
  PopLocalReferences saved_local_ref_cookie ;;
  mret o.

End Checks.

(** ** Entries and references *)

Definition ref_of (e : IrtEntry) : Z := default 0 (references_ e !! Z.to_nat (serial_ e)).

Record entry_ok (e : IrtEntry) : Prop := {
  eo_serial : 0 <= serial_ e < kIRTPrevCount;
  eo_length : length (references_ e) = 3%nat;
}.

Definition iref_of (kind : Z) (i : nat) (e : IrtEntry) : Z := serial_ e * 2 ^ 20 + Z.of_nat i * 4 + kind.

Lemma GetReference_ok e : entry_ok e -> GetReference e = Ok (ref_of e).
Proof.
  intros [Hs Hl]. unfold GetReference, ref_of, kIRTPrevCount in *. destruct (lookup_lt_is_Some_2 (references_ e) (Z.to_nat (serial_ e)) ltac:(lia)) as [r Hr].
  rewrite Hr. apply peek_ok; [lia|done].
Qed.

Lemma IrtEntry_Add_ok e obj : entry_ok e ->
  exists e', IrtEntry_Add e obj = Ok e' /\ entry_ok e' /\ ref_of e' = obj /\ serial_ e' = (serial_ e + 1) mod 3.
Proof.
  intros [Hs Hl]. unfold IrtEntry_Add, kIRTPrevCount in *. rewrite u32_small by lia.
  assert ((if serial_ e + 1 =? 3 then 0 else serial_ e + 1) = (serial_ e + 1) mod 3) as -> by (destruct (Z.eqb_spec (serial_ e + 1) 3) as [->|]; [done|rewrite Z.mod_small; lia]).
  pose proof (Z.mod_pos_bound (serial_ e + 1) 3 ltac:(lia)) as Hr. rewrite poke_ok by lia. cbn [mbind outcome_bind].
  eexists. split; [reflexivity|]. split_and!; [constructor; cbn [references_ serial_]; [unfold kIRTPrevCount; lia|by rewrite length_insert]| |done].
  unfold ref_of. cbn [references_ serial_]. rewrite list_lookup_insert_eq by lia. done.
Qed.

Lemma SetReference_ok e obj : entry_ok e ->
  exists e', SetReference e obj = Ok e' /\ entry_ok e' /\ ref_of e' = obj /\ serial_ e' = serial_ e.
Proof.
  intros [Hs Hl]. unfold SetReference, kIRTPrevCount in *. rewrite poke_ok by lia. cbn [mbind outcome_bind].
  eexists. split; [reflexivity|]. split_and!; [constructor; cbn; [done|by rewrite length_insert]| |done].
  unfold ref_of. cbn [references_ serial_]. rewrite list_lookup_insert_eq by lia. done.
Qed.

(** The parts of a reference do not overlap. *)
Lemma iref_parts serial i kind :
  0 <= serial < 3 -> 0 <= i < 2 ^ 16 -> 0 <= kind < 4 ->
  Z.lor (Z.lor (u32 (Z.shiftl serial 20)) (Z.shiftl i 2)) kind = serial * 2 ^ 20 + i * 4 + kind.
Proof.
  intros Hs Hi Hk. rewrite !Z.shiftl_mul_pow2 by lia. rewrite u32_small by lia.
  rewrite (Z.lor_comm (serial * 2 ^ 20)), <- (Z.shiftl_mul_pow2 serial 20) by lia. rewrite lor_shiftl_add by lia.
  replace (i * 2 ^ 2 + serial * 2 ^ 20) with (Z.shiftl (i + serial * 2 ^ 18) 2) by (rewrite Z.shiftl_mul_pow2 by lia; lia).
  rewrite Z.lor_comm, lor_shiftl_add, ?Z.shiftl_mul_pow2 by lia. lia.
Qed.

Lemma ExtractIndex_mod x : ExtractIndex x = (x / 4) mod 2 ^ 16.
Proof. unfold ExtractIndex. change 65535 with (2 ^ 16 - 1). by rewrite land_ones_mod, Z.shiftr_div_pow2. Qed.

Lemma GetIndirectRefKind_mod x : GetIndirectRefKind x = x mod 4.
Proof. unfold GetIndirectRefKind. change 3 with (2 ^ 2 - 1). by rewrite land_ones_mod. Qed.

(** ** Tables *)

Record table_ok (t : IndirectReferenceTable) : Prop := {
  tk_length : Z.of_nat (length (table_ t)) = max_entries_ t;
  tk_max : 0 < max_entries_ t < 2 ^ 16;
  tk_entries : Forall entry_ok (table_ t);
  tk_kind : 0 < kind_ t < 4;
}.

Lemma entry_at_ok tbl (i : nat) e : tbl !! i = Some e -> entry_at tbl (Z.of_nat i) = Ok e.
Proof. intros He. unfold entry_at. rewrite (proj2 (Z.leb_le _ _)), Nat2Z.id, He by lia. done. Qed.

Section Table.
Context (t : IndirectReferenceTable) (Hok : table_ok t).

Lemma entry_is_ok i e : table_ t !! i = Some e -> entry_ok e.
Proof. intros He. apply (proj1 (Forall_lookup _ _) (tk_entries _ Hok) _ _ He). Qed.

Lemma reference_at_ok (i : nat) e : table_ t !! i = Some e -> reference_at (table_ t) (Z.of_nat i) = Ok (ref_of e).
Proof. intros He. unfold reference_at. rewrite (entry_at_ok _ _ _ He). cbn. by eapply GetReference_ok, entry_is_ok. Qed.

Lemma index_range i e : table_ t !! i = Some e -> 0 <= Z.of_nat i < 2 ^ 16.
Proof. intros He%lookup_lt_Some. pose proof (tk_length _ Hok). pose proof (tk_max _ Hok). lia. Qed.

Lemma ToIndirectRef_ok i e : table_ t !! i = Some e -> ToIndirectRef t (Z.of_nat i) = Ok (iref_of (kind_ t) i e).
Proof.
  intros He. unfold ToIndirectRef. rewrite (entry_at_ok _ _ _ He). cbn [mbind outcome_bind].
  pose proof (entry_is_ok _ _ He) as [Hs _]. unfold kIRTPrevCount in Hs. pose proof (index_range _ _ He). pose proof (tk_kind _ Hok).
  unfold iref_of. rewrite iref_parts by lia. done.
Qed.

Lemma iref_of_index i e : table_ t !! i = Some e -> ExtractIndex (iref_of (kind_ t) i e) = Z.of_nat i.
Proof.
  intros He. pose proof (index_range _ _ He). pose proof (tk_kind _ Hok). rewrite ExtractIndex_mod. unfold iref_of. mlia.
Qed.

Lemma iref_of_kind i e : GetIndirectRefKind (iref_of (kind_ t) i e) = kind_ t.
Proof. pose proof (tk_kind _ Hok). rewrite GetIndirectRefKind_mod. unfold iref_of. mlia. Qed.

Lemma iref_of_nonzero i e : table_ t !! i = Some e -> iref_of (kind_ t) i e <> 0.
Proof.
  intros He. pose proof (entry_is_ok _ _ He) as [Hs _]. unfold kIRTPrevCount in Hs. pose proof (tk_kind _ Hok). unfold iref_of. lia.
Qed.

Lemma update_entry_ok (i : nat) e f e' :
  table_ t !! i = Some e -> f e = Ok e' ->
  update_entry (Z.of_nat i) f t = Ok (tt, with_table t (<[i := e']> (table_ t))).
Proof. intros He Hf. unfold update_entry. rewrite bind_gets, bind_lift, (entry_at_ok _ _ _ He), bind_lift, Hf. unfold modify. by rewrite Nat2Z.id. Qed.

Lemma table_ok_insert (i : nat) e' : entry_ok e' -> table_ok (with_table t (<[i := e']> (table_ t))).
Proof.
  intros He. destruct Hok as [H1 H2 H3 H4]. constructor; cbn; [by rewrite length_insert|done|by apply Forall_insert|done].
Qed.

End Table.

(** ** Holes *)

Definition null (tbl : list IrtEntry) (i : nat) : bool :=
  match tbl !! i with Some e => ref_of e =? 0 | None => false end.

Definition holes (tbl : list IrtEntry) (lo hi : nat) : nat := length (List.filter (null tbl) (seq lo (hi - lo))).

Lemma holes_empty tbl lo : holes tbl lo lo = 0%nat.
Proof. unfold holes. by rewrite Nat.sub_diag. Qed.

Lemma holes_split tbl lo mid hi : (lo <= mid <= hi)%nat -> holes tbl lo hi = (holes tbl lo mid + holes tbl mid hi)%nat.
Proof.
  intros H. unfold holes. replace (hi - lo)%nat with ((mid - lo) + (hi - mid))%nat by lia.
  rewrite seq_app, List.filter_app, length_app. replace (lo + (mid - lo))%nat with mid by lia. done.
Qed.

Lemma holes_one tbl i : holes tbl i (S i) = if null tbl i then 1%nat else 0%nat.
Proof. unfold holes. replace (S i - i)%nat with 1%nat by lia. cbn. by destruct (null tbl i). Qed.

Lemma holes_at tbl lo i hi : (lo <= i < hi)%nat ->
  holes tbl lo hi = (holes tbl lo i + (if null tbl i then 1 else 0) + holes tbl (S i) hi)%nat.
Proof. intros H. rewrite (holes_split tbl lo i), (holes_split tbl i (S i)), holes_one by lia. lia. Qed.

Lemma holes_local tbl tbl' lo hi : (forall i, (lo <= i < hi)%nat -> tbl !! i = tbl' !! i) -> holes tbl lo hi = holes tbl' lo hi.
Proof.
  intros H. unfold holes. f_equal. apply List.filter_ext_in. intros i Hi%in_seq. unfold null. by rewrite H by lia.
Qed.

Lemma holes_bound tbl lo hi : (holes tbl lo hi <= hi - lo)%nat.
Proof. unfold holes. etrans; [apply List.filter_length_le|]. by rewrite length_seq. Qed.

Lemma holes_found tbl lo hi : (0 < holes tbl lo hi)%nat -> exists i, (lo <= i < hi)%nat /\ null tbl i = true.
Proof.
  unfold holes. destruct (List.filter _ _) as [|i l] eqn:E; cbn; [lia|]. intros _. exists i.
  assert (In i (List.filter (null tbl) (seq lo (hi - lo)))) as [Hi Hn]%filter_In by (rewrite E; by left). apply in_seq in Hi. split; [lia|done].
Qed.

Lemma holes_none tbl lo hi i : holes tbl lo hi = 0%nat -> (lo <= i < hi)%nat -> null tbl i = false.
Proof. intros H0 Hi. rewrite (holes_at tbl lo i hi Hi) in H0. destruct (null tbl i); [lia|done]. Qed.

Lemma null_insert tbl i e' j : (i < length tbl)%nat -> null (<[i := e']> tbl) j = if decide (i = j) then ref_of e' =? 0 else null tbl j.
Proof.
  intros Hi. unfold null. destruct (decide (i = j)) as [->|Hne]; [by rewrite list_lookup_insert_eq|by rewrite list_lookup_insert_ne].
Qed.

Lemma holes_insert tbl lo i hi e' :
  (lo <= i < hi)%nat -> (i < length tbl)%nat ->
  (holes (<[i := e']> tbl) lo hi + (if null tbl i then 1 else 0) = holes tbl lo hi + (if (ref_of e' =? 0)%Z then 1 else 0))%nat.
Proof.
  intros Hi Hl. rewrite !(holes_at _ lo i hi Hi). rewrite null_insert by done. rewrite decide_True by done.
  rewrite (holes_local (<[i := e']> tbl) tbl lo i), (holes_local (<[i := e']> tbl) tbl (S i) hi)
    by (intros j Hj; by rewrite list_lookup_insert_ne by lia). lia.
Qed.

(** ** Frames *)

(** The live references of the entries from [lo] to [hi]. *)
Definition frame (kind : Z) (tbl : list IrtEntry) (lo hi : nat) (m : gmap Z Z) : Prop :=
  forall iref obj, m !! iref = Some obj <->
    exists i e, (lo <= i < hi)%nat /\ tbl !! i = Some e /\ ref_of e = obj /\ obj <> 0 /\ iref = iref_of kind i e.

Lemma frame_local kind tbl tbl' lo hi m :
  (forall i, (lo <= i < hi)%nat -> tbl !! i = tbl' !! i) -> frame kind tbl lo hi m -> frame kind tbl' lo hi m.
Proof.
  intros H Hf iref obj. rewrite (Hf iref obj). split; intros (i & e & Hi & He & Hrest); exists i, e; (split; [done|]); split; try done.
  - by rewrite <- H.
  - by rewrite H.
Qed.

Lemma frame_empty kind tbl lo : frame kind tbl lo lo ∅.
Proof. intros iref obj. rewrite lookup_empty. split; [done|]. intros (i & e & Hi & _). lia. Qed.

Lemma frame_shrink kind tbl lo hi hi' m :
  (hi' <= hi)%nat -> (forall i, (hi' <= i < hi)%nat -> null tbl i = true) -> frame kind tbl lo hi m -> frame kind tbl lo hi' m.
Proof.
  intros Hle Hn Hf iref obj. rewrite (Hf iref obj). split; intros (i & e & Hi & He & Hr & Ho & Heq); exists i, e; split_and!; try done; try lia.
  destruct (decide (i < hi')%nat); [done|]. specialize (Hn i ltac:(lia)). unfold null in Hn. rewrite He in Hn. apply Z.eqb_eq in Hn. congruence.
Qed.

Section Frames.
Context (t : IndirectReferenceTable) (Hok : table_ok t) (lo hi : nat) (m : gmap Z Z).
Context (Hf : frame (kind_ t) (table_ t) lo hi m).

Lemma iref_of_inj i j e e' :
  table_ t !! i = Some e -> (j < length (table_ t))%nat -> iref_of (kind_ t) i e = iref_of (kind_ t) j e' -> i = j.
Proof.
  intros Hi Hj Heq. pose proof (iref_of_index t Hok i e Hi) as H1. rewrite Heq, ExtractIndex_mod in H1.
  pose proof (tk_length _ Hok). pose proof (tk_max _ Hok). pose proof (tk_kind _ Hok). unfold iref_of in H1. mlia.
Qed.

(** Filling a hole, or the entry after the last. *)
Lemma frame_add i e e' :
  table_ t !! i = Some e -> ref_of e' <> 0 -> ((lo <= i < hi)%nat /\ ref_of e = 0) \/ (i = hi /\ (lo <= hi)%nat) ->
  frame (kind_ t) (<[i := e']> (table_ t)) lo (Nat.max hi (S i)) (<[iref_of (kind_ t) i e' := ref_of e']> m).
Proof.
  intros Hi He' Hcase iref obj. pose proof (lookup_lt_Some _ _ _ Hi) as Hlt. rewrite lookup_insert_Some. split.
  - intros [[<- <-]|[Hne Hm]].
    + exists i, e'. split_and!; [lia|lia|by rewrite list_lookup_insert_eq|done|done|done].
    + apply Hf in Hm as (j & ej & Hj & Hej & Hr & Ho & Heq). exists j, ej. split_and!; [lia|lia| |done|done|done].
      rewrite list_lookup_insert_ne; [done|]. intros <-. destruct Hcase as [[_ H0]|[-> _]]; [congruence|lia].
  - intros (j & ej & Hj & Hej & Hr & Ho & Heq). destruct (decide (i = j)) as [<-|Hne].
    + rewrite list_lookup_insert_eq in Hej by done. injection Hej as <-. by left.
    + rewrite list_lookup_insert_ne in Hej by done. right. split.
      * rewrite Heq. intros Hinj. destruct Hne. symmetry. by apply (iref_of_inj j i ej e').
      * apply Hf. exists j, ej. split_and!; [lia|lia|done|done|done|done].
Qed.

(** Clearing an entry. *)
Lemma frame_delete i e e' :
  table_ t !! i = Some e -> (lo <= i < hi)%nat -> ref_of e' = 0 ->
  frame (kind_ t) (<[i := e']> (table_ t)) lo hi (delete (iref_of (kind_ t) i e) m).
Proof.
  intros Hi Hr He' iref obj. pose proof (lookup_lt_Some _ _ _ Hi) as Hlt. rewrite lookup_delete_Some. split.
  - intros [Hne Hm]. apply Hf in Hm as (j & ej & Hj & Hej & Hrj & Ho & Heq). exists j, ej. split_and!; [lia|lia| |done|done|done].
    rewrite list_lookup_insert_ne; [done|]. intros <-. destruct Hne. congruence.
  - intros (j & ej & Hj & Hej & Hrj & Ho & Heq). destruct (decide (i = j)) as [<-|Hne].
    + rewrite list_lookup_insert_eq in Hej by done. injection Hej as <-. congruence.
    + rewrite list_lookup_insert_ne in Hej by done. split.
      * rewrite Heq. intros Hinj. destruct Hne. by apply (iref_of_inj i j e ej Hi (lookup_lt_Some _ _ _ Hej)).
      * apply Hf. by exists j, ej.
Qed.

End Frames.

(** ** Segments *)

#[local] Abbreviation top s := (Z.to_nat (topIndex s)).
#[local] Abbreviation nholes s := (Z.to_nat (numHoles s)).

Record state_ok (tbl : list IrtEntry) (s : IRTSegmentState) : Prop := {
  so_top : 0 <= topIndex s <= Z.of_nat (length tbl);
  so_holes : 0 <= numHoles s <= topIndex s;
}.

(** [segs kind tbl s cs ms]: the segments up to the state [s]; [cs] are the
    cookies, [ms] the frames, from the current segment down to the first.  In
    each segment the number of holes is right and the last entry is in use. *)
Inductive segs (kind : Z) (tbl : list IrtEntry) : IRTSegmentState -> list Z -> list (gmap Z Z) -> Prop :=
| segs_nil : segs kind tbl (mkSegmentState 0 0) [] []
| segs_cons s p cs m ms :
    state_ok tbl s -> state_ok tbl p -> (top p <= top s)%nat ->
    nholes s = (nholes p + holes tbl (top p) (top s))%nat ->
    frame kind tbl (top p) (top s) m ->
    ((top p < top s)%nat -> null tbl (top s - 1) = false) ->
    segs kind tbl p cs ms ->
    segs kind tbl s (all_of p :: cs) (m :: ms).

Lemma parts_of_all tbl s : (Z.of_nat (length tbl) < 2 ^ 16) -> state_ok tbl s -> parts_of (all_of s) = s.
Proof.
  intros Hl [H1 H2]. destruct s as [a b]. cbn in *. unfold parts_of, all_of, u16. cbn. f_equal; mlia.
Qed.

Lemma segs_ok kind tbl s cs ms : segs kind tbl s cs ms -> state_ok tbl s.
Proof. intros []; [constructor; cbn; lia|done]. Qed.

(** Entries above a state do not matter. *)
Lemma segs_local kind tbl tbl' s cs ms :
  length tbl = length tbl' -> (forall i, (i < top s)%nat -> tbl !! i = tbl' !! i) -> segs kind tbl s cs ms -> segs kind tbl' s cs ms.
Proof.
  intros Hl Hsame Hs. assert (forall x, state_ok tbl x -> state_ok tbl' x) as Hso by (intros x [H1 H2]; constructor; lia).
  induction Hs as [|s p cs m ms H1 H2 H3 H4 H5 H6 Hs IH]; constructor; auto.
  - rewrite <- (holes_local tbl tbl'); [done|]. intros i Hi. apply Hsame. lia.
  - eapply frame_local; [|done]. intros i Hi. apply Hsame. lia.
  - intros Hlt. unfold null. rewrite <- Hsame by lia. by apply H6.
  - apply IH. intros i Hi. apply Hsame. lia.
Qed.

(** The references of all frames have an index below the top. *)
Lemma segs_below kind tbl s cs ms iref obj m :
  segs kind tbl s cs ms -> m ∈ ms -> m !! iref = Some obj ->
  exists i e, (i < top s)%nat /\ tbl !! i = Some e /\ ref_of e = obj /\ obj <> 0 /\ iref = iref_of kind i e.
Proof.
  induction 1 as [|s p cs m0 ms H1 H2 H3 H4 H5 H6 Hs IH]; intros Hin Hm; [by apply elem_of_nil in Hin|].
  apply elem_of_cons in Hin as [->|Hin].
  - apply H5 in Hm as (i & e & Hi & Hrest). exists i, e. split; [lia|done].
  - destruct (IH Hin Hm) as (i & e & Hi & Hrest). exists i, e. split; [lia|done].
Qed.

(** Every entry in use is in a frame. *)
Lemma segs_covered kind tbl s cs ms i e :
  segs kind tbl s cs ms -> (i < top s)%nat -> tbl !! i = Some e -> ref_of e <> 0 ->
  exists m, m ∈ ms /\ m !! iref_of kind i e = Some (ref_of e).
Proof.
  intros Hs Hi He Hr. induction Hs as [|s p cs m ms H1 H2 H3 H4 H5 H6 Hs IH]; [cbn in Hi; lia|].
  destruct (decide (i < top p)%nat) as [Hlt|Hge].
  - destruct (IH Hlt) as (m' & Hm' & Hl). exists m'. split; [by right|done].
  - exists m. split; [by left|]. apply H5. exists i, e. split_and!; [lia|lia|done|done|done|done].
Qed.

(** A table whose segments have the given cookies and frames. *)
Definition represents (t : IndirectReferenceTable) (cs : list Z) (ms : list (gmap Z Z)) : Prop :=
  table_ok t /\ segs (kind_ t) (table_ t) (segment_state_ t) cs ms.

(** *** Loops *)

Lemma scan_hole_ok t fuel (i j lo : nat) :
  table_ok t -> (i < length (table_ t))%nat -> (lo <= j <= i)%nat -> null (table_ t) j = true -> (i < fuel + j)%nat ->
  exists k, scan_hole fuel (table_ t) (Z.of_nat i) = Ok (Z.of_nat k) /\ (lo <= k <= i)%nat /\ null (table_ t) k = true.
Proof.
  intros Hok. revert i. induction fuel as [|fuel IH]; intros i Hi Hj Hn Hfuel; [lia|]. cbn [scan_hole].
  destruct (lookup_lt_is_Some_2 (table_ t) i Hi) as [e He]. rewrite (reference_at_ok t Hok i e He). cbn [mbind outcome_bind].
  destruct (Z.eqb_spec (ref_of e) 0) as [Hz|Hz].
  - exists i. split; [done|]. split; [lia|]. unfold null. by rewrite He, Hz.
  - assert (i <> j) as Hne by (intros ->; unfold null in Hn; rewrite He in Hn; by apply Z.eqb_eq in Hn).
    replace (Z.of_nat i - 1) with (Z.of_nat (i - 1)) by lia.
    destruct (IH (i - 1)%nat) as (k & Hk & Hr & Hnk); [lia|lia|done|lia|]. exists k. split; [done|]. split; [lia|done].
Qed.

Lemma consume_holes_ok t fuel (T lo : nat) h :
  table_ok t -> (lo < T <= length (table_ t))%nat -> h = Z.of_nat (holes (table_ t) lo (T - 1)) -> (T <= fuel)%nat ->
  exists T', consume_holes fuel (table_ t) (Z.of_nat T) (Z.of_nat lo) h = Ok (Z.of_nat T', Z.of_nat (holes (table_ t) lo T')) /\
    (lo <= T' < T)%nat /\ (forall i, (T' <= i < T - 1)%nat -> null (table_ t) i = true) /\
    ((lo < T')%nat -> null (table_ t) (T' - 1) = false).
Proof.
  intros Hok. revert T h. induction fuel as [|fuel IH]; intros T h HT Hh Hfuel; [lia|]. cbn [consume_holes].
  replace (Z.of_nat T - 1) with (Z.of_nat (T - 1)) by lia.
  destruct (Z.ltb_spec (Z.of_nat lo) (Z.of_nat (T - 1))) as [Hlt|Hge]; cbn [andb].
  - destruct (Z.eqb_spec h 0) as [H0|H0]; cbn [negb].
    + exists (T - 1)%nat. rewrite Hh. split_and!; [done|lia|lia|intros i Hi; lia|]. intros _. apply (holes_none _ lo (T - 1)); lia.
    + destruct (lookup_lt_is_Some_2 (table_ t) (T - 1 - 1) ltac:(lia)) as [e He].
      replace (Z.of_nat (T - 1) - 1) with (Z.of_nat (T - 1 - 1)) by lia. rewrite (reference_at_ok t Hok _ e He). cbn [mbind outcome_bind].
      assert (null (table_ t) (T - 1 - 1) = (ref_of e =? 0)) as Hnull by (unfold null; by rewrite He).
      destruct (ref_of e =? 0); cbn [negb].
      * pose proof (holes_at (table_ t) lo (T - 1 - 1) (T - 1) ltac:(lia)) as Hat. rewrite Hnull in Hat.
        replace (S (T - 1 - 1)) with (T - 1)%nat in Hat by lia. rewrite holes_empty in Hat.
        destruct (IH (T - 1)%nat (h - 1)) as (T' & Hrun & Hr & Hall & Hlast); [lia|lia|lia|].
        exists T'. split_and!; [done|lia|lia| |done]. intros i Hi. destruct (decide (i = T - 1 - 1)%nat) as [->|]; [done|]. apply Hall. lia.
      * exists (T - 1)%nat. rewrite Hh. split_and!; [done|lia|lia|intros i Hi; lia|done].
  - exists (T - 1)%nat. assert (T - 1 = lo)%nat as -> by lia. rewrite Hh. replace (T - 1)%nat with lo by lia.
    split_and!; [done|lia|lia|intros i Hi; lia|lia].
Qed.

(** *** Operations *)

Section Operations.
Context (t : IndirectReferenceTable) (c : Z) (cs : list Z) (m : gmap Z Z) (ms : list (gmap Z Z)).
Context (Hrep : represents t (c :: cs) (m :: ms)).

Lemma rep_length : Z.of_nat (length (table_ t)) < 2 ^ 16.
Proof. destruct Hrep as [[H1 H2 _ _] _]. lia. Qed.

Lemma rep_inv : exists p,
  parts_of c = p /\ c = all_of p /\ state_ok (table_ t) (segment_state_ t) /\ state_ok (table_ t) p /\
  (top p <= top (segment_state_ t))%nat /\
  nholes (segment_state_ t) = (nholes p + holes (table_ t) (top p) (top (segment_state_ t)))%nat /\
  frame (kind_ t) (table_ t) (top p) (top (segment_state_ t)) m /\
  ((top p < top (segment_state_ t))%nat -> null (table_ t) (top (segment_state_ t) - 1) = false) /\
  segs (kind_ t) (table_ t) p cs ms.
Proof.
  pose proof rep_length as Hlen. pose proof Hrep as [Hok Hs]. inversion Hs as [|s p cs' m' ms' H1 H2 H3 H4 H5 H6 Hs' Heqs Heqc Heqm]; subst. exists p.
  split_and!; try done. by eapply parts_of_all.
Qed.

(** A reference with another index than those of the frames is in none. *)
Lemma fresh_index i e :
  (i < length (table_ t))%nat ->
  (forall e0, table_ t !! i = Some e0 -> (i < top (segment_state_ t))%nat -> ref_of e0 = 0) ->
  forall m', m' ∈ m :: ms -> m' !! iref_of (kind_ t) i e = None.
Proof.
  pose proof Hrep as [Hok Hs]. intros Hi Hnull m' Hin. destruct (m' !! iref_of (kind_ t) i e) as [obj|] eqn:E; [|done]. exfalso.
  destruct (segs_below _ _ _ _ _ _ _ _ Hs Hin E) as (j & ej & Hj & Hej & Hr & Ho & Heq).
  assert (j = i) as -> by (by apply (iref_of_inj t Hok j i ej e Hej Hi); symmetry). rewrite (Hnull _ Hej Hj) in Hr. congruence.
Qed.

(** What adding gives. *)
Record added (obj iref : Z) (t' : IndirectReferenceTable) : Prop := {
  ad_rep : represents t' (c :: cs) (<[iref := obj]> m :: ms);
  ad_fresh : forall m', m' ∈ m :: ms -> m' !! iref = None;
  ad_kind : GetIndirectRefKind iref = kind_ t;
  ad_nonzero : iref <> 0;
  ad_same_kind : kind_ t' = kind_ t;
  ad_max : max_entries_ t' = max_entries_ t;
  ad_capacity : Capacity t' <= Capacity t + 1;
  ad_serial : forall i e0, ExtractIndex iref = Z.of_nat i -> table_ t !! i = Some e0 -> iref <> iref_of (kind_ t) i e0;
}.

(** The entry [i] is filled and the state becomes [s']. *)
Lemma add_entry i e obj p s' :
  parts_of c = p -> c = all_of p -> segs (kind_ t) (table_ t) p cs ms ->
  table_ t !! i = Some e -> obj <> 0 -> (top p <= i)%nat ->
  frame (kind_ t) (table_ t) (top p) (top (segment_state_ t)) m -> (top p <= top (segment_state_ t))%nat ->
  ((i < top (segment_state_ t))%nat /\ ref_of e = 0) \/ i = top (segment_state_ t) ->
  state_ok (table_ t) s' -> top s' = Nat.max (top (segment_state_ t)) (S i) -> topIndex s' <= topIndex (segment_state_ t) + 1 ->
  (forall e', ref_of e' = obj -> nholes s' = (nholes p + holes (<[i := e']> (table_ t)) (top p) (top s'))%nat) ->
  (forall e', ref_of e' = obj -> null (<[i := e']> (table_ t)) (top s' - 1) = false) ->
  exists e' iref, IrtEntry_Add e obj = Ok e' /\
    ToIndirectRef (with_table (with_state t s') (<[i := e']> (table_ t))) (Z.of_nat i) = Ok iref /\
    added obj iref (with_table (with_state t s') (<[i := e']> (table_ t))).
Proof.
  pose proof Hrep as [Hok Hs]. intros Hp Hc Hsegs He Hobj Hpi Hf Hps Hcase Hs' Htop Hcap Hholes Hlast.
  destruct (IrtEntry_Add_ok e obj (entry_is_ok t Hok _ _ He)) as (e' & Hadd & He' & Hr' & Hser).
  pose proof (lookup_lt_Some _ _ _ He) as Hlt. exists e', (iref_of (kind_ t) i e').
  assert (table_ok (with_table (with_state t s') (<[i := e']> (table_ t)))) as Hok' by (by apply (table_ok_insert (with_state t s')); destruct Hok).
  split; [done|]. split; [apply (ToIndirectRef_ok _ Hok'); by apply list_lookup_insert_eq|].
  constructor; cbn [kind_ max_entries_ with_table with_state].
  - split; [done|]. cbn [kind_ table_ segment_state_ with_table with_state]. rewrite Hc. constructor.
    + destruct Hs'. constructor; [by rewrite length_insert|done].
    + destruct (segs_ok _ _ _ _ _ Hsegs) as [H1 H2]. constructor; [by rewrite length_insert|done].
    + lia.
    + by apply Hholes.
    + rewrite Htop, <- Hr'. apply (frame_add t Hok _ _ m Hf i e e' He); [by rewrite Hr'|]. destruct Hcase as [[? ?]|?]; [left; split; [lia|done]|right; lia].
    + intros _. by apply Hlast.
    + apply (segs_local _ (table_ t)); [by rewrite length_insert| |done]. intros j Hj. by rewrite list_lookup_insert_ne by lia.
  - apply (fresh_index i e'); [done|]. intros e0 He0 Hi0. rewrite He in He0. injection He0 as <-. destruct Hcase as [[_ ?]|?]; [done|lia].
  - apply (iref_of_kind t Hok).
  - apply (iref_of_nonzero _ Hok' i). cbn. by apply list_lookup_insert_eq.
  - done.
  - done.
  - unfold Capacity. cbn. lia.
  - intros j e0 Hj He0. pose proof (iref_of_index _ Hok' i e' ltac:(cbn; by apply list_lookup_insert_eq)) as Hidx. cbn in Hidx. rewrite Hidx in Hj.
    assert (j = i) as -> by lia. rewrite He in He0. injection He0 as <-. unfold iref_of. rewrite Hser.
    pose proof (eo_serial _ (entry_is_ok t Hok _ _ He)) as Hr. unfold kIRTPrevCount in Hr. mlia.
Qed.

Lemma fill_run s' i e e' obj iref :
  table_ t !! i = Some e -> IrtEntry_Add e obj = Ok e' ->
  ToIndirectRef (with_table (with_state t s') (<[i := e']> (table_ t))) (Z.of_nat i) = Ok iref ->
  (update_entry (Z.of_nat i) (fun e => IrtEntry_Add e obj) ;; t ← gets (fun t => t); lift (ToIndirectRef t (Z.of_nat i))) (with_state t s') =
  Ok (iref, with_table (with_state t s') (<[i := e']> (table_ t))).
Proof.
  intros He Hadd Hto. rewrite (bind_ok _ _ _ _ _ (update_entry_ok (with_state t s') i e _ e' He Hadd)), bind_gets.
  unfold lift. change (table_ (with_state t s')) with (table_ t). by rewrite Hto.
Qed.

Lemma IRT_Add_ok obj :
  obj <> 0 -> Capacity t < max_entries_ t ->
  exists iref t', IRT_Add c obj t = Ok (iref, t') /\ added obj iref t'.
Proof.
  intros Hobj Hcap. destruct rep_inv as (p & Hp & Hc & Hso & Hsp & Hle & Hholes & Hf & Hlast & Hsegs).
  pose proof Hrep as [Hok Hs]. pose proof (tk_length _ Hok) as Hlen. pose proof rep_length as Hl16. unfold Capacity in Hcap.
  unfold IRT_Add. rewrite bind_gets. rewrite (proj2 (Z.eqb_neq obj 0)) by done. cbn [negb]. unfold checkM. rewrite bind_lift. cbn [check].
  rewrite (proj2 (Z.eqb_neq (topIndex (segment_state_ t)) (max_entries_ t))) by lia. rewrite Hp.
  destruct Hso as [Hso1 Hso2], Hsp as [Hsp1 Hsp2].
  destruct (Z.ltb_spec 0 (numHoles (segment_state_ t) - numHoles p)) as [Hpos|Hnone].
  - (* a hole of the segment is filled *)
    destruct (holes_found (table_ t) (top p) (top (segment_state_ t))) as (j & Hj & Hnj); [lia|].
    assert (j <> top (segment_state_ t) - 1)%nat as Hjl by (intros ->; rewrite Hlast in Hnj; [done|lia]).
    destruct (scan_hole_ok t (top (segment_state_ t)) (top (segment_state_ t) - 2) j (top p) Hok) as (k & Hscan & Hk & Hnk); [lia|lia|done|lia|].
    destruct (lookup_lt_is_Some_2 (table_ t) k ltac:(lia)) as [e He].
    assert (ref_of e = 0) as Hez by (unfold null in Hnk; rewrite He in Hnk; by apply Z.eqb_eq).
    set (s' := mkSegmentState (topIndex (segment_state_ t)) (numHoles (segment_state_ t) - 1)).
    assert (store_numHoles (numHoles (segment_state_ t) - 1) t = with_state t s') as Hst by (unfold store_numHoles; by rewrite u16_small by lia).
    destruct (add_entry k e obj p s') as (e' & iref & Hadd & Hto & Hadded); try done; subst s'; cbn [topIndex numHoles]; try lia.
    + by constructor; cbn; lia.
    + intros e' He'. pose proof (holes_insert (table_ t) (top p) k (top (segment_state_ t)) e' ltac:(lia) ltac:(lia)) as Hins.
      rewrite Hnk, He', (proj2 (Z.eqb_neq obj 0) Hobj) in Hins. lia.
    + intros e' He'. rewrite null_insert by lia. rewrite decide_False by lia. apply Hlast. lia.
    + exists iref. eexists. split; [|exact Hadded].
      rewrite bind_assoc, bind_lift. replace (topIndex (segment_state_ t) - 2) with (Z.of_nat (top (segment_state_ t) - 2)) by lia.
      rewrite Hscan, bind_assoc, bind_modify, bind_ret, Hst. by eapply fill_run.
  - (* the entry after the last *)
    destruct (lookup_lt_is_Some_2 (table_ t) (top (segment_state_ t)) ltac:(lia)) as [e He].
    set (s' := mkSegmentState (topIndex (segment_state_ t) + 1) (numHoles (segment_state_ t))).
    assert (store_topIndex (topIndex (segment_state_ t) + 1) t = with_state t s') as Hst by (unfold store_topIndex; by rewrite u16_small by lia).
    assert (top s' = S (top (segment_state_ t))) as Htop by (subst s'; cbn; lia).
    destruct (add_entry (top (segment_state_ t)) e obj p s') as (e' & iref & Hadd & Hto & Hadded); try done; try lia.
    + subst s'. constructor; cbn; lia.
    + intros e' He'. rewrite Htop. subst s'. cbn [numHoles].
      rewrite (holes_split _ (top p) (top (segment_state_ t))), holes_one, null_insert by lia. rewrite decide_True by done.
      rewrite He', (proj2 (Z.eqb_neq obj 0) Hobj). rewrite (holes_local (<[_ := e']> (table_ t)) (table_ t)); [lia|].
      intros i Hi. by rewrite list_lookup_insert_ne by lia.
    + intros e' He'. rewrite Htop. replace (S (top (segment_state_ t)) - 1)%nat with (top (segment_state_ t)) by lia.
      rewrite null_insert by lia. rewrite decide_True by done. rewrite He'. by apply Z.eqb_neq.
    + exists iref. eexists. split; [|exact Hadded].
      rewrite bind_assoc, bind_modify, bind_ret, Hst. pose proof (fill_run s' _ e e' obj iref He Hadd Hto) as Hfill.
      rewrite Z2Nat.id in Hfill by lia. exact Hfill.
Qed.

End Operations.

Section Lookups.
Context (check_jni : bool) (HandleScopeContains : Z -> bool).
Context (t : IndirectReferenceTable) (cs : list Z) (ms : list (gmap Z Z)) (Hrep : represents t cs ms).

Lemma CheckEntry_ok (i : nat) e iref :
  table_ t !! i = Some e ->
  CheckEntry check_jni t iref (Z.of_nat i) =
    if iref_of (kind_ t) i e =? iref then Ok true else if check_jni then Ok false else Fault FatalLog.
Proof.
  intros He. pose proof Hrep as [Hok _]. unfold CheckEntry. rewrite (ToIndirectRef_ok t Hok i e He). cbn [mbind outcome_bind].
  destruct (_ =? iref); [done|]. unfold AbortIfNoCheckJNI. by destruct check_jni.
Qed.

(** A live reference gives its object. *)
Lemma IRT_Get_live m iref obj : m ∈ ms -> m !! iref = Some obj -> IRT_Get check_jni t iref = Ok obj /\ obj <> 0.
Proof.
  intros Hin Hm. pose proof Hrep as [Hok Hs]. destruct (segs_below _ _ _ _ _ _ _ _ Hs Hin Hm) as (i & e & Hi & He & Hr & Ho & ->).
  split; [|done]. unfold IRT_Get, GetChecked. rewrite (proj2 (Z.eqb_neq _ 0)) by (by apply iref_of_nonzero).
  rewrite (iref_of_kind t Hok). pose proof (tk_kind _ Hok). rewrite (proj2 (Z.eqb_neq (kind_ t) _)) by (unfold kHandleScopeOrInvalid; lia).
  rewrite (iref_of_index t Hok i e He). rewrite (proj2 (Z.leb_gt _ _)) by (pose proof (segs_ok _ _ _ _ _ Hs) as [? ?]; lia).
  rewrite (reference_at_ok t Hok i e He). cbn [mbind outcome_bind]. rewrite Hr, (proj2 (Z.eqb_neq obj 0) Ho).
  rewrite (CheckEntry_ok i e _ He), Z.eqb_refl. done.
Qed.

(** Any other value gives none. *)
Lemma IRT_Get_dead iref :
  (forall m, m ∈ ms -> m !! iref = None) ->
  IRT_Get check_jni t iref = if check_jni || (iref =? 0) then Ok 0 else Fault FatalLog.
Proof.
  intros Hnone. pose proof Hrep as [Hok Hs]. unfold IRT_Get, GetChecked. destruct (Z.eqb_spec iref 0) as [->|Hne]; [by rewrite orb_true_r|].
  rewrite orb_false_r. destruct (GetIndirectRefKind iref =? kHandleScopeOrInvalid); [unfold AbortIfNoCheckJNI; by destruct check_jni|].
  destruct (Z.leb_spec (topIndex (segment_state_ t)) (ExtractIndex iref)) as [Hge|Hlt]; [unfold AbortIfNoCheckJNI; by destruct check_jni|].
  assert (0 <= ExtractIndex iref) as H0 by (rewrite ExtractIndex_mod; apply Z.mod_pos_bound; lia).
  pose proof (segs_ok _ _ _ _ _ Hs) as [Hs1 _].
  destruct (lookup_lt_is_Some_2 (table_ t) (Z.to_nat (ExtractIndex iref)) ltac:(lia)) as [e He].
  pose proof (reference_at_ok t Hok _ e He) as Href. rewrite Z2Nat.id in Href by done. rewrite Href. cbn [mbind outcome_bind].
  destruct (Z.eqb_spec (ref_of e) 0) as [Hz|Hz]; [unfold AbortIfNoCheckJNI; by destruct check_jni|].
  pose proof (CheckEntry_ok _ e iref He) as Hce. rewrite Z2Nat.id in Hce by done. rewrite Hce.
  destruct (Z.eqb_spec (iref_of (kind_ t) (Z.to_nat (ExtractIndex iref)) e) iref) as [Heq|]; [|by destruct check_jni].
  exfalso. destruct (segs_covered _ _ _ _ _ (Z.to_nat (ExtractIndex iref)) _ Hs ltac:(lia) He Hz) as (m & Hm & Hl).
  rewrite Heq, Hnone in Hl; done.
Qed.

End Lookups.

Section Removals.
Context (check_jni : bool) (HandleScopeContains : Z -> bool).
Context (t : IndirectReferenceTable) (c : Z) (cs : list Z) (m : gmap Z Z) (ms : list (gmap Z Z)).
Context (Hrep : represents t (c :: cs) (m :: ms)).

(** What deleting does. *)
Record removed (iref : Z) (t' : IndirectReferenceTable) : Prop := {
  rm_rep : represents t' (c :: cs) (delete iref m :: ms);
  rm_kind : kind_ t' = kind_ t;
  rm_max : max_entries_ t' = max_entries_ t;
  rm_capacity : Capacity t' <= Capacity t;
}.

(** Entry [i] is cleared and the state becomes [s']. *)
Lemma remove_entry i e e' p s' :
  c = all_of p -> segs (kind_ t) (table_ t) p cs ms -> state_ok (table_ t) p ->
  table_ t !! i = Some e -> entry_ok e' -> ref_of e' = 0 ->
  frame (kind_ t) (table_ t) (top p) (top (segment_state_ t)) m -> (top p <= i < top (segment_state_ t))%nat ->
  state_ok (table_ t) s' -> (top p <= top s' <= top (segment_state_ t))%nat -> topIndex s' <= topIndex (segment_state_ t) ->
  nholes s' = (nholes p + holes (<[i := e']> (table_ t)) (top p) (top s'))%nat ->
  ((top p < top s')%nat -> null (<[i := e']> (table_ t)) (top s' - 1) = false) ->
  (forall j, (top s' <= j < top (segment_state_ t))%nat -> null (<[i := e']> (table_ t)) j = true) ->
  removed (iref_of (kind_ t) i e) (with_state (with_table t (<[i := e']> (table_ t))) s').
Proof.
  pose proof Hrep as [Hok Hs]. intros Hc Hsegs Hsp He He' Hr' Hf Hi Hs' Hbound Hcap Hholes Hlast Hdropped.
  constructor; [|done|done|done].
  assert (table_ok (with_table t (<[i := e']> (table_ t)))) as Hok' by (by apply table_ok_insert).
  split; [by destruct Hok'|]. cbn [kind_ table_ segment_state_ with_state with_table]. rewrite Hc. constructor; try done; try lia.
  - destruct Hs'. by constructor; rewrite ?length_insert.
  - destruct Hsp. by constructor; rewrite ?length_insert.
  - eapply frame_shrink; [|exact Hdropped|]; [lia|]. by apply (frame_delete t Hok).
  - apply (segs_local _ (table_ t)); [by rewrite length_insert| |done]. intros j Hj. by rewrite list_lookup_insert_ne by lia.
Qed.

Lemma IRT_Remove_live iref obj :
  m !! iref = Some obj -> exists t', IRT_Remove check_jni HandleScopeContains c iref t = Ok (true, t') /\ removed iref t'.
Proof.
  intros Hm. destruct (rep_inv t c cs m ms Hrep) as (p & Hp & Hc & Hso & Hsp & Hle & Hholes & Hf & Hlast & Hsegs).
  pose proof Hrep as [Hok Hs]. pose proof (rep_length t c cs m ms Hrep) as Hl16.
  destruct (proj1 (Hf _ _) Hm) as (i & e & Hi & He & Hr & Ho & Heq). subst iref. pose proof (lookup_lt_Some _ _ _ He) as Hlt.
  pose proof (SetReference_ok e 0 (entry_is_ok t Hok _ _ He)) as (e' & Hset & He' & Hr' & Hser).
  destruct Hso as [Hso1 Hso2]. pose proof Hsp as [Hsp1 Hsp2].
  assert (null (table_ t) i = false) as Hni by (unfold null; rewrite He; by apply Z.eqb_neq; congruence).
  unfold IRT_Remove. rewrite bind_gets, (iref_of_kind t Hok). pose proof (tk_kind _ Hok) as Hk.
  rewrite (proj2 (Z.eqb_neq (kind_ t) _)) by (unfold kHandleScopeOrInvalid; lia). cbn [andb]. rewrite (iref_of_index t Hok i e He), Hp.
  rewrite (proj2 (Z.ltb_ge _ _)), (proj2 (Z.leb_gt _ _)) by lia.
  assert (forall b, (b = true -> False) -> b = false) as Hfalse by (intros []; [intros []|]; done).
  destruct (Z.eqb_spec (Z.of_nat i) (topIndex (segment_state_ t) - 1)) as [Htopmost|Hbelow].
  - rewrite bind_lift, (CheckEntry_ok check_jni t _ _ Hrep i e _ He), Z.eqb_refl. cbn [negb].
    rewrite (bind_ok _ _ _ _ _ (update_entry_ok t i e _ e' He Hset)).
    set (tbl := <[i := e']> (table_ t)). set (t1 := with_table t tbl).
    assert (table_ok t1) as Hok1 by (by apply table_ok_insert).
    assert (holes tbl (top p) i = holes (table_ t) (top p) i) as Hsame
      by (apply holes_local; intros j Hj; subst tbl; by rewrite list_lookup_insert_ne by lia).
    pose proof (holes_at (table_ t) (top p) i (top (segment_state_ t)) Hi) as Hat. rewrite Hni in Hat.
    replace (S i) with (top (segment_state_ t)) in Hat by lia. rewrite holes_empty in Hat.
    assert (null tbl i = true) as Hnull by (subst tbl; rewrite null_insert by done; rewrite decide_True by done; by rewrite Hr').
    destruct (Z.eqb_spec (numHoles (segment_state_ t) - numHoles p) 0) as [Hzero|Hsome]; cbn [negb].
    + set (s' := mkSegmentState (topIndex (segment_state_ t) - 1) (numHoles (segment_state_ t))).
      assert (store_topIndex (topIndex (segment_state_ t) - 1) t1 = with_state t1 s') as Hst by (unfold store_topIndex; by rewrite u16_small by lia).
      rewrite bind_modify, Hst. exists (with_state t1 s'). split; [done|].
      assert (top s' = i) as Htop by (subst s'; cbn; lia).
      apply (remove_entry i e e' p s'); try done; rewrite ?Htop; fold tbl; try lia.
      * subst s'. pose proof (holes_bound (table_ t) (top p) i). constructor; cbn; lia.
      * subst s'. cbn [numHoles]. lia.
      * intros Hlt'. apply (holes_none tbl (top p) i); lia.
      * intros j Hj. assert (j = i) as -> by lia. done.
    + destruct (consume_holes_ok t1 (S (top (segment_state_ t))) (top (segment_state_ t)) (top p) (numHoles (segment_state_ t) - numHoles p) Hok1)
        as (T' & Hrun & HT & Hall & HT'); [subst t1 tbl; cbn; rewrite length_insert; lia| |lia|].
      { subst t1. cbn [table_ with_table]. replace (top (segment_state_ t) - 1)%nat with i by lia. lia. }
      subst t1. cbn [table_ with_table] in *. rewrite bind_assoc, bind_gets, bind_assoc, bind_lift. cbn [table_ with_table].
      rewrite !Z2Nat.id in Hrun by lia. rewrite Hrun.
      cbn [fst snd]. rewrite bind_assoc, !bind_modify.
      pose proof (holes_bound tbl (top p) T') as Hb.
      set (s' := mkSegmentState (Z.of_nat T') (Z.of_nat (holes tbl (top p) T') + numHoles p)).
      exists (with_state (with_table t tbl) s'). split.
      * unfold store_topIndex, store_numHoles. cbn [with_state segment_state_ topIndex numHoles]. rewrite !u16_small by lia. done.
      * assert (top s' = T') as Htop by (subst s'; cbn; lia).
        apply (remove_entry i e e' p s'); try done; rewrite ?Htop; fold tbl; try done; try lia.
        -- subst s'. constructor; cbn; lia.
        -- subst s'. cbn [numHoles]. lia.
        -- intros j Hj. destruct (decide (j = i)) as [->|]; [done|]. apply Hall. lia.
  - rewrite bind_lift, (reference_at_ok t Hok i e He), Hr, (proj2 (Z.eqb_neq obj 0) Ho).
    rewrite bind_lift, (CheckEntry_ok check_jni t _ _ Hrep i e _ He), Z.eqb_refl. cbn [negb].
    rewrite (bind_ok _ _ _ _ _ (update_entry_ok t i e _ e' He Hset)), bind_modify.
    set (s' := mkSegmentState (topIndex (segment_state_ t)) (numHoles (segment_state_ t) + 1)).
    pose proof (holes_insert (table_ t) (top p) i (top (segment_state_ t)) e' Hi Hlt) as Hins. rewrite Hni, Hr' in Hins. cbn in Hins.
    assert (holes (<[i := e']> (table_ t)) (top p) (top (segment_state_ t)) < top (segment_state_ t) - top p)%nat as Hb.
    { rewrite (holes_at _ (top p) (top (segment_state_ t) - 1)) by lia. rewrite null_insert, decide_False, Hlast by lia.
      replace (S (top (segment_state_ t) - 1)) with (top (segment_state_ t)) by lia. rewrite holes_empty.
      pose proof (holes_bound (<[i := e']> (table_ t)) (top p) (top (segment_state_ t) - 1)). lia. }
    exists (with_state (with_table t (<[i := e']> (table_ t))) s'). split.
    + unfold store_numHoles. cbn [with_state with_table segment_state_ topIndex numHoles]. rewrite u16_small by lia. done.
    + apply (remove_entry i e e' p s'); try done; subst s'; cbn [topIndex numHoles]; try lia.
      * constructor; cbn; lia.
      * intros Hlt'. rewrite null_insert, decide_False by lia. by apply Hlast.
Qed.

(** A reference of an older segment is not touched. *)
Lemma IRT_Remove_older m' iref obj :
  m' ∈ ms -> m' !! iref = Some obj -> IRT_Remove check_jni HandleScopeContains c iref t = Ok (false, t).
Proof.
  intros Hin Hm. destruct (rep_inv t c cs m ms Hrep) as (p & Hp & Hc & Hso & Hsp & Hle & Hholes & Hf & Hlast & Hsegs).
  pose proof Hrep as [Hok Hs]. destruct (segs_below _ _ _ _ _ _ _ _ Hsegs Hin Hm) as (i & e & Hi & He & Hr & Ho & ->).
  unfold IRT_Remove. rewrite bind_gets, (iref_of_kind t Hok). pose proof (tk_kind _ Hok) as Hk.
  rewrite (proj2 (Z.eqb_neq (kind_ t) _)) by (unfold kHandleScopeOrInvalid; lia). cbn [andb]. rewrite (iref_of_index t Hok i e He), Hp.
  rewrite (proj2 (Z.ltb_lt _ _)) by lia. done.
Qed.

(** A value that is not a live reference removes nothing. *)
Lemma IRT_Remove_dead iref :
  (forall m', m' ∈ m :: ms -> m' !! iref = None) ->
  IRT_Remove check_jni HandleScopeContains c iref t = Fault FatalLog \/
  exists b, IRT_Remove check_jni HandleScopeContains c iref t = Ok (b, t).
Proof.
  intros Hnone. destruct (rep_inv t c cs m ms Hrep) as (p & Hp & Hc & Hso & Hsp & Hle & Hholes & Hf & Hlast & Hsegs).
  pose proof Hrep as [Hok Hs]. unfold IRT_Remove. rewrite bind_gets, Hp. destruct (_ && _); [right; by exists true|].
  assert (0 <= ExtractIndex iref) as H0 by (rewrite ExtractIndex_mod; apply Z.mod_pos_bound; lia).
  destruct (Z.ltb_spec (ExtractIndex iref) (topIndex p)) as [|Hge]; [right; by exists false|].
  destruct (Z.leb_spec (topIndex (segment_state_ t)) (ExtractIndex iref)) as [|Hlt]; [right; by exists false|].
  destruct Hso as [Hso1 _]. destruct (lookup_lt_is_Some_2 (table_ t) (Z.to_nat (ExtractIndex iref)) ltac:(lia)) as [e He].
  assert (ref_of e <> 0 -> CheckEntry check_jni t iref (ExtractIndex iref) = if check_jni then Ok false else Fault FatalLog) as Hce.
  { intros Hz. rewrite <- (Z2Nat.id (ExtractIndex iref)) by done. rewrite (CheckEntry_ok check_jni t _ _ Hrep _ e _ He).
    destruct (Z.eqb_spec (iref_of (kind_ t) (Z.to_nat (ExtractIndex iref)) e) iref) as [Heq|]; [|done]. exfalso.
    destruct (segs_covered _ _ _ _ _ (Z.to_nat (ExtractIndex iref)) _ Hs ltac:(lia) He Hz) as (m' & Hm' & Hl).
    rewrite Heq, Hnone in Hl; done. }
  destruct (Z.eqb_spec (ExtractIndex iref) (topIndex (segment_state_ t) - 1)) as [Htop|Hne].
  - assert (ref_of e <> 0) as Hz.
    { specialize (Hlast ltac:(lia)). replace (top (segment_state_ t) - 1)%nat with (Z.to_nat (ExtractIndex iref)) in Hlast by lia.
      unfold null in Hlast. rewrite He in Hlast. by apply Z.eqb_neq. }
    rewrite bind_lift, (Hce Hz). destruct check_jni; [right; by exists false|by left].
  - assert (reference_at (table_ t) (ExtractIndex iref) = Ok (ref_of e)) as Href
      by (rewrite <- (Z2Nat.id (ExtractIndex iref)) by done; by apply (reference_at_ok t Hok)).
    rewrite bind_lift, Href. destruct (Z.eqb_spec (ref_of e) 0) as [|Hz]; [right; by exists false|].
    rewrite bind_lift, (Hce Hz). destruct check_jni; [right; by exists false|by left].
Qed.

End Removals.

(** ** Native methods

    The frames of a thread: those of native methods, whose callers' stubs keep
    the older cookie, and those of [PushLocalFrame]. *)
Inductive frame_kind := Native | Pushed.

Record JniState := mkJniState { js_env : JNIEnvExt; js_saved : list Z }.

Inductive jni_op :=
| NewLocal (obj : Z)
| DeleteLocal (iref : Z)
| Decode (iref : Z)
| Push (capacity : Z)
| Pop (survivor : Z)
| EnterNative
| LeaveNative (exception_pending : bool) (result : Z).

Section Client.
Context (check_jni : bool) (HandleScopeContains : Z -> bool).

Definition on_env {A} (m : M JNIEnvExt A) : M JniState A := fun st =>
  match m (js_env st) with
  | Ok (a, env) => Ok (a, mkJniState env (js_saved st))
  | Fault f => Fault f
  end.

Definition jni_step (op : jni_op) : M JniState Z :=
  match op with
  | NewLocal obj => on_env (NewLocalRef obj)
  | DeleteLocal iref => on_env (DeleteLocalRef check_jni HandleScopeContains iref) ;; mret 0
  | Decode iref => on_env (DecodeJObject check_jni iref)
  | Push capacity => on_env (PushLocalFrame capacity)
  | Pop survivor => on_env (PopLocalFrame check_jni survivor)
  | EnterNative =>
      cookie ← on_env JniMethodStart;
      modify (fun st => mkJniState (js_env st) (cookie :: js_saved st)) ;; mret 0
  | LeaveNative exception_pending result =>
      saved ← gets js_saved;
      match saved with
      | [] => lift (Fault OutOfBounds)
      | cookie :: saved =>
          r ← on_env (JniMethodEndWithReference check_jni exception_pending result cookie);
          modify (fun st => mkJniState (js_env st) saved) ;; mret r
      end
  end.

(** *** What local references promise *)

Definition live (ms : list (gmap Z Z)) (iref obj : Z) : Prop := exists m, m ∈ ms /\ m !! iref = Some obj.

(** The object of a reference, null for null. *)
Definition denotes (ms : list (gmap Z Z)) (iref obj : Z) : Prop := (iref = 0 /\ obj = 0) \/ live ms iref obj.

(** A new reference for [obj]. *)
Definition extends (ms : list (gmap Z Z)) (obj iref : Z) (ms' : list (gmap Z Z)) : Prop :=
  (obj = 0 /\ iref = 0 /\ ms' = ms) \/
  (obj <> 0 /\ iref <> 0 /\ (forall m, m ∈ ms -> m !! iref = None) /\
   exists m0 rest, ms = m0 :: rest /\ ms' = <[iref := obj]> m0 :: rest).

Inductive spec_step : list frame_kind -> list (gmap Z Z) -> jni_op -> Z -> list frame_kind -> list (gmap Z Z) -> Prop :=
| sp_new tags ms obj iref ms' : extends ms obj iref ms' -> spec_step tags ms (NewLocal obj) iref tags ms'
| sp_delete tags m ms iref : spec_step tags (m :: ms) (DeleteLocal iref) 0 tags (delete iref m :: ms)
| sp_decode tags ms iref obj : denotes ms iref obj -> spec_step tags ms (Decode iref) obj tags ms
| sp_push tags ms capacity : spec_step tags ms (Push capacity) JNI_OK (Pushed :: tags) (∅ :: ms)
| sp_push_refused tags ms capacity : spec_step tags ms (Push capacity) JNI_ERR tags ms
| sp_pop tags m ms survivor obj iref ms' :
    denotes (m :: ms) survivor obj -> extends ms obj iref ms' -> spec_step (Pushed :: tags) (m :: ms) (Pop survivor) iref tags ms'
| sp_enter tags ms : spec_step tags ms EnterNative 0 (Native :: tags) (∅ :: ms)
| sp_leave tags m ms (exception_pending : bool) result obj :
    (if exception_pending then obj = 0 else denotes (m :: ms) result obj) ->
    spec_step (Native :: tags) (m :: ms) (LeaveNative exception_pending result) obj tags ms.

(** The operations of code that keeps to the rules: it uses live references, and
    leaves the frames it entered in order. *)
Definition valid (tags : list frame_kind) (ms : list (gmap Z Z)) (op : jni_op) : Prop :=
  match op with
  | NewLocal _ | Push _ | EnterNative => True
  | DeleteLocal iref | Decode iref => exists obj, denotes ms iref obj
  | Pop survivor => (exists tags', tags = Pushed :: tags') /\ exists obj, denotes ms survivor obj
  | LeaveNative exception_pending result =>
      (exists tags', tags = Native :: tags') /\ (exception_pending = false -> exists obj, denotes ms result obj)
  end.

(** The cookies of the frames, the current one first. *)
Fixpoint cookies_of (tags : list frame_kind) (cookie : Z) (stacked saved : list Z) : option (list Z) :=
  match tags, stacked, saved with
  | [], [], [] => Some [cookie]
  | Pushed :: tags, c :: stacked, saved => cons cookie <$> cookies_of tags c stacked saved
  | Native :: tags, stacked, c :: saved => cons cookie <$> cookies_of tags c stacked saved
  | _, _, _ => None
  end.

Record implements (st : JniState) (tags : list frame_kind) (ms : list (gmap Z Z)) : Prop := {
  im_cookies : exists cs, cookies_of tags (local_ref_cookie (js_env st)) (stacked_local_ref_cookies (js_env st)) (js_saved st) = Some cs /\
    represents (locals (js_env st)) cs ms;
  im_kind : kind_ (locals (js_env st)) = kLocal;
  im_max : max_entries_ (locals (js_env st)) = kLocalsMax;
}.

Lemma cookies_of_head tags c stacked saved cs : cookies_of tags c stacked saved = Some cs -> exists cs', cs = c :: cs'.
Proof.
  destruct tags as [|[|] tags], stacked as [|c1 stacked], saved as [|c2 saved]; cbn; try done;
    try (intros [= <-]; by eexists); destruct (cookies_of _ _ _ _); try done; intros [= <-]; by eexists.
Qed.

Section Step.
Context (st : JniState) (tags : list frame_kind) (ms : list (gmap Z Z)) (Him : implements st tags ms).

Lemma implements_inv : exists cs m ms', cookies_of tags (local_ref_cookie (js_env st)) (stacked_local_ref_cookies (js_env st)) (js_saved st)
    = Some (local_ref_cookie (js_env st) :: cs) /\ ms = m :: ms' /\ represents (locals (js_env st)) (local_ref_cookie (js_env st) :: cs) (m :: ms').
Proof.
  destruct Him as [(cs & Hcs & Hrep) _ _]. destruct (cookies_of_head _ _ _ _ _ Hcs) as [cs' ->]. exists cs'.
  destruct ms as [|m ms']; [destruct Hrep as [_ Hs]; inversion Hs|]. by exists m, ms'.
Qed.

Lemma DecodeJObject_ok iref obj : denotes ms iref obj -> DecodeJObject check_jni iref (js_env st) = Ok (obj, js_env st).
Proof.
  intros [[-> ->]|(m & Hm & Hl)]; [done|]. destruct Him as [(cs & _ & Hrep) _ _].
  destruct (IRT_Get_live check_jni _ _ _ Hrep _ _ _ Hm Hl) as [Hget Hobj].
  assert (iref <> 0) as Hne by (intros ->; by injection Hget as <-).
  unfold DecodeJObject. rewrite (proj2 (Z.eqb_neq iref 0)) by done. rewrite bind_gets, bind_lift, Hget.
  by rewrite (proj2 (Z.eqb_neq obj 0)).
Qed.

Lemma NewLocalRef_ok obj :
  Capacity (locals (js_env st)) < kLocalsMax ->
  exists iref env' ms', NewLocalRef obj (js_env st) = Ok (iref, env') /\ extends ms obj iref ms' /\
    implements (mkJniState env' (js_saved st)) tags ms' /\ Capacity (locals env') <= Capacity (locals (js_env st)) + 1.
Proof.
  intros Hcap. unfold NewLocalRef. destruct (Z.eqb_spec obj 0) as [->|Hobj].
  - exists 0, (js_env st), ms. split; [done|]. split; [by left|]. split; [by destruct st|lia].
  - destruct implements_inv as (cs & m & ms' & Hcs & Hms & Hrep). pose proof Him as [_ Hk Hmax].
    destruct (IRT_Add_ok _ _ _ _ _ Hrep obj Hobj ltac:(lia)) as (iref & t' & Hrun & [ ]).
    exists iref, (mkJNIEnvExt (local_ref_cookie (js_env st)) t' (stacked_local_ref_cookies (js_env st))), (<[iref := obj]> m :: ms').
    rewrite bind_gets. unfold on_locals. rewrite Hrun. split_and!; [done| | |done].
    + right. rewrite Hms. split_and!; try done. by exists m, ms'.
    + constructor; cbn; [|congruence|congruence]. by eexists.
Qed.

Lemma DeleteLocalRef_ok iref obj :
  denotes ms iref obj ->
  exists env' m ms', ms = m :: ms' /\ DeleteLocalRef check_jni HandleScopeContains iref (js_env st) = Ok (tt, env') /\
    implements (mkJniState env' (js_saved st)) tags (delete iref m :: ms') /\ Capacity (locals env') <= Capacity (locals (js_env st)).
Proof.
  intros Hden. destruct implements_inv as (cs & m & ms' & Hcs & Hms & Hrep). pose proof Him as [_ Hk Hmax]. unfold DeleteLocalRef.
  assert (m !! iref = None -> implements (mkJniState (js_env st) (js_saved st)) tags (delete iref m :: ms')) as Hsame.
  { intros Hn. rewrite delete_id by done. destruct st. by rewrite <- Hms. }
  destruct (Z.eqb_spec iref 0) as [->|Hne]; cbn [negb whenM].
  - exists (js_env st), m, ms'. split_and!; [done|done| |lia]. apply Hsame. destruct (m !! 0) as [x|] eqn:E; [|done]. exfalso.
    destruct Hrep as [Hok Hs]. destruct (segs_below _ _ _ _ _ _ _ _ Hs (list_elem_of_here _ _) E) as (i & e & _ & He & _ & _ & H0).
    by apply (iref_of_nonzero _ Hok i e He).
  - destruct Hden as [[? _]|(m' & Hin & Hl)]; [done|]. rewrite Hms in Hin. rewrite bind_gets.
    destruct (m !! iref) as [x|] eqn:E.
    + destruct (IRT_Remove_live check_jni HandleScopeContains _ _ _ _ _ Hrep iref x E) as (t' & Hrun & [ ]).
      exists (mkJNIEnvExt (local_ref_cookie (js_env st)) t' (stacked_local_ref_cookies (js_env st))), m, ms'.
      unfold on_locals, mbind, M_bind. rewrite Hrun. split_and!; [done|done| |done].
      constructor; cbn; [|congruence|congruence]. by eexists.
    + apply elem_of_cons in Hin as [->|Hin]; [congruence|].
      pose proof (IRT_Remove_older check_jni HandleScopeContains _ _ _ _ _ Hrep m' iref obj Hin Hl) as Hrun.
      exists (js_env st), m, ms'. unfold on_locals, mbind, M_bind. rewrite Hrun. split_and!; [done| |by apply Hsame|lia]. by destruct (js_env st).
Qed.

(** A new segment. *)
Lemma begin_segment t cs ms0 :
  represents t cs ms0 -> represents t (GetSegmentState t :: cs) (∅ :: ms0).
Proof.
  intros [Hok Hs]. split; [done|]. pose proof (segs_ok _ _ _ _ _ Hs) as Hso. constructor; try done; [|apply frame_empty|lia].
  rewrite holes_empty. lia.
Qed.

(** The end of the current segment. *)
Lemma end_segment t c cs m0 ms0 :
  represents t (c :: cs) (m0 :: ms0) -> represents (SetSegmentState c t) cs ms0 /\ Capacity (SetSegmentState c t) <= Capacity t.
Proof.
  intros Hrep. destruct (rep_inv t c cs m0 ms0 Hrep) as (p & Hp & Hc & Hso & Hsp & Hle & Hholes & Hf & Hlast & Hsegs).
  destruct Hrep as [Hok _]. unfold SetSegmentState. rewrite Hp. split; [split; [by destruct Hok|done]|].
  destruct Hso, Hsp. unfold Capacity. cbn. lia.
Qed.

End Step.

Lemma push_ok st tags ms env' :
  implements st tags ms -> env' = mkJNIEnvExt (GetSegmentState (locals (js_env st))) (locals (js_env st))
    (local_ref_cookie (js_env st) :: stacked_local_ref_cookies (js_env st)) ->
  implements (mkJniState env' (js_saved st)) (Pushed :: tags) (∅ :: ms).
Proof.
  intros [(cs & Hcs & Hrep) Hk Hmax] ->. constructor; [|done|done]. cbn. rewrite Hcs. eexists. split; [done|]. by apply begin_segment.
Qed.

Lemma leave_ok st tags ms k c env' :
  implements st (k :: tags) ms ->
  (k = Pushed /\ stacked_local_ref_cookies (js_env st) = c :: stacked_local_ref_cookies env' \/
   k = Native /\ stacked_local_ref_cookies env' = stacked_local_ref_cookies (js_env st)) ->
  local_ref_cookie env' = c -> locals env' = SetSegmentState (local_ref_cookie (js_env st)) (locals (js_env st)) ->
  forall saved, (k = Pushed /\ saved = js_saved st \/ k = Native /\ js_saved st = c :: saved) ->
  exists m ms', ms = m :: ms' /\ implements (mkJniState env' saved) tags ms' /\ Capacity (locals env') <= Capacity (locals (js_env st)).
Proof.
  intros Him Hst Hc Hl saved Hsaved. destruct (implements_inv _ _ _ Him) as (cs & m & ms' & Hcs & -> & Hrep). exists m, ms'. split; [done|].
  pose proof Him as [_ Hk Hmax]. destruct (end_segment _ _ _ _ _ Hrep) as [Hrep' Hcap]. rewrite Hl. split; [|done].
  constructor; cbn; rewrite ?Hl; [|done|done]. exists cs. split; [|done].
  destruct Hst as [[-> Hs]|[-> Hs]], Hsaved as [[Hkk Hs']|[Hkk Hs']]; try done.
  - cbn in Hcs. rewrite Hs in Hcs. rewrite Hc, Hs'. destruct (cookies_of tags _ _ _); [|done]. by injection Hcs as <-.
  - cbn in Hcs. rewrite Hs' in Hcs. rewrite Hc, Hs. destruct (stacked_local_ref_cookies (js_env st)); destruct (cookies_of tags _ _ _); try done; by injection Hcs as <-.
Qed.

Lemma jni_step_ok st tags ms op :
  implements st tags ms -> valid tags ms op -> Capacity (locals (js_env st)) < kLocalsMax ->
  exists r st' tags' ms', jni_step op st = Ok (r, st') /\ spec_step tags ms op r tags' ms' /\ implements st' tags' ms' /\
    Capacity (locals (js_env st')) <= Capacity (locals (js_env st)) + 1.
Proof.
  intros Him Hv Hcap. destruct op as [obj|iref|iref|capacity|survivor| |pending result]; cbn [jni_step valid] in *.
  - destruct (NewLocalRef_ok st tags ms Him obj Hcap) as (iref & env' & ms' & Hrun & Hext & Him' & Hc).
    exists iref, (mkJniState env' (js_saved st)), tags, ms'. unfold on_env. rewrite Hrun. split_and!; [done|by constructor|done|done].
  - destruct Hv as [obj Hden]. destruct (DeleteLocalRef_ok st tags ms Him iref obj Hden) as (env' & m & ms' & -> & Hrun & Him' & Hc).
    exists 0, (mkJniState env' (js_saved st)), tags, (delete iref m :: ms'). unfold on_env, mbind, M_bind. rewrite Hrun.
    split_and!; [done|constructor|done|cbn; lia].
  - destruct Hv as [obj Hden]. exists obj, st, tags, ms. unfold on_env. rewrite (DecodeJObject_ok st tags ms Him iref obj Hden).
    split_and!; [by destruct st|by constructor|done|lia].
  - unfold on_env, PushLocalFrame, EnsureLocalCapacityInternal, mbind, M_bind, gets.
    destruct (_ || _); [|destruct (capacity <=? _)]; cbn [mret M_ret negb].
    + exists JNI_ERR, st, tags, ms. split_and!; [by destruct st|constructor|done|lia].
    + eexists _, _, _, _. split; [done|]. split; [apply sp_push|]. split; [by eapply push_ok|cbn; lia].
    + exists JNI_ERR, st, tags, ms. split_and!; [by destruct st|constructor|done|lia].
  - destruct Hv as [[tags' ->] [obj Hden]]. unfold on_env, PopLocalFrame. rewrite (bind_ok _ _ _ _ _ (DecodeJObject_ok _ _ _ Him _ _ Hden)).
    unfold PopFrame. rewrite bind_assoc, bind_gets. pose proof Him as [(cs & Hcs & _) _ _].
    destruct (stacked_local_ref_cookies (js_env st)) as [|c stacked] eqn:Est; [by destruct (js_saved st)|]. rewrite bind_modify.
    set (env1 := mkJNIEnvExt c _ stacked).
    destruct (leave_ok st tags' ms Pushed c env1 Him ltac:(left; by rewrite Est) eq_refl eq_refl (js_saved st) ltac:(by left)) as (m & ms1 & -> & Him1 & Hc1).
    destruct (NewLocalRef_ok _ _ _ Him1 obj) as (iref & env2 & ms2 & Hrun2 & Hext & Him2 & Hc2); [cbn [js_env]; lia|]. cbn [js_env js_saved] in *.
    rewrite Hrun2. exists iref, (mkJniState env2 (js_saved st)), tags', ms2. split_and!; [done|by econstructor|done|cbn [js_env]; lia].
  - unfold on_env, JniMethodStart, mbind, M_bind, gets, modify. cbn [mret M_ret].
    eexists _, _, _, _. split; [done|]. split; [apply sp_enter|]. split; [|cbn; lia].
    destruct Him as [(cs & Hcs & Hrep) Hk Hmax]. constructor; [|done|done]. cbn.
    exists (GetSegmentState (locals (js_env st)) :: cs). split; [destruct (stacked_local_ref_cookies _); by rewrite Hcs|by apply begin_segment].
  - destruct Hv as [[tags' ->] Hres]. rewrite bind_gets. pose proof Him as [(cs & Hcs & _) _ _].
    destruct (js_saved st) as [|c saved] eqn:Es; [by destruct (stacked_local_ref_cookies (js_env st))|].
    assert (exists obj, (if pending then obj = 0 else denotes ms result obj) /\
      (if pending then mret 0 else DecodeJObject check_jni result) (js_env st) = Ok (obj, js_env st)) as (obj & Hobj & Hdec).
    { destruct pending; [by exists 0|]. destruct (Hres eq_refl) as [obj Hden]. exists obj. split; [done|]. by apply (DecodeJObject_ok _ _ _ Him). }
    unfold on_env at 1, JniMethodEndWithReference, mbind, M_bind. rewrite Hdec. unfold PopLocalReferences, modify. cbn [mret M_ret].
    set (env1 := mkJNIEnvExt c _ _).
    destruct (leave_ok st tags' ms Native c env1 Him ltac:(by right) eq_refl eq_refl saved ltac:(by right)) as (m & ms1 & -> & Him1 & Hc1).
    exists obj, (mkJniState env1 saved), tags', ms1. split_and!; [done|by constructor|done|cbn [js_env] in *; lia].
Qed.

End Client.

Lemma JNIEnvExt_Create_ok : exists env, JNIEnvExt_Create true = Ok (Some env) /\ implements (mkJniState env []) [] [∅] /\ Capacity (locals env) = 0.
Proof.
  eexists. split; [reflexivity|]. split; [|done]. constructor; [|done|done]. cbn [js_env js_saved local_ref_cookie stacked_local_ref_cookies locals].
  eexists. split; [done|]. split.
  - constructor; cbn [table_ max_entries_ kind_]; [by rewrite length_replicate|done| |done]. apply Forall_replicate. by constructor.
  - cbn [kind_ table_ segment_state_]. change [IRT_FIRST_SEGMENT] with [all_of (mkSegmentState 0 0)]. change (parts_of IRT_FIRST_SEGMENT) with (mkSegmentState 0 0).
    apply segs_cons; [constructor; cbn; lia|constructor; cbn; lia|lia|by rewrite holes_empty|apply frame_empty|lia|constructor].
Qed.

(** *** Collection and trimming *)

Lemma Trim_ok t cs ms : represents t cs ms -> represents (Trim t) cs ms.
Proof.
  intros [[H1 H2 H3 H4] Hs]. unfold Trim. set (r := Z.to_nat _). pose proof (segs_ok _ _ _ _ _ Hs) as [Ht _].
  assert (top (segment_state_ t) <= r)%nat as Hr by (subst r; unfold Capacity; apply Z2Nat.inj_le; mlia).
  split; [constructor; cbn [table_ max_entries_ kind_ with_table]; [|done| |done]|].
  - rewrite length_app, length_map, <- length_app, take_drop. done.
  - apply Forall_app. split; [by apply Forall_take|]. apply Forall_forall. intros e He. apply list_elem_of_fmap in He as (? & -> & _). by constructor.
  - cbn [table_ segment_state_ kind_ with_table]. apply (segs_local _ (table_ t)); [by rewrite length_app, length_map, <- length_app, take_drop| |done].
    intros i Hi. destruct (decide (i < length (table_ t))%nat) as [Hlt|]; [|lia].
    rewrite lookup_app_l by (rewrite length_take; lia). by rewrite lookup_take_lt by lia.
Qed.

(** The frames after the objects have moved. *)
Definition moved_frames (visitor : Z -> Z) (ms : list (gmap Z Z)) : list (gmap Z Z) := map (fun m : gmap Z Z => visitor <$> m) ms.

Section Visit.
Context (visitor : Z -> Z) (Hvisitor : forall x, x <> 0 -> visitor x <> 0).

(** An entry whose object has moved. *)
Record moved_entry (e e' : IrtEntry) : Prop := {
  me_ok : entry_ok e';
  me_serial : serial_ e' = serial_ e;
  me_ref : ref_of e' = if ref_of e =? 0 then 0 else visitor (ref_of e);
}.

Lemma visit_entries_ok es : Forall entry_ok es -> exists es', visit_entries visitor es = Ok es' /\ Forall2 moved_entry es es'.
Proof.
  induction 1 as [|e es He Hes (es' & Hrun & Hall)]; cbn [visit_entries]; [exists []; split; [done|constructor]|].
  rewrite (GetReference_ok e He). cbn [mbind outcome_bind]. destruct (SetReference_ok e (visitor (ref_of e)) He) as (e1 & Hset & He1 & Hr1 & Hs1).
  destruct (Z.eqb_spec (ref_of e) 0) as [Hz|Hz]; cbn [negb].
  - cbn. rewrite Hrun. exists (e :: es'). split; [done|]. constructor; [|done]. constructor; [done|done|]. by rewrite Hz.
  - rewrite Hset. cbn. rewrite Hrun. exists (e1 :: es'). split; [done|]. constructor; [|done]. constructor; [done|done|].
    by rewrite (proj2 (Z.eqb_neq _ 0) Hz).
Qed.

Lemma moved_null tbl tbl' i : (forall e, tbl !! i = Some e -> exists e', tbl' !! i = Some e' /\ moved_entry e e') -> (i < length tbl)%nat -> null tbl' i = null tbl i.
Proof.
  intros Hm Hi. destruct (lookup_lt_is_Some_2 tbl i Hi) as [e He]. destruct (Hm e He) as (e' & He' & [_ _ Hr]). unfold null. rewrite He, He', Hr.
  destruct (Z.eqb_spec (ref_of e) 0) as [Hz|Hz]; [done|]. by apply Z.eqb_neq, Hvisitor.
Qed.

Lemma segs_moved kind tbl tbl' s cs ms :
  length tbl' = length tbl -> (forall i e, (i < top s)%nat -> tbl !! i = Some e -> exists e', tbl' !! i = Some e' /\ moved_entry e e') ->
  segs kind tbl s cs ms -> segs kind tbl' s cs (moved_frames visitor ms).
Proof.
  intros Hl Hm Hs. assert (forall x, state_ok tbl x -> state_ok tbl' x) as Hso by (intros x [H1 H2]; constructor; lia).
  induction Hs as [|s p cs m ms H1 H2 H3 H4 H5 H6 Hs IH]; cbn [moved_frames map]; [constructor|].
  pose proof (so_top _ _ H1) as Ht. pose proof (so_top _ _ H2) as Htp.
  assert (forall i, (i < top s)%nat -> null tbl' i = null tbl i) as Hn by (intros i Hi; apply moved_null; [intros e He; by apply Hm|lia]).
  apply segs_cons; auto.
  - rewrite H4. f_equal. unfold holes. f_equal. apply List.filter_ext_in. intros i Hi%in_seq. symmetry. apply Hn. lia.
  - intros iref obj. rewrite lookup_fmap_Some. split.
    + intros (x & <- & Hx). apply H5 in Hx as (i & e & Hi & He & Hr & Ho & ->). destruct (Hm i e ltac:(lia) He) as (e' & He' & [_ Hser Href]).
      exists i, e'. rewrite Hr, (proj2 (Z.eqb_neq x 0) Ho) in Href. split_and!; [lia|lia|done|done|by apply Hvisitor|]. unfold iref_of. by rewrite Hser.
    + intros (i & e' & Hi & He' & Hr & Ho & ->). destruct (lookup_lt_is_Some_2 tbl i ltac:(lia)) as [e He].
      destruct (Hm i e ltac:(lia) He) as (e2 & He2 & [_ Hser Href]). rewrite He' in He2. injection He2 as <-.
      destruct (Z.eqb_spec (ref_of e) 0) as [Hz|Hz]; [congruence|]. exists (ref_of e). split; [congruence|].
      apply H5. exists i, e. split_and!; [lia|lia|done|done|done|]. unfold iref_of. by rewrite Hser.
  - intros Hlt. rewrite Hn by lia. by apply H6.
  - apply IH. intros i e Hi. apply Hm. lia.
Qed.

Lemma IRT_VisitRoots_ok t cs ms :
  represents t cs ms -> exists t', IRT_VisitRoots visitor t = Ok t' /\ represents t' cs (moved_frames visitor ms) /\
    kind_ t' = kind_ t /\ max_entries_ t' = max_entries_ t.
Proof.
  intros [[H1 H2 H3 H4] Hs]. pose proof (segs_ok _ _ _ _ _ Hs) as [Ht _]. unfold IRT_VisitRoots, current_references.
  destruct (visit_entries_ok (take (Z.to_nat (Capacity t)) (table_ t)) ltac:(by apply Forall_take)) as (es' & Hrun & Hall).
  rewrite Hrun. cbn [mbind outcome_bind]. eexists. split; [reflexivity|]. split; [|done]. unfold Capacity in *.
  pose proof (Forall2_length _ _ _ Hall) as Hlen. rewrite length_take, Nat.min_l in Hlen by lia.
  split; [constructor; cbn [table_ max_entries_ kind_ with_table]; [|done| |done]|].
  - rewrite length_app, length_drop. lia.
  - apply Forall_app. split; [|by apply Forall_drop]. apply Forall_forall. intros e' He'. apply list_elem_of_lookup in He' as (i & Hi).
    destruct (Forall2_lookup_r _ _ _ _ _ Hall Hi) as (e & _ & [Hok _ _]). done.
  - cbn [table_ segment_state_ kind_ with_table]. apply (segs_moved _ (table_ t)); [rewrite length_app, length_drop; lia| |done].
    intros i e Hi He. rewrite lookup_app_l by lia. destruct (Forall2_lookup_l _ _ _ i e Hall) as (e' & He' & Hme); [by rewrite lookup_take_lt by lia|].
    by exists e'.
Qed.

End Visit.

(** When a frame can be pushed. *)
Lemma push_result check_jni HandleScopeContains st tags ms capacity r st' :
  implements st tags ms -> jni_step check_jni HandleScopeContains (Push capacity) st = Ok (r, st') ->
  r = if (0 <=? capacity) && (Capacity (locals (js_env st)) + capacity <=? kLocalsMax) then JNI_OK else JNI_ERR.
Proof.
  intros [(cs & _ & [Hok Hsegs]) _ Hmax]. pose proof (tk_length _ Hok) as Hlen.
  assert (0 <= topIndex (segment_state_ (locals (js_env st))) <= Z.of_nat (length (table_ (locals (js_env st))))) as Htop.
  { inversion Hsegs as [Heq|? ? ? ? ? Hso]; [cbn; lia|apply Hso]. }
  cbn [jni_step]. unfold on_env, PushLocalFrame, EnsureLocalCapacityInternal, mbind, M_bind, gets, Capacity.
  change kLocalsMax with 512 in *. rewrite s32_small by lia.
  destruct (Z.ltb_spec capacity 0) as [H1|H1]; cbn [orb].
  { rewrite (proj2 (Z.leb_gt 0 capacity)) by lia. cbn. by intros [= <- _]. }
  rewrite (proj2 (Z.leb_le 0 capacity)) by lia. cbn [andb].
  destruct (Z.ltb_spec 512 capacity) as [H2|H2].
  { rewrite (proj2 (Z.leb_gt _ 512)) by lia. cbn. by intros [= <- _]. }
  destruct (Z.leb_spec capacity (512 - topIndex (segment_state_ (locals (js_env st))))) as [H3|H3]; cbn.
  - rewrite (proj2 (Z.leb_le _ 512)) by lia. by intros [= <- _].
  - rewrite (proj2 (Z.leb_gt _ 512)) by lia. by intros [= <- _].
Qed.

(** ** Results *)

(** C8. Local references implement a stack of maps from references to objects:
    a new thread has one empty frame; a new reference is fresh among all frames
    and in the current one, deleting removes it from the current frame and
    leaves those of older frames alone, decoding gives the object, entering a
    native method or pushing a frame adds an empty frame, and leaving drops
    exactly the current frame, after decoding the surviving reference.  No
    operation faults while the table is not full.  Pushing a frame is refused
    exactly when the entries asked for, holes counted as used, are not there.  A
    collection moves the objects of every frame and keeps the references. *)
Theorem local_references_refine (check_jni : bool) (HandleScopeContains : Z -> bool) :
  (exists env, JNIEnvExt_Create true = Ok (Some env) /\ implements (mkJniState env []) [] [∅]) /\
  (forall st tags ms op, implements st tags ms -> valid tags ms op -> Capacity (locals (js_env st)) < kLocalsMax ->
    exists r st' tags' ms', jni_step check_jni HandleScopeContains op st = Ok (r, st') /\ spec_step tags ms op r tags' ms' /\
      implements st' tags' ms' /\ Capacity (locals (js_env st')) <= Capacity (locals (js_env st)) + 1) /\
  (forall st tags ms capacity r st', implements st tags ms -> jni_step check_jni HandleScopeContains (Push capacity) st = Ok (r, st') ->
    r = if (0 <=? capacity) && (Capacity (locals (js_env st)) + capacity <=? kLocalsMax) then JNI_OK else JNI_ERR) /\
  (forall visitor env saved tags ms, (forall x, x <> 0 -> visitor x <> 0) -> implements (mkJniState env saved) tags ms ->
    exists t', IRT_VisitRoots visitor (locals env) = Ok t' /\ implements (mkJniState (mkJNIEnvExt (local_ref_cookie env) t' (stacked_local_ref_cookies env)) saved) tags (moved_frames visitor ms)).
Proof.
  split; [|split; [apply jni_step_ok|split; [apply push_result|]]].
  2: { intros visitor env saved tags ms Hv [(cs & Hcs & Hrep) Hk Hmax]. destruct (IRT_VisitRoots_ok visitor Hv _ _ _ Hrep) as (t' & Hrun & Hrep' & Hk' & Hm').
       exists t'. split; [done|]. cbn in *. constructor; cbn; [by exists cs|congruence|congruence]. }
  destruct JNIEnvExt_Create_ok as (env & H1 & H2 & _). by exists env.
Qed.

(** C36. A value that is not a live reference never gives an object: decoding it
    aborts or, with JNI checks or for the null reference, returns null (the header
    says [kInvalidIndirectRefObject], which does not exist), and deleting it
    changes nothing; and while the table is not full a new reference is never the
    one its slot had before, so a reference is detected as stale when its slot is
    used again. *)
Theorem stale_references_detected (check_jni : bool) (HandleScopeContains : Z -> bool)
    (t : IndirectReferenceTable) (c : Z) (cs : list Z) (m : gmap Z Z) (ms : list (gmap Z Z)) :
  represents t (c :: cs) (m :: ms) ->
  (forall iref, (forall m', m' ∈ m :: ms -> m' !! iref = None) ->
    IRT_Get check_jni t iref = (if check_jni || (iref =? 0) then Ok 0 else Fault FatalLog) /\
    (IRT_Remove check_jni HandleScopeContains c iref t = Fault FatalLog \/
     exists b, IRT_Remove check_jni HandleScopeContains c iref t = Ok (b, t))) /\
  (forall obj, obj <> 0 -> Capacity t < max_entries_ t -> exists iref t', IRT_Add c obj t = Ok (iref, t') /\
    IRT_Get check_jni t' iref = Ok obj /\
    forall i e0, ExtractIndex iref = Z.of_nat i -> table_ t !! i = Some e0 -> ToIndirectRef t (Z.of_nat i) <> Ok iref).
Proof.
  intros Hrep. split.
  - intros iref Hdead. split; [by eapply IRT_Get_dead|]. by eapply IRT_Remove_dead.
  - intros obj Hobj Hcap. destruct (IRT_Add_ok _ _ _ _ _ Hrep obj Hobj Hcap) as (iref & t' & Hrun & [Hrep' _ _ _ _ _ _ Hser]).
    exists iref, t'. split; [done|]. split.
    + apply (IRT_Get_live check_jni t' _ _ Hrep' (<[iref := obj]> m)); [by left|by rewrite lookup_insert_eq].
    + intros i e0 Hi He0. destruct Hrep as [Hok _]. rewrite (ToIndirectRef_ok t Hok i e0 He0). intros [= Heq]. by apply (Hser i e0 Hi He0).
Qed.

(** The table aborts as soon as its last entry is in use, whether or not there
    are holes. *)
Lemma full_table_aborts t c obj : obj <> 0 -> Capacity t = max_entries_ t -> IRT_Add c obj t = Fault FatalLog.
Proof.
  intros Hobj Hcap. unfold IRT_Add. rewrite bind_gets. rewrite (proj2 (Z.eqb_neq obj 0)) by done. cbn [negb]. unfold checkM. rewrite bind_lift. cbn [check].
  unfold Capacity in Hcap. rewrite Hcap, Z.eqb_refl. done.
Qed.

(** *** An example: a table of four entries with a hole. *)

Definition example_table : IndirectReferenceTable :=
  mkIRT (mkSegmentState 2 1) [mkIrtEntry 1 [0; 0; 0]; mkIrtEntry 1 [0; 7; 0]; mkIrtEntry 0 [0; 0; 0]; mkIrtEntry 0 [0; 0; 0]] kLocal 4.

Lemma example_represents : represents example_table [IRT_FIRST_SEGMENT] [{[1048581 := 7]}].
Proof.
  split.
  - constructor; cbn; [done|lia|by repeat (constructor; [by constructor|]); constructor|done].
  - change [IRT_FIRST_SEGMENT] with [all_of (mkSegmentState 0 0)]. cbn [kind_ table_ segment_state_ example_table].
    apply segs_cons; [constructor; cbn; lia|constructor; cbn; lia|cbn; lia|done| |done|constructor].
    intros iref obj. rewrite lookup_singleton_Some. split.
    + intros [<- <-]. exists 1%nat, (mkIrtEntry 1 [0; 7; 0]). cbn. split_and!; [lia|lia|done|done|done|done].
    + intros (i & e & Hi & He & Hr & Ho & ->). cbn in Hi. destruct i as [|[|i]]; [|by injection He as <-|lia]. injection He as <-. destruct Ho. by rewrite <- Hr.
Qed.

Lemma local_references_refine_witness :
  exists env r st', JNIEnvExt_Create true = Ok (Some env) /\
    jni_step false (fun _ => false) (NewLocal 7) (mkJniState env []) = Ok (r, st') /\
    exists ms', implements st' [] ms' /\ extends [∅] 7 r ms'.
Proof.
  destruct (local_references_refine false (fun _ => false)) as [(env & Hnew & Him) [Hstep _]].
  destruct (Hstep (mkJniState env []) [] [∅] (NewLocal 7) Him I) as (r & st' & tags' & ms' & Hrun & Hspec & Him' & _);
    [injection Hnew as <-; reflexivity|].
  exists env, r, st'. split; [exact Hnew|]. split; [exact Hrun|]. inversion Hspec; subst. exists ms'. split; [exact Him'|assumption].
Defined.

Lemma stale_references_detected_witness :
  IRT_Get false example_table 1048577 = Fault FatalLog /\
  exists iref t', IRT_Add IRT_FIRST_SEGMENT 9 example_table = Ok (iref, t') /\ IRT_Get false t' iref = Ok 9.
Proof.
  destruct (stale_references_detected false (fun _ => false) example_table IRT_FIRST_SEGMENT [] {[1048581 := 7]} [] example_represents) as [Hdead Hadd].
  split.
  - destruct (Hdead 1048577) as [Hget _]; [|exact Hget]. intros m' Hin. apply list_elem_of_singleton in Hin as ->. reflexivity.
  - destruct (Hadd 9) as (iref & t' & Hrun & Hget & _); [discriminate|reflexivity|]. exists iref, t'. split; [exact Hrun|exact Hget].
Defined.
