(* ===== verification/LockWord.v ===== *)
(** * [lock_word.h]: the lock word of an object

    Thirty-two bits that hold the state of an object's lock: nothing, a thin
    lock with its owner and recursion count, the id of an inflated monitor, an
    identity hash code, or a forwarding address.  A [LockWord] is its value.
    The library is built without read barriers ([kUseReadBarrier] is false);
    the two bits for their state are kept as the code keeps them. *)

From S2P Require Import Prelude.

(** ** Sizes, shifts and masks *)

Definition kStateSize : Z := 2.
Definition kReadBarrierStateSize : Z := 2.
Definition kThinLockOwnerSize : Z := 16.
Definition kThinLockCountSize : Z := 32 - kThinLockOwnerSize - kStateSize - kReadBarrierStateSize.

Definition kThinLockOwnerShift : Z := 0.
Definition kThinLockOwnerMask : Z := Z.shiftl 1 kThinLockOwnerSize - 1.
Definition kThinLockMaxOwner : Z := kThinLockOwnerMask.
Definition kThinLockCountShift : Z := kThinLockOwnerSize + kThinLockOwnerShift.
Definition kThinLockCountMask : Z := Z.shiftl 1 kThinLockCountSize - 1.
Definition kThinLockMaxCount : Z := kThinLockCountMask.

Definition kStateShift : Z := kReadBarrierStateSize + kThinLockCountSize + kThinLockCountShift.
Definition kStateMask : Z := Z.shiftl 1 kStateSize - 1.
Definition kStateThinOrUnlocked : Z := 0.
Definition kStateFat : Z := 1.
Definition kStateHash : Z := 2.
Definition kStateForwardingAddress : Z := 3.
Definition kReadBarrierStateShift : Z := kThinLockCountSize + kThinLockCountShift.
Definition kReadBarrierStateMask : Z := Z.shiftl 1 kReadBarrierStateSize - 1.

Definition kHashShift : Z := 0.
Definition kHashSize : Z := 32 - kStateSize - kReadBarrierStateSize.
Definition kHashMask : Z := Z.shiftl 1 kHashSize - 1.
Definition kMaxHash : Z := kHashMask.
Definition kMonitorIdShift : Z := kHashShift.
Definition kMonitorIdMask : Z := kHashMask.
Definition kMaxMonitorId : Z := kMaxHash.

(** ** Construction *)

Definition FromThinLockId (thread_id count rb_state : Z) : outcome Z :=
  _ ← check (thread_id <=? kThinLockMaxOwner);
  _ ← check (count <=? kThinLockMaxCount);
  mret (Z.lor (Z.lor (Z.lor (u32 (Z.shiftl thread_id kThinLockOwnerShift)) (u32 (Z.shiftl count kThinLockCountShift)))
          (u32 (Z.shiftl rb_state kReadBarrierStateShift)))
          (u32 (Z.shiftl kStateThinOrUnlocked kStateShift))).

Definition FromForwardingAddress (target : Z) : Z :=
  u32 (Z.lor (Z.shiftr target kStateSize) (u32 (Z.shiftl kStateForwardingAddress kStateShift))).

Definition FromHashCode (hash_code rb_state : Z) : outcome Z :=
  _ ← check (hash_code <=? kMaxHash);
  mret (Z.lor (Z.lor (u32 (Z.shiftl hash_code kHashShift)) (u32 (Z.shiftl rb_state kReadBarrierStateShift)))
          (u32 (Z.shiftl kStateHash kStateShift))).

Definition FromDefault (rb_state : Z) : Z := u32 (Z.shiftl rb_state kReadBarrierStateShift).

Definition LockWord_Default : Z := 0.

Definition IsDefault (lw : Z) : bool := LockWord_Default =? lw.

(** [LockWord(Monitor*, uint32_t)], with the id of the monitor. *)
Definition FromMonitorId (monitor_id rb_state : Z) : Z :=
  Z.lor (Z.lor monitor_id (u32 (Z.shiftl rb_state kReadBarrierStateShift))) (u32 (Z.shiftl kStateFat kStateShift)).

(** ** Queries *)

Inductive LockState := kUnlocked | kThinLocked | kFatLocked | kHashCode | kForwardingAddress.

Definition GetState (value_ : Z) : LockState :=
  if value_ =? 0 then kUnlocked
  else
    let internal_state := Z.land (Z.shiftr value_ kStateShift) kStateMask in
    if internal_state =? kStateThinOrUnlocked then kThinLocked
    else if internal_state =? kStateHash then kHashCode
    else if internal_state =? kStateForwardingAddress then kForwardingAddress
    else kFatLocked.

Definition ReadBarrierState (value_ : Z) : Z :=
  Z.land (Z.shiftr value_ kReadBarrierStateShift) kReadBarrierStateMask.

Definition SetReadBarrierState (value_ rb_state : Z) : Z :=
  Z.lor (Z.ldiff value_ (Z.shiftl kReadBarrierStateMask kReadBarrierStateShift))
    (Z.shiftl (Z.land rb_state kReadBarrierStateMask) kReadBarrierStateShift).

Definition ThinLockOwner (value_ : Z) : Z := Z.land (Z.shiftr value_ kThinLockOwnerShift) kThinLockOwnerMask.

Definition ThinLockCount (value_ : Z) : Z := Z.land (Z.shiftr value_ kThinLockCountShift) kThinLockCountMask.

(** [FatLockMonitor]: the id of the monitor. *)
Definition FatLockMonitorId (value_ : Z) : Z := Z.land (Z.shiftr value_ kMonitorIdShift) kMonitorIdMask.

Definition ForwardingAddress (value_ : Z) : Z := u32 (Z.shiftl value_ kStateSize).

(** [LockWord::GetHashCode]. *)
Definition LockWord_GetHashCode (value_ : Z) : Z := s32 (Z.land (Z.shiftr value_ kHashShift) kHashMask).

Definition GetValueWithoutReadBarrierState (value_ : Z) : Z :=
  Z.ldiff value_ (Z.shiftl kReadBarrierStateMask kReadBarrierStateShift).

Definition LockWord_Equal (kIncludeReadBarrierState : bool) (lw1 lw2 : Z) : bool :=
  if kIncludeReadBarrierState then lw1 =? lw2
  else GetValueWithoutReadBarrierState lw1 =? GetValueWithoutReadBarrierState lw2.

(** ** The words as numbers *)

(** The fields of a word, from the lowest bits: sixteen, twelve, two and two. *)
Definition word_of (low mid rb state : Z) : Z := low + mid * 2 ^ 16 + rb * 2 ^ 28 + state * 2 ^ 30.

Lemma land_mask_mod a n : 0 <= n -> Z.land a (Z.shiftl 1 n - 1) = a mod 2 ^ n.
Proof. rewrite Z.shiftl_1_l. apply land_ones_mod. Qed.

Section Fields.
Context (low mid rb state : Z).
Context (Hlow : 0 <= low < 2 ^ 16) (Hmid : 0 <= mid < 2 ^ 12) (Hrb : 0 <= rb < 4) (Hstate : 0 <= state < 4).

Lemma word_range : 0 <= word_of low mid rb state < 2 ^ 32.
Proof. unfold word_of. lia. Qed.

Lemma word_low : ThinLockOwner (word_of low mid rb state) = low.
Proof. unfold ThinLockOwner, kThinLockOwnerShift, kThinLockOwnerMask. rewrite Z.shiftr_0_r, land_mask_mod by (cbv; congruence). change kThinLockOwnerSize with 16. unfold word_of. mlia. Qed.

Lemma word_mid : ThinLockCount (word_of low mid rb state) = mid.
Proof.
  unfold ThinLockCount, kThinLockCountMask. rewrite land_mask_mod by (cbv; congruence).
  change kThinLockCountShift with 16. change kThinLockCountSize with 12. rewrite Z.shiftr_div_pow2 by lia. unfold word_of. mlia.
Qed.

Lemma word_rb : ReadBarrierState (word_of low mid rb state) = rb.
Proof.
  unfold ReadBarrierState, kReadBarrierStateMask. rewrite land_mask_mod by (cbv; congruence).
  change kReadBarrierStateShift with 28. change kReadBarrierStateSize with 2. rewrite Z.shiftr_div_pow2 by lia. unfold word_of. mlia.
Qed.

Lemma word_state_bits : Z.land (Z.shiftr (word_of low mid rb state) kStateShift) kStateMask = state.
Proof.
  unfold kStateMask. rewrite land_mask_mod by (cbv; congruence).
  change kStateShift with 30. change kStateSize with 2. rewrite Z.shiftr_div_pow2 by lia. unfold word_of. mlia.
Qed.

Lemma word_id : FatLockMonitorId (word_of low mid rb state) = low + mid * 2 ^ 16.
Proof.
  unfold FatLockMonitorId, kMonitorIdMask, kHashMask. change kMonitorIdShift with 0. rewrite Z.shiftr_0_r, land_mask_mod by (cbv; congruence).
  change kHashSize with 28. unfold word_of. mlia.
Qed.

Lemma word_hash : LockWord_GetHashCode (word_of low mid rb state) = low + mid * 2 ^ 16.
Proof.
  unfold LockWord_GetHashCode. change (Z.land _ _) with (FatLockMonitorId (word_of low mid rb state)). rewrite word_id.
  apply s32_small. lia.
Qed.

Lemma word_state :
  GetState (word_of low mid rb state) =
  if word_of low mid rb state =? 0 then kUnlocked
  else if state =? 0 then kThinLocked else if state =? 2 then kHashCode else if state =? 3 then kForwardingAddress else kFatLocked.
Proof. unfold GetState. rewrite word_state_bits. done. Qed.

Lemma lor_fields a b n : 0 <= n -> 0 <= a < 2 ^ n -> u32 (Z.shiftl b n) = Z.shiftl b n -> Z.lor a (u32 (Z.shiftl b n)) = a + b * 2 ^ n.
Proof. intros Hn Ha ->. by apply lor_shiftl_add. Qed.

End Fields.

(** Every word has its fields. *)
Lemma word_fields w : 0 <= w < 2 ^ 32 ->
  exists low mid rb state, w = word_of low mid rb state /\ 0 <= low < 2 ^ 16 /\ 0 <= mid < 2 ^ 12 /\ 0 <= rb < 4 /\ 0 <= state < 4.
Proof.
  intros Hw. exists (w mod 2 ^ 16), (w / 2 ^ 16 mod 2 ^ 12), (w / 2 ^ 28 mod 4), (w / 2 ^ 30). unfold word_of.
  pose proof (Z.mod_pos_bound w (2 ^ 16)). pose proof (Z.mod_pos_bound (w / 2 ^ 16) (2 ^ 12)).
  pose proof (Z.mod_pos_bound (w / 2 ^ 28) 4). split; [|repeat split; mlia].
  mlia.
Qed.

Lemma u32_shiftl_small b n : 0 <= n -> 0 <= b -> b * 2 ^ n < 2 ^ 32 -> u32 (Z.shiftl b n) = b * 2 ^ n.
Proof. intros Hn Hb Hlt. rewrite Z.shiftl_mul_pow2 by done. apply u32_small. nia. Qed.

Lemma FromThinLockId_ok o n rb : 0 <= o < 2 ^ 16 -> 0 <= n < 2 ^ 12 -> 0 <= rb < 4 -> FromThinLockId o n rb = Ok (word_of o n rb 0).
Proof.
  intros Ho Hn Hr. unfold FromThinLockId, check. change kThinLockMaxOwner with 65535. change kThinLockMaxCount with 4095.
  rewrite !(proj2 (Z.leb_le _ _)) by lia. cbn [mbind outcome_bind mret outcome_ret]. f_equal.
  change kThinLockOwnerShift with 0. change kThinLockCountShift with 16. change kReadBarrierStateShift with 28.
  rewrite (u32_shiftl_small o 0) by lia. rewrite Z.mul_1_r.
  rewrite (lor_fields o n 16) by (try lia; rewrite u32_shiftl_small, Z.shiftl_mul_pow2; lia).
  rewrite (lor_fields _ rb 28) by (try lia; rewrite u32_shiftl_small, Z.shiftl_mul_pow2; lia).
  change (u32 (Z.shiftl kStateThinOrUnlocked kStateShift)) with 0. rewrite Z.lor_0_r. unfold word_of. lia.
Qed.

Lemma FromHashCode_ok h rb : 0 <= h < 2 ^ 28 -> 0 <= rb < 4 -> FromHashCode h rb = Ok (word_of (h mod 2 ^ 16) (h / 2 ^ 16) rb 2).
Proof.
  intros Hh Hr. unfold FromHashCode, check. change kMaxHash with 268435455. rewrite (proj2 (Z.leb_le _ _)) by lia.
  cbn [mbind outcome_bind mret outcome_ret]. f_equal. change kHashShift with 0. change kReadBarrierStateShift with 28.
  rewrite (u32_shiftl_small h 0), Z.mul_1_r by lia.
  rewrite (lor_fields h rb 28) by (try lia; rewrite u32_shiftl_small, Z.shiftl_mul_pow2; lia).
  change kStateShift with 30. change kStateHash with 2.
  rewrite (lor_fields _ 2 30) by (try lia; rewrite u32_shiftl_small, Z.shiftl_mul_pow2; lia). unfold word_of. mlia.
Qed.

Lemma FromMonitorId_ok id rb : 0 <= id < 2 ^ 28 -> 0 <= rb < 4 -> FromMonitorId id rb = word_of (id mod 2 ^ 16) (id / 2 ^ 16) rb 1.
Proof.
  intros Hh Hr. unfold FromMonitorId. change kReadBarrierStateShift with 28.
  rewrite (lor_fields id rb 28) by (try lia; rewrite u32_shiftl_small, Z.shiftl_mul_pow2; lia).
  change kStateShift with 30. change kStateFat with 1.
  rewrite (lor_fields _ 1 30) by (try lia; rewrite u32_shiftl_small, Z.shiftl_mul_pow2; lia). unfold word_of. mlia.
Qed.

Lemma FromDefault_ok rb : 0 <= rb < 4 -> FromDefault rb = word_of 0 0 rb 0.
Proof. intros Hr. unfold FromDefault. change kReadBarrierStateShift with 28. rewrite u32_shiftl_small by lia. unfold word_of. lia. Qed.

Lemma FromForwardingAddress_ok a : 0 <= a < 2 ^ 30 -> FromForwardingAddress (a * 4) = a + 3 * 2 ^ 30.
Proof.
  intros Ha. unfold FromForwardingAddress. change kStateSize with 2. change kStateShift with 30. change kStateForwardingAddress with 3.
  rewrite Z.shiftr_div_pow2, Z.div_mul by lia. rewrite (lor_fields a 3 30) by (done || lia). apply u32_small. lia.
Qed.

(** A lock word holds what it was made from, by each of the five
    constructors: the words are classified by [GetState] and the accessors give
    the arguments back, for thin locks, hash codes, monitors, forwarding addresses
    that are aligned, and the default word (which without read barriers is
    unlocked only if the state of the barrier is zero).  And every word of 32
    bits is what the constructor for its state makes of its fields, so that
    inflating, hashing and moving an object lose nothing of it. *)
Theorem lock_word_roundtrip (w : Z) (H : 0 <= w < 2 ^ 32) :
  (match GetState w with
   | kUnlocked => w = FromDefault (ReadBarrierState w)
   | kThinLocked => FromThinLockId (ThinLockOwner w) (ThinLockCount w) (ReadBarrierState w) = Ok w
   | kFatLocked => FromMonitorId (FatLockMonitorId w) (ReadBarrierState w) = w
   | kHashCode => FromHashCode (LockWord_GetHashCode w) (ReadBarrierState w) = Ok w
   | kForwardingAddress => FromForwardingAddress (ForwardingAddress w) = w
   end) /\
  (forall owner count rb, 0 < owner <= kThinLockMaxOwner -> 0 <= count <= kThinLockMaxCount -> 0 <= rb < 4 ->
     exists lw, FromThinLockId owner count rb = Ok lw /\ GetState lw = kThinLocked /\
       ThinLockOwner lw = owner /\ ThinLockCount lw = count /\ ReadBarrierState lw = rb) /\
  (forall h rb, 0 <= h <= kMaxHash -> 0 <= rb < 4 ->
     exists lw, FromHashCode h rb = Ok lw /\ GetState lw = kHashCode /\ LockWord_GetHashCode lw = h /\ ReadBarrierState lw = rb) /\
  (forall id rb, 0 <= id <= kMaxMonitorId -> 0 <= rb < 4 ->
     GetState (FromMonitorId id rb) = kFatLocked /\ FatLockMonitorId (FromMonitorId id rb) = id /\ ReadBarrierState (FromMonitorId id rb) = rb) /\
  (forall target, 0 <= target < 2 ^ 32 -> target mod 4 = 0 ->
     GetState (FromForwardingAddress target) = kForwardingAddress /\ ForwardingAddress (FromForwardingAddress target) = target) /\
  (forall rb, 0 <= rb < 4 ->
     GetState (FromDefault rb) = (if rb =? 0 then kUnlocked else kThinLocked) /\ ReadBarrierState (FromDefault rb) = rb).
Proof.
  change kThinLockMaxOwner with (2 ^ 16 - 1). change kThinLockMaxCount with (2 ^ 12 - 1). change kMaxHash with (2 ^ 28 - 1). change kMaxMonitorId with (2 ^ 28 - 1).
  split_and!.
  - destruct (word_fields w H) as (low & mid & rb & state & -> & H1 & H2 & H3 & H4). rewrite word_state, word_rb by done.
    destruct (Z.eqb_spec (word_of low mid rb state) 0) as [H0|H0].
    { assert (low = 0 /\ mid = 0 /\ rb = 0 /\ state = 0) as (-> & -> & -> & ->) by (unfold word_of in H0; lia). done. }
    assert (forall x, x = low + mid * 2 ^ 16 -> 0 <= x < 2 ^ 28 /\ x mod 2 ^ 16 = low /\ x / 2 ^ 16 = mid) as Hsplit by (intros x ->; mlia).
    destruct (Hsplit _ eq_refl) as (S1 & S2 & S3).
    assert (state = 0 \/ state = 1 \/ state = 2 \/ state = 3) as [->|[->|[->| ->]]] by lia; cbn [Z.eqb Pos.eqb].
    + rewrite word_low, word_mid by done. by apply FromThinLockId_ok.
    + rewrite word_id by done. rewrite FromMonitorId_ok by done. by rewrite S2, S3.
    + rewrite word_hash by done. rewrite FromHashCode_ok by done. by rewrite S2, S3.
    + unfold ForwardingAddress. change kStateSize with 2. rewrite Z.shiftl_mul_pow2 by lia. unfold word_of in *.
      set (a := low + mid * 2 ^ 16 + rb * 2 ^ 28) in *. assert (0 <= a < 2 ^ 30) as Ha by (unfold a; lia).
      assert (u32 ((a + 3 * 2 ^ 30) * 2 ^ 2) = a * 4) as -> by (unfold u32; mlia). by apply FromForwardingAddress_ok.
  - intros owner count rb Ho Hc Hr. exists (word_of owner count rb 0). rewrite FromThinLockId_ok, word_state, word_low, word_mid, word_rb by lia.
    rewrite (proj2 (Z.eqb_neq (word_of owner count rb 0) 0)) by (unfold word_of; lia). done.
  - intros h rb Hh Hr. exists (word_of (h mod 2 ^ 16) (h / 2 ^ 16) rb 2). assert (0 <= h mod 2 ^ 16 < 2 ^ 16 /\ 0 <= h / 2 ^ 16 < 2 ^ 12 /\ h mod 2 ^ 16 + h / 2 ^ 16 * 2 ^ 16 = h) as (S1 & S2 & S3) by mlia.
    rewrite FromHashCode_ok, word_state, word_hash, word_rb by lia. rewrite (proj2 (Z.eqb_neq (word_of _ _ rb 2) 0)) by (unfold word_of; lia). done.
  - intros id rb Hi Hr. assert (0 <= id mod 2 ^ 16 < 2 ^ 16 /\ 0 <= id / 2 ^ 16 < 2 ^ 12 /\ id mod 2 ^ 16 + id / 2 ^ 16 * 2 ^ 16 = id) as (S1 & S2 & S3) by mlia.
    rewrite FromMonitorId_ok, word_state, word_id, word_rb by lia. rewrite (proj2 (Z.eqb_neq (word_of _ _ rb 1) 0)) by (unfold word_of; lia). done.
  - intros target Ht Hal. assert (exists a, target = a * 4 /\ 0 <= a < 2 ^ 30) as (a & -> & Ha) by (exists (target / 4); mlia).
    rewrite FromForwardingAddress_ok by done. split.
    + destruct (word_fields (a + 3 * 2 ^ 30)) as (low & mid & rb & state & Hw & H1 & H2 & H3 & H4); [lia|]. rewrite Hw, word_state by done.
      assert (state = 3) as -> by (unfold word_of in Hw; lia). rewrite (proj2 (Z.eqb_neq (word_of low mid rb 3) 0)) by (unfold word_of; lia). done.
    + unfold ForwardingAddress. change kStateSize with 2. rewrite Z.shiftl_mul_pow2 by lia. unfold u32. mlia.
  - intros rb Hr. rewrite FromDefault_ok, word_state, word_rb by lia.
    destruct (Z.eqb_spec rb 0) as [->|Hne]; [done|]. by rewrite (proj2 (Z.eqb_neq (word_of 0 0 rb 0) 0)) by (unfold word_of; lia).
Qed.

Lemma lock_word_roundtrip_witness : GetState 1073741831 = kFatLocked /\ FromMonitorId (FatLockMonitorId 1073741831) (ReadBarrierState 1073741831) = 1073741831.
Proof. split; [reflexivity|]. exact (proj1 (lock_word_roundtrip 1073741831 ltac:(lia))). Defined.
