(* ===== verification/Monitor.v ===== *)
(** * [monitor.cc]: locking, waiting and identity hash codes of an object

    The lock of one object in all its forms and the threads that use it, in
    atomic steps.  A thin lock is the lock word; contention, waiting, an
    identity hash code or too deep a recursion inflate it to a [Monitor], and a
    collection deflates it again.

    A step is one access to the lock word, one section of code under
    [monitor_lock_], or one change of another thread's state.  Where a section
    also takes the mutex of a waiting thread ([Wait], [Notify]), that thread can
    only be affected by code that holds its mutex, so the order of the other
    threads' steps does not matter.  A thread is identified by its id, as in the
    lock word, and a monitor by its id.  A thread that is asked to suspend goes on
    until it reaches a point where threads can be suspended ([suspendable]).

    Not part of the model: lock profiling, the list of all monitors, time (a
    timed wait may end at any moment, and [why] is not read), and memory that is
    weaker than sequentially consistent.  [lock_count_], an [int], is not
    bounded. *)

From S2P Require Import Prelude LockWord.

(** ** State *)

Record Monitor := mkMonitor {
  num_waiters_ : Z;
  owner_ : Z;       (** 0 for null *)
  lock_count_ : Z;
  wait_set_ : Z;    (** the first waiting thread; 0 for null *)
  hash_code_ : Z;
}.

Inductive WaitState := kTimedWaiting | kWaiting | kSleeping.

(** The arguments of [Wait]. *)
Record WaitArgs := mkWaitArgs { wait_ms : Z; wait_ns : Z; interruptShouldThrow : bool; wait_why : WaitState }.

(** Where [InflateThinLocked] and [Inflate] were called from, and [Lock]. *)
Inductive Caller := FromEnter (contention_count : Z) | FromHash | FromWait (a : WaitArgs).
Inductive LockReturn := ToEnter | ToWait (a : WaitArgs) (prev_lock_count : Z) (was_interrupted : bool).

(** Where a thread is; the arguments are its local variables. *)
Inductive PC :=
| Running
(** [MonitorEnter] *)
| EnterLoop (contention_count : Z)
| EnterCas (contention_count lock_word thin_locked : Z)
| EnterSet (thin_locked : Z)
(** [MonitorExit] *)
| ExitLoop
| ExitSet (new_lw : Z)
| ExitMonitor (mon : Z)
(** [IdentityHashCode] *)
| HashLoop
| HashCas (lw hash_word : Z)
| HashMonitor (mon : Z)
(** [InflateThinLocked], [Inflate] and [Install] *)
| SuspendOwner (from : Caller) (owner_thread_id hash_code : Z)
| SuspendRequested (from : Caller) (owner_thread_id hash_code : Z)
| OwnerSuspended (from : Caller) (owner_thread_id hash_code : Z)
| SuspendFailed (from : Caller)
| Install (from : Caller) (owner hash_code : Z) (suspended : option Z)
| InstallCas (from : Caller) (m : Monitor) (lw : Z) (suspended : option Z)
| Inflated (from : Caller) (installed : bool) (suspended : option Z)
(** [Lock] *)
| LockMonitor (to : LockReturn) (mon : Z)
| LockContended (to : LockReturn) (mon : Z)
| LockAsleep (to : LockReturn) (mon : Z)
| LockAwake (to : LockReturn) (mon : Z)
(** [Wait] *)
| WaitLoop (a : WaitArgs)
| WaitMonitor (a : WaitArgs) (mon : Z)
| WaitAsleep (a : WaitArgs) (mon prev_lock_count : Z)
| WaitAwake (a : WaitArgs) (mon prev_lock_count : Z)
| WaitLeave (a : WaitArgs) (mon prev_lock_count : Z) (was_interrupted : bool)
| WaitRestore (a : WaitArgs) (mon prev_lock_count : Z) (was_interrupted : bool)
(** [DoNotify] *)
| NotifyLoop (notify_all : bool)
| NotifyMonitor (notify_all : bool) (mon : Z).

(** How the last operation of a thread ended. *)
Inductive Result :=
| NoResult | Entered | Exited | Waited | Notified | HashCodeIs (hash_code : Z)
| IllegalMonitorState | IllegalArgument | InterruptedException.

(** [holds] is not part of the code: how often the thread has entered and not
    left again. *)
Record Thread := mkThread {
  pc : PC;
  interrupted_ : bool;
  wait_monitor_ : option Z;
  wait_next : Z;
  suspend_count : Z;
  holds : Z;
  result : Result;
}.

Record Config := mkConfig {
  lock_word : Z;
  monitors : gmap Z Monitor;
  threads : gmap Z Thread;
  hash_code_seed : Z;
}.

Definition set_lock_word (w : Z) (c : Config) : Config := mkConfig w (monitors c) (threads c) (hash_code_seed c).
Definition set_monitors (ms : gmap Z Monitor) (c : Config) : Config := mkConfig (lock_word c) ms (threads c) (hash_code_seed c).
Definition set_threads (ts : gmap Z Thread) (c : Config) : Config := mkConfig (lock_word c) (monitors c) ts (hash_code_seed c).
Definition set_seed (s : Z) (c : Config) : Config := mkConfig (lock_word c) (monitors c) (threads c) s.

Definition with_pc (p : PC) (th : Thread) : Thread :=
  mkThread p (interrupted_ th) (wait_monitor_ th) (wait_next th) (suspend_count th) (holds th) (result th).
Definition with_interrupted (b : bool) (th : Thread) : Thread :=
  mkThread (pc th) b (wait_monitor_ th) (wait_next th) (suspend_count th) (holds th) (result th).
Definition with_wait_monitor (m : option Z) (th : Thread) : Thread :=
  mkThread (pc th) (interrupted_ th) m (wait_next th) (suspend_count th) (holds th) (result th).
Definition with_wait_next (n : Z) (th : Thread) : Thread :=
  mkThread (pc th) (interrupted_ th) (wait_monitor_ th) n (suspend_count th) (holds th) (result th).
Definition with_suspend_count (n : Z) (th : Thread) : Thread :=
  mkThread (pc th) (interrupted_ th) (wait_monitor_ th) (wait_next th) n (holds th) (result th).
Definition with_holds (n : Z) (th : Thread) : Thread :=
  mkThread (pc th) (interrupted_ th) (wait_monitor_ th) (wait_next th) (suspend_count th) n (result th).
Definition with_result (r : Result) (th : Thread) : Thread :=
  mkThread (pc th) (interrupted_ th) (wait_monitor_ th) (wait_next th) (suspend_count th) (holds th) r.

Definition with_num_waiters (n : Z) (m : Monitor) : Monitor := mkMonitor n (owner_ m) (lock_count_ m) (wait_set_ m) (hash_code_ m).
Definition with_owner (o : Z) (m : Monitor) : Monitor := mkMonitor (num_waiters_ m) o (lock_count_ m) (wait_set_ m) (hash_code_ m).
Definition with_lock_count (n : Z) (m : Monitor) : Monitor := mkMonitor (num_waiters_ m) (owner_ m) n (wait_set_ m) (hash_code_ m).
Definition with_wait_set (t : Z) (m : Monitor) : Monitor := mkMonitor (num_waiters_ m) (owner_ m) (lock_count_ m) t (hash_code_ m).
Definition with_hash_code (h : Z) (m : Monitor) : Monitor := mkMonitor (num_waiters_ m) (owner_ m) (lock_count_ m) (wait_set_ m) h.

Definition get_thread (t : Z) : M Config Thread :=
  ts ← gets threads;
  match ts !! t with Some th => mret th | None => lift (Fault NullDereference) end.

Definition update_thread (t : Z) (f : Thread -> Thread) : M Config unit :=
  th ← get_thread t; modify (fun c => set_threads (<[t := f th]> (threads c)) c).

Definition get_monitor (mon : Z) : M Config Monitor :=
  ms ← gets monitors;
  match ms !! mon with Some m => mret m | None => lift (Fault NullDereference) end.

Definition update_monitor (mon : Z) (f : Monitor -> Monitor) : M Config unit :=
  m ← get_monitor mon; modify (fun c => set_monitors (<[mon := f m]> (monitors c)) c).

Definition goto (t : Z) (p : PC) : M Config unit := update_thread t (with_pc p).

(** The operation of a thread ends. *)
Definition finish (t : Z) (r : Result) : M Config unit :=
  update_thread t (fun th => with_pc Running (with_result r th)).

(** [GetLockWord], [SetLockWord] and [CasLockWordWeakSequentiallyConsistent],
    which may fail for no reason. *)
Definition GetLockWord : M Config Z := gets lock_word.
Definition SetLockWord (new_val : Z) : M Config unit := modify (set_lock_word new_val).
Definition CasLockWord (spurious : bool) (old_val new_val : Z) : M Config bool :=
  lw ← GetLockWord;
  if negb spurious && (lw =? old_val) then SetLockWord new_val ;; mret true else mret false.

(** ** Suspension *)

(** Where a thread is not runnable, or runs code that checks whether it is to
    suspend. *)
Definition suspendable (p : PC) : bool :=
  match p with
  | Running | SuspendOwner _ _ _ | SuspendRequested _ _ _ | OwnerSuspended _ _ _ | SuspendFailed _
  | LockContended _ _ | LockAsleep _ _ | LockAwake _ _
  | WaitAsleep _ _ _ | WaitAwake _ _ _ | WaitLeave _ _ _ _ => true
  | _ => false
  end.

(** [Thread::IsSuspended]. *)
Definition IsSuspended (th : Thread) : bool := suspendable (pc th) && (0 <? suspend_count th).

Definition ModifySuspendCount (t delta : Z) : M Config unit :=
  th ← get_thread t;
  if (delta <? 0) && (suspend_count th <=? 0) then lift (Fault FatalLog)
  else update_thread t (with_suspend_count (suspend_count th + delta)).

(** ** Wake-ups *)

(** [monitor_contenders_.Signal]: one of the threads asleep there, [wake], if
    there is any. *)
Definition asleep_on (mon : Z) (th : Thread) : bool :=
  match pc th with LockAsleep _ mon' => mon =? mon' | _ => false end.

Definition wake_contender (th : Thread) : Thread :=
  match pc th with LockAsleep to mon => with_pc (LockAwake to mon) th | _ => th end.

Definition SignalContender (mon wake : Z) : M Config unit :=
  ts ← gets threads;
  match ts !! wake with
  | Some th => whenM (asleep_on mon th) (update_thread wake wake_contender)
  | None => mret tt
  end.

(** [wait_cond_->Signal]. *)
Definition wake_waiter (th : Thread) : Thread :=
  match pc th with WaitAsleep a mon prev => with_pc (WaitAwake a mon prev) th | _ => th end.

Definition is_some {A} (o : option A) : bool := match o with Some _ => true | None => false end.

(** [Thread::NotifyLocked]. *)
Definition NotifyLocked (th : Thread) : Thread := if is_some (wait_monitor_ th) then wake_waiter th else th.

(** [Thread::Notify] and [Thread::Interrupt]. *)
Definition Thread_Notify (t : Z) : M Config unit := update_thread t NotifyLocked.

Definition Thread_Interrupt (t : Z) : M Config unit :=
  update_thread t (fun th => if interrupted_ th then th else NotifyLocked (with_interrupted true th)).

(** ** The wait set *)

(** The end of the list that starts at [t]. *)
Fixpoint last_waiter (fuel : nat) (t : Z) : M Config Z :=
  match fuel with
  | O => lift (Fault OutOfFuel)
  | S fuel =>
      th ← get_thread t;
      if negb (wait_next th =? 0) then last_waiter fuel (wait_next th) else mret t
  end.

Definition list_fuel : M Config nat := gets (fun c => size (threads c)).

Definition AppendToWaitSet (mon thread : Z) : M Config unit :=
  m ← get_monitor mon;
  if wait_set_ m =? 0 then update_monitor mon (with_wait_set thread)
  else
    fuel ← list_fuel;
    t ← last_waiter fuel (wait_set_ m);
    update_thread t (with_wait_next thread).

Fixpoint unlink_waiter (fuel : nat) (t thread : Z) : M Config unit :=
  match fuel with
  | O => lift (Fault OutOfFuel)
  | S fuel =>
      th ← get_thread t;
      if wait_next th =? 0 then mret tt
      else if wait_next th =? thread then
        removed ← get_thread thread;
        update_thread t (with_wait_next (wait_next removed)) ;;
        update_thread thread (with_wait_next 0)
      else unlink_waiter fuel (wait_next th) thread
  end.

Definition RemoveFromWaitSet (mon thread : Z) : M Config unit :=
  m ← get_monitor mon;
  if wait_set_ m =? 0 then mret tt
  else if wait_set_ m =? thread then
    th ← get_thread thread;
    update_monitor mon (with_wait_set (wait_next th)) ;;
    update_thread thread (with_wait_next 0)
  else
    fuel ← list_fuel;
    unlink_waiter fuel (wait_set_ m) thread.

(** ** Identity hash codes *)

(** [Object::GenerateIdentityHashCode]. *)
Fixpoint generate_hash (fuel : nat) (seed : Z) : outcome (Z * Z) :=
  match fuel with
  | O => Fault OutOfFuel
  | S fuel =>
      let expected_value := seed in
      let new_value := u32 (expected_value * 1103515245 + 12345) in
      if Z.land expected_value kHashMask =? 0 then generate_hash fuel new_value
      else mret (Z.land expected_value kHashMask, new_value)
  end.

(** Two values in a row cannot both be zero in the bits that are used. *)
Definition GenerateIdentityHashCode : M Config Z :=
  seed ← gets hash_code_seed;
  r ← lift (generate_hash 2 seed);
  modify (set_seed r.2) ;;
  mret r.1.

Definition HasHashCode (m : Monitor) : bool := negb (hash_code_ m =? 0).

Section Steps.
Context (max_spins : Z).

(** What a step may choose: whether a compare-and-exchange fails or a
    suspension times out for no reason of the model, the contender that a
    signal wakes, and the id of a new monitor. *)
Record Choice := mkChoice { spurious : bool; wake : Z; new_id : Z }.

(** ** Inflation *)

(** The loop that inflation returns to. *)
Definition back_to (from : Caller) : PC :=
  match from with FromEnter k => EnterLoop k | FromHash => HashLoop | FromWait a => WaitLoop a end.

(** [InflateThinLocked]. *)
Definition InflateThinLocked (self : Z) (from : Caller) (lw hash_code : Z) : M Config unit :=
  let owner_thread_id := ThinLockOwner lw in
  if owner_thread_id =? self then goto self (Install from self hash_code None)
  else goto self (SuspendOwner from owner_thread_id hash_code).

(** [SuspendThreadByThreadId].  [suspended_thread] is the thread whose count an
    earlier round has raised. *)
Definition kInvalidThreadId : Z := 0.

(** The end of a round: the thread is suspended, or the time is up, or another
    round follows. *)
Definition SuspendRoundEnds (timed_out : bool) (self : Z) (from : Caller) (owner_thread_id hash_code : Z) : M Config unit :=
  thread ← get_thread owner_thread_id;
  if IsSuspended thread then goto self (OwnerSuspended from owner_thread_id hash_code)
  else if timed_out then ModifySuspendCount owner_thread_id (-1) ;; goto self (SuspendFailed from)
  else goto self (SuspendRequested from owner_thread_id hash_code).

Definition SuspendRound (timed_out : bool) (self : Z) (from : Caller) (owner_thread_id hash_code : Z)
  (suspended_thread : option Z) : M Config unit :=
  ts ← gets threads;
  match ts !! owner_thread_id with
  | None => checkM (negb (is_some suspended_thread)) ;; goto self (SuspendFailed from)
  | Some thread =>
      th ← get_thread self;
      if negb (is_some suspended_thread) && (0 <? suspend_count th)
      then goto self (SuspendOwner from owner_thread_id hash_code)
      else
        (match suspended_thread with
         | None => ModifySuspendCount owner_thread_id 1
         | Some suspended => checkM (suspended =? owner_thread_id) ;; checkM (0 <? suspend_count thread)
         end) ;;
        checkM (negb (owner_thread_id =? self)) ;;
        SuspendRoundEnds timed_out self from owner_thread_id hash_code
  end.

(** The call and its first round. *)
Definition RequestSuspend (timed_out : bool) (self : Z) (from : Caller) (owner_thread_id hash_code : Z) : M Config unit :=
  checkM (negb (owner_thread_id =? kInvalidThreadId)) ;;
  SuspendRound timed_out self from owner_thread_id hash_code None.

(** Runnable again, the lock word is read again: [Inflate] is called if it has
    not changed. *)
Definition CheckOwnerSuspended (self : Z) (from : Caller) (owner_thread_id hash_code : Z) : M Config unit :=
  lw ← GetLockWord;
  match GetState lw with
  | kThinLocked =>
      if ThinLockOwner lw =? owner_thread_id
      then goto self (Install from owner_thread_id hash_code (Some owner_thread_id))
      else goto self (Inflated from false (Some owner_thread_id))
  | _ => goto self (Inflated from false (Some owner_thread_id))
  end.

(** [CHECK(owner == nullptr || owner == self || owner->IsSuspended())]. *)
Definition CheckOwner (self owner : Z) : M Config unit :=
  if (owner =? 0) || (owner =? self) then mret tt
  else th ← get_thread owner; checkM (IsSuspended th).

(** [Monitor::Monitor] and [Install] up to its compare-and-exchange. *)
Definition InstallRead (self : Z) (from : Caller) (owner hash_code : Z) (suspended : option Z) : M Config unit :=
  CheckOwner self owner ;;
  lw ← GetLockWord;
  match GetState lw with
  | kThinLocked =>
      (if owner =? 0 then lift (Fault NullDereference) else mret tt) ;;
      checkM (owner =? ThinLockOwner lw) ;;
      goto self (InstallCas from (mkMonitor 0 owner (ThinLockCount lw) 0 hash_code) lw suspended)
  | kHashCode =>
      checkM (hash_code =? LockWord_GetHashCode lw) ;;
      goto self (InstallCas from (mkMonitor 0 owner 0 0 hash_code) lw suspended)
  | kFatLocked => goto self (Inflated from false suspended)
  | kUnlocked => lift (Fault FatalLog)
  | kForwardingAddress => lift (Fault FatalLog)
  end.

(** The new monitor is published. *)
Definition InstallPublish (ch : Choice) (self : Z) (from : Caller) (m : Monitor) (lw : Z) (suspended : option Z)
  : M Config unit :=
  success ← CasLockWord (spurious ch) lw (FromMonitorId (new_id ch) (ReadBarrierState lw));
  whenM success (modify (fun c => set_monitors (<[new_id ch := m]> (monitors c)) c)) ;;
  goto self (Inflated from success suspended).

(** The end of [Inflate], and [Resume] in [InflateThinLocked]. *)
Definition InflateReturns (self : Z) (from : Caller) (installed : bool) (suspended : option Z) : M Config unit :=
  lw ← GetLockWord;
  whenM installed (checkM (match GetState lw with kFatLocked => true | _ => false end)) ;;
  (match suspended with Some owner => ModifySuspendCount owner (-1) | None => mret tt end) ;;
  goto self (back_to from).

(** ** [Lock] and [Unlock] *)

(** [Lock] returns. *)
Definition Locked (self : Z) (to : LockReturn) (mon : Z) : M Config unit :=
  match to with
  | ToEnter => update_thread self (fun th => with_holds (holds th + 1) th) ;; finish self Entered
  | ToWait a prev was_interrupted => goto self (WaitRestore a mon prev was_interrupted)
  end.

(** One round of the loop of [Lock], up to [monitor_lock_.Unlock]. *)
Definition Lock (self : Z) (to : LockReturn) (mon : Z) : M Config unit :=
  m ← get_monitor mon;
  if owner_ m =? 0 then
    update_monitor mon (with_owner self) ;;
    checkM (lock_count_ m =? 0) ;;
    Locked self to mon
  else if owner_ m =? self then
    update_monitor mon (with_lock_count (lock_count_ m + 1)) ;;
    Locked self to mon
  else
    update_monitor mon (with_num_waiters (num_waiters_ m + 1)) ;;
    goto self (LockContended to mon).

(** The blocked section: wait if the monitor is still owned. *)
Definition LockBlocked (self : Z) (to : LockReturn) (mon : Z) : M Config unit :=
  m ← get_monitor mon;
  if negb (owner_ m =? 0) then goto self (LockAsleep to mon) else goto self (LockAwake to mon).

(** Awake again, the next round starts. *)
Definition LockAgain (self : Z) (to : LockReturn) (mon : Z) : M Config unit :=
  update_monitor mon (fun m => with_num_waiters (num_waiters_ m - 1) m) ;;
  Lock self to mon.

(** [Monitor::Unlock]. *)
Definition Unlock (ch : Choice) (self mon : Z) : M Config unit :=
  m ← get_monitor mon;
  if owner_ m =? self then
    (if lock_count_ m =? 0 then
       update_monitor mon (with_owner 0) ;;
       SignalContender mon (wake ch)
     else update_monitor mon (with_lock_count (lock_count_ m - 1))) ;;
    update_thread self (fun th => with_holds (holds th - 1) th) ;;
    finish self Exited
  else finish self IllegalMonitorState.

(** ** [MonitorEnter], [MonitorExit] and [IdentityHashCode] *)

(** A thin lock was acquired by a compare-and-exchange or a store. *)
Definition EnterDone (self : Z) : M Config unit :=
  update_thread self (fun th => with_holds (holds th + 1) th) ;; finish self Entered.

Definition MonitorEnter_round (self contention_count : Z) : M Config unit :=
  lw ← GetLockWord;
  match GetState lw with
  | kUnlocked =>
      thin_locked ← lift (FromThinLockId self 0 (ReadBarrierState lw));
      goto self (EnterCas contention_count lw thin_locked)
  | kThinLocked =>
      if ThinLockOwner lw =? self then
        let new_count := u32 (ThinLockCount lw + 1) in
        if new_count <=? kThinLockMaxCount then
          thin_locked ← lift (FromThinLockId self new_count (ReadBarrierState lw));
          goto self (EnterSet thin_locked)
        else InflateThinLocked self (FromEnter contention_count) lw 0
      else
        let contention_count := contention_count + 1 in
        if contention_count <=? max_spins then goto self (EnterLoop contention_count)
        else InflateThinLocked self (FromEnter 0) lw 0
  | kFatLocked => goto self (LockMonitor ToEnter (FatLockMonitorId lw))
  | kHashCode => goto self (Install (FromEnter contention_count) 0 (LockWord_GetHashCode lw) None)
  | kForwardingAddress => lift (Fault FatalLog)
  end.

Definition MonitorEnter_cas (ch : Choice) (self contention_count lw thin_locked : Z) : M Config unit :=
  success ← CasLockWord (spurious ch) lw thin_locked;
  if (success : bool) then EnterDone self else goto self (EnterLoop contention_count).

Definition MonitorEnter_set (self thin_locked : Z) : M Config unit :=
  SetLockWord thin_locked ;; EnterDone self.

Definition MonitorExit_round (self : Z) : M Config unit :=
  lw ← GetLockWord;
  match GetState lw with
  | kHashCode | kUnlocked => finish self IllegalMonitorState
  | kThinLocked =>
      if negb (ThinLockOwner lw =? self) then finish self IllegalMonitorState
      else
        new_lw ← (if negb (ThinLockCount lw =? 0)
                  then lift (FromThinLockId self (u32 (ThinLockCount lw - 1)) (ReadBarrierState lw))
                  else mret (FromDefault (ReadBarrierState lw)));
        goto self (ExitSet new_lw)
  | kFatLocked => goto self (ExitMonitor (FatLockMonitorId lw))
  | kForwardingAddress => lift (Fault FatalLog)
  end.

Definition MonitorExit_set (self new_lw : Z) : M Config unit :=
  SetLockWord new_lw ;;
  update_thread self (fun th => with_holds (holds th - 1) th) ;;
  finish self Exited.

Definition IdentityHashCode_round (self : Z) : M Config unit :=
  lw ← GetLockWord;
  match GetState lw with
  | kUnlocked =>
      hash_code ← GenerateIdentityHashCode;
      hash_word ← lift (FromHashCode hash_code (ReadBarrierState lw));
      goto self (HashCas lw hash_word)
  | kThinLocked =>
      hash_code ← GenerateIdentityHashCode;
      InflateThinLocked self FromHash lw hash_code
  | kFatLocked => goto self (HashMonitor (FatLockMonitorId lw))
  | kHashCode => finish self (HashCodeIs (LockWord_GetHashCode lw))
  | kForwardingAddress => lift (Fault FatalLog)
  end.

Definition IdentityHashCode_cas (ch : Choice) (self lw hash_word : Z) : M Config unit :=
  success ← CasLockWord (spurious ch) lw hash_word;
  if (success : bool) then finish self (HashCodeIs (LockWord_GetHashCode hash_word)) else goto self HashLoop.

(** [Monitor::GetHashCode]. *)
Definition Monitor_GetHashCode (ch : Choice) (self mon : Z) : M Config unit :=
  m ← get_monitor mon;
  if HasHashCode m then finish self (HashCodeIs (hash_code_ m))
  else
    hash_code ← GenerateIdentityHashCode;
    if spurious ch then goto self (HashMonitor mon)
    else
      update_monitor mon (with_hash_code hash_code) ;;
      finish self (HashCodeIs hash_code).

(** ** [Wait] and [Notify] *)

(** [Wait(self, obj, ...)]. *)
Definition Wait_round (self : Z) (a : WaitArgs) : M Config unit :=
  lw ← GetLockWord;
  match GetState lw with
  | kFatLocked => goto self (WaitMonitor a (FatLockMonitorId lw))
  | kHashCode | kUnlocked => finish self IllegalMonitorState
  | kThinLocked =>
      if negb (ThinLockOwner lw =? self) then finish self IllegalMonitorState
      else goto self (Install (FromWait a) self 0 None)
  | kForwardingAddress => lift (Fault FatalLog)
  end.

(** [Monitor::Wait] until the thread sleeps. *)
Definition Wait (ch : Choice) (self : Z) (a : WaitArgs) (mon : Z) : M Config unit :=
  m ← get_monitor mon;
  if negb (owner_ m =? self) then finish self IllegalMonitorState
  else if (wait_ms a <? 0) || (wait_ns a <? 0) || (999999 <? wait_ns a) then finish self IllegalArgument
  else
    AppendToWaitSet mon self ;;
    update_monitor mon (fun m => with_owner 0 (with_lock_count 0 (with_num_waiters (num_waiters_ m + 1) m))) ;;
    update_thread self (with_wait_monitor (Some mon)) ;;
    SignalContender mon (wake ch) ;;
    th ← get_thread self;
    if interrupted_ th then goto self (WaitLeave a mon (lock_count_ m) true)
    else goto self (WaitAsleep a mon (lock_count_ m)).

(** Woken up: the interrupt flag is read and cleared. *)
Definition WaitWoken (self : Z) (a : WaitArgs) (mon prev_lock_count : Z) : M Config unit :=
  th ← get_thread self;
  update_thread self (with_interrupted false) ;;
  goto self (WaitLeave a mon prev_lock_count (interrupted_ th)).

(** Runnable again: the monitor is locked. *)
Definition WaitReacquire (self : Z) (a : WaitArgs) (mon prev_lock_count : Z) (was_interrupted : bool) : M Config unit :=
  update_thread self (with_wait_monitor None) ;;
  goto self (LockMonitor (ToWait a prev_lock_count was_interrupted) mon).

(** The end of [Monitor::Wait]. *)
Definition WaitReturns (self : Z) (a : WaitArgs) (mon prev_lock_count : Z) (was_interrupted : bool) : M Config unit :=
  update_monitor mon (fun m => with_owner self (with_lock_count prev_lock_count (with_num_waiters (num_waiters_ m - 1) m))) ;;
  RemoveFromWaitSet mon self ;;
  whenM was_interrupted (update_thread self (with_interrupted false)) ;;
  finish self (if was_interrupted && interruptShouldThrow a then InterruptedException else Waited).

(** [DoNotify]. *)
Definition DoNotify_round (self : Z) (notify_all : bool) : M Config unit :=
  lw ← GetLockWord;
  match GetState lw with
  | kHashCode | kUnlocked => finish self IllegalMonitorState
  | kThinLocked => finish self (if negb (ThinLockOwner lw =? self) then IllegalMonitorState else Notified)
  | kFatLocked => goto self (NotifyMonitor notify_all (FatLockMonitorId lw))
  | kForwardingAddress => lift (Fault FatalLog)
  end.

(** The first thread of the wait set is taken out. *)
Definition pop_waiter (mon thread : Z) : M Config unit :=
  th ← get_thread thread;
  update_monitor mon (with_wait_set (wait_next th)) ;;
  update_thread thread (with_wait_next 0).

Fixpoint Notify_loop (fuel : nat) (mon : Z) : M Config unit :=
  match fuel with
  | O => lift (Fault OutOfFuel)
  | S fuel =>
      m ← get_monitor mon;
      if wait_set_ m =? 0 then mret tt
      else
        let thread := wait_set_ m in
        pop_waiter mon thread ;;
        th ← get_thread thread;
        if is_some (wait_monitor_ th) then update_thread thread wake_waiter
        else Notify_loop fuel mon
  end.

Fixpoint NotifyAll_loop (fuel : nat) (mon : Z) : M Config unit :=
  match fuel with
  | O => lift (Fault OutOfFuel)
  | S fuel =>
      m ← get_monitor mon;
      if wait_set_ m =? 0 then mret tt
      else
        let thread := wait_set_ m in
        pop_waiter mon thread ;;
        Thread_Notify thread ;;
        NotifyAll_loop fuel mon
  end.

(** [Monitor::Notify] and [Monitor::NotifyAll]. *)
Definition Notify (self mon : Z) (notify_all : bool) : M Config unit :=
  m ← get_monitor mon;
  if negb (owner_ m =? self) then finish self IllegalMonitorState
  else
    fuel ← gets (fun c => S (size (threads c)));
    (if notify_all then NotifyAll_loop fuel mon else Notify_loop fuel mon) ;;
    finish self Notified.

(** ** [Deflate] *)

Definition Deflate : M Config bool :=
  lw ← GetLockWord;
  match GetState lw with
  | kFatLocked =>
      let mon := FatLockMonitorId lw in
      monitor ← get_monitor mon;
      if 0 <? num_waiters_ monitor then mret false
      else if negb (owner_ monitor =? 0) then
        if HasHashCode monitor then mret false
        else if kThinLockMaxCount <? lock_count_ monitor then mret false
        else
          new_lw ← lift (FromThinLockId (owner_ monitor) (lock_count_ monitor) (ReadBarrierState lw));
          SetLockWord new_lw ;;
          modify (fun c => set_monitors (delete mon (monitors c)) c) ;;
          mret true
      else
        new_lw ← (if HasHashCode monitor then lift (FromHashCode (hash_code_ monitor) (ReadBarrierState lw))
                  else mret (FromDefault (ReadBarrierState lw)));
        SetLockWord new_lw ;;
        modify (fun c => set_monitors (delete mon (monitors c)) c) ;;
        mret true
  | _ => mret true
  end.

(** ** The system *)

(** The operations of managed code. *)
Inductive Op := OpEnter | OpExit | OpHash | OpWait (a : WaitArgs) | OpNotify (notify_all : bool).

Definition op_pc (op : Op) : PC :=
  match op with
  | OpEnter => EnterLoop 0
  | OpExit => ExitLoop
  | OpHash => HashLoop
  | OpWait a => WaitLoop a
  | OpNotify notify_all => NotifyLoop notify_all
  end.

(** The next step of a thread that is at [p]. *)
Definition run_pc (ch : Choice) (self : Z) (p : PC) : M Config unit :=
  match p with
  | EnterLoop k => MonitorEnter_round self k
  | EnterCas k lw thin_locked => MonitorEnter_cas ch self k lw thin_locked
  | EnterSet thin_locked => MonitorEnter_set self thin_locked
  | ExitLoop => MonitorExit_round self
  | ExitSet new_lw => MonitorExit_set self new_lw
  | ExitMonitor mon => Unlock ch self mon
  | HashLoop => IdentityHashCode_round self
  | HashCas lw hash_word => IdentityHashCode_cas ch self lw hash_word
  | HashMonitor mon => Monitor_GetHashCode ch self mon
  | SuspendOwner from owner h => RequestSuspend (spurious ch) self from owner h
  | SuspendRequested from owner h => SuspendRound (spurious ch) self from owner h (Some owner)
  | OwnerSuspended from owner h => CheckOwnerSuspended self from owner h
  | SuspendFailed from => goto self (back_to from)
  | Install from owner h suspended => InstallRead self from owner h suspended
  | InstallCas from m lw suspended => InstallPublish ch self from m lw suspended
  | Inflated from installed suspended => InflateReturns self from installed suspended
  | LockMonitor to mon => Lock self to mon
  | LockContended to mon => LockBlocked self to mon
  | LockAwake to mon => LockAgain self to mon
  | WaitLoop a => Wait_round self a
  | WaitMonitor a mon => Wait ch self a mon
  | WaitAwake a mon prev => WaitWoken self a mon prev
  | WaitLeave a mon prev was => WaitReacquire self a mon prev was
  | WaitRestore a mon prev was => WaitReturns self a mon prev was
  | NotifyLoop notify_all => DoNotify_round self notify_all
  | NotifyMonitor notify_all mon => Notify self mon notify_all
  | Running | LockAsleep _ _ | WaitAsleep _ _ _ => mret tt
  end.

(** Becoming runnable again, or running managed code, waits while the thread is
    to be suspended. *)
Definition becomes_runnable (p : PC) : bool :=
  match p with
  | Running | SuspendOwner _ _ _ | SuspendRequested _ _ _ | OwnerSuspended _ _ _ | SuspendFailed _
  | LockAwake _ _ | WaitLeave _ _ _ _ => true
  | _ => false
  end.

Definition any_asleep (mon : Z) (c : Config) : bool := bool_decide (map_Exists (fun _ th => asleep_on mon th = true) (threads c)).

(** The choices that are possible: a signal wakes a thread if one is asleep, and
    the id of a monitor is free.  A round of [SuspendThreadByThreadId] that finds
    the thread neither suspended nor the time up changes nothing; it does not
    count as a step. *)
Definition choice_ok (ch : Choice) (p : PC) (c : Config) : bool :=
  match p with
  | ExitMonitor mon | WaitMonitor _ mon =>
      negb (any_asleep mon c) || (match threads c !! wake ch with Some th => asleep_on mon th | None => false end)
  | SuspendRequested _ owner _ =>
      spurious ch || (match threads c !! owner with Some th => IsSuspended th | None => false end)
  | InstallCas _ _ _ _ =>
      (0 <=? new_id ch) && (new_id ch <=? kMaxMonitorId) && negb (is_some (monitors c !! new_id ch))
  | _ => true
  end.

Definition enabled (ch : Choice) (th : Thread) (c : Config) : bool :=
  match pc th with
  | Running | LockAsleep _ _ | WaitAsleep _ _ _ => false
  | p => (negb (becomes_runnable p) || (suspend_count th =? 0)) && choice_ok ch p c
  end.

Inductive Action :=
| Start (t : Z) (op : Op)
| Go (t : Z) (ch : Choice)
| WakeUp (t : Z)     (** a time-out, or for no reason *)
| Interrupt (t : Z)
| Collect.

Definition all_suspendable (c : Config) : bool := bool_decide (map_Forall (fun _ th => suspendable (pc th) = true) (threads c)).

(** A step of the system; nothing where it is not possible. *)
Definition step (a : Action) (c : Config) : option (outcome Config) :=
  let run m := Some (match m c with Ok (_, c') => Ok c' | Fault f => Fault f end) in
  match a with
  | Start t op =>
      match threads c !! t with
      | Some th =>
          match pc th with
          | Running => if suspend_count th =? 0 then run (goto t (op_pc op)) else None
          | _ => None
          end
      | None => None
      end
  | Go t ch =>
      match threads c !! t with
      | Some th => if enabled ch th c then run (run_pc ch t (pc th)) else None
      | None => None
      end
  | WakeUp t =>
      match threads c !! t with
      | Some th => run (update_thread t (fun th => wake_waiter (wake_contender th)))
      | None => None
      end
  | Interrupt t => match threads c !! t with Some th => run (Thread_Interrupt t) | None => None end
  | Collect => if all_suspendable c then run (_ ← Deflate; mret tt) else None
  end.

Definition cstep (c c' : Config) : Prop := exists a, step a c = Some (Ok c').

End Steps.

(** An object that was never locked, and threads that run managed code. *)
Record initial (c : Config) : Prop := {
  in_word : lock_word c = 0;
  in_monitors : monitors c = ∅;
  in_seed : 0 <= hash_code_seed c < 2 ^ 32;
  in_ids : forall t th, threads c !! t = Some th -> 0 < t <= kThinLockMaxOwner;
  in_threads : forall t th, threads c !! t = Some th ->
    exists i, th = mkThread Running i None 0 0 0 NoResult;
}.

Definition reachable (max_spins : Z) (c : Config) : Prop := exists c0, initial c0 /\ rtc (cstep max_spins) c0 c.
