(* ===== verification/MonitorInvariant.v ===== *)
(** * The invariant of the monitor model: lock word and inflation

    What holds of the lock word, the monitor, the wait set, the suspensions and
    every thread's position in every reachable state ([Inv]), and that the
    steps on the lock word, thin locking, hash codes and inflation, keep it. *)

From S2P Require Import Prelude LockWord Monitor.

(** ** Executing the steps *)

Definition put (t : Z) (th : Thread) (c : Config) : Config := set_threads (<[t := th]> (threads c)) c.
Definition put_monitor (mon : Z) (m : Monitor) (c : Config) : Config := set_monitors (<[mon := m]> (monitors c)) c.

Lemma get_thread_ok t th c : threads c !! t = Some th -> get_thread t c = Ok (th, c).
Proof. intros Hth. unfold get_thread. rewrite bind_gets. by rewrite Hth. Qed.

Lemma update_thread_ok t f th c : threads c !! t = Some th -> update_thread t f c = Ok (tt, put t (f th) c).
Proof. intros Hth. unfold update_thread. by rewrite (bind_ok _ _ _ _ _ (get_thread_ok t th c Hth)). Qed.

Lemma get_monitor_ok mon m c : monitors c !! mon = Some m -> get_monitor mon c = Ok (m, c).
Proof. intros Hm. unfold get_monitor. rewrite bind_gets. by rewrite Hm. Qed.

Lemma update_monitor_ok mon f m c : monitors c !! mon = Some m -> update_monitor mon f c = Ok (tt, put_monitor mon (f m) c).
Proof. intros Hm. unfold update_monitor. by rewrite (bind_ok _ _ _ _ _ (get_monitor_ok mon m c Hm)). Qed.

Lemma goto_ok t p th c : threads c !! t = Some th -> goto t p c = Ok (tt, put t (with_pc p th) c).
Proof. apply update_thread_ok. Qed.

Lemma finish_runs t r th c : threads c !! t = Some th -> finish t r c = Ok (tt, put t (with_pc Running (with_result r th)) c).
Proof. intros Hth. unfold finish. by rewrite (update_thread_ok _ _ _ _ Hth). Qed.

Lemma put_lookup t th c : threads (put t th c) !! t = Some th.
Proof. apply lookup_insert_eq. Qed.

Lemma put_lookup_ne t u th c : u <> t -> threads (put t th c) !! u = threads c !! u.
Proof. intros Hne. by apply lookup_insert_ne. Qed.

Lemma put_put t th th' c : put t th' (put t th c) = put t th' c.
Proof. unfold put, set_threads. cbn. by rewrite insert_insert_eq. Qed.

(** ** What a lock word says *)

Inductive View := Free | Thin (o n : Z) | Fat (id : Z) | Hashed (h : Z).

Definition encode (v : View) : Z :=
  match v with
  | Free => 0
  | Thin o n => word_of o n 0 0
  | Fat id => word_of (id mod 2 ^ 16) (id / 2 ^ 16) 0 1
  | Hashed h => word_of (h mod 2 ^ 16) (h / 2 ^ 16) 0 2
  end.

Definition view_ok (v : View) : Prop :=
  match v with
  | Free => True
  | Thin o n => 0 < o < 2 ^ 16 /\ 0 <= n < 2 ^ 12
  | Fat id => 0 <= id < 2 ^ 28
  | Hashed h => 0 < h < 2 ^ 28
  end.

Lemma split_28 x : 0 <= x < 2 ^ 28 -> 0 <= x mod 2 ^ 16 < 2 ^ 16 /\ 0 <= x / 2 ^ 16 < 2 ^ 12 /\ x mod 2 ^ 16 + x / 2 ^ 16 * 2 ^ 16 = x.
Proof. intros Hx. mlia. Qed.

Lemma encode_state v : view_ok v ->
  GetState (encode v) = match v with Free => kUnlocked | Thin _ _ => kThinLocked | Fat _ => kFatLocked | Hashed _ => kHashCode end.
Proof.
  destruct v as [|o n|id|h]; intros Hv; cbn [encode view_ok] in *; [done|..].
  - rewrite word_state by lia. rewrite (proj2 (Z.eqb_neq _ 0)) by (unfold word_of; lia). done.
  - destruct (split_28 id Hv) as (H1 & H2 & _). rewrite word_state by lia. rewrite (proj2 (Z.eqb_neq _ 0)) by (unfold word_of; lia). done.
  - destruct (split_28 h) as (H1 & H2 & _); [lia|]. rewrite word_state by lia. rewrite (proj2 (Z.eqb_neq _ 0)) by (unfold word_of; lia). done.
Qed.

Lemma encode_thin o n : view_ok (Thin o n) -> ThinLockOwner (encode (Thin o n)) = o /\ ThinLockCount (encode (Thin o n)) = n.
Proof. intros [H1 H2]. cbn [encode]. by rewrite word_low, word_mid by lia. Qed.

Lemma encode_fat id : view_ok (Fat id) -> FatLockMonitorId (encode (Fat id)) = id.
Proof. intros Hv. cbn [encode]. destruct (split_28 id Hv) as (H1 & H2 & H3). by rewrite word_id by lia. Qed.

Lemma encode_hash h : view_ok (Hashed h) -> LockWord_GetHashCode (encode (Hashed h)) = h.
Proof. intros Hv. cbn [encode view_ok] in *. destruct (split_28 h) as (H1 & H2 & H3); [lia|]. by rewrite word_hash by lia. Qed.

Lemma encode_rb v : view_ok v -> ReadBarrierState (encode v) = 0.
Proof.
  destruct v as [|o n|id|h]; intros Hv; cbn [encode view_ok] in *; [done|..].
  - by rewrite word_rb by lia.
  - destruct (split_28 id Hv) as (H1 & H2 & _). by rewrite word_rb by lia.
  - destruct (split_28 h) as (H1 & H2 & _); [lia|]. by rewrite word_rb by lia.
Qed.

Lemma encode_inj v w : view_ok v -> view_ok w -> encode v = encode w -> v = w.
Proof.
  intros Hv Hw Heq. pose proof (encode_state v Hv) as Hs. rewrite Heq, (encode_state w Hw) in Hs.
  destruct v as [|o n|id|h], w as [|o' n'|id'|h']; try done.
  - destruct (encode_thin o n Hv), (encode_thin o' n' Hw). rewrite Heq in *. congruence.
  - rewrite <- (encode_fat id Hv), <- (encode_fat id' Hw). by rewrite Heq.
  - rewrite <- (encode_hash h Hv), <- (encode_hash h' Hw). by rewrite Heq.
Qed.

Lemma make_thin o n : view_ok (Thin o n) -> FromThinLockId o n 0 = Ok (encode (Thin o n)).
Proof. intros [H1 H2]. apply FromThinLockId_ok; lia. Qed.

Lemma make_fat id : view_ok (Fat id) -> FromMonitorId id 0 = encode (Fat id).
Proof. intros Hv. apply FromMonitorId_ok; [done|lia]. Qed.

Lemma make_hash h : view_ok (Hashed h) -> FromHashCode h 0 = Ok (encode (Hashed h)).
Proof. intros Hv. cbn [view_ok] in Hv. apply FromHashCode_ok; lia. Qed.

(** The seed of the hash codes: a code is found at the second try at the latest. *)
Lemma generate_hash_ok seed : 0 <= seed < 2 ^ 32 -> exists h seed', generate_hash 2 seed = Ok (h, seed') /\ 0 < h < 2 ^ 28 /\ 0 <= seed' < 2 ^ 32.
Proof.
  intros Hs. assert (forall x, Z.land x kHashMask = x mod 2 ^ 28) as Hm by (intros x; by apply land_mask_mod).
  cbn [generate_hash]. rewrite !Hm. pose proof (u32_range (seed * 1103515245 + 12345)) as Hr.
  pose proof (u32_range (u32 (seed * 1103515245 + 12345) * 1103515245 + 12345)) as Hr2.
  destruct (Z.eqb_spec (seed mod 2 ^ 28) 0) as [H0|H0].
  - assert (u32 (seed * 1103515245 + 12345) mod 2 ^ 28 = 12345) as H1.
    { unfold u32. rewrite Z.mod_mod_divide by (exists 16; lia).
      apply Z.mod_divide in H0 as [k ->]; [|lia]. replace (k * 2 ^ 28 * 1103515245 + 12345) with (12345 + (k * 1103515245) * 2 ^ 28) by lia.
      by rewrite Z.mod_add by lia. }
    rewrite H1. cbn [Z.eqb]. eexists _, _. split; [reflexivity|]. split; [lia|exact Hr2].
  - eexists _, _. split; [reflexivity|]. split; [|exact Hr]. pose proof (Z.mod_pos_bound seed (2 ^ 28)). lia.
Qed.

(** ** The invariant *)

(** The owner of the lock and how often it is locked. *)
Definition lock_view (v : View) (ms : gmap Z Monitor) : option (Z * Z) :=
  match v with
  | Thin o n => Some (o, n + 1)
  | Fat id =>
      match ms !! id with
      | Some m => if owner_ m =? 0 then None else Some (owner_ m, lock_count_ m + 1)
      | None => None
      end
  | Free | Hashed _ => None
  end.

(** How often the thread [t] has locked the object. *)
Definition depth (v : View) (ms : gmap Z Monitor) (t : Z) : Z :=
  match lock_view v ms with Some (o, n) => if o =? t then n else 0 | None => 0 end.

(** The identity hash code of the object, when it has one. *)
Definition hash_view (v : View) (ms : gmap Z Monitor) : option Z :=
  match v with
  | Hashed h => Some h
  | Fat id => match ms !! id with Some m => if HasHashCode m then Some (hash_code_ m) else None | None => None end
  | Free | Thin _ _ => None
  end.

(** The count that a thread in [Wait] restores. *)
Definition saved (p : PC) : option Z :=
  match p with
  | WaitAsleep _ _ prev | WaitAwake _ _ prev | WaitLeave _ _ prev _ | WaitRestore _ _ prev _ => Some prev
  | LockMonitor (ToWait _ prev _) _ | LockContended (ToWait _ prev _) _ | LockAsleep (ToWait _ prev _) _
  | LockAwake (ToWait _ prev _) _ => Some prev
  | _ => None
  end.

(** How often a thread owns the lock, by its own account. *)
Definition owned (th : Thread) : Z :=
  match saved (pc th) with
  | None => holds th
  | Some _ => match pc th with WaitRestore _ _ _ _ => 1 | _ => 0 end
  end.

Definition waits_at (p : PC) : option Z :=
  match p with WaitAsleep _ mon _ | WaitAwake _ mon _ | WaitLeave _ mon _ _ => Some mon | _ => None end.

(** The thread that [InflateThinLocked] has suspended. *)
Definition target (p : PC) : option Z :=
  match p with
  | SuspendRequested _ o _ | OwnerSuspended _ o _ => Some o
  | Install _ _ _ s | InstallCas _ _ _ s | Inflated _ _ s => s
  | _ => None
  end.

(** The suspension has taken effect. *)
Definition confirmed (p : PC) : bool := match p with SuspendRequested _ _ _ => false | _ => true end.

Definition contends (p : PC) : bool := match p with LockContended _ _ | LockAsleep _ _ | LockAwake _ _ => true | _ => false end.

(** The thread whose suspension a thread waits for or keeps up. *)
Definition wants (p : PC) : option Z := match p with SuspendOwner _ o _ => Some o | _ => target p end.

(** A thread that cannot hold the lock. *)
Definition outside (p : PC) : bool := contends p || is_some (wants p).

(** What a thread adds to [num_waiters_]. *)
Definition weight (p : PC) : Z := (if contends p then 1 else 0) + (if is_some (saved p) then 1 else 0).

(** A thread that will try to lock the monitor without being woken. *)
Definition awake_on (mon : Z) (th : Thread) : bool :=
  match pc th with LockMonitor _ m | LockContended _ m | LockAwake _ m => mon =? m | _ => false end.

Definition is_fat (v : View) : Prop := exists id, v = Fat id.

(** The monitor that [Inflate] has made from the lock word [v0]. *)
Definition made_from (v0 : View) (m : Monitor) : Prop :=
  match v0 with
  | Thin o n => exists h, 0 <= h < 2 ^ 28 /\ m = mkMonitor 0 o n 0 h
  | Hashed h => m = mkMonitor 0 0 0 0 h
  | _ => False
  end.

(** What the position of a thread says about the lock. *)
Definition pc_ok (v : View) (t : Z) (p : PC) : Prop :=
  match p with
  | EnterCas _ lw w => lw = 0 /\ w = encode (Thin t 0)
  | EnterSet w => exists n, v = Thin t n /\ n + 1 < 2 ^ 12 /\ w = encode (Thin t (n + 1))
  | ExitSet w => exists n, v = Thin t n /\ w = (if n =? 0 then 0 else encode (Thin t (n - 1)))
  | ExitMonitor mon | HashMonitor mon | LockMonitor _ mon | LockContended _ mon | LockAsleep _ mon | LockAwake _ mon
  | WaitMonitor _ mon | WaitAsleep _ mon _ | WaitAwake _ mon _ | WaitLeave _ mon _ _ | WaitRestore _ mon _ _
  | NotifyMonitor _ mon => v = Fat mon
  | HashCas lw w => lw = 0 /\ exists h, 0 < h < 2 ^ 28 /\ w = encode (Hashed h)
  | SuspendOwner _ o h | SuspendRequested _ o h | OwnerSuspended _ o h => (o <> t /\ o <> 0) /\ 0 <= h < 2 ^ 28
  | Install _ o h s => 0 <= h < 2 ^ 28 /\
      ((o = 0 /\ s = None /\ (v = Hashed h \/ is_fat v)) \/
       (o = t /\ s = None /\ exists n, v = Thin t n) \/
       (o <> 0 /\ o <> t /\ s = Some o /\ ((exists n, v = Thin o n) \/ is_fat v)))
  | InstallCas _ m lw s => exists v0, view_ok v0 /\ lw = encode v0 /\ made_from v0 m /\ (v = v0 \/ is_fat v) /\
      match v0 with Thin o _ => if o =? t then s = None else s = Some o | _ => s = None end
  | Inflated _ installed s => (installed = true -> is_fat v) /\ s <> Some t
  | Running | EnterLoop _ | ExitLoop | HashLoop | SuspendFailed _ | WaitLoop _ | NotifyLoop _ => True
  end.

Record thread_ok (v : View) (d t : Z) (th : Thread) : Prop := {
  to_id : 0 < t < 2 ^ 16;
  to_owned : owned th = d;
  to_saved : forall prev, saved (pc th) = Some prev -> 0 <= prev /\ holds th = prev + 1;
  to_pc : pc_ok v t (pc th);
  to_wait : wait_monitor_ th = waits_at (pc th);
  to_out : outside (pc th) = true -> d = 0;
}.

(** The threads of the wait set, first to last. *)
Definition next_of (ts : gmap Z Thread) (t : Z) : Z := match ts !! t with Some th => wait_next th | None => 0 end.

Fixpoint linked (ts : gmap Z Thread) (head : Z) (ws : list Z) : Prop :=
  match ws with
  | [] => head = 0
  | t :: ws => head = t /\ linked ts (next_of ts t) ws
  end.

Definition is_asleep (p : PC) : bool := match p with WaitAsleep _ _ _ => true | _ => false end.

Record wait_set_ok (ts : gmap Z Thread) (head : Z) (ws : list Z) : Prop := {
  ws_linked : linked ts head ws;
  ws_nodup : NoDup ws;
  ws_in : forall t, t ∈ ws -> exists th, ts !! t = Some th /\ is_some (saved (pc th)) = true;
  ws_out : forall t th, ts !! t = Some th -> t ∉ ws -> wait_next th = 0;
  ws_asleep : forall t th, ts !! t = Some th -> is_asleep (pc th) = true -> t ∈ ws;
}.

Record monitor_ok (ts : gmap Z Thread) (id : Z) (m : Monitor) : Prop := {
  mo_free : owner_ m = 0 -> lock_count_ m = 0;
  mo_count : 0 <= lock_count_ m;
  mo_owner : owner_ m <> 0 -> is_Some (ts !! owner_ m);
  mo_hash : 0 <= hash_code_ m < 2 ^ 28;
  mo_waiters : num_waiters_ m = total (fun th => weight (pc th)) ts;
  mo_wake : owner_ m = 0 -> (exists t th, ts !! t = Some th /\ asleep_on id th = true) ->
    exists t th, ts !! t = Some th /\ awake_on id th = true;
  mo_waits : exists ws, wait_set_ok ts (wait_set_ m) ws;
}.

(** The monitor, if there is one. *)
Definition lock_ok (v : View) (ms : gmap Z Monitor) (ts : gmap Z Thread) : Prop :=
  match v with
  | Fat id => exists m, ms = {[id := m]} /\ monitor_ok ts id m
  | Thin o n => ms = ∅ /\ is_Some (ts !! o) /\ forall t th, ts !! t = Some th -> wait_next th = 0
  | _ => ms = ∅ /\ forall t th, ts !! t = Some th -> wait_next th = 0
  end.

(** Suspensions: the count of a thread is the number of threads that suspend
    it, a thread whose suspension has taken effect stays where it is, and no
    threads suspend each other. *)
Definition suspends (u : Z) (th : Thread) : Z := if bool_decide (target (pc th) = Some u) then 1 else 0.

Definition no_cycle (ts : gmap Z Thread) : Prop :=
  exists rank : Z -> Z, forall t th o tho, ts !! t = Some th -> wants (pc th) = Some o -> ts !! o = Some tho ->
    is_some (wants (pc tho)) = true -> rank t < rank o.

Record suspend_ok (ts : gmap Z Thread) : Prop := {
  su_count : forall u th, ts !! u = Some th -> suspend_count th = total (suspends u) ts;
  su_target : forall t th u, ts !! t = Some th -> target (pc th) = Some u -> u <> t /\
    exists thu, ts !! u = Some thu /\ (confirmed (pc th) = true -> suspendable (pc thu) = true);
  su_rank : no_cycle ts;
}.

Record Inv (c : Config) (v : View) : Prop := {
  iv_word : lock_word c = encode v;
  iv_view : view_ok v;
  iv_seed : 0 <= hash_code_seed c < 2 ^ 32;
  iv_threads : forall t th, threads c !! t = Some th -> thread_ok v (depth v (monitors c) t) t th;
  iv_lock : lock_ok v (monitors c) (threads c);
  iv_suspend : suspend_ok (threads c);
  iv_hash : forall t th h, threads c !! t = Some th -> result th = HashCodeIs h -> hash_view v (monitors c) = Some h;
}.

(** *** Changing one thread *)

Lemma next_of_local ts t th th' u :
  ts !! t = Some th -> wait_next th' = wait_next th -> next_of (<[t := th']> ts) u = next_of ts u.
Proof.
  intros Hth Hn. unfold next_of. destruct (decide (u = t)) as [->|Hne].
  - by rewrite lookup_insert_eq, Hth.
  - by rewrite lookup_insert_ne.
Qed.

Lemma linked_ext ts ts' head ws : (forall u, u ∈ ws -> next_of ts' u = next_of ts u) -> linked ts head ws -> linked ts' head ws.
Proof.
  revert head. induction ws as [|w ws IH]; intros head Hext Hl; [done|]. destruct Hl as [-> Hl]. split; [done|].
  rewrite Hext by (by left). apply IH; [|done]. intros u Hu. apply Hext. by right.
Qed.

Lemma wait_set_local ts t th th' head ws :
  wait_set_ok ts head ws -> ts !! t = Some th -> wait_next th' = wait_next th ->
  (is_some (saved (pc th)) = true -> is_some (saved (pc th')) = true) ->
  (is_asleep (pc th') = true -> is_asleep (pc th) = true) ->
  wait_set_ok (<[t := th']> ts) head ws.
Proof.
  intros [Hl Hnd Hin Hout Has] Hth Hn Hs Ha. constructor; [|done|..].
  - eapply linked_ext; [|done]. intros u _. by apply next_of_local with th.
  - intros u Hu. destruct (Hin u Hu) as (thu & Hthu & Hsu). destruct (decide (u = t)) as [->|Hne].
    + exists th'. rewrite lookup_insert_eq. split; [done|]. apply Hs. congruence.
    + exists thu. by rewrite lookup_insert_ne.
  - intros u thu Hu Hnot. apply lookup_insert_Some in Hu as [[<- <-]|[Hne Hu]]; [rewrite Hn; by apply (Hout t)|by apply (Hout u)].
  - intros u thu Hu Hau. apply lookup_insert_Some in Hu as [[<- <-]|[Hne Hu]]; [apply (Has t th Hth), Ha, Hau|by apply (Has u thu)].
Qed.

Lemma exists_local (P Q : Thread -> Prop) (ts : gmap Z Thread) t th th' :
  ts !! t = Some th -> (P th -> Q th') -> (forall x, P x -> Q x) ->
  (exists u thu, ts !! u = Some thu /\ P thu) -> exists u thu, <[t := th']> ts !! u = Some thu /\ Q thu.
Proof.
  intros Hth HPQ Hmono (u & thu & Hu & HP). destruct (decide (u = t)) as [->|Hne].
  - exists t, th'. rewrite lookup_insert_eq. split; [done|]. apply HPQ. congruence.
  - exists u, thu. rewrite lookup_insert_ne by done. auto.
Qed.

Lemma exists_local_back (P Q : Thread -> Prop) (ts : gmap Z Thread) t th th' :
  ts !! t = Some th -> (P th' -> Q th) -> (forall x, P x -> Q x) ->
  (exists u thu, <[t := th']> ts !! u = Some thu /\ P thu) -> exists u thu, ts !! u = Some thu /\ Q thu.
Proof.
  intros Hth HPQ Hmono (u & thu & Hu & HP). apply lookup_insert_Some in Hu as [[<- <-]|[Hne Hu]].
  - exists t, th. auto.
  - exists u, thu. auto.
Qed.

Lemma is_Some_local (ts : gmap Z Thread) t th' u : is_Some (ts !! u) -> is_Some (<[t := th']> ts !! u).
Proof. intros Hs. destruct (decide (u = t)) as [->|Hne]; [rewrite lookup_insert_eq; eauto|by rewrite lookup_insert_ne]. Qed.

(** The thread stays awake or asleep, and keeps its place in the wait set. *)
Record keeps_place (th th' : Thread) : Prop := {
  kp_next : wait_next th' = wait_next th;
  kp_weight : weight (pc th') = weight (pc th);
  kp_saved : is_some (saved (pc th)) = true -> is_some (saved (pc th')) = true;
  kp_asleep : is_asleep (pc th') = true -> is_asleep (pc th) = true;
  kp_lock_asleep : forall id, asleep_on id th' = true -> asleep_on id th = true;
  kp_lock_awake : forall id, awake_on id th = true -> awake_on id th' = true;
}.

Lemma monitor_local ts t th th' id m :
  monitor_ok ts id m -> ts !! t = Some th -> keeps_place th th' -> monitor_ok (<[t := th']> ts) id m.
Proof.
  intros [H1 H2 H3 H4 H5 H6 (ws & Hws)] Hth [K1 K2 K3 K4 K5 K6].
  constructor; [done|done|intros Ho; by apply is_Some_local, H3|done|..].
  - rewrite (total_insert _ t th) by done. rewrite K2. lia.
  - intros Ho Hex. apply (exists_local (fun x => awake_on id x = true) _ ts t th th' Hth (K6 id) (fun _ H => H)), H6; [done|].
    eapply (exists_local_back (fun x => asleep_on id x = true)); [exact Hth|apply K5|auto|exact Hex].
  - exists ws. by apply (wait_set_local ts t th).
Qed.

Lemma lock_local v ms ts t th th' :
  lock_ok v ms ts -> ts !! t = Some th -> keeps_place th th' -> lock_ok v ms (<[t := th']> ts).
Proof.
  intros Hl Hth Hk. destruct v as [|o n|id|h]; cbn [lock_ok] in *.
  - destruct Hl as [-> Hn]. split; [done|]. intros u thu [[<- <-]|[Hne Hu]]%lookup_insert_Some; [rewrite (kp_next _ _ Hk)|]; by eapply Hn.
  - destruct Hl as (-> & Ho & Hn). split_and!; [done|by apply is_Some_local|].
    intros u thu [[<- <-]|[Hne Hu]]%lookup_insert_Some; [rewrite (kp_next _ _ Hk)|]; by eapply Hn.
  - destruct Hl as (m & -> & Hm). exists m. split; [done|]. by apply (monitor_local ts t th).
  - destruct Hl as [-> Hn]. split; [done|]. intros u thu [[<- <-]|[Hne Hu]]%lookup_insert_Some; [rewrite (kp_next _ _ Hk)|]; by eapply Hn.
Qed.

(** The thread keeps the thread it suspends, and does not run when suspended. *)
Record keeps_suspension (ts : gmap Z Thread) (t : Z) (th th' : Thread) : Prop := {
  ks_count : suspend_count th' = suspend_count th;
  ks_target : target (pc th') = target (pc th);
  ks_confirmed : forall u, target (pc th') = Some u -> confirmed (pc th') = true ->
    confirmed (pc th) = true \/ exists thu, ts !! u = Some thu /\ suspendable (pc thu) = true;
  ks_stays : suspendable (pc th) = true -> 0 < suspend_count th -> suspendable (pc th') = true;
  ks_wants : forall o, wants (pc th') = Some o -> wants (pc th) = Some o \/ (o <> t /\ forall tho, ts !! o = Some tho -> wants (pc tho) = None);
}.

Lemma no_cycle_less (ts ts' : gmap Z Thread) :
  (forall u thu' o, ts' !! u = Some thu' -> wants (pc thu') = Some o -> exists thu, ts !! u = Some thu /\ wants (pc thu) = Some o) ->
  no_cycle ts -> no_cycle ts'.
Proof.
  intros Hold (rank & Hr). exists rank. intros t th' o tho' Hth' Hw Ho' Hwo. destruct (wants (pc tho')) as [x|] eqn:Hx; [|done].
  destruct (Hold t th' o Hth' Hw) as (th & Hth & Hw'), (Hold o tho' x Ho' Hx) as (tho & Ho & Hwo'). apply (Hr t th o tho); [done|done|done|by rewrite Hwo'].
Qed.

Lemma rank_bound (rank : Z -> Z) (ts : gmap Z Thread) : exists b, forall t th, ts !! t = Some th -> rank t <= b.
Proof.
  induction ts as [|t th ts Hn (b & Hb)] using map_ind; [by exists 0|]. exists (Z.max b (rank t)).
  intros u thu [[<- <-]|[Hne Hu]]%lookup_insert_Some; [lia|]. specialize (Hb u thu Hu). lia.
Qed.

(** A thread that begins to want another one comes last. *)
Lemma no_cycle_local ts t th th' :
  no_cycle ts -> ts !! t = Some th ->
  (forall o, wants (pc th') = Some o -> wants (pc th) = Some o \/ (o <> t /\ forall tho, ts !! o = Some tho -> wants (pc tho) = None)) ->
  no_cycle (<[t := th']> ts).
Proof.
  intros Hr Hth Hw. destruct (wants (pc th')) as [o|] eqn:Ho.
  - destruct (Hw o eq_refl) as [Hsame|[Hot Hnone]].
    + apply (no_cycle_less ts); [|done]. intros u thu' x [[<- <-]|[Hne Hu]]%lookup_insert_Some Hx; [exists th; split; congruence|eauto].
    + destruct Hr as (rank & Hr). destruct (rank_bound rank ts) as (b & Hb). exists (fun u => if decide (u = t) then b + 1 else rank u).
      intros u thu y thy Hu Huw Hy Hyw. apply lookup_insert_Some in Hy as [[<- <-]|[Hyt Hy]].
      * apply lookup_insert_Some in Hu as [[<- <-]|[Hut Hu]]; [congruence|]. rewrite decide_False, decide_True by done. specialize (Hb u thu Hu). lia.
      * apply lookup_insert_Some in Hu as [[<- <-]|[Hut Hu]].
        -- assert (y = o) as -> by congruence. by rewrite (Hnone thy Hy) in Hyw.
        -- rewrite !decide_False by done. by apply (Hr u thu y thy).
  - apply (no_cycle_less ts); [|done]. intros u thu' x [[<- <-]|[Hne Hu]]%lookup_insert_Some Hx; [congruence|eauto].
Qed.

Lemma suspends_nonneg u th : 0 <= suspends u th.
Proof. unfold suspends. destruct (bool_decide _); lia. Qed.

Lemma suspended_count ts t th u thu :
  suspend_ok ts -> ts !! t = Some th -> target (pc th) = Some u -> ts !! u = Some thu -> 0 < suspend_count thu.
Proof.
  intros [Hc _ _] Hth Ht Hu. rewrite (Hc u thu Hu). pose proof (total_ge (suspends u) t th ts) as Hge.
  unfold suspends in Hge at 2. rewrite bool_decide_true in Hge by done. enough (1 <= total (suspends u) ts) by lia.
  apply Hge; [|done]. intros. apply suspends_nonneg.
Qed.

Lemma suspend_local ts t th th' :
  suspend_ok ts -> ts !! t = Some th -> keeps_suspension ts t th th' -> suspend_ok (<[t := th']> ts).
Proof.
  intros Hs Hth [K1 K2 K3 K4 K5]. pose proof Hs as [Hc Ht Hr]. constructor; [| |by apply (no_cycle_local ts t th)].
  - intros u thu Hu. rewrite (total_insert _ t th) by done.
    assert (suspends u th' = suspends u th) as -> by (unfold suspends; by rewrite K2).
    apply lookup_insert_Some in Hu as [[<- <-]|[Hne Hu]]; [rewrite K1, (Hc t th Hth)|rewrite (Hc u thu Hu)]; lia.
  - assert (forall u, is_Some (ts !! u) -> (forall thu, ts !! u = Some thu -> exists thu', <[t := th']> ts !! u = Some thu' /\
      (suspendable (pc thu) = true -> (u = t -> 0 < suspend_count th) -> suspendable (pc thu') = true))) as Hstay.
    { intros u _ thu Hu. destruct (decide (u = t)) as [->|Hne].
      - exists th'. rewrite lookup_insert_eq. split; [done|]. intros Hsu Hcnt. assert (thu = th) as -> by congruence. auto.
      - exists thu. by rewrite lookup_insert_ne. }
    intros x thx u Hx Hux. apply lookup_insert_Some in Hx as [[<- <-]|[Hne Hx]].
    + rewrite K2 in Hux. destruct (Ht t th u Hth Hux) as (Hut & thu & Hu & Hconf). split; [done|].
      destruct (Hstay u (ex_intro _ _ Hu) thu Hu) as (thu' & Hu' & Hsus). exists thu'. split; [done|]. intros Hc'.
      apply Hsus; [|done]. rewrite <- K2 in Hux. destruct (K3 u Hux Hc') as [Hold|(thu2 & Hu2 & Hs2)]; [by apply Hconf|congruence].
    + destruct (Ht x thx u Hx Hux) as (Hut & thu & Hu & Hconf). split; [done|].
      destruct (Hstay u (ex_intro _ _ Hu) thu Hu) as (thu' & Hu' & Hsus). exists thu'. split; [done|]. intros Hc'.
      apply Hsus; [by apply Hconf|]. intros ->. by eapply (suspended_count ts x thx t th).
Qed.

Lemma Inv_local c v t th th' :
  Inv c v -> threads c !! t = Some th -> keeps_place th th' -> keeps_suspension (threads c) t th th' ->
  thread_ok v (depth v (monitors c) t) t th' ->
  (forall h, result th' = HashCodeIs h -> result th = HashCodeIs h \/ hash_view v (monitors c) = Some h) ->
  Inv (put t th' c) v.
Proof.
  intros [H1 H2 H3 H4 H5 H6 H7] Hth Hk Hs Hok Hh. constructor; [done|done|done|..]; cbn [put set_threads threads monitors].
  - intros u thu [[<- <-]|[Hne Hu]]%lookup_insert_Some; [done|by apply H4].
  - by apply (lock_local v _ _ t th).
  - by apply (suspend_local _ t th).
  - intros u thu h [[<- <-]|[Hne Hu]]%lookup_insert_Some Hr; [|by eapply H7].
    destruct (Hh h Hr) as [Hold|Hnew]; [by eapply H7|done].
Qed.

(** *** Moves that touch nothing shared *)

Definition simple (p : PC) : bool :=
  match p with
  | Running | EnterLoop _ | EnterCas _ _ _ | EnterSet _ | ExitLoop | ExitSet _ | ExitMonitor _ | HashLoop | HashCas _ _
  | HashMonitor _ | SuspendFailed _ | Install _ _ _ None | InstallCas _ _ _ None | Inflated _ _ None
  | WaitLoop _ | WaitMonitor _ _ | NotifyLoop _ | NotifyMonitor _ _ => true
  | _ => false
  end.

Lemma simple_facts p : simple p = true ->
  saved p = None /\ contends p = false /\ waits_at p = None /\ target p = None /\ is_asleep p = false /\ weight p = 0 /\ wants p = None.
Proof. destruct p as [| | | | | | | | | |? ? ?|? ? ?|? ? ?|?|? ? ? []|? ? ? []|? ? []| | | | | | | | | | | |]; done. Qed.

Lemma simple_asleep th id : simple (pc th) = true -> asleep_on id th = false /\ awake_on id th = false.
Proof. unfold asleep_on, awake_on. by destruct (pc th). Qed.

(** A thread goes from a simple position to another, or calls [Lock]. *)
Lemma Inv_move c v t th p' r' :
  Inv c v -> threads c !! t = Some th -> simple (pc th) = true ->
  (suspendable (pc th) = true -> suspend_count th = 0) ->
  (simple p' = true \/ exists mon, p' = LockMonitor ToEnter mon) -> pc_ok v t p' ->
  (forall h, r' = HashCodeIs h -> result th = HashCodeIs h \/ hash_view v (monitors c) = Some h) ->
  Inv (put t (with_pc p' (with_result r' th)) c) v.
Proof.
  intros Hinv Hth Hs Hc Hp' Hok Hr. destruct (simple_facts _ Hs) as (F1 & F2 & F3 & F4 & F5 & F6 & F7).
  assert (saved p' = None /\ waits_at p' = None /\ target p' = None /\ is_asleep p' = false /\ weight p' = 0 /\
    (forall id, asleep_on id (with_pc p' (with_result r' th)) = false) /\ wants p' = None /\ contends p' = false) as (G1 & G2 & G3 & G4 & G5 & G6 & G7 & G8).
  { destruct Hp' as [Hs'|(mon & ->)]; [|done]. destruct (simple_facts _ Hs') as (? & ? & ? & ? & ? & ? & ?).
    split_and!; try done. intros id. by apply simple_asleep. }
  pose proof (iv_threads _ _ Hinv t th Hth) as [T1 T2 T3 T4 T5 T6].
  apply (Inv_local c v t th); [done|done|..].
  - constructor; cbn [pc with_pc with_result wait_next]; [done|congruence|by rewrite F1|by rewrite G4|intros id; by rewrite G6|].
    intros id. destruct (simple_asleep th id Hs) as [_ ->]. done.
  - constructor; cbn [pc with_pc with_result suspend_count]; [done|congruence|by rewrite G3| |by rewrite G7]. intros Hsus Hpos. specialize (Hc Hsus). lia.
  - constructor; cbn [pc with_pc with_result wait_monitor_ holds]; [done| |by rewrite G1|done|congruence|unfold outside; by rewrite G7, G8].
    unfold owned in *. cbn [pc with_pc with_result holds]. by rewrite G1; rewrite F1 in T2.
  - done.
Qed.

Lemma with_result_id th : with_result (result th) th = th.
Proof. by destruct th. Qed.

Lemma Inv_goto c v t th p' :
  Inv c v -> threads c !! t = Some th -> simple (pc th) = true -> (suspendable (pc th) = true -> suspend_count th = 0) ->
  (simple p' = true \/ exists mon, p' = LockMonitor ToEnter mon) -> pc_ok v t p' -> Inv (put t (with_pc p' th) c) v.
Proof.
  intros. rewrite <- (with_result_id th). apply (Inv_move c v t th p' (result th)); auto.
Qed.

(** ** Every step keeps the invariant *)

Definition hash_kept (v : View) (ms : gmap Z Monitor) (v' : View) (ms' : gmap Z Monitor) : Prop :=
  forall h, hash_view v ms = Some h -> hash_view v' ms' = Some h.

Definition safe_run (m : M Config unit) (c : Config) (v : View) : Prop :=
  exists c' v', m c = Ok (tt, c') /\ Inv c' v' /\ hash_kept v (monitors c) v' (monitors c').

Lemma view_cases v : v = Free \/ (exists o n, v = Thin o n) \/ (exists id, v = Fat id) \/ exists h, v = Hashed h.
Proof. destruct v; eauto 6. Qed.

Section Thread.
Context (max_spins : Z) (c : Config) (v : View) (t : Z) (th : Thread).
Context (Hinv : Inv c v) (Hth : threads c !! t = Some th).

Lemma id_range : 0 < t < 2 ^ 16.
Proof. apply (to_id _ _ _ _ (iv_threads c v Hinv t th Hth)). Qed.

Lemma safe_goto p' :
  simple (pc th) = true -> (suspendable (pc th) = true -> suspend_count th = 0) ->
  (simple p' = true \/ exists mon, p' = LockMonitor ToEnter mon) -> pc_ok v t p' -> safe_run (goto t p') c v.
Proof.
  intros. eexists _, v. split; [by apply goto_ok|]. split; [by apply Inv_goto|by intros h].
Qed.

Lemma safe_finish r :
  simple (pc th) = true -> (suspendable (pc th) = true -> suspend_count th = 0) ->
  (forall h, r = HashCodeIs h -> hash_view v (monitors c) = Some h) -> safe_run (finish t r) c v.
Proof.
  intros Hs Hsus Hr. eexists _, v. split; [by apply finish_runs|]. split; [|by intros h].
  apply Inv_move; auto. done.
Qed.

Lemma read_lock_word {A} (k : Z -> M Config A) : (GetLockWord ≫= k) c = k (encode v) c.
Proof. unfold GetLockWord. by rewrite bind_gets, (iv_word c v Hinv). Qed.

(** The owner of a thin lock is outside of nothing. *)
Lemma thin_owner o n tho : v = Thin o n -> threads c !! o = Some tho -> wants (pc tho) = None.
Proof.
  intros Hv Ho. pose proof (to_out _ _ _ _ (iv_threads c v Hinv o tho Ho)) as Hout. pose proof (iv_view c v Hinv) as Hview. rewrite Hv in Hout, Hview.
  unfold depth, outside in Hout. cbn [lock_view view_ok] in *. rewrite Z.eqb_refl in Hout. destruct (wants (pc tho)); [|done]. rewrite orb_true_r in Hout. specialize (Hout eq_refl). lia.
Qed.

Lemma safe_want from o n h :
  simple (pc th) = true -> suspendable (pc th) = false -> v = Thin o n -> o <> t -> 0 <= h < 2 ^ 28 -> safe_run (goto t (SuspendOwner from o h)) c v.
Proof.
  intros Hs Hsus Hv Hne Hh. eexists _, v. split; [by apply goto_ok|]. split; [|by intros x].
  destruct (simple_facts _ Hs) as (F1 & F2 & F3 & F4 & F5 & F6 & F7). pose proof (iv_threads c v Hinv t th Hth) as [T1 T2 T3 T4 T5 T6].
  assert (depth v (monitors c) t = 0) as Hd by (rewrite Hv; unfold depth; cbn; by rewrite (proj2 (Z.eqb_neq o t))).
  apply (Inv_local c v t th); [done|done|..|by left].
  - constructor; cbn [pc with_pc wait_next]; [done|by rewrite F6|by rewrite F1|done|done|]. intros id. by destruct (simple_asleep th id Hs) as [_ ->].
  - constructor; cbn; [done|by rewrite F4|done|done|]. intros x [= <-]. right. split; [done|]. intros tho. by apply (thin_owner o n).
  - constructor; cbn; [done| |done| |congruence|done].
    + unfold owned in *. cbn. by rewrite F1 in T2.
    + pose proof (iv_view c v Hinv) as Hview. rewrite Hv in Hview. cbn in Hview. split; [split; [done|lia]|done].
Qed.

Lemma inflate_ok from o n h :
  simple (pc th) = true -> suspendable (pc th) = false -> v = Thin o n -> 0 <= h < 2 ^ 28 ->
  safe_run (InflateThinLocked t from (encode v) h) c v.
Proof.
  intros Hs Hsus Hv Hh. unfold InflateThinLocked. pose proof (iv_view c v Hinv) as Hview.
  assert (ThinLockOwner (encode v) = o) as -> by (rewrite Hv in Hview |- *; by apply encode_thin).
  destruct (Z.eqb_spec o t) as [->|Hne].
  - apply safe_goto; [done|congruence|by left|]. split; [done|]. right. left. rewrite Hv. eauto.
  - by apply (safe_want _ o n).
Qed.

Lemma enter_round k : pc th = EnterLoop k -> safe_run (MonitorEnter_round max_spins t k) c v.
Proof.
  intros Hpc. unfold MonitorEnter_round, safe_run. rewrite read_lock_word.
  pose proof (iv_view c v Hinv) as Hview. rewrite encode_state, encode_rb by done. pose proof id_range as Hid.
  assert (simple (pc th) = true) as Hs by (by rewrite Hpc). assert (suspendable (pc th) = false) as Hsus by (by rewrite Hpc).
  destruct (view_cases v) as [Hv|[(o & n & Hv)|[(id & Hv)|(h & Hv)]]]; rewrite Hv in Hview |- *.
  - rewrite make_thin by (cbn; lia). rewrite bind_lift. rewrite <- Hv. apply safe_goto; [done|congruence|by left|]. split; [by rewrite Hv|done].
  - destruct (encode_thin o n Hview) as [-> ->]. cbn [view_ok] in Hview. destruct (Z.eqb_spec o t) as [->|Hne].
    + rewrite u32_small by lia. change kThinLockMaxCount with 4095. destruct (Z.leb_spec (n + 1) 4095) as [Hle|Hgt].
      * rewrite make_thin by (cbn; lia). rewrite bind_lift, <- Hv. apply safe_goto; [done|congruence|by left|].
        exists n. rewrite Hv. split_and!; [done|lia|done].
      * rewrite <- Hv. by apply (inflate_ok _ t n).
    + destruct (k + 1 <=? max_spins); rewrite <- Hv.
      * apply safe_goto; [done|congruence|by left|done].
      * by apply (inflate_ok _ o n).
  - rewrite encode_fat by done. rewrite <- Hv. apply safe_goto; [done|congruence|right; eauto|done].
  - rewrite encode_hash by done. rewrite <- Hv. cbn [view_ok] in Hview. apply safe_goto; [done|congruence|by left|].
    split; [lia|]. left. split_and!; [done|done|by left].
Qed.

Lemma exit_round : pc th = ExitLoop -> safe_run (MonitorExit_round t) c v.
Proof.
  intros Hpc. unfold MonitorExit_round, safe_run. rewrite read_lock_word.
  pose proof (iv_view c v Hinv) as Hview. rewrite encode_state, encode_rb by done. pose proof id_range as Hid.
  assert (simple (pc th) = true) as Hs by (by rewrite Hpc). assert (suspendable (pc th) = false) as Hsus by (by rewrite Hpc).
  destruct (view_cases v) as [Hv|[(o & n & Hv)|[(id & Hv)|(h & Hv)]]]; rewrite Hv in Hview |- *; try (rewrite <- Hv; apply safe_finish; [done|congruence|done]).
  - destruct (encode_thin o n Hview) as [-> ->]. cbn [view_ok] in Hview. destruct (Z.eqb_spec o t) as [->|Hne]; cbn [negb].
    + destruct (Z.eqb_spec n 0) as [->|Hn]; cbn [negb].
      * rewrite bind_ret, <- Hv. apply safe_goto; [done|congruence|by left|]. exists 0. rewrite Hv. split; [done|]. by apply FromDefault_ok.
      * rewrite u32_small by lia. rewrite make_thin by (cbn; lia). rewrite bind_lift, <- Hv.
        apply safe_goto; [done|congruence|by left|]. exists n. rewrite Hv. split; [done|]. by rewrite (proj2 (Z.eqb_neq n 0)) by done.
    + rewrite <- Hv. apply safe_finish; [done|congruence|done].
  - rewrite encode_fat by done. rewrite <- Hv. apply safe_goto; [done|congruence|by left|done].
Qed.

Lemma wait_round a : pc th = WaitLoop a -> safe_run (Wait_round t a) c v.
Proof.
  intros Hpc. unfold Wait_round, safe_run. rewrite read_lock_word.
  pose proof (iv_view c v Hinv) as Hview. rewrite encode_state by done. pose proof id_range as Hid.
  assert (simple (pc th) = true) as Hs by (by rewrite Hpc). assert (suspendable (pc th) = false) as Hsus by (by rewrite Hpc).
  destruct (view_cases v) as [Hv|[(o & n & Hv)|[(id & Hv)|(h & Hv)]]]; rewrite Hv in Hview |- *; try (rewrite <- Hv; apply safe_finish; [done|congruence|done]).
  - destruct (encode_thin o n Hview) as [-> _]. destruct (Z.eqb_spec o t) as [->|Hne]; cbn [negb]; rewrite <- Hv.
    + apply safe_goto; [done|congruence|by left|]. split; [lia|]. right. left. split_and!; [done|done|]. rewrite Hv. eauto.
    + apply safe_finish; [done|congruence|done].
  - rewrite encode_fat by done. rewrite <- Hv. apply safe_goto; [done|congruence|by left|done].
Qed.

Lemma notify_round all : pc th = NotifyLoop all -> safe_run (DoNotify_round t all) c v.
Proof.
  intros Hpc. unfold DoNotify_round, safe_run. rewrite read_lock_word.
  pose proof (iv_view c v Hinv) as Hview. rewrite encode_state by done.
  assert (simple (pc th) = true) as Hs by (by rewrite Hpc). assert (suspendable (pc th) = false) as Hsus by (by rewrite Hpc).
  destruct (view_cases v) as [Hv|[(o & n & Hv)|[(id & Hv)|(h & Hv)]]]; rewrite Hv in Hview |- *; try (rewrite <- Hv; apply safe_finish; [done|congruence|done]).
  - rewrite <- Hv. apply safe_finish; [done|congruence|]. intros h. by destruct (negb _).
  - rewrite encode_fat by done. rewrite <- Hv. apply safe_goto; [done|congruence|by left|done].
Qed.

End Thread.

(** A new hash code. *)
Lemma Inv_seed c v s : Inv c v -> 0 <= s < 2 ^ 32 -> Inv (set_seed s c) v.
Proof. intros [? ? ? ? ? ? ?] Hs. by constructor. Qed.

Lemma GenerateIdentityHashCode_ok c v : Inv c v ->
  exists h s, GenerateIdentityHashCode c = Ok (h, set_seed s c) /\ 0 < h < 2 ^ 28 /\ Inv (set_seed s c) v.
Proof.
  intros Hinv. destruct (generate_hash_ok _ (iv_seed c v Hinv)) as (h & s & Hg & Hh & Hs). exists h, s.
  split; [|split; [done|by apply Inv_seed]]. unfold GenerateIdentityHashCode. rewrite bind_gets, Hg. rewrite bind_lift. by rewrite bind_modify.
Qed.

Lemma hash_round c v t th : Inv c v -> threads c !! t = Some th -> pc th = HashLoop -> safe_run (IdentityHashCode_round t) c v.
Proof.
  intros Hinv Hth Hpc. unfold IdentityHashCode_round, safe_run. rewrite (read_lock_word c v Hinv).
  pose proof (iv_view c v Hinv) as Hview. rewrite encode_state, encode_rb by done.
  assert (simple (pc th) = true) as Hs by (by rewrite Hpc). assert (suspendable (pc th) = false) as Hsus by (by rewrite Hpc).
  destruct (view_cases v) as [Hv|[(o & n & Hv)|[(id & Hv)|(h & Hv)]]]; rewrite Hv in Hview |- *.
  - destruct (GenerateIdentityHashCode_ok c v Hinv) as (h & s & Hg & Hh & Hinv'). rewrite (bind_ok _ _ _ _ _ Hg).
    rewrite make_hash by (cbn; lia). rewrite bind_lift, <- Hv.
    apply (safe_goto (set_seed s c) v t th); [done|done|done|congruence|by left|]. split; [by rewrite Hv|]. eauto.
  - destruct (GenerateIdentityHashCode_ok c v Hinv) as (h & s & Hg & Hh & Hinv'). rewrite (bind_ok _ _ _ _ _ Hg), <- Hv.
    apply (inflate_ok (set_seed s c) v t th Hinv' Hth _ o n); [done|done|done|lia].
  - rewrite encode_fat by done. rewrite <- Hv. apply (safe_goto c v t th); [done|done|done|congruence|by left|done].
  - rewrite encode_hash by done. rewrite <- Hv. apply (safe_finish c v t th); [done|done|done|congruence|]. intros ? [= <-]. by rewrite Hv.
Qed.

(** *** Changes of the lock word *)

Lemma nonfat_thread c v t th : Inv c v -> ~ is_fat v -> threads c !! t = Some th ->
  saved (pc th) = None /\ weight (pc th) = 0 /\ wait_next th = 0 /\ is_asleep (pc th) = false /\ forall id, asleep_on id th = false.
Proof.
  intros Hinv Hnf Hth. assert (wait_next th = 0) as Hn.
  { pose proof (iv_lock c v Hinv) as Hl. destruct v as [|o n|id|h]; [by eapply Hl|by eapply Hl| |by eapply Hl]. destruct Hnf. by eexists. }
  pose proof (to_pc _ _ _ _ (iv_threads c v Hinv t th Hth)) as Hpc. unfold asleep_on, weight.
  destruct (pc th) as [| | | | | | | | | | | | | | | | |to mon|to mon|to mon|to mon| | | | | | | |]; try done; destruct Hnf; by eexists.
Qed.

Lemma confirmed_suspended c v t th u thu :
  Inv c v -> threads c !! u = Some thu -> target (pc thu) = Some t -> confirmed (pc thu) = true ->
  threads c !! t = Some th -> suspendable (pc th) = true.
Proof.
  intros Hinv Hu Ht Hc Hth. destruct (su_target _ (iv_suspend c v Hinv) u thu t Hu Ht) as (_ & th' & Hth' & Hs).
  assert (th' = th) as -> by congruence. by apply Hs.
Qed.

(** The thread that owns the thin lock, or takes a free one, writes the lock
    word: nobody else relied on it. *)
Lemma word_frame c v v' t th u thu :
  Inv c v -> threads c !! t = Some th -> suspendable (pc th) = false -> (v = Free \/ exists n, v = Thin t n) ->
  threads c !! u = Some thu -> u <> t -> pc_ok v' u (pc thu).
Proof.
  intros Hinv Hth Hsus Hv Hu Hne. pose proof (to_pc _ _ _ _ (iv_threads c v Hinv u thu Hu)) as Hpc.
  pose proof (confirmed_suspended c v t th u thu Hinv Hu) as Hconf.
  assert (~ is_fat v) as Hnf by (intros (id & ->); destruct Hv as [|[]]; done).
  assert (forall o n, v = Thin o n -> o = t) as Hown by (intros o n ->; destruct Hv as [|[? [=]]]; done).
  destruct (pc thu) as [|k|k lw w|w| |w|mon| |lw w|mon|fr o h|fr o h|fr o h|fr|fr o h s|fr m lw s|fr b s|to mon|to mon|to mon|to mon| | | | | | | |] eqn:Hp;
    cbn [pc_ok target confirmed] in *; try done; try (destruct Hnf; by eexists).
  - destruct Hpc as (n & Hvn & _). by apply Hown in Hvn.
  - destruct Hpc as (n & Hvn & _). by apply Hown in Hvn.
  - destruct Hpc as (_ & [(-> & -> & [->|Hf])|[(-> & -> & n & Hvn)|(_ & Hou & -> & [(n & Hvn)|Hf])]]); try done.
    + by destruct Hv as [|[]].
    + by apply Hown in Hvn.
    + apply Hown in Hvn as ->. specialize (Hconf eq_refl eq_refl Hth). congruence.
  - destruct Hpc as (v0 & _ & _ & Hmade & [<-|Hf] & Hs); [|done]. destruct Hv as [->|(n & ->)]; [done|].
    rewrite (proj2 (Z.eqb_neq t u)) in Hs by done. subst s. specialize (Hconf eq_refl eq_refl Hth). congruence.
  - destruct Hpc as [Hi Hs]. split; [|done]. intros Hb. by destruct (Hnf (Hi Hb)).
Qed.

Definition own_view (t : Z) (v : View) : Prop := v = Free \/ (exists n, v = Thin t n) \/ exists h, v = Hashed h.

Lemma own_depth t v u : own_view t v -> u <> t -> depth v ∅ u = 0.
Proof.
  intros [->|[(n & ->)|(h & ->)]] Hne; try done. unfold depth. cbn. by rewrite (proj2 (Z.eqb_neq t u)).
Qed.

Lemma nonfat_monitors c v : Inv c v -> ~ is_fat v -> monitors c = ∅.
Proof. intros Hinv Hnf. pose proof (iv_lock c v Hinv) as Hl. destruct v; [apply Hl|apply Hl|destruct Hnf; by eexists|apply Hl]. Qed.

Lemma Inv_word c v v' t th r' n' :
  Inv c v -> threads c !! t = Some th -> simple (pc th) = true -> suspendable (pc th) = false ->
  (v = Free \/ exists n, v = Thin t n) -> view_ok v' -> own_view t v' -> depth v' ∅ t = n' ->
  (forall h, r' = HashCodeIs h -> hash_view v' ∅ = Some h) ->
  Inv (set_lock_word (encode v') (put t (with_pc Running (with_result r' (with_holds n' th))) c)) v'.
Proof.
  intros Hinv Hth Hs Hsus Hv Hok Hv' Hd Hr. destruct (simple_facts _ Hs) as (F1 & F2 & F3 & F4 & F5 & F6 & F7).
  assert (~ is_fat v) as Hnf by (intros (id & ->); destruct Hv as [|[]]; done).
  pose proof (nonfat_monitors c v Hinv Hnf) as Hms.
  pose proof (iv_threads c v Hinv t th Hth) as [T1 T2 T3 T4 T5 T6].
  constructor; cbn [set_lock_word put set_threads lock_word monitors threads hash_code_seed]; [done|done|apply (iv_seed c v Hinv)|..].
  - rewrite Hms. intros u thu [[<- <-]|[Hne Hu]]%lookup_insert_Some; [by constructor; [|exact (eq_sym Hd)|..]; cbn; rewrite ?T5|].
    destruct (iv_threads c v Hinv u thu Hu) as [U1 U2 U3 U4 U5 U6].
    assert (depth v' ∅ u = 0 /\ depth v ∅ u = 0) as [D1 D2] by (split; apply (own_depth t); try done; destruct Hv as [->|(n & ->)]; unfold own_view; eauto).
    constructor; [done|rewrite U2, Hms; congruence|done|by eapply (word_frame c v v' t th)|done|done].
  - rewrite Hms. assert (forall u thu, <[t := with_pc Running (with_result r' (with_holds n' th))]> (threads c) !! u = Some thu -> wait_next thu = 0) as Hn.
    { intros u thu [[<- <-]|[Hne Hu]]%lookup_insert_Some; [by apply (nonfat_thread c v t th)|by apply (nonfat_thread c v u thu)]. }
    destruct Hv' as [->|[(n & ->)|(h & ->)]]; cbn [lock_ok]; [done| |done]. split_and!; [done|rewrite lookup_insert_eq; eauto|done].
  - apply (suspend_local _ t th); [apply (iv_suspend c v Hinv)|done|]. constructor; cbn; [done|by rewrite F4|done|congruence|done].
  - rewrite Hms. intros u thu h [[<- <-]|[Hne Hu]]%lookup_insert_Some Hres; [by apply Hr|].
    pose proof (iv_hash c v Hinv u thu h Hu Hres) as Hh. by destruct Hv as [->|(n & ->)].
Qed.

Lemma CasLockWord_inv c spur old new : exists b : bool,
  CasLockWord spur old new c = Ok (b, if b then set_lock_word new c else c) /\ (b = true -> lock_word c = old).
Proof.
  unfold CasLockWord, GetLockWord. rewrite bind_gets. destruct spur; [by exists false|]. cbn [negb andb].
  destruct (Z.eqb_spec (lock_word c) old) as [He|He]; [by exists true|by exists false].
Qed.

Lemma EnterDone_ok t th c : threads c !! t = Some th ->
  EnterDone t c = Ok (tt, put t (with_pc Running (with_result Entered (with_holds (holds th + 1) th))) c).
Proof.
  intros Hth. unfold EnterDone. rewrite (bind_ok _ _ _ _ _ (update_thread_ok _ _ _ _ Hth)).
  rewrite (finish_runs t _ _ _ (put_lookup _ _ _)). by rewrite put_put.
Qed.

Lemma owned_simple c v t th : Inv c v -> threads c !! t = Some th -> simple (pc th) = true -> holds th = depth v (monitors c) t.
Proof.
  intros Hinv Hth Hs. rewrite <- (to_owned _ _ _ _ (iv_threads c v Hinv t th Hth)). unfold owned.
  by destruct (simple_facts _ Hs) as (-> & _).
Qed.

Lemma depth_thin t n ms : depth (Thin t n) ms t = n + 1.
Proof. unfold depth. cbn. by rewrite Z.eqb_refl. Qed.

Lemma set_word_put w t th c : put t th (set_lock_word w c) = set_lock_word w (put t th c).
Proof. done. Qed.

Lemma enter_cas c v t th ch k lw w : Inv c v -> threads c !! t = Some th -> pc th = EnterCas k lw w ->
  safe_run (MonitorEnter_cas ch t k lw w) c v.
Proof.
  intros Hinv Hth Hpc. assert (simple (pc th) = true) as Hs by (by rewrite Hpc). assert (suspendable (pc th) = false) as Hsus by (by rewrite Hpc).
  pose proof (iv_threads c v Hinv t th Hth) as [T1 T2 T3 T4 T5 T6]. rewrite Hpc in T4. destruct T4 as [-> ->].
  unfold MonitorEnter_cas, safe_run. destruct (CasLockWord_inv c (spurious ch) 0 (encode (Thin t 0))) as (b & Hcas & Hb).
  rewrite (bind_ok _ _ _ _ _ Hcas). destruct b; [|by apply (safe_goto c v t th); [..|by left|]; try done; congruence].
  assert (v = Free) as -> by (apply encode_inj; [apply Hinv|done|rewrite <- (iv_word c v Hinv); by apply Hb]).
  rewrite (EnterDone_ok t th) by done. eexists _, (Thin t 0). split; [reflexivity|]. split; [|by intros h].
  rewrite set_word_put. apply (Inv_word c Free); [done|done|done|done|by left|cbn; lia|right; left; eauto| |done].
  rewrite depth_thin, (owned_simple c Free t th) by done. done.
Qed.

Lemma enter_set c v t th w : Inv c v -> threads c !! t = Some th -> pc th = EnterSet w -> safe_run (MonitorEnter_set t w) c v.
Proof.
  intros Hinv Hth Hpc. assert (simple (pc th) = true) as Hs by (by rewrite Hpc). assert (suspendable (pc th) = false) as Hsus by (by rewrite Hpc).
  pose proof (iv_threads c v Hinv t th Hth) as [T1 T2 T3 T4 T5 T6]. rewrite Hpc in T4. destruct T4 as (n & -> & Hn & ->).
  pose proof (iv_view c _ Hinv) as Hview. cbn [view_ok] in Hview.
  unfold MonitorEnter_set, SetLockWord, safe_run. rewrite bind_modify, (EnterDone_ok t th) by done.
  eexists _, (Thin t (n + 1)). split; [reflexivity|]. split; [|by intros h].
  rewrite set_word_put. apply (Inv_word c (Thin t n)); [done|done|done|done|right; eauto|cbn; lia|right; left; eauto| |done].
  rewrite depth_thin, (owned_simple c (Thin t n) t th) by done. by rewrite depth_thin.
Qed.

Lemma exit_set c v t th w : Inv c v -> threads c !! t = Some th -> pc th = ExitSet w -> safe_run (MonitorExit_set t w) c v.
Proof.
  intros Hinv Hth Hpc. assert (simple (pc th) = true) as Hs by (by rewrite Hpc). assert (suspendable (pc th) = false) as Hsus by (by rewrite Hpc).
  pose proof (iv_threads c v Hinv t th Hth) as [T1 T2 T3 T4 T5 T6]. rewrite Hpc in T4. destruct T4 as (n & -> & ->).
  pose proof (iv_view c _ Hinv) as Hview. cbn [view_ok] in Hview. pose proof (owned_simple c _ t th Hinv Hth Hs) as Ho. rewrite depth_thin in Ho.
  set (v' := if n =? 0 then Free else Thin t (n - 1)).
  assert ((if n =? 0 then 0 else encode (Thin t (n - 1))) = encode v') as -> by (unfold v'; by destruct (n =? 0)).
  unfold MonitorExit_set, SetLockWord, safe_run. rewrite bind_modify. rewrite (bind_ok _ _ _ _ _ (update_thread_ok t _ th (set_lock_word (encode v') c) Hth)).
  rewrite (finish_runs t _ _ _ (put_lookup _ _ _)), put_put, set_word_put. eexists _, v'. split; [reflexivity|]. split; [|by intros h].
  apply (Inv_word c (Thin t n)); [done|done|done|done|right; eauto|..|done].
  - unfold v'. destruct (Z.eqb_spec n 0); cbn; lia.
  - unfold v', own_view. destruct (n =? 0); eauto.
  - rewrite Ho. unfold v'. destruct (Z.eqb_spec n 0) as [->|Hn]; [done|]. rewrite depth_thin. lia.
Qed.

Lemma hash_cas c v t th ch lw w : Inv c v -> threads c !! t = Some th -> pc th = HashCas lw w -> safe_run (IdentityHashCode_cas ch t lw w) c v.
Proof.
  intros Hinv Hth Hpc. assert (simple (pc th) = true) as Hs by (by rewrite Hpc). assert (suspendable (pc th) = false) as Hsus by (by rewrite Hpc).
  pose proof (iv_threads c v Hinv t th Hth) as [T1 T2 T3 T4 T5 T6]. rewrite Hpc in T4. destruct T4 as (-> & h & Hh & ->).
  unfold IdentityHashCode_cas, safe_run. destruct (CasLockWord_inv c (spurious ch) 0 (encode (Hashed h))) as (b & Hcas & Hb).
  rewrite (bind_ok _ _ _ _ _ Hcas). destruct b; [|by apply (safe_goto c v t th); [..|by left|]; try done; congruence].
  assert (v = Free) as -> by (apply encode_inj; [apply Hinv|done|rewrite <- (iv_word c v Hinv); by apply Hb]).
  rewrite encode_hash by done. rewrite (finish_runs t _ th) by done. eexists _, (Hashed h). split; [reflexivity|]. split; [|by intros x].
  rewrite set_word_put. pose proof (owned_simple c Free t th Hinv Hth Hs) as Ho.
  assert (th = with_holds (depth (Hashed h) ∅ t) th) as Hid by (destruct th; cbn in *; by subst).
  rewrite Hid at 1. apply (Inv_word c Free); [done|done|done|done|by left|done|right; right; eauto|done|]. by intros x [= <-].
Qed.

(** *** Inflation *)

(** A thread that neither locks a monitor nor waits. *)
Definition quiet (p : PC) : bool :=
  match p with
  | LockMonitor _ _ | LockContended _ _ | LockAsleep _ _ | LockAwake _ _ | WaitAsleep _ _ _ | WaitAwake _ _ _
  | WaitLeave _ _ _ _ | WaitRestore _ _ _ _ => false
  | _ => true
  end.

Lemma quiet_facts th : quiet (pc th) = true ->
  saved (pc th) = None /\ waits_at (pc th) = None /\ is_asleep (pc th) = false /\ weight (pc th) = 0 /\
  forall id, asleep_on id th = false /\ awake_on id th = false.
Proof. unfold asleep_on, awake_on. by destruct (pc th). Qed.

Lemma quiet_keeps th th' : quiet (pc th) = true -> quiet (pc th') = true -> wait_next th' = wait_next th -> keeps_place th th'.
Proof.
  intros Hq Hq' Hn. destruct (quiet_facts _ Hq) as (F1 & F2 & F3 & F4 & F5), (quiet_facts _ Hq') as (G1 & G2 & G3 & G4 & G5).
  constructor; [done|congruence|by rewrite F1|by rewrite G3|intros id; by rewrite (proj1 (G5 id))|intros id; by rewrite (proj2 (F5 id))].
Qed.

Lemma quiet_thread v d t th p' : thread_ok v d t th -> quiet (pc th) = true -> quiet p' = true -> pc_ok v t p' ->
  (forall o, wants p' = Some o -> wants (pc th) = Some o) -> thread_ok v d t (with_pc p' th).
Proof.
  intros [T1 T2 T3 T4 T5 T6] Hq Hq' Hok Hw. destruct (quiet_facts _ Hq) as (F1 & F2 & _), (quiet_facts (with_pc p' th) Hq') as (G1 & G2 & _).
  cbn [pc with_pc] in *. constructor; cbn [pc with_pc holds wait_monitor_]; [done| |by rewrite G1|done|congruence|].
  2:{ unfold outside in *. assert (contends p' = false) as -> by (by destruct p'). destruct (wants p') as [o|]; [|done]. intros _. apply T6. by rewrite (Hw o eq_refl), orb_true_r. }
  unfold owned in *. cbn [pc with_pc holds]. by rewrite G1; rewrite F1 in T2.
Qed.

Lemma safe_quiet c v t th p' :
  Inv c v -> threads c !! t = Some th -> quiet (pc th) = true -> quiet p' = true -> target p' = target (pc th) ->
  (forall o, wants p' = Some o -> wants (pc th) = Some o) ->
  (forall u, target p' = Some u -> confirmed p' = true ->
     confirmed (pc th) = true \/ exists thu, threads c !! u = Some thu /\ suspendable (pc thu) = true) ->
  (suspendable (pc th) = true -> suspend_count th = 0) -> pc_ok v t p' -> safe_run (goto t p') c v.
Proof.
  intros Hinv Hth Hq Hq' Ht Hw Hconf Hsus Hok. eexists _, v. split; [by apply goto_ok|]. split; [|by intros h].
  apply (Inv_local c v t th); [done|done|by apply quiet_keeps| |by apply quiet_thread; [apply Hinv|..]|by left].
  constructor; cbn [pc with_pc suspend_count]; [done|done|done| |auto]. intros Hs Hpos. specialize (Hsus Hs). lia.
Qed.

(** A thread starts or ends the suspension of another one. *)
Record suspension (th : Thread) (o delta : Z) (p' : PC) : Prop := {
  sn_quiet : quiet (pc th) = true /\ quiet p' = true;
  sn_free : suspendable (pc th) = true -> suspend_count th = 0;
  sn_wants : forall u, wants p' = Some u -> wants (pc th) = Some u;
  sn_target : (target (pc th) = None /\ target p' = Some o /\ confirmed p' = false /\ delta = 1) \/
              (target (pc th) = Some o /\ target p' = None /\ delta = -1);
}.

Lemma suspension_suspends th o delta p' u : suspension th o delta p' ->
  suspends u (with_pc p' th) = suspends u th + (if decide (u = o) then delta else 0).
Proof.
  intros [_ _ _ [(H1 & H2 & _ & ->)|(H1 & H2 & ->)]]; unfold suspends; cbn [pc with_pc]; rewrite H1, H2;
    repeat case_bool_decide; destruct (decide (u = o)); simplify_eq; done.
Qed.

Lemma suspension_ok ts t th o tho delta p' :
  suspend_ok ts -> ts !! t = Some th -> ts !! o = Some tho -> o <> t -> suspension th o delta p' ->
  suspend_ok (<[t := with_pc p' th]> (<[o := with_suspend_count (suspend_count tho + delta) tho]> ts)).
Proof.
  intros [Hc Ht Hr] Hth Ho Hne Hsn. pose proof (suspension_suspends th o delta p') as Hsp.
  set (tho' := with_suspend_count (suspend_count tho + delta) tho).
  assert (<[o := tho']> ts !! t = Some th) as Hth' by (by rewrite lookup_insert_ne by done).
  assert (forall u thu', <[t := with_pc p' th]> (<[o := tho']> ts) !! u = Some thu' -> exists thu, ts !! u = Some thu /\
    (u = t /\ thu' = with_pc p' th \/ u <> t /\ pc thu' = pc thu) /\ suspend_count thu' = suspend_count thu + (if decide (u = o) then delta else 0)) as Hold.
  { intros u thu' [[<- <-]|[Hut [[<- <-]|[Huo Hu]]%lookup_insert_Some]]%lookup_insert_Some.
    - exists th. rewrite decide_False by done. split_and!; [done|by left|cbn; lia].
    - exists tho. rewrite decide_True by done. split_and!; [done|by right|done].
    - exists thu'. rewrite decide_False by done. split_and!; [done|by right|lia]. }
  assert (forall u thu, ts !! u = Some thu -> (suspendable (pc thu) = true -> u = t -> 0 < suspend_count th) ->
    exists thu', <[t := with_pc p' th]> (<[o := tho']> ts) !! u = Some thu' /\ (suspendable (pc thu) = true -> suspendable (pc thu') = true)) as Hnew.
  { intros u thu Hu Hpos. destruct (decide (u = t)) as [->|Hut].
    - rewrite lookup_insert_eq. eexists. split; [done|]. assert (thu = th) as -> by congruence. intros Hs.
      specialize (Hpos Hs eq_refl). pose proof (sn_free _ _ _ _ Hsn Hs). lia.
    - rewrite lookup_insert_ne by done. destruct (decide (u = o)) as [->|Huo].
      + rewrite lookup_insert_eq. eexists. split; [done|]. by assert (thu = tho) as -> by congruence.
      + rewrite lookup_insert_ne by done. eauto. }
  constructor.
  3:{ apply (no_cycle_less ts); [|done]. intros u thu' x Hu' Hx. destruct (Hold u thu' Hu') as (thu & Hu & [[-> ->]|[Hut Hpc]] & _); exists thu; (split; [done|]).
      - assert (thu = th) as -> by congruence. by apply (sn_wants _ _ _ _ Hsn).
      - congruence. }
  - intros u thu' Hu'. destruct (Hold u thu' Hu') as (thu & Hu & _ & ->).
    rewrite (total_insert _ t th), (total_insert _ o tho), Hsp, (Hc u thu Hu) by done.
    assert (suspends u tho' = suspends u tho) as -> by done. lia.
  - intros x thx' u Hx' Hux. destruct (Hold x thx' Hx') as (thx & Hx & [[-> ->]|[Hxt Hpc]] & _).
    + cbn [pc with_pc] in Hux |- *. destruct (sn_target _ _ _ _ Hsn) as [(_ & H2 & H3 & _)|(_ & H2 & _)]; [|congruence].
      rewrite H2 in Hux. injection Hux as <-. split; [done|]. destruct (Hnew o tho Ho) as (thu' & Hu' & _); [done|]. exists thu'. by rewrite H3.
    + rewrite Hpc in *. destruct (Ht x thx u Hx Hux) as (Hu1 & thu & Hu & Hconf). split; [done|].
      destruct (Hnew u thu Hu) as (thu' & Hu' & Hs); [|by exists thu'; auto].
      intros _ ->. apply (suspended_count ts x thx t th); [by constructor|done|done|done].
Qed.

Lemma Inv_suspension c v t th o tho delta p' :
  Inv c v -> threads c !! t = Some th -> threads c !! o = Some tho -> o <> t -> suspension th o delta p' -> pc_ok v t p' ->
  safe_run (ModifySuspendCount o delta ;; goto t p') c v.
Proof.
  intros Hinv Hth Ho Hne Hsn Hok. unfold safe_run. set (tho' := with_suspend_count (suspend_count tho + delta) tho).
  assert (ModifySuspendCount o delta c = Ok (tt, put o tho' c)) as Hcount.
  { unfold ModifySuspendCount. rewrite (bind_ok _ _ _ _ _ (get_thread_ok o tho c Ho)).
    assert ((delta <? 0) && (suspend_count tho <=? 0) = false) as ->; [|by apply update_thread_ok].
    destruct (sn_target _ _ _ _ Hsn) as [(_ & _ & _ & ->)|(Ht & _ & ->)]; [done|]. apply Z.leb_gt. apply (suspended_count (threads c) t th o tho); [apply Hinv|done..]. }
  rewrite (bind_ok _ _ _ _ _ Hcount).
  assert (threads (put o tho' c) !! t = Some th) as Hth' by (by rewrite put_lookup_ne by done).
  rewrite (goto_ok t p' th) by done. eexists _, v. split; [reflexivity|]. split; [|by intros h].
  destruct (sn_quiet _ _ _ _ Hsn) as [Hq Hq']. destruct Hinv as [H1 H2 H3 H4 H5 H6 H7].
  assert (thread_ok v (depth v (monitors c) o) o tho') as Hoko by (destruct (H4 o tho Ho); by constructor).
  constructor; [done|done|done|..]; cbn [put set_threads threads monitors].
  - intros u thu [[<- <-]|[Hut [[<- <-]|[Huo Hu]]%lookup_insert_Some]]%lookup_insert_Some; [apply quiet_thread; [by apply H4|done|done|done|by apply (sn_wants _ _ _ _ Hsn)]|done|by apply H4].
  - apply (lock_local v _ _ t th); [|done|by apply quiet_keeps]. apply (lock_local v _ _ o tho); [done|done|]. by constructor.
  - by apply suspension_ok.
  - intros u thu h [[<- <-]|[Hut [[<- <-]|[Huo Hu]]%lookup_insert_Some]]%lookup_insert_Some Hr; [by eapply (H7 t)|by eapply (H7 o)|by eapply (H7 u)].
Qed.

Lemma back_to_ok v t from : simple (back_to from) = true /\ quiet (back_to from) = true /\ pc_ok v t (back_to from).
Proof. by destruct from. Qed.

(** How a round ends does not depend on where the thread that runs it is. *)
Lemma round_ends_pc timed_out c t th p from o h : threads c !! t = Some th -> o <> t ->
  SuspendRoundEnds timed_out t from o h (put t (with_pc p th) c) = SuspendRoundEnds timed_out t from o h c.
Proof.
  intros Hth Hne. unfold SuspendRoundEnds.
  assert (forall p', goto t p' (put t (with_pc p th) c) = goto t p' c) as Hgo.
  { intros p'. rewrite (goto_ok t p' (with_pc p th)) by apply put_lookup. by rewrite put_put, (goto_ok t p' th). }
  destruct (threads c !! o) as [tho|] eqn:Ho.
  2:{ unfold get_thread. by rewrite !bind_assoc, !bind_gets, put_lookup_ne, Ho. }
  rewrite (bind_ok _ _ _ _ _ (get_thread_ok o tho c Ho)), (bind_ok _ _ _ _ _ (get_thread_ok o tho (put t (with_pc p th) c) ltac:(by rewrite put_lookup_ne))).
  destruct (IsSuspended tho); [apply Hgo|]. destruct timed_out; [|apply Hgo]. unfold ModifySuspendCount.
  rewrite !bind_assoc, (bind_ok _ _ _ _ _ (get_thread_ok o tho c Ho)), (bind_ok _ _ _ _ _ (get_thread_ok o tho (put t (with_pc p th) c) ltac:(by rewrite put_lookup_ne))).
  case_match; [done|]. rewrite (bind_ok _ _ _ _ _ (update_thread_ok o _ tho c Ho)), (bind_ok _ _ _ _ _ (update_thread_ok o _ tho (put t (with_pc p th) c) ltac:(by rewrite put_lookup_ne))).
  rewrite (goto_ok t _ (with_pc p th)), (goto_ok t _ th) by (by rewrite put_lookup_ne, ?put_lookup).
  unfold put, set_threads. cbn. by rewrite (insert_insert_ne _ o t), !insert_insert_eq by done.
Qed.

Lemma round_ends c v t th timed_out from o h :
  Inv c v -> threads c !! t = Some th -> pc th = SuspendRequested from o h -> suspend_count th = 0 ->
  safe_run (SuspendRoundEnds timed_out t from o h) c v.
Proof.
  intros Hinv Hth Hpc Hcnt. pose proof (to_pc _ _ _ _ (iv_threads c v Hinv t th Hth)) as Hok. rewrite Hpc in Hok. destruct Hok as [[Hne Hn0] Hh].
  destruct (su_target _ (iv_suspend c v Hinv) t th o Hth) as (_ & tho & Ho & _); [by rewrite Hpc|]. destruct (back_to_ok v t from) as (B1 & B2 & B3).
  unfold SuspendRoundEnds, safe_run. rewrite (bind_ok _ _ _ _ _ (get_thread_ok o tho c Ho)). destruct (IsSuspended tho) eqn:Hs; [|destruct timed_out].
  - apply andb_prop in Hs as [Hs _]. apply (safe_quiet c v t th); rewrite ?Hpc; try done. intros u [= <-] _. right. eauto.
  - apply (Inv_suspension c v t th o tho); [done|done|done|done| |done]. constructor; rewrite ?Hpc; [done|done|done|]. by right.
  - by apply (safe_quiet c v t th); rewrite ?Hpc.
Qed.

Lemma request_suspend c v t th timed_out from o h :
  Inv c v -> threads c !! t = Some th -> pc th = SuspendOwner from o h -> suspend_count th = 0 ->
  safe_run (RequestSuspend timed_out t from o h) c v.
Proof.
  intros Hinv Hth Hpc Hcnt. pose proof (to_pc _ _ _ _ (iv_threads c v Hinv t th Hth)) as Hok. rewrite Hpc in Hok. destruct Hok as [[Hne Hn0] Hh].
  unfold RequestSuspend, SuspendRound, safe_run, checkM. rewrite (proj2 (Z.eqb_neq o kInvalidThreadId) Hn0), bind_lift, bind_gets.
  destruct (threads c !! o) as [tho|] eqn:Ho.
  2:{ rewrite bind_lift. cbn [is_some negb check]. by apply (safe_quiet c v t th); rewrite ?Hpc. }
  rewrite (bind_ok _ _ _ _ _ (get_thread_ok t th c Hth)), Hcnt. cbn [is_some negb andb Z.ltb Z.compare].
  rewrite (proj2 (Z.eqb_neq o t) Hne). cbn [negb check].
  assert (safe_run (ModifySuspendCount o 1 ;; goto t (SuspendRequested from o h)) c v) as (c1 & v1 & Hrun & Hinv1 & Hk).
  { apply (Inv_suspension c v t th o tho); [done|done|done|done| |done]. constructor; rewrite ?Hpc; [done|done|done|by left]. }
  apply bind_inv in Hrun as ([] & c0 & Hmod & Hgo). rewrite (bind_ok _ _ _ _ _ Hmod), bind_lift.
  assert (threads c0 !! t = Some th) as Hth0.
  { unfold ModifySuspendCount in Hmod. rewrite (bind_ok _ _ _ _ _ (get_thread_ok o tho c Ho)) in Hmod. cbn in Hmod. rewrite (update_thread_ok o _ tho c Ho) in Hmod. injection Hmod as <-. by rewrite put_lookup_ne. }
  rewrite (goto_ok t _ th) in Hgo by done. injection Hgo as <-.
  destruct (round_ends _ v1 t _ timed_out from o h Hinv1 (put_lookup _ _ _) eq_refl Hcnt) as (c' & v' & Hrun & Hinv' & Hk').
  rewrite round_ends_pc in Hrun by done. exists c', v'. split_and!; [done|done|]. intros x Hx. by apply Hk', Hk.
Qed.

Lemma suspend_again c v t th timed_out from o h :
  Inv c v -> threads c !! t = Some th -> pc th = SuspendRequested from o h -> suspend_count th = 0 ->
  safe_run (SuspendRound timed_out t from o h (Some o)) c v.
Proof.
  intros Hinv Hth Hpc Hcnt. pose proof (to_pc _ _ _ _ (iv_threads c v Hinv t th Hth)) as Hok. rewrite Hpc in Hok. destruct Hok as [[Hne Hn0] Hh].
  destruct (su_target _ (iv_suspend c v Hinv) t th o Hth) as (_ & tho & Ho & _); [by rewrite Hpc|].
  assert (0 < suspend_count tho) as Hpos by (apply (suspended_count (threads c) t th o tho); [apply Hinv|done|by rewrite Hpc|done]).
  unfold SuspendRound, safe_run, checkM. rewrite bind_gets, Ho, (bind_ok _ _ _ _ _ (get_thread_ok t th c Hth)). cbn [is_some negb andb].
  rewrite Z.eqb_refl, (proj2 (Z.ltb_lt _ _) Hpos), (proj2 (Z.eqb_neq o t) Hne), bind_assoc, !bind_lift. by apply (round_ends c v t th).
Qed.

Lemma check_owner_suspended c v t th from o h :
  Inv c v -> threads c !! t = Some th -> pc th = OwnerSuspended from o h -> suspend_count th = 0 -> safe_run (CheckOwnerSuspended t from o h) c v.
Proof.
  intros Hinv Hth Hpc Hcnt. pose proof (to_pc _ _ _ _ (iv_threads c v Hinv t th Hth)) as Hok. rewrite Hpc in Hok. destruct Hok as [[Hne _] Hh].
  assert (safe_run (goto t (Inflated from false (Some o))) c v) as Hback.
  { apply (safe_quiet c v t th); rewrite ?Hpc; try done; [by left|]. split; [done|congruence]. }
  unfold CheckOwnerSuspended, safe_run. rewrite (read_lock_word c v Hinv). pose proof (iv_view c v Hinv) as Hview. rewrite encode_state by done.
  destruct v as [|o' n|id|x]; try done. destruct (encode_thin o' n Hview) as [-> _]. destruct (Z.eqb_spec o' o) as [->|Ho]; [|done].
  apply (safe_quiet c _ t th); rewrite ?Hpc; try done; [by left|]. cbn [view_ok] in Hview.
  split; [done|]. right. right. split_and!; [lia|done|done|]. left. eauto.
Qed.

Lemma CheckOwner_ok c v t th from o h s : Inv c v -> threads c !! t = Some th -> pc th = Install from o h s -> CheckOwner t o c = Ok (tt, c).
Proof.
  intros Hinv Hth Hpc. pose proof (to_pc _ _ _ _ (iv_threads c v Hinv t th Hth)) as Hok. rewrite Hpc in Hok.
  unfold CheckOwner. destruct Hok as (_ & [(-> & _)|[(-> & _)|(Ho & Hne & -> & _)]]); [done|by rewrite Z.eqb_refl, orb_true_r|].
  rewrite (proj2 (Z.eqb_neq o 0) Ho), (proj2 (Z.eqb_neq o t) Hne). cbn [orb].
  destruct (su_target _ (iv_suspend c v Hinv) t th o Hth) as (_ & tho & Hlo & Hs); [by rewrite Hpc|].
  rewrite (bind_ok _ _ _ _ _ (get_thread_ok o tho c Hlo)). unfold checkM, IsSuspended. rewrite Hs by (by rewrite Hpc).
  rewrite (proj2 (Z.ltb_lt _ _)); [done|]. apply (suspended_count (threads c) t th o tho); [apply Hinv|done|by rewrite Hpc|done].
Qed.

Lemma install_read c v t th from o h s :
  Inv c v -> threads c !! t = Some th -> pc th = Install from o h s -> safe_run (InstallRead t from o h s) c v.
Proof.
  intros Hinv Hth Hpc. unfold InstallRead, safe_run. rewrite (bind_ok _ _ _ _ _ (CheckOwner_ok c v t th from o h s Hinv Hth Hpc)).
  rewrite (read_lock_word c v Hinv). pose proof (iv_view c v Hinv) as Hview. rewrite encode_state by done.
  pose proof (to_pc _ _ _ _ (iv_threads c v Hinv t th Hth)) as Hok. rewrite Hpc in Hok. destruct Hok as [Hh Hok].
  assert (forall p', quiet p' = true -> target p' = s -> confirmed p' = true -> wants p' = target p' -> pc_ok v t p' -> safe_run (goto t p') c v) as Hgo.
  { intros p' Hq Ht Hc Hw Hp. apply (safe_quiet c v t th); rewrite ?Hpc; try done; [by rewrite Hw, <- Ht|by left]. }
  assert (s <> Some t) as Hst by (destruct Hok as [(_ & -> & _)|[(_ & -> & _)|(_ & Hne & -> & _)]]; congruence).
  destruct v as [|o' n|id|x]; cbn [view_ok] in Hview.
  - exfalso. destruct Hok as [(_ & _ & [|[]])|[(_ & _ & ? & ?)|(_ & _ & _ & [[]|[]])]]; done.
  - destruct (encode_thin o' n Hview) as [-> ->].
    assert (o = o' /\ (if o' =? t then s = None else s = Some o')) as [-> Hs].
    { destruct Hok as [(_ & _ & [|[]])|[(-> & -> & ? & [= ->])|(_ & Hne & -> & [[? [= ->]]|[]])]]; try done; split; try done.
      - by rewrite Z.eqb_refl.
      - by rewrite (proj2 (Z.eqb_neq o t) Hne). }
    rewrite (proj2 (Z.eqb_neq o' 0)) by lia. rewrite bind_ret, Z.eqb_refl. unfold checkM. rewrite bind_lift. cbn [check].
    apply Hgo; [done|done|done|done|]. exists (Thin o' n). split_and!; [done|done|by eexists|by left|done].
  - apply Hgo; [done|done|done|done|]. by split.
  - rewrite encode_hash by done.
    assert (o = 0 /\ s = None /\ x = h) as (-> & -> & ->).
    { destruct Hok as [(-> & -> & [[= ->]|[]])|[(_ & _ & ? & ?)|(_ & _ & _ & [[]|[]])]]; done. }
    rewrite Z.eqb_refl. unfold checkM. rewrite bind_lift. cbn [check]. apply Hgo; [done|done|done|done|].
    exists (Hashed h). split_and!; [done|done|done|by left|done].
Qed.

Lemma inflate_returns c v t th from installed s :
  Inv c v -> threads c !! t = Some th -> pc th = Inflated from installed s -> safe_run (InflateReturns t from installed s) c v.
Proof.
  intros Hinv Hth Hpc. unfold InflateReturns, safe_run. rewrite (read_lock_word c v Hinv). pose proof (iv_view c v Hinv) as Hview.
  pose proof (to_pc _ _ _ _ (iv_threads c v Hinv t th Hth)) as Hok. rewrite Hpc in Hok. destruct Hok as [Hf Hst].
  rewrite encode_state by done. destruct (back_to_ok v t from) as (B1 & B2 & B3).
  assert (whenM installed (checkM (match v with Fat _ => true | _ => false end)) c = Ok (tt, c)) as Hcheck.
  { destruct installed; [|done]. by destruct (Hf eq_refl) as [id ->]. }
  match goal with |- context [whenM installed (checkM ?b)] => replace b with (match v with Fat _ => true | _ => false end) by (by destruct v) end.
  rewrite (bind_ok _ _ _ _ _ Hcheck). destruct s as [o|].
  - destruct (su_target _ (iv_suspend c v Hinv) t th o Hth) as (Hne & tho & Ho & _); [by rewrite Hpc|].
    apply (Inv_suspension c v t th o tho); [done|done|done|done| |done]. constructor; rewrite ?Hpc; [done|done|by destruct from|]. right. by destruct from.
  - rewrite bind_ret. apply (safe_goto c v t th); [done|done|by rewrite Hpc|by rewrite Hpc|by left|done].
Qed.

(** Publishing a monitor: the owner of a thin lock is the thread itself or is
    suspended, so nobody relies on the lock word. *)
Lemma publish_frame c v t th from m lw s id u thu :
  Inv c v -> threads c !! t = Some th -> pc th = InstallCas from m lw s -> lw = encode v -> ~ is_fat v ->
  threads c !! u = Some thu -> u <> t -> pc_ok (Fat id) u (pc thu).
Proof.
  intros Hinv Hth Hpc Hlw Hnf Hu Hne. pose proof (to_pc _ _ _ _ (iv_threads c v Hinv u thu Hu)) as Hok.
  pose proof (to_pc _ _ _ _ (iv_threads c v Hinv t th Hth)) as Ht. rewrite Hpc in Ht. destruct Ht as (v0 & Hv0 & _ & _ & Hv & Hs).
  destruct Hv as [<-|]; [|done]. assert (is_fat (Fat id)) as Hfat by (by eexists).
  assert (forall n, v = Thin u n -> suspendable (pc thu) = true) as Hown.
  { intros n ->. rewrite (proj2 (Z.eqb_neq u t) Hne) in Hs.
    apply (confirmed_suspended c (Thin u n) u thu t th); [done|done|by rewrite Hpc|by rewrite Hpc|done]. }
  destruct (pc thu) as [|k|k lw' w|w| |w|mon| |lw' w|mon|fr o h|fr o h|fr o h|fr|fr o h s'|fr m' lw' s'|fr b s'|to mon|to mon|to mon|to mon| | | | | | | |] eqn:Hp;
    cbn [pc_ok suspendable] in *; try done; try (destruct Hnf; by eexists).
  - destruct Hok as (n & Hvn & _). by apply Hown in Hvn.
  - destruct Hok as (n & Hvn & _). by apply Hown in Hvn.
  - destruct Hok as (Hh & [(-> & -> & _)|[(-> & -> & n & Hvn)|(H1 & H2 & -> & _)]]); split; try done; [by left; auto|by apply Hown in Hvn|].
    right. right. auto.
  - destruct Hok as (w0 & W1 & W2 & W3 & _ & W5). exists w0. split_and!; auto.
  - destruct Hok as [_ Hst]. by split.
Qed.

Lemma made_depth v m id u : view_ok v -> made_from v m -> depth (Fat id) {[id := m]} u = depth v ∅ u.
Proof.
  intros Hok Hm. unfold depth, lock_view. rewrite lookup_singleton_eq. destruct v as [|o n|id'|h]; cbn [made_from view_ok] in *; try done.
  - destruct Hm as (h & _ & ->). cbn. by rewrite (proj2 (Z.eqb_neq o 0)) by lia.
  - by subst m.
Qed.

Lemma made_hash v m id h : view_ok v -> made_from v m -> hash_view v ∅ = Some h -> hash_view (Fat id) {[id := m]} = Some h.
Proof.
  intros Hok Hm Hh. destruct v as [|o n|id'|x]; try done. cbn in Hm, Hh, Hok. subst m. injection Hh as ->.
  unfold hash_view. rewrite lookup_singleton_eq. unfold HasHashCode. cbn. by rewrite (proj2 (Z.eqb_neq h 0)) by lia.
Qed.

(** Nobody waits for a new monitor. *)
Lemma made_monitor c v m id : Inv c v -> ~ is_fat v -> made_from v m -> monitor_ok (threads c) id m.
Proof.
  intros Hinv Hnf Hm. pose proof (iv_view c v Hinv) as Hok. pose proof (iv_lock c v Hinv) as Hl.
  assert (total (fun th => weight (pc th)) (threads c) = 0) as Hz.
  { destruct (decide (total (fun th => weight (pc th)) (threads c) = 0)) as [|Hn]; [done|].
    apply total_pos in Hn as (u & thu & Hu & Hw). by destruct (nonfat_thread c v u thu Hinv Hnf Hu) as (_ & ? & _). }
  assert (exists o n h, m = mkMonitor 0 o n 0 h /\ (o = 0 -> n = 0) /\ 0 <= n /\ 0 <= h < 2 ^ 28 /\ (o <> 0 -> is_Some (threads c !! o)))
    as (o & n & h & -> & M1 & M2 & M3 & M4).
  { destruct v as [|o n|id'|x]; cbn in Hm, Hok; try done.
    - destruct Hm as (h & Hh & ->). exists o, n, h. split_and!; try done; try lia. intros _. apply Hl.
    - exists 0, 0, x. split_and!; try done; lia. }
  constructor; cbn [owner_ lock_count_ hash_code_ num_waiters_ wait_set_]; [done|done|done|done|done| |].
  - intros _ (u & thu & Hu & Has). destruct (nonfat_thread c v u thu Hinv Hnf Hu) as (_ & _ & _ & _ & Hna). by rewrite Hna in Has.
  - exists []. constructor; [done|constructor|set_solver| |].
    + intros u thu Hu _. by apply (nonfat_thread c v u thu).
    + intros u thu Hu Has. destruct (nonfat_thread c v u thu Hinv Hnf Hu) as (_ & _ & _ & Hna & _). congruence.
Qed.

Lemma install_publish c v t th ch from m lw s :
  Inv c v -> threads c !! t = Some th -> pc th = InstallCas from m lw s -> choice_ok ch (pc th) c = true ->
  safe_run (InstallPublish ch t from m lw s) c v.
Proof.
  intros Hinv Hth Hpc Hch. unfold InstallPublish, safe_run.
  pose proof (to_pc _ _ _ _ (iv_threads c v Hinv t th Hth)) as Ht. rewrite Hpc in Ht, Hch. destruct Ht as (v0 & Hv0 & -> & Hm & Hv & Hs).
  assert (s <> Some t) as Hst.
  { destruct v0 as [|o n|id|h]; try congruence. destruct (Z.eqb_spec o t); congruence. }
  rewrite encode_rb by done. destruct (CasLockWord_inv c (spurious ch) (encode v0) (FromMonitorId (new_id ch) 0)) as (b & Hcas & Hb).
  rewrite (bind_ok _ _ _ _ _ Hcas). destruct b; cbn [whenM].
  2:{ rewrite bind_ret. apply (safe_quiet c v t th); rewrite ?Hpc; try done. by left. }
  cbn [choice_ok] in Hch. apply andb_prop in Hch as [Hid _]. apply andb_prop in Hid as [Hid1%Z.leb_le Hid2%Z.leb_le].
  change kMaxMonitorId with (2 ^ 28 - 1) in Hid2. set (id := new_id ch) in *. assert (view_ok (Fat id)) as Hidok by (cbn; lia).
  assert (v = v0) as -> by (apply encode_inj; [apply Hinv|done|rewrite <- (iv_word c v Hinv); by apply Hb]).
  assert (~ is_fat v0) as Hnf by (intros [? ->]; done). pose proof (nonfat_monitors c v0 Hinv Hnf) as Hms.
  rewrite make_fat by done. rewrite bind_modify. rewrite (goto_ok t _ th) by done.
  eexists _, (Fat id). split; [reflexivity|].
  assert (quiet (pc th) = true) as Hq by (by rewrite Hpc). set (th' := with_pc (Inflated from true s) th).
  assert (keeps_place th th') as Hkeep by (by apply quiet_keeps).
  split; [|cbn; rewrite Hms; intros h; by apply (made_hash v0)].
  constructor; cbn [set_lock_word set_monitors put set_threads lock_word monitors threads hash_code_seed]; rewrite ?Hms, ?insert_empty.
  - done.
  - done.
  - apply (iv_seed c v0 Hinv).
  - intros u thu [[<- <-]|[Hne Hu]]%lookup_insert_Some; rewrite (made_depth v0) by done; rewrite <- Hms.
    + apply quiet_thread; [|done|done|by split; [eexists|]|by rewrite Hpc]. destruct (iv_threads c v0 Hinv t th Hth) as [T1 T2 T3 T4 T5 T6].
      constructor; try done. rewrite Hpc. exists v0. split_and!; try done. right. by eexists.
    + destruct (iv_threads c v0 Hinv u thu Hu) as [U1 U2 U3 U4 U5 U6]. constructor; try done.
      by apply (publish_frame c v0 t th from m (encode v0) s).
  - exists m. split; [done|]. apply (monitor_local _ t th); [by apply (made_monitor c v0)|done|done].
  - apply (suspend_local _ t th); [apply Hinv|done|]. constructor; cbn; rewrite ?Hpc; try done; by left.
  - intros u thu h [[<- <-]|[Hne Hu]]%lookup_insert_Some Hr; apply (made_hash v0); try done; rewrite <- Hms; by eapply (iv_hash c v0 Hinv).
Qed.
