(* ===== verification/MonitorWaiting.v ===== *)
(** * The invariant of the monitor model: locking, waiting and notifying

    The steps under [monitor_lock_]: [Lock], [Unlock], [GetHashCode], [Wait] and
    [Notify], with the list operations on the wait set, keep the invariant. *)

From S2P Require Import Prelude LockWord Monitor MonitorInvariant.

(** *** The monitor *)

Lemma fat_monitor c v mon t th : Inv c v -> threads c !! t = Some th -> pc_ok v t (pc th) -> v = Fat mon ->
  exists m, monitors c = {[mon := m]} /\ monitor_ok (threads c) mon m.
Proof. intros Hinv _ _ ->. destruct (iv_lock c _ Hinv) as (m & Hm & Hok). eauto. Qed.

Lemma Inv_fat c id m t th m' th' :
  Inv c (Fat id) -> monitors c = {[id := m]} -> threads c !! t = Some th -> keeps_suspension (threads c) t th th' ->
  thread_ok (Fat id) (depth (Fat id) {[id := m']} t) t th' ->
  (forall u, u <> t -> depth (Fat id) {[id := m']} u = depth (Fat id) {[id := m]} u) ->
  monitor_ok (<[t := th']> (threads c)) id m' ->
  (forall h, hash_view (Fat id) {[id := m]} = Some h -> hash_view (Fat id) {[id := m']} = Some h) ->
  (forall h, result th' = HashCodeIs h -> result th = HashCodeIs h \/ hash_view (Fat id) {[id := m']} = Some h) ->
  Inv (put t th' (put_monitor id m' c)) (Fat id).
Proof.
  intros [H1 H2 H3 H4 H5 H6 H7] Hm Hth Hs Hok Hd Hmo Hh Hr. rewrite Hm in *.
  constructor; [done|done|done|..]; cbn [put put_monitor set_monitors set_threads threads monitors]; rewrite ?Hm, ?insert_singleton_eq.
  - intros u thu [[<- <-]|[Hne Hu]]%lookup_insert_Some; [done|]. rewrite Hd by done. by apply H4.
  - by exists m'.
  - by apply (suspend_local _ t th).
  - intros u thu h [[<- <-]|[Hne Hu]]%lookup_insert_Some Hres; [|by eapply Hh, H7].
    destruct (Hr h Hres) as [Hold|]; [by eapply Hh, H7|done].
Qed.

Lemma depth_fat id m u : depth (Fat id) {[id := m]} u = if (owner_ m =? 0) || negb (owner_ m =? u) then 0 else lock_count_ m + 1.
Proof.
  unfold depth, lock_view. rewrite lookup_singleton_eq. destruct (owner_ m =? 0); [done|]. cbn [orb]. by destruct (owner_ m =? u).
Qed.

Lemma hash_fat id m : hash_view (Fat id) {[id := m]} = if HasHashCode m then Some (hash_code_ m) else None.
Proof. unfold hash_view. by rewrite lookup_singleton_eq. Qed.

Lemma hash_same id m m' h : hash_code_ m' = hash_code_ m -> hash_view (Fat id) {[id := m]} = Some h -> hash_view (Fat id) {[id := m']} = Some h.
Proof. intros Heq. rewrite !hash_fat. unfold HasHashCode. by rewrite Heq. Qed.

(** A thread moves on and the monitor changes. *)
Record monitor_moves (ts : gmap Z Thread) (id t : Z) (th th' : Thread) (m m' : Monitor) : Prop := {
  mm_free : owner_ m' = 0 -> lock_count_ m' = 0;
  mm_count : 0 <= lock_count_ m';
  mm_owner : owner_ m' = 0 \/ owner_ m' = t \/ owner_ m' = owner_ m;
  mm_hash : 0 <= hash_code_ m' < 2 ^ 28;
  mm_waiters : num_waiters_ m' = num_waiters_ m - weight (pc th) + weight (pc th');
  mm_wake : owner_ m' = 0 -> (exists u thu, <[t := th']> ts !! u = Some thu /\ asleep_on id thu = true) ->
    exists u thu, <[t := th']> ts !! u = Some thu /\ awake_on id thu = true;
  mm_waits : exists ws, wait_set_ok (<[t := th']> ts) (wait_set_ m') ws;
}.

Lemma monitor_step ts id t th th' m m' :
  monitor_ok ts id m -> ts !! t = Some th -> monitor_moves ts id t th th' m m' -> monitor_ok (<[t := th']> ts) id m'.
Proof.
  intros [H1 H2 H3 H4 H5 H6 _] Hth [M1 M2 M3 M4 M5 M6 M7]. constructor; [done|done|..|done| |done|done].
  - intros Ho. destruct M3 as [|[->|Heq]]; [done|rewrite lookup_insert_eq; eauto|].
    rewrite Heq in *. by apply is_Some_local, H3.
  - rewrite (total_insert _ t th) by done. lia.
Qed.

Lemma waits_stay ts id m t th th' :
  monitor_ok ts id m -> ts !! t = Some th -> wait_next th' = wait_next th ->
  (is_some (saved (pc th)) = true -> is_some (saved (pc th')) = true) -> (is_asleep (pc th') = true -> is_asleep (pc th) = true) ->
  exists ws, wait_set_ok (<[t := th']> ts) (wait_set_ m) ws.
Proof. intros Hm ? ? ? ?. destruct (mo_waits _ _ _ Hm) as (ws & Hws). exists ws. by apply (wait_set_local ts t th). Qed.

Lemma put_monitor_id id m c : monitors c = {[id := m]} -> put_monitor id m c = c.
Proof. intros Hm. unfold put_monitor, set_monitors. rewrite Hm, insert_singleton_eq, <- Hm. by destruct c. Qed.

Lemma put_monitor_twice id m m' c : put_monitor id m' (put_monitor id m c) = put_monitor id m' c.
Proof. unfold put_monitor, set_monitors. cbn. by rewrite insert_insert_eq. Qed.

Lemma put_monitor_lookup id m c : monitors (put_monitor id m c) !! id = Some m.
Proof. apply lookup_insert_eq. Qed.

Definition locked_thread (to : LockReturn) (mon : Z) (th : Thread) : Thread :=
  match to with
  | ToEnter => with_pc Running (with_result Entered (with_holds (holds th + 1) th))
  | ToWait a prev was => with_pc (WaitRestore a mon prev was) th
  end.

Lemma Locked_ok t to mon th c : threads c !! t = Some th -> Locked t to mon c = Ok (tt, put t (locked_thread to mon th) c).
Proof.
  intros Hth. destruct to as [|a prev was]; [|by apply goto_ok]. cbn [Locked locked_thread].
  rewrite (bind_ok _ _ _ _ _ (update_thread_ok _ _ _ _ Hth)), (finish_runs t _ _ _ (put_lookup _ _ _)). by rewrite put_put.
Qed.

(** Where [Lock] can be called, with what the thread adds to [num_waiters_] as a contender. *)
Definition lock_from (p : PC) (to : LockReturn) (mon k : Z) : Prop :=
  (p = LockMonitor to mon /\ k = 0) \/ (p = LockAwake to mon /\ k = 1).

Lemma lock_from_facts p to mon k : lock_from p to mon k ->
  target p = None /\ weight p = k + weight (LockMonitor to mon) /\ saved p = saved (LockMonitor to mon) /\ waits_at p = None /\ is_asleep p = false.
Proof. intros [[-> ->]|[-> ->]]; by destruct to. Qed.

Lemma Lock_ok c id m t th to k :
  threads c !! t = Some th -> monitors c = {[id := m]} -> (owner_ m = 0 -> lock_count_ m = 0) ->
  Lock t to id (put_monitor id (with_num_waiters (num_waiters_ m - k) m) c) =
  Ok (tt, if owner_ m =? 0 then put t (locked_thread to id th) (put_monitor id (with_owner t (with_num_waiters (num_waiters_ m - k) m)) c)
          else if owner_ m =? t then
            put t (locked_thread to id th) (put_monitor id (with_lock_count (lock_count_ m + 1) (with_num_waiters (num_waiters_ m - k) m)) c)
          else put t (with_pc (LockContended to id) th) (put_monitor id (with_num_waiters (num_waiters_ m - k + 1) m) c)).
Proof.
  intros Hth Hm Hfree. unfold Lock. rewrite (bind_ok _ _ _ _ _ (get_monitor_ok id _ _ (put_monitor_lookup id _ c))).
  cbn [owner_ with_num_waiters num_waiters_ lock_count_].
  destruct (Z.eqb_spec (owner_ m) 0) as [H0|H0]; [|destruct (Z.eqb_spec (owner_ m) t) as [Ht|Ht]].
  - rewrite (bind_ok _ _ _ _ _ (update_monitor_ok id _ _ _ (put_monitor_lookup id _ c))), put_monitor_twice.
    rewrite (Hfree H0). unfold checkM. rewrite bind_lift. cbn [Z.eqb check]. by rewrite (Locked_ok t to id th).
  - rewrite (bind_ok _ _ _ _ _ (update_monitor_ok id _ _ _ (put_monitor_lookup id _ c))), put_monitor_twice. by rewrite (Locked_ok t to id th).
  - rewrite (bind_ok _ _ _ _ _ (update_monitor_ok id _ _ _ (put_monitor_lookup id _ c))), put_monitor_twice. by rewrite (goto_ok t _ th).
Qed.

Lemma lock_round c id m t th to k :
  Inv c (Fat id) -> monitors c = {[id := m]} -> threads c !! t = Some th -> lock_from (pc th) to id k ->
  (suspendable (pc th) = true -> suspend_count th = 0) ->
  exists c', Lock t to id (put_monitor id (with_num_waiters (num_waiters_ m - k) m) c) = Ok (tt, c') /\ Inv c' (Fat id) /\
    hash_kept (Fat id) (monitors c) (Fat id) (monitors c').
Proof.
  intros Hinv Hm Hth Hfrom Hsus. destruct (lock_from_facts _ _ _ _ Hfrom) as (F1 & F2 & F3 & F4 & F5).
  destruct (iv_lock c _ Hinv) as (m0 & Hm0 & Hmo). assert (m0 = m) as -> by (rewrite Hm in Hm0; by apply map_singleton_inj in Hm0 as [_ ->]).
  pose proof Hmo as [M1 M2 M3 M4 M5 M6 M7]. pose proof (iv_threads c _ Hinv t th Hth) as [T1 T2 T3 T4 T5 T6].
  rewrite Hm, depth_fat in T2. rewrite F4 in T5.
  rewrite (Lock_ok c id m t th) by done. eexists. split; [reflexivity|].
  assert (forall p', target p' = None -> wants p' = None -> keeps_suspension (threads c) t th (with_pc p' th)) as Hks.
  { intros p' Hp Hw. constructor; cbn [pc with_pc suspend_count]; [done|by rewrite F1|by rewrite Hp| |by rewrite Hw]. intros Hs Hpos. specialize (Hsus Hs). lia. }
  assert (keeps_suspension (threads c) t th (locked_thread to id th)) as Hkl.
  { destruct to; [|by apply Hks]. destruct (Hks Running) as [K1 K2 K3 K4 K5]; [done|done|]. by constructor. }
  assert (forall d, d = owned th + 1 -> (is_some (saved (pc th)) = true -> owned th = 0) -> thread_ok (Fat id) d t (locked_thread to id th)) as Htl.
  { intros d -> Hw. unfold owned in *. rewrite F3 in *. destruct to as [|a prev was]; cbn [saved is_some] in *; constructor; cbn; try done.
    by rewrite Hw. }
  assert (is_some (saved (pc th)) = true -> owned th = 0) as Hzero.
  { intros Hs. rewrite F3 in Hs. destruct to; [done|]. unfold owned. by destruct Hfrom as [[-> _]|[-> _]]. }
  assert (forall m', owner_ m' <> 0 -> owner_ m' = t -> 0 <= lock_count_ m' -> 0 <= hash_code_ m' < 2 ^ 28 -> wait_set_ m' = wait_set_ m ->
    num_waiters_ m' = num_waiters_ m - k -> monitor_ok (<[t := locked_thread to id th]> (threads c)) id m') as Hml.
  { intros m' O1 O2 O3 O4 O5 O6. apply (monitor_step _ _ _ th _ m); [done|done|].
    assert (exists ws, wait_set_ok (<[t := locked_thread to id th]> (threads c)) (wait_set_ m') ws) as Hws.
    { rewrite O5. apply (waits_stay _ id m t th); [done|done|by destruct to|rewrite F3; by destruct to|by destruct to]. }
    destruct to; constructor; cbn [pc locked_thread with_pc wait_next with_result with_holds]; rewrite ?F2, ?F3; try done; try (by right; left); unfold weight; cbn; intros; try done; lia. }
  destruct (Z.eqb_spec (owner_ m) 0) as [H0|H0]; [|destruct (Z.eqb_spec (owner_ m) t) as [Ht|Ht]]; cbn [orb negb] in T2.
  - split.
    + apply (Inv_fat c id m t th); [done|done|done|done|..|intros h; by apply hash_same|].
      * apply Htl; [|done]. rewrite depth_fat, T2. cbn. rewrite (proj2 (Z.eqb_neq t 0)), Z.eqb_refl, M1 by lia. done.
      * intros u Hne. rewrite !depth_fat. cbn. rewrite H0. cbn. rewrite (proj2 (Z.eqb_neq t u)) by done. by rewrite orb_true_r.
      * apply Hml; cbn; [lia|done|lia|done|done|done].
      * intros h Hr. destruct to; [done|by left].
    + intros h. cbn. by rewrite Hm, insert_singleton_eq, !lookup_singleton_eq.
  - split.
    + apply (Inv_fat c id m t th); [done|done|done|done|..|intros h; by apply hash_same|].
      * apply Htl; [|done]. rewrite depth_fat, T2. cbn. rewrite (proj2 (Z.eqb_neq (owner_ m) 0)), Ht, Z.eqb_refl by done. done.
      * intros u Hne. rewrite !depth_fat. cbn. rewrite Ht, (proj2 (Z.eqb_neq t u)) by done. by rewrite !orb_true_r.
      * apply Hml; cbn; [done|done|lia|done|done|done].
      * intros h Hr. destruct to; [done|by left].
    + intros h. cbn. by rewrite Hm, insert_singleton_eq, !lookup_singleton_eq.
  - split.
    + apply (Inv_fat c id m t th); [done|done|done|by apply Hks|..|intros h; by apply hash_same|by left].
      * rewrite depth_fat. cbn. rewrite (proj2 (Z.eqb_neq (owner_ m) 0)), (proj2 (Z.eqb_neq (owner_ m) t)) by done. cbn.
        constructor; cbn [pc with_pc wait_monitor_ holds]; [done| |rewrite F3 in T3; by destruct to|done|done|done].
        rewrite <- T2. unfold owned. cbn [pc with_pc holds]. rewrite F3. destruct to; [done|]. cbn. by destruct Hfrom as [[-> _]|[-> _]].
      * intros u _. by rewrite !depth_fat.
      * apply (monitor_step _ _ _ th _ m); [done|done|].
        assert (exists ws, wait_set_ok (<[t := with_pc (LockContended to id) th]> (threads c)) (wait_set_ m) ws) as Hws.
        { apply (waits_stay _ id m t th); [done|done|done|rewrite F3; by destruct to|done]. }
        destruct to; constructor; cbn [pc with_pc wait_next]; rewrite ?F2, ?F3; try done; try (by right; right); unfold weight; cbn; intros; try done; lia.
    + intros h. cbn. by rewrite Hm, insert_singleton_eq, !lookup_singleton_eq.
Qed.

Lemma lock_step c v t th to mon : Inv c v -> threads c !! t = Some th -> pc th = LockMonitor to mon -> safe_run (Lock t to mon) c v.
Proof.
  intros Hinv Hth Hpc. pose proof (to_pc _ _ _ _ (iv_threads c v Hinv t th Hth)) as Hok. rewrite Hpc in Hok. cbn in Hok. subst v.
  destruct (iv_lock c _ Hinv) as (m & Hm & Hmo).
  destruct (lock_round c mon m t th to 0 Hinv Hm Hth) as (c' & Hrun & Hinv' & Hh); [by left|by rewrite Hpc|].
  exists c', (Fat mon). split; [|done]. rewrite <- Hrun. rewrite Z.sub_0_r. replace (with_num_waiters (num_waiters_ m) m) with m by (by destruct m).
  by rewrite put_monitor_id.
Qed.

Lemma lock_again c v t th to mon : Inv c v -> threads c !! t = Some th -> pc th = LockAwake to mon -> suspend_count th = 0 ->
  safe_run (LockAgain t to mon) c v.
Proof.
  intros Hinv Hth Hpc Hcnt. pose proof (to_pc _ _ _ _ (iv_threads c v Hinv t th Hth)) as Hok. rewrite Hpc in Hok. cbn in Hok. subst v.
  destruct (iv_lock c _ Hinv) as (m & Hm & Hmo).
  destruct (lock_round c mon m t th to 1 Hinv Hm Hth) as (c' & Hrun & Hinv' & Hh); [by right|done|].
  exists c', (Fat mon). split; [|done]. unfold LockAgain. rewrite <- Hrun.
  assert (monitors c !! mon = Some m) as Hl by (rewrite Hm; apply lookup_singleton_eq).
  by rewrite (bind_ok _ _ _ _ _ (update_monitor_ok mon _ m c Hl)).
Qed.

Lemma lock_blocked c v t th to mon : Inv c v -> threads c !! t = Some th -> pc th = LockContended to mon -> safe_run (LockBlocked t to mon) c v.
Proof.
  intros Hinv Hth Hpc. pose proof (iv_threads c v Hinv t th Hth) as [T1 T2 T3 T4 T5 T6]. rewrite Hpc in *. cbn in T4. subst v.
  destruct (iv_lock c _ Hinv) as (m & Hm & Hmo). assert (monitors c !! mon = Some m) as Hl by (rewrite Hm; apply lookup_singleton_eq).
  assert (forall p', p' = LockAsleep to mon /\ owner_ m <> 0 \/ p' = LockAwake to mon -> safe_run (goto t p') c (Fat mon)) as Hgo.
  { intros p' Hp'. assert (saved p' = saved (pc th) /\ weight p' = weight (pc th) /\ waits_at p' = None /\ target p' = None /\ suspendable p' = true
      /\ pc_ok (Fat mon) t p' /\ is_asleep p' = false) as (P1 & P2 & P3 & P4 & P5 & P6 & P7) by (rewrite Hpc; destruct Hp' as [[-> _]| ->]; by destruct to).
    eexists _, (Fat mon). split; [by apply goto_ok|]. split; [|by intros h].
    rewrite <- (put_monitor_id mon m c) at 1 by done. apply (Inv_fat c mon m t th); [done|done|done|..|intros h; by apply hash_same|by left].
    - constructor; cbn [pc with_pc suspend_count]; [done|by rewrite Hpc|by rewrite P4|done|destruct Hp' as [[-> _]| ->]; done].
    - rewrite <- Hm. constructor; cbn [pc with_pc wait_monitor_ holds]; [done| |by rewrite P1, Hpc|done|by rewrite P3, T5|intros _; by apply T6].
      rewrite <- T2. unfold owned. cbn [pc with_pc holds]. rewrite P1, Hpc. destruct Hp' as [[-> _]| ->]; by destruct to.
    - done.
    - apply (monitor_step _ _ _ th _ m); [done|done|]. 
      assert (exists ws, wait_set_ok (<[t := with_pc p' th]> (threads c)) (wait_set_ m) ws) as Hws.
      { apply (waits_stay _ mon m t th); cbn [pc with_pc wait_next]; rewrite ?P1, ?P7; done. }
      destruct Hmo as [M1 M2 M3 M4 M5 M6 M7]. constructor; cbn [pc with_pc wait_next]; try done; try (by right; right); rewrite ?P1, ?P2, ?P7; try done; try lia.
      intros Ho Has. exists t, (with_pc p' th). rewrite lookup_insert_eq. split; [done|]. destruct Hp' as [[_ ?]| ->]; [done|]. cbn. by rewrite Z.eqb_refl. }
  unfold LockBlocked, safe_run. rewrite (bind_ok _ _ _ _ _ (get_monitor_ok mon m c Hl)).
  destruct (Z.eqb_spec (owner_ m) 0) as [H0|H0]; cbn [negb]; apply Hgo; auto.
Qed.

(** *** Signals *)

Definition signal (w : Z) (c : Config) : Config := set_threads (alter wake_contender w (threads c)) c.

Lemma wake_contender_id th : (forall to mon, pc th <> LockAsleep to mon) -> wake_contender th = th.
Proof. intros Hp. unfold wake_contender. destruct (pc th) eqn:E; try done. by destruct (Hp to mon). Qed.

Lemma alter_wake_put w th c : threads c !! w = Some th -> signal w c = put w (wake_contender th) c.
Proof.
  intros Hth. unfold signal, put, set_threads. f_equal. apply map_eq. intros u. destruct (decide (u = w)) as [->|Hne].
  - by rewrite lookup_alter_eq, lookup_insert_eq, Hth.
  - by rewrite lookup_alter_ne, lookup_insert_ne by done.
Qed.

Lemma put_same t th c : threads c !! t = Some th -> put t th c = c.
Proof. intros Hth. unfold put, set_threads. rewrite insert_id by done. by destruct c. Qed.

Lemma signal_none w c : threads c !! w = None -> signal w c = c.
Proof.
  intros Hw. unfold signal, set_threads. assert (alter wake_contender w (threads c) = threads c) as ->; [|by destruct c].
  apply map_eq. intros u. destruct (decide (u = w)) as [->|Hne]; [by rewrite lookup_alter_eq, Hw|by rewrite lookup_alter_ne].
Qed.

(** All the threads that sleep as contenders do so for the one monitor. *)
Definition sleep_here (mon : Z) (ts : gmap Z Thread) : Prop := forall u thu to id, ts !! u = Some thu -> pc thu = LockAsleep to id -> id = mon.

Lemma Inv_sleep_here c mon : Inv c (Fat mon) -> sleep_here mon (threads c).
Proof.
  intros Hinv u thu to id Hu Hpc. pose proof (to_pc _ _ _ _ (iv_threads c _ Hinv u thu Hu)) as Hok. rewrite Hpc in Hok. cbn in Hok. congruence.
Qed.

Lemma SignalContender_ok mon w c : sleep_here mon (threads c) -> SignalContender mon w c = Ok (tt, signal w c).
Proof.
  intros Hs. unfold SignalContender. rewrite bind_gets. destruct (threads c !! w) as [th|] eqn:Hw; [|by rewrite signal_none].
  destruct (asleep_on mon th) eqn:Ha; cbn [whenM].
  - by rewrite (update_thread_ok w _ th), (alter_wake_put w th).
  - rewrite (alter_wake_put w th) by done. rewrite wake_contender_id; [by rewrite put_same|].
    intros to id Hpc. unfold asleep_on in Ha. rewrite Hpc, (Hs w th to id) in Ha by done. by rewrite Z.eqb_refl in Ha.
Qed.

Lemma wake_contender_facts th th' : th' = wake_contender th ->
  keeps_place th th' /\ suspend_count th' = suspend_count th /\ target (pc th') = target (pc th) /\ suspendable (pc th') = suspendable (pc th) /\
  confirmed (pc th') = confirmed (pc th) /\ result th' = result th /\ wants (pc th') = wants (pc th).
Proof.
  intros ->. unfold wake_contender, asleep_on, awake_on. destruct (pc th) as [| | | | | | | | | | | | | | | | | | |to mon| | | | | | | | |] eqn:Hp;
    (split; [constructor; cbn; rewrite ?Hp; try done; intros; unfold asleep_on, awake_on in *; cbn in *; rewrite ?Hp in *; try done; by destruct to|cbn; rewrite ?Hp; done]).
Qed.

Lemma wake_contender_thread v d t th : thread_ok v d t th -> thread_ok v d t (wake_contender th).
Proof.
  intros Hok. unfold wake_contender. destruct (pc th) as [| | | | | | | | | | | | | | | | | | |to mon| | | | | | | | |] eqn:Hp; try done.
  destruct Hok as [T1 T2 T3 T4 T5 T6]. rewrite Hp in *. constructor; cbn; try done.
  rewrite <- T2. unfold owned. cbn. rewrite Hp. by destruct to.
Qed.

Lemma Inv_signal c v w : Inv c v -> Inv (signal w c) v.
Proof.
  intros Hinv. destruct (threads c !! w) as [th|] eqn:Hw; [|by rewrite signal_none]. rewrite (alter_wake_put w th) by done.
  destruct (wake_contender_facts th _ eq_refl) as (K1 & K2 & K3 & K4 & K5 & K6 & K7).
  apply (Inv_local c v w th); [done|done|done| |apply wake_contender_thread, Hinv, Hw|rewrite K6; by left].
  constructor; [done|done|rewrite K5; by left|by rewrite K4|rewrite K7; by left].
Qed.

Lemma signal_lookup w c t th : threads c !! t = Some th -> (forall to mon, pc th <> LockAsleep to mon) -> threads (signal w c) !! t = Some th.
Proof.
  intros Hth Hp. cbn. destruct (decide (w = t)) as [->|Hne]; [|by rewrite lookup_alter_ne].
  rewrite lookup_alter_eq, Hth. cbn. by rewrite wake_contender_id.
Qed.

(** The signal wakes a contender if there is any. *)
Lemma signal_wakes ch mon c :
  (negb (any_asleep mon c) || (match threads c !! wake ch with Some th => asleep_on mon th | None => false end) = true) ->
  (exists u thu, threads (signal (wake ch) c) !! u = Some thu /\ asleep_on mon thu = true) ->
  exists thw to, threads (signal (wake ch) c) !! wake ch = Some thw /\ pc thw = LockAwake to mon.
Proof.
  intros Hch (u & thu & Hu & Has). apply orb_prop in Hch as [Hno|Hw].
  - exfalso. unfold any_asleep in Hno. apply negb_true_iff, bool_decide_eq_false in Hno. apply Hno. cbn in Hu.
    apply lookup_alter_Some in Hu as [(_ & th & Hth & ->)|[_ Hu]]; [|by exists u, thu].
    exists u, th. split; [done|]. by apply (kp_lock_asleep _ _ (proj1 (wake_contender_facts th _ eq_refl))).
  - destruct (threads c !! wake ch) as [thw|] eqn:Hw'; [|done]. unfold asleep_on in Hw.
    destruct (pc thw) as [| | | | | | | | | | | | | | | | | | |to mon'| | | | | | | | |] eqn:Hp; try done. apply Z.eqb_eq in Hw as <-.
    exists (with_pc (LockAwake to mon) thw), to. cbn. rewrite lookup_alter_eq, Hw'. cbn. unfold wake_contender. by rewrite Hp.
Qed.

Lemma fat_lookup (ms : gmap Z Monitor) id m : ms = {[id := m]} -> ms !! id = Some m.
Proof. intros ->. apply lookup_singleton_eq. Qed.

(** [Monitor::Unlock]. *)
Lemma unlock_step c v t th ch mon : Inv c v -> threads c !! t = Some th -> pc th = ExitMonitor mon -> choice_ok ch (pc th) c = true ->
  safe_run (Unlock ch t mon) c v.
Proof.
  intros Hinv Hth Hpc Hch. pose proof (iv_threads c v Hinv t th Hth) as [T1 T2 T3 T4 T5 T6]. rewrite Hpc in *. cbn in T4. subst v.
  destruct (iv_lock c _ Hinv) as (m & Hm & Hmo). unfold Unlock, safe_run.
  rewrite (bind_ok _ _ _ _ _ (get_monitor_ok mon m c (fat_lookup _ _ _ Hm))). rewrite Hm, depth_fat in T2.
  destruct (Z.eqb_spec (owner_ m) t) as [Ho|Ho]; [|by apply (safe_finish c (Fat mon) t th); rewrite ?Hpc].
  rewrite (proj2 (Z.eqb_neq (owner_ m) 0)) in T2 by lia. cbn [orb negb] in T2. unfold owned in T2. rewrite Hpc in T2. cbn in T2.
  set (th' := with_pc Running (with_result Exited (with_holds (holds th - 1) th))).
  assert (keeps_suspension (threads c) t th th') as Hks by (constructor; cbn; rewrite ?Hpc; done).
  pose proof Hmo as [M1 M2 M3 M4 M5 M6 M7].
  assert (forall c' m', Inv c' (Fat mon) -> monitors c' = {[mon := m]} -> threads c' !! t = Some th -> hash_code_ m' = hash_code_ m ->
    num_waiters_ m' = num_waiters_ m -> wait_set_ m' = wait_set_ m ->
    (owner_ m' = 0 /\ lock_count_ m = 0 /\ lock_count_ m' = 0 \/ owner_ m' = owner_ m /\ lock_count_ m <> 0 /\ lock_count_ m' = lock_count_ m - 1) ->
    (owner_ m' = 0 -> (exists u thu, threads c' !! u = Some thu /\ asleep_on mon thu = true) ->
       exists u thu, u <> t /\ threads c' !! u = Some thu /\ awake_on mon thu = true) ->
    Inv (put t th' (put_monitor mon m' c')) (Fat mon)) as Hfat.
  { intros c' m' Hinv' Hm' Hth' E1 E2 E3 E4 E5. destruct (iv_lock c' _ Hinv') as (m0 & Hm0 & Hmo').
    assert (m0 = m) as -> by (rewrite Hm' in Hm0; by apply map_singleton_inj in Hm0 as [_ ->]).
    apply (Inv_fat c' mon m t th); [done|done|done|..|intros h; by apply hash_same|done].
    - constructor; cbn; rewrite ?Hpc; done.
    - constructor; cbn; try done. rewrite depth_fat. unfold owned. cbn. rewrite T2.
      destruct E4 as [(-> & -> & _)|(-> & _ & ->)]; [done|]. rewrite Ho, Z.eqb_refl, (proj2 (Z.eqb_neq t 0)) by lia. cbn. lia.
    - intros u Hne. rewrite !depth_fat. rewrite Ho, (proj2 (Z.eqb_neq t u)), orb_true_r by done.
      destruct E4 as [(-> & _)|(-> & _)]; [done|]. by rewrite Ho, (proj2 (Z.eqb_neq t u)), orb_true_r by done.
    - apply (monitor_step _ _ _ th _ m); [done|done|]. constructor; [lia|lia|lia|lia|cbn; rewrite Hpc; unfold weight; cbn; lia|..].
      + intros Hz Has. destruct E5 as (u & thu & Hne & Hu & Haw); [done| |by exists u, thu; rewrite lookup_insert_ne].
        by apply (exists_local_back (fun x => asleep_on mon x = true) (fun x => asleep_on mon x = true) (threads c') t th th').
      + rewrite E3. apply (waits_stay _ mon m t th); [done|done|done|by rewrite Hpc|done]. }
  assert (forall c', monitors c' = {[mon := m]} -> hash_kept (Fat mon) (monitors c) (Fat mon) (monitors c')) as Hh by (intros c' E h; by rewrite Hm, E).
  destruct (Z.eqb_spec (lock_count_ m) 0) as [H0|H0].
  - rewrite bind_assoc, (bind_ok _ _ _ _ _ (update_monitor_ok mon _ m c (fat_lookup _ _ _ Hm))).
    set (w := wake ch). assert (threads (signal w c) !! t = Some th) as Hth1 by (apply signal_lookup; [done|by rewrite Hpc]).
    rewrite (bind_ok _ _ _ _ _ (SignalContender_ok mon w (put_monitor mon (with_owner 0 m) c) (Inv_sleep_here c mon Hinv))).
    change (signal w (put_monitor mon (with_owner 0 m) c)) with (put_monitor mon (with_owner 0 m) (signal w c)).
    rewrite (bind_ok _ _ _ _ _ (update_thread_ok t _ th (put_monitor mon _ (signal w c)) Hth1)).
    rewrite (finish_runs t _ _ _ (put_lookup _ _ _)), put_put. eexists _, (Fat mon). split; [reflexivity|]. split.
    + apply Hfat; [by apply Inv_signal|done|done|done|done|done|by left|]. intros _ Has.
      destruct (signal_wakes ch mon c Hch Has) as (thw & to & Hw & Hpw). exists w, thw. split_and!; [|done|unfold awake_on; by rewrite Hpw, Z.eqb_refl].
      intros Hwt. subst w. rewrite Hwt in *. congruence.
    + intros h. cbn [put put_monitor set_threads set_monitors monitors signal]. rewrite Hm, insert_singleton_eq. by apply hash_same.
  - rewrite (bind_ok _ _ _ _ _ (update_monitor_ok mon _ m c (fat_lookup _ _ _ Hm))).
    rewrite (bind_ok _ _ _ _ _ (update_thread_ok t _ th (put_monitor mon (with_lock_count (lock_count_ m - 1) m) c) Hth)).
    rewrite (finish_runs t _ _ _ (put_lookup _ _ _)), put_put. eexists _, (Fat mon). split; [reflexivity|]. split.
    + apply Hfat; [done|done|done|done|done|done|by right|]. cbn. lia.
    + intros h. cbn [put put_monitor set_threads set_monitors monitors signal]. rewrite Hm, insert_singleton_eq. by apply hash_same.
Qed.

Lemma hash_monitor_step c v t th ch mon : Inv c v -> threads c !! t = Some th -> pc th = HashMonitor mon -> safe_run (Monitor_GetHashCode ch t mon) c v.
Proof.
  intros Hinv Hth Hpc. pose proof (iv_threads c v Hinv t th Hth) as [T1 T2 T3 T4 T5 T6]. rewrite Hpc in *. cbn in T4. subst v.
  destruct (iv_lock c _ Hinv) as (m & Hm & Hmo). unfold Monitor_GetHashCode, safe_run.
  rewrite (bind_ok _ _ _ _ _ (get_monitor_ok mon m c (fat_lookup _ _ _ Hm))). destruct (HasHashCode m) eqn:Hhas.
  { apply (safe_finish c (Fat mon) t th); rewrite ?Hpc; try done. intros h [= <-]. by rewrite Hm, hash_fat, Hhas. }
  destruct (GenerateIdentityHashCode_ok c _ Hinv) as (h & s & Hg & Hh & Hinv'). rewrite (bind_ok _ _ _ _ _ Hg).
  destruct (spurious ch); [by apply (safe_goto (set_seed s c) (Fat mon) t th); rewrite ?Hpc; [..|left|]|].
  rewrite (bind_ok _ _ _ _ _ (update_monitor_ok mon _ m (set_seed s c) (fat_lookup _ _ _ Hm))).
  rewrite (finish_runs t _ th) by done. eexists _, (Fat mon). split; [reflexivity|].
  assert (forall x, hash_view (Fat mon) {[mon := m]} = Some x -> hash_view (Fat mon) {[mon := with_hash_code h m]} = Some x) as Hkeep
    by (intros x; rewrite hash_fat, Hhas; done).
  split; [|intros x; cbn [put put_monitor set_threads set_monitors monitors set_seed]; rewrite Hm, insert_singleton_eq; apply Hkeep].
  pose proof Hmo as [M1 M2 M3 M4 M5 M6 M7].
  apply (Inv_fat (set_seed s c) mon m t th); [done|done|done|..|done|].
  - constructor; cbn; rewrite ?Hpc; done.
  - constructor; cbn; try done. rewrite depth_fat. cbn. rewrite <- depth_fat with (id := mon), <- Hm, <- T2. unfold owned. by rewrite Hpc.
  - intros u _. by rewrite !depth_fat.
  - apply (monitor_step _ _ _ th _ m); [done|done|]. constructor; cbn [with_hash_code owner_ lock_count_ hash_code_ num_waiters_ wait_set_]; [done|done|by right; right|lia|..].
    + cbn. rewrite Hpc. unfold weight. cbn. lia.
    + intros Hz Has. apply (exists_local (fun x => awake_on mon x = true) _ (threads c) t th); [done|unfold awake_on; by rewrite Hpc|done|].
      apply M6; [done|]. by apply (exists_local_back (fun x => asleep_on mon x = true) (fun x => asleep_on mon x = true) (threads c) t th (with_pc Running (with_result (HashCodeIs h) th))).
    + apply (waits_stay _ mon m t th); [done|done|done|by rewrite Hpc|done].
  - intros x [= <-]. right. rewrite hash_fat. unfold HasHashCode. cbn. by rewrite (proj2 (Z.eqb_neq h 0)) by lia.
Qed.

(** *** The wait set *)

(** Threads that differ in their places in the wait set only. *)
Definition same_links (ts ts' : gmap Z Thread) : Prop := forall u, ts' !! u = (fun th => with_wait_next (next_of ts' u) th) <$> ts !! u.

Lemma total_same w (ts ts' : gmap Z Thread) : (forall u, w <$> ts !! u = w <$> ts' !! u) -> total w ts = total w ts'.
Proof.
  intros Hw. assert (forall x : gmap Z Thread, total w x = map_fold (fun _ n acc => n + acc) 0 (w <$> x)) as Hf.
  { intros x. unfold total. by rewrite map_fold_fmap. }
  rewrite !Hf. f_equal. apply map_eq. intros u. by rewrite !lookup_fmap.
Qed.

Lemma same_links_lookup ts ts' u thu' : same_links ts ts' -> ts' !! u = Some thu' -> exists thu, ts !! u = Some thu /\ exists n, thu' = with_wait_next n thu.
Proof.
  intros Hs Hu. pose proof (Hs u) as He. rewrite Hu in He. destruct (ts !! u) as [thu|]; [|done]. exists thu. split; [done|].
  injection He as ->. eauto.
Qed.

Lemma same_links_back ts ts' u thu : same_links ts ts' -> ts !! u = Some thu -> exists thu', ts' !! u = Some thu' /\ exists n, thu' = with_wait_next n thu.
Proof.
  intros Hs Hu. pose proof (Hs u) as He. rewrite Hu in He. cbn in He. eauto.
Qed.

Lemma same_links_total ts ts' w : same_links ts ts' -> (forall th n, w (with_wait_next n th) = w th) -> total w ts' = total w ts.
Proof. intros Hs Hw. apply total_same. intros u. rewrite (Hs u). destruct (ts !! u); [|done]. cbn. by rewrite Hw. Qed.

Lemma same_links_suspend ts ts' : same_links ts ts' -> suspend_ok ts -> suspend_ok ts'.
Proof.
  intros Hs [Hc Ht Hr]. constructor.
  3:{ apply (no_cycle_less ts); [|done]. intros u thu' o Hu' Hw. destruct (same_links_lookup _ _ _ _ Hs Hu') as (thu & Hu & n & ->). eauto. }
  - intros u thu' Hu'. destruct (same_links_lookup _ _ _ _ Hs Hu') as (thu & Hu & n & ->). rewrite (same_links_total ts ts') by done. exact (Hc u thu Hu).
  - intros t th' u Ht' Hu. destruct (same_links_lookup _ _ _ _ Hs Ht') as (th & Hth & n & ->). destruct (Ht t th u Hth Hu) as (Hne & thu & Hlu & Hconf).
    split; [done|]. destruct (same_links_back _ _ _ _ Hs Hlu) as (thu' & Hlu' & n' & ->). eauto.
Qed.

Lemma Inv_links c id m ts' head' ws' :
  Inv c (Fat id) -> monitors c = {[id := m]} -> same_links (threads c) ts' -> wait_set_ok ts' head' ws' ->
  Inv (set_threads ts' (put_monitor id (with_wait_set head' m) c)) (Fat id).
Proof.
  intros [H1 H2 H3 H4 H5 H6 H7] Hm Hs Hws. destruct H5 as (m0 & Hm0 & Hmo). rewrite Hm in *.
  apply map_singleton_inj in Hm0 as [_ <-]. destruct Hmo as [M1 M2 M3 M4 M5 M6 _].
  assert (forall P : Thread -> Prop, (forall th n, P (with_wait_next n th) <-> P th) ->
    (exists u thu, ts' !! u = Some thu /\ P thu) <-> (exists u thu, threads c !! u = Some thu /\ P thu)) as Hex.
  { intros P HP. split; intros (u & thu & Hu & Hp).
    - destruct (same_links_lookup _ _ _ _ Hs Hu) as (th & Hth & n & ->). exists u, th. split; [done|]. by apply (HP th n).
    - destruct (same_links_back _ _ _ _ Hs Hu) as (th & Hth & n & ->). eexists u, _. split; [done|]. by apply HP. }
  constructor; [done|done|done|..]; cbn [set_threads put_monitor set_monitors monitors threads]; rewrite ?Hm, ?insert_singleton_eq.
  - intros u thu' Hu'. destruct (same_links_lookup _ _ _ _ Hs Hu') as (thu & Hu & n & ->). rewrite depth_fat. cbn.
    rewrite <- depth_fat with (id := id). by destruct (H4 u thu Hu).
  - exists (with_wait_set head' m). split; [done|]. constructor; cbn [with_wait_set owner_ lock_count_ hash_code_ num_waiters_ wait_set_]; [done|done|..|done| | |by exists ws'].
    + intros Ho. destruct (M3 Ho) as [x Hx]. destruct (same_links_back _ _ _ _ Hs Hx) as (y & Hy & _). eauto.
    + rewrite (same_links_total _ _ _ Hs); [done|done].
    + rewrite !Hex by done. done.
  - by apply (same_links_suspend (threads c)).
  - intros u thu' h Hu' Hr. destruct (same_links_lookup _ _ _ _ Hs Hu') as (thu & Hu & n & ->).
    apply (hash_same id m); [done|]. by apply (H7 u thu).
Qed.

Definition adjust (t : Z) (f : Thread -> Thread) (c : Config) : Config := set_threads (alter f t (threads c)) c.

Lemma update_thread_adjust t f th c : threads c !! t = Some th -> update_thread t f c = Ok (tt, adjust t f c).
Proof.
  intros Hth. rewrite (update_thread_ok t f th) by done. do 2 f_equal. unfold adjust, put, set_threads. f_equal. apply map_eq. intros u.
  destruct (decide (u = t)) as [->|Hne]; [by rewrite lookup_alter_eq, lookup_insert_eq, Hth|by rewrite lookup_alter_ne, lookup_insert_ne].
Qed.

Lemma next_of_alter ts t n u : is_Some (ts !! t) -> next_of (alter (with_wait_next n) t ts) u = if decide (u = t) then n else next_of ts u.
Proof.
  intros [th Hth]. unfold next_of. destruct (decide (u = t)) as [->|Hne]; [by rewrite lookup_alter_eq, Hth|by rewrite lookup_alter_ne].
Qed.

Lemma same_links_refl ts : same_links ts ts.
Proof. intros u. unfold next_of. destruct (ts !! u) as [th|]; [|done]. cbn. by destruct th. Qed.

Lemma same_links_alter ts ts' t n : same_links ts ts' -> same_links ts (alter (with_wait_next n) t ts').
Proof.
  intros Hs u. pose proof (Hs u) as He. destruct (decide (u = t)) as [->|Hne].
  - unfold next_of. rewrite lookup_alter_eq. rewrite He. by destruct (ts !! t).
  - unfold next_of in *. by rewrite !lookup_alter_ne.
Qed.

(** The part of a list up to [x], and what follows it. *)
Lemma linked_split ts head l1 x l2 : linked ts head (l1 ++ x :: l2) ->
  linked ts (next_of ts x) l2 /\
  forall ts' l2', (forall u, u ∈ l1 -> next_of ts' u = next_of ts u) -> linked ts' (next_of ts' x) l2' -> linked ts' head (l1 ++ x :: l2').
Proof.
  revert head. induction l1 as [|y l1 IH]; intros head Hl; cbn [app linked] in *.
  - destruct Hl as [-> Hl]. done.
  - destruct Hl as [-> Hl]. destruct (IH _ Hl) as [H1 H2]. split; [done|]. intros ts' l2' Hn Hl'. split; [done|].
    rewrite Hn by (by left). apply H2; [|done]. intros u Hu. apply Hn. by right.
Qed.

Lemma saved_alter (ts : gmap Z Thread) n t u th : alter (with_wait_next n) t ts !! u = Some th -> exists th0, ts !! u = Some th0 /\ pc th = pc th0 /\ (u <> t -> th = th0) /\ (u = t -> wait_next th = n).
Proof.
  intros [(-> & x & Hx & ->)|[Hne Hu]]%lookup_alter_Some; [exists x|exists th]; split_and!; done.
Qed.

Lemma alter_in (ts : gmap Z Thread) n t u th0 : ts !! u = Some th0 -> exists th, alter (with_wait_next n) t ts !! u = Some th /\ pc th = pc th0.
Proof.
  intros Hu. destruct (decide (u = t)) as [->|Hne]; [|rewrite lookup_alter_ne by done; eauto].
  rewrite lookup_alter_eq, Hu. cbn. eauto.
Qed.

(** Appending. *)
Lemma append_first (ts : gmap Z Thread) t th : wait_set_ok ts 0 [] -> ts !! t = Some th -> is_some (saved (pc th)) = true -> wait_set_ok ts t [t].
Proof.
  intros [Hl Hnd Hin Hout Has] Hth Hs. constructor.
  - cbn. split; [done|]. unfold next_of. rewrite Hth. apply (Hout t); [done|set_solver].
  - apply NoDup_singleton.
  - intros u ->%list_elem_of_singleton. eauto.
  - intros u thu Hu Hnot. apply (Hout u thu Hu). set_solver.
  - intros u thu Hu Hau. pose proof (Has u thu Hu Hau). set_solver.
Qed.

Lemma append_last (ts : gmap Z Thread) head l x t th :
  wait_set_ok ts head (l ++ [x]) -> t ∉ l ++ [x] -> ts !! t = Some th -> is_some (saved (pc th)) = true ->
  wait_set_ok (alter (with_wait_next t) x ts) head ((l ++ [x]) ++ [t]).
Proof.
  intros [Hl Hnd Hin Hout Has] Hnot Hth Hs. destruct (Hin x) as (thx & Hx & _); [set_solver|]. assert (t <> x) as Htx by set_solver.
  apply NoDup_app in Hnd as Hnd'. destruct Hnd' as (_ & Hxl & _).
  constructor.
  - destruct (linked_split _ _ _ _ _ Hl) as [_ Hsplit]. rewrite <- (assoc_L (++)). cbn [app]. apply Hsplit.
    + intros u Hu. rewrite next_of_alter by eauto. rewrite decide_False; [done|]. intros ->. apply (Hxl x Hu). by left.
    + rewrite next_of_alter by eauto. rewrite decide_True by done. split; [done|]. rewrite next_of_alter by eauto. rewrite decide_False by done.
      unfold next_of. rewrite Hth. cbn. by apply (Hout t).
  - apply NoDup_app. split_and!; [done| |apply NoDup_singleton]. intros u Hu ->%list_elem_of_singleton. done.
  - intros u [Hu| ->%list_elem_of_singleton]%elem_of_app.
    + destruct (Hin u Hu) as (thu & Hlu & Hsu). destruct (alter_in ts t x u thu Hlu) as (th' & Hth' & Hpc). exists th'. by rewrite Hpc.
    + destruct (alter_in ts t x t th Hth) as (th' & Hth' & Hpc). exists th'. by rewrite Hpc.
  - intros u thu Hu Hn. destruct (saved_alter _ _ _ _ _ Hu) as (th0 & H0 & _ & Heq & _). rewrite Heq by set_solver. apply (Hout u); [done|set_solver].
  - intros u thu Hu Ha. destruct (saved_alter _ _ _ _ _ Hu) as (th0 & H0 & Hpc & _). rewrite Hpc in Ha. pose proof (Has u th0 H0 Ha). set_solver.
Qed.

(** Taking out: the first, or one that follows another. *)
Lemma remove_first (ts : gmap Z Thread) x l th : wait_set_ok ts x (x :: l) -> ts !! x = Some th -> is_asleep (pc th) = false ->
  wait_set_ok (alter (with_wait_next 0) x ts) (next_of ts x) l.
Proof.
  intros [Hl Hnd Hin Hout Has] Hx Hna. apply NoDup_cons in Hnd as [Hxl Hnd]. constructor; [|done|..].
  - destruct Hl as [_ Hl]. eapply linked_ext; [|done]. intros u Hu. rewrite next_of_alter by eauto. rewrite decide_False; [done|]. by intros ->.
  - intros u Hu. destruct (Hin u) as (thu & Hlu & Hsu); [by right|]. destruct (alter_in ts 0 x u thu Hlu) as (th' & Hth' & Hpc). exists th'. by rewrite Hpc.
  - intros u thu Hu Hn. destruct (saved_alter _ _ _ _ _ Hu) as (th0 & H0 & _ & Heq & Hz). destruct (decide (u = x)) as [->|Hne]; [by apply Hz|].
    rewrite Heq by done. apply (Hout u); [done|set_solver].
  - intros u thu Hu Ha. destruct (saved_alter _ _ _ _ _ Hu) as (th0 & H0 & Hpc & _). rewrite Hpc in Ha. pose proof (Has u th0 H0 Ha) as Hin'.
    apply elem_of_cons in Hin' as [->|]; [|done]. congruence.
Qed.

Lemma remove_next (ts : gmap Z Thread) head l1 y x l2 th : wait_set_ok ts head (l1 ++ y :: x :: l2) -> ts !! x = Some th -> is_asleep (pc th) = false ->
  wait_set_ok (alter (with_wait_next 0) x (alter (with_wait_next (next_of ts x)) y ts)) head (l1 ++ y :: l2).
Proof.
  intros [Hl Hnd Hin Hout Has] Hx Hna. destruct (Hin y) as (thy & Hy & _); [set_solver|].
  assert (NoDup (x :: l1 ++ y :: l2)) as Hnd' by (eapply NoDup_Permutation_proper; [|exact Hnd]; solve_Permutation).
  apply NoDup_cons in Hnd' as [Hxl Hnd']. apply NoDup_app in Hnd as Hnd2. destruct Hnd2 as (_ & Hyl & Hnd2). apply NoDup_cons in Hnd2 as [Hyx _].
  assert (x <> y) as Hxy by set_solver. set (ts1 := alter (with_wait_next (next_of ts x)) y ts).
  assert (is_Some (ts1 !! x)) as Hx1 by (unfold ts1; rewrite lookup_alter_ne by done; eauto).
  assert (forall u, next_of (alter (with_wait_next 0) x ts1) u = if decide (u = x) then 0 else if decide (u = y) then next_of ts x else next_of ts u) as Hnext.
  { intros u. rewrite next_of_alter by done. unfold ts1. by rewrite next_of_alter by eauto. }
  constructor; [| done|..].
  - destruct (linked_split _ _ _ _ _ Hl) as [Hl2 Hsplit]. destruct Hl2 as [_ Hl2]. apply Hsplit.
    + intros u Hu. rewrite Hnext, !decide_False; [done|intros ->; apply (Hyl y Hu); by left|intros ->; apply Hxl; set_solver].
    + rewrite Hnext, decide_False, decide_True by done. eapply linked_ext; [|exact Hl2]. intros u Hu. rewrite Hnext, !decide_False; [done|set_solver|set_solver].
  - intros u Hu. destruct (Hin u) as (thu & Hlu & Hsu); [set_solver|]. destruct (alter_in ts (next_of ts x) y u thu Hlu) as (th1 & Hth1 & Hpc1).
    destruct (alter_in ts1 0 x u th1 Hth1) as (th' & Hth' & Hpc). exists th'. by rewrite Hpc, Hpc1.
  - intros u thu Hu Hn. destruct (saved_alter _ _ _ _ _ Hu) as (th1 & H1 & _ & Heq & Hz). destruct (decide (u = x)) as [->|Hne]; [by apply Hz|].
    rewrite Heq by done. destruct (saved_alter _ _ _ _ _ H1) as (th0 & H0 & _ & Heq1 & _). rewrite Heq1 by set_solver. apply (Hout u); [done|set_solver].
  - intros u thu Hu Ha. destruct (saved_alter _ _ _ _ _ Hu) as (th1 & H1 & Hpc & _). destruct (saved_alter _ _ _ _ _ H1) as (th0 & H0 & Hpc1 & _).
    rewrite Hpc, Hpc1 in Ha. pose proof (Has u th0 H0 Ha) as Hin'. destruct (decide (u = x)) as [->|]; [congruence|set_solver].
Qed.

Lemma ws_size (ts : gmap Z Thread) head ws : wait_set_ok ts head ws -> (length ws <= size ts)%nat.
Proof.
  intros [_ Hnd Hin _ _]. rewrite <- (size_list_to_set (C := gset Z) ws Hnd), <- size_dom. apply subseteq_size. intros t Ht%elem_of_list_to_set.
  apply elem_of_dom. destruct (Hin t Ht) as (th & Hth & _). eauto.
Qed.

(** The threads of a list exist. *)
Definition known (ts : gmap Z Thread) (ws : list Z) : Prop := forall u, u ∈ ws -> u <> 0 /\ is_Some (ts !! u).

Lemma known_cons ts x l : known ts (x :: l) -> x <> 0 /\ (exists th, ts !! x = Some th) /\ known ts l.
Proof.
  intros Hk. destruct (Hk x) as [H0 [th Hth]]; [by left|]. split_and!; [done|eauto|]. intros u Hu. apply Hk. by right.
Qed.

Lemma next_of_lookup ts u th : ts !! u = Some th -> wait_next th = next_of ts u.
Proof. intros Hu. unfold next_of. by rewrite Hu. Qed.

Lemma linked_head ts head x l : linked ts head (x :: l) -> known ts (x :: l) -> head = x /\ (head =? 0) = false /\ linked ts (next_of ts x) l.
Proof. intros [-> Hl] Hk. destruct (known_cons _ _ _ Hk) as [H0 _]. split_and!; [done|by apply Z.eqb_neq|done]. Qed.

Lemma last_waiter_ok c l x fuel head : linked (threads c) head (l ++ [x]) -> known (threads c) (l ++ [x]) -> (length l < fuel)%nat ->
  last_waiter fuel head c = Ok (x, c).
Proof.
  revert head fuel. induction l as [|y l IH]; intros head [|fuel] Hl Hk Hf; cbn [length app] in *; try lia; cbn [last_waiter];
    destruct (known_cons _ _ _ Hk) as (H0 & (th & Hth) & Hk'); destruct Hl as [-> Hl]; rewrite (bind_ok _ _ _ _ _ (get_thread_ok _ th c Hth)), (next_of_lookup _ _ _ Hth).
  - cbn in Hl. rewrite Hl. done.
  - destruct (l ++ [x]) as [|z l'] eqn:El; [by destruct l|]. rewrite <- El in *. destruct (known_cons _ _ _ Hk) as (_ & _ & Hk2).
    assert (next_of (threads c) y <> 0) as Hn.
    { rewrite El in Hl, Hk2. destruct (linked_head _ _ _ _ Hl Hk2) as (-> & _ & _). by apply (Hk2 z); left. }
    rewrite (proj2 (Z.eqb_neq _ _) Hn). cbn [negb]. apply IH; [done|done|lia].
Qed.

(** [AppendToWaitSet] puts a thread at the end. *)
Definition relink (last : option Z) (n : Z) (ts : gmap Z Thread) : gmap Z Thread :=
  match last with Some x => alter (with_wait_next n) x ts | None => ts end.

Definition new_head (ws : list Z) (head t : Z) : Z := match ws with [] => t | _ => head end.

Lemma same_links_relink ts o n : same_links ts (relink o n ts).
Proof. destruct o; [apply same_links_alter|]; apply same_links_refl. Qed.

Lemma append_ok ts head ws t th : wait_set_ok ts head ws -> t ∉ ws -> ts !! t = Some th -> is_some (saved (pc th)) = true ->
  wait_set_ok (relink (last ws) t ts) (new_head ws head t) (ws ++ [t]).
Proof.
  intros Hws Hnot Hth Hs. destruct ws as [|x l _] using rev_ind.
  - pose proof (ws_linked _ _ _ Hws) as Hl. cbn in Hl. subst head. by apply (append_first _ t th).
  - rewrite last_snoc. cbn [relink]. assert (new_head (l ++ [x]) head t = head) as -> by (by destruct l). by apply (append_last _ _ _ _ _ th).
Qed.

Lemma AppendToWaitSet_ok c id m ws t :
  monitors c !! id = Some m -> wait_set_ok (threads c) (wait_set_ m) ws -> known (threads c) ws ->
  AppendToWaitSet id t c = Ok (tt, set_threads (relink (last ws) t (threads c)) (put_monitor id (with_wait_set (new_head ws (wait_set_ m) t) m) c)).
Proof.
  intros Hm Hws Hk. unfold AppendToWaitSet. rewrite (bind_ok _ _ _ _ _ (get_monitor_ok id m c Hm)).
  pose proof (ws_linked _ _ _ Hws) as Hl. destruct ws as [|x l _] using rev_ind.
  - cbn in Hl. rewrite Hl. cbn [Z.eqb]. by rewrite (update_monitor_ok id _ m c Hm).
  - assert ((wait_set_ m =? 0) = false) as -> by (destruct (l ++ [x]) as [|y l'] eqn:E; [by destruct l|]; by apply (linked_head _ _ _ _ Hl)).
    unfold list_fuel. rewrite bind_gets. pose proof (ws_size _ _ _ Hws) as Hsz. rewrite length_app in Hsz. cbn in Hsz.
    rewrite (bind_ok _ _ _ _ _ (last_waiter_ok c l x (size (threads c)) (wait_set_ m) Hl Hk ltac:(lia))).
    destruct (Hk x) as [_ [thx Hx]]; [set_solver|]. rewrite (update_thread_adjust x _ thx c Hx), last_snoc. cbn [relink].
    assert (new_head (l ++ [x]) (wait_set_ m) t = wait_set_ m) as -> by (by destruct l).
    replace (with_wait_set (wait_set_ m) m) with m by (by destruct m). unfold adjust, put_monitor, set_monitors, set_threads. cbn. by rewrite insert_id.
Qed.

(** [RemoveFromWaitSet] takes a thread out, if it is there. *)
Lemma unlink_waiter_absent c t l y fuel : linked (threads c) y (y :: l) -> known (threads c) (y :: l) -> t ∉ l -> (length l < fuel)%nat ->
  unlink_waiter fuel y t c = Ok (tt, c).
Proof.
  revert y fuel. induction l as [|x l IH]; intros y [|fuel] [_ Hl] Hk Hnot Hf; cbn [length] in *; try lia; cbn [unlink_waiter];
    destruct (known_cons _ _ _ Hk) as (H0 & (th & Hth) & Hk'); rewrite (bind_ok _ _ _ _ _ (get_thread_ok _ th c Hth)), (next_of_lookup _ _ _ Hth).
  - cbn in Hl. by rewrite Hl.
  - destruct (linked_head _ _ _ _ Hl Hk') as (Hx & Hz & Hl'). rewrite Hz, Hx in *. rewrite (proj2 (Z.eqb_neq x t)) by set_solver.
    apply IH; [done|done|set_solver|lia].
Qed.

Lemma unlink_waiter_present c t l1 z l2 y fuel :
  linked (threads c) y (l1 ++ z :: t :: l2) -> known (threads c) (l1 ++ z :: t :: l2) -> t ∉ l1 ++ [z] -> (length l1 < fuel)%nat ->
  unlink_waiter fuel y t c = Ok (tt, adjust t (with_wait_next 0) (adjust z (with_wait_next (next_of (threads c) t)) c)).
Proof.
  revert y fuel. induction l1 as [|x l1 IH]; intros y [|fuel] Hl Hk Hnot Hf; cbn [length app] in *; try lia; cbn [unlink_waiter].
  - destruct (known_cons _ _ _ Hk) as (H0 & (th & Hth) & Hk'). destruct Hl as [-> Hl]. rewrite (bind_ok _ _ _ _ _ (get_thread_ok _ th c Hth)), (next_of_lookup _ _ _ Hth).
    destruct (linked_head _ _ _ _ Hl Hk') as (Hx & Hz & Hl'). rewrite Hz, Hx, Z.eqb_refl in *.
    destruct (known_cons _ _ _ Hk') as (_ & (tht & Htht) & _). rewrite (bind_ok _ _ _ _ _ (get_thread_ok _ tht c Htht)), (next_of_lookup _ _ _ Htht).
    rewrite (bind_ok _ _ _ _ _ (update_thread_adjust z _ th c Hth)). assert (z <> t) as Hne by set_solver.
    apply (update_thread_adjust t _ tht). cbn. by rewrite lookup_alter_ne.
  - destruct (known_cons _ _ _ Hk) as (H0 & (th & Hth) & Hk'). destruct Hl as [-> Hl]. rewrite (bind_ok _ _ _ _ _ (get_thread_ok _ th c Hth)), (next_of_lookup _ _ _ Hth).
    destruct (l1 ++ z :: t :: l2) as [|w l'] eqn:E; [by destruct l1|]. destruct (linked_head _ _ _ _ Hl Hk') as (Hx & Hz & Hl'). rewrite Hz, Hx in *.
    assert (w <> t) as Hwt by (destruct l1; cbn in E; simplify_eq; set_solver). rewrite (proj2 (Z.eqb_neq w t) Hwt).
    rewrite <- E in *. apply IH; [done|done|set_solver|lia].
Qed.

Lemma wait_set_same_head c id m : monitors c !! id = Some m -> set_threads (threads c) (put_monitor id (with_wait_set (wait_set_ m) m) c) = c.
Proof.
  intros Hm. replace (with_wait_set (wait_set_ m) m) with m by (by destruct m). unfold put_monitor, set_monitors, set_threads. cbn. rewrite insert_id by done. by destruct c.
Qed.

Lemma split_before (t : Z) x l : t ∈ l -> t <> x -> NoDup (x :: l) -> exists l1 z l2, x :: l = l1 ++ z :: t :: l2 /\ t ∉ l1 ++ [z].
Proof.
  revert x. induction l as [|y l IH]; intros x Hin Hne Hnd; [set_solver|]. apply NoDup_cons in Hnd as [Hx Hnd]. destruct (decide (t = y)) as [->|Hty].
  - exists [], x, l. split; [done|set_solver].
  - destruct (IH y) as (l1 & z & l2 & E & Hn); [set_solver|done|done|]. exists (x :: l1), z, l2. split; [by rewrite E|set_solver].
Qed.

Lemma RemoveFromWaitSet_ok c id m ws t th :
  monitors c !! id = Some m -> wait_set_ok (threads c) (wait_set_ m) ws -> known (threads c) ws ->
  threads c !! t = Some th -> is_asleep (pc th) = false ->
  exists ts' head' ws', RemoveFromWaitSet id t c = Ok (tt, set_threads ts' (put_monitor id (with_wait_set head' m) c)) /\
    same_links (threads c) ts' /\ wait_set_ok ts' head' ws' /\ t ∉ ws'.
Proof.
  intros Hm Hws Hk Hth Hna. unfold RemoveFromWaitSet. rewrite (bind_ok _ _ _ _ _ (get_monitor_ok id m c Hm)).
  pose proof (ws_linked _ _ _ Hws) as Hl. pose proof (ws_nodup _ _ _ Hws) as Hnd. pose proof (ws_size _ _ _ Hws) as Hsz.
  assert (t ∉ ws -> exists ts' head' ws', Ok (tt, c) = Ok (tt, set_threads ts' (put_monitor id (with_wait_set head' m) c)) /\
    same_links (threads c) ts' /\ wait_set_ok ts' head' ws' /\ t ∉ ws') as Hsame.
  { intros Hnot. exists (threads c), (wait_set_ m), ws. rewrite wait_set_same_head by done. split_and!; [done|apply same_links_refl|done|done]. }
  destruct ws as [|x l]; [cbn in Hl; rewrite Hl; apply Hsame; set_solver|].
  destruct (linked_head _ _ _ _ Hl Hk) as (Hx & Hz & _). rewrite Hz, Hx in *. destruct (Z.eqb_spec x t) as [->|Hxt].
  - rewrite (bind_ok _ _ _ _ _ (get_thread_ok _ th c Hth)), (next_of_lookup _ _ _ Hth), (bind_ok _ _ _ _ _ (update_monitor_ok id _ m c Hm)).
    rewrite (update_thread_adjust t _ th) by done. eexists _, _, l. split; [reflexivity|].
    split_and!; [apply same_links_alter, same_links_refl|by apply (remove_first _ _ _ th)|by apply NoDup_cons in Hnd as [? _]].
  - unfold list_fuel. rewrite bind_gets. cbn [length] in Hsz. destruct (decide (t ∈ l)) as [Hin|Hnot].
    + destruct (split_before t x l) as (l1 & z & l2 & E & Hn); [done|done|done|]. rewrite E in *.
      assert (length l1 < size (threads c))%nat as Hlen by (assert (length (x :: l) = length (l1 ++ z :: t :: l2)) as El by (by rewrite E); cbn in El; rewrite length_app in El; cbn in El; lia).
      rewrite (unlink_waiter_present c t l1 z l2 x _ Hl Hk Hn Hlen).
      exists (alter (with_wait_next 0) t (alter (with_wait_next (next_of (threads c) t)) z (threads c))), x, (l1 ++ z :: l2). split_and!.
      * do 2 f_equal. unfold adjust. rewrite <- Hx. replace (with_wait_set (wait_set_ m) m) with m by (by destruct m).
        unfold put_monitor, set_monitors, set_threads. cbn. by rewrite insert_id.
      * apply same_links_alter, same_links_alter, same_links_refl.
      * by apply (remove_next _ _ _ _ _ _ th).
      * apply NoDup_app in Hnd as (_ & _ & Hnd2). apply NoDup_cons in Hnd2 as [_ Hnd2]. apply NoDup_cons in Hnd2 as [Hn2 _]. set_solver.
    + rewrite unlink_waiter_absent with (l := l); [apply Hsame; set_solver|done|done|done|lia].
Qed.

(** *** [Wait] *)

Lemma wait_set_thread ts t th th' head ws :
  wait_set_ok ts head ws -> ts !! t = Some th -> wait_next th' = wait_next th ->
  (t ∈ ws -> is_some (saved (pc th')) = true) -> (is_asleep (pc th') = true -> t ∈ ws) -> wait_set_ok (<[t := th']> ts) head ws.
Proof.
  intros [Hl Hnd Hin Hout Has] Hth Hn Hs Ha. constructor; [|done|..].
  - eapply linked_ext; [|done]. intros u _. by apply next_of_local with th.
  - intros u Hu. destruct (decide (u = t)) as [->|Hne]; [exists th'; rewrite lookup_insert_eq; auto|rewrite lookup_insert_ne by done; auto].
  - intros u thu Hu Hnot. apply lookup_insert_Some in Hu as [[<- <-]|[Hne Hu]]; [rewrite Hn; by apply (Hout t)|by apply (Hout u)].
  - intros u thu Hu Hau. apply lookup_insert_Some in Hu as [[<- <-]|[Hne Hu]]; [auto|by apply (Has u thu)].
Qed.

Lemma Inv_known c id m ws : Inv c (Fat id) -> wait_set_ok (threads c) (wait_set_ m) ws -> known (threads c) ws.
Proof.
  intros Hinv Hws u Hu. destruct (ws_in _ _ _ Hws u Hu) as (th & Hth & _).
  pose proof (to_id _ _ _ _ (iv_threads c _ Hinv u th Hth)). split; [lia|eauto].
Qed.

Lemma relink_lookup o n ts u : relink o n ts !! u = if decide (o = Some u) then with_wait_next n <$> ts !! u else ts !! u.
Proof.
  destruct o as [x|]; cbn [relink]; [|by rewrite decide_False].
  rewrite lookup_alter. by repeat case_decide; simplify_eq.
Qed.

Lemma wake_relink th n : wake_contender (with_wait_next n th) = with_wait_next n (wake_contender th).
Proof. unfold wake_contender. cbn. by destruct (pc th). Qed.

(** The signal and the new link are independent. *)
Lemma wait_threads w t th1 th2 o n (ts : gmap Z Thread) : o <> Some t ->
  <[t := th1]> (alter wake_contender w (<[t := th2]> (relink o n ts))) = relink o n (<[t := th1]> (alter wake_contender w ts)).
Proof.
  intros Ho. apply map_eq. intros u. rewrite relink_lookup. destruct (decide (u = t)) as [->|Hne].
  - by rewrite !lookup_insert_eq, decide_False.
  - assert (t <> u) as Hne' by congruence. rewrite !(lookup_insert_ne _ t u) by exact Hne'.
    destruct (decide (w = u)) as [->|Hw].
    + rewrite !lookup_alter_eq, (lookup_insert_ne _ t u), relink_lookup by exact Hne'. case_decide; [|done].
      destruct (ts !! u) as [x|]; [|done]. cbn. by rewrite wake_relink.
    + rewrite !lookup_alter_ne, (lookup_insert_ne _ t u), relink_lookup by done. done.
Qed.

(** What [Wait] makes of the thread and the monitor; [WaitAsleep] is for a thread that is not interrupted. *)
Definition waiting_thread (p : PC) (id : Z) (th : Thread) : Thread := with_pc p (with_wait_monitor (Some id) th).
Definition released (m : Monitor) : Monitor := with_owner 0 (with_lock_count 0 (with_num_waiters (num_waiters_ m + 1) m)).

Lemma Wait_ok c id m ws t th ch a :
  Inv c (Fat id) -> monitors c = {[id := m]} -> wait_set_ok (threads c) (wait_set_ m) ws -> t ∉ ws ->
  threads c !! t = Some th -> (forall to mon, pc th <> LockAsleep to mon) -> owner_ m = t ->
  (wait_ms a <? 0) || (wait_ns a <? 0) || (999999 <? wait_ns a) = false ->
  let p := if interrupted_ th then WaitLeave a id (lock_count_ m) true else WaitAsleep a id (lock_count_ m) in
  Wait ch t a id c = Ok (tt, set_threads (relink (last ws) t (<[t := waiting_thread p id th]> (alter wake_contender (wake ch) (threads c))))
                               (put_monitor id (with_wait_set (new_head ws (wait_set_ m) t) (released m)) c)).
Proof.
  intros Hinv Hm Hws Hnot Hth Hpc Ho Hargs p. unfold Wait. pose proof (fat_lookup _ _ _ Hm) as Hl.
  rewrite (bind_ok _ _ _ _ _ (get_monitor_ok id m c Hl)), Ho, Z.eqb_refl. cbn [negb]. rewrite Hargs.
  rewrite (bind_ok _ _ _ _ _ (AppendToWaitSet_ok c id m ws t Hl Hws (Inv_known c id m ws Hinv Hws))).
  set (c1 := set_threads (relink (last ws) t (threads c)) (put_monitor id (with_wait_set (new_head ws (wait_set_ m) t) m) c)).
  rewrite (bind_ok _ _ _ _ _ (update_monitor_ok id _ (with_wait_set (new_head ws (wait_set_ m) t) m) c1 (lookup_insert_eq _ _ _))).
  set (c2 := put_monitor id _ c1).
  assert (last ws <> Some t) as Hlast by (intros Hx; apply Hnot; by apply last_Some_elem_of).
  assert (threads c2 !! t = Some th) as Hth2 by (cbn; rewrite relink_lookup, decide_False by done; done).
  rewrite (bind_ok _ _ _ _ _ (update_thread_ok t _ th c2 Hth2)). set (c3 := put t _ c2).
  assert (sleep_here id (threads c3)) as Hsleep.
  { intros u thu to mon Hu Hp. cbn in Hu. apply lookup_insert_Some in Hu as [[<- <-]|[Hne Hu]]; [by destruct (Hpc to mon)|].
    rewrite relink_lookup in Hu. case_decide; [|by eapply (Inv_sleep_here c id Hinv)].
    destruct (threads c !! u) as [x|] eqn:Hx; [|done]. injection Hu as <-. by eapply (Inv_sleep_here c id Hinv). }
  rewrite (bind_ok _ _ _ _ _ (SignalContender_ok id (wake ch) c3 Hsleep)).
  assert (threads (signal (wake ch) c3) !! t = Some (with_wait_monitor (Some id) th)) as Hth3 by (apply signal_lookup; [apply put_lookup|done]).
  rewrite (bind_ok _ _ _ _ _ (get_thread_ok t _ _ Hth3)). change (interrupted_ (with_wait_monitor (Some id) th)) with (interrupted_ th).
  assert (forall p', goto t p' (signal (wake ch) c3) = Ok (tt, set_threads (relink (last ws) t (<[t := waiting_thread p' id th]> (alter wake_contender (wake ch) (threads c))))
    (put_monitor id (with_wait_set (new_head ws (wait_set_ m) t) (released m)) c))) as Hgoto.
  { intros p'. rewrite (goto_ok t p' _ _ Hth3). do 2 f_equal. unfold put, signal, set_threads. cbn [threads lock_word monitors hash_code_seed].
    f_equal; [|by apply wait_threads]. cbn [c3 put set_threads monitors c2 put_monitor set_monitors c1]. by rewrite insert_insert_eq. }
  unfold p. destruct (interrupted_ th); apply Hgoto.
Qed.

Lemma relink_insert o n t x ts : o <> Some t -> relink o n (<[t := x]> ts) = <[t := x]> (relink o n ts).
Proof.
  intros Ho. apply map_eq. intros u. rewrite relink_lookup. destruct (decide (u = t)) as [->|Hne].
  - by rewrite !lookup_insert_eq, decide_False.
  - rewrite !(lookup_insert_ne _ t u), relink_lookup by congruence. done.
Qed.

(** A thread that is in the wait set goes to sleep. *)
Lemma Inv_sleep c id m ws t th a prev b :
  Inv c (Fat id) -> monitors c = {[id := m]} -> threads c !! t = Some th -> pc th = WaitLeave a id prev b ->
  wait_set_ok (threads c) (wait_set_ m) ws -> t ∈ ws -> Inv (put t (with_pc (WaitAsleep a id prev) th) c) (Fat id).
Proof.
  intros Hinv Hm Hth Hpc Hws Hin. destruct (iv_lock c _ Hinv) as (m0 & Hm0 & Hmo).
  assert (m0 = m) as -> by (rewrite Hm in Hm0; by apply map_singleton_inj in Hm0 as [_ ->]). pose proof Hmo as [M1 M2 M3 M4 M5 M6 M7].
  destruct (iv_threads c _ Hinv t th Hth) as [T1 T2 T3 T4 T5 T6]. rewrite Hpc in *. rewrite <- (put_monitor_id id m c Hm) at 1.
  apply (Inv_fat c id m t th); [done|done|done|..|done|by left].
  - constructor; cbn; rewrite ?Hpc; done.
  - rewrite <- Hm. constructor; cbn; try done. rewrite <- T2. unfold owned. cbn. by rewrite Hpc.
  - done.
  - apply (monitor_step _ _ _ th _ m); [done|done|]. constructor; [done|done|by right; right|done|cbn; rewrite Hpc; unfold weight; cbn; lia|..].
    + intros Hz Has. apply (exists_local (fun x => awake_on id x = true) _ (threads c) t th); [done|unfold awake_on; by rewrite Hpc|done|].
      apply M6; [done|]. by apply (exists_local_back (fun x => asleep_on id x = true) (fun x => asleep_on id x = true) (threads c) t th (with_pc (WaitAsleep a id prev) th)).
    + exists ws. by apply (wait_set_thread _ t th).
Qed.

(** The monitor is given up. *)
Lemma Inv_release c id m ws t th ch a :
  Inv c (Fat id) -> monitors c = {[id := m]} -> threads c !! t = Some th -> pc th = WaitMonitor a id -> owner_ m = t ->
  choice_ok ch (pc th) c = true -> wait_set_ok (threads c) (wait_set_ m) ws -> t ∉ ws ->
  let th1 := waiting_thread (WaitLeave a id (lock_count_ m) true) id th in
  Inv (put t th1 (put_monitor id (released m) (signal (wake ch) c))) (Fat id) /\
  wait_set_ok (<[t := th1]> (alter wake_contender (wake ch) (threads c))) (wait_set_ m) ws.
Proof.
  intros Hinv Hm Hth Hpc Ho Hch Hws Hnot th1. set (w := wake ch). rewrite Hpc in Hch.
  pose proof (Inv_signal c _ w Hinv) as Hinv1. destruct (iv_lock (signal w c) _ Hinv1) as (m0 & Hm0 & Hmo).
  change (monitors (signal w c)) with (monitors c) in Hm0. assert (m0 = m) as -> by (rewrite Hm in Hm0; by apply map_singleton_inj in Hm0 as [_ ->]).
  assert (threads (signal w c) !! t = Some th) as Hth1 by (apply signal_lookup; [done|by rewrite Hpc]).
  destruct (iv_threads c _ Hinv t th Hth) as [T1 T2 T3 T4 T5 T6]. unfold owned in T2. rewrite Hpc in T2, T5. cbn in T2. rewrite Hm, depth_fat in T2.
  rewrite Ho, Z.eqb_refl, (proj2 (Z.eqb_neq t 0)) in T2 by lia. cbn [negb orb] in T2. pose proof Hmo as [M1 M2 M3 M4 M5 M6 M7].
  assert (wait_set_ok (threads (signal w c)) (wait_set_ m) ws) as Hws1.
  { destruct (threads c !! w) as [thw|] eqn:Hw; [|by rewrite signal_none]. rewrite (alter_wake_put w thw) by done.
    destruct (wake_contender_facts thw _ eq_refl) as ([K1 K2 K3 K4 K5 K6] & _). by apply (wait_set_local _ w thw). }
  assert (wait_set_ok (<[t := th1]> (threads (signal w c))) (wait_set_ m) ws) as Hws2 by (by apply (wait_set_thread _ t th)).
  split; [|done]. apply (Inv_fat (signal w c) id m t th); [done|done|done|..|intros h; by apply hash_same|by left].
  - constructor; cbn; rewrite ?Hpc; done.
  - constructor; cbn; try done; [by rewrite depth_fat|]. intros prev [= <-]. lia.
  - intros u Hne. rewrite !depth_fat. cbn. by rewrite Ho, (proj2 (Z.eqb_neq t u)), orb_true_r by done.
  - apply (monitor_step _ _ _ th _ m); [done|done|]. constructor; [done|done|by left|done|cbn; rewrite Hpc; unfold weight; cbn; lia| |by exists ws].
    intros _ Has. assert (exists u thu, threads (signal w c) !! u = Some thu /\ asleep_on id thu = true) as Has'
      by (by apply (exists_local_back (fun x => asleep_on id x = true) (fun x => asleep_on id x = true) (threads (signal w c)) t th th1)).
    destruct (signal_wakes ch id c Hch Has') as (thw & to & Hw & Hpw). exists w, thw. split; [|unfold awake_on; by rewrite Hpw, Z.eqb_refl].
    rewrite lookup_insert_ne; [done|]. intros Hwt. subst w. rewrite <- Hwt in *. congruence.
Qed.

Lemma wait_step c v t th ch a mon : Inv c v -> threads c !! t = Some th -> pc th = WaitMonitor a mon -> choice_ok ch (pc th) c = true ->
  safe_run (Wait ch t a mon) c v.
Proof.
  intros Hinv Hth Hpc Hch. assert (v = Fat mon) as -> by (pose proof (to_pc _ _ _ _ (iv_threads c v Hinv t th Hth)) as Hok; by rewrite Hpc in Hok).
  destruct (iv_lock c _ Hinv) as (m & Hm & Hmo). destruct (mo_waits _ _ _ Hmo) as (ws & Hws). unfold safe_run.
  destruct (Z.eqb_spec (owner_ m) t) as [Ho|Ho].
  2:{ unfold Wait. rewrite (bind_ok _ _ _ _ _ (get_monitor_ok mon m c (fat_lookup _ _ _ Hm))), (proj2 (Z.eqb_neq _ _) Ho). cbn [negb].
      by apply (safe_finish c (Fat mon) t th); rewrite ?Hpc. }
  destruct ((wait_ms a <? 0) || (wait_ns a <? 0) || (999999 <? wait_ns a)) eqn:Hargs.
  { unfold Wait. rewrite (bind_ok _ _ _ _ _ (get_monitor_ok mon m c (fat_lookup _ _ _ Hm))), Ho, Z.eqb_refl. cbn [negb]. rewrite Hargs.
    by apply (safe_finish c (Fat mon) t th); rewrite ?Hpc. }
  assert (t ∉ ws) as Hnot by (intros Hin; destruct (ws_in _ _ _ Hws t Hin) as (x & Hx & Hs); assert (x = th) as -> by congruence; by rewrite Hpc in Hs).
  assert (last ws <> Some t) as Hlast by (intros Hx; apply Hnot; by apply last_Some_elem_of).
  rewrite (Wait_ok c mon m ws t th ch a Hinv Hm Hws Hnot Hth) by (done || by rewrite Hpc).
  destruct (Inv_release c mon m ws t th ch a Hinv Hm Hth Hpc Ho Hch Hws Hnot) as [Hinv1 Hws1].
  set (th1 := waiting_thread (WaitLeave a mon (lock_count_ m) true) mon th) in *. set (c1 := put t th1 _) in Hinv1.
  assert (monitors c1 = {[mon := released m]}) as Hm1 by (cbn; by rewrite Hm, insert_singleton_eq).
  pose proof (append_ok _ _ ws t th1 Hws1 Hnot (lookup_insert_eq _ _ _) eq_refl) as Hws2.
  pose proof (Inv_links c1 mon (released m) _ _ _ Hinv1 Hm1 (same_links_relink _ _ _) Hws2) as Hinv2.
  set (c2 := set_threads (relink (last ws) t _) _) in Hinv2.
  assert (threads c2 !! t = Some th1) as Hth2 by (cbn; by rewrite relink_lookup, decide_False, lookup_insert_eq by done).
  assert (forall p th', th' = waiting_thread p mon th -> set_threads (relink (last ws) t (<[t := th']> (alter wake_contender (wake ch) (threads c))))
     (put_monitor mon (with_wait_set (new_head ws (wait_set_ m) t) (released m)) c) = put t th' c2) as Hc2.
  { intros p th' _. unfold c2, put, set_threads, put_monitor, set_monitors. cbn. rewrite insert_insert_eq. f_equal.
    rewrite !relink_insert by done. by rewrite insert_insert_eq. }
  eexists _, (Fat mon). split; [reflexivity|]. rewrite (Hc2 _ _ eq_refl). split.
  - destruct (interrupted_ th); [by rewrite put_same|]. apply (Inv_sleep c2 mon (with_wait_set (new_head ws (wait_set_ m) t) (released m)) (ws ++ [t]) t th1 _ _ true);
      [done|cbn; by rewrite Hm, !insert_singleton_eq|done|done|done|set_solver].
  - intros h. cbn [put set_threads monitors c2 put_monitor set_monitors c1 signal]. rewrite Hm, !insert_singleton_eq. by apply hash_same.
Qed.

Lemma wait_woken c v t th a mon prev : Inv c v -> threads c !! t = Some th -> pc th = WaitAwake a mon prev -> safe_run (WaitWoken t a mon prev) c v.
Proof.
  intros Hinv Hth Hpc. unfold WaitWoken, safe_run. rewrite (bind_ok _ _ _ _ _ (get_thread_ok t th c Hth)).
  rewrite (bind_ok _ _ _ _ _ (update_thread_ok t _ th c Hth)), (goto_ok t _ _ _ (put_lookup _ _ _)), put_put.
  eexists _, v. split; [reflexivity|]. split; [|by intros h]. destruct (iv_threads c v Hinv t th Hth) as [T1 T2 T3 T4 T5 T6]. unfold owned in T2. rewrite Hpc in *.
  apply (Inv_local c v t th); [done|done|..|by left].
  - constructor; cbn; rewrite ?Hpc; try done. intros id. unfold awake_on. by rewrite Hpc.
  - constructor; cbn; rewrite ?Hpc; done.
  - by constructor.
Qed.

Lemma wait_reacquire c v t th a mon prev was : Inv c v -> threads c !! t = Some th -> pc th = WaitLeave a mon prev was -> suspend_count th = 0 ->
  safe_run (WaitReacquire t a mon prev was) c v.
Proof.
  intros Hinv Hth Hpc Hcnt. unfold WaitReacquire, safe_run.
  rewrite (bind_ok _ _ _ _ _ (update_thread_ok t _ th c Hth)), (goto_ok t _ _ _ (put_lookup _ _ _)), put_put.
  eexists _, v. split; [reflexivity|]. split; [|by intros h]. destruct (iv_threads c v Hinv t th Hth) as [T1 T2 T3 T4 T5 T6]. unfold owned in T2. rewrite Hpc in *.
  apply (Inv_local c v t th); [done|done|..|by left].
  - constructor; cbn; rewrite ?Hpc; try done. intros id. unfold awake_on. by rewrite Hpc.
  - constructor; cbn; rewrite ?Hpc; try done. lia.
  - by constructor.
Qed.

(** The end of [Wait]: the thread holds the monitor as often as before. *)
Definition restored (prev t : Z) (m : Monitor) : Monitor := with_owner t (with_lock_count prev (with_num_waiters (num_waiters_ m - 1) m)).

Lemma Inv_restore c id m ws t th a prev was r b :
  Inv c (Fat id) -> monitors c = {[id := m]} -> threads c !! t = Some th -> pc th = WaitRestore a id prev was ->
  wait_set_ok (threads c) (wait_set_ m) ws -> t ∉ ws -> (forall h, r <> HashCodeIs h) ->
  Inv (put t (with_pc Running (with_result r (with_interrupted b th))) (put_monitor id (restored prev t m) c)) (Fat id).
Proof.
  intros Hinv Hm Hth Hpc Hws Hnot Hr. destruct (iv_lock c _ Hinv) as (m0 & Hm0 & Hmo).
  assert (m0 = m) as -> by (rewrite Hm in Hm0; by apply map_singleton_inj in Hm0 as [_ ->]). pose proof Hmo as [M1 M2 M3 M4 M5 M6 M7].
  destruct (iv_threads c _ Hinv t th Hth) as [T1 T2 T3 T4 T5 T6]. unfold owned in T2. rewrite Hpc in *. cbn in T2. destruct (T3 prev eq_refl) as [P1 P2].
  rewrite Hm, depth_fat in T2. destruct ((owner_ m =? 0) || negb (owner_ m =? t)) eqn:Ho; [done|].
  apply orb_false_elim in Ho as [_ Ho%negb_false_iff%Z.eqb_eq].
  apply (Inv_fat c id m t th); [done|done|done|..|intros h; by apply hash_same|].
  - constructor; cbn; rewrite ?Hpc; done.
  - constructor; cbn; try done. rewrite depth_fat. unfold owned. cbn. rewrite Z.eqb_refl, (proj2 (Z.eqb_neq t 0)) by lia. done.
  - intros u Hne. rewrite !depth_fat. cbn. by rewrite Ho, (proj2 (Z.eqb_neq t u)), !orb_true_r by done.
  - apply (monitor_step _ _ _ th _ m); [done|done|]. constructor; cbn [restored with_owner with_lock_count with_num_waiters owner_ lock_count_ hash_code_ num_waiters_ wait_set_];
      [lia|done|by right; left|done|cbn; rewrite Hpc; unfold weight; cbn; lia|lia|]. exists ws. by apply (wait_set_thread _ t th).
  - intros h Heq. by destruct (Hr h).
Qed.

Lemma wait_returns c v t th a mon prev was : Inv c v -> threads c !! t = Some th -> pc th = WaitRestore a mon prev was ->
  safe_run (WaitReturns t a mon prev was) c v.
Proof.
  intros Hinv Hth Hpc. assert (v = Fat mon) as -> by (pose proof (to_pc _ _ _ _ (iv_threads c v Hinv t th Hth)) as Hok; by rewrite Hpc in Hok).
  destruct (iv_lock c _ Hinv) as (m & Hm & Hmo). destruct (mo_waits _ _ _ Hmo) as (ws & Hws). unfold safe_run, WaitReturns.
  rewrite (bind_ok _ _ _ _ _ (update_monitor_ok mon _ m c (fat_lookup _ _ _ Hm))).
  change (with_owner t _) with (restored prev t m).
  destruct (RemoveFromWaitSet_ok (put_monitor mon (restored prev t m) c) mon (restored prev t m) ws t th (put_monitor_lookup _ _ _) Hws
    (Inv_known c mon m ws Hinv Hws) Hth ltac:(by rewrite Hpc)) as (ts' & head' & ws' & Hrun & Hsame & Hws' & Hnot).
  rewrite (bind_ok _ _ _ _ _ Hrun), put_monitor_twice.
  destruct (same_links_back _ _ _ _ Hsame Hth) as (th1 & Hth1 & n & ->).
  pose proof (Inv_links c mon m ts' head' ws' Hinv Hm Hsame Hws') as Hinv1. set (c1 := set_threads ts' _) in Hinv1.
  set (b := if was then false else interrupted_ th). set (th' := with_pc Running (with_result (if was && interruptShouldThrow a then InterruptedException else Waited) (with_interrupted b (with_wait_next n th)))).
  set (c2 := set_threads ts' (put_monitor mon (with_wait_set head' (restored prev t m)) c)).
  assert ((whenM was (update_thread t (with_interrupted false)) ;; finish t (if was && interruptShouldThrow a then InterruptedException else Waited)) c2 = Ok (tt, put t th' c2)) as ->.
  { destruct was; cbn [whenM andb].
    - rewrite (bind_ok _ _ _ _ _ (update_thread_ok t _ _ c2 Hth1)), (finish_runs t _ _ _ (put_lookup _ _ _)). by rewrite put_put.
    - rewrite bind_ret, (finish_runs t _ _ c2 Hth1). unfold th', b. by destruct th. }
  eexists _, (Fat mon). split; [reflexivity|]. split.
  - assert (c2 = put_monitor mon (restored prev t (with_wait_set head' m)) c1) as -> by (unfold c1, c2, put_monitor, set_monitors, set_threads; cbn; by rewrite insert_insert_eq).
    apply (Inv_restore c1 mon (with_wait_set head' m) ws' t (with_wait_next n th) a prev was);
      [done|cbn; by rewrite Hm, insert_singleton_eq|done|done|done|done|]. intros h. by destruct (was && _).
  - intros h. cbn [put set_threads monitors c2 put_monitor set_monitors]. rewrite Hm, insert_singleton_eq. by apply hash_same.
Qed.

(** *** [Notify] *)

Lemma wake_waiter_facts th : keeps_place th (wake_waiter th) /\ suspend_count (wake_waiter th) = suspend_count th /\
  target (pc (wake_waiter th)) = target (pc th) /\ suspendable (pc (wake_waiter th)) = suspendable (pc th) /\
  confirmed (pc (wake_waiter th)) = confirmed (pc th) /\ result (wake_waiter th) = result th /\ is_asleep (pc (wake_waiter th)) = false /\
  wants (pc (wake_waiter th)) = wants (pc th).
Proof.
  unfold wake_waiter. destruct (pc th) as [| | | | | | | | | | | | | | | | | | | | | | |a mon prev| | | | |] eqn:Hp;
    (split; [constructor; cbn; rewrite ?Hp; try done; intros id; unfold asleep_on, awake_on; cbn; rewrite ?Hp; done|cbn; rewrite ?Hp; done]).
Qed.

Lemma wake_waiter_thread v d t th : thread_ok v d t th -> thread_ok v d t (wake_waiter th).
Proof.
  intros Hok. unfold wake_waiter. destruct (pc th) as [| | | | | | | | | | | | | | | | | | | | | | |a mon prev| | | | |] eqn:Hp; try done.
  destruct Hok as [T1 T2 T3 T4 T5 T6]. unfold owned in T2. rewrite Hp in *. by constructor.
Qed.

Lemma adjust_put t f th c : threads c !! t = Some th -> adjust t f c = put t (f th) c.
Proof. intros Hth. pose proof (update_thread_adjust t f th c Hth) as H1. rewrite (update_thread_ok t f th c Hth) in H1. congruence. Qed.

Lemma Inv_wake c v x th : Inv c v -> threads c !! x = Some th -> Inv (adjust x wake_waiter c) v.
Proof.
  intros Hinv Hth. rewrite (adjust_put x _ th) by done. destruct (wake_waiter_facts th) as (K1 & K2 & K3 & K4 & K5 & K6 & K7 & K8).
  apply (Inv_local c v x th); [done|done|done| |apply wake_waiter_thread, Hinv, Hth|rewrite K6; by left].
  constructor; [done|done|rewrite K5; by left|by rewrite K4|rewrite K8; by left].
Qed.

(** A thread without a monitor to wait for is not asleep. *)
Lemma wake_waiter_id c v x th : Inv c v -> threads c !! x = Some th -> is_some (wait_monitor_ th) = false -> wake_waiter th = th.
Proof.
  intros Hinv Hth Hw. pose proof (to_wait _ _ _ _ (iv_threads c v Hinv x th Hth)) as Heq. rewrite Heq in Hw. unfold wake_waiter.
  by destruct (pc th).
Qed.

Lemma wake_waiter_next n th : wake_waiter (with_wait_next n th) = with_wait_next n (wake_waiter th).
Proof. unfold wake_waiter. cbn. by destruct (pc th). Qed.

(** The first waiter is woken and taken out. *)
Definition notified (id x : Z) (m : Monitor) (c : Config) : Config :=
  set_threads (alter (with_wait_next 0) x (alter wake_waiter x (threads c))) (put_monitor id (with_wait_set (next_of (threads c) x) m) c).

Lemma Inv_notified c id m x l : Inv c (Fat id) -> monitors c = {[id := m]} -> wait_set_ok (threads c) (wait_set_ m) (x :: l) ->
  Inv (notified id x m c) (Fat id) /\ wait_set_ok (threads (notified id x m c)) (next_of (threads c) x) l.
Proof.
  intros Hinv Hm Hws. destruct (ws_in _ _ _ Hws x) as (th & Hth & _); [by left|].
  destruct (wake_waiter_facts th) as ([K1 K2 K3 K4 K5 K6] & _ & _ & _ & _ & _ & K7 & _).
  pose proof (Inv_wake c _ x th Hinv Hth) as Hinv1. set (c1 := adjust x wake_waiter c) in Hinv1.
  assert (threads c1 = <[x := wake_waiter th]> (threads c)) as E1 by (unfold c1; by rewrite (adjust_put x _ th)).
  assert (wait_set_ok (threads c1) (wait_set_ m) (x :: l)) as Hws1 by (rewrite E1; by apply (wait_set_local _ x th)).
  assert (threads c1 !! x = Some (wake_waiter th)) as Hx1 by (rewrite E1; apply lookup_insert_eq).
  assert (next_of (threads c1) x = next_of (threads c) x) as En by (rewrite E1; by apply next_of_local with th).
  assert (wait_set_ m = x) as Eh by (by destruct (ws_linked _ _ _ Hws)). rewrite Eh in Hws1.
  pose proof (remove_first _ x l _ Hws1 Hx1 K7) as Hws2. rewrite En in Hws2. split; [|done].
  by apply (Inv_links c1 id m _ _ l Hinv1 Hm (same_links_alter _ _ _ _ (same_links_refl _))).
Qed.

Lemma alter_swap x (ts : gmap Z Thread) : alter wake_waiter x (alter (with_wait_next 0) x ts) = alter (with_wait_next 0) x (alter wake_waiter x ts).
Proof.
  apply map_eq. intros u. destruct (decide (u = x)) as [->|Hne]; [|by rewrite !lookup_alter_ne].
  rewrite !lookup_alter_eq. destruct (ts !! x) as [th|]; [|done]. cbn. by rewrite wake_waiter_next.
Qed.

(** One round of either loop. *)
Lemma pop_wake c id m x l : Inv c (Fat id) -> monitors c = {[id := m]} -> wait_set_ok (threads c) (wait_set_ m) (x :: l) ->
  exists th, pop_waiter id x c = Ok (tt, set_threads (alter (with_wait_next 0) x (threads c)) (put_monitor id (with_wait_set (next_of (threads c) x) m) c)) /\
    threads c !! x = Some th /\
    (forall f, (f = wake_waiter \/ f = NotifyLocked) -> update_thread x f (set_threads (alter (with_wait_next 0) x (threads c)) (put_monitor id (with_wait_set (next_of (threads c) x) m) c))
       = Ok (tt, notified id x m c)) /\
    (is_some (wait_monitor_ th) = false -> set_threads (alter (with_wait_next 0) x (threads c)) (put_monitor id (with_wait_set (next_of (threads c) x) m) c) = notified id x m c).
Proof.
  intros Hinv Hm Hws. destruct (ws_in _ _ _ Hws x) as (th & Hth & _); [by left|]. exists th. set (c1 := set_threads _ _).
  assert (threads c1 !! x = Some (with_wait_next 0 th)) as Hx1 by (cbn; by rewrite lookup_alter_eq, Hth).
  assert (adjust x wake_waiter c1 = notified id x m c) as Hadj by (unfold adjust, notified, c1, set_threads; cbn; by rewrite alter_swap).
  assert (is_some (wait_monitor_ th) = false -> c1 = notified id x m c) as Hnone.
  { intros Hw. rewrite <- Hadj, (adjust_put x _ _ c1 Hx1), put_same; [done|]. rewrite Hx1. f_equal.
    by rewrite wake_waiter_next, (wake_waiter_id c _ x th Hinv Hth Hw). }
  split_and!; [|done| |done].
  - unfold pop_waiter. rewrite (bind_ok _ _ _ _ _ (get_thread_ok x th c Hth)), (next_of_lookup _ _ _ Hth).
    rewrite (bind_ok _ _ _ _ _ (update_monitor_ok id _ m c (fat_lookup _ _ _ Hm))). by rewrite (update_thread_adjust x _ th).
  - intros f [->| ->]; rewrite (update_thread_adjust x _ _ c1 Hx1); [by rewrite Hadj|]. destruct (is_some (wait_monitor_ th)) eqn:Hw.
    + rewrite <- Hadj, !(adjust_put x _ _ c1 Hx1). unfold NotifyLocked. cbn. by rewrite Hw.
    + rewrite <- (Hnone eq_refl), (adjust_put x _ _ c1 Hx1), put_same; [done|]. unfold NotifyLocked. cbn. by rewrite Hw.
Qed.

Lemma notified_lookup c id m x t th : threads c !! t = Some th -> x <> t -> threads (notified id x m c) !! t = Some th.
Proof. intros Hth Hne. cbn. by rewrite !lookup_alter_ne. Qed.

Lemma notified_monitors c id m x : monitors c = {[id := m]} -> monitors (notified id x m c) = {[id := with_wait_set (next_of (threads c) x) m]}.
Proof. intros Hm. cbn. by rewrite Hm, insert_singleton_eq. Qed.

(** The threads that a notification takes out of the wait set: all of them, or
    those up to the first that still waits. *)
Definition waits (ts : gmap Z Thread) (u : Z) : bool := match ts !! u with Some th => is_some (wait_monitor_ th) | None => false end.

Fixpoint taken_out (ts : gmap Z Thread) (all : bool) (ws : list Z) : list Z :=
  match ws with
  | [] => []
  | x :: l => if negb all && waits ts x then [x] else x :: taken_out ts all l
  end.

Lemma taken_out_ext ts ts' all ws : (forall u, u ∈ ws -> waits ts' u = waits ts u) -> taken_out ts' all ws = taken_out ts all ws.
Proof.
  induction ws as [|x l IH]; intros Hw; [done|]. cbn. rewrite Hw by (by left). rewrite IH; [done|]. intros u Hu. apply Hw. by right.
Qed.

(** The state after a notification. *)
Record notified_state (c : Config) (id : Z) (m : Monitor) (ws out : list Z) (c' : Config) : Prop := {
  ns_inv : Inv c' (Fat id);
  ns_monitor : exists head, monitors c' = {[id := with_wait_set head m]} /\ exists rest, ws = out ++ rest /\ wait_set_ok (threads c') head rest;
  ns_out : forall u, u ∈ out -> threads c' !! u = (fun th => with_wait_next 0 (wake_waiter th)) <$> threads c !! u;
  ns_others : forall u, u ∉ out -> threads c' !! u = threads c !! u;
  ns_word : lock_word c' = lock_word c /\ hash_code_seed c' = hash_code_seed c;
}.

Lemma notified_state_nil c id m ws : Inv c (Fat id) -> monitors c = {[id := m]} -> wait_set_ok (threads c) (wait_set_ m) ws -> notified_state c id m ws [] c.
Proof.
  intros Hinv Hm Hws. constructor; [done|..|done|done]; [|set_solver]. exists (wait_set_ m). split; [|by exists ws].
  replace (with_wait_set (wait_set_ m) m) with m by (by destruct m). done.
Qed.

Lemma notified_state_cons c id m x l out c' : monitors c = {[id := m]} -> NoDup (x :: l) -> is_Some (threads c !! x) ->
  notified_state (notified id x m c) id (with_wait_set (next_of (threads c) x) m) l out c' -> notified_state c id m (x :: l) (x :: out) c'.
Proof.
  intros Hm [Hx Hnd]%NoDup_cons [th Hth] [N1 (head & N2 & rest & -> & N3) N4 N5 N6]. constructor; [done|..|done].
  - exists head. split; [done|]. by exists rest.
  - intros u [->|Hu]%elem_of_cons.
    + rewrite N5 by set_solver. cbn. rewrite !lookup_alter_eq. by destruct (threads c !! x).
    + rewrite N4 by done. cbn. by rewrite !lookup_alter_ne by set_solver.
  - intros u Hu. rewrite N5 by set_solver. cbn. by rewrite !lookup_alter_ne by set_solver.
Qed.

Lemma waits_notified c id m x u : u <> x -> waits (threads (notified id x m c)) u = waits (threads c) u.
Proof. intros Hne. unfold waits. cbn. by rewrite !lookup_alter_ne. Qed.

Lemma notify_loop (all : bool) c id m ws fuel :
  Inv c (Fat id) -> monitors c = {[id := m]} -> wait_set_ok (threads c) (wait_set_ m) ws -> (length ws < fuel)%nat ->
  exists c', (if all then NotifyAll_loop fuel id else Notify_loop fuel id) c = Ok (tt, c') /\ notified_state c id m ws (taken_out (threads c) all ws) c'.
Proof.
  revert c m fuel. induction ws as [|x l IH]; intros c m [|fuel] Hinv Hm Hws Hf; cbn [length] in Hf; try lia; pose proof (ws_linked _ _ _ Hws) as Hl.
  - exists c. split; [|by apply notified_state_nil]. cbn in Hl.
    destruct all; cbn; rewrite (bind_ok _ _ _ _ _ (get_monitor_ok id m c (fat_lookup _ _ _ Hm))), Hl; done.
  - destruct (linked_head _ _ _ _ Hl (Inv_known c id m _ Hinv Hws)) as (Hh & Hz & _). pose proof (ws_nodup _ _ _ Hws) as Hnd.
    destruct (pop_wake c id m x l Hinv Hm Hws) as (th & Hpop & Hth & Hupd & Hnone). destruct (Inv_notified c id m x l Hinv Hm Hws) as [Hinv1 Hws1].
    pose proof (notified_monitors c id m x Hm) as Hm1. assert (taken_out (threads (notified id x m c)) all l = taken_out (threads c) all l) as Hout.
    { apply taken_out_ext. intros u Hu. apply waits_notified. apply NoDup_cons in Hnd as [Hx _]. by intros ->. }
    assert (exists c', (if all then NotifyAll_loop fuel id else Notify_loop fuel id) (notified id x m c) = Ok (tt, c') /\
      notified_state c id m (x :: l) (x :: taken_out (threads c) all l) c') as (c' & Hrest & Hns).
    { destruct (IH _ _ fuel Hinv1 Hm1 Hws1 ltac:(lia)) as (c' & Hrun & Hns). exists c'. split; [done|]. rewrite Hout in Hns. by apply notified_state_cons. }
    assert (threads (set_threads (alter (with_wait_next 0) x (threads c)) (put_monitor id (with_wait_set (next_of (threads c) x) m) c)) !! x = Some (with_wait_next 0 th))
      as Hx1 by (cbn; by rewrite lookup_alter_eq, Hth).
    cbn [taken_out]. unfold waits. rewrite Hth. destruct all; cbn [negb andb NotifyAll_loop Notify_loop] in *;
      rewrite (bind_ok _ _ _ _ _ (get_monitor_ok id m c (fat_lookup _ _ _ Hm))), Hz, Hh, (bind_ok _ _ _ _ _ Hpop).
    + rewrite (bind_ok _ _ _ _ _ (Hupd _ (or_intror eq_refl))). eauto.
    + rewrite (bind_ok _ _ _ _ _ (get_thread_ok x _ _ Hx1)). cbn [wait_monitor_ with_wait_next].
      destruct (is_some (wait_monitor_ th)) eqn:Hw.
      * rewrite (Hupd _ (or_introl eq_refl)). eexists. split; [done|]. apply notified_state_cons; [done|done|eauto|]. by apply notified_state_nil.
      * rewrite (Hnone eq_refl). eauto.
Qed.

Lemma notify_step c v t th all mon : Inv c v -> threads c !! t = Some th -> pc th = NotifyMonitor all mon -> safe_run (Notify t mon all) c v.
Proof.
  intros Hinv Hth Hpc. assert (v = Fat mon) as -> by (pose proof (to_pc _ _ _ _ (iv_threads c v Hinv t th Hth)) as Hok; by rewrite Hpc in Hok).
  destruct (iv_lock c _ Hinv) as (m & Hm & Hmo). destruct (mo_waits _ _ _ Hmo) as (ws & Hws). unfold safe_run, Notify.
  rewrite (bind_ok _ _ _ _ _ (get_monitor_ok mon m c (fat_lookup _ _ _ Hm))). destruct (Z.eqb_spec (owner_ m) t) as [Ho|Ho]; cbn [negb].
  2:{ by apply (safe_finish c (Fat mon) t th); rewrite ?Hpc. }
  rewrite bind_gets. pose proof (ws_size _ _ _ Hws) as Hsz. destruct (notify_loop all c mon m ws (S (size (threads c))) Hinv Hm Hws ltac:(lia)) as (c' & Hrun & Hns).
  assert ((if all then NotifyAll_loop (S (size (threads c))) mon else Notify_loop (S (size (threads c))) mon) c = Ok (tt, c')) as Hrun' by (by destruct all).
  rewrite (bind_ok _ _ _ _ _ Hrun'). destruct Hns as [N1 (head & N2 & rest & Hrest & _) N4 N5 _].
  assert (t ∉ ws) as Hnot by (intros Hin; destruct (ws_in _ _ _ Hws t Hin) as (x & Hx & Hs); assert (x = th) as -> by congruence; by rewrite Hpc in Hs).
  assert (threads c' !! t = Some th) as Hth' by (rewrite N5; [done|]; intros Hin; apply Hnot; rewrite Hrest; apply elem_of_app; by left).
  destruct (safe_finish c' (Fat mon) t th N1 Hth' Notified) as (c2 & v2 & H1 & H2 & H3); rewrite ?Hpc; try done.
  exists c2, v2. split; [done|]. split; [done|]. intros h Hh. apply H3. rewrite N2. rewrite Hm in Hh. by apply (hash_same mon m).
Qed.
