(* ===== verification/MonitorProofs.v ===== *)
(** * The theorems of the monitor model

    Deflation, wake-ups and interruptions, then every step of the system keeps
    the invariant; from it mutual exclusion, progress, the stability of hash
    codes, the bounds of the counters and the order of notifications, and a run
    that loses a notification. *)

From S2P Require Import Prelude LockWord Monitor MonitorInvariant MonitorWaiting.

(** *** [Deflate] *)

Lemma weight_nonneg p : 0 <= weight p.
Proof. unfold weight. destruct (contends p), (is_some (saved p)); lia. Qed.

(** Threads that are suspended and do not wait for the monitor. *)
Lemma idle_threads c id m : Inv c (Fat id) -> monitors c = {[id := m]} -> all_suspendable c = true -> num_waiters_ m <= 0 ->
  forall t th, threads c !! t = Some th -> (forall v, pc_ok v t (pc th)) /\ wait_next th = 0.
Proof.
  intros Hinv Hm Hall Hn t th Hth. destruct (iv_lock c _ Hinv) as (m0 & Hm0 & Hmo).
  assert (m0 = m) as -> by (rewrite Hm in Hm0; by apply map_singleton_inj in Hm0 as [_ ->]).
  assert (forall u thu, threads c !! u = Some thu -> weight (pc thu) = 0) as Hz.
  { intros u thu Hu. pose proof (total_ge (fun x => weight (pc x)) u thu (threads c) (fun _ _ _ => weight_nonneg _) Hu) as Hge. cbn in Hge.
    rewrite <- (mo_waiters _ _ _ Hmo) in Hge. pose proof (weight_nonneg (pc thu)). lia. }
  split.
  - unfold all_suspendable in Hall. apply bool_decide_eq_true in Hall. specialize (Hall t th Hth). specialize (Hz t th Hth). cbn in Hall.
    pose proof (to_pc _ _ _ _ (iv_threads c _ Hinv t th Hth)) as Hok. intros v. destruct (pc th) as [| | | | | | | | | | | | | | | | |to mon|to mon|to mon|to mon| | | | | | | |]; try done; by destruct to.
  - destruct (mo_waits _ _ _ Hmo) as (ws & Hws). apply (ws_out _ _ _ Hws t th Hth). intros Hin.
    destruct (ws_in _ _ _ Hws t Hin) as (x & Hx & Hs). specialize (Hz t x Hx). unfold weight in Hz. rewrite Hs in Hz. destruct (contends (pc x)); lia.
Qed.

Lemma Inv_deflate c id m v' :
  Inv c (Fat id) -> monitors c = {[id := m]} -> all_suspendable c = true -> num_waiters_ m <= 0 ->
  view_ok v' -> ~ is_fat v' -> (forall u, depth v' ∅ u = depth (Fat id) {[id := m]} u) -> hash_view v' ∅ = hash_view (Fat id) {[id := m]} ->
  (forall o n, v' = Thin o n -> is_Some (threads c !! o)) ->
  Inv (set_monitors (delete id (monitors c)) (set_lock_word (encode v') c)) v' /\ hash_kept (Fat id) (monitors c) v' (delete id (monitors c)).
Proof.
  intros Hinv Hm Hall Hn Hok Hnf Hd Hh Ho. pose proof (idle_threads c id m Hinv Hm Hall Hn) as Hidle.
  rewrite Hm, delete_singleton_eq. split; [|intros h; by rewrite Hh].
  constructor; cbn [set_monitors set_lock_word lock_word monitors threads hash_code_seed]; [done|done|apply (iv_seed c _ Hinv)|..].
  - intros t th Hth. destruct (iv_threads c _ Hinv t th Hth) as [T1 T2 T3 T4 T5 T6]. constructor; [done| |done| |done|by rewrite Hd, <- Hm].
    + by rewrite T2, Hm, Hd.
    + by apply (Hidle t th).
  - assert (forall t th, threads c !! t = Some th -> wait_next th = 0) as Hz by (intros t th Hth; by apply (Hidle t th)).
    destruct v' as [|o n|id'|h]; cbn [lock_ok]; [done| |destruct Hnf; by eexists|done]. split_and!; [done|by eapply Ho|done].
  - apply (iv_suspend c _ Hinv).
  - intros t th h Hth Hr. rewrite Hh, <- Hm. by apply (iv_hash c _ Hinv t th h).
Qed.

Lemma deflate_step c v : Inv c v -> all_suspendable c = true -> safe_run (_ ← Deflate; mret tt) c v.
Proof.
  intros Hinv Hall. unfold safe_run. pose proof (iv_view c v Hinv) as Hview.
  assert (forall b, Deflate c = Ok (b, c) -> exists c' v', (_ ← Deflate; mret tt) c = Ok (tt, c') /\ Inv c' v' /\ hash_kept v (monitors c) v' (monitors c')) as Hsame.
  { intros b Hrun. exists c, v. rewrite (bind_ok _ _ _ _ _ Hrun). split_and!; [done|done|by intros h]. }
  destruct v as [|o n|id|h]; try (apply (Hsame true); unfold Deflate; rewrite (read_lock_word c _ Hinv), encode_state by done; done).
  destruct (iv_lock c _ Hinv) as (m & Hm & Hmo). pose proof Hmo as [M1 M2 M3 M4 M5 M6 M7]. pose proof (fat_lookup _ _ _ Hm) as Hl.
  assert (Deflate c = (if 0 <? num_waiters_ m then mret false
      else if negb (owner_ m =? 0) then
        if HasHashCode m then mret false
        else if kThinLockMaxCount <? lock_count_ m then mret false
        else new_lw ← lift (FromThinLockId (owner_ m) (lock_count_ m) 0);
          SetLockWord new_lw ;; modify (fun c => set_monitors (delete id (monitors c)) c) ;; mret true
      else
        new_lw ← (if HasHashCode m then lift (FromHashCode (hash_code_ m) 0) else mret (FromDefault 0));
        SetLockWord new_lw ;; modify (fun c => set_monitors (delete id (monitors c)) c) ;; mret true) c) as Hrun.
  { unfold Deflate. rewrite (read_lock_word c _ Hinv), encode_state, encode_rb, encode_fat by done. by rewrite (bind_ok _ _ _ _ _ (get_monitor_ok id m c Hl)). }
  destruct (Z.ltb_spec 0 (num_waiters_ m)) as [Hw|Hw]; [by apply (Hsame false)|].
  assert (forall v', view_ok v' -> ~ is_fat v' -> (forall u, depth v' ∅ u = depth (Fat id) {[id := m]} u) -> hash_view v' ∅ = hash_view (Fat id) {[id := m]} ->
    (forall o n, v' = Thin o n -> is_Some (threads c !! o)) -> Deflate c = Ok (true, set_monitors (delete id (monitors c)) (set_lock_word (encode v') c)) ->
    exists c' v', (_ ← Deflate; mret tt) c = Ok (tt, c') /\ Inv c' v' /\ hash_kept (Fat id) (monitors c) v' (monitors c')) as Hdone.
  { intros v' V1 V2 V3 V4 V5 V6. rewrite (bind_ok _ _ _ _ _ V6). eexists _, v'. split; [reflexivity|]. by apply (Inv_deflate c id m). }
  destruct (Z.eqb_spec (owner_ m) 0) as [H0|H0]; cbn [negb] in Hrun.
  - destruct (HasHashCode m) eqn:Hhas.
    + assert (0 < hash_code_ m < 2 ^ 28) as Hr by (unfold HasHashCode in Hhas; apply negb_true_iff, Z.eqb_neq in Hhas; lia).
      apply (Hdone (Hashed (hash_code_ m))); [done|by intros []|intros u; rewrite depth_fat, H0; done|by rewrite hash_fat, Hhas|done|].
      rewrite Hrun, make_hash, bind_lift by done. done.
    + apply (Hdone Free); [done|by intros []|intros u; rewrite depth_fat, H0; done|by rewrite hash_fat, Hhas|done|]. rewrite Hrun, bind_ret. done.
  - destruct (HasHashCode m) eqn:Hhas; [by apply (Hsame false)|]. change kThinLockMaxCount with 4095 in Hrun.
    destruct (Z.ltb_spec 4095 (lock_count_ m)) as [Hc|Hc]; [by apply (Hsame false)|].
    destruct (M3 H0) as [th Hth]. pose proof (to_id _ _ _ _ (iv_threads c _ Hinv _ th Hth)) as Hid.
    apply (Hdone (Thin (owner_ m) (lock_count_ m))); [cbn; lia|by intros []| |by rewrite hash_fat, Hhas|intros o n [= <- _]; eauto|].
    + intros u. rewrite depth_fat, (proj2 (Z.eqb_neq _ _) H0). unfold depth. cbn. by destruct (owner_ m =? u).
    + rewrite Hrun, make_thin, bind_lift by (cbn; lia). done.
Qed.

(** *** Every step *)

Lemma wake_up_step c v t th : Inv c v -> threads c !! t = Some th -> safe_run (update_thread t (fun th => wake_waiter (wake_contender th))) c v.
Proof.
  intros Hinv Hth. unfold safe_run. rewrite (update_thread_ok t _ th c Hth). eexists _, v. split; [reflexivity|]. split; [|by intros h].
  pose proof (Inv_signal c v t Hinv) as Hinv1. rewrite (alter_wake_put t th c Hth) in Hinv1.
  pose proof (Inv_wake _ v t (wake_contender th) Hinv1 (put_lookup _ _ _)) as Hinv2. rewrite (adjust_put t _ (wake_contender th)) in Hinv2 by apply put_lookup.
  by rewrite put_put in Hinv2.
Qed.

Lemma interrupt_step c v t th : Inv c v -> threads c !! t = Some th -> safe_run (Thread_Interrupt t) c v.
Proof.
  intros Hinv Hth. unfold safe_run, Thread_Interrupt. rewrite (update_thread_ok t _ th c Hth). eexists _, v. split; [reflexivity|]. split; [|by intros h].
  destruct (interrupted_ th); [by rewrite put_same|]. set (th1 := with_interrupted true th).
  assert (Inv (put t th1 c) v) as Hinv1.
  { destruct (iv_threads c v Hinv t th Hth) as [T1 T2 T3 T4 T5 T6].
    apply (Inv_local c v t th); [done|done|by constructor|constructor; try done; by left|by constructor|by left]. }
  unfold NotifyLocked. destruct (is_some (wait_monitor_ th1)) eqn:Hw; [|done].
  pose proof (Inv_wake _ v t th1 Hinv1 (put_lookup _ _ _)) as Hinv2. rewrite (adjust_put t _ th1) in Hinv2 by apply put_lookup. by rewrite put_put in Hinv2.
Qed.

(** ** Interruptions are not missed *)

(** A thread that sleeps in [Wait] has not been interrupted. *)
Definition uninterrupted (th : Thread) : Prop := is_asleep (pc th) = true -> interrupted_ th = false.

Definition attentive (c : Config) : Prop := map_Forall (fun _ th => uninterrupted th) (threads c).

(** Runs that keep it. *)
Definition attends {A} (m : M Config A) : Prop := forall c a c', attentive c -> m c = Ok (a, c') -> attentive c'.

Lemma attends_bind {A B} (m : M Config A) (k : A -> M Config B) : attends m -> (forall a, attends (k a)) -> attends (m ≫= k).
Proof. intros Hm Hk c b c'' Hc (a & c' & H1 & H2)%bind_inv. by eapply (Hk a c'), H2; eapply Hm. Qed.

Lemma attends_invisible {A} (m : M Config A) : invisible threads m -> attends m.
Proof. intros Hm c a c' Hc Hrun. unfold attentive. by rewrite (Hm c a c' Hrun). Qed.

Lemma attends_when b (m : M Config unit) : attends m -> attends (whenM b m).
Proof. intros Hm. destruct b; [done|]. by intros c a c' Hc [= _ <-]. Qed.

Lemma threads_get_thread t : invisible threads (get_thread t).
Proof. unfold get_thread. invisible. Qed.

Lemma threads_get_monitor mon : invisible threads (get_monitor mon).
Proof. unfold get_monitor. invisible. Qed.

Lemma threads_modify f : (forall c, threads (f c) = threads c) -> invisible threads (modify f).
Proof. intros Hf c a c' [= _ <-]. apply Hf. Qed.

Lemma threads_check b : invisible threads (checkM b).
Proof. apply invisible_lift. Qed.

#[local] Hint Resolve threads_get_thread threads_get_monitor threads_modify threads_check : invisible.

Lemma threads_update_monitor mon f : invisible threads (update_monitor mon f).
Proof. unfold update_monitor. invisible. Qed.

Lemma threads_cas b x y : invisible threads (CasLockWord b x y).
Proof. unfold CasLockWord, GetLockWord, SetLockWord. invisible. Qed.

Lemma threads_generate : invisible threads GenerateIdentityHashCode.
Proof. unfold GenerateIdentityHashCode. invisible. Qed.

#[local] Hint Resolve threads_update_monitor threads_cas threads_generate : invisible.

Lemma attends_update t f : (forall th, uninterrupted th -> uninterrupted (f th)) -> attends (update_thread t f).
Proof.
  intros Hf c a c' Hc Hrun. unfold update_thread in Hrun. apply bind_inv in Hrun as (th & c1 & Hget & [= _ <-]).
  unfold get_thread in Hget. rewrite bind_gets in Hget. destruct (threads c !! t) as [th'|] eqn:Hth; [|done]. injection Hget as -> <-.
  intros u thu Hu. cbn in Hu. apply lookup_insert_Some in Hu as [[<- <-]|[_ Hu]]; [by apply Hf, (Hc t)|by apply (Hc u)].
Qed.

Lemma attends_goto t p : is_asleep p = false -> attends (goto t p).
Proof. intros Hp. apply attends_update. intros th _ Ha. cbn in Ha. congruence. Qed.

Lemma attends_finish t r : attends (finish t r).
Proof. by apply attends_update. Qed.

Lemma wake_waiter_uninterrupted th : uninterrupted (wake_waiter th).
Proof. unfold uninterrupted, wake_waiter. by destruct (pc th) eqn:Hp; rewrite ?Hp. Qed.

Lemma wake_contender_uninterrupted th : uninterrupted th -> uninterrupted (wake_contender th).
Proof. unfold uninterrupted, wake_contender. by destruct (pc th) eqn:Hp; cbn; rewrite ?Hp. Qed.

Lemma back_to_awake from : is_asleep (back_to from) = false.
Proof. by destruct from. Qed.

Create HintDb attends.
#[local] Hint Resolve attends_finish wake_waiter_uninterrupted wake_contender_uninterrupted : attends.
#[local] Hint Extern 1 (attends (goto _ _)) => apply attends_goto; first [done | apply back_to_awake | by case_match] : attends.

(** A run is made of binds, cases, changes of threads, and what does not touch them. *)
Ltac attends :=
  repeat first
    [ done
    | solve [auto with attends]
    | solve [apply attends_invisible; invisible]
    | apply attends_update; intros; solve [done | auto with attends | unfold NotifyLocked; case_match; auto with attends]
    | apply attends_bind; intros
    | apply attends_when
    | case_match ].

Lemma attends_count t d : attends (ModifySuspendCount t d).
Proof. unfold ModifySuspendCount. attends. Qed.

Lemma attends_signal mon w : attends (SignalContender mon w).
Proof. unfold SignalContender. attends. Qed.

Lemma attends_last fuel t : attends (last_waiter fuel t).
Proof. revert t. induction fuel as [|fuel IH]; intros t; cbn [last_waiter]; attends. Qed.

Lemma attends_unlink fuel t u : attends (unlink_waiter fuel t u).
Proof. revert t. induction fuel as [|fuel IH]; intros t; cbn [unlink_waiter]; attends. Qed.

#[local] Hint Resolve attends_count attends_signal attends_last attends_unlink : attends.

Lemma attends_append mon t : attends (AppendToWaitSet mon t).
Proof. unfold AppendToWaitSet, list_fuel. attends. Qed.

Lemma attends_remove mon t : attends (RemoveFromWaitSet mon t).
Proof. unfold RemoveFromWaitSet, list_fuel. attends. Qed.

Lemma attends_notify_loop fuel mon : attends (Notify_loop fuel mon).
Proof. induction fuel as [|fuel IH]; cbn [Notify_loop]; unfold pop_waiter; attends. Qed.

Lemma attends_notify_all_loop fuel mon : attends (NotifyAll_loop fuel mon).
Proof. induction fuel as [|fuel IH]; cbn [NotifyAll_loop]; unfold pop_waiter, Thread_Notify; attends. Qed.

Lemma attends_locked t to mon : attends (Locked t to mon).
Proof. unfold Locked. attends. Qed.

#[local] Hint Resolve attends_append attends_remove attends_notify_loop attends_notify_all_loop attends_locked : attends.

Lemma attends_lock t to mon : attends (Lock t to mon).
Proof. unfold Lock. attends. Qed.

Lemma attends_inflate t from lw h : attends (InflateThinLocked t from lw h).
Proof. unfold InflateThinLocked. attends. Qed.

Lemma attends_round b t from o h s : attends (SuspendRound b t from o h s).
Proof. unfold SuspendRound, SuspendRoundEnds. attends. Qed.

#[local] Hint Resolve attends_lock attends_inflate attends_round : attends.

(** [Wait] reads the flag before the thread sleeps. *)
Lemma attends_wait ch t a mon : attends (Wait ch t a mon).
Proof.
  unfold Wait. apply attends_bind; [by apply attends_invisible; invisible|]. intros m. case_match; [attends|]. case_match; [attends|].
  do 4 (apply attends_bind; [attends|intros _]).
  intros c r c' Hc Hrun. apply bind_inv in Hrun as (th & c1 & Hget & Hrun). unfold get_thread in Hget. rewrite bind_gets in Hget.
  destruct (threads c !! t) as [th'|] eqn:Hth; [|done]. injection Hget as -> <-. destruct (interrupted_ th) eqn:Hi.
  - by eapply (attends_goto t), Hrun.
  - rewrite (goto_ok t _ th c Hth) in Hrun. injection Hrun as _ <-. intros u thu Hu. cbn in Hu. apply lookup_insert_Some in Hu as [[<- <-]|[_ Hu]]; [by intros _|by apply (Hc u)].
Qed.

Lemma run_pc_attends max_spins ch t p : attends (run_pc max_spins ch t p).
Proof.
  destruct p; cbn [run_pc]; auto using attends_wait with attends;
    unfold MonitorEnter_round, MonitorEnter_cas, MonitorEnter_set, MonitorExit_round, MonitorExit_set, Unlock, IdentityHashCode_round, IdentityHashCode_cas,
      Monitor_GetHashCode, RequestSuspend, CheckOwnerSuspended, InstallRead, CheckOwner, InstallPublish, InflateReturns, LockBlocked, LockAgain, Wait_round,
      WaitWoken, WaitReacquire, WaitReturns, DoNotify_round, Notify, EnterDone, GetLockWord, SetLockWord; attends.
Qed.

Lemma deflate_attends : attends (_ ← Deflate; mret tt).
Proof. unfold Deflate, GetLockWord, SetLockWord. attends. Qed.

Section Reachable.
Context (max_spins : Z).

Lemma start_step c v t th op : Inv c v -> threads c !! t = Some th -> pc th = Running -> suspend_count th = 0 -> safe_run (goto t (op_pc op)) c v.
Proof.
  intros Hinv Hth Hpc Hc. apply (safe_goto c v t th); [done|done|by rewrite Hpc|done|left; by destruct op|by destruct op].
Qed.

Lemma go_step c v t th ch : Inv c v -> threads c !! t = Some th -> enabled ch th c = true -> safe_run (run_pc max_spins ch t (pc th)) c v.
Proof.
  intros Hinv Hth Hen. unfold enabled in Hen.
  assert (forall p, pc th = p -> becomes_runnable p = true -> negb (becomes_runnable p) || (suspend_count th =? 0) = true -> suspend_count th = 0) as Hrun
    by (intros p _ ->; cbn; apply Z.eqb_eq).
  destruct (pc th) eqn:Hpc; try done; apply andb_prop in Hen as [Hcnt Hch]; cbn [run_pc];
    try (specialize (Hrun _ eq_refl eq_refl Hcnt)).
  - by apply (enter_round max_spins c v t th).
  - by apply (enter_cas c v t th).
  - by apply (enter_set c v t th).
  - by apply (exit_round c v t th).
  - by apply (exit_set c v t th).
  - apply (unlock_step c v t th); [done|done|done|by rewrite Hpc].
  - by apply (hash_round c v t th).
  - by apply (hash_cas c v t th).
  - by apply (hash_monitor_step c v t th).
  - by apply (request_suspend c v t th).
  - by apply (suspend_again c v t th).
  - by apply (check_owner_suspended c v t th).
  - destruct (back_to_ok v t from) as (B1 & _ & B3). apply (safe_goto c v t th); [done|done|by rewrite Hpc|done|by left|done].
  - by apply (install_read c v t th).
  - apply (install_publish c v t th); [done|done|done|by rewrite Hpc].
  - by apply (inflate_returns c v t th).
  - by apply (lock_step c v t th).
  - by apply (lock_blocked c v t th).
  - by apply (lock_again c v t th).
  - by apply (wait_round c v t th).
  - apply (wait_step c v t th); [done|done|done|by rewrite Hpc].
  - by apply (wait_woken c v t th).
  - by apply (wait_reacquire c v t th).
  - by apply (wait_returns c v t th).
  - by apply (notify_round c v t th).
  - by apply (notify_step c v t th).
Qed.

Lemma safe_run_step m c v r : safe_run m c v -> Some (match m c with Ok (_, c') => Ok c' | Fault f => Fault f end) = Some r ->
  exists c' v', r = Ok c' /\ Inv c' v' /\ hash_kept v (monitors c) v' (monitors c').
Proof. intros (c' & v' & -> & Hinv & Hh) [= <-]. eauto. Qed.

(** No step faults, and each keeps the invariant. *)
Lemma step_inv a c v r : Inv c v -> step max_spins a c = Some r -> exists c' v', r = Ok c' /\ Inv c' v' /\ hash_kept v (monitors c) v' (monitors c').
Proof.
  intros Hinv Hstep. destruct a as [t op|t ch|t|t|]; cbn [step] in Hstep.
  - destruct (threads c !! t) as [th|] eqn:Hth; [|done]. destruct (pc th) eqn:Hpc; try done. destruct (Z.eqb_spec (suspend_count th) 0) as [Hc|]; [|done].
    eapply safe_run_step; [|exact Hstep]. by apply (start_step c v t th).
  - destruct (threads c !! t) as [th|] eqn:Hth; [|done]. destruct (enabled ch th c) eqn:Hen; [|done].
    eapply safe_run_step; [|exact Hstep]. by apply (go_step c v t th).
  - destruct (threads c !! t) as [th|] eqn:Hth; [|done]. eapply safe_run_step; [|exact Hstep]. by apply (wake_up_step c v t th).
  - destruct (threads c !! t) as [th|] eqn:Hth; [|done]. eapply safe_run_step; [|exact Hstep]. by apply (interrupt_step c v t th).
  - destruct (all_suspendable c) eqn:Hall; [|done]. eapply safe_run_step; [|exact Hstep]. by apply deflate_step.
Qed.

Lemma initial_inv c : initial c -> Inv c Free.
Proof.
  intros [I1 I2 I3 I4 I5]. assert (forall t th, threads c !! t = Some th -> target (pc th) = None) as Ht.
  { intros t th Hth. by destruct (I5 t th Hth) as (i & ->). }
  constructor; [done|done|done|..].
  - intros t th Hth. pose proof (I4 t th Hth) as Hid. change kThinLockMaxOwner with 65535 in Hid. destruct (I5 t th Hth) as (i & ->). constructor; cbn; try done. lia.
  - cbn. split; [done|]. intros t th Hth. by destruct (I5 t th Hth) as (i & ->).
  - constructor.
    + intros u th Hu. assert (total (suspends u) (threads c) = 0) as ->; [|by destruct (I5 u th Hu) as (i & ->)].
      destruct (decide (total (suspends u) (threads c) = 0)) as [|Hn]; [done|]. apply total_pos in Hn as (x & thx & Hx & Hs).
      unfold suspends in Hs. by rewrite (Ht x thx Hx) in Hs.
    + intros t th u Hth Hu. by rewrite (Ht t th Hth) in Hu.
    + exists (fun _ => 0). intros t th o tho Hth Hw. by destruct (I5 t th Hth) as (i & ->).
  - intros t th h Hth Hr. by destruct (I5 t th Hth) as (i & ->).
Qed.

Lemma reachable_inv c : reachable max_spins c -> exists v, Inv c v.
Proof.
  intros (c0 & Hinit & Hsteps). assert (exists v, Inv c0 v) as Hstart by (exists Free; by apply initial_inv). clear Hinit.
  induction Hsteps as [x|x y z (a & Hstep) _ IH]; [done|]. destruct Hstart as (v & Hinv). apply IH.
  destruct (step_inv a x v _ Hinv Hstep) as (c' & v' & [= ->] & Hinv' & _). eauto.
Qed.

(** The hash code stays the same from the time it is given out. *)
Lemma steps_hash c c' v : Inv c v -> rtc (cstep max_spins) c c' -> exists v', Inv c' v' /\ hash_kept v (monitors c) v' (monitors c').
Proof.
  intros Hinv Hsteps. revert v Hinv. induction Hsteps as [x|x y z (a & Hstep) _ IH]; intros v Hinv; [exists v; split; [done|by intros h]|].
  destruct (step_inv a x v _ Hinv Hstep) as (c2 & v2 & [= ->] & Hinv2 & Hk). destruct (IH v2 Hinv2) as (v3 & Hinv3 & Hk3).
  exists v3. split; [done|]. intros h Hh. by apply Hk3, Hk.
Qed.

(** Nor are interruptions missed: [Thread::Interrupt] wakes a thread that sleeps. *)
Lemma step_attentive a c v c' : Inv c v -> attentive c -> step max_spins a c = Some (Ok c') -> attentive c'.
Proof.
  intros Hinv Hc Hstep.
  assert (forall m : M Config unit, attends m -> Some (match m c with Ok (_, c1) => Ok c1 | Fault f => Fault f end) = Some (Ok c') -> attentive c') as Hrun.
  { intros m Hm [= Heq]. destruct (m c) as [[[] c1]|] eqn:Hr; [|done]. injection Heq as <-. by apply (Hm c tt). }
  destruct a as [t op|t ch|t|t|]; cbn [step] in Hstep; try (destruct (threads c !! t) as [th|] eqn:Hth; [|done]).
  - destruct (pc th); try done. case_match; [|done]. eapply Hrun, Hstep. apply attends_goto. by destruct op.
  - case_match; [|done]. eapply Hrun, Hstep. apply run_pc_attends.
  - eapply Hrun, Hstep. apply attends_update. auto with attends.
  - unfold Thread_Interrupt in Hstep. rewrite (update_thread_ok t _ th c Hth) in Hstep. injection Hstep as <-. intros u thu Hu. cbn in Hu.
    apply lookup_insert_Some in Hu as [[<- <-]|[_ Hu]]; [|by apply (Hc u)]. destruct (interrupted_ th) eqn:Hi; [by apply (Hc t)|].
    unfold NotifyLocked. cbn [with_interrupted wait_monitor_]. pose proof (to_wait _ _ _ _ (iv_threads c v Hinv t th Hth)) as Hw.
    destruct (is_some (wait_monitor_ th)) eqn:Hs; [apply wake_waiter_uninterrupted|]. intros Ha. cbn in Ha. rewrite Hw in Hs. by destruct (pc th).
  - case_match; [|done]. eapply Hrun, Hstep. apply deflate_attends.
Qed.

Lemma reachable_attentive c : reachable max_spins c -> attentive c.
Proof.
  intros (c0 & Hinit & Hsteps).
  assert (exists v, Inv c0 v) as Hstart by (exists Free; by apply initial_inv).
  assert (attentive c0) as Hatt by (intros t th Hth; by destruct (in_threads c0 Hinit t th Hth) as (i & ->)).
  clear Hinit. induction Hsteps as [x|x y z (a & Hstep) _ IH]; [done|]. destruct Hstart as (v & Hinv). apply IH.
  - destruct (step_inv a x v _ Hinv Hstep) as (c' & v' & [= ->] & Hinv' & _). eauto.
  - by apply (step_attentive a x v y).
Qed.

(** ** Progress *)

(** Thread [u] can take its next step. *)
Definition can_go (c : Config) (u : Z) : Prop := exists ch c', step max_spins (Go u ch) c = Some (Ok c').

(** [t] cannot go on before [u] does: [u] suspends it, or it sleeps until the
    owner of the monitor, or when there is none the contender that was woken,
    has been through it. *)
Inductive waits_for (c : Config) : Z -> Z -> Prop :=
| suspended_by t th u thu : threads c !! t = Some th -> 0 < suspend_count th ->
    threads c !! u = Some thu -> target (pc thu) = Some t -> waits_for c t u
| sleeps_for_owner t th u thu to mon : threads c !! t = Some th -> pc th = LockAsleep to mon ->
    threads c !! u = Some thu -> 0 < owned thu -> waits_for c t u
| sleeps_for_contender t th u thu to mon : threads c !! t = Some th -> pc th = LockAsleep to mon ->
    (forall o tho, threads c !! o = Some tho -> owned tho = 0) ->
    threads c !! u = Some thu -> awake_on mon thu = true -> waits_for c t u.

Lemma go_ok c v u th ch : Inv c v -> threads c !! u = Some th -> enabled ch th c = true -> can_go c u.
Proof.
  intros Hinv Hth Hen. destruct (go_step c v u th ch Hinv Hth Hen) as (c' & v' & Hrun & _). exists ch, c'. cbn. by rewrite Hth, Hen, Hrun.
Qed.

Lemma any_asleep_choice mon c : exists w, negb (any_asleep mon c) || (match threads c !! w with Some th => asleep_on mon th | None => false end) = true.
Proof.
  unfold any_asleep. case_bool_decide as Ha; [|by exists 0]. destruct Ha as (w & th & Hw & Has). exists w. by rewrite Hw, Has.
Qed.

Lemma fresh_id c v : Inv c v -> exists id, (0 <=? id) && (id <=? kMaxMonitorId) && negb (is_some (monitors c !! id)) = true.
Proof.
  intros Hinv. destruct (monitors c !! 0) as [m|] eqn:H0; [|by exists 0; rewrite H0]. exists 1.
  pose proof (iv_lock c v Hinv) as Hl. destruct v as [|o n|id|h]; cbn [lock_ok] in Hl; try (destruct Hl as [Hl _]; by rewrite Hl in H0).
  destruct Hl as (m' & Hm & _). rewrite Hm in H0 |- *. apply lookup_singleton_Some in H0 as [-> _]. by rewrite lookup_singleton_ne.
Qed.

(** A thread in the middle of an operation goes on, sleeps or is suspended. *)
Lemma goes_or_blocked c v t th : Inv c v -> threads c !! t = Some th -> pc th <> Running -> is_asleep (pc th) = false ->
  can_go c t \/ (becomes_runnable (pc th) = true /\ 0 < suspend_count th) \/ exists to mon, pc th = LockAsleep to mon.
Proof.
  intros Hinv Hth Hr Hw. assert (0 <= suspend_count th) as Hc.
  { rewrite (su_count _ (iv_suspend c v Hinv) t th Hth). apply total_nonneg. intros. apply suspends_nonneg. }
  destruct (becomes_runnable (pc th)) eqn:Hb; [destruct (decide (suspend_count th = 0)) as [H0|H0]; [|right; left; split; [done|lia]]|].
  - left. apply (go_ok c v t th (mkChoice true 0 0)); [done|done|]. unfold enabled. destruct (pc th) eqn:Hpc; try done; by rewrite H0.
  - destruct (any_asleep_choice (match pc th with ExitMonitor mon | WaitMonitor _ mon => mon | _ => 0 end) c) as (w & Hwake). destruct (fresh_id c v Hinv) as (id & Hid).
    destruct (pc th) eqn:Hpc; try done; try (right; right; by eauto); left; apply (go_ok c v t th (mkChoice true w id)); try done;
      unfold enabled; rewrite Hpc; cbn [becomes_runnable negb orb andb choice_ok wake new_id]; done.
Qed.

Lemma suspender c v t th : Inv c v -> threads c !! t = Some th -> 0 < suspend_count th -> exists u thu, threads c !! u = Some thu /\ target (pc thu) = Some t.
Proof.
  intros Hinv Hth Hc. rewrite (su_count _ (iv_suspend c v Hinv) t th Hth) in Hc. destruct (total_pos (suspends t) (threads c)) as (u & thu & Hu & Hs); [lia|].
  exists u, thu. split; [done|]. unfold suspends in Hs. by case_bool_decide.
Qed.

(** The threads that keep a thread suspended can be run until it is not. *)
Lemma suspended_progress c v t th : Inv c v -> threads c !! t = Some th -> 0 < suspend_count th -> exists u, rtc (waits_for c) t u /\ can_go c u.
Proof.
  intros Hinv. destruct (su_rank _ (iv_suspend c v Hinv)) as (rank & Hrank). destruct (rank_bound (fun u => - rank u) (threads c)) as (b & Hb).
  assert (forall n x thx, Z.to_nat (rank x + b) = n -> threads c !! x = Some thx -> is_some (wants (pc thx)) = true -> pc thx <> Running -> is_asleep (pc thx) = false ->
    exists u, rtc (waits_for c) x u /\ can_go c u) as Hchain.
  { induction n as [n IH] using lt_wf_ind. intros x thx Hn Hx Hwx Hr Hw.
    destruct (goes_or_blocked c v x thx Hinv Hx Hr Hw) as [Hgo|[[Hbr Hc]|(to & mon & Hpc)]]; [exists x; split; [apply rtc_refl|done]| |by rewrite Hpc in Hwx].
    destruct (suspender c v x thx Hinv Hx Hc) as (y & thy & Hy & Hty).
    assert (wants (pc thy) = Some x) as Hwy by (destruct (pc thy); done).
    pose proof (Hrank y thy x thx Hy Hwy Hx Hwx) as Hlt. pose proof (Hb y thy Hy). pose proof (Hb x thx Hx).
    destruct (IH (Z.to_nat (rank y + b)) ltac:(lia) y thy eq_refl Hy) as (u & Hu & Hgo); [by rewrite Hwy|by destruct (pc thy)|by destruct (pc thy)|].
    exists u. split; [|done]. eapply rtc_l; [|exact Hu]. by eapply suspended_by. }
  intros Hth Hc. destruct (suspender c v t th Hinv Hth Hc) as (y & thy & Hy & Hty).
  destruct (Hchain _ y thy eq_refl Hy) as (u & Hu & Hgo); [by destruct (pc thy); cbn in *; simplify_eq|by destruct (pc thy)|by destruct (pc thy)|].
  exists u. split; [|done]. eapply rtc_l; [|exact Hu]. by eapply suspended_by.
Qed.

Lemma blocked_progress c v t th : Inv c v -> threads c !! t = Some th -> pc th <> Running -> is_asleep (pc th) = false ->
  exists u, rtc (waits_for c) t u /\
    (can_go c u \/ exists thu, threads c !! u = Some thu /\ pc thu = Running /\ suspend_count thu = 0 /\ 0 < holds thu).
Proof.
  intros Hinv Hth Hr Hw.
  assert (forall x thx, threads c !! x = Some thx -> pc thx <> Running -> is_asleep (pc thx) = false -> (forall to mon, pc thx <> LockAsleep to mon) ->
    exists u, rtc (waits_for c) x u /\ can_go c u) as Hawake.
  { intros x thx Hx Hrx Hwx Hl. destruct (goes_or_blocked c v x thx Hinv Hx Hrx Hwx) as [Hgo|[[_ Hc]|(to & mon & Hpc)]]; [eauto using rtc_refl| |by destruct (Hl to mon)].
    by apply (suspended_progress c v x thx). }
  destruct (goes_or_blocked c v t th Hinv Hth Hr Hw) as [Hgo|[[_ Hc]|(to & mon & Hpc)]]; [exists t; split; [apply rtc_refl|by left]|..].
  { destruct (suspended_progress c v t th Hinv Hth Hc) as (u & Hu & Hgo). eauto. }
  assert (v = Fat mon) as -> by (pose proof (to_pc _ _ _ _ (iv_threads c v Hinv t th Hth)) as Hok; by rewrite Hpc in Hok).
  destruct (iv_lock c _ Hinv) as (m & Hm & Hmo). destruct (decide (owner_ m = 0)) as [H0|H0].
  - destruct (mo_wake _ _ _ Hmo H0) as (y & thy & Hy & Hay); [exists t, th; split; [done|]; unfold asleep_on; by rewrite Hpc, Z.eqb_refl|].
    assert (waits_for c t y) as Hty.
    { apply (sleeps_for_contender c t th y thy to mon); try done. intros o tho Ho.
      by rewrite (to_owned _ _ _ _ (iv_threads c _ Hinv o tho Ho)), Hm, depth_fat, H0. }
    unfold awake_on in Hay. destruct (Hawake y thy Hy) as (u & Hu & Hgo); [by destruct (pc thy)..|]. exists u. split; [|by left]. by eapply rtc_l.
  - destruct (mo_owner _ _ _ Hmo H0) as [tho Ho]. destruct (iv_threads c _ Hinv _ tho Ho) as [T1 T2 T3 T4 T5 T6].
    rewrite Hm, depth_fat, (proj2 (Z.eqb_neq _ _) H0), Z.eqb_refl in T2, T6. cbn [orb negb] in T2, T6. pose proof (mo_count _ _ _ Hmo) as Hcount.
    assert (waits_for c t (owner_ m)) as Hto by (by apply (sleeps_for_owner c t th _ tho to mon); try done; lia).
    assert (outside (pc tho) = false) as Hin by (destruct (outside (pc tho)); [specialize (T6 eq_refl); lia|done]).
    assert ({pc tho = Running} + {pc tho <> Running}) as [Hrun|Hrun] by (destruct (pc tho); try (by left); by right).
    + unfold owned in T2. rewrite Hrun in T2. cbn in T2.
      assert (0 <= suspend_count tho) as Hc by (rewrite (su_count _ (iv_suspend c _ Hinv) _ tho Ho); apply total_nonneg; intros; apply suspends_nonneg).
      destruct (decide (suspend_count tho = 0)) as [Hz|Hz].
      * exists (owner_ m). split; [by apply rtc_once|]. right. exists tho. split_and!; [done|done|done|lia].
      * destruct (suspended_progress c _ _ tho Hinv Ho ltac:(lia)) as (u & Hu & Hgo). exists u. split; [|by left]. by eapply rtc_l.
    + destruct (Hawake _ tho Ho Hrun) as (u & Hu & Hgo); [unfold owned in T2; destruct (pc tho); try done; cbn in T2; lia|by intros ? ? E; rewrite E in Hin|].
      exists u. split; [|by left]. by eapply rtc_l.
Qed.

(** A thread asleep in [Wait] is in the wait set. *)
Lemma asleep_in_set c v t th : Inv c v -> threads c !! t = Some th -> is_asleep (pc th) = true ->
  exists mon m ws, wait_monitor_ th = Some mon /\ monitors c !! mon = Some m /\ wait_set_ok (threads c) (wait_set_ m) ws /\ t ∈ ws.
Proof.
  intros Hinv Hth Ha. pose proof (to_pc _ _ _ _ (iv_threads c v Hinv t th Hth)) as Hok. pose proof (to_wait _ _ _ _ (iv_threads c v Hinv t th Hth)) as Hw.
  destruct (pc th) as [| | | | | | | | | | | | | | | | | | | | | | |a mon prev| | | | |] eqn:Hpc; try done. cbn in Hok, Hw. subst v.
  destruct (iv_lock c _ Hinv) as (m & Hm & Hmo). destruct (mo_waits _ _ _ Hmo) as (ws & Hws).
  exists mon, m, ws. split_and!; [done|by apply fat_lookup|done|]. apply (ws_asleep _ _ _ Hws t th Hth). by rewrite Hpc.
Qed.

End Reachable.

(** ** Runs *)

Fixpoint run_actions (max_spins : Z) (acts : list Action) (c : Config) : option Config :=
  match acts with
  | [] => Some c
  | a :: acts => match step max_spins a c with Some (Ok c') => run_actions max_spins acts c' | _ => None end
  end.

Lemma run_steps max_spins acts c c' : run_actions max_spins acts c = Some c' -> rtc (cstep max_spins) c c'.
Proof.
  revert c. induction acts as [|a acts IH]; intros c Hrun; cbn in Hrun; [injection Hrun as ->; apply rtc_refl|].
  destruct (step max_spins a c) as [[c1|]|] eqn:Hs; try done. eapply rtc_l; [by exists a|by apply IH].
Qed.

Lemma run_reachable max_spins acts c0 c : initial c0 -> run_actions max_spins acts c0 = Some c -> reachable max_spins c.
Proof. intros Hi Hrun. exists c0. split; [done|by apply (run_steps _ acts)]. Qed.

(** Three threads and an object; the runs below use the following steps. *)
Definition new_thread : Thread := mkThread Running false None 0 0 0 NoResult.
Definition three_threads : Config := mkConfig 0 ∅ {[1 := new_thread; 2 := new_thread; 3 := new_thread]} 1.
Definition plain : Choice := mkChoice false 0 0.
Definition forever : WaitArgs := mkWaitArgs 0 0 true kWaiting.
Definition go (t : Z) (n : nat) : list Action := replicate n (Go t plain).

Lemma three_threads_initial : initial three_threads.
Proof.
  assert (forall t th, threads three_threads !! t = Some th -> 0 < t <= 3 /\ th = new_thread) as Hall.
  { intros t th Hth. cbn in Hth. repeat (apply lookup_insert_Some in Hth as [[<- <-]|[_ Hth]]; [done|]). apply lookup_singleton_Some in Hth as [<- <-]. done. }
  constructor; [done|done|done|..]; intros t th Hth; destruct (Hall t th Hth) as [Hid ->]; [change kThinLockMaxOwner with 65535; lia|by exists false].
Qed.

(** ** What the lock word and the monitor say *)

(** How often the thread [t] has locked the object. *)
Definition lock_depth (c : Config) (t : Z) : Z :=
  let lw := lock_word c in
  match GetState lw with
  | kThinLocked => if ThinLockOwner lw =? t then ThinLockCount lw + 1 else 0
  | kFatLocked =>
      match monitors c !! FatLockMonitorId lw with
      | Some m => if negb (owner_ m =? 0) && (owner_ m =? t) then lock_count_ m + 1 else 0
      | None => 0
      end
  | _ => 0
  end.

Lemma lock_depth_view c v t : Inv c v -> lock_depth c t = depth v (monitors c) t.
Proof.
  intros Hinv. pose proof (iv_view c v Hinv) as Hview. unfold lock_depth. rewrite (iv_word c v Hinv), encode_state by done.
  destruct v as [|o n|id|h]; try done.
  - destruct (encode_thin o n Hview) as [-> ->]. done.
  - rewrite encode_fat by done. unfold depth. cbn [lock_view]. destruct (monitors c !! id) as [m|]; [|done]. destruct (owner_ m =? 0); [done|]. cbn [negb andb]. done.
Qed.

(** The lock word is of one of its forms, a thin lock belongs to a thread, and
    there is a monitor exactly if the lock word refers to it. *)
Definition well_formed (c : Config) : bool :=
  let lw := lock_word c in
  match GetState lw with
  | kUnlocked => bool_decide (monitors c = ∅)
  | kThinLocked => bool_decide (monitors c = ∅) && is_some (threads c !! ThinLockOwner lw)
  | kFatLocked => bool_decide (dom (monitors c) = {[FatLockMonitorId lw]})
  | kHashCode => bool_decide (monitors c = ∅) && negb (LockWord_GetHashCode lw =? 0)
  | kForwardingAddress => false
  end.

Lemma Inv_well_formed c v : Inv c v -> well_formed c = true.
Proof.
  intros Hinv. pose proof (iv_view c v Hinv) as Hview. pose proof (iv_lock c v Hinv) as Hl. unfold well_formed. rewrite (iv_word c v Hinv), encode_state by done.
  destruct v as [|o n|id|h]; cbn [lock_ok] in Hl.
  - by rewrite bool_decide_true by apply Hl.
  - destruct (encode_thin o n Hview) as [-> _]. destruct Hl as (-> & [th Hth] & _). by rewrite Hth.
  - rewrite encode_fat by done. destruct Hl as (m & -> & _). apply bool_decide_eq_true. apply dom_singleton_L.
  - rewrite encode_hash by done. destruct Hl as (-> & _). cbn [view_ok] in Hview. by rewrite (proj2 (Z.eqb_neq h 0)) by lia.
Qed.

(** ** Theorems *)


(** C3. Mutual exclusion, through thin locks, inflation, waiting and deflation:
    the lock word or the monitor says of each thread how often that thread has
    entered the object and not left it, counting a thread inside [Wait] as
    outside; at most one thread is inside. *)
Theorem mutual_exclusion (max_spins : Z) (c : Config) (H : reachable max_spins c) :
  forall t th, threads c !! t = Some th ->
    lock_depth c t = owned th /\ 0 <= owned th /\
    (0 < owned th -> forall u thu, threads c !! u = Some thu -> u <> t -> owned thu = 0).
Proof.
  destruct (reachable_inv max_spins c H) as (v & Hinv). intros t th Hth.
  assert (forall u thu, threads c !! u = Some thu -> owned thu = depth v (monitors c) u) as Ho by (intros u thu Hu; apply (to_owned _ _ _ _ (iv_threads c v Hinv u thu Hu))).
  rewrite (lock_depth_view c v t Hinv), (Ho t th Hth). split; [done|].
  assert (forall x n, lock_view v (monitors c) = Some (x, n) -> 0 < n) as Hpos.
  { intros x n Hv. pose proof (iv_view c v Hinv) as Hview. pose proof (iv_lock c v Hinv) as Hl. destruct v as [|o k|id|h]; try done; cbn in *; simplify_eq; [lia|].
    destruct Hl as (m & Hm & Hmo). rewrite Hm, lookup_singleton_eq in Hv. destruct (owner_ m =? 0); simplify_eq. pose proof (mo_count _ _ _ Hmo). lia. }
  unfold depth in *. destruct (lock_view v (monitors c)) as [[o n]|] eqn:Hlv; [|split; [lia|lia]]. specialize (Hpos o n eq_refl).
  destruct (Z.eqb_spec o t) as [->|Hne]; [|lia]. split; [lia|]. intros _ u thu Hu Hut. rewrite (Ho u thu Hu). by rewrite (proj2 (Z.eqb_neq t u)).
Qed.

(** A thread asleep in [Wait] is where [Monitor::Notify] and [Monitor::NotifyAll]
    look for it, and has not been interrupted. *)
Definition waits_properly (c : Config) (t : Z) (th : Thread) : Prop :=
  interrupted_ th = false /\ exists mon m ws, wait_monitor_ th = Some mon /\ monitors c !! mon = Some m /\ wait_set_ok (threads c) (wait_set_ m) ws /\ t ∈ ws.


(** C12. The identity hash code never changes: two threads that have asked for
    it, at any two times, were given the same number, which is not zero and
    fits the lock word. *)
Theorem identity_hash_stable (max_spins : Z) (c c' : Config) (t u : Z) (th thu : Thread) (h h' : Z)
  (H : reachable max_spins c) (Hsteps : rtc (cstep max_spins) c c')
  (Ht : threads c !! t = Some th) (Hr : result th = HashCodeIs h) (Hu : threads c' !! u = Some thu) (Hr' : result thu = HashCodeIs h') :
  h' = h /\ 0 < h <= kHashMask.
Proof.
  destruct (reachable_inv max_spins c H) as (v & Hinv). pose proof (iv_hash c v Hinv t th h Ht Hr) as Hh.
  destruct (steps_hash max_spins c c' v Hinv Hsteps) as (v' & Hinv' & Hk). pose proof (iv_hash c' v' Hinv' u thu h' Hu Hr') as Hh'.
  split; [specialize (Hk h Hh); congruence|]. change kHashMask with (2 ^ 28 - 1). pose proof (iv_view c v Hinv) as Hview. pose proof (iv_lock c v Hinv) as Hl.
  destruct v as [|o n|id|x]; cbn in *; simplify_eq; [|lia]. destruct Hl as (m & Hm & Hmo). rewrite Hm, lookup_singleton_eq in Hh.
  unfold HasHashCode in Hh. pose proof (mo_hash _ _ _ Hmo). destruct (Z.eqb_spec (hash_code_ m) 0); cbn in Hh; simplify_eq. lia.
Qed.

Lemma thread_bound c v : Inv c v -> Z.of_nat (size (threads c)) <= kThinLockMaxOwner.
Proof.
  intros Hinv. change kThinLockMaxOwner with 65535. rewrite <- size_dom.
  assert (dom (threads c) ⊆ (list_to_set (seqZ 1 65535) : gset Z)) as Hsub.
  { intros t [th Hth]%elem_of_dom. pose proof (to_id _ _ _ _ (iv_threads c v Hinv t th Hth)). apply elem_of_list_to_set, elem_of_seqZ. lia. }
  apply subseteq_size in Hsub. rewrite size_list_to_set, length_seqZ in Hsub by apply NoDup_seqZ. lia.
Qed.

Lemma encode_range v : view_ok v -> 0 <= encode v < 2 ^ 32.
Proof.
  destruct v as [|o n|id|h]; cbn [encode view_ok]; intros Hv; [lia|apply word_range; lia|..]; apply word_range; mlia.
Qed.

(** C34. The numbers stay in their ranges: the lock word is one of 32 bits, and
    [num_waiters_] and the suspend counts, which the code checks nowhere, are
    never negative and never more than the thread ids allow, so that they do
    not overflow.  The suspensions are those by inflation of this object;
    [lock_count_] is not negative but has no bound. *)
Theorem monitor_counters_bounded (max_spins : Z) (c : Config) (H : reachable max_spins c) :
  0 <= lock_word c < 2 ^ 32 /\
  (forall id m, monitors c !! id = Some m -> 0 <= lock_count_ m /\ 0 <= num_waiters_ m <= 2 * kThinLockMaxOwner) /\
  (forall t th, threads c !! t = Some th -> 0 <= suspend_count th <= kThinLockMaxOwner).
Proof.
  destruct (reachable_inv max_spins c H) as (v & Hinv). pose proof (thread_bound c v Hinv) as Hsz. split_and!.
  - rewrite (iv_word c v Hinv). by apply encode_range, Hinv.
  - rewrite (iv_word c v Hinv). by apply encode_range, Hinv.
  - intros id m Hm. pose proof (iv_lock c v Hinv) as Hl. destruct v as [|o n|id'|h]; cbn [lock_ok] in Hl; try (destruct Hl as [Hl _]; by rewrite Hl in Hm).
    destruct Hl as (m' & Hm' & Hmo). rewrite Hm' in Hm. apply lookup_singleton_Some in Hm as [_ ->]. split; [apply Hmo|]. rewrite (mo_waiters _ _ _ Hmo). split.
    + apply total_nonneg. intros. apply weight_nonneg.
    + pose proof (total_le (fun th => weight (pc th)) 2 (threads c)) as Hle. etrans; [apply Hle|lia]. intros t th _. unfold weight. destruct (contends _), (is_some _); lia.
  - intros t th Hth. rewrite (su_count _ (iv_suspend c v Hinv) t th Hth). split; [apply total_nonneg; intros; apply suspends_nonneg|].
    pose proof (total_le (suspends t) 1 (threads c)) as Hle. etrans; [apply Hle|lia]. intros u thu _. unfold suspends. case_bool_decide; lia.
Qed.

(** C13. [notify] and [notifyAll] by the owner: the threads asleep in [Wait] are
    all in the wait set; all threads of the set are woken and taken out, or those
    from its front up to the first that still waits, and no other thread
    changes; the rest of the set stays as it was. *)
Theorem notify_in_order (max_spins : Z) (c : Config) (t : Z) (th : Thread) (all : bool) (mon : Z) (m : Monitor) (ch : Choice)
  (H : reachable max_spins c) (Hth : threads c !! t = Some th) (Hpc : pc th = NotifyMonitor all mon) (Hm : monitors c !! mon = Some m) (Ho : owner_ m = t) :
  exists ws rest c' m', wait_set_ok (threads c) (wait_set_ m) ws /\ ws = taken_out (threads c) all ws ++ rest /\
    step max_spins (Go t ch) c = Some (Ok c') /\ monitors c' !! mon = Some m' /\ wait_set_ok (threads c') (wait_set_ m') rest /\
    (forall u, u ∈ taken_out (threads c) all ws -> threads c' !! u = (fun th => with_wait_next 0 (wake_waiter th)) <$> threads c !! u) /\
    (forall u, u ∉ taken_out (threads c) all ws -> u <> t -> threads c' !! u = threads c !! u) /\
    (all = true -> forall u thu, threads c' !! u = Some thu -> is_asleep (pc thu) = false).
Proof.
  destruct (reachable_inv max_spins c H) as (v & Hinv). assert (v = Fat mon) as -> by (pose proof (to_pc _ _ _ _ (iv_threads c v Hinv t th Hth)) as Hok; by rewrite Hpc in Hok).
  destruct (iv_lock c _ Hinv) as (m0 & Hm0 & Hmo). assert (m0 = m) as -> by (rewrite Hm0, lookup_singleton_eq in Hm; congruence).
  destruct (mo_waits _ _ _ Hmo) as (ws & Hws). pose proof (ws_size _ _ _ Hws) as Hsz.
  destruct (notify_loop all c mon m ws (S (size (threads c))) Hinv Hm0 Hws ltac:(lia)) as (c1 & Hrun & [N1 (head & N2 & rest & Hrest & N3) N4 N5 _]).
  assert (t ∉ ws) as Hnot by (intros Hin; destruct (ws_in _ _ _ Hws t Hin) as (x & Hx & Hs); assert (x = th) as -> by congruence; by rewrite Hpc in Hs).
  assert (t ∉ taken_out (threads c) all ws) as Hnot' by (intros Hin; apply Hnot; rewrite Hrest; apply elem_of_app; by left).
  assert (threads c1 !! t = Some th) as Hth1 by (by rewrite N5).
  set (th' := with_pc Running (with_result Notified th)).
  assert (step max_spins (Go t ch) c = Some (Ok (put t th' c1))) as Hstep.
  { cbn [step]. rewrite Hth. unfold enabled. rewrite Hpc. cbn [becomes_runnable negb orb andb choice_ok run_pc]. unfold Notify.
    rewrite (bind_ok _ _ _ _ _ (get_monitor_ok mon m c Hm)), Ho, Z.eqb_refl. cbn [negb]. rewrite bind_gets.
    assert ((if all then NotifyAll_loop (S (size (threads c))) mon else Notify_loop (S (size (threads c))) mon) c = Ok (tt, c1)) as Hrun' by (by destruct all).
    rewrite (bind_ok _ _ _ _ _ Hrun'), (finish_runs t _ th) by done. done. }
  assert (wait_set_ok (<[t := th']> (threads c1)) head rest) as Hws1.
  { apply (wait_set_thread _ t th); [done|done|done| |done]. intros Hin. destruct Hnot. rewrite Hrest. apply elem_of_app. by right. }
  exists ws, rest, (put t th' c1), (with_wait_set head m). split_and!; [done|done|done|by rewrite <- (lookup_singleton_eq mon (with_wait_set head m)), <- N2|done|..].
  - intros u Hu. rewrite put_lookup_ne by (by intros ->). by apply N4.
  - intros u Hu Hne. rewrite put_lookup_ne by done. by apply N5.
  - intros -> u thu Hu. destruct (is_asleep (pc thu)) eqn:Ha; [|done]. pose proof (ws_asleep _ _ _ Hws1 u thu Hu Ha) as Hin.
    assert (taken_out (threads c) true ws = ws) as Hall by (clear; induction ws as [|x l IH]; cbn; [done|by rewrite IH]).
    rewrite Hall in Hrest. assert (rest = []) as -> by (apply (app_inv_head ws); by rewrite app_nil_r). set_solver.
Qed.

(** ** Runs of three threads *)

(** 1 enters and waits, which inflates the lock; 2 enters and waits; 3 enters,
    1 is interrupted, and 3 is about to notify. *)
Definition to_notify : list Action :=
  Start 1 OpEnter :: go 1 2 ++ Start 1 (OpWait forever) :: go 1 6 ++
  Start 2 OpEnter :: go 2 2 ++ Start 2 (OpWait forever) :: go 2 2 ++
  Start 3 OpEnter :: go 3 2 ++ Interrupt 1 :: Start 3 (OpNotify false) :: go 3 1.

(** 3 notifies and leaves, and 1 finishes. *)
Definition after_notify : list Action := Start 3 OpExit :: go 3 2 ++ go 1 4.

(** 1 asks for the hash code and enters, 2 contends and goes to sleep. *)
Definition to_contend : list Action :=
  Start 1 OpHash :: go 1 2 ++ Start 1 OpEnter :: go 1 6 ++ Start 2 OpEnter :: go 2 3.

Definition run_to (acts : list Action) (c : Config) : Config := match run_actions 0 acts c with Some c' => c' | None => c end.

Definition thread_of (c : Config) (t : Z) : Thread := match threads c !! t with Some th => th | None => new_thread end.

Lemma run_to_reachable acts : is_some (run_actions 0 acts three_threads) = true -> reachable 0 (run_to acts three_threads).
Proof.
  intros Hs. unfold run_to. destruct (run_actions 0 acts three_threads) as [c|] eqn:Hr; [|done]. by apply (run_reachable 0 acts three_threads), Hr; apply three_threads_initial.
Qed.

(** A notification can be lost: two threads wait, and a third calls
    [notify] after the first of them was interrupted but before it has left
    [Wait].  The interrupted thread counts as still waiting and takes the
    notification, yet throws [InterruptedException], and the other one goes on
    sleeping. *)
Theorem notification_lost :
  let c1 := run_to to_notify three_threads in
  reachable 0 c1 /\
  wait_monitor_ (thread_of c1 1) = Some 0 /\ wait_monitor_ (thread_of c1 2) = Some 0 /\ interrupted_ (thread_of c1 1) = true /\ interrupted_ (thread_of c1 2) = false /\
  exists c2 c3, step 0 (Go 3 plain) c1 = Some (Ok c2) /\ result (thread_of c2 3) = Notified /\ rtc (cstep 0) c2 c3 /\
    pc (thread_of c3 1) = Running /\ result (thread_of c3 1) = InterruptedException /\ is_asleep (pc (thread_of c3 2)) = true /\
    lock_depth c3 1 = 1 /\ lock_depth c3 3 = 0.
Proof.
  cbv zeta. split; [apply run_to_reachable; vm_compute; reflexivity|]. do 4 (split; [vm_compute; reflexivity|]).
  exists (run_to (to_notify ++ [Go 3 plain]) three_threads), (run_to after_notify (run_to (to_notify ++ [Go 3 plain]) three_threads)).
  split; [vm_compute; reflexivity|]. split; [vm_compute; reflexivity|]. split; [apply (run_steps 0 after_notify); vm_compute; reflexivity|].
  repeat (split; [vm_compute; reflexivity|]). vm_compute. reflexivity.
Qed.

(** ** The theorems at these runs *)

Lemma to_notify_runs : is_some (run_actions 0 to_notify three_threads) = true.
Proof. vm_compute. reflexivity. Qed.

Lemma to_contend_runs : is_some (run_actions 0 to_contend three_threads) = true.
Proof. vm_compute. reflexivity. Qed.

Definition to_hash : list Action := Start 1 OpHash :: go 1 2.
Definition hash_again : list Action := Start 1 OpEnter :: go 1 6 ++ Start 2 OpHash :: go 2 2.

Lemma to_hash_runs : is_some (run_actions 0 to_hash three_threads) = true.
Proof. vm_compute. reflexivity. Qed.

Lemma thread_of_lookup c t : is_some (threads c !! t) = true -> threads c !! t = Some (thread_of c t).
Proof. unfold thread_of. by destruct (threads c !! t). Qed.


Lemma mutual_exclusion_witness :
  let c := run_to to_notify three_threads in lock_depth c 3 = 1 /\ owned (thread_of c 3) = 1 /\ owned (thread_of c 1) = 0.
Proof.
  cbv zeta. set (c := run_to to_notify three_threads).
  assert (owned (thread_of c 3) = 1) as Ho by (vm_compute; reflexivity).
  assert (forall t, t = 1 \/ t = 3 -> threads c !! t = Some (thread_of c t)) as Hl
    by (intros t [->| ->]; apply thread_of_lookup; vm_compute; reflexivity).
  destruct (mutual_exclusion 0 c (run_to_reachable to_notify to_notify_runs) 3 (thread_of c 3) (Hl 3 (or_intror eq_refl))) as (H1 & _ & H3).
  rewrite H1, Ho. split; [reflexivity|split; [reflexivity|]].
  apply (H3 ltac:(rewrite Ho; lia) 1 (thread_of c 1) (Hl 1 (or_introl eq_refl))). lia.
Defined.


Lemma identity_hash_stable_witness :
  let c := run_to to_hash three_threads in let c' := run_to hash_again c in
  result (thread_of c 1) = HashCodeIs 1 /\ result (thread_of c' 2) = HashCodeIs 1 /\ 0 < 1 <= kHashMask.
Proof.
  cbv zeta. set (c := run_to to_hash three_threads). set (c' := run_to hash_again c).
  assert (result (thread_of c 1) = HashCodeIs 1) as Hr by (vm_compute; reflexivity).
  assert (result (thread_of c' 2) = HashCodeIs 1) as Hr' by (vm_compute; reflexivity).
  assert (rtc (cstep 0) c c') as Hsteps by (apply (run_steps 0 hash_again); vm_compute; reflexivity).
  split; [exact Hr|split; [exact Hr'|]].
  apply (identity_hash_stable 0 c c' 1 2 (thread_of c 1) (thread_of c' 2) 1 1 (run_to_reachable to_hash to_hash_runs) Hsteps).
  - apply thread_of_lookup. vm_compute. reflexivity.
  - exact Hr.
  - apply thread_of_lookup. vm_compute. reflexivity.
  - exact Hr'.
Defined.

Lemma monitor_counters_bounded_witness :
  let c := run_to to_contend three_threads in exists m, monitors c !! 0 = Some m /\ 0 <= num_waiters_ m <= 2 * kThinLockMaxOwner.
Proof.
  cbv zeta. set (c := run_to to_contend three_threads).
  destruct (monitors c !! 0) as [m|] eqn:Hm; [|exfalso; revert Hm; vm_compute; discriminate].
  exists m. split; [reflexivity|]. exact (proj2 (proj1 (proj2 (monitor_counters_bounded 0 c (run_to_reachable to_contend to_contend_runs))) 0 m Hm)).
Defined.

Lemma notify_in_order_witness :
  let c := run_to to_notify three_threads in exists c', step 0 (Go 3 plain) c = Some (Ok c') /\ threads c' !! 2 = threads c !! 2.
Proof.
  cbv zeta. set (c := run_to to_notify three_threads).
  destruct (monitors c !! 0) as [m|] eqn:Hm; [|exfalso; revert Hm; vm_compute; discriminate].
  assert (owner_ m = 3) as Ho by (revert Hm; vm_compute; intros [= <-]; reflexivity).
  assert (threads c !! 3 = Some (thread_of c 3)) as Hth by (apply thread_of_lookup; vm_compute; reflexivity).
  assert (pc (thread_of c 3) = NotifyMonitor false 0) as Hpc by (vm_compute; reflexivity).
  destruct (notify_in_order 0 c 3 (thread_of c 3) false 0 m plain (run_to_reachable to_notify to_notify_runs) Hth Hpc Hm Ho)
    as (ws & rest & c' & m' & Hws & Happ & Hstep & Hm' & Hrest & Hout & Hothers & _).
  exists c'. split; [exact Hstep|].
  apply (Hothers 2); [|lia]. intros Hin. pose proof (Hout 2 Hin) as H2.
  assert (c' = run_to (to_notify ++ [Go 3 plain]) three_threads) as -> by (revert Hstep; vm_compute; intros [= <-]; reflexivity).
  revert H2. vm_compute. discriminate.
Defined.
