(* ===== verification/Mutex.v ===== *)
(** * [base/mutex.cc]: mutexes and condition variables on futexes

    One [Mutex], the condition variables it guards, and the threads that use
    them, in atomic steps.  A step is one access to what other threads may access
    at the same time ([state_], [num_contenders_], a system call), together with
    the code around it on what only the owner of the mutex, or only the thread,
    can change ([recursion_count_], [num_waiters_], [sequence_], the mutexes a
    thread holds).  [exclusive_owner_] is read without the mutex, but only to
    compare it with the reader's own id.

    The checks of a debug build are part of the model.  The futex calls are those
    of the kernel: [FUTEX_WAIT] compares and goes to sleep in one step, and may
    return at any time with [EINTR]; [FUTEX_WAKE] wakes one of the threads asleep at
    the address, which one is up to the kernel ([FutexKernel]);
    [FUTEX_CMP_REQUEUE] compares and moves the threads asleep at one address to
    another.

    Not part of the model: unattached threads ([self == nullptr]), a runtime that
    is aborting, the recording of contention, and memory that is weaker than
    sequentially consistent. *)

From S2P Require Import Prelude.

(** ** State *)

(** The levels that the code names. *)
Definition kAbortLock : Z := 5.
Definition kMonitorLock : Z := 39.
Definition kLockLevelCount : Z := 56.

Record Mutex := mkMutex {
  state_ : Z;             (** 0 is unheld, 1 is held *)
  exclusive_owner_ : Z;
  num_contenders_ : Z;
  recursion_count_ : Z;
}.

(** [signals] is not part of the code: how often [sequence_] was incremented. *)
Record ConditionVariable := mkCond {
  sequence_ : Z;
  waiters_ : Z;           (** [num_waiters_] *)
  signals : Z;
}.

(** The local variables of [WaitHoldingLocks] and [TimedWait].  [seen] is not
    part of the code: the number of signals when [sequence_] was read. *)
Record WaitFrame := mkFrame {
  cond_ : Z;
  timed : bool;
  old_recursion_count : Z;
  cur_sequence : Z;
  seen : Z;
}.

(** Who called [ExclusiveLock]. *)
Inductive LockCaller := CallLock | CallTry | CallWait (f : WaitFrame) (timed_out : bool).

(** Where a thread is.  [ExclusiveUnlock] is called by the client or by a wait. *)
Inductive MutexPC :=
| Outside                (** code that does not own the mutex *)
| Inside                 (** code that owns it *)
(** [ExclusiveLock] *)
| LockLoad (k : LockCaller)
| LockCas (k : LockCaller)
| LockContend (k : LockCaller)
| LockWait (k : LockCaller)
| LockAsleep (k : LockCaller)
| LockWoken (k : LockCaller)
| LockAcquired (k : LockCaller)
(** [ExclusiveTryLock] *)
| TryLoad
| TryCas
(** [ExclusiveUnlock] *)
| UnlockLoad (f : option WaitFrame)
| UnlockCas (f : option WaitFrame)
| UnlockRead (f : option WaitFrame)
| UnlockWake (f : option WaitFrame)
(** [WaitHoldingLocks] and [TimedWait] *)
| WaitFutex (f : WaitFrame)
| WaitAsleep (f : WaitFrame)
| WaitRequeued (f : WaitFrame)    (** asleep, moved to the futex of the mutex *)
| WaitReturned (f : WaitFrame) (timed_out : bool)
| WaitLeave (f : WaitFrame) (timed_out : bool)
(** [Signal] and [Broadcast] *)
| SignalWake (cv : Z)
| BroadcastLoad (cv : Z)
| BroadcastRequeue (cv cur_sequence : Z).

(** [held_mutexes] has the mutexes a thread holds by level; [returned] is what
    its last [ExclusiveTryLock] or [TimedWait] returned. *)
Record MThread := mkMThread {
  mpc : MutexPC;
  held_mutexes : gmap Z Z;
  returned : bool;
}.

Record MConfig := mkMConfig {
  mutex : Mutex;
  conds : gmap Z ConditionVariable;
  mthreads : gmap Z MThread;
}.

Definition at_pc (p : MutexPC) (th : MThread) : MThread := mkMThread p (held_mutexes th) (returned th).
Definition with_held (h : gmap Z Z) (th : MThread) : MThread := mkMThread (mpc th) h (returned th).
Definition with_returned (b : bool) (th : MThread) : MThread := mkMThread (mpc th) (held_mutexes th) b.

Definition with_state (v : Z) (m : Mutex) : Mutex := mkMutex v (exclusive_owner_ m) (num_contenders_ m) (recursion_count_ m).
Definition with_exclusive_owner (v : Z) (m : Mutex) : Mutex := mkMutex (state_ m) v (num_contenders_ m) (recursion_count_ m).
Definition with_contenders (v : Z) (m : Mutex) : Mutex := mkMutex (state_ m) (exclusive_owner_ m) v (recursion_count_ m).
Definition with_recursion (v : Z) (m : Mutex) : Mutex := mkMutex (state_ m) (exclusive_owner_ m) (num_contenders_ m) v.

Definition with_waiters (v : Z) (d : ConditionVariable) : ConditionVariable := mkCond (sequence_ d) v (signals d).

(** [sequence_++]. *)
Definition next_sequence (d : ConditionVariable) : ConditionVariable :=
  mkCond (s32 (sequence_ d + 1)) (waiters_ d) (signals d + 1).

Definition get_mthread (t : Z) : M MConfig MThread :=
  ts ← gets mthreads;
  match ts !! t with Some th => mret th | None => lift (Fault NullDereference) end.

Definition update_mthread (t : Z) (f : MThread -> MThread) : M MConfig unit :=
  th ← get_mthread t; modify (fun c => mkMConfig (mutex c) (conds c) (<[t := f th]> (mthreads c))).

Definition goto_pc (t : Z) (p : MutexPC) : M MConfig unit := update_mthread t (at_pc p).

Definition update_mutex (f : Mutex -> Mutex) : M MConfig unit :=
  modify (fun c => mkMConfig (f (mutex c)) (conds c) (mthreads c)).

Definition get_cond (cv : Z) : M MConfig ConditionVariable :=
  cs ← gets conds;
  match cs !! cv with Some d => mret d | None => lift (Fault NullDereference) end.

Definition update_cond (cv : Z) (f : ConditionVariable -> ConditionVariable) : M MConfig unit :=
  d ← get_cond cv; modify (fun c => mkMConfig (mutex c) (<[cv := f d]> (conds c)) (mthreads c)).

(** ** Futexes *)

(** The addresses that threads sleep at: [&state_] and the [&sequence_] of a
    condition variable. *)
Inductive FutexAddress := AtState | AtSequence (cv : Z).

Definition sleeps_at (a : FutexAddress) (p : MutexPC) : bool :=
  match a, p with
  | AtState, (LockAsleep _ | WaitRequeued _) => true
  | AtSequence cv, WaitAsleep f => cond_ f =? cv
  | _, _ => false
  end.

(** [FUTEX_WAIT] returns. *)
Definition futex_returns (timed_out : bool) (p : MutexPC) : MutexPC :=
  match p with
  | LockAsleep k => LockWoken k
  | WaitAsleep f | WaitRequeued f => WaitReturned f timed_out
  | _ => p
  end.

Definition asleep (p : MutexPC) : bool :=
  match p with LockAsleep _ | WaitAsleep _ | WaitRequeued _ => true | _ => false end.

Definition sleepers (a : FutexAddress) (ts : gmap Z MThread) : list Z :=
  (map_to_list (filter (fun '(_, th) => sleeps_at a (mpc th) = true) ts)).*1.

(** The kernel chooses which of the sleeping threads to wake, by [n] or by
    anything else; it wakes one if there is one. *)
Class FutexKernel := wake_one : Z -> list Z -> option Z.

Class FutexKernelLaws (K : FutexKernel) : Prop := {
  wake_one_asleep : forall n l t, wake_one n l = Some t -> t ∈ l;
  wake_one_some : forall n l, l <> [] -> is_Some (wake_one n l);
}.

(** For example the thread [n] if it sleeps, else the first. *)
#[export] Instance pick_kernel : FutexKernel := fun n l => if bool_decide (n ∈ l) then Some n else head l.

#[export] Instance pick_kernel_laws : FutexKernelLaws pick_kernel.
Proof.
  split.
  - intros n l t. unfold wake_one, pick_kernel. case_bool_decide; [congruence|].
    destruct l as [|x l]; [done|]. intros [= <-]. set_solver.
  - intros n [|x l] Hl; [done|]. unfold wake_one, pick_kernel. case_bool_decide; eauto.
Qed.

(** Where a compare-and-exchange may fail for no reason ([spurious]), and which
    thread to wake. *)
Record MChoice := mkMChoice { spurious_fail : bool; pick : Z }.

(** The members of a mutex that do not change: which one it is, its level, and
    whether it can be held recursively. *)
Class BaseMutex := { this : Z; level_ : Z }.
Class MutexParams := { base_mutex :: BaseMutex; recursive_ : bool }.

(** ** The locks a thread holds *)

Section BaseMutex.
Context `{B : BaseMutex}.

(** No mutex of this level or lower is held, those up to the level of the abort
    lock aside. *)
Definition levels_ok (h : gmap Z Z) : bool :=
  forallb (fun i => negb (kAbortLock <? i) || negb (bool_decide (is_Some (h !! i)))) (seqZ 0 (level_ + 1)).

Definition RegisterAsLocked (h : gmap Z Z) : outcome (gmap Z Z) :=
  check (levels_ok h) ;;
  mret (if level_ =? kMonitorLock then h else <[level_ := this]> h).

Definition registered (h : gmap Z Z) : bool := bool_decide (h !! level_ = Some this).

Definition RegisterAsUnlocked (h : gmap Z Z) : outcome (gmap Z Z) :=
  if level_ =? kMonitorLock then mret h
  else check (registered h) ;; mret (delete level_ h).

(** No other mutex is held. *)
Definition alone (h : gmap Z Z) : bool :=
  forallb (fun i => (i =? level_) || negb (bool_decide (is_Some (h !! i)))) (seqZ 0 kLockLevelCount).

Definition CheckSafeToWait (h : gmap Z Z) : outcome unit :=
  check (registered h || (level_ =? kMonitorLock)) ;; check (alone h).

(** Monitors are not recorded. *)
Definition held_possible (h : gmap Z Z) : bool := bool_decide (h !! kMonitorLock = None).

End BaseMutex.

Section Mutex.
Context `{K : FutexKernel}.
Context `{P : MutexParams}.

(** [futex(a, FUTEX_WAKE, 1)]. *)
Definition futex_wake (a : FutexAddress) (n : Z) : M MConfig unit :=
  ts ← gets mthreads;
  match wake_one n (sleepers a ts) with
  | Some t => update_mthread t (fun th => at_pc (futex_returns false (mpc th)) th)
  | None => mret tt
  end.

(** [futex(&sequence_, FUTEX_CMP_REQUEUE, 0, INT_MAX, &guard_.state_, cur)]:
    whether it did not return -1. *)
Definition requeue (cv : Z) (th : MThread) : MThread :=
  match mpc th with
  | WaitAsleep f => if cond_ f =? cv then at_pc (WaitRequeued f) th else th
  | _ => th
  end.

Definition futex_cmp_requeue (cv cur : Z) : M MConfig bool :=
  d ← get_cond cv;
  if sequence_ d =? cur then
    modify (fun c => mkMConfig (mutex c) (conds c) (requeue cv <$> mthreads c)) ;; mret true
  else mret false.

(** [CompareExchangeWeak]. *)
Definition cas_state (spurious : bool) (expected desired : Z) : M MConfig bool :=
  m ← gets mutex;
  if negb spurious && (state_ m =? expected) then update_mutex (with_state desired) ;; mret true else mret false.

(** The mutexes that [self] holds change. *)
Definition update_held (self : Z) (f : gmap Z Z -> outcome (gmap Z Z)) : M MConfig unit :=
  th ← get_mthread self;
  h ← lift (f (held_mutexes th));
  update_mthread self (with_held h).

Definition IsExclusiveHeld (self : Z) : M MConfig bool :=
  th ← get_mthread self;
  m ← gets mutex;
  let result := exclusive_owner_ m =? self in
  whenM (result && negb (level_ =? kMonitorLock)) (checkM (registered (held_mutexes th))) ;;
  mret result.

Definition AssertHeld (self : Z) : M MConfig unit := h ← IsExclusiveHeld self; checkM h.
Definition AssertNotHeld (self : Z) : M MConfig unit := h ← IsExclusiveHeld self; checkM (negb h).

(** ** [ExclusiveLock] and [ExclusiveTryLock] *)

(** [recursion_count_++] and the checks after it. *)
Definition CountLock (self : Z) : M MConfig unit :=
  update_mutex (fun m => with_recursion (u32 (recursion_count_ m + 1)) m) ;;
  m ← gets mutex;
  checkM ((recursion_count_ m =? 1) || recursive_) ;;
  AssertHeld self.

(** Where the call returns to. *)
Definition LockReturns (self : Z) (k : LockCaller) : M MConfig unit :=
  match k with
  | CallLock => goto_pc self Inside
  | CallTry => update_mthread self (fun th => with_returned true (at_pc Inside th))
  | CallWait f timed_out => goto_pc self (WaitLeave f timed_out)
  end.

(** Up to the loop. *)
Definition ExclusiveLock (self : Z) (k : LockCaller) : M MConfig unit :=
  whenM (negb recursive_) (AssertNotHeld self) ;;
  held ← (if negb recursive_ then mret false else IsExclusiveHeld self);
  if (held : bool) then CountLock self ;; LockReturns self k else goto_pc self (LockLoad k).

Definition ExclusiveLock_load (self : Z) (k : LockCaller) : M MConfig unit :=
  m ← gets mutex;
  if state_ m =? 0 then goto_pc self (LockCas k) else goto_pc self (LockContend k).

Definition ExclusiveLock_cas (ch : MChoice) (self : Z) (k : LockCaller) : M MConfig unit :=
  done ← cas_state (spurious_fail ch) 0 1;
  if (done : bool) then goto_pc self (LockAcquired k) else goto_pc self (LockLoad k).

Definition ExclusiveLock_contend (self : Z) (k : LockCaller) : M MConfig unit :=
  update_mutex (fun m => with_contenders (s32 (num_contenders_ m + 1)) m) ;; goto_pc self (LockWait k).

(** [FUTEX_WAIT]: [EAGAIN] if the value is not 1. *)
Definition ExclusiveLock_wait (self : Z) (k : LockCaller) : M MConfig unit :=
  m ← gets mutex;
  if state_ m =? 1 then goto_pc self (LockAsleep k) else goto_pc self (LockWoken k).

Definition ExclusiveLock_woken (self : Z) (k : LockCaller) : M MConfig unit :=
  update_mutex (fun m => with_contenders (s32 (num_contenders_ m - 1)) m) ;; goto_pc self (LockLoad k).

(** After the loop. *)
Definition ExclusiveLock_acquired (self : Z) (k : LockCaller) : M MConfig unit :=
  m ← gets mutex;
  checkM (state_ m =? 1) ;;
  checkM (exclusive_owner_ m =? 0) ;;
  update_mutex (with_exclusive_owner self) ;;
  update_held self RegisterAsLocked ;;
  CountLock self ;;
  LockReturns self k.

Definition ExclusiveTryLock (self : Z) : M MConfig unit :=
  whenM (negb recursive_) (AssertNotHeld self) ;;
  held ← (if negb recursive_ then mret false else IsExclusiveHeld self);
  if (held : bool) then CountLock self ;; LockReturns self CallTry else goto_pc self TryLoad.

Definition ExclusiveTryLock_load (self : Z) : M MConfig unit :=
  m ← gets mutex;
  if state_ m =? 0 then goto_pc self TryCas
  else update_mthread self (fun th => with_returned false (at_pc Outside th)).

Definition ExclusiveTryLock_cas (ch : MChoice) (self : Z) : M MConfig unit :=
  done ← cas_state (spurious_fail ch) 0 1;
  if (done : bool) then goto_pc self (LockAcquired CallTry) else goto_pc self TryLoad.

(** ** [ExclusiveUnlock] *)

(** Where the call returns to when the mutex was released. *)
Definition unlocked_pc (f : option WaitFrame) : MutexPC := match f with Some f => WaitFutex f | None => Outside end.

(** Up to the loop; a call from a wait always gets there. *)
Definition ExclusiveUnlock (self : Z) (f : option WaitFrame) : M MConfig unit :=
  AssertHeld self ;;
  m ← gets mutex;
  checkM (negb (exclusive_owner_ m =? 0)) ;;
  let count := u32 (recursion_count_ m - 1) in
  update_mutex (with_recursion count) ;;
  if negb recursive_ || (count =? 0) then
    checkM ((count =? 0) || recursive_) ;;
    update_held self RegisterAsUnlocked ;;
    goto_pc self (UnlockLoad f)
  else goto_pc self (match f with Some f => WaitFutex f | None => Inside end).

Definition ExclusiveUnlock_load (self : Z) (f : option WaitFrame) : M MConfig unit :=
  m ← gets mutex;
  if state_ m =? 1 then update_mutex (with_exclusive_owner 0) ;; goto_pc self (UnlockCas f)
  else lift (Fault FatalLog).

Definition ExclusiveUnlock_cas (ch : MChoice) (self : Z) (f : option WaitFrame) : M MConfig unit :=
  done ← cas_state (spurious_fail ch) 1 0;
  if (done : bool) then goto_pc self (UnlockRead f) else goto_pc self (UnlockLoad f).

Definition ExclusiveUnlock_read (self : Z) (f : option WaitFrame) : M MConfig unit :=
  m ← gets mutex;
  if 0 <? num_contenders_ m then goto_pc self (UnlockWake f) else goto_pc self (unlocked_pc f).

Definition ExclusiveUnlock_wake (ch : MChoice) (self : Z) (f : option WaitFrame) : M MConfig unit :=
  futex_wake AtState (pick ch) ;; goto_pc self (unlocked_pc f).

(** ** [ConditionVariable] *)

(** [WaitHoldingLocks] and [TimedWait] up to the loop of [ExclusiveUnlock]. *)
Definition WaitHoldingLocks (self cv : Z) (timed : bool) : M MConfig unit :=
  AssertHeld self ;;
  m ← gets mutex;
  update_cond cv (fun d => with_waiters (waiters_ d + 1) d) ;;
  update_mutex (fun m => with_recursion 1 (with_contenders (s32 (num_contenders_ m + 1)) m)) ;;
  d ← get_cond cv;
  ExclusiveUnlock self (Some (mkFrame cv timed (recursion_count_ m) (sequence_ d) (signals d))).

Definition CondWait (self cv : Z) : M MConfig unit :=
  th ← get_mthread self;
  lift (CheckSafeToWait (held_mutexes th)) ;;
  WaitHoldingLocks self cv false.

Definition TimedWait (self cv : Z) : M MConfig unit :=
  AssertHeld self ;;
  th ← get_mthread self;
  lift (CheckSafeToWait (held_mutexes th)) ;;
  WaitHoldingLocks self cv true.

(** [FUTEX_WAIT]: [EAGAIN] if there was a signal. *)
Definition Wait_futex (self : Z) (f : WaitFrame) : M MConfig unit :=
  d ← get_cond (cond_ f);
  if sequence_ d =? cur_sequence f then goto_pc self (WaitAsleep f) else goto_pc self (WaitReturned f false).

Definition Wait_returned (self : Z) (f : WaitFrame) (timed_out : bool) : M MConfig unit :=
  ExclusiveLock self (CallWait f timed_out).

(** The mutex is locked again. *)
Definition Wait_leave (self : Z) (f : WaitFrame) (timed_out : bool) : M MConfig unit :=
  d ← get_cond (cond_ f);
  checkM (0 <=? waiters_ d) ;;
  update_cond (cond_ f) (fun d => with_waiters (waiters_ d - 1) d) ;;
  m ← gets mutex;
  checkM (0 <=? num_contenders_ m) ;;
  update_mutex (fun m => with_recursion (old_recursion_count f) (with_contenders (s32 (num_contenders_ m - 1)) m)) ;;
  update_mthread self (fun th => with_returned timed_out (at_pc Inside th)).

Definition CondSignal (self cv : Z) : M MConfig unit :=
  AssertHeld self ;;
  d ← get_cond cv;
  if 0 <? waiters_ d then update_cond cv next_sequence ;; goto_pc self (SignalWake cv) else mret tt.

Definition Signal_wake (ch : MChoice) (self cv : Z) : M MConfig unit :=
  futex_wake (AtSequence cv) (pick ch) ;; goto_pc self Inside.

(** Its check is on the owner alone. *)
Definition CondBroadcast (self cv : Z) : M MConfig unit :=
  m ← gets mutex;
  checkM (exclusive_owner_ m =? self) ;;
  d ← get_cond cv;
  if 0 <? waiters_ d then update_cond cv next_sequence ;; goto_pc self (BroadcastLoad cv) else mret tt.

Definition Broadcast_load (self cv : Z) : M MConfig unit :=
  d ← get_cond cv; goto_pc self (BroadcastRequeue cv (sequence_ d)).

Definition Broadcast_requeue (self cv cur : Z) : M MConfig unit :=
  done ← futex_cmp_requeue cv cur;
  if (done : bool) then goto_pc self Inside else goto_pc self (BroadcastLoad cv).

(** ** The system *)

Inductive MutexOp :=
| OpLock | OpTryLock | OpUnlock
| OpWait (cv : Z) | OpWaitHoldingLocks (cv : Z) | OpTimedWait (cv : Z)
| OpSignal (cv : Z) | OpBroadcast (cv : Z).

Definition run_op (self : Z) (op : MutexOp) : M MConfig unit :=
  match op with
  | OpLock => ExclusiveLock self CallLock
  | OpTryLock => ExclusiveTryLock self
  | OpUnlock => ExclusiveUnlock self None
  | OpWait cv => CondWait self cv
  | OpWaitHoldingLocks cv => WaitHoldingLocks self cv false
  | OpTimedWait cv => TimedWait self cv
  | OpSignal cv => CondSignal self cv
  | OpBroadcast cv => CondBroadcast self cv
  end.

Definition run_mpc (ch : MChoice) (self : Z) (p : MutexPC) : M MConfig unit :=
  match p with
  | LockLoad k => ExclusiveLock_load self k
  | LockCas k => ExclusiveLock_cas ch self k
  | LockContend k => ExclusiveLock_contend self k
  | LockWait k => ExclusiveLock_wait self k
  | LockWoken k => ExclusiveLock_woken self k
  | LockAcquired k => ExclusiveLock_acquired self k
  | TryLoad => ExclusiveTryLock_load self
  | TryCas => ExclusiveTryLock_cas ch self
  | UnlockLoad f => ExclusiveUnlock_load self f
  | UnlockCas f => ExclusiveUnlock_cas ch self f
  | UnlockRead f => ExclusiveUnlock_read self f
  | UnlockWake f => ExclusiveUnlock_wake ch self f
  | WaitFutex f => Wait_futex self f
  | WaitReturned f timed_out => Wait_returned self f timed_out
  | WaitLeave f timed_out => Wait_leave self f timed_out
  | SignalWake cv => Signal_wake ch self cv
  | BroadcastLoad cv => Broadcast_load self cv
  | BroadcastRequeue cv cur => Broadcast_requeue self cv cur
  | Outside | Inside | LockAsleep _ | WaitAsleep _ | WaitRequeued _ => mret tt
  end.

Inductive MAction :=
| Call (t : Z) (op : MutexOp)
| Go (t : Z) (ch : MChoice)
| Eintr (t : Z)                   (** [FUTEX_WAIT] fails with [EINTR] *)
| Etimedout (t : Z)               (** or, in a timed wait, with [ETIMEDOUT] *)
| OtherLocks (t : Z) (h : gmap Z Z). (** the thread takes and releases other mutexes *)

Definition in_client (p : MutexPC) : bool := match p with Outside | Inside => true | _ => false end.
Definition is_timed (p : MutexPC) : bool := match p with WaitAsleep f | WaitRequeued f => timed f | _ => false end.

(** A step of the system; nothing where it is not possible. *)
Definition mstep (a : MAction) (c : MConfig) : option (outcome MConfig) :=
  let run t (possible : MThread -> bool) (m : MThread -> M MConfig unit) :=
    match mthreads c !! t with
    | Some th => if possible th then Some (match m th c with Ok (_, c') => Ok c' | Fault f => Fault f end) else None
    | None => None
    end in
  match a with
  | Call t op => run t (fun th => in_client (mpc th)) (fun _ => run_op t op)
  | Go t ch => run t (fun th => negb (in_client (mpc th)) && negb (asleep (mpc th))) (fun th => run_mpc ch t (mpc th))
  | Eintr t => run t (fun th => asleep (mpc th)) (fun th => goto_pc t (futex_returns false (mpc th)))
  | Etimedout t => run t (fun th => is_timed (mpc th)) (fun th => goto_pc t (futex_returns true (mpc th)))
  | OtherLocks t h =>
      run t (fun th => in_client (mpc th) && held_possible h && Bool.eqb (registered h) (registered (held_mutexes th)))
            (fun _ => update_mthread t (with_held h))
  end.

(** The calls a client may make: lock in the order of the levels, a mutex that
    is not held unless it is recursive; the others only with the mutex; wait
    without other mutexes, or such that the mutex can be locked again. *)
Definition call_ok (op : MutexOp) (th : MThread) (c : MConfig) : bool :=
  let known cv := bool_decide (is_Some (conds c !! cv)) in
  match op, mpc th with
  | (OpLock | OpTryLock), Outside => levels_ok (held_mutexes th)
  | (OpLock | OpTryLock), Inside => recursive_
  | OpUnlock, Inside => true
  | (OpWait cv | OpTimedWait cv), Inside => known cv && alone (held_mutexes th)
  | OpWaitHoldingLocks cv, Inside => known cv && levels_ok (delete level_ (held_mutexes th))
  | (OpSignal cv | OpBroadcast cv), Inside => known cv
  | _, _ => false
  end.

Definition allowed (a : MAction) (c : MConfig) : bool :=
  match a with
  | Call t op => match mthreads c !! t with Some th => call_ok op th c | None => false end
  | _ => true
  end.

Definition mcstep (c c' : MConfig) : Prop := exists a, allowed a c = true /\ mstep a c = Some (Ok c').

(** A new mutex and new condition variables; threads that hold other mutexes. *)
Record minitial (c : MConfig) : Prop := {
  mi_mutex : mutex c = mkMutex 0 0 0 0;
  mi_conds : forall cv d, conds c !! cv = Some d -> d = mkCond 0 0 0;
  mi_ids : forall t th, mthreads c !! t = Some th -> 0 < t;
  mi_threads : forall t th, mthreads c !! t = Some th -> 
    mpc th = Outside /\ held_possible (held_mutexes th) = true /\ registered (held_mutexes th) = false;
}.

Definition mreachable (c : MConfig) : Prop := exists c0, minitial c0 /\ rtc mcstep c0 c.

End Mutex.
