(* ===== verification/MutexInvariant.v ===== *)
(** * The invariant of the mutex model

    What holds of the mutex, its condition variables and every thread's position
    in every reachable state, and that every step keeps it. *)

From S2P Require Import Prelude Mutex.

(** ** Executing the steps *)

Definition move (c : MConfig) (t : Z) (th : MThread) (m : Mutex) (cs : gmap Z ConditionVariable) : MConfig :=
  mkMConfig m cs (<[t := th]> (mthreads c)).

Lemma get_mthread_ok t th c : mthreads c !! t = Some th -> get_mthread t c = Ok (th, c).
Proof. intros Hth. unfold get_mthread. rewrite bind_gets. by rewrite Hth. Qed.

Lemma update_mthread_ok t f th c : mthreads c !! t = Some th -> update_mthread t f c = Ok (tt, move c t (f th) (mutex c) (conds c)).
Proof. intros Hth. unfold update_mthread. by rewrite (bind_ok _ _ _ _ _ (get_mthread_ok t th c Hth)). Qed.

Lemma get_cond_ok cv d c : conds c !! cv = Some d -> get_cond cv c = Ok (d, c).
Proof. intros Hd. unfold get_cond. rewrite bind_gets. by rewrite Hd. Qed.

Lemma update_cond_ok cv f d c :
  conds c !! cv = Some d -> update_cond cv f c = Ok (tt, mkMConfig (mutex c) (<[cv := f d]> (conds c)) (mthreads c)).
Proof. intros Hd. unfold update_cond. by rewrite (bind_ok _ _ _ _ _ (get_cond_ok cv d c Hd)). Qed.

Lemma move_lookup c t th m cs : mthreads (move c t th m cs) !! t = Some th.
Proof. apply lookup_insert_eq. Qed.

Lemma move_lookup_ne c t u th m cs : u <> t -> mthreads (move c t th m cs) !! u = mthreads c !! u.
Proof. intros Hne. by apply lookup_insert_ne. Qed.

Lemma move_move c t th th' m m' cs cs' : move (move c t th m cs) t th' m' cs' = move c t th' m' cs'.
Proof. unfold move. cbn. by rewrite insert_insert_eq. Qed.

Lemma move_self c t th : mthreads c !! t = Some th -> move c t th (mutex c) (conds c) = c.
Proof. intros Hth. unfold move. rewrite insert_id by done. by destruct c. Qed.

(** ** Where a thread is *)

(** It has changed [state_] to 1 and not back. *)
Definition owns (p : MutexPC) : bool :=
  match p with
  | Inside | LockAcquired _ | UnlockLoad _ | UnlockCas _ | WaitLeave _ _
  | SignalWake _ | BroadcastLoad _ | BroadcastRequeue _ _ => true
  | _ => false
  end.

(** [exclusive_owner_] and the mutexes it holds say so. *)
Definition named (p : MutexPC) : bool :=
  match p with
  | Inside | WaitLeave _ _ | SignalWake _ | BroadcastLoad _ | BroadcastRequeue _ _ => true
  | _ => false
  end.

(** The wait it is in. *)
Definition frame_of (p : MutexPC) : option WaitFrame :=
  match p with
  | LockLoad k | LockCas k | LockContend k | LockWait k | LockAsleep k | LockWoken k | LockAcquired k =>
      match k with CallWait f _ => Some f | _ => None end
  | UnlockLoad f | UnlockCas f | UnlockRead f | UnlockWake f => f
  | WaitFutex f | WaitAsleep f | WaitRequeued f | WaitReturned f _ | WaitLeave f _ => Some f
  | _ => None
  end.

(** What it adds to [num_contenders_], and to the [num_waiters_] of [cv]. *)
Definition contend (p : MutexPC) : Z :=
  (match p with LockWait _ | LockAsleep _ | LockWoken _ => 1 | _ => 0 end) + (match frame_of p with Some _ => 1 | None => 0 end).

Definition waits_on (cv : Z) (p : MutexPC) : Z :=
  match frame_of p with Some f => if cond_ f =? cv then 1 else 0 | None => 0 end.

(** It will register the mutex as locked. *)
Definition locking (p : MutexPC) : bool :=
  match p with
  | LockLoad _ | LockCas _ | LockContend _ | LockWait _ | LockAsleep _ | LockWoken _ | LockAcquired _ | TryLoad | TryCas => true
  | WaitLeave _ _ => false
  | _ => bool_decide (is_Some (frame_of p))
  end.

(** It is on its way to take the mutex, or to wake a thread that takes it. *)
Definition active (p : MutexPC) : bool :=
  match p with
  | LockLoad _ | LockCas _ | LockContend _ | LockWait _ | LockWoken _ | WaitReturned _ _ | UnlockRead _ | UnlockWake _ => true
  | _ => false
  end.

(** The condition variable it notifies. *)
Definition notifies (p : MutexPC) : option Z :=
  match p with SignalWake cv | BroadcastLoad cv | BroadcastRequeue cv _ => Some cv | _ => None end.

Section Invariant.
Context `{K : FutexKernel} {KL : FutexKernelLaws K}.
Context `{P : MutexParams}.

(** ** The invariant *)

(** The fields of the mutex, when nobody and when [t] at [p] owns it. *)
Definition free_view (m : Mutex) : Prop := state_ m = 0 /\ exclusive_owner_ m = 0 /\ recursion_count_ m = 0.

Definition owner_view (m : Mutex) (t : Z) (p : MutexPC) : Prop :=
  state_ m = 1 /\
  (if named p then exclusive_owner_ m = t /\ (recursive_ = false -> recursion_count_ m = 1)
   else recursion_count_ m = 0 /\
     (exclusive_owner_ m = 0 \/ exclusive_owner_ m = t /\ exists f, p = UnlockLoad f)).

Definition mutex_view (o : option Z) (m : Mutex) (ts : gmap Z MThread) : Prop :=
  match o with
  | None => free_view m
  | Some t => exists th, ts !! t = Some th /\ owner_view m t (mpc th)
  end.

Definition frame_ok (cs : gmap Z ConditionVariable) (f : WaitFrame) : Prop :=
  (exists d, cs !! cond_ f = Some d /\ seen f <= signals d) /\
  cur_sequence f = s32 (seen f) /\ (recursive_ = false -> old_recursion_count f = 1).

Record mthread_ok (cs : gmap Z ConditionVariable) (t : Z) (th : MThread) : Prop := {
  mo_id : 0 < t;
  mo_monitor : held_possible (held_mutexes th) = true;
  mo_held : registered (held_mutexes th) = named (mpc th) && negb (level_ =? kMonitorLock);
  mo_levels : locking (mpc th) = true -> levels_ok (held_mutexes th) = true;
  mo_frame : forall f, frame_of (mpc th) = Some f -> frame_ok cs f;
  mo_notify : forall cv, notifies (mpc th) = Some cv -> is_Some (cs !! cv);
  mo_requeue : forall cv cur d, mpc th = BroadcastRequeue cv cur -> cs !! cv = Some d -> cur = sequence_ d;
}.

Definition cond_ok (cs : gmap Z ConditionVariable) (ts : gmap Z MThread) : Prop :=
  forall cv d, cs !! cv = Some d ->
    sequence_ d = s32 (signals d) /\ waiters_ d = total (fun th => waits_on cv (mpc th)) ts.

(** While a thread notifies, those that wait have not seen the signal. *)
Definition notify_ok (cs : gmap Z ConditionVariable) (ts : gmap Z MThread) : Prop :=
  forall t th cv d u thu f, ts !! t = Some th -> notifies (mpc th) = Some cv -> cs !! cv = Some d ->
    ts !! u = Some thu -> frame_of (mpc thu) = Some f -> cond_ f = cv -> seen f < signals d.

Record Core (c : MConfig) (o : option Z) : Prop := {
  co_owns : forall t th, mthreads c !! t = Some th -> owns (mpc th) = bool_decide (o = Some t);
  co_mutex : mutex_view o (mutex c) (mthreads c);
  co_contenders : num_contenders_ (mutex c) = s32 (total (fun th => contend (mpc th)) (mthreads c));
  co_conds : cond_ok (conds c) (mthreads c);
  co_threads : forall t th, mthreads c !! t = Some th -> mthread_ok (conds c) t th;
  co_notify : notify_ok (conds c) (mthreads c);
}.

(** No wake-up is lost: when the mutex is free and threads sleep, one is on its
    way. *)
Definition wake_ok (c : MConfig) : Prop :=
  state_ (mutex c) = 0 -> forall t th, mthreads c !! t = Some th -> sleeps_at AtState (mpc th) = true ->
  exists u thu, mthreads c !! u = Some thu /\ active (mpc thu) = true.

(** The counters of an [int] suffice for the threads. *)
Definition few (c : MConfig) : Prop := 2 * Z.of_nat (size (mthreads c)) < 2 ^ 31.


(** ** One thread moves *)

(** How a step of [t] may change the owner and the fields it guards. *)
Definition owner_change (m m' : Mutex) (t : Z) (p p' : MutexPC) : Prop :=
  if owns p' then owner_view m' t p' /\ (owns p = true \/ state_ m = 0)
  else if owns p then free_view m'
  else state_ m' = state_ m /\ exclusive_owner_ m' = exclusive_owner_ m /\ recursion_count_ m' = recursion_count_ m.

Definition new_owner (t : Z) (p p' : MutexPC) (o : option Z) : option Z :=
  if owns p' then Some t else if owns p then None else o.

Lemma owner_is c o t th : Core c o -> mthreads c !! t = Some th -> owns (mpc th) = true -> o = Some t.
Proof. intros HC Hth Ho. rewrite (co_owns c o HC t th Hth) in Ho. by apply bool_decide_eq_true in Ho. Qed.

Lemma owner_is_not c o t th : Core c o -> mthreads c !! t = Some th -> owns (mpc th) = false -> o <> Some t.
Proof. intros HC Hth Ho. rewrite (co_owns c o HC t th Hth) in Ho. by apply bool_decide_eq_false in Ho. Qed.

Lemma free_state c o : Core c o -> state_ (mutex c) = 0 -> o = None.
Proof.
  intros HC H0. pose proof (co_mutex c o HC) as Hm. destruct o as [t|]; [|done].
  destruct Hm as (th & _ & H1 & _). lia.
Qed.

Lemma owner_move c o t th th' m' cs' :
  Core c o -> mthreads c !! t = Some th -> owner_change (mutex c) m' t (mpc th) (mpc th') ->
  let c' := move c t th' m' cs' in
  let o' := new_owner t (mpc th) (mpc th') o in
  (forall u thu, mthreads c' !! u = Some thu -> owns (mpc thu) = bool_decide (o' = Some u)) /\
  mutex_view o' m' (mthreads c').
Proof.
  intros HC Hth Hch. cbn zeta. unfold owner_change, new_owner in *. split.
  - intros u thu Hu. destruct (decide (u = t)) as [->|Hne].
    + rewrite move_lookup in Hu. injection Hu as <-. destruct (owns (mpc th')) eqn:E'; [by rewrite bool_decide_true|].
      destruct (owns (mpc th)) eqn:E; [done|]. symmetry. apply bool_decide_false. by apply (owner_is_not c o t th).
    + rewrite move_lookup_ne in Hu by done. rewrite (co_owns c o HC u thu Hu).
      destruct (owns (mpc th')).
      * destruct Hch as [_ [Ho|H0]].
        -- pose proof (owner_is c o t th HC Hth Ho) as ->. done.
        -- pose proof (free_state c o HC H0) as ->. symmetry. apply bool_decide_ext. naive_solver.
      * destruct (owns (mpc th)) eqn:E; [|done]. pose proof (owner_is c o t th HC Hth E) as ->.
        apply bool_decide_ext. naive_solver.
  - destruct (owns (mpc th')) eqn:E'.
    + cbn. exists th'. split; [apply lookup_insert_eq|]. apply Hch.
    + destruct (owns (mpc th)) eqn:E; [done|]. destruct Hch as (H1 & H2 & H3).
      pose proof (co_mutex c o HC) as Hm. destruct o as [u|]; cbn in *.
      * destruct Hm as (thu & Hu & Hv). pose proof (owner_is_not c _ t th HC Hth E) as Hne.
        exists thu. split; [rewrite lookup_insert_ne; [done|congruence]|].
        unfold owner_view in *. by rewrite H1, H2, H3.
      * unfold free_view in *. by rewrite H1, H2, H3.
Qed.

Lemma s32_s32_add x y : s32 (s32 x + y) = s32 (x + y).
Proof.
  unfold s32. f_equal. replace ((x + 2 ^ 31) mod 2 ^ 32 - 2 ^ 31 + y + 2 ^ 31) with ((x + 2 ^ 31) mod 2 ^ 32 + y) by lia.
  rewrite Zplus_mod_idemp_l. f_equal. lia.
Qed.

Lemma contenders_move c o t th th' m' cs' :
  Core c o -> mthreads c !! t = Some th ->
  num_contenders_ m' = s32 (num_contenders_ (mutex c) + (contend (mpc th') - contend (mpc th))) ->
  num_contenders_ m' = s32 (total (fun th => contend (mpc th)) (mthreads (move c t th' m' cs'))).
Proof.
  intros HC Hth ->. rewrite (co_contenders c o HC), s32_s32_add. unfold move; cbn.
  rewrite (total_insert _ t th th') by done. f_equal. lia.
Qed.

(** The usual step: the wait it is in does not change, and it does not start to
    notify. *)
Record moves (c : MConfig) (t : Z) (th th' : MThread) (m' : Mutex) : Prop := {
  mv_thread : mthreads c !! t = Some th;
  mv_owner : owner_change (mutex c) m' t (mpc th) (mpc th');
  mv_contend : contend (mpc th') = contend (mpc th) /\ num_contenders_ m' = num_contenders_ (mutex c) \/
    num_contenders_ m' = s32 (num_contenders_ (mutex c) + (contend (mpc th') - contend (mpc th)));
  mv_frame : frame_of (mpc th') = frame_of (mpc th);
  mv_notify : notifies (mpc th') = None \/ notifies (mpc th') = notifies (mpc th);
  mv_requeue : forall cv cur d, mpc th' = BroadcastRequeue cv cur -> conds c !! cv = Some d -> cur = sequence_ d;
  mv_monitor : held_possible (held_mutexes th') = true;
  mv_held : registered (held_mutexes th') = named (mpc th') && negb (level_ =? kMonitorLock);
  mv_levels : locking (mpc th') = true -> levels_ok (held_mutexes th') = true;
}.


Lemma core_move c o t th th' m' :
  Core c o -> moves c t th th' m' -> Core (move c t th' m' (conds c)) (new_owner t (mpc th) (mpc th') o).
Proof.
  intros HC Hm. pose proof (mv_thread _ _ _ _ _ Hm) as Hth. pose proof (co_threads c o HC t th Hth) as Ht.
  destruct (owner_move c o t th th' m' (conds c) HC Hth (mv_owner _ _ _ _ _ Hm)) as [Hown Hview].
  assert (Hfr : forall cv, waits_on cv (mpc th') = waits_on cv (mpc th)) by (intros; unfold waits_on; by rewrite (mv_frame _ _ _ _ _ Hm)).
  split; [exact Hown|exact Hview| | | |].
  - apply (contenders_move c o t th); [done|done|]. destruct (mv_contend _ _ _ _ _ Hm) as [[-> Hn]|Hn]; [|done].
    rewrite Z.sub_diag, Z.add_0_r. rewrite Hn, (co_contenders c o HC). symmetry. apply s32_small, s32_range.
  - intros cv d Hd. destruct (co_conds c o HC cv d Hd) as [H1 H2]. split; [done|].
    unfold move; cbn [mthreads]. rewrite (total_insert _ t th th') by done. rewrite Hfr. lia.
  - intros u thu Hu. destruct (decide (u = t)) as [->|Hne].
    + rewrite move_lookup in Hu. injection Hu as <-. destruct Hm, Ht. constructor; cbn [conds move]; try done.
      * intros f. rewrite mv_frame0. apply mo_frame0.
      * intros cv Hcv. apply mo_notify0. destruct mv_notify0 as [Hn|Hn]; congruence.
    + rewrite move_lookup_ne in Hu by done. apply (co_threads c o HC u thu Hu).
  - assert (Hback : forall u thu, mthreads (move c t th' m' (conds c)) !! u = Some thu -> exists thu0, mthreads c !! u = Some thu0 /\
      frame_of (mpc thu) = frame_of (mpc thu0) /\ (notifies (mpc thu) = None \/ notifies (mpc thu) = notifies (mpc thu0))).
    { intros u thu Hu. destruct (decide (u = t)) as [->|Hne].
      - rewrite move_lookup in Hu. injection Hu as <-. exists th. destruct Hm. done.
      - rewrite move_lookup_ne in Hu by done. eauto 6. }
    intros a tha cv d u thu f Ha Hn Hd Hu Hf Hcv. apply Hback in Ha as (tha0 & Ha & _ & Hna). apply Hback in Hu as (thu0 & Hu & Hfu & _).
    eapply (co_notify c o HC); [apply Ha| |exact Hd|apply Hu| |exact Hcv]; [destruct Hna; congruence|congruence].
Qed.

(** A step that does not lose a wake-up: the mutex is held afterwards, the thread
    is on its way, it was not and does not sleep, another one is, or nobody else
    sleeps. *)
Definition wake_kept (c : MConfig) (t : Z) (p p' : MutexPC) (m' : Mutex) : Prop :=
  state_ m' <> 0 \/ active p' = true \/
  (state_ m' = state_ (mutex c) /\ active p = false /\ sleeps_at AtState p' = false) \/
  (exists u thu, u <> t /\ mthreads c !! u = Some thu /\ active (mpc thu) = true) \/
  (sleeps_at AtState p' = false /\
   forall u thu, u <> t -> mthreads c !! u = Some thu -> sleeps_at AtState (mpc thu) = false).

Lemma wake_move c t th th' m' cs' :
  wake_ok c -> mthreads c !! t = Some th ->
  wake_kept c t (mpc th) (mpc th') m' ->
  wake_ok (move c t th' m' cs').
Proof.
  intros HW Hth Hcase H0 u thu Hu Hs. cbn [move mutex] in H0.
  destruct Hcase as [H|[H|[(H1 & H2 & H3)|[(a & tha & Hne & Ha & Hact)|[H3 Hno]]]]]; [done| | | |].
  - exists t, th'. split; [apply move_lookup|done].
  - destruct (decide (u = t)) as [->|Hne]; [rewrite move_lookup in Hu; congruence|]. rewrite move_lookup_ne in Hu by done.
    rewrite H1 in H0. destruct (HW H0 u thu Hu Hs) as (a & tha & Ha & Hact).
    exists a, tha. split; [|done]. rewrite move_lookup_ne; [done|congruence].
  - exists a, tha. split; [|done]. by rewrite move_lookup_ne.
  - destruct (decide (u = t)) as [->|Hne]; [rewrite move_lookup in Hu; congruence|]. rewrite move_lookup_ne in Hu by done.
    by rewrite (Hno u thu Hne Hu) in Hs.
Qed.

(** The owner changes a condition variable. *)
Record cond_moves (c : MConfig) (t : Z) (th th' : MThread) (m' : Mutex) (cv : Z) (d d' : ConditionVariable) : Prop := {
  cm_thread : mthreads c !! t = Some th;
  cm_owns : owns (mpc th) = true;
  cm_owner : owns (mpc th') = true /\ owner_view m' t (mpc th');
  cm_contend : num_contenders_ m' = s32 (num_contenders_ (mutex c) + (contend (mpc th') - contend (mpc th)));
  cm_cond : conds c !! cv = Some d;
  cm_sequence : sequence_ d' = s32 (signals d') /\ signals d <= signals d';
  cm_waiters : waiters_ d' = waiters_ d + (waits_on cv (mpc th') - waits_on cv (mpc th));
  cm_other : forall cv', cv' <> cv -> waits_on cv' (mpc th') = waits_on cv' (mpc th);
  cm_local : mthread_ok (<[cv := d']> (conds c)) t th';
  cm_notify : forall cv', notifies (mpc th') = Some cv' -> cv' = cv /\ signals d < signals d' /\ frame_of (mpc th') = None;
}.

Lemma only_owner_notifies c o t th u thu :
  Core c o -> mthreads c !! t = Some th -> owns (mpc th) = true -> mthreads c !! u = Some thu -> u <> t -> notifies (mpc thu) = None.
Proof.
  intros HC Hth Ho Hu Hne. pose proof (owner_is c o t th HC Hth Ho) as ->.
  pose proof (co_owns c _ HC u thu Hu) as Hou. rewrite bool_decide_false in Hou by congruence. by destruct (mpc thu).
Qed.

Lemma core_cond_move c o t th th' m' cv d d' :
  Core c o -> cond_moves c t th th' m' cv d d' -> Core (move c t th' m' (<[cv := d']> (conds c))) (Some t).
Proof.
  intros HC []. pose proof (owner_is c o t th HC cm_thread0 cm_owns0) as ->.
  destruct (owner_move c _ t th th' m' (<[cv := d']> (conds c)) HC cm_thread0) as [Hown Hview].
  { unfold owner_change. destruct cm_owner0 as [-> ?]. auto. }
  unfold new_owner in *. rewrite (proj1 cm_owner0) in *.
  split; [exact Hown|exact Hview|by eapply contenders_move| | |].
  - intros cv' e He. unfold move; cbn [mthreads]. rewrite (total_insert _ t th th') by done.
    cbn [conds move] in He. destruct (decide (cv' = cv)) as [->|Hne].
    + rewrite lookup_insert_eq in He. injection He as <-. destruct (co_conds c _ HC cv d cm_cond0) as [_ Hw].
      split; [apply cm_sequence0|]. lia.
    + rewrite lookup_insert_ne in He by done. destruct (co_conds c _ HC cv' e He) as [H1 H2]. split; [done|].
      rewrite (cm_other0 cv' Hne). lia.
  - intros u thu Hu. destruct (decide (u = t)) as [->|Hne].
    + rewrite move_lookup in Hu. by injection Hu as <-.
    + rewrite move_lookup_ne in Hu by done. pose proof (only_owner_notifies c _ t th u thu HC cm_thread0 cm_owns0 Hu Hne) as Hno.
      destruct (co_threads c _ HC u thu Hu). constructor; try done; cbn [conds move].
      * intros f Hf. destruct (mo_frame0 f Hf) as [(e & He & Hs) Hr]. split; [|done].
        destruct (decide (cond_ f = cv)) as [Heq|Hne'].
        -- exists d'. rewrite Heq, lookup_insert_eq. split; [done|]. assert (e = d) as -> by congruence. lia.
        -- exists e. by rewrite lookup_insert_ne.
      * intros cv' Hcv'. congruence.
      * intros cv' cur e Hp. by rewrite Hp in Hno.
  - intros a tha cv' e u thu f Ha Hn He Hu Hf Hcv. cbn [conds move] in He. destruct (decide (a = t)) as [->|Hne].
    + rewrite move_lookup in Ha. injection Ha as <-. destruct (cm_notify0 cv' Hn) as (-> & Hlt & Hnf).
      rewrite lookup_insert_eq in He. injection He as <-.
      destruct (decide (u = t)) as [->|Hu']; [rewrite move_lookup in Hu; congruence|].
      rewrite move_lookup_ne in Hu by done. destruct (mo_frame _ _ _ (co_threads c _ HC u thu Hu) f Hf) as [(e & He & Hs) _].
      assert (e = d) as -> by congruence. lia.
    + rewrite move_lookup_ne in Ha by done. by rewrite (only_owner_notifies c _ t th a tha HC cm_thread0 cm_owns0 Ha Hne) in Hn.
Qed.

(** ** What a step needs *)

Definition Inv (c : MConfig) : Prop := (exists o, Core c o) /\ wake_ok c.

(** A step that moves one thread. *)
Lemma inv_move c t th th' m' :
  Inv c -> moves c t th th' m' ->
  wake_kept c t (mpc th) (mpc th') m' ->
  Inv (move c t th' m' (conds c)).
Proof.
  intros [[o HC] HW] Hm Hcase. split; [eexists; by apply core_move|]. eapply wake_move; [done|apply Hm|done].
Qed.


Lemma inv_cond_move c t th th' m' cv d d' :
  Inv c -> cond_moves c t th th' m' cv d d' -> Inv (move c t th' m' (<[cv := d']> (conds c))).
Proof.
  intros [[o HC] HW] Hm. split; [eexists; by eapply core_cond_move|].
  intros H0. destruct Hm as [_ _ [_ [H1 _]]]. cbn in H0. lia.
Qed.

Definition safe_run (m : M MConfig unit) (c : MConfig) : Prop := exists c', m c = Ok (tt, c') /\ Inv c'.

Lemma inv_thread c t th : Inv c -> mthreads c !! t = Some th -> mthread_ok (conds c) t th.
Proof. intros [[o HC] _] Hth. apply (co_threads c o HC t th Hth). Qed.

Lemma inv_owner c t th : Inv c -> mthreads c !! t = Some th -> owns (mpc th) = true -> owner_view (mutex c) t (mpc th).
Proof.
  intros [[o HC] _] Hth Ho. pose proof (owner_is c o t th HC Hth Ho) as ->.
  destruct (co_mutex c _ HC) as (th' & Hth' & Hv). congruence.
Qed.

Lemma inv_state c : Inv c -> state_ (mutex c) = 0 \/ state_ (mutex c) = 1.
Proof. intros [[[t|] HC] _]; pose proof (co_mutex c _ HC) as Hm; [destruct Hm as (th & _ & H & _); by right|left; apply Hm]. Qed.

(** Only the owner is named. *)
Lemma inv_named c t th : Inv c -> mthreads c !! t = Some th -> exclusive_owner_ (mutex c) = t ->
  named (mpc th) = true \/ exists f, mpc th = UnlockLoad f.
Proof.
  intros HI Hth He. pose proof (mo_id _ _ _ (inv_thread c t th HI Hth)) as Hid. destruct HI as [[[u|] HC] _].
  - destruct (co_mutex c _ HC) as (thu & Hu & _ & Hv). destruct (named (mpc thu)) eqn:En.
    + destruct Hv as [Hv _]. assert (u = t) as -> by lia. left. congruence.
    + destruct Hv as [_ [Hv|[Hv Hf]]]; [lia|]. assert (u = t) as -> by lia. right. assert (thu = th) by congruence. by subst.
  - destruct (co_mutex c _ HC) as (_ & H0 & _). lia.
Qed.

(** A step to [p'] that changes the mutex to [m']. *)
Lemma step_to c t th p' m' :
  Inv c -> mthreads c !! t = Some th -> owner_change (mutex c) m' t (mpc th) p' ->
  (contend p' = contend (mpc th) /\ num_contenders_ m' = num_contenders_ (mutex c) \/
   num_contenders_ m' = s32 (num_contenders_ (mutex c) + (contend p' - contend (mpc th)))) ->
  frame_of p' = frame_of (mpc th) -> named p' = named (mpc th) ->
  (locking p' = true -> locking (mpc th) = true) ->
  (notifies p' = None \/ notifies p' = notifies (mpc th)) ->
  (forall cv cur d, p' = BroadcastRequeue cv cur -> conds c !! cv = Some d -> cur = sequence_ d) ->
  wake_kept c t (mpc th) p' m' ->
  Inv (move c t (at_pc p' th) m' (conds c)).
Proof.
  intros HI Hth Ho Hc Hf Hn Hl Hno Hr Hw. pose proof (inv_thread c t th HI Hth) as [].
  apply (inv_move c t th); [done| |done]. constructor; cbn; try done; [by rewrite Hn|auto].
Qed.

Lemma run_goto c t th p' : mthreads c !! t = Some th -> goto_pc t p' c = Ok (tt, move c t (at_pc p' th) (mutex c) (conds c)).
Proof. apply update_mthread_ok. Qed.

Lemma run_goto_mutex c t th p' g : mthreads c !! t = Some th ->
  (update_mutex g ;; goto_pc t p') c = Ok (tt, move c t (at_pc p' th) (g (mutex c)) (conds c)).
Proof. intros Hth. unfold update_mutex. rewrite bind_modify. by rewrite (run_goto _ t th). Qed.

End Invariant.

(** The conditions of [step_to] that are computed. *)
Ltac step_to :=
  match goal with Hth : mthreads ?c !! ?t = Some ?th |- Inv (move ?c ?t (at_pc _ ?th) _ _) =>
    apply (step_to c t th); [done|done|..] end;
  repeat match goal with H : mpc _ = _ |- _ => rewrite H in * end; cbn in *; try done; unfold wake_kept; cbn; auto 10.
