(* ===== verification/MutexSteps.v ===== *)
(** * Every step of the mutex model keeps the invariant *)

From S2P Require Import Prelude Mutex MutexInvariant.

Section Steps.
Context `{K : FutexKernel} {KL : FutexKernelLaws K}.
Context `{P : MutexParams}.

(** ** The loops of [ExclusiveLock], [ExclusiveTryLock] and [ExclusiveUnlock] *)

Lemma lock_load_safe c t th k :
  Inv c -> mthreads c !! t = Some th -> mpc th = LockLoad k -> safe_run (ExclusiveLock_load t k) c.
Proof.
  intros HI Hth Hp. unfold safe_run, ExclusiveLock_load. rewrite bind_gets.
  case_match; rewrite (run_goto _ t th) by done; eexists; (split; [done|]); step_to.
Qed.

Lemma cas_state_cases b x y c :
  (state_ (mutex c) = x /\ cas_state b x y c = Ok (true, mkMConfig (with_state y (mutex c)) (conds c) (mthreads c))) \/
  cas_state b x y c = Ok (false, c).
Proof.
  unfold cas_state. rewrite bind_gets. destruct (negb b && (state_ (mutex c) =? x)) eqn:E; [left|by right].
  apply andb_true_iff in E as [_ E%Z.eqb_eq]. done.
Qed.

Lemma cas_state_succeeds x y c : state_ (mutex c) = x ->
  cas_state false x y c = Ok (true, mkMConfig (with_state y (mutex c)) (conds c) (mthreads c)).
Proof. intros <-. unfold cas_state. rewrite bind_gets. by rewrite Z.eqb_refl. Qed.

(** The mutex is taken. *)
Lemma acquire_view c t k : Inv c -> state_ (mutex c) = 0 -> owner_view (with_state 1 (mutex c)) t (LockAcquired k).
Proof.
  intros [[o HC] _] H0. pose proof (free_state c o HC H0) as ->. destruct (co_mutex c _ HC) as (_ & H2 & H3).
  split; [done|]. cbn. auto.
Qed.

Lemma lock_cas_safe ch c t th k :
  Inv c -> mthreads c !! t = Some th -> mpc th = LockCas k -> safe_run (ExclusiveLock_cas ch t k) c.
Proof.
  intros HI Hth Hp. unfold safe_run, ExclusiveLock_cas.
  destruct (cas_state_cases (spurious_fail ch) 0 1 c) as [[H0 Hc]|Hc]; rewrite (bind_ok _ _ _ _ _ Hc), (run_goto _ t th) by done;
    eexists; (split; [done|]).
  - change (Inv (move c t (at_pc (LockAcquired k) th) (with_state 1 (mutex c)) (conds c))). step_to.
    split; [by apply acquire_view|by right].
  - step_to.
Qed.

Lemma lock_contend_safe c t th k :
  Inv c -> mthreads c !! t = Some th -> mpc th = LockContend k -> safe_run (ExclusiveLock_contend t k) c.
Proof.
  intros HI Hth Hp. unfold safe_run, ExclusiveLock_contend. rewrite (run_goto_mutex _ t th) by done.
  eexists; (split; [done|]); step_to. right. unfold contend; cbn. f_equal. lia.
Qed.

Lemma lock_wait_safe c t th k :
  Inv c -> mthreads c !! t = Some th -> mpc th = LockWait k -> safe_run (ExclusiveLock_wait t k) c.
Proof.
  intros HI Hth Hp. unfold safe_run, ExclusiveLock_wait. rewrite bind_gets.
  case_match eqn:E; rewrite (run_goto _ t th) by done; eexists; (split; [done|]); step_to. left. lia.
Qed.

Lemma lock_woken_safe c t th k :
  Inv c -> mthreads c !! t = Some th -> mpc th = LockWoken k -> safe_run (ExclusiveLock_woken t k) c.
Proof.
  intros HI Hth Hp. unfold safe_run, ExclusiveLock_woken. rewrite (run_goto_mutex _ t th) by done.
  eexists; (split; [done|]); step_to. right. unfold contend; cbn. f_equal. lia.
Qed.

Lemma try_cas_safe ch c t th :
  Inv c -> mthreads c !! t = Some th -> mpc th = TryCas -> safe_run (ExclusiveTryLock_cas ch t) c.
Proof.
  intros HI Hth Hp. unfold safe_run, ExclusiveTryLock_cas.
  destruct (cas_state_cases (spurious_fail ch) 0 1 c) as [[H0 Hc]|Hc]; rewrite (bind_ok _ _ _ _ _ Hc), (run_goto _ t th) by done;
    eexists; (split; [done|]).
  - change (Inv (move c t (at_pc (LockAcquired CallTry) th) (with_state 1 (mutex c)) (conds c))). step_to.
    split; [by apply acquire_view|by right].
  - step_to.
Qed.

Lemma unlock_load_safe c t th f :
  Inv c -> mthreads c !! t = Some th -> mpc th = UnlockLoad f -> safe_run (ExclusiveUnlock_load t f) c.
Proof.
  intros HI Hth Hp. unfold safe_run, ExclusiveUnlock_load. rewrite bind_gets.
  pose proof (inv_owner c t th HI Hth) as Hv. rewrite Hp in Hv. destruct (Hv eq_refl) as (H1 & H2 & _).
  rewrite H1. cbn [Z.eqb Pos.eqb]. rewrite (run_goto_mutex _ t th) by done.
  eexists; (split; [done|]); step_to. unfold owner_view; cbn. auto.
Qed.

Lemma unlock_cas_safe ch c t th f :
  Inv c -> mthreads c !! t = Some th -> mpc th = UnlockCas f -> safe_run (ExclusiveUnlock_cas ch t f) c.
Proof.
  intros HI Hth Hp. unfold safe_run, ExclusiveUnlock_cas.
  pose proof (inv_owner c t th HI Hth) as Hv. rewrite Hp in Hv. destruct (Hv eq_refl) as (H1 & H2 & H3).
  assert (exclusive_owner_ (mutex c) = 0) as H3' by (destruct H3 as [|[_ [? ?]]]; done).
  destruct (cas_state_cases (spurious_fail ch) 1 0 c) as [[H0 Hc]|Hc]; rewrite (bind_ok _ _ _ _ _ Hc), (run_goto _ t th) by done;
    eexists; (split; [done|]).
  - change (Inv (move c t (at_pc (UnlockRead f) th) (with_state 0 (mutex c)) (conds c))). step_to.
  - step_to. unfold owner_change, owner_view; cbn. auto.
Qed.


(** A step that ends a call of [ExclusiveTryLock] without the mutex. *)
Lemma try_load_safe c t th :
  Inv c -> mthreads c !! t = Some th -> mpc th = TryLoad -> safe_run (ExclusiveTryLock_load t) c.
Proof.
  intros HI Hth Hp. unfold safe_run, ExclusiveTryLock_load. rewrite bind_gets.
  case_match; [rewrite (run_goto _ t th) by done|rewrite (update_mthread_ok t _ th) by done]; eexists; (split; [done|]).
  - step_to.
  - pose proof (inv_thread c t th HI Hth) as []. apply (inv_move c t th); [done|constructor|unfold wake_kept; rewrite Hp; cbn; auto 10];
      rewrite ?Hp in *; cbn; auto. done.
Qed.

(** ** The mutexes a thread holds *)

Lemma is_held_runs c t th :
  mthreads c !! t = Some th ->
  (exclusive_owner_ (mutex c) = t -> registered (held_mutexes th) = negb (level_ =? kMonitorLock)) ->
  IsExclusiveHeld t c = Ok (exclusive_owner_ (mutex c) =? t, c).
Proof.
  intros Hth Hr. unfold IsExclusiveHeld. rewrite (bind_ok _ _ _ _ _ (get_mthread_ok t th c Hth)), bind_gets. cbn zeta.
  destruct (exclusive_owner_ (mutex c) =? t) eqn:E; [|done]. apply Z.eqb_eq in E. rewrite (Hr E).
  by destruct (level_ =? kMonitorLock).
Qed.

Lemma assert_held_runs c t th :
  mthreads c !! t = Some th -> exclusive_owner_ (mutex c) = t ->
  registered (held_mutexes th) = negb (level_ =? kMonitorLock) -> AssertHeld t c = Ok (tt, c).
Proof.
  intros Hth He Hr. unfold AssertHeld. rewrite (bind_ok _ _ _ _ _ (is_held_runs c t th Hth (fun _ => Hr))). by rewrite He, Z.eqb_refl.
Qed.

Lemma inside_held c t th : Inv c -> mthreads c !! t = Some th -> named (mpc th) = true ->
  exclusive_owner_ (mutex c) = t /\ registered (held_mutexes th) = negb (level_ =? kMonitorLock).
Proof.
  intros HI Hth Hn. pose proof (mo_held _ _ _ (inv_thread c t th HI Hth)) as Hh. rewrite Hn in Hh. split; [|done].
  assert (owns (mpc th) = true) as Ho by (by destruct (mpc th)). destruct (inv_owner c t th HI Hth Ho) as [_ Hv].
  rewrite Hn in Hv. apply Hv.
Qed.

Lemma outside_held c t th : Inv c -> mthreads c !! t = Some th -> owns (mpc th) = false -> (exclusive_owner_ (mutex c) =? t) = false.
Proof.
  intros HI Hth Ho. apply Z.eqb_neq. intros He.
  destruct (inv_named c t th HI Hth He) as [Hn|[f Hf]]; [destruct (mpc th); done|by rewrite Hf in Ho].
Qed.

Definition register (th : MThread) : MThread :=
  with_held (if level_ =? kMonitorLock then held_mutexes th else <[level_ := this]> (held_mutexes th)) th.

Definition unregister (th : MThread) : MThread :=
  with_held (if level_ =? kMonitorLock then held_mutexes th else delete level_ (held_mutexes th)) th.

Lemma update_held_runs c t th f h : mthreads c !! t = Some th -> f (held_mutexes th) = Ok h ->
  update_held t f c = Ok (tt, move c t (with_held h th) (mutex c) (conds c)).
Proof.
  intros Hth Hf. unfold update_held. rewrite (bind_ok _ _ _ _ _ (get_mthread_ok t th c Hth)), bind_lift, Hf.
  by rewrite (update_mthread_ok t _ th).
Qed.

Lemma register_runs c t th : mthreads c !! t = Some th -> levels_ok (held_mutexes th) = true ->
  update_held t RegisterAsLocked c = Ok (tt, move c t (register th) (mutex c) (conds c)).
Proof. intros Hth Hl. apply update_held_runs; [done|]. unfold RegisterAsLocked. by rewrite Hl. Qed.

Lemma unregister_runs c t th : mthreads c !! t = Some th -> registered (held_mutexes th) = negb (level_ =? kMonitorLock) ->
  update_held t RegisterAsUnlocked c = Ok (tt, move c t (unregister th) (mutex c) (conds c)).
Proof.
  intros Hth Hr. apply update_held_runs; [done|]. unfold RegisterAsUnlocked. rewrite Hr. by destruct (level_ =? kMonitorLock).
Qed.

Lemma register_held th : held_possible (held_mutexes th) = true ->
  mpc (register th) = mpc th /\ held_possible (held_mutexes (register th)) = true /\
  registered (held_mutexes (register th)) = negb (level_ =? kMonitorLock).
Proof.
  unfold held_possible, registered, register. intros H%bool_decide_eq_true. cbn [held_mutexes with_held].
  destruct (level_ =? kMonitorLock) eqn:E; cbn.
  - apply Z.eqb_eq in E. rewrite E. repeat split; [by apply bool_decide_true|]. apply bool_decide_false. congruence.
  - apply Z.eqb_neq in E. repeat split; apply bool_decide_true; [by rewrite lookup_insert_ne|apply lookup_insert_eq].
Qed.

Lemma unregister_held th : held_possible (held_mutexes th) = true ->
  mpc (unregister th) = mpc th /\ held_possible (held_mutexes (unregister th)) = true /\
  registered (held_mutexes (unregister th)) = false.
Proof.
  unfold held_possible, registered, unregister. intros H%bool_decide_eq_true. cbn [held_mutexes with_held].
  destruct (level_ =? kMonitorLock) eqn:E; cbn.
  - apply Z.eqb_eq in E. rewrite E. repeat split; [by apply bool_decide_true|]. apply bool_decide_false. congruence.
  - apply Z.eqb_neq in E. repeat split; [apply bool_decide_true|apply bool_decide_false].
    + rewrite lookup_delete_ne; done.
    + rewrite lookup_delete_eq. done.
Qed.

(** ** The end of [ExclusiveLock] *)

Lemma count_lock_runs c t th :
  mthreads c !! t = Some th -> exclusive_owner_ (mutex c) = t ->
  registered (held_mutexes th) = negb (level_ =? kMonitorLock) ->
  (recursive_ = false -> recursion_count_ (mutex c) = 0) ->
  CountLock t c = Ok (tt, mkMConfig (with_recursion (u32 (recursion_count_ (mutex c) + 1)) (mutex c)) (conds c) (mthreads c)).
Proof.
  intros Hth He Hr Hc. unfold CountLock, update_mutex. rewrite bind_modify, bind_gets. cbn [mutex with_recursion recursion_count_].
  unfold checkM. rewrite bind_lift. assert ((u32 (recursion_count_ (mutex c) + 1) =? 1) || recursive_ = true) as ->.
  { destruct recursive_; [apply orb_true_r|]. by rewrite Hc. }
  cbn [check]. by rewrite (assert_held_runs _ t th).
Qed.

Definition returned_thread (k : LockCaller) (th : MThread) : MThread :=
  match k with
  | CallLock => at_pc Inside th
  | CallTry => with_returned true (at_pc Inside th)
  | CallWait f timed_out => at_pc (WaitLeave f timed_out) th
  end.

Lemma lock_returns_runs c t th k : mthreads c !! t = Some th ->
  LockReturns t k c = Ok (tt, move c t (returned_thread k th) (mutex c) (conds c)).
Proof. intros Hth. destruct k; cbn; [by rewrite (run_goto _ t th)|by rewrite (update_mthread_ok t _ th)|by rewrite (run_goto _ t th)]. Qed.

Lemma lock_acquired_runs c t th k :
  Inv c -> mthreads c !! t = Some th -> mpc th = LockAcquired k ->
  ExclusiveLock_acquired t k c =
  Ok (tt, move c t (returned_thread k (register th)) (mkMutex 1 t (num_contenders_ (mutex c)) 1) (conds c)).
Proof.
  intros HI Hth Hp. pose proof (inv_owner c t th HI Hth) as Hv. pose proof (inv_thread c t th HI Hth) as Ht.
  destruct Ht. rewrite Hp in *. destruct (Hv eq_refl) as (H1 & H2 & [H3|[_ [? ?]]]); [|done].
  destruct (register_held th mo_monitor) as (_ & _ & Hreg).
  unfold ExclusiveLock_acquired, checkM, update_mutex. rewrite bind_gets, bind_lift, H1. cbn [check Z.eqb Pos.eqb].
  rewrite bind_lift, H3. cbn [check Z.eqb]. rewrite bind_modify.
  erewrite (bind_ok (update_held t _)); [|apply (register_runs _ t th); [exact Hth|by apply mo_levels]].
  erewrite (bind_ok (CountLock t)); [|apply (count_lock_runs _ t (register th)); [apply move_lookup|done|done|done]].
  rewrite (lock_returns_runs _ t (register th)) by apply move_lookup. cbn. rewrite H2.
  unfold move; cbn. rewrite insert_insert_eq. destruct (mutex c); cbn in *. by rewrite H1.
Qed.

Lemma lock_acquired_safe c t th k :
  Inv c -> mthreads c !! t = Some th -> mpc th = LockAcquired k -> safe_run (ExclusiveLock_acquired t k) c.
Proof.
  intros HI Hth Hp. eexists. split; [by apply lock_acquired_runs|]. pose proof (inv_thread c t th HI Hth) as [].
  destruct (register_held th mo_monitor) as (_ & Hmon & Hreg). pose proof (inv_owner c t th HI Hth) as Hv. rewrite Hp in *.
  apply (inv_move c t th); [done| |left; done].
  constructor; rewrite ?Hp in *; destruct k; cbn in *; auto; try done; unfold owner_change, owner_view; cbn; auto.
Qed.


(** ** Waking threads *)

Lemma contend_bounds p : 0 <= contend p <= 2.
Proof. unfold contend. destruct p; cbn; repeat case_match; lia. Qed.

Lemma contenders_exact c : Inv c -> few c ->
  num_contenders_ (mutex c) = total (fun th => contend (mpc th)) (mthreads c) /\ 0 <= num_contenders_ (mutex c).
Proof.
  intros [[o HC] _] Hfew. rewrite (co_contenders c o HC). unfold few in Hfew.
  pose proof (total_le (fun th => contend (mpc th)) 2 (mthreads c) (fun _ th _ => proj2 (contend_bounds (mpc th)))).
  pose proof (total_nonneg (fun th => contend (mpc th)) (mthreads c) (fun _ th _ => proj1 (contend_bounds (mpc th)))).
  rewrite s32_small; lia.
Qed.

Lemma contender_counted c t th : Inv c -> few c -> mthreads c !! t = Some th -> contend (mpc th) <= num_contenders_ (mutex c).
Proof.
  intros HI Hfew Hth. rewrite (proj1 (contenders_exact c HI Hfew)).
  apply (total_ge (fun th => contend (mpc th)) t th); [intros; apply contend_bounds|done].
Qed.

Lemma elem_of_sleepers a ts t : t ∈ sleepers a ts <-> exists th, ts !! t = Some th /\ sleeps_at a (mpc th) = true.
Proof.
  unfold sleepers. rewrite list_elem_of_fmap. split.
  - intros ([u th] & -> & [Hs Hth]%elem_of_map_to_list%map_lookup_filter_Some). eauto.
  - intros (th & Hth & Hs). exists (t, th). split; [done|]. apply elem_of_map_to_list, map_lookup_filter_Some. done.
Qed.

Definition woken (b : bool) (th : MThread) : MThread := at_pc (futex_returns b (mpc th)) th.

Lemma futex_wake_runs a n c :
  ((forall t th, mthreads c !! t = Some th -> sleeps_at a (mpc th) = false) /\ futex_wake a n c = Ok (tt, c)) \/
  exists t th, mthreads c !! t = Some th /\ sleeps_at a (mpc th) = true /\
    futex_wake a n c = Ok (tt, move c t (woken false th) (mutex c) (conds c)).
Proof.
  unfold futex_wake. rewrite bind_gets. destruct (wake_one n (sleepers a (mthreads c))) as [t|] eqn:E.
  - right. apply wake_one_asleep, elem_of_sleepers in E as (th & Hth & Hs). exists t, th.
    split; [done|]. split; [done|]. by rewrite (update_mthread_ok t _ th).
  - left. split; [|done]. intros t th Hth. apply not_true_is_false. intros Hs.
    destruct (wake_one_some n (sleepers a (mthreads c))) as [x Hx]; [|congruence].
    intros H0. assert (t ∈ sleepers a (mthreads c)) as Hin by (apply elem_of_sleepers; eauto). rewrite H0 in Hin. set_solver.
Qed.

Lemma return_inv c t th b : Inv c -> mthreads c !! t = Some th -> asleep (mpc th) = true ->
  Inv (move c t (woken b th) (mutex c) (conds c)).
Proof. intros HI Hth Ha. unfold woken. destruct (mpc th) eqn:Hp; try done; cbn [futex_returns]; step_to. Qed.

Lemma return_active b p : asleep p = true -> active (futex_returns b p) = true.
Proof. by destruct p. Qed.

Lemma sleeps_asleep a p : sleeps_at a p = true -> asleep p = true.
Proof. by destruct a, p. Qed.

Lemma unlock_read_safe c t th f :
  Inv c -> few c -> mthreads c !! t = Some th -> mpc th = UnlockRead f -> safe_run (ExclusiveUnlock_read t f) c.
Proof.
  intros HI Hfew Hth Hp. unfold safe_run, ExclusiveUnlock_read. rewrite bind_gets.
  case_match eqn:E; rewrite (run_goto _ t th) by done; eexists; (split; [done|]).
  - step_to.
  - assert (forall u thu, u <> t -> mthreads c !! u = Some thu -> sleeps_at AtState (mpc thu) = false) as Hno.
    { intros u thu _ Hu. apply not_true_is_false. intros Hs. pose proof (contender_counted c u thu HI Hfew Hu).
      assert (0 < contend (mpc thu)); [|apply Z.ltb_ge in E; lia]. unfold contend. destruct (mpc thu); cbn in *; repeat case_match; done. }
    destruct f; cbn [unlocked_pc]; step_to.
Qed.

Lemma unlock_wake_safe ch c t th f :
  Inv c -> mthreads c !! t = Some th -> mpc th = UnlockWake f -> safe_run (ExclusiveUnlock_wake ch t f) c.
Proof.
  intros HI Hth Hp. unfold safe_run, ExclusiveUnlock_wake.
  destruct (futex_wake_runs AtState (pick ch) c) as [[Hno Hr]|(u & thu & Hu & Hs & Hr)]; rewrite (bind_ok _ _ _ _ _ Hr).
  - rewrite (run_goto _ t th) by done. eexists. split; [done|].
    destruct f; cbn [unlocked_pc]; step_to; right; right; right; right; split; eauto.
  - assert (u <> t) as Hne by (intros ->; assert (thu = th) by congruence; subst thu; by rewrite Hp in Hs).
    set (c1 := move c u _ _ _). assert (Inv c1) as HI1 by (apply return_inv; [done..|by eapply sleeps_asleep]).
    assert (mthreads c1 !! t = Some th) as Hth1 by (unfold c1; rewrite move_lookup_ne; done).
    assert (exists u thu, u <> t /\ mthreads c1 !! u = Some thu /\ active (mpc thu) = true).
    { exists u, (woken false thu). split; [done|]. split; [apply move_lookup|]. by eapply return_active, sleeps_asleep. }
    rewrite (run_goto _ t th) by done. eexists. split; [done|].
    destruct f; cbn [unlocked_pc]; step_to.
Qed.

(** ** Waiting and notifying *)

Lemma frame_cond c t th f : Inv c -> mthreads c !! t = Some th -> frame_of (mpc th) = Some f ->
  exists d, conds c !! cond_ f = Some d /\ seen f <= signals d.
Proof. intros HI Hth Hf. apply (mo_frame _ _ _ (inv_thread c t th HI Hth) f Hf). Qed.

Lemma wait_futex_safe c t th f :
  Inv c -> mthreads c !! t = Some th -> mpc th = WaitFutex f -> safe_run (Wait_futex t f) c.
Proof.
  intros HI Hth Hp. unfold safe_run, Wait_futex. destruct (frame_cond c t th f HI Hth) as (d & Hd & _); [by rewrite Hp|].
  rewrite (bind_ok _ _ _ _ _ (get_cond_ok _ d c Hd)).
  case_match; rewrite (run_goto _ t th) by done; eexists; (split; [done|]); step_to.
Qed.

(** [ExclusiveLock] by a thread that does not own the mutex goes to its loop. *)
Lemma lock_runs c t th k : Inv c -> mthreads c !! t = Some th -> owns (mpc th) = false ->
  ExclusiveLock t k c = Ok (tt, move c t (at_pc (LockLoad k) th) (mutex c) (conds c)).
Proof.
  intros HI Hth Ho. pose proof (outside_held c t th HI Hth Ho) as He.
  assert (IsExclusiveHeld t c = Ok (false, c)) as Hh.
  { rewrite (is_held_runs c t th Hth), He; [done|]. intros Ht. rewrite Ht, Z.eqb_refl in He. done. }
  unfold ExclusiveLock, AssertNotHeld. destruct recursive_; cbn [negb whenM].
  - rewrite bind_ret. rewrite (bind_ok _ _ _ _ _ Hh). by rewrite (run_goto _ t th).
  - erewrite (bind_ok (IsExclusiveHeld t ≫= _)); [|rewrite (bind_ok _ _ _ _ _ Hh); done].
    rewrite bind_ret. by rewrite (run_goto _ t th).
Qed.

Lemma wait_returned_safe c t th f b :
  Inv c -> mthreads c !! t = Some th -> mpc th = WaitReturned f b -> safe_run (Wait_returned t f b) c.
Proof.
  intros HI Hth Hp. unfold safe_run, Wait_returned. rewrite (lock_runs c t th) by (rewrite ?Hp; done).
  eexists. split; [done|]. step_to.
Qed.

Lemma signal_wake_safe ch c t th cv :
  Inv c -> mthreads c !! t = Some th -> mpc th = SignalWake cv -> safe_run (Signal_wake ch t cv) c.
Proof.
  intros HI Hth Hp. unfold safe_run, Signal_wake. pose proof (inv_owner c t th HI Hth) as Hv. rewrite Hp in Hv.
  destruct (Hv eq_refl) as [H1 Hv1].
  destruct (futex_wake_runs (AtSequence cv) (pick ch) c) as [[Hno Hr]|(u & thu & Hu & Hs & Hr)]; rewrite (bind_ok _ _ _ _ _ Hr).
  - rewrite (run_goto _ t th) by done. eexists. split; [done|]. step_to.
  - assert (u <> t) as Hne by (intros ->; assert (thu = th) by congruence; subst thu; by rewrite Hp in Hs).
    set (c1 := move c u _ _ _). assert (Inv c1) as HI1 by (apply return_inv; [done..|by eapply sleeps_asleep]).
    assert (mthreads c1 !! t = Some th) as Hth1 by (unfold c1; rewrite move_lookup_ne; done).
    rewrite (run_goto _ t th) by done. eexists. split; [done|]. step_to.
Qed.

Lemma notify_cond c t th cv : Inv c -> mthreads c !! t = Some th -> notifies (mpc th) = Some cv -> exists d, conds c !! cv = Some d.
Proof. intros HI Hth Hn. apply (mo_notify _ _ _ (inv_thread c t th HI Hth) cv Hn). Qed.

Lemma broadcast_load_safe c t th cv :
  Inv c -> mthreads c !! t = Some th -> mpc th = BroadcastLoad cv -> safe_run (Broadcast_load t cv) c.
Proof.
  intros HI Hth Hp. unfold safe_run, Broadcast_load. destruct (notify_cond c t th cv HI Hth) as [d Hd]; [by rewrite Hp|].
  pose proof (inv_owner c t th HI Hth) as Hv. rewrite Hp in Hv. destruct (Hv eq_refl) as [H1 Hv1].
  rewrite (bind_ok _ _ _ _ _ (get_cond_ok _ d c Hd)), (run_goto _ t th) by done. eexists. split; [done|].
  step_to. intros cv0 cur d0 [= <- <-] Hd0. congruence.
Qed.


Lemma requeue_same cv th :
  owns (mpc (requeue cv th)) = owns (mpc th) /\ named (mpc (requeue cv th)) = named (mpc th) /\
  frame_of (mpc (requeue cv th)) = frame_of (mpc th) /\ contend (mpc (requeue cv th)) = contend (mpc th) /\
  locking (mpc (requeue cv th)) = locking (mpc th) /\ notifies (mpc (requeue cv th)) = notifies (mpc th) /\
  held_mutexes (requeue cv th) = held_mutexes th.
Proof. unfold requeue. destruct (mpc th) eqn:E; rewrite ?E; auto 10. case_match; cbn; rewrite ?E; auto 10. Qed.

Lemma requeue_pc cv th p : owns p = true -> mpc (requeue cv th) = p <-> mpc th = p.
Proof. intros Hp. unfold requeue. destruct (mpc th) eqn:E; rewrite ?E; try done. case_match; cbn; rewrite ?E; naive_solver. Qed.

(** The threads asleep at [sequence_] move to the mutex, which is held. *)
Lemma requeue_inv c cv : Inv c -> state_ (mutex c) = 1 -> Inv (mkMConfig (mutex c) (conds c) (requeue cv <$> mthreads c)).
Proof.
  intros [[o HC] HW] H1. split; [|intros H0; cbn in H0; lia]. exists o.
  assert (forall t th, (requeue cv <$> mthreads c) !! t = Some th -> exists th0, mthreads c !! t = Some th0 /\ th = requeue cv th0) as Hback.
  { intros t th. rewrite lookup_fmap. intros (th0 & ? & ?)%fmap_Some. eauto. }
  split; cbn [mutex conds mthreads].
  - intros t th (th0 & Hth & ->)%Hback. rewrite (proj1 (requeue_same cv th0)). by apply (co_owns c o HC).
  - pose proof (co_mutex c o HC) as Hm. destruct o as [t|]; [|done]. destruct Hm as (th & Hth & Hv).
    exists th. split; [|done]. rewrite lookup_fmap, Hth. cbn. f_equal. unfold requeue.
    pose proof (co_owns c _ HC t th Hth) as Ho. rewrite bool_decide_true in Ho by done. by destruct (mpc th).
  - rewrite (co_contenders c o HC), total_fmap. f_equal. apply total_ext. intros t th _. symmetry. apply requeue_same.
  - intros cv' d Hd. rewrite total_fmap. destruct (co_conds c o HC cv' d Hd) as [Hs ->]. split; [done|].
    apply total_ext. intros t th _. unfold waits_on. by rewrite (proj1 (proj2 (proj2 (requeue_same cv th)))).
  - intros t th (th0 & Hth & ->)%Hback. destruct (requeue_same cv th0) as (E1 & E2 & E3 & E4 & E5 & E6 & E7).
    destruct (co_threads c o HC t th0 Hth). constructor; rewrite ?E2, ?E3, ?E5, ?E6, ?E7; try done.
    intros cv' cur d Hp. apply (requeue_pc cv th0 (BroadcastRequeue cv' cur) eq_refl) in Hp. by apply mo_requeue.
  - intros a tha cv' d u thu f (tha0 & Ha & ->)%Hback Hn Hd (thu0 & Hu & ->)%Hback Hf.
    rewrite (proj1 (proj2 (proj2 (proj2 (proj2 (proj2 (requeue_same cv tha0))))))) in Hn.
    rewrite (proj1 (proj2 (proj2 (requeue_same cv thu0)))) in Hf. intros Hcv. exact (co_notify c o HC a tha0 cv' d u thu0 f Ha Hn Hd Hu Hf Hcv).
Qed.

Lemma requeue_runs c cv d : conds c !! cv = Some d ->
  futex_cmp_requeue cv (sequence_ d) c = Ok (true, mkMConfig (mutex c) (conds c) (requeue cv <$> mthreads c)).
Proof. intros Hd. unfold futex_cmp_requeue. rewrite (bind_ok _ _ _ _ _ (get_cond_ok _ d c Hd)). by rewrite Z.eqb_refl. Qed.

Lemma broadcast_requeue_safe c t th cv cur :
  Inv c -> mthreads c !! t = Some th -> mpc th = BroadcastRequeue cv cur -> safe_run (Broadcast_requeue t cv cur) c.
Proof.
  intros HI Hth Hp. unfold safe_run, Broadcast_requeue. destruct (notify_cond c t th cv HI Hth) as [d Hd]; [by rewrite Hp|].
  rewrite (mo_requeue _ _ _ (inv_thread c t th HI Hth) cv cur d Hp Hd).
  pose proof (inv_owner c t th HI Hth) as Hv. rewrite Hp in Hv. destruct (Hv eq_refl) as [H1 Hv1].
  rewrite (bind_ok _ _ _ _ _ (requeue_runs c cv d Hd)). pose proof (requeue_inv c cv HI H1) as HI1.
  set (c1 := mkMConfig _ _ _) in *. assert (mthreads c1 !! t = Some th) as Hth1.
  { unfold c1. cbn. rewrite lookup_fmap, Hth. cbn. unfold requeue. by rewrite Hp. }
  rewrite (run_goto _ t th) by done. eexists. split; [done|]. step_to.
Qed.

Lemma waiters_nonneg c cv d : Inv c -> conds c !! cv = Some d -> 0 <= waiters_ d.
Proof.
  intros [[o HC] _] Hd. destruct (co_conds c o HC cv d Hd) as [_ ->]. apply total_nonneg. intros t th _.
  unfold waits_on. repeat case_match; lia.
Qed.

Lemma wait_leave_safe c t th f b :
  Inv c -> few c -> mthreads c !! t = Some th -> mpc th = WaitLeave f b -> safe_run (Wait_leave t f b) c.
Proof.
  intros HI Hfew Hth Hp. unfold safe_run, Wait_leave, checkM, update_mutex.
  pose proof (inv_thread c t th HI Hth) as Ht. destruct (mo_frame _ _ _ Ht f) as [(d & Hd & Hs) [_ Hold]]; [by rewrite Hp|].
  rewrite (bind_ok _ _ _ _ _ (get_cond_ok _ d c Hd)), bind_lift.
  rewrite (proj2 (Z.leb_le 0 (waiters_ d))) by (by eapply waiters_nonneg). cbn [check].
  rewrite (bind_ok _ _ _ _ _ (update_cond_ok (cond_ f) _ d c Hd)), bind_gets, bind_lift. cbn [mutex].
  rewrite (proj2 (Z.leb_le 0 (num_contenders_ (mutex c)))) by (by apply contenders_exact). cbn [check].
  rewrite bind_modify. rewrite (update_mthread_ok t _ th) by done. eexists. split; [done|].
  pose proof (inv_owner c t th HI Hth) as Hv. destruct Ht. rewrite Hp in *. destruct (Hv eq_refl) as [H1 [H2 H3]].
  assert (sequence_ d = s32 (signals d)) by (destruct HI as [[o HC] _]; apply (co_conds c o HC _ _ Hd)).
  apply (inv_cond_move c t th _ _ (cond_ f) d); [done|].
  constructor; rewrite ?Hp; cbn; try done.
  - unfold waits_on; cbn. rewrite Z.eqb_refl. lia.
  - intros cv' Hne. unfold waits_on; cbn. rewrite (proj2 (Z.eqb_neq (cond_ f) cv')); [done|congruence].
Qed.


(** ** Calls *)

Lemma call_held_runs c t th : Inv c -> mthreads c !! t = Some th -> mpc th = Inside -> IsExclusiveHeld t c = Ok (true, c).
Proof.
  intros HI Hth Hp. destruct (inside_held c t th HI Hth) as [He Hr]; [by rewrite Hp|].
  by rewrite (is_held_runs c t th Hth (fun _ => Hr)), He, Z.eqb_refl.
Qed.

(** A recursive mutex is locked once more. *)
Lemma relock_safe c t th k :
  Inv c -> mthreads c !! t = Some th -> mpc th = Inside -> recursive_ = true -> (k = CallLock \/ k = CallTry) ->
  safe_run (CountLock t ;; LockReturns t k) c.
Proof.
  intros HI Hth Hp Hr Hk. destruct (inside_held c t th HI Hth) as [He Hreg]; [by rewrite Hp|].
  unfold safe_run. erewrite (bind_ok (CountLock t)); [|apply (count_lock_runs _ t th); [done..|congruence]].
  rewrite (lock_returns_runs _ t th) by done. eexists. split; [done|].
  pose proof (inv_owner c t th HI Hth) as Hv. pose proof (inv_thread c t th HI Hth) as []. rewrite Hp in *.
  destruct (Hv eq_refl) as (H1 & H2 & _).
  apply (inv_move c t th); [done| |unfold wake_kept; cbn; left; lia].
  destruct Hk as [-> | ->]; constructor; rewrite ?Hp; cbn; auto; try done;
    unfold owner_change, owner_view; cbn; rewrite Hr; (split; [done|by left]).
Qed.

(** From outside the call goes to its loop. *)
Lemma start_locking c t th p' : Inv c -> mthreads c !! t = Some th -> mpc th = Outside -> levels_ok (held_mutexes th) = true ->
  (p' = LockLoad CallLock \/ p' = TryLoad) -> Inv (move c t (at_pc p' th) (mutex c) (conds c)).
Proof.
  intros HI Hth Hp Hl Hp'. pose proof (inv_thread c t th HI Hth) as []. rewrite Hp in *.
  apply (inv_move c t th); [done| |unfold wake_kept; rewrite Hp; cbn; destruct Hp' as [-> | ->]; cbn; auto 10].
  destruct Hp' as [-> | ->]; constructor; rewrite ?Hp; cbn; auto; done.
Qed.

Lemma call_lock_safe c t th :
  Inv c -> mthreads c !! t = Some th -> call_ok OpLock th c = true -> safe_run (ExclusiveLock t CallLock) c.
Proof.
  intros HI Hth Hok. cbn in Hok. destruct (mpc th) eqn:Hp; try done.
  - unfold safe_run. rewrite (lock_runs c t th) by (rewrite ?Hp; done). eexists. split; [done|]. apply start_locking; auto.
  - unfold ExclusiveLock. rewrite Hok. destruct (relock_safe c t th CallLock HI Hth Hp Hok) as (c' & Hc & HI'); [by left|].
    exists c'. split; [|done]. cbn [negb whenM]. rewrite bind_ret.
    by rewrite (bind_ok _ _ _ _ _ (call_held_runs c t th HI Hth Hp)).
Qed.

Lemma call_try_safe c t th :
  Inv c -> mthreads c !! t = Some th -> call_ok OpTryLock th c = true -> safe_run (ExclusiveTryLock t) c.
Proof.
  intros HI Hth Hok. cbn in Hok. destruct (mpc th) eqn:Hp; try done.
  - assert (owns (mpc th) = false) as Ho by (by rewrite Hp). pose proof (outside_held c t th HI Hth Ho) as He.
    assert (IsExclusiveHeld t c = Ok (false, c)) as Hh.
    { rewrite (is_held_runs c t th Hth), He; [done|]. intros Ht. rewrite Ht, Z.eqb_refl in He. done. }
    exists (move c t (at_pc TryLoad th) (mutex c) (conds c)). split; [|apply start_locking; auto].
    unfold ExclusiveTryLock, AssertNotHeld. destruct recursive_; cbn [negb whenM].
    + rewrite bind_ret, (bind_ok _ _ _ _ _ Hh). by rewrite (run_goto _ t th).
    + erewrite (bind_ok (IsExclusiveHeld t ≫= _)); [|rewrite (bind_ok _ _ _ _ _ Hh); done].
      rewrite bind_ret. by rewrite (run_goto _ t th).
  - unfold ExclusiveTryLock. rewrite Hok. destruct (relock_safe c t th CallTry HI Hth Hp Hok) as (c' & Hc & HI'); [by right|].
    exists c'. split; [|done]. cbn [negb whenM]. rewrite bind_ret.
    by rewrite (bind_ok _ _ _ _ _ (call_held_runs c t th HI Hth Hp)).
Qed.

(** [ExclusiveUnlock], where it releases the mutex and where it does not. *)
Lemma unlock_runs c t th f :
  mthreads c !! t = Some th -> 0 < t -> exclusive_owner_ (mutex c) = t ->
  registered (held_mutexes th) = negb (level_ =? kMonitorLock) ->
  (recursive_ = false -> recursion_count_ (mutex c) = 1) ->
  let count := u32 (recursion_count_ (mutex c) - 1) in
  ExclusiveUnlock t f c = Ok (tt,
    if count =? 0 then move c t (at_pc (UnlockLoad f) (unregister th)) (with_recursion 0 (mutex c)) (conds c)
    else move c t (at_pc (match f with Some f => WaitFutex f | None => Inside end) th) (with_recursion count (mutex c)) (conds c)).
Proof.
  intros Hth Ht He Hreg Hrc count. unfold ExclusiveUnlock, checkM, update_mutex.
  rewrite (bind_ok _ _ _ _ _ (assert_held_runs c t th Hth He Hreg)), bind_gets, bind_lift.
  rewrite (proj2 (Z.eqb_neq (exclusive_owner_ (mutex c)) 0)) by lia. cbn [check negb]. cbn zeta. fold count. rewrite bind_modify.
  destruct (count =? 0) eqn:E.
  - apply Z.eqb_eq in E. rewrite orb_true_r, bind_lift. cbn [check orb]. rewrite E.
    erewrite (bind_ok (update_held t _)); [|apply (unregister_runs _ t th); done].
    rewrite (run_goto _ t (unregister th)) by apply move_lookup. by rewrite move_move.
  - destruct recursive_; [|by unfold count in E; rewrite Hrc in E]. cbn [negb orb]. by rewrite (run_goto _ t th).
Qed.

Lemma call_unlock_safe c t th :
  Inv c -> mthreads c !! t = Some th -> mpc th = Inside -> safe_run (ExclusiveUnlock t None) c.
Proof.
  intros HI Hth Hp. destruct (inside_held c t th HI Hth) as [He Hreg]; [by rewrite Hp|].
  pose proof (inv_owner c t th HI Hth) as Hv. pose proof (inv_thread c t th HI Hth) as []. rewrite Hp in *.
  destruct (Hv eq_refl) as (H1 & _ & H3). unfold safe_run. rewrite (unlock_runs c t th) by done. eexists. split; [done|].
  destruct (unregister_held th mo_monitor) as (_ & Hmon & Hun).
  case_match eqn:E; apply (inv_move c t th); try done; try (unfold wake_kept; cbn; left; lia);
    constructor; rewrite ?Hp; cbn; auto; try done; unfold owner_change, owner_view; cbn; eauto 10.
  split; [|by left]. split; [done|]. split; [done|]. intros Hr. rewrite (H3 Hr) in E. done.
Qed.


Lemma alone_levels th : 0 <= level_ < kLockLevelCount ->
  held_possible (held_mutexes th) = true -> alone (held_mutexes th) = true -> levels_ok (delete level_ (held_mutexes th)) = true.
Proof.
  unfold alone, levels_ok. intros Hrange _ Ha. apply forallb_forall. intros i Hi%list_elem_of_In%elem_of_seqZ.
  rewrite forallb_forall in Ha. destruct (decide (i = level_)) as [->|Hne].
  - rewrite lookup_delete_eq. cbn. apply orb_true_r.
  - rewrite lookup_delete_ne by done. specialize (Ha i). rewrite <- list_elem_of_In, elem_of_seqZ in Ha.
    rewrite (proj2 (Z.eqb_neq i level_)) in Ha by done. cbn [orb] in Ha. rewrite Ha by lia. apply orb_true_r.
Qed.

Lemma unregister_levels th : held_possible (held_mutexes th) = true ->
  held_mutexes (unregister th) = delete level_ (held_mutexes th).
Proof.
  unfold unregister, held_possible. intros H%bool_decide_eq_true. cbn [held_mutexes with_held].
  destruct (level_ =? kMonitorLock) eqn:E; [|done].
  apply Z.eqb_eq in E. rewrite delete_id; [done|]. by rewrite E.
Qed.

(** A wait releases the mutex. *)
Lemma wait_runs c t th cv timed d :
  Inv c -> mthreads c !! t = Some th -> mpc th = Inside -> conds c !! cv = Some d ->
  let f := mkFrame cv timed (recursion_count_ (mutex c)) (sequence_ d) (signals d) in
  WaitHoldingLocks t cv timed c =
  Ok (tt, move c t (at_pc (UnlockLoad (Some f)) (unregister th))
    (with_recursion 0 (with_contenders (s32 (num_contenders_ (mutex c) + 1)) (mutex c)))
    (<[cv := with_waiters (waiters_ d + 1) d]> (conds c))).
Proof.
  intros HI Hth Hp Hd f. destruct (inside_held c t th HI Hth) as [He Hreg]; [by rewrite Hp|].
  pose proof (inv_thread c t th HI Hth) as Ht. unfold WaitHoldingLocks, update_mutex.
  rewrite (bind_ok _ _ _ _ _ (assert_held_runs c t th Hth He Hreg)), bind_gets.
  rewrite (bind_ok _ _ _ _ _ (update_cond_ok cv _ d c Hd)), bind_modify. cbn [mutex conds mthreads].
  erewrite (bind_ok (get_cond cv)); [|apply get_cond_ok, lookup_insert_eq].
  rewrite (unlock_runs _ t th) by (cbn; auto; apply Ht). done.
Qed.

Lemma wait_inv c t th cv timed d :
  Inv c -> mthreads c !! t = Some th -> mpc th = Inside -> conds c !! cv = Some d ->
  levels_ok (delete level_ (held_mutexes th)) = true -> safe_run (WaitHoldingLocks t cv timed) c.
Proof.
  intros HI Hth Hp Hd Hl. eexists. split; [by apply (wait_runs c t th cv timed d)|].
  destruct (inside_held c t th HI Hth) as [He Hreg]; [by rewrite Hp|].
  pose proof (inv_owner c t th HI Hth) as Hv. pose proof (inv_thread c t th HI Hth) as []. rewrite Hp in *.
  destruct (Hv eq_refl) as (H1 & _ & H3). destruct (unregister_held th mo_monitor) as (_ & Hmon & Hun).
  assert (sequence_ d = s32 (signals d)) as Hseq by (destruct HI as [[o HC] _]; apply (co_conds c o HC _ _ Hd)).
  apply (inv_cond_move c t th _ _ cv d); [done|].
  constructor; rewrite ?Hp; cbn; try done.
  - split; [done|]. unfold owner_view; cbn. eauto 10.
  - unfold waits_on; cbn. rewrite Z.eqb_refl. lia.
  - intros cv' Hne. unfold waits_on; cbn. by rewrite (proj2 (Z.eqb_neq cv cv')) by congruence.
  - constructor; cbn; try done.
    + intros _. rewrite <- (unregister_levels th mo_monitor) in Hl. exact Hl.
    + intros f [= <-]. unfold frame_ok; cbn. split; [|done]. eexists. rewrite lookup_insert_eq. split; [done|]. cbn. lia.
Qed.

Lemma safe_to_wait_ok h : registered h = negb (level_ =? kMonitorLock) -> alone h = true -> CheckSafeToWait h = Ok tt.
Proof. intros Hr Ha. unfold CheckSafeToWait. rewrite Hr, Ha. by destruct (level_ =? kMonitorLock). Qed.

Lemma call_wait_safe c t th cv timed :
  0 <= level_ < kLockLevelCount -> Inv c -> mthreads c !! t = Some th -> call_ok (OpWait cv) th c = true ->
  safe_run (th ← get_mthread t; lift (CheckSafeToWait (held_mutexes th)) ;; WaitHoldingLocks t cv timed) c.
Proof.
  intros Hrange HI Hth Hok. cbn in Hok. destruct (mpc th) eqn:Hp; try done. apply andb_true_iff in Hok as [[d Hd]%bool_decide_eq_true Ha].
  pose proof (inv_thread c t th HI Hth) as []. rewrite Hp in *.
  destruct (wait_inv c t th cv timed d HI Hth Hp Hd) as (c' & Hc & HI'); [by apply alone_levels|].
  exists c'. split; [|done]. rewrite (bind_ok _ _ _ _ _ (get_mthread_ok t th c Hth)), bind_lift.
  by rewrite (safe_to_wait_ok _ mo_held Ha).
Qed.

Lemma call_timed_wait_safe c t th cv :
  0 <= level_ < kLockLevelCount -> Inv c -> mthreads c !! t = Some th -> call_ok (OpTimedWait cv) th c = true -> safe_run (TimedWait t cv) c.
Proof.
  intros Hrange HI Hth Hok. destruct (call_wait_safe c t th cv true Hrange HI Hth Hok) as (c' & Hc & HI'). exists c'. split; [|done].
  cbn in Hok. destruct (mpc th) eqn:Hp; try done. destruct (inside_held c t th HI Hth) as [He Hreg]; [by rewrite Hp|].
  unfold TimedWait. by rewrite (bind_ok _ _ _ _ _ (assert_held_runs c t th Hth He Hreg)).
Qed.

(** [sequence_++]. *)
Lemma notify_inv c t th cv d p' :
  Inv c -> mthreads c !! t = Some th -> mpc th = Inside -> conds c !! cv = Some d ->
  (p' = SignalWake cv \/ p' = BroadcastLoad cv) ->
  Inv (move c t (at_pc p' th) (mutex c) (<[cv := next_sequence d]> (conds c))).
Proof.
  intros HI Hth Hp Hd Hp'. destruct (inside_held c t th HI Hth) as [He Hreg]; [by rewrite Hp|].
  pose proof (inv_owner c t th HI Hth) as Hv. pose proof (inv_thread c t th HI Hth) as []. rewrite Hp in *.
  destruct (Hv eq_refl) as (H1 & _ & H3).
  assert (sequence_ d = s32 (signals d)) as Hseq by (destruct HI as [[o HC] _]; apply (co_conds c o HC _ _ Hd)).
  assert (num_contenders_ (mutex c) = s32 (num_contenders_ (mutex c) + (0 - 0))) as Hn.
  { destruct HI as [[o HC] _]. rewrite (co_contenders c o HC), s32_s32_add. f_equal. lia. }
  apply (inv_cond_move c t th _ _ cv d); [done|].
  assert (sequence_ (next_sequence d) = s32 (signals (next_sequence d))) as Hs by (cbn; by rewrite Hseq, s32_s32_add).
  destruct Hp' as [-> | ->]; constructor; rewrite ?Hp; cbn; try done;
    try (split; [done|]; unfold owner_view; cbn; done); try (split; [done|lia]); try (unfold waits_on; cbn; lia);
    try (intros cv' [= <-]; repeat split; lia);
    (constructor; cbn; try done; intros cv' [= <-]; rewrite lookup_insert_eq; eauto).
Qed.

Lemma call_signal_safe c t th cv :
  Inv c -> mthreads c !! t = Some th -> call_ok (OpSignal cv) th c = true -> safe_run (CondSignal t cv) c.
Proof.
  intros HI Hth Hok. cbn in Hok. destruct (mpc th) eqn:Hp; try done. apply bool_decide_eq_true in Hok as [d Hd].
  destruct (inside_held c t th HI Hth) as [He Hreg]; [by rewrite Hp|].
  unfold safe_run, CondSignal. rewrite (bind_ok _ _ _ _ _ (assert_held_runs c t th Hth He Hreg)).
  rewrite (bind_ok _ _ _ _ _ (get_cond_ok _ d c Hd)). case_match; [|by exists c].
  rewrite (bind_ok _ _ _ _ _ (update_cond_ok cv _ d c Hd)), (run_goto _ t th) by done. eexists. split; [done|].
  apply (notify_inv c t th cv d); auto.
Qed.

Lemma call_broadcast_safe c t th cv :
  Inv c -> mthreads c !! t = Some th -> call_ok (OpBroadcast cv) th c = true -> safe_run (CondBroadcast t cv) c.
Proof.
  intros HI Hth Hok. cbn in Hok. destruct (mpc th) eqn:Hp; try done. apply bool_decide_eq_true in Hok as [d Hd].
  destruct (inside_held c t th HI Hth) as [He Hreg]; [by rewrite Hp|].
  unfold safe_run, CondBroadcast, checkM. rewrite bind_gets, bind_lift, He, Z.eqb_refl. cbn [check].
  rewrite (bind_ok _ _ _ _ _ (get_cond_ok _ d c Hd)). case_match; [|by exists c].
  rewrite (bind_ok _ _ _ _ _ (update_cond_ok cv _ d c Hd)), (run_goto _ t th) by done. eexists. split; [done|].
  apply (notify_inv c t th cv d); auto.
Qed.

Lemma other_locks_inv c t th h :
  Inv c -> mthreads c !! t = Some th -> in_client (mpc th) = true -> held_possible h = true ->
  registered h = registered (held_mutexes th) -> Inv (move c t (with_held h th) (mutex c) (conds c)).
Proof.
  intros HI Hth Hp Hh Hr. pose proof (inv_thread c t th HI Hth) as []. pose proof (inv_owner c t th HI Hth) as Hv.
  destruct (mpc th) eqn:E; try done; (apply (inv_move c t th); [done| |]).
  - constructor; cbn; rewrite ?E; auto; try done. by rewrite Hr.
  - unfold wake_kept; cbn; rewrite E; cbn; auto 10.
  - constructor; cbn; rewrite ?E; auto; try done; [split; [auto|by left]|by rewrite Hr].
  - destruct (Hv eq_refl) as [H1 _]. left. lia.
Qed.

End Steps.
