(* ===== verification/MutexProofs.v ===== *)
(** * Correctness of mutexes and condition variables

    In every interleaving at most one thread owns the mutex and no check fails
    ([mutex_exclusion]), calls that are not allowed abort ([misuse_aborts]), no
    wake-up of the mutex is lost and the code does not spin ([mutex_progress]), and
    signals and broadcasts reach the threads that wait ([notify_reaches_waiters]). *)

From S2P Require Import Prelude Mutex MutexInvariant MutexSteps.

(** ** Every step keeps the invariant *)

(** The set of threads does not change. *)
Definition mthread_ids (c : MConfig) : gset Z := dom (mthreads c).

Lemma keeps_update_mthread t f : invisible mthread_ids (update_mthread t f).
Proof.
  intros c a c'. unfold update_mthread, get_mthread. intros H. apply bind_inv in H as (th & c1 & H & [= _ <-]). rewrite bind_gets in H.
  destruct (mthreads c !! t) as [th'|] eqn:E; [|done]. injection H as -> <-. unfold mthread_ids. cbn. rewrite dom_insert_L.
  apply elem_of_dom_2 in E. set_solver.
Qed.

Lemma keeps_update_mutex g : invisible mthread_ids (update_mutex g).
Proof. intros c a c' [= _ <-]. done. Qed.

Lemma keeps_get_mthread t : invisible mthread_ids (get_mthread t).
Proof. apply invisible_bind; [apply invisible_gets|]. intros ts. destruct (ts !! t); [apply invisible_ret|apply invisible_lift]. Qed.

Lemma keeps_get_cond cv : invisible mthread_ids (get_cond cv).
Proof. apply invisible_bind; [apply invisible_gets|]. intros cs. destruct (cs !! cv); [apply invisible_ret|apply invisible_lift]. Qed.

Lemma keeps_update_cond cv g : invisible mthread_ids (update_cond cv g).
Proof. apply invisible_bind; [apply keeps_get_cond|]. intros d c a c' [= _ <-]. done. Qed.

Lemma keeps_requeue `{K : FutexKernel} cv cur : invisible mthread_ids (futex_cmp_requeue cv cur).
Proof.
  apply invisible_bind; [apply keeps_get_cond|]. intros d. destruct (_ =? _); [|apply invisible_ret].
  apply invisible_bind; [|intros; apply invisible_ret]. intros c a c' [= _ <-]. cbn. apply dom_fmap_L.
Qed.

#[export] Hint Resolve keeps_update_mthread keeps_update_mutex keeps_get_mthread keeps_get_cond keeps_update_cond
  keeps_requeue : invisible.

Section Proofs.
Context `{K : FutexKernel} {KL : FutexKernelLaws K}.
Context `{P : MutexParams}.

Lemma keeps_run_mpc ch t p : invisible mthread_ids (run_mpc ch t p).
Proof.
  destruct p; cbn;
    unfold ExclusiveLock_load, ExclusiveLock_cas, ExclusiveLock_contend, ExclusiveLock_wait, ExclusiveLock_woken,
      ExclusiveLock_acquired, ExclusiveTryLock_load, ExclusiveTryLock_cas, ExclusiveUnlock_load, ExclusiveUnlock_cas,
      ExclusiveUnlock_read, ExclusiveUnlock_wake, Wait_futex, Wait_returned, Wait_leave, Signal_wake, Broadcast_load,
      Broadcast_requeue, ExclusiveLock, LockReturns, CountLock, AssertHeld, AssertNotHeld, IsExclusiveHeld, update_held,
      futex_wake, cas_state, goto_pc, checkM; invisible.
Qed.

Lemma keeps_run_op t op : invisible mthread_ids (run_op t op).
Proof.
  destruct op; cbn;
    unfold ExclusiveTryLock, CondWait, TimedWait, WaitHoldingLocks, ExclusiveUnlock, CondSignal, CondBroadcast,
      ExclusiveLock, LockReturns, CountLock, AssertHeld, AssertNotHeld, IsExclusiveHeld, update_held, goto_pc, checkM; invisible.
Qed.


Section Range.
Context (level_range : 0 <= level_ < kLockLevelCount).

Lemma run_mpc_safe ch c t th : Inv c -> few c -> mthreads c !! t = Some th -> safe_run (run_mpc ch t (mpc th)) c.
Proof.
  intros HI Hfew Hth. destruct (mpc th) eqn:Hp; cbn; try (by exists c);
    eauto using lock_load_safe, lock_cas_safe, lock_contend_safe, lock_wait_safe, lock_woken_safe, lock_acquired_safe,
      try_load_safe, try_cas_safe, unlock_load_safe, unlock_cas_safe, unlock_read_safe, unlock_wake_safe,
      wait_futex_safe, wait_returned_safe, wait_leave_safe, signal_wake_safe, broadcast_load_safe, broadcast_requeue_safe.
Qed.

Lemma run_op_safe c t th op : Inv c -> mthreads c !! t = Some th -> call_ok op th c = true -> safe_run (run_op t op) c.
Proof.
  intros HI Hth Hok. destruct op; cbn [run_op].
  - by eapply call_lock_safe.
  - by eapply call_try_safe.
  - cbn in Hok. destruct (mpc th) eqn:Hp; try done. by eapply call_unlock_safe.
  - by eapply call_wait_safe.
  - cbn in Hok. destruct (mpc th) eqn:Hp; try done. apply andb_true_iff in Hok as [[d Hd]%bool_decide_eq_true Hl].
    by eapply wait_inv.
  - by eapply call_timed_wait_safe.
  - by eapply call_signal_safe.
  - by eapply call_broadcast_safe.
Qed.

Lemma few_keeps c c' : few c -> mthread_ids c' = mthread_ids c -> few c'.
Proof. unfold few, mthread_ids. intros Hf Hd. by rewrite <- size_dom, Hd, size_dom. Qed.

Lemma mstep_safe a c : Inv c -> few c -> allowed a c = true ->
  match mstep a c with None => True | Some (Ok c') => Inv c' /\ few c' | Some (Fault _) => False end.
Proof.
  intros HI Hfew Hal.
  assert (forall m : M MConfig unit, safe_run m c -> invisible mthread_ids m ->
    match (match m c with Ok (_, c') => Ok c' | Fault f => Fault f end) with Ok c' => Inv c' /\ few c' | Fault _ => False end) as Hrun.
  { intros m (c' & Hm & HI') Hk. rewrite Hm. split; [done|]. by eapply few_keeps, Hk. }
  destruct a as [t op|t ch|t|t|t h]; cbn [mstep allowed] in *; destruct (mthreads c !! t) as [th|] eqn:Hth; try done.
  - destruct (in_client _); [|done]. apply Hrun; [by eapply run_op_safe|apply keeps_run_op].
  - destruct (_ && _); [|done]. apply Hrun; [by apply run_mpc_safe|apply keeps_run_mpc].
  - destruct (asleep _) eqn:E; [|done]. apply Hrun; [|apply keeps_update_mthread].
    eexists. split; [by apply run_goto|]. by apply return_inv.
  - destruct (is_timed _) eqn:E; [|done]. apply Hrun; [|apply keeps_update_mthread].
    eexists. split; [by apply run_goto|]. apply return_inv; [done..|]. by destruct (mpc th).
  - destruct (_ && _) eqn:E; [|done]. apply Hrun; [|apply keeps_update_mthread].
    apply andb_true_iff in E as [[E1 E2]%andb_true_iff E3%eqb_prop].
    eexists. split; [by apply update_mthread_ok|]. by apply other_locks_inv.
Qed.

Lemma minitial_inv c : minitial c -> Inv c.
Proof.
  intros []. assert (forall w, (forall th, mpc th = Outside -> w th = 0) -> total w (mthreads c) = 0) as Hz.
  { intros w Hw. rewrite (total_ext w (mthreads c) (fun _ => 0)); [|intros t th Hth; apply Hw, (mi_threads t th Hth)].
    clear. induction (mthreads c) as [|t th ts Hn IH] using map_ind; [done|]. by rewrite total_insert_new. }
  split.
  - exists None. split.
    + intros t th Hth. by rewrite (proj1 (mi_threads t th Hth)).
    + cbn. by rewrite mi_mutex.
    + rewrite mi_mutex, Hz; [done|]. by intros th ->.
    + intros cv d Hd. rewrite (mi_conds cv d Hd), Hz; [done|]. by intros th ->.
    + intros t th Hth. destruct (mi_threads t th Hth) as (Hp & Hh & Hr). constructor; rewrite ?Hp; try done. by eapply mi_ids.
    + intros t th cv d u thu f Hth Hn. by rewrite (proj1 (mi_threads t th Hth)) in Hn.
  - intros _ t th Hth Hs. by rewrite (proj1 (mi_threads t th Hth)) in Hs.
Qed.

Lemma mreachable_inv c : mreachable c -> few c -> Inv c.
Proof.
  intros (c0 & Hi & Hr) Hfew.
  assert (forall c1 c2, rtc mcstep c1 c2 -> mthread_ids c1 = mthread_ids c2) as Hdom.
  { intros c1 c2 H. induction H as [|c1 c2 c3 [a [_ Hs]] _ IH]; [done|]. rewrite <- IH. clear -Hs.
    assert (forall (m : M MConfig unit), invisible mthread_ids m ->
      Some (match m c1 with Ok (_, c') => Ok c' | Fault f => Fault f end) = Some (Ok c2) -> mthread_ids c1 = mthread_ids c2) as Hk.
    { intros m Hm. destruct (m c1) as [[x c']|] eqn:E; [|done]. intros [= <-]. symmetry. by eapply Hm. }
    destruct a as [t op|t ch|t|t|t h]; cbn [mstep] in Hs; destruct (mthreads c1 !! t) as [th|]; try done;
      match type of Hs with (if ?b then _ else _) = _ => destruct b; [|done] end;
      (eapply Hk; [|exact Hs]); [apply keeps_run_op|apply keeps_run_mpc|apply keeps_update_mthread..]. }
  apply minitial_inv in Hi. assert (few c0) as Hf0 by (eapply few_keeps; [exact Hfew|by apply Hdom]). clear Hfew.
  induction Hr as [|c0 c1 c2 [a [Ha Hs]] _ IH]; [done|].
  pose proof (mstep_safe a c0 Hi Hf0 Ha) as H. rewrite Hs in H. destruct H as [HI1 Hf1]. auto.
Qed.

End Range.

(** ** Progress *)

(** A step in which no compare-and-exchange fails for no reason. *)
Definition quiet (c c' : MConfig) : Prop := exists t n, mstep (Go t (mkMChoice false n)) c = Some (Ok c').

(** A quiet step after which the mutex is free. *)
Definition quiet_free (c c' : MConfig) : Prop := quiet c c' /\ state_ (mutex c') = 0.

(** How far a thread is from taking a free mutex, or from having woken a
    thread. *)
Definition rank (p : MutexPC) : Z :=
  match p with
  | LockCas _ | TryCas => 1
  | LockLoad _ | TryLoad => 2
  | LockWoken _ | WaitReturned _ _ => 3
  | LockWait _ | WaitFutex _ => 4
  | LockContend _ => 5
  | UnlockWake _ => 8
  | UnlockRead _ => 9
  | _ => 0
  end.

(** A thread that is going to lock the mutex. *)
Definition wants_mutex (p : MutexPC) : bool :=
  match p with
  | LockLoad _ | LockCas _ | LockContend _ | LockWait _ | LockAsleep _ | LockWoken _ | WaitRequeued _ | WaitReturned _ _ => true
  | _ => false
  end.

Definition work (c : MConfig) : Z := total (fun th => rank (mpc th)) (mthreads c).

Lemma rank_bounds p : 0 <= rank p <= 9.
Proof. destruct p; cbn; lia. Qed.

Lemma go_inv c t ch c' : mstep (Go t ch) c = Some (Ok c') ->
  exists th, mthreads c !! t = Some th /\ in_client (mpc th) = false /\ asleep (mpc th) = false /\ run_mpc ch t (mpc th) c = Ok (tt, c').
Proof.
  cbn [mstep]. destruct (mthreads c !! t) as [th|]; [|done]. destruct (in_client (mpc th)) eqn:E1, (asleep (mpc th)) eqn:E2; try done.
  cbn [negb andb]. destruct (run_mpc ch t (mpc th) c) as [[[] c1]|] eqn:E; [|done]. intros [= <-]. eauto.
Qed.

(** Where a quiet step of [t] from a free mutex leads: one thread moves, or
    [t] wakes another. *)
Definition free_move (c c' : MConfig) (t : Z) (th : MThread) : Prop :=
  exists c1 th', mthreads c' = <[t := th']> (mthreads c1) /\ mthreads c1 !! t = Some th /\
    (wants_mutex (mpc th) = true -> wants_mutex (mpc th') = true) /\
    ((mthreads c1 = mthreads c /\ rank (mpc th') < rank (mpc th)) \/
     (rank (mpc th') + 3 < rank (mpc th) /\
      exists u thu, u <> t /\ mthreads c !! u = Some thu /\ sleeps_at AtState (mpc thu) = true /\
        mthreads c1 = <[u := woken false thu]> (mthreads c))).

Lemma free_step_cases c t th n c' :
  Inv c -> state_ (mutex c) = 0 -> mthreads c !! t = Some th -> in_client (mpc th) = false -> asleep (mpc th) = false ->
  run_mpc (mkMChoice false n) t (mpc th) c = Ok (tt, c') -> state_ (mutex c') = 0 -> free_move c c' t th.
Proof.
  intros HI H0 Hth Hc Ha Hrun H0'.
  assert (owns (mpc th) = false) as Ho.
  { apply not_true_is_false. intros Ho. destruct (inv_owner c t th HI Hth Ho). lia. }
  assert (forall p' m' cs', c' = move c t (at_pc p' th) m' cs' -> rank p' < rank (mpc th) ->
    (wants_mutex (mpc th) = true -> wants_mutex p' = true) -> free_move c c' t th) as Hmove.
  { intros p' m' cs' -> Hr Hw. exists c, (at_pc p' th). split; [done|]. split; [done|]. split; [done|]. by left. }
  destruct (mpc th) eqn:Hp; try done; cbn [run_mpc] in Hrun; cbn in Hmove.
  - unfold ExclusiveLock_load in Hrun. rewrite bind_gets, H0 in Hrun. cbn in Hrun. rewrite (run_goto _ t th) in Hrun by done.
    injection Hrun as <-. eapply Hmove; [reflexivity|done..].
  - unfold ExclusiveLock_cas in Hrun. cbn [spurious_fail] in Hrun. rewrite (bind_ok _ _ _ _ _ (cas_state_succeeds 0 1 c H0)) in Hrun.
    rewrite (run_goto _ t th) in Hrun by done. by injection Hrun as <-.
  - unfold ExclusiveLock_contend in Hrun. rewrite (run_goto_mutex _ t th) in Hrun by done. injection Hrun as <-. eapply Hmove; [reflexivity|done..].
  - unfold ExclusiveLock_wait in Hrun. rewrite bind_gets, H0 in Hrun. cbn in Hrun. rewrite (run_goto _ t th) in Hrun by done.
    injection Hrun as <-. eapply Hmove; [reflexivity|done..].
  - unfold ExclusiveLock_woken in Hrun. rewrite (run_goto_mutex _ t th) in Hrun by done. injection Hrun as <-. eapply Hmove; [reflexivity|done..].
  - unfold ExclusiveTryLock_load in Hrun. rewrite bind_gets, H0 in Hrun. cbn in Hrun. rewrite (run_goto _ t th) in Hrun by done.
    injection Hrun as <-. eapply Hmove; [reflexivity|done..].
  - unfold ExclusiveTryLock_cas in Hrun. cbn [spurious_fail] in Hrun. rewrite (bind_ok _ _ _ _ _ (cas_state_succeeds 0 1 c H0)) in Hrun.
    rewrite (run_goto _ t th) in Hrun by done. by injection Hrun as <-.
  - unfold ExclusiveUnlock_read in Hrun. rewrite bind_gets in Hrun. destruct (0 <? _); rewrite (run_goto _ t th) in Hrun by done;
      injection Hrun as <-; [|destruct f]; (eapply Hmove; [reflexivity|done..]).
  - unfold ExclusiveUnlock_wake in Hrun.
    destruct (futex_wake_runs AtState n c) as [[Hno Hr]|(u & thu & Hu & Hs & Hr)]; cbn [pick] in Hrun;
      rewrite (bind_ok _ _ _ _ _ Hr) in Hrun.
    + rewrite (run_goto _ t th) in Hrun by done. injection Hrun as <-. destruct f; eapply Hmove; [reflexivity|done..].
    + assert (u <> t) as Hne by (intros ->; assert (thu = th) by congruence; subst thu; by rewrite Hp in Hs).
      set (c1 := move c u _ _ _) in *. assert (mthreads c1 !! t = Some th) as Hth1 by (unfold c1; rewrite move_lookup_ne; done).
      rewrite (run_goto _ t th) in Hrun by done. injection Hrun as <-. exists c1, (at_pc (unlocked_pc f) th).
      split; [done|]. split; [done|]. split; [by rewrite Hp|]. right.
      split; [rewrite Hp; by destruct f|]. exists u, thu. done.
  - unfold Wait_futex in Hrun. destruct (frame_cond c t th f HI Hth) as (d & Hd & _); [by rewrite Hp|].
    rewrite (bind_ok _ _ _ _ _ (get_cond_ok _ d c Hd)) in Hrun.
    destruct (_ =? _); rewrite (run_goto _ t th) in Hrun by done; injection Hrun as <-; eapply Hmove; [reflexivity|done..].
  - unfold Wait_returned in Hrun. rewrite (lock_runs c t th) in Hrun by (rewrite ?Hp; done). injection Hrun as <-. eapply Hmove; [reflexivity|done..].
Qed.


(** A free step that leaves the mutex free takes some work off, and a thread
    that wants the mutex goes on wanting it. *)
Lemma free_step_decreases c c' : Inv c -> state_ (mutex c) = 0 -> quiet_free c c' -> work c' < work c.
Proof.
  intros HI H0 [(t & n & Hs) H0']. apply go_inv in Hs as (th & Hth & Hc & Ha & Hrun).
  destruct (free_step_cases c t th n c' HI H0 Hth Hc Ha Hrun H0') as (c1 & th' & E & Hth1 & _ & Hcase).
  unfold work. rewrite E, (total_insert _ t th th') by done. destruct Hcase as [[-> Hr]|(Hr & u & thu & Hne & Hu & Hs & ->)]; [lia|].
  rewrite (total_insert _ u thu) by done. pose proof (rank_bounds (mpc thu)).
  assert (rank (mpc (woken false thu)) = 3) as -> by (cbn; by destruct (mpc thu)). lia.
Qed.

Definition someone_wants (c : MConfig) : Prop := exists t th, mthreads c !! t = Some th /\ wants_mutex (mpc th) = true.

Lemma free_step_wants c c' : Inv c -> state_ (mutex c) = 0 -> quiet_free c c' -> someone_wants c -> someone_wants c'.
Proof.
  intros HI H0 [(t & n & Hs) H0'] (w & thw & Hw & Hwants). apply go_inv in Hs as (th & Hth & Hc & Ha & Hrun).
  destruct (free_step_cases c t th n c' HI H0 Hth Hc Ha Hrun H0') as (c1 & th' & E & Hth1 & Hkeep & Hcase).
  destruct (decide (w = t)) as [->|Hne].
  - exists t, th'. rewrite E, lookup_insert_eq. split; [done|]. apply Hkeep. congruence.
  - unfold someone_wants. setoid_rewrite E. destruct Hcase as [[-> _]|(_ & u & thu & Hne' & Hu & Hs & ->)].
    + exists w, thw. by rewrite lookup_insert_ne.
    + destruct (decide (w = u)) as [->|Hwu].
      * exists u, (woken false thu). rewrite lookup_insert_ne, lookup_insert_eq by done. split; [done|]. cbn. by destruct (mpc thu).
      * exists w, thw. by rewrite !lookup_insert_ne by done.
Qed.

(** A thread that is neither in client code nor asleep can step. *)
Lemma mcan_go (level_range : 0 <= level_ < kLockLevelCount) c t th :
  Inv c -> few c -> mthreads c !! t = Some th -> in_client (mpc th) = false -> asleep (mpc th) = false ->
  exists c', mstep (Go t (mkMChoice false 0)) c = Some (Ok c').
Proof.
  intros HI Hfew Hth Hc Ha. destruct (run_mpc_safe (mkMChoice false 0) c t th HI Hfew Hth) as (c' & Hr & _).
  exists c'. cbn [mstep]. rewrite Hth, Hc, Ha. cbn [negb andb]. by rewrite Hr.
Qed.

Lemma free_can_step (level_range : 0 <= level_ < kLockLevelCount) c :
  Inv c -> few c -> state_ (mutex c) = 0 -> someone_wants c -> exists c', quiet c c'.
Proof.
  intros HI Hfew H0 (t & th & Hth & Hw).
  assert (exists u thu, mthreads c !! u = Some thu /\ in_client (mpc thu) = false /\ asleep (mpc thu) = false) as (u & thu & Hu & Hc & Ha).
  { destruct (asleep (mpc th)) eqn:Ha; [|exists t, th; split; [done|]; split; [by destruct (mpc th)|done]].
    destruct (proj2 HI H0 t th Hth) as (u & thu & Hu & Hact); [by destruct (mpc th)|]. exists u, thu. by destruct (mpc thu). }
  destruct (mcan_go level_range c u thu HI Hfew Hu Hc Ha) as [c' Hs]. exists c', u, 0. exact Hs.
Qed.

Lemma quiet_safe (level_range : 0 <= level_ < kLockLevelCount) c c' : Inv c -> few c -> quiet c c' -> Inv c' /\ few c'.
Proof.
  intros HI Hfew (t & n & Hs). pose proof (mstep_safe level_range (Go t (mkMChoice false n)) c HI Hfew eq_refl) as H.
  by rewrite Hs in H.
Qed.

Lemma free_run (level_range : 0 <= level_ < kLockLevelCount) n c c' :
  Inv c -> few c -> state_ (mutex c) = 0 -> someone_wants c -> nsteps quiet_free n c c' ->
  Inv c' /\ few c' /\ state_ (mutex c') = 0 /\ someone_wants c' /\ work c' + Z.of_nat n <= work c.
Proof.
  intros HI Hfew H0 Hw Hr. induction Hr as [c|n c c1 c2 Hs _ IH]; [split; [done|]; split; [done|]; split; [done|]; split; [done|lia]|].
  destruct (quiet_safe level_range c c1 HI Hfew (proj1 Hs)) as [HI1 Hf1].
  pose proof (free_step_decreases c c1 HI H0 Hs). pose proof (free_step_wants c c1 HI H0 Hs Hw) as Hw1.
  destruct (IH HI1 Hf1 (proj2 Hs) Hw1) as (? & ? & ? & ? & ?). split; [done|]. split; [done|]. split; [done|]. split; [done|lia].
Qed.

Lemma work_bounds c : 0 <= work c <= 9 * Z.of_nat (size (mthreads c)).
Proof.
  split; [apply total_nonneg; intros; apply rank_bounds|].
  apply (total_le (fun th => rank (mpc th)) 9). intros. apply rank_bounds.
Qed.

End Proofs.

(** C20. Mutual exclusion.  In every reachable state, whatever the interleaving,
    the compare-and-exchanges that fail for no reason, the signals and the
    time-outs: at most one thread owns the mutex, from the change of [state_] to
    1 to the change back; [state_] is 1 exactly while there is an owner;
    [IsExclusiveHeld] tells a thread outside these functions whether it holds the
    mutex; and no step of calls that clients may make ([call_ok]) fails a check of
    the debug build, dies of an unexpected state, or dereferences null.  There are
    fewer than 2^30 threads. *)
Theorem mutex_exclusion `{K : FutexKernel} {KL : FutexKernelLaws K} `{P : MutexParams} c :
  0 <= level_ < kLockLevelCount -> mreachable c -> few c ->
  (forall t u th thu, mthreads c !! t = Some th -> mthreads c !! u = Some thu ->
     owns (mpc th) = true -> owns (mpc thu) = true -> t = u) /\
  (state_ (mutex c) = 1 /\ (exists t th, mthreads c !! t = Some th /\ owns (mpc th) = true) \/
   state_ (mutex c) = 0 /\ forall t th, mthreads c !! t = Some th -> owns (mpc th) = false) /\
  (forall t th, mthreads c !! t = Some th -> in_client (mpc th) = true ->
     IsExclusiveHeld t c = Ok (match mpc th with Inside => true | _ => false end, c)) /\
  (forall a f, allowed a c = true -> mstep a c <> Some (Fault f)).
Proof.
  intros Hl Hr Hfew. pose proof (mreachable_inv Hl c Hr Hfew) as HI. destruct HI as [[o HC] HW] eqn:E. clear E HW.
  split; [|split; [|split]].
  - intros t u th thu Ht Hu Ho1 Ho2. pose proof (owner_is c o t th HC Ht Ho1). pose proof (owner_is c o u thu HC Hu Ho2). congruence.
  - pose proof (co_mutex c o HC) as Hm. destruct o as [t|].
    + left. destruct Hm as (th & Hth & H1 & _). split; [done|]. exists t, th. split; [done|].
      rewrite (co_owns c _ HC t th Hth). by apply bool_decide_true.
    + right. split; [apply Hm|]. intros t th Hth. by rewrite (co_owns c _ HC t th Hth).
  - intros t th Hth Hc. destruct (mpc th) eqn:Hp; try done.
    + pose proof (outside_held c t th HI Hth) as He. rewrite Hp in He. rewrite (is_held_runs c t th Hth), He; [done..|].
      intros Ht. rewrite Ht, Z.eqb_refl in He. by discriminate He.
    + by apply (call_held_runs c t th HI).
  - intros a f Ha Hs. pose proof (mstep_safe Hl a c HI Hfew Ha) as H. by rewrite Hs in H.
Qed.

(** C21. No lost wake-up, no deadlock and no endless spinning.  When the mutex is
    free and a thread is in [ExclusiveLock], called by a client or at the end of a
    wait, and possibly asleep: whatever threads the scheduler picks, as long as
    the mutex stays free some thread can go on, and after at most nine steps per
    thread, if no compare-and-exchange fails for no reason, it is taken.  When it
    is taken, the owner can go on or is in the client's code. *)
Theorem mutex_progress `{K : FutexKernel} {KL : FutexKernelLaws K} `{P : MutexParams} c :
  0 <= level_ < kLockLevelCount -> mreachable c -> few c ->
  (state_ (mutex c) = 0 -> someone_wants c -> forall n c', nsteps quiet_free n c c' ->
     (exists c'', quiet c' c'') /\ Z.of_nat n <= 9 * Z.of_nat (size (mthreads c))) /\
  (state_ (mutex c) = 1 -> exists t th, mthreads c !! t = Some th /\ owns (mpc th) = true /\
     (mpc th = Inside \/ exists c', mstep (Go t (mkMChoice false 0)) c = Some (Ok c'))).
Proof.
  intros Hl Hr Hfew. pose proof (mreachable_inv Hl c Hr Hfew) as HI. split.
  - intros H0 Hw n c' Hn. destruct (free_run Hl n c c' HI Hfew H0 Hw Hn) as (HI' & Hf' & H0' & Hw' & Hle).
    split; [by apply free_can_step|]. pose proof (work_bounds c). pose proof (work_bounds c'). lia.
  - intros H1. destruct HI as [[o HC] HW] eqn:E. pose proof (co_mutex c o HC) as Hm. destruct o as [t|]; [|destruct Hm; lia].
    destruct Hm as (th & Hth & _). pose proof (co_owns c _ HC t th Hth) as Ho. rewrite bool_decide_true in Ho by done.
    exists t, th. split; [done|]. split; [done|]. destruct (in_client (mpc th)) eqn:Hc; [left; by destruct (mpc th)|right].
    apply (mcan_go Hl c t th HI Hfew Hth Hc). by destruct (mpc th).
Qed.

(** The threads in a wait for [cv] that have released the mutex and are not yet
    asleep. *)
Definition going_to_sleep (cv : Z) (p : MutexPC) (f : WaitFrame) : Prop :=
  (p = UnlockRead (Some f) \/ p = UnlockWake (Some f) \/ p = WaitFutex f) /\ cond_ f = cv.

(** While the last step of a signal or broadcast is to come, no thread that waits
    has seen it. *)
Lemma notified_sequence `{P : MutexParams} c t th cv d u thu f :
  Inv c -> mthreads c !! t = Some th -> notifies (mpc th) = Some cv -> conds c !! cv = Some d ->
  mthreads c !! u = Some thu -> going_to_sleep cv (mpc thu) f -> signals d - seen f < 2 ^ 32 -> cur_sequence f <> sequence_ d.
Proof.
  intros [[o HC] HW] Hth Hn Hd Hu [Hp Hcv] Hlt. assert (frame_of (mpc thu) = Some f) as Hf by (destruct Hp as [-> | [-> | ->]]; done).
  pose proof (co_notify c o HC t th cv d u thu f Hth Hn Hd Hu Hf Hcv) as Hs.
  destruct (mo_frame _ _ _ (co_threads c o HC u thu Hu) f Hf) as (_ & -> & _).
  destruct (co_conds c o HC cv d Hd) as [-> _]. unfold s32. mlia.
Qed.

(** What the last step of [Signal] does. *)
Lemma signal_wake_cases `{K : FutexKernel} {KL : FutexKernelLaws K} ch t th cv c c' :
  mthreads c !! t = Some th -> mpc th = SignalWake cv -> Signal_wake ch t cv c = Ok (tt, c') ->
  conds c' = conds c /\ mutex c' = mutex c /\
  ((forall u thu, mthreads c !! u = Some thu -> sleeps_at (AtSequence cv) (mpc thu) = false) /\
   mthreads c' = <[t := at_pc Inside th]> (mthreads c) \/
   exists w thw f, mthreads c !! w = Some thw /\ mpc thw = WaitAsleep f /\ cond_ f = cv /\
     mthreads c' = <[t := at_pc Inside th]> (<[w := at_pc (WaitReturned f false) thw]> (mthreads c))).
Proof.
  intros Hth Hp. unfold Signal_wake.
  destruct (futex_wake_runs (AtSequence cv) (pick ch) c) as [[Hno Hr]|(w & thw & Hw & Hs & Hr)]; rewrite (bind_ok _ _ _ _ _ Hr).
  - rewrite (run_goto _ t th) by done. intros [= <-]. auto.
  - assert (w <> t) as Hne by (intros ->; assert (thw = th) by congruence; subst thw; by rewrite Hp in Hs).
    rewrite (run_goto _ t th) by (rewrite move_lookup_ne; done). intros [= <-]. split; [done|]. split; [done|]. right.
    destruct (mpc thw) eqn:Hpw; try done. cbn in Hs. apply Z.eqb_eq in Hs. exists w, thw, f. split; [done|]. split; [done|].
    split; [done|]. cbn. unfold woken. by rewrite Hpw.
Qed.

(** And of [Broadcast]. *)
Lemma requeue_cases `{P : MutexParams} t th cv cur c c' :
  Inv c -> mthreads c !! t = Some th -> mpc th = BroadcastRequeue cv cur -> Broadcast_requeue t cv cur c = Ok (tt, c') ->
  conds c' = conds c /\ mutex c' = mutex c /\ mthreads c' = <[t := at_pc Inside th]> (requeue cv <$> mthreads c).
Proof.
  intros HI Hth Hp. unfold Broadcast_requeue. destruct (notify_cond c t th cv HI Hth) as [d Hd]; [by rewrite Hp|].
  rewrite (mo_requeue _ _ _ (inv_thread c t th HI Hth) cv cur d Hp Hd), (bind_ok _ _ _ _ _ (requeue_runs c cv d Hd)).
  rewrite (run_goto _ t th); [by intros [= <-]|]. cbn. rewrite lookup_fmap, Hth. cbn. unfold requeue. by rewrite Hp.
Qed.

(** Signals and broadcasts reach the threads that wait.  When [Signal] or
    [Broadcast] of [cv] ends, a thread that has released the mutex to wait and is
    not yet asleep will not go to sleep, because [sequence_] is not the value that
    it read, unless it was overtaken by 2^32 signals.  [Signal] wakes exactly one
    of the sleeping threads if there is one, and [Broadcast] leaves none asleep
    there: all of them now sleep at the mutex, which the broadcasting thread
    holds. *)
Theorem notify_reaches_waiters `{K : FutexKernel} {KL : FutexKernelLaws K} `{P : MutexParams} c t th cv ch c' :
  0 <= level_ < kLockLevelCount -> mreachable c -> few c -> mthreads c !! t = Some th ->
  mstep (Go t ch) c = Some (Ok c') ->
  (mpc th = SignalWake cv \/ exists cur, mpc th = BroadcastRequeue cv cur) ->
  (forall d u thu f, conds c' !! cv = Some d -> mthreads c' !! u = Some thu -> going_to_sleep cv (mpc thu) f ->
     signals d - seen f < 2 ^ 32 -> cur_sequence f <> sequence_ d) /\
  (mpc th = SignalWake cv ->
     (forall u thu, mthreads c !! u = Some thu -> sleeps_at (AtSequence cv) (mpc thu) = false) \/
     exists w f, option_map mpc (mthreads c !! w) = Some (WaitAsleep f) /\ cond_ f = cv /\
       option_map mpc (mthreads c' !! w) = Some (WaitReturned f false) /\
       forall u, u <> w -> u <> t -> mthreads c' !! u = mthreads c !! u) /\
  (mpc th <> SignalWake cv -> state_ (mutex c') = 1 /\ option_map mpc (mthreads c' !! t) = Some Inside /\
     forall u thu, mthreads c !! u = Some thu -> sleeps_at (AtSequence cv) (mpc thu) = true ->
       exists f, mpc thu = WaitAsleep f /\ option_map mpc (mthreads c' !! u) = Some (WaitRequeued f)).
Proof.
  intros Hl Hr Hfew Hth Hs Hcase. pose proof (mreachable_inv Hl c Hr Hfew) as HI.
  apply go_inv in Hs as (th0 & Hth0 & _ & _ & Hrun). assert (th0 = th) as -> by congruence. clear Hth0.
  assert (notifies (mpc th) = Some cv) as Hn by (destruct Hcase as [-> | [cur ->]]; done).
  destruct (notify_cond c t th cv HI Hth Hn) as [d Hd].
  assert (forall thu f, going_to_sleep cv (mpc thu) f -> forall f', mpc thu <> Inside /\ mpc thu <> WaitReturned f' false /\ mpc thu <> WaitRequeued f') as Hg.
  { intros thu f [[-> | [-> | ->]] _] f'; done. }
  destruct Hcase as [Hp|[cur Hp]]; rewrite Hp in Hrun |- *; cbn [run_mpc] in Hrun.
  - destruct (signal_wake_cases ch t th cv c c' Hth Hp Hrun) as (Hc & _ & Hcases). split; [|split; [|done]].
    + intros d' u thu f Hd' Hu Hs Hlt. rewrite Hc in Hd'. apply (notified_sequence c t th cv d' u thu f); try done.
      destruct (Hg thu f Hs f) as (Hg1 & _). destruct Hcases as [[_ E]|(w & thw & f' & Hw & _ & _ & E)]; rewrite E in Hu;
        (apply lookup_insert_Some in Hu as [[_ <-]|[_ Hu]]; [done|]); [done|].
      apply lookup_insert_Some in Hu as [[_ <-]|[_ Hu]]; [|done]. by destruct (Hg _ f Hs f') as (_ & Hg2 & _).
    + intros _. destruct Hcases as [[Hno _]|(w & thw & f' & Hw & Hpw & Hcv & E)]; [by left|right].
      assert (w <> t) as Hwt by (intros ->; congruence).
      exists w, f'. split; [by rewrite Hw; cbn; rewrite Hpw|]. split; [done|]. rewrite E. split.
      * by rewrite lookup_insert_ne, lookup_insert_eq by done.
      * intros u Huw Hut. by rewrite !lookup_insert_ne by done.
  - destruct (requeue_cases t th cv cur c c' HI Hth Hp Hrun) as (Hc & Hm & E). split; [|split; [done|]].
    + intros d' u thu f Hd' Hu Hs Hlt. rewrite Hc in Hd'. apply (notified_sequence c t th cv d' u thu f); try done.
      rewrite E in Hu. apply lookup_insert_Some in Hu as [[_ <-]|[_ Hu]]; [by destruct (Hg _ f Hs f)|].
      rewrite lookup_fmap in Hu. apply fmap_Some in Hu as (thu0 & Hu & ->). rewrite Hu. f_equal. unfold requeue in *.
      destruct (mpc thu0) eqn:Hpu; try done. destruct (_ =? _); [|done]. by destruct (Hg _ f Hs f0) as (_ & _ & Hg3).
    + intros _. pose proof (inv_owner c t th HI Hth) as Hv. rewrite Hp in Hv. destruct (Hv eq_refl) as [H1 _].
      rewrite Hm, E, lookup_insert_eq. split; [done|]. split; [done|]. intros u thu Hu Hs.
      destruct (mpc thu) eqn:Hpu; try done. exists f. split; [done|].
      rewrite lookup_insert_ne by (intros ->; congruence). rewrite lookup_fmap, Hu. cbn in *. unfold requeue. by rewrite Hpu, Hs.
Qed.

Definition needs_mutex (op : MutexOp) : bool := match op with OpLock | OpTryLock => false | _ => true end.

Lemma assert_held_fails `{P : MutexParams} c t th :
  Inv c -> mthreads c !! t = Some th -> mpc th = Outside -> AssertHeld t c = Fault CheckFailed.
Proof.
  intros HI Hth Hp. assert (owns (mpc th) = false) as Ho by (by rewrite Hp). pose proof (outside_held c t th HI Hth Ho) as He.
  unfold AssertHeld. erewrite (bind_ok (IsExclusiveHeld t)); [|apply (is_held_runs c t th Hth); intros Ht; by rewrite Ht, Z.eqb_refl in He].
  by rewrite He.
Qed.

Lemma assert_not_held_fails `{P : MutexParams} c t th :
  Inv c -> mthreads c !! t = Some th -> mpc th = Inside -> AssertNotHeld t c = Fault CheckFailed.
Proof. intros HI Hth Hp. unfold AssertNotHeld. by rewrite (bind_ok _ _ _ _ _ (call_held_runs c t th HI Hth Hp)). Qed.

Lemma safe_to_wait_result `{B : BaseMutex} h : CheckSafeToWait h = Ok tt \/ CheckSafeToWait h = Fault CheckFailed.
Proof. unfold CheckSafeToWait. destruct (_ || _); cbn; [destruct (alone h)|]; auto. Qed.

(** Calls that clients may not make abort in a debug build, in every reachable
    state: unlocking, waiting, signalling and broadcasting without the mutex, and
    locking a mutex that is not recursive a second time. *)
Theorem misuse_aborts `{K : FutexKernel} {KL : FutexKernelLaws K} `{P : MutexParams} c t th op :
  0 <= level_ < kLockLevelCount -> mreachable c -> few c -> mthreads c !! t = Some th ->
  (mpc th = Outside /\ needs_mutex op = true) \/ (mpc th = Inside /\ needs_mutex op = false /\ recursive_ = false) ->
  mstep (Call t op) c = Some (Fault CheckFailed).
Proof.
  intros Hl Hr Hfew Hth Hcase. pose proof (mreachable_inv Hl c Hr Hfew) as HI. cbn [mstep]. rewrite Hth.
  assert (in_client (mpc th) = true) as -> by (destruct Hcase as [[-> _]|[-> _]]; done).
  enough (run_op t op c = Fault CheckFailed) as -> by done. destruct Hcase as [[Hp Hop]|(Hp & Hop & Hrec)].
  - pose proof (assert_held_fails c t th HI Hth Hp) as Ha.
    assert (forall timed cv, WaitHoldingLocks t cv timed c = Fault CheckFailed) as Hw by (intros; by apply bind_fault).
    destruct op; try done; cbn [run_op]; try (by apply bind_fault).
    + unfold CondWait. rewrite (bind_ok _ _ _ _ _ (get_mthread_ok t th c Hth)), bind_lift.
      by destruct (safe_to_wait_result (held_mutexes th)) as [-> | ->].
    + unfold CondBroadcast, checkM. rewrite bind_gets, bind_lift, (outside_held c t th HI Hth) by (by rewrite Hp). done.
  - destruct op; try done; cbn [run_op]; unfold ExclusiveLock, ExclusiveTryLock; rewrite Hrec; apply bind_fault;
      by apply (assert_not_held_fails c t th).
Qed.

(** ** Examples *)

(** A list of actions that clients may do, all of which are possible. *)
Fixpoint run_mactions `{K : FutexKernel} `{P : MutexParams} (acts : list MAction) (c : MConfig) : option MConfig :=
  match acts with
  | [] => Some c
  | a :: acts =>
      if allowed a c then match mstep a c with Some (Ok c') => run_mactions acts c' | _ => None end else None
  end.

Lemma run_mactions_steps `{K : FutexKernel} `{P : MutexParams} acts c c' : run_mactions acts c = Some c' -> rtc mcstep c c'.
Proof.
  revert c. induction acts as [|a acts IH]; cbn; intros c H; [by injection H as <-|].
  destruct (allowed a c) eqn:Ha; [|done]. destruct (mstep a c) as [[c1|f]|] eqn:Hs; try done.
  eapply rtc_l; [|by apply IH]. by exists a.
Qed.

(** A mutex of the default level, three threads and a condition variable. *)
#[local] Instance default_mutex : MutexParams := {| base_mutex := {| this := 100; level_ := 29 |}; recursive_ := false |}.

Lemma default_range : 0 <= level_ < kLockLevelCount.
Proof. vm_compute. split; [congruence|reflexivity]. Qed.

Definition idle_thread : MThread := mkMThread Outside ∅ false.
Definition three_idle : MConfig := mkMConfig (mkMutex 0 0 0 0) {[7 := mkCond 0 0 0]} {[1 := idle_thread; 2 := idle_thread; 3 := idle_thread]}.

Lemma three_idle_initial : minitial three_idle.
Proof.
  split; [done|..].
  - intros cv d. cbn. intros [_ <-]%lookup_singleton_Some. done.
  - intros t th. cbn. rewrite !lookup_insert_Some, lookup_singleton_Some. lia.
  - intros t th. cbn. rewrite !lookup_insert_Some, lookup_singleton_Some. intros H.
    assert (th = idle_thread) as -> by naive_solver. done.
Qed.

Definition goes (t : Z) (n : nat) : list MAction := replicate n (Go t (mkMChoice false 0)).

(** Thread 1 waits, thread 2 locks and is about to wake it, thread 3 contends. *)
Definition to_signal : list MAction :=
  Call 1 OpLock :: goes 1 3 ++ Call 1 (OpWait 7) :: goes 1 5 ++ Call 2 OpLock :: goes 2 3 ++
  Call 3 OpLock :: goes 3 3 ++ [Call 2 (OpSignal 7)].

(** The same, and the mutex is free again while both others want it. *)
Definition to_free : list MAction := to_signal ++ goes 2 1 ++ Call 2 OpUnlock :: goes 2 2.

Definition run_from (acts : list MAction) : MConfig := match run_mactions acts three_idle with Some c => c | None => three_idle end.

Lemma run_from_reachable acts : is_Some (run_mactions acts three_idle) -> mreachable (run_from acts).
Proof.
  intros [c Hc]. exists three_idle. split; [apply three_idle_initial|]. unfold run_from. rewrite Hc. by apply (run_mactions_steps acts).
Qed.

Lemma few_threads c : bool_decide (2 * Z.of_nat (size (mthreads c)) < 2 ^ 31) = true -> few c.
Proof. intros H%bool_decide_eq_true. done. Qed.

Definition pc_of (c : MConfig) (t : Z) : option MutexPC := option_map mpc (mthreads c !! t).

(** While 1 and 3 sleep, thread 2 alone owns the mutex. *)
Lemma mutex_exclusion_witness :
  mreachable (run_from to_signal) /\ few (run_from to_signal) /\ pc_of (run_from to_signal) 2 = Some (SignalWake 7) /\
  (forall t th, mthreads (run_from to_signal) !! t = Some th -> owns (mpc th) = true -> t = 2) /\
  forall a f, allowed a (run_from to_signal) = true -> mstep a (run_from to_signal) <> Some (Fault f).
Proof.
  assert (mreachable (run_from to_signal)) as Hr by (apply run_from_reachable; vm_compute; eauto).
  assert (few (run_from to_signal)) as Hf by (apply few_threads; vm_compute; reflexivity).
  destruct (mutex_exclusion (run_from to_signal) default_range Hr Hf) as (H1 & _ & _ & H4).
  split; [exact Hr|]. split; [exact Hf|]. split; [vm_compute; reflexivity|]. split; [|exact H4].
  intros t th Hth Ho. destruct (mthreads (run_from to_signal) !! 2) as [th2|] eqn:E; [|vm_compute in E; discriminate].
  apply (H1 t 2 th th2 Hth E Ho). vm_compute in E. injection E as <-. reflexivity.
Defined.

(** Thread 2 has just released the mutex, and 3 sleeps: within 27 quiet steps
    somebody has it. *)
Lemma mutex_progress_witness :
  mreachable (run_from to_free) /\ pc_of (run_from to_free) 3 = Some (LockAsleep CallLock) /\
  pc_of (run_from to_free) 2 = Some (UnlockRead None) /\ state_ (mutex (run_from to_free)) = 0 /\
  forall n c', nsteps quiet_free n (run_from to_free) c' -> (exists c'', quiet c' c'') /\ Z.of_nat n <= 27.
Proof.
  assert (mreachable (run_from to_free)) as Hr by (apply run_from_reachable; vm_compute; eauto).
  assert (few (run_from to_free)) as Hf by (apply few_threads; vm_compute; reflexivity).
  assert (someone_wants (run_from to_free)) as Hw.
  { exists 3. destruct (mthreads (run_from to_free) !! 3) as [th|] eqn:E; [|vm_compute in E; discriminate].
    exists th. split; [reflexivity|]. vm_compute in E. injection E as <-. reflexivity. }
  split; [exact Hr|]. split; [vm_compute; reflexivity|]. split; [vm_compute; reflexivity|]. split; [vm_compute; reflexivity|].
  intros n c' Hn. apply (proj1 (mutex_progress (run_from to_free) default_range Hr Hf)
    ltac:(vm_compute; reflexivity) Hw n c' Hn).
Defined.

(** The signal of thread 2 wakes thread 1. *)
Lemma notify_reaches_waiters_witness :
  exists c', mstep (Go 2 (mkMChoice false 0)) (run_from to_signal) = Some (Ok c') /\
    exists w f, pc_of (run_from to_signal) w = Some (WaitAsleep f) /\ pc_of c' w = Some (WaitReturned f false).
Proof.
  assert (mreachable (run_from to_signal)) as Hr by (apply run_from_reachable; vm_compute; eauto).
  assert (few (run_from to_signal)) as Hf by (apply few_threads; vm_compute; reflexivity).
  destruct (mstep (Go 2 (mkMChoice false 0)) (run_from to_signal)) as [[c'|f]|] eqn:Hs; [|vm_compute in Hs; discriminate..].
  destruct (mthreads (run_from to_signal) !! 2) as [th|] eqn:E; [|vm_compute in E; discriminate].
  assert (mpc th = SignalWake 7) as Hp by (vm_compute in E; injection E as <-; reflexivity).
  exists c'. split; [reflexivity|].
  destruct (notify_reaches_waiters (run_from to_signal) 2 th 7 _ c' default_range Hr Hf E Hs (or_introl Hp))
    as (_ & H2 & _).
  destruct (H2 Hp) as [Hno|(w & f & Hw & _ & Hw' & _)]; [|exists w, f; split; assumption].
  destruct (mthreads (run_from to_signal) !! 1) as [th1|] eqn:E1; [|vm_compute in E1; discriminate].
  specialize (Hno 1 th1 E1). vm_compute in E1. injection E1 as <-. vm_compute in Hno. discriminate.
Defined.

(** Unlocking without the mutex aborts. *)
Lemma misuse_aborts_witness : mstep (Call 3 OpUnlock) three_idle = Some (Fault CheckFailed).
Proof.
  apply (misuse_aborts three_idle 3 idle_thread OpUnlock); [exact default_range| |apply few_threads; vm_compute; reflexivity| |].
  - exists three_idle. split; [apply three_idle_initial|apply rtc_refl].
  - vm_compute. reflexivity.
  - left. split; reflexivity.
Defined.
