(* ===== verification/RwMutex.v ===== *)
(** * [base/mutex.cc]: reader-writer mutexes on futexes

    One [ReaderWriterMutex] and the threads that use it, in atomic steps of the
    same kind as in [Mutex], whose account of the mutexes a thread holds it
    shares.  The clock is an argument of the step that reads it. *)

From S2P Require Import Prelude Mutex.

(** ** State *)

Record ReaderWriterMutex := mkRw {
  rw_state_ : Z;           (** -1 is held exclusively, n > 0 shared by n threads *)
  rw_owner_ : Z;           (** [exclusive_owner_] *)
  num_pending_readers_ : Z;
  num_pending_writers_ : Z;
}.

Record timespec := mkTimespec { tv_sec : Z; tv_nsec : Z }.

(** Where a thread is.  [d] is the time at which [ExclusiveLockWithTimeout] gives
    up, and [None] in [ExclusiveLock]; [try_] tells [SharedTryLock] from
    [SharedLock]; [shared] tells [SharedUnlock] from [ExclusiveUnlock]. *)
Inductive RwPC :=
| RwOutside
| RwReading              (** code that has a share *)
| RwWriting              (** code that owns it exclusively *)
| WLoad (d : option timespec)
| WCas (d : option timespec)
| WContend (d : option timespec) (cur_state : Z)
| WFutex (d : option timespec) (cur_state : Z)
| WAsleep (d : option timespec)
| WWoken (d : option timespec)
| WTimedOut
| WAcquired (d : option timespec)
| RLoad (try_ : bool)
| RCas (try_ : bool) (cur_state : Z)
| RContend (cur_state : Z)
| RFutex (cur_state : Z)
| RAsleep
| RWoken
| RAcquired (try_ : bool)
| WUnlockLoad
| WUnlockCas
| RUnlockLoad
| RUnlockCas (cur_state : Z)
| RwPending (shared : bool)       (** about to read the first number of pending threads *)
| RwPending2 (shared : bool)      (** and the second *)
| RwWake.

(** [rreturned] is what the last [SharedTryLock] or [ExclusiveLockWithTimeout]
    returned. *)
Record RwThread := mkRwThread { rpc : RwPC; rheld : gmap Z Z; rreturned : bool }.

Record RwConfig := mkRwConfig { rwm : ReaderWriterMutex; rthreads : gmap Z RwThread }.

Definition at_rpc (p : RwPC) (th : RwThread) : RwThread := mkRwThread p (rheld th) (rreturned th).
Definition with_rheld (h : gmap Z Z) (th : RwThread) : RwThread := mkRwThread (rpc th) h (rreturned th).
Definition with_rreturned (b : bool) (th : RwThread) : RwThread := mkRwThread (rpc th) (rheld th) b.

Definition with_rw_state (v : Z) (m : ReaderWriterMutex) : ReaderWriterMutex :=
  mkRw v (rw_owner_ m) (num_pending_readers_ m) (num_pending_writers_ m).
Definition with_rw_owner (v : Z) (m : ReaderWriterMutex) : ReaderWriterMutex :=
  mkRw (rw_state_ m) v (num_pending_readers_ m) (num_pending_writers_ m).
Definition add_readers (k : Z) (m : ReaderWriterMutex) : ReaderWriterMutex :=
  mkRw (rw_state_ m) (rw_owner_ m) (s32 (num_pending_readers_ m + k)) (num_pending_writers_ m).
Definition add_writers (k : Z) (m : ReaderWriterMutex) : ReaderWriterMutex :=
  mkRw (rw_state_ m) (rw_owner_ m) (num_pending_readers_ m) (s32 (num_pending_writers_ m + k)).

Definition get_rthread (t : Z) : M RwConfig RwThread :=
  ts ← gets rthreads;
  match ts !! t with Some th => mret th | None => lift (Fault NullDereference) end.

Definition update_rthread (t : Z) (f : RwThread -> RwThread) : M RwConfig unit :=
  th ← get_rthread t; modify (fun c => mkRwConfig (rwm c) (<[t := f th]> (rthreads c))).

Definition goto_rpc (t : Z) (p : RwPC) : M RwConfig unit := update_rthread t (at_rpc p).

Definition update_rw (f : ReaderWriterMutex -> ReaderWriterMutex) : M RwConfig unit :=
  modify (fun c => mkRwConfig (f (rwm c)) (rthreads c)).

(** [CompareExchangeWeak]. *)
Definition cas_rw (spurious : bool) (expected desired : Z) : M RwConfig bool :=
  m ← gets rwm;
  if negb spurious && (rw_state_ m =? expected) then update_rw (with_rw_state desired) ;; mret true else mret false.

(** Whether a compare-and-exchange fails for no reason, and the time. *)
Record RwChoice := mkRwChoice { rw_spurious : bool; now_abs_ts : timespec }.

(** [lhs - rhs], and whether it is negative. *)
Definition ComputeRelativeTimeSpec (lhs rhs : timespec) : timespec * bool :=
  let one_sec := 1000 * 1000 * 1000 in
  let sec := tv_sec lhs - tv_sec rhs in
  let nsec := tv_nsec lhs - tv_nsec rhs in
  let r := if nsec <? 0 then mkTimespec (sec - 1) (nsec + one_sec)
           else if one_sec <? nsec then mkTimespec (sec + 1) (nsec - one_sec)
           else mkTimespec sec nsec in
  (r, tv_sec r <? 0).

Section RwMutex.
Context `{B : BaseMutex}.

Definition update_rheld (self : Z) (f : gmap Z Z -> outcome (gmap Z Z)) : M RwConfig unit :=
  th ← get_rthread self;
  h ← lift (f (rheld th));
  update_rthread self (with_rheld h).

(** [ReaderWriterMutex::GetExclusiveOwnerTid]; -1 as an unsigned number. *)
Definition RwGetExclusiveOwnerTid (m : ReaderWriterMutex) : Z :=
  if rw_state_ m =? 0 then 0 else if 0 <? rw_state_ m then u64 (-1) else rw_owner_ m.

Definition RwIsExclusiveHeld (self : Z) : M RwConfig bool :=
  th ← get_rthread self;
  m ← gets rwm;
  let result := RwGetExclusiveOwnerTid m =? self in
  whenM result (checkM (registered (rheld th))) ;;
  mret result.

Definition AssertExclusiveHeld (self : Z) : M RwConfig unit := h ← RwIsExclusiveHeld self; checkM h.
Definition AssertNotExclusiveHeld (self : Z) : M RwConfig unit := h ← RwIsExclusiveHeld self; checkM (negb h).

(** [IsSharedHeld]. *)
Definition AssertSharedHeld (self : Z) : M RwConfig unit :=
  th ← get_rthread self; checkM (registered (rheld th)).

(** [DCHECK(exclusive_owner_ == 0U || exclusive_owner_ == -1U)]. *)
Definition CheckNoOwner : M RwConfig unit :=
  m ← gets rwm; checkM ((rw_owner_ m =? 0) || (rw_owner_ m =? u32 (-1))).

(** ** [ExclusiveLock] and [ExclusiveLockWithTimeout] *)

Definition RwExclusiveLock (self : Z) : M RwConfig unit := AssertNotExclusiveHeld self ;; goto_rpc self (WLoad None).

Definition RwExclusiveLockWithTimeout (self : Z) (d : timespec) : M RwConfig unit := goto_rpc self (WLoad (Some d)).

Definition time_out (self : Z) : M RwConfig unit :=
  update_rthread self (fun th => with_rreturned false (at_rpc RwOutside th)).

Definition WLoad_step (ch : RwChoice) (self : Z) (d : option timespec) : M RwConfig unit :=
  m ← gets rwm;
  if rw_state_ m =? 0 then goto_rpc self (WCas d)
  else
    match d with
    | Some end_abs_ts =>
        if (ComputeRelativeTimeSpec end_abs_ts (now_abs_ts ch)).2 then time_out self
        else goto_rpc self (WContend d (rw_state_ m))
    | None => goto_rpc self (WContend d (rw_state_ m))
    end.

Definition WCas_step (ch : RwChoice) (self : Z) (d : option timespec) : M RwConfig unit :=
  done ← cas_rw (rw_spurious ch) 0 (-1);
  if (done : bool) then goto_rpc self (WAcquired d) else goto_rpc self (WLoad d).

Definition WContend_step (self : Z) (d : option timespec) (cur_state : Z) : M RwConfig unit :=
  update_rw (add_writers 1) ;; goto_rpc self (WFutex d cur_state).

(** [FUTEX_WAIT]: [EAGAIN] if the value has changed. *)
Definition WFutex_step (self : Z) (d : option timespec) (cur_state : Z) : M RwConfig unit :=
  m ← gets rwm;
  if rw_state_ m =? cur_state then goto_rpc self (WAsleep d) else goto_rpc self (WWoken d).

Definition WWoken_step (self : Z) (d : option timespec) : M RwConfig unit :=
  update_rw (add_writers (-1)) ;; goto_rpc self (WLoad d).

(** [FUTEX_WAIT] failed with [ETIMEDOUT]. *)
Definition WTimedOut_step (self : Z) : M RwConfig unit :=
  update_rw (add_writers (-1)) ;; time_out self.

(** After the loop. *)
Definition WAcquired_step (self : Z) (d : option timespec) : M RwConfig unit :=
  m ← gets rwm;
  match d with
  | None =>
      checkM (rw_state_ m =? -1) ;;
      checkM (rw_owner_ m =? 0) ;;
      update_rw (with_rw_owner self) ;;
      update_rheld self RegisterAsLocked ;;
      AssertExclusiveHeld self ;;
      goto_rpc self RwWriting
  | Some _ =>
      update_rw (with_rw_owner self) ;;
      update_rheld self RegisterAsLocked ;;
      AssertSharedHeld self ;;
      update_rthread self (fun th => with_rreturned true (at_rpc RwWriting th))
  end.

(** ** [SharedLock] and [SharedTryLock] *)

Definition RLoad_step (self : Z) (try_ : bool) : M RwConfig unit :=
  m ← gets rwm;
  if 0 <=? rw_state_ m then goto_rpc self (RCas try_ (rw_state_ m))
  else if try_ then time_out self else goto_rpc self (RContend (rw_state_ m)).

Definition RCas_step (ch : RwChoice) (self : Z) (try_ : bool) (cur_state : Z) : M RwConfig unit :=
  done ← cas_rw (rw_spurious ch) cur_state (s32 (cur_state + 1));
  if (done : bool) then goto_rpc self (RAcquired try_) else goto_rpc self (RLoad try_).

(** [HandleSharedLockContention]. *)
Definition RContend_step (self cur_state : Z) : M RwConfig unit :=
  update_rw (add_readers 1) ;; goto_rpc self (RFutex cur_state).

Definition RFutex_step (self cur_state : Z) : M RwConfig unit :=
  m ← gets rwm;
  if rw_state_ m =? cur_state then goto_rpc self RAsleep else goto_rpc self RWoken.

Definition RWoken_step (self : Z) : M RwConfig unit :=
  update_rw (add_readers (-1)) ;; goto_rpc self (RLoad false).

Definition RAcquired_step (self : Z) (try_ : bool) : M RwConfig unit :=
  whenM (negb try_) CheckNoOwner ;;
  update_rheld self RegisterAsLocked ;;
  AssertSharedHeld self ;;
  (if try_ then update_rthread self (fun th => with_rreturned true (at_rpc RwReading th)) else goto_rpc self RwReading).

(** ** [ExclusiveUnlock] and [SharedUnlock] *)

Definition RwExclusiveUnlock (self : Z) : M RwConfig unit :=
  AssertExclusiveHeld self ;;
  update_rheld self RegisterAsUnlocked ;;
  m ← gets rwm;
  checkM (negb (rw_owner_ m =? 0)) ;;
  goto_rpc self WUnlockLoad.

Definition WUnlockLoad_step (self : Z) : M RwConfig unit :=
  m ← gets rwm;
  if rw_state_ m =? -1 then update_rw (with_rw_owner 0) ;; goto_rpc self WUnlockCas
  else lift (Fault FatalLog).

Definition WUnlockCas_step (ch : RwChoice) (self : Z) : M RwConfig unit :=
  done ← cas_rw (rw_spurious ch) (-1) 0;
  if (done : bool) then goto_rpc self (RwPending false) else goto_rpc self WUnlockLoad.

Definition RwSharedUnlock (self : Z) : M RwConfig unit :=
  CheckNoOwner ;;
  AssertSharedHeld self ;;
  update_rheld self RegisterAsUnlocked ;;
  goto_rpc self RUnlockLoad.

Definition RUnlockLoad_step (self : Z) : M RwConfig unit :=
  m ← gets rwm;
  if 0 <? rw_state_ m then goto_rpc self (RUnlockCas (rw_state_ m)) else lift (Fault FatalLog).

Definition RUnlockCas_step (ch : RwChoice) (self cur_state : Z) : M RwConfig unit :=
  done ← cas_rw (rw_spurious ch) cur_state (cur_state - 1);
  if (done : bool) then (if cur_state - 1 =? 0 then goto_rpc self (RwPending true) else goto_rpc self RwOutside)
  else goto_rpc self RUnlockLoad.

(** The numbers of pending threads; [ExclusiveUnlock] reads that of the readers
    first, [SharedUnlock] that of the writers. *)
Definition RwPending_step (self : Z) (shared : bool) : M RwConfig unit :=
  m ← gets rwm;
  if 0 <? (if shared then num_pending_writers_ m else num_pending_readers_ m) then goto_rpc self RwWake
  else goto_rpc self (RwPending2 shared).

Definition RwPending2_step (self : Z) (shared : bool) : M RwConfig unit :=
  m ← gets rwm;
  if 0 <? (if shared then num_pending_readers_ m else num_pending_writers_ m) then goto_rpc self RwWake
  else goto_rpc self RwOutside.

(** [futex(state_.Address(), FUTEX_WAKE, -1)] wakes every thread. *)
Definition rw_woken (th : RwThread) : RwThread :=
  match rpc th with WAsleep d => at_rpc (WWoken d) th | RAsleep => at_rpc RWoken th | _ => th end.

Definition RwWake_step (self : Z) : M RwConfig unit :=
  modify (fun c => mkRwConfig (rwm c) (rw_woken <$> rthreads c)) ;; goto_rpc self RwOutside.

(** ** The system *)

Inductive RwOp := OpWriterLock | OpWriterLockTimeout (d : timespec) | OpWriterUnlock | OpReaderLock | OpReaderTryLock | OpReaderUnlock.

Definition run_rop (self : Z) (op : RwOp) : M RwConfig unit :=
  match op with
  | OpWriterLock => RwExclusiveLock self
  | OpWriterLockTimeout d => RwExclusiveLockWithTimeout self d
  | OpWriterUnlock => RwExclusiveUnlock self
  | OpReaderLock => goto_rpc self (RLoad false)
  | OpReaderTryLock => goto_rpc self (RLoad true)
  | OpReaderUnlock => RwSharedUnlock self
  end.

Definition run_rpc (ch : RwChoice) (self : Z) (p : RwPC) : M RwConfig unit :=
  match p with
  | WLoad d => WLoad_step ch self d
  | WCas d => WCas_step ch self d
  | WContend d cur => WContend_step self d cur
  | WFutex d cur => WFutex_step self d cur
  | WWoken d => WWoken_step self d
  | WTimedOut => WTimedOut_step self
  | WAcquired d => WAcquired_step self d
  | RLoad try_ => RLoad_step self try_
  | RCas try_ cur => RCas_step ch self try_ cur
  | RContend cur => RContend_step self cur
  | RFutex cur => RFutex_step self cur
  | RWoken => RWoken_step self
  | RAcquired try_ => RAcquired_step self try_
  | WUnlockLoad => WUnlockLoad_step self
  | WUnlockCas => WUnlockCas_step ch self
  | RUnlockLoad => RUnlockLoad_step self
  | RUnlockCas cur => RUnlockCas_step ch self cur
  | RwPending shared => RwPending_step self shared
  | RwPending2 shared => RwPending2_step self shared
  | RwWake => RwWake_step self
  | RwOutside | RwReading | RwWriting | WAsleep _ | RAsleep => mret tt
  end.

Definition rin_client (p : RwPC) : bool := match p with RwOutside | RwReading | RwWriting => true | _ => false end.
Definition rasleep (p : RwPC) : bool := match p with WAsleep _ | RAsleep => true | _ => false end.

(** [FUTEX_WAIT] fails with [EINTR]: a writer tries again, a reader dies. *)
Definition rw_eintr (self : Z) (p : RwPC) : M RwConfig unit :=
  match p with
  | WAsleep d => goto_rpc self (WWoken d)
  | RAsleep => lift (Fault FatalLog)
  | _ => mret tt
  end.

Inductive RwAction :=
| RCall (t : Z) (op : RwOp)
| RGo (t : Z) (ch : RwChoice)
| REintr (t : Z)
| REtimedout (t : Z)
| ROtherLocks (t : Z) (h : gmap Z Z).

Definition rstep (a : RwAction) (c : RwConfig) : option (outcome RwConfig) :=
  let run t (possible : RwThread -> bool) (m : RwThread -> M RwConfig unit) :=
    match rthreads c !! t with
    | Some th => if possible th then Some (match m th c with Ok (_, c') => Ok c' | Fault f => Fault f end) else None
    | None => None
    end in
  match a with
  | RCall t op => run t (fun th => rin_client (rpc th)) (fun _ => run_rop t op)
  | RGo t ch => run t (fun th => negb (rin_client (rpc th)) && negb (rasleep (rpc th))) (fun th => run_rpc ch t (rpc th))
  | REintr t => run t (fun th => rasleep (rpc th)) (fun th => rw_eintr t (rpc th))
  | REtimedout t =>
      run t (fun th => match rpc th with WAsleep (Some _) => true | _ => false end) (fun _ => goto_rpc t WTimedOut)
  | ROtherLocks t h =>
      run t (fun th => rin_client (rpc th) && held_possible h && Bool.eqb (registered h) (registered (rheld th)))
            (fun _ => update_rthread t (with_rheld h))
  end.

(** The calls a client may make: lock in the order of the levels, unlock what it
    has locked. *)
Definition rcall_ok (op : RwOp) (th : RwThread) : bool :=
  match op, rpc th with
  | (OpWriterLock | OpWriterLockTimeout _ | OpReaderLock | OpReaderTryLock), RwOutside => levels_ok (rheld th)
  | OpWriterUnlock, RwWriting => true
  | OpReaderUnlock, RwReading => true
  | _, _ => false
  end.

Definition rallowed (a : RwAction) (c : RwConfig) : bool :=
  match a with
  | RCall t op => match rthreads c !! t with Some th => rcall_ok op th | None => false end
  | _ => true
  end.

Definition rcstep (c c' : RwConfig) : Prop := exists a, rallowed a c = true /\ rstep a c = Some (Ok c').

Record rinitial (c : RwConfig) : Prop := {
  ri_mutex : rwm c = mkRw 0 0 0 0;
  ri_ids : forall t th, rthreads c !! t = Some th -> 0 < t < 2 ^ 32;
  ri_threads : forall t th, rthreads c !! t = Some th ->
    rpc th = RwOutside /\ held_possible (rheld th) = true /\ registered (rheld th) = false;
}.

Definition rreachable (c : RwConfig) : Prop := exists c0, rinitial c0 /\ rtc rcstep c0 c.

End RwMutex.
