(* ===== verification/RwInvariant.v ===== *)
(** * The invariant of the reader-writer mutex model, and that every step keeps it *)

From S2P Require Import Prelude Mutex RwMutex.

(** ** Executing the steps *)

Definition rmove (c : RwConfig) (t : Z) (th : RwThread) (m : ReaderWriterMutex) : RwConfig :=
  mkRwConfig m (<[t := th]> (rthreads c)).

Lemma get_rthread_ok t th c : rthreads c !! t = Some th -> get_rthread t c = Ok (th, c).
Proof. intros Hth. unfold get_rthread. rewrite bind_gets. by rewrite Hth. Qed.

Lemma update_rthread_ok t f th c : rthreads c !! t = Some th -> update_rthread t f c = Ok (tt, rmove c t (f th) (rwm c)).
Proof. intros Hth. unfold update_rthread. by rewrite (bind_ok _ _ _ _ _ (get_rthread_ok t th c Hth)). Qed.

Lemma run_rgoto c t th p' : rthreads c !! t = Some th -> goto_rpc t p' c = Ok (tt, rmove c t (at_rpc p' th) (rwm c)).
Proof. apply update_rthread_ok. Qed.

Lemma run_rgoto_rw c t th p' g : rthreads c !! t = Some th ->
  (update_rw g ;; goto_rpc t p') c = Ok (tt, rmove c t (at_rpc p' th) (g (rwm c))).
Proof. intros Hth. unfold update_rw. rewrite bind_modify. by rewrite (run_rgoto _ t th). Qed.

Lemma rmove_lookup c t th m : rthreads (rmove c t th m) !! t = Some th.
Proof. apply lookup_insert_eq. Qed.

Lemma rmove_lookup_ne c t u th m : u <> t -> rthreads (rmove c t th m) !! u = rthreads c !! u.
Proof. intros Hne. by apply lookup_insert_ne. Qed.

Lemma rmove_rmove c t th th' m m' : rmove (rmove c t th m) t th' m' = rmove c t th' m'.
Proof. unfold rmove. cbn. by rewrite insert_insert_eq. Qed.

Lemma cas_rw_cases b x y c :
  (rw_state_ (rwm c) = x /\ cas_rw b x y c = Ok (true, mkRwConfig (with_rw_state y (rwm c)) (rthreads c))) \/
  cas_rw b x y c = Ok (false, c).
Proof.
  unfold cas_rw. rewrite bind_gets. destruct (negb b && (rw_state_ (rwm c) =? x)) eqn:E; [left|by right].
  apply andb_true_iff in E as [_ E%Z.eqb_eq]. done.
Qed.

Lemma cas_rw_succeeds x y c : rw_state_ (rwm c) = x ->
  cas_rw false x y c = Ok (true, mkRwConfig (with_rw_state y (rwm c)) (rthreads c)).
Proof. intros <-. unfold cas_rw. rewrite bind_gets. by rewrite Z.eqb_refl. Qed.

Lemma cas_rw_fails x y c : rw_state_ (rwm c) <> x -> cas_rw false x y c = Ok (false, c).
Proof. intros Hne. unfold cas_rw. rewrite bind_gets. by rewrite (proj2 (Z.eqb_neq _ _) Hne). Qed.

(** ** Where a thread is *)

(** It has changed [state_] to -1 and not back. *)
Definition writes (p : RwPC) : bool :=
  match p with RwWriting | WAcquired _ | WUnlockLoad | WUnlockCas => true | _ => false end.

(** What it has added to [state_], and to the numbers of pending threads. *)
Definition share (p : RwPC) : Z :=
  match p with RwReading | RAcquired _ | RUnlockLoad | RUnlockCas _ => 1 | _ => 0 end.
Definition pending_reader (p : RwPC) : Z := match p with RFutex _ | RAsleep | RWoken => 1 | _ => 0 end.
Definition pending_writer (p : RwPC) : Z := match p with WFutex _ _ | WAsleep _ | WWoken _ | WTimedOut => 1 | _ => 0 end.

(** The mutexes it holds say so. *)
Definition rnamed (p : RwPC) : bool := match p with RwReading | RwWriting => true | _ => false end.

Definition rlocking (p : RwPC) : bool :=
  match p with
  | WLoad _ | WCas _ | WContend _ _ | WFutex _ _ | WAsleep _ | WWoken _ | WAcquired _
  | RLoad _ | RCas _ _ | RContend _ | RFutex _ | RAsleep | RWoken | RAcquired _ => true
  | _ => false
  end.

(** What is known of the state it has read. *)
Definition read_ok (p : RwPC) : Prop :=
  match p with
  | WContend _ cur | WFutex _ cur => cur <> 0
  | RContend cur | RFutex cur => cur < 0
  | RCas _ cur => 0 <= cur
  | RUnlockCas cur => 0 < cur
  | _ => True
  end.

(** A thread at [p] will wake a thread that sleeps at [s], if it is still asleep
    then: [SharedUnlock] reads the number of pending readers last,
    [ExclusiveUnlock] that of pending writers. *)
Definition covers (p s : RwPC) : bool :=
  match p with
  | RwPending _ | RwWake => true
  | RwPending2 true => match s with RAsleep => true | _ => false end
  | RwPending2 false => match s with WAsleep _ => true | _ => false end
  | _ => false
  end.

Section Invariant.
Context `{B : BaseMutex}.

Definition readers (ts : gmap Z RwThread) : Z := total (fun th => share (rpc th)) ts.

(** [exclusive_owner_] when a thread [t] at [p] has the mutex. *)
Definition owner_field (m : ReaderWriterMutex) (t : Z) (p : RwPC) : Prop :=
  match p with
  | RwWriting => rw_owner_ m = t
  | WUnlockLoad => rw_owner_ m = 0 \/ rw_owner_ m = t
  | _ => rw_owner_ m = 0
  end.

Definition rw_view (o : option Z) (m : ReaderWriterMutex) (ts : gmap Z RwThread) : Prop :=
  match o with
  | None => rw_state_ m = readers ts /\ rw_owner_ m = 0
  | Some t => rw_state_ m = -1 /\ readers ts = 0 /\ exists th, ts !! t = Some th /\ owner_field m t (rpc th)
  end.

Record rthread_ok (t : Z) (th : RwThread) : Prop := {
  rt_id : 0 < t < 2 ^ 32;
  rt_monitor : held_possible (rheld th) = true;
  rt_held : registered (rheld th) = rnamed (rpc th);
  rt_levels : rlocking (rpc th) = true -> levels_ok (rheld th) = true;
  rt_read : read_ok (rpc th);
}.

Record RCore (c : RwConfig) (o : option Z) : Prop := {
  ro_writes : forall t th, rthreads c !! t = Some th -> writes (rpc th) = bool_decide (o = Some t);
  ro_view : rw_view o (rwm c) (rthreads c);
  ro_readers : num_pending_readers_ (rwm c) = s32 (total (fun th => pending_reader (rpc th)) (rthreads c));
  ro_writers : num_pending_writers_ (rwm c) = s32 (total (fun th => pending_writer (rpc th)) (rthreads c));
  ro_threads : forall t th, rthreads c !! t = Some th -> rthread_ok t th;
}.

(** No wake-up is lost: when the mutex is free, each thread that sleeps is going to be woken. *)
Definition rwake_ok (c : RwConfig) : Prop :=
  rw_state_ (rwm c) = 0 -> forall t th, rthreads c !! t = Some th -> rasleep (rpc th) = true ->
  exists u thu, rthreads c !! u = Some thu /\ covers (rpc thu) (rpc th) = true.

Definition RInv (c : RwConfig) : Prop := (exists o, RCore c o) /\ rwake_ok c.

Definition rfew (c : RwConfig) : Prop := Z.of_nat (size (rthreads c)) < 2 ^ 31 - 1.

(** ** One thread moves *)

Definition state_change (m m' : ReaderWriterMutex) (t : Z) (p p' : RwPC) : Prop :=
  if writes p' then rw_state_ m' = -1 /\ owner_field m' t p' /\ share p = 0 /\ share p' = 0 /\ (writes p = true \/ rw_state_ m = 0)
  else if writes p then rw_state_ m' = 0 /\ rw_owner_ m' = 0 /\ share p = 0 /\ share p' = 0
  else rw_owner_ m' = rw_owner_ m /\ rw_state_ m' = rw_state_ m + (share p' - share p) /\
       (share p' = share p \/ 0 <= rw_state_ m).

Definition count_change (n n' w w' : Z) : Prop := n' = n /\ w' = w \/ n' = s32 (n + (w' - w)).

Record rmoves (c : RwConfig) (t : Z) (th th' : RwThread) (m' : ReaderWriterMutex) : Prop := {
  rm_thread : rthreads c !! t = Some th;
  rm_state : state_change (rwm c) m' t (rpc th) (rpc th');
  rm_readers : count_change (num_pending_readers_ (rwm c)) (num_pending_readers_ m') (pending_reader (rpc th)) (pending_reader (rpc th'));
  rm_writers : count_change (num_pending_writers_ (rwm c)) (num_pending_writers_ m') (pending_writer (rpc th)) (pending_writer (rpc th'));
  rm_local : rthread_ok t th';
}.

Lemma writer_is c o t th : RCore c o -> rthreads c !! t = Some th -> writes (rpc th) = true -> o = Some t.
Proof. intros HC Hth Ho. rewrite (ro_writes c o HC t th Hth) in Ho. by apply bool_decide_eq_true in Ho. Qed.

Lemma writer_is_not c o t th : RCore c o -> rthreads c !! t = Some th -> writes (rpc th) = false -> o <> Some t.
Proof. intros HC Hth Ho. rewrite (ro_writes c o HC t th Hth) in Ho. by apply bool_decide_eq_false in Ho. Qed.

Lemma no_writer c o : RCore c o -> 0 <= rw_state_ (rwm c) -> o = None.
Proof. intros HC H0. pose proof (ro_view c o HC) as Hv. destruct o; [|done]. destruct Hv. lia. Qed.

Lemma share_bounds p : 0 <= share p <= 1.
Proof. destruct p; cbn; lia. Qed.

Lemma readers_nonneg ts : 0 <= readers ts.
Proof. apply total_nonneg. intros. apply share_bounds. Qed.

Lemma readers_move c t th th' m' : rthreads c !! t = Some th ->
  readers (rthreads (rmove c t th' m')) = readers (rthreads c) + (share (rpc th') - share (rpc th)).
Proof. intros Hth. unfold readers, rmove; cbn. rewrite (total_insert _ t th th') by done. lia. Qed.

Lemma count_move (w : RwThread -> Z) (ts : gmap Z RwThread) t th th' n n' :
  ts !! t = Some th -> n = s32 (total w ts) -> count_change n n' (w th) (w th') -> n' = s32 (total w (<[t := th']> ts)).
Proof.
  intros Hth -> Hc. rewrite (total_insert _ t th th') by done. unfold count_change in Hc. unfold s32 in *. mlia.
Qed.

Lemma view_move c o t th th' m' :
  RCore c o -> rthreads c !! t = Some th -> state_change (rwm c) m' t (rpc th) (rpc th') ->
  let c' := rmove c t th' m' in
  exists o', (forall u thu, rthreads c' !! u = Some thu -> writes (rpc thu) = bool_decide (o' = Some u)) /\
    rw_view o' m' (rthreads c').
Proof.
  intros HC Hth Hch c'. unfold state_change in Hch. pose proof (readers_move c t th th' m' Hth) as Hrd. fold c' in Hrd.
  pose proof (ro_view c o HC) as Hv.
  assert (forall o', (o' = Some t <-> writes (rpc th') = true) -> (forall u, u <> t -> o' = Some u <-> o = Some u) ->
    forall u thu, rthreads c' !! u = Some thu -> writes (rpc thu) = bool_decide (o' = Some u)) as Hw.
  { intros o' H1 H2 u thu Hu. destruct (decide (u = t)) as [->|Hne].
    - unfold c' in Hu. rewrite rmove_lookup in Hu. injection Hu as <-. destruct (writes (rpc th')); symmetry;
        [apply bool_decide_true|apply bool_decide_false]; naive_solver.
    - unfold c' in Hu. rewrite rmove_lookup_ne in Hu by done. rewrite (ro_writes c o HC u thu Hu). apply bool_decide_ext.
      symmetry. by apply H2. }
  destruct (writes (rpc th')) eqn:E'.
  - destruct Hch as (Hs & Hf & Hs1 & Hs2 & Hor). exists (Some t).
    assert (readers (rthreads c) = 0 /\ forall u, u <> t -> o <> Some u) as [H0 Hno].
    { destruct Hor as [Ho|H0].
      - pose proof (writer_is c o t th HC Hth Ho) as ->. destruct Hv as (_ & ? & _). split; [done|congruence].
      - pose proof (no_writer c o HC ltac:(lia)) as ->. destruct Hv. split; [lia|done]. }
    split; [apply Hw; [done|]; intros u Hne; split; [congruence|]; intros Hou; by destruct (Hno u Hne)|].
    split; [done|]. split; [lia|]. exists th'. split; [apply rmove_lookup|done].
  - destruct (writes (rpc th)) eqn:E.
    + destruct Hch as (Hs & Hf & Hs1 & Hs2). pose proof (writer_is c o t th HC Hth E) as ->. destruct Hv as (_ & H0 & _).
      exists None. split; [apply Hw; naive_solver|]. split; [lia|done].
    + destruct Hch as (Hf & Hs & Hor). pose proof (writer_is_not c o t th HC Hth E) as Hne. exists o.
      split; [apply Hw; [split; [done|congruence]|done]|].
      destruct o as [w|]; [|destruct Hv; split; [lia|congruence]].
      destruct Hv as (H1 & H2 & thw & Hwt & Hof). destruct Hor as [Heq|H0]; [|lia].
      split; [lia|]. split; [lia|]. exists thw. split; [unfold c'; rewrite rmove_lookup_ne; [done|congruence]|].
      unfold owner_field in *. by rewrite Hf.
Qed.

Lemma rcore_move c o t th th' m' : RCore c o -> rmoves c t th th' m' -> exists o', RCore (rmove c t th' m') o'.
Proof.
  intros HC []. destruct (view_move c o t th th' m' HC rm_thread0 rm_state0) as (o' & Hw & Hv). exists o'. split; [done|done|..].
  - eapply (count_move (fun th => pending_reader (rpc th)) _ t th th'); [done|apply (ro_readers c o HC)|done].
  - eapply (count_move (fun th => pending_writer (rpc th)) _ t th th'); [done|apply (ro_writers c o HC)|done].
  - intros u thu Hu. destruct (decide (u = t)) as [->|Hne]; [rewrite rmove_lookup in Hu; by injection Hu as <-|].
    rewrite rmove_lookup_ne in Hu by done. by apply (ro_threads c o HC).
Qed.

(** A step that does not lose a wake-up. *)
Definition rwake_kept (c : RwConfig) (t : Z) (p p' : RwPC) (m' : ReaderWriterMutex) : Prop :=
  rw_state_ m' <> 0 \/
  (forall s, covers p' s = true) \/
  (rw_state_ m' = rw_state_ (rwm c) /\ rasleep p' = false /\
   forall u thu, u <> t -> rthreads c !! u = Some thu -> rasleep (rpc thu) = true -> covers p (rpc thu) = true ->
     covers p' (rpc thu) = true).

Lemma rinv_move c t th th' m' :
  RInv c -> rmoves c t th th' m' -> rwake_kept c t (rpc th) (rpc th') m' -> RInv (rmove c t th' m').
Proof.
  intros [[o HC] HW] Hm Hk. split; [by eapply rcore_move|]. intros H0 s ths Hs Ha.
  pose proof (rm_thread _ _ _ _ _ Hm) as Hth. cbn [rmove rwm] in H0. destruct Hk as [Hk|[Hk|(H1 & H2 & H3)]]; [done| |].
  - exists t, th'. split; [apply rmove_lookup|apply Hk].
  - destruct (decide (s = t)) as [->|Hne]; [rewrite rmove_lookup in Hs; congruence|]. rewrite rmove_lookup_ne in Hs by done.
    rewrite H1 in H0. destruct (HW H0 s ths Hs Ha) as (u & thu & Hu & Hcov). destruct (decide (u = t)) as [->|Hut].
    + assert (thu = th) as -> by congruence. exists t, th'. split; [apply rmove_lookup|]. by apply (H3 s).
    + exists u, thu. split; [by rewrite rmove_lookup_ne|done].
Qed.


Definition rsafe_run (m : M RwConfig unit) (c : RwConfig) : Prop := exists c', m c = Ok (tt, c') /\ RInv c'.

Lemma rinv_thread c t th : RInv c -> rthreads c !! t = Some th -> rthread_ok t th.
Proof. intros [[o HC] _] Hth. apply (ro_threads c o HC t th Hth). Qed.

(** The writer has it alone. *)
Lemma rinv_writer c t th : RInv c -> rthreads c !! t = Some th -> writes (rpc th) = true ->
  rw_state_ (rwm c) = -1 /\ owner_field (rwm c) t (rpc th).
Proof.
  intros [[o HC] _] Hth Hw. pose proof (writer_is c o t th HC Hth Hw) as ->. destruct (ro_view c _ HC) as (H1 & _ & th' & Hth' & Hf).
  split; [done|]. congruence.
Qed.

(** A reader is counted, and nobody is the owner. *)
Lemma rinv_reader c t th : RInv c -> rthreads c !! t = Some th -> share (rpc th) = 1 ->
  0 < rw_state_ (rwm c) /\ rw_owner_ (rwm c) = 0.
Proof.
  intros [[o HC] _] Hth Hs. pose proof (ro_view c o HC) as Hv.
  pose proof (total_ge (fun th => share (rpc th)) t th (rthreads c) (fun _ th _ => proj1 (share_bounds (rpc th))) Hth) as Hge.
  cbn in Hge. unfold rw_view, readers in Hv. destruct o; [destruct Hv as (_ & H0 & _); lia|]. destruct Hv. split; [lia|done].
Qed.

Lemma rinv_state c : RInv c -> -1 <= rw_state_ (rwm c) <= Z.of_nat (size (rthreads c)).
Proof.
  intros [[o HC] _]. pose proof (ro_view c o HC) as Hv. pose proof (readers_nonneg (rthreads c)).
  pose proof (total_le (fun th => share (rpc th)) 1 (rthreads c) (fun _ th _ => proj2 (share_bounds (rpc th)))) as Hle.
  unfold readers in *. destruct o; cbn in Hv; unfold readers in Hv; lia.
Qed.

Lemma rinv_owner_free c : RInv c -> 0 <= rw_state_ (rwm c) -> rw_owner_ (rwm c) = 0.
Proof. intros [[o HC] _] H0. pose proof (no_writer c o HC H0) as ->. apply (ro_view c _ HC). Qed.

(** A step to [p'] that changes the mutex to [m']. *)
Lemma rstep_to c t th p' m' :
  RInv c -> rthreads c !! t = Some th -> state_change (rwm c) m' t (rpc th) p' ->
  count_change (num_pending_readers_ (rwm c)) (num_pending_readers_ m') (pending_reader (rpc th)) (pending_reader p') ->
  count_change (num_pending_writers_ (rwm c)) (num_pending_writers_ m') (pending_writer (rpc th)) (pending_writer p') ->
  rnamed p' = rnamed (rpc th) -> (rlocking p' = true -> rlocking (rpc th) = true) -> read_ok p' ->
  rwake_kept c t (rpc th) p' m' ->
  RInv (rmove c t (at_rpc p' th) m').
Proof.
  intros HI Hth Hs Hr Hw Hn Hl Hro Hk. pose proof (rinv_thread c t th HI Hth) as [].
  apply (rinv_move c t th); [done| |done]. constructor; [done..|]. constructor; cbn; try done; [by rewrite Hn|auto].
Qed.

End Invariant.

Lemma count_same n w : count_change n n w w.
Proof. by left. Qed.

Ltac rstep_to :=
  match goal with Hth : rthreads ?c !! ?t = Some ?th |- RInv (rmove ?c ?t (at_rpc _ ?th) _) =>
    apply (rstep_to c t th); [done|done|..] end;
  repeat match goal with H : rpc _ = _ |- _ => rewrite H in * end; cbn in *;
  try done; try apply count_same; try (right; reflexivity);
  unfold state_change, rwake_kept; cbn; try (split; [done|]; split; [lia|by left]); auto 10.

Section Steps.
Context `{B : BaseMutex}.

(** ** Locking *)

Lemma time_out_inv c t th m' :
  RInv c -> rthreads c !! t = Some th -> rlocking (rpc th) = true \/ rpc th = WTimedOut ->
  rw_state_ m' = rw_state_ (rwm c) -> rw_owner_ m' = rw_owner_ (rwm c) -> share (rpc th) = 0 -> writes (rpc th) = false ->
  count_change (num_pending_readers_ (rwm c)) (num_pending_readers_ m') (pending_reader (rpc th)) 0 ->
  count_change (num_pending_writers_ (rwm c)) (num_pending_writers_ m') (pending_writer (rpc th)) 0 ->
  RInv (rmove c t (with_rreturned false (at_rpc RwOutside th)) m').
Proof.
  intros HI Hth Hp H1 H2 Hs Hw Hr Hpw. pose proof (rinv_thread c t th HI Hth) as [].
  apply (rinv_move c t th); [done| |].
  - constructor; [done| |done|done|].
    + unfold state_change; cbn. rewrite Hw. split; [done|]. rewrite Hs. split; [lia|]. by left.
    + constructor; cbn; try done. rewrite rt_held0. destruct Hp as [Hp| ->]; [by destruct (rpc th)|done].
  - right; right. split; [done|]. split; [done|]. intros u thu _ _ _ Hc. destruct Hp as [Hp|Hp]; [|by rewrite Hp in Hc].
    by destruct (rpc th).
Qed.

Lemma w_load_safe ch c t th d :
  RInv c -> rthreads c !! t = Some th -> rpc th = WLoad d -> rsafe_run (WLoad_step ch t d) c.
Proof.
  intros HI Hth Hp. unfold rsafe_run, WLoad_step. rewrite bind_gets. destruct (rw_state_ (rwm c) =? 0) eqn:E.
  - rewrite (run_rgoto _ t th) by done. eexists. split; [done|]. rstep_to.
  - apply Z.eqb_neq in E. assert (RInv (rmove c t (at_rpc (WContend d (rw_state_ (rwm c))) th) (rwm c))) by rstep_to.
    destruct d as [d|]; [destruct (ComputeRelativeTimeSpec d (now_abs_ts ch)).2|]; try (rewrite (run_rgoto _ t th) by done; by eexists).
    unfold time_out. rewrite (update_rthread_ok t _ th) by done. eexists. split; [done|].
    apply time_out_inv; rewrite ?Hp; cbn; auto using count_same.
Qed.

Lemma w_cas_safe ch c t th d :
  RInv c -> rthreads c !! t = Some th -> rpc th = WCas d -> rsafe_run (WCas_step ch t d) c.
Proof.
  intros HI Hth Hp. unfold rsafe_run, WCas_step.
  destruct (cas_rw_cases (rw_spurious ch) 0 (-1) c) as [[H0 Hc]|Hc]; rewrite (bind_ok _ _ _ _ _ Hc), (run_rgoto _ t th) by done;
    eexists; (split; [done|]); [|rstep_to].
  pose proof (rinv_owner_free c HI ltac:(lia)) as Hof.
  change (RInv (rmove c t (at_rpc (WAcquired d) th) (with_rw_state (-1) (rwm c)))). rstep_to.
Qed.

Lemma w_contend_safe c t th d cur :
  RInv c -> rthreads c !! t = Some th -> rpc th = WContend d cur -> rsafe_run (WContend_step t d cur) c.
Proof.
  intros HI Hth Hp. pose proof (rt_read _ _ (rinv_thread c t th HI Hth)) as Hro. rewrite Hp in Hro.
  unfold rsafe_run, WContend_step. rewrite (run_rgoto_rw _ t th) by done. eexists. split; [done|]. rstep_to.
Qed.

Lemma w_futex_safe c t th d cur :
  RInv c -> rthreads c !! t = Some th -> rpc th = WFutex d cur -> rsafe_run (WFutex_step t d cur) c.
Proof.
  intros HI Hth Hp. pose proof (rt_read _ _ (rinv_thread c t th HI Hth)) as Hro. rewrite Hp in Hro. cbn in Hro.
  unfold rsafe_run, WFutex_step. rewrite bind_gets. destruct (_ =? _) eqn:E; rewrite (run_rgoto _ t th) by done; eexists;
    (split; [done|]); rstep_to. left. lia.
Qed.

Lemma w_woken_safe c t th d :
  RInv c -> rthreads c !! t = Some th -> rpc th = WWoken d -> rsafe_run (WWoken_step t d) c.
Proof.
  intros HI Hth Hp. unfold rsafe_run, WWoken_step. rewrite (run_rgoto_rw _ t th) by done. eexists. split; [done|]. rstep_to.
Qed.

Lemma w_timed_out_safe c t th :
  RInv c -> rthreads c !! t = Some th -> rpc th = WTimedOut -> rsafe_run (WTimedOut_step t) c.
Proof.
  intros HI Hth Hp. unfold rsafe_run, WTimedOut_step, update_rw, time_out. rewrite bind_modify, (update_rthread_ok t _ th) by done.
  eexists. split; [done|]. apply (time_out_inv c t th (add_writers (-1) (rwm c))); rewrite ?Hp; cbn; auto using count_same. by right.
Qed.

Lemma r_load_safe c t th try_ :
  RInv c -> rthreads c !! t = Some th -> rpc th = RLoad try_ -> rsafe_run (RLoad_step t try_) c.
Proof.
  intros HI Hth Hp. unfold rsafe_run, RLoad_step. rewrite bind_gets. destruct (0 <=? _) eqn:E.
  - apply Z.leb_le in E. rewrite (run_rgoto _ t th) by done. eexists. split; [done|]. rstep_to.
  - apply Z.leb_gt in E. destruct try_.
    + unfold time_out. rewrite (update_rthread_ok t _ th) by done. eexists. split; [done|].
      apply time_out_inv; rewrite ?Hp; cbn; auto using count_same.
    + rewrite (run_rgoto _ t th) by done. eexists. split; [done|]. rstep_to.
Qed.

Lemma r_cas_safe ch c t th try_ cur :
  RInv c -> rfew c -> rthreads c !! t = Some th -> rpc th = RCas try_ cur -> rsafe_run (RCas_step ch t try_ cur) c.
Proof.
  intros HI Hfew Hth Hp. pose proof (rt_read _ _ (rinv_thread c t th HI Hth)) as Hro. rewrite Hp in Hro. cbn in Hro.
  unfold rsafe_run, RCas_step.
  destruct (cas_rw_cases (rw_spurious ch) cur (s32 (cur + 1)) c) as [[H0 Hc]|Hc]; rewrite (bind_ok _ _ _ _ _ Hc), (run_rgoto _ t th) by done;
    eexists; (split; [done|]); [|rstep_to].
  pose proof (rinv_state c HI) as Hst. unfold rfew in Hfew. rewrite s32_small by lia.
  change (RInv (rmove c t (at_rpc (RAcquired try_) th) (with_rw_state (cur + 1) (rwm c)))).
  rstep_to; [split; [done|]; split; [lia|]; right; lia|left; lia].
Qed.

Lemma r_contend_safe c t th cur :
  RInv c -> rthreads c !! t = Some th -> rpc th = RContend cur -> rsafe_run (RContend_step t cur) c.
Proof.
  intros HI Hth Hp. pose proof (rt_read _ _ (rinv_thread c t th HI Hth)) as Hro. rewrite Hp in Hro.
  unfold rsafe_run, RContend_step. rewrite (run_rgoto_rw _ t th) by done. eexists. split; [done|]. rstep_to.
Qed.

Lemma r_futex_safe c t th cur :
  RInv c -> rthreads c !! t = Some th -> rpc th = RFutex cur -> rsafe_run (RFutex_step t cur) c.
Proof.
  intros HI Hth Hp. pose proof (rt_read _ _ (rinv_thread c t th HI Hth)) as Hro. rewrite Hp in Hro. cbn in Hro.
  unfold rsafe_run, RFutex_step. rewrite bind_gets. destruct (_ =? _) eqn:E; rewrite (run_rgoto _ t th) by done; eexists;
    (split; [done|]); rstep_to. left. lia.
Qed.

Lemma r_woken_safe c t th :
  RInv c -> rthreads c !! t = Some th -> rpc th = RWoken -> rsafe_run (RWoken_step t) c.
Proof.
  intros HI Hth Hp. unfold rsafe_run, RWoken_step. rewrite (run_rgoto_rw _ t th) by done. eexists. split; [done|]. rstep_to.
Qed.

(** ** The mutexes a thread holds *)

Lemma update_rheld_runs c t th f h : rthreads c !! t = Some th -> f (rheld th) = Ok h ->
  update_rheld t f c = Ok (tt, rmove c t (with_rheld h th) (rwm c)).
Proof.
  intros Hth Hf. unfold update_rheld. rewrite (bind_ok _ _ _ _ _ (get_rthread_ok t th c Hth)), bind_lift, Hf.
  by rewrite (update_rthread_ok t _ th).
Qed.

Definition rregister (th : RwThread) : RwThread := with_rheld (<[level_ := this]> (rheld th)) th.
Definition runregister (th : RwThread) : RwThread := with_rheld (delete level_ (rheld th)) th.

Lemma rregister_runs c t th : level_ <> kMonitorLock -> rthreads c !! t = Some th -> levels_ok (rheld th) = true ->
  update_rheld t RegisterAsLocked c = Ok (tt, rmove c t (rregister th) (rwm c)).
Proof.
  intros Hm Hth Hl. apply update_rheld_runs; [done|]. unfold RegisterAsLocked. rewrite Hl. by rewrite (proj2 (Z.eqb_neq _ _) Hm).
Qed.

Lemma runregister_runs c t th : level_ <> kMonitorLock -> rthreads c !! t = Some th -> registered (rheld th) = true ->
  update_rheld t RegisterAsUnlocked c = Ok (tt, rmove c t (runregister th) (rwm c)).
Proof.
  intros Hm Hth Hr. apply update_rheld_runs; [done|]. unfold RegisterAsUnlocked. rewrite Hr. by rewrite (proj2 (Z.eqb_neq _ _) Hm).
Qed.

Lemma rregister_held th : level_ <> kMonitorLock -> held_possible (rheld th) = true ->
  held_possible (rheld (rregister th)) = true /\ registered (rheld (rregister th)) = true.
Proof.
  unfold held_possible, registered. cbn. intros Hm H%bool_decide_eq_true.
  split; apply bool_decide_true; [by rewrite lookup_insert_ne|apply lookup_insert_eq].
Qed.

Lemma runregister_held th : level_ <> kMonitorLock -> held_possible (rheld th) = true ->
  held_possible (rheld (runregister th)) = true /\ registered (rheld (runregister th)) = false.
Proof.
  unfold held_possible, registered. cbn. intros Hm H%bool_decide_eq_true.
  split; [apply bool_decide_true; by rewrite lookup_delete_ne|apply bool_decide_false; by rewrite lookup_delete_eq].
Qed.

Lemma ris_held_runs c t th : rthreads c !! t = Some th ->
  (RwGetExclusiveOwnerTid (rwm c) = t -> registered (rheld th) = true) ->
  RwIsExclusiveHeld t c = Ok (RwGetExclusiveOwnerTid (rwm c) =? t, c).
Proof.
  intros Hth Hr. unfold RwIsExclusiveHeld. rewrite (bind_ok _ _ _ _ _ (get_rthread_ok t th c Hth)), bind_gets. cbn zeta.
  destruct (_ =? t) eqn:E; [|done]. apply Z.eqb_eq in E. by rewrite (Hr E).
Qed.

Lemma assert_exclusive_runs c t th : rthreads c !! t = Some th -> rw_state_ (rwm c) = -1 -> rw_owner_ (rwm c) = t ->
  registered (rheld th) = true -> AssertExclusiveHeld t c = Ok (tt, c).
Proof.
  intros Hth Hs Ho Hr. unfold AssertExclusiveHeld. rewrite (bind_ok _ _ _ _ _ (ris_held_runs c t th Hth (fun _ => Hr))).
  unfold RwGetExclusiveOwnerTid. rewrite Hs, Ho. cbn [Z.eqb Z.ltb Z.compare]. by rewrite Z.eqb_refl.
Qed.

Lemma assert_shared_runs c t th : rthreads c !! t = Some th -> registered (rheld th) = true -> AssertSharedHeld t c = Ok (tt, c).
Proof. intros Hth Hr. unfold AssertSharedHeld. rewrite (bind_ok _ _ _ _ _ (get_rthread_ok t th c Hth)). by rewrite Hr. Qed.

Lemma no_owner_runs c : rw_owner_ (rwm c) = 0 -> CheckNoOwner c = Ok (tt, c).
Proof. intros H. unfold CheckNoOwner. rewrite bind_gets. by rewrite H. Qed.

Lemma not_writing c t th : RInv c -> rthreads c !! t = Some th -> writes (rpc th) = false -> (RwGetExclusiveOwnerTid (rwm c) =? t) = false.
Proof.
  intros HI Hth Hw. pose proof (rt_id _ _ (rinv_thread c t th HI Hth)) as Hid. apply Z.eqb_neq. unfold RwGetExclusiveOwnerTid.
  destruct (_ =? 0); [lia|]. destruct (0 <? _); [unfold u64; mlia|]. destruct HI as [[o HC] _]. pose proof (ro_view c o HC) as Hv.
  pose proof (writer_is_not c o t th HC Hth Hw) as Hne. destruct o as [w|]; [|destruct Hv; lia].
  destruct Hv as (_ & _ & thw & _ & Hf). unfold owner_field in Hf. assert (w <> t) by congruence. destruct (rpc thw); lia.
Qed.

(** ** The end of the locks *)

Lemma w_acquired_safe c t th d : level_ <> kMonitorLock ->
  RInv c -> rthreads c !! t = Some th -> rpc th = WAcquired d -> rsafe_run (WAcquired_step t d) c.
Proof.
  intros Hm HI Hth Hp. destruct (rinv_writer c t th HI Hth) as [Hs Hf]; [by rewrite Hp|].
  pose proof (rinv_thread c t th HI Hth) as []. rewrite Hp in *. cbn in Hf. destruct (rregister_held th Hm rt_monitor0) as [Hmon Hreg].
  assert (forall b, RInv (rmove c t (mkRwThread RwWriting (rheld (rregister th)) b) (with_rw_owner t (rwm c)))) as HI'.
  { intros b. apply (rinv_move c t th); [done| |left; cbn; lia]. constructor; rewrite ?Hp; [done|..]; try apply count_same.
    - unfold state_change; cbn. auto 10.
    - by constructor. }
  unfold rsafe_run, WAcquired_step, update_rw, checkM. rewrite bind_gets. destruct d as [d|].
  - rewrite bind_modify. erewrite (bind_ok (update_rheld t _)); [|apply (rregister_runs _ t th); [done..|by apply rt_levels0]].
    erewrite (bind_ok (AssertSharedHeld t)); [|apply (assert_shared_runs _ t (rregister th)); [apply rmove_lookup|done]].
    rewrite (update_rthread_ok t _ (rregister th)) by apply rmove_lookup. rewrite rmove_rmove. eexists. split; [done|]. apply HI'.
  - rewrite bind_lift, Hs. cbn [check Z.eqb Pos.eqb]. rewrite bind_lift, Hf. cbn [check Z.eqb]. rewrite bind_modify.
    erewrite (bind_ok (update_rheld t _)); [|apply (rregister_runs _ t th); [done..|by apply rt_levels0]].
    erewrite (bind_ok (AssertExclusiveHeld t)); [|apply (assert_exclusive_runs _ t (rregister th)); [apply rmove_lookup|done..]].
    rewrite (run_rgoto _ t (rregister th)) by apply rmove_lookup. rewrite rmove_rmove. eexists. split; [done|]. apply HI'.
Qed.

Lemma r_acquired_safe c t th try_ : level_ <> kMonitorLock ->
  RInv c -> rthreads c !! t = Some th -> rpc th = RAcquired try_ -> rsafe_run (RAcquired_step t try_) c.
Proof.
  intros Hm HI Hth Hp. destruct (rinv_reader c t th HI Hth) as [Hs Hf]; [by rewrite Hp|].
  pose proof (rinv_thread c t th HI Hth) as []. rewrite Hp in *. destruct (rregister_held th Hm rt_monitor0) as [Hmon Hreg].
  assert (forall b, RInv (rmove c t (mkRwThread RwReading (rheld (rregister th)) b) (rwm c))) as HI'.
  { intros b. apply (rinv_move c t th); [done| |left; cbn; lia]. constructor; rewrite ?Hp; [done|..]; try apply count_same.
    - unfold state_change; cbn. split; [done|]. split; [lia|by left].
    - by constructor. }
  unfold rsafe_run, RAcquired_step.
  erewrite (bind_ok (whenM _ _)); [|destruct try_; [done|by apply no_owner_runs]].
  erewrite (bind_ok (update_rheld t _)); [|apply (rregister_runs _ t th); [done..|by apply rt_levels0]].
  erewrite (bind_ok (AssertSharedHeld t)); [|apply (assert_shared_runs _ t (rregister th)); [apply rmove_lookup|done]].
  destruct try_; [rewrite (update_rthread_ok t _ (rregister th)) by apply rmove_lookup|rewrite (run_rgoto _ t (rregister th)) by apply rmove_lookup];
    rewrite rmove_rmove; eexists; (split; [done|]); apply HI'.
Qed.

(** ** Unlocking *)

Lemma w_unlock_load_safe c t th :
  RInv c -> rthreads c !! t = Some th -> rpc th = WUnlockLoad -> rsafe_run (WUnlockLoad_step t) c.
Proof.
  intros HI Hth Hp. destruct (rinv_writer c t th HI Hth) as [Hs Hf]; [by rewrite Hp|].
  unfold rsafe_run, WUnlockLoad_step. rewrite bind_gets, Hs. cbn [Z.eqb Pos.eqb]. rewrite (run_rgoto_rw _ t th) by done.
  eexists. split; [done|]. rstep_to.
Qed.

Lemma w_unlock_cas_safe ch c t th :
  RInv c -> rthreads c !! t = Some th -> rpc th = WUnlockCas -> rsafe_run (WUnlockCas_step ch t) c.
Proof.
  intros HI Hth Hp. destruct (rinv_writer c t th HI Hth) as [Hs Hf]; [by rewrite Hp|]. rewrite Hp in Hf. cbn in Hf.
  unfold rsafe_run, WUnlockCas_step.
  destruct (cas_rw_cases (rw_spurious ch) (-1) 0 c) as [[H0 Hc]|Hc]; rewrite (bind_ok _ _ _ _ _ Hc), (run_rgoto _ t th) by done;
    eexists; (split; [done|]).
  - change (RInv (rmove c t (at_rpc (RwPending false) th) (with_rw_state 0 (rwm c)))). rstep_to.
  - rstep_to.
Qed.

Lemma r_unlock_load_safe c t th :
  RInv c -> rthreads c !! t = Some th -> rpc th = RUnlockLoad -> rsafe_run (RUnlockLoad_step t) c.
Proof.
  intros HI Hth Hp. destruct (rinv_reader c t th HI Hth) as [Hs Hf]; [by rewrite Hp|].
  unfold rsafe_run, RUnlockLoad_step. rewrite bind_gets, (proj2 (Z.ltb_lt _ _) Hs). rewrite (run_rgoto _ t th) by done.
  eexists. split; [done|]. rstep_to.
Qed.

Lemma r_unlock_cas_safe ch c t th cur :
  RInv c -> rthreads c !! t = Some th -> rpc th = RUnlockCas cur -> rsafe_run (RUnlockCas_step ch t cur) c.
Proof.
  intros HI Hth Hp. pose proof (rt_read _ _ (rinv_thread c t th HI Hth)) as Hro. rewrite Hp in Hro. cbn in Hro.
  unfold rsafe_run, RUnlockCas_step.
  destruct (cas_rw_cases (rw_spurious ch) cur (cur - 1) c) as [[H0 Hc]|Hc]; rewrite (bind_ok _ _ _ _ _ Hc); [|rewrite (run_rgoto _ t th) by done;
    eexists; (split; [done|]); rstep_to].
  destruct (cur - 1 =? 0) eqn:E; rewrite (run_rgoto _ t th) by done; eexists; (split; [done|]).
  - change (RInv (rmove c t (at_rpc (RwPending true) th) (with_rw_state (cur - 1) (rwm c)))).
    rstep_to. split; [done|]. split; [lia|]. right; lia.
  - change (RInv (rmove c t (at_rpc RwOutside th) (with_rw_state (cur - 1) (rwm c)))).
    rstep_to; [|left; lia]. split; [done|]. split; [lia|]. right; lia.
Qed.

Lemma pending_exact c : RInv c -> rfew c ->
  num_pending_readers_ (rwm c) = total (fun th => pending_reader (rpc th)) (rthreads c) /\
  num_pending_writers_ (rwm c) = total (fun th => pending_writer (rpc th)) (rthreads c).
Proof.
  intros [[o HC] _] Hfew. rewrite (ro_readers c o HC), (ro_writers c o HC). unfold rfew in Hfew.
  assert (forall w : RwPC -> Z, (forall p, 0 <= w p <= 1) -> s32 (total (fun th => w (rpc th)) (rthreads c)) = total (fun th => w (rpc th)) (rthreads c)) as H.
  { intros w Hw. pose proof (total_le (fun th => w (rpc th)) 1 (rthreads c) (fun _ th _ => proj2 (Hw (rpc th)))).
    pose proof (total_nonneg (fun th => w (rpc th)) (rthreads c) (fun _ th _ => proj1 (Hw (rpc th)))). apply s32_small. lia. }
  split; apply H; intros []; cbn; lia.
Qed.

Lemma sleeper_pending c t th : RInv c -> rfew c -> rthreads c !! t = Some th ->
  (rpc th = RAsleep -> 0 < num_pending_readers_ (rwm c)) /\ (forall d, rpc th = WAsleep d -> 0 < num_pending_writers_ (rwm c)).
Proof.
  intros HI Hfew Hth. destruct (pending_exact c HI Hfew) as [-> ->]. split.
  - intros Hp. pose proof (total_ge (fun th => pending_reader (rpc th)) t th (rthreads c)) as H. cbn in H. rewrite Hp in H. cbn in H.
    enough (1 <= total (fun th => pending_reader (rpc th)) (rthreads c)) by lia. apply H; [|done]. intros u thu _. destruct (rpc thu); cbn; lia.
  - intros d Hp. pose proof (total_ge (fun th => pending_writer (rpc th)) t th (rthreads c)) as H. cbn in H. rewrite Hp in H. cbn in H.
    enough (1 <= total (fun th => pending_writer (rpc th)) (rthreads c)) by lia. apply H; [|done]. intros u thu _. destruct (rpc thu); cbn; lia.
Qed.

Lemma pending_safe c t th shared :
  RInv c -> rfew c -> rthreads c !! t = Some th -> rpc th = RwPending shared -> rsafe_run (RwPending_step t shared) c.
Proof.
  intros HI Hfew Hth Hp. unfold rsafe_run, RwPending_step. rewrite bind_gets.
  destruct (0 <? _) eqn:E; rewrite (run_rgoto _ t th) by done; eexists; (split; [done|]); rstep_to.
  apply Z.ltb_ge in E. right; right. split; [done|]. split; [done|]. intros u thu _ Hu Ha _.
  destruct (sleeper_pending c u thu HI Hfew Hu) as [H1 H2].
  destruct (rpc thu) eqn:Hpu; try done; destruct shared; cbn; try done; [specialize (H2 _ eq_refl)|specialize (H1 eq_refl)]; lia.
Qed.

Lemma pending2_safe c t th shared :
  RInv c -> rfew c -> rthreads c !! t = Some th -> rpc th = RwPending2 shared -> rsafe_run (RwPending2_step t shared) c.
Proof.
  intros HI Hfew Hth Hp. unfold rsafe_run, RwPending2_step. rewrite bind_gets.
  destruct (0 <? _) eqn:E; rewrite (run_rgoto _ t th) by done; eexists; (split; [done|]); rstep_to.
  apply Z.ltb_ge in E. right; right. split; [done|]. split; [done|]. intros u thu _ Hu Ha Hcov.
  destruct (sleeper_pending c u thu HI Hfew Hu) as [H1 H2].
  destruct (rpc thu) eqn:Hpu; try done; destruct shared; try done; [specialize (H2 _ eq_refl)|specialize (H1 eq_refl)]; lia.
Qed.

Lemma rw_woken_same th : writes (rpc (rw_woken th)) = writes (rpc th) /\ share (rpc (rw_woken th)) = share (rpc th) /\
  pending_reader (rpc (rw_woken th)) = pending_reader (rpc th) /\ pending_writer (rpc (rw_woken th)) = pending_writer (rpc th) /\
  rnamed (rpc (rw_woken th)) = rnamed (rpc th) /\ rlocking (rpc (rw_woken th)) = rlocking (rpc th) /\
  rheld (rw_woken th) = rheld th /\ rasleep (rpc (rw_woken th)) = false.
Proof. unfold rw_woken. destruct (rpc th) eqn:E; cbn; rewrite ?E; auto 10. Qed.

Lemma rw_woken_id th : rasleep (rpc th) = false -> rw_woken th = th.
Proof. unfold rw_woken. by destruct (rpc th). Qed.

Lemma rwake_all_inv c : RInv c -> RInv (mkRwConfig (rwm c) (rw_woken <$> rthreads c)).
Proof.
  intros [[o HC] _].
  assert (forall t th, (rw_woken <$> rthreads c) !! t = Some th -> exists th0, rthreads c !! t = Some th0 /\ th = rw_woken th0) as Hback.
  { intros t th. rewrite lookup_fmap. intros (th0 & ? & ?)%fmap_Some. eauto. }
  assert (forall w : RwPC -> Z, (forall th, w (rpc (rw_woken th)) = w (rpc th)) ->
    total (fun th => w (rpc th)) (rw_woken <$> rthreads c) = total (fun th => w (rpc th)) (rthreads c)) as Htot.
  { intros w Hw. rewrite total_fmap. apply total_ext. auto. }
  split.
  - exists o. split; cbn [rwm rthreads].
    + intros t th (th0 & Hth & ->)%Hback. rewrite (proj1 (rw_woken_same th0)). by apply (ro_writes c o HC).
    + pose proof (ro_view c o HC) as Hv. destruct o as [t|]; cbn in *; unfold readers in *;
        rewrite (Htot share) by (intros th0; apply rw_woken_same); [|done]. destruct Hv as (H1 & H2 & th & Hth & Hf).
      split; [done|]. split; [done|]. exists th. split; [|done]. rewrite lookup_fmap, Hth. cbn. f_equal. apply rw_woken_id.
      pose proof (ro_writes c _ HC t th Hth) as Hw. rewrite bool_decide_true in Hw by done. by destruct (rpc th).
    + rewrite (Htot pending_reader) by (intros th0; apply rw_woken_same). apply (ro_readers c o HC).
    + rewrite (Htot pending_writer) by (intros th0; apply rw_woken_same). apply (ro_writers c o HC).
    + intros t th (th0 & Hth & ->)%Hback. destruct (rw_woken_same th0) as (_ & _ & _ & _ & E5 & E6 & E7 & _).
      destruct (ro_threads c o HC t th0 Hth). constructor; rewrite ?E5, ?E6, ?E7; try done.
      unfold rw_woken. destruct (rpc th0) eqn:E; cbn; rewrite ?E; done.
  - intros _ t th (th0 & Hth & ->)%Hback Ha. by rewrite (proj2 (proj2 (proj2 (proj2 (proj2 (proj2 (proj2 (rw_woken_same th0)))))))) in Ha.
Qed.

Lemma wake_safe c t th : RInv c -> rthreads c !! t = Some th -> rpc th = RwWake -> rsafe_run (RwWake_step t) c.
Proof.
  intros HI Hth Hp. unfold rsafe_run, RwWake_step. rewrite bind_modify. pose proof (rwake_all_inv c HI) as HI1.
  set (c1 := mkRwConfig _ _) in *. assert (rthreads c1 !! t = Some th) as Hth1.
  { unfold c1; cbn. rewrite lookup_fmap, Hth. cbn. f_equal. apply rw_woken_id. by rewrite Hp. }
  rewrite (run_rgoto _ t th) by done. eexists. split; [done|]. rstep_to. right; right. split; [done|]. split; [done|].
  intros u thu _ Hu Ha. unfold c1 in Hu. cbn in Hu. rewrite lookup_fmap in Hu. apply fmap_Some in Hu as (thu0 & _ & ->).
  by rewrite (proj2 (proj2 (proj2 (proj2 (proj2 (proj2 (proj2 (rw_woken_same thu0)))))))) in Ha.
Qed.

(** ** Calls *)

Lemma rstart_inv c t th p' : RInv c -> rthreads c !! t = Some th -> rpc th = RwOutside -> levels_ok (rheld th) = true ->
  (exists d, p' = WLoad d) \/ (exists b, p' = RLoad b) -> RInv (rmove c t (at_rpc p' th) (rwm c)).
Proof.
  intros HI Hth Hp Hl Hp'. pose proof (rinv_thread c t th HI Hth) as []. rewrite Hp in *. apply (rinv_move c t th); [done| |].
  - destruct Hp' as [[d ->]|[b ->]]; constructor; rewrite ?Hp; cbn; try done; try apply count_same; try (by constructor);
      unfold state_change; cbn; (split; [done|]; split; [lia|by left]).
  - right; right. rewrite Hp. destruct Hp' as [[d ->]|[b ->]]; done.
Qed.

Lemma rcall_safe c t th op : level_ <> kMonitorLock ->
  RInv c -> rthreads c !! t = Some th -> rcall_ok op th = true -> rsafe_run (run_rop t op) c.
Proof.
  intros Hm HI Hth Hok. destruct op; cbn [run_rop]; unfold rcall_ok in Hok; destruct (rpc th) eqn:Hp; try done.
  - unfold rsafe_run, RwExclusiveLock, AssertNotExclusiveHeld.
    assert (writes (rpc th) = false) as Hw by (by rewrite Hp). pose proof (not_writing c t th HI Hth Hw) as Hn.
    erewrite (bind_ok (RwIsExclusiveHeld t ≫= _)).
    2: { erewrite (bind_ok (RwIsExclusiveHeld t)); [|apply (ris_held_runs c t th Hth); intros E; rewrite E, Z.eqb_refl in Hn; done]. by rewrite Hn. }
    rewrite (run_rgoto _ t th) by done. eexists. split; [done|]. apply rstart_inv; eauto.
  - unfold rsafe_run, RwExclusiveLockWithTimeout. rewrite (run_rgoto _ t th) by done. eexists. split; [done|]. apply rstart_inv; eauto.
  - destruct (rinv_writer c t th HI Hth) as [Hs Hf]; [by rewrite Hp|]. pose proof (rinv_thread c t th HI Hth) as [].
    rewrite Hp in *. cbn in Hf, rt_held0. destruct (runregister_held th Hm rt_monitor0) as [Hmon Hreg].
    unfold rsafe_run, RwExclusiveUnlock, checkM. rewrite (bind_ok _ _ _ _ _ (assert_exclusive_runs c t th Hth Hs Hf rt_held0)).
    rewrite (bind_ok _ _ _ _ _ (runregister_runs c t th Hm Hth rt_held0)), bind_gets, bind_lift. cbn [rmove rwm].
    rewrite (proj2 (Z.eqb_neq (rw_owner_ (rwm c)) 0)) by lia. cbn [check negb].
    rewrite (run_rgoto _ t (runregister th)) by apply rmove_lookup. eexists. split; [done|].
    change (RInv (rmove (rmove c t (runregister th) (rwm c)) t (at_rpc WUnlockLoad (runregister th)) (rwm c))).
    rewrite rmove_rmove. apply (rinv_move c t th); [done| |left; lia].
    constructor; rewrite ?Hp; cbn; try done; try apply count_same; try (by constructor). unfold state_change; cbn; auto 10.
  - unfold rsafe_run. rewrite (run_rgoto _ t th) by done. eexists. split; [done|]. apply rstart_inv; eauto.
  - unfold rsafe_run. rewrite (run_rgoto _ t th) by done. eexists. split; [done|]. apply rstart_inv; eauto.
  - destruct (rinv_reader c t th HI Hth) as [Hs Hf]; [by rewrite Hp|]. pose proof (rinv_thread c t th HI Hth) as [].
    rewrite Hp in *. cbn in rt_held0. destruct (runregister_held th Hm rt_monitor0) as [Hmon Hreg].
    unfold rsafe_run, RwSharedUnlock. rewrite (bind_ok _ _ _ _ _ (no_owner_runs c Hf)).
    rewrite (bind_ok _ _ _ _ _ (assert_shared_runs c t th Hth rt_held0)), (bind_ok _ _ _ _ _ (runregister_runs c t th Hm Hth rt_held0)).
    rewrite (run_rgoto _ t (runregister th)) by apply rmove_lookup. rewrite rmove_rmove. eexists. split; [done|].
    cbn [rmove rwm]. apply (rinv_move c t th); [done| |left; lia].
    constructor; rewrite ?Hp; cbn; try done; try apply count_same; try (by constructor).
    unfold state_change; cbn. split; [done|]. split; [lia|by left].
Qed.

Lemma rother_locks_inv c t th h :
  RInv c -> rthreads c !! t = Some th -> rin_client (rpc th) = true -> held_possible h = true ->
  registered h = registered (rheld th) -> RInv (rmove c t (with_rheld h th) (rwm c)).
Proof.
  intros HI Hth Hc Hh Hr. pose proof (rinv_thread c t th HI Hth) as []. apply (rinv_move c t th); [done| |].
  - constructor; cbn; try done; try apply count_same.
    + unfold state_change. destruct (rpc th) eqn:E; try done; cbn; try (split; [done|]; split; [lia|by left]).
      pose proof (rinv_writer c t th HI Hth) as Hw. rewrite E in Hw. destruct (Hw eq_refl). auto 10.
    + constructor; cbn; try done; [by rewrite Hr|]. by destruct (rpc th).
  - right; right. cbn. split; [done|]. split; [by destruct (rpc th)|]. done.
Qed.

End Steps.
