(* ===== verification/RwProofs.v ===== *)
(** * Correctness of reader-writer mutexes

    In every interleaving [state_] says who has the mutex, and no check fails
    except that a signal that interrupts a reader in its wait aborts the runtime
    ([rw_exclusion]); no wake-up is lost and the code does not spin
    ([rw_progress]). *)

From S2P Require Import Prelude Mutex RwMutex RwInvariant.

(** ** The set of threads does not change *)

Definition rthread_ids (c : RwConfig) : gset Z := dom (rthreads c).

Lemma rkeeps_get_rthread t : invisible rthread_ids (get_rthread t).
Proof. apply invisible_bind; [apply invisible_gets|]. intros ts. destruct (ts !! t); [apply invisible_ret|apply invisible_lift]. Qed.

Lemma rkeeps_update_rthread t f : invisible rthread_ids (update_rthread t f).
Proof.
  intros c a c'. unfold update_rthread, get_rthread. intros H. apply bind_inv in H as (th & c1 & H & [= _ <-]). rewrite bind_gets in H.
  destruct (rthreads c !! t) as [th'|] eqn:E; [|done]. injection H as -> <-. unfold rthread_ids. cbn. rewrite dom_insert_L.
  apply elem_of_dom_2 in E. set_solver.
Qed.

Lemma rkeeps_update_rw g : invisible rthread_ids (update_rw g).
Proof. intros c a c' [= _ <-]. done. Qed.

Lemma rkeeps_wake t : invisible rthread_ids (RwWake_step t).
Proof. apply invisible_bind; [|intros; apply rkeeps_update_rthread]. intros c a c' [= _ <-]. cbn. apply dom_fmap_L. Qed.

#[export] Hint Resolve rkeeps_get_rthread rkeeps_update_rthread rkeeps_update_rw rkeeps_wake : invisible.

Section Proofs.
Context `{B : BaseMutex}.

Lemma rkeeps_run_rpc ch t p : invisible rthread_ids (run_rpc ch t p).
Proof.
  destruct p; cbn [run_rpc];
    unfold WLoad_step, WCas_step, WContend_step, WFutex_step, WWoken_step, WTimedOut_step, WAcquired_step, RLoad_step, RCas_step,
      RContend_step, RFutex_step, RWoken_step, RAcquired_step, WUnlockLoad_step, WUnlockCas_step, RUnlockLoad_step, RUnlockCas_step,
      RwPending_step, RwPending2_step, CheckNoOwner, AssertExclusiveHeld, AssertSharedHeld, RwIsExclusiveHeld, update_rheld, time_out,
      cas_rw, goto_rpc, checkM; invisible.
Qed.

Lemma rkeeps_run_rop t op : invisible rthread_ids (run_rop t op).
Proof.
  destruct op; cbn [run_rop];
    unfold RwExclusiveLock, RwExclusiveLockWithTimeout, RwExclusiveUnlock, RwSharedUnlock, CheckNoOwner, AssertExclusiveHeld,
      AssertNotExclusiveHeld, AssertSharedHeld, RwIsExclusiveHeld, update_rheld, goto_rpc, checkM; invisible.
Qed.

Lemma rkeeps_eintr t p : invisible rthread_ids (rw_eintr t p).
Proof. destruct p; cbn; unfold goto_rpc; auto with invisible. Qed.

(** ** Every step keeps the invariant *)

Lemma run_rpc_safe ch c t th : level_ <> kMonitorLock ->
  RInv c -> rfew c -> rthreads c !! t = Some th -> rsafe_run (run_rpc ch t (rpc th)) c.
Proof.
  intros Hm HI Hfew Hth. destruct (rpc th) eqn:Hp; cbn [run_rpc]; try (by exists c);
    eauto using w_load_safe, w_cas_safe, w_contend_safe, w_futex_safe, w_woken_safe, w_timed_out_safe, w_acquired_safe,
      r_load_safe, r_cas_safe, r_contend_safe, r_futex_safe, r_woken_safe, r_acquired_safe, w_unlock_load_safe, w_unlock_cas_safe,
      r_unlock_load_safe, r_unlock_cas_safe, pending_safe, pending2_safe, wake_safe.
Qed.

(** The thread whose wait is interrupted. *)
Definition interrupts_reader (a : RwAction) (c : RwConfig) : Prop :=
  exists t th, a = REintr t /\ rthreads c !! t = Some th /\ rpc th = RAsleep.

Lemma rfew_keeps c c' : rfew c -> rthread_ids c' = rthread_ids c -> rfew c'.
Proof. unfold rfew, rthread_ids. intros Hf Hd. by rewrite <- size_dom, Hd, size_dom. Qed.

Lemma rstep_safe a c : level_ <> kMonitorLock -> RInv c -> rfew c -> rallowed a c = true -> ~ interrupts_reader a c ->
  match rstep a c with None => True | Some (Ok c') => RInv c' /\ rfew c' | Some (Fault _) => False end.
Proof.
  intros Hm HI Hfew Hal Hint.
  assert (forall m : M RwConfig unit, rsafe_run m c -> invisible rthread_ids m ->
    match (match m c with Ok (_, c') => Ok c' | Fault f => Fault f end) with Ok c' => RInv c' /\ rfew c' | Fault _ => False end) as Hrun.
  { intros m (c' & Hc & HI') Hk. rewrite Hc. split; [done|]. by eapply rfew_keeps, Hk. }
  destruct a as [t op|t ch|t|t|t h]; cbn [rstep rallowed] in *; destruct (rthreads c !! t) as [th|] eqn:Hth; try done.
  - destruct (rin_client _); [|done]. apply Hrun; [by eapply rcall_safe|apply rkeeps_run_rop].
  - destruct (_ && _); [|done]. apply Hrun; [by apply run_rpc_safe|apply rkeeps_run_rpc].
  - destruct (rasleep _) eqn:E; [|done]. apply Hrun; [|apply rkeeps_eintr]. destruct (rpc th) eqn:Hp; try done; cbn [rw_eintr].
    + eexists. split; [by apply run_rgoto|]. rstep_to.
    + destruct Hint. by exists t, th.
  - destruct (rpc th) as [| | | | | | |[d|]| | | | | | | | | | | | | | | | |] eqn:Hp; try done.
    apply Hrun; [|apply rkeeps_update_rthread]. eexists. split; [by apply run_rgoto|]. rstep_to.
  - destruct (_ && _) eqn:E; [|done]. apply Hrun; [|apply rkeeps_update_rthread].
    apply andb_true_iff in E as [[E1 E2]%andb_true_iff E3%eqb_prop].
    eexists. split; [by apply update_rthread_ok|]. by apply rother_locks_inv.
Qed.

Lemma rinitial_inv c : rinitial c -> RInv c.
Proof.
  intros []. assert (forall w : RwPC -> Z, w RwOutside = 0 -> total (fun th => w (rpc th)) (rthreads c) = 0) as Hz.
  { intros w Hw. rewrite (total_ext _ (rthreads c) (fun _ => 0)); [|intros t th Hth; by rewrite (proj1 (ri_threads t th Hth))].
    clear. induction (rthreads c) as [|t th ts Hn IH] using map_ind; [done|]. by rewrite total_insert_new. }
  split.
  - exists None. split.
    + intros t th Hth. by rewrite (proj1 (ri_threads t th Hth)).
    + cbn. rewrite ri_mutex. unfold readers. by rewrite Hz.
    + by rewrite ri_mutex, Hz.
    + by rewrite ri_mutex, Hz.
    + intros t th Hth. destruct (ri_threads t th Hth) as (Hp & Hh & Hr). constructor; rewrite ?Hp; try done. by eapply ri_ids.
  - intros _ t th Hth Hs. by rewrite (proj1 (ri_threads t th Hth)) in Hs.
Qed.

Lemma rreachable_inv c : level_ <> kMonitorLock -> rreachable c -> rfew c -> RInv c.
Proof.
  intros Hm (c0 & Hi & Hr) Hfew.
  assert (forall c1 c2, rtc rcstep c1 c2 -> rthread_ids c1 = rthread_ids c2) as Hdom.
  { intros c1 c2 H. induction H as [|c1 c2 c3 [a [_ Hs]] _ IH]; [done|]. rewrite <- IH. clear -Hs.
    assert (forall (m : M RwConfig unit), invisible rthread_ids m ->
      Some (match m c1 with Ok (_, c') => Ok c' | Fault f => Fault f end) = Some (Ok c2) -> rthread_ids c1 = rthread_ids c2) as Hk.
    { intros m Hm. destruct (m c1) as [[x c']|] eqn:E; [|done]. intros [= <-]. symmetry. by eapply Hm. }
    destruct a as [t op|t ch|t|t|t h]; cbn [rstep] in Hs; destruct (rthreads c1 !! t) as [th|]; try done;
      match type of Hs with (if ?b then _ else _) = _ => destruct b; [|done] end;
      (eapply Hk; [|exact Hs]); [apply rkeeps_run_rop|apply rkeeps_run_rpc|apply rkeeps_eintr|apply rkeeps_update_rthread..]. }
  apply rinitial_inv in Hi. assert (rfew c0) as Hf0 by (eapply rfew_keeps; [exact Hfew|by apply Hdom]). clear Hfew.
  induction Hr as [|c0 c1 c2 [a [Ha Hs]] _ IH]; [done|].
  assert (~ interrupts_reader a c0) as Hint.
  { intros (t & th & -> & Hth & Hp). cbn [rstep] in Hs. rewrite Hth, Hp in Hs. done. }
  pose proof (rstep_safe a c0 Hm Hi Hf0 Ha Hint) as H. rewrite Hs in H. destruct H as [HI1 Hf1]. auto.
Qed.


(** ** Progress *)

Definition rquiet (c c' : RwConfig) : Prop := exists t now, rstep (RGo t (mkRwChoice false now)) c = Some (Ok c').

(** A quiet step after which the mutex is free. *)
Definition rquiet_free (c c' : RwConfig) : Prop := rquiet c c' /\ rw_state_ (rwm c') = 0.

(** How far a thread is from taking a free mutex, or from having woken the
    others; a share is taken at once only if the value that was read is 0. *)
Definition rrank (p : RwPC) : Z :=
  match p with
  | WCas _ | WTimedOut | RwWake => 1
  | RCas _ cur => if cur =? 0 then 1 else 3
  | WLoad _ | RLoad _ | RwPending2 _ => 2
  | WWoken _ | RWoken | RwPending _ => 3
  | WAsleep _ | RAsleep => 4
  | WFutex _ _ | RFutex _ => 5
  | WContend _ _ | RContend _ => 6
  | _ => 0
  end.

Definition rwork (c : RwConfig) : Z := total (fun th => rrank (rpc th)) (rthreads c).

Definition someone_locks (c : RwConfig) : Prop := exists t th, rthreads c !! t = Some th /\ rlocking (rpc th) = true.

Lemma rrank_bounds p : 0 <= rrank p <= 6.
Proof. destruct p; cbn; repeat case_match; lia. Qed.

Lemma rgo_inv c t ch c' : rstep (RGo t ch) c = Some (Ok c') ->
  exists th, rthreads c !! t = Some th /\ rin_client (rpc th) = false /\ rasleep (rpc th) = false /\ run_rpc ch t (rpc th) c = Ok (tt, c').
Proof.
  cbn [rstep]. destruct (rthreads c !! t) as [th|]; [|done]. destruct (rin_client (rpc th)) eqn:E1, (rasleep (rpc th)) eqn:E2; try done.
  cbn [negb andb]. destruct (run_rpc ch t (rpc th) c) as [[[] c1]|] eqn:E; [|done]. intros [= <-]. eauto.
Qed.

(** What a quiet step of [t] from a free mutex does to the threads: it moves, after
    it has woken the others at the end of an unlock. *)
Definition rfree_move (c c' : RwConfig) (t : Z) (th : RwThread) : Prop :=
  exists th', (rlocking (rpc th) = true -> rlocking (rpc th') = true) /\ rrank (rpc th') < rrank (rpc th) /\
    (rthreads c' = <[t := th']> (rthreads c) \/ rthreads c' = <[t := th']> (rw_woken <$> rthreads c)).

Lemma rfree_step_cases c t th now c' :
  RInv c -> rw_state_ (rwm c) = 0 -> rthreads c !! t = Some th -> rin_client (rpc th) = false -> rasleep (rpc th) = false ->
  run_rpc (mkRwChoice false now) t (rpc th) c = Ok (tt, c') -> rw_state_ (rwm c') = 0 -> rfree_move c c' t th.
Proof.
  intros HI H0 Hth Hc Ha Hrun H0'.
  assert (writes (rpc th) = false) as Hw.
  { apply not_true_is_false. intros Hw. destruct (rinv_writer c t th HI Hth Hw). lia. }
  assert (share (rpc th) = 0) as Hs.
  { pose proof (share_bounds (rpc th)). destruct (decide (share (rpc th) = 1)) as [H1|]; [|lia]. destruct (rinv_reader c t th HI Hth H1). lia. }
  pose proof (rt_read _ _ (rinv_thread c t th HI Hth)) as Hro.
  assert (forall th' m', c' = rmove c t th' m' -> rrank (rpc th') < rrank (rpc th) ->
    (rlocking (rpc th) = true -> rlocking (rpc th') = true) -> rfree_move c c' t th) as Hmove.
  { intros th' m' -> Hr Hl. exists th'. split; [done|]. split; [done|]. by left. }
  destruct (rpc th) eqn:Hp; try done; cbn [run_rpc] in Hrun; cbn in Hmove, Hro.
  - unfold WLoad_step in Hrun. rewrite bind_gets, H0 in Hrun. cbn [Z.eqb] in Hrun. rewrite (run_rgoto _ t th) in Hrun by done.
    injection Hrun as <-. eapply Hmove; [reflexivity|done..].
  - unfold WCas_step in Hrun. cbn [rw_spurious] in Hrun. rewrite (bind_ok _ _ _ _ _ (cas_rw_succeeds 0 (-1) c H0)) in Hrun.
    rewrite (run_rgoto _ t th) in Hrun by done. by injection Hrun as <-.
  - unfold WContend_step in Hrun. rewrite (run_rgoto_rw _ t th) in Hrun by done. injection Hrun as <-. eapply Hmove; [reflexivity|done..].
  - unfold WFutex_step in Hrun. rewrite bind_gets, H0 in Hrun. rewrite (proj2 (Z.eqb_neq 0 cur_state)) in Hrun by lia.
    rewrite (run_rgoto _ t th) in Hrun by done. injection Hrun as <-. eapply Hmove; [reflexivity|done..].
  - unfold WWoken_step in Hrun. rewrite (run_rgoto_rw _ t th) in Hrun by done. injection Hrun as <-. eapply Hmove; [reflexivity|done..].
  - unfold WTimedOut_step, update_rw, time_out in Hrun. rewrite bind_modify, (update_rthread_ok t _ th) in Hrun by done.
    injection Hrun as <-. eapply (Hmove _ (add_writers (-1) (rwm c))); [reflexivity|done..].
  - unfold RLoad_step in Hrun. rewrite bind_gets, H0 in Hrun. cbn [Z.leb Z.compare] in Hrun. rewrite (run_rgoto _ t th) in Hrun by done.
    injection Hrun as <-. eapply Hmove; [reflexivity|done..].
  - unfold RCas_step in Hrun. cbn [rw_spurious] in Hrun. destruct (decide (cur_state = 0)) as [->|Hne].
    + rewrite (bind_ok _ _ _ _ _ (cas_rw_succeeds 0 _ c H0)) in Hrun. rewrite (run_rgoto _ t th) in Hrun by done. by injection Hrun as <-.
    + erewrite (bind_ok (cas_rw _ _ _)) in Hrun by (apply cas_rw_fails; lia). cbv iota in Hrun.
      rewrite (run_rgoto _ t th) in Hrun by done.
      injection Hrun as <-. rewrite (proj2 (Z.eqb_neq cur_state 0) Hne) in Hmove. eapply Hmove; [reflexivity|done..].
  - unfold RContend_step in Hrun. rewrite (run_rgoto_rw _ t th) in Hrun by done. injection Hrun as <-. eapply Hmove; [reflexivity|done..].
  - unfold RFutex_step in Hrun. rewrite bind_gets, H0 in Hrun. rewrite (proj2 (Z.eqb_neq 0 cur_state)) in Hrun by lia.
    rewrite (run_rgoto _ t th) in Hrun by done. injection Hrun as <-. eapply Hmove; [reflexivity|done..].
  - unfold RWoken_step in Hrun. rewrite (run_rgoto_rw _ t th) in Hrun by done. injection Hrun as <-. eapply Hmove; [reflexivity|done..].
  - unfold RwPending_step in Hrun. rewrite bind_gets in Hrun. destruct (0 <? _); rewrite (run_rgoto _ t th) in Hrun by done;
      injection Hrun as <-; (eapply Hmove; [reflexivity|done..]).
  - unfold RwPending2_step in Hrun. rewrite bind_gets in Hrun. destruct (0 <? _); rewrite (run_rgoto _ t th) in Hrun by done;
      injection Hrun as <-; (eapply Hmove; [reflexivity|done..]).
  - unfold RwWake_step in Hrun. rewrite bind_modify, (run_rgoto _ t th) in Hrun.
    2: { cbn. rewrite lookup_fmap, Hth. cbn. f_equal. apply rw_woken_id. by rewrite Hp. }
    injection Hrun as <-. exists (at_rpc RwOutside th). rewrite Hp. split; [done|]. split; [done|]. by right.
Qed.

Lemma rfree_step_decreases c c' : RInv c -> rw_state_ (rwm c) = 0 -> rquiet_free c c' -> rwork c' < rwork c.
Proof.
  intros HI H0 [(t & now & Hs) H0']. apply rgo_inv in Hs as (th & Hth & Hc & Ha & Hrun).
  destruct (rfree_step_cases c t th now c' HI H0 Hth Hc Ha Hrun H0') as (th' & _ & Hr & Hcase). unfold rwork.
  destruct Hcase as [-> | ->].
  - rewrite (total_insert _ t th th') by done. lia.
  - rewrite (total_insert _ t th th') by (rewrite lookup_fmap, Hth; cbn; f_equal; by apply rw_woken_id).
    rewrite total_fmap. enough (total (fun th0 => rrank (rpc (rw_woken th0))) (rthreads c) <= total (fun th0 => rrank (rpc th0)) (rthreads c)) by lia.
    apply total_mono. intros u thu _. unfold rw_woken. destruct (rpc thu) eqn:E; cbn; rewrite ?E; cbn; lia.
Qed.

Lemma rfree_step_locks c c' : RInv c -> rw_state_ (rwm c) = 0 -> rquiet_free c c' -> someone_locks c -> someone_locks c'.
Proof.
  intros HI H0 [(t & now & Hs) H0'] (w & thw & Hw & Hl). apply rgo_inv in Hs as (th & Hth & Hc & Ha & Hrun).
  destruct (rfree_step_cases c t th now c' HI H0 Hth Hc Ha Hrun H0') as (th' & Hk & _ & Hcase).
  destruct (decide (w = t)) as [->|Hne].
  - exists t, th'. split; [destruct Hcase as [-> | ->]; apply lookup_insert_eq|]. apply Hk. congruence.
  - destruct Hcase as [E|E].
    + exists w, thw. by rewrite E, lookup_insert_ne.
    + exists w, (rw_woken thw). rewrite E, lookup_insert_ne, lookup_fmap, Hw by done. split; [done|].
      by rewrite (proj1 (proj2 (proj2 (proj2 (proj2 (proj2 (rw_woken_same thw))))))).
Qed.

Lemma rcan_go c t th : level_ <> kMonitorLock -> RInv c -> rfew c -> rthreads c !! t = Some th ->
  rin_client (rpc th) = false -> rasleep (rpc th) = false ->
  exists c', rstep (RGo t (mkRwChoice false (mkTimespec 0 0))) c = Some (Ok c').
Proof.
  intros Hm HI Hfew Hth Hc Ha. destruct (run_rpc_safe (mkRwChoice false (mkTimespec 0 0)) c t th Hm HI Hfew Hth) as (c' & Hr & _).
  exists c'. cbn [rstep]. rewrite Hth, Hc, Ha. cbn [negb andb]. by rewrite Hr.
Qed.

Lemma rfree_can_step c : level_ <> kMonitorLock ->
  RInv c -> rfew c -> rw_state_ (rwm c) = 0 -> someone_locks c -> exists c', rquiet c c'.
Proof.
  intros Hm HI Hfew H0 (t & th & Hth & Hl).
  assert (exists u thu, rthreads c !! u = Some thu /\ rin_client (rpc thu) = false /\ rasleep (rpc thu) = false) as (u & thu & Hu & Hc & Ha).
  { destruct (rasleep (rpc th)) eqn:Ha; [|exists t, th; split; [done|]; split; [by destruct (rpc th)|done]].
    destruct (proj2 HI H0 t th Hth Ha) as (u & thu & Hu & Hcov). exists u, thu. by destruct (rpc thu). }
  destruct (rcan_go c u thu Hm HI Hfew Hu Hc Ha) as [c' Hs]. exists c', u, (mkTimespec 0 0). exact Hs.
Qed.

Lemma rfree_run n c c' : level_ <> kMonitorLock ->
  RInv c -> rfew c -> rw_state_ (rwm c) = 0 -> someone_locks c -> nsteps rquiet_free n c c' ->
  RInv c' /\ rfew c' /\ rw_state_ (rwm c') = 0 /\ someone_locks c' /\ rwork c' + Z.of_nat n <= rwork c.
Proof.
  intros Hm HI Hfew H0 Hw Hr. induction Hr as [c|n c c1 c2 Hs _ IH]; [split; [done|]; split; [done|]; split; [done|]; split; [done|lia]|].
  assert (RInv c1 /\ rfew c1) as [HI1 Hf1].
  { destruct (proj1 Hs) as (t & now & Hst). pose proof (rstep_safe (RGo t (mkRwChoice false now)) c Hm HI Hfew eq_refl) as H.
    rewrite Hst in H. apply H. intros (u & thu & ? & _). done. }
  pose proof (rfree_step_decreases c c1 HI H0 Hs). pose proof (rfree_step_locks c c1 HI H0 Hs Hw) as Hw1.
  destruct (IH HI1 Hf1 (proj2 Hs) Hw1) as (? & ? & ? & ? & ?). split; [done|]. split; [done|]. split; [done|]. split; [done|lia].
Qed.

Lemma rwork_bounds c : 0 <= rwork c <= 6 * Z.of_nat (size (rthreads c)).
Proof.
  split; [apply total_nonneg; intros; apply rrank_bounds|].
  apply (total_le (fun th => rrank (rpc th)) 6). intros. apply rrank_bounds.
Qed.

End Proofs.

(** C22. Exclusion.  In every reachable state [state_] is exact: -1 while one thread
    has the mutex exclusively and nobody shares it, and otherwise the number of
    threads that share it; it never exceeds the number of threads, and neither do
    the numbers of pending readers and writers, which are not negative.  No step
    of calls that clients may make fails a check of the debug build or finds an
    unexpected state.  The exception is a reader asleep in [SharedLock]: when its
    wait is interrupted, the runtime aborts.  There are fewer than 2^31 - 1 threads,
    and the level of the mutex is not that of monitors. *)
Theorem rw_exclusion `{B : BaseMutex} c :
  level_ <> kMonitorLock -> rreachable c -> rfew c ->
  (rw_state_ (rwm c) = -1 /\ readers (rthreads c) = 0 /\
     (exists t th, rthreads c !! t = Some th /\ writes (rpc th) = true /\
        forall u thu, rthreads c !! u = Some thu -> writes (rpc thu) = true -> u = t) \/
   rw_state_ (rwm c) = readers (rthreads c) /\ 0 <= rw_state_ (rwm c) <= Z.of_nat (size (rthreads c)) /\
     forall t th, rthreads c !! t = Some th -> writes (rpc th) = false) /\
  0 <= num_pending_readers_ (rwm c) <= Z.of_nat (size (rthreads c)) /\
  0 <= num_pending_writers_ (rwm c) <= Z.of_nat (size (rthreads c)) /\
  (forall a f, rallowed a c = true -> rstep a c = Some (Fault f) <-> interrupts_reader a c /\ f = FatalLog).
Proof.
  intros Hm Hr Hfew. pose proof (rreachable_inv c Hm Hr Hfew) as HI. destruct (pending_exact c HI Hfew) as [Hpr Hpw].
  split; [|split; [|split]].
  - pose proof (rinv_state c HI) as Hst. destruct HI as [[o HC] _]. pose proof (ro_view c o HC) as Hv. destruct o as [t|].
    + left. destruct Hv as (H1 & H2 & th & Hth & _). split; [done|]. split; [done|]. exists t, th. split; [done|]. split.
      * rewrite (ro_writes c _ HC t th Hth). by apply bool_decide_true.
      * intros u thu Hu Hw. pose proof (writer_is c _ u thu HC Hu Hw). congruence.
    + right. destruct Hv as [H1 _]. pose proof (readers_nonneg (rthreads c)). split; [done|]. split; [lia|].
      intros t th Hth. by rewrite (ro_writes c _ HC t th Hth).
  - rewrite Hpr. split; [apply total_nonneg; intros t th _; destruct (rpc th); cbn; lia|].
    pose proof (total_le (fun th => pending_reader (rpc th)) 1 (rthreads c)) as H. rewrite Z.mul_1_l in H. apply H.
    intros t th _. destruct (rpc th); cbn; lia.
  - rewrite Hpw. split; [apply total_nonneg; intros t th _; destruct (rpc th); cbn; lia|].
    pose proof (total_le (fun th => pending_writer (rpc th)) 1 (rthreads c)) as H. rewrite Z.mul_1_l in H. apply H.
    intros t th _. destruct (rpc th); cbn; lia.
  - intros a f Ha. split.
    + intros Hs. assert (interrupts_reader a c \/ ~ interrupts_reader a c) as [Hi|Hi].
      { unfold interrupts_reader. destruct a as [| |t| |]; try (right; intros (? & ? & ? & _); done).
        destruct (rthreads c !! t) as [th|] eqn:Hth; [|right; intros (u & thu & [= <-] & ? & _); congruence].
        destruct (rpc th) eqn:Hp; try (right; intros (u & thu & [= <-] & ? & ?); congruence). left. eauto. }
      * split; [done|]. destruct Hi as (t & th & -> & Hth & Hp). cbn [rstep] in Hs. rewrite Hth, Hp in Hs. cbn in Hs. congruence.
      * pose proof (rstep_safe a c Hm HI Hfew Ha Hi) as H. by rewrite Hs in H.
    + intros [(t & th & -> & Hth & Hp) ->]. cbn [rstep]. by rewrite Hth, Hp.
Qed.

(** No lost wake-up, no deadlock and no endless spinning, although the two numbers
    of pending threads are read one after the other.  When the mutex is free and a
    thread is in one of the locking functions, possibly asleep: whatever threads
    the scheduler picks, as long as it stays free some thread can go on, and after
    at most six steps per thread, if no compare-and-exchange fails for no reason,
    it is taken.  When it is taken, some thread that has it can go on or is in the
    client's code. *)
Theorem rw_progress `{B : BaseMutex} c :
  level_ <> kMonitorLock -> rreachable c -> rfew c ->
  (rw_state_ (rwm c) = 0 -> someone_locks c -> forall n c', nsteps rquiet_free n c c' ->
     (exists c'', rquiet c' c'') /\ Z.of_nat n <= 6 * Z.of_nat (size (rthreads c))) /\
  (rw_state_ (rwm c) <> 0 -> exists t th, rthreads c !! t = Some th /\ (writes (rpc th) = true \/ share (rpc th) = 1) /\
     (rin_client (rpc th) = true \/ exists c', rstep (RGo t (mkRwChoice false (mkTimespec 0 0))) c = Some (Ok c'))).
Proof.
  intros Hm Hr Hfew. pose proof (rreachable_inv c Hm Hr Hfew) as HI. split.
  - intros H0 Hw n c' Hn. destruct (rfree_run n c c' Hm HI Hfew H0 Hw Hn) as (HI' & Hf' & H0' & Hw' & Hle).
    split; [by apply rfree_can_step|]. pose proof (rwork_bounds c). pose proof (rwork_bounds c'). lia.
  - intros Hne. assert (exists t th, rthreads c !! t = Some th /\ (writes (rpc th) = true \/ share (rpc th) = 1)) as (t & th & Hth & Hown).
    { destruct HI as [[[t|] HC] _]; pose proof (ro_view c _ HC) as Hv.
      - destruct Hv as (_ & _ & th & Hth & _). exists t, th. split; [done|]. left. rewrite (ro_writes c _ HC t th Hth). by apply bool_decide_true.
      - destruct Hv as [Hs _]. destruct (total_pos (fun th => share (rpc th)) (rthreads c)) as (t & th & Hth & Hsh); [unfold readers in Hs; lia|].
        exists t, th. split; [done|]. right. pose proof (share_bounds (rpc th)). lia. }
    exists t, th. split; [done|]. split; [done|]. destruct (rin_client (rpc th)) eqn:Hc; [by left|right].
    apply (rcan_go c t th Hm HI Hfew Hth Hc). destruct (rpc th); cbn in *; try done; destruct Hown; done.
Qed.

(** ** Examples *)

Fixpoint run_ractions `{B : BaseMutex} (acts : list RwAction) (c : RwConfig) : option RwConfig :=
  match acts with
  | [] => Some c
  | a :: acts =>
      if rallowed a c then match rstep a c with Some (Ok c') => run_ractions acts c' | _ => None end else None
  end.

Lemma run_ractions_steps `{B : BaseMutex} acts c c' : run_ractions acts c = Some c' -> rtc rcstep c c'.
Proof.
  revert c. induction acts as [|a acts IH]; cbn; intros c H; [by injection H as <-|].
  destruct (rallowed a c) eqn:Ha; [|done]. destruct (rstep a c) as [[c1|f]|] eqn:Hs; try done.
  eapply rtc_l; [|by apply IH]. by exists a.
Qed.

(** The level of the class linker's classes, and three threads. *)
#[local] Instance classes_lock : BaseMutex := {| this := 200; level_ := 37 |}.

Lemma classes_not_monitor : level_ <> kMonitorLock.
Proof. vm_compute. congruence. Qed.

Definition idle_rthread : RwThread := mkRwThread RwOutside ∅ false.
Definition three_ridle : RwConfig := mkRwConfig (mkRw 0 0 0 0) {[1 := idle_rthread; 2 := idle_rthread; 3 := idle_rthread]}.

Lemma three_ridle_initial : rinitial three_ridle.
Proof.
  split; [done|..].
  - intros t th. cbn. rewrite !lookup_insert_Some, lookup_singleton_Some. lia.
  - intros t th. cbn. rewrite !lookup_insert_Some, lookup_singleton_Some. intros H.
    assert (th = idle_rthread) as -> by naive_solver. done.
Qed.

Definition rgoes (t : Z) (n : nat) : list RwAction := replicate n (RGo t (mkRwChoice false (mkTimespec 0 0))).

(** Thread 1 writes, thread 2 sleeps in [SharedLock] and 3 in [ExclusiveLock]. *)
Definition to_asleep : list RwAction :=
  RCall 1 OpWriterLock :: rgoes 1 3 ++ RCall 2 OpReaderLock :: rgoes 2 3 ++ RCall 3 OpWriterLock :: rgoes 3 3.

(** Then 1 releases the mutex and has not woken them yet. *)
Definition to_release : list RwAction := to_asleep ++ RCall 1 OpWriterUnlock :: rgoes 1 2.

Definition run_rfrom (acts : list RwAction) : RwConfig := match run_ractions acts three_ridle with Some c => c | None => three_ridle end.

Lemma run_rfrom_reachable acts : is_Some (run_ractions acts three_ridle) -> rreachable (run_rfrom acts).
Proof.
  intros [c Hc]. exists three_ridle. split; [apply three_ridle_initial|]. unfold run_rfrom. rewrite Hc. by apply (run_ractions_steps acts).
Qed.

Lemma rfew_threads c : bool_decide (Z.of_nat (size (rthreads c)) < 2 ^ 31 - 1) = true -> rfew c.
Proof. intros H%bool_decide_eq_true. done. Qed.

Definition rpc_of (c : RwConfig) (t : Z) : option RwPC := option_map rpc (rthreads c !! t).

(** Interrupting the reader aborts, interrupting the writer does not. *)
Lemma rw_exclusion_witness :
  rreachable (run_rfrom to_asleep) /\ rpc_of (run_rfrom to_asleep) 1 = Some RwWriting /\
  rpc_of (run_rfrom to_asleep) 2 = Some RAsleep /\ rpc_of (run_rfrom to_asleep) 3 = Some (WAsleep None) /\
  rstep (REintr 2) (run_rfrom to_asleep) = Some (Fault FatalLog) /\
  (forall f, rstep (REintr 3) (run_rfrom to_asleep) <> Some (Fault f)).
Proof.
  assert (rreachable (run_rfrom to_asleep)) as Hr by (apply run_rfrom_reachable; vm_compute; eauto).
  assert (rfew (run_rfrom to_asleep)) as Hf by (apply rfew_threads; vm_compute; reflexivity).
  destruct (rw_exclusion (run_rfrom to_asleep) classes_not_monitor Hr Hf) as (_ & _ & _ & H).
  destruct (rthreads (run_rfrom to_asleep) !! 2) as [th2|] eqn:E2; [|vm_compute in E2; discriminate].
  destruct (rthreads (run_rfrom to_asleep) !! 3) as [th3|] eqn:E3; [|vm_compute in E3; discriminate].
  split; [exact Hr|]. split; [vm_compute; reflexivity|]. split; [vm_compute; reflexivity|]. split; [vm_compute; reflexivity|].
  split.
  - apply (H (REintr 2) FatalLog eq_refl). split; [|reflexivity]. exists 2, th2. split; [reflexivity|]. split; [exact E2|].
    vm_compute in E2. injection E2 as <-. reflexivity.
  - intros f Hs. apply (H (REintr 3) f eq_refl) in Hs as [(t & th & [= <-] & Hth & Hp) _]. rewrite E3 in Hth. injection Hth as <-.
    vm_compute in E3. injection E3 as <-. discriminate.
Defined.

Lemma rw_progress_witness :
  rreachable (run_rfrom to_release) /\ rpc_of (run_rfrom to_release) 1 = Some (RwPending false) /\
  rpc_of (run_rfrom to_release) 2 = Some RAsleep /\ rpc_of (run_rfrom to_release) 3 = Some (WAsleep None) /\
  rw_state_ (rwm (run_rfrom to_release)) = 0 /\
  forall n c', nsteps rquiet_free n (run_rfrom to_release) c' -> (exists c'', rquiet c' c'') /\ Z.of_nat n <= 18.
Proof.
  assert (rreachable (run_rfrom to_release)) as Hr by (apply run_rfrom_reachable; vm_compute; eauto).
  assert (rfew (run_rfrom to_release)) as Hf by (apply rfew_threads; vm_compute; reflexivity).
  assert (someone_locks (run_rfrom to_release)) as Hw.
  { exists 3. destruct (rthreads (run_rfrom to_release) !! 3) as [th|] eqn:E; [|vm_compute in E; discriminate].
    exists th. split; [reflexivity|]. vm_compute in E. injection E as <-. reflexivity. }
  split; [exact Hr|]. split; [vm_compute; reflexivity|]. split; [vm_compute; reflexivity|]. split; [vm_compute; reflexivity|].
  split; [vm_compute; reflexivity|].
  intros n c' Hn. apply (proj1 (rw_progress (run_rfrom to_release) classes_not_monitor Hr Hf) ltac:(vm_compute; reflexivity) Hw n c' Hn).
Defined.
